(* ===== verification/_CoqProject ===== *)
-Q . S2P
Prelude.v
GoTime.v
GoText.v
GoCalendar.v
Sha256.v
Effects.v
LogModel.v
UploadState.v
UploadLedger.v
UploadExample.v
UploadSafety.v
UploadProgress.v
UploadRefinement.v
UploadLoop.v
ActionCore.v
ActionWorker.v
ActionBudget.v
ActionJournal.v
ActionJournalSafety.v
ActionJournalLife.v
ActionReceipt.v
ActionPolicy.v
ActionPolicySafety.v
ActionResolve.v
ActionBroker.v
ActionExecution.v
ActionConversation.v
ActionDispatch.v
ActionBrokerSafety.v
ActionBrokerExample.v
ActionReports.v
ActionBrokerLife.v
ActionRuntime.v
ActionRuntimeSafety.v
ActionClient.v
ActionClientSafety.v
LogStatus.v
LogCollector.v
LogCollectorSafety.v
LogCoverage.v
LogCoverageSafety.v
LogProjection.v
LogClock.v
LogStore.v
LogStoreTables.v
LogStoreSafety.v
LogStoreRefinement.v
LogStoreCommit.v
LogRetention.v
LogRetentionSafety.v
LogStoreLife.v
LogSummary.v
Enrollment.v
EnrollmentSafety.v
Activation.v
ActivationSafety.v
ActivationAdmission.v
SharedHandoff.v
HandoffSafety.v
Background.v
BackgroundHost.v
BackgroundSafety.v
BackgroundSystem.v
BackgroundWatch.v
BackgroundStuck.v
BackgroundGuard.v
BackgroundExclusion.v
Lifecycle.v
LifecycleHost.v
LifecycleSafety.v
LifecycleSystem.v
LifecycleExample.v
ConnectedProfile.v
Transition.v
TransitionSafety.v
Scheduler.v
SchedulerSafety.v
Series.v
