(* ===== verification/Prelude.v ===== *)
(** * Home Lab Observer: a verification development

    The program is a home-server agent.  A local service observes the host and its
    logs; a connected agent uploads bounded snapshots to a platform and, where the
    owner allows it, starts, stops or restarts containers on request.  This library
    models the parts of it that decide something (what may be sent, done, stored or
    reported, and when), and proves what makes those decisions right.

    ** Shape of the models

    A Go function without effects is a Rocq function.  A function with effects is a
    program of [Effects]: a tree of calls to the interfaces the Go code receives
    (clock, ledger, transport, engine, SQL connection), in the order of the source,
    with the branches of the source.  [wpc] is a weakest precondition over every
    behaviour an environment allows, with a condition that holds at every step, so
    that a crash between any two calls is covered; [run] executes a program against
    a concrete handler.  Errors are values of [result] or [option].  A mutex that
    is only tried ([TryLock]) is a call; one that is waited for is not, since the
    model runs one critical section at a time.  Deadlines and cancellations are
    answers of the environment.  [int64] and [uint64] are [Z] with wrap-around or
    saturation where the code can reach it.  [Prelude] holds integers, results,
    strings and the tactics; [GoTime], [GoText], [GoCalendar] model what the sources
    use of [time] and [strconv] (monotonic readings, saturating [Sub], RFC 3339
    text); [Sha256] is the digest, tested on the standard's vectors.

    ** The upload path

    - [UploadState]: [internal/uploadstate], the state machine with one ledger
      record.  The document validators of the projection packages are the class
      [Projections].  [UploadSafety]: over every life of an installation (steps,
      restarts, crashes, uncertain commits) a sequence number stands for one body,
      every transmission is durable, fresh and validated, the record stays valid, a
      stop is final.  [UploadProgress]: on a host that is up a document is delivered
      in one step, once, and an interrupted one is repeated unchanged.
    - [UploadLedger]: [internal/uploadledger], the single-row SQLite store: row
      encoding, table constraints, transactions.  [UploadRefinement]: rows
      round-trip, and [Commit] and [Load] refine the abstract ledger of
      [UploadSafety], whatever statements fail.
    - [UploadLoop]: [internal/uploadloop], pacing, backoff and terminal results of
      the loop around the machine.  [turns] has fuel because the loop is unbounded;
      the theorems hold for every amount of it.

    ** The action path

    - [ActionCore]: [internal/actioncore], request validation and the canonical
      journal metadata with its JSON; encoder and parser are inverse.
    - [ActionWorker]: [Execute], from the delivery checks to the engine call.  One
      mutation at most, only after two authority checks and a durable intent, inside
      the time budget; the code says what happened.  And an admissible action on a
      responsive host is carried out.
    - [ActionBudget]: [internal/actionbudget], the checks on the three clocks
      (wall, monotonic, boot) around one claim.
    - [ActionJournal]: [internal/actionjournal], the durable journal: admission,
      intent, terminal result, pruning, guarded transactions, and loading the rows with
      every refusal of opening; attempts are heap objects because callers share them.  [ActionJournalSafety] has the invariants
      of tables and handles and one specification per operation;
      [ActionJournalLife] composes them into lives with crashes and reopenings: an
      action is dispatched at most once, history is kept, permits are bounded.
    - [ActionReceipt], [ActionPolicy], [ActionResolve]: [internal/actionreceipt] and
      [internal/actionpolicy], the claim receipts, the owner's mappings with their
      canonical publication, and how a receipt resolves to a container.
      [ActionPolicySafety]: a valid policy can be published and read back.
    - [ActionBroker]: [internal/actionbroker], reservations, claims, execution
      permits and recovery, one critical section per operation.  [ActionExecution],
      [ActionConversation]: one worker's conversation from the offer to the
      result, with the authority relay and the engine call.  [ActionBrokerSafety]
      has the invariant, [ActionBrokerLife] its consequences under every
      interleaving of handlers, [ActionDispatch] the discipline of one invocation,
      [ActionReports] the composition with the journal, [ActionBrokerExample] a
      concrete life.
    - [ActionRuntime]: the broker process, accept loop, handlers and shutdown;
      [ActionRuntimeSafety]: nothing is released under a running handler, and
      joining ends.
    - [ActionClient]: [internal/actionworker], the worker's side of the protocol, with
      its recovery relays; decoding a recovery query and delivering it are calls.
      [ActionClientSafety]: everything it says follows an abstract machine, and after
      doubt only recovery queries are carried out.

    ** The connected installation

    - [Enrollment]: [internal/enrollmentcoord], the coordinator of one enrollment
      attempt; [EnrollmentSafety]: under any number of goroutines one attempt at
      most reaches the server, its steps are in order and secrets are cleared.
    - [Activation]: [internal/connectedactivation], the activation transaction of
      [internal/connectedinstall] and the worker's rendezvous of
      [internal/connectedstartup].  [ActivationSafety]: a commit is published only
      after the checks of the final audit, each in its place, and failures clean up
      or say they did not.  [ActivationAdmission] composes both ends.
    - [SharedHandoff]: [internal/sharedhandoff], publication and reading of the
      snapshot file between collector and uploader.  [HandoffSafety]: against a
      file system where calls interleave, the writer dies anywhere and a power
      failure keeps only what was synced, it is a durable register.
    - [ConnectedProfile]: [internal/connectedprofile], the installed configuration, the
      public addresses it accepts and its canonical JSON; documents of this family are
      token sequences with one renderer and one reader.  A text that is not canonical
      is refused whatever the JSON decoder makes of it, which is why the reader reads
      canonical texts only.
    - [Transition]: [internal/connectedtransition], the records, preparations, receipts
      and stages of changes of that configuration, and the classification of
      interrupted ones.  [TransitionSafety]: what a record and a stage that validate
      say; documents are canonical, phases are exact, and a history of changes keeps the
      installation.

    ** The background profile

    - [Background]: [internal/background/manager.go], the controller that registers
      the agent as a user service: install guard, operation lock, managed files,
      [Enable], [Start], [Stop], [Restart], [Status] and [Disable] with the recovery of
      interrupted ones; and the template of [adapter_linux.go].  [BackgroundHost] is the
      host it runs on, with what others may do while the lock is not held.
    - [BackgroundSafety] has a specification per operation and [BackgroundSystem]
      composes them: under any number of processes that die anywhere, a registered job
      always has its managed state.  [BackgroundWatch]: every call that changes the job is
      justified by the inspection before it.  [BackgroundStuck]: a [Disable] that dies
      while writing its disabling file leaves a state no operation gets out of.
    - [BackgroundGuard]: the install guard, a directory with a locked owner file, of
      which the file system is modelled with the deaths of owners and the taking away of
      what they left.  [BackgroundExclusion]: whatever an operation changes it changes
      while it alone holds the guard, as long as the cleanup can truncate its owner
      file, whose error it ignores; where it cannot, two processes work at once.

    ** The graceful-stop channel

    - [Lifecycle]: [internal/lifecycle], the endpoint a managed observer publishes, its
      watch, [Close] and [Abandon], and [RequestStop].  [LifecycleHost] is the control
      directory with the lock and the fate of every nonce, which calls are allowed, and
      what others may rely on; [LifecycleSafety] goes through the routines.
    - [LifecycleSystem]: any number of observers, watches and requesters interleave and
      die.  A stop that is confirmed is of an instance whose publication was removed, and
      no instance is stopped without a request for it.  [LifecycleExample] has concrete
      runs, one of which confirms the stop of an instance that was abandoned.

    ** The collection scheduler

    - [Scheduler]: [internal/scheduler], the loop that collects on ticks and triggers,
      and the operations of other goroutines; what is done under the mutex is one call.
      [SchedulerSafety]: assertions of the loop that others keep, and the system of all
      goroutines: readers never go back to an older or a failed snapshot, statistics and
      triggers are accounted for, and the store is closed once, after which only its
      health is asked.

    ** Metric series

    - [Series]: [internal/series], the answers to requests for metric series, with
      binary64 arithmetic ([SpecFloat]): each point has exactly the entries of its
      interval, and the window always fits the bound on points.

    ** The log path

    - [LogModel]: [internal/logobs/types.go] and [validate.go], every contract and
      validator.  [LogStatus]: how statuses are derived, overlaid and aggregated.
    - [LogCollector]: a collection round over the shared maps;
      [LogCollectorSafety]: what a reader sees is valid at every moment, a batch is
      applied at most once.
    - [LogCoverage]: [internal/history/log_coverage.go]; [LogCoverageSafety]: the
      sweep of the merge equals its pointwise reference; [LogProjection]: the
      projection onto a bucket counts exactly the covered seconds.
    - [LogStore]: the durable store behind the collector ([log_store.go],
      [log_rollups.go], [log_summary.go], [log_schema.go] of [internal/history]):
      tables as maps from primary keys, transaction bodies as functions on them.
      [LogClock]: its time texts, which round-trip and sort like instants, which is
      why the tables may be keyed by instants.  [LogStoreTables]: reads and writes
      in key order.  [LogStoreSafety]: the invariant [store_ok] and what a
      successful commit does.  [LogStoreCommit]: what a commit makes of
      every instant, and that each event is counted once.
      [LogStoreRefinement]: [CommitBatch] and [LoadCheckpoint] are behaviours of
      the environment [LogCollectorSafety] assumes, whatever statement or commit
      fails.  [LogSummary]: when a query is refused, and else its exact sums.
    - [LogRetention]: [log_maintenance.go] and the prune transactions of
      [maintenance.go]; the loop is bounded by its batch, so it needs no fuel.
      [LogRetentionSafety]: pruning cannot fail and keeps [store_ok].
      [LogStoreLife]: over any sequence of operations with crashes, a minute whose
      counts were evicted is never again shown as covered.  The cutoff's year is
      assumed to be within 1 to 9999, where a formatted time is a stored one.

    ** Fuel

    Loops bounded by data are structural.  [search_strings] has the length of its
    list as fuel, which its halving interval cannot exceed.  Joining the runtime has
    3001 rounds, one per 25 ms of the 75 s after which the quiescence check fails;
    the waits of the activation have 601, one per 50 ms of 30 s: in both the last
    round is unreachable and that is proved.  [scan_strs] has the length of its text, and
    every string read takes a character of it.  [waitForStopped] has 351 ticks,
    one per 100 ms of the 35 s after which its context ends.  The worker's, the broker's, the
    uploader's, the scheduler's and the watch's loops and the wait of [RequestStop] are unbounded, and their theorems hold for every fuel.

    ** Not modelled

    Opening, locking and permissions of files, PRAGMA configuration, sockets, HTTP,
    the Docker and operating-system interfaces, service managers, installers, the
    user interface, release packaging and flag parsing: they are effects at the
    edge, and the models see them as answers of an environment.  SQLite is modelled
    as a table with transactions: a failed COMMIT may or may not have become
    durable.  Of the metric history only the keys that retention removes are
    modelled, not the floating-point values, their rollups, or the health record
    around [Maintain].  The ticker of the log collector and the other packages of [internal]
    are not modelled.  Of the modelled packages these
    are left out: listeners and the verification of peers, tokenising of the
    permissive JSON decoders, decoding of the policy file, the recovery protocol
    beyond the one call that relays it, systemctl parsing, probes and audits of
    processes, opening a handoff slot with its lock, and, of the background profile, the
    commands of the platform adapters, validation of settings and of the install root,
    and the settings file's JSON. *)

From Stdlib Require Export ZArith Lia Ascii String.
From stdpp Require Export base list gmap strings.

#[global] Open Scope Z_scope.

(** ** Machine integers *)

Definition MaxInt64 : Z := 2 ^ 63 - 1.
Definition MinInt64 : Z := - 2 ^ 63.
Definition MaxUint64 : Z := 2 ^ 64 - 1.

(** Two's complement wrap-around of Go's [int64], and [uint64] arithmetic. *)
Definition wrap_i64 (z : Z) : Z := (z + 2 ^ 63) mod 2 ^ 64 - 2 ^ 63.
Definition wrap_u64 (z : Z) : Z := z mod 2 ^ 64.
Definition in_i64 (z : Z) : bool := (MinInt64 <=? z) && (z <=? MaxInt64).
Definition in_u64 (z : Z) : bool := (0 <=? z) && (z <=? MaxUint64).

(** ** Results of fallible calls *)

(** A Go function returning [(T, error)]: exactly one of the two is meaningful. *)
Inductive result (E A : Type) : Type :=
| Ok (a : A)
| Err (e : E).
Arguments Ok {E A} a.
Arguments Err {E A} e.

Definition is_ok {E A} (r : result E A) : bool :=
  match r with Ok _ => true | Err _ => false end.

Definition res_bind {E A B} (r : result E A) (f : A → result E B) : result E B :=
  match r with Ok a => f a | Err e => Err e end.

Declare Scope go_scope.
Delimit Scope go_scope with go.
Notation "'let?' x ':=' r 'in' k" := (res_bind r (λ x, k))
  (at level 10, x pattern, r at level 100, k at level 200) : go_scope.
(** [ensure b else e in k]: Go's early return [if !b { return e }]. *)
Notation "'ensure' b 'else' e 'in' k" := (if b then k else Err e)
  (at level 10, b at level 100, e at level 100, k at level 200) : go_scope.
(** Go's [==] and [!=] on comparable values. *)
Notation "a == b" := (bool_decide (a = b)) (at level 70, no associativity) : go_scope.
Notation "a != b" := (negb (bool_decide (a = b))) (at level 70, no associativity) : go_scope.
#[global] Open Scope go_scope.

#[global] Instance result_eq_dec {E A} `{EqDecision E, EqDecision A} : EqDecision (result E A).
Proof. solve_decision. Defined.

(** ** Byte strings

    Go's [string] and [[]byte] are both finite byte sequences; the development
    uses the Standard Library's [string] for either. *)

Definition byte_val (c : ascii) : Z := Z.of_N (N_of_ascii c).

Fixpoint str_forallb (p : ascii → bool) (s : string) : bool :=
  match s with
  | EmptyString => true
  | String c s' => p c && str_forallb p s'
  end.

Definition slen (s : string) : Z := Z.of_nat (String.length s).

Definition between (lo hi : Z) (c : ascii) : bool :=
  (lo <=? byte_val c) && (byte_val c <=? hi).

(** ['0' <= c <= '9' || 'a' <= c <= 'f'], the test every package spells out. *)
Definition is_lower_hex (c : ascii) : bool := between 48 57 c || between 97 102 c.
(** [A-Za-z0-9_-], the alphabet of the credential patterns. *)
Definition is_token_char (c : ascii) : bool :=
  between 65 90 c || between 97 122 c || between 48 57 c
  || (byte_val c =? 95) || (byte_val c =? 45).

(** An anchored pattern [^prefix[class]{n}$]. *)
Definition match_pattern (prefix : string) (cls : ascii → bool) (n : Z) (s : string) : bool :=
  String.prefix prefix s
  && (slen s =? slen prefix + n)
  && str_forallb cls (String.substring (String.length prefix) (String.length s) s).

Definition str_eqb (a b : string) : bool := String.eqb a b.

(** ** Tactics *)

Create HintDb observer.
Create Rewrite HintDb observer_simpl.

(** Turn boolean facts of the models into propositions. *)
Ltac bools :=
  repeat match goal with
  | H : _ && _ = true |- _ => apply andb_true_iff in H as [? ?]
  | H : _ || _ = false |- _ => apply orb_false_iff in H as [? ?]
  | H : negb _ = true |- _ => apply negb_true_iff in H
  | H : negb _ = false |- _ => apply negb_false_iff in H
  | H : (_ =? _) = true |- _ => apply Z.eqb_eq in H
  | H : (_ =? _) = false |- _ => apply Z.eqb_neq in H
  | H : (_ <=? _) = true |- _ => apply Z.leb_le in H
  | H : (_ <=? _) = false |- _ => apply Z.leb_gt in H
  | H : (_ <? _) = true |- _ => apply Z.ltb_lt in H
  | H : (_ <? _) = false |- _ => apply Z.ltb_ge in H
  | H : bool_decide _ = true |- _ => apply bool_decide_eq_true in H
  | H : bool_decide _ = false |- _ => apply bool_decide_eq_false in H
  | H : str_eqb _ _ = true |- _ => apply String.eqb_eq in H
  | H : str_eqb _ _ = false |- _ => apply String.eqb_neq in H
  end.

(** Case analysis on the innermost [match] or [if] scrutinee of a hypothesis. *)
Ltac case_hyp H :=
  match type of H with
  | context [match ?x with _ => _ end] =>
      lazymatch x with
      | context [match _ with _ => _ end] => fail
      | _ => let E := fresh "E" in destruct x eqn:E; try discriminate H
      end
  end.
Ltac cases H := repeat (case_hyp H; simpl in H); try discriminate H.

(** Case analysis on membership in a list given by enumeration. *)
Ltac in_cases H :=
  repeat (let H' := fresh in apply elem_of_cons in H as H'; clear H; destruct H' as [H'|H];
          [try subst|]);
  try (by apply not_elem_of_nil in H).

(** Linear arithmetic with [/] and [mod] by constants. *)
Ltac div_lia := Z.to_euclidean_division_equations; lia.

Ltac case_goal :=
  match goal with
  | |- context [match ?x with _ => _ end] =>
      lazymatch x with
      | context [match _ with _ => _ end] => fail
      | _ => let E := fresh "E" in destruct x eqn:E
      end
  end.

(** ** Shared lemmas *)

Lemma str_eqb_refl s : str_eqb s s = true.
Proof. apply String.eqb_refl. Qed.

Lemma str_eqb_eq a b : str_eqb a b = true ↔ a = b.
Proof. apply String.eqb_eq. Qed.

Lemma append_cons c (s t : string) : (String c s ++ t = String c (s ++ t))%string.
Proof. done. Qed.

Lemma append_nil (s : string) : ("" ++ s = s)%string.
Proof. done. Qed.

Lemma append_assoc (a b c : string) : ((a ++ b) ++ c = a ++ (b ++ c))%string.
Proof. induction a as [|x a IH]; [done|]. rewrite !append_cons. by rewrite IH. Qed.

Lemma slen_append (s t : string) : slen (s ++ t)%string = slen s + slen t.
Proof.
  unfold slen. induction s as [|c s IH]; [done|]. rewrite append_cons. cbn [String.length]. lia.
Qed.

Lemma str_forallb_append p (s t : string) :
  str_forallb p (s ++ t)%string = str_forallb p s && str_forallb p t.
Proof.
  induction s as [|c s IH]; [done|]. rewrite append_cons. cbn [str_forallb].
  by rewrite IH, andb_assoc.
Qed.

Lemma str_forallb_mono (p q : ascii → bool) s :
  (∀ c, p c = true → q c = true) → str_forallb p s = true → str_forallb q s = true.
Proof.
  intros Hpq. induction s as [|c s IH]; [done|]. simpl. rewrite !andb_true_iff.
  intros [? ?]. auto.
Qed.

Lemma length_substring_0 k (s : string) : String.length (substring 0 k s) = (k `min` String.length s)%nat.
Proof. revert k. induction s as [|ch s IH]; intros [|k]; simpl; auto. Qed.

Lemma substring_prefix_0 n s : (String.length s ≤ n)%nat → substring 0 n s = s.
Proof.
  revert n. induction s as [|c s IH]; intros [|n] Hn; simpl in *; try lia; try done.
  f_equal. apply IH. lia.
Qed.

Lemma prefix_split (p s : string) n :
  String.prefix p s = true → (String.length s ≤ n)%nat →
  s = (p ++ substring (String.length p) n s)%string.
Proof.
  revert s. induction p as [|c p IH]; intros s Hp Hn.
  - rewrite append_nil. symmetry. by apply substring_prefix_0.
  - destruct s as [|c' s]; [done|]. simpl in Hp.
    destruct (ascii_dec c c') as [->|]; [|done]. rewrite append_cons. cbn [String.length substring].
    simpl in Hn. f_equal. apply IH; [done|lia].
Qed.

(** What an anchored pattern says about a string. *)
Lemma match_pattern_spec pre cls n s :
  match_pattern pre cls n s = true →
  ∃ rest, s = (pre ++ rest)%string ∧ slen rest = n ∧ str_forallb cls rest = true.
Proof.
  unfold match_pattern. intros H. bools. eexists. split; [by apply prefix_split|].
  split; [|done]. match goal with H : slen s = _ |- _ => revert H end.
  rewrite (prefix_split pre s (String.length s)) at 1 by done. rewrite slen_append. lia.
Qed.

Lemma pattern_len pre cls n s : match_pattern pre cls n s = true → slen s = slen pre + n.
Proof. intros (rest & -> & <- & _)%match_pattern_spec. apply slen_append. Qed.

Lemma wrap_i64_id z : MinInt64 ≤ z ≤ MaxInt64 → wrap_i64 z = z.
Proof. unfold wrap_i64, MinInt64, MaxInt64; intros; rewrite Z.mod_small; lia. Qed.

Lemma wrap_u64_id z : 0 ≤ z ≤ MaxUint64 → wrap_u64 z = z.
Proof. unfold wrap_u64, MaxUint64; intros; rewrite Z.mod_small; lia. Qed.

Lemma is_ok_true {E A} (r : result E A) : is_ok r = true ↔ ∃ a, r = Ok a.
Proof. destruct r; simpl; split; [eauto | done | done | by intros [? ?]]. Qed.

(** ** Counting the entries of a finite map *)

Definition count {A} (f : A → bool) (m : gmap string A) : nat :=
  length (filter (λ p, f p.2 = true) (map_to_list m)).

Definition one (b : bool) : nat := if b then 1%nat else 0%nat.

Lemma count_empty {A} (f : A → bool) : count f ∅ = 0%nat.
Proof. unfold count. by rewrite map_to_list_empty. Qed.

Lemma count_insert {A} (f : A → bool) m i x :
  m !! i = None → count f (<[i := x]> m) = (one (f x) + count f m)%nat.
Proof.
  intros Hi. unfold count. rewrite (map_to_list_insert m i x Hi), filter_cons. simpl.
  destruct (f x) eqn:Hf; case_decide; simpl; congruence.
Qed.

Lemma count_delete {A} (f : A → bool) m i x :
  m !! i = Some x → count f m = (one (f x) + count f (delete i m))%nat.
Proof.
  intros Hi. rewrite <- (insert_delete_id m i x Hi) at 1.
  apply count_insert. apply lookup_delete_eq.
Qed.

Lemma count_replace {A} (f : A → bool) m i x y :
  m !! i = Some x → (count f (<[i := y]> m) + one (f x) = count f m + one (f y))%nat.
Proof.
  intros Hi. rewrite (count_delete f m i x Hi).
  rewrite (count_delete f (<[i := y]> m) i y) by apply lookup_insert_eq.
  rewrite delete_insert_eq. lia.
Qed.

Lemma count_ext {A} (f g : A → bool) m :
  (∀ i x, m !! i = Some x → f x = g x) → count f m = count g m.
Proof.
  intros Hfg. unfold count.
  assert (Hl : ∀ i x, (i, x) ∈ map_to_list m → f x = g x)
    by (intros i x Hin%elem_of_map_to_list; eauto).
  clear Hfg. induction (map_to_list m) as [|[i x] l IH]; [done|]. rewrite !filter_cons. cbn [snd].
  assert (f x = g x) by (apply (Hl i); by constructor).
  assert (length (filter (λ p, f p.2 = true) l) = length (filter (λ p, g p.2 = true) l))
    by (apply IH; intros; eapply Hl; by constructor).
  repeat case_decide; cbn [length]; congruence.
Qed.

Lemma count_le {A} (f : A → bool) (m m' : gmap string A) :
  (∀ i x, m' !! i = Some x → f x = true → m !! i = Some x) → (count f m' ≤ count f m)%nat.
Proof.
  intros Hm. unfold count. apply submseteq_length, NoDup_submseteq.
  - apply NoDup_filter, NoDup_map_to_list.
  - intros [i x]. rewrite !list_elem_of_filter, !elem_of_map_to_list. simpl. intros [? ?]. auto.
Qed.

Lemma count_positive {A} (f : A → bool) m i x : m !! i = Some x → f x = true → (1 ≤ count f m)%nat.
Proof. intros Hi Hf. rewrite (count_delete f m i x Hi), Hf. simpl. lia. Qed.

#[export] Hint Rewrite @bool_decide_eq_true_2 using done : observer_simpl.
#[export] Hint Rewrite str_eqb_refl : observer_simpl.
#[export] Hint Resolve str_eqb_refl : observer.
