(* ===== verification/GoTime.v ===== *)
(** * Go's [time] package, as far as the observer uses it

    A [time.Time] is an instant, an optional monotonic clock reading and a
    location.  Instants are nanoseconds since Go's zero time (January 1, year 1,
    00:00:00 UTC); of the location only "is it [time.UTC]" is ever inspected.
    A [time.Duration] is an [int64] of nanoseconds; [Sub] saturates instead of
    wrapping, and comparisons and [Sub] use the monotonic readings when both
    operands carry one. *)

From S2P Require Import Prelude.

(** Every function of package [time] that sets the UTC location drops the
    monotonic reading, so only local times can carry one. *)
Inductive zone := InUTC | InLocal (reading : option Z).

Record time := Time { wall : Z; clock : zone }.

#[global] Instance zone_eq_dec : EqDecision zone.
Proof. solve_decision. Defined.
#[global] Instance time_eq_dec : EqDecision time.
Proof. solve_decision. Defined.

Definition mono (t : time) : option Z :=
  match clock t with InUTC => None | InLocal m => m end.
(** [t.Location() == time.UTC]. *)
Definition utc (t : time) : bool :=
  match clock t with InUTC => true | InLocal _ => false end.
(** An instant in UTC. *)
Definition At (ns : Z) : time := Time ns InUTC.

(** ** Durations *)

Definition Nanosecond : Z := 1.
Definition Microsecond : Z := 1000.
Definition Millisecond : Z := 1000000.
Definition Second : Z := 1000000000.
Definition Minute : Z := 60 * Second.
Definition Hour : Z := 60 * Minute.
Definition Day : Z := 24 * Hour.

Definition sat64 (d : Z) : Z := Z.max MinInt64 (Z.min MaxInt64 d).

(** ** Constructors and projections *)

(** [time.Time{}]; its [Location()] is UTC. *)
Definition zeroTime : time := At 0.
Definition IsZero (t : time) : bool := wall t =? 0.
(** [t.UTC()] sets the location and strips the monotonic reading. *)
Definition UTC (t : time) : time := At (wall t).
(** January 1 of year 10000: the first instant whose [Year()] exceeds 9999. *)
Definition year10000 : Z := 3652059 * Day.
(** [1 <= t.Year() && t.Year() <= 9999] for a time in UTC. *)
Definition year_ok (t : time) : bool := (0 <=? wall t) && (wall t <? year10000).
Definition NanosecondOf (t : time) : Z := wall t mod Second.
(** Seconds from Go's zero time to the Unix epoch. *)
Definition unixOffset : Z := 62135596800.
Definition Unix (t : time) : Z := wall t / Second - unixOffset.

(** ** Comparison and arithmetic *)

(** The pair of readings an operation compares. *)
Definition readings (t u : time) : Z * Z :=
  match mono t, mono u with
  | Some a, Some b => (a, b)
  | _, _ => (wall t, wall u)
  end.

Definition After (t u : time) : bool := let '(a, b) := readings t u in b <? a.
Definition Before (t u : time) : bool := let '(a, b) := readings t u in a <? b.
Definition Equal (t u : time) : bool := let '(a, b) := readings t u in a =? b.
Definition Sub (t u : time) : Z := let '(a, b) := readings t u in sat64 (a - b).

(** [t.Add(d)]; a monotonic reading that would overflow is dropped. *)
Definition Add (t : time) (d : Z) : time :=
  Time (wall t + d)
       (match clock t with
        | InUTC => InUTC
        | InLocal (Some m) => InLocal (if in_i64 (m + d) then Some (m + d) else None)
        | InLocal None => InLocal None
        end).

(** [t.Truncate(d)] rounds down to a multiple of [d] since the zero time. *)
Definition Truncate (t : time) (d : Z) : time :=
  let z := match clock t with InUTC => InUTC | InLocal _ => InLocal None end in
  if d <=? 0 then Time (wall t) z
  else Time (wall t - wall t mod d) z.

(** ** Wall-clock times

    Times that have been through [UTC()], a parser or a store have no monotonic
    reading; on them the operations are ordinary arithmetic on instants. *)

Definition wallclock (t : time) : Prop := mono t = None.

Lemma UTC_wallclock t : wallclock (UTC t).
Proof. done. Qed.

Lemma Add_wallclock t d : wallclock t → wallclock (Add t d).
Proof. destruct t as [w [|[m|]]]; by intros. Qed.

Lemma utc_wallclock t : utc t = true → wallclock t.
Proof. by destruct t as [w []]. Qed.

Lemma utc_UTC t : utc t = true → UTC t = t.
Proof. by destruct t as [w []]. Qed.

Lemma readings_wall_l t u : wallclock t → readings t u = (wall t, wall u).
Proof. unfold wallclock, readings; intros ->. by destruct (mono u). Qed.

Lemma readings_wall_r t u : wallclock u → readings t u = (wall t, wall u).
Proof. unfold wallclock, readings; intros ->. by destruct (mono t). Qed.

Lemma Before_wall_l t u : wallclock t → Before t u = (wall t <? wall u).
Proof. intros H. unfold Before. by rewrite readings_wall_l. Qed.
Lemma Before_wall_r t u : wallclock u → Before t u = (wall t <? wall u).
Proof. intros H. unfold Before. by rewrite readings_wall_r. Qed.
Lemma After_wall_l t u : wallclock t → After t u = (wall u <? wall t).
Proof. intros H. unfold After. by rewrite readings_wall_l. Qed.
Lemma After_wall_r t u : wallclock u → After t u = (wall u <? wall t).
Proof. intros H. unfold After. by rewrite readings_wall_r. Qed.
Lemma Equal_wall_l t u : wallclock t → Equal t u = (wall t =? wall u).
Proof. intros H. unfold Equal. by rewrite readings_wall_l. Qed.
Lemma Equal_wall_r t u : wallclock u → Equal t u = (wall t =? wall u).
Proof. intros H. unfold Equal. by rewrite readings_wall_r. Qed.
Lemma Sub_wall_l t u : wallclock t → Sub t u = sat64 (wall t - wall u).
Proof. intros H. unfold Sub. by rewrite readings_wall_l. Qed.
Lemma Sub_wall_r t u : wallclock u → Sub t u = sat64 (wall t - wall u).
Proof. intros H. unfold Sub. by rewrite readings_wall_r. Qed.

Lemma Equal_refl t : Equal t t = true.
Proof. unfold Equal, readings. destruct (mono t); apply Z.eqb_refl. Qed.

Lemma After_Before t u : After t u = Before u t.
Proof. unfold After, Before, readings. destruct (mono t), (mono u); done. Qed.

Lemma wall_Add t d : wall (Add t d) = wall t + d.
Proof. done. Qed.

Lemma wall_UTC t : wall (UTC t) = wall t.
Proof. done. Qed.

(** A saturated difference compares with any bound inside the [int64] range the
    way the exact difference does. *)
Lemma sat64_gt d b : MinInt64 ≤ b < MaxInt64 → (sat64 d > b ↔ d > b).
Proof. unfold sat64. lia. Qed.
Lemma sat64_le d b : MinInt64 ≤ b < MaxInt64 → (sat64 d ≤ b ↔ d ≤ b).
Proof. unfold sat64. lia. Qed.
Lemma sat64_eq d b : MinInt64 < b < MaxInt64 → (sat64 d = b ↔ d = b).
Proof. unfold sat64. lia. Qed.
Lemma sat64_id d : MinInt64 ≤ d ≤ MaxInt64 → sat64 d = d.
Proof. unfold sat64. lia. Qed.

#[export] Hint Resolve UTC_wallclock Add_wallclock utc_wallclock : observer.
#[export] Hint Unfold wallclock : observer.
