(* ===== verification/GoText.v ===== *)
(** * Go's decimal text conversions ([strconv])

    [ParseUint]/[FormatUint] in base 10, the only conversions the modelled
    packages use, on the Standard Library's decimal numerals. *)

From S2P Require Import Prelude.
From Stdlib Require Import DecimalString DecimalN.

(** [strconv.ParseUint(s, 10, bits)]: digits only, non-empty, in range. *)
Definition ParseUint (s : string) (bits : Z) : option Z :=
  match NilZero.uint_of_string s with
  | Some d =>
      let n := Z.of_N (N.of_uint d) in
      if n <=? 2 ^ bits - 1 then Some n else None
  | None => None
  end.

(** [strconv.FormatUint(n, 10)]. *)
Definition FormatUint (n : Z) : string := NilZero.string_of_uint (N.to_uint (Z.to_N n)).

Lemma N_to_uint_non_nil n : N.to_uint n ≠ Decimal.Nil.
Proof.
  destruct n as [|p]; [done|]. intros H.
  assert (N.of_uint (N.to_uint (N.pos p)) = 0%N) as H0 by by rewrite H.
  rewrite DecimalN.Unsigned.of_to in H0. done.
Qed.

Lemma ParseUint_FormatUint n bits :
  0 ≤ n ≤ 2 ^ bits - 1 → ParseUint (FormatUint n) bits = Some n.
Proof.
  intros Hn. unfold ParseUint, FormatUint.
  rewrite NilZero.usu by apply N_to_uint_non_nil.
  rewrite DecimalN.Unsigned.of_to, Z2N.id by lia.
  destruct (Z.leb_spec n (2 ^ bits - 1)); [done | lia].
Qed.

Lemma ParseUint_range s bits n : ParseUint s bits = Some n → 0 ≤ n ≤ 2 ^ bits - 1.
Proof.
  unfold ParseUint. destruct (NilZero.uint_of_string s); [|done]. destruct (_ <=? _) eqn:E; [|done].
  intros [= <-]. apply Z.leb_le in E. lia.
Qed.

Lemma FormatUint_inj n m : 0 ≤ n → 0 ≤ m → FormatUint n = FormatUint m → n = m.
Proof.
  intros Hn Hm H.
  assert (H' : ParseUint (FormatUint n) (Z.max n m + 1) = ParseUint (FormatUint m) (Z.max n m + 1))
    by by rewrite H.
  assert (Hb : Z.max n m ≤ 2 ^ (Z.max n m + 1) - 1).
  { pose proof (Z.pow_gt_lin_r 2 (Z.max n m + 1)). lia. }
  rewrite !ParseUint_FormatUint in H' by lia. congruence.
Qed.

Example ParseUint_examples :
  ParseUint "4294967295" 32 = Some 4294967295
  ∧ ParseUint "4294967296" 32 = None ∧ ParseUint "" 32 = None ∧ ParseUint "1a" 32 = None
  ∧ FormatUint 0 = "0"%string ∧ FormatUint 120 = "120"%string.
Proof. vm_compute. done. Qed.

(** Decimal numerals consist of digits. *)
Lemma uint_digits d : str_forallb (between 48 57) (NilEmpty.string_of_uint d) = true.
Proof. by induction d. Qed.

Lemma FormatUint_digits n : str_forallb (between 48 57) (FormatUint n) = true.
Proof. unfold FormatUint, NilZero.string_of_uint. case_match; try done; apply uint_digits. Qed.

(** A numeral of [k] digits is below [10^k]. *)
Lemma of_uint_acc_bound d acc :
  Z.pos (Pos.of_uint_acc d acc) < (Z.pos acc + 1) * 10 ^ slen (NilEmpty.string_of_uint d).
Proof.
  unfold slen. revert acc. induction d; intros acc; cbn [Pos.of_uint_acc NilEmpty.string_of_uint String.length];
    [simpl; lia|..]; rewrite Nat2Z.inj_succ, Z.pow_succ_r by lia;
    match goal with |- Z.pos (Pos.of_uint_acc _ ?a) < _ => specialize (IHd a) end;
    nia.
Qed.

Lemma FormatUint_below n : 0 ≤ n → n < 10 ^ slen (FormatUint n).
Proof.
  intros Hn. unfold FormatUint.
  rewrite <- (Z2N.id n) at 1 by done. rewrite <- (DecimalN.Unsigned.of_to (Z.to_N n)) at 1.
  pose proof (N_to_uint_non_nil (Z.to_N n)) as Hnil.
  assert (Hall : ∀ d, Z.of_N (N.of_uint d) < 10 ^ slen (NilEmpty.string_of_uint d)).
  { unfold N.of_uint, slen. induction d; try (cbn; done);
      cbn [Pos.of_uint NilEmpty.string_of_uint String.length]; rewrite Nat2Z.inj_succ, Z.pow_succ_r by lia;
      [nia|..];
      match goal with |- Z.of_N (N.pos (Pos.of_uint_acc ?d ?a)) < _ =>
        pose proof (of_uint_acc_bound d a) as H; unfold slen in H;
        pose proof (Z.pow_pos_nonneg 10 (Z.of_nat (String.length (NilEmpty.string_of_uint d)))); lia end. }
  destruct (N.to_uint (Z.to_N n)) eqn:E; try done; apply Hall.
Qed.
