(* ===== verification/GoCalendar.v ===== *)
(** * Calendar dates and RFC 3339 text ([time.Format], [time.Parse])

    The proleptic Gregorian calendar of package [time] in UTC, the layout
    [time.RFC3339Nano] and the fixed-width layouts the stores use.  The observer
    parses a time only where it also compares the result's canonical text with
    the input, so a parser of the canonical form (upper-case [Z], no offset) is
    the whole of the accepted language. *)

From S2P Require Import Prelude GoTime GoText.

(** ** Dates *)

Definition is_leap (y : Z) : bool :=
  (y mod 4 =? 0) && (negb (y mod 100 =? 0) || (y mod 400 =? 0)).

(** Days before January 1 of year [y], counted from January 1 of year 1. *)
Definition days_before_year (y : Z) : Z :=
  let p := y - 1 in 365 * p + p / 4 - p / 100 + p / 400.

(** Year and day of the year of a day count. *)
Definition year_of_day (d : Z) : Z * Z :=
  let n400 := d / 146097 in let d := d mod 146097 in
  let n100 := Z.min 3 (d / 36524) in let d := d - 36524 * n100 in
  let n4 := d / 1461 in let d := d mod 1461 in
  let n1 := Z.min 3 (d / 365) in let d := d - 365 * n1 in
  (400 * n400 + 100 * n100 + 4 * n4 + n1 + 1, d).

(** Days before month [m] (1 to 12) in a year. *)
Definition days_before_month (leap : bool) (m : Z) : Z :=
  let extra := if leap then 1 else 0 in
  match m with
  | 1 => 0 | 2 => 31 | 3 => 59 + extra | 4 => 90 + extra | 5 => 120 + extra
  | 6 => 151 + extra | 7 => 181 + extra | 8 => 212 + extra | 9 => 243 + extra
  | 10 => 273 + extra | 11 => 304 + extra | 12 => 334 + extra | _ => 365 + extra
  end.
Definition days_in_month (leap : bool) (m : Z) : Z :=
  days_before_month leap (m + 1) - days_before_month leap m.

(** The month containing a day of the year: the last one starting by then. *)
Definition month_of_day (leap : bool) (yday : Z) : Z :=
  List.fold_left (λ acc m, if days_before_month leap m <=? yday then m else acc)
                 [1; 2; 3; 4; 5; 6; 7; 8; 9; 10; 11; 12] 1.

Record date := MkDate { d_year : Z; d_month : Z; d_day : Z }.

Definition date_of_day (d : Z) : date :=
  let '(y, yday) := year_of_day d in
  let m := month_of_day (is_leap y) yday in
  MkDate y m (yday - days_before_month (is_leap y) m + 1).

Definition day_of_date (x : date) : Z :=
  days_before_year (d_year x) + days_before_month (is_leap (d_year x)) (d_month x) + d_day x - 1.

Definition valid_date (x : date) : bool :=
  (1 <=? d_month x) && (d_month x <=? 12) && (1 <=? d_day x)
  && (d_day x <=? days_in_month (is_leap (d_year x)) (d_month x)).

(** ** Clock readings *)

Record civil := MkCivil { c_date : date; c_hour : Z; c_minute : Z; c_second : Z; c_nanos : Z }.

Definition civil_of (t : time) : civil :=
  let d := wall t / Day in let ns := wall t mod Day in
  MkCivil (date_of_day d) (ns / Hour) (ns mod Hour / Minute)
          (ns mod Minute / Second) (ns mod Second).

Definition wall_of (c : civil) : Z :=
  day_of_date (c_date c) * Day + c_hour c * Hour + c_minute c * Minute
  + c_second c * Second + c_nanos c.

Definition valid_civil (c : civil) : bool :=
  valid_date (c_date c) && (c_hour c <? 24) && (c_minute c <? 60) && (c_second c <? 60).

(** ** Text *)

Definition digit (v : Z) : ascii := ascii_of_N (Z.to_N (48 + v)).

(** [n] decimal digits of [v], most significant first. *)
Fixpoint pad (n : nat) (v : Z) : string :=
  match n with
  | O => ""
  | S n' => String (digit (v / 10 ^ Z.of_nat n' mod 10)) (pad n' v)
  end.

(** The year with at least four digits. *)
Definition year_text (y : Z) : string :=
  if (0 <=? y) && (y <? 10000) then pad 4 y
  else if y <? 0 then "-" ++ (if y <? -9999 then FormatUint (- y) else pad 4 (- y))
  else FormatUint y.

(** Layout [.999999999]: no trailing zeros, nothing at all for zero. *)
Fixpoint trimmed (k : nat) (v : Z) : string :=
  match k with
  | O => ""
  | S k' => if v mod 10 =? 0 then trimmed k' (v / 10) else pad k v
  end.
Definition fraction_text (ns : Z) : string :=
  if ns =? 0 then "" else "." ++ trimmed 9 ns.

Definition seconds_text (c : civil) : string :=
  year_text (d_year (c_date c)) ++ "-" ++ pad 2 (d_month (c_date c)) ++ "-"
  ++ pad 2 (d_day (c_date c)) ++ "T" ++ pad 2 (c_hour c) ++ ":" ++ pad 2 (c_minute c)
  ++ ":" ++ pad 2 (c_second c).

(** [t.UTC().Format(time.RFC3339Nano)] *)
Definition FormatRFC3339Nano (t : time) : string :=
  let c := civil_of t in seconds_text c ++ fraction_text (c_nanos c) ++ "Z".

(** ** Parsing *)

Definition digit_value (c : ascii) : option Z :=
  if between 48 57 c then Some (byte_val c - 48) else None.

Fixpoint digits (n : nat) (acc : Z) (s : string) : option (Z * string) :=
  match n with
  | O => Some (acc, s)
  | S n' =>
      match s with
      | EmptyString => None
      | String c s' =>
          match digit_value c with
          | Some v => digits n' (10 * acc + v) s'
          | None => None
          end
      end
  end.

Definition literal (c : ascii) (s : string) : option string :=
  match s with
  | String c' s' => if Ascii.eqb c c' then Some s' else None
  | EmptyString => None
  end.

(** The maximal run of digits: its length, its value and the rest. *)
Fixpoint digit_run (s : string) (count acc : Z) : Z * Z * string :=
  match s with
  | String c s' =>
      match digit_value c with
      | Some v => digit_run s' (count + 1) (10 * acc + v)
      | None => (count, acc, s)
      end
  | EmptyString => (count, acc, s)
  end.

(** An optional fraction of at most nine digits. *)
Definition parse_fraction (s : string) : option (Z * string) :=
  match literal "." s with
  | None => Some (0, s)
  | Some s =>
      let '(count, value, rest) := digit_run s 0 0 in
      if (1 <=? count) && (count <=? 9) then Some (value * 10 ^ (9 - count), rest) else None
  end.

#[local] Notation "'try' x ':=' r 'in' k" := (match r with Some x => k | None => None end)
  (at level 10, x pattern, r at level 100, k at level 200).

Definition parse_civil (s : string) : option civil :=
  try (year, s) := digits 4 0 s in try s := literal "-" s in
  try (month, s) := digits 2 0 s in try s := literal "-" s in
  try (day, s) := digits 2 0 s in try s := literal "T" s in
  try (hour, s) := digits 2 0 s in try s := literal ":" s in
  try (minute, s) := digits 2 0 s in try s := literal ":" s in
  try (second, s) := digits 2 0 s in
  try (nanos, s) := parse_fraction s in try s := literal "Z" s in
  match s with
  | EmptyString => Some (MkCivil (MkDate year month day) hour minute second nanos)
  | _ => None
  end.

Definition parse_time (s : string) : option time :=
  match parse_civil s with
  | Some c => if valid_civil c then Some (At (wall_of c)) else None
  | None => None
  end.

(** [time.Parse(time.RFC3339Nano, s)] followed by the comparison of the
    canonical text with [s]. *)
Definition canonicalTime (s : string) : option time :=
  match parse_time s with
  | Some t => if str_eqb (FormatRFC3339Nano t) s then Some t else None
  | None => None
  end.

#[global] Arguments FormatRFC3339Nano : simpl never.
#[global] Arguments parse_civil : simpl never.
#[global] Arguments canonicalTime : simpl never.

Example calendar_examples :
  FormatRFC3339Nano (At 0) = "0001-01-01T00:00:00Z"%string
  ∧ FormatRFC3339Nano (At (unixOffset * Second + 1709251199123456000))
    = "2024-02-29T23:59:59.123456Z"%string
  ∧ canonicalTime "2024-02-29T23:59:59.123456Z" = Some (At (unixOffset * Second + 1709251199123456000))
  ∧ canonicalTime "2023-02-29T23:59:59.123456Z" = None
  ∧ canonicalTime "2024-02-29T23:59:59.1234560Z" = None
  ∧ canonicalTime "9999-12-31T23:59:59.999999999Z" = Some (At (year10000 - 1)).
Proof. vm_compute. repeat split. Qed.

(** ** Dates round trip *)

(** A year count split into centuries, four-year cycles and single years. *)
Lemma days_before_year_split a c q n :
  0 ≤ c ≤ 3 → 0 ≤ q ≤ 24 → 0 ≤ n ≤ 3 →
  days_before_year (400 * a + 100 * c + 4 * q + n + 1)
  = 146097 * a + 36524 * c + 1461 * q + 365 * n.
Proof.
  intros. unfold days_before_year.
  replace (400 * a + 100 * c + 4 * q + n + 1 - 1) with (400 * a + 100 * c + 4 * q + n) by lia.
  replace ((400 * a + 100 * c + 4 * q + n) / 4) with (100 * a + 25 * c + q)
    by (apply Z.div_unique with n; lia).
  replace ((400 * a + 100 * c + 4 * q + n) / 100) with (4 * a + c)
    by (apply Z.div_unique with (4 * q + n); lia).
  replace ((400 * a + 100 * c + 4 * q + n) / 400) with a
    by (apply Z.div_unique with (100 * c + 4 * q + n); lia).
  lia.
Qed.

Lemma is_leap_split a c q n :
  0 ≤ c ≤ 3 → 0 ≤ q ≤ 24 → 0 ≤ n ≤ 3 →
  is_leap (400 * a + 100 * c + 4 * q + n + 1)
  = (n =? 3) && (negb (q =? 24) || (c =? 3)).
Proof.
  intros. unfold is_leap.
  assert (Hx : ∀ k, k = 4 ∨ k = 100 ∨ k = 400 →
    ((400 * a + 100 * c + 4 * q + n + 1) mod k =? 0) = ((100 * c + 4 * q + n + 1) mod k =? 0)).
  { intros k Hk. assert (Hq : 400 / k * k = 400) by (destruct Hk as [->|[->| ->]]; reflexivity).
    replace (400 * a + 100 * c + 4 * q + n + 1)
      with (100 * c + 4 * q + n + 1 + a * (400 / k) * k) by (rewrite <- Z.mul_assoc, Hq; lia).
    by rewrite Z.mod_add by lia. }
  rewrite !Hx by auto. clear Hx a.
  assert (H4 : (100 * c + 4 * q + n + 1) mod 4 = (n + 1) mod 4).
  { rewrite <- (Z.mod_add (n + 1) (25 * c + q) 4) by lia. f_equal. lia. }
  assert (H100 : (100 * c + 4 * q + n + 1) mod 100 = (4 * q + n + 1) mod 100).
  { rewrite <- (Z.mod_add (4 * q + n + 1) c 100) by lia. f_equal. lia. }
  rewrite H4, H100. clear H4 H100.
  destruct (Z.eqb_spec n 3) as [->|].
  - change ((3 + 1) mod 4 =? 0) with true. simpl.
    destruct (Z.eqb_spec q 24) as [->|].
    + change ((4 * 24 + 3 + 1) mod 100 =? 0) with true. simpl.
      destruct (Z.eqb_spec c 3) as [->|]; [done|]. rewrite Z.mod_small by lia. lia.
    + rewrite (Z.mod_small (4 * q + 3 + 1)) by lia. lia.
  - rewrite (Z.mod_small (n + 1)) by lia. lia.
Qed.

Lemma year_of_day_spec d :
  let '(y, yday) := year_of_day d in
  days_before_year y + yday = d ∧ 0 ≤ yday < (if is_leap y then 366 else 365).
Proof.
  unfold year_of_day. cbv zeta.
  pose proof (Z.div_mod d 146097 ltac:(lia)) as Hd.
  pose proof (Z.mod_pos_bound d 146097 ltac:(lia)) as Hr.
  set (a := d / 146097) in *. set (r := d mod 146097) in *. clearbody a r.
  pose proof (Z.div_mod r 36524 ltac:(lia)). pose proof (Z.mod_pos_bound r 36524 ltac:(lia)).
  set (c := Z.min 3 (r / 36524)). assert (0 ≤ c ≤ 3) by lia.
  assert (0 ≤ r - 36524 * c < 36524 + (if c =? 3 then 1 else 0)) by (destruct (c =? 3) eqn:?; lia).
  set (r2 := r - 36524 * c) in *. assert (r = 36524 * c + r2) by lia. clearbody c r2.
  pose proof (Z.div_mod r2 1461 ltac:(lia)). pose proof (Z.mod_pos_bound r2 1461 ltac:(lia)).
  set (q := r2 / 1461) in *. set (r3 := r2 mod 1461) in *.
  assert (0 ≤ q ≤ 24) by (destruct (c =? 3); lia). clearbody q r3.
  pose proof (Z.div_mod r3 365 ltac:(lia)). pose proof (Z.mod_pos_bound r3 365 ltac:(lia)).
  set (n := Z.min 3 (r3 / 365)). assert (0 ≤ n ≤ 3) by lia.
  rewrite days_before_year_split, is_leap_split by lia. split; [lia|].
  destruct (n =? 3) eqn:?, (q =? 24) eqn:?, (c =? 3) eqn:?; simpl; lia.
Qed.

Lemma month_of_day_spec (leap : bool) (yday : Z) :
  0 ≤ yday < (if leap then 366 else 365) →
  let m := month_of_day leap yday in
  1 ≤ m ≤ 12 ∧ days_before_month leap m ≤ yday < days_before_month leap (m + 1).
Proof.
  intros H. unfold month_of_day. simpl.
  destruct leap; simpl in *; repeat case_match; bools; simpl; lia.
Qed.

(** Every day has a valid date, and the date determines the day. *)
Lemma date_of_day_spec d : valid_date (date_of_day d) = true ∧ day_of_date (date_of_day d) = d.
Proof.
  unfold date_of_day. pose proof (year_of_day_spec d) as H.
  destruct (year_of_day d) as [y yday]. destruct H as [Hd Hy].
  destruct (month_of_day_spec _ _ Hy) as (Hm & Hlo & Hhi).
  cbv zeta. set (m := month_of_day _ _) in *. clearbody m.
  unfold valid_date, day_of_date, days_in_month. cbn [d_year d_month d_day].
  set (x := days_before_month _ m) in *. set (x' := days_before_month _ (m + 1)) in *.
  rewrite !andb_true_iff, !Z.leb_le. clearbody x x'. clear Hy. lia.
Qed.

Lemma days_before_year_mono y : 10000 ≤ y → 3652059 ≤ days_before_year y.
Proof.
  intros Hy. pose proof (Z.div_mod (y - 1) 400 ltac:(lia)) as Hd.
  pose proof (Z.mod_pos_bound (y - 1) 400 ltac:(lia)) as Hr.
  unfold days_before_year. set (a := (y - 1) / 400) in *. set (r := (y - 1) mod 400) in *.
  clearbody a r. rewrite Hd.
  replace ((400 * a + r) / 4) with (100 * a + r / 4)
    by (rewrite <- Z.div_add_l by lia; f_equal; lia).
  replace ((400 * a + r) / 100) with (4 * a + r / 100)
    by (rewrite <- Z.div_add_l by lia; f_equal; lia).
  replace ((400 * a + r) / 400) with a by (apply Z.div_unique with r; lia).
  assert (a = 24 ∧ r = 399 ∨ 25 ≤ a) as [[-> ->]|?] by lia; [done|].
  pose proof (Z.div_mod r 4 ltac:(lia)). pose proof (Z.mod_pos_bound r 4 ltac:(lia)).
  pose proof (Z.div_mod r 100 ltac:(lia)). pose proof (Z.mod_pos_bound r 100 ltac:(lia)). lia.
Qed.

Lemma year_range d : 0 ≤ d < 3652059 → 1 ≤ d_year (date_of_day d) ≤ 9999.
Proof.
  intros Hd. unfold date_of_day. pose proof (year_of_day_spec d) as H.
  destruct (year_of_day d) as [y yday]. destruct H as [Hy Hr]. simpl.
  assert (yday < 366) by (destruct (is_leap y); lia).
  split; [|apply Z.nlt_ge; intros ?; pose proof (days_before_year_mono y ltac:(lia)); lia].
  apply Z.nlt_ge. intros Hneg. unfold days_before_year in Hy. cbv zeta in Hy.
  pose proof (Z.div_mod (y - 1) 4 ltac:(lia)). pose proof (Z.mod_pos_bound (y - 1) 4 ltac:(lia)).
  pose proof (Z.div_mod (y - 1) 100 ltac:(lia)). pose proof (Z.mod_pos_bound (y - 1) 100 ltac:(lia)).
  pose proof (Z.div_lt_upper_bound (y - 1) 400 0 ltac:(lia) ltac:(lia)). lia.
Qed.

Lemma civil_round_trip t : wall_of (civil_of t) = wall t.
Proof.
  unfold wall_of, civil_of. cbn [c_date c_hour c_minute c_second c_nanos].
  rewrite (proj2 (date_of_day_spec _)). set (ns := wall t mod Day).
  assert (H1 : (ns mod Hour) mod Minute = ns mod Minute).
  { apply Z.mod_mod_divide. by exists 60. }
  assert (H2 : (ns mod Minute) mod Second = ns mod Second).
  { apply Z.mod_mod_divide. by exists 60. }
  pose proof (Z.div_mod (wall t) Day ltac:(done)). pose proof (Z.div_mod ns Hour ltac:(done)).
  pose proof (Z.div_mod (ns mod Hour) Minute ltac:(done)).
  pose proof (Z.div_mod (ns mod Minute) Second ltac:(done)). lia.
Qed.

Lemma civil_of_bounds t :
  let c := civil_of t in
  0 ≤ c_hour c < 24 ∧ 0 ≤ c_minute c < 60 ∧ 0 ≤ c_second c < 60 ∧ 0 ≤ c_nanos c < Second.
Proof.
  unfold civil_of. cbn [c_date c_hour c_minute c_second c_nanos]. set (ns := wall t mod Day).
  pose proof (Z.mod_pos_bound (wall t) Day ltac:(done)) as Hd.
  pose proof (Z.mod_pos_bound ns Hour ltac:(done)) as Hh.
  pose proof (Z.mod_pos_bound ns Minute ltac:(done)) as Hm.
  pose proof (Z.mod_pos_bound ns Second ltac:(done)) as Hs. fold ns in Hd.
  repeat split; try apply Z.div_pos; try (apply Z.div_lt_upper_bound; [done|]);
    unfold Day, Hour, Minute, Second in *; lia.
Qed.

Lemma civil_of_valid t : valid_civil (civil_of t) = true.
Proof.
  unfold valid_civil. destruct (civil_of_bounds t) as (? & ? & ? & _).
  unfold civil_of at 1. cbn [c_date]. rewrite (proj1 (date_of_day_spec _)).
  rewrite !andb_true_iff, !Z.ltb_lt. repeat split; lia.
Qed.

(** ** Text round trips *)

Lemma digit_value_digit v : 0 ≤ v < 10 → digit_value (digit v) = Some v.
Proof.
  intros Hv. unfold digit_value, digit, between, byte_val.
  rewrite N_ascii_embedding by lia. rewrite Z2N.id by lia.
  replace ((48 <=? 48 + v) && (48 + v <=? 57)) with true by lia. f_equal. lia.
Qed.

Lemma mod_pow_succ v n :
  v mod 10 ^ Z.of_nat (S n)
  = 10 ^ Z.of_nat n * (v / 10 ^ Z.of_nat n mod 10) + v mod 10 ^ Z.of_nat n.
Proof.
  rewrite Nat2Z.inj_succ, Z.pow_succ_r, Z.mul_comm by lia.
  rewrite Z.rem_mul_r by lia. lia.
Qed.

Lemma digits_pad_mod n acc v rest :
  digits n acc (pad n v ++ rest)
  = Some (acc * 10 ^ Z.of_nat n + v mod 10 ^ Z.of_nat n, rest).
Proof.
  revert acc. induction n as [|n IH]; intros acc.
  - simpl. rewrite Z.mod_1_r. f_equal. f_equal. lia.
  - rewrite mod_pow_succ. cbn [pad]. rewrite append_cons. cbn [digits].
    rewrite digit_value_digit by (apply Z.mod_pos_bound; lia). rewrite IH.
    rewrite Nat2Z.inj_succ, Z.pow_succ_r by lia. f_equal. f_equal. lia.
Qed.

Lemma digits_pad n v rest :
  0 ≤ v < 10 ^ Z.of_nat n → digits n 0 (pad n v ++ rest) = Some (v, rest).
Proof. intros. rewrite digits_pad_mod, Z.mod_small by lia. done. Qed.

Lemma digit_run_pad n v count acc rest :
  (∀ c s, rest = String c s → digit_value c = None) →
  digit_run (pad n v ++ rest) count acc
  = (count + Z.of_nat n, acc * 10 ^ Z.of_nat n + v mod 10 ^ Z.of_nat n, rest).
Proof.
  intros Hrest. revert count acc. induction n as [|n IH]; intros count acc.
  - simpl. rewrite Z.mod_1_r, Z.add_0_r, Z.mul_1_r, Z.add_0_r.
    destruct rest as [|c s]; [done|]. simpl. by rewrite (Hrest c s).
  - rewrite mod_pow_succ. cbn [pad]. rewrite append_cons. cbn [digit_run].
    rewrite digit_value_digit by (apply Z.mod_pos_bound; lia). rewrite IH.
    rewrite Nat2Z.inj_succ, Z.pow_succ_r by lia. f_equal. f_equal; lia.
Qed.

(** A trimmed fraction is a shorter number with the same value. *)
Lemma trimmed_spec k v :
  0 < v < 10 ^ Z.of_nat k →
  ∃ j u, (1 ≤ j ≤ k)%nat ∧ trimmed k v = pad j u ∧ 0 ≤ u < 10 ^ Z.of_nat j
         ∧ u * 10 ^ (Z.of_nat k - Z.of_nat j) = v.
Proof.
  revert v. induction k as [|k IH]; intros v Hv; [simpl in Hv; lia|]. cbn [trimmed].
  destruct (v mod 10 =? 0) eqn:Hz.
  - bools. rewrite Nat2Z.inj_succ, Z.pow_succ_r in Hv by lia.
    destruct (IH (v / 10)) as (j & u & Hj & Ht & Hu & Heq); [div_lia|].
    exists j, u. repeat split; try lia; [done|].
    rewrite Nat2Z.inj_succ, Z.sub_succ_l, Z.pow_succ_r by lia. div_lia.
  - exists (S k), v. repeat split; try lia. rewrite Z.sub_diag. lia.
Qed.

Lemma parse_fraction_text ns rest :
  0 ≤ ns < Second →
  (∀ c s, rest = String c s → digit_value c = None) → literal "." rest = None →
  parse_fraction (fraction_text ns ++ rest) = Some (ns, rest).
Proof.
  intros Hns Hrest Hdot. unfold fraction_text. destruct (ns =? 0) eqn:Hz; bools.
  - subst. rewrite append_nil. unfold parse_fraction. by rewrite Hdot.
  - destruct (trimmed_spec 9 ns) as (j & u & Hj & -> & Hu & Heq);
      [unfold Second in Hns; lia|].
    unfold parse_fraction. rewrite append_assoc, append_cons, append_nil. cbn [literal Ascii.eqb Bool.eqb].
    rewrite digit_run_pad by done. rewrite Z.mod_small by lia.
    replace ((1 <=? 0 + Z.of_nat j) && (0 + Z.of_nat j <=? 9)) with true by lia.
    do 2 f_equal. by rewrite <- Heq.
Qed.

Lemma parse_civil_text c :
  0 ≤ d_year (c_date c) < 10000 → 0 ≤ d_month (c_date c) < 100 → 0 ≤ d_day (c_date c) < 100 →
  0 ≤ c_hour c < 100 → 0 ≤ c_minute c < 100 → 0 ≤ c_second c < 100 → 0 ≤ c_nanos c < Second →
  parse_civil (seconds_text c ++ fraction_text (c_nanos c) ++ "Z") = Some c.
Proof.
  intros. unfold parse_civil, seconds_text, year_text.
  replace ((0 <=? d_year (c_date c)) && (d_year (c_date c) <? 10000)) with true by lia.
  rewrite !append_assoc, !append_cons, !append_nil.
  repeat (rewrite digits_pad by (simpl; lia); cbn [literal Ascii.eqb Bool.eqb]).
  rewrite parse_fraction_text; [|done|by intros ? ? [= <- <-]|done].
  by destruct c as [[]].
Qed.

Lemma days_in_month_lt leap m : 1 ≤ m → m ≤ 12 → days_in_month leap m < 100.
Proof.
  intros. assert (m ∈ [1; 2; 3; 4; 5; 6; 7; 8; 9; 10; 11; 12]) as Hm by (rewrite !elem_of_cons; lia).
  in_cases Hm; by destruct leap.
Qed.

(** An instant whose year the text formats write with four digits. *)
Definition four_digit_year (t : time) : Prop := 0 ≤ d_year (c_date (civil_of t)) < 10000.

Lemma year_ok_four_digit t : year_ok t = true → four_digit_year t.
Proof.
  unfold year_ok, four_digit_year. intros Hy. bools.
  assert (1 ≤ d_year (c_date (civil_of t)) ≤ 9999); [|lia].
  apply year_range. split; [by apply Z.div_pos|]. by apply Z.div_lt_upper_bound.
Qed.

Lemma civil_of_month_day t :
  1 ≤ d_month (c_date (civil_of t)) ≤ 12 ∧ 1 ≤ d_day (c_date (civil_of t)) < 100.
Proof.
  pose proof (date_of_day_spec (wall t / Day)) as [Hdate _].
  change (date_of_day (wall t / Day)) with (c_date (civil_of t)) in Hdate.
  unfold valid_date in Hdate. bools. split; [lia|split; [lia|]].
  eapply Z.le_lt_trans; [done|]. by apply days_in_month_lt.
Qed.

(** The canonical text of an instant in a four-digit year parses back to exactly
    that instant. *)
Lemma canonicalTime_text t :
  four_digit_year t → canonicalTime (FormatRFC3339Nano t) = Some (UTC t).
Proof.
  unfold four_digit_year, canonicalTime, parse_time. intros Hyear.
  destruct (civil_of_bounds t) as (Hh & Hm & Hs & Hn). destruct (civil_of_month_day t) as [Hmo Hd].
  unfold FormatRFC3339Nano at 1. cbv zeta.
  rewrite parse_civil_text by lia. rewrite civil_of_valid, civil_round_trip.
  change (FormatRFC3339Nano (At (wall t))) with (FormatRFC3339Nano t). by rewrite str_eqb_refl.
Qed.

Lemma canonicalTime_Format t :
  year_ok t = true → canonicalTime (FormatRFC3339Nano t) = Some (UTC t).
Proof. intros. by apply canonicalTime_text, year_ok_four_digit. Qed.

Lemma canonicalTime_inv s t : canonicalTime s = Some t → FormatRFC3339Nano t = s ∧ utc t = true.
Proof.
  unfold canonicalTime, parse_time. destruct (parse_civil s) as [c|]; [|done].
  destruct (valid_civil c); [|done]. destruct (str_eqb _ s) eqn:Hs; [|done].
  intros [= <-]. apply str_eqb_eq in Hs. done.
Qed.

(** Distinct instants have distinct texts. *)
Lemma FormatRFC3339Nano_inj t u :
  year_ok t = true → year_ok u = true →
  FormatRFC3339Nano t = FormatRFC3339Nano u → wall t = wall u.
Proof.
  intros Ht Hu H. apply canonicalTime_Format in Ht, Hu. rewrite H, Hu in Ht.
  by injection Ht.
Qed.

(** ** Shape of the text *)

(** From [-] to [Z]: digits, signs, colons, dots and the two letters. *)
Definition is_time_char (c : ascii) : bool := between 45 90 c.

Lemma digit_time_char v : 0 ≤ v < 10 → is_time_char (digit v) = true.
Proof.
  intros Hv. unfold is_time_char, digit, between, byte_val.
  rewrite N_ascii_embedding, Z2N.id by lia. lia.
Qed.

Lemma pad_shape n v : slen (pad n v) = Z.of_nat n ∧ str_forallb is_time_char (pad n v) = true.
Proof.
  induction n as [|n [IH1 IH2]]; [done|]. unfold slen in *. cbn [pad String.length str_forallb].
  rewrite digit_time_char, IH2 by (apply Z.mod_pos_bound; lia). split; [lia|done].
Qed.

Lemma fraction_text_shape ns :
  0 ≤ ns < Second → 0 ≤ slen (fraction_text ns) ≤ 10
  ∧ str_forallb is_time_char (fraction_text ns) = true.
Proof.
  intros Hns. unfold fraction_text. destruct (ns =? 0) eqn:Hz; bools; [by subst|].
  destruct (trimmed_spec 9 ns) as (j & u & Hj & -> & _); [unfold Second in Hns; lia|].
  destruct (pad_shape j u) as [Hl Hc]. rewrite append_cons, append_nil.
  unfold slen in *. cbn [String.length str_forallb]. rewrite Hc. split; [lia|done].
Qed.

Lemma seconds_text_shape c :
  0 ≤ d_year (c_date c) < 10000 →
  slen (seconds_text c) = 19 ∧ str_forallb is_time_char (seconds_text c) = true.
Proof.
  intros Hy. unfold seconds_text, year_text.
  replace ((0 <=? d_year (c_date c)) && (d_year (c_date c) <? 10000)) with true by lia.
  rewrite !slen_append, !str_forallb_append.
  repeat match goal with |- context [pad ?n ?v] =>
    lazymatch goal with
    | _ : slen (pad n v) = _ |- _ => fail
    | _ => let Hl := fresh in let Hc := fresh in destruct (pad_shape n v) as [Hl Hc];
           rewrite ?Hl, ?Hc; try clear Hl
    end end.
  done.
Qed.

Lemma RFC3339Nano_shape t :
  four_digit_year t →
  20 ≤ slen (FormatRFC3339Nano t) ≤ 30
  ∧ str_forallb is_time_char (FormatRFC3339Nano t) = true.
Proof.
  intros Hy. destruct (civil_of_bounds t) as (_ & _ & _ & Hn).
  destruct (fraction_text_shape _ Hn) as [Hf1 Hf2], (seconds_text_shape _ Hy) as [Hs1 Hs2].
  unfold FormatRFC3339Nano. cbv zeta. rewrite !slen_append, !str_forallb_append, Hf2, Hs1, Hs2.
  change (slen "Z") with 1. split; [lia|done].
Qed.

Lemma FormatRFC3339Nano_shape t :
  year_ok t = true →
  20 ≤ slen (FormatRFC3339Nano t) ≤ 30
  ∧ str_forallb is_time_char (FormatRFC3339Nano t) = true.
Proof. intros. by apply RFC3339Nano_shape, year_ok_four_digit. Qed.
