(* ===== verification/Sha256.v ===== *)
(** * SHA-256 ([crypto/sha256.Sum256])

    The digest function the ledger, the journal and the protocol codecs bind
    their records with: an executable definition on byte strings (FIPS 180-4),
    checked against published vectors.  No theorem assumes anything about it
    beyond being a function; in particular nothing assumes it is injective. *)

From S2P Require Import Prelude.

Definition mask32 : Z := 4294967295.
Definition add32 (a b : Z) : Z := Z.land (a + b) mask32.
Definition rotr (n x : Z) : Z :=
  Z.lor (Z.shiftr x n) (Z.land (Z.shiftl x (32 - n)) mask32).

Definition Ch (x y z : Z) : Z := Z.lxor (Z.land x y) (Z.land (Z.lxor x mask32) z).
Definition Maj (x y z : Z) : Z := Z.lxor (Z.lxor (Z.land x y) (Z.land x z)) (Z.land y z).
Definition bigSigma0 (x : Z) : Z := Z.lxor (Z.lxor (rotr 2 x) (rotr 13 x)) (rotr 22 x).
Definition bigSigma1 (x : Z) : Z := Z.lxor (Z.lxor (rotr 6 x) (rotr 11 x)) (rotr 25 x).
Definition smallSigma0 (x : Z) : Z := Z.lxor (Z.lxor (rotr 7 x) (rotr 18 x)) (Z.shiftr x 3).
Definition smallSigma1 (x : Z) : Z := Z.lxor (Z.lxor (rotr 17 x) (rotr 19 x)) (Z.shiftr x 10).

Definition roundConstants : list Z :=
  [1116352408;1899447441;3049323471;3921009573;961987163;1508970993;2453635748;2870763221;
   3624381080;310598401;607225278;1426881987;1925078388;2162078206;2614888103;3248222580;
   3835390401;4022224774;264347078;604807628;770255983;1249150122;1555081692;1996064986;
   2554220882;2821834349;2952996808;3210313671;3336571891;3584528711;113926993;338241895;
   666307205;773529912;1294757372;1396182291;1695183700;1986661051;2177026350;2456956037;
   2730485921;2820302411;3259730800;3345764771;3516065817;3600352804;4094571909;275423344;
   430227734;506948616;659060556;883997877;958139571;1322822218;1537002063;1747873779;
   1955562222;2024104815;2227730452;2361852424;2428436474;2756734187;3204031479;3329325298].

Definition initialHash : list Z :=
  [1779033703;3144134277;1013904242;2773480762;1359893119;2600822924;528734635;1541459225].

Fixpoint bytes_of (s : string) : list Z :=
  match s with
  | EmptyString => []
  | String c s' => byte_val c :: bytes_of s'
  end.

Fixpoint string_of_bytes (l : list Z) : string :=
  match l with
  | [] => EmptyString
  | b :: l' => String (ascii_of_N (Z.to_N b)) (string_of_bytes l')
  end.

(** Big-endian bytes of a [width]-byte word. *)
Fixpoint be_bytes (width : nat) (x : Z) : list Z :=
  match width with
  | O => []
  | S w => be_bytes w (Z.shiftr x 8) ++ [Z.land x 255]
  end.

(** A 1 bit, zeros up to 56 modulo 64, and the length in bits as 8 bytes. *)
Definition padMessage (l : list Z) : list Z :=
  let n := Z.of_nat (length l) in
  l ++ [128] ++ replicate (Z.to_nat ((55 - n) mod 64)) 0 ++ be_bytes 8 (8 * n).

Fixpoint words_of (l : list Z) : list Z :=
  match l with
  | a :: b :: c :: d :: l' =>
      Z.lor (Z.shiftl a 24) (Z.lor (Z.shiftl b 16) (Z.lor (Z.shiftl c 8) d)) :: words_of l'
  | _ => []
  end.

(** Message schedule: the list holds the words so far, newest first. *)
Fixpoint extend (n : nat) (w : list Z) : list Z :=
  match n with
  | O => w
  | S n' =>
      let at' i := nth i w 0 in
      extend n' (add32 (add32 (smallSigma1 (at' 1%nat)) (at' 6%nat))
                       (add32 (smallSigma0 (at' 14%nat)) (at' 15%nat)) :: w)
  end.

Fixpoint rounds (ks ws : list Z) (s : list Z) : list Z :=
  match ks, ws, s with
  | k :: ks', w :: ws', [a; b; c; d; e; f; g; h] =>
      let t1 := add32 (add32 (add32 h (bigSigma1 e)) (add32 (Ch e f g) k)) w in
      let t2 := add32 (bigSigma0 a) (Maj a b c) in
      rounds ks' ws' [add32 t1 t2; a; b; c; add32 d t1; e; f; g]
  | _, _, _ => s
  end.

Definition compress (h block : list Z) : list Z :=
  zip_with add32 h (rounds roundConstants (rev (extend 48 (rev block))) h).

(** [fuel] bounds the number of 16-word blocks left. *)
Fixpoint digest_words (fuel : nat) (h ws : list Z) : list Z :=
  match fuel, ws with
  | S fuel', _ :: _ => digest_words fuel' (compress h (take 16 ws)) (drop 16 ws)
  | _, _ => h
  end.

Definition Sum256 (body : string) : string :=
  let ws := words_of (padMessage (bytes_of body)) in
  string_of_bytes (concat (map (be_bytes 4) (digest_words (length ws) initialHash ws))).

(** [hex.EncodeToString] *)
Definition hex_digit (z : Z) : ascii :=
  ascii_of_N (Z.to_N (if z <? 10 then 48 + z else 87 + z)).
Fixpoint hexEncode (s : string) : string :=
  match s with
  | EmptyString => EmptyString
  | String c s' =>
      String (hex_digit (Z.shiftr (byte_val c) 4))
        (String (hex_digit (Z.land (byte_val c) 15)) (hexEncode s'))
  end.

(** The vectors for the empty message, "abc" and a two-block message. *)
Example Sum256_vectors :
  hexEncode (Sum256 "") = "e3b0c44298fc1c149afbf4c8996fb92427ae41e4649b934ca495991b7852b855"%string
  ∧ hexEncode (Sum256 "abc") = "ba7816bf8f01cfea414140de5dae2223b00361a396177a9cb410ff61f20015ad"%string
  ∧ hexEncode (Sum256 "abcdbcdecdefdefgefghfghighijhijkijkljklmklmnlmnomnopnopq")
    = "248d6a61d20638b8e5c026930c3e6039a33ce45964ff2167f6ecedd419db06c1"%string.
Proof. vm_compute. done. Qed.

(** ** A digest has 32 bytes *)

Lemma rounds_length ks ws s : length s = 8%nat → length (rounds ks ws s) = 8%nat.
Proof.
  revert ws s. induction ks as [|k ks IH]; intros [|w ws] s Hs; simpl; try done.
  do 8 (destruct s as [|? s]; [done|]). destruct s; [|done]. by apply IH.
Qed.

Lemma digest_words_length fuel h ws : length h = 8%nat → length (digest_words fuel h ws) = 8%nat.
Proof.
  revert h ws. induction fuel as [|n IH]; intros h [|w ws] Hh; simpl; try done.
  apply IH. unfold compress. rewrite length_zip_with, rounds_length, Hh by done. done.
Qed.

Lemma string_of_bytes_length l : String.length (string_of_bytes l) = length l.
Proof. by induction l; simpl; f_equal. Qed.

Lemma Sum256_length body : slen (Sum256 body) = 32.
Proof.
  unfold Sum256, slen. cbv zeta. rewrite string_of_bytes_length.
  set (h := digest_words _ _ _).
  assert (Hh : length h = 8%nat) by by apply digest_words_length.
  clearbody h. do 8 (destruct h as [|? h]; [done|]). destruct h; [|done].
  reflexivity.
Qed.
