(* ===== verification/Effects.v ===== *)
(** * Routines that call their environment

    The stateful routines of the observer (an upload step, one action execution,
    a journal transaction, a collection round) are straight-line code over calls
    to interfaces: clocks, contexts, stores, transports, engines.  Such a routine
    is a finite tree [prog E R]: [E A] is the type of calls answered by an [A].
    Loops that do not terminate on their own are relations over such routines, in
    the files that need them.

    Two readings of a routine are used.  [run] executes it against a concrete
    handler, so that examples compute.  [wp] quantifies over every behaviour the
    environment may show, given as a transition relation on some environment
    state; a theorem stated with [wp] holds for all fault and timing scenarios
    that relation admits. *)

From S2P Require Import Prelude.

Inductive prog (E : Type → Type) (R : Type) : Type :=
| Ret (r : R)
| Call (A : Type) (e : E A) (k : A → prog E R).
Arguments Ret {E R} r.
Arguments Call {E R A} e k.

Fixpoint bind {E A B} (p : prog E A) (f : A → prog E B) : prog E B :=
  match p with
  | Ret a => f a
  | Call e k => Call e (λ x, bind (k x) f)
  end.

Definition perform {E A} (e : E A) : prog E A := Call e Ret.

Declare Scope prog_scope.
Delimit Scope prog_scope with prog.
(** [x <~ e ; k]: make the call [e], name its answer, go on. *)
Notation "x <~ e ; k" := (Call e (λ x, k))
  (at level 100, e at level 99, k at level 200, right associativity) : prog_scope.
(** [x <- p ; k]: run the routine [p] first. *)
Notation "x <- p ; k" := (bind p (λ x, k))
  (at level 100, p at level 99, k at level 200, right associativity) : prog_scope.

(** ** Execution against a handler *)

Section run.
Context {E : Type → Type} {W : Type}.
Variable h : ∀ A, E A → W → A * W.

Fixpoint run {R} (p : prog E R) (w : W) : R * W :=
  match p with
  | Ret r => (r, w)
  | Call e k => let '(a, w') := h _ e w in run (k a) w'
  end.

Lemma run_bind {A B} (p : prog E A) (f : A → prog E B) w :
  run (bind p f) w = let '(a, w') := run p w in run (f a) w'.
Proof.
  revert w. induction p as [r | T e k IH]; intros w; simpl; [done|].
  destruct (h T e w) as [a w']. apply IH.
Qed.
End run.

(** ** Weakest preconditions over an environment *)

Section wp.
Context {E : Type → Type} {W : Type}.
(** [env e w a w']: in environment state [w] the call [e] may be answered by
    [a], leaving state [w']. *)
Variable env : ∀ A, E A → W → A → W → Prop.

(** [wpc I p Q w]: from [w], every behaviour ends in a result and a state that
    satisfy [Q], and [I] holds of every state on the way, so also of the state a
    crash between two calls leaves behind. *)
Fixpoint wpc {R} (I : W → Prop) (p : prog E R) (Q : R → W → Prop) (w : W) : Prop :=
  I w ∧
  match p with
  | Ret r => Q r w
  | Call e k => ∀ a w', env _ e w a w' → wpc I (k a) Q w'
  end.

Definition wp {R} (p : prog E R) (Q : R → W → Prop) (w : W) : Prop :=
  wpc (λ _, True) p Q w.

Lemma wpc_ret {R} (I : W → Prop) (r : R) Q w : I w → Q r w → wpc I (Ret r) Q w.
Proof. by split. Qed.

Lemma wpc_call {R A} (I : W → Prop) (e : E A) (k : A → prog E R) Q w :
  I w → (∀ a w', env A e w a w' → wpc I (k a) Q w') → wpc I (Call e k) Q w.
Proof. by split. Qed.

Lemma wpc_here {R} I (p : prog E R) Q w : wpc I p Q w → I w.
Proof. destruct p; simpl; tauto. Qed.

Lemma wpc_mono {R} (I I' : W → Prop) (p : prog E R) (Q Q' : R → W → Prop) w :
  (∀ w', I w' → I' w') → (∀ r w', Q r w' → Q' r w') → wpc I p Q w → wpc I' p Q' w.
Proof.
  intros HI HQ. revert w. induction p; intros w; simpl; intros [? ?]; split; eauto.
Qed.

Lemma wp_mono {R} (p : prog E R) (Q Q' : R → W → Prop) w :
  (∀ r w', Q r w' → Q' r w') → wp p Q w → wp p Q' w.
Proof. intros. by eapply wpc_mono. Qed.

Lemma wpc_bind {A B} I (p : prog E A) (f : A → prog E B) Q w :
  wpc I p (λ a w', wpc I (f a) Q w') w → wpc I (bind p f) Q w.
Proof.
  revert w. induction p as [r | T e k IH]; intros w; simpl; [tauto|].
  intros [? H]; split; eauto.
Qed.

Lemma wpc_assoc {A B C} I (p : prog E A) (f : A → prog E B) (g : B → prog E C) Q w :
  wpc I (bind p (λ x, bind (f x) g)) Q w → wpc I (bind (bind p f) g) Q w.
Proof.
  revert w. induction p as [r|T e k IH]; intros w H; [exact H|]. destruct H as [Hw H]. split; [done|].
  intros a w' Hx. apply IH. by apply H.
Qed.

Lemma wpc_bind_ret {A} I (p : prog E A) Q w : wpc I (bind p Ret) Q w → wpc I p Q w.
Proof.
  revert w. induction p as [r|T e k IH]; intros w H; [exact H|]. destruct H as [Hw H]. split; [done|].
  intros a w' Hx. apply IH. by apply H.
Qed.

Lemma wp_bind {A B} (p : prog E A) (f : A → prog E B) Q w :
  wp p (λ a w', wp (f a) Q w') w → wp (bind p f) Q w.
Proof. apply wpc_bind. Qed.

Lemma wpc_conj {R} (I I' : W → Prop) (p : prog E R) (Q Q' : R → W → Prop) w :
  wpc I p Q w → wpc I' p Q' w → wpc (λ w', I w' ∧ I' w') p (λ r w', Q r w' ∧ Q' r w') w.
Proof. revert w. induction p; simpl; intros ? [] []; split; eauto. Qed.

Lemma wp_wpc {R} (p : prog E R) Q w I : wpc I p Q w → wp p Q w.
Proof. intros. by eapply wpc_mono. Qed.

(** What holds of every behaviour holds of any handler that is one of them. *)
Lemma wp_run {R} (h : ∀ A, E A → W → A * W) (p : prog E R) Q w :
  (∀ A (e : E A) u, env A e u (h A e u).1 (h A e u).2) →
  wp p Q w → Q (run h p w).1 (run h p w).2.
Proof.
  intros Hh. revert w. induction p as [r | T e k IH]; intros w; simpl; [by intros [_ ?]|].
  intros [_ H]. specialize (Hh T e w). destruct (h T e w) as [a w']. simpl in *. by apply IH, H.
Qed.

(** ** Frames: what a routine cannot touch *)

(** Every call the routine can make satisfies [P]. *)
Fixpoint only {R} (P : ∀ A, E A → Prop) (p : prog E R) : Prop :=
  match p with
  | Ret _ => True
  | Call e k => P _ e ∧ ∀ a, only P (k a)
  end.

Lemma only_bind {A B} P (p : prog E A) (f : A → prog E B) :
  only P p → (∀ a, only P (f a)) → only P (bind p f).
Proof. intros Hp Hf. induction p as [r | T e k IH]; simpl in *; [auto|]. destruct Hp. split; auto. Qed.

(** A property those calls preserve holds throughout and at the end. *)
Lemma only_frame {R} P (J : W → Prop) (p : prog E R) w :
  only P p → (∀ A (e : E A) u a u', P A e → env A e u a u' → J u → J u') →
  J w → wpc J p (λ _, J) w.
Proof.
  intros Hp Hpres. revert w. induction p as [r | T e k IH]; intros w Hw; simpl in *; [done|].
  destruct Hp as [He Hk]. split; [done|]. intros a w' Hx. apply IH; eauto.
Qed.

(** ** Small steps: the states a routine passes through *)

Inductive exec {R} : prog E R → W → prog E R → W → Prop :=
| exec_here p w : exec p w p w
| exec_call A (e : E A) k w a w' p'' w'' :
    env A e w a w' → exec (k a) w' p'' w'' → exec (Call e k) w p'' w''.

(** Running against a handler that is one of the environment's behaviours. *)
Lemma run_exec {R} (h : ∀ A, E A → W → A * W) (p : prog E R) w :
  (∀ A (e : E A) u, env A e u (h A e u).1 (h A e u).2) →
  exec p w (Ret (run h p w).1) (run h p w).2.
Proof.
  intros Hh. revert w. induction p as [r | T e k IH]; intros w; simpl; [constructor|].
  specialize (Hh T e w). destruct (h T e w) as [a w'] eqn:He. simpl in *.
  econstructor; [exact Hh|]. apply IH.
Qed.

Lemma wpc_exec {R} I (p p' : prog E R) Q w w' :
  wpc I p Q w → exec p w p' w' → wpc I p' Q w'.
Proof.
  intros H Hx. induction Hx as [|A e k w a w' p'' w'' Henv Hx IH]; [done|].
  apply IH. simpl in H. destruct H as [_ H]. eauto.
Qed.

(** A routine that may stop anywhere leaves a state satisfying the crash
    condition; one that returned leaves one satisfying the postcondition. *)
Lemma wpc_crash {R} I (p p' : prog E R) Q w w' :
  wpc I p Q w → exec p w p' w' → I w'.
Proof. intros H Hx. eapply wpc_here, wpc_exec; eauto. Qed.

Lemma wpc_return {R} I (p : prog E R) Q w r w' :
  wpc I p Q w → exec p w (Ret r) w' → Q r w'.
Proof. intros H Hx. eapply wpc_exec in H; [|done]. by destruct H. Qed.
End wp.
#[global] Arguments wpc : simpl never.
#[global] Arguments wp : simpl never.
#[global] Arguments bind : simpl never.
#[global] Arguments only : simpl never.

(** Walk through a routine to show that every call it can make is allowed, [t] showing
    it of one call. *)
Ltac walk_only t :=
  repeat lazymatch goal with
  | |- only _ (Ret _) => exact I
  | |- only _ (bind _ _) => apply only_bind; [|intros]
  | |- only _ (Call _ _) => split; [t|intros]
  | |- only _ (if ?x then _ else _) => destruct x
  | |- only _ (match ?x with _ => _ end) => destruct x
  | |- _ => first [assumption | progress auto]
  end.

(** ** Routines under an implementation of their calls *)

(** [interp h p s]: every call of [p] is carried out by the routine [h] gives for
    it, which threads a state of its own. *)
Fixpoint interp {E E' : Type → Type} {S R} (h : ∀ A, E A → S → prog E' (A * S)) (p : prog E R) (s : S) :
    prog E' (R * S) :=
  match p with
  | Ret r => Ret (r, s)
  | Call e k => bind (h _ e s) (λ x, interp h (k x.1) x.2)
  end.

Lemma interp_only {E E' : Type → Type} {S R} (h : ∀ A, E A → S → prog E' (A * S)) (P : ∀ A, E' A → Prop)
    (p : prog E R) s :
  (∀ A (e : E A) s, only P (h A e s)) → only P (interp h p s).
Proof.
  intros Hh. revert s. induction p as [r | T e k IH]; intros s; [exact I|]. simpl.
  apply only_bind; [apply Hh|]. intros x. apply IH.
Qed.

(** Each implementation simulates its call: from related states it ends in states
    related by a step the abstract environment allows.  It may use that the crash
    condition holds now and after every such step. *)
Lemma interp_wpc {E E' : Type → Type} {W W' S R}
    (env : ∀ A, E A → W → A → W → Prop) (env' : ∀ A, E' A → W' → A → W' → Prop)
    (h : ∀ A, E A → S → prog E' (A * S)) (rel : W → S → W' → Prop) (I : W → Prop) (I' : W' → Prop)
    (p : prog E R) Q w s u :
  (∀ A (e : E A) w s u, rel w s u → I w → (∀ a w', env A e w a w' → I w') →
     wpc env' I' (h A e s) (λ x u', ∃ w', env A e w x.1 w' ∧ rel w' x.2 u') u) →
  (∀ w s u, rel w s u → I w → I' u) →
  wpc env I p Q w → rel w s u →
  wpc env' I' (interp h p s) (λ x u', ∃ w', Q x.1 w' ∧ rel w' x.2 u') u.
Proof.
  intros Hh HI. revert w s u. induction p as [r | T e k IH]; intros w s u Hp Hr; simpl.
  - destruct Hp as [Hw HQ]. apply wpc_ret; [by eapply HI|]. by exists w.
  - destruct Hp as [Hw Hk]. apply wpc_bind. eapply wpc_mono; [done| |apply (Hh T e w s u Hr Hw)].
    + intros x u' (w' & He & Hr'). apply (IH x.1 w'); [|done]. by apply Hk.
    + intros a w' He. eapply wpc_here. by apply Hk.
Qed.

(** ** Traces: the environment that only records *)

Record call (E : Type → Type) := Answered {
  call_type : Type; call_event : E call_type; call_answer : call_type }.
Arguments Answered {E call_type} call_event call_answer.

Definition recording {E : Type → Type} (A : Type) (e : E A)
    (tr : list (call E)) (a : A) (tr' : list (call E)) : Prop :=
  tr' = tr ++ [Answered e a].

(** For every possible sequence of answers, [P] holds of the calls made (in
    order, with their answers) and the result. *)
Definition always {E R} (p : prog E R) (P : R → list (call E) → Prop) : Prop :=
  wp recording p P [].

