(* ===== verification/LogModel.v ===== *)
(** * Native log metadata: contracts ([internal/logobs/types.go], [validate.go])

    The closed string enumerations of the package are inductive types with one
    constructor per declared constant and one for any other string a caller may
    pass; the [Validate] methods refuse the latter.  A [Validate] method returns
    an opaque error that every caller only compares with [nil], so it is modelled
    as the boolean "returned nil". *)

From S2P Require Import Prelude GoTime GoText.

(** ** Bounds *)

Definition MaxSources : Z := 2.
Definition MaxAcceptedEvents : Z := 512.
Definition MaxExaminedEvents : Z := 513.
Definition MaxProbeEvents : Z := 2.
Definition MaxCheckpointBytes : Z := 16 * 1024.
Definition MaxRecentEvents : Z := 200.
Definition MaxCoverageSegmentsPerCommit : Z := 2.
Definition MaxSafeInteger : Z := 9007199254740991.
Definition maxSummaryBuckets : Z := 168.

(** ** Enumerations *)

Inductive Source := SourceSystem | SourceApplication | SourceOther (text : string).

Inductive Severity :=
| SeverityTrace | SeverityDebug | SeverityInfo | SeverityWarn | SeverityError
| SeverityCritical | SeverityUnknown | SeverityOther (text : string).

Inductive SupportState :=
| SupportSupported | SupportDisabled | SupportUnavailable | SupportPermissionDenied
| SupportUnsupported | SupportOther (text : string).

Inductive CollectionState :=
| CollectionOK | CollectionPartial | CollectionFailed | CollectionNotRun
| CollectionOther (text : string).

Inductive Freshness :=
| FreshnessCurrent | FreshnessStale | FreshnessUnknown | FreshnessOther (text : string).

(** [ReasonEmpty] is the zero value [""], used as positive coverage evidence. *)
Inductive ReasonCode :=
| ReasonEmpty
| ReasonCheckpointReset | ReasonPermissionDenied | ReasonDeadlineExceeded
| ReasonInvalidResponse | ReasonResponseTooLarge | ReasonReaderFailed
| ReasonBacklogDeferred | ReasonMissedCollection | ReasonNotYetObserved
| ReasonLogStorageUnavailable | ReasonNoVisibleJournal | ReasonLogHelperUnavailable
| ReasonLogHelperMismatch | ReasonPlatformUnsupported | ReasonLogSourcesDisabled
| ReasonSourcePartial | ReasonOther (text : string).

Inductive BatchKind :=
| BatchNormal | BatchResetPending | BatchResetEstablished | BatchOther (text : string).

Inductive CoverageState :=
| CoverageFull | CoveragePartial | CoverageGapState | CoverageUnknown
| CoverageOther (text : string).

#[global] Instance Source_eq_dec : EqDecision Source.
Proof. solve_decision. Defined.
#[global] Instance Severity_eq_dec : EqDecision Severity.
Proof. solve_decision. Defined.
#[global] Instance SupportState_eq_dec : EqDecision SupportState.
Proof. solve_decision. Defined.
#[global] Instance CollectionState_eq_dec : EqDecision CollectionState.
Proof. solve_decision. Defined.
#[global] Instance Freshness_eq_dec : EqDecision Freshness.
Proof. solve_decision. Defined.
#[global] Instance ReasonCode_eq_dec : EqDecision ReasonCode.
Proof. solve_decision. Defined.
#[global] Instance BatchKind_eq_dec : EqDecision BatchKind.
Proof. solve_decision. Defined.
#[global] Instance CoverageState_eq_dec : EqDecision CoverageState.
Proof. solve_decision. Defined.

(** ** Records *)

Record Event := MkEvent {
  ev_ObservedAt : time; ev_Source : Source; ev_Severity : Severity; ev_EventCode : string }.

Record Status := MkStatus {
  st_SupportState : SupportState; st_CollectionState : CollectionState;
  st_Freshness : Freshness; st_ObservedAt : option time; st_AttemptedAt : option time;
  st_CoverageThrough : option time; st_ReasonCode : option ReasonCode }.

Record Checkpoint := MkCheckpoint {
  cp_Revision : Z; cp_ResetPending : bool; cp_Opaque : string;
  cp_PreviousAttemptAt : option time; cp_CoverageThrough : option time }.

Record ReadRequest := MkReadRequest {
  rq_Source : Source; rq_Checkpoint : Checkpoint; rq_QueryStartedAt : time }.

Record DiscardCount := MkDiscard { dc_At : time; dc_Count : Z }.

Record Batch := MkBatch {
  b_Kind : BatchKind; b_Source : Source; b_ExpectedRevision : Z;
  b_QueryStartedAt : time; b_StartedAt : time; b_FinishedAt : time;
  b_SupportState : SupportState; b_CollectionState : CollectionState;
  b_ReasonCode : option ReasonCode; b_Events : list Event; b_Discards : list DiscardCount;
  b_ExaminedCount : Z; b_ProbeCount : Z; b_DiscardedCount : Z;
  b_Deferred : bool; b_CaughtUp : bool; b_NextOpaque : string }.

Record SummaryQuery := MkQuery {
  q_WindowStart : time; q_WindowEnd : time; q_BucketInterval : Z; q_BucketCount : Z }.

Record Counts := MkCounts { ct_Captured : Z; ct_Discarded : Z }.

Record SeverityCounts := MkSeverity {
  sv_Trace : Z; sv_Debug : Z; sv_Info : Z; sv_Warn : Z; sv_Error : Z;
  sv_Critical : Z; sv_Unknown : Z }.

Record BucketCounts := MkBucketCounts {
  bc_Captured : Z; bc_Discarded : Z; bc_Severity : SeverityCounts }.

Record SummaryBucket := MkBucket {
  sb_At : time; sb_CoverageState : CoverageState; sb_CoveredSeconds : Z;
  sb_ReasonCode : option ReasonCode; sb_Counts : option BucketCounts }.

Record SourceSummary := MkSourceSummary {
  ss_Source : Source; ss_Status : Status; ss_CoverageState : CoverageState;
  ss_CoveredSeconds : Z; ss_Counts : option Counts; ss_Buckets : list SummaryBucket }.

Record Summary := MkSummary {
  sm_WindowStart : time; sm_WindowEnd : time; sm_BucketInterval : Z;
  sm_BucketCount : Z; sm_Sources : list SourceSummary }.

Record Snapshot := MkSnapshot {
  sn_Status : Status; sn_TotalCount : Z; sn_Events : list Event }.

(** [Status{}] and [Checkpoint{}]. *)
Definition zeroStatus : Status :=
  MkStatus (SupportOther "") (CollectionOther "") (FreshnessOther "") None None None None.
Definition zeroCheckpoint : Checkpoint := MkCheckpoint 0 false "" None None.
Definition zeroBucketCounts : BucketCounts := MkBucketCounts 0 0 (MkSeverity 0 0 0 0 0 0 0).

#[global] Instance Status_eq_dec : EqDecision Status.
Proof. solve_decision. Defined.
#[global] Instance Counts_eq_dec : EqDecision Counts.
Proof. solve_decision. Defined.

(** ** Validators of the enumerations *)

Definition Source_Validate (s : Source) : bool :=
  match s with SourceOther _ => false | _ => true end.
Definition Severity_Validate (s : Severity) : bool :=
  match s with SeverityOther _ => false | _ => true end.
Definition SupportState_Validate (s : SupportState) : bool :=
  match s with SupportOther _ => false | _ => true end.
Definition CollectionState_Validate (s : CollectionState) : bool :=
  match s with CollectionOther _ => false | _ => true end.
Definition Freshness_Validate (f : Freshness) : bool :=
  match f with FreshnessOther _ => false | _ => true end.
Definition BatchKind_Validate (k : BatchKind) : bool :=
  match k with BatchOther _ => false | _ => true end.
Definition CoverageState_Validate (c : CoverageState) : bool :=
  match c with CoverageOther _ => false | _ => true end.

Definition ReasonCode_text (r : ReasonCode) : string :=
  match r with
  | ReasonEmpty => ""
  | ReasonCheckpointReset => "CHECKPOINT_RESET"
  | ReasonPermissionDenied => "PERMISSION_DENIED"
  | ReasonDeadlineExceeded => "DEADLINE_EXCEEDED"
  | ReasonInvalidResponse => "INVALID_RESPONSE"
  | ReasonResponseTooLarge => "RESPONSE_TOO_LARGE"
  | ReasonReaderFailed => "READER_FAILED"
  | ReasonBacklogDeferred => "BACKLOG_DEFERRED"
  | ReasonMissedCollection => "MISSED_COLLECTION"
  | ReasonNotYetObserved => "NOT_YET_OBSERVED"
  | ReasonLogStorageUnavailable => "LOG_STORAGE_UNAVAILABLE"
  | ReasonNoVisibleJournal => "NO_VISIBLE_JOURNAL"
  | ReasonLogHelperUnavailable => "LOG_HELPER_UNAVAILABLE"
  | ReasonLogHelperMismatch => "LOG_HELPER_MISMATCH"
  | ReasonPlatformUnsupported => "PLATFORM_UNSUPPORTED"
  | ReasonLogSourcesDisabled => "LOG_SOURCES_DISABLED"
  | ReasonSourcePartial => "SOURCE_PARTIAL"
  | ReasonOther text => text
  end.

Definition knownReason (r : ReasonCode) : bool :=
  match r with ReasonEmpty | ReasonOther _ => false | _ => true end.

(** [^[A-Z0-9_]{1,64}$] *)
Definition reasonPattern (s : string) : bool :=
  (1 <=? slen s) && (slen s <=? 64)
  && str_forallb (λ c, between 65 90 c || between 48 57 c || (byte_val c =? 95)) s.

Definition ReasonCode_Validate (r : ReasonCode) : bool :=
  reasonPattern (ReasonCode_text r) && knownReason r.

Definition validateReasonPointer (r : option ReasonCode) : bool :=
  match r with None => true | Some r => ReasonCode_Validate r end.

(** Rank in the closed precedence order of historical gap reasons. *)
Definition HistoricalReasonRank (r : ReasonCode) : option Z :=
  match r with
  | ReasonCheckpointReset => Some 0
  | ReasonPermissionDenied => Some 1
  | ReasonDeadlineExceeded => Some 2
  | ReasonInvalidResponse => Some 3
  | ReasonResponseTooLarge => Some 4
  | ReasonReaderFailed => Some 5
  | ReasonBacklogDeferred => Some 6
  | ReasonMissedCollection => Some 7
  | ReasonNotYetObserved => Some 8
  | _ => None
  end.

Definition isHistoricalReason (r : option ReasonCode) : bool :=
  match r with
  | None => false
  | Some r => match HistoricalReasonRank r with Some _ => true | None => false end
  end.

Definition isGapReason (r : option ReasonCode) : bool :=
  match r with
  | None => false
  | Some r =>
      (r != ReasonNotYetObserved)
      && match HistoricalReasonRank r with Some _ => true | None => false end
  end.

(** ** Times and counters *)

Definition validateUTC (t : time) : bool := negb (IsZero t) && utc t && year_ok t.

Definition validateUTCPointer (t : option time) : bool :=
  match t with None => true | Some t => validateUTC t end.

Definition validateOrderedTimes (query started finished : time) : bool :=
  validateUTC query && validateUTC started && validateUTC finished
  && negb (Before started query || Before finished started).

(** [addSafe]: sum of two counters that stay JSON-safe integers. *)
Definition addSafe (l r : Z) : option Z :=
  if (MaxSafeInteger <? l) || (MaxSafeInteger <? r) || (MaxSafeInteger - l <? r)
  then None else Some (l + r).

(** ** Event codes *)

Fixpoint str_drop (n : nat) (s : string) : string :=
  match n, s with
  | O, _ => s
  | S n', String _ s' => str_drop n' s'
  | _, EmptyString => EmptyString
  end.
Fixpoint str_take (n : nat) (s : string) : string :=
  match n, s with
  | S n', String c s' => String c (str_take n' s')
  | _, _ => EmptyString
  end.

Definition is_digit (c : ascii) : bool := between 48 57 c.
(** [[0-9]{1,10}] *)
Definition digits10 (s : string) : bool :=
  (1 <=? slen s) && (slen s <=? 10) && str_forallb is_digit s.
Definition hex32 (s : string) : bool := (slen s =? 32) && str_forallb is_lower_hex s.

(** [windowsCodePattern.FindStringSubmatch]: the number of a match. *)
Definition windowsCodeNumber (code : string) : option string :=
  if String.prefix "WIN_" code then
    let rest := str_drop 4 code in
    if digits10 rest then Some rest
    else if hex32 (str_take 32 rest) && String.prefix "_" (str_drop 32 rest)
            && digits10 (str_drop 33 rest)
         then Some (str_drop 33 rest) else None
  else None.

Definition canonicalUint32 (value : string) : bool :=
  match ParseUint value 32 with
  | Some n => str_eqb (FormatUint n) value
  | None => false
  end.

Definition systemdCodePattern (code : string) : bool := match_pattern "SYSTEMD_" is_lower_hex 32 code.
Definition priorityCodePattern (code : string) : bool :=
  match_pattern "SYSTEMD_PRIORITY_" (between 48 55) 1 code.

Definition validEventCode (code : string) : bool :=
  match windowsCodeNumber code with
  | Some number => canonicalUint32 number
  | None => systemdCodePattern code || priorityCodePattern code
  end.

Definition Event_Validate (e : Event) : bool :=
  validateUTC (ev_ObservedAt e) && Source_Validate (ev_Source e)
  && Severity_Validate (ev_Severity e)
  && negb ((slen (ev_EventCode e) =? 0) || (64 <? slen (ev_EventCode e))
           || negb (validEventCode (ev_EventCode e))).

(** ** Status *)

Definition is_none {A} (o : option A) : bool := match o with None => true | Some _ => false end.
Definition is_some {A} (o : option A) : bool := match o with None => false | Some _ => true end.
(** [a != nil && b != nil && a.After( *b)] *)
Definition AfterPointer (a b : option time) : bool :=
  match a, b with Some a, Some b => After a b | _, _ => false end.

Definition Status_Validate (s : Status) : bool :=
  SupportState_Validate (st_SupportState s)
  && CollectionState_Validate (st_CollectionState s)
  && Freshness_Validate (st_Freshness s)
  && validateReasonPointer (st_ReasonCode s)
  && validateUTCPointer (st_ObservedAt s)
  && validateUTCPointer (st_AttemptedAt s)
  && validateUTCPointer (st_CoverageThrough s)
  && (if (st_Freshness s == FreshnessCurrent) || (st_Freshness s == FreshnessStale)
      then is_some (st_ObservedAt s) else is_none (st_ObservedAt s))
  && negb (is_some (st_CoverageThrough s) && is_none (st_ObservedAt s))
  && negb (is_some (st_ObservedAt s) && is_none (st_AttemptedAt s))
  && negb (AfterPointer (st_CoverageThrough s) (st_ObservedAt s))
  && negb (AfterPointer (st_ObservedAt s) (st_AttemptedAt s))
  && negb (AfterPointer (st_CoverageThrough s) (st_AttemptedAt s))
  && (if st_CollectionState s == CollectionOK
      then negb ((st_SupportState s != SupportSupported) || is_some (st_ReasonCode s)
                 || is_none (st_ObservedAt s) || is_none (st_AttemptedAt s)
                 || (st_Freshness s == FreshnessUnknown))
      else is_some (st_ReasonCode s))
  && negb ((st_CollectionState s == CollectionPartial) && (st_SupportState s != SupportSupported))
  && negb ((st_CollectionState s == CollectionNotRun) && (st_SupportState s == SupportSupported))
  && (if st_SupportState s != SupportSupported
      then negb ((st_SupportState s != SupportUnavailable)
                 && (st_CollectionState s != CollectionNotRun))
           && negb ((st_CollectionState s == CollectionNotRun)
                    && ((st_Freshness s != FreshnessUnknown) || is_some (st_ObservedAt s)))
      else true)
  && negb ((st_CollectionState s == CollectionFailed) && (st_Freshness s == FreshnessCurrent)).

(** ** Checkpoints and read requests *)

Definition Checkpoint_Validate (c : Checkpoint) : bool :=
  negb (MaxCheckpointBytes <? slen (cp_Opaque c))
  && negb (cp_ResetPending c && negb (slen (cp_Opaque c) =? 0))
  && negb (cp_ResetPending c && (cp_Revision c =? 0))
  && negb ((0 <? cp_Revision c) && is_none (cp_PreviousAttemptAt c))
  && negb ((cp_Revision c =? 0)
           && (negb (slen (cp_Opaque c) =? 0) || is_some (cp_PreviousAttemptAt c)
               || is_some (cp_CoverageThrough c)))
  && validateUTCPointer (cp_PreviousAttemptAt c)
  && (match cp_CoverageThrough c with
      | Some cov =>
          validateUTC cov
          && negb (match cp_PreviousAttemptAt c with
                   | None => true
                   | Some previous => After cov previous
                   end)
      | None => true
      end).

Definition ReadRequest_Validate (r : ReadRequest) : bool :=
  Source_Validate (rq_Source r) && Checkpoint_Validate (rq_Checkpoint r)
  && validateUTC (rq_QueryStartedAt r)
  && (match cp_PreviousAttemptAt (rq_Checkpoint r) with
      | Some previous => After (rq_QueryStartedAt r) previous
      | None => true
      end)
  && (match cp_CoverageThrough (rq_Checkpoint r) with
      | Some coverage => negb (After coverage (rq_QueryStartedAt r))
      | None => true
      end).

(** ** Batches *)

(** The reason, with the zero value for a nil pointer. *)
Definition reason_or_empty (r : option ReasonCode) : ReasonCode :=
  match r with None => ReasonEmpty | Some r => r end.

Definition Batch_validateNativeState (b : Batch) : bool :=
  let reason := reason_or_empty (b_ReasonCode b) in
  match b_SupportState b with
  | SupportSupported =>
      match b_CollectionState b with
      | CollectionOK => true
      | CollectionPartial =>
          ((b_Kind b != BatchNormal) && (reason == ReasonCheckpointReset))
          || ((reason == ReasonInvalidResponse) || (reason == ReasonDeadlineExceeded)
              || (reason == ReasonResponseTooLarge) || (reason == ReasonBacklogDeferred))
      | CollectionFailed =>
          (reason == ReasonDeadlineExceeded) || (reason == ReasonInvalidResponse)
          || (reason == ReasonResponseTooLarge) || (reason == ReasonReaderFailed)
      | _ => false
      end
  | SupportUnavailable =>
      ((b_CollectionState b == CollectionFailed) && (reason == ReasonReaderFailed))
      || ((b_CollectionState b == CollectionNotRun)
          && ((reason == ReasonNoVisibleJournal) || (reason == ReasonLogHelperUnavailable)
              || (reason == ReasonLogHelperMismatch) || (reason == ReasonReaderFailed)))
  | SupportPermissionDenied =>
      (b_CollectionState b == CollectionNotRun) && (reason == ReasonPermissionDenied)
  | SupportUnsupported =>
      (b_CollectionState b == CollectionNotRun) && (reason == ReasonPlatformUnsupported)
  | _ => false
  end.

Definition noEvents (b : Batch) : bool := Z.of_nat (length (b_Events b)) =? 0.
Definition noDiscards (b : Batch) : bool := Z.of_nat (length (b_Discards b)) =? 0.

Definition Batch_validateResetBatch (b : Batch) : bool :=
  negb (negb (noEvents b) || negb (noDiscards b) || negb (b_DiscardedCount b =? 0)
        || b_Deferred b || b_CaughtUp b)
  && (b_ExaminedCount b =? b_ProbeCount b)
  && (if b_Kind b == BatchResetEstablished
      then negb ((b_ProbeCount b =? 0) || (MaxProbeEvents <? b_ProbeCount b)
                 || (slen (b_NextOpaque b) =? 0)
                 || (b_ReasonCode b != Some ReasonCheckpointReset)
                 || (b_SupportState b != SupportSupported)
                 || (b_CollectionState b != CollectionPartial))
      else negb ((MaxProbeEvents <? b_ProbeCount b) || negb (slen (b_NextOpaque b) =? 0)
                 || (b_CollectionState b == CollectionOK) || is_none (b_ReasonCode b))).

(** The running total of the discard loop; [None] is any of its error returns. *)
Fixpoint sumDiscards (total : Z) (ds : list DiscardCount) : option Z :=
  match ds with
  | [] => Some total
  | d :: ds' =>
      if validateUTC (dc_At d) && negb (dc_Count d =? 0)
      then match addSafe total (dc_Count d) with
           | Some total' => sumDiscards total' ds'
           | None => None
           end
      else None
  end.

(** The checks of a batch of kind NORMAL. *)
Definition Batch_validateNormal (b : Batch) (discarded : Z) : bool :=
  let accepted := Z.of_nat (length (b_Events b)) + discarded in
  let expectedExamined := accepted + b_ProbeCount b + (if b_Deferred b then 1 else 0) in
  negb (1 <? b_ProbeCount b)
  && negb (MaxAcceptedEvents <? accepted)
  && (b_ExaminedCount b =? expectedExamined)
  && negb (b_Deferred b && b_CaughtUp b)
  && negb ((b_CollectionState b == CollectionOK) && negb (b_CaughtUp b))
  && negb ((b_CollectionState b == CollectionOK) && negb (b_DiscardedCount b =? 0))
  && negb (b_CaughtUp b && (b_CollectionState b == CollectionPartial)
           && ((b_ReasonCode b != Some ReasonInvalidResponse) || (b_DiscardedCount b =? 0)))
  && negb (((0 <? accepted) || (0 <? b_ProbeCount b)) && (slen (b_NextOpaque b) =? 0))
  && negb (b_CaughtUp b && (b_CollectionState b == CollectionFailed))
  && (if (b_CollectionState b == CollectionFailed) || (b_CollectionState b == CollectionNotRun)
      then negb (negb (noEvents b) || negb (noDiscards b) || negb (b_ExaminedCount b =? 0)
                 || negb (b_ProbeCount b =? 0) || negb (b_DiscardedCount b =? 0)
                 || b_Deferred b || b_CaughtUp b || negb (slen (b_NextOpaque b) =? 0))
      else true).

Definition Batch_Validate (b : Batch) : bool :=
  BatchKind_Validate (b_Kind b) && Source_Validate (b_Source b)
  && SupportState_Validate (b_SupportState b) && CollectionState_Validate (b_CollectionState b)
  && validateReasonPointer (b_ReasonCode b)
  && validateOrderedTimes (b_QueryStartedAt b) (b_StartedAt b) (b_FinishedAt b)
  && negb (MaxCheckpointBytes <? slen (b_NextOpaque b))
  && negb ((MaxAcceptedEvents <? Z.of_nat (length (b_Events b)))
           || (MaxAcceptedEvents <? Z.of_nat (length (b_Discards b)))
           || (MaxExaminedEvents <? b_ExaminedCount b) || (MaxProbeEvents <? b_ProbeCount b))
  && (if b_CollectionState b == CollectionOK
      then negb ((b_SupportState b != SupportSupported) || is_some (b_ReasonCode b))
      else is_some (b_ReasonCode b))
  && negb ((b_CollectionState b == CollectionPartial) && (b_SupportState b != SupportSupported))
  && negb ((b_CollectionState b == CollectionNotRun) && (b_SupportState b == SupportSupported))
  && negb ((b_SupportState b != SupportSupported) && (b_SupportState b != SupportUnavailable)
           && (b_CollectionState b != CollectionNotRun))
  && Batch_validateNativeState b
  && (match sumDiscards 0 (b_Discards b) with
      | None => false
      | Some discarded =>
          (discarded =? b_DiscardedCount b)
          && forallb (λ e, Event_Validate e && (ev_Source e == b_Source b)) (b_Events b)
          && (if b_Kind b != BatchNormal then Batch_validateResetBatch b
              else Batch_validateNormal b discarded)
      end).

(** ** Summaries *)

Definition SummaryQuery_Validate (q : SummaryQuery) : bool :=
  let seconds := Z.quot (q_BucketInterval q) Second in
  validateUTC (q_WindowStart q) && validateUTC (q_WindowEnd q)
  && Before (q_WindowStart q) (q_WindowEnd q)
  && (((q_BucketInterval q =? Minute) && (q_BucketCount q =? 60))
      || ((q_BucketInterval q =? 5 * Minute) && (q_BucketCount q =? 72))
      || ((q_BucketInterval q =? 15 * Minute) && (q_BucketCount q =? 96))
      || ((q_BucketInterval q =? Hour) && (q_BucketCount q =? 168)))
  && negb (maxSummaryBuckets <? q_BucketCount q)
  && (Sub (q_WindowEnd q) (q_WindowStart q) =? wrap_i64 (q_BucketCount q * q_BucketInterval q))
  && negb (negb (NanosecondOf (q_WindowStart q) =? 0) || negb (NanosecondOf (q_WindowEnd q) =? 0)
           || negb (Z.rem (Unix (q_WindowStart q)) seconds =? 0)
           || negb (Z.rem (Unix (q_WindowEnd q)) seconds =? 0)).

Definition sourceRank (s : Source) : Z :=
  match s with SourceSystem => 0 | SourceApplication => 1 | SourceOther _ => -1 end.

Definition bucketValues (c : BucketCounts) : list Z :=
  [bc_Captured c; bc_Discarded c; sv_Trace (bc_Severity c); sv_Debug (bc_Severity c);
   sv_Info (bc_Severity c); sv_Warn (bc_Severity c); sv_Error (bc_Severity c);
   sv_Critical (bc_Severity c); sv_Unknown (bc_Severity c)].

Fixpoint sumSafe (total : Z) (values : list Z) : option Z :=
  match values with
  | [] => Some total
  | v :: vs => match addSafe total v with Some t => sumSafe t vs | None => None end
  end.

Definition validateBucketCounts (c : BucketCounts) : bool :=
  forallb (λ v, negb (MaxSafeInteger <? v)) (bucketValues c)
  && match sumSafe 0 (drop 2 (bucketValues c)) with
     | Some severityTotal => severityTotal =? bc_Captured c
     | None => false
     end.

Definition validateSummaryBucket (b : SummaryBucket) (intervalSeconds : Z) : bool :=
  CoverageState_Validate (sb_CoverageState b) && validateReasonPointer (sb_ReasonCode b)
  && (match sb_CoverageState b with
      | CoverageFull =>
          negb (negb (sb_CoveredSeconds b =? intervalSeconds) || is_some (sb_ReasonCode b)
                || is_none (sb_Counts b))
      | CoveragePartial =>
          negb ((sb_CoveredSeconds b =? 0) || (intervalSeconds <=? sb_CoveredSeconds b)
                || negb (isHistoricalReason (sb_ReasonCode b)) || is_none (sb_Counts b))
      | CoverageGapState =>
          negb (negb (sb_CoveredSeconds b =? 0) || negb (isGapReason (sb_ReasonCode b)))
      | CoverageUnknown =>
          negb (negb (sb_CoveredSeconds b =? 0) || (sb_ReasonCode b != Some ReasonNotYetObserved))
      | CoverageOther _ => true
      end)
  && (match sb_Counts b with
      | None => true
      | Some c =>
          validateBucketCounts c
          && negb (((sb_CoverageState b == CoverageGapState)
                    || (sb_CoverageState b == CoverageUnknown))
                   && (bc_Captured c =? 0) && (bc_Discarded c =? 0))
      end).

Definition validateSourceStatus (s : Status) : bool :=
  let reason := reason_or_empty (st_ReasonCode s) in
  match st_SupportState s with
  | SupportSupported =>
      match st_CollectionState s with
      | CollectionOK => reason == ReasonEmpty
      | CollectionPartial =>
          (reason == ReasonCheckpointReset) || (reason == ReasonInvalidResponse)
          || (reason == ReasonDeadlineExceeded) || (reason == ReasonResponseTooLarge)
          || (reason == ReasonBacklogDeferred)
      | CollectionFailed =>
          (reason == ReasonDeadlineExceeded) || (reason == ReasonInvalidResponse)
          || (reason == ReasonResponseTooLarge) || (reason == ReasonReaderFailed)
          || (reason == ReasonLogStorageUnavailable)
      | _ => false
      end
  | SupportUnavailable =>
      ((st_CollectionState s == CollectionNotRun)
       && ((reason == ReasonNoVisibleJournal) || (reason == ReasonLogHelperUnavailable)
           || (reason == ReasonLogHelperMismatch) || (reason == ReasonReaderFailed)))
      || ((st_CollectionState s == CollectionFailed)
          && ((reason == ReasonReaderFailed) || (reason == ReasonLogStorageUnavailable)))
  | SupportPermissionDenied =>
      (st_CollectionState s == CollectionNotRun) && (reason == ReasonPermissionDenied)
  | SupportUnsupported =>
      (st_CollectionState s == CollectionNotRun) && (reason == ReasonPlatformUnsupported)
  | _ => false
  end.

Definition aggregateCoverage (states : list CoverageState) : CoverageState :=
  if decide (length states = 0%nat) then CoverageUnknown
  else if forallb (λ s, s == CoverageFull) states then CoverageFull
  else if forallb (λ s, s == CoverageUnknown) states then CoverageUnknown
  else if existsb (λ s, s == CoverageGapState) states
          && negb (existsb (λ s, (s == CoverageFull) || (s == CoveragePartial)) states)
  then CoverageGapState
  else CoveragePartial.

Definition equalCounts (l r : option Counts) : bool :=
  match l, r with
  | Some l, Some r => (ct_Captured l =? ct_Captured r) && (ct_Discarded l =? ct_Discarded r)
  | None, None => true
  | _, _ => false
  end.

(** [uint32(query.BucketInterval/time.Second)] *)
Definition bucketSeconds (q : SummaryQuery) : Z := Z.quot (q_BucketInterval q) Second mod 2 ^ 32.

(** One pass over the buckets of a source: covered seconds and totals so far. *)
Fixpoint sumBuckets (q : SummaryQuery) (i : Z) (bs : list SummaryBucket)
    (covered : Z) (totals : option Counts) : option (Z * option Counts) :=
  match bs with
  | [] => Some (covered, totals)
  | b :: bs' =>
      let expectedAt := Add (q_WindowStart q) (wrap_i64 (i * q_BucketInterval q)) in
      if Equal (sb_At b) expectedAt && utc (sb_At b)
         && validateSummaryBucket b (bucketSeconds q)
      then match addSafe covered (sb_CoveredSeconds b) with
           | None => None
           | Some covered' =>
               match sb_Counts b with
               | None => sumBuckets q (i + 1) bs' covered' totals
               | Some c =>
                   let t := default (MkCounts 0 0) totals in
                   match addSafe (ct_Captured t) (bc_Captured c),
                         addSafe (ct_Discarded t) (bc_Discarded c) with
                   | Some cap, Some dis =>
                       sumBuckets q (i + 1) bs' covered' (Some (MkCounts cap dis))
                   | _, _ => None
                   end
               end
           end
      else None
  end.

Definition validateSourceSummary (s : SourceSummary) (q : SummaryQuery) : bool :=
  Source_Validate (ss_Source s) && Status_Validate (ss_Status s)
  && validateSourceStatus (ss_Status s) && CoverageState_Validate (ss_CoverageState s)
  && (Z.of_nat (length (ss_Buckets s)) =? q_BucketCount q)
  && (match sumBuckets q 0 (ss_Buckets s) 0 None with
      | None => false
      | Some (covered, totals) =>
          (covered =? ss_CoveredSeconds s) && equalCounts totals (ss_Counts s)
          && (ss_CoverageState s == aggregateCoverage (map sb_CoverageState (ss_Buckets s)))
      end).

Fixpoint validateSources (q : SummaryQuery) (previousRank cap dis : Z)
    (ss : list SourceSummary) : bool :=
  match ss with
  | [] => true
  | s :: ss' =>
      let rank := sourceRank (ss_Source s) in
      negb ((rank <? 0) || (rank <=? previousRank))
      && validateSourceSummary s q
      && (match ss_Counts s with
          | None => validateSources q rank cap dis ss'
          | Some c =>
              match addSafe cap (ct_Captured c), addSafe dis (ct_Discarded c) with
              | Some cap', Some dis' => validateSources q rank cap' dis' ss'
              | _, _ => false
              end
          end)
  end.

Definition Summary_query (s : Summary) : SummaryQuery :=
  MkQuery (sm_WindowStart s) (sm_WindowEnd s) (sm_BucketInterval s) (sm_BucketCount s).

Definition Summary_Validate (s : Summary) : bool :=
  SummaryQuery_Validate (Summary_query s)
  && negb (MaxSources <? Z.of_nat (length (sm_Sources s)))
  && validateSources (Summary_query s) (-1) 0 0 (sm_Sources s).

(** ** Snapshots *)

Fixpoint newestFirst (es : list Event) : bool :=
  match es with
  | e :: ((e' :: _) as rest) =>
      negb (After (ev_ObservedAt e') (ev_ObservedAt e)) && newestFirst rest
  | _ => true
  end.

Definition Snapshot_Validate (s : Snapshot) : bool :=
  Status_Validate (sn_Status s)
  && negb ((sn_TotalCount s <? 0) || (MaxRecentEvents <? sn_TotalCount s)
           || negb (sn_TotalCount s =? Z.of_nat (length (sn_Events s))))
  && forallb Event_Validate (sn_Events s) && newestFirst (sn_Events s).
