(* ===== verification/UploadState.v ===== *)
(** * Upload admission ([internal/uploadstate])

    The machine that decides what a connected collector may send: it admits a
    snapshot under a fresh sequence number, commits it to the ledger before the
    first transmission, retransmits only while it is fresh and retires it on
    acknowledgement, expiry or a terminal refusal.  [Step] is the whole of
    [Machine.Step] over calls to the five dependencies of the machine; Go's
    defensive clones are the identity on immutable values.

    The two document validators the profiles select between
    ([remoteprojection.UploadCollectionTime], [combinedprojection.CollectionTime])
    and the extraction of the two policy flags of a combined document are the
    interface [Projections]; no law about them is assumed. *)

From S2P Require Import Prelude GoTime Sha256 Effects.

Class Projections := {
  UploadCollectionTime : string → string → option time;
  CombinedCollectionTime : string → string → option time;
  (** [json.Unmarshal] of [workload_inventory.policy]: processes, containers. *)
  WorkloadGroups : string → option (bool * bool) }.

(** ** Data *)

Definition MaxAge : Z := 2 * Minute.
Definition MaxFuture : Z := 30 * Second.
Definition RequestTimeout : Z := 5 * Second.
(** [remoteprojection.MaxBytes] and [combinedprojection.MaxBytes] *)
Definition numericMaxBytes : Z := 16 * 1024.
Definition combinedMaxBytes : Z := 288 * 1024.

Inductive Outcome :=
| NoOutcome (* the empty string *)
| Idle | SourceUnavailable | Retry | RateLimited | Acknowledged | Expired | ClockSkew
| CredentialRejected | Conflict | Rejected | Exhausted
| OutcomeOther (text : string).

Inductive Error := ErrConfig | ErrRecovery | ErrCanceled | ErrBusy | ErrSnapshot.

Inductive ProfileKind :=
| NumericProfile | RichProcessesProfile | RichProcessesDockerProfile | ProfileKindOther (n : Z).

Record ProfileBinding := MkProfile { Kind : ProfileKind; PolicyDigest : string }.
Record Binding := MkBinding { ServerID : string; ConnectorID : string }.

Record Pending := MkPending {
  p_Sequence : Z; p_Body : string; p_Digest : string; p_CollectedAt : time }.

Record Record_ := MkRecord {
  r_Binding : Binding; r_Profile : ProfileBinding; r_Watermark : Z; r_HasAck : bool;
  r_LastAck : string; r_Pending : option Pending; r_Stopped : Outcome }.

Record Request := MkRequest { rq_Binding : Binding; rq_Sequence : Z; rq_Body : string }.
Record Response := MkResponse { rs_Outcome : Outcome; rs_ServerID : string; rs_Sequence : Z }.

#[global] Instance Outcome_eq_dec : EqDecision Outcome.
Proof. solve_decision. Defined.
#[global] Instance Error_eq_dec : EqDecision Error.
Proof. solve_decision. Defined.
#[global] Instance ProfileKind_eq_dec : EqDecision ProfileKind.
Proof. solve_decision. Defined.
#[global] Instance ProfileBinding_eq_dec : EqDecision ProfileBinding.
Proof. solve_decision. Defined.
#[global] Instance Binding_eq_dec : EqDecision Binding.
Proof. solve_decision. Defined.
#[global] Instance Pending_eq_dec : EqDecision Pending.
Proof. solve_decision. Defined.
#[global] Instance Record_eq_dec : EqDecision Record_.
Proof. solve_decision. Defined.

(** [[32]byte{}] *)
Definition zeroDigest : string := string_of_bytes (replicate 32 0).

(** A provisioned, never used record. *)
Definition initialRecord (b : Binding) (p : ProfileBinding) : Record_ :=
  MkRecord b p 0 false zeroDigest None NoOutcome.

Definition with_pending (r : Record_) (w : Z) (p : option Pending) : Record_ :=
  MkRecord (r_Binding r) (r_Profile r) w (r_HasAck r) (r_LastAck r) p (r_Stopped r).
Definition with_ack (r : Record_) (digest : string) : Record_ :=
  MkRecord (r_Binding r) (r_Profile r) (r_Watermark r) true digest None (r_Stopped r).
Definition with_stopped (r : Record_) (o : Outcome) : Record_ :=
  MkRecord (r_Binding r) (r_Profile r) (r_Watermark r) (r_HasAck r) (r_LastAck r)
           (r_Pending r) o.

(** ** Profiles and record validation *)

Definition validProfile (p : ProfileBinding) : bool :=
  match Kind p with
  | NumericProfile => str_eqb (PolicyDigest p) zeroDigest
  | RichProcessesProfile | RichProcessesDockerProfile => negb (str_eqb (PolicyDigest p) zeroDigest)
  | ProfileKindOther _ => false
  end.

Definition maxBodyBytes (p : ProfileBinding) : Z :=
  if (Kind p == RichProcessesProfile) || (Kind p == RichProcessesDockerProfile)
  then combinedMaxBytes else numericMaxBytes.

(** [^srv_[a-f0-9]{32}$] and [^agent_[a-f0-9]{32}$] *)
Definition serverPattern (s : string) : bool := match_pattern "srv_" is_lower_hex 32 s.
Definition connectorPattern (s : string) : bool := match_pattern "agent_" is_lower_hex 32 s.

Definition validBinding (b : Binding) : bool :=
  serverPattern (ServerID b) && connectorPattern (ConnectorID b).

Section machine.
Context `{Projections}.

Definition collectionTime (body server : string) (p : ProfileBinding) : option time :=
  if negb (validProfile p) || (slen body =? 0) || (maxBodyBytes p <? slen body) then None
  else if Kind p == NumericProfile then UploadCollectionTime body server
  else match CombinedCollectionTime body server with
       | None => None
       | Some at' =>
           match WorkloadGroups body with
           | None => None
           | Some (processes, containers) =>
               if negb processes
                  || negb (Bool.eqb containers (Kind p == RichProcessesDockerProfile))
               then None else Some at'
           end
       end.

Definition validPending (r : Record_) (b : Binding) (profile : ProfileBinding) (p : Pending) : bool :=
  match collectionTime (p_Body p) (ServerID b) profile with
  | None => false
  | Some at' =>
      negb ((p_Sequence p <=? 0) || negb (p_Sequence p =? r_Watermark r)
            || negb (Equal at' (p_CollectedAt p))
            || negb (str_eqb (Sum256 (p_Body p)) (p_Digest p)))
  end.

Definition validRecord (r : Record_) (b : Binding) (profile : ProfileBinding) : bool :=
  negb ((r_Binding r != b) || (r_Watermark r <? 0)
        || (negb (r_HasAck r) && negb (str_eqb (r_LastAck r) zeroDigest))
        || (r_HasAck r && (r_Watermark r =? 0)))
  && negb ((r_Stopped r != NoOutcome) && (r_Stopped r != CredentialRejected)
           && (r_Stopped r != Conflict) && (r_Stopped r != Rejected)
           && (r_Stopped r != Exhausted))
  && negb ((r_Stopped r == Exhausted)
           && (negb (r_Watermark r =? MaxInt64) || bool_decide (is_Some (r_Pending r))))
  && (match r_Pending r with
      | None => true
      | Some p => validPending r b profile p
      end).

Definition ValidateRecordForProfile (r : Record_) (expected : Binding) (profile : ProfileBinding) : bool :=
  validBinding expected && validProfile profile && (r_Profile r == profile)
  && validRecord r expected profile.

(** [ValidateRecord]: the numeric profile. *)
Definition ValidateRecord (r : Record_) (expected : Binding) : bool :=
  ValidateRecordForProfile r expected (MkProfile NumericProfile zeroDigest).

(** ** The machine *)

Record Machine := MkMachine {
  m_binding : Binding; m_profile : ProfileBinding;
  m_record : option Record_; m_recovery : bool }.

Definition set_record (m : Machine) (r : Record_) : Machine :=
  MkMachine (m_binding m) (m_profile m) (Some r) (m_recovery m).
Definition set_recovery (m : Machine) : Machine :=
  MkMachine (m_binding m) (m_profile m) (m_record m) true.

(** The calls a machine makes, with what it can learn from each. *)
Inductive UploadCall : Type → Type :=
| TryLock : UploadCall bool
| CtxErr : UploadCall bool (* ctx.Err() != nil *)
| Now : UploadCall time
| LedgerLoad : UploadCall (option Record_)
| LedgerCommit (expected next : Record_) : UploadCall bool (* nil error *)
| SourceRead (server : string) : UploadCall (option string)
| Send (q : Request) : UploadCall (option Response)
  (* None: an error, or the request context had expired *).

(** [NewForProfile] on non-nil dependencies. *)
Definition NewForProfile (b : Binding) (p : ProfileBinding) : result Error Machine :=
  if validBinding b && validProfile p then Ok (MkMachine b p None false) else Err ErrConfig.

Local Open Scope prog_scope.

Definition answer : Type := Machine * result Error Outcome.
Definition outcome (m : Machine) (o : Outcome) : prog UploadCall answer := Ret (m, Ok o).
Definition fail_with (m : Machine) (e : Error) : prog UploadCall answer := Ret (m, Err e).

Definition clock_bad (now : time) : bool := IsZero now || negb (year_ok now).

(** [commit]: [r] is the record the machine holds. *)
Definition commit (m : Machine) (r next : Record_) : prog UploadCall (Machine * option Error) :=
  canceled <~ CtxErr;
  if canceled : bool then Ret (m, Some ErrCanceled)
  else if negb (ValidateRecordForProfile r (m_binding m) (m_profile m))
          || negb (ValidateRecordForProfile next (m_binding m) (m_profile m))
  then Ret (set_recovery m, Some ErrRecovery)
  else ok <~ LedgerCommit r next;
       if ok : bool then Ret (set_record m next, None) else Ret (set_recovery m, Some ErrRecovery).

Definition stop (m : Machine) (r : Record_) (reason : Outcome) : prog UploadCall answer :=
  c <- commit m r (with_stopped r reason);
  match c with
  | (m', Some e) => fail_with m' e
  | (m', None) => outcome m' reason
  end.

(** Transmission of the pending snapshot and the reaction to its response. *)
Definition deliver (m : Machine) (r : Record_) : prog UploadCall answer :=
  canceled <~ CtxErr;
  if canceled : bool then fail_with m ErrCanceled
  else if negb (ValidateRecordForProfile r (m_binding m) (m_profile m))
  then fail_with (set_recovery m) ErrRecovery
  else match r_Pending r with
  | None => fail_with m ErrRecovery (* unreachable: callers hold a pending record *)
  | Some p =>
      t <~ Now;
      let now := UTC t in
      if clock_bad now || After (p_CollectedAt p) (Add now MaxFuture) then outcome m ClockSkew
      else if MaxAge <? Sub now (p_CollectedAt p) then outcome m Expired
      else
        response <~ Send (MkRequest (m_binding m) (p_Sequence p) (p_Body p));
        canceled <~ CtxErr;
        if canceled : bool then fail_with m ErrCanceled
        else match response with
        | None => outcome m Retry
        | Some rs =>
            match rs_Outcome rs with
            | Acknowledged =>
                if negb (str_eqb (rs_ServerID rs) (ServerID (m_binding m)))
                   || negb (rs_Sequence rs =? p_Sequence p)
                then outcome m Retry
                else
                  c <- commit m r (with_ack r (p_Digest p));
                  match c with
                  | (m', Some e) => fail_with m' e
                  | (m', None) => outcome m' Acknowledged
                  end
            | CredentialRejected | Conflict | Rejected => stop m r (rs_Outcome rs)
            | RateLimited => outcome m RateLimited
            | _ => outcome m Retry
            end
        end
  end.

(** Admission of a new snapshot when none is pending. *)
Definition admit_next (m : Machine) (r : Record_) (retired : bool) : prog UploadCall answer :=
  canceled <~ CtxErr;
  if canceled : bool then fail_with m ErrCanceled
  else
    read <~ SourceRead (ServerID (m_binding m));
    canceled <~ CtxErr;
    if canceled : bool then fail_with m ErrCanceled
    else match read with
    | None => outcome m (if retired then Expired else SourceUnavailable)
    | Some body =>
        if maxBodyBytes (m_profile m) <? slen body then fail_with m ErrSnapshot
        else
          t <~ Now;
          let now := UTC t in
          if clock_bad now then outcome m ClockSkew
          else match collectionTime body (ServerID (m_binding m)) (m_profile m) with
          | None => fail_with m ErrSnapshot
          | Some at' =>
              if After at' (Add now MaxFuture) then outcome m ClockSkew
              else if MaxAge <? Sub now at' then outcome m Expired
              else
                let digest := Sum256 body in
                if r_HasAck r && str_eqb digest (r_LastAck r) then outcome m Idle
                else if r_Watermark r =? MaxInt64 then stop m r Exhausted
                else
                  let w := wrap_i64 (r_Watermark r + 1) in
                  let next := with_pending r w (Some (MkPending w body digest at')) in
                  c <- commit m r next;
                  match c with
                  | (m', Some e) => fail_with m' e
                  | (m', None) => deliver m' next
                  end
          end
    end.

(** The body of [Step] once the machine holds a valid record. *)
Definition step_loaded (m : Machine) (r : Record_) : prog UploadCall answer :=
  if r_Stopped r != NoOutcome then outcome m (r_Stopped r)
  else
    t <~ Now;
    let now := UTC t in
    if clock_bad now then outcome m ClockSkew
    else match r_Pending r with
    | None => admit_next m r false
    | Some p =>
        if After (p_CollectedAt p) (Add now MaxFuture) then outcome m ClockSkew
        else if MaxAge <? Sub now (p_CollectedAt p) then
          let next := with_pending r (r_Watermark r) None in
          c <- commit m r next;
          match c with
          | (m', Some e) => fail_with m' e
          | (m', None) => admit_next m' next true
          end
        else deliver m r
    end.

Definition Step (m : Machine) : prog UploadCall answer :=
  locked <~ TryLock;
  if negb locked then fail_with m ErrBusy
  else if m_recovery m then fail_with m ErrRecovery
  else
    canceled <~ CtxErr;
    if canceled : bool then fail_with m ErrCanceled
    else match m_record m with
    | None =>
        loaded <~ LedgerLoad;
        match loaded with
        | Some r =>
            if ValidateRecordForProfile r (m_binding m) (m_profile m)
            then step_loaded (set_record m r) r
            else fail_with (set_recovery m) ErrRecovery
        | None => fail_with (set_recovery m) ErrRecovery
        end
    | Some r =>
        if ValidateRecordForProfile r (m_binding m) (m_profile m) then step_loaded m r
        else fail_with (set_recovery m) ErrRecovery
    end.
End machine.
#[global] Arguments commit : simpl never.
#[global] Arguments stop : simpl never.
#[global] Arguments deliver : simpl never.
#[global] Arguments admit_next : simpl never.
#[global] Arguments step_loaded : simpl never.
#[global] Arguments Step : simpl never.
