(* ===== verification/UploadLedger.v ===== *)
(** * Upload ledger ([internal/uploadledger])

    The durable home of an upload record: a one-row SQLite table with CHECK
    constraints, read and replaced inside immediate transactions.  The model
    holds the row with the columns of the schema, the translation between rows
    and records ([recordArgs]/[argsFor] and [readRecord]), the change rule, and
    [Load], [Commit] and [transaction] over the statements they issue.  File
    checks, pragmas and schema verification of [open] are not modelled. *)

From S2P Require Import Prelude GoTime GoCalendar Sha256 Effects UploadState.

(** ** Comparison of records *)

Definition samePending (a b : option Pending) : bool :=
  match a, b with
  | None, None => true
  | Some a, Some b =>
      (p_Sequence a =? p_Sequence b) && str_eqb (p_Digest a) (p_Digest b)
      && Equal (p_CollectedAt a) (p_CollectedAt b) && str_eqb (p_Body a) (p_Body b)
  | _, _ => false
  end.

Definition sameRecord (a b : Record_) : bool :=
  (r_Binding a == r_Binding b) && (r_Profile a == r_Profile b)
  && (r_Watermark a =? r_Watermark b) && Bool.eqb (r_HasAck a) (r_HasAck b)
  && str_eqb (r_LastAck a) (r_LastAck b) && (r_Stopped a == r_Stopped b)
  && samePending (r_Pending a) (r_Pending b).

(** ** Storage envelopes of the profiles *)

Record storageLimits := MkLimits {
  pages : Z; version : Z; bodyBytes : Z; databaseBytes : Z; totalBytes : Z }.

Definition limits (profile : ProfileBinding) : storageLimits :=
  if Kind profile == RichProcessesDockerProfile
  then MkLimits 128 3 (288 * 1024) (4096 * 128) (2 * 1024 * 1024)
  else if Kind profile == RichProcessesProfile
  then MkLimits 128 2 (288 * 1024) (4096 * 128) (2 * 1024 * 1024)
  else MkLimits 64 1 16384 (4096 * 64) (1024 * 1024).

Definition hasPolicyColumns (profile : ProfileBinding) : bool :=
  (Kind profile == RichProcessesProfile) || (Kind profile == RichProcessesDockerProfile).

(** The integer behind a [ProfileKind]. *)
Definition kind_int (k : ProfileKind) : Z :=
  match k with
  | NumericProfile => 0 | RichProcessesProfile => 1 | RichProcessesDockerProfile => 2
  | ProfileKindOther n => n
  end.
Definition kind_of_int (n : Z) : ProfileKind :=
  if n =? 0 then NumericProfile else if n =? 1 then RichProcessesProfile
  else if n =? 2 then RichProcessesDockerProfile else ProfileKindOther n.

(** ** Rows *)

(** The string behind an [Outcome]. *)
Definition outcome_text (o : Outcome) : string :=
  match o with
  | NoOutcome => "" | Idle => "IDLE" | SourceUnavailable => "SOURCE_UNAVAILABLE"
  | Retry => "RETRY" | RateLimited => "RATE_LIMITED" | Acknowledged => "ACKNOWLEDGED"
  | Expired => "EXPIRED_DELIVERY_UNKNOWN" | ClockSkew => "CLOCK_SKEW"
  | CredentialRejected => "CREDENTIAL_REJECTED" | Conflict => "CONFLICT"
  | Rejected => "REJECTED" | Exhausted => "SEQUENCE_EXHAUSTED" | OutcomeOther text => text
  end.
Definition known_outcomes : list Outcome :=
  [NoOutcome; Idle; SourceUnavailable; Retry; RateLimited; Acknowledged; Expired; ClockSkew;
   CredentialRejected; Conflict; Rejected; Exhausted].
Definition outcome_of_text (s : string) : Outcome :=
  default (OutcomeOther s) (List.find (λ o, str_eqb (outcome_text o) s) known_outcomes).

(** A row of [upload_record]; the last column pair exists in the rich schemas. *)
Record Row := MkRow {
  server_id : string; connector_id : string; watermark : Z; has_ack : Z;
  last_ack : string; stopped : string; pending_sequence : option Z;
  pending_body : option string; pending_digest : option string; pending_at : option string;
  policy_columns : option (Z * string) }.

(** SQLite's [length] of a TEXT value: UTF-8 characters before the first NUL. *)
Fixpoint text_length_from (inside : bool) (s : string) : Z :=
  match s with
  | EmptyString => 0
  | String c s' =>
      let v := byte_val c in
      if v =? 0 then 0
      else if inside && (128 <=? v) && (v <? 192) then text_length_from true s'
      else 1 + text_length_from (192 <=? v) s'
  end.
Definition text_length (s : string) : Z := text_length_from false s.

Definition null_or {A} (x : option A) (p : A → bool) : bool :=
  match x with None => true | Some a => p a end.

(** The CHECK constraints of [schema], [richSchema] and [dockerRichSchema]. *)
Definition row_constraints (profile : ProfileBinding) (x : Row) : bool :=
  (text_length (server_id x) =? 36) && (text_length (connector_id x) =? 38)
  && (0 <=? watermark x) && ((has_ack x =? 0) || (has_ack x =? 1))
  && (slen (last_ack x) =? 32)
  && existsb (λ o, str_eqb (outcome_text o) (stopped x))
       [NoOutcome; CredentialRejected; Conflict; Rejected; Exhausted]
  && null_or (pending_sequence x) (λ n, 0 <? n)
  && null_or (pending_body x) (λ b, (1 <=? slen b) && (slen b <=? bodyBytes (limits profile)))
  && null_or (pending_digest x) (λ d, slen d =? 32)
  && null_or (pending_at x) (λ a, (20 <=? text_length a) && (text_length a <=? 30))
  && (match pending_sequence x, pending_body x, pending_digest x, pending_at x with
      | None, None, None, None | Some _, Some _, Some _, Some _ => true
      | _, _, _, _ => false
      end)
  && (match policy_columns x with
      | None => negb (hasPolicyColumns profile)
      | Some (kind, digest) =>
          hasPolicyColumns profile && (kind =? kind_int (Kind profile)) && (slen digest =? 32)
      end).

(** [argsFor] over [recordArgs]. *)
Definition recordArgs (r : Record_) : Row :=
  let base := MkRow (ServerID (r_Binding r)) (ConnectorID (r_Binding r)) (r_Watermark r)
                    (if r_HasAck r then 1 else 0) (r_LastAck r) (outcome_text (r_Stopped r)) in
  match r_Pending r with
  | None => base None None None None None
  | Some p => base (Some (p_Sequence p)) (Some (p_Body p)) (Some (p_Digest p))
                   (Some (FormatRFC3339Nano (p_CollectedAt p))) None
  end.

Definition argsFor (r : Record_) : Row :=
  let x := recordArgs r in
  if hasPolicyColumns (r_Profile r)
  then MkRow (server_id x) (connector_id x) (watermark x) (has_ack x) (last_ack x) (stopped x)
             (pending_sequence x) (pending_body x) (pending_digest x) (pending_at x)
             (Some (kind_int (Kind (r_Profile r)), PolicyDigest (r_Profile r)))
  else x.

(** The [checks] expression of [readRecord] on one row. *)
Definition row_checks (profile : ProfileBinding) (x : Row) : bool :=
  (text_length (server_id x) =? 36) && (text_length (connector_id x) =? 38)
  && (slen (last_ack x) =? 32) && (text_length (stopped x) <=? 32)
  && null_or (pending_body x) (λ b, slen b <=? bodyBytes (limits profile))
  && null_or (pending_digest x) (λ d, slen d =? 32)
  && null_or (pending_at x) (λ a, text_length a <=? 30)
  && (negb (hasPolicyColumns profile)
      || match policy_columns x with
         | Some (kind, digest) => (kind =? kind_int (Kind profile)) && (slen digest =? 32)
         | None => false
         end).

Section ledger.
Context `{Projections}.

Definition validChangeForProfile (expected next : Record_) (b : Binding) (p : ProfileBinding) : bool :=
  ValidateRecordForProfile expected b p && ValidateRecordForProfile next b p
  && (r_Watermark expected <=? r_Watermark next)
  && (match r_Pending next with
      | None => true
      | Some pn => (r_Watermark expected <? p_Sequence pn)
                   || samePending (r_Pending expected) (r_Pending next)
      end).

(** The profile a scanned row carries. *)
Definition decode_profile (profile : ProfileBinding) (x : Row) : option ProfileBinding :=
  if hasPolicyColumns profile then
    match policy_columns x with
    | None => None
    | Some (kind, digest) =>
        if negb (kind =? kind_int (Kind profile)) || negb (slen digest =? 32) then None
        else Some (MkProfile (kind_of_int kind) digest)
    end
  else Some (MkProfile NumericProfile zeroDigest).

(** The pending columns of a scanned row. *)
Definition decode_pending (x : Row) : option (option Pending) :=
  match pending_sequence x with
  | Some sequence =>
      match pending_at x with
      | None => None
      | Some text =>
          match canonicalTime text with
          | None => None
          | Some parsed =>
              let digest := default ""%string (pending_digest x) in
              if negb (slen digest =? 32) then None
              else Some (Some (MkPending sequence (default ""%string (pending_body x)) digest parsed))
          end
      end
  | None =>
      match pending_at x, pending_body x, pending_digest x with
      | None, None, None => Some None
      | _, _, _ => None
      end
  end.

(** [readRecord] from the scanned row on. *)
Definition decodeRow (b : Binding) (profile : ProfileBinding) (x : Row) : option Record_ :=
  if (negb (has_ack x =? 0) && negb (has_ack x =? 1)) || negb (slen (last_ack x) =? 32) then None
  else match decode_profile profile x, decode_pending x with
  | Some p, Some pending =>
      let r := MkRecord (MkBinding (server_id x) (connector_id x)) p (watermark x)
                        (has_ack x =? 1) (last_ack x) pending (outcome_of_text (stopped x)) in
      if ValidateRecordForProfile r b profile then Some r else None
  | _, _ => None
  end.

(** ** Statements and operations *)

Inductive SqlCall : Type → Type :=
| LedgerTryLock : SqlCall bool
| BeginImmediate : SqlCall bool (* nil error *)
| SelectChecks (profile : ProfileBinding) : SqlCall (option (Z * Z)) (* count, min(checks) *)
| SelectRecord (profile : ProfileBinding) : SqlCall (option Row)
| UpdateRecord (args : Row) : SqlCall (option Z) (* rows affected *)
| CommitTransaction : SqlCall bool
| Rollback : SqlCall unit.

Inductive LedgerError := LedgerBusy | LedgerRecovery.

Record Ledger := MkLedger {
  l_binding : Binding; l_profile : ProfileBinding;
  l_open : bool (* conn != nil *); l_failed : bool }.

Definition set_failed (l : Ledger) : Ledger :=
  MkLedger (l_binding l) (l_profile l) (l_open l) true.

Local Open Scope prog_scope.

Definition readRecord (b : Binding) (profile : ProfileBinding) : prog SqlCall (option Record_) :=
  checks <~ SelectChecks profile;
  match checks with
  | None => Ret None
  | Some (count, bounded) =>
      if negb (count =? 1) || negb (bounded =? 1) then Ret None
      else
        row <~ SelectRecord profile;
        match row with
        | None => Ret None
        | Some x => Ret (decodeRow b profile x)
        end
  end.

(** [transaction]; the test seams around COMMIT are nil in production. *)
Definition transaction (body : prog SqlCall bool) : prog SqlCall bool :=
  began <~ BeginImmediate;
  if negb began then Ret false
  else
    done <- body;
    if negb done then _ <~ Rollback; Ret false
    else
      committed <~ CommitTransaction;
      if committed : bool then Ret true else _ <~ Rollback; Ret false.

Definition ledger_commit (l : Ledger) (expected next : Record_) : prog SqlCall bool :=
  transaction (
    actual <- readRecord (l_binding l) (l_profile l);
    match actual with
    | None => Ret false
    | Some a =>
        if negb (sameRecord a expected) then Ret false
        else
          n <~ UpdateRecord (argsFor next);
          Ret (match n with Some n => n =? 1 | None => false end)
    end).

Definition Commit (l : Ledger) (expected next : Record_) : prog SqlCall (Ledger * option LedgerError) :=
  locked <~ LedgerTryLock;
  if negb locked then Ret (l, Some LedgerBusy)
  else if l_failed l || negb (l_open l) then Ret (l, Some LedgerRecovery)
  else if negb (validChangeForProfile expected next (l_binding l) (l_profile l))
  then Ret (set_failed l, Some LedgerRecovery)
  else
    ok <- ledger_commit l expected next;
    if ok : bool then Ret (l, None) else Ret (set_failed l, Some LedgerRecovery).

Definition Load (l : Ledger) : prog SqlCall (Ledger * result LedgerError Record_) :=
  locked <~ LedgerTryLock;
  if negb locked then Ret (l, Err LedgerBusy)
  else if l_failed l || negb (l_open l) then Ret (l, Err LedgerRecovery)
  else
    r <- readRecord (l_binding l) (l_profile l);
    match r with
    | None => Ret (set_failed l, Err LedgerRecovery)
    | Some r => Ret (l, Ok r)
    end.

(** [Close]: further operations are refused. *)
Definition Close (l : Ledger) : Ledger := MkLedger (l_binding l) (l_profile l) false (l_failed l).
End ledger.
#[global] Arguments readRecord : simpl never.
#[global] Arguments transaction : simpl never.
#[global] Arguments ledger_commit : simpl never.
#[global] Arguments decodeRow : simpl never.
#[global] Arguments argsFor : simpl never.
