(* ===== verification/UploadExample.v ===== *)
(** * A concrete installation

    The identity, profile, clock readings and one-document validator at which the
    upload theorems are instantiated. *)

From S2P Require Import Prelude GoTime Sha256 UploadState.

Definition digits32 : string := "0123456789abcdef0123456789abcdef".
Definition binding : Binding :=
  MkBinding ("srv_" ++ digits32) ("agent_" ++ digits32).
Definition numeric : ProfileBinding := MkProfile NumericProfile zeroDigest.
Definition collected : time := At (63000000000 * Second).
Definition current : time := At (63000000060 * Second).

(** A validator for one-document sources. *)
#[export] Instance projections : Projections := {|
  UploadCollectionTime body _ := if str_eqb body "document" then Some collected else None;
  CombinedCollectionTime _ _ := None;
  WorkloadGroups _ := None |}.

Definition start : Record_ := initialRecord binding numeric.
