(* ===== verification/UploadSafety.v ===== *)
(** * What the upload machine guarantees

    The machine of [UploadState] against every environment that honours the
    ledger's documented contract: a load returns the durable record, a commit
    compares the expected record and replaces it atomically, and a commit that
    reports an error may or may not have become durable.  Clocks, sources,
    transports and cancellation are unconstrained, and the process may stop
    between any two calls and start again from the durable record. *)

From S2P Require Import Prelude GoTime Sha256 Effects UploadState UploadLedger UploadExample.

#[local] Opaque Sum256 match_pattern.

(** ** The environment *)

(** What the world remembers of a transmission: the request, the durable record
    at that moment and the last clock reading the machine took before it. *)
Record Sent := MkSent { s_request : Request; s_durable : Record_; s_clock : time }.

Record World := MkWorld {
  w_durable : Record_; w_clock : time; w_sent : list Sent;
  w_commits : list (Record_ * Record_) (* every attempted (expected, next) *) }.

Definition set_durable (w : World) (r : Record_) : World :=
  MkWorld r (w_clock w) (w_sent w) (w_commits w).
Definition set_clock (w : World) (t : time) : World :=
  MkWorld (w_durable w) t (w_sent w) (w_commits w).
Definition log_send (w : World) (q : Request) : World :=
  MkWorld (w_durable w) (w_clock w) (w_sent w ++ [MkSent q (w_durable w) (w_clock w)])
          (w_commits w).
Definition log_commit (w : World) (expected next : Record_) : World :=
  MkWorld (w_durable w) (w_clock w) (w_sent w) (w_commits w ++ [(expected, next)]).
(** An installation whose ledger holds [r] and that has not sent anything. *)
Definition installed (r : Record_) : World := MkWorld r zeroTime [] [].

Definition upload_env (A : Type) (e : UploadCall A) : World → A → World → Prop :=
  match e in UploadCall T return World → T → World → Prop with
  | TryLock => λ w _ w', w' = w
  | CtxErr => λ w _ w', w' = w
  | Now => λ w t w', w' = set_clock w t
  | LedgerLoad => λ w a w', w' = w ∧
      match a with Some r => sameRecord r (w_durable w) = true | None => True end
  | LedgerCommit expected next => λ w ok w',
      (ok = false ∧ w' = log_commit w expected next)
      ∨ (sameRecord expected (w_durable w) = true
         ∧ w' = set_durable (log_commit w expected next) next)
  | SourceRead _ => λ w _ w', w' = w
  | Send q => λ w _ w', w' = log_send w q
  end.

(** Collection times are parsed from canonical RFC 3339 text, so they carry no
    monotonic reading and lie between the years 1 and 9999. *)
Class ProjectionLaws `{Projections} : Prop := {
  upload_time_parsed : ∀ body server t,
    UploadCollectionTime body server = Some t → wallclock t ∧ year_ok t = true;
  combined_time_parsed : ∀ body server t,
    CombinedCollectionTime body server = Some t → wallclock t ∧ year_ok t = true }.

Lemma collectionTime_parsed `{ProjectionLaws} body server profile t :
  collectionTime body server profile = Some t → wallclock t ∧ year_ok t = true.
Proof.
  unfold collectionTime. intros Hc. cases Hc; simplify_eq;
    eauto using upload_time_parsed, combined_time_parsed.
Qed.

Section safety.
Context `{ProjectionLaws}.
Variables (b : Binding) (profile : ProfileBinding).

Abbreviation valid r := (ValidateRecordForProfile r b profile = true).

(** A machine as [NewForProfile] returns it. *)
Definition fresh : Machine := MkMachine b profile None false.

(** Life of an installation: completed steps, restarts between steps and
    crashes inside a step, in any order. *)
Inductive life : World → Machine → World → Prop :=
| life_start w : life w fresh w
| life_step w0 m w m' out w' :
    life w0 m w → exec upload_env (Step m) w (Ret (m', out)) w' → life w0 m' w'
| life_crash w0 m w p w' :
    life w0 m w → exec upload_env (Step m) w p w' → life w0 fresh w'.

(** ** The invariant *)

(** A transmission was of the record pending in the ledger, and fresh. *)
Definition sent_ok (s : Sent) : Prop :=
  ∃ p at', r_Pending (s_durable s) = Some p
  ∧ s_request s = MkRequest b (p_Sequence p) (p_Body p)
  ∧ collectionTime (p_Body p) (ServerID b) profile = Some at'
  ∧ p_Digest p = Sum256 (p_Body p)
  ∧ p_Sequence p = r_Watermark (s_durable s)
  ∧ - MaxFuture ≤ wall (s_clock s) - wall at' ≤ MaxAge.

Definition sent_below (r : Record_) (s : Sent) : Prop :=
  rq_Sequence (s_request s) ≤ r_Watermark r
  ∧ ∀ p, r_Pending r = Some p → rq_Sequence (s_request s) = p_Sequence p →
         rq_Body (s_request s) = p_Body p.

Definition sent_agree (l : list Sent) : Prop :=
  ∀ s s', s ∈ l → s' ∈ l → rq_Sequence (s_request s) = rq_Sequence (s_request s') →
          rq_Body (s_request s) = rq_Body (s_request s').

Record winv (w : World) : Prop := {
  winv_valid : valid (w_durable w);
  winv_int64 : r_Watermark (w_durable w) ≤ MaxInt64;
  winv_below : ∀ s, s ∈ w_sent w → sent_below (w_durable w) s;
  winv_agree : sent_agree (w_sent w);
  winv_ok : ∀ s, s ∈ w_sent w → sent_ok s;
  winv_commits : ∀ e n, (e, n) ∈ w_commits w → validChangeForProfile e n b profile = true }.

(** The machine knows the durable record unless it gave up. *)
Record minv (m : Machine) (w : World) : Prop := {
  minv_binding : m_binding m = b;
  minv_profile : m_profile m = profile;
  minv_record : m_recovery m = false → ∀ r, m_record m = Some r → sameRecord r (w_durable w) = true }.

(** What the step may do to the durable record. *)
Record advance (d d' : Record_) : Prop := {
  adv_watermark : r_Watermark d ≤ r_Watermark d';
  adv_int64 : r_Watermark d ≤ MaxInt64 → r_Watermark d' ≤ MaxInt64;
  adv_pending : ∀ p', r_Pending d' = Some p' →
     r_Watermark d < p_Sequence p' ∨
     ∃ p, r_Pending d = Some p ∧ p_Sequence p = p_Sequence p' ∧ p_Body p = p_Body p' }.

(** What one commit of the machine may do: retire the pending snapshot, keep
    it, or replace it by one with a larger sequence number. *)
Definition next_pending_ok (r next : Record_) : Prop :=
  r_Pending next = None ∨ r_Pending next = r_Pending r
  ∨ ∃ p, r_Pending next = Some p ∧ r_Watermark r < p_Sequence p.

Lemma advance_refl d : advance d d.
Proof. split; [done|done|]. intros p' Hp'. right. eauto. Qed.

Lemma advance_trans d d' d'' : advance d d' → advance d' d'' → advance d d''.
Proof.
  intros [H1 Hm H2] [H3 Hm' H4]. split; [lia|auto|]. intros p'' Hp''.
  destruct (H4 _ Hp'') as [?|(p' & Hp' & Hs & Hb)]; [left; lia|].
  destruct (H2 _ Hp') as [?|(p & Hp & Hs' & Hb')]; [left; lia|].
  right. exists p. repeat split; congruence.
Qed.

(** ** Facts about records *)

Lemma valid_pending r p :
  valid r → r_Pending r = Some p →
  ∃ at', collectionTime (p_Body p) (ServerID b) profile = Some at'
    ∧ 0 < p_Sequence p ∧ p_Sequence p = r_Watermark r
    ∧ Equal at' (p_CollectedAt p) = true ∧ p_Digest p = Sum256 (p_Body p).
Proof.
  unfold ValidateRecordForProfile, validRecord, validPending. intros Hv Hp.
  rewrite Hp in Hv. bools.
  destruct (collectionTime (p_Body p) (ServerID b) profile) as [at'|]; [|done].
  bools. exists at'. repeat split; auto; lia.
Qed.

Lemma valid_watermark r : valid r → 0 ≤ r_Watermark r.
Proof. unfold ValidateRecordForProfile, validRecord. intros Hv. bools. lia. Qed.

Lemma sameRecord_refl r : sameRecord r r = true.
Proof.
  unfold sameRecord, samePending. rewrite !bool_decide_eq_true_2, Z.eqb_refl, eqb_reflx, str_eqb_refl by done.
  simpl. destruct (r_Pending r) as [p|]; [|done].
  rewrite Z.eqb_refl, !str_eqb_refl, Equal_refl. done.
Qed.

Lemma sameRecord_fields r d :
  sameRecord r d = true →
  r_Watermark r = r_Watermark d ∧ r_Stopped r = r_Stopped d
  ∧ (r_Pending r = None ↔ r_Pending d = None)
  ∧ ∀ p, r_Pending r = Some p → ∃ p', r_Pending d = Some p'
      ∧ p_Sequence p' = p_Sequence p ∧ p_Body p' = p_Body p ∧ p_Digest p' = p_Digest p.
Proof.
  unfold sameRecord, samePending. intros Hs. bools.
  destruct (r_Pending r) as [p|], (r_Pending d) as [p'|]; try done; bools;
    (split; [done|split; [done|split; [done|]]]); intros ? [= <-].
  exists p'. repeat split; congruence.
Qed.


Lemma sameRecord_advance r d next : sameRecord r d = true → advance r next → advance d next.
Proof.
  intros Hs [H1 Hm H2]. destruct (sameRecord_fields _ _ Hs) as (Hw & _ & _ & Hp).
  split; [lia|lia|]. intros p' Hp'. destruct (H2 _ Hp') as [?|(p & Hpr & ? & ?)]; [left; lia|].
  destruct (Hp _ Hpr) as (p0 & ? & ? & ? & ?). right. exists p0. repeat split; congruence.
Qed.

Lemma samePending_refl p : samePending p p = true.
Proof.
  unfold samePending. destruct p; [|done].
  by rewrite Z.eqb_refl, !str_eqb_refl, Equal_refl.
Qed.

Lemma valid_change r next :
  valid r → valid next → advance r next → next_pending_ok r next →
  validChangeForProfile r next b profile = true.
Proof.
  intros Hr Hn [Hw _ _] Hp. unfold validChangeForProfile. rewrite Hr, Hn.
  apply Z.leb_le in Hw as ->. simpl.
  destruct Hp as [->|[->|(p & -> & Hlt)]]; [done| |].
  - rewrite samePending_refl. by destruct (r_Pending r); rewrite ?orb_true_r.
  - by apply Z.ltb_lt in Hlt as ->.
Qed.

Lemma winv_advance w d' :
  winv w → valid d' → advance (w_durable w) d' → winv (set_durable w d').
Proof.
  intros [Hv Hi Hb Ha Ho Hk] Hv' [H1 Hm H2]. split; simpl; auto. intros s Hs.
  destruct (Hb _ Hs) as [Hle Heq]. split; [lia|]. intros p' Hp' Hseq.
  destruct (H2 _ Hp') as [?|(p & Hp & Hps & Hpb)]; [lia|].
  rewrite <- Hpb. apply Heq; congruence.
Qed.

Lemma winv_log_commit w e n :
  winv w → validChangeForProfile e n b profile = true → winv (log_commit w e n).
Proof.
  intros [Hv Hi Hb Ha Ho Hk] Hc. split; simpl; auto.
  intros e' n' [?|Heq%list_elem_of_singleton]%elem_of_app; [auto|by simplify_eq].
Qed.

Lemma winv_send w q p at' :
  winv w → r_Pending (w_durable w) = Some p → q = MkRequest b (p_Sequence p) (p_Body p) →
  collectionTime (p_Body p) (ServerID b) profile = Some at' →
  - MaxFuture ≤ wall (w_clock w) - wall at' ≤ MaxAge →
  winv (log_send w q).
Proof.
  intros [Hv Hi Hb Ha Ho Hk] Hp -> Hc Hf.
  destruct (valid_pending _ _ Hv Hp) as (at'' & Hc' & Hpos & Hseq & _ & Hd).
  split; simpl; try done.
  - intros s [Hs|Hs%list_elem_of_singleton]%elem_of_app; [by apply Hb|subst s].
    split; simpl; [lia|]. intros p' Hp'. by simplify_eq.
  - intros s s' [Hs|Hs%list_elem_of_singleton]%elem_of_app
           [Hs'|Hs'%list_elem_of_singleton]%elem_of_app Heq; subst; simpl in *; auto.
    + by apply (Hb _ Hs).
    + symmetry. by apply (Hb _ Hs').
  - intros s [Hs|Hs%list_elem_of_singleton]%elem_of_app; [by apply Ho|subst s].
    exists p, at'. repeat split; try done; simpl; lia.
Qed.

(** ** The steps preserve it *)

Definition good (d0 : Record_) (w : World) : Prop := winv w ∧ advance d0 (w_durable w).
Definition post (d0 : Record_) (a : answer) (w : World) : Prop := good d0 w ∧ minv a.1 w.

Lemma good_clock d0 w t : good d0 w → good d0 (set_clock w t).
Proof. intros [[] ?]. by split. Qed.

Lemma minv_clock m w t : minv m w → minv m (set_clock w t).
Proof. intros []. by split. Qed.

Lemma minv_recovery m w w' : minv m w → minv (set_recovery m) w'.
Proof. intros []. by split. Qed.

Lemma good_send d0 w q :
  good d0 w → winv (log_send w q) → good d0 (log_send w q).
Proof. intros [_ ?] ?. by split. Qed.

(** Go through the next call of a routine; the answer stays abstract. *)
Ltac step_call a :=
  apply wpc_call; [try done | intros a ?; simpl; try intros ->].

Lemma commit_spec d0 m r next w (Q : Machine * option Error → World → Prop) :
  good d0 w → minv m w → sameRecord r (w_durable w) = true → advance r next →
  next_pending_ok r next →
  (∀ m' e w', good d0 w' → minv m' w' → Q (m', Some e) w') →
  (∀ m' w', good d0 w' → minv m' w' → w_durable w' = next → Q (m', None) w') →
  wpc upload_env (good d0) (commit m r next) Q w.
Proof.
  intros Hg Hm Hs Hadv Hnext Herr Hok. unfold commit. step_call canceled.
  destruct canceled; [apply wpc_ret; auto|].
  destruct (_ || _) eqn:Hv; [apply wpc_ret; eauto using minv_recovery|]. bools.
  step_call ok. intros Hc.
  rewrite (minv_binding _ _ Hm), (minv_profile _ _ Hm) in *.
  assert (Hw' : winv (log_commit w r next)).
  { apply winv_log_commit; [apply Hg|by apply valid_change]. }
  assert (Hg1 : good d0 (log_commit w r next)) by (split; [done|apply Hg]).
  assert (Hg2 : good d0 (set_durable (log_commit w r next) next)).
  { assert (advance (w_durable w) next) by eauto using sameRecord_advance.
    split; [by apply winv_advance | simpl; eapply advance_trans; [apply Hg|done]]. }
  destruct ok; destruct Hc as [[? ->]|[Hsame ->]]; try done; apply wpc_ret; auto.
  - apply Hok; [done| |done].
    split; try apply Hm. intros _ r' [= <-]. apply sameRecord_refl.
  - apply Herr; [done|by eapply minv_recovery].
  - apply Herr; [done|by eapply minv_recovery].
Qed.

Lemma outcome_spec d0 m o w : good d0 w → minv m w → wpc upload_env (good d0) (outcome m o) (post d0) w.
Proof. intros. by apply wpc_ret. Qed.

Lemma fail_spec d0 m e w : good d0 w → minv m w → wpc upload_env (good d0) (fail_with m e) (post d0) w.
Proof. intros. by apply wpc_ret. Qed.

Hint Resolve outcome_spec fail_spec minv_recovery minv_clock good_clock : observer.

Lemma advance_same r next :
  r_Watermark next = r_Watermark r → r_Pending next = None ∨ r_Pending next = r_Pending r →
  advance r next.
Proof.
  intros Hw Hp. split; [lia|lia|]. intros p' Hp'. destruct Hp as [Hp|Hp]; [congruence|].
  right. exists p'. repeat split; congruence.
Qed.

Lemma stop_spec d0 m r o w :
  good d0 w → minv m w → sameRecord r (w_durable w) = true →
  wpc upload_env (good d0) (stop m r o) (post d0) w.
Proof.
  intros Hg Hm Hs. unfold stop. apply wpc_bind. eapply commit_spec; eauto.
  - apply advance_same; simpl; auto.
  - unfold next_pending_ok; simpl; auto.
  - intros. by apply fail_spec.
  - intros. by apply outcome_spec.
Qed.

(** Freshness as the machine tests it is freshness of the document. *)
Lemma fresh_enough r p at' now :
  valid r → r_Pending r = Some p →
  collectionTime (p_Body p) (ServerID b) profile = Some at' →
  After (p_CollectedAt p) (Add (UTC now) MaxFuture) = false →
  (MaxAge <? Sub (UTC now) (p_CollectedAt p)) = false →
  - MaxFuture ≤ wall now - wall at' ≤ MaxAge.
Proof.
  intros Hv Hp Hc Ha Hs.
  destruct (valid_pending _ _ Hv Hp) as (at'' & Hc' & _ & _ & He & _).
  rewrite Hc in Hc'. injection Hc' as <-. rewrite Equal_wall_l in He
    by apply (collectionTime_parsed _ _ _ _ Hc).
  rewrite After_wall_r in Ha by auto with observer.
  rewrite Sub_wall_l in Hs by auto with observer. rewrite wall_Add, wall_UTC in Ha.
  rewrite wall_UTC in Hs. unfold sat64, MaxAge, MaxFuture, MaxInt64, MinInt64, Minute, Second in *.
  bools. lia.
Qed.

Lemma deliver_spec d0 m r w :
  good d0 w → minv m w → sameRecord r (w_durable w) = true →
  wpc upload_env (good d0) (deliver m r) (post d0) w.
Proof.
  intros Hg Hm Hs. unfold deliver. step_call canceled.
  destruct canceled; [auto with observer|].
  destruct (negb _) eqn:Hv; [eauto with observer|]. bools.
  destruct (r_Pending r) as [p|] eqn:Hp; [|auto with observer].
  step_call t. destruct (_ || _) eqn:Hskew; [auto with observer|]. bools.
  destruct (MaxAge <? _) eqn:Hage; [auto with observer|].
  rewrite (minv_binding _ _ Hm), (minv_profile _ _ Hm) in Hv.
  destruct (valid_pending _ _ Hv Hp) as (at' & Hc & _).
  assert (Hf := fresh_enough _ _ _ _ Hv Hp Hc ltac:(done) Hage).
  destruct (sameRecord_fields _ _ Hs) as (_ & _ & _ & Hpd).
  destruct (Hpd _ Hp) as (pd & Hpd' & Hseq & Hbody & _).
  set (q := MkRequest _ _ _). set (w1 := set_clock w t).
  assert (Hg2 : good d0 (log_send w1 q)).
  { apply good_send; [by apply good_clock|].
    eapply (winv_send _ _ pd at'); subst q w1; simpl; rewrite ?Hbody; try done.
    - by apply (good_clock _ _ t Hg).
    - by rewrite (minv_binding _ _ Hm), Hseq. }
  assert (Hm2 : minv m (log_send w1 q)) by (destruct Hm; by split).
  assert (Hs2 : sameRecord r (w_durable (log_send w1 q)) = true) by done.
  assert (good d0 w1) by by apply good_clock.
  clearbody q w1. step_call response. step_call canceled.
  destruct canceled; [auto with observer|].
  destruct response as [rs|]; [|auto with observer].
  destruct (rs_Outcome rs) eqn:Ho; try solve [auto with observer]; try by apply stop_spec.
  destruct (_ || _); [auto with observer|].
  apply wpc_bind. eapply commit_spec; eauto with observer.
  - apply advance_same; simpl; auto.
  - unfold next_pending_ok; simpl; auto.
Qed.

Lemma advance_fresh r body digest at' :
  0 ≤ r_Watermark r → r_Watermark r ≤ MaxInt64 → r_Watermark r ≠ MaxInt64 →
  advance r (with_pending r (wrap_i64 (r_Watermark r + 1))
               (Some (MkPending (wrap_i64 (r_Watermark r + 1)) body digest at'))).
Proof.
  intros. rewrite wrap_i64_id by (unfold MinInt64; lia).
  split; simpl; [lia|lia|]. intros p' [= <-]. left. simpl. lia.
Qed.

Lemma next_fresh r body digest at' :
  0 ≤ r_Watermark r → r_Watermark r ≤ MaxInt64 → r_Watermark r ≠ MaxInt64 →
  next_pending_ok r (with_pending r (wrap_i64 (r_Watermark r + 1))
               (Some (MkPending (wrap_i64 (r_Watermark r + 1)) body digest at'))).
Proof.
  intros. rewrite wrap_i64_id by (unfold MinInt64; lia). right; right.
  eexists. split; [done|]. simpl. lia.
Qed.

Lemma admit_spec d0 m r retired w :
  good d0 w → minv m w → sameRecord r (w_durable w) = true →
  wpc upload_env (good d0) (admit_next m r retired) (post d0) w.
Proof.
  intros Hg Hm Hs. unfold admit_next. step_call canceled.
  destruct canceled; [auto with observer|].
  step_call read. step_call canceled. destruct canceled; [auto with observer|].
  destruct read as [body|]; [|auto with observer].
  destruct (_ <? _) eqn:Hlen; [auto with observer|]. step_call t.
  destruct (clock_bad _); [auto with observer|].
  destruct (collectionTime _ _ _) as [at'|] eqn:Hc; [|auto with observer].
  destruct (After _ _); [auto with observer|].
  destruct (MaxAge <? _); [auto with observer|].
  destruct (_ && _); [auto with observer|].
  destruct (_ =? MaxInt64) eqn:Hmax; [apply stop_spec; auto with observer|]. bools.
  destruct (sameRecord_fields _ _ Hs) as (Hw & _).
  assert (0 ≤ r_Watermark r ≤ MaxInt64) as [? ?].
  { destruct Hg as [[Hv Hi _ _ _ _] _]. apply valid_watermark in Hv. lia. }
  apply wpc_bind. eapply commit_spec; eauto using advance_fresh, next_fresh with observer.
  intros m' w' Hg' Hm' <-. apply deliver_spec; auto using sameRecord_refl.
Qed.

Lemma step_loaded_spec d0 m r w :
  good d0 w → minv m w → sameRecord r (w_durable w) = true →
  wpc upload_env (good d0) (step_loaded m r) (post d0) w.
Proof.
  intros Hg Hm Hs. unfold step_loaded.
  destruct (_ != _); [auto with observer|]. step_call t.
  destruct (clock_bad _); [auto with observer|].
  destruct (r_Pending r) as [p|] eqn:Hp; [|apply admit_spec; auto with observer].
  destruct (After _ _); [auto with observer|].
  destruct (MaxAge <? _); [|apply deliver_spec; auto with observer].
  apply wpc_bind. eapply commit_spec; eauto with observer.
  - apply advance_same; simpl; auto.
  - unfold next_pending_ok; simpl; auto.
  - intros m' w' Hg' Hm' <-. apply admit_spec; auto using sameRecord_refl.
Qed.

Lemma Step_spec m w :
  winv w → minv m w → wpc upload_env (good (w_durable w)) (Step m) (post (w_durable w)) w.
Proof.
  intros Hw Hm. assert (Hg : good (w_durable w) w) by (split; auto using advance_refl).
  unfold Step. step_call locked. destruct (negb locked); [auto with observer|].
  destruct (m_recovery m) eqn:Hr; [auto with observer|].
  step_call canceled. destruct canceled; [auto with observer|].
  destruct (m_record m) as [r|] eqn:Hrec.
  - destruct (ValidateRecordForProfile _ _ _); [|eauto with observer].
    apply step_loaded_spec; auto. by apply (minv_record _ _ Hm).
  - step_call loaded. intros [-> Hsame]. destruct loaded as [r|]; [|eauto with observer].
    destruct (ValidateRecordForProfile _ _ _); [|eauto with observer].
    apply step_loaded_spec; auto.
    destruct Hm. split; simpl; auto. by intros _ ? [= <-].
Qed.

Lemma winv_installed r : valid r → r_Watermark r ≤ MaxInt64 → winv (installed r).
Proof. intros. split; simpl; try done; by intros ? ?%not_elem_of_nil || (intros ? ? ?%not_elem_of_nil). Qed.

Lemma fresh_minv w : minv fresh w.
Proof. by split. Qed.

(** Over any life the invariant holds and the durable record only advances. *)
Lemma life_inv w0 m w :
  winv w0 → life w0 m w → winv w ∧ minv m w ∧ advance (w_durable w0) (w_durable w).
Proof.
  intros Hw0 Hl. induction Hl as [w|w0 m w m' out w' Hl IH Hx|w0 m w p w' Hl IH Hx].
  - auto using fresh_minv, advance_refl.
  - destruct (IH Hw0) as (Hw & Hm & Ha).
    destruct (wpc_return _ _ _ _ _ _ _ (Step_spec _ _ Hw Hm) Hx) as [[? ?] ?].
    eauto using advance_trans.
  - destruct (IH Hw0) as (Hw & Hm & Ha).
    destruct (wpc_crash _ _ _ _ _ _ _ (Step_spec _ _ Hw Hm) Hx) as [? ?].
    eauto using advance_trans, fresh_minv.
Qed.

(** A stopped installation: nothing durable changes and nothing is sent. *)
Definition quiet (d : Record_) (l : list Sent) (w : World) : Prop :=
  w_durable w = d ∧ w_sent w = l.

Definition qpost (d : Record_) (l : list Sent) (a : answer) (w : World) : Prop :=
  quiet d l w ∧ minv a.1 w.

Lemma Step_stopped_spec d l m w :
  r_Stopped d ≠ NoOutcome → quiet d l w → minv m w →
  wpc upload_env (quiet d l) (Step m) (qpost d l) w.
Proof.
  intros Hstop Hq Hm. assert (Hd := proj1 Hq).
  assert (Hret : ∀ m' o, minv m' w → wpc upload_env (quiet d l) (Ret (m', o))
                           (qpost d l) w).
  { intros. by apply wpc_ret. }
  assert (Hloaded : ∀ m' r, minv m' w → sameRecord r (w_durable w) = true →
            wpc upload_env (quiet d l) (step_loaded m' r) (qpost d l) w).
  { intros m' r Hm' (_ & Hs & _)%sameRecord_fields. unfold step_loaded.
    rewrite Hs, Hd, bool_decide_eq_false_2 by done. by apply Hret. }
  unfold Step. step_call locked. destruct (negb locked); [by apply Hret|].
  destruct (m_recovery m) eqn:Hr; [by apply Hret|].
  step_call canceled. destruct canceled; [by apply Hret|].
  destruct (m_record m) as [r|] eqn:Hrec.
  - destruct (ValidateRecordForProfile _ _ _); [|apply Hret; eauto with observer].
    apply Hloaded; [done|]. by apply (minv_record _ _ Hm).
  - step_call loaded. intros [-> Hsame].
    destruct loaded as [r|]; [|apply Hret; eauto with observer].
    destruct (ValidateRecordForProfile _ _ _); [|apply Hret; eauto with observer].
    apply Hloaded; [|done]. destruct Hm. split; simpl; auto. by intros _ ? [= <-].
Qed.

(** ** Claims *)

(** C2: No sequence number is ever used for two different documents.  Over every
    life of an installation (completed steps, restarts, crashes between any two
    calls, commits that fail before or after becoming durable, any clock, source,
    transport and cancellation behaviour), two transmissions with the same
    sequence number carry the same body. *)
Theorem upload_sequence_never_reused r m w :
  valid r → r_Watermark r ≤ MaxInt64 → life (installed r) m w →
  ∀ s s', s ∈ w_sent w → s' ∈ w_sent w →
    rq_Sequence (s_request s) = rq_Sequence (s_request s') →
    rq_Body (s_request s) = rq_Body (s_request s').
Proof. intros Hv Hi Hl. by apply (life_inv _ _ _ (winv_installed r Hv Hi) Hl). Qed.

(** C36: Every transmission is of the snapshot that was pending in the ledger at
    that moment, under the installation's own identity and the sequence number
    the ledger reserved for it; its digest is that of the transmitted bytes, the
    document passes the profile's validator, and by the clock read just before
    it was at most two minutes old and at most thirty seconds ahead. *)
Theorem upload_sends_durable_and_fresh r m w :
  valid r → r_Watermark r ≤ MaxInt64 → life (installed r) m w →
  ∀ s, s ∈ w_sent w → sent_ok s.
Proof. intros Hv Hi Hl. by apply (life_inv _ _ _ (winv_installed r Hv Hi) Hl). Qed.

(** Every commit the machine attempts satisfies the ledger's change rule:
    expected and next record are valid for the installation, the watermark does
    not decrease, and a pending snapshot is unchanged or has a number above the
    expected watermark.  The rule never refuses the machine. *)
Theorem upload_commits_valid_changes r m w :
  valid r → r_Watermark r ≤ MaxInt64 → life (installed r) m w →
  ∀ e n, (e, n) ∈ w_commits w → validChangeForProfile e n b profile = true.
Proof. intros Hv Hi Hl. by apply (life_inv _ _ _ (winv_installed r Hv Hi) Hl). Qed.

(** The durable record stays valid, its watermark never decreases and never
    leaves the [int64] range, and no transmission is above it. *)
Theorem upload_record_invariant r m w :
  valid r → r_Watermark r ≤ MaxInt64 → life (installed r) m w →
  valid (w_durable w) ∧ r_Watermark r ≤ r_Watermark (w_durable w) ≤ MaxInt64
  ∧ ∀ s, s ∈ w_sent w → rq_Sequence (s_request s) ≤ r_Watermark (w_durable w).
Proof.
  intros Hv Hi Hl. destruct (life_inv _ _ _ (winv_installed r Hv Hi) Hl) as (Hw & _ & Ha).
  split; [apply Hw|]. split; [split; [apply Ha|apply Hw]|].
  intros s Hs. by apply (winv_below _ Hw).
Qed.

(** A stop is final.  Once the durable record is stopped (credential
    rejected, conflict, rejected, exhausted), no later step, restart or crash
    changes it or transmits anything. *)
Theorem upload_stop_is_final w0 m w :
  r_Stopped (w_durable w0) ≠ NoOutcome → life w0 m w →
  w_durable w = w_durable w0 ∧ w_sent w = w_sent w0.
Proof.
  intros Hstop Hl. enough (quiet (w_durable w0) (w_sent w0) w ∧ minv m w) as [? _] by done.
  induction Hl as [w|w0 m w m' out w' Hl IH Hx|w0 m w p w' Hl IH Hx].
  - by split; [|apply fresh_minv].
  - destruct (IH Hstop) as [Hq Hm].
    exact (wpc_return _ _ _ _ _ _ _ (Step_stopped_spec _ _ _ _ Hstop Hq Hm) Hx).
  - destruct (IH Hstop) as [Hq Hm]. split; [|apply fresh_minv].
    exact (wpc_crash _ _ _ _ _ _ _ (Step_stopped_spec _ _ _ _ Hstop Hq Hm) Hx).
Qed.
End safety.

(** ** Witnesses *)

#[export] Instance projection_laws : ProjectionLaws.
Proof. split; simpl; intros body server t Ht; [|done]. destruct (str_eqb _ _); by simplify_eq. Qed.

(** A cooperative world: the ledger commits, the server acknowledges. *)
Definition online (A : Type) (e : UploadCall A) (w : World) : A * World :=
  match e in UploadCall T return T * World with
  | TryLock => (true, w)
  | CtxErr => (false, w)
  | Now => (current, set_clock w current)
  | LedgerLoad => (Some (w_durable w), w)
  | LedgerCommit e n =>
      if sameRecord e (w_durable w) then (true, set_durable (log_commit w e n) n)
      else (false, log_commit w e n)
  | SourceRead _ => (Some "document"%string, w)
  | Send q =>
      (Some (MkResponse Acknowledged (ServerID (rq_Binding q)) (rq_Sequence q)), log_send w q)
  end.

Lemma online_env A (e : UploadCall A) w : upload_env A e w (online A e w).1 (online A e w).2.
Proof.
  destruct e; simpl; auto using sameRecord_refl.
  destruct (sameRecord _ _) eqn:Hs; simpl; auto.
Qed.

#[local] Transparent Sum256 match_pattern.

(** After one step, and after one more that crashed. *)
Definition after_step : answer * World :=
  run online (Step (fresh binding numeric)) (installed start).

Lemma after_step_life :
  life binding numeric (installed start) after_step.1.1 after_step.2.
Proof.
  eapply (life_step _ _ _ _ _ _ after_step.1.2); [apply life_start|].
  rewrite <- surjective_pairing. apply run_exec, online_env.
Qed.

Lemma start_valid : ValidateRecordForProfile start binding numeric = true.
Proof. vm_compute. reflexivity. Qed.

Lemma start_int64 : r_Watermark start ≤ MaxInt64.
Proof. vm_compute. discriminate. Qed.

Definition sent_example : Sent :=
  MkSent (MkRequest binding 1 "document")
         (with_pending start 1 (Some (MkPending 1 "document" (Sum256 "document") collected)))
         current.

Lemma after_step_sent : w_sent after_step.2 = [sent_example].
Proof. vm_compute. reflexivity. Qed.

Lemma upload_sequence_never_reused_witness :
  rq_Body (s_request sent_example) = rq_Body (s_request (default sent_example (w_sent after_step.2 !! 0%nat))).
Proof.
  refine (upload_sequence_never_reused binding numeric start _ _
            start_valid start_int64 after_step_life sent_example _ _ _ _);
    rewrite after_step_sent; [apply list_elem_of_singleton; reflexivity..|reflexivity].
Defined.

Lemma upload_sends_durable_and_fresh_witness : sent_ok binding numeric sent_example.
Proof.
  refine (upload_sends_durable_and_fresh binding numeric start _ _
            start_valid start_int64 after_step_life sent_example _).
  rewrite after_step_sent. apply list_elem_of_singleton. reflexivity.
Defined.

Definition first_commit : Record_ * Record_ :=
  (start, with_pending start 1 (Some (MkPending 1 "document" (Sum256 "document") collected))).

Lemma after_step_commits : w_commits after_step.2 !! 0%nat = Some first_commit.
Proof. vm_compute. reflexivity. Qed.

Lemma upload_commits_valid_changes_witness :
  validChangeForProfile first_commit.1 first_commit.2 binding numeric = true.
Proof.
  apply (upload_commits_valid_changes binding numeric start _ _
           start_valid start_int64 after_step_life).
  exact (list_elem_of_lookup_2 _ _ _ after_step_commits).
Defined.

Lemma upload_record_invariant_witness :
  r_Watermark (w_durable after_step.2) = 1
  ∧ ValidateRecordForProfile (w_durable after_step.2) binding numeric = true.
Proof.
  split; [vm_compute; reflexivity|].
  exact (proj1 (upload_record_invariant binding numeric start _ _
           start_valid start_int64 after_step_life)).
Defined.

Definition stopped_world : World := installed (with_stopped start Conflict).

Lemma upload_stop_is_final_witness :
  w_sent (run online (Step (fresh binding numeric)) stopped_world).2 = [].
Proof.
  refine (proj2 (upload_stop_is_final binding numeric stopped_world _ _ _
           (life_crash _ _ _ _ _ _ _ (life_start _ _ _)
              (run_exec upload_env online (Step (fresh binding numeric)) stopped_world online_env)))).
  discriminate.
Defined.
