(* ===== verification/UploadProgress.v ===== *)
(** * What the upload machine achieves

    [UploadSafety] bounds what the machine may do in any environment; this file
    runs it against a host that is up: the ledger accepts what it is offered, the
    clock reads a fixed instant, the source hands out a document and the server
    answers.  A document that is new and fresh is acknowledged in one step, a
    document already acknowledged costs no transmission, and a transmission that
    was interrupted is repeated byte for byte after a restart. *)

From S2P Require Import Prelude GoTime Sha256 Effects UploadState UploadLedger UploadExample.

#[local] Opaque Sum256 match_pattern.

Record Host := MkHost {
  h_ledger : Record_; h_now : time; h_document : option string;
  h_reply : Request → option Response; h_requests : list Request }.

Definition host (A : Type) (e : UploadCall A) (h : Host) : A * Host :=
  match e in UploadCall T return T * Host with
  | TryLock => (true, h)
  | CtxErr => (false, h)
  | Now => (h_now h, h)
  | LedgerLoad => (Some (h_ledger h), h)
  | LedgerCommit _ next =>
      (true, MkHost next (h_now h) (h_document h) (h_reply h) (h_requests h))
  | SourceRead _ => (h_document h, h)
  | Send q =>
      (h_reply h q,
       MkHost (h_ledger h) (h_now h) (h_document h) (h_reply h) (h_requests h ++ [q]))
  end.

(** A server that acknowledges what it receives. *)
Definition acknowledge (q : Request) : option Response :=
  Some (MkResponse Acknowledged (ServerID (rq_Binding q)) (rq_Sequence q)).

Definition in_window (now at' : time) : Prop :=
  - MaxFuture ≤ wall now - wall at' ≤ MaxAge.
Definition clock_good (now : time) : Prop := 0 < wall now < year10000.

Section progress.
Context `{Projections}.
Variables (b : Binding) (profile : ProfileBinding).

Abbreviation valid r := (ValidateRecordForProfile r b profile = true).
Abbreviation go p h := (run host p h).

Definition machine (r : option Record_) : Machine := MkMachine b profile r false.

(** The record after admitting [body], and after its acknowledgement. *)
Definition admitted (r : Record_) (body : string) (at' : time) : Record_ :=
  with_pending r (r_Watermark r + 1)
    (Some (MkPending (r_Watermark r + 1) body (Sum256 body) at')).
Definition acked (r : Record_) (body : string) (at' : time) : Record_ :=
  with_ack (admitted r body at') (Sum256 body).

Lemma valid_admitted r body at' :
  valid r → r_Stopped r = NoOutcome → collectionTime body (ServerID b) profile = Some at' →
  valid (admitted r body at').
Proof.
  unfold ValidateRecordForProfile, validRecord, validPending, admitted. intros Hv Hs Hc. bools.
  simpl. rewrite Hc, Hs, Equal_refl, Z.eqb_refl, str_eqb_refl, !bool_decide_eq_true_2 by done.
  replace (r_Watermark r + 1 <? 0) with false by lia.
  replace (r_Watermark r + 1 =? 0) with false by lia.
  replace (r_Watermark r + 1 <=? 0) with false by lia. simpl.
  rewrite !andb_true_r, !andb_false_r. repeat (apply andb_true_iff; split; auto).
  by rewrite orb_false_r; apply negb_true_iff.
Qed.

Lemma valid_with_ack r digest :
  valid r → 0 < r_Watermark r → r_Stopped r = NoOutcome → valid (with_ack r digest).
Proof.
  unfold ValidateRecordForProfile, validRecord. intros Hv Hw Hs. bools. simpl.
  rewrite Hs in *. simpl in *.
  rewrite !bool_decide_eq_true_2 by done.
  replace (r_Watermark r <? 0) with false by lia.
  replace (r_Watermark r =? 0) with false by lia.
  rewrite !andb_true_r. by repeat (apply andb_true_iff; split; auto).
Qed.

Lemma watermark_nonneg r : valid r → 0 ≤ r_Watermark r.
Proof. unfold ValidateRecordForProfile, validRecord. intros Hv. bools. lia. Qed.

Lemma clock_not_bad now : clock_good now → clock_bad (UTC now) = false.
Proof.
  unfold clock_good, clock_bad, IsZero, year_ok. simpl. intros.
  apply orb_false_iff. split; [lia|]. apply negb_false_iff, andb_true_iff. lia.
Qed.

Lemma window_not_future now at' :
  in_window now at' → After at' (Add (UTC now) MaxFuture) = false.
Proof.
  unfold in_window. intros. rewrite After_wall_r by auto with observer. simpl.
  apply Z.ltb_ge. lia.
Qed.

Lemma window_not_old now at' : in_window now at' → (MaxAge <? Sub (UTC now) at') = false.
Proof.
  unfold in_window. intros. rewrite Sub_wall_l by auto with observer. simpl.
  apply Z.ltb_ge. unfold sat64, MaxAge, MaxFuture, MaxInt64, MinInt64, Minute, Second in *. lia.
Qed.

Lemma document_size body at' :
  collectionTime body (ServerID b) profile = Some at' → (maxBodyBytes profile <? slen body) = false.
Proof. unfold collectionTime. intros Hc. cases Hc; bools; by apply Z.ltb_ge. Qed.

Lemma commit_run m r next h :
  m_binding m = b → m_profile m = profile → valid r → valid next →
  go (commit m r next) h
  = ((set_record m next, None),
     MkHost next (h_now h) (h_document h) (h_reply h) (h_requests h)).
Proof. intros Hb Hp Hv Hn. unfold commit. simpl. by rewrite Hb, Hp, Hv, Hn. Qed.

#[local] Opaque commit.

(** Delivering a fresh pending snapshot to a server that acknowledges. *)
Lemma deliver_run r p h :
  valid r → r_Pending r = Some p → r_Stopped r = NoOutcome →
  0 < r_Watermark r → clock_good (h_now h) → in_window (h_now h) (p_CollectedAt p) →
  h_reply h = acknowledge →
  go (deliver (machine (Some r)) r) h
  = ((machine (Some (with_ack r (p_Digest p))), Ok Acknowledged),
     MkHost (with_ack r (p_Digest p)) (h_now h) (h_document h) (h_reply h)
            (h_requests h ++ [MkRequest b (p_Sequence p) (p_Body p)])).
Proof.
  intros Hv Hp Hs Hpos Hclock Hwin Hreply. unfold deliver. simpl. rewrite Hv, Hp. simpl.
  rewrite clock_not_bad, window_not_future, window_not_old by done. simpl.
  rewrite Hreply. simpl. rewrite str_eqb_refl, Z.eqb_refl. simpl.
  rewrite run_bind, commit_run by auto using valid_with_ack. done.
Qed.

#[local] Opaque deliver.

Lemma admit_run r h body at' :
  valid r → r_Pending r = None → r_Stopped r = NoOutcome → r_Watermark r < MaxInt64 →
  h_document h = Some body → collectionTime body (ServerID b) profile = Some at' →
  (r_HasAck r && str_eqb (Sum256 body) (r_LastAck r)) = false →
  clock_good (h_now h) → in_window (h_now h) at' → h_reply h = acknowledge →
  go (admit_next (machine (Some r)) r false) h
  = ((machine (Some (acked r body at')), Ok Acknowledged),
     MkHost (acked r body at') (h_now h) (h_document h) (h_reply h)
            (h_requests h ++ [MkRequest b (r_Watermark r + 1) body])).
Proof.
  intros Hv Hp Hs Hmax Hdoc Hc Hnew Hclock Hwin Hreply.
  assert (Hpos := watermark_nonneg _ Hv). assert (Hva := valid_admitted _ _ _ Hv Hs Hc).
  unfold admit_next. simpl. rewrite Hdoc, document_size with (1 := Hc). simpl.
  rewrite clock_not_bad, Hc, window_not_future, window_not_old, Hnew by done.
  replace (r_Watermark r =? MaxInt64) with false by lia.
  rewrite wrap_i64_id by (unfold MinInt64; lia).
  rewrite run_bind, commit_run by done.
  change (set_record (machine (Some r)) ?n) with (machine (Some n)).
  rewrite (deliver_run _ (MkPending (r_Watermark r + 1) body (Sum256 body) at')); simpl; auto; try lia.
  by rewrite Hdoc.
Qed.

Lemma Step_run r (o : option Record_) h :
  valid r → h_ledger h = r → o = None ∨ o = Some r →
  go (Step (machine o)) h = go (step_loaded (machine (Some r)) r) h.
Proof.
  intros Hv Hl Ho. unfold Step. simpl.
  destruct Ho as [-> | ->]; simpl; [rewrite Hl|]; by rewrite Hv.
Qed.

(** ** Claims *)

(** On a host that is up, a document that validates, is inside the freshness
    window and differs from the last acknowledged one is delivered by a single
    step: exactly one request leaves, under the next sequence number, the ledger
    ends up acknowledged with that document's digest and nothing pending; the
    next step on the same document is [Idle] and changes and sends nothing. *)
Theorem upload_delivers_once r body at' now :
  valid r → r_Pending r = None → r_Stopped r = NoOutcome → r_Watermark r < MaxInt64 →
  collectionTime body (ServerID b) profile = Some at' →
  (r_HasAck r && str_eqb (Sum256 body) (r_LastAck r)) = false →
  clock_good now → in_window now at' →
  let h := MkHost r now (Some body) acknowledge [] in
  let h' := MkHost (acked r body at') now (Some body) acknowledge
                   [MkRequest b (r_Watermark r + 1) body] in
  let m' := machine (Some (acked r body at')) in
  go (Step (machine None)) h = ((m', Ok Acknowledged), h')
  ∧ go (Step m') h' = ((m', Ok Idle), h').
Proof.
  intros Hv Hp Hs Hmax Hc Hnew Hclock Hwin h h' m'.
  assert (Hpos := watermark_nonneg _ Hv).
  assert (Hva : valid (acked r body at')).
  { apply valid_with_ack; auto using valid_admitted. simpl. lia. }
  split.
  - rewrite (Step_run r) by auto. unfold step_loaded. rewrite Hs. simpl.
    rewrite clock_not_bad, Hp by done. by rewrite (admit_run _ _ body at').
  - unfold m'. rewrite (Step_run (acked r body at')) by auto.
    unfold step_loaded. simpl. rewrite Hs. simpl. rewrite clock_not_bad by done.
    unfold admit_next. simpl. rewrite document_size with (1 := Hc). simpl.
    rewrite clock_not_bad, Hc, window_not_future, window_not_old by done.
    by rewrite str_eqb_refl.
Qed.

(** An interrupted transmission is repeated, not replaced.  A process that
    starts with a fresh pending snapshot in its ledger sends exactly the recorded
    bytes under the recorded number, whatever its source now offers, and retires
    the snapshot when it is acknowledged. *)
Theorem upload_retransmits_after_restart r p document now :
  valid r → r_Pending r = Some p → r_Stopped r = NoOutcome →
  clock_good now → in_window now (p_CollectedAt p) →
  go (Step (machine None)) (MkHost r now document acknowledge [])
  = ((machine (Some (with_ack r (p_Digest p))), Ok Acknowledged),
     MkHost (with_ack r (p_Digest p)) now document acknowledge
            [MkRequest b (p_Sequence p) (p_Body p)]).
Proof.
  intros Hv Hp Hs Hclock Hwin.
  assert (0 < r_Watermark r).
  { unfold ValidateRecordForProfile, validRecord, validPending in Hv. rewrite Hp in Hv. bools.
    destruct (collectionTime _ _ _); [bools; lia|done]. }
  rewrite (Step_run r) by auto. unfold step_loaded. rewrite Hs. simpl.
  rewrite clock_not_bad, Hp, window_not_future, window_not_old by done.
  by rewrite (deliver_run _ p).
Qed.
End progress.

(** ** Witnesses *)

Definition interrupted : Record_ := admitted start "document" collected.

#[local] Transparent Sum256 match_pattern.

Lemma upload_delivers_once_witness :
  (run host (Step (machine binding numeric None))
       (MkHost start current (Some "document") acknowledge [])).2.(h_requests)
  = [MkRequest binding 1 "document"].
Proof.
  rewrite (proj1 (@upload_delivers_once projections binding numeric start "document" collected current
    ltac:(vm_compute; reflexivity) eq_refl eq_refl ltac:(vm_compute; reflexivity)
    ltac:(vm_compute; reflexivity) ltac:(vm_compute; reflexivity)
    ltac:(vm_compute; split; reflexivity) ltac:(vm_compute; split; discriminate))).
  reflexivity.
Defined.

Lemma upload_retransmits_after_restart_witness :
  (run host (Step (machine binding numeric None))
       (MkHost interrupted current None acknowledge [])).2.(h_requests)
  = [MkRequest binding 1 "document"].
Proof.
  rewrite (@upload_retransmits_after_restart projections binding numeric interrupted
    (MkPending 1 "document" (Sum256 "document") collected) None current
    ltac:(vm_compute; reflexivity) eq_refl eq_refl
    ltac:(vm_compute; split; reflexivity) ltac:(vm_compute; split; discriminate)).
  reflexivity.
Defined.
