(* ===== verification/UploadRefinement.v ===== *)
(** * The ledger implements the record the upload machine relies on

    Records survive the trip through a row; valid records satisfy the table's
    constraints; and [Load] and [Commit], run against a database in which every
    statement may fail and a failing COMMIT may or may not have taken effect,
    implement exactly the transitions [upload_env] allows the ledger. *)

From S2P Require Import Prelude GoTime GoCalendar Sha256 Effects.
From S2P Require Import UploadState UploadLedger UploadExample UploadSafety.

#[local] Opaque Sum256.

(** Go's array types: digests have 32 bytes. *)
Definition typed_record (r : Record_) : Prop :=
  slen (r_LastAck r) = 32 ∧ slen (PolicyDigest (r_Profile r)) = 32.

(** A record whose times went through a row. *)
Definition normal_pending (p : Pending) : Pending :=
  MkPending (p_Sequence p) (p_Body p) (p_Digest p) (UTC (p_CollectedAt p)).
Definition normal (r : Record_) : Record_ :=
  MkRecord (r_Binding r) (r_Profile r) (r_Watermark r) (r_HasAck r) (r_LastAck r)
           (normal_pending <$> r_Pending r) (r_Stopped r).

Lemma outcome_round_trip o : o ∈ known_outcomes → outcome_of_text (outcome_text o) = o.
Proof. intros Ho. by in_cases Ho. Qed.

Lemma kind_round_trip p : validProfile p = true → kind_of_int (kind_int (Kind p)) = Kind p.
Proof. unfold validProfile. by destruct (Kind p). Qed.

Section rows.
Context `{ProjectionLaws}.
Variables (b : Binding) (profile : ProfileBinding).
Abbreviation valid r := (ValidateRecordForProfile r b profile = true).

Lemma valid_profile r : valid r → r_Profile r = profile ∧ validProfile profile = true.
Proof. unfold ValidateRecordForProfile. intros. by bools. Qed.

Lemma valid_stopped r : valid r → r_Stopped r ∈ known_outcomes.
Proof.
  unfold ValidateRecordForProfile, validRecord. intros Hv. bools.
  unfold known_outcomes. rewrite !elem_of_cons. destruct (r_Stopped r); auto 20; bools; by simpl in *.
Qed.

(** The pending time of a valid record is the parsed one. *)
Lemma valid_pending_time r p :
  valid r → r_Pending r = Some p → year_ok (p_CollectedAt p) = true.
Proof.
  intros Hv Hp. destruct (valid_pending _ _ _ _ Hv Hp) as (at' & Hc & _ & _ & He & _).
  destruct (collectionTime_parsed _ _ _ _ Hc) as [Hw Hy].
  rewrite Equal_wall_l in He by done. bools. unfold year_ok in *. by rewrite <- He.
Qed.

Lemma valid_normal r : valid r → valid (normal r).
Proof.
  intros Hv. destruct (r_Pending r) as [p|] eqn:Hp.
  - destruct (valid_pending _ _ _ _ Hv Hp) as (at' & Hc & _ & _ & He & _).
    destruct (collectionTime_parsed _ _ _ _ Hc) as [Hw _].
    unfold ValidateRecordForProfile, validRecord, validPending in *. simpl. rewrite Hp in *. simpl.
    rewrite Hc in *. rewrite Equal_wall_l in * by done. exact Hv.
  - unfold ValidateRecordForProfile, validRecord, validPending in *. simpl.
    by rewrite Hp in *.
Qed.

Lemma decode_pending_args r :
  valid r → decode_pending (argsFor r) = Some (normal_pending <$> r_Pending r).
Proof.
  intros Hv. unfold argsFor, recordArgs, decode_pending.
  destruct (r_Pending r) as [p|] eqn:Hp; [|by destruct (hasPolicyColumns _)].
  destruct (valid_pending _ _ _ _ Hv Hp) as (_ & _ & _ & _ & _ & Hd).
  destruct (hasPolicyColumns _); simpl;
    rewrite canonicalTime_Format by eauto using valid_pending_time;
    rewrite Hd, Sum256_length; simpl; unfold normal_pending; by rewrite Hd.
Qed.

Lemma decode_profile_args r :
  valid r → typed_record r → decode_profile profile (argsFor r) = Some profile.
Proof.
  intros Hv [_ Hd]. destruct (valid_profile _ Hv) as [Hp Hvp].
  unfold decode_profile, argsFor. rewrite Hp in *.
  destruct (hasPolicyColumns profile) eqn:Hk; simpl.
  - rewrite Z.eqb_refl, Hd, kind_round_trip by done. by destruct profile.
  - unfold hasPolicyColumns, validProfile in *. destruct profile as [[] d]; simpl in *; try done.
    apply str_eqb_eq in Hvp as ->. done.
Qed.

Lemma argsFor_fields r :
  has_ack (argsFor r) = (if r_HasAck r then 1 else 0)
  ∧ last_ack (argsFor r) = r_LastAck r ∧ server_id (argsFor r) = ServerID (r_Binding r)
  ∧ connector_id (argsFor r) = ConnectorID (r_Binding r) ∧ watermark (argsFor r) = r_Watermark r
  ∧ stopped (argsFor r) = outcome_text (r_Stopped r).
Proof. unfold argsFor, recordArgs. destruct (r_Pending r), (hasPolicyColumns _); done. Qed.

Lemma decode_argsFor r :
  valid r → typed_record r → decodeRow b profile (argsFor r) = Some (normal r).
Proof.
  intros Hv Ht. unfold decodeRow.
  rewrite decode_pending_args, decode_profile_args by done.
  destruct (argsFor_fields r) as (-> & -> & -> & -> & -> & ->).
  rewrite outcome_round_trip by by apply valid_stopped. rewrite (proj1 Ht).
  replace (MkRecord _ _ _ _ _ _ _) with (normal r).
  - rewrite valid_normal by done. by destruct (r_HasAck r).
  - unfold normal. rewrite (proj1 (valid_profile _ Hv)).
    destruct (r_Binding r). by destruct (r_HasAck r).
Qed.
(** ASCII text has as many characters as bytes. *)
Lemma text_length_ascii inside s :
  str_forallb (between 1 127) s = true → text_length_from inside s = slen s.
Proof.
  revert inside. unfold slen. induction s as [|c s IH]; intros inside; [done|].
  cbn [str_forallb text_length_from String.length]. unfold between. intros Hc. bools.
  replace (byte_val c =? 0) with false by lia. replace (128 <=? byte_val c) with false by lia.
  rewrite andb_false_r. simpl. replace (192 <=? byte_val c) with false by lia. rewrite IH by done. lia.
Qed.

Lemma pattern_length pre n s :
  str_forallb (between 1 127) pre = true → match_pattern pre is_lower_hex n s = true →
  text_length s = slen pre + n.
Proof.
  intros Hp (rest & -> & <- & Hc)%match_pattern_spec. unfold text_length.
  rewrite text_length_ascii, slen_append; [done|]. rewrite str_forallb_append, Hp. simpl.
  revert Hc. apply str_forallb_mono. unfold is_lower_hex, between. intros c. lia.
Qed.

Lemma time_text_length t :
  year_ok t = true → 20 ≤ text_length (FormatRFC3339Nano t) ≤ 30.
Proof.
  intros Hy. destruct (FormatRFC3339Nano_shape _ Hy) as [Hl Hc]. unfold text_length.
  rewrite text_length_ascii; [done|]. revert Hc. apply str_forallb_mono.
  unfold is_time_char, between. intros c. lia.
Qed.

(** The two storage envelopes agree with the document bounds of the profiles. *)
Lemma bodyBytes_max : bodyBytes (limits profile) = maxBodyBytes profile.
Proof. unfold limits, maxBodyBytes. destruct (Kind profile); reflexivity. Qed.

Lemma valid_body r p :
  valid r → r_Pending r = Some p → 1 ≤ slen (p_Body p) ≤ maxBodyBytes profile.
Proof.
  intros Hv Hp. destruct (valid_pending _ _ _ _ Hv Hp) as (at' & Hc & _).
  unfold collectionTime in Hc. destruct (_ || _) eqn:Hb; [done|]. bools.
  unfold slen in *. lia.
Qed.

Lemma valid_stopped_text r :
  valid r → existsb (λ o, str_eqb (outcome_text o) (outcome_text (r_Stopped r)))
              [NoOutcome; CredentialRejected; Conflict; Rejected; Exhausted] = true.
Proof.
  unfold ValidateRecordForProfile, validRecord. intros Hv. bools.
  by destruct (r_Stopped r); bools; simpl in *.
Qed.

Lemma pending_columns r :
  valid r →
  let x := argsFor r in
  null_or (pending_sequence x) (λ n, 0 <? n)
  && null_or (pending_body x) (λ b, (1 <=? slen b) && (slen b <=? bodyBytes (limits profile)))
  && null_or (pending_digest x) (λ d, slen d =? 32)
  && null_or (pending_at x) (λ a, (20 <=? text_length a) && (text_length a <=? 30))
  && (match pending_sequence x, pending_body x, pending_digest x, pending_at x with
      | None, None, None, None | Some _, Some _, Some _, Some _ => true
      | _, _, _, _ => false
      end) = true.
Proof.
  intros Hv. unfold argsFor, recordArgs. destruct (r_Pending r) as [p|] eqn:Hp;
    [|by destruct (hasPolicyColumns _)].
  destruct (valid_pending _ _ _ _ Hv Hp) as (_ & _ & Hpos & _ & _ & Hd).
  pose proof (valid_body _ _ Hv Hp). pose proof (time_text_length _ (valid_pending_time _ _ Hv Hp)).
  destruct (hasPolicyColumns _); simpl; rewrite bodyBytes_max, Hd, Sum256_length;
    rewrite !andb_true_iff, !Z.leb_le, !Z.ltb_lt, !Z.eqb_eq; tauto.
Qed.

Lemma args_constraints r :
  valid r → typed_record r → row_constraints profile (argsFor r) = true.
Proof.
  intros Hv [Hl Hd]. destruct (valid_profile _ Hv) as [Hp Hvp].
  pose proof (pending_columns _ Hv) as Hpend. cbv zeta in Hpend.
  assert (Hcols : policy_columns (argsFor r) =
    if hasPolicyColumns profile then Some (kind_int (Kind profile), PolicyDigest profile) else None).
  { unfold argsFor, recordArgs. rewrite Hp.
    destruct (r_Pending r), (hasPolicyColumns profile); done. }
  assert (Hids : text_length (ServerID (r_Binding r)) = 36 ∧ text_length (ConnectorID (r_Binding r)) = 38).
  { unfold ValidateRecordForProfile, validRecord, validBinding in Hv. bools.
    assert (r_Binding r = b) as -> by congruence.
    split; [by apply (pattern_length "srv_" 32)|by apply (pattern_length "agent_" 32)]. }
  pose proof (valid_watermark _ _ _ Hv).
  unfold row_constraints. destruct (argsFor_fields r) as (-> & -> & -> & -> & -> & ->).
  rewrite valid_stopped_text by done. rewrite (proj1 Hids), (proj2 Hids), Hl, Hcols, Hp in *.
  bools. replace (0 <=? r_Watermark r) with true by lia.
  repeat match goal with H : ?b = true |- context [?b] => rewrite H end.
  destruct (r_HasAck r), (hasPolicyColumns profile); simpl; rewrite ?Z.eqb_refl, ?Hd; done.
Qed.

(** A valid record survives the trip through its row: the row satisfies every
    CHECK constraint of the profile's table, so storing it cannot be refused, and
    reading it back yields the same record with its collection time in UTC. *)
Theorem ledger_row_round_trip r :
  valid r → typed_record r →
  row_constraints profile (argsFor r) = true
  ∧ decodeRow b profile (argsFor r) = Some (normal r).
Proof. intros. split; [by apply args_constraints | by apply decode_argsFor]. Qed.
End rows.

(** ** The database *)

(** Rows as of the last transaction, and the rows an open transaction sees. *)
Record Db := MkDb { d_rows : list Row; d_tx : option (list Row) }.
Definition d_current (db : Db) : list Row := default (d_rows db) (d_tx db).

(** The answer to the two aggregates of [readRecord]. *)
Definition select_checks (profile : ProfileBinding) (rows : list Row) : Z * Z :=
  (Z.of_nat (length rows),
   match rows with
   | [] => 0
   | _ => if forallb (row_checks profile) rows then 1 else 0
   end).

(** Every statement may fail; a failed COMMIT may have taken effect; a failed
    ROLLBACK leaves the transaction open. *)
Definition sql_env (profile : ProfileBinding) (A : Type) (e : SqlCall A) : Db → A → Db → Prop :=
  match e in SqlCall T return Db → T → Db → Prop with
  | LedgerTryLock => λ db _ db', db' = db
  | BeginImmediate => λ db ok db',
      (ok = false ∧ db' = db)
      ∨ (ok = true ∧ d_tx db = None ∧ db' = MkDb (d_rows db) (Some (d_rows db)))
  | SelectChecks p => λ db a db', db' = db ∧ (a = None ∨ a = Some (select_checks p (d_current db)))
  | SelectRecord _ => λ db a db', db' = db ∧ (a = None ∨ a = head (d_current db))
  | UpdateRecord x => λ db a db',
      (a = None ∧ db' = db)
      ∨ (row_constraints profile x = true
         ∧ a = Some (Z.of_nat (length (d_current db)))
         ∧ db' = match d_tx db with
                 | Some rows => MkDb (d_rows db) (Some ((λ _, x) <$> rows))
                 | None => MkDb ((λ _, x) <$> d_rows db) None
                 end)
  | CommitTransaction => λ db ok db',
      (ok = false ∧ db' = db) ∨ ∃ rows, d_tx db = Some rows ∧ db' = MkDb rows None
  | Rollback => λ db _ db', db' = db ∨ db' = MkDb (d_rows db) None
  end.

Section refinement.
Context `{ProjectionLaws}.
Variables (b : Binding) (profile : ProfileBinding).
Abbreviation valid r := (ValidateRecordForProfile r b profile = true).
Abbreviation env := (sql_env profile).

(** The record a table holds. *)
Definition stored (rows : list Row) (r : Record_) : Prop :=
  ∃ x, rows = [x] ∧ decodeRow b profile x = Some r.

(** The record and the world's durable record agree. *)
Definition related (db : Db) (w : World) : Prop :=
  d_tx db = None ∧ ∃ r, stored (d_rows db) r ∧ sameRecord r (w_durable w) = true.

Definition pending_wallclock (r : Record_) : Prop :=
  ∀ p, r_Pending r = Some p → wallclock (p_CollectedAt p).

Lemma decode_pending_wallclock x o p :
  decode_pending x = Some o → o = Some p → wallclock (p_CollectedAt p).
Proof.
  unfold decode_pending. intros Hd ->. cases Hd; simplify_eq. simpl.
  match goal with Hc : canonicalTime _ = Some _ |- _ => apply canonicalTime_inv in Hc as [_ ?] end.
  by apply utc_wallclock.
Qed.

Lemma decodeRow_wallclock x r : decodeRow b profile x = Some r → pending_wallclock r.
Proof.
  unfold decodeRow. intros Hd. destruct (decode_pending x) as [o|] eqn:Ho; cases Hd.
  simplify_eq. intros q Hp. simpl in Hp. by eapply decode_pending_wallclock.
Qed.

(** On records without monotonic readings, agreement is equality up to zone. *)
Lemma same_normal r r' :
  pending_wallclock r ∨ pending_wallclock r' → sameRecord r r' = true ↔ normal r = normal r'.
Proof.
  intros Hw. unfold sameRecord, samePending, normal.
  rewrite !andb_true_iff, !bool_decide_eq_true, Z.eqb_eq, Bool.eqb_true_iff, str_eqb_eq.
  destruct (r_Pending r) as [p|] eqn:Hp, (r_Pending r') as [p'|] eqn:Hp';
    try (by split; intros; [destruct_and?|]; simplify_eq).
  - assert (HE : Equal (p_CollectedAt p) (p_CollectedAt p') = (wall (p_CollectedAt p) =? wall (p_CollectedAt p'))).
    { destruct Hw as [Hw|Hw]; [apply Equal_wall_l|apply Equal_wall_r]; auto. }
    rewrite HE, !andb_true_iff, !Z.eqb_eq, !str_eqb_eq. unfold normal_pending. simpl. split.
    + intros ((((((-> & ->) & ->) & ->) & ->) & ->) & ((-> & ->) & Ht) & ->).
      unfold UTC. by rewrite Ht.
    + intros [=]. unfold UTC in *. simplify_eq. by repeat split.
  - split; [intros ((((((-> & ->) & ->) & ->) & ->) & ->) & _); done|].
    intros [=]. by repeat split.
Qed.

Lemma normal_wallclock r : pending_wallclock (normal r).
Proof. intros p Hp. unfold normal in Hp. simpl in Hp. destruct (r_Pending r); by simplify_eq/=. Qed.

Lemma normal_normal r : normal (normal r) = normal r.
Proof. unfold normal. simpl. by destruct (r_Pending r). Qed.

Lemma stored_args r : valid r → typed_record r → stored [argsFor r] (normal r).
Proof. intros. eexists. split; [done|]. by apply decode_argsFor. Qed.

(** Reading inside or outside a transaction returns the stored record or fails. *)
Lemma readRecord_spec I rows r db (Q : option Record_ → Db → Prop) :
  I db → d_current db = rows → stored rows r →
  Q None db → Q (Some r) db → wpc env I (readRecord b profile) Q db.
Proof.
  intros HI Hc (x & -> & Hx) Hn Hs. unfold readRecord.
  apply wpc_call; [done|]. intros a db' [-> Ha]. destruct a as [[count bounded]|]; [|by apply wpc_ret].
  destruct (_ || _) eqn:Hck; [by apply wpc_ret|].
  apply wpc_call; [done|]. intros row db' [-> Hr]. rewrite Hc in Hr.
  destruct Hr as [->| ->]; apply wpc_ret; auto. simpl. by rewrite Hx.
Qed.

(** What a commit of [next] over [expected] may leave behind, starting from
    [rows] holding [r]: the old rows, or the new one if [r] was expected. *)
Definition committed_or_not (rows : list Row) (r expected next : Record_) (db : Db) : Prop :=
  d_rows db = rows ∨ (sameRecord r expected = true ∧ d_rows db = [argsFor next]).

Definition commit_post (rows : list Row) (r expected next : Record_) (ok : bool) (db : Db) : Prop :=
  committed_or_not rows r expected next db
  ∧ (ok = true → d_tx db = None ∧ sameRecord r expected = true ∧ d_rows db = [argsFor next]).

Lemma rollback_spec rows r e n db :
  committed_or_not rows r e n db →
  wpc env (committed_or_not rows r e n) (Call Rollback (λ _, Ret false)) (commit_post rows r e n) db.
Proof.
  intros Hc. apply wpc_call; [done|]. intros u db' Hdb. simpl in Hdb.
  assert (committed_or_not rows r e n db') by (by destruct Hdb as [->| ->]).
  apply wpc_ret; [done|]. by split.
Qed.

Lemma ledger_commit_spec l r e n db :
  l_binding l = b → l_profile l = profile → stored (d_rows db) r → d_tx db = None →
  wpc env (committed_or_not (d_rows db) r e n) (ledger_commit l e n)
    (commit_post (d_rows db) r e n) db.
Proof.
  intros Hb Hp Hst Htx. unfold ledger_commit, transaction. rewrite Hb, Hp.
  assert (Hc : committed_or_not (d_rows db) r e n db) by by left.
  apply wpc_call; [done|]. intros began db1 [[-> ->]|(-> & _ & ->)]; simpl.
  { by apply wpc_ret; [|split]. }
  set (db1 := MkDb (d_rows db) (Some (d_rows db))).
  assert (Hc1 : committed_or_not (d_rows db) r e n db1) by by left.
  apply wpc_bind, wpc_bind. eapply readRecord_spec; [done|done|exact Hst| |].
  { apply wpc_ret; [done|]. by apply rollback_spec. }
  destruct (sameRecord r e) eqn:Hsame; simpl.
  2: { apply wpc_ret; [done|]. by apply rollback_spec. }
  apply wpc_call; [done|]. intros a db2 [[-> ->]|(Hrow & -> & ->)].
  { apply wpc_ret; [done|]. by apply rollback_spec. }
  apply wpc_ret; [by left|].
  destruct Hst as (x & Hx & _). change (d_current db1) with (d_rows db). simpl. rewrite Hx. simpl.
  apply wpc_call; [by left|]. simpl. intros ok db3 [[-> ->]|(rows & [= <-] & ->)].
  { apply rollback_spec. by left. }
  assert (committed_or_not [x] r e n (MkDb [argsFor n] None)) by by right.
  destruct ok; [by apply wpc_ret|]. by apply rollback_spec.
Qed.

(** The durable side of [related], which is all a crash leaves. *)
Definition durable_related (db : Db) (w : World) : Prop :=
  ∃ r, stored (d_rows db) r ∧ sameRecord r (w_durable w) = true.

Lemma stored_next n w :
  valid n → typed_record n →
  ∃ r, stored [argsFor n] r ∧ sameRecord r (w_durable (set_durable w n)) = true.
Proof.
  intros. exists (normal n). split; [by apply stored_args|].
  apply same_normal; [left; apply normal_wallclock|apply normal_normal].
Qed.

Lemma committed_refines db e n w r db' :
  stored (d_rows db) r → sameRecord r (w_durable w) = true → pending_wallclock e →
  valid n → typed_record n → committed_or_not (d_rows db) r e n db' →
  (d_rows db' = d_rows db ∧ durable_related db' (log_commit w e n))
  ∨ (sameRecord e (w_durable w) = true ∧ d_rows db' = [argsFor n]
     ∧ durable_related db' (set_durable (log_commit w e n) n)).
Proof.
  intros Hst Hsame He Hv Ht [Heq|[Hre Heq]]; unfold durable_related; rewrite Heq.
  - left. split; [done|]. by exists r.
  - right. destruct Hst as (x & _ & Hx). pose proof (decodeRow_wallclock _ _ Hx) as Hr.
    apply same_normal in Hsame; [|by left]. apply same_normal in Hre; [|by left].
    split; [apply same_normal; [by left|congruence]|]. split; [done|]. by apply stored_next.
Qed.

(** C5: [Commit] implements the ledger the machine is proved against.  Whatever
    statements fail, at every moment the table holds the record from before or,
    if that was the expected one, the next record; success is reported only in
    the second case; and each outcome is a transition the machine's environment
    allows.  A failure poisons the handle. *)
Theorem ledger_commit_refines l e n db w :
  l_binding l = b → l_profile l = profile → l_open l = true → l_failed l = false →
  validChangeForProfile e n b profile = true → typed_record n → pending_wallclock e →
  related db w →
  wpc env
    (λ db', ∃ ok w', upload_env _ (LedgerCommit e n) w ok w' ∧ durable_related db' w')
    (Commit l e n)
    (λ '(l', err) db', ∃ w',
        upload_env _ (LedgerCommit e n) w (err == None) w' ∧ durable_related db' w'
        ∧ (err = None → l' = l ∧ d_tx db' = None)
        ∧ (err = Some LedgerRecovery → l_failed l' = true)) db.
Proof.
  intros Hb Hp Ho Hf Hchange Ht He [Htx (r & Hst & Hsame)].
  assert (valid n) as Hv by (unfold validChangeForProfile in Hchange; by bools).
  assert (Hrefuse : ∀ db', committed_or_not (d_rows db) r e n db' →
     ∃ w', upload_env bool (LedgerCommit e n) w false w' ∧ durable_related db' w').
  { intros db' Hc. destruct (committed_refines _ _ _ _ _ _ Hst Hsame He Hv Ht Hc)
      as [[_ ?]|(? & _ & ?)]; eexists; (split; [|done]); simpl; auto. }
  assert (Hnow : ∃ w', upload_env bool (LedgerCommit e n) w false w' ∧ durable_related db w')
    by (apply Hrefuse; by left).
  unfold Commit. apply wpc_call; [eauto|]. intros locked ? ->. destruct locked; simpl.
  2: { apply wpc_ret; [eauto|]. destruct Hnow as (w' & ? & ?). exists w'. by repeat split. }
  rewrite Ho, Hf, Hb, Hp, Hchange. simpl. apply wpc_bind.
  eapply wpc_mono; [| |by apply ledger_commit_spec].
  - intros db' Hc. destruct (Hrefuse _ Hc) as (w' & ? & ?). eauto.
  - intros ok db' [Hc Hok]. destruct (Hrefuse _ Hc) as (w' & Henv & Hd). destruct ok.
    + apply wpc_ret; [eauto|]. destruct (Hok eq_refl) as (Htx' & Hre & Hrows).
      destruct Hst as (x & _ & Hx). pose proof (decodeRow_wallclock _ _ Hx) as Hr.
      apply same_normal in Hsame; [|by left]. apply same_normal in Hre; [|by left].
      exists (set_durable (log_commit w e n) n). split; [|split; [|by split]].
      * right. split; [|done]. apply same_normal; [by left|congruence].
      * unfold durable_related. rewrite Hrows. by apply stored_next.
    + apply wpc_ret; [eauto|]. exists w'. by repeat split.
Qed.

(** [Load] returns exactly the durable record, or fails and poisons the
    handle; it never changes the table, and it succeeds whenever its statements
    do. *)
Theorem ledger_load_refines l db w :
  l_binding l = b → l_profile l = profile → related db w →
  wpc env (λ db', db' = db) (Load l)
    (λ '(l', res) db', upload_env _ LedgerLoad w (match res with Ok r => Some r | Err _ => None end) w
        ∧ related db' w
        ∧ (∀ r, res = Ok r → l' = l ∧ l_open l = true ∧ l_failed l = false ∧ stored (d_rows db') r)) db.
Proof.
  intros Hb Hp Hrel. pose proof Hrel as [Htx (r & Hst & Hsame)].
  unfold Load. apply wpc_call; [done|]. intros locked ? ->.
  destruct (negb locked); [by apply wpc_ret|].
  destruct (l_failed l || negb (l_open l)) eqn:Hf; [by apply wpc_ret|]. bools.
  rewrite Hb, Hp. apply wpc_bind. eapply readRecord_spec; [done|done| | |].
  - unfold d_current. rewrite Htx. exact Hst.
  - by apply wpc_ret.
  - apply wpc_ret; [done|]. split; [by split|]. split; [done|]. by intros ? [= <-].
Qed.
End refinement.

(** A handle that failed or was closed issues no further statement. *)
Lemma failed_ledger_silent `{Projections} (l : Ledger) e n :
  l_failed l = true ∨ l_open l = false →
  always (Commit l e n) (λ res tr, ∃ a, tr = [Answered LedgerTryLock a] ∧ res.1 = l ∧ res.2 ≠ None)
  ∧ always (Load l) (λ res tr, ∃ a, tr = [Answered LedgerTryLock a] ∧ res.1 = l
                                   ∧ is_ok res.2 = false).
Proof.
  intros Hl. assert (Hg : l_failed l || negb (l_open l) = true)
    by (destruct Hl as [-> | ->]; [done|apply orb_true_r]).
  split; unfold always, Commit, Load; (apply wpc_call; [done|]); intros locked tr ->;
    destruct locked; simpl; rewrite ?Hg; apply wpc_ret; try done; eexists; split; simpl; eauto.
Qed.

(** ** Witnesses *)

Lemma start_typed : typed_record start.
Proof. split; reflexivity. Qed.

Definition started : Db := MkDb [argsFor start] None.
Definition handle : Ledger := MkLedger binding numeric true false.
Definition admitted_start : Record_ :=
  with_pending start 1 (Some (MkPending 1 "document" (Sum256 "document") collected)).

#[local] Transparent Sum256.

Lemma started_related : related binding numeric started (installed start).
Proof.
  split; [done|]. exists (normal start). split; [|vm_compute; reflexivity].
  exists (argsFor start). split; [done|vm_compute; reflexivity].
Qed.

Lemma ledger_row_round_trip_witness :
  decodeRow binding numeric (argsFor admitted_start) = Some (normal admitted_start).
Proof.
  apply (ledger_row_round_trip binding numeric admitted_start); [vm_compute; reflexivity|].
  split; reflexivity.
Defined.

(** A database that executes every statement. *)
Definition healthy (A : Type) (e : SqlCall A) (db : Db) : A * Db :=
  match e in SqlCall T return T * Db with
  | LedgerTryLock => (true, db)
  | BeginImmediate =>
      match d_tx db with
      | None => (true, MkDb (d_rows db) (Some (d_rows db)))
      | Some _ => (false, db)
      end
  | SelectChecks p => (Some (select_checks p (d_current db)), db)
  | SelectRecord _ => (head (d_current db), db)
  | UpdateRecord x =>
      if row_constraints numeric x then
        (Some (Z.of_nat (length (d_current db))),
         match d_tx db with
         | Some rows => MkDb (d_rows db) (Some ((λ _, x) <$> rows))
         | None => MkDb ((λ _, x) <$> d_rows db) None
         end)
      else (None, db)
  | CommitTransaction =>
      match d_tx db with Some rows => (true, MkDb rows None) | None => (false, db) end
  | Rollback => (tt, MkDb (d_rows db) None)
  end.

Lemma healthy_sql_env A (e : SqlCall A) db :
  sql_env numeric A e db (healthy A e db).1 (healthy A e db).2.
Proof.
  destruct e; simpl; auto.
  - destruct (d_tx db); simpl; auto.
  - destruct (row_constraints _ _); simpl; auto.
  - destruct (d_tx db); simpl; eauto.
Qed.

Definition commit_run : Ledger * option LedgerError * Db :=
  run healthy (Commit handle start admitted_start) started.

Lemma commit_run_result : commit_run = ((handle, None), MkDb [argsFor admitted_start] None).
Proof. vm_compute. reflexivity. Qed.

Lemma admitted_start_change : validChangeForProfile start admitted_start binding numeric = true.
Proof. vm_compute. reflexivity. Qed.

Lemma admitted_start_typed : typed_record admitted_start.
Proof. split; reflexivity. Qed.

Lemma start_wallclock : pending_wallclock start.
Proof. intros p. discriminate. Qed.

Lemma ledger_commit_refines_witness :
  commit_run.1.2 = None
  ∧ durable_related binding numeric commit_run.2 (set_durable (log_commit (installed start) start admitted_start) admitted_start).
Proof.
  pose proof (wpc_return _ _ _ _ _ _ _
    (ledger_commit_refines binding numeric handle start admitted_start started (installed start)
       eq_refl eq_refl eq_refl eq_refl admitted_start_change admitted_start_typed
       start_wallclock started_related)
    (run_exec _ healthy (Commit handle start admitted_start) started healthy_sql_env)) as Hpost.
  change (run healthy (Commit handle start admitted_start) started) with commit_run in Hpost.
  rewrite commit_run_result in *. split; [reflexivity|].
  destruct Hpost as (w' & [[Hbad _]|[_ ->]] & Hd & _); [discriminate Hbad|exact Hd].
Defined.

Lemma ledger_load_refines_witness :
  wpc (sql_env numeric) (λ db', db' = started) (Load handle)
    (λ '(l', res) db', ∀ r, res = Ok r → stored binding numeric (d_rows db') r) started.
Proof.
  eapply wpc_mono; [| |exact (ledger_load_refines binding numeric handle started (installed start)
                         eq_refl eq_refl started_related)]; [done|].
  intros [l' res] db' (_ & _ & Hs) r Hr. destruct (Hs r Hr) as (_ & _ & _ & Hst). exact Hst.
Defined.
