(* ===== verification/UploadLoop.v ===== *)
(** * Upload pacing ([internal/uploadloop])

    [Loop.Run] drives a borrowed stepper until a terminal result or
    cancellation.  One turn of its loop is the routine [turn]; [Run] performs a
    startup pause and then turns, the number of turns being a fuel parameter of
    the model (the Go loop has no bound of its own), so a theorem for every fuel
    is a theorem about every finite prefix of a run. *)

From S2P Require Import Prelude GoTime Effects UploadState.

Definition startupDelay : Z := 60 * Second.
Definition pollDelay : Z := 15 * Second.
Definition maxRetryDelay : Z := 60 * Second.

Inductive Issue := NoIssue | InvalidSnapshot | RecoveryIssue | DependencyIssue.
Inductive LoopResult :=
| NoResult | LoopCanceled | RecoveryRequired | DependencyFailed
| LoopCredentialRejected | LoopConflict | LoopRejected | LoopExhausted.
Inductive LoopError := LoopBusy | LoopUsed | LoopErrConfig | LoopErrCanceled | LoopErrRecovery | LoopErrDependency.

Record Stats := MkStats {
  Running : bool; Stopped : bool;
  Attempts : Z; Acknowledgements : Z; Retries : Z; RateLimits : Z; InvalidSnapshots : Z;
  LastOutcome : Outcome; LastIssue : Issue; Result : LoopResult; NextDelay : Z }.

Definition zeroStats : Stats := MkStats false false 0 0 0 0 0 NoOutcome NoIssue NoResult 0.

Record Loop := MkLoop { used : bool; stats : Stats }.

(** [increment]: saturating [uint64]. *)
Definition increment (v : Z) : Z := if v =? MaxUint64 then v else wrap_u64 (v + 1).

Definition nextRetry (previous : Z) : Z :=
  if previous =? 0 then Second
  else if maxRetryDelay / 2 <=? previous then maxRetryDelay
  else wrap_i64 (previous * 2).

Definition knownOutcome (o : Outcome) : bool :=
  match o with
  | Idle | SourceUnavailable | Retry | RateLimited | Acknowledged | Expired | ClockSkew
  | CredentialRejected | Conflict | Rejected | Exhausted => true
  | NoOutcome | OutcomeOther _ => false
  end.

(** Field updates of the shared statistics. *)
Definition set_running (s : Stats) (r : bool) : Stats :=
  MkStats r (Stopped s) (Attempts s) (Acknowledgements s) (Retries s) (RateLimits s)
          (InvalidSnapshots s) (LastOutcome s) (LastIssue s) (Result s) (NextDelay s).
Definition count_attempt (s : Stats) : Stats :=
  MkStats (Running s) (Stopped s) (increment (Attempts s)) (Acknowledgements s) (Retries s)
          (RateLimits s) (InvalidSnapshots s) (LastOutcome s) (LastIssue s) (Result s) (NextDelay s).
Definition count_invalid (s : Stats) : Stats :=
  MkStats (Running s) (Stopped s) (Attempts s) (Acknowledgements s) (Retries s)
          (RateLimits s) (increment (InvalidSnapshots s)) (LastOutcome s) (LastIssue s)
          (Result s) (NextDelay s).
Definition set_delay (s : Stats) (d : Z) : Stats :=
  MkStats (Running s) (Stopped s) (Attempts s) (Acknowledgements s) (Retries s)
          (RateLimits s) (InvalidSnapshots s) (LastOutcome s) (LastIssue s) (Result s) d.
Definition set_issue (s : Stats) (o : Outcome) (i : Issue) : Stats :=
  MkStats (Running s) (Stopped s) (Attempts s) (Acknowledgements s) (Retries s)
          (RateLimits s) (InvalidSnapshots s) o i (Result s) (NextDelay s).

(** The bookkeeping of a known outcome. *)
Definition record_outcome (s : Stats) (o : Outcome) : Stats :=
  let s := set_issue s o NoIssue in
  let with_counts a r l :=
    MkStats (Running s) (Stopped s) (Attempts s) a r l
            (InvalidSnapshots s) (LastOutcome s) (LastIssue s) (Result s) (NextDelay s) in
  match o with
  | Acknowledged => with_counts (increment (Acknowledgements s)) (Retries s) (RateLimits s)
  | Retry => with_counts (Acknowledgements s) (increment (Retries s)) (RateLimits s)
  | RateLimited => with_counts (Acknowledgements s) (Retries s) (increment (RateLimits s))
  | _ => s
  end.

Definition finish (s : Stats) (r : LoopResult) : Stats :=
  MkStats false true (Attempts s) (Acknowledgements s) (Retries s) (RateLimits s)
          (InvalidSnapshots s) (LastOutcome s) (LastIssue s) r 0.

Inductive LoopCall : Type → Type :=
| LCtxErr : LoopCall bool
| LStep : LoopCall (result Error Outcome)
| LWait (d : Z) : LoopCall bool (* nil error *)
| LRandom (n : Z) : LoopCall Z (* rand.Int64N(n) *).

Local Open Scope prog_scope.

Inductive next :=
| Continue (s : Stats) (retryCap : Z)
| Finished (s : Stats) (r : LoopResult) (e : option LoopError).

Definition done_with (s : Stats) (r : LoopResult) (e : option LoopError) : prog LoopCall next :=
  Ret (Finished (finish s r) r e).

Definition retryJitter (cap : Z) : prog LoopCall Z :=
  let low := Z.max Second (cap / 2) in
  r <~ LRandom (wrap_i64 (cap - low + 1));
  Ret (wrap_i64 (low + r)).

Definition waitFailure (s : Stats) : prog LoopCall next :=
  canceled <~ LCtxErr;
  if canceled : bool then done_with s LoopCanceled (Some LoopErrCanceled)
  else done_with s DependencyFailed (Some LoopErrDependency).

(** [pause] followed by the reaction to its error. *)
Definition pause (s : Stats) (d retryCap : Z) : prog LoopCall next :=
  canceled <~ LCtxErr;
  if canceled : bool then waitFailure s
  else
    waited <~ LWait d;
    let s := set_delay (set_delay s d) 0 in
    if waited : bool then Ret (Continue s retryCap) else waitFailure s.

(** What a returned step leaves in the statistics. *)
Definition account (s : Stats) (step : result Error Outcome) (canceled : bool) : Stats :=
  match step with
  | Ok o => if knownOutcome o then record_outcome s o else set_issue s NoOutcome DependencyIssue
  | Err ErrCanceled => set_issue s NoOutcome (if canceled then NoIssue else DependencyIssue)
  | Err ErrSnapshot => set_issue s NoOutcome InvalidSnapshot
  | Err ErrRecovery => set_issue s NoOutcome RecoveryIssue
  | Err _ => set_issue s NoOutcome DependencyIssue
  end.

(** The switch on the step's result. *)
Definition decide_next (s : Stats) (retryCap : Z) (step : result Error Outcome) : prog LoopCall next :=
  match step with
  | Err ErrRecovery => done_with s RecoveryRequired (Some LoopErrRecovery)
  | Err ErrSnapshot => pause (count_invalid s) pollDelay 0
  | Err _ => done_with s DependencyFailed (Some LoopErrDependency)
  | Ok (Acknowledged | Idle | SourceUnavailable | Expired | ClockSkew) => pause s pollDelay 0
  | Ok Retry =>
      let retryCap := nextRetry retryCap in
      delay <- retryJitter retryCap;
      if (delay <? Z.max Second (retryCap / 2)) || (retryCap <? delay)
      then done_with s DependencyFailed (Some LoopErrDependency)
      else pause s delay retryCap
  | Ok RateLimited => pause s maxRetryDelay maxRetryDelay
  | Ok CredentialRejected => done_with s LoopCredentialRejected None
  | Ok Conflict => done_with s LoopConflict None
  | Ok Rejected => done_with s LoopRejected None
  | Ok Exhausted => done_with s LoopExhausted None
  | Ok (NoOutcome | OutcomeOther _) => done_with s DependencyFailed (Some LoopErrDependency)
  end.

(** One turn of the loop of [run]. *)
Definition turn (s : Stats) (retryCap : Z) : prog LoopCall next :=
  canceled <~ LCtxErr;
  if canceled : bool then done_with s LoopCanceled (Some LoopErrCanceled)
  else
    let s := count_attempt s in
    step <~ LStep;
    (* ctx.Err() is consulted inside the bookkeeping only for ErrCanceled *)
    inner <- (match step with Err ErrCanceled => perform LCtxErr | _ => Ret false end);
    let s := account s step inner in
    canceled <~ LCtxErr;
    if canceled : bool then done_with s LoopCanceled (Some LoopErrCanceled)
    else decide_next s retryCap step.

Fixpoint turns (fuel : nat) (n : next) : prog LoopCall next :=
  match fuel, n with
  | S fuel, Continue s retryCap => n' <- turn s retryCap; turns fuel n'
  | _, _ => Ret n
  end.

(** [run]: startup pause, then turns. *)
Definition run_loop (fuel : nat) (s : Stats) : prog LoopCall next :=
  n <- pause s startupDelay 0; turns fuel n.

(** [Run]: a loop runs once. *)
Definition Run (fuel : nat) (l : Loop) : prog LoopCall (Loop * result LoopError next) :=
  if Running (stats l) then Ret (l, Err LoopBusy)
  else if used l then Ret (l, Err LoopUsed)
  else
    let s := set_running (stats l) true in
    n <- run_loop fuel s;
    Ret (MkLoop true (match n with Continue s _ | Finished s _ _ => s end), Ok n).

(** ** Pacing *)

(** What happened so far: the results of steps, newest first; every wait with
    the results known when it began; the bounds asked of the random source. *)
Record Pace := MkPace {
  answers : list (result Error Outcome);
  waits : list (list (result Error Outcome) * Z);
  draws : list Z }.

Definition pace_env (A : Type) (e : LoopCall A) : Pace → A → Pace → Prop :=
  match e in LoopCall T return Pace → T → Pace → Prop with
  | LCtxErr => λ w _ w', w' = w
  | LStep => λ w a w', w' = MkPace (a :: answers w) (waits w) (draws w)
  | LWait d => λ w _ w', w' = MkPace (answers w) ((answers w, d) :: waits w) (draws w)
  | LRandom n => λ w a w', 0 ≤ a < n ∧ w' = MkPace (answers w) (waits w) (n :: draws w)
  end.

(** The backoff bound after a history: doubling from one second on consecutive
    retries, a full minute once rate limited, forgotten on anything else. *)
Fixpoint backoff (history : list (result Error Outcome)) : Z :=
  match history with
  | Ok Retry :: rest => if backoff rest =? 0 then Second else Z.min (60 * Second) (2 * backoff rest)
  | Ok RateLimited :: _ => 60 * Second
  | _ => 0
  end.

(** The delays the pacing policy allows after a history. *)
Definition allowed (history : list (result Error Outcome)) (d : Z) : Prop :=
  match history with
  | [] => d = 60 * Second
  | Ok Retry :: _ => Z.max Second (backoff history / 2) ≤ d ≤ backoff history
  | Ok RateLimited :: _ => d = 60 * Second
  | _ => d = 15 * Second
  end.

Lemma backoff_range h : backoff h = 0 ∨ Second ≤ backoff h ≤ 60 * Second.
Proof.
  induction h as [|[[]|] h IH]; simpl; auto; try (right; unfold Second; lia).
  destruct (backoff h =? 0) eqn:E; bools; right; unfold Second in *; lia.
Qed.

(** Consecutive retries double the bound up to a minute. *)
Lemma backoff_doubles k :
  (0 < k)%nat → backoff (replicate k (Ok Retry)) = Z.min (60 * Second) (2 ^ (Z.of_nat k - 1) * Second).
Proof.
  induction k as [|[|k] IH]; intros Hk; [lia|done|].
  cbn [replicate backoff]. cbn [replicate backoff] in IH. rewrite IH by lia.
  replace (Z.of_nat (S (S k)) - 1) with (Z.succ (Z.of_nat (S k) - 1)) by lia.
  rewrite Z.pow_succ_r by lia. 
  pose proof (Z.pow_pos_nonneg 2 (Z.of_nat (S k) - 1) ltac:(lia) ltac:(lia)).
  clear IH. set (p := 2 ^ _) in *. clearbody p. unfold Second.
  destruct (_ =? 0) eqn:E; bools; lia.
Qed.

Lemma nextRetry_backoff h c :
  c = backoff h → nextRetry c = backoff (Ok Retry :: h).
Proof.
  intros ->. unfold nextRetry. cbn [backoff]. destruct (backoff h =? 0) eqn:E; [done|]. bools.
  destruct (backoff_range h) as [?|Hr]; [done|]. unfold maxRetryDelay, Second in *.
  destruct (_ <=? _) eqn:E2; bools.
  - change (60 * 1000000000 / 2) with 30000000000 in *. lia.
  - change (60 * 1000000000 / 2) with 30000000000 in *.
    rewrite wrap_i64_id by (unfold MinInt64, MaxInt64; lia). lia.
Qed.

(** Every wait was allowed, every step had its own completed wait before it, and
    the random source was never asked for an empty range. *)
Record paced (w : Pace) : Prop := {
  paced_waits : ∀ h d, (h, d) ∈ waits w → allowed h d;
  paced_steps : (length (answers w) ≤ length (waits w))%nat;
  paced_draws : ∀ n, n ∈ draws w → 0 < n ≤ MaxInt64 }.

(** Before a turn there is an unused wait. *)
Definition armed (w : Pace) : Prop := (length (answers w) < length (waits w))%nat.

Definition turn_post (n : next) (w : Pace) : Prop :=
  paced w ∧ match n with
            | Continue _ cap => armed w ∧ cap = backoff (answers w)
            | Finished _ _ _ => True
            end.

Lemma done_paced s r e w : paced w → wpc pace_env paced (done_with s r e) turn_post w.
Proof. intros. by apply wpc_ret. Qed.

Lemma waitFailure_paced s w : paced w → wpc pace_env paced (waitFailure s) turn_post w.
Proof.
  intros Hw. apply wpc_call; [done|]. intros canceled ? ->. by destruct canceled; apply done_paced.
Qed.

Lemma pause_paced s d cap w :
  paced w → (length (answers w) ≤ length (waits w))%nat →
  allowed (answers w) d → cap = backoff (answers w) →
  wpc pace_env paced (pause s d cap) turn_post w.
Proof.
  intros Hw Hl Hd Hcap. apply wpc_call; [done|]. intros canceled ? ->.
  destruct canceled; [by apply waitFailure_paced|].
  apply wpc_call; [done|]. intros waited w' ->.
  assert (Hw' : paced (MkPace (answers w) ((answers w, d) :: waits w) (draws w))).
  { destruct Hw as [H1 H2 H3]. split; simpl; auto. intros h d' [?|?]%elem_of_cons; simplify_eq; auto. }
  destruct waited; [|by apply waitFailure_paced]. apply wpc_ret; [done|].
  split; [done|]. unfold armed. simpl. split; [lia|done].
Qed.

Lemma retry_paced s h w cap :
  paced w → answers w = Ok Retry :: h → cap = backoff h →
  wpc pace_env paced (decide_next s cap (Ok Retry)) turn_post w.
Proof.
  intros Hw Ha Hcap. unfold decide_next. rewrite (nextRetry_backoff h) by done.
  set (c := backoff (Ok Retry :: h)).
  assert (Hc : Second ≤ c ≤ 60 * Second).
  { destruct (backoff_range (Ok Retry :: h)) as [H0|?]; [|done]. exfalso. revert H0. cbn [backoff].
    destruct (backoff_range h) as [->|?]; [done|].
    destruct (backoff h =? 0) eqn:E; unfold Second in *; bools; lia. }
  set (low := Z.max Second (c / 2)).
  assert (Hlow : Second ≤ low ≤ c) by (unfold low, Second in *; div_lia).
  apply wpc_bind. unfold retryJitter. fold low.
  rewrite wrap_i64_id by (unfold MinInt64, MaxInt64, Second in *; lia).
  apply wpc_call; [done|]. intros r w' [Hr ->].
  assert (Hw' : paced (MkPace (answers w) (waits w) ((c - low + 1) :: draws w))).
  { destruct Hw as [H1 H2 H3]. split; simpl; auto. intros n [->|?]%elem_of_cons; auto.
    unfold MaxInt64, Second in *. lia. }
  apply wpc_ret; [done|]. rewrite wrap_i64_id by (unfold MinInt64, MaxInt64, Second in *; lia).
  replace ((low + r <? low) || (c <? low + r)) with false by lia.
  apply pause_paced; simpl; [done|apply Hw| |by rewrite Ha].
  rewrite Ha. unfold allowed. fold c. fold low. lia.
Qed.

Lemma decide_paced s step h w cap :
  paced w → answers w = step :: h → cap = backoff h →
  wpc pace_env paced (decide_next s cap step) turn_post w.
Proof.
  intros Hw Ha Hcap. assert (Hl := paced_steps _ Hw).
  destruct step as [[]|[]]; try (by apply done_paced); try (by eapply retry_paced);
    (apply pause_paced; [done|done| |]; by rewrite Ha).
Qed.

Lemma turn_paced s cap w :
  paced w → armed w → cap = backoff (answers w) → wpc pace_env paced (turn s cap) turn_post w.
Proof.
  intros Hw Harm Hcap. unfold turn. apply wpc_call; [done|]. intros canceled ? ->.
  destruct canceled; [by apply done_paced|].
  apply wpc_call; [done|]. intros step w' ->.
  set (w' := MkPace (step :: answers w) (waits w) (draws w)).
  assert (Hw' : paced w') by (destruct Hw; unfold armed in *; split; simpl; auto; lia).
  apply wpc_bind. assert (Hrest : ∀ inner, wpc pace_env paced
    (Call LCtxErr (λ canceled : bool,
       if canceled then done_with (account (count_attempt s) step inner) LoopCanceled (Some LoopErrCanceled)
       else decide_next (account (count_attempt s) step inner) cap step)) turn_post w').
  { intros inner. apply wpc_call; [done|]. intros canceled ? ->. destruct canceled; [by apply done_paced|].
    by eapply decide_paced. }
  destruct step as [|[]]; try (by apply wpc_ret).
  apply wpc_call; [done|]. intros inner ? ->. by apply wpc_ret.
Qed.

Lemma turns_paced fuel n w : turn_post n w → wpc pace_env paced (turns fuel n) turn_post w.
Proof.
  revert n w. induction fuel as [|fuel IH]; intros n w Hn; [apply wpc_ret; [apply Hn|done]|].
  destruct n as [s cap|s r e]; [|apply wpc_ret; [apply Hn|done]]. simpl. apply wpc_bind.
  destruct Hn as (Hw & Harm & Hcap).
  eapply wpc_mono; [done| |by apply turn_paced]. intros n' w'. apply IH.
Qed.

Lemma start_paced : paced (MkPace [] [] []).
Proof. split; simpl; [by intros ? ? ?%not_elem_of_nil|lia|by intros ? ?%not_elem_of_nil]. Qed.

(** ** Claims *)

(** The upload loop never exceeds its pacing policy.  At every moment of a
    run of any length, whatever the stepper, the timer and the context do: each
    step was preceded by its own wait; the first wait is a minute; after a retry
    the wait lies between half the backoff bound (at least a second) and the
    bound, which doubles on consecutive retries up to a minute; after a rate
    limit it is a minute; otherwise fifteen seconds; and the random source is
    never asked for an empty range. *)
Theorem loop_is_paced fuel s :
  wpc pace_env paced (run_loop fuel s) turn_post (MkPace [] [] []).
Proof.
  unfold run_loop. apply wpc_bind. eapply wpc_mono; [done| |apply pause_paced].
  - intros n w. apply turns_paced.
  - apply start_paced.
  - done.
  - done.
  - done.
Qed.

(** What the caller of the loop is told about a terminal step. *)
Definition terminal (step : result Error Outcome) : option (LoopResult * option LoopError) :=
  match step with
  | Ok CredentialRejected => Some (LoopCredentialRejected, None)
  | Ok Conflict => Some (LoopConflict, None)
  | Ok Rejected => Some (LoopRejected, None)
  | Ok Exhausted => Some (LoopExhausted, None)
  | Err ErrRecovery => Some (RecoveryRequired, Some LoopErrRecovery)
  | _ => None
  end.

(** The loop went on after [step] only if it is not terminal; it ended with the
    terminal step's own result unless it was canceled meanwhile. *)
Definition obeys (step : result Error Outcome) (n : next) : Prop :=
  match terminal step with
  | None => True
  | Some (r, e) => ∃ s, n = Finished s r e ∨ n = Finished s LoopCanceled (Some LoopErrCanceled)
  end.

Definition steps_obeyed (n : next) (w : Pace) : Prop :=
  match answers w with
  | [] => True
  | last :: earlier => Forall (λ x, terminal x = None) earlier ∧ obeys last n
  end.

Definition going (w : Pace) : Prop := Forall (λ x, terminal x = None) (answers w).

Lemma going_obeyed n w : going w → steps_obeyed n w.
Proof.
  unfold going, steps_obeyed, obeys. destruct (answers w); [done|].
  intros [-> ?]%Forall_cons. done.
Qed.

Definition continues (n : next) (w : Pace) : Prop :=
  steps_obeyed n w ∧ match n with Continue _ _ => going w | _ => True end.

Lemma going_continues n w : going w → continues n w.
Proof. intros. split; [by apply going_obeyed|by destruct n]. Qed.

Lemma waitFailure_continues s w : going w → wp pace_env (waitFailure s) continues w.
Proof.
  intros Hw. apply wpc_call; [done|]. intros canceled ? ->.
  by destruct canceled; apply wpc_ret; auto using going_continues.
Qed.

Lemma pause_continues s d cap w : going w → wp pace_env (pause s d cap) continues w.
Proof.
  intros Hw. apply wpc_call; [done|]. intros canceled ? ->.
  destruct canceled; [by apply waitFailure_continues|].
  apply wpc_call; [done|]. intros waited ? ->. destruct waited; [|by apply waitFailure_continues].
  by apply wpc_ret; auto using going_continues.
Qed.

Lemma decide_continues s cap step h w :
  answers w = step :: h → Forall (λ x, terminal x = None) h →
  wp pace_env (decide_next s cap step) continues w.
Proof.
  intros Ha Hh. destruct (terminal step) as [[r e]|] eqn:Ht.
  - assert (Hend : ∀ n, obeys step n → (∃ s r e, n = Finished s r e) →
                        wp pace_env (Ret n) continues w).
    { intros n Hn (? & ? & ? & ->). apply wpc_ret; [done|].
      split; [|done]. unfold steps_obeyed. by rewrite Ha. }
    destruct step as [[]|[]]; simplify_eq/=; apply Hend; eauto; eexists; eauto.
  - assert (Hw : going w) by (unfold going; rewrite Ha; by constructor).
    assert (Hdone : ∀ r e, wp pace_env (done_with s r e) continues w)
      by (intros; apply wpc_ret; auto using going_continues).
    destruct step as [[]|[]]; simplify_eq/=; auto using pause_continues.
    apply wp_bind. apply wpc_call; [done|]. intros r' w' [_ ->]. apply wpc_ret; [done|].
    destruct (_ || _); [by apply wpc_ret; auto using going_continues|by apply pause_continues].
Qed.

Lemma turn_continues s cap w : going w → wp pace_env (turn s cap) continues w.
Proof.
  intros Hw. unfold turn. apply wpc_call; [done|]. intros canceled ? ->.
  destruct canceled; [by apply wpc_ret; auto using going_continues|].
  apply wpc_call; [done|]. intros step w' ->. apply wpc_bind.
  set (w' := MkPace (step :: answers w) (waits w) (draws w)).
  assert (Hrest : ∀ inner, wp pace_env
    (Call LCtxErr (λ canceled : bool,
       if canceled then done_with (account (count_attempt s) step inner) LoopCanceled (Some LoopErrCanceled)
       else decide_next (account (count_attempt s) step inner) cap step)) continues w').
  { intros inner. apply wpc_call; [done|]. intros canceled ? ->.
    destruct canceled; [|by eapply decide_continues].
    apply wpc_ret; [done|]. split; [|done]. split; [done|].
    unfold obeys. destruct (terminal step) as [[]|]; eauto. }
  destruct step as [|[]]; try (apply wpc_ret; [done|apply Hrest]).
  apply wpc_call; [done|]. intros inner ? ->. apply wpc_ret; [done|apply Hrest].
Qed.

Lemma turns_continue fuel n w : continues n w → wp pace_env (turns fuel n) continues w.
Proof.
  revert n w. induction fuel as [|fuel IH]; intros n w Hn; [by apply wpc_ret|].
  destruct n as [s cap|s r e]; [|by apply wpc_ret]. simpl. apply wp_bind.
  eapply wp_mono; [|apply turn_continues, Hn]. intros n' w'. apply IH.
Qed.

(** The loop stops at the first terminal step.  In a run of any length only
    the last step may have been terminal (credential rejected, conflict,
    rejected, sequence exhausted, recovery required), and then the run has ended
    with exactly that result, or canceled. *)
Theorem loop_stops_on_terminal_step fuel s :
  wp pace_env (run_loop fuel s) steps_obeyed (MkPace [] [] []).
Proof.
  unfold run_loop. apply wp_bind. eapply wp_mono; [|by apply pause_continues; constructor].
  intros n w Hn. eapply wp_mono; [|by apply turns_continue]. by intros ? ? [? _].
Qed.
