(* ===== verification/ActionCore.v ===== *)
(** * Container actions: requests, policy, journal identity ([internal/actioncore])

    The data of a container action, its validation against the local binding, the
    classification of states and codes, and the canonical journal metadata: the
    JSON text whose digest identifies an action, its encoder and its strict
    parser.  The sequencing of one execution is in [ActionWorker]. *)

From S2P Require Import Prelude GoTime GoText GoCalendar Sha256.

#[local] Open Scope string_scope.
#[local] Open Scope Z_scope.

(** ** Data *)

Inductive Operation := Start | Stop | Restart | OperationOther (text : string).
Inductive State :=
| Created | Exited | Running | Paused | Restarting | Removing | Dead | UnknownState
| StateOther (text : string).
Inductive Code :=
| NoCode (* the empty string *)
| Started | Stopped | Restarted | AlreadyRunning | AlreadyStopped | Denied | StateConflict
| Unavailable | BudgetExceeded | OutcomeUnknown | IdentityConflict | CodeOther (text : string).

#[global] Instance Operation_eq_dec : EqDecision Operation.
Proof. solve_decision. Defined.
#[global] Instance State_eq_dec : EqDecision State.
Proof. solve_decision. Defined.
#[global] Instance Code_eq_dec : EqDecision Code.
Proof. solve_decision. Defined.

Record Request := MkRequest {
  ActionID : string; ServerID : string; InstallationID : string; OwnerID : string;
  ActorID : string; TargetID : string; Op : Operation; GraceSeconds : Z;
  PolicyRevision : Z; CapabilityRevision : Z; CreatedAt : time; ExpiresAt : time }.

Record Binding := MkBinding {
  b_ServerID : string; b_InstallationID : string; b_OwnerID : string; b_TargetID : string;
  b_EngineGeneration : string; b_ContainerID : string;
  b_PolicyRevision : Z; b_CapabilityRevision : Z; b_GraceSeconds : Z;
  b_Operations : list Operation }.

Record Delivery := MkDelivery { StartedAt : time; ReceivedAt : time; LeaseDeadline : time }.

Record JournalMetadata := MkMetadata {
  md_Request : Request; md_EngineGeneration : string; md_ContainerID : string }.
Record Key := MkKey {
  k_ActionID : string; k_TargetID : string; k_Fingerprint : string; k_Metadata : JournalMetadata }.

#[global] Instance Request_eq_dec : EqDecision Request.
Proof. solve_decision. Defined.
#[global] Instance JournalMetadata_eq_dec : EqDecision JournalMetadata.
Proof. solve_decision. Defined.
#[global] Instance Key_eq_dec : EqDecision Key.
Proof. solve_decision. Defined.

(** ** Validation *)

Definition hex (value : string) (length : Z) : bool :=
  (slen value =? length) && str_forallb is_lower_hex value.

Definition identifier (value prefix : string) : bool :=
  match_pattern prefix is_lower_hex 32 value.

Definition known_operation (op : Operation) : bool :=
  match op with Start | Stop | Restart => true | OperationOther _ => false end.

(** The loop over [b.Operations] with its [seen] set. *)
Fixpoint distinct_operations (seen ops : list Operation) : bool :=
  match ops with
  | [] => true
  | op :: ops' =>
      known_operation op && negb (bool_decide (op ∈ seen)) && distinct_operations (op :: seen) ops'
  end.

Definition valid (r : Request) (b : Binding) (now : time) : bool :=
  let allows op := bool_decide (op ∈ b_Operations b) in
  identifier (ActionID r) "hla_" && identifier (ServerID r) "srv_"
  && identifier (InstallationID r) "agent_" && identifier (OwnerID r) "usr_"
  && identifier (ActorID r) "usr_" && identifier (TargetID r) "hlt_"
  && hex (b_ContainerID b) 64 && hex (b_EngineGeneration b) 32
  && negb (PolicyRevision r =? 0) && negb (CapabilityRevision r =? 0)
  && str_eqb (ServerID r) (b_ServerID b) && str_eqb (InstallationID r) (b_InstallationID b)
  && str_eqb (OwnerID r) (b_OwnerID b) && str_eqb (TargetID r) (b_TargetID b)
  && (PolicyRevision r =? b_PolicyRevision b) && (CapabilityRevision r =? b_CapabilityRevision b)
  && negb (IsZero (CreatedAt r)) && After (ExpiresAt r) (CreatedAt r)
  && negb (5 * Minute <? Sub (ExpiresAt r) (CreatedAt r))
  && negb (Before now (CreatedAt r)) && Before now (ExpiresAt r)
  && (1 <=? Z.of_nat (length (b_Operations b))) && (Z.of_nat (length (b_Operations b)) <=? 3)
  && distinct_operations [] (b_Operations b)
  && allows (Op r)
  && negb ((allows Stop || allows Restart) && ((b_GraceSeconds b <? 1) || (30 <? b_GraceSeconds b)))
  && (if Op r == Start then GraceSeconds r =? 0
      else (1 <=? GraceSeconds r) && (GraceSeconds r <=? 30) && (GraceSeconds r =? b_GraceSeconds b)).

Definition classify (op : Operation) (state : State) : Code * bool :=
  match op, state with
  | Start, Running => (AlreadyRunning, false)
  | Start, (Created | Exited) => (Started, true)
  | Stop, (Created | Exited) => (AlreadyStopped, false)
  | Stop, Running => (Stopped, true)
  | Restart, Running => (Restarted, true)
  | _, _ => (StateConflict, false)
  end.

Definition retained (code : Code) (op : Operation) : bool :=
  match code with
  | Denied | StateConflict | OutcomeUnknown => true
  | Started | AlreadyRunning => op == Start
  | Stopped | AlreadyStopped => op == Stop
  | Restarted => op == Restart
  | _ => false
  end.

Definition earliest (first : time) (rest : list time) : time :=
  fold_left (λ acc v, if Before v acc then v else acc) rest first.

(** ** Canonical journal metadata *)

Definition operation_text (op : Operation) : string :=
  match op with
  | Start => "CONTAINER_START" | Stop => "CONTAINER_STOP" | Restart => "CONTAINER_RESTART"
  | OperationOther text => text
  end.
Definition operation_of_text (s : string) : Operation :=
  if str_eqb s "CONTAINER_START" then Start else if str_eqb s "CONTAINER_STOP" then Stop
  else if str_eqb s "CONTAINER_RESTART" then Restart else OperationOther s.

(** A struct of strings and unsigned integers as [json.Marshal] writes it.  The
    strings the observer marshals this way have passed [identifier], [hex] or are
    operation names and timestamps, so no character needs escaping. *)
Inductive value := VStr (s : string) | VNum (n : Z).

Definition quote : ascii := ascii_of_N 34.
Definition quoted (s : string) : string := String quote (s ++ String quote "").
Definition render_value (v : value) : string :=
  match v with VStr s => quoted s | VNum n => FormatUint n end.
Definition render_field (f : string * value) : string :=
  quoted f.1 ++ ":" ++ render_value f.2.
Fixpoint render_fields (fs : list (string * value)) : string :=
  match fs with
  | [] => "}"
  | [f] => render_field f ++ "}"
  | f :: fs' => render_field f ++ "," ++ render_fields fs'
  end.
Definition render (fs : list (string * value)) : string := "{" ++ render_fields fs.

Record journalRecord := MkJournalRecord {
  jr_Version : Z; jr_ActionID : string; jr_ServerID : string; jr_InstallationID : string;
  jr_OwnerID : string; jr_ActorID : string; jr_TargetID : string;
  jr_EngineGeneration : string; jr_ContainerID : string; jr_Operation : Operation;
  jr_Grace : Z; jr_Policy : Z; jr_Capability : Z; jr_Created : string; jr_Expires : string }.

Definition journalRecordFor (r : Request) (engineGeneration containerID : string) : journalRecord :=
  MkJournalRecord 1 (ActionID r) (ServerID r) (InstallationID r) (OwnerID r) (ActorID r)
    (TargetID r) engineGeneration containerID (Op r) (GraceSeconds r) (PolicyRevision r)
    (CapabilityRevision r) (FormatRFC3339Nano (CreatedAt r)) (FormatRFC3339Nano (ExpiresAt r)).

Definition record_fields (v : journalRecord) : list (string * value) :=
  [("Version", VNum (jr_Version v)); ("ActionID", VStr (jr_ActionID v));
   ("ServerID", VStr (jr_ServerID v)); ("InstallationID", VStr (jr_InstallationID v));
   ("OwnerID", VStr (jr_OwnerID v)); ("ActorID", VStr (jr_ActorID v));
   ("TargetID", VStr (jr_TargetID v)); ("EngineGeneration", VStr (jr_EngineGeneration v));
   ("ContainerID", VStr (jr_ContainerID v)); ("Operation", VStr (operation_text (jr_Operation v)));
   ("Grace", VNum (jr_Grace v)); ("Policy", VNum (jr_Policy v));
   ("Capability", VNum (jr_Capability v)); ("Created", VStr (jr_Created v));
   ("Expires", VStr (jr_Expires v))].

Definition marshal (v : journalRecord) : string := render (record_fields v).

Definition fingerprint (r : Request) (b : Binding) : string :=
  Sum256 (marshal (journalRecordFor r (b_EngineGeneration b) (b_ContainerID b))).

(** [len(s) <= 30] and the parsed time's text is [s] again. *)
Definition canonical_stamp (s : string) : bool :=
  (slen s <=? 30) && bool_decide (is_Some (canonicalTime s)).

(** The structural conditions of [CanonicalJournalMetadata]. *)
Definition metadata_ok (k : Key) : bool :=
  let m := k_Metadata k in let r := md_Request m in
  str_eqb (k_ActionID k) (ActionID r) && str_eqb (k_TargetID k) (TargetID r)
  && identifier (ActionID r) "hla_" && identifier (TargetID r) "hlt_"
  && identifier (ServerID r) "srv_" && identifier (InstallationID r) "agent_"
  && identifier (OwnerID r) "usr_" && identifier (ActorID r) "usr_"
  && hex (md_EngineGeneration m) 32 && hex (md_ContainerID m) 64
  && negb (PolicyRevision r =? 0) && negb (CapabilityRevision r =? 0)
  && negb (IsZero (CreatedAt r)) && After (ExpiresAt r) (CreatedAt r)
  && negb (5 * Minute <? Sub (ExpiresAt r) (CreatedAt r))
  && (match Op r with
      | Start => GraceSeconds r =? 0
      | Stop | Restart => (1 <=? GraceSeconds r) && (GraceSeconds r <=? 30)
      | OperationOther _ => false
      end).

Definition CanonicalJournalMetadata (k : Key) : option string :=
  if negb (metadata_ok k) then None
  else
    let m := k_Metadata k in
    let record := journalRecordFor (md_Request m) (md_EngineGeneration m) (md_ContainerID m) in
    if negb (canonical_stamp (jr_Created record) && canonical_stamp (jr_Expires record)) then None
    else
      let raw := marshal record in
      if (2048 <? slen raw) || negb (str_eqb (Sum256 raw) (k_Fingerprint k)) then None else Some raw.

Definition NewJournalKey (r : Request) (b : Binding) : option Key :=
  if negb (valid r b (CreatedAt r)) then None
  else
    let k := MkKey (ActionID r) (TargetID r) (fingerprint r b)
                   (MkMetadata r (b_EngineGeneration b) (b_ContainerID b)) in
    match CanonicalJournalMetadata k with
    | None => None
    | Some _ => Some k
    end.

(** *** Strict parsing

    [ParseJournalMetadata] decodes with Go's permissive JSON reader and then
    requires the re-encoding to equal the input; so it accepts exactly the
    canonical texts, and a reader of that form is all there is to model. *)

Fixpoint until_quote (s : string) : option (string * string) :=
  match s with
  | EmptyString => None
  | String c s' =>
      if Ascii.eqb c quote then Some ("", s')
      else match until_quote s' with
           | Some (t, rest) => Some (String c t, rest)
           | None => None
           end
  end.

Fixpoint leading_digits (s : string) : string * string :=
  match s with
  | String c s' =>
      if between 48 57 c then let '(d, rest) := leading_digits s' in (String c d, rest)
      else ("", s)
  | EmptyString => ("", "")
  end.

Definition parse_string (s : string) : option (string * string) :=
  match literal quote s with Some s => until_quote s | None => None end.

(** The kind of a field and, for an integer, its width in bits. *)
Inductive kind := KStr | KNum (bits : Z).

Definition parse_value (k : kind) (s : string) : option (value * string) :=
  match k with
  | KStr => match parse_string s with Some (t, rest) => Some (VStr t, rest) | None => None end
  | KNum bits =>
      let '(d, rest) := leading_digits s in
      match ParseUint d bits with Some n => Some (VNum n, rest) | None => None end
  end.

Definition parse_field (f : string * kind) (s : string) : option (value * string) :=
  match parse_string s with
  | Some (name, s) =>
      if str_eqb name f.1 then
        match literal ":" s with Some s => parse_value f.2 s | None => None end
      else None
  | None => None
  end.

Fixpoint parse_fields (fs : list (string * kind)) (s : string) : option (list value * string) :=
  match fs with
  | [] => match literal "}" s with Some s => Some ([], s) | None => None end
  | f :: fs' =>
      match parse_field f s with
      | None => None
      | Some (v, s) =>
          match fs' with
          | [] => match literal "}" s with Some s => Some ([v], s) | None => None end
          | _ :: _ =>
              match literal "," s with
              | None => None
              | Some s =>
                  match parse_fields fs' s with
                  | Some (vs, rest) => Some (v :: vs, rest)
                  | None => None
                  end
              end
          end
      end
  end.

Definition record_kinds : list (string * kind) :=
  [("Version", KNum 63); ("ActionID", KStr); ("ServerID", KStr); ("InstallationID", KStr);
   ("OwnerID", KStr); ("ActorID", KStr); ("TargetID", KStr); ("EngineGeneration", KStr);
   ("ContainerID", KStr); ("Operation", KStr); ("Grace", KNum 8); ("Policy", KNum 64);
   ("Capability", KNum 64); ("Created", KStr); ("Expires", KStr)].

Definition unmarshal (raw : string) : option journalRecord :=
  match literal "{" raw with
  | None => None
  | Some s =>
      match parse_fields record_kinds s with
      | Some ([VNum version; VStr action; VStr server; VStr installation; VStr owner; VStr actor;
               VStr target; VStr engine; VStr container; VStr operation; VNum grace; VNum policy;
               VNum capability; VStr created; VStr expires], "") =>
          Some (MkJournalRecord version action server installation owner actor target engine
                  container (operation_of_text operation) grace policy capability created expires)
      | _ => None
      end
  end.

Definition ParseJournalMetadata (raw : string) : option Key :=
  if (slen raw =? 0) || (2048 <? slen raw) then None
  else match unmarshal raw with
  | None => None
  | Some v =>
      if negb (jr_Version v =? 1) then None
      else match canonicalTime (jr_Created v), canonicalTime (jr_Expires v) with
      | Some created, Some expires =>
          let r := MkRequest (jr_ActionID v) (jr_ServerID v) (jr_InstallationID v) (jr_OwnerID v)
                     (jr_ActorID v) (jr_TargetID v) (jr_Operation v) (jr_Grace v) (jr_Policy v)
                     (jr_Capability v) created expires in
          let k := MkKey (jr_ActionID v) (jr_TargetID v) (Sum256 raw)
                         (MkMetadata r (jr_EngineGeneration v) (jr_ContainerID v)) in
          match CanonicalJournalMetadata k with
          | Some encoded => if str_eqb encoded raw then Some k else None
          | None => None
          end
      | _, _ => None
      end
  end.
#[global] Arguments CanonicalJournalMetadata : simpl never.
#[global] Arguments ParseJournalMetadata : simpl never.
#[global] Arguments marshal : simpl never.

(** ** The metadata round trip *)

#[local] Opaque Sum256 canonicalTime FormatRFC3339Nano marshal.

Definition no_quote (c : ascii) : bool := negb (Ascii.eqb c quote).

Lemma until_quote_spec s rest :
  str_forallb no_quote s = true → until_quote (s ++ String quote rest) = Some (s, rest).
Proof.
  induction s as [|c s IH]; intros Hs; [done|]. rewrite append_cons. simpl in *.
  apply andb_true_iff in Hs as [Hc Hs]. unfold no_quote in Hc. apply negb_true_iff in Hc as ->.
  by rewrite IH.
Qed.

Lemma parse_string_quoted s rest :
  str_forallb no_quote s = true → parse_string (quoted s ++ rest) = Some (s, rest).
Proof.
  intros Hs. unfold parse_string, quoted. rewrite append_cons, append_assoc.
  simpl literal. by apply until_quote_spec.
Qed.

Lemma leading_digits_spec d rest :
  str_forallb (between 48 57) d = true →
  (∀ c s, rest = String c s → between 48 57 c = false) →
  leading_digits (d ++ rest) = (d, rest).
Proof.
  intros Hd Hr. induction d as [|c d IH].
  - rewrite append_nil. destruct rest as [|c s]; [done|]. simpl. by rewrite (Hr c s).
  - rewrite append_cons. simpl in *. apply andb_true_iff in Hd as [-> Hd]. by rewrite IH.
Qed.

(** A value fits its kind. *)
Definition fits (k : kind) (v : value) : Prop :=
  match k, v with
  | KStr, VStr s => str_forallb no_quote s = true
  | KNum bits, VNum n => 0 ≤ n ≤ 2 ^ bits - 1
  | _, _ => False
  end.

Lemma parse_value_render k v rest :
  fits k v → (∀ c s, rest = String c s → between 48 57 c = false) →
  parse_value k (render_value v ++ rest) = Some (v, rest).
Proof.
  destruct k as [|bits], v as [s|n]; simpl; intros Hf Hr; try done.
  - by rewrite parse_string_quoted.
  - rewrite leading_digits_spec, ParseUint_FormatUint by auto using FormatUint_digits. done.
Qed.

Lemma parse_field_render name k v rest :
  str_forallb no_quote name = true → fits k v →
  (∀ c s, rest = String c s → between 48 57 c = false) →
  parse_field (name, k) (render_field (name, v) ++ rest) = Some (v, rest).
Proof.
  intros Hn Hf Hr. unfold parse_field, render_field. simpl fst. simpl snd.
  rewrite !append_assoc, parse_string_quoted, str_eqb_refl by done.
  rewrite append_cons, append_nil. cbn [literal Ascii.eqb Bool.eqb]. by apply parse_value_render.
Qed.

Lemma parse_fields_render (ks : list (string * kind)) (fs : list (string * value)) :
  Forall2 (λ k f, k.1 = f.1 ∧ str_forallb no_quote f.1 = true ∧ fits k.2 f.2) ks fs →
  parse_fields ks (render_fields fs) = Some (map snd fs, "").
Proof.
  induction 1 as [|[n k] [n' v] ks fs (Hn & Hq & Hf) H IH]; [done|]. simpl in Hn, Hq, Hf. subst n'.
  assert (Hcomma : ∀ c s (t : string), String "," t = String c s → between 48 57 c = false)
    by (by intros ? ? ? [= <- _]).
  assert (Hbrace : ∀ c s, "}" = String c s → between 48 57 c = false) by (by intros ? ? [= <- _]).
  destruct H as [|k' f' ks fs Hkf H]; cbn [parse_fields render_fields].
  - by rewrite parse_field_render.
  - rewrite append_cons, append_nil, parse_field_render by eauto.
    cbn [literal Ascii.eqb Bool.eqb]. cbn [parse_fields render_fields] in IH. by rewrite IH.
Qed.

Lemma operation_round_trip op :
  known_operation op = true → operation_of_text (operation_text op) = op.
Proof. by destruct op. Qed.

(** A journal record whose text is canonical. *)
Definition record_ok (v : journalRecord) : Prop :=
  jr_Version v = 1 ∧ known_operation (jr_Operation v) = true
  ∧ Forall (λ s, str_forallb no_quote s = true)
      [jr_ActionID v; jr_ServerID v; jr_InstallationID v; jr_OwnerID v; jr_ActorID v; jr_TargetID v;
       jr_EngineGeneration v; jr_ContainerID v; jr_Created v; jr_Expires v]
  ∧ 0 ≤ jr_Grace v ≤ 255 ∧ 0 ≤ jr_Policy v ≤ MaxUint64 ∧ 0 ≤ jr_Capability v ≤ MaxUint64.

Lemma unmarshal_marshal v : record_ok v → unmarshal (marshal v) = Some v.
Proof.
  intros (Hv & Ho & Hs & Hg & Hp & Hc). unfold unmarshal. with_strategy transparent [marshal] unfold marshal. unfold render.
  rewrite append_cons, append_nil. cbn [literal Ascii.eqb Bool.eqb].
  rewrite !Forall_cons in Hs. destruct_and! Hs.
  assert (str_forallb no_quote (operation_text (jr_Operation v)) = true) by by destruct (jr_Operation v).
  rewrite parse_fields_render.
  - simpl. rewrite operation_round_trip by done. by destruct v.
  - unfold MaxUint64 in *.
    repeat (apply Forall2_cons; split; [simpl; split; [done|]; split; [reflexivity|]|]);
      try apply Forall2_nil; done || lia.
Qed.

Lemma hex_no_quote s : str_forallb is_lower_hex s = true → str_forallb no_quote s = true.
Proof.
  apply str_forallb_mono. intros c Hc. unfold no_quote. apply negb_true_iff, Ascii.eqb_neq.
  intros ->. discriminate Hc.
Qed.

Lemma identifier_no_quote s pre :
  str_forallb no_quote pre = true → identifier s pre = true → str_forallb no_quote s = true.
Proof.
  intros Hp (rest & -> & _ & Hr)%match_pattern_spec.
  by rewrite str_forallb_append, Hp, hex_no_quote.
Qed.

Lemma stamp_no_quote t :
  year_ok t = true → str_forallb no_quote (FormatRFC3339Nano t) = true.
Proof.
  intros [_ Hc]%FormatRFC3339Nano_shape. revert Hc. apply str_forallb_mono. intros c Hc.
  unfold no_quote. apply negb_true_iff, Ascii.eqb_neq. intros ->. discriminate Hc.
Qed.

(** Go's types, and times inside the calendar the text format covers. *)
Definition typed_request (r : Request) : Prop :=
  0 ≤ PolicyRevision r ≤ MaxUint64 ∧ 0 ≤ CapabilityRevision r ≤ MaxUint64
  ∧ year_ok (CreatedAt r) = true ∧ year_ok (ExpiresAt r) = true.

Definition utc_request (r : Request) : Request :=
  MkRequest (ActionID r) (ServerID r) (InstallationID r) (OwnerID r) (ActorID r) (TargetID r)
    (Op r) (GraceSeconds r) (PolicyRevision r) (CapabilityRevision r)
    (UTC (CreatedAt r)) (UTC (ExpiresAt r)).
Definition utc_key (k : Key) : Key :=
  MkKey (k_ActionID k) (k_TargetID k) (k_Fingerprint k)
    (MkMetadata (utc_request (md_Request (k_Metadata k)))
       (md_EngineGeneration (k_Metadata k)) (md_ContainerID (k_Metadata k))).

Abbreviation record_of m :=
  (journalRecordFor (md_Request m) (md_EngineGeneration m) (md_ContainerID m)).

Lemma metadata_record_ok k :
  metadata_ok k = true → typed_request (md_Request (k_Metadata k)) → record_ok (record_of (k_Metadata k)).
Proof.
  intros Hk (Hp & Hc & Hcr & Hex). unfold metadata_ok, hex in Hk. bools.
  split; [done|]. split; [simpl; by destruct (Op (md_Request (k_Metadata k)))|]. split.
  - rewrite !Forall_cons. unfold journalRecordFor.
    cbn [jr_ActionID jr_ServerID jr_InstallationID jr_OwnerID jr_ActorID jr_TargetID
         jr_EngineGeneration jr_ContainerID jr_Created jr_Expires].
    repeat split; try (by apply hex_no_quote); try (by apply stamp_no_quote);
      try (by eapply identifier_no_quote; [|eassumption]); apply Forall_nil; done.
  - simpl. split; [|done]. destruct (Op (md_Request (k_Metadata k))); bools; try done; lia.
Qed.

(** Everything [metadata_ok] and the encoder look at is unchanged in UTC, when
    the times carry no monotonic reading. *)
Definition wallclock_request (r : Request) : Prop := wallclock (CreatedAt r) ∧ wallclock (ExpiresAt r).

Lemma metadata_ok_utc k :
  wallclock_request (md_Request (k_Metadata k)) → metadata_ok (utc_key k) = metadata_ok k.
Proof.
  intros [Hc He]. unfold metadata_ok. simpl.
  by rewrite !After_wall_l, !Sub_wall_l by done.
Qed.

Lemma FormatRFC3339Nano_UTC t : FormatRFC3339Nano (UTC t) = FormatRFC3339Nano t.
Proof. with_strategy transparent [FormatRFC3339Nano] reflexivity. Qed.

Lemma record_of_utc k : record_of (k_Metadata (utc_key k)) = record_of (k_Metadata k).
Proof. unfold journalRecordFor. simpl. by rewrite !FormatRFC3339Nano_UTC. Qed.

Lemma Canonical_utc k :
  wallclock_request (md_Request (k_Metadata k)) →
  CanonicalJournalMetadata (utc_key k) = CanonicalJournalMetadata k.
Proof.
  intros Hw. unfold CanonicalJournalMetadata. rewrite metadata_ok_utc by done. cbv zeta.
  rewrite record_of_utc. reflexivity.
Qed.

Lemma Canonical_inv k raw :
  CanonicalJournalMetadata k = Some raw →
  metadata_ok k = true ∧ raw = marshal (record_of (k_Metadata k))
  ∧ slen raw ≤ 2048 ∧ k_Fingerprint k = Sum256 raw.
Proof.
  unfold CanonicalJournalMetadata. destruct (metadata_ok k); [simpl|done].
  destruct (negb _); [done|]. destruct (_ || _) eqn:E; [done|]. intros [= <-]. bools. done.
Qed.

Lemma unmarshal_of_raw k raw :
  metadata_ok k = true → typed_request (md_Request (k_Metadata k)) →
  raw = marshal (record_of (k_Metadata k)) → unmarshal raw = Some (record_of (k_Metadata k)).
Proof. intros Hm Ht ->. by apply unmarshal_marshal, metadata_record_ok. Qed.

Lemma marshal_nonempty v : 0 < slen (marshal v).
Proof. with_strategy transparent [marshal] unfold marshal. unfold render. rewrite slen_append. change (slen "{") with 1. unfold slen. lia. Qed.

Lemma canonical_parse k raw :
  typed_request (md_Request (k_Metadata k)) → wallclock_request (md_Request (k_Metadata k)) →
  CanonicalJournalMetadata k = Some raw → ParseJournalMetadata raw = Some (utc_key k).
Proof.
  intros Ht Hw Hc. destruct (Canonical_inv _ _ Hc) as (Hm & Hraw & Hlen & Hfp).
  unfold ParseJournalMetadata. rewrite (unmarshal_of_raw k raw) by done.
  replace ((slen raw =? 0) || (2048 <? slen raw)) with false
    by (pose proof (marshal_nonempty (record_of (k_Metadata k))); subst raw; lia).
  destruct Ht as (_ & _ & Hcr & Hex). cbn [journalRecordFor jr_Version jr_Created jr_Expires].
  rewrite !canonicalTime_Format by done. simpl negb. cbv iota zeta.
  replace (MkKey _ _ _ _) with (utc_key k).
  - by rewrite Canonical_utc, Hc, str_eqb_refl.
  - unfold utc_key. rewrite <- Hfp. unfold metadata_ok in Hm. bools.
    destruct k as [ka kt kf [[] eg ci]]; simpl in *. by subst.
Qed.

(** What the parser accepts: the encoder's output, with times in UTC. *)
Lemma parse_canonical raw k :
  ParseJournalMetadata raw = Some k →
  CanonicalJournalMetadata k = Some raw ∧ utc (CreatedAt (md_Request (k_Metadata k))) = true
  ∧ utc (ExpiresAt (md_Request (k_Metadata k))) = true.
Proof.
  unfold ParseJournalMetadata. destruct (_ || _); [done|].
  destruct (unmarshal raw) as [v|]; [|done]. destruct (negb _); [done|].
  destruct (canonicalTime (jr_Created v)) as [created|] eqn:Hc; [|done].
  destruct (canonicalTime (jr_Expires v)) as [expires|] eqn:He; [|done].
  apply canonicalTime_inv in Hc as [_ Hc], He as [_ He]. cbv zeta.
  destruct (CanonicalJournalMetadata _) as [encoded|] eqn:Henc; [|done].
  destruct (str_eqb encoded raw) eqn:Heq; [|done]. intros [= <-].
  apply str_eqb_eq in Heq as ->. done.
Qed.

Lemma parsed_utc raw k : ParseJournalMetadata raw = Some k → utc_key k = k.
Proof.
  intros (_ & Hc & He)%parse_canonical. unfold utc_key, utc_request.
  rewrite !utc_UTC by done. by destruct k as [? ? ? [[] ? ?]].
Qed.

(** The canonical journal metadata of a key determines the key: parsing the
    encoder's output gives back exactly the key (its times in UTC), and whatever
    the parser accepts is the encoder's output for the key it returns. *)
Theorem metadata_round_trip k raw :
  typed_request (md_Request (k_Metadata k)) → wallclock_request (md_Request (k_Metadata k)) →
  (CanonicalJournalMetadata k = Some raw → ParseJournalMetadata raw = Some (utc_key k))
  ∧ (ParseJournalMetadata raw = Some k → CanonicalJournalMetadata k = Some raw).
Proof. intros Ht Hw. split; [by apply canonical_parse|]. by intros [? _]%parse_canonical. Qed.

(** ** A concrete action *)

Module ActionSample.
Definition digits32 : string := "0123456789abcdef0123456789abcdef".
Definition created : time := At (63800000000 * Second).
Definition expires : time := At (63800000120 * Second + 500000000).
Definition request : Request :=
  MkRequest ("hla_" ++ digits32) ("srv_" ++ digits32) ("agent_" ++ digits32) ("usr_" ++ digits32)
    ("usr_" ++ digits32) ("hlt_" ++ digits32) Stop 10 3 7 created expires.
Definition binding : Binding :=
  MkBinding (ServerID request) (InstallationID request) (OwnerID request) (TargetID request)
    digits32 (digits32 ++ digits32) 3 7 10 [Start; Stop].
Definition raw : string := marshal (journalRecordFor request digits32 (digits32 ++ digits32)).
Definition key : Key :=
  MkKey (ActionID request) (TargetID request) (fingerprint request binding)
    (MkMetadata request digits32 (digits32 ++ digits32)).
End ActionSample.

Lemma sample_key : NewJournalKey ActionSample.request ActionSample.binding = Some ActionSample.key.
Proof. vm_compute. reflexivity. Qed.

Lemma metadata_round_trip_witness :
  ParseJournalMetadata ActionSample.raw = Some (utc_key ActionSample.key).
Proof.
  apply (metadata_round_trip ActionSample.key ActionSample.raw).
  - vm_compute. repeat split; discriminate.
  - vm_compute. split; reflexivity.
  - vm_compute. reflexivity.
Defined.
