(* ===== verification/ActionWorker.v ===== *)
(** * Container action sequencing ([actioncore.Worker.Execute])

    One action execution: validation of an authenticated request against local
    policy, budget checks against every deadline, two authority checks, the
    durable journal attempt, the single engine mutation and the classification of
    what may be reported.  [Execute] is the whole routine over its calls to the
    clock, the contexts, the authority, the journal and the engine. *)

From S2P Require Import Prelude GoTime Effects ActionCore.

(** ** Calls *)

(** The parent context, the execution's bounded one and the engine call's. *)
Inductive Ctx := Parent | Bounded | CallCtx.

Inductive Acquisition := Acquired | AcquireConflict | AcquireUnresolved | AcquireFailed.

Inductive ActionCall : Type → Type :=
| ANow : ActionCall time
| ACtxErr (c : Ctx) : ActionCall bool
| AUntil (c : Ctx) : ActionCall (option Z) (* time.Until(deadline), if there is one *)
| AWithTimeout (c : Ctx) (d : Z) : ActionCall unit
| ACheck : ActionCall bool (* authority.Check(ctx, request, binding) == nil *)
| AAcquire (k : Key) : ActionCall Acquisition
| AExisting : ActionCall Code
| AInspect (container : string) : ActionCall (option State)
| AIntent : ActionCall bool
| AEngine (op : Operation) (container : string) (grace : Z) : ActionCall bool
| AFinish (code : Code) : ActionCall bool
| AClose : ActionCall unit.

Local Open Scope prog_scope.

(** [remaining(ctx, now, end)] *)
Definition remaining (c : Ctx) (now end_ : time) : prog ActionCall Z :=
  expired <~ ACtxErr c;
  if expired : bool then Ret 0
  else
    until <~ AUntil c;
    Ret (match until with
         | None => Sub end_ now
         | Some d => Z.min (Sub end_ now) d
         end).

(** [callBudget(ctx, now, end, grace)] *)
Definition callBudget (c : Ctx) (now end_ : time) (grace : Z) : prog ActionCall Z :=
  r <- remaining c now end_;
  let budget := Z.min (45 * Second) (wrap_i64 (r - 5 * Second)) in
  Ret (if budget <? grace * Second + 5 * Second then 0 else budget).

(** [remaining(c, w.now(), end)] *)
Definition remaining_now (c : Ctx) (end_ : time) : prog ActionCall Z :=
  now <~ ANow; remaining c now end_.
Definition callBudget_now (c : Ctx) (end_ : time) (grace : Z) : prog ActionCall Z :=
  now <~ ANow; callBudget c now end_ grace.

(** From the durable intent on: nothing here reports anything but the requested
    outcome or [OutcomeUnknown]. *)
Definition mutate (r : Request) (b : Binding) (end_ : time) (code : Code) : prog ActionCall Code :=
  budget <- callBudget_now Bounded end_ (GraceSeconds r);
  if budget <=? 0 then Ret OutcomeUnknown
  else
    _ <~ AWithTimeout Bounded budget;
    callStarted <~ ANow;
    ok <~ AEngine (Op r) (b_ContainerID b) (GraceSeconds r);
    expired <~ ACtxErr CallCtx;
    late <- (if expired : bool then Ret true
             else
               now <~ ANow;
               if budget <=? Sub now callStarted then Ret true
               else left <- remaining_now Bounded end_; Ret (left <=? 5 * Second));
    if negb ok || late then Ret OutcomeUnknown
    else
      finished <~ AFinish code;
      if negb finished then Ret OutcomeUnknown
      else
        left <- remaining_now Bounded end_;
        Ret (if left <=? 0 then OutcomeUnknown else code).

(** From the inspection of the container on. *)
Definition decide_action (r : Request) (b : Binding) (end_ : time) (state : State) : prog ActionCall Code :=
  let '(code, mutates) := classify (Op r) state in
  if negb mutates then
    finished <~ AFinish code;
    if negb finished then Ret Unavailable
    else
      left <- remaining_now Bounded end_;
      Ret (if left <=? 0 then BudgetExceeded else code)
  else
    budget <- callBudget_now Bounded end_ (GraceSeconds r);
    if budget <=? 0 then Ret BudgetExceeded
    else
      intended <~ AIntent;
      if negb intended then Ret OutcomeUnknown else mutate r b end_ code.

(** With the journal attempt held. *)
Definition attempt (r : Request) (b : Binding) (end_ : time) : prog ActionCall Code :=
  left <- remaining_now Bounded end_;
  if left <=? 0 then Ret BudgetExceeded
  else
    existing <~ AExisting;
    left <- remaining_now Bounded end_;
    if left <=? 0 then Ret BudgetExceeded
    else if existing != NoCode
    then Ret (if retained existing (Op r) then existing else Unavailable)
    else
      state <~ AInspect (b_ContainerID b);
      match state with
      | None => Ret Unavailable
      | Some state =>
          left <- remaining_now Bounded end_;
          if left <=? 0 then Ret BudgetExceeded
          else
            authorized <~ ACheck;
            if negb authorized then Ret Denied
            else
              left <- remaining_now Bounded end_;
              if left <=? 0 then Ret BudgetExceeded else decide_action r b end_ state
      end.

Definition delivery_ok (d : Delivery) (now : time) : bool :=
  negb (IsZero (StartedAt d) || Before (ReceivedAt d) (StartedAt d)
        || (30 * Second <? Sub (ReceivedAt d) (StartedAt d)) || Before now (ReceivedAt d)).

Definition execution_end (r : Request) (d : Delivery) : time :=
  earliest (ExpiresAt r) [Add (StartedAt d) (90 * Second); Add (ReceivedAt d) Minute;
                          Add (LeaseDeadline d) (- 30 * Second)].

(** [Execute] of a worker; [wired]: all three dependencies are present. *)
Definition Execute (wired : bool) (r : Request) (b : Binding) (d : Delivery) : prog ActionCall Code :=
  now <~ ANow;
  if negb (valid r b now) then Ret Denied
  else if negb wired then Ret Unavailable
  else if negb (delivery_ok d now) then Ret BudgetExceeded
  else
    let end_ := execution_end r d in
    budget <- remaining Parent now end_;
    if budget <=? 0 then Ret BudgetExceeded
    else
      _ <~ AWithTimeout Parent budget;
      authorized <~ ACheck;
      if negb authorized then Ret Denied
      else
        left <- remaining_now Bounded end_;
        if left <=? 0 then Ret BudgetExceeded
        else match NewJournalKey r b with
        | None => Ret Unavailable
        | Some key =>
            acquired <~ AAcquire key;
            match acquired with
            | AcquireConflict => Ret IdentityConflict
            | AcquireUnresolved => Ret OutcomeUnknown
            | AcquireFailed => Ret Unavailable
            | Acquired => code <- attempt r b end_; _ <~ AClose; Ret code
            end
        end.
#[global] Arguments NewJournalKey : simpl never.
#[global] Arguments valid : simpl never.
#[global] Arguments remaining : simpl never.
#[global] Arguments callBudget : simpl never.
#[global] Arguments remaining_now : simpl never.
#[global] Arguments callBudget_now : simpl never.
#[global] Arguments mutate : simpl never.
#[global] Arguments decide_action : simpl never.
#[global] Arguments attempt : simpl never.

(** ** What an execution did *)

Inductive intent_state := NotIntended | IntentFailed | IntentDurable.

(** An engine mutation with the deadline it was given: the last clock reading
    before the call's timeout was set, and that timeout. *)
Record Mutation := MkMutation {
  mu_op : Operation; mu_container : string; mu_grace : Z;
  mu_budget : option (time * Z); mu_ok : bool }.

Record Effects := MkEffects {
  e_checks : nat; e_acquired : bool; e_existing : option Code; e_state : option State;
  e_intent : intent_state; e_mutations : list Mutation; e_finishes : list (Code * bool);
  e_closes : nat; e_now : time; e_budget : option (time * Z) }.

Definition untouched (t : time) : Effects :=
  MkEffects 0 false None None NotIntended [] [] 0 t None.

Definition set_now (w : Effects) (t : time) : Effects :=
  MkEffects (e_checks w) (e_acquired w) (e_existing w) (e_state w) (e_intent w) (e_mutations w)
            (e_finishes w) (e_closes w) t (e_budget w).

(** Compute the fields of an explicit [Effects]. *)
Ltac view :=
  cbn [set_now e_now e_checks e_acquired e_existing e_state e_intent e_mutations e_finishes
       e_closes e_budget].

Section worker.
Variables (r : Request) (b : Binding) (d : Delivery).
Let end_ : time := execution_end r d.

(** Readings within 292 years of the end, so that no subtraction saturates. *)
Definition clock_sane (t : time) : Prop := MinInt64 + 5 * Second < Sub end_ t.

Definition action_env (A : Type) (e : ActionCall A) : Effects → A → Effects → Prop :=
  match e in ActionCall T return Effects → T → Effects → Prop with
  | ANow => λ w t w', clock_sane t ∧ w' = set_now w t
  | ACtxErr _ => λ w _ w', w' = w
  | AUntil _ => λ w a w', w' = w ∧
      match a with Some u => MinInt64 + 5 * Second < u | None => True end
  | AWithTimeout c budget => λ w _ w',
      w' = MkEffects (e_checks w) (e_acquired w) (e_existing w) (e_state w) (e_intent w)
             (e_mutations w) (e_finishes w) (e_closes w) (e_now w)
             (match c with Bounded => Some (e_now w, budget) | _ => e_budget w end)
  | ACheck => λ w ok w',
      w' = MkEffects (if ok then S (e_checks w) else e_checks w) (e_acquired w) (e_existing w)
             (e_state w) (e_intent w) (e_mutations w) (e_finishes w) (e_closes w) (e_now w) (e_budget w)
  | AAcquire _ => λ w a w',
      w' = MkEffects (e_checks w) (match a with Acquired => true | _ => e_acquired w end)
             (e_existing w) (e_state w) (e_intent w) (e_mutations w) (e_finishes w) (e_closes w)
             (e_now w) (e_budget w)
  | AExisting => λ w c w',
      w' = MkEffects (e_checks w) (e_acquired w) (Some c) (e_state w) (e_intent w)
             (e_mutations w) (e_finishes w) (e_closes w) (e_now w) (e_budget w)
  | AInspect _ => λ w s w',
      w' = MkEffects (e_checks w) (e_acquired w) (e_existing w) s (e_intent w)
             (e_mutations w) (e_finishes w) (e_closes w) (e_now w) (e_budget w)
  | AIntent => λ w ok w',
      w' = MkEffects (e_checks w) (e_acquired w) (e_existing w) (e_state w)
             (if ok then IntentDurable else IntentFailed)
             (e_mutations w) (e_finishes w) (e_closes w) (e_now w) (e_budget w)
  | AEngine op container grace => λ w ok w',
      w' = MkEffects (e_checks w) (e_acquired w) (e_existing w) (e_state w) (e_intent w)
             (e_mutations w ++ [MkMutation op container grace (e_budget w) ok])
             (e_finishes w) (e_closes w) (e_now w) (e_budget w)
  | AFinish code => λ w ok w',
      w' = MkEffects (e_checks w) (e_acquired w) (e_existing w) (e_state w) (e_intent w)
             (e_mutations w) (e_finishes w ++ [(code, ok)]) (e_closes w) (e_now w) (e_budget w)
  | AClose => λ w _ w',
      w' = MkEffects (e_checks w) (e_acquired w) (e_existing w) (e_state w) (e_intent w)
             (e_mutations w) (e_finishes w) (S (e_closes w)) (e_now w) (e_budget w)
  end.

(** The request was valid, and delivered in time, at some clock reading. *)
Definition admissible : Prop := ∃ now, valid r b now = true ∧ delivery_ok d now = true.

(** What must hold for a mutation to have been issued. *)
Definition justified (w : Effects) (m : Mutation) : Prop :=
  mu_op m = Op r ∧ mu_container m = b_ContainerID b ∧ mu_grace m = GraceSeconds r
  ∧ admissible
  ∧ e_checks w = 2%nat ∧ e_acquired w = true ∧ e_existing w = Some NoCode
  ∧ e_intent w = IntentDurable
  ∧ (∃ state, e_state w = Some state ∧ (classify (Op r) state).2 = true)
  ∧ ∃ at' budget, mu_budget m = Some (at', budget)
      ∧ GraceSeconds r * Second + 5 * Second ≤ budget ≤ 45 * Second
      ∧ budget + 5 * Second ≤ Sub end_ at'.

(** At any moment at most one mutation has been issued, and it is justified. *)
Definition disciplined (w : Effects) : Prop :=
  e_mutations w = [] ∨ ∃ m, e_mutations w = [m] ∧ justified w m.

Definition succeeded (code : Code) (w : Effects) : Prop :=
  (∃ m, e_mutations w = [m] ∧ mu_ok m = true) ∧ e_finishes w = [(code, true)]
  ∧ ∃ state, e_state w = Some state ∧ classify (Op r) state = (code, true).

(** What a returned code says about what happened. *)
Definition reported (code : Code) (w : Effects) : Prop :=
  disciplined w
  ∧ (e_intent w = NotIntended → e_mutations w = [])
  ∧ (e_intent w ≠ NotIntended → code = OutcomeUnknown ∨ succeeded code w)
  ∧ (code = Started ∨ code = Stopped ∨ code = Restarted →
       succeeded code w ∨ (e_existing w = Some code ∧ e_mutations w = [] ∧ e_finishes w = []))
  ∧ (code = AlreadyRunning ∨ code = AlreadyStopped →
       e_mutations w = [] ∧ (e_finishes w = [(code, true)] ∨ e_existing w = Some code)).

Lemma disciplined_nil w : e_mutations w = [] → disciplined w.
Proof. by left. Qed.

(** A code that claims no change, before any intent. *)
Definition quiet_code (code : Code) : bool :=
  match code with
  | Started | Stopped | Restarted | AlreadyRunning | AlreadyStopped => false
  | _ => true
  end.

Lemma reported_quiet code w :
  e_mutations w = [] → e_intent w = NotIntended → quiet_code code = true → reported code w.
Proof.
  intros Hm Hi Hc. split; [by left|]. split; [done|]. split; [by rewrite Hi|].
  split; intros Hx; destruct_or! Hx; by subst code.
Qed.

Lemma remaining_spec I c now e (Q : Z → Effects → Prop) w :
  I w → (MinInt64 + 5 * Second < Sub e now) →
  (∀ z, z = 0 ∨ (z ≤ Sub e now ∧ MinInt64 + 5 * Second < z) → Q z w) →
  wpc action_env I (remaining c now e) Q w.
Proof.
  intros HI Hs HQ. apply wpc_call; [done|]. intros expired ? ->.
  destruct expired; [apply wpc_ret; auto|].
  apply wpc_call; [done|]. intros u ? [-> Hu]. apply wpc_ret; [done|]. apply HQ. right.
  destruct u as [u|]; lia.
Qed.

Lemma remaining_now_spec I c (Q : Z → Effects → Prop) w :
  I w → (∀ t, I (set_now w t)) → (∀ t z, Q z (set_now w t)) →
  wpc action_env I (remaining_now c end_) Q w.
Proof.
  intros HI HI' HQ. apply wpc_call; [done|]. intros t ? [Ht ->]. by apply remaining_spec.
Qed.

(** A granted call budget leaves five seconds to the end. *)
Lemma callBudget_spec I c (Q : Z → Effects → Prop) w :
  0 ≤ GraceSeconds r → I w → (∀ t, I (set_now w t)) →
  (∀ t z, (0 < z → GraceSeconds r * Second + 5 * Second ≤ z ≤ 45 * Second
                   ∧ z + 5 * Second ≤ Sub end_ t) → Q z (set_now w t)) →
  wpc action_env I (callBudget_now c end_ (GraceSeconds r)) Q w.
Proof.
  intros Hg HI HI' HQ. apply wpc_call; [done|]. intros t ? [Ht ->].
  unfold callBudget. apply wpc_bind, remaining_spec; [done|done|]. intros z Hz.
  apply wpc_ret; [done|]. apply HQ.
  assert (Sub end_ t ≤ MaxInt64) by (unfold Sub; destruct (readings _ _); unfold sat64, MaxInt64, MinInt64; lia).
  rewrite wrap_i64_id by (unfold MinInt64, MaxInt64, Second in *; lia).
  unfold Second in *. destruct (_ <? _) eqn:E; bools; [lia|]. destruct Hz as [->|Hz]; lia.
Qed.

Abbreviation wpw := (wpc action_env disciplined).

(** The facts established before the engine is called. *)
Record cleared (w : Effects) (code : Code) : Prop := {
  cl_admissible : admissible;
  cl_checks : e_checks w = 2%nat; cl_acquired : e_acquired w = true;
  cl_existing : e_existing w = Some NoCode;
  cl_state : ∃ state, e_state w = Some state ∧ classify (Op r) state = (code, true);
  cl_mutations : e_mutations w = []; cl_finishes : e_finishes w = [] }.

Lemma classify_mutation op state code :
  classify op state = (code, true) → code = Started ∨ code = Stopped ∨ code = Restarted.
Proof. destruct op, state; intros; simplify_eq/=; auto. Qed.

Lemma reported_unknown w :
  disciplined w → e_intent w ≠ NotIntended → reported OutcomeUnknown w.
Proof. intros Hd Hi. split; [done|]. split; [done|]. split; [auto|]. split; intuition congruence. Qed.

Lemma reported_success w code :
  disciplined w → e_intent w ≠ NotIntended → succeeded code w → reported code w.
Proof.
  intros Hd Hi Hs. split; [done|]. split; [done|]. split; [auto|]. split; [auto|].
  destruct Hs as (_ & _ & st & _ & [->|[->| ->]]%classify_mutation); intuition congruence.
Qed.

Lemma mutate_spec w code :
  cleared w code → e_intent w = IntentDurable → 0 ≤ GraceSeconds r →
  wpw (mutate r b end_ code) reported w.
Proof.
  intros Hc Hi Hg. pose proof (cl_mutations _ _ Hc) as Hm.
  assert (Hnow : ∀ t, disciplined (set_now w t)) by (intros; by apply disciplined_nil).
  unfold mutate. apply wpc_bind, callBudget_spec; auto using disciplined_nil. intros t budget Hb.
  destruct (budget <=? 0) eqn:Hz; [apply wpc_ret; [done|]; apply reported_unknown; [done|simpl; by rewrite Hi]|].
  bools. specialize (Hb ltac:(lia)).
  apply wpc_call; [done|]. intros [] ? ->. view.
  apply wpc_call; [by apply disciplined_nil|]. intros started ? [_ ->].
  apply wpc_call; [by apply disciplined_nil|]. intros ok ? ->.
  rewrite Hm. view. cbn [app].
  set (m := MkMutation _ _ _ _ ok).
  assert (Hj : ∀ t' fin, disciplined (MkEffects (e_checks w) (e_acquired w) (e_existing w) (e_state w)
      (e_intent w) [m] fin (e_closes w) t' (Some (t, budget)))).
  { intros. right. exists m. split; [done|]. destruct Hc as [? ? ? ? (st & ? & Hst) _ _].
    repeat split; try done; [exists st; by rewrite Hst|]. exists t, budget. done. }
  assert (Hunk : ∀ t' fin, wpw (Ret OutcomeUnknown) reported (MkEffects (e_checks w) (e_acquired w)
      (e_existing w) (e_state w) (e_intent w) [m] fin (e_closes w) t' (Some (t, budget)))).
  { intros. apply wpc_ret; [done|]. apply reported_unknown; [done|]. simpl. by rewrite Hi. }
  apply wpc_call; [done|]. intros expired ? ->. apply wpc_bind.
  assert (Hrest : ∀ t' late, wpw (if negb ok || late then Ret OutcomeUnknown
      else Call (AFinish code) (λ finished, if negb finished then Ret OutcomeUnknown
           else bind (remaining_now Bounded end_)
                  (λ left, Ret (if left <=? 0 then OutcomeUnknown else code)))) reported
      (MkEffects (e_checks w) (e_acquired w) (e_existing w) (e_state w) (e_intent w) [m]
         (e_finishes w) (e_closes w) t' (Some (t, budget)))).
  { intros t' late. destruct ok; simpl; [|done]. destruct late; [done|].
    apply wpc_call; [done|]. intros finished ? ->. rewrite (cl_finishes _ _ Hc). simpl.
    destruct finished; simpl; [|done]. apply wpc_bind, remaining_now_spec; [done|intros; apply Hj|].
    intros t2 left. destruct (left <=? 0); [apply Hunk|]. apply wpc_ret; [apply Hj|].
    apply reported_success; [apply Hj|simpl; by rewrite Hi|].
    split; [by exists m|]. split; [done|]. apply (cl_state _ _ Hc). }
  destruct expired; [apply wpc_ret; [done|apply Hrest]|].
  apply wpc_call; [done|]. intros t2 ? [_ ->].
  destruct (_ <=? _); [apply wpc_ret; [apply Hj|apply Hrest]|].
  apply wpc_bind, remaining_now_spec; [apply Hj|intros; apply Hj|]. intros t3 left.
  apply wpc_ret; [apply Hj|apply Hrest].
Qed.

(** Before the intent nothing has been changed or finished. *)
Record waiting (w : Effects) : Prop := {
  wt_mutations : e_mutations w = []; wt_intent : e_intent w = NotIntended;
  wt_finishes : e_finishes w = [] }.

Lemma waiting_now w t : waiting w → waiting (set_now w t).
Proof. intros []. by split. Qed.
Lemma waiting_disciplined w : waiting w → disciplined w.
Proof. intros []. by left. Qed.
Hint Resolve waiting_now waiting_disciplined : observer.

Lemma quiet_spec code w :
  waiting w → quiet_code code = true →
  wpw (Ret code) reported w.
Proof. intros [Hm Hi _] Hc. apply wpc_ret; [by left|by apply reported_quiet]. Qed.

Ltac quiet := apply quiet_spec; [eauto with observer | done].

(** A budget check on the way: give up quietly or go on. *)
Lemma checkpoint_spec w (k : prog ActionCall Code) :
  waiting w → (∀ t, wpw k reported (set_now w t)) →
  wpw (bind (remaining_now Bounded end_)
         (λ left, if left <=? 0 then Ret BudgetExceeded else k)) reported w.
Proof.
  intros Hw Hk. apply wpc_bind, remaining_now_spec; eauto with observer.
  intros t left. destruct (left <=? 0); [quiet|apply Hk].
Qed.

Lemma decide_action_spec w state :
  waiting w → 0 ≤ GraceSeconds r → admissible →
  e_checks w = 2%nat → e_acquired w = true → e_existing w = Some NoCode → e_state w = Some state →
  wpw (decide_action r b end_ state) reported w.
Proof.
  intros Hw Hg Hv Hck Ha He Hs. unfold decide_action.
  destruct (classify (Op r) state) as [code mutates] eqn:Hc. pose proof Hw as [Hm Hi Hf].
  destruct mutates; simpl.
  - apply wpc_bind, callBudget_spec; eauto with observer. intros t budget _.
    destruct (budget <=? 0); [quiet|]. apply wpc_call; [eauto with observer|].
    intros intended ? ->. view. destruct intended; simpl.
    + apply mutate_spec; [|done|done]. split; simpl; eauto.
    + apply wpc_ret; [by left|]. apply reported_unknown; [by left|done].
  - apply wpc_call; [eauto with observer|]. intros finished ? ->. view. rewrite Hf. cbn [app].
    destruct finished; simpl.
    + apply wpc_bind, remaining_now_spec; [by left|by left|]. intros t left.
      assert (Hq : ∀ c, c = code ∨ c = BudgetExceeded → reported c
         (MkEffects (e_checks w) (e_acquired w) (e_existing w) (e_state w) (e_intent w)
            (e_mutations w) [(code, true)] (e_closes w) t (e_budget w))).
      { intros c Hcode. split; [by left|]. split; [done|]. simpl. split; [by rewrite Hi|].
        destruct (Op r), state; simplify_eq/=; destruct Hcode as [->| ->]; intuition congruence. }
      apply wpc_ret; [by left|]. view. destruct (left <=? 0); apply Hq; auto.
    + apply wpc_ret; [by left|]. by apply reported_quiet; [..|done].
Qed.

Lemma retained_spec w code :
  waiting w → e_existing w = Some code →
  wpw (Ret (if retained code (Op r) then code else Unavailable)) reported w.
Proof.
  intros Hw He. destruct (retained code (Op r)) eqn:Hr; [|quiet].
  apply wpc_ret; [eauto with observer|]. destruct Hw as [Hm Hi Hf].
  split; [by left|]. split; [done|]. rewrite Hi, Hf, He, Hm. split; [done|].
  split; intros; auto.
Qed.

Lemma attempt_spec w :
  waiting w → 0 ≤ GraceSeconds r → admissible →
  e_checks w = 1%nat → e_acquired w = true → wpw (attempt r b end_) reported w.
Proof.
  intros Hw Hg Hv Hck Ha. unfold attempt. apply checkpoint_spec; [done|]. intros t1.
  apply wpc_call; [eauto with observer|]. intros existing ? ->. view. pose proof Hw as [Hm Hi Hf].
  apply checkpoint_spec; [by split|]. intros t2. view.
  destruct (existing != NoCode) eqn:He; [by apply retained_spec; [split|]|]. bools. subst existing.
  apply wpc_call; [by left|]. intros state ? ->. view.
  destruct state as [state|]; [|apply quiet_spec; [by split|done]].
  apply checkpoint_spec; [by split|]. intros t3. view.
  apply wpc_call; [by left|]. intros authorized ? ->. view.
  destruct authorized; simpl; [|apply quiet_spec; [by split|done]].
  apply checkpoint_spec; [by split|]. intros t4. view.
  apply decide_action_spec; auto; [by split|]. simpl. by rewrite Hck.
Qed.

Lemma valid_grace now : valid r b now = true → 0 ≤ GraceSeconds r.
Proof. unfold valid. intros Hv. bools. case_bool_decide; bools; lia. Qed.

(** Between acquiring and closing, the attempt is neither closed nor acquired again. *)
Definition holding (A : Type) (e : ActionCall A) : Prop :=
  match e with AClose | AAcquire _ => False | _ => True end.

Lemma remaining_holding c now e : only holding (remaining c now e).
Proof. unfold remaining. split; [exact I|]. intros []; [exact I|]. split; [exact I|]. by intros. Qed.
Lemma remaining_now_holding c e : only holding (remaining_now c e).
Proof. split; [exact I|]. intros. apply remaining_holding. Qed.
Lemma callBudget_now_holding c e g : only holding (callBudget_now c e g).
Proof. split; [exact I|]. intros. apply only_bind; [apply remaining_holding|]. by intros. Qed.

Ltac frame :=
  repeat match goal with
  | |- only _ (Ret _) => exact I
  | |- only _ (remaining_now _ _) => apply remaining_now_holding
  | |- only _ (callBudget_now _ _ _) => apply callBudget_now_holding
  | |- only _ (bind _ _) => apply only_bind; [|intros]
  | |- only _ (Call _ _) => split; [exact I|intros]
  | _ => case_match
  end.

Lemma attempt_holding e : only holding (attempt r b e).
Proof. unfold attempt, decide_action, mutate. frame. Qed.

Lemma attempt_held w :
  e_closes w = 0%nat ∧ e_acquired w = true →
  wpc action_env (λ w, e_closes w = 0%nat ∧ e_acquired w = true) (attempt r b end_)
    (λ _ w, e_closes w = 0%nat ∧ e_acquired w = true) w.
Proof.
  apply (only_frame action_env holding (λ w, e_closes w = 0%nat ∧ e_acquired w = true)); [apply attempt_holding|].
  intros A e u a u' Hh He [Hc Ha]. destruct e; try done; simpl in He; destruct_and? He; by subst.
Qed.

Definition settled (code : Code) (w : Effects) : Prop :=
  reported code w ∧ e_closes w = (if e_acquired w then 1 else 0)%nat.

Lemma settled_quiet code w :
  waiting w → e_acquired w = false → e_closes w = 0%nat → quiet_code code = true →
  wpw (Ret code) settled w.
Proof.
  intros [Hm Hi _] Ha Hc Hq. apply wpc_ret; [by left|]. split; [by apply reported_quiet|].
  by rewrite Ha.
Qed.

Lemma Execute_wpc wired t0 :
  wpc action_env disciplined (Execute wired r b d) settled (untouched t0).
Proof.
  unfold Execute. apply wpc_call; [by left|]. intros now ? [Hnow ->].
  assert (Hw : waiting (set_now (untouched t0) now)) by done.
  destruct (valid r b now) eqn:Hv; cbn [negb]; [|by apply settled_quiet].
  destruct wired; cbn [negb]; [|by apply settled_quiet].
  destruct (delivery_ok d now) eqn:Hd; cbn [negb]; [|by apply settled_quiet].
  assert (Hadm : admissible) by by exists now. assert (Hg := valid_grace _ Hv).
  apply wpc_bind, remaining_spec; [by left|done|]. intros budget _.
  destruct (budget <=? 0); [by apply settled_quiet|].
  apply wpc_call; [by left|]. intros [] ? ->. view.
  apply wpc_call; [by left|]. intros authorized ? ->. view.
  destruct authorized; cbn [negb]; [|by apply settled_quiet].
  apply wpc_bind, remaining_now_spec; [by left|by left|]. intros t left. view.
  destruct (left <=? 0); [by apply settled_quiet|].
  destruct (NewJournalKey r b) as [key|]; [|by apply settled_quiet].
  apply wpc_call; [by left|]. intros acquired ? ->. view.
  destruct acquired; try (by apply settled_quiet).
  set (w := MkEffects _ true _ _ _ _ _ _ _ _).
  apply wpc_bind. eapply wpc_mono with (I := λ w, disciplined w ∧ (e_closes w = 0%nat ∧ e_acquired w = true))
    (Q := λ code w, reported code w ∧ (e_closes w = 0%nat ∧ e_acquired w = true)).
  - by intros ? [? _].
  - intros code w' [Hr [Hc Ha]]. apply wpc_call; [apply Hr|]. intros [] ? ->.
    apply wpc_ret; [apply Hr|]. split; [exact Hr|]. simpl. by rewrite Hc, Ha.
  - apply wpc_conj; [by apply attempt_spec|by apply attempt_held].
Qed.

(** ** Claims *)

(** C6: What [Execute] does and what its code says.  In every behaviour of the
    clock, contexts, authority, journal and engine: at any moment at most one
    mutation has been issued, and only for the requested operation, container and
    grace period of a valid, timely request, after two authority checks, with the
    journal attempt held, nothing recorded for the action before, a state that
    calls for it and a durable intent, under a timeout of at least grace plus
    five and at most forty-five seconds that ends five seconds before the
    execution's end.  Afterwards: once an intent was attempted the code is
    [OutcomeUnknown], or the success code of a mutation that returned nil and
    was recorded; a success code without a mutation is the journal's retained
    one; and the attempt was closed exactly once if it was acquired. *)
Theorem Execute_disciplined wired t0 :
  wpc action_env disciplined (Execute wired r b d) settled (untouched t0).
Proof. apply Execute_wpc. Qed.
End worker.

(** ** Progress on a cooperating host *)

(** Everything answers at once and favourably; the clock reads a fixed time and
    the container is in a given state. *)
Definition calm (now : time) (state : State) (A : Type) (e : ActionCall A)
    (log : list (Operation * string * Z) * list Code) :
    A * (list (Operation * string * Z) * list Code) :=
  match e in ActionCall T return T * _ with
  | ANow => (now, log)
  | ACtxErr _ => (false, log)
  | AUntil _ => (None, log)
  | AWithTimeout _ _ => (tt, log)
  | ACheck => (true, log)
  | AAcquire _ => (Acquired, log)
  | AExisting => (NoCode, log)
  | AInspect _ => (Some state, log)
  | AIntent => (true, log)
  | AEngine op container grace => (true, (log.1 ++ [(op, container, grace)], log.2))
  | AFinish code => (true, (log.1, log.2 ++ [code]))
  | AClose => (tt, log)
  end.

Section progress.
Variables (r : Request) (b : Binding) (d : Delivery) (now : time) (state : State).
Let end_ : time := execution_end r d.
Abbreviation go p log := (run (calm now state) p log).

Lemma remaining_calm c log : go (remaining_now c end_) log = (Sub end_ now, log).
Proof. done. Qed.

Lemma callBudget_calm c g log :
  0 ≤ g ≤ 30 → g * Second + 10 * Second ≤ Sub end_ now →
  ∃ budget, g * Second + 5 * Second ≤ budget ≤ 45 * Second ∧ go (callBudget_now c end_ g) log = (budget, log).
Proof.
  intros Hg Hs. unfold callBudget_now, callBudget. cbn [run calm].
  rewrite run_bind. unfold remaining. cbn [run calm].
  assert (Sub end_ now ≤ MaxInt64) by (unfold Sub; destruct (readings _ _); unfold sat64, MaxInt64, MinInt64; lia).
  rewrite wrap_i64_id by (unfold MinInt64, Second in *; lia).
  replace (_ <? _) with false by (unfold Second in *; lia).
  eexists. split; [|done]. unfold Second in *. lia.
Qed.

(** C38: An admissible action on a responsive host is carried out.  With a valid,
    timely request, a container in a state that calls for the operation and at
    least its grace period plus ten seconds to the end, the engine is called
    exactly once with the requested operation, container and grace period, and
    the code reported is the one recorded in the journal. *)
Theorem Execute_carries_out key code :
  valid r b now = true → delivery_ok d now = true → NewJournalKey r b = Some key →
  classify (Op r) state = (code, true) →
  0 ≤ GraceSeconds r ≤ 30 → GraceSeconds r * Second + 10 * Second ≤ Sub end_ now →
  go (Execute true r b d) ([], []) = (code, ([(Op r, b_ContainerID b, GraceSeconds r)], [code])).
Proof.
  intros Hv Hd Hk Hc Hg Hs.
  assert (Hpos : (Sub end_ now <=? 0) = false) by (unfold Second in *; lia).
  unfold Execute. cbn [run calm]. rewrite Hv, Hd. cbn [negb]. rewrite run_bind.
  unfold remaining. cbn [run calm]. fold end_. rewrite Hpos. cbn [run calm negb].
  rewrite run_bind, remaining_calm, Hpos, Hk. cbn [run calm]. rewrite run_bind.
  unfold attempt. rewrite run_bind, remaining_calm, Hpos. cbn [run calm].
  rewrite run_bind, remaining_calm, Hpos. rewrite bool_decide_eq_true_2 by done. cbn [negb run calm].
  rewrite run_bind, remaining_calm, Hpos. cbn [run calm negb].
  rewrite run_bind, remaining_calm, Hpos. unfold decide_action. rewrite Hc. cbn [negb].
  destruct (callBudget_calm Bounded (GraceSeconds r) ([], []) Hg Hs) as (budget & Hb & Hrun).
  assert (Hbp : (budget <=? 0) = false) by (unfold Second in *; lia).
  rewrite run_bind, Hrun, Hbp. cbn [run calm negb]. unfold mutate.
  rewrite run_bind, Hrun, Hbp. cbn [run calm]. rewrite run_bind. cbn [run calm].
  replace (Sub now now) with 0 by (unfold Sub, readings; destruct (mono now); by rewrite Z.sub_diag).
  rewrite Hbp, run_bind, remaining_calm. cbn [run].
  replace (Sub end_ now <=? 5 * Second) with false by (unfold Second in *; lia). cbn [negb orb run calm].
  rewrite run_bind, remaining_calm. cbn [run]. by rewrite Hpos.
Qed.
End progress.

(** ** Witnesses *)

Import ActionSample.

Definition sample_now : time := At (63800000010 * Second).
Definition sample_delivery : Delivery :=
  MkDelivery (At (63800000005 * Second)) (At (63800000006 * Second)) (At (63800000200 * Second)).

Lemma Execute_carries_out_witness :
  run (calm sample_now Running) (Execute true request binding sample_delivery) ([], [])
  = (Stopped, ([(Stop, b_ContainerID binding, 10)], [Stopped])).
Proof.
  apply (Execute_carries_out request binding sample_delivery sample_now Running key Stopped).
  - vm_compute. reflexivity.
  - vm_compute. reflexivity.
  - vm_compute. reflexivity.
  - reflexivity.
  - vm_compute. split; discriminate.
  - vm_compute. discriminate.
Defined.
