(* ===== verification/ActionBudget.v ===== *)
(** * Local time budgets of an action ([internal/actionbudget])

    Every deadline of an action is measured on the boot clock of one process,
    from stamps captured before the claim left; a stamp pairs that clock with the
    Go monotonic clock and the wall clock, and two stamps are trusted together
    only if the three clocks advanced alike.  The operations are functions of the
    readings they capture and of the context states they observe: [expired] and
    [expired'] stand for [ctx.Err() != nil] before and after the capture.  A
    clock is identified by a number; no stamp with clock [0] (nil) is trusted. *)

From S2P Require Import Prelude GoTime.
From S2P Require ActionCore ActionWorker.
Import ActionCore (Delivery, MkDelivery, StartedAt, ReceivedAt, LeaseDeadline, Operation).

Definition continuity : Z := 100 * Millisecond.
Definition skew : Z := 4900 * Millisecond.

(** [int64] subtraction and addition of durations. *)
Definition sub64 (a b : Z) : Z := wrap_i64 (a - b).
Definition add64 (a b : Z) : Z := wrap_i64 (a + b).

Record reading := MkReading { goTime : time; wallTime : time; boot : Z }.
Record Stamp := MkStamp { s_clock : Z; s_reading : reading }.
Definition s_go (s : Stamp) : time := goTime (s_reading s).
Definition s_wall (s : Stamp) : time := wallTime (s_reading s).
Definition s_boot (s : Stamp) : Z := boot (s_reading s).

Record Readiness := MkReadiness { rd_clock : Z; rd_origin : Stamp; rd_recv : Stamp }.
Record Conversation := MkConversation {
  cv_clock : Z; cv_readiness : Readiness; cv_start : Stamp; cv_used : bool }.
Record budget := MkBudget {
  g_clock : Z; g_origin : Stamp; g_deadline : Z; g_actionID : string; g_digest : string;
  g_containerID : string; g_operation : Operation }.
Record Execution := MkExecution { ex_guard : budget; ex_delivery : Delivery; ex_start : Stamp }.

(** [nativeReading]: [time.Now] and [CLOCK_BOOTTIME]. *)
Definition nativeReading (now : time) (gettime : option (Z * Z)) : option reading :=
  match gettime with
  | None => None
  | Some (sec, nsec) =>
      if (sec <? 0) || (nsec <? 0) || (Second <=? nsec) || (MaxInt64 / Second <? sec) then None
      else Some (MkReading now (UTC now) (add64 (wrap_i64 (sec * Second)) nsec))
  end.

(** [Clock.Capture] of clock [c] when its source reads [r]. *)
Definition Capture (c : Z) (r : option reading) : option Stamp :=
  match r with
  | None => None
  | Some r =>
      if (c =? 0) || IsZero (goTime r) || IsZero (wallTime r) || (boot r <? 0)
         || (MaxInt64 - 134 * Second <? boot r)
      then None else Some (MkStamp c r)
  end.

Definition continuousWithin (from to : Stamp) (maximum : Z) : bool :=
  if (s_clock from =? 0) || negb (s_clock from =? s_clock to) || (s_boot to <? s_boot from)
     || Before (s_wall to) (s_wall from)
  then false
  else
    let elapsed := sub64 (s_boot to) (s_boot from) in
    if maximum <? elapsed then false
    else
      let mono := Sub (s_go to) (s_go from) in
      let wall := Sub (s_wall to) (s_wall from) in
      (0 <=? mono) && (sub64 elapsed continuity <=? mono) && (mono <=? add64 elapsed continuity)
      && (sub64 elapsed continuity <=? wall) && (wall <=? add64 elapsed continuity).

Definition continuous (from to : Stamp) : bool := continuousWithin from to (134 * Second).

Definition reportContinuous (from to : Stamp) : bool :=
  (sub64 (s_boot to) (s_boot from) <? 5 * Second + 15 * Second + 119 * Second)
  && continuousWithin from to (139 * Second).

Definition serverBracket (server : time) (send recv : Stamp) : bool :=
  continuous send recv && negb (IsZero server)
  && (- skew <=? Sub server (s_wall recv)) && (Sub server (s_wall send) <=? skew).

Definition ObserveServerTime (c : Z) (server : time) (send recv : Stamp) : option Readiness :=
  if negb (s_clock send =? c) || negb (s_clock recv =? c) || negb (serverBracket server send recv)
  then None else Some (MkReadiness c send recv).

Definition ObserveControlTime (c : Z) (server : time) (send recv : Stamp) : option Readiness :=
  if negb (s_clock send =? c) || negb (s_clock recv =? c) || negb (continuous send recv)
     || (5 * Second <=? sub64 (s_boot recv) (s_boot send))
  then None else ObserveServerTime c server send recv.

Definition Begin (c : Z) (read : option reading) (r : Readiness) : option Conversation :=
  match Capture c read with
  | None => None
  | Some now =>
      if negb (rd_clock r =? c) || negb (continuous (rd_origin r) now)
         || (15 * Second <? sub64 (s_boot now) (s_boot (rd_recv r)))
         || (s_boot now <? s_boot (rd_recv r))
      then None else Some (MkConversation c r now false)
  end.

(** What [AcceptClaim] learns of a claim from [actionprotocol]: whether its
    encoding decodes back to itself, its parsed claim time and its receipt
    digest. *)
Record ClaimView := MkClaim {
  cl_valid : bool; cl_claimed : option time; cl_digest : option string;
  cl_actionID : string; cl_operation : Operation }.

(** The 64 lower-case hexadecimal digits of a full container id. *)
Definition fullID (s : string) : bool := ActionCore.hex s 64.
Definition actionID (s : string) : bool := match_pattern "hla_" is_lower_hex 32 s.

Definition use (c : Conversation) : Conversation :=
  MkConversation (cv_clock c) (cv_readiness c) (cv_start c) true.

Definition AcceptClaim (c : Conversation) (read : option reading) (claim : ClaimView)
    (rtt : Z) (containerID : string) : Conversation * option Execution :=
  if cv_used c then (c, None)
  else
    let c := use c in
    let start := cv_start c in
    match Capture (cv_clock c) read, cl_claimed claim with
    | Some now, Some claimed =>
        let elapsed := sub64 (s_boot now) (s_boot start) in
        if negb (cl_valid claim) || negb (continuous (rd_origin (cv_readiness c)) now)
           || (30 * Second <=? elapsed) || (s_boot now <? s_boot start)
           || (rtt <? 0) || (30 * Second <? rtt) || (elapsed <? rtt)
           || negb (serverBracket claimed start now) || negb (fullID containerID)
        then (c, None)
        else match cl_digest claim with
        | None => (c, None)
        | Some digest =>
            let end_ := add64 (s_boot start) (Z.min (89 * Second) (add64 rtt (60 * Second))) in
            if end_ <=? s_boot now then (c, None)
            else (c, Some (MkExecution
              (MkBudget (cv_clock c) (rd_origin (cv_readiness c)) end_ (cl_actionID claim) digest
                 containerID (cl_operation claim))
              (MkDelivery (s_go start) (Add (s_go start) rtt) (Add (s_go start) (119 * Second)))
              start))
        end
    | _, _ => (c, None)
    end.

(** [checked]: the budget in the context, if it still holds. *)
Definition checked (guard : option budget) (expired expired' : bool) (read : option reading) : option budget :=
  match guard with
  | None => None
  | Some b =>
      if expired then None
      else match Capture (g_clock b) read with
      | None => None
      | Some now =>
          if expired' || negb (continuous (g_origin b) now) || (g_deadline b <=? s_boot now)
             || (134 * Second <? sub64 (s_boot now) (s_boot (g_origin b)))
          then None else Some b
      end
  end.

Definition CheckExecution (guard : option budget) (expired expired' : bool) (read : option reading)
    (actionID digest : string) : bool :=
  match checked guard expired expired' read with
  | None => false
  | Some b => str_eqb (g_actionID b) actionID && str_eqb (g_digest b) digest
  end.

Definition CheckMutation (guard : option budget) (expired expired' : bool) (read : option reading)
    (containerID : string) (operation : Operation) : bool :=
  match checked guard expired expired' read with
  | None => false
  | Some b => str_eqb (g_containerID b) containerID && (g_operation b == operation)
  end.

Definition CheckDecision (e : Execution) (send recv : Stamp) (checkedAt : time)
    (read : option reading) : bool :=
  let g := ex_guard e in
  (s_clock send =? g_clock g) && (s_clock recv =? g_clock g)
  && continuous (g_origin g) send && continuous (g_origin g) recv
  && serverBracket checkedAt send recv && (sub64 (s_boot recv) (s_boot send) <? 5 * Second)
  && CheckExecution (Some g) false false read (g_actionID g) (g_digest g).

Definition CheckDelivery (c : Conversation) (expired expired' : bool) (read : option reading) : bool :=
  if expired || cv_used c || negb (rd_clock (cv_readiness c) =? cv_clock c)
     || negb (s_clock (cv_start c) =? cv_clock c) then false
  else match Capture (cv_clock c) read with
  | None => false
  | Some now =>
      negb expired' && continuous (rd_origin (cv_readiness c)) now && continuous (cv_start c) now
      && (sub64 (s_boot now) (s_boot (cv_start c)) <? 30 * Second)
  end.

(** [deadline]: the parent's deadline, if it has one. *)
Definition CheckQuiescence (c : Z) (expired expired' : bool) (original : Stamp)
    (deadline : option time) (read : option reading) : bool :=
  if expired || negb (s_clock original =? c) then false
  else
    let limit := match deadline with
                 | None => 75 * Second
                 | Some at' => Z.min (75 * Second) (Sub at' (s_go original))
                 end in
    match Capture c read with
    | None => false
    | Some now =>
        negb expired' && continuous original now && (0 <? limit)
        && (sub64 (s_boot now) (s_boot original) <? limit)
    end.

Definition CheckReport (e : Execution) (expired expired' : bool) (read : option reading) : bool :=
  let g := ex_guard e in
  if expired || negb (actionID (g_actionID g)) || negb (s_clock (ex_start e) =? g_clock g)
     || negb (continuous (g_origin g) (ex_start e)) then false
  else match Capture (g_clock g) read with
  | None => false
  | Some now =>
      negb expired' && reportContinuous (g_origin g) now && negb (s_boot now <? s_boot (ex_start e))
      && (sub64 (s_boot now) (s_boot (ex_start e)) <? 119 * Second)
  end.

(** ** Stamps *)

(** A stamp as [Capture] returns it from a native reading: the Go time carries a
    monotonic reading, the wall time is its UTC projection. *)
Record native (s : Stamp) : Prop := {
  nt_clock : s_clock s ≠ 0;
  nt_boot : 0 ≤ s_boot s ≤ MaxInt64 - 134 * Second;
  nt_mono : ∃ m, mono (s_go s) = Some m ∧ 0 ≤ m ≤ MaxInt64 - 200 * Second;
  nt_wall : s_wall s = UTC (s_go s) }.

(** A native source: its readings, once captured, are native stamps. *)
Definition native_reading (r : reading) : Prop :=
  (∃ m, mono (goTime r) = Some m ∧ 0 ≤ m ≤ MaxInt64 - 200 * Second)
  ∧ wallTime r = UTC (goTime r).

Lemma Capture_inv c r s :
  Capture c (Some r) = Some s →
  s = MkStamp c r ∧ c ≠ 0 ∧ 0 ≤ boot r ≤ MaxInt64 - 134 * Second
  ∧ IsZero (goTime r) = false.
Proof.
  unfold Capture. destruct (_ || _) eqn:E; [done|]. intros [= <-]. bools.
  repeat split; auto; lia.
Qed.

Lemma Capture_native c r s : native_reading r → Capture c (Some r) = Some s → native s.
Proof. intros [Hm Hw] (-> & Hc & Hb & _)%Capture_inv. by split. Qed.

Lemma sub64_exact a b : 0 ≤ a ≤ MaxInt64 → 0 ≤ b ≤ MaxInt64 → sub64 a b = a - b.
Proof. intros. apply wrap_i64_id. unfold MinInt64, MaxInt64 in *. lia. Qed.

(** The monotonic reading of a native stamp. *)
Definition ticks (s : Stamp) : Z := default 0 (mono (s_go s)).

Lemma native_ticks s : native s → mono (s_go s) = Some (ticks s) ∧ 0 ≤ ticks s ≤ MaxInt64 - 200 * Second.
Proof. intros [_ _ (m & Hm & ?) _]. unfold ticks. by rewrite Hm. Qed.

Lemma Sub_native s s' : native s → native s' → Sub (s_go s') (s_go s) = ticks s' - ticks s.
Proof.
  intros [H1 ?]%native_ticks [H2 ?]%native_ticks. unfold Sub, readings. rewrite H1, H2.
  apply sat64_id. unfold MinInt64, MaxInt64, Second in *. lia.
Qed.

(** Continuity bounds the disagreement of the clocks. *)
Lemma continuousWithin_bounds from to maximum :
  native from → native to → 0 ≤ maximum ≤ 139 * Second → continuousWithin from to maximum = true →
  let elapsed := s_boot to - s_boot from in
  0 ≤ elapsed ≤ maximum
  ∧ elapsed - continuity ≤ ticks to - ticks from ≤ elapsed + continuity
  ∧ 0 ≤ ticks to - ticks from
  ∧ elapsed - continuity ≤ wall (s_wall to) - wall (s_wall from) ≤ elapsed + continuity
  ∧ s_clock from = s_clock to.
Proof.
  intros Hf Ht Hmax. unfold continuousWithin.
  pose proof (nt_boot _ Hf). pose proof (nt_boot _ Ht).
  rewrite sub64_exact by (unfold MaxInt64, Second in *; lia). rewrite Sub_native by done.
  rewrite (nt_wall _ Hf), (nt_wall _ Ht), Sub_wall_l by done.
  destruct (_ || _) eqn:E1; [done|]. destruct (maximum <? _) eqn:E2; [done|]. intros Hb. bools.
  unfold sub64, add64 in *. unfold continuity, Millisecond, Second, MaxInt64 in *.
  rewrite !wrap_i64_id in * by (unfold MinInt64, MaxInt64; lia).
  rewrite Before_wall_l in * by done. bools. simpl in *.
  unfold sat64, MinInt64, MaxInt64 in *. repeat split; try lia; auto.
Qed.

Lemma continuous_bounds from to :
  native from → native to → continuous from to = true →
  0 ≤ s_boot to - s_boot from ≤ 134 * Second
  ∧ Z.abs ((ticks to - ticks from) - (s_boot to - s_boot from)) ≤ continuity
  ∧ Z.abs ((wall (s_wall to) - wall (s_wall from)) - (s_boot to - s_boot from)) ≤ continuity
  ∧ s_clock from = s_clock to.
Proof.
  intros Hf Ht Hc. destruct (continuousWithin_bounds _ _ (134 * Second) Hf Ht ltac:(unfold Second; lia) Hc)
    as (H1 & H2 & _ & H3 & H4). repeat split; auto; lia.
Qed.

(** ** Claims *)

(** A server timestamp accepted against a send/receive bracket is within 4.9
    seconds of the local wall clock at every instant of the exchange, and the
    exchange took at most 134 seconds on the boot clock. *)
Theorem server_bracket_bounds_skew server send recv w :
  native send → native recv → wallclock server → serverBracket server send recv = true →
  wall (s_wall send) ≤ w ≤ wall (s_wall recv) →
  Z.abs (wall server - w) ≤ skew ∧ 0 ≤ s_boot recv - s_boot send ≤ 134 * Second.
Proof.
  intros Hs Hr Hw Hb Hin. unfold serverBracket in Hb. bools.
  destruct (continuous_bounds _ _ Hs Hr ltac:(done)) as (He & _).
  rewrite !Sub_wall_l in * by done. split; [|done].
  unfold sat64, skew, Millisecond, MinInt64, MaxInt64 in *. lia.
Qed.

(** The instants that bound an execution by its delivery alone. *)
Definition delivery_end (d : Delivery) : time :=
  ActionCore.earliest (Add (StartedAt d) (90 * Second))
    [Add (ReceivedAt d) Minute; Add (LeaseDeadline d) (- 30 * Second)].

(** The delivery an accepted claim carries, and its guard. *)
Lemma AcceptClaim_inv c read claim rtt id c' e :
  AcceptClaim c read claim rtt id = (c', Some e) →
  ∃ now claimed, Capture (cv_clock c) read = Some now ∧ cl_claimed claim = Some claimed
  ∧ cv_used c = false ∧ c' = use c
  ∧ continuous (rd_origin (cv_readiness c)) now = true
  ∧ serverBracket claimed (cv_start c) now = true
  ∧ 0 ≤ rtt ≤ 30 * Second
  ∧ g_origin (ex_guard e) = rd_origin (cv_readiness c) ∧ g_clock (ex_guard e) = cv_clock c
  ∧ g_deadline (ex_guard e) = add64 (s_boot (cv_start c)) (Z.min (89 * Second) (add64 rtt (60 * Second)))
  ∧ g_containerID (ex_guard e) = id ∧ g_operation (ex_guard e) = cl_operation claim
  ∧ fullID id = true ∧ ex_start e = cv_start c
  ∧ ex_delivery e = MkDelivery (s_go (cv_start c)) (Add (s_go (cv_start c)) rtt)
                      (Add (s_go (cv_start c)) (119 * Second)).
Proof.
  unfold AcceptClaim. destruct (cv_used c) eqn:Hu; [done|]. cbn [use cv_clock cv_start cv_readiness].
  destruct (Capture (cv_clock c) read) as [now|]; [|done].
  destruct (cl_claimed claim) as [claimed|]; [|done]. destruct (_ || _) eqn:E; [done|].
  destruct (cl_digest claim); [|done]. destruct (_ <=? s_boot now); [done|]. intros [= <- <-]. bools.
  exists now, claimed. repeat split; auto; lia.
Qed.

(** A conversation as [Begin] opens it on a native clock. *)
Record begun (c : Conversation) : Prop := {
  bg_start : native (cv_start c); bg_origin : native (rd_origin (cv_readiness c));
  bg_clock : s_clock (cv_start c) = cv_clock c;
  bg_continuous : continuous (rd_origin (cv_readiness c)) (cv_start c) = true;
  bg_unused : cv_used c = false }.

Lemma Begin_begun c r rd conv :
  native_reading r → native (rd_origin rd) → Begin c (Some r) rd = Some conv → begun conv.
Proof.
  intros Hr Ho. unfold Begin. destruct (Capture c (Some r)) as [now|] eqn:Hc; [|done].
  destruct (_ || _) eqn:E; [done|]. intros [= <-]. bools. split; simpl; auto.
  - by eapply Capture_native.
  - by apply Capture_inv in Hc as (-> & _).
Qed.

(** The end the delivery imposes, on the monotonic clock of the start. *)
Lemma delivery_end_ticks start rtt :
  native start → 0 ≤ rtt ≤ 30 * Second →
  mono (delivery_end (MkDelivery (s_go start) (Add (s_go start) rtt) (Add (s_go start) (119 * Second))))
  = Some (ticks start + Z.min (89 * Second) (rtt + 60 * Second)).
Proof.
  intros Hn Hr. destruct (native_ticks _ Hn) as [Hm Hb].
  destruct (s_go start) as [w [|z]] eqn:Hg; [done|]. cbn in Hm. subst z.
  unfold delivery_end, ActionCore.earliest. cbn [fold_left StartedAt ReceivedAt LeaseDeadline].
  assert (Hadd : ∀ x k, MinInt64 ≤ x + k ≤ MaxInt64 → ∀ u,
    Add (Time u (InLocal (Some x))) k = Time (u + k) (InLocal (Some (x + k)))).
  { intros x k Hk u. unfold Add. cbn [clock wall]. unfold in_i64.
    by replace ((MinInt64 <=? x + k) && (x + k <=? MaxInt64)) with true by lia. }
  rewrite !Hadd by (unfold MinInt64, MaxInt64, Minute, Second in *; lia).
  unfold Before, readings. cbn [mono clock wall]. unfold Minute, Second in *.
  repeat (case_match; cbn [mono clock] in *; simplify_eq); bools; f_equal; lia.
Qed.

(** The guard of an accepted claim and the worker's own deadline agree.  A
    claim accepted in a conversation begun on a native clock yields a delivery
    that starts at the conversation's start and took at most thirty seconds; and
    whenever a later mutation check passes, it is for exactly that claim's
    operation and container, less than 89 seconds after the start on the boot
    clock, and no more than 200 milliseconds past the end that the delivery
    imposes on the worker, on the monotonic clock. *)
Theorem mutation_check_within_delivery c read claim rtt id c' e r expired expired' id' op :
  begun c → AcceptClaim c read claim rtt id = (c', Some e) →
  native_reading r → CheckMutation (Some (ex_guard e)) expired expired' (Some r) id' op = true →
  0 ≤ Sub (ReceivedAt (ex_delivery e)) (StartedAt (ex_delivery e)) ≤ 30 * Second
  ∧ id' = id ∧ op = cl_operation claim
  ∧ boot r < s_boot (cv_start c) + 89 * Second
  ∧ Sub (goTime r) (delivery_end (ex_delivery e)) ≤ 2 * continuity.
Proof.
  intros [Hst Ho Hclk Hc0 _] Ha Hr Hcheck.
  destruct (AcceptClaim_inv _ _ _ _ _ _ _ Ha) as
    (now & claimed & _ & _ & _ & _ & _ & _ & Hrtt & Hgo & Hgc & Hgd & Hgi & Hgop & _ & _ & Hdel).
  unfold CheckMutation, checked in Hcheck. destruct expired; [done|].
  destruct (Capture _ (Some r)) as [s|] eqn:Hs; [|done]. destruct (_ || _) eqn:E; [done|].
  pose proof (Capture_native _ _ _ Hr Hs) as Hns. apply Capture_inv in Hs as (-> & _ & Hboot & _).
  bools. rewrite Hgo in *.
  destruct (continuous_bounds _ _ Ho Hst Hc0) as (He1 & Ht1 & _).
  destruct (continuous_bounds _ _ Ho Hns ltac:(done)) as (He2 & Ht2 & _).
  assert (Hdl : g_deadline (ex_guard e) = s_boot (cv_start c) + Z.min (89 * Second) (rtt + 60 * Second)).
  { rewrite Hgd. unfold add64. pose proof (nt_boot _ Hst).
    rewrite !wrap_i64_id; unfold MinInt64, MaxInt64, Second in *; rewrite ?wrap_i64_id; 
      unfold MinInt64, MaxInt64; lia. }
  destruct (native_ticks _ Hns) as [Hmr Hbr]. destruct (native_ticks _ Hst) as [Hms Hbs].
  rewrite Hdel. cbn [ReceivedAt StartedAt]. split.
  - unfold Sub, readings, Add. destruct (s_go (cv_start c)) as [w [|z]]; [done|]. cbn in Hms. subst z.
    cbn [mono clock]. unfold in_i64. unfold MinInt64, MaxInt64, Second in *.
    replace ((-2 ^ 63 <=? ticks (cv_start c) + rtt) && (ticks (cv_start c) + rtt <=? 2 ^ 63 - 1)) with true by lia.
    unfold sat64, MinInt64, MaxInt64. lia.
  - split; [congruence|]. split; [congruence|].
    change (boot r) with (s_boot (MkStamp (g_clock (ex_guard e)) r)). rewrite Hdl in *.
    split; [lia|].
    unfold Sub, readings. rewrite delivery_end_ticks by done.
    change (goTime r) with (s_go (MkStamp (g_clock (ex_guard e)) r)). rewrite Hmr.
    unfold sat64, MinInt64, MaxInt64 in *. lia.
Qed.

(** A conversation admits one claim.  Whatever the first attempt's result,
    the conversation is spent: no later attempt yields an execution and no later
    delivery check passes. *)
Theorem conversation_single_use c read claim rtt id :
  let c' := (AcceptClaim c read claim rtt id).1 in
  (∀ read' claim' rtt' id', (AcceptClaim c' read' claim' rtt' id').2 = None)
  ∧ ∀ expired expired' read', CheckDelivery c' expired expired' read' = false.
Proof.
  assert (Hu : cv_used (AcceptClaim c read claim rtt id).1 = true).
  { unfold AcceptClaim. destruct (cv_used c) eqn:Hu; [done|]. repeat case_match; done. }
  cbv zeta. revert Hu. generalize (AcceptClaim c read claim rtt id).1. intros c' Hu.
  split; intros; unfold AcceptClaim, CheckDelivery; rewrite Hu; [done|]. by rewrite orb_true_r.
Qed.

(** ** Witnesses *)

Definition reading_at (seconds : Z) : reading :=
  let t := Time ((63800000000 + seconds) * Second) (InLocal (Some (seconds * Second))) in
  MkReading t (UTC t) (seconds * Second).
Definition stamp_at (seconds : Z) : Stamp := MkStamp 1 (reading_at seconds).
Definition ready : Readiness := MkReadiness 1 (stamp_at 100) (stamp_at 101).
Definition conversation : Conversation := MkConversation 1 ready (stamp_at 105) false.
Definition container : string :=
  "0123456789abcdef0123456789abcdef0123456789abcdef0123456789abcdef".
Definition sample_claim : ClaimView :=
  MkClaim true (Some (At (63800000106 * Second))) (Some ""%string) "" ActionCore.Stop.

Lemma reading_native n : 0 ≤ n ≤ 1000 → native_reading (reading_at n).
Proof. intros Hn. split; [|done]. exists (n * Second). split; [done|]. unfold MaxInt64, Second. lia. Qed.

Lemma stamp_native n : 0 ≤ n ≤ 1000 → native (stamp_at n).
Proof.
  intros Hn. split; [done| |apply reading_native; lia|done].
  unfold s_boot. simpl. unfold MaxInt64, Second. lia.
Qed.

Lemma conversation_begun : begun conversation.
Proof. split; try (apply stamp_native; lia); vm_compute; done. Qed.

Lemma server_bracket_bounds_skew_witness :
  Z.abs (63800000106 * Second - 63800000105 * Second) ≤ skew.
Proof.
  exact (proj1 (server_bracket_bounds_skew (At (63800000106 * Second)) (stamp_at 105) (stamp_at 107)
    (63800000105 * Second) (stamp_native 105 ltac:(lia)) (stamp_native 107 ltac:(lia)) eq_refl
    ltac:(vm_compute; reflexivity) ltac:(vm_compute; split; discriminate))).
Defined.

Definition accepted : Conversation * option Execution :=
  AcceptClaim conversation (Some (reading_at 107)) sample_claim (1 * Second) container.
Definition execution : Execution :=
  default (MkExecution (MkBudget 0 (stamp_at 0) 0 "" "" "" ActionCore.Stop)
             (MkDelivery zeroTime zeroTime zeroTime) (stamp_at 0)) accepted.2.

Lemma mutation_check_within_delivery_witness :
  Sub (goTime (reading_at 120)) (delivery_end (ex_delivery execution)) ≤ 2 * continuity.
Proof.
  destruct (mutation_check_within_delivery conversation (Some (reading_at 107)) sample_claim
    (1 * Second) container (use conversation) execution (reading_at 120) false false container
    ActionCore.Stop conversation_begun ltac:(vm_compute; reflexivity)
    (reading_native 120 ltac:(lia)) ltac:(vm_compute; reflexivity)) as (_ & _ & _ & _ & H).
  exact H.
Defined.
