(* ===== verification/ActionJournal.v ===== *)
(** * The durable action journal ([internal/actionjournal])

    The store that makes a container action happen at most once: an action is
    admitted under its canonical metadata, its intent is recorded before the
    engine is called, and an intent without a terminal event fences its target
    until somebody resolves it.  [Rows] is the row level: the columns of the two
    tables and the validation that rebuilds the records from them ([validateAction],
    [validateEvent], [load]); [verify] is what opening demands of the rows.  The operations ([acquire], [transition], [Prune],
    [Close]) work on records; a statement that fails makes the transaction body
    fail with [ErrRecovery], and [transactionGuarded] is modelled call by call. *)

From stdpp Require Import sorting.
From S2P Require Import Prelude GoTime GoCalendar Sha256 Effects ActionCore.

Record JBinding := MkJBinding { jb_ServerID : string; jb_InstallationID : string; jb_OwnerID : string }.
#[global] Instance JBinding_eq_dec : EqDecision JBinding.
Proof. solve_decision. Defined.

Inductive JError := JBusy | JFull | JRecovery | JIdentityConflict | JUnresolvedTarget.
#[global] Instance JError_eq_dec : EqDecision JError.
Proof. solve_decision. Defined.

Definition maxRecords : Z := 1000.

Definition validBinding (b : JBinding) : bool :=
  identifier (jb_ServerID b) "srv_" && identifier (jb_InstallationID b) "agent_"
  && identifier (jb_OwnerID b) "usr_".

(** A zero time means the event has not happened, as in the source. *)
Record record := MkRec {
  rc_key : Key; rc_raw : string; rc_admitted : time; rc_intent : time; rc_terminal : time;
  rc_code : Code; rc_reason : string }.

Definition has_intent (r : record) : bool := negb (IsZero (rc_intent r)).
Definition has_terminal (r : record) : bool := negb (IsZero (rc_terminal r)).
Definition unresolved (r : record) : bool := has_intent r && negb (has_terminal r).
Definition target (r : record) : string := k_TargetID (rc_key r).
Definition physical (r : record) : string * string :=
  (md_EngineGeneration (k_Metadata (rc_key r)), md_ContainerID (k_Metadata (rc_key r))).
Definition request_of (r : record) : Request := md_Request (k_Metadata (rc_key r)).

Definition EXPIRED : string := "EXPIRED_UNDISPATCHED".

Definition terminalAllowed (op : Operation) (intent : bool) (code : Code) (reason : string) : bool :=
  if negb intent && (code == Denied) then str_eqb reason EXPIRED
  else if negb (str_eqb reason "") then false
  else if intent then
    match op, code with
    | Start, Started | Stop, Stopped | Restart, Restarted => true
    | _, _ => false
    end
  else
    match op, code with
    | _, StateConflict | Start, AlreadyRunning | Stop, AlreadyStopped => true
    | _, _ => false
    end.

(** ** Rows *)

Definition code_text (c : Code) : string :=
  match c with
  | NoCode => "" | Started => "STARTED" | Stopped => "STOPPED" | Restarted => "RESTARTED"
  | AlreadyRunning => "ALREADY_RUNNING" | AlreadyStopped => "ALREADY_STOPPED"
  | Denied => "DENIED" | StateConflict => "TARGET_STATE_CONFLICT" | Unavailable => "UNAVAILABLE"
  | BudgetExceeded => "BUDGET_EXCEEDED" | OutcomeUnknown => "OUTCOME_UNKNOWN"
  | IdentityConflict => "IDEMPOTENCY_CONFLICT" | CodeOther text => text
  end%string.
Definition known_codes : list Code :=
  [NoCode; Started; Stopped; Restarted; AlreadyRunning; AlreadyStopped; Denied; StateConflict;
   Unavailable; BudgetExceeded; OutcomeUnknown; IdentityConflict].
Definition code_of_text (s : string) : Code :=
  default (CodeOther s) (List.find (λ c, str_eqb (code_text c) s) known_codes).

Record ActionRow := MkActionRow {
  ar_action_id : string; ar_target_id : string; ar_engine_generation : string;
  ar_container_id : string; ar_metadata : string; ar_digest : string; ar_admitted_at : string }.
Record EventRow := MkEventRow {
  er_ordinal : Z; er_at : string; er_code : string; er_reason : string }.

(** [stamp] and [parseTime] *)
Definition stamp (t : time) : string := FormatRFC3339Nano t.
Definition parseTime (s : string) : option time :=
  if 30 <? slen s then None else canonicalTime s.

Definition binding_matches (b : JBinding) (r : Request) : bool :=
  str_eqb (ServerID r) (jb_ServerID b) && str_eqb (InstallationID r) (jb_InstallationID b)
  && str_eqb (OwnerID r) (jb_OwnerID b).

Definition validateAction (b : JBinding) (x : ActionRow) : option record :=
  match ParseJournalMetadata (ar_metadata x) with
  | None => None
  | Some k =>
      if negb (str_eqb (k_ActionID k) (ar_action_id x)) || negb (str_eqb (k_TargetID k) (ar_target_id x))
         || negb (str_eqb (md_EngineGeneration (k_Metadata k)) (ar_engine_generation x))
         || negb (str_eqb (md_ContainerID (k_Metadata k)) (ar_container_id x))
         || negb (str_eqb (ar_digest x) (k_Fingerprint k))
      then None
      else
        let req := md_Request (k_Metadata k) in
        if negb (binding_matches b req) then None
        else match parseTime (ar_admitted_at x) with
        | None => None
        | Some admitted =>
            if Before admitted (CreatedAt req) || negb (Before admitted (ExpiresAt req)) then None
            else Some (MkRec k (ar_metadata x) admitted zeroTime zeroTime NoCode "")
        end
  end.

Definition validateEvent (r : record) (x : EventRow) : option record :=
  let req := request_of r in
  match parseTime (er_at x) with
  | None => None
  | Some when =>
      if Before when (rc_admitted r) then None
      else if er_ordinal x =? 1 then
        if negb (str_eqb (er_code x) "INTENT") || negb (str_eqb (er_reason x) "")
           || has_intent r || has_terminal r || negb (Before when (ExpiresAt req))
        then None
        else Some (MkRec (rc_key r) (rc_raw r) (rc_admitted r) when (rc_terminal r) (rc_code r) (rc_reason r))
      else if er_ordinal x =? 2 then
        let code := code_of_text (er_code x) in
        if has_terminal r || (has_intent r && Before when (rc_intent r))
           || negb (terminalAllowed (Op req) (has_intent r) code (er_reason x))
        then None
        else if (code == Denied) && Before when (ExpiresAt req) then None
        else Some (MkRec (rc_key r) (rc_raw r) (rc_admitted r) (rc_intent r) when code (er_reason x))
      else None
  end.

(** [actionColumns] and [eventColumns]: a field outside its bounds is read as NULL,
    which the scan refuses. *)
Definition in_bounds (s : string) (lo hi : Z) : bool := (lo <=? slen s) && (slen s <=? hi).
Definition action_scans (x : ActionRow) : bool :=
  in_bounds (ar_action_id x) 36 36 && in_bounds (ar_target_id x) 36 36
  && in_bounds (ar_engine_generation x) 32 32 && in_bounds (ar_container_id x) 64 64
  && in_bounds (ar_metadata x) 1 2048 && in_bounds (ar_digest x) 32 32
  && in_bounds (ar_admitted_at x) 20 30.
Definition event_scans (id : string) (x : EventRow) : bool :=
  in_bounds id 36 36 && in_bounds (er_at x) 20 30 && in_bounds (er_code x) 1 21
  && in_bounds (er_reason x) 0 20.

(** [load]: the action rows and then the event rows, each in key order.  The
    records read so far stand for [records] and [byID]: a row is accepted only
    under the action id of its own metadata. *)
Definition record_id (r : record) : string := k_ActionID (rc_key r).

Fixpoint load_actions (b : JBinding) (rows : list ActionRow) (read : list record) : option (list record) :=
  match rows with
  | [] => Some read
  | x :: rest =>
      if (maxRecords <=? Z.of_nat (length read)) || negb (action_scans x) then None
      else match validateAction b x with
      | None => None
      | Some r =>
          if existsb (λ r', str_eqb (record_id r') (ar_action_id x)) read then None
          else load_actions b rest (read ++ [r])
      end
  end.

Fixpoint load_events (rows : list (string * EventRow)) (count : Z) (read : list record) : option (list record) :=
  match rows with
  | [] => Some read
  | (id, x) :: rest =>
      if (2 * maxRecords <=? count) || negb (event_scans id x) then None
      else match list_find (λ r, record_id r = id) read with
      | None => None
      | Some (index, r) =>
          match validateEvent r x with
          | None => None
          | Some r' => load_events rest (count + 1) (<[index := r']> read)
          end
      end
  end.

Definition load (b : JBinding) (actions : list ActionRow) (events : list (string * EventRow)) :
    option (list record) :=
  match load_actions b actions [] with
  | None => None
  | Some read => load_events events 0 read
  end.

(** What the statements write for a record. *)
Definition action_row (r : record) : ActionRow :=
  MkActionRow (k_ActionID (rc_key r)) (target r) (physical r).1 (physical r).2 (rc_raw r)
              (k_Fingerprint (rc_key r)) (stamp (rc_admitted r)).
Definition event_rows (r : record) : list EventRow :=
  (if has_intent r then [MkEventRow 1 (stamp (rc_intent r)) "INTENT" ""] else [])
  ++ (if has_terminal r
      then [MkEventRow 2 (stamp (rc_terminal r)) (code_text (rc_code r)) (rc_reason r)] else []).
Definition keyed_events (r : record) : list (string * EventRow) := pair (record_id r) <$> event_rows r.

(** ** The journal *)

(** The tables: records by action id, and [pruned_expiry_through]. *)
Record Store := MkStore { st_records : gmap string record; st_floor : time }.

Definition set_records (s : Store) (m : gmap string record) : Store := MkStore m (st_floor s).

(** Records in primary-key order. *)
Definition string_le (a b : string) : Prop := String.leb a b = true.
#[global] Instance string_le_dec a b : Decision (string_le a b).
Proof. unfold string_le. apply _. Defined.
Definition by_id (a b : string * record) : Prop := string_le a.1 b.1.
#[global] Instance by_id_dec a b : Decision (by_id a b).
Proof. unfold by_id. apply _. Defined.
Definition records (s : Store) : list record := (merge_sort by_id (map_to_list (st_records s))).*2.

Definition is_related (k : Key) (r : record) : bool :=
  str_eqb (target r) (k_TargetID k)
  || (str_eqb (physical r).1 (md_EngineGeneration (k_Metadata k))
      && str_eqb (physical r).2 (md_ContainerID (k_Metadata k))).
Definition related (s : Store) (k : Key) : list record := filter (λ r, is_related k r = true) (records s).

(** An attempt is a heap object: several callers may hold the same one. *)
Record Attempt := MkAttempt {
  at_record : record; at_closed : bool; at_mutable : bool; at_guarded : bool }.

Record Journal := MkJournal {
  j_binding : JBinding; j_failed : bool; j_open : bool;
  j_active : gmap string nat; j_heap : gmap nat Attempt; j_next : nat }.

Definition usable (j : Journal) : bool := negb (j_failed j) && j_open j.
Definition fail (j : Journal) (failed : bool) : Journal :=
  MkJournal (j_binding j) (j_failed j || failed) (j_open j) (j_active j) (j_heap j) (j_next j).
Definition with_heap (j : Journal) (h : gmap nat Attempt) : Journal :=
  MkJournal (j_binding j) (j_failed j) (j_open j) (j_active j) h (j_next j).

(** The attempts behind [j.active]. *)
Definition active_attempts (j : Journal) : list Attempt :=
  omap (λ h, j_heap j !! h) ((map_to_list (j_active j)).*2).

Inductive JCall : Type → Type :=
| JTryLock : JCall bool
| JGuard : JCall bool (* guard.check(ctx) == nil *)
| JBegin : JCall bool
| JFault : JCall bool (* some statement of the body failed *)
| JRead : JCall Store
| JWrite (s : Store) : JCall unit
| JNow : JCall time
| JCommit : JCall bool
| JRollback : JCall bool.

Local Open Scope prog_scope.

Definition check (guarded : bool) : prog JCall bool :=
  if guarded then perform JGuard else Ret true.

(** [transactionGuarded]: whether the handle failed, and the body's result.  The
    seams around COMMIT are nil in production. *)
Definition transactionGuarded {R} (guarded : bool) (body : prog JCall (result JError R)) :
    prog JCall (bool * result JError R) :=
  ok <- check guarded;
  if negb ok then Ret (false, Err JRecovery)
  else
    began <~ JBegin;
    if negb began then Ret (true, Err JRecovery)
    else
      r <- body;
      r <- (match r with
            | Err e => Ret (Err e)
            | Ok v => ok <- check guarded; Ret (if ok : bool then Ok v else Err JRecovery)
            end);
      match r with
      | Ok v =>
          committed <~ JCommit;
          post <- (if committed : bool then check guarded else Ret false);
          if post : bool then Ret (false, Ok v)
          else _ <~ JRollback; Ret (true, Err JRecovery)
      | Err e =>
          rolled <~ JRollback;
          if rolled : bool then Ret (e == JRecovery, Err e) else Ret (true, Err JRecovery)
      end.

(** The loop over [related]. *)
Fixpoint fence (now : time) (others : list record) : option JError :=
  match others with
  | [] => None
  | other :: rest =>
      if unresolved other then Some JUnresolvedTarget
      else if ((rc_code other == Started) || (rc_code other == Stopped) || (rc_code other == Restarted))
              && Before now (Add (rc_terminal other) (30 * Second))
      then Some JBusy
      else fence now rest
  end.

(** The loop over [j.active]: its permits, unless one shares the target. *)
Definition permit (a : Attempt) : bool :=
  negb (has_terminal (at_record a)) && negb (has_intent (at_record a)).
Definition permits (k : Key) (attempts : list Attempt) : option nat :=
  if existsb (λ a, is_related k (at_record a)) attempts then None
  else Some (length (filter (λ a, permit a = true) attempts)).

Definition unknown (s : Store) : nat :=
  length (filter (λ r, unresolved r = true) (records s)).

Definition terminate (r : record) (now : time) (code : Code) (reason : string) : record :=
  MkRec (rc_key r) (rc_raw r) (rc_admitted r) (rc_intent r) now code reason.
Definition intend (r : record) (now : time) : record :=
  MkRec (rc_key r) (rc_raw r) (rc_admitted r) now (rc_terminal r) (rc_code r) (rc_reason r).

(** The body of [acquire] once the action is known to be neither terminal nor
    intended; [existing] is its record, if it was admitted before. *)
Definition acquire_new (j : Journal) (k : Key) (raw : string) (guarded : bool) (s : Store)
    (existing : option record) : prog JCall (result JError Attempt) :=
  let id := k_ActionID k in let req := md_Request (k_Metadata k) in
  if bool_decide (is_Some (j_active j !! id)) then Ret (Err JBusy)
  else
    t <~ JNow;
    let now := UTC t in
    if Before now (CreatedAt req) then Ret (Err JIdentityConflict)
    else if negb (Before now (ExpiresAt req)) then
      match existing with
      | None => Ret (Err JIdentityConflict)
      | Some r =>
          let r' := terminate r now Denied EXPIRED in
          _ <~ JWrite (set_records s (<[id := r']> (st_records s)));
          Ret (Ok (MkAttempt r' false false guarded))
      end
    else if bool_decide (existing = None) && negb (After (ExpiresAt req) (st_floor s))
    then Ret (Err JIdentityConflict)
    else match fence now (related s k) with
    | Some e => Ret (Err e)
    | None =>
        match permits k (active_attempts j) with
        | None => Ret (Err JBusy)
        | Some n =>
            if (2 <? unknown s)%nat then Ret (Err JRecovery)
            else if (2 <=? n + unknown s)%nat then Ret (Err JBusy)
            else match existing with
            | Some r => Ret (Ok (MkAttempt r false true guarded))
            | None =>
                let count := Z.of_nat (size (st_records s)) in
                if maxRecords <? count then Ret (Err JRecovery)
                else if count =? maxRecords then Ret (Err JFull)
                else
                  (* the row holds the times as UTC text *)
                  let row := MkRec (utc_key k) raw now zeroTime zeroTime NoCode "" in
                  _ <~ JWrite (set_records s (<[id := row]> (st_records s)));
                  Ret (Ok (MkAttempt (MkRec k raw now zeroTime zeroTime NoCode "") false true guarded))
            end
        end
    end.

Definition acquire_body (j : Journal) (k : Key) (raw : string) (guarded : bool) :
    prog JCall (result JError Attempt) :=
  broken <~ JFault;
  if broken : bool then Ret (Err JRecovery)
  else
    s <~ JRead;
    match st_records s !! k_ActionID k with
    | None => acquire_new j k raw guarded s None
    | Some r =>
        if negb (str_eqb raw (rc_raw r)) then Ret (Err JIdentityConflict)
        else if has_terminal r || has_intent r then Ret (Ok (MkAttempt r false false guarded))
        else acquire_new j k raw guarded s (Some r)
    end.

(** [acquire]: a handle to an attempt. *)
Definition acquire (j : Journal) (k : Key) (guarded : bool) : prog JCall (Journal * result JError nat) :=
  ok <- check guarded;
  if negb ok then Ret (j, Err JRecovery)
  else match CanonicalJournalMetadata k with
  | None => Ret (j, Err JIdentityConflict)
  | Some raw =>
      if negb (binding_matches (j_binding j) (md_Request (k_Metadata k))) then Ret (j, Err JIdentityConflict)
      else
        locked <~ JTryLock;
        if negb locked then Ret (j, Err JBusy)
        else if negb (usable j) then Ret (j, Err JRecovery)
        else
          out <- transactionGuarded guarded (acquire_body j k raw guarded);
          match out with
          | (failed, Err e) => Ret (fail j failed, Err e)
          | (failed, Ok a) =>
              let h := j_next j in
              Ret (MkJournal (j_binding j) (j_failed j || failed) (j_open j)
                     (if at_mutable a then <[k_ActionID k := h]> (j_active j) else j_active j)
                     (<[h := a]> (j_heap j)) (S h), Ok h)
          end
  end.

(** [Existing] *)
Definition Existing (j : Journal) (a : Attempt) : Code :=
  if at_closed a || negb (usable j) then Unavailable
  else if has_terminal (at_record a) then rc_code (at_record a)
  else if has_intent (at_record a) then OutcomeUnknown
  else NoCode.

(** The body of [transition]: insert the event if the stored record is the one
    the attempt knows. *)
Definition transition_body (a : Attempt) (now : time) (code : Code) (intent : bool) :
    prog JCall (result JError unit) :=
  let r := at_record a in
  broken <~ JFault;
  if broken : bool then Ret (Err JRecovery)
  else
    s <~ JRead;
    match st_records s !! k_ActionID (rc_key r) with
    | None => Ret (Err JRecovery)
    | Some actual =>
        if negb (str_eqb (rc_raw actual) (rc_raw r))
           || negb (str_eqb (stamp (rc_admitted actual)) (stamp (rc_admitted r)))
           || negb (str_eqb (stamp (rc_intent actual)) (stamp (rc_intent r)))
           || has_terminal actual || Before now (rc_admitted actual)
           || (has_intent actual && Before now (rc_intent actual))
        then Ret (Err JRecovery)
        else if intent && negb (Before now (ExpiresAt (request_of r))) then Ret (Err JRecovery)
        else
          let r' := if intent then intend actual now else terminate actual now code "" in
          _ <~ JWrite (set_records s (<[k_ActionID (rc_key r) := r']> (st_records s)));
          Ret (Ok tt)
    end.

Definition transition (j : Journal) (h : nat) (code : Code) (intent : bool) :
    prog JCall (Journal * option JError) :=
  match j_heap j !! h with
  | None => Ret (j, Some JRecovery)
  | Some a =>
      ok <- check (at_guarded a);
      if negb ok then Ret (j, Some JRecovery)
      else
        locked <~ JTryLock;
        if negb locked then Ret (j, Some JBusy)
        else
          let r := at_record a in
          if negb (usable j) || negb (at_mutable a) || at_closed a
             || negb (bool_decide (j_active j !! k_ActionID (rc_key r) = Some h))
             || has_terminal r || (intent && has_intent r)
             || (negb intent && negb (terminalAllowed (Op (request_of r)) (has_intent r) code ""))
          then Ret (j, Some JRecovery)
          else
            t <~ JNow;
            let now := UTC t in
            out <- transactionGuarded (at_guarded a) (transition_body a now code intent);
            match out with
            | (failed, Err e) => Ret (fail j failed, Some e)
            | (failed, Ok _) =>
                let r' := if intent then intend r now
                          else MkRec (rc_key r) (rc_raw r) (rc_admitted r) (rc_intent r) now code (rc_reason r) in
                Ret (with_heap (fail j failed)
                       (<[h := MkAttempt r' (at_closed a) (at_mutable a) (at_guarded a)]> (j_heap j)), None)
            end
  end.

Definition Intent (j : Journal) (h : nat) := transition j h NoCode true.
Definition Finish (j : Journal) (h : nat) (code : Code) := transition j h code false.

(** [attempt.Close] *)
Definition CloseAttempt (j : Journal) (h : nat) : Journal :=
  match j_heap j !! h with
  | None => j
  | Some a =>
      if at_closed a then j
      else
        let id := k_ActionID (rc_key (at_record a)) in
        MkJournal (j_binding j) (j_failed j) (j_open j)
          (if bool_decide (j_active j !! id = Some h) then delete id (j_active j) else j_active j)
          (<[h := MkAttempt (at_record a) true (at_mutable a) (at_guarded a)]> (j_heap j)) (j_next j)
  end.

(** [Prune]: at most fifty records change. *)
Definition Day30 : Z := 30 * Day.
Definition prune_one (active : gmap string nat) (now cutoff : time)
    (acc : gmap string record * Z) (r : record) : gmap string record * Z :=
  let '(m, changed) := acc in
  let id := k_ActionID (rc_key r) in
  if changed =? 50 then acc
  else if bool_decide (is_Some (active !! id)) then acc
  else if negb (has_intent r) && negb (has_terminal r) && negb (Before now (ExpiresAt (request_of r)))
  then (<[id := terminate r now Denied EXPIRED]> m, changed + 1)
  else if has_terminal r && negb (After (rc_terminal r) cutoff)
          && negb (After (ExpiresAt (request_of r)) cutoff)
  then (delete id m, changed + 1)
  else acc.

Definition prune_body (j : Journal) : prog JCall (result JError unit) :=
  broken <~ JFault;
  if broken : bool then Ret (Err JRecovery)
  else
    s <~ JRead;
    t <~ JNow;
    let now := UTC t in
    let cutoff := Add now (- Day30) in
    let persisted := if Before cutoff (st_floor s) then st_floor s else cutoff in
    let m := (fold_left (prune_one (j_active j) now cutoff) (records s) (st_records s, 0)).1 in
    _ <~ JWrite (MkStore m persisted);
    Ret (Ok tt).

Definition Prune (j : Journal) : prog JCall (Journal * option JError) :=
  locked <~ JTryLock;
  if negb locked then Ret (j, Some JBusy)
  else if negb (usable j) then Ret (j, Some JRecovery)
  else
    out <- transactionGuarded false (prune_body j);
    match out with
    | (failed, Err e) => Ret (fail j failed, Some e)
    | (failed, Ok _) => Ret (fail j failed, None)
    end.

(** [Journal.Close]: the handle is spent and every active attempt closed. *)
Definition CloseJournal (j : Journal) : Journal :=
  MkJournal (j_binding j) true false ∅
    (map_imap (λ h a, Some (if bool_decide (h ∈ (map_to_list (j_active j)).*2)
       then MkAttempt (at_record a) true (at_mutable a) (at_guarded a) else a)) (j_heap j)) (j_next j).

(** The record conditions of [verify]: at most two unresolved actions, no two on
    one target or one container. *)
Fixpoint verify_unresolved (targets : list string) (physicals : list (string * string))
    (rs : list record) (count : nat) : bool :=
  match rs with
  | [] => (count <=? 2)%nat
  | r :: rest =>
      if unresolved r then
        negb (bool_decide (target r ∈ targets)) && negb (bool_decide (physical r ∈ physicals))
        && verify_unresolved (target r :: targets) (physical r :: physicals) rest (S count)
      else verify_unresolved targets physicals rest count
  end.

(** The rows on disk: [metadata], [actions] and [events], the last two in key order. *)
Record Tables := MkTables {
  tb_metadata : list (JBinding * string);
  tb_actions : list ActionRow;
  tb_events : list (string * EventRow) }.

Definition tables (b : JBinding) (s : Store) : Tables :=
  MkTables [(b, stamp (st_floor s))] (action_row <$> records s) (records s ≫= keyed_events).

(** [floor] *)
Definition floor (b : JBinding) (t : Tables) : option time :=
  match tb_metadata t with
  | [(b', at_)] => if negb (bool_decide (b' = b)) then None else parseTime at_
  | _ => None
  end.

(** The events whose action has no row. *)
Definition orphans (t : Tables) : nat :=
  length (filter (λ e, ¬ e.1 ∈ ar_action_id <$> tb_actions t) (tb_events t)).

(** [verify], after the application id, the schema and the integrity check of the
    database file itself. *)
Definition verify (b : JBinding) (t : Tables) : bool :=
  match floor b t with
  | None => false
  | Some _ =>
      match load b (tb_actions t) (tb_events t) with
      | None => false
      | Some rs => verify_unresolved [] [] rs 0 && (orphans t =? 0)%nat
      end
  end.

(** A freshly opened handle. *)
Definition opened (b : JBinding) : Journal := MkJournal b false true ∅ ∅ 0.

Record AdmissionRecord := MkAdmission {
  ad_Key : Key; ad_HasIntent : bool; ad_Code : Code; ad_TerminalAt : time; ad_Active : bool }.

Record Admission := MkAdmissionSnapshot {
  sn_Binding : JBinding; sn_ObservedAt : time; sn_Records : list AdmissionRecord }.

(** The loop of [AdmissionSnapshot]. *)
Definition admission_rows (j : Journal) (s : Store) : list AdmissionRecord :=
  (λ r, MkAdmission (rc_key r) (has_intent r)
          (if unresolved r then OutcomeUnknown else rc_code r) (rc_terminal r)
          (bool_decide (is_Some (j_active j !! k_ActionID (rc_key r))))) <$> records s.

(** [expired], [expired'] and [expired'']: [ctx.Err() != nil] on entry, after the
    records were loaded and at the end. *)
Definition AdmissionSnapshot (j : Journal) (expired expired' expired'' : bool) :
    prog JCall (result JError Admission) :=
  if expired then Ret (Err JRecovery)
  else
    locked <~ JTryLock;
    if negb locked then Ret (Err JBusy)
    else if negb (usable j) then Ret (Err JRecovery)
    else
      broken <~ JFault;
      if broken : bool then Ret (Err JRecovery)
      else
        s <~ JRead;
        if expired' then Ret (Err JRecovery)
        else
          t <~ JNow;
          let snapshot := MkAdmissionSnapshot (j_binding j) (UTC t) (admission_rows j s) in
          Ret (if expired'' then Err JRecovery else Ok snapshot).

Record boundExecution := MkBound { be_key : Key; be_digest : string }.

(** [BindExecution] on a journal with binding [b]. *)
Definition BindExecution (b : JBinding) (k : Key) (digest : string) : option boundExecution :=
  let r := md_Request (k_Metadata k) in
  if negb (str_eqb (OwnerID r) (ActorID r)) || (MaxInt64 <? PolicyRevision r)
     || (MaxInt64 <? CapabilityRevision r) || negb (Sub (ExpiresAt r) (CreatedAt r) =? 300 * Second)
     || negb (NanosecondOf (CreatedAt r) mod 1000 =? 0) || negb (NanosecondOf (ExpiresAt r) mod 1000 =? 0)
     || negb (bool_decide (MkJBinding (ServerID r) (InstallationID r) (OwnerID r) = b))
  then None
  else match CanonicalJournalMetadata k with
  | None => None
  | Some _ => Some (MkBound k digest)
  end.
