(* ===== verification/ActionJournalSafety.v ===== *)
(** * What the action journal guarantees

    Rows survive: every record the operations write is accepted again by the
    loader.  Fences hold: over any sequence of operations, failures, crashes and
    restarts at most two actions are unresolved, never two on one target or one
    container, and an unresolved action changes only by being finished.  Nothing
    is admitted twice: a pruned action stays below the persisted floor. *)

From stdpp Require Import sorting.
From S2P Require Import Prelude GoTime GoCalendar Sha256 Effects ActionCore ActionJournal.

#[local] Opaque Sum256 ParseJournalMetadata CanonicalJournalMetadata canonicalTime FormatRFC3339Nano.

(** ** Records and their rows *)

(** A time that has been through the store. *)
Definition stored_time (t : time) : Prop := utc t = true ∧ year_ok t = true.

Record record_ok (b : JBinding) (r : record) : Prop := {
  ok_key : ParseJournalMetadata (rc_raw r) = Some (rc_key r);
  ok_binding : binding_matches b (request_of r) = true;
  ok_admitted : stored_time (rc_admitted r)
    ∧ Before (rc_admitted r) (CreatedAt (request_of r)) = false
    ∧ Before (rc_admitted r) (ExpiresAt (request_of r)) = true;
  ok_intent :
    if has_intent r then stored_time (rc_intent r) ∧ Before (rc_intent r) (rc_admitted r) = false
                         ∧ Before (rc_intent r) (ExpiresAt (request_of r)) = true
    else rc_intent r = zeroTime;
  ok_terminal :
    if has_terminal r then
      stored_time (rc_terminal r) ∧ Before (rc_terminal r) (rc_admitted r) = false
      ∧ (has_intent r && Before (rc_terminal r) (rc_intent r)) = false
      ∧ terminalAllowed (Op (request_of r)) (has_intent r) (rc_code r) (rc_reason r) = true
      ∧ ((rc_code r == Denied) && Before (rc_terminal r) (ExpiresAt (request_of r))) = false
    else rc_terminal r = zeroTime ∧ rc_code r = NoCode ∧ rc_reason r = ""%string }.

Lemma parse_stamp t : stored_time t → parseTime (stamp t) = Some t.
Proof.
  intros [Hu Hy]. unfold parseTime, stamp. destruct (FormatRFC3339Nano_shape _ Hy) as [Hl _].
  replace (30 <? slen (FormatRFC3339Nano t)) with false by lia.
  rewrite canonicalTime_Format by done. by rewrite utc_UTC.
Qed.

Lemma code_round_trip op intent code reason :
  terminalAllowed op intent code reason = true → code_of_text (code_text code) = code.
Proof.
  unfold terminalAllowed. intros Ht. destruct code; try reflexivity.
  by destruct intent, op; simpl in Ht; cases Ht.
Qed.

Lemma validate_action_row b r :
  record_ok b r →
  validateAction b (action_row r)
  = Some (MkRec (rc_key r) (rc_raw r) (rc_admitted r) zeroTime zeroTime NoCode "").
Proof.
  intros [Hk Hb (Ht & Hc & He) _ _]. unfold validateAction, action_row. cbn [ar_action_id ar_target_id
    ar_engine_generation ar_container_id ar_metadata ar_digest ar_admitted_at].
  rewrite Hk. unfold target, physical, request_of in *. simpl. rewrite !str_eqb_refl, Hb. simpl.
  rewrite parse_stamp by done. by rewrite Hc, He.
Qed.

(** The events of a record, applied in order to the record of its row. *)
Definition base (r : record) : record :=
  MkRec (rc_key r) (rc_raw r) (rc_admitted r) zeroTime zeroTime NoCode "".
Fixpoint replay (es : list EventRow) (r : record) : option record :=
  match es with
  | [] => Some r
  | e :: es => match validateEvent r e with Some r' => replay es r' | None => None end
  end.

Lemma replay_rows b r : record_ok b r → replay (event_rows r) (base r) = Some r.
Proof.
  intros [Hk Hb _ Hi Ht]. unfold event_rows. destruct r as [k raw adm int ter code reason].
  unfold request_of, base in *. simpl in *.
  assert (Hint : ∀ tail, replay
     ((if has_intent (MkRec k raw adm int ter code reason) then [MkEventRow 1 (stamp int) "INTENT" ""] else []) ++ tail)
     (MkRec k raw adm zeroTime zeroTime NoCode "")
     = replay tail (MkRec k raw adm int zeroTime NoCode "")).
  { intros tail. destruct (has_intent _) eqn:Hint; simpl in *; [|by rewrite Hi].
    destruct Hi as (Hs & Ha & He). unfold validateEvent at 1. simpl. rewrite parse_stamp by done.
    unfold request_of. simpl. by rewrite Ha, He. }
  rewrite Hint. clear Hint. destruct (has_terminal _) eqn:Hter; simpl in *.
  2: { destruct Ht as (-> & -> & ->). done. }
  destruct Ht as (Hs & Ha & Hord & Hall & Hden). unfold validateEvent. simpl.
  rewrite parse_stamp by done. unfold request_of. simpl.
  rewrite Ha, (code_round_trip _ _ _ _ Hall).
  change (has_intent (MkRec k raw adm int zeroTime NoCode "")) with
    (has_intent (MkRec k raw adm int ter code reason)).
  rewrite Hord, Hall. simpl. by rewrite Hden.
Qed.

(** ** Loading whole tables *)

Lemma in_bounds_ok s lo hi : lo ≤ slen s ≤ hi → in_bounds s lo hi = true.
Proof. unfold in_bounds. lia. Qed.

Lemma stamp_scans t : stored_time t → in_bounds (stamp t) 20 30 = true.
Proof. intros [_ Hy]. by apply in_bounds_ok, FormatRFC3339Nano_shape. Qed.

Lemma identifier_len v pre : identifier v pre = true → slen v = slen pre + 32.
Proof. apply pattern_len. Qed.

Lemma action_row_scans b r : record_ok b r → action_scans (action_row r) = true.
Proof.
  intros [Hk _ (Hst & _) _ _]. apply parse_canonical in Hk as [Hc _].
  destruct (Canonical_inv _ _ Hc) as (Hm & Hraw & Hlen & Hfp).
  pose proof (marshal_nonempty (record_of (k_Metadata (rc_key r)))) as Hpos. rewrite <- Hraw in Hpos.
  unfold metadata_ok, hex in Hm. bools.
  repeat match goal with H : identifier _ _ = true |- _ => apply identifier_len in H end.
  unfold action_scans, action_row, target, physical. cbn [ar_action_id ar_target_id
    ar_engine_generation ar_container_id ar_metadata ar_digest ar_admitted_at fst snd].
  rewrite Hfp, stamp_scans by done. unfold in_bounds. rewrite Sum256_length.
  change (slen "hla_") with 4 in *. change (slen "hlt_") with 4 in *.
  repeat match goal with H : k_ActionID _ = _ |- _ => rewrite H | H : k_TargetID _ = _ |- _ => rewrite H end.
  lia.
Qed.

Lemma allowed_code_scans op intent code reason :
  terminalAllowed op intent code reason = true →
  in_bounds (code_text code) 1 21 = true ∧ in_bounds reason 0 20 = true.
Proof.
  unfold terminalAllowed. intros Ht.
  destruct (negb intent && (code == Denied)) eqn:Hd.
  { bools. subst. done. }
  destruct (str_eqb reason "") eqn:Hr; [|done]. bools. subst reason. split; [|done].
  by destruct intent, op, code; cases Ht.
Qed.

Lemma event_rows_scan b r e : record_ok b r → e ∈ event_rows r → event_scans (record_id r) e = true.
Proof.
  intros Hok Hin. pose proof (action_row_scans _ _ Hok) as Hid. destruct Hok as [_ _ _ Hi Ht].
  unfold action_scans in Hid. apply andb_prop in Hid as [Hid _]. do 5 apply andb_prop in Hid as [Hid _].
  unfold event_scans. simpl in Hid. unfold record_id. rewrite Hid.
  unfold event_rows in Hin. apply elem_of_app in Hin as [Hin|Hin].
  - destruct (has_intent r); [|by apply not_elem_of_nil in Hin]. destruct Hi as [Hs _].
    apply list_elem_of_singleton in Hin as ->. simpl. by rewrite stamp_scans.
  - destruct (has_terminal r); [|by apply not_elem_of_nil in Hin]. destruct Ht as (Hs & _ & _ & Hall & _).
    apply list_elem_of_singleton in Hin as ->. simpl. destruct (allowed_code_scans _ _ _ _ Hall) as [-> ->].
    by rewrite stamp_scans.
Qed.

Lemma load_actions_rows b rs read :
  (∀ r, r ∈ rs → record_ok b r) → NoDup (record_id <$> (read ++ rs)) →
  Z.of_nat (length (read ++ rs)) ≤ maxRecords →
  load_actions b (action_row <$> rs) read = Some (read ++ (base <$> rs)).
Proof.
  revert read. induction rs as [|r rs IH]; intros read Hok Hnd Hlen; [by rewrite app_nil_r|].
  cbn [fmap list_fmap load_actions]. assert (Hr : record_ok b r) by (apply Hok; constructor).
  rewrite length_app in Hlen. cbn [length] in Hlen.
  replace (maxRecords <=? Z.of_nat (length read)) with false by lia.
  rewrite (action_row_scans _ _ Hr), (validate_action_row _ _ Hr). cbn [negb orb].
  assert (Hnew : existsb (λ r', str_eqb (record_id r') (ar_action_id (action_row r))) read = false).
  { apply not_true_is_false. intros (x & Hx & Heq)%existsb_exists. apply str_eqb_eq in Heq.
    rewrite fmap_app, fmap_cons in Hnd. apply NoDup_app in Hnd as (_ & Hdis & _).
    eapply (Hdis (record_id x)); [apply list_elem_of_fmap; exists x; split; [done|by apply list_elem_of_In]|].
    rewrite Heq. constructor. }
  rewrite Hnew, IH.
  - by rewrite <- app_assoc.
  - intros x Hx. apply Hok. by constructor.
  - by rewrite <- app_assoc, !fmap_app in *.
  - rewrite !length_app. simpl. lia.
Qed.

Lemma validateEvent_key r e r' : validateEvent r e = Some r' → record_id r' = record_id r.
Proof. unfold validateEvent. intros H. by repeat case_match; simplify_eq. Qed.

(** The events of one record among the records read. *)
Lemma load_events_one es r r' front tail rest n :
  replay es r = Some r' → (∀ e, e ∈ es → event_scans (record_id r) e = true) →
  record_id r ∉ record_id <$> front → n + Z.of_nat (length es) ≤ 2 * maxRecords →
  load_events ((pair (record_id r) <$> es) ++ rest) n (front ++ r :: tail)
  = load_events rest (n + Z.of_nat (length es)) (front ++ r' :: tail).
Proof.
  revert r n. induction es as [|e es IH]; intros r n Hre Hsc Hnin Hn; simpl in Hre.
  { simplify_eq. by rewrite Z.add_0_r. }
  destruct (validateEvent r e) as [r1|] eqn:He; [|done]. pose proof (validateEvent_key _ _ _ He) as Hk.
  cbn [fmap list_fmap app load_events length] in *.
  replace (2 * maxRecords <=? n) with false by lia. rewrite Hsc by constructor. cbn [negb orb].
  assert (Hfind : list_find (λ x, record_id x = record_id r) (front ++ r :: tail) = Some (length front, r)).
  { apply list_find_Some. split; [by apply list_lookup_middle|]. split; [done|].
    intros j y Hj Hlt Heq. rewrite lookup_app_l in Hj by done. apply Hnin. rewrite <- Heq.
    apply list_elem_of_fmap. exists y. split; [done|]. by eapply list_elem_of_lookup_2. }
  rewrite Hfind, He. replace (<[length front := r1]> (front ++ r :: tail)) with (front ++ r1 :: tail)
    by (by rewrite insert_app_r_alt, Nat.sub_diag).
  rewrite <- Hk. rewrite IH; [f_equal; lia|done| |by rewrite Hk|lia].
  intros x Hx. rewrite Hk. apply Hsc. by constructor.
Qed.

Lemma event_rows_length r : (length (event_rows r) ≤ 2)%nat.
Proof. unfold event_rows. destruct (has_intent r), (has_terminal r); simpl; lia. Qed.

Lemma load_events_rows b rs front n :
  (∀ r, r ∈ rs → record_ok b r) → NoDup (record_id <$> (front ++ rs)) →
  n + 2 * Z.of_nat (length rs) ≤ 2 * maxRecords →
  load_events (rs ≫= keyed_events) n (front ++ (base <$> rs)) = Some (front ++ rs).
Proof.
  revert front n. induction rs as [|r rs IH]; intros front n Hok Hnd Hn; [done|].
  cbn [mbind list_bind fmap list_fmap]. assert (Hr : record_ok b r) by (apply Hok; constructor).
  pose proof (event_rows_length r). cbn [length] in Hn.
  unfold keyed_events at 1. change (record_id r) with (record_id (base r)).
  rewrite (load_events_one _ _ r); [|by eapply replay_rows| | |lia].
  - assert (Hmid : ∀ l, front ++ r :: l = (front ++ [r]) ++ l) by (intros; by rewrite <- app_assoc).
    rewrite (Hmid (base <$> rs)), (Hmid rs). apply IH; [intros x Hx; apply Hok; by constructor| |lia].
    by rewrite <- Hmid.
  - intros e He. by apply (event_rows_scan b r).
  - rewrite fmap_app, fmap_cons in Hnd. apply NoDup_app in Hnd as (_ & Hdis & _).
    intros Hin. apply (Hdis _ Hin). constructor.
Qed.

(** What the statements wrote for any of the records is loaded as exactly these
    records. *)
Lemma load_rows b rs :
  (∀ r, r ∈ rs → record_ok b r) → NoDup (record_id <$> rs) → Z.of_nat (length rs) ≤ maxRecords →
  load b (action_row <$> rs) (rs ≫= keyed_events) = Some rs.
Proof.
  intros Hok Hnd Hlen. unfold load. rewrite load_actions_rows by done.
  apply (load_events_rows b rs [] 0); [done|done|lia].
Qed.

(** ** The database under the journal *)

Record Jdb := MkJdb { db_store : Store; db_tx : option Store }.

(** Clock readings are at least a month after year 1 and before year 10000. *)
Definition clock_in_range (t : time) : Prop := Day30 < wall t < year10000.

Definition journal_env (A : Type) (e : JCall A) : Jdb → A → Jdb → Prop :=
  match e in JCall T return Jdb → T → Jdb → Prop with
  | JTryLock | JGuard | JFault => λ db _ db', db' = db
  | JBegin => λ db ok db',
      (ok = false ∧ db' = db)
      ∨ (ok = true ∧ db_tx db = None ∧ db' = MkJdb (db_store db) (Some (db_store db)))
  | JRead => λ db s db', db' = db ∧ s = default (db_store db) (db_tx db)
  | JWrite s => λ db _ db', db' = MkJdb (db_store db) (Some s)
  | JNow => λ db t db', db' = db ∧ clock_in_range t
  | JCommit => λ db ok db',
      (ok = false ∧ db' = db) ∨ ∃ s, db_tx db = Some s ∧ db' = MkJdb s None
  | JRollback => λ db ok db',
      db' = MkJdb (db_store db) None ∨ (ok = false ∧ db' = db)
  end.

Lemma check_spec I g (Q : bool → Jdb → Prop) db :
  I db → Q true db → Q false db → wpc journal_env I (check g) Q db.
Proof.
  intros HI Ht Hf. destruct g; [|by apply wpc_ret]. apply wpc_call; [done|].
  intros ok ? ->. by destruct ok; apply wpc_ret.
Qed.

(** A transaction around a body that prepares [P v s]: it reports success only
    if that became durable; it leaves a usable handle only if the outcome is
    known; and at every moment the store is the old one or a prepared one. *)
Definition maybe {R} (s0 : Store) (P : R → Store → Prop) (db : Jdb) : Prop :=
  db_store db = s0 ∨ ∃ v, P v (db_store db).

Definition tx_post {R} (s0 : Store) (P : R → Store → Prop) (out : bool * result JError R) (db : Jdb) : Prop :=
  match out with
  | (failed, Ok v) => failed = false ∧ db_tx db = None ∧ P v (db_store db)
  | (failed, Err _) => (failed = false → db = MkJdb s0 None) ∧ maybe s0 P db
  end.

Lemma transactionGuarded_spec {R} g (body : prog JCall (result JError R)) s0 (P : R → Store → Prop) :
  wpc journal_env (λ db, db_store db = s0) body
    (λ r db, db_store db = s0 ∧
       match r with Ok v => ∃ s, db_tx db = Some s ∧ P v s | Err _ => True end) (MkJdb s0 (Some s0)) →
  wpc journal_env (maybe s0 P) (transactionGuarded g body) (tx_post s0 P) (MkJdb s0 None).
Proof.
  intros Hbody. assert (Hs : ∀ db, db_store db = s0 → maybe s0 P db) by by left.
  unfold transactionGuarded. apply wpc_bind, check_spec; [by left| |].
  2: { apply wpc_ret; [by left|]. split; [done|by left]. }
  cbn [negb]. apply wpc_call; [by left|]. intros began db [[-> ->]|(-> & _ & ->)]; cbn [negb].
  { apply wpc_ret; [by left|]. split; [done|by left]. }
  apply wpc_bind. eapply wpc_mono; [exact Hs| |exact Hbody]. intros r db [Hst Hr].
  assert (Hrollback : ∀ (e : JError) db', maybe s0 P db' → (e ≠ JRecovery → db_store db' = s0) →
     wpc journal_env (maybe s0 P) (Call JRollback (λ rolled : bool,
        if rolled then Ret (e == JRecovery, Err e) else Ret (true, Err JRecovery))) (tx_post s0 P) db').
  { intros e db' Hm He. apply wpc_call; [done|]. intros rolled db'' Hdb.
    assert (Hm' : maybe s0 P db'') by (by destruct Hdb as [->|[_ ->]]).
    destruct rolled; apply wpc_ret; auto; split; auto; [|done].
    intros Hne. bools. destruct Hdb as [->|[? _]]; [by rewrite He|done]. }
  assert (Hlost : ∀ db', maybe s0 P db' → wpc journal_env (maybe s0 P)
     (Call JRollback (λ _, Ret (true, Err JRecovery))) (tx_post s0 P) db').
  { intros db' Hm. apply wpc_call; [done|]. intros rolled db'' Hdb.
    assert (Hm' : maybe s0 P db'') by (by destruct Hdb as [->|[_ ->]]).
    by apply wpc_ret. }
  apply wpc_bind. destruct r as [v|e]; [|apply wpc_ret; [by left|]; apply Hrollback; [by left|done]].
  apply wpc_bind, check_spec; [by left| |]; (apply wpc_ret; [by left|]).
  2: { apply Hrollback; [by left|done]. }
  apply wpc_call; [by left|]. intros committed db' Hdb.
  assert (Hm : maybe s0 P db').
  { destruct Hdb as [[_ ->]|(s & Htx & ->)]; [by left|]. destruct Hr as (s' & Htx' & HP).
    right. exists v. simpl. congruence. }
  apply wpc_bind. destruct committed; [|by apply wpc_ret; [|apply Hlost]].
  apply check_spec; [done| |by apply Hlost]. apply wpc_ret; [done|].
  destruct Hdb as [[? _]|(s & Htx & ->)]; [done|]. destruct Hr as (s' & Htx' & HP).
  split; [done|]. split; [done|]. simpl. congruence.
Qed.

(** ** Invariants *)

Definition clash (r r' : record) : Prop := target r = target r' ∨ physical r = physical r'.

(** The tables: every record is accepted by the loader under its own id, no two
    unresolved records clash, there are at most two of them, and the loader's
    bound is kept. *)
Record durable (b : JBinding) (s : Store) : Prop := {
  du_records : ∀ id r, st_records s !! id = Some r → k_ActionID (rc_key r) = id ∧ record_ok b r;
  du_fenced : ∀ i i' r r', st_records s !! i = Some r → st_records s !! i' = Some r' → i ≠ i' →
     unresolved r = true → unresolved r' = true → ¬ clash r r';
  du_count : (count unresolved (st_records s) ≤ 2)%nat;
  du_floor : stored_time (st_floor s);
  du_size : Z.of_nat (size (st_records s)) ≤ maxRecords }.

(** The in-memory record of an attempt against the stored one. *)
Record agrees (m r : record) : Prop := {
  ag_key : utc_key (rc_key m) = rc_key r; ag_raw : rc_raw m = rc_raw r;
  ag_intent : has_intent m = has_intent r; ag_terminal : has_terminal m = has_terminal r }.

Definition is_permit (j : Journal) (h : nat) : bool :=
  match j_heap j !! h with Some a => permit a | None => false end.

Record sys (j : Journal) (s : Store) : Prop := {
  sy_active : ∀ id h, j_active j !! id = Some h → ∃ a r,
     j_heap j !! h = Some a ∧ st_records s !! id = Some r ∧ at_mutable a = true
     ∧ agrees (at_record a) r;
  sy_distinct : ∀ id id' h h' r r', j_active j !! id = Some h → j_active j !! id' = Some h' →
     id ≠ id' → st_records s !! id = Some r → st_records s !! id' = Some r' → ¬ clash r r';
  sy_fenced : ∀ id id' h r r', j_active j !! id = Some h → id ≠ id' →
     st_records s !! id = Some r → st_records s !! id' = Some r' → unresolved r' = true → ¬ clash r r';
  sy_count : (count unresolved (st_records s) + count (is_permit j) (j_active j) ≤ 2)%nat;
  sy_heap : ∀ h, (j_next j ≤ h)%nat → j_heap j !! h = None }.

(** What one operation may do to the tables. *)
Definition expires (r : record) : Z := wall (ExpiresAt (request_of r)).

Record progressed (r r' : record) : Prop := {
  pr_raw : rc_raw r' = rc_raw r; pr_key : rc_key r' = rc_key r;
  pr_admitted : rc_admitted r' = rc_admitted r;
  pr_intent : has_intent r = true → rc_intent r' = rc_intent r;
  pr_terminal : has_terminal r = true → r' = r }.

Record evolves (s s' : Store) : Prop := {
  ev_floor : wall (st_floor s) ≤ wall (st_floor s');
  ev_keep : ∀ id r, st_records s !! id = Some r →
     (∃ r', st_records s' !! id = Some r' ∧ progressed r r')
     ∨ ((∃ r1, progressed r r1 ∧ has_terminal r1 = true) ∧ expires r ≤ wall (st_floor s')
        ∧ ∀ r', st_records s' !! id = Some r' → rc_raw r' ≠ rc_raw r);
  ev_new : ∀ id r', st_records s' !! id = Some r' →
     (∃ r, st_records s !! id = Some r ∧ rc_raw r = rc_raw r')
     ∨ wall (st_floor s) < expires r' }.

Lemma progressed_refl r : progressed r r.
Proof. by split. Qed.

Lemma progressed_trans r r' r'' : progressed r r' → progressed r' r'' → progressed r r''.
Proof.
  intros [H1 H2 H3 H4 H5] [G1 G2 G3 G4 G5].
  assert (has_intent r = true → has_intent r' = true)
    by (intros Hi; unfold has_intent; rewrite H4; [exact Hi|done]).
  split; try congruence.
  - intros Hi. rewrite G4 by auto. auto.
  - intros Ht. specialize (H5 Ht). subst r'. auto.
Qed.

Lemma evolves_refl s : evolves s s.
Proof. split; [done| |]; eauto using progressed_refl. Qed.

(** Equal metadata is the same key, so the same expiry. *)
Lemma same_raw_expires b r r' :
  record_ok b r → record_ok b r' → rc_raw r = rc_raw r' → expires r = expires r'.
Proof.
  intros [Hk _ _ _ _] [Hk' _ _ _ _] Heq. rewrite Heq, Hk' in Hk. injection Hk as Hk.
  unfold expires, request_of. by rewrite Hk.
Qed.

Lemma evolves_trans b s s' s'' :
  durable b s → durable b s' → durable b s'' →
  evolves s s' → evolves s' s'' → evolves s s''.
Proof.
  intros D D' D'' [F K N] [F' K' N']. split; [lia| |].
  - intros id r Hr. destruct (K id r Hr) as [(r' & Hr' & Hp)|(Ht & He & Hne)].
    + destruct (K' id r' Hr') as [(r'' & Hr'' & Hp')|(Ht & He & Hne)];
        [eauto using progressed_trans|].
      right. destruct Ht as (r1 & Hp1 & Ht1).
      split; [eauto using progressed_trans|]. destruct Hp as [Hraw Hkey _ _ _].
      unfold expires, request_of in *. rewrite Hkey, Hraw in *. done.
    + right. split; [done|]. split; [lia|]. intros r'' Hr'' Hraw.
      destruct (N' id r'' Hr'') as [(r' & Hr' & Hraw')|Hlt]; [apply (Hne r' Hr'); congruence|].
      assert (expires r = expires r'') by (eapply same_raw_expires; [apply (du_records _ _ D id)|apply (du_records _ _ D'' id)|]; eauto).
      lia.
  - intros id r'' Hr''. destruct (N' id r'' Hr'') as [(r' & Hr' & Hraw)|Hlt]; [|right; lia].
    destruct (N id r' Hr') as [(r & Hr & Hraw')|Hlt]; [left; exists r; split; congruence|].
    right. erewrite <- (same_raw_expires b r' r''); [done|apply (du_records _ _ D' id)|apply (du_records _ _ D'' id)|]; eauto.
Qed.

(** ** Reading the tables *)

Lemma in_records s r : r ∈ records s ↔ ∃ id, st_records s !! id = Some r.
Proof.
  unfold records. rewrite list_elem_of_fmap. split.
  - intros ([id r'] & -> & Hin). rewrite merge_sort_Permutation in Hin.
    exists id. by apply elem_of_map_to_list.
  - intros [id Hid]. exists (id, r). split; [done|].
    rewrite merge_sort_Permutation. by apply elem_of_map_to_list.
Qed.

Lemma filter_snd_length {A} (f : A → bool) (l : list (string * A)) :
  length (filter (λ x, f x = true) l.*2) = length (filter (λ p, f p.2 = true) l).
Proof.
  induction l as [|[i x] l IH]; [done|]. cbn [fmap list_fmap snd]. rewrite !filter_cons. cbn [snd].
  repeat case_decide; cbn [length]; congruence.
Qed.

Lemma unknown_count s : unknown s = count unresolved (st_records s).
Proof. unfold unknown, records, count. by rewrite filter_snd_length, merge_sort_Permutation. Qed.

Lemma in_active j a :
  a ∈ active_attempts j ↔ ∃ id h, j_active j !! id = Some h ∧ j_heap j !! h = Some a.
Proof.
  unfold active_attempts. rewrite list_elem_of_omap. setoid_rewrite list_elem_of_fmap. split.
  - intros (h & ([id h'] & -> & Hin) & Hh). exists id, h'. by apply elem_of_map_to_list in Hin.
  - intros (id & h & Hid & Hh). exists h. split; [|done]. exists (id, h). split; [done|].
    by apply elem_of_map_to_list.
Qed.

Lemma permits_count j :
  length (filter (λ a, permit a = true) (active_attempts j)) = count (is_permit j) (j_active j).
Proof.
  unfold active_attempts, count. generalize (map_to_list (j_active j)) as l.
  induction l as [|[id h] l IH]; [done|]. cbn [fmap list_fmap snd omap list_omap].
  rewrite filter_cons. cbn [snd]. assert (Hp : is_permit j h = match j_heap j !! h with
    Some a => permit a | None => false end) by done.
  destruct (j_heap j !! h) as [a|]; rewrite ?filter_cons;
    repeat case_decide; cbn [length]; congruence.
Qed.

Lemma is_related_clash k r r' :
  target r' = k_TargetID k → physical r' = (md_EngineGeneration (k_Metadata k), md_ContainerID (k_Metadata k)) →
  is_related k r = false → ¬ clash r r'.
Proof.
  unfold is_related, clash. intros -> Hp Hr. bools. intros [Ht|Hph]; [done|].
  rewrite Hph, Hp in *. simpl in *. by rewrite !str_eqb_refl in *.
Qed.

Lemma fence_none now others :
  fence now others = None → ∀ r, r ∈ others → unresolved r = false.
Proof.
  induction others as [|o rest IH]; intros Hf r; [by intros ?%not_elem_of_nil|]. simpl in Hf.
  destruct (unresolved o) eqn:Ho; [done|]. destruct (_ && _); [done|].
  intros [->|?]%elem_of_cons; auto.
Qed.

(** What [acquire] has established when it grants a mutable attempt. *)
Record granted (j : Journal) (k : Key) (s : Store) : Prop := {
  gr_inactive : j_active j !! k_ActionID k = None;
  gr_fence : ∀ id r, st_records s !! id = Some r → is_related k r = true → unresolved r = false;
  gr_active : ∀ id h a, j_active j !! id = Some h → j_heap j !! h = Some a →
     is_related k (at_record a) = false;
  gr_count : (count (is_permit j) (j_active j) + count unresolved (st_records s) < 2)%nat }.

Inductive acquire_step (j : Journal) (k : Key) (raw : string) (g : bool) : Store → Attempt → Store → Prop :=
| acquired_settled s r :
    st_records s !! k_ActionID k = Some r → has_terminal r || has_intent r = true →
    acquire_step j k raw g s (MkAttempt r false false g) s
| acquired_expired s r now :
    st_records s !! k_ActionID k = Some r → rc_raw r = raw → has_terminal r || has_intent r = false →
    j_active j !! k_ActionID k = None → stored_time now → 0 < wall now →
    Before now (ExpiresAt (md_Request (k_Metadata k))) = false →
    acquire_step j k raw g s (MkAttempt (terminate r now Denied EXPIRED) false false g)
      (set_records s (<[k_ActionID k := terminate r now Denied EXPIRED]> (st_records s)))
| acquired_again s r :
    st_records s !! k_ActionID k = Some r → rc_raw r = raw → has_terminal r || has_intent r = false →
    granted j k s → acquire_step j k raw g s (MkAttempt r false true g) s
| acquired_new s now :
    st_records s !! k_ActionID k = None → stored_time now →
    Before now (CreatedAt (md_Request (k_Metadata k))) = false →
    Before now (ExpiresAt (md_Request (k_Metadata k))) = true →
    After (ExpiresAt (md_Request (k_Metadata k))) (st_floor s) = true →
    Z.of_nat (size (st_records s)) < maxRecords → granted j k s →
    acquire_step j k raw g s (MkAttempt (MkRec k raw now zeroTime zeroTime NoCode "") false true g)
      (set_records s (<[k_ActionID k := MkRec (utc_key k) raw now zeroTime zeroTime NoCode ""]> (st_records s))).

Lemma clock_stored t : clock_in_range t → stored_time (UTC t) ∧ 0 < wall (UTC t).
Proof.
  unfold clock_in_range, stored_time, year_ok. simpl. intros [H1 H2].
  assert (0 < wall t) by (unfold Day30, Day, Hour, Minute, Second in H1; lia).
  split; [split; [done|]|done]. lia.
Qed.

Definition body_post (s0 : Store) {R} (P : R → Store → Prop) (r : result JError R) (db : Jdb) : Prop :=
  db_store db = s0 ∧ match r with Ok v => ∃ s, db_tx db = Some s ∧ P v s | Err _ => True end.

Abbreviation wpb s0 body P := (wpc journal_env (λ db, db_store db = s0) body (body_post s0 P)).

Lemma body_err s0 {R} (P : R → Store → Prop) e s : wpb s0 (Ret (Err e)) P (MkJdb s0 s).
Proof. by apply wpc_ret. Qed.

Lemma body_ok s0 {R} (P : R → Store → Prop) v s : P v s → wpb s0 (Ret (Ok v)) P (MkJdb s0 (Some s)).
Proof. intros. apply wpc_ret; [done|]. split; [done|]. eauto. Qed.

Lemma body_write s0 s {R} (P : R → Store → Prop) v s' :
  P v s' → wpb s0 (Call (JWrite s') (λ _, Ret (Ok v))) P (MkJdb s0 s).
Proof. intros. apply wpc_call; [done|]. intros [] ? ->. by apply body_ok. Qed.

Lemma permits_granted j k s n now :
  j_active j !! k_ActionID k = None → fence now (related s k) = None →
  permits k (active_attempts j) = Some n → (n + unknown s < 2)%nat → granted j k s.
Proof.
  unfold permits. intros Ha Hf Hp Hn. destruct (existsb _ _) eqn:He; [done|]. injection Hp as <-.
  split; [done| | |by rewrite permits_count, unknown_count in Hn].
  - intros id r Hr Hrel. apply (fence_none _ _ Hf). apply list_elem_of_filter.
    split; [done|]. apply in_records. eauto.
  - intros id h a Hid Hh. apply not_true_is_false. intros Hrel.
    rewrite (proj2 (existsb_exists _ _)) in He; [done|]. exists a. split; [|done].
    apply list_elem_of_In, in_active. eauto.
Qed.

Lemma acquire_new_spec j k raw g s existing :
  st_records s !! k_ActionID k = existing →
  (∀ r, existing = Some r → rc_raw r = raw ∧ has_terminal r || has_intent r = false) →
  wpb s (acquire_new j k raw g s existing) (acquire_step j k raw g s) (MkJdb s (Some s)).
Proof.
  intros Hex Hr. unfold acquire_new. case_bool_decide as Ha; [apply body_err|].
  apply eq_None_not_Some in Ha. apply wpc_call; [done|]. intros t ? [-> Hclock].
  destruct (clock_stored _ Hclock) as [Hst Hpos]. set (now := UTC t) in *. clearbody now.
  destruct (Before now (CreatedAt _)) eqn:Hc; [apply body_err|].
  destruct (Before now (ExpiresAt _)) eqn:He; cbn [negb].
  2: { destruct existing as [r|]; [|apply body_err]. destruct (Hr r eq_refl).
       apply body_write. by econstructor. }
  destruct (_ && _) eqn:Hfl; [apply body_err|].
  destruct (fence now (related s k)) as [e|] eqn:Hf; [apply body_err|].
  destruct (permits k (active_attempts j)) as [n|] eqn:Hp; [|apply body_err].
  destruct (2 <? unknown s)%nat; [apply body_err|].
  destruct (2 <=? n + unknown s)%nat eqn:Hn; [apply body_err|]. apply Nat.leb_gt in Hn.
  assert (Hg : granted j k s) by by eapply permits_granted.
  destruct existing as [r|]; [destruct (Hr r eq_refl); apply body_ok; by econstructor|].
  destruct (_ <? _) eqn:Hover; [apply body_err|]. destruct (_ =? _) eqn:Hfull; [apply body_err|].
  apply body_write. rewrite bool_decide_eq_true_2 in Hfl by done. simpl in Hfl. bools.
  econstructor; eauto. lia.
Qed.

Lemma acquire_body_spec j k raw g s :
  wpb s (acquire_body j k raw g) (acquire_step j k raw g s) (MkJdb s (Some s)).
Proof.
  unfold acquire_body. apply wpc_call; [done|]. intros broken ? ->.
  destruct broken; [apply body_err|]. apply wpc_call; [done|]. intros s' ? [-> ->]. simpl.
  destruct (st_records s !! k_ActionID k) as [r|] eqn:Hr.
  - destruct (str_eqb raw (rc_raw r)) eqn:Hraw; cbn [negb]; [|apply body_err]. bools.
    destruct (has_terminal r || has_intent r) eqn:Hset; [apply body_ok; by econstructor|].
    apply acquire_new_spec; [done|]. intros ? [= <-]. auto.
  - by apply acquire_new_spec.
Qed.

(** ** Updating one record *)

Lemma unresolved_terminate r now code reason : 0 < wall now → unresolved (terminate r now code reason) = false.
Proof.
  intros Hn. unfold unresolved, has_terminal, IsZero. simpl.
  replace (wall now =? 0) with false by lia. apply andb_false_r.
Qed.

Lemma durable_update b s id r' :
  durable b s → k_ActionID (rc_key r') = id → record_ok b r' →
  (count unresolved (<[id := r']> (st_records s)) ≤ 2)%nat →
  (unresolved r' = true → ∀ i r, st_records s !! i = Some r → i ≠ id → unresolved r = true → ¬ clash r r') →
  Z.of_nat (size (<[id := r']> (st_records s))) ≤ maxRecords →
  durable b (set_records s (<[id := r']> (st_records s))).
Proof.
  intros [Hrec Hfen Hcnt Hfl Hsz] Hid Hok Hcnt' Hcl Hsz'. split; simpl; auto.
  - intros i r. destruct (decide (i = id)) as [->|Hne]; simplify_map_eq; [by intros [= <-]|auto].
  - intros i i' r x Hi Hi' Hne Hu Hu' Hc.
    destruct (decide (i = id)) as [->|], (decide (i' = id)) as [->|]; simplify_map_eq.
    + eapply (Hcl Hu i'); eauto. destruct Hc as [?|?]; [left|right]; done.
    + eapply (Hcl Hu' i); eauto.
    + eapply (Hfen i i'); eauto.
Qed.

Lemma size_replaced b s id r r' :
  durable b s → st_records s !! id = Some r →
  Z.of_nat (size (<[id := r']> (st_records s))) ≤ maxRecords.
Proof. intros Hd Hr. rewrite map_size_insert_Some by eauto. apply (du_size _ _ Hd). Qed.

(** A record that is settled, or that only replaces an admitted one, adds nothing
    to the fences. *)
Lemma durable_settle b s id r r' :
  durable b s → st_records s !! id = Some r → k_ActionID (rc_key r') = id → record_ok b r' →
  unresolved r' = false → durable b (set_records s (<[id := r']> (st_records s))).
Proof.
  intros Hd Hr Hid Hok Hu. apply durable_update; auto; [|congruence|by eapply size_replaced].
  pose proof (count_replace unresolved _ _ _ r' Hr). pose proof (du_count _ _ Hd).
  rewrite Hu in *. simpl in *. lia.
Qed.

Lemma durable_add b s id r' :
  durable b s → st_records s !! id = None → k_ActionID (rc_key r') = id → record_ok b r' →
  unresolved r' = false → Z.of_nat (size (st_records s)) < maxRecords →
  durable b (set_records s (<[id := r']> (st_records s))).
Proof.
  intros Hd Hr Hid Hok Hu Hsz. apply durable_update; auto; [|congruence|].
  - rewrite count_insert, Hu by done. apply (du_count _ _ Hd).
  - rewrite map_size_insert_None by done. lia.
Qed.

Lemma evolves_update s id r r' :
  st_records s !! id = Some r → progressed r r' →
  evolves s (set_records s (<[id := r']> (st_records s))).
Proof.
  intros Hr Hp. split; [done| |]; simpl; intros i x Hx;
    (destruct (decide (i = id)) as [->|Hne]; simplify_map_eq; [|eauto using progressed_refl]).
  - left. eauto.
  - left. exists r. split; [done|]. symmetry. apply Hp.
Qed.

Lemma evolves_add s id r' :
  st_records s !! id = None → wall (st_floor s) < expires r' →
  evolves s (set_records s (<[id := r']> (st_records s))).
Proof.
  intros Hr Hp. split; [done| |]; simpl; intros i x Hx;
    destruct (decide (i = id)) as [->|Hne]; simplify_map_eq; eauto using progressed_refl.
Qed.

(** ** The new records are accepted by the loader *)

Lemma terminate_ok b r now :
  record_ok b r → has_terminal r || has_intent r = false → stored_time now → 0 < wall now →
  Before now (ExpiresAt (request_of r)) = false → record_ok b (terminate r now Denied EXPIRED).
Proof.
  intros [Hk Hb (Ht & Hc & He) Hi Hter] Hset Hst Hpos Hex. bools.
  assert (has_terminal (terminate r now Denied EXPIRED) = true) as Hht.
  { unfold has_terminal, IsZero. simpl. by replace (wall now =? 0) with false by lia. }
  assert (has_intent (terminate r now Denied EXPIRED) = false) as Hhi by done.
  split; try done. rewrite Hht, Hhi. simpl.
  change (request_of (terminate r now Denied EXPIRED)) with (request_of r).
  rewrite Hex. split; [done|]. split; [|done].
  rewrite Before_wall_l in * by by apply utc_wallclock; apply Ht.
  destruct Ht as [Hu _]. apply utc_wallclock in Hu. destruct Hst as [Hu' _]. apply utc_wallclock in Hu'.
  rewrite Before_wall_l in * by done. bools. lia.
Qed.

Lemma fresh_ok b k raw now :
  ParseJournalMetadata raw = Some (utc_key k) → binding_matches b (md_Request (k_Metadata k)) = true →
  stored_time now → wallclock_request (md_Request (k_Metadata k)) →
  Before now (CreatedAt (md_Request (k_Metadata k))) = false →
  Before now (ExpiresAt (md_Request (k_Metadata k))) = true →
  record_ok b (MkRec (utc_key k) raw now zeroTime zeroTime NoCode "").
Proof.
  intros Hp Hb Hst [Hw1 Hw2] Hc He. split; try done. split; [done|].
  unfold request_of. simpl. rewrite !Before_wall_r in * by done. done.
Qed.

Lemma intend_ok b r now :
  record_ok b r → has_terminal r = false → has_intent r = false → stored_time now → 0 < wall now →
  Before now (rc_admitted r) = false → Before now (ExpiresAt (request_of r)) = true →
  record_ok b (intend r now).
Proof.
  intros [Hk Hb Ha Hi Ht] Hter Hint Hst Hpos Hadm Hexp.
  assert (has_intent (intend r now) = true) as Hhi.
  { unfold has_intent, IsZero. simpl. by replace (wall now =? 0) with false by lia. }
  split; try done; [by rewrite Hhi|].
  change (has_terminal (intend r now)) with (has_terminal r). by rewrite Hter in *.
Qed.

Lemma finish_ok b r now code :
  record_ok b r → has_terminal r = false → stored_time now → 0 < wall now →
  Before now (rc_admitted r) = false → (has_intent r && Before now (rc_intent r)) = false →
  terminalAllowed (Op (request_of r)) (has_intent r) code "" = true →
  record_ok b (terminate r now code "").
Proof.
  intros [Hk Hb Ha Hi Ht] Hter Hst Hpos Hadm Hord Hall.
  assert (has_terminal (terminate r now code "") = true) as Hht.
  { unfold has_terminal, IsZero. simpl. by replace (wall now =? 0) with false by lia. }
  split; try done. rewrite Hht. simpl.
  change (request_of (terminate r now code "")) with (request_of r).
  change (has_intent (terminate r now code "")) with (has_intent r).
  split; [done|]. split; [done|]. split; [done|]. split; [done|].
  destruct (code == Denied) eqn:Hd; [|done]. bools. subst code.
  unfold terminalAllowed in Hall. by destruct (has_intent r), (Op (request_of r)).
Qed.

(** ** The handle's view *)

(** Changes to records that are not active, and that create no fence. *)
Lemma sys_store j s s' :
  sys j s →
  (∀ id h, j_active j !! id = Some h → st_records s' !! id = st_records s !! id) →
  (∀ id r, st_records s' !! id = Some r → unresolved r = true → st_records s !! id = Some r) →
  (count unresolved (st_records s') ≤ count unresolved (st_records s))%nat → sys j s'.
Proof.
  intros [Ha Hd Hf Hc Hh] Hact Hun Hcnt. split; [| | |lia|done].
  - intros id h Hid. rewrite (Hact _ _ Hid). eauto.
  - intros id id' h h' r r' Hid Hid'. rewrite (Hact _ _ Hid), (Hact _ _ Hid'). eauto.
  - intros id id' h r r' Hid Hne. rewrite (Hact _ _ Hid). eauto.
Qed.

Lemma active_not_next j s id h : sys j s → j_active j !! id = Some h → h ≠ j_next j.
Proof.
  intros [Ha _ _ _ Hh] Hid ->. destruct (Ha _ _ Hid) as (a' & r & Hl & _).
  rewrite Hh in Hl; [done|lia].
Qed.

(** A new heap object that no active entry refers to. *)
Lemma sys_heap_extend j s a :
  sys j s →
  sys (MkJournal (j_binding j) (j_failed j) (j_open j) (j_active j)
         (<[j_next j := a]> (j_heap j)) (S (j_next j))) s.
Proof.
  intros Hs. assert (Hne : ∀ id h, j_active j !! id = Some h → h ≠ j_next j)
    by (intros; by eapply active_not_next). destruct Hs as [Ha Hd Hf Hc Hh].
  assert (Hcnt : count (is_permit (MkJournal (j_binding j) (j_failed j) (j_open j) (j_active j)
         (<[j_next j := a]> (j_heap j)) (S (j_next j)))) (j_active j) = count (is_permit j) (j_active j)).
  { apply count_ext. intros id h Hid. unfold is_permit. simpl.
    by rewrite lookup_insert_ne by (intros Heq; by eapply Hne). }
  split; simpl; eauto; [| |].
  - intros id h Hid. rewrite lookup_insert_ne by (intros Heq; by eapply Hne). eauto.
  - by rewrite Hcnt.
  - intros h Hle. rewrite lookup_insert_ne by lia. apply Hh. lia.
Qed.

Lemma sys_activate j s k a r :
  sys j s → granted j k s → at_mutable a = true → permit a = true →
  st_records s !! k_ActionID k = Some r → agrees (at_record a) r →
  target r = k_TargetID k →
  physical r = (md_EngineGeneration (k_Metadata k), md_ContainerID (k_Metadata k)) →
  sys (MkJournal (j_binding j) (j_failed j) (j_open j) (<[k_ActionID k := j_next j]> (j_active j))
         (<[j_next j := a]> (j_heap j)) (S (j_next j))) s.
Proof.
  intros Hs [Hin Hfen Hgact Hcnt] Hmut Hperm Hr Hag Ht Hp.
  destruct (sys_heap_extend _ _ a Hs) as [Ha Hd Hf Hc Hh]. simpl in *.
  assert (Hnext : ∀ id h, j_active j !! id = Some h → h ≠ j_next j)
    by (intros; by eapply active_not_next).
  destruct Hs as [Ha0 _ _ _ _].
  assert (Hclear : ∀ id h r', j_active j !! id = Some h → st_records s !! id = Some r' → ¬ clash r' r).
  { intros id h r' Hid Hr'. destruct (Ha0 _ _ Hid) as (a' & r'' & Hl & Hr'' & _ & Hag').
    simplify_eq. apply (is_related_clash k); auto. specialize (Hgact _ _ _ Hid Hl).
    unfold is_related, target, physical in *. rewrite <- (ag_key _ _ Hag'). exact Hgact. }
  assert (Hsym : ∀ x y, clash x y → clash y x) by (intros x y [?|?]; [left|right]; done).
  split; simpl.
  - intros id h Hid. destruct (decide (id = k_ActionID k)) as [->|Hne]; simplify_map_eq; [|eauto].
    exists a, r. done.
  - intros id id' h h' x y Hid Hid' Hne Hx Hy Hcl.
    destruct (decide (id = k_ActionID k)) as [->|], (decide (id' = k_ActionID k)) as [->|];
      simplify_map_eq.
    + eapply Hclear; [exact Hid'|exact Hy|auto].
    + by eapply Hclear.
    + by eapply (Hd id id').
  - intros id id' h x y Hid Hne Hx Hy Hu Hcl.
    destruct (decide (id = k_ActionID k)) as [->|]; simplify_map_eq; [|by eapply (Hf id id')].
    assert (is_related k y = false) as Hrel.
    { apply not_true_is_false. intros Hrel. by rewrite (Hfen _ _ Hy Hrel) in Hu. }
    eapply is_related_clash; [exact Ht|exact Hp|exact Hrel|]. auto.
  - rewrite count_insert by done. unfold is_permit at 1. simpl. rewrite lookup_insert_eq, Hperm. simpl.
    assert (Hext : count (is_permit (MkJournal (j_binding j) (j_failed j) (j_open j)
       (<[k_ActionID k := j_next j]> (j_active j)) (<[j_next j := a]> (j_heap j)) (S (j_next j)))) (j_active j)
       = count (is_permit j) (j_active j)).
    { apply count_ext. intros id h Hid. unfold is_permit. simpl.
      by rewrite lookup_insert_ne by (intros Heq; by eapply Hnext). }
    rewrite Hext. lia.
  - exact Hh.
Qed.

(** ** The operations *)

Definition wellformed_key (k : Key) : Prop :=
  typed_request (md_Request (k_Metadata k)) ∧ wallclock_request (md_Request (k_Metadata k)).

(** The journal [acquire] returns with an attempt. *)
Definition register (j : Journal) (k : Key) (a : Attempt) : Journal :=
  MkJournal (j_binding j) (j_failed j) (j_open j)
    (if at_mutable a then <[k_ActionID k := j_next j]> (j_active j) else j_active j)
    (<[j_next j := a]> (j_heap j)) (S (j_next j)).

Section operations.
Variable b : JBinding.

Lemma agrees_self r : record_ok b r → agrees r r.
Proof. intros [Hk _ _ _ _]. split; try done. by eapply parsed_utc. Qed.

Lemma unsettled_permit r g : has_terminal r || has_intent r = false → permit (MkAttempt r false true g) = true.
Proof. intros. bools. unfold permit. simpl. by rewrite H, H0. Qed.

Lemma acquire_step_ok j k raw g s a s' :
  durable b s → sys j s → CanonicalJournalMetadata k = Some raw → wellformed_key k →
  binding_matches b (md_Request (k_Metadata k)) = true → acquire_step j k raw g s a s' →
  durable b s' ∧ evolves s s' ∧ sys (register j k a) s'.
Proof.
  intros Hd Hs Hcan [Hty Hw] Hb Hstep. pose proof (canonical_parse _ _ Hty Hw Hcan) as Hparse.
  assert (Hkey : ∀ r, st_records s !! k_ActionID k = Some r → rc_raw r = raw → rc_key r = utc_key k).
  { intros r Hr Hraw. destruct (du_records _ _ Hd _ _ Hr) as [_ [Hk _ _ _ _]]. congruence. }
  destruct Hstep as [s r Hr Hset|s r now Hr Hraw Hset Hina Hst Hpos Hexp|s r Hr Hraw Hset Hg
                    |s now Hr Hst Hc He Hfl Hsz Hg].
  - split; [done|]. split; [apply evolves_refl|]. by apply sys_heap_extend.
  - destruct (du_records _ _ Hd _ _ Hr) as [Hid Hok].
    assert (Hexp' : Before now (ExpiresAt (request_of r)) = false).
    { unfold request_of. rewrite (Hkey _ Hr Hraw). simpl.
      rewrite Before_wall_r in * by (done || apply Hw). done. }
    assert (Hok' : record_ok b (terminate r now Denied EXPIRED)) by by apply terminate_ok.
    assert (Hun : unresolved (terminate r now Denied EXPIRED) = false) by by apply unresolved_terminate.
    split; [by eapply durable_settle|]. bools. split.
    + eapply evolves_update; [done|]. split; try done; simpl; congruence.
    + apply (sys_heap_extend j). eapply sys_store; [done| | |].
      * intros id h Hact. simpl. rewrite lookup_insert_ne; [done|]. intros <-. congruence.
      * intros id x. simpl. destruct (decide (id = k_ActionID k)) as [->|]; simplify_map_eq; [|done].
        intros [= <-]. congruence.
      * simpl. pose proof (count_replace unresolved _ _ _ (terminate r now Denied EXPIRED) Hr).
        rewrite Hun in *. simpl in *. lia.
  - split; [done|]. split; [apply evolves_refl|]. destruct (du_records _ _ Hd _ _ Hr) as [Hid Hok].
    apply (sys_activate j s k _ r); auto using agrees_self, unsettled_permit;
      unfold target, physical; by rewrite (Hkey _ Hr Hraw).
  - assert (Hok : record_ok b (MkRec (utc_key k) raw now zeroTime zeroTime NoCode "")) by by apply fresh_ok.
    split; [by eapply durable_add|]. split.
    + apply evolves_add; [done|]. unfold expires, request_of. simpl.
      rewrite After_wall_l in Hfl by apply Hw. bools. lia.
    + set (row := MkRec (utc_key k) raw now zeroTime zeroTime NoCode "") in *.
      set (s' := set_records s (<[k_ActionID k := row]> (st_records s))).
      assert (Hcnt : count unresolved (st_records s') = count unresolved (st_records s))
        by (simpl; rewrite count_insert by done; done).
      assert (Hs' : sys j s').
      { eapply sys_store; [done| | |by rewrite Hcnt].
        - intros id h Hact. simpl. rewrite lookup_insert_ne; [done|]. intros <-.
          destruct (sy_active _ _ Hs _ _ Hact) as (? & ? & _ & ? & _). congruence.
        - intros id x. simpl. destruct (decide (id = k_ActionID k)) as [->|]; simplify_map_eq; [|done].
          by intros [= <-]. }
      apply (sys_activate j s' k _ row); auto; simpl; [|by simplify_map_eq|by split].
      destruct Hg as [Hin Hfen Hact Hn]. split; auto; [|by rewrite Hcnt].
      intros id x. simpl. destruct (decide (id = k_ActionID k)) as [->|]; simplify_map_eq; [|eauto].
      by intros [= <-].
Qed.

(** Distinct active actions have distinct attempts. *)
Lemma active_injective j s id id' h :
  durable b s → sys j s → j_active j !! id = Some h → j_active j !! id' = Some h → id = id'.
Proof.
  intros Hd Hs Hid Hid'. destruct (sy_active _ _ Hs _ _ Hid) as (a & r & Ha & Hr & _ & Hag).
  destruct (sy_active _ _ Hs _ _ Hid') as (a' & r' & Ha' & Hr' & _ & Hag'). simplify_eq.
  destruct (du_records _ _ Hd _ _ Hr) as [<- _], (du_records _ _ Hd _ _ Hr') as [<- _].
  by rewrite <- (ag_key _ _ Hag), <- (ag_key _ _ Hag').
Qed.

(** The active record and the attempt behind it change together. *)
Lemma sys_transition j s id h a r r' a' :
  durable b s → sys j s → j_active j !! id = Some h → j_heap j !! h = Some a →
  st_records s !! id = Some r → rc_key r' = rc_key r → agrees (at_record a') r' →
  at_mutable a' = true →
  (one (unresolved r') + one (permit a') ≤ one (unresolved r) + one (permit a))%nat →
  sys (with_heap j (<[h := a']> (j_heap j))) (set_records s (<[id := r']> (st_records s))).
Proof.
  intros Hd Hs Hid Hh Hr Hkey Hag Hmut Hcnt.
  assert (Hcl : ∀ x, clash r' x ↔ clash r x) by (intros; unfold clash, target, physical; by rewrite Hkey).
  assert (Hcl' : ∀ x, clash x r' ↔ clash x r) by (intros; unfold clash, target, physical; by rewrite Hkey).
  assert (Hother : ∀ i n, j_active j !! i = Some n → i ≠ id → n ≠ h).
  { intros i n Hi Hne ->. apply Hne. by eapply active_injective. }
  pose proof Hs as [Ha Hdi Hf Hc Hx]. split; simpl.
  - intros i n Hi. destruct (decide (i = id)) as [->|Hne]; simplify_map_eq; [by exists a', r'|].
    destruct (Ha _ _ Hi) as (? & ? & ? & ? & ?). rewrite !lookup_insert_ne
      by (congruence || (intros ->; by eapply Hother)). eauto.
  - intros i i' n n' x y Hi Hi' Hne Hxx Hyy.
    destruct (decide (i = id)) as [->|], (decide (i' = id)) as [->|]; simplify_map_eq.
    + rewrite Hcl. by eapply (Hdi id i').
    + rewrite Hcl'. by eapply (Hdi i id).
    + by eapply (Hdi i i').
  - intros i i' n x y Hi Hne Hxx Hyy Hu.
    destruct (decide (i = id)) as [->|], (decide (i' = id)) as [->|]; simplify_map_eq.
    + rewrite Hcl. by eapply (Hf id i').
    + rewrite Hcl'. by eapply (Hdi i id).
    + by eapply (Hf i i').
  - assert (Hp : ∀ j', (∀ n, n ≠ h → j_heap j' !! n = j_heap j !! n) →
        count (is_permit j') (delete id (j_active j)) = count (is_permit j) (delete id (j_active j))).
    { intros j' Hj. apply count_ext. intros i n [Hne Hi]%lookup_delete_Some. unfold is_permit.
      rewrite Hj; [done|]. by eapply Hother. }
    rewrite (count_delete _ _ _ _ Hid) in Hc. rewrite (count_delete _ _ _ _ Hid). rewrite Hp by (intros; simpl; by rewrite lookup_insert_ne).
    pose proof (count_replace unresolved _ _ _ r' Hr).
    unfold is_permit at 1 in Hc. rewrite Hh in Hc. unfold is_permit at 1. simpl.
    rewrite lookup_insert_eq. lia.
  - intros n Hn. rewrite lookup_insert_ne; [auto|]. intros ->. specialize (Hx _ Hn). congruence.
Qed.

Lemma flags_intend r now : 0 < wall now → has_intent (intend r now) = true.
Proof. intros. unfold has_intent, IsZero. simpl. by replace (wall now =? 0) with false by lia. Qed.

Lemma flags_terminate r now code reason : 0 < wall now → has_terminal (terminate r now code reason) = true.
Proof. intros. unfold has_terminal, IsZero. simpl. by replace (wall now =? 0) with false by lia. Qed.

Lemma agrees_request m r : agrees m r → Op (request_of m) = Op (request_of r)
  ∧ ∀ now, wallclock now → Before now (ExpiresAt (request_of m)) = Before now (ExpiresAt (request_of r)).
Proof.
  intros [Hk _ _ _]. unfold request_of. rewrite <- Hk. split; [done|].
  intros now Hn. by rewrite !Before_wall_l.
Qed.

(** A successful intent or finish, seen from both sides. *)
Lemma transition_ok j s id h a r now code (intent : bool) :
  durable b s → sys j s → j_active j !! id = Some h → j_heap j !! h = Some a →
  st_records s !! id = Some r → stored_time now → 0 < wall now →
  has_terminal r = false → Before now (rc_admitted r) = false →
  (has_intent r && Before now (rc_intent r)) = false →
  (if intent then has_intent (at_record a) = false ∧ Before now (ExpiresAt (request_of (at_record a))) = true
   else terminalAllowed (Op (request_of (at_record a))) (has_intent (at_record a)) code "" = true) →
  let r' := if intent then intend r now else terminate r now code "" in
  let m := at_record a in
  let m' := if intent then intend m now
            else MkRec (rc_key m) (rc_raw m) (rc_admitted m) (rc_intent m) now code (rc_reason m) in
  let s' := set_records s (<[id := r']> (st_records s)) in
  durable b s' ∧ evolves s s'
  ∧ sys (with_heap j (<[h := MkAttempt m' (at_closed a) (at_mutable a) (at_guarded a)]> (j_heap j))) s'.
Proof.
  intros Hd Hs Hid Hh Hr Hst Hpos Hter Hadm Hord Hmode r' m m' s'.
  destruct (du_records _ _ Hd _ _ Hr) as [Hkid Hok].
  destruct (sy_active _ _ Hs _ _ Hid) as (a0 & r0 & Ha0 & Hr0 & Hmut & Hag). simplify_eq.
  destruct (agrees_request _ _ Hag) as [Hop Hexp]. pose proof Hag as [Hk Hraw Hint Htm].
  specialize (Hexp now (utc_wallclock _ (proj1 Hst))).
  assert (Hnt : has_terminal m = false) by (unfold m; congruence).
  destruct intent; subst r' m' s'.
  - destruct Hmode as [Hni He]. rewrite Hint in Hni. rewrite Hexp in He.
    assert (Hun : unresolved (intend r now) = true) by (unfold unresolved; rewrite flags_intend by done; exact (f_equal negb Hter)).
    assert (Hun0 : unresolved r = false) by (unfold unresolved; by rewrite Hni).
    assert (Hperm : permit a = true) by (unfold permit; by rewrite Hint, Htm, Hter, Hni).
    split; [|split].
    + apply durable_update; [done|done|by apply intend_ok| | |].
      * pose proof (count_replace unresolved _ _ _ (intend r now) Hr).
        pose proof (sy_count _ _ Hs). pose proof (count_positive (is_permit j) _ _ _ Hid) as Hone.
        unfold is_permit at 1 in Hone. rewrite Hh in Hone. specialize (Hone Hperm).
        rewrite Hun, Hun0 in *. simpl in *. lia.
      * intros _ i x Hx Hne Hu Hclash. eapply (sy_fenced _ _ Hs (k_ActionID (rc_key r)) i); eauto.
        destruct Hclash as [?|?]; [left|right]; done.
      * by eapply size_replaced.
    + eapply evolves_update; [done|]. split; try done; congruence.
    + eapply sys_transition; eauto.
      * by split.
      * assert (Hp' : permit (MkAttempt (intend m now) (at_closed a) (at_mutable a) (at_guarded a)) = false)
          by (unfold permit; cbn [at_record]; rewrite (flags_intend m now) by done; apply andb_false_r).
        rewrite Hp', Hun, Hun0, Hperm. simpl. lia.
  - rewrite Hop, Hint in Hmode.
    assert (Hun : unresolved (terminate r now code "") = false) by by apply unresolved_terminate.
    split; [eapply durable_settle; eauto; by apply finish_ok|]. split.
    + eapply evolves_update; [done|]. split; try done; congruence.
    + eapply sys_transition; eauto.
      * by split.
      * rewrite Hun. unfold permit at 1, has_terminal, IsZero. simpl.
        replace (wall now =? 0) with false by lia. simpl. lia.
Qed.

(** What pruning does to one entry. *)
Inductive pruned_entry (active : gmap string nat) (now cutoff : time) (id : string) :
    option record → option record → Prop :=
| pruned_same o : pruned_entry active now cutoff id o o
| pruned_expired r :
    active !! id = None → has_terminal r || has_intent r = false →
    Before now (ExpiresAt (request_of r)) = false →
    pruned_entry active now cutoff id (Some r) (Some (terminate r now Denied EXPIRED))
| pruned_deleted r :
    active !! id = None → has_terminal r = true → After (ExpiresAt (request_of r)) cutoff = false →
    pruned_entry active now cutoff id (Some r) None.

Lemma prune_fold active now cutoff (m : gmap string record) l :
  NoDup (record_id <$> l) → (∀ r, r ∈ l → m !! record_id r = Some r) →
  ∀ m' n, (∀ r, r ∈ l → m' !! record_id r = Some r) →
  (∀ id, pruned_entry active now cutoff id (m !! id) (m' !! id)) →
  ∀ id, pruned_entry active now cutoff id (m !! id)
          ((fold_left (prune_one active now cutoff) l (m', n)).1 !! id).
Proof.
  induction l as [|r l IH]; intros Hnd Hm m' n Hm' Hp; [done|].
  rewrite fmap_cons in Hnd. apply NoDup_cons in Hnd as [Hnin Hnd]. cbn [fold_left].
  assert (Hr : m !! record_id r = Some r) by (apply Hm; by constructor).
  assert (Hl : ∀ x, x ∈ l → record_id x ≠ record_id r).
  { intros x Hx Heq. apply Hnin. rewrite <- Heq. apply list_elem_of_fmap. eauto. }
  destruct (prune_one active now cutoff (m', n) r) as [m'' n'] eqn:Hone.
  assert (H'' : (∀ x, x ∈ l → m'' !! record_id x = Some x)
    ∧ ∀ id, pruned_entry active now cutoff id (m !! id) (m'' !! id)).
  2: { destruct H''. apply IH; auto. intros x Hx. apply Hm. by constructor. }
  unfold prune_one in Hone. fold (record_id r) in Hone.
  assert (Hsame : (∀ x, x ∈ l → m' !! record_id x = Some x)) by (intros; apply Hm'; by constructor).
  destruct (n =? 50); [by simplify_eq|]. case_bool_decide as Hact; [by simplify_eq|].
  apply eq_None_not_Some in Hact.
  destruct (negb (has_intent r) && _ && _) eqn:E1; [|destruct (has_terminal r && _ && _) eqn:E2].
  - simplify_eq. bools. split; [intros x Hx; rewrite lookup_insert_ne by (symmetry; auto); auto|].
    intros id. destruct (decide (id = record_id r)) as [->|]; simplify_map_eq; [|done].
    constructor; auto. by apply orb_false_iff.
  - simplify_eq. bools. split; [intros x Hx; rewrite lookup_delete_ne by (symmetry; auto); auto|].
    intros id. destruct (decide (id = record_id r)) as [->|]; simplify_map_eq; [|done].
    by constructor.
  - by simplify_eq.
Qed.

Lemma records_keys s :
  durable b s → NoDup (record_id <$> records s) ∧ ∀ r, r ∈ records s → st_records s !! record_id r = Some r.
Proof.
  intros Hd. split.
  - unfold records. assert (Hids : (record_id <$> (merge_sort by_id (map_to_list (st_records s))).*2)
      = (merge_sort by_id (map_to_list (st_records s))).*1).
    { rewrite <- list_fmap_compose. apply list_fmap_ext. intros i [id r] Hin. simpl.
      apply list_elem_of_lookup_2 in Hin. rewrite merge_sort_Permutation in Hin.
      apply elem_of_map_to_list in Hin. by apply (du_records _ _ Hd). }
    rewrite Hids, merge_sort_Permutation. apply NoDup_fst_map_to_list.
  - intros r (id & Hid)%in_records. destruct (du_records _ _ Hd _ _ Hid) as [<- _]. done.
Qed.

(** Pruning keeps the keys of the table within the old ones. *)
Lemma pruned_size active now cutoff (m m' : gmap string record) :
  (∀ id, pruned_entry active now cutoff id (m !! id) (m' !! id)) → (size m' ≤ size m)%nat.
Proof.
  intros Hp. rewrite <- !size_dom. apply subseteq_size. intros id [r Hr]%elem_of_dom.
  apply elem_of_dom. specialize (Hp id). rewrite Hr in Hp. inversion Hp; eauto.
Qed.

Lemma prune_ok j s now :
  durable b s → sys j s → stored_time now → Day30 < wall now →
  let cutoff := Add now (- Day30) in
  let persisted := if Before cutoff (st_floor s) then st_floor s else cutoff in
  let m := (fold_left (prune_one (j_active j) now cutoff) (records s) (st_records s, 0)).1 in
  let s' := MkStore m persisted in
  durable b s' ∧ evolves s s' ∧ sys j s'.
Proof.
  intros Hd Hs Hst Hpos cutoff persisted m s'.
  destruct (records_keys _ Hd) as [Hnd Hrec].
  assert (Hp : ∀ id, pruned_entry (j_active j) now cutoff id (st_records s !! id) (m !! id)).
  { apply prune_fold; auto. intros. constructor. }
  assert (Hday : 0 < wall now) by (unfold Day30, Day, Hour, Minute, Second in Hpos; lia).
  assert (Hsc : stored_time cutoff).
  { destruct Hst as [Hu Hy]. destruct now as [w []]; [|done]. unfold stored_time, year_ok in *.
    subst cutoff. simpl in *. unfold Day30, Day, Hour, Minute, Second in *. split; [done|]. lia. }
  pose proof (utc_wallclock _ (proj1 Hsc)) as Hwn.
  pose proof (pruned_size _ _ _ _ _ Hp) as Hsize.
  assert (Hfl : wall (st_floor s) ≤ wall persisted ∧ wall cutoff ≤ wall persisted ∧ stored_time persisted).
  { subst persisted. rewrite Before_wall_l by done. pose proof (du_floor _ _ Hd).
    destruct (wall cutoff <? _) eqn:E; bools; repeat split; try lia; by apply H || apply Hsc. }
  destruct Hfl as (Hf1 & Hf2 & Hf3). clearbody persisted m.
  assert (Hun : ∀ id r, m !! id = Some r → unresolved r = true → st_records s !! id = Some r).
  { intros id r Hr Hu. specialize (Hp id). rewrite Hr in Hp. inversion Hp; [done|].
    simplify_eq. by rewrite unresolved_terminate in Hu. }
  assert (Hcnt : (count unresolved m ≤ count unresolved (st_records s))%nat) by by apply count_le.
  split; [|split].
  - split; simpl; [| |pose proof (du_count _ _ Hd); lia|done|pose proof (du_size _ _ Hd); lia].
    + intros id r Hr. specialize (Hp id). rewrite Hr in Hp.
      inversion Hp as [? He|r0 Ha Hset Hex He|]; simplify_eq; [by apply (du_records _ _ Hd)|].
      destruct (du_records _ _ Hd id r0) as [Hid Hok]; [done|]. split; [done|]. by apply terminate_ok.
    + intros i i' r r' Hi Hi' Hne Hu Hu'. eapply (du_fenced _ _ Hd i i'); eauto.
  - split; simpl; [done| |].
    + intros id r Hr. specialize (Hp id). rewrite Hr in Hp.
      inversion Hp as [? He|r0 Ha Hset Hex He|r0 Ha Hter Hex He]; simplify_eq.
      * left. exists r. split; [done|apply progressed_refl].
      * left. eexists. split; [done|]. bools. split; try done; simpl; congruence.
      * right. split; [exists r; split; [apply progressed_refl|done]|].
        split; [|congruence]. rewrite After_wall_r in Hex by done. bools. unfold expires. lia.
    + intros id r' Hr'. specialize (Hp id). rewrite Hr' in Hp.
      inversion Hp as [? He|r0 Ha Hset Hex He|]; simplify_eq; left; eauto.
  - eapply sys_store; [done| |exact Hun|done]. intros id h Hact. specialize (Hp id). simpl.
    inversion Hp; congruence.
Qed.
(** ** Whole operations *)

(** The handle is current: no transaction is open and its view matches the
    tables.  A handle that failed promises nothing; it makes no more changes. *)
Definition current (j : Journal) (db : Jdb) : Prop :=
  j_binding j = b ∧ (usable j = true → db_tx db = None ∧ sys j (db_store db)).

Definition sound_from (s0 : Store) (db : Jdb) : Prop :=
  durable b (db_store db) ∧ evolves s0 (db_store db).

Definition op_post {X} (s0 : Store) (out : Journal * X) (db : Jdb) : Prop :=
  sound_from s0 db ∧ current out.1 db.

Lemma sound_here db : durable b (db_store db) → sound_from (db_store db) db.
Proof. intros. split; [done|apply evolves_refl]. Qed.

Lemma usable_fail j failed : usable (fail j failed) = usable j && negb failed.
Proof. unfold usable. simpl. by destruct (j_failed j), failed, (j_open j). Qed.

Lemma sys_fail j failed s : sys j s → sys (fail j failed) s.
Proof. by intros [Ha Hd Hf Hc Hh]; split. Qed.

Lemma op_idle {X} j (x : X) db :
  durable b (db_store db) → current j db →
  wpc journal_env (sound_from (db_store db)) (Ret (j, x)) (op_post (db_store db)) db.
Proof. intros. apply wpc_ret; [by apply sound_here|]. split; [by apply sound_here|done]. Qed.

(** An operation that is one transaction. *)
Lemma op_transaction {R X} j g s0 (body : prog JCall (result JError R)) (P : R → Store → Prop)
    (k : bool → R → Journal * X) (err : JError → X) :
  durable b s0 → current j (MkJdb s0 None) → usable j = true →
  wpb s0 body P (MkJdb s0 (Some s0)) →
  (∀ v s', P v s' → durable b s' ∧ evolves s0 s' ∧ j_binding (k false v).1 = b ∧ sys (k false v).1 s') →
  wpc journal_env (sound_from s0)
    (bind (transactionGuarded g body) (λ out, match out with
       | (failed, Err e) => Ret (fail j failed, err e)
       | (failed, Ok v) => Ret (k failed v) end)) (op_post s0) (MkJdb s0 None).
Proof.
  intros Hd [Hb Hs] Hu Hbody HP. destruct (Hs Hu) as [_ Hsys].
  assert (Hsound : ∀ db, maybe s0 P db → sound_from s0 db).
  { intros db [Heq|[v Hv]]; [|destruct (HP _ _ Hv) as (? & ? & _); by split].
    rewrite <- Heq. apply sound_here. by rewrite Heq. }
  apply wpc_bind. eapply wpc_mono; [exact Hsound| |by apply transactionGuarded_spec].
  intros [failed [v|e]] db; simpl.
  - intros (-> & Htx & Hv). destruct (HP _ _ Hv) as (Hd' & He & Hb' & Hs').
    assert (sound_from s0 db) by by split.
    apply wpc_ret; [done|]. by split.
  - intros [Hknown Hm]. apply wpc_ret; [by apply Hsound|]. split; [by apply Hsound|].
    split; [done|]. intros Hf. cbn [fst] in Hf. rewrite usable_fail, Hu in Hf. simpl in Hf. bools. rewrite Hknown by done.
    split; [done|]. by apply sys_fail.
Qed.

Lemma acquire_spec j k g db :
  durable b (db_store db) → current j db → wellformed_key k →
  wpc journal_env (sound_from (db_store db)) (acquire j k g) (op_post (db_store db)) db.
Proof.
  intros Hd Hc Hk. pose proof (sound_here _ Hd) as Hnow. unfold acquire.
  apply wpc_bind, check_spec; [done| |by apply op_idle]. cbn [negb].
  destruct (CanonicalJournalMetadata k) as [raw|] eqn:Hraw; [|by apply op_idle].
  destruct (binding_matches _ _) eqn:Hbind; cbn [negb]; [|by apply op_idle].
  apply wpc_call; [done|]. intros locked ? ->. destruct locked; [|by apply op_idle]. cbn [negb].
  destruct (usable j) eqn:Hu; [|by apply op_idle]. cbn [negb].
  destruct Hc as [Hb Hs]. destruct (Hs Hu) as [Htx Hsys]. destruct db as [s0 tx]. simpl in *. subst tx.
  apply (op_transaction j g s0 _ (acquire_step j k raw g s0)
    (λ failed a, (MkJournal (j_binding j) (j_failed j || failed) (j_open j)
       (if at_mutable a then <[k_ActionID k := j_next j]> (j_active j) else j_active j)
       (<[j_next j := a]> (j_heap j)) (S (j_next j)), Ok (j_next j))) Err); auto.
  - by split.
  - apply acquire_body_spec.
  - intros a s' Hstep. rewrite Hb in Hbind.
    destruct (acquire_step_ok _ _ _ _ _ _ _ Hd Hsys Hraw Hk Hbind Hstep) as (? & ? & Hs').
    do 3 (split; [done|]). simpl. by rewrite orb_false_r.
Qed.

(** What a successful body of [transition] has checked and written. *)
Definition transition_step (m : record) (now : time) (code : Code) (intent : bool) (s s' : Store) : Prop :=
  let id := k_ActionID (rc_key m) in
  ∃ r, st_records s !! id = Some r ∧ rc_raw r = rc_raw m ∧ has_terminal r = false
    ∧ Before now (rc_admitted r) = false ∧ (has_intent r && Before now (rc_intent r)) = false
    ∧ (intent = true → Before now (ExpiresAt (request_of m)) = true)
    ∧ s' = set_records s (<[id := if intent then intend r now else terminate r now code ""]> (st_records s)).

Lemma transition_body_spec a now code intent s :
  wpb s (transition_body a now code intent) (λ _, transition_step (at_record a) now code intent s)
    (MkJdb s (Some s)).
Proof.
  unfold transition_body. apply wpc_call; [done|]. intros broken ? ->.
  destruct broken; [apply body_err|]. apply wpc_call; [done|]. intros s' ? [-> ->]. simpl.
  destruct (st_records s !! _) as [r|] eqn:Hr; [|apply body_err].
  destruct (_ || _) eqn:Hchk; [apply body_err|]. destruct (intent && _) eqn:Hexp; [apply body_err|].
  apply body_write. exists r. bools. repeat split; auto.
  intros ->. simpl in Hexp. by bools.
Qed.

Lemma transition_spec j h code intent db :
  durable b (db_store db) → current j db →
  wpc journal_env (sound_from (db_store db)) (transition j h code intent) (op_post (db_store db)) db.
Proof.
  intros Hd Hc. pose proof (sound_here _ Hd) as Hnow. unfold transition.
  destruct (j_heap j !! h) as [a|] eqn:Hh; [|by apply op_idle].
  apply wpc_bind, check_spec; [done| |by apply op_idle]. cbn [negb].
  apply wpc_call; [done|]. intros locked ? ->. destruct locked; [|by apply op_idle]. cbn [negb].
  destruct (_ || _) eqn:Hguard; [by apply op_idle|].
  apply wpc_call; [done|]. intros t ? [-> Hclock]. bools.
  destruct (clock_stored _ Hclock) as [Hst Hpos]. set (now := UTC t) in *. clearbody now.
  destruct Hc as [Hb Hs]. destruct (Hs ltac:(done)) as [Htx Hsys].
  destruct db as [s0 tx]. simpl in *. subst tx.
  apply (op_transaction j (at_guarded a) s0 _ (λ _, transition_step (at_record a) now code intent s0)
    (λ failed _, (with_heap (fail j failed) _, None)) Some); auto.
  - by split.
  - apply transition_body_spec.
  - intros _ s' (r & Hr & _ & Hter & Hadm & Hord & Hexp & ->).
    destruct (transition_ok j s0 _ h a r now code intent Hd Hsys ltac:(eassumption) Hh Hr Hst Hpos Hter Hadm Hord)
      as (? & ? & Hs').
    { destruct intent; simpl in *; bools; auto. }
    do 3 (split; [done|]). by apply (sys_fail _ false) in Hs'.
Qed.

Lemma Prune_spec j db :
  durable b (db_store db) → current j db →
  wpc journal_env (sound_from (db_store db)) (Prune j) (op_post (db_store db)) db.
Proof.
  intros Hd Hc. pose proof (sound_here _ Hd) as Hnow. unfold Prune.
  apply wpc_call; [done|]. intros locked ? ->. destruct locked; [|by apply op_idle]. cbn [negb].
  destruct (usable j) eqn:Hu; [|by apply op_idle]. cbn [negb].
  pose proof Hc as [Hb Hs]. destruct (Hs Hu) as [Htx Hsys].
  destruct db as [s0 tx]. simpl in *. subst tx.
  apply (op_transaction j false s0 _ (λ _ s', durable b s' ∧ evolves s0 s' ∧ sys j s')
    (λ failed _, (fail j failed, None)) Some); auto.
  - unfold prune_body. apply wpc_call; [done|]. intros broken ? ->.
    destruct broken; [apply body_err|]. apply wpc_call; [done|]. intros s' ? [-> ->]. simpl.
    apply wpc_call; [done|]. intros t ? [-> Hclock]. destruct (clock_stored _ Hclock).
    apply body_write. apply prune_ok; [done|done|done|apply Hclock].
  - intros _ s' (? & ? & ?). do 3 (split; [done|]). by apply sys_fail.
Qed.
End operations.
