(* ===== verification/ActionJournalLife.v ===== *)
(** * The life of an action journal

    [jlife] is any sequence of journal operations by any callers, with every
    statement failure the database can show, crashes in the middle of an
    operation, attempts and handles being closed, and reopenings.  The theorems
    hold at every point of every such life that starts from a provisioned store:
    what [verify] checks on opening always holds, the rows always reload, the
    permits and fences never admit two concurrent changes of one container, and
    one admitted action records at most one intent, ever. *)

From stdpp Require Import sorting.
From S2P Require Import Prelude GoTime GoCalendar Effects ActionCore ActionJournal ActionJournalSafety.

#[local] Opaque ParseJournalMetadata CanonicalJournalMetadata canonicalTime FormatRFC3339Nano.

(** The operations a caller can start on a handle, with their result types. *)
Inductive jop : Type → Type :=
| OpAcquire (k : Key) (guarded : bool) (H : wellformed_key k) : jop (result JError nat)
| OpIntent (h : nat) : jop (option JError)
| OpFinish (h : nat) (code : Code) : jop (option JError)
| OpPrune : jop (option JError).

Definition op_run {R} (o : jop R) (j : Journal) : prog JCall (Journal * R) :=
  match o in jop T return prog JCall (Journal * T) with
  | OpAcquire k g _ => acquire j k g
  | OpIntent h => Intent j h
  | OpFinish h code => Finish j h code
  | OpPrune => Prune j
  end.

(** The store [Provision] leaves: no records, the floor at the zero time. *)
Definition provisioned : Store := MkStore ∅ zeroTime.

Definition jstate : Type := option Journal * Jdb.

(** A handle holds the directory lock, so there is one at a time; a crash drops
    it together with any open transaction. *)
Inductive jstep (b : JBinding) : jstate → jstate → Prop :=
| step_open db : verify b (tables b (db_store db)) = true → jstep b (None, db) (Some (opened b), MkJdb (db_store db) None)
| step_op R (o : jop R) j db j' r db' :
    exec journal_env (op_run o j) db (Ret (j', r)) db' → jstep b (Some j, db) (Some j', db')
| step_crash R (o : jop R) j db p db' :
    exec journal_env (op_run o j) db p db' → jstep b (Some j, db) (None, MkJdb (db_store db') None)
| step_close_attempt j db h : jstep b (Some j, db) (Some (CloseAttempt j h), db)
| step_close j db : jstep b (Some j, db) (Some (CloseJournal j), MkJdb (db_store db) None)
| step_forget j db : j_open j = false → jstep b (Some j, db) (None, db).

Definition jlife (b : JBinding) : jstate → jstate → Prop := rtc (jstep b).
Definition born : jstate := (None, MkJdb provisioned None).

(** ** The invariant *)

Section life.
Variable b : JBinding.

Definition jinv (st : jstate) : Prop :=
  durable b (db_store st.2) ∧ match st.1 with Some j => current b j st.2 | None => True end.

Lemma durable_provisioned : durable b provisioned.
Proof. split; simpl; [intros; simplify_map_eq..|rewrite count_empty; lia|done|done]. Qed.

Lemma sys_opened s : durable b s → sys (opened b) s.
Proof. intros Hd. split; simpl; [intros; simplify_map_eq..|rewrite count_empty|done]. pose proof (du_count _ _ Hd). lia. Qed.

Lemma op_spec {R} (o : jop R) j db :
  durable b (db_store db) → current b j db →
  wpc journal_env (sound_from b (db_store db)) (op_run o j) (op_post b (db_store db)) db.
Proof. intros. destruct o; [by apply acquire_spec|by apply transition_spec|by apply transition_spec|by apply Prune_spec]. Qed.

Lemma sys_close_attempt j s h : durable b s → sys j s → sys (CloseAttempt j h) s.
Proof.
  intros Hd Hs. unfold CloseAttempt. destruct (j_heap j !! h) as [a|] eqn:Hh; [|done].
  destruct (at_closed a); [done|]. set (id := k_ActionID (rc_key (at_record a))).
  set (act := if bool_decide _ then _ else _).
  assert (Hsub : act ⊆ j_active j) by (subst act; case_bool_decide; [apply delete_subseteq|done]).
  assert (Hlook : ∀ i n, act !! i = Some n → j_active j !! i = Some n)
    by (intros; by eapply lookup_weaken). clearbody act.
  assert (Hperm : ∀ n, is_permit (MkJournal (j_binding j) (j_failed j) (j_open j) act
     (<[h := MkAttempt (at_record a) true (at_mutable a) (at_guarded a)]> (j_heap j)) (j_next j)) n
     = is_permit j n).
  { intros n. unfold is_permit. simpl. destruct (decide (n = h)) as [->|]; simplify_map_eq; done. }
  destruct Hs as [Ha Hdi Hf Hc Hx]. split; simpl.
  - intros i n Hi%Hlook. destruct (Ha _ _ Hi) as (a' & r & Ha' & ? & ? & ?).
    destruct (decide (n = h)) as [->|]; simplify_map_eq; eauto 10.
  - intros i i' n n' r r' Hi%Hlook Hi'%Hlook. eauto.
  - intros i i' n r r' Hi%Hlook. eauto.
  - rewrite (count_ext _ (is_permit j)) by done.
    assert (count (is_permit j) act ≤ count (is_permit j) (j_active j))%nat by (apply count_le; eauto). lia.
  - intros n Hn. rewrite lookup_insert_ne; [auto|]. intros ->. specialize (Hx _ Hn). congruence.
Qed.

Lemma usable_CloseAttempt j h : usable (CloseAttempt j h) = usable j ∧ j_binding (CloseAttempt j h) = j_binding j.
Proof. unfold CloseAttempt. by destruct (j_heap j !! h) as [a|]; [destruct (at_closed a)|]. Qed.

Lemma jstep_inv st st' : jinv st → jstep b st st' → jinv st' ∧ evolves (db_store st.2) (db_store st'.2).
Proof.
  intros [Hd Hc] Hstep. destruct Hstep; simpl in *.
  - split; [|apply evolves_refl]. split; [done|]. split; [done|]. intros _. split; [done|]. by apply sys_opened.
  - pose proof (wpc_return _ _ _ _ _ _ _ (op_spec _ _ _ Hd Hc) H) as [[Hd' He] Hc']. by split.
  - pose proof (wpc_crash _ _ _ _ _ _ _ (op_spec _ _ _ Hd Hc) H) as [Hd' He]. by split.
  - split; [|apply evolves_refl]. split; [done|]. destruct (usable_CloseAttempt j h) as [Hu Hb].
    destruct Hc as [Hjb Hc]. split; [simpl; congruence|]. simpl. rewrite Hu. intros Hus.
    destruct (Hc Hus). split; [done|]. by apply sys_close_attempt.
  - split; [|apply evolves_refl]. destruct Hc as [Hjb _]. split; [done|]. by split.
  - split; [|apply evolves_refl]. by split.
Qed.

Lemma jlife_inv st st' : jinv st → jlife b st st' → jinv st' ∧ evolves (db_store st.2) (db_store st'.2).
Proof.
  intros Hi Hl. induction Hl as [st|st st1 st2 Hs Hl IH]; [split; [done|apply evolves_refl]|].
  destruct (jstep_inv _ _ Hi Hs) as [Hi1 He1]. destruct (IH Hi1) as [Hi2 He2]. split; [done|].
  eapply evolves_trans; [apply Hi|apply Hi1|apply Hi2|done|done].
Qed.

Lemma born_inv : jinv born.
Proof. split; [apply durable_provisioned|done]. Qed.

Lemma reachable_inv st : jlife b born st → jinv st.
Proof. intros Hl. by apply (jlife_inv _ _ born_inv Hl). Qed.

(** ** What opening verifies *)

Lemma verify_unresolved_ok rs targets physicals n :
  NoDup (record_id <$> rs) →
  (∀ r r', r ∈ rs → r' ∈ rs → record_id r ≠ record_id r' → unresolved r = true → unresolved r' = true → ¬ clash r r') →
  (∀ r, r ∈ rs → unresolved r = true → (target r ∉ targets) ∧ (physical r ∉ physicals)) →
  (n + length (filter (λ r, unresolved r = true) rs) ≤ 2)%nat →
  verify_unresolved targets physicals rs n = true.
Proof.
  revert targets physicals n. induction rs as [|r rs IH]; intros targets physicals n Hnd Hpair Hout Hn.
  { simpl in *. apply Nat.leb_le. lia. }
  rewrite fmap_cons in Hnd. apply NoDup_cons in Hnd as [Hnin Hnd].
  assert (Hne : ∀ x, x ∈ rs → record_id x ≠ record_id r).
  { intros x Hx Heq. apply Hnin. rewrite <- Heq. apply list_elem_of_fmap. eauto. }
  rewrite filter_cons in Hn. simpl. destruct (unresolved r) eqn:Hu.
  - rewrite decide_True in Hn by done.
    assert (Hr : r ∈ r :: rs) by constructor. destruct (Hout r Hr Hu) as [Ht Hp].
    rewrite !bool_decide_eq_false_2 by done. apply IH; auto.
    + intros x y Hx Hy. apply Hpair; by constructor.
    + intros x Hx Hux. assert (Hx' : x ∈ r :: rs) by by constructor.
      destruct (Hout x Hx' Hux) as [Htx Hpx]. assert (Hcl : ¬ clash x r) by (apply Hpair; auto; by constructor).
      split; rewrite not_elem_of_cons; (split; [|done]); intros Heq; apply Hcl; [by left|by right].
    + simpl in Hn. lia.
  - rewrite decide_False in Hn by congruence. apply IH; auto.
    + intros x y Hx Hy. apply Hpair; by constructor.
    + intros x Hx. apply Hout. by constructor.
Qed.

Lemma records_length s : length (records s) = size (st_records s).
Proof. unfold records. by rewrite length_fmap, merge_sort_Permutation, length_map_to_list. Qed.

(** Any selection of the stored records is loaded from its rows as it is. *)
Lemma load_selection (f : record → bool) s :
  durable b s → let rs := filter (λ r, f r = true) (records s) in
  load b (action_row <$> rs) (rs ≫= keyed_events) = Some rs.
Proof.
  intros Hd rs. destruct (records_keys _ _ Hd) as [Hnd Hin]. apply load_rows.
  - intros r [_ Hr%Hin]%list_elem_of_filter. by apply (du_records _ _ Hd) in Hr as [_ Hr].
  - apply NoDup_fmap_2_strong; [|by eapply NoDup_filter, NoDup_fmap_1].
    intros x y [_ Hx%Hin]%list_elem_of_filter [_ Hy%Hin]%list_elem_of_filter Heq. congruence.
  - pose proof (du_size _ _ Hd). pose proof (length_filter (λ r, f r = true) (records s)).
    rewrite records_length in *. subst rs. lia.
Qed.

Lemma filter_all {A} (l : list A) : filter (λ _, true = true) l = l.
Proof. induction l as [|x l IH]; [done|]. rewrite filter_cons, decide_True, IH; done. Qed.

Lemma load_all s :
  durable b s → load b (tb_actions (tables b s)) (tb_events (tables b s)) = Some (records s).
Proof. intros Hd. pose proof (load_selection (λ _, true) s Hd) as H. simpl in H. by rewrite filter_all in H. Qed.

Lemma no_orphans s : orphans (tables b s) = 0%nat.
Proof.
  unfold orphans. simpl. destruct (filter _ _) as [|[id e] l] eqn:Hf; [done|]. exfalso.
  assert (Hin : (id, e) ∈ (id, e) :: l) by constructor. rewrite <- Hf in Hin.
  apply list_elem_of_filter in Hin as [Hn Hin]. apply Hn.
  apply list_elem_of_bind in Hin as (r & Hin & Hr). apply list_elem_of_fmap in Hin as (e' & [= -> ->] & _).
  rewrite <- list_fmap_compose. apply list_elem_of_fmap. by exists r.
Qed.

Lemma floor_stored s : durable b s → floor b (tables b s) = Some (st_floor s).
Proof.
  intros Hd. unfold floor. cbn [tables tb_metadata]. rewrite bool_decide_eq_true_2 by done.
  apply parse_stamp, (du_floor _ _ Hd).
Qed.

Lemma durable_verify s : durable b s → verify b (tables b s) = true.
Proof.
  intros Hd. destruct (records_keys _ _ Hd) as [Hnd Hin]. unfold verify.
  rewrite floor_stored, load_all, no_orphans, andb_true_r by done. apply verify_unresolved_ok; auto.
  - intros r r' Hr Hr' Hne. by apply (du_fenced _ _ Hd (record_id r) (record_id r')); auto.
  - intros r _ _. split; apply not_elem_of_nil.
  - pose proof (du_count _ _ Hd). rewrite <- unknown_count in H. exact H.
Qed.

(** ** What a successful operation has done *)

Definition transition_done (j : Journal) (h : nat) (code : Code) (intent : bool) (s s' : Store) : Prop :=
  ∃ a now, j_heap j !! h = Some a ∧ usable j = true
    ∧ j_active j !! k_ActionID (rc_key (at_record a)) = Some h
    ∧ (intent = true → has_intent (at_record a) = false)
    ∧ 0 < wall now ∧ transition_step (at_record a) now code intent s s'.

Lemma transition_success j h code intent db :
  current b j db →
  wp journal_env (transition j h code intent)
    (λ out db', out.2 = None → transition_done j h code intent (db_store db) (db_store db')) db.
Proof.
  intros [Hb Hc]. unfold transition. destruct (j_heap j !! h) as [a|] eqn:Hh; [|by apply wpc_ret].
  apply wp_bind, check_spec; [done| |by apply wpc_ret]. cbn [negb].
  apply wpc_call; [done|]. intros locked ? ->. destruct locked; [|by apply wpc_ret]. cbn [negb].
  destruct (_ || _) eqn:Hguard; [by apply wpc_ret|].
  apply wpc_call; [done|]. intros t ? [-> Hclock]. bools.
  destruct (clock_stored _ Hclock) as [Hst Hpos]. destruct (Hc ltac:(done)) as [Htx _].
  destruct db as [s tx]. simpl in *. subst tx. apply wpc_bind.
  eapply wpc_mono; [done| |apply transactionGuarded_spec, transition_body_spec].
  intros [failed [v|e]] db'; simpl; intros Hpost; apply wpc_ret; try done.
  intros _. destruct Hpost as (_ & _ & Hstep). exists a, (UTC t). repeat split; auto.
  intros ->. simpl in *. done.
Qed.

Lemma intent_done j h db j' db' :
  current b j db → exec journal_env (Intent j h) db (Ret (j', None)) db' →
  transition_done j h NoCode true (db_store db) (db_store db').
Proof. intros Hc Hx. pose proof (wpc_return _ _ _ _ _ _ _ (transition_success j h NoCode true db Hc) Hx). auto. Qed.

Lemma acquire_success j k g db :
  current b j db →
  wp journal_env (acquire j k g)
    (λ out db', ∀ h, out.2 = Ok h → ∃ raw a, CanonicalJournalMetadata k = Some raw
       ∧ usable j = true ∧ j_heap out.1 !! h = Some a
       ∧ acquire_step j k raw g (db_store db) a (db_store db')) db.
Proof.
  intros [Hb Hc]. unfold acquire.
  apply wp_bind, check_spec; [done| |by apply wpc_ret]. cbn [negb].
  destruct (CanonicalJournalMetadata k) as [raw|] eqn:Hraw; [|by apply wpc_ret].
  destruct (binding_matches _ _) eqn:Hbind; cbn [negb]; [|by apply wpc_ret].
  apply wpc_call; [done|]. intros locked ? ->. destruct locked; [|by apply wpc_ret]. cbn [negb].
  destruct (usable j) eqn:Hu; [|by apply wpc_ret]. cbn [negb]. destruct (Hc eq_refl) as [Htx _].
  destruct db as [s tx]. simpl in *. subst tx. apply wpc_bind.
  eapply wpc_mono; [done| |apply transactionGuarded_spec, acquire_body_spec].
  intros [failed [a|e]] db'; simpl; intros Hpost; apply wpc_ret; try done.
  intros h [= <-]. destruct Hpost as (_ & _ & Hstep). exists raw, a. simpl. by simplify_map_eq.
Qed.
End life.

(** ** Theorems *)

(** C28: At every point of the journal's life, crashes and failed statements
    included, opening accepts the tables: the pruning floor is read back as it
    was stored, loading the rows refuses none (no more than a thousand actions,
    two events for each, every column within its bounds, every row valid, no
    event without its action) and gives exactly the stored records, at most two
    of them unresolved and no two of those on one target or one container.  The
    loads the operations make, of one action or of the actions related to a key,
    give exactly these records as well. *)
Theorem journal_stays_verified b st :
  jlife b born st →
  let s := db_store st.2 in
  verify b (tables b s) = true
  ∧ floor b (tables b s) = Some (st_floor s)
  ∧ load b (tb_actions (tables b s)) (tb_events (tables b s)) = Some (records s)
  ∧ (∀ k, load b (action_row <$> related s k) (related s k ≫= keyed_events) = Some (related s k))
  ∧ ∀ id r, st_records s !! id = Some r →
      record_id r = id ∧ load b [action_row r] (keyed_events r) = Some [r].
Proof.
  intros [Hd _]%reachable_inv s. split; [by apply durable_verify|].
  split; [by apply floor_stored|]. split; [by apply load_all|]. split; [intros k; by apply load_selection|].
  intros id r Hr. destruct (du_records _ _ Hd _ _ Hr) as [Hid Hok]. split; [done|].
  pose proof (load_rows b [r]) as Hl. simpl in Hl. rewrite app_nil_r in Hl. apply Hl; [|apply NoDup_singleton|done].
  by intros ? ->%list_elem_of_singleton.
Qed.

(** Nothing durable is lost or rewritten: between any two points of a
    journal's life every record keeps its metadata and admission, keeps its intent
    once it has one, and is frozen once it is terminal; it can disappear only
    after it became terminal and its expiry fell below the persisted floor, and
    the same metadata is never stored again afterwards; the floor never falls. *)
Theorem journal_history_kept b st st' :
  jlife b born st → jlife b st st' → evolves (db_store st.2) (db_store st'.2).
Proof. intros Hi%reachable_inv Hl. by apply (jlife_inv _ _ _ Hi Hl). Qed.

(** C1: One admitted action is dispatched at most once.  After an intent was
    recorded for an action, no intent for the same canonical metadata is ever
    recorded again, by any attempt on any later handle, whatever operations,
    failures, crashes, prunes and reopenings happen in between. *)
Theorem journal_one_intent_per_action b j h a db j1 db1 j2 h2 a2 db2 j3 db3 :
  jlife b born (Some j, db) → j_heap j !! h = Some a →
  exec journal_env (Intent j h) db (Ret (j1, None)) db1 →
  jlife b (Some j1, db1) (Some j2, db2) → j_heap j2 !! h2 = Some a2 →
  exec journal_env (Intent j2 h2) db2 (Ret (j3, None)) db3 →
  rc_raw (at_record a2) ≠ rc_raw (at_record a).
Proof.
  intros Hl Ha Hx Hl2 Ha2 Hx2 Heq. pose proof (reachable_inv _ _ Hl) as Hi.
  destruct (jstep_inv b _ (Some j1, db1) Hi (step_op b _ (OpIntent h) j db j1 None db1 Hx))
    as [Hi1 _]. destruct Hi as [Hd Hc]. simpl in Hd, Hc.
  destruct (jlife_inv b _ _ Hi1 Hl2) as [[Hd2 Hc2] Hev]. simpl in *. destruct Hi1 as [Hd1 _]. simpl in *.
  destruct (intent_done _ _ _ _ _ _ Hc Hx) as (a' & now & Ha' & _ & _ & _ & Hpos & r & Hr & Hraw & _ & _ & _ & _ & Hs1).
  destruct (intent_done _ _ _ _ _ _ Hc2 Hx2) as (a'' & now2 & Ha'' & Hu2 & Hact2 & Hni & _ & r2 & Hr2 & Hraw2 & _).
  simplify_eq. set (id := k_ActionID (rc_key (at_record a))) in *.
  assert (Hst1 : st_records (db_store db1) !! id = Some (intend r now)) by (rewrite Hs1; simpl; by simplify_map_eq).
  destruct (proj2 Hc2 Hu2) as [_ Hsys2]. destruct (sy_active _ _ Hsys2 _ _ Hact2) as (a3 & r3 & Ha3 & Hr3 & _ & Hag).
  simplify_eq. destruct (du_records _ _ Hd2 _ _ Hr2) as [Hid2 Hok2]. destruct (du_records _ _ Hd1 _ _ Hst1) as [Hid Hok].
  assert (Hkeys : rc_key r2 = rc_key r).
  { pose proof (ok_key _ _ Hok2) as P2. pose proof (ok_key _ _ Hok) as P1. simpl in P1.
    replace (rc_raw r2) with (rc_raw r) in P2 by congruence. congruence. }
  assert (Hsame : k_ActionID (rc_key (at_record a2)) = id)
    by (rewrite <- Hid2, Hkeys; exact Hid).
  rewrite Hsame in *. destruct (ev_keep _ _ Hev _ _ Hst1) as [(r' & Hr' & Hp)|(_ & _ & Hne)].
  - assert (r' = r2) as -> by congruence. assert (Hint : has_intent r2 = true).
    { unfold has_intent. rewrite (pr_intent _ _ Hp) by by apply flags_intend. by apply flags_intend. }
    rewrite <- (ag_intent _ _ Hag), Hni in Hint; done.
  - apply (Hne _ Hr2). simpl. congruence.
Qed.

(** C37: A usable handle never over-commits: the unresolved actions in the tables
    and the permits held by active attempts together never exceed two, and of the
    actions that are active or unresolved no two share a target or a container:
    neither two active ones, nor an active and an unresolved one, nor two
    unresolved ones. *)
Theorem journal_permits_bounded b j db :
  jlife b born (Some j, db) → usable j = true →
  (unknown (db_store db) + length (filter (λ a, permit a = true) (active_attempts j)) ≤ 2)%nat
  ∧ (∀ id id' h h' r r', j_active j !! id = Some h → j_active j !! id' = Some h' → id ≠ id' →
       st_records (db_store db) !! id = Some r → st_records (db_store db) !! id' = Some r' → ¬ clash r r')
  ∧ (∀ id id' h r r', j_active j !! id = Some h → id ≠ id' →
       st_records (db_store db) !! id = Some r → st_records (db_store db) !! id' = Some r' →
       unresolved r' = true → ¬ clash r r')
  ∧ (∀ id id' r r', id ≠ id' →
       st_records (db_store db) !! id = Some r → st_records (db_store db) !! id' = Some r' →
       unresolved r = true → unresolved r' = true → ¬ clash r r').
Proof.
  intros [Hd [_ Hc]]%reachable_inv Hu. destruct (Hc Hu) as [_ Hs].
  rewrite unknown_count, permits_count. split; [apply Hs|]. split; [apply Hs|]. split; [apply Hs|].
  intros id id' r r' Hne Hr Hr'. by apply (du_fenced _ _ Hd id id').
Qed.

(** A mutable attempt is granted only when nothing stands in the way: the
    handle was usable, no unresolved record and no active attempt shares the
    target or the container, fewer than two permits and unresolved actions are
    outstanding, and the action is stored, unsettled, under the canonical
    metadata of the requested key. *)
Theorem journal_grant_is_exclusive b j k g db j' h db' a :
  jlife b born (Some j, db) → wellformed_key k →
  exec journal_env (acquire j k g) db (Ret (j', Ok h)) db' →
  j_heap j' !! h = Some a → at_mutable a = true →
  (∀ id r, st_records (db_store db) !! id = Some r → is_related k r = true → unresolved r = false)
  ∧ (∀ id n x, j_active j !! id = Some n → j_heap j !! n = Some x → is_related k (at_record x) = false)
  ∧ (length (filter (λ a, permit a = true) (active_attempts j)) + unknown (db_store db) < 2)%nat
  ∧ ∃ r, st_records (db_store db') !! k_ActionID k = Some r
      ∧ CanonicalJournalMetadata k = Some (rc_raw r) ∧ has_terminal r || has_intent r = false.
Proof.
  intros [_ Hc]%reachable_inv Hk Hx Ha Hm. simpl in Hc.
  destruct (wpc_return _ _ _ _ _ _ _ (acquire_success _ j k g db Hc) Hx h eq_refl)
    as (raw & a' & Hraw & _ & Ha' & Hstep). simpl in Ha'. simplify_eq.
  rewrite permits_count, unknown_count.
  inversion Hstep as [| |s r Hr Hrr Hset [G1 G2 G3 G4]|s now Hr Hst H1 H2 H3 H4 [G1 G2 G3 G4]]; subst; try done;
    (split; [done|]; split; [done|]; split; [done|]).
  - by exists r.
  - eexists. split; [by simplify_map_eq|]. done.
Qed.

(** ** A concrete life *)

(** A database on which every statement succeeds, read at the instant [t]. *)
Definition healthy (t : time) (A : Type) (e : JCall A) : Jdb → A * Jdb :=
  match e in JCall T return Jdb → T * Jdb with
  | JTryLock | JGuard => λ db, (true, db)
  | JFault => λ db, (false, db)
  | JBegin => λ db, match db_tx db with
                    | None => (true, MkJdb (db_store db) (Some (db_store db)))
                    | Some _ => (false, db) end
  | JRead => λ db, (default (db_store db) (db_tx db), db)
  | JWrite s => λ db, (tt, MkJdb (db_store db) (Some s))
  | JNow => λ db, (t, db)
  | JCommit => λ db, match db_tx db with Some s => (true, MkJdb s None) | None => (false, db) end
  | JRollback => λ db, (true, MkJdb (db_store db) None)
  end.

Lemma healthy_journal_env t : clock_in_range t → ∀ A (e : JCall A) u,
  journal_env A e u (healthy t A e u).1 (healthy t A e u).2.
Proof.
  intros Ht A e u. destruct e; simpl; auto; destruct u as [s [tx|]]; simpl; eauto.
Qed.

Definition after {R} (t : time) (o : jop R) (j : Journal) (db : Jdb) : Journal * R * Jdb :=
  run (healthy t) (op_run o j) db.

Lemma after_exec {R} t (o : jop R) j db r :
  clock_in_range t → (after t o j db).1.2 = r →
  exec journal_env (op_run o j) db (Ret ((after t o j db).1.1, r)) (after t o j db).2.
Proof.
  intros Ht <-. unfold after. pose proof (run_exec _ _ (op_run o j) db (healthy_journal_env t Ht)) as H.
  destruct (run (healthy t) (op_run o j) db) as [[j' r'] db']. exact H.
Qed.

Lemma after_op {R} t (o : jop R) j db out r :
  clock_in_range t → after t o j db = out → out.1.2 = r →
  exec journal_env (op_run o j) db (Ret (out.1.1, r)) out.2.
Proof. intros Ht <- Hr. by apply after_exec. Qed.

(** ** Progress *)

(** Admission is not vacuous: on a usable handle with a healthy database, a
    valid key of this binding whose action is new, whose window contains the
    current time, whose expiry lies above the pruning floor, and which no fence,
    no active attempt and no limit blocks, is admitted: its row is stored and a
    mutable attempt is returned and registered. *)
Theorem acquire_admits t j k raw n s :
  usable j = true → CanonicalJournalMetadata k = Some raw →
  binding_matches (j_binding j) (md_Request (k_Metadata k)) = true →
  st_records s !! k_ActionID k = None → j_active j !! k_ActionID k = None →
  Before (UTC t) (CreatedAt (md_Request (k_Metadata k))) = false →
  Before (UTC t) (ExpiresAt (md_Request (k_Metadata k))) = true →
  After (ExpiresAt (md_Request (k_Metadata k))) (st_floor s) = true →
  fence (UTC t) (related s k) = None → permits k (active_attempts j) = Some n →
  (n + unknown s < 2)%nat → (size (st_records s) < 1000)%nat →
  let row := MkRec (utc_key k) raw (UTC t) zeroTime zeroTime NoCode "" in
  ∃ j', run (healthy t) (acquire j k false) (MkJdb s None)
    = ((j', Ok (j_next j)), MkJdb (set_records s (<[k_ActionID k := row]> (st_records s))) None)
  ∧ usable j' = true ∧ j_active j' !! k_ActionID k = Some (j_next j)
  ∧ j_heap j' !! j_next j
    = Some (MkAttempt (MkRec k raw (UTC t) zeroTime zeroTime NoCode "") false true false).
Proof.
  intros Hu Hraw Hb Hr Hact Hc He Hfl Hfen Hp Hn Hsz row.
  assert (Hbody : run (healthy t) (acquire_body j k raw false) (MkJdb s (Some s))
    = (Ok (MkAttempt (MkRec k raw (UTC t) zeroTime zeroTime NoCode "") false true false),
       MkJdb s (Some (set_records s (<[k_ActionID k := row]> (st_records s)))))).
  { simpl. rewrite Hr. unfold acquire_new.
    rewrite bool_decide_eq_false_2 by (rewrite Hact; by intros [? ?]). cbn [run healthy].
    rewrite Hc, He, Hfl, Hfen, Hp. cbn [negb]. rewrite andb_false_r.
    rewrite (proj2 (Nat.ltb_ge 2 (unknown s))), (proj2 (Nat.leb_gt 2 (n + unknown s))) by lia.
    unfold maxRecords. replace (1000 <? Z.of_nat (size (st_records s))) with false by lia.
    by replace (Z.of_nat (size (st_records s)) =? 1000) with false by lia. }
  eexists. split; [|repeat split; simpl].
  - unfold acquire. cbn [check]. rewrite run_bind. cbn [run]. cbn [negb]. rewrite Hraw, Hb.
    cbn [run healthy negb]. rewrite Hu. cbn [negb].
    rewrite run_bind. unfold transactionGuarded. cbn [check]. rewrite run_bind. cbn [run healthy negb db_tx db_store].
    by rewrite run_bind, Hbody.
  - unfold usable in *. simpl. by rewrite orb_false_r.
  - by simplify_map_eq.
  - by simplify_map_eq.
Qed.

(** ** Witnesses *)

Module JournalSample.
Definition binding : JBinding :=
  MkJBinding (ServerID ActionSample.request) (InstallationID ActionSample.request) (OwnerID ActionSample.request).
Definition now : time := At (63800000001 * Second).

(** A second action on another target. *)
Definition digits : string := "fedcba9876543210fedcba9876543210".
Definition request2 : Request :=
  let r := ActionSample.request in
  MkRequest ("hla_" ++ digits) (ServerID r) (InstallationID r) (OwnerID r) (ActorID r) ("hlt_" ++ digits)
    Stop 10 3 7 (CreatedAt r) (ExpiresAt r).
Definition binding2 : Binding :=
  let r := request2 in
  MkBinding (ServerID r) (InstallationID r) (OwnerID r) (TargetID r) digits (digits ++ digits) 3 7 10 [Start; Stop].
Definition key1 : Key := ActionSample.key.
Definition key2 : Key :=
  MkKey (ActionID request2) (TargetID request2) (fingerprint request2 binding2)
    (MkMetadata request2 digits (digits ++ digits)).

Lemma key1_wellformed : wellformed_key key1.
Proof. split; [vm_compute; repeat split; discriminate|vm_compute; split; reflexivity]. Qed.
Lemma key2_wellformed : wellformed_key key2.
Proof. split; [vm_compute; repeat split; discriminate|vm_compute; split; reflexivity]. Qed.
Lemma now_in_range : clock_in_range now.
Proof. vm_compute. split; reflexivity. Qed.

(** Acquire and intend the first action, then the second. *)
Definition op1 := OpAcquire key1 true key1_wellformed.
Definition op3 := OpAcquire key2 false key2_wellformed.
Definition j0 : Journal := opened binding.
Definition db0 : Jdb := MkJdb provisioned None.
Definition out1 := Eval vm_compute in run (healthy now) (acquire j0 key1 true) db0.
Definition out2 := Eval vm_compute in run (healthy now) (Intent out1.1.1 0) out1.2.
Definition out3 := Eval vm_compute in run (healthy now) (acquire out2.1.1 key2 false) out2.2.
Definition out4 := Eval vm_compute in run (healthy now) (Intent out3.1.1 1) out3.2.

Lemma out1_run : after now op1 j0 db0 = out1.
Proof. vm_compute. reflexivity. Qed.
Lemma out2_run : after now (OpIntent 0) out1.1.1 out1.2 = out2.
Proof. vm_compute. reflexivity. Qed.
Lemma out3_run : after now op3 out2.1.1 out2.2 = out3.
Proof. vm_compute. reflexivity. Qed.
Lemma out4_run : after now (OpIntent 1) out3.1.1 out3.2 = out4.
Proof. vm_compute. reflexivity. Qed.

Lemma life_opened : jlife binding born (Some j0, db0).
Proof. apply rtc_once. apply (step_open binding db0). vm_compute. reflexivity. Qed.
Lemma life1 : jlife binding born (Some out1.1.1, out1.2).
Proof. apply (rtc_r _ _ _ life_opened), (step_op binding _ op1 _ _ _ _ _ (after_op now op1 _ _ out1 _ now_in_range out1_run eq_refl)). Qed.
Lemma life3 : jlife binding (Some out2.1.1, out2.2) (Some out3.1.1, out3.2).
Proof. apply rtc_once, (step_op binding _ op3 _ _ _ _ _ (after_op now op3 _ _ out3 _ now_in_range out3_run eq_refl)). Qed.
Lemma intent1 : exec journal_env (Intent out1.1.1 0) out1.2 (Ret (out2.1.1, None)) out2.2.
Proof. exact (after_op now (OpIntent 0) _ _ out2 None now_in_range out2_run eq_refl). Qed.
Lemma intent2 : exec journal_env (Intent out3.1.1 1) out3.2 (Ret (out4.1.1, None)) out4.2.
Proof. exact (after_op now (OpIntent 1) _ _ out4 None now_in_range out4_run eq_refl). Qed.
Lemma life2 : jlife binding born (Some out2.1.1, out2.2).
Proof. apply (rtc_r _ _ _ life1), (step_op binding _ (OpIntent 0) _ _ _ _ _ intent1). Qed.
Lemma acquire2 : exec journal_env (acquire out2.1.1 key2 false) out2.2 (Ret (out3.1.1, Ok 1%nat)) out3.2.
Proof. exact (after_op now op3 _ _ out3 (Ok 1%nat) now_in_range out3_run eq_refl). Qed.
End JournalSample.

Import JournalSample.

Lemma journal_stays_verified_witness :
  verify binding (tables binding (db_store out2.2)) = true ∧ size (st_records (db_store out2.2)) = 1%nat.
Proof.
  split; [exact (proj1 (journal_stays_verified binding (Some out2.1.1, out2.2) life2))|vm_compute; reflexivity].
Defined.

Lemma journal_history_kept_witness : evolves (db_store out2.2) (db_store out3.2).
Proof. exact (journal_history_kept binding (Some out2.1.1, out2.2) (Some out3.1.1, out3.2) life2 life3). Defined.

Lemma journal_one_intent_per_action_witness :
  ∃ a a2, j_heap out1.1.1 !! 0%nat = Some a ∧ j_heap out3.1.1 !! 1%nat = Some a2
    ∧ rc_raw (at_record a2) ≠ rc_raw (at_record a).
Proof.
  eexists _, _. split; [vm_compute; reflexivity|]. split; [vm_compute; reflexivity|].
  eapply (journal_one_intent_per_action binding out1.1.1 0 _ out1.2 out2.1.1 out2.2 out3.1.1 1 _ out3.2
    out4.1.1 out4.2); [exact life1|vm_compute; reflexivity|exact intent1|exact life3|vm_compute; reflexivity|exact intent2].
Defined.

Lemma journal_permits_bounded_witness :
  (unknown (db_store out2.2) + length (filter (λ a, permit a = true) (active_attempts out2.1.1)) ≤ 2)%nat.
Proof.
  apply (journal_permits_bounded binding out2.1.1 out2.2 life2). vm_compute. reflexivity.
Defined.

Lemma journal_grant_is_exclusive_witness :
  ∃ r, st_records (db_store out3.2) !! k_ActionID key2 = Some r ∧ CanonicalJournalMetadata key2 = Some (rc_raw r)
    ∧ has_terminal r || has_intent r = false.
Proof.
  eapply (journal_grant_is_exclusive binding out2.1.1 key2 false out2.2 out3.1.1 1 out3.2);
    [exact life2|exact key2_wellformed|exact acquire2|vm_compute; reflexivity|vm_compute; reflexivity].
Defined.

Lemma acquire_admits_witness :
  ∃ j', (run (healthy now) (acquire j0 key1 false) db0).1 = (j', Ok 0%nat).
Proof.
  destruct (acquire_admits now j0 key1 ActionSample.raw 0 provisioned) as (j' & Heq & _);
    try (vm_compute; reflexivity); [vm_compute; lia|vm_compute; lia|].
  exists j'. unfold db0. by rewrite Heq.
Defined.
