(* ===== verification/ActionReceipt.v ===== *)
(** * Action receipts and snapshots ([internal/actionprotocol])

    The documents a connector and the server exchange about container actions,
    after their closed JSON objects have been read: request receipts with their
    identity preimage and digest, claims, authority decisions, reports, approval
    entries and published snapshots.  A [Decode...] function here is the
    validation its Go counterpart applies to the structurally decoded value.
    Every string a document marshals has passed one of the validators below, none
    of which admits a character that JSON would escape. *)

From S2P Require Import Prelude GoTime GoText GoCalendar Sha256.
From S2P Require ActionCore ActionBudget.
Import ActionCore (Operation(..), Code(..), Operation_eq_dec, Code_eq_dec, operation_text, quoted).

#[local] Open Scope string_scope.
#[local] Open Scope Z_scope.

(** ** JSON text *)

Definition member (name value : string) : string := quoted name ++ ":" ++ value.
Fixpoint commas (items : list string) : string :=
  match items with
  | [] => ""
  | [i] => i
  | i :: rest => i ++ "," ++ commas rest
  end.
Definition object (fields : list (string * string)) : string :=
  "{" ++ commas ((λ f, member f.1 f.2) <$> fields) ++ "}".
Definition array (items : list string) : string := "[" ++ commas items ++ "]".

(** ** Scalars *)

Definition MaxEnvelopeBytes : Z := 16384.

Definition hexValue (s : string) (length : Z) : bool :=
  (slen s =? length) && str_forallb is_lower_hex s.

Definition TrimPrefix (s prefix : string) : string :=
  if String.prefix prefix s
  then substring (String.length prefix) (String.length s) s else s.

Definition identifier (s prefix : string) : bool :=
  String.prefix prefix s && hexValue (TrimPrefix s prefix) 32.

(** [s[0] >= lo && s[0] <= hi] of a non-empty string *)
Definition head_between (lo hi : Z) (s : string) : bool :=
  match s with String c _ => between lo hi c | EmptyString => false end.

Definition revision (s : string) : bool :=
  negb (slen s =? 0) && (slen s <=? 19) && head_between 49 57 s
  && str_forallb (between 48 57) s
  && match ParseUint s 64 with Some n => n <=? MaxInt64 | None => false end.

(** Layout [2006-01-02T15:04:05.000000Z] *)
Definition FormatHTTPTime (t : time) : string :=
  let c := civil_of t in seconds_text c ++ "." ++ pad 6 (c_nanos c / 1000) ++ "Z".

Definition ParseHTTPTime (s : string) : option time :=
  match parse_time s with
  | Some t =>
      if negb (slen s =? 27) || IsZero t || negb (str_eqb (FormatHTTPTime (UTC t)) s) then None
      else Some t
  | None => None
  end.

Definition alphanumeric (c : ascii) : bool :=
  between 97 122 c || between 65 90 c || between 48 57 c.
(** [strings.ContainsRune("._:-", c)] *)
Definition separator (c : ascii) : bool :=
  (byte_val c =? 46) || (byte_val c =? 95) || (byte_val c =? 58) || (byte_val c =? 45).

Definition correlation (s : string) : bool :=
  (1 <=? slen s) && (slen s <=? 128)
  && match s with
     | String c rest => alphanumeric c && str_forallb (λ c, alphanumeric c || separator c) rest
     | EmptyString => true
     end.

Definition targetKey (s : string) : bool :=
  negb (slen s =? 0) && (slen s <=? 48) && head_between 97 122 s
  && str_forallb (λ c, between 97 122 c || between 48 57 c || (byte_val c =? 95) || (byte_val c =? 45)) s.

Definition nonce (s : string) : bool :=
  hexValue s 32 && negb (str_eqb s "00000000000000000000000000000000").

(** ** Parameters *)

Record Grace := MkGrace { gr_Seconds : Z; gr_Null : bool }.
Record Parameters := MkParameters { pm_FormatVersion : Z; pm_StopGraceSeconds : Grace }.

#[global] Instance Grace_eq_dec : EqDecision Grace.
Proof. solve_decision. Defined.
#[global] Instance Parameters_eq_dec : EqDecision Parameters.
Proof. solve_decision. Defined.

Definition Grace_MarshalJSON (g : Grace) : option string :=
  if gr_Null g && (gr_Seconds g =? 0) then Some "null"
  else if gr_Null g || (gr_Seconds g <? 1) || (30 <? gr_Seconds g) then None
  else Some (FormatUint (gr_Seconds g)).

(** Its argument is one JSON literal, which carries no space around it. *)
Definition Grace_UnmarshalJSON (raw : string) : option Grace :=
  if str_eqb raw "null" then Some (MkGrace 0 true)
  else match ParseUint raw 8 with
  | None => None
  | Some n =>
      if (n <? 1) || (30 <? n) || negb (str_eqb (FormatUint n) raw) then None
      else Some (MkGrace n false)
  end.

Definition ParameterDigest (operation : Operation) (p : Parameters) : option string :=
  let g := pm_StopGraceSeconds p in
  let preimage rest := "{" ++ member "version" "1" ++ "," ++ member "operation" (quoted (operation_text operation))
                       ++ "," ++ quoted "parameters" ++ ":" ++ rest in
  if negb (pm_FormatVersion p =? 1) then None
  else match operation with
  | Start =>
      if negb (gr_Null g) || negb (gr_Seconds g =? 0) then None
      else Some (hexEncode (Sum256 (preimage "{}}")))
  | Stop | Restart =>
      if gr_Null g || (gr_Seconds g <? 1) || (30 <? gr_Seconds g) then None
      else Some (hexEncode (Sum256
             (preimage ("{" ++ member "stop_grace_seconds" (FormatUint (gr_Seconds g)) ++ "}}"))))
  | OperationOther _ => None
  end.

(** A marshalled [Parameters]; [None] when the grace period does not marshal. *)
Definition parameters_json (version grace : string) (p : Parameters) : option string :=
  (λ g, object [(version, FormatUint (pm_FormatVersion p)); (grace, g)])
    <$> Grace_MarshalJSON (pm_StopGraceSeconds p).

(** ** Request receipts *)

Record RequestReceipt := MkReceipt {
  rr_ActionID : string; rr_ServerID : string; rr_OwnerUserID : string; rr_ActorUserID : string;
  rr_ConnectorInstanceID : string; rr_Operation : Operation; rr_TargetID : string;
  rr_TargetKey : string; rr_IdempotencyKeyHash : string; rr_PolicyRevision : string;
  rr_CapabilityRevision : string; rr_Parameters : Parameters; rr_ParameterSHA256 : string;
  rr_RequestedAt : string; rr_ExpiresAt : string; rr_CorrelationID : string }.

#[global] Instance RequestReceipt_eq_dec : EqDecision RequestReceipt.
Proof. solve_decision. Defined.

Definition ValidateRequest (r : RequestReceipt) : bool :=
  identifier (rr_ActionID r) "hla_" && identifier (rr_ServerID r) "srv_"
  && identifier (rr_OwnerUserID r) "usr_" && str_eqb (rr_ActorUserID r) (rr_OwnerUserID r)
  && identifier (rr_ConnectorInstanceID r) "agent_" && identifier (rr_TargetID r) "hlt_"
  && targetKey (rr_TargetKey r) && hexValue (rr_IdempotencyKeyHash r) 64
  && revision (rr_PolicyRevision r) && revision (rr_CapabilityRevision r)
  && hexValue (rr_ParameterSHA256 r) 64 && correlation (rr_CorrelationID r)
  && match ParseHTTPTime (rr_RequestedAt r), ParseHTTPTime (rr_ExpiresAt r),
           ParameterDigest (rr_Operation r) (rr_Parameters r) with
     | Some created, Some expires, Some expected =>
         (Sub expires created =? 300 * Second) && str_eqb expected (rr_ParameterSHA256 r)
     | _, _, _ => false
     end.

Definition request_fields (r : RequestReceipt) (parameters : string) : list (string * string) :=
  [("action_id", quoted (rr_ActionID r)); ("server_id", quoted (rr_ServerID r));
   ("owner_user_id", quoted (rr_OwnerUserID r)); ("actor_user_id", quoted (rr_ActorUserID r));
   ("connector_instance_id", quoted (rr_ConnectorInstanceID r));
   ("operation", quoted (operation_text (rr_Operation r)));
   ("target_id", quoted (rr_TargetID r)); ("target_key", quoted (rr_TargetKey r));
   ("idempotency_key_hash", quoted (rr_IdempotencyKeyHash r));
   ("policy_revision", quoted (rr_PolicyRevision r));
   ("capability_revision", quoted (rr_CapabilityRevision r));
   ("parameters", parameters); ("parameter_sha256", quoted (rr_ParameterSHA256 r));
   ("requested_at", quoted (rr_RequestedAt r)); ("expires_at", quoted (rr_ExpiresAt r));
   ("correlation_id", quoted (rr_CorrelationID r))].

Definition CanonicalRequest (r : RequestReceipt) : option string :=
  if negb (ValidateRequest r) then None
  else match parameters_json "format_version" "stop_grace_seconds" (rr_Parameters r) with
  | None => None
  | Some p =>
      let raw := object (request_fields r p) in
      if MaxEnvelopeBytes <? slen raw then None else Some raw
  end.

Definition ReceiptDigest (r : RequestReceipt) : option string :=
  match CanonicalRequest r with
  | None => None
  | Some raw =>
      Some (Sum256 ("platform-container-receipt/v1" ++ String (ascii_of_N 10) raw))
  end.

(** ** Claims, decisions and reports *)

Record Claim := MkClaimDoc {
  cm_Request : RequestReceipt; cm_ExecutionLeaseID : string; cm_ClaimCredentialID : string;
  cm_ClaimCredentialRevision : string; cm_ClaimedAt : string; cm_LeaseExpiresAt : string;
  cm_CorrelationID : string }.

Record ExecutionDecision := MkDecision {
  ed_Request : RequestReceipt; ed_ExecutionLeaseID : string; ed_Checkpoint : string;
  ed_CheckNonce : string; ed_CredentialID : string; ed_CredentialRevision : string;
  ed_CheckedAt : string; ed_Decision : string }.

Record Report := MkReport {
  rp_Request : RequestReceipt; rp_ExecutionLeaseID : string; rp_ResultCode : Code;
  rp_EvidenceKind : string; rp_CorrelationID : string }.

#[global] Instance Claim_eq_dec : EqDecision Claim.
Proof. solve_decision. Defined.

Definition DecodeClaim (c : Claim) : option Claim :=
  let r := cm_Request c in
  if negb (ValidateRequest r) then None
  else match ParseHTTPTime (rr_RequestedAt r), ParseHTTPTime (rr_ExpiresAt r),
             ParseHTTPTime (cm_ClaimedAt c), ParseHTTPTime (cm_LeaseExpiresAt c) with
  | Some created, Some expires, Some claimed, Some lease =>
      if Before claimed created || After lease expires
         || negb (Sub lease claimed =? 120 * Second) || negb (identifier (cm_ExecutionLeaseID c) "hle_")
         || negb (identifier (cm_ClaimCredentialID c) "hlac_")
         || negb (revision (cm_ClaimCredentialRevision c)) || negb (correlation (cm_CorrelationID c))
      then None else Some c
  | _, _, _, _ => None
  end.

Definition DecodeExecutionDecision (d : ExecutionDecision) : option ExecutionDecision :=
  if negb (ValidateRequest (ed_Request d)) then None
  else match ParseHTTPTime (ed_CheckedAt d) with
  | None => None
  | Some _ =>
      if negb (identifier (ed_ExecutionLeaseID d) "hle_")
         || (negb (str_eqb (ed_Checkpoint d) "1") && negb (str_eqb (ed_Checkpoint d) "2"))
         || negb (nonce (ed_CheckNonce d)) || negb (identifier (ed_CredentialID d) "hlac_")
         || negb (revision (ed_CredentialRevision d))
         || (negb (str_eqb (ed_Decision d) "PERMITTED") && negb (str_eqb (ed_Decision d) "DENIED"))
      then None else Some d
  end.

Definition MatchExecutionDecision (c : Claim) (checkpoint challenge : string) (d : ExecutionDecision) : bool :=
  match ParseHTTPTime (ed_CheckedAt d), ParseHTTPTime (cm_ClaimedAt c), ParseHTTPTime (cm_LeaseExpiresAt c) with
  | Some checked, Some claimed, Some expires =>
      (ed_Request d == cm_Request c) && str_eqb (ed_ExecutionLeaseID d) (cm_ExecutionLeaseID c)
      && str_eqb (ed_Checkpoint d) checkpoint && str_eqb (ed_CheckNonce d) challenge
      && negb (Before checked claimed) && Before checked expires
      && str_eqb (ed_Decision d) "PERMITTED" && identifier (ed_CredentialID d) "hlac_"
      && revision (ed_CredentialRevision d)
  | _, _, _ => false
  end.

Definition resultCode (operation : Operation) (code : Code) : bool :=
  match code with
  | StateConflict | OutcomeUnknown => true
  | Started | AlreadyRunning => operation == Start
  | Stopped | AlreadyStopped => operation == Stop
  | Restarted => operation == Restart
  | _ => false
  end.

Definition DecodeReport (r : Report) : option Report :=
  if negb (ValidateRequest (rp_Request r)) then None
  else if negb (identifier (rp_ExecutionLeaseID r) "hle_") || negb (correlation (rp_CorrelationID r))
          || negb (resultCode (rr_Operation (rp_Request r)) (rp_ResultCode r))
          || ((rp_ResultCode r == OutcomeUnknown) && negb (str_eqb (rp_EvidenceKind r) "QUIESCED_INTENT"))
          || ((rp_ResultCode r != OutcomeUnknown) && negb (str_eqb (rp_EvidenceKind r) "RETAINED_TERMINAL"))
  then None else Some r.

(** What the time budget learns of a claim ([ActionBudget.AcceptClaim]).  Marshalling
    a claim that validates and decoding it again gives the claim, since nothing in
    it is escaped; one that does not validate is refused. *)
Definition claim_view (c : Claim) : ActionBudget.ClaimView :=
  ActionBudget.MkClaim (bool_decide (DecodeClaim c = Some c)) (ParseHTTPTime (cm_ClaimedAt c))
    (ReceiptDigest (cm_Request c)) (rr_ActionID (cm_Request c)) (rr_Operation (cm_Request c)).

(** ** Approval entries *)

Record Entry := MkEntry {
  en_TargetID : string; en_TargetKey : string; en_Operation : Operation; en_Parameters : Parameters;
  en_ParameterSHA256 : string; en_PolicyRevision : string; en_CapabilityRevision : string }.

#[global] Instance Entry_eq_dec : EqDecision Entry.
Proof. solve_decision. Defined.

Definition validEntry (e : Entry) : bool :=
  match ParameterDigest (en_Operation e) (en_Parameters e) with
  | None => false
  | Some hash =>
      str_eqb hash (en_ParameterSHA256 e) && identifier (en_TargetID e) "hlt_"
      && (slen (en_TargetKey e) =? 20) && String.prefix "ctr_" (en_TargetKey e)
      && hexValue (substring 4 (String.length (en_TargetKey e)) (en_TargetKey e)) 16
      && revision (en_PolicyRevision e) && revision (en_CapabilityRevision e)
  end.

(** [e.TargetID + "\x00" + string(e.Operation)] *)
Definition entry_key (e : Entry) : string :=
  en_TargetID e ++ String (ascii_of_N 0) (operation_text (en_Operation e)).

(** Go's [<] on strings. *)
Definition str_ltb (a b : string) : bool := String.ltb a b.

(** [m[k] = v] unless [m] already maps [k] to something else. *)
Definition agrees (m : gmap string string) (k v : string) : bool :=
  match m !! k with Some v' => str_eqb v' v | None => true end.

Fixpoint validate_entries (aliases targets : gmap string string) (previous : string)
    (entries : list Entry) : bool :=
  match entries with
  | [] => true
  | e :: rest =>
      validEntry e && str_ltb previous (entry_key e)
      && agrees aliases (en_TargetKey e) (en_TargetID e) && agrees targets (en_TargetID e) (en_TargetKey e)
      && validate_entries (<[en_TargetKey e := en_TargetID e]> aliases)
           (<[en_TargetID e := en_TargetKey e]> targets) (entry_key e) rest
  end.

(** The slices of the program that reach it are never nil. *)
Definition ValidateEntries (entries : list Entry) : bool :=
  (Z.of_nat (length entries) <=? 32) && validate_entries ∅ ∅ "" entries.

Definition entry_json (e : Entry) : option string :=
  (λ p, object [("target_id", quoted (en_TargetID e)); ("target_key", quoted (en_TargetKey e));
                ("operation", quoted (operation_text (en_Operation e))); ("parameters", p);
                ("parameter_sha256", quoted (en_ParameterSHA256 e));
                ("policy_revision", quoted (en_PolicyRevision e));
                ("capability_revision", quoted (en_CapabilityRevision e))])
    <$> parameters_json "format_version" "stop_grace_seconds" (en_Parameters e).

Definition entries_json (entries : list Entry) : option string :=
  array <$> mapM entry_json entries.

(** ** Snapshots *)

Record SnapshotReceipt := MkSnapshotReceipt {
  sr_PublicationID : string; sr_SnapshotRevision : string; sr_SnapshotDigest : string;
  sr_AdvertisedAt : string; sr_ExpiresAt : string }.

Record SnapshotQuery := MkQuery {
  sq_ServerID : string; sq_OwnerUserID : string; sq_ConnectorInstanceID : string;
  sq_PublicationID : string; sq_Entries : list Entry }.

Record SnapshotReply := MkReply { sy_Outcome : string; sy_Receipt : option SnapshotReceipt }.

Definition validSnapshotReceipt (r : SnapshotReceipt) : bool :=
  hexValue (sr_PublicationID r) 32 && revision (sr_SnapshotRevision r)
  && hexValue (sr_SnapshotDigest r) 64
  && match ParseHTTPTime (sr_AdvertisedAt r), ParseHTTPTime (sr_ExpiresAt r) with
     | Some start, Some end_ => Sub end_ start =? 60 * Second
     | _, _ => false
     end.

Definition SnapshotDigest (server owner instance : string) (r : SnapshotReceipt) (entries : list Entry) :
    option string :=
  if negb (identifier server "srv_") || negb (identifier owner "usr_") || negb (identifier instance "agent_")
     || negb (validSnapshotReceipt r) || negb (ValidateEntries entries)
  then None
  else match entries_json entries with
  | None => None
  | Some es =>
      let raw := object [("server_id", quoted server); ("owner_user_id", quoted owner);
                         ("connector_instance_id", quoted instance);
                         ("snapshot_revision", quoted (sr_SnapshotRevision r));
                         ("advertised_at", quoted (sr_AdvertisedAt r));
                         ("expires_at", quoted (sr_ExpiresAt r)); ("entries", es)] in
      if MaxEnvelopeBytes <? slen raw then None
      else Some (hexEncode (Sum256 ("platform-container-snapshot/v1" ++ String (ascii_of_N 10) raw)))
  end.

Definition ValidateSnapshotQuery (q : SnapshotQuery) : bool :=
  identifier (sq_ServerID q) "srv_" && identifier (sq_OwnerUserID q) "usr_"
  && identifier (sq_ConnectorInstanceID q) "agent_" && nonce (sq_PublicationID q)
  && ValidateEntries (sq_Entries q).

Definition DecodeSnapshotReply (r : SnapshotReply) : option SnapshotReply :=
  if str_eqb (sy_Outcome r) "OK" then
    match sy_Receipt r with
    | Some receipt => if validSnapshotReceipt receipt then Some r else None
    | None => None
    end
  else if (negb (str_eqb (sy_Outcome r) "DENIED") && negb (str_eqb (sy_Outcome r) "UNAVAILABLE")
           && negb (str_eqb (sy_Outcome r) "CONFLICT"))
          || bool_decide (is_Some (sy_Receipt r))
  then None else Some r.

Definition MatchSnapshotReply (q : SnapshotQuery) (r : SnapshotReply) : bool :=
  ValidateSnapshotQuery q && str_eqb (sy_Outcome r) "OK"
  && match sy_Receipt r with
     | None => false
     | Some receipt =>
         str_eqb (sr_PublicationID receipt) (sq_PublicationID q)
         && match SnapshotDigest (sq_ServerID q) (sq_OwnerUserID q) (sq_ConnectorInstanceID q)
                    receipt (sq_Entries q) with
            | None => false
            | Some digest => str_eqb digest (sr_SnapshotDigest receipt)
            end
     end.

#[global] Arguments ParseHTTPTime : simpl never.
#[global] Arguments FormatHTTPTime : simpl never.
#[global] Arguments ParameterDigest : simpl never.
#[global] Arguments CanonicalRequest : simpl never.
#[global] Arguments ReceiptDigest : simpl never.

(** ** Texts *)

Lemma pattern_of pre cls n rest :
  slen rest = n → str_forallb cls rest = true → match_pattern pre cls n (pre ++ rest) = true.
Proof.
  intros Hl Hc. unfold match_pattern. rewrite slen_append, Hl, Z.eqb_refl.
  assert (Hp : String.prefix pre (pre ++ rest) = true).
  { clear. induction pre as [|c p IH]; simpl; [by destruct rest|]. by destruct (ascii_dec c c). }
  rewrite Hp. simpl.
  assert (Hs : substring (String.length pre) (String.length (pre ++ rest)) (pre ++ rest) = rest).
  { pose proof (prefix_split pre (pre ++ rest) (String.length (pre ++ rest)) Hp (le_n _)) as H.
    clear Hp Hl Hc. revert H. set (x := substring _ _ _). clearbody x. intros H.
    induction pre as [|c p IH]; [by rewrite !append_nil in H|]. rewrite !append_cons in H. injection H. auto. }
  by rewrite Hs.
Qed.

(** The three spellings of an identifier test agree. *)
Lemma identifier_core s pre : identifier s pre = ActionCore.identifier s pre.
Proof.
  apply eq_bool_prop_intro. rewrite !Is_true_true. split.
  - unfold identifier, TrimPrefix, hexValue. intros H. bools.
    match goal with H : String.prefix _ _ = true |- _ => rewrite H in *; rename H into Hp end.
    rewrite (prefix_split pre s (String.length s)) by done. by apply pattern_of.
  - intros (rest & -> & Hl & Hc)%match_pattern_spec.
    pose proof (pattern_of pre _ _ _ Hl Hc) as H. unfold match_pattern in H. bools.
    unfold identifier, TrimPrefix, hexValue.
    match goal with H : String.prefix _ _ = true |- _ => rewrite H; rename H into Hp end. simpl.
    pose proof (prefix_split pre (pre ++ rest) (String.length (pre ++ rest)) Hp (le_n _)) as Hs.
    apply (f_equal slen) in Hs. rewrite !slen_append in Hs. apply andb_true_iff. split; [lia|done].
Qed.

Lemma identifier_shape s pre :
  identifier s pre = true → ∃ rest, s = pre ++ rest ∧ slen rest = 32 ∧ str_forallb is_lower_hex rest = true.
Proof. rewrite identifier_core. apply match_pattern_spec. Qed.

Lemma identifier_length s pre : identifier s pre = true → slen s = slen pre + 32.
Proof. intros (rest & -> & ? & _)%identifier_shape. rewrite slen_append. lia. Qed.

Lemma append_inj (a b x y : string) : slen a = slen b → a ++ x = b ++ y → a = b ∧ x = y.
Proof.
  revert b. induction a as [|c a IH]; intros [|d b] Hl H; unfold slen in Hl; simpl in Hl; try lia; [done|].
  rewrite !append_cons in H. injection H as -> H. destruct (IH b) as [-> ->]; [unfold slen; lia|done|done].
Qed.

Lemma append_inj_tail (a b x : string) : a ++ x = b ++ x → a = b.
Proof.
  intros H. pose proof (f_equal slen H) as Hl. rewrite !slen_append in Hl.
  apply (append_inj a b x x); [lia|done].
Qed.

Lemma hexEncode_shape s :
  slen (hexEncode s) = 2 * slen s ∧ str_forallb is_lower_hex (hexEncode s) = true.
Proof.
  induction s as [|c s [IH1 IH2]]; [done|].
  assert (Hd : ∀ v, 0 ≤ v < 16 → is_lower_hex (hex_digit v) = true).
  { intros v Hv. assert (v ∈ [0;1;2;3;4;5;6;7;8;9;10;11;12;13;14;15]) as Hin
      by (rewrite !elem_of_cons; lia). in_cases Hin; done. }
  assert (Hb : 0 ≤ byte_val c < 256).
  { unfold byte_val. pose proof (N_ascii_bounded c). lia. }
  unfold slen in *. cbn [hexEncode String.length str_forallb].
  rewrite !Hd, IH2; [split; [lia|done]| |].
  - rewrite (Z.land_ones _ 4) by lia. apply Z.mod_pos_bound. lia.
  - rewrite Z.shiftr_div_pow2 by lia. change (2 ^ 4) with 16. div_lia.
Qed.

(** ** Times *)

Lemma parse_micros_text c :
  0 ≤ d_year (c_date c) < 10000 → 0 ≤ d_month (c_date c) < 100 → 0 ≤ d_day (c_date c) < 100 →
  0 ≤ c_hour c < 100 → 0 ≤ c_minute c < 100 → 0 ≤ c_second c < 100 → 0 ≤ c_nanos c < Second →
  parse_civil (seconds_text c ++ "." ++ pad 6 (c_nanos c / 1000) ++ "Z")
  = Some (MkCivil (c_date c) (c_hour c) (c_minute c) (c_second c) (c_nanos c / 1000 * 1000)).
Proof.
  intros. unfold parse_civil, seconds_text, year_text.
  replace ((0 <=? d_year (c_date c)) && (d_year (c_date c) <? 10000)) with true by lia.
  rewrite !append_assoc, !append_cons, !append_nil.
  repeat (rewrite digits_pad by (simpl; lia); cbn [literal Ascii.eqb Bool.eqb]).
  unfold parse_fraction. cbn [literal Ascii.eqb Bool.eqb].
  rewrite digit_run_pad by (by intros ? ? [= <- <-]).
  rewrite Z.mod_small by (unfold Second in *; simpl; div_lia). simpl. by destruct c as [[]].
Qed.

Lemma year_text_length y : slen (year_text y) = 4 → 0 ≤ y < 10000.
Proof.
  unfold year_text. destruct (_ && _) eqn:E; [bools; lia|]. destruct (y <? 0) eqn:En; bools.
  - rewrite slen_append. change (slen "-") with 1. destruct (y <? -9999) eqn:E9; bools.
    + intros Hl. pose proof (FormatUint_below (- y)). replace (slen (FormatUint (- y))) with 3 in * by lia. lia.
    + rewrite (proj1 (pad_shape 4 (- y))). lia.
  - intros Hl. pose proof (FormatUint_below y). rewrite Hl in *.
    destruct (0 <=? y) eqn:E0, (y <? 10000) eqn:E1; bools; simpl in *; lia.
Qed.

Lemma civil_nanos t : c_nanos (civil_of t) = NanosecondOf t.
Proof.
  unfold civil_of, NanosecondOf. simpl. unfold Day, Hour, Minute, Second. div_lia.
Qed.

Lemma wall_of_nanos c n :
  wall_of (MkCivil (c_date c) (c_hour c) (c_minute c) (c_second c) n) = wall_of c - c_nanos c + n.
Proof. unfold wall_of. simpl. lia. Qed.

Lemma FormatHTTPTime_year t : slen (FormatHTTPTime t) = 27 → four_digit_year t.
Proof.
  unfold FormatHTTPTime, seconds_text. cbv zeta. rewrite !slen_append, !(proj1 (pad_shape _ _)). intros Hl.
  apply year_text_length. revert Hl. generalize (slen (year_text (d_year (c_date (civil_of t))))). intros n.
  change (slen "-") with 1. change (slen "T") with 1. change (slen ":") with 1. change (slen ".") with 1.
  change (slen "Z") with 1. lia.
Qed.

(** Reading a text back gives the instant truncated to microseconds. *)
Lemma parse_FormatHTTPTime t :
  four_digit_year t →
  parse_civil (FormatHTTPTime t)
  = Some (MkCivil (c_date (civil_of t)) (c_hour (civil_of t)) (c_minute (civil_of t))
            (c_second (civil_of t)) (c_nanos (civil_of t) / 1000 * 1000)).
Proof.
  unfold four_digit_year. intros Hy. destruct (civil_of_bounds t) as (? & ? & ? & ?).
  destruct (civil_of_month_day t) as [? ?]. unfold FormatHTTPTime. cbv zeta.
  revert Hy H H0 H1 H2 H3 H4. generalize (civil_of t). intros c **. apply parse_micros_text; lia.
Qed.

Lemma whole_micros (n : Z) : n / 1000 * 1000 = n → n mod 1000 = 0.
Proof. intros <-. by apply Z.mod_mul. Qed.

Lemma parse_time_At s t : parse_time s = Some t → utc t = true.
Proof.
  unfold parse_time. destruct (parse_civil s) as [c|]; [|done]. destruct (valid_civil c); [|done].
  generalize (wall_of c). by intros w [= <-].
Qed.

Lemma parse_time_wall s t c : parse_time s = Some t → parse_civil s = Some c → wall t = wall_of c.
Proof.
  unfold parse_time. intros H Hc. rewrite Hc in H. destruct (valid_civil c); [|done].
  revert H. generalize (wall_of c). by intros w [= <-].
Qed.

Lemma HTTP_nanos t :
  four_digit_year t → parse_time (FormatHTTPTime t) = Some t → NanosecondOf t mod 1000 = 0.
Proof.
  intros Hy Hp. pose proof (parse_time_wall _ _ _ Hp (parse_FormatHTTPTime t Hy)) as Hw.
  rewrite wall_of_nanos, civil_round_trip in Hw. rewrite <- civil_nanos. apply whole_micros.
  revert Hw. generalize (c_nanos (civil_of t) / 1000 * 1000), (c_nanos (civil_of t)), (wall t). lia.
Qed.

(** What an accepted timestamp says. *)
Lemma ParseHTTPTime_spec s t :
  ParseHTTPTime s = Some t →
  utc t = true ∧ IsZero t = false ∧ FormatHTTPTime t = s ∧ four_digit_year t
  ∧ NanosecondOf t mod 1000 = 0.
Proof.
  unfold ParseHTTPTime. destruct (parse_time s) as [u|] eqn:Hp; [|done].
  destruct (_ || _) eqn:E; [done|]. intros [= ->]. bools.
  pose proof (parse_time_At _ _ Hp) as Hu. rewrite utc_UTC in * by done. subst s.
  pose proof (FormatHTTPTime_year t) as Hy. repeat split; auto using HTTP_nanos; by apply Hy.
Qed.

(** Accepted timestamps and instants correspond one to one. *)
Lemma ParseHTTPTime_Format t :
  utc t = true → IsZero t = false → four_digit_year t → NanosecondOf t mod 1000 = 0 →
  ParseHTTPTime (FormatHTTPTime t) = Some t.
Proof.
  intros Hu Hz Hy Hn. unfold ParseHTTPTime, parse_time.
  destruct (civil_of_bounds t) as (? & ? & ? & ?). destruct (civil_of_month_day t) as [? ?].
  destruct (seconds_text_shape _ Hy) as [Hs _]. unfold four_digit_year in Hy.
  unfold FormatHTTPTime at 1. cbv zeta. rewrite parse_micros_text by lia.
  rewrite <- civil_nanos in Hn.
  replace (c_nanos (civil_of t) / 1000 * 1000) with (c_nanos (civil_of t)) by div_lia.
  replace (MkCivil _ _ _ _ _) with (civil_of t) by by destruct (civil_of t).
  rewrite civil_of_valid, civil_round_trip. change (At (wall t)) with (UTC t). rewrite utc_UTC by done.
  rewrite Hz, utc_UTC, str_eqb_refl by done. unfold FormatHTTPTime. cbv zeta.
  rewrite !slen_append, Hs, (proj1 (pad_shape 6 _)). done.
Qed.

Lemma http_wallclock s t : ParseHTTPTime s = Some t → wallclock t.
Proof. intros [? _]%ParseHTTPTime_spec. by apply utc_wallclock. Qed.

(** ** Parameters *)

(** What [ParameterDigest] accepts. *)
Definition parameters_ok (op : Operation) (p : Parameters) : Prop :=
  let g := pm_StopGraceSeconds p in
  pm_FormatVersion p = 1 ∧ ActionCore.known_operation op = true
  ∧ (if op == Start then gr_Null g = true ∧ gr_Seconds g = 0
     else gr_Null g = false ∧ 1 ≤ gr_Seconds g ≤ 30).

#[local] Opaque Sum256 hexEncode.

Lemma ParameterDigest_ok op p : is_Some (ParameterDigest op p) ↔ parameters_ok op p.
Proof.
  unfold ParameterDigest, parameters_ok. destruct p as [v [n g]]. cbn [pm_FormatVersion pm_StopGraceSeconds gr_Null gr_Seconds].
  destruct (Z.eqb_spec v 1) as [->|Hv]; cbn [negb]; [|split; [by intros []|by intros [? _]]].
  assert (Hif : ∀ (b : bool) (s : string), is_Some (if b then None else Some s) ↔ b = false).
  { intros [] s'; [split; [by intros []|done]|split; [done|by eexists]]. }
  destruct op; rewrite ?Hif, ?orb_false_iff, ?negb_false_iff, ?Z.eqb_eq, ?Z.ltb_ge.
  - rewrite bool_decide_true by done. tauto.
  - rewrite bool_decide_false by done. cbn. intuition lia.
  - rewrite bool_decide_false by done. cbn. intuition lia.
  - cbn. split; [by intros []|by intros (_ & ? & _)].
Qed.

Lemma Grace_json_some op p : parameters_ok op p → is_Some (Grace_MarshalJSON (pm_StopGraceSeconds p)).
Proof.
  intros (_ & _ & H). unfold Grace_MarshalJSON. case_bool_decide; destruct H as [-> H].
  - rewrite H. by eexists.
  - simpl. destruct (_ || _) eqn:E; [|by eexists]. apply orb_true_iff in E as [E|E]; bools; lia.
Qed.

(** The grace codec. *)
Lemma Grace_codec g s :
  Grace_MarshalJSON g = Some s → Grace_UnmarshalJSON s = Some g.
Proof.
  unfold Grace_MarshalJSON. destruct g as [n nl]. simpl. destruct (nl && _) eqn:E.
  - intros [= <-]. bools. by subst.
  - destruct (_ || _) eqn:Eo; [done|]. intros [= <-]. bools. subst nl. unfold Grace_UnmarshalJSON.
    assert (n ∈ [1;2;3;4;5;6;7;8;9;10;11;12;13;14;15;16;17;18;19;20;21;22;23;24;25;26;27;28;29;30]) as Hin
      by (rewrite !elem_of_cons; lia).
    in_cases Hin; done.
Qed.
