(* ===== verification/ActionPolicy.v ===== *)
(** * Local action policy ([internal/actionbroker])

    The protected policy document: the mappings the owner approved, which of them
    are current, and how a remote request receipt resolves to one of them.  A nil
    slice is [None]; ranging over it visits nothing. *)

From S2P Require Import Prelude GoTime GoText GoCalendar Sha256 ActionReceipt.
From S2P Require ActionCore.
From stdpp Require Import sorting.
Import ActionCore (Operation(..), Operation_eq_dec, operation_text, quoted, Key, MkKey, Request, MkRequest,
  k_Metadata, md_Request, md_EngineGeneration, md_ContainerID, Binding, MkBinding).

#[local] Open Scope string_scope.
#[local] Open Scope Z_scope.

(** ** Documents *)

Record mappingDocument := MkMapping {
  m_ServerID : string; m_OwnerUserID : string; m_ConnectorInstanceID : string; m_TargetID : string;
  m_EngineGeneration : string; m_ContainerID : string; m_PolicyRevision : string;
  m_CapabilityRevision : string; m_Operation : Operation; m_Parameters : Parameters;
  m_MappingRevision : string }.

Record policyDocument := MkPolicy {
  p_Version : string; p_ServerID : string; p_OwnerUserID : string; p_ConnectorInstanceID : string;
  p_Revision : string; p_Current : option (list string); p_Mappings : option (list mappingDocument) }.

#[global] Instance mappingDocument_eq_dec : EqDecision mappingDocument.
Proof. solve_decision. Defined.

Definition slice {A} (s : option (list A)) : list A := default [] s.
Definition current_of (p : policyDocument) : list string := slice (p_Current p).
Definition mappings_of (p : policyDocument) : list mappingDocument := slice (p_Mappings p).

(** ** Validation *)

Definition localHex (s : string) (n : Z) : bool := (slen s =? n) && str_forallb is_lower_hex s.

Definition localID (s prefix : string) : bool :=
  (slen s =? slen prefix + 32)
  && str_eqb (substring 0 (String.length prefix) s) prefix
  && localHex (substring (String.length prefix) (String.length s) s) 32.

Definition localRevision (s : string) : option Z :=
  if (slen s =? 0) || (19 <? slen s) || negb (head_between 49 57 s) then None
  else match ParseUint s 64 with
  | None => None
  | Some n => if (n <=? MaxInt64) && str_eqb (FormatUint n) s then Some n else None
  end.

Definition mapping_json (m : mappingDocument) : option string :=
  (λ p, object
     ([("serverId", quoted (m_ServerID m)); ("ownerUserId", quoted (m_OwnerUserID m));
       ("connectorInstanceId", quoted (m_ConnectorInstanceID m)); ("targetId", quoted (m_TargetID m));
       ("engineGeneration", quoted (m_EngineGeneration m)); ("containerId", quoted (m_ContainerID m));
       ("policyRevision", quoted (m_PolicyRevision m));
       ("capabilityRevision", quoted (m_CapabilityRevision m));
       ("operation", quoted (operation_text (m_Operation m))); ("parameters", p)]
      ++ (if str_eqb (m_MappingRevision m) "" then []
          else [("mappingRevision", quoted (m_MappingRevision m))])))
    <$> parameters_json "format_version" "stop_grace_seconds" (m_Parameters m).

Definition unrevised (m : mappingDocument) : mappingDocument :=
  MkMapping (m_ServerID m) (m_OwnerUserID m) (m_ConnectorInstanceID m) (m_TargetID m)
    (m_EngineGeneration m) (m_ContainerID m) (m_PolicyRevision m) (m_CapabilityRevision m)
    (m_Operation m) (m_Parameters m) "".

Definition semantic (m : mappingDocument) : string := default "" (mapping_json (unrevised m)).

Definition displayAlias (container : string) : string :=
  "ctr_" ++ hexEncode (substring 0 8 (Sum256 container)).

Definition validMapping (m : mappingDocument) (revisionRequired : bool) : bool :=
  localID (m_ServerID m) "srv_" && localID (m_OwnerUserID m) "usr_"
  && localID (m_ConnectorInstanceID m) "agent_" && localID (m_TargetID m) "hlt_"
  && localHex (m_EngineGeneration m) 32 && localHex (m_ContainerID m) 64
  && bool_decide (is_Some (localRevision (m_PolicyRevision m)))
  && bool_decide (is_Some (localRevision (m_CapabilityRevision m)))
  && (negb revisionRequired || bool_decide (is_Some (localRevision (m_MappingRevision m))))
  && bool_decide (is_Some (ParameterDigest (m_Operation m) (m_Parameters m)))
  && match mapping_json m with Some raw => slen raw <=? 1024 | None => false end.

(** [m.EngineGeneration + ":" + m.ContainerID] *)
Definition physical (m : mappingDocument) : string := m_EngineGeneration m ++ ":" ++ m_ContainerID m.
(** [m.TargetID + ":" + string(m.Operation)] *)
Definition pair_key (m : mappingDocument) : string := m_TargetID m ++ ":" ++ operation_text (m_Operation m).

(** The loop over [p.Mappings]: [byRevision], or [None] where it returns early. *)
Fixpoint check_mappings (p : policyDocument) (head : Z) (byRevision : gmap string mappingDocument)
    (bySemantic : gset string) (targetBinding : gmap string string) (previous : Z)
    (ms : list mappingDocument) : option (gmap string mappingDocument) :=
  match ms with
  | [] => Some byRevision
  | m :: rest =>
      match localRevision (m_MappingRevision m) with
      | None => None
      | Some n =>
          if (n <=? previous) || (head <? n) || negb (validMapping m true)
             || negb (str_eqb (m_ServerID m) (p_ServerID p))
             || negb (str_eqb (m_OwnerUserID m) (p_OwnerUserID p))
             || negb (str_eqb (m_ConnectorInstanceID m) (p_ConnectorInstanceID p)) then None
          else if bool_decide (semantic m ∈ bySemantic) then None
          else if negb (agrees targetBinding (m_TargetID m) (physical m)) then None
          else check_mappings p head (<[m_MappingRevision m := m]> byRevision)
                 ({[semantic m]} ∪ bySemantic) (<[m_TargetID m := physical m]> targetBinding) n rest
      end
  end.

(** [m[k] != "" && m[k] != v] *)
Definition clashes (m : gmap string string) (k v : string) : bool :=
  let old := default "" (m !! k) in negb (str_eqb old "") && negb (str_eqb old v).

(** The loop over [p.Current]. *)
Fixpoint check_current (byRevision : gmap string mappingDocument) (pairs : gset string)
    (aliases physicalTargets : gmap string string) (previous : Z) (current : list string) : bool :=
  match current with
  | [] => true
  | revision :: rest =>
      match localRevision revision, byRevision !! revision with
      | Some n, Some m =>
          let alias := displayAlias (m_ContainerID m) in
          if (n <=? previous) || bool_decide (pair_key m ∈ pairs)
             || clashes aliases alias (m_TargetID m)
             || clashes physicalTargets (physical m) (m_TargetID m) then false
          else check_current byRevision ({[pair_key m]} ∪ pairs) (<[alias := m_TargetID m]> aliases)
                 (<[physical m := m_TargetID m]> physicalTargets) n rest
      | _, _ => false
      end
  end.

Definition validatePolicy (p : policyDocument) : bool :=
  match localRevision (p_Revision p), p_Current p, p_Mappings p with
  | Some head, Some current, Some mappings =>
      str_eqb (p_Version p) "observer-action-policy/v1" && localID (p_ServerID p) "srv_"
      && localID (p_OwnerUserID p) "usr_" && localID (p_ConnectorInstanceID p) "agent_"
      && (Z.of_nat (length current) <=? 32) && (Z.of_nat (length mappings) <=? 1032)
      && match check_mappings p head ∅ ∅ ∅ 0 mappings with
         | None => false
         | Some byRevision =>
             check_current byRevision ∅ ∅ ∅ 0 current
             && (Z.of_nat (length mappings) - Z.of_nat (length current) <=? 1000)
         end
  | _, _, _ => false
  end.

Definition policy_json (p : policyDocument) : option string :=
  let list_json (o : option string) := default "null" o in
  (λ ms, object
     [("version", quoted (p_Version p)); ("serverId", quoted (p_ServerID p));
      ("ownerUserId", quoted (p_OwnerUserID p)); ("connectorInstanceId", quoted (p_ConnectorInstanceID p));
      ("revision", quoted (p_Revision p));
      ("current", list_json ((λ c, array (quoted <$> c)) <$> p_Current p)); ("mappings", ms)])
    <$> match p_Mappings p with
        | None => Some "null"
        | Some ms => array <$> mapM mapping_json ms
        end.

(** ** Keys and mappings *)

Definition mappingForKey (k : Key) : option mappingDocument :=
  match ActionCore.CanonicalJournalMetadata k with
  | None => None
  | Some _ =>
      let r := md_Request (k_Metadata k) in
      let m := MkMapping (ActionCore.ServerID r) (ActionCore.OwnerID r) (ActionCore.InstallationID r)
                 (ActionCore.TargetID r) (md_EngineGeneration (k_Metadata k)) (md_ContainerID (k_Metadata k))
                 (FormatUint (ActionCore.PolicyRevision r)) (FormatUint (ActionCore.CapabilityRevision r))
                 (ActionCore.Op r)
                 (MkParameters 1 (if ActionCore.Op r == Start then MkGrace 0 true
                                  else MkGrace (ActionCore.GraceSeconds r) false)) "" in
      if negb (str_eqb (ActionCore.OwnerID r) (ActionCore.ActorID r)) || negb (validMapping m false)
      then None else Some m
  end.

Definition requireEngineGeneration (key : Key) (generation : string) : bool :=
  bool_decide (is_Some (ActionCore.CanonicalJournalMetadata key)) && localHex generation 32
  && str_eqb (md_EngineGeneration (k_Metadata key)) generation.

Definition validateMappingReferences (p : policyDocument) (keys : list Key) : bool :=
  validatePolicy p && (Z.of_nat (length keys) <=? 1000)
  && let mappings := list_to_set (semantic <$> mappings_of p) : gset string in
     forallb (λ k, match mappingForKey k with
                   | Some m => bool_decide (semantic m ∈ mappings)
                   | None => false
                   end) keys.

Definition validateEnginePolicy (p : policyDocument) (generation : string) : bool :=
  validatePolicy p && localHex generation 32
  && forallb (λ m, negb (bool_decide (m_MappingRevision m ∈ current_of p))
                   || str_eqb (m_EngineGeneration m) generation) (mappings_of p).

(** ** Resolution of a receipt *)

Record resolvedBinding := MkResolved {
  rb_key : Key; rb_binding : Binding; rb_mappingRevision : string; rb_remoteDigest : string }.

Definition matches (p : policyDocument) (r : RequestReceipt) (current : bool) (m : mappingDocument) : bool :=
  str_eqb (m_TargetID m) (rr_TargetID r) && (m_Operation m == rr_Operation r)
  && str_eqb (m_PolicyRevision m) (rr_PolicyRevision r)
  && str_eqb (m_CapabilityRevision m) (rr_CapabilityRevision r) && (m_Parameters m == rr_Parameters r)
  && negb (current && negb (bool_decide (m_MappingRevision m ∈ current_of p))).

(** The loop: [None] on a second match, otherwise [selected]. *)
Fixpoint select (p : policyDocument) (r : RequestReceipt) (current : bool)
    (selected : option mappingDocument) (ms : list mappingDocument) : option (option mappingDocument) :=
  match ms with
  | [] => Some selected
  | m :: rest =>
      if negb (matches p r current m) then select p r current selected rest
      else match selected with
      | Some _ => None
      | None => select p r current (Some m) rest
      end
  end.

(** [t, _ := ParseHTTPTime(s)] and [n, _ := strconv.ParseUint(s, 10, 64)] of texts
    that were validated before. *)
Definition http_time (s : string) : time := default zeroTime (ParseHTTPTime s).
Definition uint_of (s : string) : Z := default 0 (ParseUint s 64).

Definition receipt_request (r : RequestReceipt) : Request :=
  MkRequest (rr_ActionID r) (rr_ServerID r) (rr_ConnectorInstanceID r) (rr_OwnerUserID r) (rr_ActorUserID r)
    (rr_TargetID r) (rr_Operation r) (gr_Seconds (pm_StopGraceSeconds (rr_Parameters r)))
    (uint_of (rr_PolicyRevision r)) (uint_of (rr_CapabilityRevision r))
    (http_time (rr_RequestedAt r)) (http_time (rr_ExpiresAt r)).

Definition receipt_binding (r : RequestReceipt) (selected : mappingDocument) : Binding :=
  MkBinding (rr_ServerID r) (rr_ConnectorInstanceID r) (rr_OwnerUserID r) (rr_TargetID r)
    (m_EngineGeneration selected) (m_ContainerID selected)
    (uint_of (rr_PolicyRevision r)) (uint_of (rr_CapabilityRevision r))
    (gr_Seconds (pm_StopGraceSeconds (rr_Parameters r))) [rr_Operation r].

Definition resolveReceipt (p : policyDocument) (r : RequestReceipt) (current : bool) : option resolvedBinding :=
  if negb (validatePolicy p) || negb (ValidateRequest r) || negb (str_eqb (rr_ServerID r) (p_ServerID p))
     || negb (str_eqb (rr_OwnerUserID r) (p_OwnerUserID p))
     || negb (str_eqb (rr_ConnectorInstanceID r) (p_ConnectorInstanceID p))
  then None
  else match select p r current None (mappings_of p) with
  | Some (Some selected) =>
      if negb (str_eqb (rr_TargetKey r) (displayAlias (m_ContainerID selected))) then None
      else
        let binding := receipt_binding r selected in
        match ActionCore.NewJournalKey (receipt_request r) binding, ReceiptDigest r with
        | Some key, Some digest => Some (MkResolved key binding (m_MappingRevision selected) digest)
        | _, _ => None
        end
  | _ => None
  end.

(** ** Published entries *)

Definition entry_of (m : mappingDocument) (hash : string) : Entry :=
  MkEntry (m_TargetID m) (displayAlias (m_ContainerID m)) (m_Operation m) (m_Parameters m) hash
    (m_PolicyRevision m) (m_CapabilityRevision m).

Fixpoint collect_entries (p : policyDocument) (ms : list mappingDocument) : option (list Entry) :=
  match ms with
  | [] => Some []
  | m :: rest =>
      if negb (bool_decide (m_MappingRevision m ∈ current_of p)) then collect_entries p rest
      else match ParameterDigest (m_Operation m) (m_Parameters m) with
      | None => None
      | Some hash => cons (entry_of m hash) <$> collect_entries p rest
      end
  end.

Definition entry_le (a b : Entry) : Prop := String.leb (entry_key a) (entry_key b) = true.
#[global] Instance entry_le_dec a b : Decision (entry_le a b).
Proof. unfold entry_le. apply _. Defined.

(** The entries and the digest of their JSON.  [sort.Slice] orders by key; which
    order it gives entries of equal keys does not matter, since [ValidateEntries]
    refuses them. *)
Definition policyEntries (p : policyDocument) : option (list Entry * string) :=
  if negb (validatePolicy p) then None
  else match collect_entries p (mappings_of p) with
  | None => None
  | Some entries =>
      let entries := merge_sort entry_le entries in
      if negb (ValidateEntries entries) then None
      else match entries_json entries with
      | None => None
      | Some raw => Some (entries, Sum256 raw)
      end
  end.

#[global] Arguments validatePolicy : simpl never.
#[global] Arguments resolveReceipt : simpl never.
#[global] Arguments policyEntries : simpl never.
#[global] Arguments displayAlias : simpl never.
#[global] Arguments semantic : simpl never.
#[global] Arguments physical : simpl never.

(** ** A concrete policy and receipt *)

Module PolicySample.
Definition digits32 : string := "0123456789abcdef0123456789abcdef".
Definition other32 : string := "fedcba9876543210fedcba9876543210".
Definition grace (n : Z) : Parameters := MkParameters 1 (MkGrace n false).
Definition mapping (target container : string) (op : Operation) (q : Parameters) (revision : string) : mappingDocument :=
  MkMapping ("srv_" ++ digits32) ("usr_" ++ digits32) ("agent_" ++ digits32) ("hlt_" ++ target) digits32
    (container ++ container) "3" "7" op q revision.
Definition policy : policyDocument :=
  MkPolicy "observer-action-policy/v1" ("srv_" ++ digits32) ("usr_" ++ digits32) ("agent_" ++ digits32) "5"
    (Some ["2"; "4"; "5"])
    (Some [mapping digits32 digits32 Stop (grace 5) "1"; mapping digits32 digits32 Stop (grace 10) "2";
           mapping digits32 digits32 Start (MkParameters 1 (MkGrace 0 true)) "4";
           mapping other32 other32 Restart (grace 10) "5"]).
Definition receipt : RequestReceipt :=
  MkReceipt ("hla_" ++ digits32) ("srv_" ++ digits32) ("usr_" ++ digits32) ("usr_" ++ digits32) ("agent_" ++ digits32)
    Stop ("hlt_" ++ digits32) (displayAlias (digits32 ++ digits32)) (digits32 ++ digits32) "3" "7" (grace 10)
    (default "" (ParameterDigest Stop (grace 10))) "2024-02-29T23:59:00.123456Z" "2024-03-01T00:04:00.123456Z"
    "request-1".
End PolicySample.

Example sample_policy :
  validatePolicy PolicySample.policy = true ∧ ValidateRequest PolicySample.receipt = true
  ∧ (rb_mappingRevision <$> resolveReceipt PolicySample.policy PolicySample.receipt true) = Some "2"
  ∧ (length ∘ fst <$> policyEntries PolicySample.policy) = Some 3%nat.
Proof. vm_compute. done. Qed.
