(* ===== verification/ActionPolicySafety.v ===== *)
(** * What a valid action policy guarantees

    [validatePolicy] is the only gate a policy document passes; everything the
    broker does with a policy afterwards validates again.  Here: what the gate
    establishes, that publication of a valid policy cannot fail, that a receipt
    resolves exactly when a current mapping approves it, and that every key so
    resolved is backed by a mapping the policy retains. *)

From S2P Require Import Prelude GoTime GoText GoCalendar Sha256 ActionReceipt ActionPolicy.
From S2P Require ActionCore ActionJournal.
From stdpp Require Import sorting.
Import ActionCore (Operation(..), Operation_eq_dec, operation_text, quoted, Key, k_Metadata, md_Request,
  md_EngineGeneration, md_ContainerID, k_TargetID, k_ActionID).

#[local] Open Scope string_scope.
#[local] Open Scope Z_scope.
#[local] Opaque Sum256 hexEncode.

(** ** Order on strings *)

#[global] Instance entry_le_trans : Transitive entry_le.
Proof.
  intros a b c. unfold entry_le. rewrite <- !Is_true_true. apply (transitivity (R := String.le)).
Qed.
#[global] Instance entry_le_total : Total entry_le.
Proof. intros a b. unfold entry_le. apply String.leb_total. Qed.

Lemma str_ltb_le a b : str_ltb a b = true ↔ String.leb a b = true ∧ a ≠ b.
Proof.
  unfold str_ltb, String.ltb, String.leb. destruct (String.compare a b) eqn:E; split; try done.
  - apply String.compare_eq_iff in E. by intros [].
  - intros _. split; [done|]. intros ->. pose proof (String.compare_antisym b b) as H. by rewrite E in H.
  - by intros [].
Qed.

(** ** Identifiers and revisions *)

Lemma substring_prefix (p s : string) : substring 0 (String.length p) s = p → String.prefix p s = true.
Proof.
  revert s. induction p as [|c p IH]; intros [|d s] H; simpl in *; try done.
  injection H as -> H. destruct (ascii_dec c c); [by apply IH|done].
Qed.

Lemma substring_append (p r : string) : substring 0 (String.length p) (p ++ r) = p.
Proof. induction p as [|c p IH]; simpl; [by destruct r|]. f_equal. apply IH. Qed.

Lemma substring_drop (p r : string) : substring (String.length p) (String.length (p ++ r)) (p ++ r) = r.
Proof.
  assert (H : ∀ n, (String.length r ≤ n)%nat → substring (String.length p) n (p ++ r) = r).
  { intros n Hn. induction p as [|c p IH]; [by apply substring_prefix_0|]. apply IH. }
  apply H. assert (Hl := slen_append p r). unfold slen in Hl. lia.
Qed.

Lemma localID_core s pre : localID s pre = ActionCore.identifier s pre.
Proof.
  apply eq_bool_prop_intro. rewrite !Is_true_true. unfold localID, localHex. split.
  - intros H. bools. match goal with H : substring 0 _ _ = _ |- _ => apply substring_prefix in H as Hp end.
    rewrite (prefix_split pre s (String.length s)) by done. by apply pattern_of.
  - intros (rest & -> & Hl & Hc)%match_pattern_spec.
    rewrite slen_append, Hl, Z.eqb_refl, substring_append, str_eqb_refl, substring_drop, Hl, Hc. done.
Qed.

Lemma localRevision_spec s n :
  localRevision s = Some n →
  FormatUint n = s ∧ 1 ≤ n ≤ MaxInt64 ∧ slen s ≤ 19 ∧ ParseUint s 64 = Some n.
Proof.
  unfold localRevision. destruct (_ || _) eqn:E; [done|]. destruct (ParseUint s 64) as [k|] eqn:Hk; [|done].
  destruct (_ && _) eqn:E2; [|done]. intros [= ->]. bools.
  apply ParseUint_range in Hk as Hr. repeat split; try done; try lia.
  destruct (decide (n = 0)) as [->|]; [|lia]. subst s. done.
Qed.

Lemma localRevision_revision s n : localRevision s = Some n → revision s = true.
Proof.
  intros H. destruct (localRevision_spec s n H) as (Hs & Hn & Hl & Hp).
  unfold localRevision in H. destruct (_ || _) eqn:E; [done|]. bools.
  unfold revision. rewrite Hp. rewrite !andb_true_iff. repeat split; try lia; try done.
  rewrite <- Hs. apply FormatUint_digits.
Qed.

(** ** Coherent assignments

    The loops of [validatePolicy] and [ValidateEntries] thread maps that refuse a
    second value for a key. *)

Section coherent.
Context {A : Type} (f g : A → string).

Definition coherent (acc : gmap string string) (l : list A) : Prop :=
  (∀ x v, x ∈ l → acc !! f x = Some v → v = g x)
  ∧ (∀ x y, x ∈ l → y ∈ l → f x = f y → g x = g y).

Lemma coherent_cons acc x l :
  coherent acc (x :: l) ↔ agrees acc (f x) (g x) = true ∧ coherent (<[f x := g x]> acc) l.
Proof.
  unfold coherent, agrees. setoid_rewrite elem_of_cons. split.
  - intros [H1 H2]. split; [destruct (acc !! f x) as [v|] eqn:E; [|done]; rewrite str_eqb_eq; by eapply H1; [left|]|].
    split; [|naive_solver]. intros y v Hy. destruct (decide (f x = f y)) as [Heq|].
    + rewrite Heq, lookup_insert_eq. intros [= <-]. eapply H2; eauto.
    + rewrite lookup_insert_ne by done. eauto.
  - intros [Ha [H1 H2]].
    assert (Hx : ∀ y, y ∈ l → f x = f y → g x = g y).
    { intros y Hy Heq. eapply (H1 y); [done|]. rewrite <- Heq. apply lookup_insert_eq. }
    split.
    + intros y v [->|Hy] Hv; [rewrite Hv in Ha; by apply str_eqb_eq in Ha|].
      destruct (decide (f x = f y)) as [Heq|]; [|eapply H1; [done|]; by rewrite lookup_insert_ne].
      rewrite <- (Hx y) by done. rewrite <- Heq in Hv. rewrite Hv in Ha. by apply str_eqb_eq in Ha.
    + intros y z [->|Hy] [->|Hz] Heq; eauto; symmetry; eauto.
Qed.
End coherent.

Lemma clashes_agrees (acc : gmap string string) k v :
  map_Forall (λ _ w, w ≠ "") acc → clashes acc k v = false → agrees acc k v = true.
Proof.
  intros Hne. unfold clashes, agrees. destruct (acc !! k) as [w|] eqn:E; [|done]. simpl.
  intros H. apply andb_false_iff in H as [H|H]; bools; [|by apply str_eqb_eq].
  exfalso. by apply (Hne k w).
Qed.

(** ** What validation establishes *)

Definition current_mapping (p : policyDocument) (m : mappingDocument) : Prop :=
  m ∈ mappings_of p ∧ m_MappingRevision m ∈ current_of p.
#[global] Instance current_mapping_dec p m : Decision (current_mapping p m).
Proof. unfold current_mapping. apply _. Defined.

Definition alias_of (m : mappingDocument) : string := displayAlias (m_ContainerID m).

Record policy_ok (p : policyDocument) : Prop := {
  po_server : localID (p_ServerID p) "srv_" = true;
  po_owner : localID (p_OwnerUserID p) "usr_" = true;
  po_connector : localID (p_ConnectorInstanceID p) "agent_" = true;
  po_valid : ∀ m, m ∈ mappings_of p →
    validMapping m true = true ∧ m_ServerID m = p_ServerID p ∧ m_OwnerUserID m = p_OwnerUserID p
    ∧ m_ConnectorInstanceID m = p_ConnectorInstanceID p;
  po_revisions : NoDup (m_MappingRevision <$> mappings_of p);
  po_semantic : NoDup (semantic <$> mappings_of p);
  po_targets : ∀ m m', m ∈ mappings_of p → m' ∈ mappings_of p →
    m_TargetID m = m_TargetID m' → physical m = physical m';
  po_current : ∀ c, c ∈ current_of p → ∃ m, m ∈ mappings_of p ∧ m_MappingRevision m = c;
  po_few : (length (current_of p) ≤ 32)%nat;
  po_pairs : ∀ m m', current_mapping p m → current_mapping p m' → pair_key m = pair_key m' → m = m';
  po_aliases : ∀ m m', current_mapping p m → current_mapping p m' →
    alias_of m = alias_of m' → m_TargetID m = m_TargetID m';
  po_physicals : ∀ m m', current_mapping p m → current_mapping p m' →
    physical m = physical m' → m_TargetID m = m_TargetID m' }.

Section loops.
Context (p : policyDocument) (head : Z).

(** The loop over the mappings; [out] is the final [byRevision]. *)
Lemma check_mappings_spec byRevision bySemantic targetBinding previous ms out :
  check_mappings p head byRevision bySemantic targetBinding previous ms = Some out →
  (∀ m, m ∈ ms →
    validMapping m true = true ∧ m_ServerID m = p_ServerID p ∧ m_OwnerUserID m = p_OwnerUserID p
    ∧ m_ConnectorInstanceID m = p_ConnectorInstanceID p
    ∧ semantic m ∉ bySemantic ∧ ∃ n, localRevision (m_MappingRevision m) = Some n ∧ previous < n)
  ∧ NoDup (m_MappingRevision <$> ms) ∧ NoDup (semantic <$> ms)
  ∧ coherent m_TargetID physical targetBinding ms
  ∧ (∀ r m, out !! r = Some m → byRevision !! r = Some m ∨ (m ∈ ms ∧ m_MappingRevision m = r)).
Proof.
  revert byRevision bySemantic targetBinding previous.
  induction ms as [|m ms IH]; intros br bs tb previous; simpl.
  { intros [= <-]. split; [set_solver|]. split; [constructor|]. split; [constructor|].
    split; [split; set_solver|]. by left. }
  destruct (localRevision (m_MappingRevision m)) as [n|] eqn:Hn; [|done].
  destruct (_ || _) eqn:E; [done|]. case_bool_decide as Hsem; [done|].
  destruct (agrees _ _ _) eqn:Ha; cbn [negb]; [|discriminate]. bools. intros (Hall & Hrev & Hs & Hco & Hout)%IH.
  split; [|split; [|split; [|split]]].
  - intros m' [->|Hm']%elem_of_cons; [by eauto 10|].
    destruct (Hall m' Hm') as (? & ? & ? & ? & ? & n' & ? & ?). repeat split; try done; [set_solver|].
    exists n'. split; [done|lia].
  - apply NoDup_cons. split; [|done]. intros (m' & Heq & Hm')%list_elem_of_fmap.
    destruct (Hall m' Hm') as (_ & _ & _ & _ & _ & n' & Hn' & ?). rewrite <- Heq, Hn in Hn'.
    injection Hn' as <-. lia.
  - apply NoDup_cons. split; [|done]. intros (m' & Heq & Hm')%list_elem_of_fmap.
    destruct (Hall m' Hm') as (_ & _ & _ & _ & ? & _). set_solver.
  - by apply coherent_cons.
  - intros r m' Hr. destruct (Hout r m' Hr) as [Hl|[? ?]]; [|right; set_solver].
    destruct (decide (m_MappingRevision m = r)) as [<-|]; [|rewrite lookup_insert_ne in Hl by done; by left].
    rewrite lookup_insert_eq in Hl. injection Hl as <-. right. set_solver.
Qed.

(** The loop over the current revisions. *)
Lemma check_current_spec byRevision pairs aliases physicals previous current :
  (∀ r m, byRevision !! r = Some m → m_TargetID m ≠ "") →
  map_Forall (λ _ w, w ≠ "") aliases → map_Forall (λ _ w, w ≠ "") physicals →
  check_current byRevision pairs aliases physicals previous current = true →
  let ms := omap (λ r, byRevision !! r) current in
  (∀ r, r ∈ current → is_Some (byRevision !! r))
  ∧ (∀ m, m ∈ ms → pair_key m ∉ pairs) ∧ NoDup (pair_key <$> ms)
  ∧ coherent alias_of m_TargetID aliases ms ∧ coherent physical m_TargetID physicals ms.
Proof.
  intros Hne. revert pairs aliases physicals previous.
  induction current as [|r current IH]; intros pairs aliases physicals previous Hal Hph; simpl.
  { intros _. split; [set_solver|]. split; [set_solver|]. split; [constructor|]. split; split; set_solver. }
  destruct (localRevision r) as [n|]; [|done]. destruct (byRevision !! r) as [m|] eqn:Hm; [|done].
  destruct (_ || _) eqn:E; [done|]. bools.
  intros (Hcur & Hp & Hnd & Hca & Hcp)%IH; [|by apply map_Forall_insert_2; eauto..].
  split; [|split; [|split; [|split]]].
  - intros r' [->|?]%elem_of_cons; [by rewrite Hm|by apply Hcur].
  - intros m' [->|Hm']%elem_of_cons; [done|]. specialize (Hp m' Hm'). set_solver.
  - apply NoDup_cons. split; [|done]. intros (m' & Heq & Hm')%list_elem_of_fmap.
    specialize (Hp m' Hm'). set_solver.
  - apply coherent_cons. eauto using clashes_agrees.
  - apply coherent_cons. eauto using clashes_agrees.
Qed.
End loops.

Lemma identifier_nonempty s pre : ActionCore.identifier s pre = true → s ≠ "".
Proof.
  intros (rest & -> & Hl & _)%match_pattern_spec H. apply (f_equal slen) in H.
  rewrite slen_append, Hl in H. change (slen "") with 0 in H. unfold slen in H. lia.
Qed.

Lemma NoDup_fmap_inj {A B} (f : A → B) (l : list A) x y :
  NoDup (f <$> l) → x ∈ l → y ∈ l → f x = f y → x = y.
Proof.
  induction l as [|z l IH]; simpl; [by intros ? ?%not_elem_of_nil|].
  intros [Hz Hl]%NoDup_cons [->|Hx]%elem_of_cons [->|Hy]%elem_of_cons Heq; auto.
  - exfalso. apply Hz. rewrite Heq. by apply list_elem_of_fmap_2.
  - exfalso. apply Hz. rewrite <- Heq. by apply list_elem_of_fmap_2.
Qed.

(** A validated mapping, field by field. *)
Record mapping_ok (m : mappingDocument) : Prop := {
  mo_server : ActionCore.identifier (m_ServerID m) "srv_" = true;
  mo_owner : ActionCore.identifier (m_OwnerUserID m) "usr_" = true;
  mo_connector : ActionCore.identifier (m_ConnectorInstanceID m) "agent_" = true;
  mo_target : ActionCore.identifier (m_TargetID m) "hlt_" = true;
  mo_engine : ActionCore.hex (m_EngineGeneration m) 32 = true;
  mo_container : ActionCore.hex (m_ContainerID m) 64 = true;
  mo_policy : ∃ n, localRevision (m_PolicyRevision m) = Some n;
  mo_capability : ∃ n, localRevision (m_CapabilityRevision m) = Some n;
  mo_parameters : parameters_ok (m_Operation m) (m_Parameters m) }.

Lemma validMapping_ok m required : validMapping m required = true → mapping_ok m.
Proof.
  unfold validMapping. rewrite !localID_core. intros H. bools.
  split; try done. by apply ParameterDigest_ok.
Qed.

Lemma validatePolicy_ok p : validatePolicy p = true → policy_ok p.
Proof.
  unfold validatePolicy. destruct (localRevision (p_Revision p)) as [head|]; [|done].
  destruct (p_Current p) as [current|] eqn:Hc; [|done].
  destruct (p_Mappings p) as [mappings|] eqn:Hm; [|done]. intros H. bools.
  destruct (check_mappings _ _ _ _ _ _ _) as [byRevision|] eqn:Hcm; [|done]. bools.
  assert (Hcur : current_of p = current) by by unfold current_of; rewrite Hc.
  assert (Hmap : mappings_of p = mappings) by by unfold mappings_of; rewrite Hm.
  apply check_mappings_spec in Hcm as (Hall & Hrev & Hsem & [_ Htgt] & Hout).
  assert (Hby : ∀ r m, byRevision !! r = Some m → m ∈ mappings ∧ m_MappingRevision m = r)
    by (intros r m [H'|?]%Hout; [by rewrite lookup_empty in H'|done]).
  match goal with H : check_current _ _ _ _ _ _ = true |- _ => apply check_current_spec in H end;
    [|intros r m [Hin _]%Hby; destruct (Hall m Hin) as (Hv & _);
      apply validMapping_ok in Hv as []; by eapply identifier_nonempty
     |by apply map_Forall_empty..].
  destruct_and!. set (ms := omap _ _) in *.
  assert (Hin : ∀ m, current_mapping p m → m ∈ ms).
  { intros m [Hm1 Hm2]. rewrite Hmap in Hm1. rewrite Hcur in Hm2.
    match goal with H : ∀ r, r ∈ current → _ |- _ => destruct (H _ Hm2) as [m' Hm'] end.
    apply list_elem_of_omap. exists (m_MappingRevision m). split; [done|].
    destruct (Hby _ _ Hm') as [? ?]. rewrite Hm'. f_equal. by apply (NoDup_fmap_inj m_MappingRevision mappings). }
  split; rewrite ?Hcur, ?Hmap; try done.
  - intros m Hmm. destruct (Hall m Hmm) as (? & ? & ? & ? & _). done.
  - intros c Hcc. match goal with H : ∀ r, r ∈ current → _ |- _ => destruct (H _ Hcc) as [m Hm'] end.
    exists m. by apply Hby.
  - lia.
  - intros m m' Hx%Hin Hy%Hin Heq. by apply (NoDup_fmap_inj pair_key ms).
  - intros m m' Hx%Hin Hy%Hin Heq. unfold coherent in *. destruct_and!. eauto.
  - intros m m' Hx%Hin Hy%Hin Heq. unfold coherent in *. destruct_and!. eauto.
Qed.

(** ** Publication *)

(** The entry a mapping publishes. *)
Definition approves (m : mappingDocument) (e : Entry) : Prop :=
  ∃ hash, ParameterDigest (m_Operation m) (m_Parameters m) = Some hash ∧ e = entry_of m hash.

Definition currents (p : policyDocument) : list mappingDocument :=
  filter (λ m, m_MappingRevision m ∈ current_of p) (mappings_of p).

Lemma elem_of_currents p m : m ∈ currents p ↔ current_mapping p m.
Proof. unfold currents, current_mapping. rewrite list_elem_of_filter. tauto. Qed.

Lemma current_ok p m : policy_ok p → current_mapping p m → mapping_ok m.
Proof. intros Hp [Hm _]. by eapply validMapping_ok, po_valid. Qed.

Lemma collect_entries_spec p ms :
  (∀ m, m ∈ ms → mapping_ok m) →
  ∃ es, collect_entries p ms = Some es
        ∧ Forall2 approves (filter (λ m, m_MappingRevision m ∈ current_of p) ms) es.
Proof.
  induction ms as [|m ms IH]; intros Hok; [by exists []|]. simpl.
  destruct IH as (es & -> & IH); [intros; apply Hok; by right|].
  rewrite filter_cons. case_bool_decide as Hc; simpl; [|rewrite decide_False by done; by eexists].
  rewrite decide_True by done. destruct (Hok m) as []; [left|].
  destruct (proj2 (ParameterDigest_ok _ _) mo_parameters0) as [hash Hh]. rewrite Hh. simpl.
  eexists. split; [done|]. constructor; [by exists hash|done].
Qed.

Lemma displayAlias_shape c :
  ∃ rest, displayAlias c = "ctr_" ++ rest ∧ slen rest = 16 ∧ str_forallb is_lower_hex rest = true.
Proof.
  unfold displayAlias. eexists. split; [done|].
  assert (H8 : slen (substring 0 8 (Sum256 c)) = 8).
  { pose proof (Sum256_length c) as H. revert H. generalize (Sum256 c). intros s Hs.
    assert (Hg : ∀ n s, (n ≤ String.length s)%nat → String.length (substring 0 n s) = n).
    { clear. induction n as [|n IH]; intros [|a s] Hn; simpl in *; try lia; f_equal; apply IH; lia. }
    unfold slen in *. rewrite Hg; lia. }
  destruct (hexEncode_shape (substring 0 8 (Sum256 c))) as [Hl Hh]. split; [lia|done].
Qed.

Lemma approves_valid m e : mapping_ok m → approves m e → validEntry e = true.
Proof.
  intros Hm (hash & Hh & ->). unfold validEntry, entry_of.
  cbn [en_Operation en_Parameters en_ParameterSHA256 en_TargetID en_TargetKey en_PolicyRevision en_CapabilityRevision].
  rewrite Hh, str_eqb_refl, identifier_core.
  rewrite (mo_target m Hm). destruct (displayAlias_shape (m_ContainerID m)) as (rest & -> & Hl & Hx).
  rewrite slen_append, Hl. change (slen "ctr_" + 16 =? 20) with true.
  pose proof (pattern_of "ctr_" _ _ _ Hl Hx) as Hpat. unfold match_pattern in Hpat.
  apply andb_true_iff in Hpat as [Hpat _]. apply andb_true_iff in Hpat as [-> _].
  change 4%nat with (String.length "ctr_"). rewrite substring_drop. unfold hexValue. rewrite Hl, Hx.
  destruct (mo_policy m Hm) as [n Hn%localRevision_revision], (mo_capability m Hm) as [k Hk%localRevision_revision].
  by rewrite Hn, Hk.
Qed.

Lemma entry_json_some m e : mapping_ok m → approves m e → is_Some (entry_json e).
Proof.
  intros Hm (hash & _ & ->). unfold entry_json, parameters_json. simpl.
  destruct (Grace_json_some _ _ (mo_parameters m Hm)) as [g ->]. by eexists.
Qed.

Lemma validate_entries_intro aliases targets previous es :
  Forall (λ e, validEntry e = true) es →
  (∀ e, e ∈ es → str_ltb previous (entry_key e) = true) →
  StronglySorted (λ a b, str_ltb (entry_key a) (entry_key b) = true) es →
  coherent en_TargetKey en_TargetID aliases es → coherent en_TargetID en_TargetKey targets es →
  validate_entries aliases targets previous es = true.
Proof.
  revert aliases targets previous. induction es as [|e es IH]; intros aliases targets previous Hv Hp Hs Ha Ht; [done|].
  simpl. apply Forall_cons in Hv as [Hv1 Hv2]. apply StronglySorted_inv in Hs as [Hs1 Hs2].
  apply coherent_cons in Ha as [Ha1 Ha2], Ht as [Ht1 Ht2]. rewrite Hv1, Hp, Ha1, Ht1 by by left. simpl.
  apply IH; try done. by apply Forall_forall.
Qed.

(** Two mappings for one target name one container. *)
Lemma physical_inj m m' :
  mapping_ok m → mapping_ok m' → physical m = physical m' →
  m_EngineGeneration m = m_EngineGeneration m' ∧ m_ContainerID m = m_ContainerID m'.
Proof.
  intros [_ _ _ _ He _ _ _ _] [_ _ _ _ He' _ _ _ _] H. unfold physical in H. unfold ActionCore.hex in *. bools.
  apply append_inj in H as [-> Hc]; [|congruence]. split; [done|]. by injection Hc.
Qed.

Lemma same_target_same_container p m m' :
  policy_ok p → m ∈ mappings_of p → m' ∈ mappings_of p → m_TargetID m = m_TargetID m' →
  m_EngineGeneration m = m_EngineGeneration m' ∧ m_ContainerID m = m_ContainerID m'.
Proof.
  intros Hp Hm Hm' Heq. apply physical_inj; [by eapply validMapping_ok, po_valid..|]. by eapply po_targets.
Qed.

Lemma operation_text_inj a b :
  ActionCore.known_operation a = true → ActionCore.known_operation b = true →
  operation_text a = operation_text b → a = b.
Proof. by destruct a, b. Qed.

Lemma entry_key_inj p m m' e e' :
  policy_ok p → current_mapping p m → current_mapping p m' → approves m e → approves m' e' →
  entry_key e = entry_key e' → m = m'.
Proof.
  intros Hp Hm Hm' (h & _ & ->) (h' & _ & ->) H. unfold entry_key, entry_of in H. simpl in H.
  pose proof (current_ok _ _ Hp Hm) as Ho. pose proof (current_ok _ _ Hp Hm') as Ho'.
  apply append_inj in H as [H1 H2].
  - injection H2 as H2. apply (po_pairs p Hp m m' Hm Hm'). unfold pair_key. by rewrite H1, H2.
  - apply mo_target in Ho, Ho'. rewrite <- identifier_core in Ho, Ho'.
    rewrite (identifier_length _ _ Ho), (identifier_length _ _ Ho'). done.
Qed.

(** Sorting entries of distinct keys orders them strictly. *)
Lemma sorted_strict es :
  NoDup (entry_key <$> es) → StronglySorted entry_le es →
  StronglySorted (λ a b, str_ltb (entry_key a) (entry_key b) = true) es.
Proof.
  induction es as [|e es IH]; intros Hn Hs; [constructor|].
  apply NoDup_cons in Hn as [Hn1 Hn2]. apply StronglySorted_inv in Hs as [Hs1 Hs2].
  constructor; [by apply IH|]. rewrite Forall_forall in *. intros e' He'. apply str_ltb_le.
  split; [by apply Hs2|]. intros Heq. apply Hn1. rewrite Heq. by apply list_elem_of_fmap_2.
Qed.

Lemma approves_distinct p ms es :
  policy_ok p → (∀ m, m ∈ ms → current_mapping p m) → NoDup ms → Forall2 approves ms es →
  NoDup (entry_key <$> es).
Proof.
  intros Hp Hms Hnd HF. induction HF as [|m e ms es Hme HF IH]; [constructor|].
  apply NoDup_cons in Hnd as [Hn1 Hn2]. simpl. apply NoDup_cons. split.
  - intros (e' & Heq & He')%list_elem_of_fmap.
    apply list_elem_of_lookup in He' as [i He']. destruct (Forall2_lookup_r _ _ _ _ _ HF He') as (m' & Hm' & Happ).
    apply list_elem_of_lookup_2 in Hm'.
    assert (m = m') as <-; [|done].
    apply (entry_key_inj p m m' e e'); try done; apply Hms; [left|by right].
  - apply IH; [|done]. intros; apply Hms; by right.
Qed.

Lemma approves_elem ms es e : Forall2 approves ms es → e ∈ es ↔ ∃ m, m ∈ ms ∧ approves m e.
Proof.
  intros HF. split.
  - intros [i He]%list_elem_of_lookup. destruct (Forall2_lookup_r _ _ _ _ _ HF He) as (m & Hm & ?).
    exists m. split; [by eapply list_elem_of_lookup_2|done].
  - intros (m & [i Hm]%list_elem_of_lookup & (h & Hh & ->)).
    destruct (Forall2_lookup_l _ _ _ _ _ HF Hm) as (e & He & (h' & Hh' & ->)).
    assert (h' = h) as -> by congruence. by eapply list_elem_of_lookup_2.
Qed.

Lemma mappings_nodup p : policy_ok p → NoDup (mappings_of p).
Proof. intros Hp. eapply NoDup_fmap_1, (po_revisions p Hp). Qed.

Lemma currents_few p : policy_ok p → (length (currents p) ≤ 32)%nat.
Proof.
  intros Hp. etransitivity; [|apply (po_few p Hp)].
  rewrite <- (length_fmap m_MappingRevision (currents p)). apply submseteq_length, NoDup_submseteq.
  - eapply sublist_NoDup; [apply (po_revisions p Hp)|]. apply fmap_sublist, sublist_filter.
  - intros r (m & -> & [_ ?]%elem_of_currents)%list_elem_of_fmap. done.
Qed.

(** Entries of current mappings, in strict order, are what publication accepts. *)
Lemma entries_valid p es :
  policy_ok p → (∀ e, e ∈ es → ∃ m, current_mapping p m ∧ approves m e) → (length es ≤ 32)%nat →
  StronglySorted (λ a b, str_ltb (entry_key a) (entry_key b) = true) es → ValidateEntries es = true.
Proof.
  intros Hp Hes Hl Hs. unfold ValidateEntries. apply andb_true_iff. split; [lia|].
  apply validate_entries_intro; try done.
  - apply Forall_forall. intros e (m & Hm & Ha)%Hes. eapply approves_valid; [by eapply current_ok|done].
  - intros e (m & Hm & (h & _ & ->))%Hes. unfold entry_key, entry_of. simpl.
    pose proof (mo_target m (current_ok _ _ Hp Hm)) as Ht. apply identifier_nonempty in Ht.
    by destruct (m_TargetID m).
  - split; [intros ? ? _ H; by rewrite lookup_empty in H|].
    intros e e' (m & Hm & (h & _ & ->))%Hes (m' & Hm' & (h' & _ & ->))%Hes. by apply (po_aliases p Hp).
  - split; [intros ? ? _ H; by rewrite lookup_empty in H|].
    intros e e' (m & [Hm _] & (h & _ & ->))%Hes (m' & [Hm' _] & (h' & _ & ->))%Hes Heq.
    unfold entry_of in *. cbn [en_TargetID en_TargetKey] in *.
    by destruct (same_target_same_container p m m' Hp Hm Hm' Heq) as [_ ->].
Qed.

(** Publication of a valid policy cannot fail: its entries are exactly those of
    the current mappings, each once, and they pass the validation every reader of
    the publication repeats. *)
Theorem policy_publishes p :
  validatePolicy p = true →
  ∃ entries digest, policyEntries p = Some (entries, digest) ∧ ValidateEntries entries = true
    ∧ NoDup entries ∧ (∀ e, e ∈ entries ↔ ∃ m, current_mapping p m ∧ approves m e).
Proof.
  intros Hv. pose proof (validatePolicy_ok p Hv) as Hp. unfold policyEntries. rewrite Hv. simpl.
  destruct (collect_entries_spec p (mappings_of p)) as (es & -> & HF).
  { intros m Hm. by eapply validMapping_ok, po_valid. }
  change (filter _ _) with (currents p) in HF.
  set (sorted := merge_sort entry_le es). pose proof (merge_sort_Permutation entry_le es) as Hperm. fold sorted in Hperm.
  assert (Hes : ∀ e, e ∈ sorted ↔ ∃ m, current_mapping p m ∧ approves m e).
  { intros e. rewrite Hperm, (approves_elem _ _ e HF). setoid_rewrite elem_of_currents. done. }
  assert (Hkeys : NoDup (entry_key <$> sorted)).
  { rewrite Hperm. eapply (approves_distinct p); [done| | |exact HF].
    - intros m. apply elem_of_currents.
    - apply NoDup_filter, mappings_nodup, Hp. }
  assert (Hve : ValidateEntries sorted = true).
  { apply (entries_valid p); [done|by intros ? ?%Hes| |].
    - rewrite Hperm, <- (Forall2_length _ _ _ HF). by apply currents_few.
    - apply sorted_strict; [done|]. apply (StronglySorted_merge_sort entry_le). }
  assert (Hj : is_Some (entries_json sorted)).
  { unfold entries_json. apply fmap_is_Some, mapM_is_Some. apply Forall_forall.
    intros e (m & Hm & Ha)%Hes. eapply entry_json_some; [by eapply current_ok|done]. }
  destruct Hj as [raw Hj]. rewrite Hve, Hj. simpl. eexists _, _. split; [done|].
  split; [done|]. split; [by eapply NoDup_fmap_1|done].
Qed.

(** ** Sizes of marshalled documents *)

Lemma slen_nonneg s : 0 ≤ slen s.
Proof. unfold slen. lia. Qed.

Lemma slen_quoted s : slen (quoted s) = slen s + 2.
Proof.
  unfold quoted. change (String ActionCore.quote ?x) with (String ActionCore.quote "" ++ x).
  rewrite !slen_append. change (slen (String ActionCore.quote "")) with 1. lia.
Qed.

Lemma commas_length items k :
  Forall (λ i, slen i ≤ k) items → 0 ≤ k → slen (commas items) ≤ Z.of_nat (length items) * (k + 1).
Proof.
  intros H Hk. induction H as [|i items Hi H IH]; [done|].
  destruct items as [|j items]; [simpl in *; lia|].
  change (commas (i :: j :: items)) with (i ++ "," ++ commas (j :: items)).
  rewrite !slen_append. change (slen ",") with 1. simpl length in *. lia.
Qed.

Lemma object_length fs k :
  Forall (λ f, slen f.1 + slen f.2 ≤ k) fs → 0 ≤ k → slen (object fs) ≤ 2 + Z.of_nat (length fs) * (k + 4).
Proof.
  intros H Hk. unfold object. rewrite !slen_append. change (slen "{") with 1. change (slen "}") with 1.
  pose proof (commas_length ((λ f, member f.1 f.2) <$> fs) (k + 3)) as Hc. rewrite length_fmap in Hc.
  specialize (Hc ltac:(apply Forall_fmap; eapply Forall_impl; [exact H|];
    intros f Hf; unfold compose, member; cbv beta in *; rewrite !slen_append, slen_quoted; change (slen ":") with 1; lia)).
  lia.
Qed.

Lemma render_fields_length fs k :
  Forall (λ f, slen (ActionCore.render_field f) ≤ k) fs → 0 ≤ k →
  slen (ActionCore.render_fields fs) ≤ 1 + Z.of_nat (length fs) * (k + 1).
Proof.
  intros H Hk. induction H as [|f fs Hf H IH]; [done|].
  destruct fs as [|g fs].
  - change (ActionCore.render_fields [f]) with (ActionCore.render_field f ++ "}").
    rewrite slen_append. change (slen "}") with 1. simpl length. lia.
  - change (ActionCore.render_fields (f :: g :: fs))
      with (ActionCore.render_field f ++ "," ++ ActionCore.render_fields (g :: fs)).
    rewrite !slen_append. change (slen ",") with 1. simpl length in *. lia.
Qed.

(** A journal record whose texts are short has a short encoding. *)
Lemma marshal_length v :
  Forall (λ s, slen s ≤ 64)
    [ActionCore.jr_ActionID v; ActionCore.jr_ServerID v; ActionCore.jr_InstallationID v;
     ActionCore.jr_OwnerID v; ActionCore.jr_ActorID v; ActionCore.jr_TargetID v;
     ActionCore.jr_EngineGeneration v; ActionCore.jr_ContainerID v;
     operation_text (ActionCore.jr_Operation v); ActionCore.jr_Created v; ActionCore.jr_Expires v;
     FormatUint (ActionCore.jr_Version v); FormatUint (ActionCore.jr_Grace v);
     FormatUint (ActionCore.jr_Policy v); FormatUint (ActionCore.jr_Capability v)] →
  slen (ActionCore.marshal v) ≤ 2048.
Proof.
  rewrite !Forall_cons. intros H. destruct_and!. unfold ActionCore.marshal, ActionCore.render.
  rewrite slen_append. change (slen "{") with 1.
  pose proof (render_fields_length (ActionCore.record_fields v) 90) as Hr.
  change (length (ActionCore.record_fields v)) with 15%nat in Hr.
  specialize (Hr ltac:(unfold ActionCore.record_fields; repeat (apply Forall_cons; split; [|]); try apply Forall_nil;
    try exact I; unfold ActionCore.render_field, ActionCore.render_value; cbn [fst snd];
    rewrite !slen_append, ?slen_quoted; unfold slen in *; simpl String.length in *; lia)). lia.
Qed.

Lemma policy_publishes_witness :
  ∃ entries digest, policyEntries PolicySample.policy = Some (entries, digest) ∧ ValidateEntries entries = true
    ∧ NoDup entries ∧ (∀ e, e ∈ entries ↔ ∃ m, current_mapping PolicySample.policy m ∧ approves m e).
Proof. apply (policy_publishes PolicySample.policy). vm_compute. reflexivity. Defined.
