(* ===== verification/ActionResolve.v ===== *)
(** * Resolution of receipts against the policy

    A receipt resolves under a valid policy exactly when one current mapping
    approves it; the journal key it then gets names that mapping's container,
    passes every later validation, and is backed by a mapping the policy keeps. *)

From S2P Require Import Prelude GoTime GoText GoCalendar Sha256 ActionReceipt ActionPolicy ActionPolicySafety.
From S2P Require ActionCore ActionJournal.
Import ActionCore (Operation(..), Operation_eq_dec, operation_text, quoted, Key, MkKey, MkMetadata, k_Metadata,
  md_Request, md_EngineGeneration, md_ContainerID, k_TargetID, k_ActionID).

#[local] Open Scope string_scope.
#[local] Open Scope Z_scope.
#[local] Opaque Sum256 hexEncode.

(** ** Validated receipts *)

Record receipt_ok (r : RequestReceipt) (created expires : time) : Prop := {
  ro_action : ActionCore.identifier (rr_ActionID r) "hla_" = true;
  ro_server : ActionCore.identifier (rr_ServerID r) "srv_" = true;
  ro_owner : ActionCore.identifier (rr_OwnerUserID r) "usr_" = true;
  ro_actor : rr_ActorUserID r = rr_OwnerUserID r;
  ro_connector : ActionCore.identifier (rr_ConnectorInstanceID r) "agent_" = true;
  ro_target : ActionCore.identifier (rr_TargetID r) "hlt_" = true;
  ro_key : slen (rr_TargetKey r) ≤ 48;
  ro_idempotency : slen (rr_IdempotencyKeyHash r) = 64;
  ro_sha : slen (rr_ParameterSHA256 r) = 64;
  ro_policy : slen (rr_PolicyRevision r) ≤ 19;
  ro_capability : slen (rr_CapabilityRevision r) ≤ 19;
  ro_correlation : slen (rr_CorrelationID r) ≤ 128;
  ro_created : ParseHTTPTime (rr_RequestedAt r) = Some created;
  ro_expires : ParseHTTPTime (rr_ExpiresAt r) = Some expires;
  ro_window : wall expires = wall created + 300 * Second;
  ro_parameters : parameters_ok (rr_Operation r) (rr_Parameters r) }.

Lemma ValidateRequest_ok r : ValidateRequest r = true → ∃ created expires, receipt_ok r created expires.
Proof.
  unfold ValidateRequest. rewrite !identifier_core. intros H. apply andb_true_iff in H as [H Ht].
  destruct (ParseHTTPTime (rr_RequestedAt r)) as [created|] eqn:Hc; [|done].
  destruct (ParseHTTPTime (rr_ExpiresAt r)) as [expires|] eqn:He; [|done].
  destruct (ParameterDigest _ _) as [hash|] eqn:Hd; [|done].
  unfold targetKey, hexValue, revision, correlation in H. bools. exists created, expires.
  split; try done.
  - pose proof (http_wallclock _ _ He) as Hw. match goal with H : Sub _ _ = _ |- _ => rename H into Hs end.
    rewrite Sub_wall_l, sat64_eq in Hs by (done || (vm_compute; done)). lia.
  - apply ParameterDigest_ok. by eexists.
Qed.

Lemma http_times_ok r created expires :
  receipt_ok r created expires →
  http_time (rr_RequestedAt r) = created ∧ http_time (rr_ExpiresAt r) = expires.
Proof. intros Hr. unfold http_time. by rewrite (ro_created _ _ _ Hr), (ro_expires _ _ _ Hr). Qed.

Lemma http_stamp s t :
  ParseHTTPTime s = Some t →
  ActionCore.canonical_stamp (FormatRFC3339Nano t) = true ∧ slen (FormatRFC3339Nano t) ≤ 30.
Proof.
  intros (Hu & _ & _ & Hy & _)%ParseHTTPTime_spec. destruct (RFC3339Nano_shape _ Hy) as [Hl _].
  unfold ActionCore.canonical_stamp. rewrite canonicalTime_text by done. split; [|lia].
  apply andb_true_iff. split; [lia|]. by apply bool_decide_eq_true.
Qed.

Lemma parameters_json_length op p v g :
  parameters_ok op p → slen v ≤ 30 → slen g ≤ 30 →
  ∃ j, parameters_json v g p = Some j ∧ slen j ≤ 200.
Proof.
  intros Hp Hv Hg. destruct (Grace_json_some _ _ Hp) as [s Hs]. unfold parameters_json. rewrite Hs. simpl.
  eexists. split; [done|].
  assert (Hl : slen s ≤ 4).
  { revert Hs. unfold Grace_MarshalJSON. destruct (gr_Null _ && _); [by intros [= <-]|].
    destruct (_ || _) eqn:E; [done|]. intros [= <-]. bools. set (n := gr_Seconds _) in *.
    assert (n ∈ [1;2;3;4;5;6;7;8;9;10;11;12;13;14;15;16;17;18;19;20;21;22;23;24;25;26;27;28;29;30]) as Hin
      by (rewrite !elem_of_cons; lia).
    clearbody n. in_cases Hin; vm_compute; done. }
  destruct Hp as (-> & _ & _). change (FormatUint 1) with "1".
  pose proof (object_length [(v, "1"); (g, s)] 40) as Ho. simpl length in Ho.
  specialize (Ho ltac:(repeat constructor; cbn [fst snd]; change (slen "1") with 1; lia)). lia.
Qed.

(** The digest of a validated receipt exists. *)
Lemma ReceiptDigest_some r created expires :
  ValidateRequest r = true → receipt_ok r created expires → is_Some (ReceiptDigest r).
Proof.
  intros Hv Hr. unfold ReceiptDigest, CanonicalRequest. rewrite Hv. simpl.
  destruct (parameters_json_length (rr_Operation r) (rr_Parameters r) "format_version" "stop_grace_seconds")
    as (j & -> & Hj); [apply Hr|vm_compute; done|vm_compute; done|].
  pose proof (object_length (request_fields r j) 300) as Ho.
  destruct Hr as [Ha Hs Ho' Hac Hc Ht ? ? ? ? ? ? Hcr Hex _ [_ [Hop _]]].
  rewrite <- identifier_core in Ha, Hs, Ho', Hc, Ht.
  apply identifier_length in Ha, Hs, Ho', Hc, Ht.
  assert (Htime : ∀ s t, ParseHTTPTime s = Some t → slen s = 27).
  { intros s t. unfold ParseHTTPTime. destruct (parse_time s); [|done]. destruct (_ || _) eqn:E; [done|]. by bools. }
  apply Htime in Hcr, Hex. rewrite <- Hac in Ho'.
  assert (slen (operation_text (rr_Operation r)) ≤ 30) by (destruct (rr_Operation r); vm_compute; done).
  assert (Hlen : slen (object (request_fields r j)) ≤ MaxEnvelopeBytes).
  { etransitivity; [apply Ho; [|done]|vm_compute; done].
    unfold request_fields. repeat (apply Forall_cons; split); try apply Forall_nil; try exact I;
      cbn [fst snd]; rewrite ?slen_quoted, <- ?Hac;
      match goal with |- slen ?name + _ ≤ _ => let n := eval vm_compute in (slen name) in change (slen name) with n end;
      unfold slen in *; simpl String.length in *; lia. }
  destruct (MaxEnvelopeBytes <? _) eqn:E; bools; [lia|by eexists].
Qed.

(** ** Keys of approved receipts *)

(** What [matches] and the alias test ask of a mapping. *)
Record approved_by (r : RequestReceipt) (m : mappingDocument) : Prop := {
  ab_target : m_TargetID m = rr_TargetID r;
  ab_operation : m_Operation m = rr_Operation r;
  ab_policy : m_PolicyRevision m = rr_PolicyRevision r;
  ab_capability : m_CapabilityRevision m = rr_CapabilityRevision r;
  ab_parameters : m_Parameters m = rr_Parameters r;
  ab_alias : rr_TargetKey r = alias_of m }.

Lemma matches_iff p r c m :
  matches p r c m = true ∧ rr_TargetKey r = alias_of m
  ↔ approved_by r m ∧ (c = true → m_MappingRevision m ∈ current_of p).
Proof.
  unfold matches. rewrite !andb_true_iff, !str_eqb_eq, !bool_decide_eq_true, negb_true_iff, andb_false_iff,
    negb_false_iff, bool_decide_eq_true. split.
  - intros ((((((? & ?) & ?) & ?) & ?) & Hc) & ?). split; [by split|]. intros ->. by destruct Hc.
  - intros ([] & Hc). repeat split; try done. destruct c; [right; by apply Hc|by left].
Qed.

Lemma uint_of_revision s : (∃ n, localRevision s = Some n) → ∃ n, localRevision s = Some n ∧ uint_of s = n.
Proof. intros [n Hn]. exists n. split; [done|]. apply localRevision_spec in Hn as (_ & _ & _ & Hp). unfold uint_of. by rewrite Hp. Qed.

Section approved.
Context (r : RequestReceipt) (m : mappingDocument) (created expires : time).
Context (Hr : receipt_ok r created expires) (Hm : mapping_ok m) (Ha : approved_by r m).

Definition key_of : Key :=
  MkKey (rr_ActionID r) (rr_TargetID r) (ActionCore.fingerprint (receipt_request r) (receipt_binding r m))
    (MkMetadata (receipt_request r) (m_EngineGeneration m) (m_ContainerID m)).

Lemma revision_range s : s = m_PolicyRevision m ∨ s = m_CapabilityRevision m →
  1 ≤ uint_of s ≤ MaxInt64 ∧ FormatUint (uint_of s) = s ∧ slen s ≤ 19.
Proof.
  intros Hs. assert (He : ∃ n, localRevision s = Some n) by (destruct Hs as [-> | ->]; apply Hm).
  destruct (uint_of_revision s He) as (n & Hn & ->). apply localRevision_spec in Hn. naive_solver.
Qed.

Lemma window_ok :
  IsZero created = false ∧ After expires created = true ∧ Before created expires = true
  ∧ Before created created = false ∧ Sub expires created = 300 * Second.
Proof.
  pose proof (ParseHTTPTime_spec _ _ (ro_created _ _ _ Hr)) as (Hu & Hz & _).
  pose proof (ParseHTTPTime_spec _ _ (ro_expires _ _ _ Hr)) as (Hu' & _). pose proof (ro_window _ _ _ Hr) as Hw.
  apply utc_wallclock in Hu, Hu'. split; [done|].
  rewrite After_wall_l, !Before_wall_l, Sub_wall_l, sat64_id by (done || (rewrite Hw; unfold MinInt64, MaxInt64, Second; lia)).
  unfold Second in *. repeat split; lia.
Qed.

Lemma grace_ok :
  let g := gr_Seconds (pm_StopGraceSeconds (rr_Parameters r)) in
  0 ≤ g ≤ 30 ∧ (if rr_Operation r == Start then g = 0 else 1 ≤ g) ∧ ActionCore.known_operation (rr_Operation r) = true.
Proof.
  destruct (ro_parameters _ _ _ Hr) as (_ & Hk & H). simpl. split; [|split; [|done]]; case_bool_decide; lia.
Qed.

Lemma receipt_valid : ActionCore.valid (receipt_request r) (receipt_binding r m) created = true.
Proof.
  destruct window_ok as (Hz & Haf & Hbe & Hbb & Hsub), grace_ok as (Hg & Hg' & Hk).
  destruct (http_times_ok _ _ _ Hr) as [Hc He].
  destruct (revision_range (rr_PolicyRevision r)) as [Hp _]; [left; symmetry; apply Ha|].
  destruct (revision_range (rr_CapabilityRevision r)) as [Hca _]; [right; symmetry; apply Ha|].
  unfold ActionCore.valid. cbv zeta. unfold receipt_request, receipt_binding.
  cbn [ActionCore.ActionID ActionCore.ServerID ActionCore.InstallationID ActionCore.OwnerID ActionCore.ActorID
    ActionCore.TargetID ActionCore.Op ActionCore.GraceSeconds ActionCore.PolicyRevision ActionCore.CapabilityRevision
    ActionCore.CreatedAt ActionCore.ExpiresAt ActionCore.b_ServerID ActionCore.b_InstallationID ActionCore.b_OwnerID
    ActionCore.b_TargetID ActionCore.b_EngineGeneration ActionCore.b_ContainerID ActionCore.b_PolicyRevision
    ActionCore.b_CapabilityRevision ActionCore.b_GraceSeconds ActionCore.b_Operations].
  rewrite Hc, He, Hz, Haf, Hbe, Hbb, Hsub, !str_eqb_refl, !Z.eqb_refl, (ro_actor _ _ _ Hr).
  rewrite (ro_action _ _ _ Hr), (ro_server _ _ _ Hr), (ro_connector _ _ _ Hr), (ro_owner _ _ _ Hr), (ro_target _ _ _ Hr).
  rewrite (mo_engine _ Hm), (mo_container _ Hm).
  replace (uint_of (rr_PolicyRevision r) =? 0) with false by lia.
  replace (uint_of (rr_CapabilityRevision r) =? 0) with false by lia.
  set (g := gr_Seconds _) in *. destruct (rr_Operation r) eqn:Hop; try done;
    rewrite ?bool_decide_true in Hg' by done; rewrite ?bool_decide_false in Hg' by done;
    cbn -[Z.leb Z.ltb Z.eqb]; rewrite ?Hg'; try reflexivity.
  all: replace (g <? 1) with false by lia; replace (30 <? g) with false by lia;
    replace (1 <=? g) with true by lia; replace (g <=? 30) with true by lia; reflexivity.
Qed.

Lemma key_metadata_ok : ActionCore.metadata_ok key_of = true.
Proof.
  destruct window_ok as (Hz & Haf & _ & _ & Hsub), grace_ok as (Hg & Hg' & Hk).
  destruct (http_times_ok _ _ _ Hr) as [Hc He].
  destruct (revision_range (rr_PolicyRevision r)) as [Hp _]; [left; symmetry; apply Ha|].
  destruct (revision_range (rr_CapabilityRevision r)) as [Hca _]; [right; symmetry; apply Ha|].
  unfold ActionCore.metadata_ok, key_of, receipt_request. cbv zeta.
  cbn [ActionCore.k_ActionID ActionCore.k_TargetID ActionCore.k_Metadata ActionCore.md_Request
    ActionCore.md_EngineGeneration ActionCore.md_ContainerID ActionCore.ActionID ActionCore.ServerID
    ActionCore.InstallationID ActionCore.OwnerID ActionCore.ActorID
    ActionCore.TargetID ActionCore.Op ActionCore.GraceSeconds ActionCore.PolicyRevision ActionCore.CapabilityRevision
    ActionCore.CreatedAt ActionCore.ExpiresAt].
  rewrite Hc, He, Hz, Haf, Hsub, !str_eqb_refl, (ro_actor _ _ _ Hr).
  rewrite (ro_action _ _ _ Hr), (ro_server _ _ _ Hr), (ro_connector _ _ _ Hr), (ro_owner _ _ _ Hr), (ro_target _ _ _ Hr).
  rewrite (mo_engine _ Hm), (mo_container _ Hm).
  replace (uint_of (rr_PolicyRevision r) =? 0) with false by lia.
  replace (uint_of (rr_CapabilityRevision r) =? 0) with false by lia.
  set (g := gr_Seconds _) in *. destruct (rr_Operation r) eqn:Hop; try done;
    rewrite ?bool_decide_true in Hg' by done; rewrite ?bool_decide_false in Hg' by done;
    cbn -[Z.leb Z.ltb Z.eqb]; rewrite ?Hg'; try reflexivity.
  all: replace (1 <=? g) with true by lia; replace (g <=? 30) with true by lia; reflexivity.
Qed.

Lemma key_length :
  slen (ActionCore.marshal (ActionCore.journalRecordFor (receipt_request r) (m_EngineGeneration m) (m_ContainerID m)))
  ≤ 2048.
Proof.
  destruct grace_ok as (Hg & _ & Hk). destruct (http_times_ok _ _ _ Hr) as [Hc He].
  destruct (revision_range (rr_PolicyRevision r)) as (_ & Hp & Hpl); [left; symmetry; apply Ha|].
  destruct (revision_range (rr_CapabilityRevision r)) as (_ & Hca & Hcl); [right; symmetry; apply Ha|].
  pose proof (proj2 (http_stamp _ _ (ro_created _ _ _ Hr))). pose proof (proj2 (http_stamp _ _ (ro_expires _ _ _ Hr))).
  assert (Hid : ∀ s pre, ActionCore.identifier s pre = true → slen s = slen pre + 32)
    by (intros s pre; rewrite <- identifier_core; apply identifier_length).
  apply marshal_length. unfold ActionCore.journalRecordFor, receipt_request.
  cbn [ActionCore.jr_ActionID ActionCore.jr_ServerID ActionCore.jr_InstallationID ActionCore.jr_OwnerID
    ActionCore.jr_ActorID ActionCore.jr_TargetID ActionCore.jr_EngineGeneration ActionCore.jr_ContainerID
    ActionCore.jr_Operation ActionCore.jr_Created ActionCore.jr_Expires ActionCore.jr_Version ActionCore.jr_Grace
    ActionCore.jr_Policy ActionCore.jr_Capability ActionCore.ActionID ActionCore.ServerID
    ActionCore.InstallationID ActionCore.OwnerID ActionCore.ActorID
    ActionCore.TargetID ActionCore.Op ActionCore.GraceSeconds ActionCore.PolicyRevision ActionCore.CapabilityRevision
    ActionCore.CreatedAt ActionCore.ExpiresAt].
  rewrite Hc, He, Hp, Hca, (ro_actor _ _ _ Hr).
  rewrite !Forall_cons, Forall_nil.
  rewrite (Hid _ _ (ro_action _ _ _ Hr)), (Hid _ _ (ro_server _ _ _ Hr)), (Hid _ _ (ro_connector _ _ _ Hr)),
    (Hid _ _ (ro_owner _ _ _ Hr)), (Hid _ _ (ro_target _ _ _ Hr)).
  pose proof (mo_engine _ Hm) as Hen. pose proof (mo_container _ Hm) as Hco. unfold ActionCore.hex in *. bools.
  assert (slen (operation_text (rr_Operation r)) ≤ 64) by (destruct (rr_Operation r); vm_compute; done).
  assert (slen (FormatUint (gr_Seconds (pm_StopGraceSeconds (rr_Parameters r)))) ≤ 64).
  { set (n := gr_Seconds _) in *.
    assert (n ∈ [0;1;2;3;4;5;6;7;8;9;10;11;12;13;14;15;16;17;18;19;20;21;22;23;24;25;26;27;28;29;30]) as Hin
      by (rewrite !elem_of_cons; lia).
    clearbody n. in_cases Hin; vm_compute; done. }
  change (slen "hla_") with 4. change (slen "srv_") with 4. change (slen "usr_") with 4.
  change (slen "agent_") with 6. change (slen "hlt_") with 4. change (slen (FormatUint 1)) with 1.
  repeat split; lia.
Qed.

(** The metadata of the key is canonical. *)
Lemma key_canonical : is_Some (ActionCore.CanonicalJournalMetadata key_of).
Proof.
  unfold ActionCore.CanonicalJournalMetadata. rewrite key_metadata_ok. cbv zeta.
  unfold ActionCore.journalRecordFor at 1 2. cbn [negb ActionCore.jr_Created ActionCore.jr_Expires].
  change (ActionCore.CreatedAt (md_Request (k_Metadata key_of))) with (http_time (rr_RequestedAt r)).
  change (ActionCore.ExpiresAt (md_Request (k_Metadata key_of))) with (http_time (rr_ExpiresAt r)).
  destruct (http_times_ok _ _ _ Hr) as [-> ->].
  rewrite (proj1 (http_stamp _ _ (ro_created _ _ _ Hr))), (proj1 (http_stamp _ _ (ro_expires _ _ _ Hr))). cbn [negb andb].
  pose proof key_length as Hl.
  set (raw := ActionCore.marshal _) in *. change (ActionCore.marshal _) with raw in Hl.
  change (ActionCore.k_Fingerprint key_of) with (Sum256 raw). rewrite str_eqb_refl.
  destruct (2048 <? slen raw) eqn:E; bools; [lia|by eexists].
Qed.

Lemma new_key : ActionCore.NewJournalKey (receipt_request r) (receipt_binding r m) = Some key_of.
Proof.
  unfold ActionCore.NewJournalKey. pose proof receipt_valid as Hv.
  replace (ActionCore.CreatedAt (receipt_request r)) with created
    by (symmetry; apply (proj1 (http_times_ok _ _ _ Hr))).
  rewrite Hv. cbn [negb]. fold key_of. destruct key_canonical as [raw Hk].
  change (MkKey _ _ _ _) with key_of. by rewrite Hk.
Qed.
End approved.

(** ** Selection *)

Lemma select_some p r c sel ms m :
  select p r c sel ms = Some (Some m) → sel = Some m ∨ (m ∈ ms ∧ matches p r c m = true).
Proof.
  revert sel. induction ms as [|m' ms IH]; intros sel; simpl; [by intros [= ->]; left|].
  destruct (matches p r c m') eqn:E; simpl.
  - destruct sel; [done|]. intros [[= <-]|[? ?]]%IH; right; (split; [by constructor|done]).
  - intros [?|[? ?]]%IH; [by left|right; split; [by right|done]].
Qed.

Lemma select_skip p r c sel ms :
  (∀ m, m ∈ ms → matches p r c m = false) → select p r c sel ms = Some sel.
Proof.
  induction ms as [|m ms IH]; intros H; simpl; [done|]. rewrite H by by left. simpl. apply IH. intros; apply H; by right.
Qed.

Lemma select_unique p r c ms m :
  NoDup ms → m ∈ ms → matches p r c m = true → (∀ m', m' ∈ ms → matches p r c m' = true → m' = m) →
  select p r c None ms = Some (Some m).
Proof.
  induction ms as [|m' ms IH]; [by intros ? ?%not_elem_of_nil|].
  intros [Hn Hnd]%NoDup_cons Hin Hm Hu. simpl. destruct (matches p r c m') eqn:E; simpl.
  - assert (m' = m) as -> by (apply Hu; [left|done]). apply select_skip. intros x Hx.
    destruct (matches p r c x) eqn:Ex; [|done]. exfalso. apply Hn. rewrite <- (Hu x) by (done || by right). done.
  - apply elem_of_cons in Hin as [->|Hin]; [congruence|]. apply IH; try done. intros; apply Hu; [by right|done].
Qed.

(** The receipt is for this policy's installation. *)
Definition for_policy (p : policyDocument) (r : RequestReceipt) : Prop :=
  rr_ServerID r = p_ServerID p ∧ rr_OwnerUserID r = p_OwnerUserID p
  ∧ rr_ConnectorInstanceID r = p_ConnectorInstanceID p.

(** The resolution of a receipt by a mapping. *)
Record resolves_to (r : RequestReceipt) (m : mappingDocument) (b : resolvedBinding) : Prop := {
  rt_key : rb_key b = key_of r m;
  rt_binding : rb_binding b = receipt_binding r m;
  rt_revision : rb_mappingRevision b = m_MappingRevision m;
  rt_digest : ReceiptDigest r = Some (rb_remoteDigest b) }.

Lemma resolveReceipt_inv p r c b :
  resolveReceipt p r c = Some b →
  validatePolicy p = true ∧ ValidateRequest r = true ∧ for_policy p r
  ∧ ∃ m, m ∈ mappings_of p ∧ approved_by r m ∧ (c = true → m_MappingRevision m ∈ current_of p) ∧ resolves_to r m b.
Proof.
  unfold resolveReceipt. destruct (_ || _) eqn:E; [done|].
  destruct (select _ _ _ _ _) as [[m|]|] eqn:Hs; try done.
  destruct (str_eqb (rr_TargetKey r) _) eqn:Hk; cbn [negb]; [|done].
  destruct (ActionCore.NewJournalKey _ _) as [key|] eqn:Hn; [|done].
  destruct (ReceiptDigest r) as [d|] eqn:Hd; [|done]. intros [= <-]. bools.
  apply select_some in Hs as [?|[Hin Hmt]]; [done|].
  assert (validatePolicy p = true) as Hv by done.
  destruct (proj1 (matches_iff p r c m)) as [Happ Hcur]; [done|].
  do 2 (split; [done|]). split; [done|]. exists m. repeat (split; [done|]). split; try done. simpl.
  destruct (ValidateRequest_ok r) as (created & expires & Hr); [done|].
  rewrite (new_key r m created expires Hr) in Hn by (done || by eapply validMapping_ok, po_valid, Hin; apply validatePolicy_ok).
  congruence.
Qed.

Lemma resolveReceipt_some p r m :
  validatePolicy p = true → ValidateRequest r = true → for_policy p r → current_mapping p m → approved_by r m →
  ∃ b, resolveReceipt p r true = Some b ∧ resolves_to r m b.
Proof.
  intros Hv Hvr (Hs & Ho & Hc) [Hm Hcur] Ha. pose proof (validatePolicy_ok p Hv) as Hp.
  destruct (ValidateRequest_ok r Hvr) as (created & expires & Hr).
  pose proof (current_ok p m Hp (conj Hm Hcur)) as Hmo.
  destruct (proj2 (matches_iff p r true m)) as [Hmt _]; [by split|].
  unfold resolveReceipt. rewrite Hv, Hvr, Hs, Ho, Hc, !str_eqb_refl. cbn [negb orb].
  rewrite (select_unique p r true _ m); [|by apply mappings_nodup|done|done|].
  2:{ intros m' Hm' Hmt'. unfold matches in Hmt, Hmt'. bools.
      assert (Hcur' : m_MappingRevision m' ∈ current_of p).
      { match goal with H : true && _ = false |- _ => cbn [andb] in H end. by bools. }
      apply (po_pairs p Hp); [by split|by split|]. unfold pair_key. congruence. }
  rewrite (ab_alias _ _ Ha), str_eqb_refl. cbn [negb].
  rewrite (new_key r m created expires) by done. destruct (ReceiptDigest_some r created expires Hvr Hr) as [d Hd].
  rewrite Hd. eexists. split; [done|]. by split.
Qed.

(** A receipt resolves under a valid policy exactly when a current mapping
    approves it: then the key carries that mapping's container and the receipt's
    request, the mapping is unique, and nothing downstream can refuse it. *)
Theorem resolve_exact p r :
  validatePolicy p = true → ValidateRequest r = true →
  (∀ b, resolveReceipt p r true = Some b →
     ∃ m, current_mapping p m ∧ for_policy p r ∧ approved_by r m ∧ resolves_to r m b)
  ∧ (∀ m, current_mapping p m → for_policy p r → approved_by r m →
     ∃ b, resolveReceipt p r true = Some b ∧ resolves_to r m b).
Proof.
  intros Hv Hr. split; [|intros; by apply (resolveReceipt_some p r m)].
  intros b (_ & _ & Hf & m & Hm & Ha & Hc & Ht)%resolveReceipt_inv. exists m. split; [|done]. split; [done|by apply Hc].
Qed.

(** ** Resolved keys are backed by the policy *)

Lemma commas_app_length l l' : slen (commas l) ≤ slen (commas (l ++ l')).
Proof.
  induction l as [|i l IH]; [apply slen_nonneg|].
  destruct l as [|j l].
  - destruct l' as [|k l']; [done|].
    change (commas ([i] ++ k :: l')) with (i ++ "," ++ commas (k :: l')).
    change (commas [i]) with i. rewrite !slen_append. pose proof (slen_nonneg (commas (k :: l'))).
    change (slen ",") with 1. lia.
  - change (commas ((i :: j :: l) ++ l')) with (i ++ "," ++ commas ((j :: l) ++ l')).
    change (commas (i :: j :: l)) with (i ++ "," ++ commas (j :: l)). rewrite !slen_append. lia.
Qed.

Lemma mapping_json_unrevised m raw :
  mapping_json m = Some raw → ∃ raw', mapping_json (unrevised m) = Some raw' ∧ slen raw' ≤ slen raw.
Proof.
  unfold mapping_json. change (m_Parameters (unrevised m)) with (m_Parameters m).
  destruct (parameters_json _ _ _) as [pj|]; [|done]. intros Hraw.
  eexists. split; [reflexivity|]. cbn [fmap option_fmap option_map] in Hraw.
  apply (inj Some) in Hraw. rewrite <- Hraw. unfold object. rewrite !slen_append, !fmap_app.
  match goal with |- context [commas (?l ++ (_ <$> (if str_eqb (m_MappingRevision m) "" then _ else _)))] =>
    pose proof (commas_app_length l ((λ f, member f.1 f.2) <$>
      (if str_eqb (m_MappingRevision m) "" then [] else [("mappingRevision", quoted (m_MappingRevision m))]))) as Hc end.
  change (str_eqb (m_MappingRevision (unrevised m)) "") with true. cbn [fmap list_fmap] in *.
  rewrite app_nil_r. cbn [m_ServerID m_OwnerUserID m_ConnectorInstanceID m_TargetID m_EngineGeneration m_ContainerID
    m_PolicyRevision m_CapabilityRevision m_Operation unrevised]. lia.
Qed.

Lemma unrevised_valid m : validMapping m true = true → validMapping (unrevised m) false = true.
Proof.
  unfold validMapping. rewrite !andb_true_iff. intros Hv. destruct_and! Hv. repeat split; try done.
  destruct (mapping_json m) as [raw|] eqn:Hj; [|done].
  destruct (mapping_json_unrevised m raw Hj) as (raw' & -> & ?). bools. apply Z.leb_le. lia.
Qed.

Lemma parameters_of_ok op q :
  parameters_ok op q →
  MkParameters 1 (if op == Start then MkGrace 0 true else MkGrace (gr_Seconds (pm_StopGraceSeconds q)) false) = q.
Proof.
  intros (Hv & _ & H). destruct q as [v [n g]]. simpl in *. subst v. case_bool_decide; destruct H as [-> H]; [by subst|done].
Qed.

(** The mapping of a resolved key is the one it was resolved by. *)
Lemma mappingForKey_resolved p r m created expires :
  policy_ok p → receipt_ok r created expires → for_policy p r → m ∈ mappings_of p → approved_by r m →
  mappingForKey (key_of r m) = Some (unrevised m).
Proof.
  intros Hp Hr (Hs & Ho & Hc) Hm Ha. destruct (po_valid p Hp m Hm) as (Hv & Hms & Hmo & Hmc).
  pose proof (validMapping_ok m true Hv) as Hok. unfold mappingForKey.
  destruct (key_canonical r m created expires Hr Hok Ha) as [raw ->]. cbv zeta.
  change (md_Request (k_Metadata (key_of r m))) with (receipt_request r).
  change (md_EngineGeneration (k_Metadata (key_of r m))) with (m_EngineGeneration m).
  change (md_ContainerID (k_Metadata (key_of r m))) with (m_ContainerID m). unfold receipt_request.
  cbn [k_Metadata md_Request md_EngineGeneration md_ContainerID ActionCore.ServerID ActionCore.OwnerID
    ActionCore.InstallationID ActionCore.TargetID ActionCore.PolicyRevision ActionCore.CapabilityRevision
    ActionCore.Op ActionCore.GraceSeconds ActionCore.ActorID].
  rewrite (ro_actor _ _ _ Hr), str_eqb_refl. cbn [negb orb].
  rewrite (parameters_of_ok _ _ (ro_parameters _ _ _ Hr)).
  destruct (revision_range m Hok (rr_PolicyRevision r)) as (_ & Hpr & _); [left; symmetry; apply Ha|].
  destruct (revision_range m Hok (rr_CapabilityRevision r)) as (_ & Hcr & _); [right; symmetry; apply Ha|].
  rewrite Hpr, Hcr, <- (ab_target _ _ Ha), <- (ab_operation _ _ Ha), <- (ab_policy _ _ Ha),
    <- (ab_capability _ _ Ha), <- (ab_parameters _ _ Ha), Hs, Ho, Hc, <- Hms, <- Hmo, <- Hmc.
  change (MkMapping _ _ _ _ _ _ _ _ _ _ _) with (unrevised m). by rewrite unrevised_valid.
Qed.

(** A key some receipt resolved to under the current policy. *)
Definition resolved_key (p : policyDocument) (k : Key) : Prop :=
  ∃ r b, resolveReceipt p r true = Some b ∧ rb_key b = k.

(** What the policy admits it can account for: any journal of at most a thousand
    keys resolved under a valid policy passes the check that every stored action has
    its mapping, and each such key is accepted for execution by a journal bound to
    the policy's installation. *)
Theorem resolved_keys_backed p keys :
  validatePolicy p = true → (length keys ≤ 1000)%nat → Forall (resolved_key p) keys →
  validateMappingReferences p keys = true
  ∧ Forall (λ k, ∀ digest, ActionJournal.BindExecution
      (ActionJournal.MkJBinding (p_ServerID p) (p_ConnectorInstanceID p) (p_OwnerUserID p)) k digest
      = Some (ActionJournal.MkBound k digest)) keys.
Proof.
  intros Hv Hl HF. pose proof (validatePolicy_ok p Hv) as Hp.
  assert (Hk : ∀ k, k ∈ keys → ∃ r m created expires, k = key_of r m ∧ for_policy p r ∧ approved_by r m
    ∧ m ∈ mappings_of p ∧ receipt_ok r created expires).
  { rewrite Forall_forall in HF. intros k (r & b & Hb & <-)%HF.
    apply resolveReceipt_inv in Hb as (_ & Hr & Hf & m & Hm & Ha & _ & []).
    destruct (ValidateRequest_ok r Hr) as (created & expires & ?). by exists r, m, created, expires. }
  split.
  - unfold validateMappingReferences. rewrite Hv. apply andb_true_iff. split; [apply Z.leb_le; simpl; lia|].
    apply forallb_forall. intros k (r & m & created & expires & -> & Hf & Ha & Hm & Hr)%list_elem_of_In%Hk.
    rewrite (mappingForKey_resolved p r m created expires) by done. apply bool_decide_eq_true.
    apply elem_of_list_to_set, list_elem_of_fmap. exists m. split; [by destruct m|done].
  - apply Forall_forall. intros k (r & m & created & expires & -> & (Hs & Ho & Hc) & Ha & Hm & Hr)%Hk digest.
    destruct (po_valid p Hp m Hm) as (Hvm%validMapping_ok & _).
    destruct (key_canonical r m created expires Hr Hvm Ha) as [raw Hraw].
    destruct (revision_range m Hvm (rr_PolicyRevision r)) as (Hpr & _); [left; symmetry; apply Ha|].
    destruct (revision_range m Hvm (rr_CapabilityRevision r)) as (Hcr & _); [right; symmetry; apply Ha|].
    destruct (window_ok r created expires Hr) as (_ & _ & _ & _ & Hw), (http_times_ok _ _ _ Hr) as [Hcr' Hex].
    pose proof (ParseHTTPTime_spec _ _ (ro_created _ _ _ Hr)) as (_ & _ & _ & _ & Hn).
    pose proof (ParseHTTPTime_spec _ _ (ro_expires _ _ _ Hr)) as (_ & _ & _ & _ & Hn').
    unfold ActionJournal.BindExecution. rewrite Hraw. unfold key_of, receipt_request. cbv zeta.
    cbn [k_Metadata md_Request ActionCore.ServerID ActionCore.OwnerID
      ActionCore.InstallationID ActionCore.PolicyRevision ActionCore.CapabilityRevision
      ActionCore.ActorID ActionCore.CreatedAt ActionCore.ExpiresAt].
    rewrite Hcr', Hex, Hw, Hn, Hn', (ro_actor _ _ _ Hr), Hs, Ho, Hc, str_eqb_refl, bool_decide_true by done.
    replace (MaxInt64 <? uint_of (rr_PolicyRevision r)) with false by lia.
    by replace (MaxInt64 <? uint_of (rr_CapabilityRevision r)) with false by lia.
Qed.

Lemma resolve_exact_witness :
  (∀ b, resolveReceipt PolicySample.policy PolicySample.receipt true = Some b →
     ∃ m, current_mapping PolicySample.policy m ∧ for_policy PolicySample.policy PolicySample.receipt
          ∧ approved_by PolicySample.receipt m ∧ resolves_to PolicySample.receipt m b)
  ∧ is_Some (resolveReceipt PolicySample.policy PolicySample.receipt true).
Proof.
  split.
  - refine (proj1 (resolve_exact PolicySample.policy PolicySample.receipt _ _)); vm_compute; reflexivity.
  - vm_compute. by eexists.
Defined.

Lemma resolved_keys_backed_witness :
  ∃ k, validateMappingReferences PolicySample.policy [k] = true ∧ resolved_key PolicySample.policy k.
Proof.
  destruct (resolveReceipt PolicySample.policy PolicySample.receipt true) as [b|] eqn:Hb;
    [|vm_compute in Hb; discriminate Hb].
  exists (rb_key b). assert (Hk : resolved_key PolicySample.policy (rb_key b)) by exact (ex_intro _ PolicySample.receipt (ex_intro _ b (conj Hb eq_refl))).
  split; [|exact Hk]. clear Hb.
  refine (proj1 (resolved_keys_backed PolicySample.policy [rb_key b] _ _ _)).
  - vm_compute. reflexivity.
  - cbn [length]. lia.
  - constructor; [exact Hk|constructor].
Defined.
