(* ===== verification/ActionBroker.v ===== *)
(** * The action broker ([internal/actionbroker])

    The broker's shared state and the critical sections on it: reservations of
    pre-claim conversations, binding of a claim, release, and the control
    conversation that publishes the policy.  Reservations are heap objects, named
    by a number: the operations receive a pointer and compare it with the one in
    [live].  The operations that change the state run under the broker's mutex;
    [currentSource], [retainedReport] and [clock.Capture] take it only to read, or
    read fields that never change.  What they ask of the journal, the clock, the
    random source, the context and the execution fence are calls. *)

From S2P Require Import Prelude GoTime GoText Sha256 Effects ActionReceipt ActionPolicy.
From S2P Require ActionCore ActionBudget ActionJournal.
From stdpp Require Import sorting.
Import ActionCore (Operation(..), Code(..), Operation_eq_dec, Code_eq_dec, Key, k_ActionID, k_TargetID,
  k_Fingerprint, k_Metadata, md_Request, md_EngineGeneration, md_ContainerID).
Import ActionJournal (JBinding, MkJBinding, JBinding_eq_dec, Admission, sn_Binding, sn_ObservedAt, sn_Records,
  AdmissionRecord, ad_Key, ad_HasIntent, ad_Code, ad_TerminalAt, ad_Active, boundExecution, BindExecution,
  string_le, string_le_dec).
Import ActionBudget (Readiness, Conversation, Execution, Stamp, reading, Capture, Begin, CheckDelivery,
  AcceptClaim, ObserveControlTime, cv_clock).

#[local] Open Scope string_scope.
#[local] Open Scope Z_scope.

(** ** State *)

Inductive BError := ErrBusy | ErrNoEligibleTarget | ErrRecoveryRequired | ErrUnavailable | ErrPolicy.

#[global] Instance BError_eq_dec : EqDecision BError.
Proof. solve_decision. Defined.

Record reservation := MkReservation {
  rs_nonce : string; rs_policyHead : string; rs_targets : list string;
  rs_conversation : Conversation; rs_bound : option resolvedBinding; rs_claimTried : bool }.

(** A control conversation; [cc_id] is its pointer. *)
Record controlConversation := MkControl {
  cc_id : nat; cc_query : SnapshotQuery; cc_head : string; cc_entriesDigest : string; cc_send : Stamp }.

Record brokerState := MkBroker {
  bs_journal : JBinding; bs_policy : policyDocument; bs_clock : Z;
  bs_readiness : option Readiness; bs_readyHead : string; bs_readyEntriesDigest : string;
  bs_readyPublicationID : string; bs_readySnapshotRevision : string; bs_readySnapshotDigest : string;
  bs_control : option controlConversation; bs_quiescing : bool;
  bs_live : gmap string nat; bs_heap : gmap nat reservation; bs_next : nat;
  bs_recoveryRequired : bool }.

Definition set_readiness (b : brokerState) (r : option Readiness) : brokerState :=
  MkBroker (bs_journal b) (bs_policy b) (bs_clock b) r (bs_readyHead b) (bs_readyEntriesDigest b)
    (bs_readyPublicationID b) (bs_readySnapshotRevision b) (bs_readySnapshotDigest b) (bs_control b)
    (bs_quiescing b) (bs_live b) (bs_heap b) (bs_next b) (bs_recoveryRequired b).
Definition set_control (b : brokerState) (c : option controlConversation) (next : nat) : brokerState :=
  MkBroker (bs_journal b) (bs_policy b) (bs_clock b) (bs_readiness b) (bs_readyHead b)
    (bs_readyEntriesDigest b) (bs_readyPublicationID b) (bs_readySnapshotRevision b)
    (bs_readySnapshotDigest b) c (bs_quiescing b) (bs_live b) (bs_heap b) next (bs_recoveryRequired b).
Definition set_live (b : brokerState) (l : gmap string nat) (h : gmap nat reservation) (next : nat) : brokerState :=
  MkBroker (bs_journal b) (bs_policy b) (bs_clock b) (bs_readiness b) (bs_readyHead b)
    (bs_readyEntriesDigest b) (bs_readyPublicationID b) (bs_readySnapshotRevision b)
    (bs_readySnapshotDigest b) (bs_control b) (bs_quiescing b) l h next (bs_recoveryRequired b).
Definition require_recovery (b : brokerState) (required : bool) : brokerState :=
  MkBroker (bs_journal b) (bs_policy b) (bs_clock b) (bs_readiness b) (bs_readyHead b)
    (bs_readyEntriesDigest b) (bs_readyPublicationID b) (bs_readySnapshotRevision b)
    (bs_readySnapshotDigest b) (bs_control b) (bs_quiescing b) (bs_live b) (bs_heap b) (bs_next b)
    (bs_recoveryRequired b || required).
(** Publication of a control conversation's outcome. *)
Definition publish (b : brokerState) (ready : Readiness) (head digest : string) (r : SnapshotReceipt) : brokerState :=
  MkBroker (bs_journal b) (bs_policy b) (bs_clock b) (Some ready) head digest
    (sr_PublicationID r) (sr_SnapshotRevision r) (sr_SnapshotDigest r) (bs_control b)
    (bs_quiescing b) (bs_live b) (bs_heap b) (bs_next b) (bs_recoveryRequired b).

Definition set_reservation (b : brokerState) (h : nat) (r : reservation) : brokerState :=
  set_live b (bs_live b) (<[h := r]> (bs_heap b)) (bs_next b).
Definition try_claim (r : reservation) : reservation :=
  MkReservation (rs_nonce r) (rs_policyHead r) (rs_targets r) (rs_conversation r) (rs_bound r) true.
Definition converse (r : reservation) (c : Conversation) : reservation :=
  MkReservation (rs_nonce r) (rs_policyHead r) (rs_targets r) c (rs_bound r) (rs_claimTried r).
Definition bind_to (r : reservation) (bound : resolvedBinding) : reservation :=
  MkReservation (rs_nonce r) (rs_policyHead r) (rs_targets r) (rs_conversation r) (Some bound) (rs_claimTried r).

(** The live reservations with their pointers. *)
Definition live_list (b : brokerState) : list (nat * reservation) :=
  omap (λ h, pair h <$> bs_heap b !! h) ((map_to_list (bs_live b)).*2).

(** [r != nil && b.live[r.nonce] == r], with the reservation [r] points to. *)
Definition owned_reservation (b : brokerState) (h : option nat) : option (nat * reservation) :=
  match h with
  | None => None
  | Some h =>
      match bs_heap b !! h with
      | Some r => if bool_decide (bs_live b !! rs_nonce r = Some h) then Some (h, r) else None
      | None => None
      end
  end.

(** ** Calls *)

Inductive BCall : Type → Type :=
| BAdmission : BCall (option Admission) (* journal.AdmissionSnapshot *)
| BRead : BCall (option reading) (* the clock's source *)
| BRandom : BCall (option string) (* rand.Read of sixteen bytes *)
| BCtxErr : BCall bool (* ctx.Err() != nil *)
| BClosed : BCall bool (* executionClosed.Load() *)
| BCurrentFile : BCall (option policyDocument). (* files.Current(ctx) *)

Local Open Scope prog_scope.

(** ** Reservations *)

Definition zero_digest : string := string_of_bytes (replicate 32 0).

(** What keeps a journal record from being settled. *)
Definition unsettled (record : AdmissionRecord) : bool :=
  (ad_HasIntent record && IsZero (ad_TerminalAt record)) || ad_Active record.

Definition owned_actions (b : brokerState) : list string :=
  omap (λ x, (λ bound, k_ActionID (rb_key bound)) <$> rs_bound x.2) (live_list b).

Definition policy_binding (p : policyDocument) : JBinding :=
  MkJBinding (p_ServerID p) (p_ConnectorInstanceID p) (p_OwnerUserID p).

Definition snapshot (b : brokerState) : prog BCall (brokerState * result BError Admission) :=
  answer <~ BAdmission;
  match answer with
  | None => Ret (b, Err ErrRecoveryRequired)
  | Some s =>
      if sn_Binding s != policy_binding (bs_policy b) then Ret (b, Err ErrRecoveryRequired)
      else
        let foreign := existsb (λ record, unsettled record
                         && negb (bool_decide (k_ActionID (ad_Key record) ∈ owned_actions b))) (sn_Records s) in
        let b := require_recovery b foreign in
        if bs_recoveryRequired b then Ret (b, Err ErrRecoveryRequired) else Ret (b, Ok s)
  end.

Definition physicalMatch (key : Key) (m : mappingDocument) : bool :=
  str_eqb (k_TargetID key) (m_TargetID m)
  || (str_eqb (md_EngineGeneration (k_Metadata key)) (m_EngineGeneration m)
      && str_eqb (md_ContainerID (k_Metadata key)) (m_ContainerID m)).

(** A journal record that keeps a container from being acted on. *)
Definition record_blocks (observed : time) (record : AdmissionRecord) : bool :=
  (ad_HasIntent record && IsZero (ad_TerminalAt record))
  || (((ad_Code record == Started) || (ad_Code record == Stopped) || (ad_Code record == Restarted))
      && Before observed (GoTime.Add (ad_TerminalAt record) (30 * Second))).

Definition blocked (b : brokerState) (s : Admission) (except : option nat) (m : mappingDocument) : bool :=
  existsb (λ x, negb (bool_decide (Some x.1 = except))
                && match rs_bound x.2 with
                   | Some bound => physicalMatch (rb_key bound) m
                   | None => false
                   end) (live_list b)
  || existsb (λ record, physicalMatch (ad_Key record) m && record_blocks (sn_ObservedAt s) record) (sn_Records s).

Definition eligible (b : brokerState) (s : Admission) (except : option nat) : list string :=
  let targets : gset string := list_to_set (m_TargetID <$>
    filter (λ m, bool_decide (m_MappingRevision m ∈ current_of (bs_policy b))
                 && negb (blocked b s except m) = true) (mappings_of (bs_policy b))) in
  merge_sort string_le (elements targets).

Definition freshNonce (b : brokerState) : prog BCall (option string) :=
  random <~ BRandom;
  match random with
  | None => Ret None
  | Some bytes =>
      if str_eqb bytes (string_of_bytes (replicate 16 0)) then Ret None
      else
        let nonce := hexEncode bytes in
        if bool_decide (is_Some (bs_live b !! nonce))
           || match bs_control b with
              | Some c => str_eqb (sq_PublicationID (cc_query c)) nonce
              | None => false
              end
        then Ret None else Ret (Some nonce)
  end.

(** [b.clock.Begin(b.readiness)] *)
Definition begin_conversation (b : brokerState) : prog BCall (option Conversation) :=
  read <~ BRead;
  Ret (match bs_readiness b with Some r => Begin (bs_clock b) read r | None => None end).

(** The records and the reservations that are not among them yet. *)
Definition logical_records (b : brokerState) (s : Admission) : nat :=
  (length (sn_Records s)
   + length (filter (λ x, match rs_bound x.2 with
                          | None => true
                          | Some bound => negb (bool_decide (k_ActionID (rb_key bound)
                                            ∈ (k_ActionID ∘ ad_Key) <$> sn_Records s))
                          end = true) (live_list b)))%nat.

Definition newBrokerState (p : policyDocument) (j : JBinding) (clock : Z) :
    prog BCall (result BError brokerState) :=
  if negb (validatePolicy p) then Ret (Err ErrPolicy)
  else
    let b := MkBroker j p clock None "" zero_digest "" "" "" None false ∅ ∅ 0 false in
    out <- snapshot b;
    match out with
    | (_, Err e) => Ret (Err e)
    | (b, Ok _) => Ret (Ok b)
    end.

Definition reserve (b : brokerState) : prog BCall (brokerState * result BError nat) :=
  closed <- (if bs_quiescing b then Ret true else perform BClosed);
  if closed : bool then Ret (b, Err ErrRecoveryRequired)
  else match policyEntries (bs_policy b) with
  | None => Ret (set_readiness b None, Err ErrUnavailable)
  | Some (_, digest) =>
      if negb (str_eqb (bs_readyHead b) (p_Revision (bs_policy b)))
         || negb (str_eqb (bs_readyEntriesDigest b) digest)
      then Ret (set_readiness b None, Err ErrUnavailable)
      else
        out <- snapshot b;
        match out with
        | (b, Err e) => Ret (b, Err e)
        | (b, Ok s) =>
            if (2 <=? size (bs_live b))%nat then Ret (b, Err ErrBusy)
            else if (1000 <=? Z.of_nat (logical_records b s)) then Ret (b, Err ErrBusy)
            else
              let targets := eligible b s None in
              if bool_decide (targets = []) then Ret (b, Err ErrNoEligibleTarget)
              else
                conversation <- begin_conversation b;
                match conversation with
                | None => Ret (b, Err ErrUnavailable)
                | Some conversation =>
                    nonce <- freshNonce b;
                    match nonce with
                    | None => Ret (b, Err ErrUnavailable)
                    | Some nonce =>
                        let h := bs_next b in
                        let r := MkReservation nonce (p_Revision (bs_policy b)) targets conversation None false in
                        Ret (set_live b (<[nonce := h]> (bs_live b)) (<[h := r]> (bs_heap b)) (S h), Ok h)
                    end
                end
        end
  end.

(** [r.conversation.CheckDelivery(ctx)] *)
Definition check_delivery (c : Conversation) : prog BCall bool :=
  expired <~ BCtxErr;
  read <~ BRead;
  expired' <~ BCtxErr;
  Ret (CheckDelivery c expired expired' read).

Definition releaseUnclaimed (b : brokerState) (h : option nat) : prog BCall (brokerState * result BError unit) :=
  match owned_reservation b h with
  | None => Ret (b, Err ErrRecoveryRequired)
  | Some (h, r) =>
      if rs_claimTried r then Ret (b, Err ErrRecoveryRequired)
      else
        ok <- check_delivery (rs_conversation r);
        if negb ok then Ret (b, Err ErrRecoveryRequired)
        else Ret (set_live b (delete (rs_nonce r) (bs_live b)) (bs_heap b) (bs_next b), Ok tt)
  end.

(** [sort.SearchStrings]: the least index in [i, j) whose element is not below
    [target], or [j]. *)
Fixpoint search_strings (fuel : nat) (targets : list string) (target : string) (i j : nat) : nat :=
  match fuel with
  | O => i
  | S fuel =>
      if (i <? j)%nat then
        let h := ((i + j) / 2)%nat in
        if str_ltb (default "" (targets !! h)) target then search_strings fuel targets target (h + 1) j
        else search_strings fuel targets target i h
      else i
  end.

Definition containsTarget (targets : list string) (target : string) : bool :=
  let index := search_strings (length targets) targets target 0 (length targets) in
  bool_decide (targets !! index = Some target).

Definition bindClaim (b : brokerState) (h : option nat) (claim : Claim) (rtt : Z) :
    prog BCall (brokerState * result BError (boundExecution * Execution * resolvedBinding)) :=
  let fail b := Ret (b, Err ErrRecoveryRequired) in
  match owned_reservation b h with
  | None => fail b
  | Some (h, r) =>
      if rs_claimTried r || negb (str_eqb (rs_policyHead r) (p_Revision (bs_policy b))) || bs_quiescing b
      then fail b
      else
        closed <~ BClosed;
        if closed : bool then fail b
        else
          let r := try_claim r in
          let b := set_reservation b h r in
          out <- snapshot b;
          match out with
          | (b, Err _) => fail b
          | (b, Ok s) =>
              if existsb (λ record, str_eqb (k_ActionID (ad_Key record)) (rr_ActionID (cm_Request claim))) (sn_Records s)
              then fail b
              else match resolveReceipt (bs_policy b) (cm_Request claim) true with
              | None => fail b
              | Some resolved =>
                  let target := k_TargetID (rb_key resolved) in
                  if negb (containsTarget (rs_targets r) target)
                     || negb (containsTarget (eligible b s (Some h)) target) then fail b
                  else
                    ok <- check_delivery (rs_conversation r);
                    if negb ok then fail b
                    else
                      read <~ BRead;
                      let '(c, execution) := AcceptClaim (rs_conversation r) read (claim_view claim) rtt
                                               (ActionCore.b_ContainerID (rb_binding resolved)) in
                      let r := converse r c in
                      let b := set_reservation b h r in
                      match execution with
                      | None => fail b
                      | Some execution =>
                          expired <~ BCtxErr;
                          if expired : bool then fail b
                          else match BindExecution (bs_journal b) (rb_key resolved) (rb_remoteDigest resolved) with
                          | None => fail b
                          | Some bound =>
                              Ret (set_reservation b h (bind_to r resolved), Ok (bound, execution, resolved))
                          end
                      end
              end
          end
  end.

(** The loop of [finish] over the records: [None] at an active one, otherwise
    whether the last record of the action is terminal. *)
Fixpoint confirm (bound : option resolvedBinding) (confirmed : bool) (records : list AdmissionRecord) : option bool :=
  match records with
  | [] => Some confirmed
  | record :: rest =>
      match bound with
      | Some x =>
          if str_eqb (k_ActionID (ad_Key record)) (k_ActionID (rb_key x)) then
            if ad_Active record then None else confirm bound (negb (IsZero (ad_TerminalAt record))) rest
          else confirm bound confirmed rest
      | None => confirm bound confirmed rest
      end
  end.

Definition finish (b : brokerState) (h : option nat) : prog BCall (brokerState * result BError unit) :=
  match owned_reservation b h with
  | None => Ret (b, Err ErrRecoveryRequired)
  | Some (h, r) =>
      if negb (rs_claimTried r) then Ret (b, Err ErrRecoveryRequired)
      else
        answer <~ BAdmission;
        match answer with
        | None => Ret (require_recovery b true, Err ErrRecoveryRequired)
        | Some s =>
            match confirm (rs_bound r) false (sn_Records s) with
            | None => Ret (b, Err ErrBusy)
            | Some confirmed =>
                let b := require_recovery b (negb confirmed) in
                Ret (set_live b (delete (rs_nonce r) (bs_live b)) (bs_heap b) (bs_next b), Ok tt)
            end
        end
  end.

Definition abandon (b : brokerState) (h : option nat) : brokerState :=
  match owned_reservation b h with
  | None => b
  | Some (_, r) =>
      let b := require_recovery b true in
      set_live b (delete (rs_nonce r) (bs_live b)) (bs_heap b) (bs_next b)
  end.

Definition readinessCurrent (b : brokerState) : prog BCall bool :=
  match policyEntries (bs_policy b) with
  | None => Ret false
  | Some (_, digest) =>
      closed <- (if bs_quiescing b then Ret true else perform BClosed);
      if closed || negb (str_eqb (bs_readyHead b) (p_Revision (bs_policy b)))
         || negb (str_eqb (bs_readyEntriesDigest b) digest)
      then Ret false
      else
        conversation <- begin_conversation b;
        Ret (bool_decide (is_Some conversation))
  end.

Record ApprovalSnapshot := MkApproval {
  ap_ServerID : string; ap_OwnerUserID : string; ap_ConnectorInstanceID : string; ap_Entries : list Entry }.

(** [LocalFromEntry] changes the JSON names of an entry only. *)
Definition approvalFor (b : brokerState) (h : option nat) : prog BCall (result BError ApprovalSnapshot) :=
  match owned_reservation b h with
  | None => Ret (Err ErrRecoveryRequired)
  | Some (h, r) =>
      closed <- (if bs_quiescing b then Ret true else perform BClosed);
      if closed || negb (str_eqb (rs_policyHead r) (p_Revision (bs_policy b))) then Ret (Err ErrRecoveryRequired)
      else match policyEntries (bs_policy b) with
      | None => Ret (Err ErrPolicy)
      | Some (entries, _) =>
          Ret (Ok (MkApproval (p_ServerID (bs_policy b)) (p_OwnerUserID (bs_policy b))
                     (p_ConnectorInstanceID (bs_policy b))
                     (filter (λ e, containsTarget (rs_targets r) (en_TargetID e) = true) entries)))
      end
  end.

(** ** Control conversations *)

Definition beginControl (b : brokerState) : prog BCall (brokerState * result BError controlConversation) :=
  closed <- (if bs_quiescing b then Ret true else perform BClosed);
  if closed : bool then Ret (b, Err ErrRecoveryRequired)
  else if bool_decide (is_Some (bs_control b)) then Ret (b, Err ErrBusy)
  else
    out <- snapshot b;
    match out with
    | (b, Err e) => Ret (b, Err e)
    | (b, Ok s) =>
        if 1000 <=? Z.of_nat (length (sn_Records s) + size (bs_live b))%nat then Ret (b, Err ErrBusy)
        else match policyEntries (bs_policy b) with
        | None => Ret (b, Err ErrPolicy)
        | Some (entries, digest) =>
            nonce <- freshNonce b;
            match nonce with
            | None => Ret (b, Err ErrUnavailable)
            | Some nonce =>
                read <~ BRead;
                match Capture (bs_clock b) read with
                | None => Ret (b, Err ErrUnavailable)
                | Some stamp =>
                    let p := bs_policy b in
                    let c := MkControl (bs_next b)
                               (MkQuery (p_ServerID p) (p_OwnerUserID p) (p_ConnectorInstanceID p) nonce entries)
                               (p_Revision p) digest stamp in
                    Ret (set_control (set_readiness b None) (Some c) (S (bs_next b)), Ok c)
                end
            end
        end
    end.

(** [c != nil && b.control == c] *)
Definition is_control (b : brokerState) (c : option controlConversation) : option controlConversation :=
  match c, bs_control b with
  | Some c, Some c' => if (cc_id c =? cc_id c')%nat then Some c else None
  | _, _ => None
  end.

Definition completeControl (b : brokerState) (c : option controlConversation) (reply : SnapshotReply) :
    prog BCall (brokerState * result BError unit) :=
  match is_control b c with
  | None => Ret (b, Err ErrRecoveryRequired)
  | Some c =>
      let b := set_control (set_readiness b None) None (bs_next b) in
      let fail := Ret (b, Err ErrRecoveryRequired) in
      expired <~ BCtxErr;
      if expired || bs_quiescing b then fail
      else
        closed <~ BClosed;
        if closed || negb (str_eqb (cc_head c) (p_Revision (bs_policy b))) then fail
        else match policyEntries (bs_policy b), sy_Receipt reply with
        | Some (_, digest), Some receipt =>
            if negb (str_eqb digest (cc_entriesDigest c)) || negb (MatchSnapshotReply (cc_query c) reply) then fail
            else
              read <~ BRead;
              match Capture (bs_clock b) read, ParseHTTPTime (sr_AdvertisedAt receipt) with
              | Some recv, Some server =>
                  match ObserveControlTime (bs_clock b) server (cc_send c) recv with
                  | None => fail
                  | Some ready =>
                      expired <~ BCtxErr;
                      if expired : bool then fail
                      else Ret (publish b ready (cc_head c) digest receipt, Ok tt)
                  end
              | _, _ => fail
              end
        | _, _ => fail
        end
  end.

Definition cancelControl (b : brokerState) (c : option controlConversation) : brokerState :=
  match is_control b c with
  | None => b
  | Some _ => set_readiness (set_control b None (bs_next b)) None
  end.

(** The shutdown of [run]. *)
Definition quiesce (b : brokerState) : brokerState :=
  MkBroker (bs_journal b) (bs_policy b) (bs_clock b) None (bs_readyHead b) (bs_readyEntriesDigest b)
    (bs_readyPublicationID b) (bs_readySnapshotRevision b) (bs_readySnapshotDigest b) (bs_control b)
    true (bs_live b) (bs_heap b) (bs_next b) (bs_recoveryRequired b).

(** ** Invocations *)

Record acceptedInvocation := MkInvocation {
  iv_reservation : nat; iv_claim : Claim; iv_journal : boundExecution; iv_execution : Execution;
  iv_resolved : resolvedBinding }.

Definition currentInvocation (b : brokerState) (inv : acceptedInvocation) : prog BCall bool :=
  closed <~ BClosed;
  if closed : bool then Ret false
  else match owned_reservation b (Some (iv_reservation inv)) with
  | None => Ret false
  | Some (_, r) =>
      closed <- (if bs_quiescing b then Ret true else perform BClosed);
      if closed || negb (str_eqb (p_Revision (bs_policy b)) (rs_policyHead r)) then Ret false
      else match resolveReceipt (bs_policy b) (cm_Request (iv_claim inv)) true with
      | None => Ret false
      | Some resolved =>
          Ret (str_eqb (k_Fingerprint (rb_key resolved)) (k_Fingerprint (rb_key (iv_resolved inv)))
               && str_eqb (rb_remoteDigest resolved) (rb_remoteDigest (iv_resolved inv))
               && str_eqb (rb_mappingRevision resolved) (rb_mappingRevision (iv_resolved inv)))
      end
  end.

(** The loop of [retainedReport]: the report of the first record of the action. *)
Fixpoint report_of (inv : acceptedInvocation) (records : list AdmissionRecord) : option Report :=
  match records with
  | [] => None
  | record :: rest =>
      if negb (str_eqb (k_ActionID (ad_Key record)) (rr_ActionID (cm_Request (iv_claim inv)))) then report_of inv rest
      else if negb (str_eqb (k_Fingerprint (ad_Key record)) (k_Fingerprint (rb_key (iv_resolved inv))))
              || ad_Active record then None
      else
        let report evidence := MkReport (cm_Request (iv_claim inv)) (cm_ExecutionLeaseID (iv_claim inv))
                                 (ad_Code record) evidence (cm_CorrelationID (iv_claim inv)) in
        if IsZero (ad_TerminalAt record) then
          if negb (ad_HasIntent record) || (ad_Code record != OutcomeUnknown) then None
          else DecodeReport (report "QUIESCED_INTENT")
        else DecodeReport (report "RETAINED_TERMINAL")
  end.

Definition retainedReport (inv : acceptedInvocation) : prog BCall (result BError Report) :=
  answer <~ BAdmission;
  match answer with
  | None => Ret (Err ErrRecoveryRequired)
  | Some s =>
      match report_of inv (sn_Records s) with
      | None => Ret (Err ErrRecoveryRequired)
      | Some report => Ret (Ok report)
      end
  end.

(** ** The protected sources *)

Definition validateJournalMappings (p : policyDocument) (generation : string) : prog BCall bool :=
  answer <~ BAdmission;
  match answer with
  | None => Ret false
  | Some s =>
      if sn_Binding s != policy_binding p then Ret false
      else if negb (forallb (λ record, requireEngineGeneration (ad_Key record) generation) (sn_Records s))
      then Ret false
      else Ret (validateMappingReferences p (ad_Key <$> sn_Records s))
  end.

Definition currentSource (b : brokerState) (engineGeneration : string) : prog BCall bool :=
  expired <~ BCtxErr;
  if expired : bool then Ret false
  else
    file <~ BCurrentFile;
    match file with
    | None => Ret false
    | Some p =>
        if negb (validatePolicy p) then Ret false
        else match policy_json (bs_policy b), policy_json p with
        | Some want, Some got =>
            if negb (str_eqb want got) then Ret false
            else
              ok <- validateJournalMappings p engineGeneration;
              if negb ok then Ret false
              else
                expired <~ BCtxErr;
                Ret (negb expired)
        | _, _ => Ret false
        end
    end.

(** ** Critical sections by name *)

Inductive bop : Type → Type :=
| OReadiness : bop bool
| OReserve : bop (result BError nat)
| OApproval (h : nat) : bop (result BError ApprovalSnapshot)
| ONonce (h : nat) : bop string (* r.nonce, which never changes *)
| OCheckDelivery (h : nat) : bop bool
| ORelease (h : nat) : bop (result BError unit)
| OBind (h : nat) (claim : Claim) (rtt : Z) : bop (result BError (boundExecution * Execution * resolvedBinding))
| OFinish (h : nat) : bop (result BError unit)
| OAbandon (h : nat) : bop unit
| OBeginControl : bop (result BError controlConversation)
| OComplete (c : controlConversation) (reply : SnapshotReply) : bop (result BError unit)
| OCancel (c : controlConversation) : bop unit
| OQuiesce : bop unit
| ORecovery : bop unit (* recoveryRequired = true *)
| OInvocation (inv : acceptedInvocation) : bop bool
| OReport (inv : acceptedInvocation) : bop (result BError Report)
| OSource (generation : string) : bop bool
| OFresh : bop (option string) (* freshNonce *)
| OCapture : bop (option Stamp). (* clock.Capture *)

(** A section that only reads. *)
Definition reading_of {R} (b : brokerState) (p : prog BCall R) : prog BCall (brokerState * R) :=
  r <- p; Ret (b, r).

Definition bop_run {R} (o : bop R) (b : brokerState) : prog BCall (brokerState * R) :=
  match o in bop T return prog BCall (brokerState * T) with
  | OReadiness => reading_of b (readinessCurrent b)
  | OReserve => reserve b
  | OApproval h => reading_of b (approvalFor b (Some h))
  | ONonce h => Ret (b, default "" (rs_nonce <$> bs_heap b !! h))
  | OCheckDelivery h =>
      reading_of b (match bs_heap b !! h with
                    | Some r => check_delivery (rs_conversation r)
                    | None => Ret false
                    end)
  | ORelease h => releaseUnclaimed b (Some h)
  | OBind h claim rtt => bindClaim b (Some h) claim rtt
  | OFinish h => finish b (Some h)
  | OAbandon h => Ret (abandon b (Some h), tt)
  | OBeginControl => beginControl b
  | OComplete c reply => completeControl b (Some c) reply
  | OCancel c => Ret (cancelControl b (Some c), tt)
  | OQuiesce => Ret (quiesce b, tt)
  | ORecovery => Ret (require_recovery b true, tt)
  | OInvocation inv => reading_of b (currentInvocation b inv)
  | OReport inv => reading_of b (retainedReport inv)
  | OSource generation => reading_of b (currentSource b generation)
  | OFresh => reading_of b (freshNonce b)
  | OCapture => reading_of b (read <~ BRead; Ret (Capture (bs_clock b) read))
  end.

(** The reservation a section is called with. *)
Definition op_handle {R} (o : bop R) : option nat :=
  match o with
  | OApproval h | ONonce h | OCheckDelivery h | ORelease h | OBind h _ _ | OFinish h | OAbandon h => Some h
  | OInvocation inv | OReport inv => Some (iv_reservation inv)
  | _ => None
  end.
