(* ===== verification/ActionExecution.v ===== *)
(** * Executing a bound claim ([internal/actionbroker])

    Once a claim is bound the broker runs the action core over its own
    implementations of the core's three dependencies: an authority that asks the
    server for a decision through the worker, a journal and an engine that check
    before and after every use that policy, journal, invocation and time budget
    still stand.  [depend] is that implementation, call by call, and [workExecute]
    the core's [Execute] over it.  Handlers run concurrently; each call of [STake]
    is one access to the shared state, and between two calls other handlers may
    make theirs.  Frames are modelled after their envelope was decoded. *)

From S2P Require Import Prelude GoTime GoText Effects ActionReceipt ActionPolicy ActionBroker.
From S2P Require ActionCore ActionBudget ActionJournal ActionWorker.
Import ActionCore (Operation(..), Code(..), State, Key, k_ActionID, k_Fingerprint, k_Metadata, md_Request, Request,
  GraceSeconds, Binding, b_ContainerID, NewJournalKey, CanonicalJournalMetadata).
Import ActionWorker (ActionCall(..), Acquisition(..)).
Import ActionBudget (Stamp, reading, ex_guard, ex_delivery, CheckExecution, CheckMutation, CheckReport, CheckDecision).

#[local] Open Scope string_scope.
#[local] Open Scope Z_scope.

(** ** Frames *)

Definition WorkerVersion : string := "observer-action-local/v1".

Record CheckRequest := MkCheckRequest {
  cr_Request : RequestReceipt; cr_ExecutionLeaseID : string; cr_Checkpoint : string; cr_CheckNonce : string }.

(** The payloads that reach the broker, and those it sends. *)
Inductive Payload :=
| PNone
| PQuery (q : SnapshotQuery)
| PReply (r : SnapshotReply)
| PApproval (a : ApprovalSnapshot)
| PClaimed (claim : Claim) (claimRTTNanos : string)
| PChallenge (r : CheckRequest)
| PDecision (d : ExecutionDecision)
| PReport (r : Report)
| POther (raw : string).

Record Envelope := MkEnvelope {
  ev_Version : string; ev_Kind : string; ev_Nonce : string; ev_Ordinal : string; ev_Payload : Payload }.

Definition decode_decision (p : Payload) : option ExecutionDecision :=
  match p with PDecision d => DecodeExecutionDecision d | _ => None end.

(** ** Calls of a handler *)

Inductive SCall : Type → Type :=
| STake (R : Type) (o : bop R) : SCall R (* an access to the shared state *)
| SWrite (kind nonce ordinal : string) (p : Payload) : SCall bool
| SRead : SCall (option Envelope)
| SDeliveryContext : SCall bool (* conversation.DeliveryContext(ctx) succeeds *)
| SClosed : SCall bool (* executionClosed.Load() *)
| SCtxErr : SCall bool (* ctx.Err() != nil *)
| SClock : SCall (option reading) (* the source of the invocation's clock *)
| SCore (A : Type) (e : ActionCall A) : SCall A. (* the core's clock and contexts; the journal and the engine behind the broker's own *)
Arguments STake {R} o.
Arguments SCore {A} e.

Local Open Scope prog_scope.

(** ** Checks of an invocation *)

(** [actionbudget.CheckExecution(ctx, inv.resolved.key.ActionID, inv.resolved.remoteDigest)] *)
Definition checkExecution (inv : acceptedInvocation) : prog SCall bool :=
  expired <~ SCtxErr;
  read <~ SClock;
  expired' <~ SCtxErr;
  Ret (CheckExecution (Some (ex_guard (iv_execution inv))) expired expired' read
         (k_ActionID (rb_key (iv_resolved inv))) (rb_remoteDigest (iv_resolved inv))).

(** [actionbudget.CheckMutation(ctx, id, op)] *)
Definition checkMutation (inv : acceptedInvocation) (id : string) (op : Operation) : prog SCall bool :=
  expired <~ SCtxErr;
  read <~ SClock;
  expired' <~ SCtxErr;
  Ret (CheckMutation (Some (ex_guard (iv_execution inv))) expired expired' read id op).

(** [inv.execution.CheckReport(ctx)] *)
Definition checkReport (inv : acceptedInvocation) : prog SCall bool :=
  expired <~ SCtxErr;
  read <~ SClock;
  expired' <~ SCtxErr;
  Ret (CheckReport (iv_execution inv) expired expired' read).

Definition currentExecution (generation : string) (inv : acceptedInvocation) : prog SCall bool :=
  closed <~ SClosed;
  if closed : bool then Ret false
  else
    ok <- checkExecution inv;
    if negb ok then Ret false
    else
      source <~ STake (OSource generation);
      if negb source then Ret false
      else
        current <~ STake (OInvocation inv);
        if negb current then Ret false else checkExecution inv.

(** ** The authority *)

Record conversationAuthority := MkAuthority { au_checkpoint : nat; au_lastChallenge : string }.

(** [Check], of the request and binding [Execute] was given. *)
Definition Check (generation : string) (inv : acceptedInvocation) (r : Request) (b : Binding)
    (a : conversationAuthority) : prog SCall (bool * conversationAuthority) :=
  if (2 <=? au_checkpoint a)%nat then Ret (false, a)
  else
    current <- currentExecution generation inv;
    if negb current then Ret (false, a)
    else match NewJournalKey r b with
    | None => Ret (false, a)
    | Some key =>
        if negb (str_eqb (k_Fingerprint key) (k_Fingerprint (rb_key (iv_resolved inv)))) then Ret (false, a)
        else
          challenge <~ STake OFresh;
          match challenge with
          | None => Ret (false, a)
          | Some challenge =>
              if str_eqb challenge (au_lastChallenge a) then Ret (false, a)
              else
                let a := MkAuthority (S (au_checkpoint a)) challenge in
                let checkpoint := FormatUint (Z.of_nat (au_checkpoint a)) in
                let ordinal := FormatUint (Z.of_nat (au_checkpoint a) + 2) in
                let request := MkCheckRequest (cm_Request (iv_claim inv)) (cm_ExecutionLeaseID (iv_claim inv))
                                 checkpoint challenge in
                let fail := Ret (false, a) in
                send <~ STake OCapture;
                match send with
                | None => fail
                | Some send =>
                    nonce <~ STake (ONonce (iv_reservation inv));
                    written <~ SWrite "AUTHORITY_CHALLENGE" nonce ordinal (PChallenge request);
                    if negb written then fail
                    else
                      envelope <~ SRead;
                      match envelope with
                      | None => fail
                      | Some envelope =>
                          if negb (str_eqb (ev_Version envelope) WorkerVersion)
                             || negb (str_eqb (ev_Kind envelope) "AUTHORITY_REPLY")
                             || negb (str_eqb (ev_Nonce envelope) nonce)
                             || negb (str_eqb (ev_Ordinal envelope) ordinal) then fail
                          else match decode_decision (ev_Payload envelope) with
                          | None => fail
                          | Some decision =>
                              if negb (MatchExecutionDecision (iv_claim inv) checkpoint challenge decision) then fail
                              else
                                recv <~ STake OCapture;
                                match recv, ParseHTTPTime (ed_CheckedAt decision) with
                                | Some recv, Some checked =>
                                    expired <~ SCtxErr;
                                    if expired : bool then fail
                                    else
                                      read <~ SClock;
                                      if negb (CheckDecision (iv_execution inv) send recv checked read) then fail
                                      else
                                        current <- currentExecution generation inv;
                                        Ret (current, a)
                                | _, _ => fail
                                end
                          end
                      end
                end
          end
    end.

(** ** The engine *)

Definition phaseInspect (generation : string) (inv : acceptedInvocation) (id : string) : prog SCall (option State) :=
  if negb (str_eqb id (b_ContainerID (rb_binding (iv_resolved inv)))) then Ret None
  else
    current <- currentExecution generation inv;
    if negb current then Ret None
    else
      state <~ SCore (AInspect id);
      match state with
      | None => Ret None
      | Some state =>
          current <- currentExecution generation inv;
          Ret (if current : bool then Some state else None)
      end.

Definition phaseMutate (generation : string) (inv : acceptedInvocation) (id : string) (op : Operation) (grace : Z) :
    prog SCall bool :=
  if negb (str_eqb id (b_ContainerID (rb_binding (iv_resolved inv))))
     || (op != rr_Operation (cm_Request (iv_claim inv)))
     || negb (grace =? GraceSeconds (md_Request (k_Metadata (rb_key (iv_resolved inv))))) then Ret false
  else
    current <- currentExecution generation inv;
    if negb current then Ret false
    else
      ok <- checkMutation inv id op;
      if negb ok then Ret false
      else match op with
      | Start | Stop | Restart =>
          ok <~ SCore (AEngine op id grace);
          if negb ok then Ret false
          else
            current <- currentExecution generation inv;
            if negb current then Ret false else checkMutation inv id op
      | OperationOther _ => Ret false
      end.

(** [Start], [Stop] and [Restart]: starting has no grace period. *)
Definition phaseEngine (generation : string) (inv : acceptedInvocation) (op : Operation) (id : string) (grace : Z) :
    prog SCall bool :=
  phaseMutate generation inv id op (match op with Start => 0 | _ => grace end).

(** ** The journal *)

(** [boundExecution.Acquire] *)
Definition boundAcquire (bound : ActionJournal.boundExecution) (key : Key) : prog SCall Acquisition :=
  match CanonicalJournalMetadata (ActionJournal.be_key bound), CanonicalJournalMetadata key with
  | Some want, Some got =>
      if str_eqb want got then perform (SCore (AAcquire key)) else Ret AcquireConflict
  | _, _ => Ret AcquireConflict
  end.

Definition sourceAcquire (generation : string) (inv : acceptedInvocation) (key : Key) : prog SCall Acquisition :=
  current <- currentExecution generation inv;
  if negb current then Ret AcquireFailed
  else
    acquired <- boundAcquire (iv_journal inv) key;
    match acquired with
    | Acquired =>
        current <- currentExecution generation inv;
        if current : bool then Ret Acquired
        else _ <~ SCore AClose; Ret AcquireFailed
    | failed => Ret failed
    end.

Definition sourceExisting (generation : string) (inv : acceptedInvocation) : prog SCall Code :=
  current <- currentExecution generation inv;
  if negb current then Ret Unavailable
  else
    code <~ SCore AExisting;
    current <- currentExecution generation inv;
    Ret (if current : bool then code else Unavailable).

(** [Intent] and [Finish] of the attempt, as [e]. *)
Definition sourceTransition (generation : string) (inv : acceptedInvocation) (e : ActionCall bool) : prog SCall bool :=
  current <- currentExecution generation inv;
  if negb current then Ret false
  else
    ok <~ SCore e;
    if negb ok then Ret false else currentExecution generation inv.

(** ** The core over them *)

Definition keep {A} (a : conversationAuthority) (p : prog SCall A) : prog SCall (A * conversationAuthority) :=
  x <- p; Ret (x, a).

Definition depend (generation : string) (inv : acceptedInvocation) (r : Request) (b : Binding) A (e : ActionCall A)
    (a : conversationAuthority) : prog SCall (A * conversationAuthority) :=
  match e in ActionCall T return prog SCall (T * conversationAuthority) with
  | ACheck => Check generation inv r b a
  | AAcquire key => keep a (sourceAcquire generation inv key)
  | AExisting => keep a (sourceExisting generation inv)
  | AInspect id => keep a (phaseInspect generation inv id)
  | AIntent => keep a (sourceTransition generation inv AIntent)
  | AEngine op id grace => keep a (phaseEngine generation inv op id grace)
  | AFinish code => keep a (sourceTransition generation inv (AFinish code))
  | AClose => keep a (perform (SCore AClose))
  | ANow => keep a (perform (SCore ANow))
  | ACtxErr c => keep a (perform (SCore (ACtxErr c)))
  | AUntil c => keep a (perform (SCore (AUntil c)))
  | AWithTimeout c d => keep a (perform (SCore (AWithTimeout c d)))
  end.

Definition workExecute (generation : string) (inv : acceptedInvocation) : prog SCall (Code * conversationAuthority) :=
  let r := md_Request (k_Metadata (rb_key (iv_resolved inv))) in
  let b := rb_binding (iv_resolved inv) in
  interp (depend generation inv r b) (ActionWorker.Execute true r b (ex_delivery (iv_execution inv)))
    (MkAuthority 0 "").

(** ** Reports *)

(** The consumer's [retainedReport]. *)
Definition reportFor (generation : string) (inv : acceptedInvocation) : prog SCall (option Report) :=
  if negb (bool_decide (ReceiptDigest (cm_Request (iv_claim inv)) = Some (rb_remoteDigest (iv_resolved inv))))
     || negb (str_eqb (rr_ActionID (cm_Request (iv_claim inv))) (k_ActionID (rb_key (iv_resolved inv))))
  then Ret None
  else
    timely <- checkReport inv;
    if negb timely then Ret None
    else
      source <~ STake (OSource generation);
      if negb source then Ret None
      else
        report <~ STake (OReport inv);
        match report with
        | Err _ => Ret None
        | Ok report =>
            source <~ STake (OSource generation);
            if negb source then Ret None
            else
              timely <- checkReport inv;
              Ret (if timely : bool then Some report else None)
        end.

(** The body of [execute], before its deferred functions. *)
Definition execute_body (generation : string) (inv : acceptedInvocation) : prog SCall bool :=
  source <~ STake (OSource generation);
  if negb source then Ret false
  else
    current <~ STake (OInvocation inv);
    if negb current then Ret false
    else
      budget <- checkExecution inv;
      if negb budget then Ret false
      else
        _ <- workExecute generation inv;
        report <- reportFor generation inv;
        match report with
        | None => Ret false
        | Some report =>
            nonce <~ STake (ONonce (iv_reservation inv));
            written <~ SWrite "RESULT" nonce "5" (PReport report);
            if negb written then Ret false
            else
              source <~ STake (OSource generation);
              if negb source then Ret false else checkReport inv
        end.

(** [execute]: whether it returns nil. *)
Definition execute (generation : string) (inv : acceptedInvocation) : prog SCall bool :=
  ok <- execute_body generation inv;
  _ <- (if ok : bool then Ret tt else perform (STake ORecovery));
  finished <~ STake (OFinish (iv_reservation inv));
  Ret (ok && is_ok finished).

#[global] Arguments currentExecution : simpl never.
#[global] Arguments checkExecution : simpl never.
#[global] Arguments checkMutation : simpl never.
#[global] Arguments checkReport : simpl never.
#[global] Arguments workExecute : simpl never.
