(* ===== verification/ActionConversation.v ===== *)
(** * Worker conversations ([internal/actionbroker])

    One handler serves one worker connection: it renews readiness through a
    control conversation, or reserves, offers the approved targets, binds the
    claim it is handed, and has it executed and reported. *)

From S2P Require Import Prelude GoTime GoText Effects ActionReceipt ActionPolicy ActionBroker ActionExecution.

#[local] Open Scope string_scope.
#[local] Open Scope Z_scope.

(** ** Payloads *)

(** [strconv.ParseInt(s, 10, 64)] of a text [FormatInt] writes back: a sign is
    never accepted by the decoder below. *)
Definition DecodeClaimedExecute (p : Payload) : option (Claim * Z) :=
  match p with
  | PClaimed claim text =>
      match DecodeClaim claim, ParseUint text 63 with
      | Some claim, Some nanos =>
          if (30 * Second <? nanos) || negb (str_eqb (FormatUint nanos) text) then None else Some (claim, nanos)
      | _, _ => None
      end
  | _ => None
  end.

Definition decode_reply (p : Payload) : option SnapshotReply :=
  match p with PReply r => DecodeSnapshotReply r | _ => None end.

Local Open Scope prog_scope.

(** The control branch of [selectWorkerInvocation]. *)
Definition renewReadiness : prog SCall (result BError (option acceptedInvocation)) :=
  begun <~ STake OBeginControl;
  match begun with
  | Err e => Ret (Err e)
  | Ok c =>
      let id := sq_PublicationID (cc_query c) in
      result <- (written <~ SWrite "SNAPSHOT_QUERY" id "1" (PQuery (cc_query c));
                 if negb written then Ret (Err ErrRecoveryRequired)
                 else
                   reply <~ SRead;
                   match reply with
                   | None => Ret (Err ErrRecoveryRequired)
                   | Some reply =>
                       if negb (str_eqb (ev_Version reply) WorkerVersion)
                          || negb (str_eqb (ev_Kind reply) "SNAPSHOT_REPLY")
                          || negb (str_eqb (ev_Ordinal reply) "2") || negb (str_eqb (ev_Nonce reply) id)
                       then Ret (Err ErrRecoveryRequired)
                       else match decode_reply (ev_Payload reply) with
                       | None => Ret (Err ErrRecoveryRequired)
                       | Some value =>
                           done <~ STake (OComplete c value);
                           match done with Err e => Ret (Err e) | Ok _ => Ret (Ok None) end
                       end
                   end);
      _ <~ STake (OCancel c);
      Ret result
  end.

(** The claim branch, once a reservation is made. *)
Definition takeClaim (h : nat) : prog SCall (result BError (option acceptedInvocation)) :=
  let fail := Ret (Err ErrRecoveryRequired) in
  approval <~ STake (OApproval h);
  match approval with
  | Err _ => fail
  | Ok approval =>
      derived <~ SDeliveryContext;
      if negb derived then fail
      else
        ok <~ STake (OCheckDelivery h);
        if negb ok then fail
        else
          nonce <~ STake (ONonce h);
          written <~ SWrite "APPROVAL_SNAPSHOT" nonce "1" (PApproval approval);
          if negb written then fail
          else
            ok <~ STake (OCheckDelivery h);
            if negb ok then fail
            else
              delivery <~ SRead;
              match delivery with
              | None => fail
              | Some delivery =>
                  ok <~ STake (OCheckDelivery h);
                  if negb ok || negb (str_eqb (ev_Version delivery) WorkerVersion)
                     || negb (str_eqb (ev_Nonce delivery) nonce) || negb (str_eqb (ev_Ordinal delivery) "2")
                  then fail
                  else if str_eqb (ev_Kind delivery) "NO_CLAIM" then
                    freed <~ STake (ORelease h);
                    match freed with Err e => Ret (Err e) | Ok _ => Ret (Ok None) end
                  else if negb (str_eqb (ev_Kind delivery) "CLAIMED_EXECUTE") then fail
                  else match DecodeClaimedExecute (ev_Payload delivery) with
                  | None => fail
                  | Some (claim, rtt) =>
                      ok <~ STake (OCheckDelivery h);
                      if negb ok then fail
                      else
                        bound <~ STake (OBind h claim rtt);
                        match bound with
                        | Err e => Ret (Err e)
                        | Ok (journal, execution, resolved) =>
                            Ret (Ok (Some (MkInvocation h claim journal execution resolved)))
                        end
                  end
              end
  end.

(** [selectWorkerInvocation] *)
Definition selectWorkerInvocation : prog SCall (result BError (option acceptedInvocation)) :=
  ready <~ STake OReadiness;
  if negb ready then renewReadiness
  else
    reserved <~ STake OReserve;
    match reserved with
    | Err e => Ret (Err e)
    | Ok h =>
        result <- takeClaim h;
        match result with
        | Err e => _ <~ STake (OAbandon h); Ret (Err e)
        | Ok v => Ret (Ok v)
        end
    end.

(** [executionConsumer.abandon] *)
Definition abandonInvocation (inv : acceptedInvocation) : prog SCall unit :=
  _ <~ STake ORecovery;
  _ <~ STake (OFinish (iv_reservation inv));
  Ret tt.

(** [serveOwned] once the greeting was read and the scope taken. *)
Definition serveOwned (generation : string) : prog SCall bool :=
  source <~ STake (OSource generation);
  if negb source then Ret false
  else
    selected <- selectWorkerInvocation;
    match selected with
    | Err _ => Ret false
    | Ok inv =>
        source <~ STake (OSource generation);
        match inv with
        | None => Ret source
        | Some inv =>
            if negb source then _ <- abandonInvocation inv; Ret false
            else execute generation inv
        end
    end.
