(* ===== verification/ActionDispatch.v ===== *)
(** * What reaches the container engine

    The action core over the broker's own dependencies.  The environment here
    records the frames of the conversation, the clock readings and the raw calls
    to the journal and the engine; every answer of the shared state, the worker,
    the journal and the engine is possible. *)

From S2P Require Import Prelude GoTime GoText Effects ActionReceipt ActionPolicy ActionBroker ActionExecution.
From S2P Require ActionCore ActionBudget ActionJournal ActionWorker.
Import ActionCore (Operation(..), Code(..), k_Fingerprint, k_Metadata, md_Request, Request, Op,
  GraceSeconds, b_ContainerID, NewJournalKey).
Import ActionWorker (ActionCall(..), Acquisition(..), Effects, MkEffects, e_checks, e_acquired, e_existing, e_state,
  e_intent, e_mutations, e_finishes, e_closes, e_now, e_budget, action_env, disciplined, clock_sane, IntentDurable,
  IntentFailed, NotIntended, MkMutation, untouched, Bounded).
Import ActionBudget (reading, ex_guard, ex_delivery, CheckMutation, checked).

#[local] Open Scope string_scope.
#[local] Open Scope Z_scope.
#[local] Opaque ParseHTTPTime ReceiptDigest resolveReceipt validatePolicy.

(** ** What was said and done *)

Record frame := MkFrame { fr_kind : string; fr_nonce : string; fr_ordinal : string; fr_payload : Payload }.

(** An engine call with the clock reading before it. *)
Record dispatch := MkDispatch {
  dp_op : Operation; dp_container : string; dp_grace : Z; dp_read : option reading }.

Record ghost := MkGhost {
  gh_sent : list frame; gh_heard : list Envelope; gh_clock : option reading; gh_intent : bool;
  gh_engine : list dispatch }.

Definition silent : ghost := MkGhost [] [] None false [].

Section dispatch.
Variable inv : acceptedInvocation.
Let r : Request := md_Request (k_Metadata (rb_key (iv_resolved inv))).
Let b : ActionCore.Binding := rb_binding (iv_resolved inv).
Let d : ActionCore.Delivery := ex_delivery (iv_execution inv).

(** The core's clock reads within 292 years of the deadline, so that no
    subtraction saturates. *)
Definition core_env A (e : ActionCall A) : ghost → A → ghost → Prop :=
  match e in ActionCall T return ghost → T → ghost → Prop with
  | ANow => λ g t g', clock_sane r d t ∧ g' = g
  | AUntil _ => λ g a g', match a with Some u => MinInt64 + 5 * Second < u | None => True end ∧ g' = g
  | AIntent => λ g ok g', g' = MkGhost (gh_sent g) (gh_heard g) (gh_clock g) (gh_intent g || ok) (gh_engine g)
  | AEngine op id grace => λ g _ g',
      g' = MkGhost (gh_sent g) (gh_heard g) (gh_clock g) (gh_intent g)
             (gh_engine g ++ [MkDispatch op id grace (gh_clock g)])
  | _ => λ g _ g', g' = g
  end.

Definition exec_env A (e : SCall A) : ghost → A → ghost → Prop :=
  match e in SCall T return ghost → T → ghost → Prop with
  | SWrite kind nonce ordinal p => λ g _ g',
      g' = MkGhost (gh_sent g ++ [MkFrame kind nonce ordinal p]) (gh_heard g) (gh_clock g) (gh_intent g) (gh_engine g)
  | SRead => λ g a g',
      g' = MkGhost (gh_sent g) (gh_heard g ++ option_list a) (gh_clock g) (gh_intent g) (gh_engine g)
  | SClock => λ g a g', g' = MkGhost (gh_sent g) (gh_heard g) a (gh_intent g) (gh_engine g)
  | SCore e => core_env _ e
  | _ => λ g _ g', g' = g
  end.

(** The server permitted [checkpoint] in answer to [challenge]. *)
Definition permitted (g : ghost) (checkpoint challenge : string) : Prop :=
  ∃ nonce ordinal envelope decision,
    MkFrame "AUTHORITY_CHALLENGE" nonce ordinal
      (PChallenge (MkCheckRequest (cm_Request (iv_claim inv)) (cm_ExecutionLeaseID (iv_claim inv)) checkpoint challenge))
      ∈ gh_sent g
    ∧ envelope ∈ gh_heard g ∧ ev_Payload envelope = PDecision decision
    ∧ MatchExecutionDecision (iv_claim inv) checkpoint challenge decision = true.

Record authorized (g : ghost) (x : dispatch) : Prop := {
  az_op : dp_op x = Op r ∧ dp_op x = rr_Operation (cm_Request (iv_claim inv));
  az_container : dp_container x = b_ContainerID b;
  az_grace : dp_grace x = GraceSeconds r;
  az_timely : CheckMutation (Some (ex_guard (iv_execution inv))) false false (dp_read x) (dp_container x) (dp_op x) = true;
  az_intent : gh_intent g = true;
  az_permits : ∃ c1 c2, c1 ≠ c2 ∧ permitted g "1" c1 ∧ permitted g "2" c2 }.

(** At most one call reached the engine, and it was authorized. *)
Definition dispatched (g : ghost) : Prop :=
  gh_engine g = [] ∨ ∃ x, gh_engine g = [x] ∧ authorized g x.

(** ** Growth *)

Record grows (g g' : ghost) : Prop := {
  gw_sent : gh_sent g ⊆ gh_sent g'; gw_heard : gh_heard g ⊆ gh_heard g';
  gw_intent : gh_intent g = true → gh_intent g' = true; gw_engine : gh_engine g' = gh_engine g }.

Lemma grows_refl g : grows g g.
Proof. by split. Qed.
Lemma grows_trans g g' g'' : grows g g' → grows g' g'' → grows g g''.
Proof. intros [] []. split; [set_solver|set_solver|auto|congruence]. Qed.

Lemma permitted_grows g g' cp c : grows g g' → permitted g cp c → permitted g' cp c.
Proof. intros [] (n & o & e & dc & ? & ? & ? & ?). exists n, o, e, dc. set_solver. Qed.

Lemma dispatched_grows g g' : grows g g' → dispatched g → dispatched g'.
Proof.
  intros Hg [He|(x & He & [])]; pose proof (gw_engine _ _ Hg) as Heq; [left; congruence|].
  right. exists x. split; [congruence|]. split; try done; [by apply (gw_intent _ _ Hg)|].
  destruct az_permits0 as (c1 & c2 & ? & ? & ?). exists c1, c2. eauto using permitted_grows.
Qed.

Definition harmless A (e : SCall A) : Prop :=
  match e with SCore (AEngine _ _ _) => False | _ => True end.

Lemma harmless_step A (e : SCall A) g a g' : harmless A e → exec_env A e g a g' → grows g g'.
Proof.
  intros He Hx. destruct e as [T o|k n o p| | | | | |T e]; simpl in Hx; try (subst; by split);
    try (subst; split; simpl; set_solver).
  destruct e; simpl in *; try done; try (subst; by split); try (destruct Hx as [_ ->]; by split).
  subst. split; simpl; try done. by intros ->.
Qed.

(** Harmless routines keep [dispatched] and let the record grow. *)
Lemma harmless_wpc {R} (p : prog SCall R) g :
  only harmless p → dispatched g → wpc exec_env dispatched p (λ _ g', grows g g' ∧ dispatched g') g.
Proof.
  intros Hp Hd. eapply wpc_mono; [| |apply (only_frame exec_env harmless (λ g', grows g g' ∧ dispatched g') p g Hp)].
  - by intros ? [].
  - done.
  - intros A e u a u' He Hx [Hg Hu]. pose proof (harmless_step A e u a u' He Hx) as Hs.
    split; [by eapply grows_trans|by eapply dispatched_grows].
  - split; [apply grows_refl|done].
Qed.

Ltac harmless_frame :=
  repeat lazymatch goal with
  | |- only _ (Ret _) => exact I
  | |- only _ (bind _ _) => apply only_bind; [|intros]
  | |- only _ (Call _ _) => split; [exact I|intros]
  | |- only _ (perform _) => split; [exact I|intros]
  | |- only _ (if ?x then _ else _) => destruct x
  | |- only _ (match ?x with _ => _ end) => destruct x
  | |- _ => assumption
  end.

Lemma checks_harmless :
  only harmless (checkExecution inv) ∧ only harmless (checkReport inv) ∧ ∀ id op, only harmless (checkMutation inv id op).
Proof.
  unfold checkExecution, checkReport, checkMutation. split; [harmless_frame|split; [harmless_frame|intros; harmless_frame]].
Qed.

Variable generation : string.

Lemma current_harmless : only harmless (currentExecution generation inv).
Proof. destruct checks_harmless as (? & _ & _). unfold currentExecution. harmless_frame. Qed.

Lemma current_wpc {R} (k : bool → prog SCall R) Q g :
  dispatched g → (∀ ok g', grows g g' → dispatched g' → wpc exec_env dispatched (k ok) Q g') →
  wpc exec_env dispatched (bind (currentExecution generation inv) k) Q g.
Proof.
  intros Hd Hk. apply wpc_bind. eapply wpc_mono; [done| |apply harmless_wpc; [apply current_harmless|done]].
  intros ok g' [Hg Hd']. by apply Hk.
Qed.

Lemma harmless_call {R A} (e : SCall A) (k : A → prog SCall R) Q g :
  harmless A e → dispatched g →
  (∀ a g', exec_env A e g a g' → grows g g' → dispatched g' → wpc exec_env dispatched (k a) Q g') →
  wpc exec_env dispatched (Call e k) Q g.
Proof.
  intros He Hd Hk. apply wpc_call; [done|]. intros a g' Hx. pose proof (harmless_step A e g a g' He Hx) as Hg.
  apply Hk; [done|done|by eapply dispatched_grows].
Qed.

(** ** The authority *)

Definition check_post (g : ghost) (a : conversationAuthority) (x : bool * conversationAuthority) (g' : ghost) : Prop :=
  grows g g' ∧ dispatched g'
  ∧ (x = (false, a)
     ∨ (au_checkpoint a < 2)%nat ∧ ∃ c, c ≠ au_lastChallenge a ∧ x.2 = MkAuthority (S (au_checkpoint a)) c
       ∧ (x.1 = true → permitted g' (FormatUint (Z.of_nat (S (au_checkpoint a)))) c)).

Lemma Check_wpc a g :
  dispatched g → wpc exec_env dispatched (Check generation inv r b a) (check_post g a) g.
Proof.
  intros Hd. unfold Check.
  assert (Hno : ∀ g', grows g g' → dispatched g' → wpc exec_env dispatched (Ret (false, a)) (check_post g a) g').
  { intros g' Hg Hd'. apply wpc_ret; [done|]. split; [done|]. split; [done|by left]. }
  destruct (Nat.leb_spec 2 (au_checkpoint a)) as [|Hlt]; [by apply Hno; [apply grows_refl|]|].
  apply current_wpc; [done|]. intros [] g1 G1 D1; cbn [negb]; [|by apply Hno].
  destruct (NewJournalKey r b) as [key|]; [|by apply Hno]. destruct (negb _); [by apply Hno|].
  apply harmless_call; [done|done|]. intros [c|] g2 _ G2 D2; [|apply Hno; [by eapply grows_trans|done]].
  destruct (str_eqb c (au_lastChallenge a)) eqn:Hc; [apply Hno; [by eapply grows_trans|done]|]. bools.
  pose proof (grows_trans _ _ _ G1 G2) as G12. cbn [au_checkpoint]. cbv zeta.
  set (a' := MkAuthority _ c).
  assert (Hfail : ∀ g', grows g g' → dispatched g' → wpc exec_env dispatched (Ret (false, a')) (check_post g a) g').
  { intros g' Hg Hd'. apply wpc_ret; [done|]. split; [done|]. split; [done|]. right. split; [done|].
    exists c. by split; [|split]. }
  apply harmless_call; [done|done|]. intros [send|] g3 _ G3 D3; [|apply Hfail; [by eapply grows_trans|done]].
  pose proof (grows_trans _ _ _ G12 G3) as G13.
  apply harmless_call; [done|done|]. intros nonce g4 _ G4 D4. pose proof (grows_trans _ _ _ G13 G4) as G14.
  apply harmless_call; [done|done|]. intros written g5 X5 G5 D5. pose proof (grows_trans _ _ _ G14 G5) as G15.
  simpl in X5. destruct written; cbn [negb]; [|by apply Hfail].
  apply harmless_call; [done|done|]. intros [envelope|] g6 X6 G6 D6; [|apply Hfail; [by eapply grows_trans|done]].
  pose proof (grows_trans _ _ _ G15 G6) as G16. simpl in X6.
  destruct (_ || _); [by apply Hfail|]. destruct (decode_decision _) as [decision|] eqn:Hdec; [|by apply Hfail].
  destruct (MatchExecutionDecision _ _ _ _) eqn:Hmatch; cbn [negb]; [|by apply Hfail].
  assert (Hp : permitted g6 (FormatUint (Z.of_nat (S (au_checkpoint a)))) c).
  { eexists nonce, _, envelope, decision. split; [apply (gw_sent _ _ G6); subst g5; apply elem_of_app; right; by left|].
    split; [subst g6; apply elem_of_app; right; by left|]. split; [|done].
    unfold decode_decision in Hdec. destruct (ev_Payload envelope); try done.
    unfold DecodeExecutionDecision in Hdec. repeat case_match; congruence. }
  clear X5 X6. apply harmless_call; [done|done|]. intros recv g7 _ G7 D7. pose proof (grows_trans _ _ _ G16 G7) as G17.
  destruct recv as [recv|]; [|by apply Hfail]. destruct (ParseHTTPTime _) as [checked|]; [|by apply Hfail].
  apply harmless_call; [done|done|]. intros expired g8 _ G8 D8. pose proof (grows_trans _ _ _ G17 G8) as G18.
  destruct expired; [by apply Hfail|].
  apply harmless_call; [done|done|]. intros read g9 _ G9 D9. pose proof (grows_trans _ _ _ G18 G9) as G19.
  destruct (negb _); [by apply Hfail|].
  apply current_wpc; [done|]. intros ok g10 G10 D10. apply wpc_ret; [done|].
  split; [by eapply grows_trans|]. split; [done|]. right. split; [done|]. exists c. split; [done|]. split; [done|].
  intros _. eapply permitted_grows; [|exact Hp]. eauto using grows_trans.
Qed.

(** ** The simulation *)

(** [n] challenges were issued, the last being [last], and [k] of them succeeded. *)
Definition issued (g : ghost) (n : nat) (last : string) (k : nat) : Prop :=
  match n with
  | O => k = O
  | 1%nat => (k ≤ 1)%nat ∧ (k = 1%nat → permitted g "1" last)
  | 2%nat => (k ≤ 2)%nat ∧ ∃ c1, c1 ≠ last ∧ (k = 2%nat → permitted g "1" c1 ∧ permitted g "2" last)
  | _ => False
  end.

Lemma issued_grows g g' n last k : grows g g' → issued g n last k → issued g' n last k.
Proof.
  intros Hg. destruct n as [|[|[|n]]]; simpl; [done| | |done].
  - intros [? H]. split; [done|]. eauto using permitted_grows.
  - intros (? & c1 & ? & H). split; [done|]. exists c1. split; [done|]. intros ?. destruct H; eauto using permitted_grows.
Qed.

Lemma issued_check g a k x g' :
  issued g (au_checkpoint a) (au_lastChallenge a) k → check_post g a x g' →
  issued g' (au_checkpoint x.2) (au_lastChallenge x.2) (if x.1 then S k else k).
Proof.
  intros Hi (Hg & _ & [->|(Hlt & c & Hc & -> & Hp)]); [by eapply issued_grows|].
  apply (issued_grows _ _ _ _ _ Hg) in Hi. destruct (au_checkpoint a) as [|[|n]]; [| |lia]; simpl in *.
  - subst k. destruct x.1; split; try lia; try done. intros _. by apply Hp.
  - destruct Hi as [Hk Hi]. split; [destruct x.1; lia|]. exists (au_lastChallenge a). split; [done|].
    destruct x.1 eqn:Hx; [|lia]. intros [= ->]. split; [by apply Hi|by apply Hp].
Qed.

(** The broker's state against the core's. *)
Record related (w : Effects) (a : conversationAuthority) (g : ghost) : Prop := {
  rl_issued : issued g (au_checkpoint a) (au_lastChallenge a) (e_checks w);
  rl_intent : e_intent w = IntentDurable → gh_intent g = true;
  rl_engine : (length (gh_engine g) ≤ length (e_mutations w))%nat;
  rl_dispatched : dispatched g }.

Lemma related_grows w w' a g g' :
  related w a g → e_checks w' = e_checks w → e_intent w' = e_intent w → e_mutations w' = e_mutations w →
  grows g g' → dispatched g' → related w' a g'.
Proof.
  intros [Hi Hin He _] Hc Hn Hm Hg Hd. split; [rewrite Hc; by eapply issued_grows| | |done].
  - rewrite Hn. intros ?. by apply (gw_intent _ _ Hg), Hin.
  - rewrite Hm. by rewrite (gw_engine _ _ Hg).
Qed.

(** What the simulation asks of the implementation of one call. *)
Definition simulates A (e : ActionCall A) : Prop :=
  ∀ w a g, related w a g → (∀ x w', action_env r d A e w x w' → disciplined r b d w') →
    wpc exec_env dispatched (depend generation inv r b A e a)
      (λ x g', ∃ w', action_env r d A e w x.1 w' ∧ related w' x.2 g') g.

Lemma simulates_harmless A (e : ActionCall A) p :
  (∀ a, depend generation inv r b A e a = keep a p) → only harmless p →
  (∀ w x, ∃ w', action_env r d A e w x w' ∧ e_checks w' = e_checks w ∧ e_intent w' = e_intent w
     ∧ e_mutations w' = e_mutations w) → simulates A e.
Proof.
  intros Hdep Hp Hw w a g Hr _. rewrite Hdep. unfold keep. apply wpc_bind.
  eapply wpc_mono; [done| |apply harmless_wpc; [exact Hp|apply Hr]].
  intros x g' [Hg Hd]. apply wpc_ret; [done|]. destruct (Hw w x) as (w' & He & Hc & Hi & Hm).
  exists w'. split; [done|]. by eapply related_grows.
Qed.

Lemma simulates_reading A (e : ActionCall A) :
  (∀ a, depend generation inv r b A e a = keep a (perform (SCore e))) →
  (∀ w g x g', core_env A e g x g' → g' = g ∧ ∃ w', action_env r d A e w x w' ∧ e_checks w' = e_checks w
     ∧ e_intent w' = e_intent w ∧ e_mutations w' = e_mutations w) → simulates A e.
Proof.
  intros Hdep Hw w a g Hr _. rewrite Hdep. unfold keep. apply wpc_bind, wpc_call; [apply Hr|]. intros x g' Hx.
  destruct (Hw w g x g' Hx) as (-> & w' & He & Hc & Hi & Hm). apply wpc_ret; [apply Hr|]. apply wpc_ret; [apply Hr|].
  exists w'. split; [done|]. apply (related_grows w w' a g g); auto using grows_refl. apply Hr.
Qed.

Lemma simulates_check : simulates bool ACheck.
Proof.
  intros w a g [Hi Hin He Hd] _. change (depend _ _ _ _ _ _ _) with (Check generation inv r b a).
  eapply wpc_mono; [done| |by apply Check_wpc]. intros [ok a'] g' Hp. eexists. split; [reflexivity|].
  pose proof (issued_check _ _ _ _ _ Hi Hp) as Hi'. destruct Hp as (Hg & Hd' & _). split; simpl; [done| | |done].
  - intros ?. by apply (gw_intent _ _ Hg), Hin.
  - by rewrite (gw_engine _ _ Hg).
Qed.

Lemma simulates_intent : simulates bool AIntent.
Proof.
  intros w a g Hr _. change (depend _ _ _ _ _ _ _) with (keep a (sourceTransition generation inv AIntent)).
  unfold keep, sourceTransition. apply wpc_bind.
  assert (Hno : ∀ g', grows g g' → dispatched g' → wpc exec_env dispatched (Ret false)
    (λ x, wpc exec_env dispatched (Ret (x, a)) (λ x g', ∃ w', action_env r d bool AIntent w x.1 w' ∧ related w' x.2 g')) g').
  { intros g' Hg Hd. apply wpc_ret; [done|]. apply wpc_ret; [done|]. eexists. split; [reflexivity|].
    destruct Hr as [Hi _ He _]. split; simpl; [by eapply issued_grows|done|by rewrite (gw_engine _ _ Hg)|done]. }
  apply current_wpc; [apply Hr|]. intros [] g1 G1 D1; cbn [negb]; [|by apply Hno].
  apply harmless_call; [done|done|]. intros ok g2 X2 G2 D2. simpl in X2. pose proof (grows_trans _ _ _ G1 G2) as G12.
  destruct ok; cbn [negb]; [|by apply Hno]. eapply wpc_mono; [done| |apply harmless_wpc; [apply current_harmless|done]].
  intros ok g3 [G3 D3]. pose proof (grows_trans _ _ _ G12 G3) as G13. destruct ok; [|by apply Hno].
  apply wpc_ret; [done|]. eexists. split; [reflexivity|]. destruct Hr as [Hi _ He _].
  split; simpl; [by eapply issued_grows| |by rewrite (gw_engine _ _ G13)|done].
  intros _. apply (gw_intent _ _ G3). subst g2. simpl. apply orb_true_r.
Qed.

Lemma check_ignores_context guard e e' read id op :
  CheckMutation guard e e' read id op = true → CheckMutation guard false false read id op = true.
Proof.
  unfold CheckMutation, checked. destruct guard; [|done]. destruct e; [done|].
  destruct (ActionBudget.Capture _ _); [|done]. by destruct e'.
Qed.

(** The call that reaches the engine: everything the core established holds. *)
Lemma engine_authorized w a g id op grace x0 :
  related w a g → (∀ x w', action_env r d bool (AEngine op id x0) w x w' → disciplined r b d w') →
  op = rr_Operation (cm_Request (iv_claim inv)) → grace = GraceSeconds r →
  CheckMutation (Some (ex_guard (iv_execution inv))) false false (gh_clock g) id op = true →
  gh_engine g = [] ∧ authorized g (MkDispatch op id grace (gh_clock g)).
Proof.
  intros [Hi Hin He Hd] Hdisc Hop Hg Hcm. specialize (Hdisc true _ eq_refl).
  destruct Hdisc as [Hm|(m & Hm & Hj)]; simpl in Hm; [by apply app_nil in Hm as [_ ?]|].
  destruct (e_mutations w) as [|m0 ms] eqn:Ew; [|simpl in Hm; injection Hm as _ Hm; by apply app_nil in Hm as [_ ?]].
  simpl in Hm. injection Hm as <-. destruct Hj as (Ho & Hc & _ & _ & Hck & _ & _ & Hint & _). simpl in *.
  split; [destruct (gh_engine g); simpl in *; [done|lia]|]. split; simpl; try done; [by apply Hin|].
  rewrite Hck in Hi. destruct (au_checkpoint a) as [|[|[|n]]]; simpl in Hi; [done|lia| |done].
  destruct Hi as (_ & c1 & Hne & Hp). exists c1, (au_lastChallenge a). split; [done|]. by apply Hp.
Qed.

Lemma simulates_engine op id grace : simulates bool (AEngine op id grace).
Proof.
  intros w a g Hr Hdisc. change (depend _ _ _ _ _ _ _) with (keep a (phaseEngine generation inv op id grace)).
  unfold keep, phaseEngine, phaseMutate. set (grace' := match op with Start => 0 | _ => grace end). apply wpc_bind.
  set (post := λ x : bool, wpc exec_env dispatched (Ret (x, a))
    (λ x g', ∃ w', action_env r d bool (AEngine op id grace) w x.1 w' ∧ related w' x.2 g')).
  assert (Hend : ∀ x g', issued g' (au_checkpoint a) (au_lastChallenge a) (e_checks w) →
    (gh_intent g = true → gh_intent g' = true) → (length (gh_engine g') ≤ S (length (gh_engine g)))%nat → dispatched g' →
    wpc exec_env dispatched (Ret x) post g').
  { intros x g' Hi' Hn Hl Hd'. apply wpc_ret; [done|]. apply wpc_ret; [done|]. eexists. split; [reflexivity|].
    destruct Hr as [Hi Hin He Hd]. split; simpl; [done|auto| |done]. rewrite length_app. simpl. lia. }
  assert (Hgrown : ∀ x g', grows g g' → dispatched g' → wpc exec_env dispatched (Ret x) post g').
  { intros x g' Hg Hd. apply Hend; [eapply issued_grows; [done|apply Hr]|apply Hg|rewrite (gw_engine _ _ Hg); lia|done]. }
  destruct (_ || _) eqn:Hguard; [apply Hgrown; [apply grows_refl|apply Hr]|].
  apply orb_false_iff in Hguard as [Hguard Hg3]. apply orb_false_iff in Hguard as [Hg1 Hg2]. bools.
  apply current_wpc; [apply Hr|]. intros [] g1 G1 D1; cbn [negb]; [|by apply Hgrown].
  apply wpc_bind. unfold checkMutation at 1.
  apply harmless_call; [done|done|]. intros e g2 X2 G2 D2. simpl in X2. subst g2.
  apply harmless_call; [done|done|]. intros read g2 X2 G3 D3. simpl in X2.
  apply harmless_call; [done|done|]. intros e' g3 X3 _ _. simpl in X3. subst g3. apply wpc_ret; [done|].
  pose proof (grows_trans _ _ _ G1 G3) as G13.
  destruct (CheckMutation _ _ _ _ _ _) eqn:Hcm; cbn [negb]; [|by apply Hgrown].
  assert (Hr2 : related w a g2) by by eapply related_grows.
  assert (Hcall : wpc exec_env dispatched (Call (SCore (AEngine op id grace')) (λ ok : bool,
    if negb ok then Ret false else bind (currentExecution generation inv)
      (λ current, if negb current then Ret false else checkMutation inv id op))) post g2).
  2:{ by destruct op; [apply Hcall..|apply Hgrown]. }
  destruct (engine_authorized w a g2 id op grace' grace Hr2 Hdisc) as [Hempty Haz]; try done.
  { apply check_ignores_context in Hcm. by subst g2. }
  apply wpc_call; [done|]. intros ok g3 X3. simpl in X3. rewrite Hempty in X3. simpl in X3.
  assert (D4 : dispatched g3).
  { right. eexists. split; [by subst g3|]. subst g3. destruct Haz as [? ? ? ? ? (c1 & c2 & ? & ? & ?)].
    split; try done. by exists c1, c2. }
  assert (Hi3 : issued g3 (au_checkpoint a) (au_lastChallenge a) (e_checks w)).
  { subst g3. exact (rl_issued _ _ _ Hr2). }
  assert (Hlate : ∀ x g', grows g3 g' → dispatched g' → wpc exec_env dispatched (Ret x) post g').
  { intros x g' Hg Hd. apply Hend; [by eapply issued_grows| | |done].
    - intros Hn. apply (gw_intent _ _ Hg). subst g3. by apply (gw_intent _ _ G13).
    - rewrite (gw_engine _ _ Hg). subst g3. simpl. lia. }
  destruct ok; cbn [negb]; [|apply Hlate; [apply grows_refl|done]].
  apply current_wpc; [done|]. intros [] g4 G4 D5; cbn [negb]; [|by apply Hlate].
  eapply wpc_mono; [done| |apply harmless_wpc; [apply checks_harmless|done]]. intros x g5 [G5 D6].
  destruct (Hlate x g5 (grows_trans _ _ _ G4 G5) D6) as [_ H]. exact H.
Qed.

Lemma depend_simulates A (e : ActionCall A) : simulates A e.
Proof.
  pose proof current_harmless as Hcur.
  destruct e as [|c|c|c z| |k| |id| |op id grace|code|].
  1-4: apply simulates_reading; [done|]; intros w g x g' Hx; simpl in Hx;
    (destruct Hx as [? ->] || subst g'); (split; [done|]); eexists; (split; [simpl; eauto|done]).
  - apply simulates_check.
  - eapply simulates_harmless; [done| |intros w x; eexists; by split; [reflexivity|]].
    unfold sourceAcquire, boundAcquire. harmless_frame.
  - eapply simulates_harmless; [done| |intros w x; eexists; by split; [reflexivity|]].
    unfold sourceExisting. harmless_frame.
  - eapply simulates_harmless; [done| |intros w x; eexists; by split; [reflexivity|]].
    unfold phaseInspect. harmless_frame.
  - apply simulates_intent.
  - apply simulates_engine.
  - eapply simulates_harmless; [done| |intros w x; eexists; by split; [reflexivity|]].
    unfold sourceTransition. harmless_frame.
  - eapply simulates_harmless; [done| |intros w x; eexists; by split; [reflexivity|]]. harmless_frame.
Qed.

Lemma workExecute_wpc g :
  gh_engine g = [] → wpc exec_env dispatched (workExecute generation inv) (λ _, dispatched) g.
Proof.
  intros Hg. unfold workExecute. eapply wpc_mono; [done| |eapply (interp_wpc (action_env r d) exec_env _ related (disciplined r b d))].
  - intros x g' (w' & _ & Hr). apply Hr.
  - intros A e w a g' Hr _ Hdisc. by apply depend_simulates.
  - intros w a g' Hr _. apply Hr.
  - apply (ActionWorker.Execute_wpc r b d true zeroTime).
  - split; simpl; [done|done|rewrite Hg; simpl; lia|by left].
Qed.

Lemma reportFor_harmless : only harmless (reportFor generation inv).
Proof. destruct checks_harmless as (_ & ? & _). unfold reportFor. harmless_frame. Qed.

Lemma execute_body_wpc : wpc exec_env dispatched (execute_body generation inv) (λ _, dispatched) silent.
Proof.
  destruct checks_harmless as (Hce & Hcr & _). unfold execute_body.
  assert (Hend : ∀ g x, dispatched g → wpc exec_env dispatched (Ret x : prog SCall bool) (λ _, dispatched) g).
  { intros g x Hg. by apply wpc_ret. }
  assert (D0 : dispatched silent) by by left.
  apply wpc_call; [done|]. intros [] ? ->; cbn [negb]; [|by apply Hend].
  apply wpc_call; [done|]. intros [] ? ->; cbn [negb]; [|by apply Hend].
  apply wpc_bind. eapply wpc_mono; [done| |apply (harmless_wpc _ _ Hce D0)]. intros budget g1 [G1 D1].
  destruct budget; cbn [negb]; [|by apply Hend].
  apply wpc_bind. eapply wpc_mono; [done| |apply workExecute_wpc; by rewrite (gw_engine _ _ G1)]. intros x g2 D2.
  apply wpc_bind. eapply wpc_mono; [done| |apply (harmless_wpc _ _ reportFor_harmless D2)].
  intros report g3 [_ D3]. destruct report as [report|]; [|by apply Hend].
  eapply wpc_mono; [done| |apply harmless_wpc; [|done]]; [by intros ? ? []|]. harmless_frame.
Qed.

(** C3: Over the whole execution of a bound claim, whatever the shared state, the
    worker, the journal, the clock and the engine answer, at most one call ever
    reaches the engine, and only for the claimed operation on the resolved container
    with its grace period: after the journal recorded the intent, with the time
    budget holding at the clock's last reading, and after the server permitted both
    checkpoints of this claim, each in answer to its own challenge, the two
    challenges being different. *)
Theorem dispatch_is_authorized :
  wpc exec_env dispatched (execute generation inv) (λ _, dispatched) silent.
Proof.
  unfold execute. apply wpc_bind. eapply wpc_mono; [done| |apply execute_body_wpc]. intros ok g Hd.
  eapply wpc_mono; [done| |apply harmless_wpc; [|done]]; [by intros ? ? []|]. harmless_frame.
Qed.
End dispatch.
