(* ===== verification/ActionBrokerSafety.v ===== *)
(** * Safety of the action broker

    [blife] is any sequence of critical sections on the broker's state, by any
    number of handlers, with every answer the journal, clock, random source,
    context and fence can give.  Over every such life at most two conversations
    are live, no two of them are bound to one target or one container, a claim is
    bound only to work the journal has never seen and does not fence, and once an
    outcome is unconfirmed no new conversation starts. *)

From S2P Require Import Prelude GoTime GoText Sha256 Effects ActionReceipt ActionPolicy ActionPolicySafety ActionResolve ActionBroker.
From S2P Require ActionCore ActionBudget ActionJournal.
From stdpp Require Import sorting.
Import ActionCore (Operation(..), Code(..), Key, k_ActionID, k_TargetID, k_Fingerprint, k_Metadata, md_Request,
  md_EngineGeneration, md_ContainerID).
Import ActionJournal (Admission, sn_Binding, sn_ObservedAt, sn_Records, AdmissionRecord, ad_Key, ad_HasIntent,
  ad_Code, ad_TerminalAt, ad_Active, boundExecution, BindExecution, string_le).
Import ActionBudget (Conversation, Execution, AcceptClaim, CheckDelivery).

#[local] Open Scope string_scope.
#[local] Open Scope Z_scope.
#[local] Opaque Sum256 hexEncode.

(** ** The environment *)

(** The state kept for the statements is the last snapshot the journal gave.
    Sixteen random bytes are sixteen bytes; nothing else is assumed. *)
Definition broker_env A (e : BCall A) : option Admission → A → option Admission → Prop :=
  match e in BCall T return option Admission → T → option Admission → Prop with
  | BAdmission => λ _ a w', w' = a
  | BRandom => λ w a w', w' = w ∧ ∀ bytes, a = Some bytes → slen bytes = 16
  | BRead => λ w _ w', w' = w
  | BCtxErr => λ w _ w', w' = w
  | BClosed => λ w _ w', w' = w
  | BCurrentFile => λ w _ w', w' = w
  end.

Abbreviation bwp p Q w := (wp broker_env p Q w).

Ltac bcall x := apply wpc_call; [done|]; intros x ? Henv; simpl in Henv; try subst.
Ltac bret := apply wpc_ret; [done|].

(** ** Sorted lists of targets *)

#[global] Instance string_le_trans : Transitive string_le.
Proof. intros a b c. unfold string_le. rewrite <- !Is_true_true. apply (transitivity (R := String.le)). Qed.
#[global] Instance string_le_total : Total string_le.
Proof. intros a b. apply String.leb_total. Qed.

Definition ordered (l : list string) : Prop := StronglySorted string_le l.

Lemma ordered_lookup l i j a b :
  ordered l → l !! i = Some a → l !! j = Some b → (i < j)%nat → string_le a b.
Proof.
  intros Hs. revert i j. induction Hs as [|x l Hs IH Hx]; intros i j Ha Hb Hij; [done|].
  rewrite Forall_forall in Hx. destruct i as [|i], j as [|j]; simpl in *; try lia.
  - injection Ha as <-. apply Hx. by eapply list_elem_of_lookup_2.
  - eapply IH; eauto. lia.
Qed.

Lemma not_ltb_le a b : str_ltb a b = false → string_le b a.
Proof.
  intros H. destruct (String.leb_total a b) as [Hl|Hl]; [|done].
  destruct (decide (a = b)) as [->|Hne]; [done|].
  assert (str_ltb a b = true) by by apply str_ltb_le. congruence.
Qed.

Lemma ltb_irrefl_le a b : str_ltb a b = true → string_le b a → False.
Proof. intros [H1 H2]%str_ltb_le H3. apply H2. by apply String.leb_antisym. Qed.

(** The search keeps every element before [i] below the target and none from [j]. *)
Lemma search_strings_spec fuel l x i j :
  ordered l → (i ≤ j ≤ length l)%nat → (j - i ≤ fuel)%nat →
  (∀ n a, l !! n = Some a → (n < i)%nat → str_ltb a x = true) →
  (∀ n a, l !! n = Some a → (j ≤ n)%nat → str_ltb a x = false) →
  let k := search_strings fuel l x i j in
  (∀ n a, l !! n = Some a → (n < k)%nat → str_ltb a x = true)
  ∧ (∀ n a, l !! n = Some a → (k ≤ n)%nat → str_ltb a x = false).
Proof.
  intros Hs. revert i j. induction fuel as [|fuel IH]; intros i j Hij Hf Hlo Hhi; cbn [search_strings].
  { split; [done|]. intros n a Hn Hk. apply (Hhi n); [done|lia]. }
  destruct (Nat.ltb_spec i j) as [Hlt|Hge]; [|split; [done|intros n a Hn Hk; apply (Hhi n); [done|lia]]].
  pose proof (Nat.div_mod_eq (i + j) 2) as Hd. pose proof (Nat.mod_upper_bound (i + j) 2) as Hm.
  set (h := ((i + j) / 2)%nat) in *. assert (Hh : (i ≤ h < j)%nat) by lia.
  destruct (lookup_lt_is_Some_2 l h) as [y Hy]; [lia|]. rewrite Hy.
  change (default "" (Some y)) with y. destruct (str_ltb y x) eqn:E.
  - apply IH; [lia|lia| |done]. intros n a Hn Hk. destruct (decide (n < h)%nat) as [Hnh|].
    + destruct (str_ltb a x) eqn:Ea; [done|]. exfalso. eapply (ltb_irrefl_le y x E).
      etransitivity; [by apply not_ltb_le|]. by eapply ordered_lookup.
    + assert (n = h) by lia. congruence.
  - apply IH; [lia|lia|done|]. intros n a Hn Hk. destruct (decide (n = h)) as [->|]; [congruence|].
    destruct (str_ltb a x) eqn:Ea; [|done]. exfalso. eapply (ltb_irrefl_le a x Ea).
    etransitivity; [by apply not_ltb_le|]. eapply (ordered_lookup l h n); eauto. lia.
Qed.

(** On ordered lists the binary search decides membership. *)
Lemma containsTarget_elem l x : ordered l → containsTarget l x = bool_decide (x ∈ l).
Proof.
  intros Hs. unfold containsTarget.
  destruct (search_strings_spec (length l) l x 0 (length l)) as [Hlo Hhi]; try done; try lia.
  { intros n a Hn Hk. apply lookup_lt_Some in Hn. lia. }
  set (k := search_strings _ _ _ _ _) in *. apply bool_decide_ext. split; [by apply list_elem_of_lookup_2|].
  intros [n Hn]%list_elem_of_lookup.
  assert (Hx : str_ltb x x = false).
  { destruct (str_ltb x x) eqn:E; [|done]. exfalso. eapply ltb_irrefl_le; [exact E|].
    apply (not_ltb_le x x). destruct (str_ltb x x) eqn:E'; [|done]. by apply str_ltb_le in E' as [_ []]. }
  assert (Hkn : (k ≤ n)%nat).
  { destruct (decide (k ≤ n)%nat); [done|]. specialize (Hlo n x Hn ltac:(lia)). congruence. }
  destruct (decide (k = n)) as [->|]; [done|].
  destruct (lookup_lt_is_Some_2 l k) as [y Hy]; [apply lookup_lt_Some in Hn; lia|].
  pose proof (ordered_lookup l k n y x Hs Hy Hn ltac:(lia)) as Hle.
  specialize (Hhi k y Hy (le_n _)). apply not_ltb_le in Hhi. rewrite Hy. f_equal. by apply String.leb_antisym.
Qed.

(** ** The invariant *)

(** [h] points to the live reservation [r]. *)
Definition held (b : brokerState) (h : nat) (r : reservation) : Prop :=
  bs_live b !! rs_nonce r = Some h ∧ bs_heap b !! h = Some r.

(** Two actions on one target or one container. *)
Definition overlap (k k' : Key) : Prop :=
  k_TargetID k = k_TargetID k'
  ∨ (md_EngineGeneration (k_Metadata k) = md_EngineGeneration (k_Metadata k')
     ∧ md_ContainerID (k_Metadata k) = md_ContainerID (k_Metadata k')).

Record binv (b : brokerState) : Prop := {
  bi_policy : validatePolicy (bs_policy b) = true;
  bi_live : ∀ n h, bs_live b !! n = Some h → ∃ r, bs_heap b !! h = Some r ∧ rs_nonce r = n;
  bi_fresh : ∀ h r, bs_heap b !! h = Some r → (h < bs_next b)%nat;
  bi_few : (size (bs_live b) ≤ 2)%nat;
  bi_targets : ∀ h r, bs_heap b !! h = Some r → ordered (rs_targets r);
  bi_bound : ∀ h r x, bs_heap b !! h = Some r → rs_bound r = Some x →
    rs_claimTried r = true ∧ ∃ req, resolveReceipt (bs_policy b) req true = Some x;
  bi_apart : ∀ h h' r r' x x', held b h r → held b h' r' → h ≠ h' →
    rs_bound r = Some x → rs_bound r' = Some x' → ¬ overlap (rb_key x) (rb_key x') }.

Lemma owned_held b h h' r : owned_reservation b h = Some (h', r) ↔ h = Some h' ∧ held b h' r.
Proof.
  unfold owned_reservation, held. split.
  - destruct h as [h|]; [|done]. destruct (bs_heap b !! h) as [r'|] eqn:Hh; [|done].
    case_bool_decide; [|done]. by intros [= <- <-].
  - intros (-> & Hl & ->). by rewrite bool_decide_true.
Qed.

Lemma elem_of_live_list b h r :
  binv b → (h, r) ∈ live_list b ↔ held b h r.
Proof.
  intros Hb. unfold live_list, held. rewrite list_elem_of_omap. split.
  - intros (h' & Hin & Hh). apply list_elem_of_fmap in Hin as ([n h''] & -> & Hn%elem_of_map_to_list). simpl in *.
    destruct (bs_heap b !! h'') as [r'|] eqn:Hr; [|done]. injection Hh as <- <-.
    destruct (bi_live b Hb n h'' Hn) as (r & ? & ?). by simplify_eq.
  - intros [Hl Hh]. exists h. rewrite Hh. split; [|done]. apply list_elem_of_fmap.
    exists (rs_nonce r, h). split; [done|]. by apply elem_of_map_to_list.
Qed.

Lemma physicalMatch_iff k m :
  physicalMatch k m = true ↔
  k_TargetID k = m_TargetID m
  ∨ (md_EngineGeneration (k_Metadata k) = m_EngineGeneration m ∧ md_ContainerID (k_Metadata k) = m_ContainerID m).
Proof. unfold physicalMatch. by rewrite orb_true_iff, andb_true_iff, !str_eqb_eq. Qed.

(** The key of a mapping's resolution overlaps what its mapping matches. *)
Lemma match_overlap p r m m' k :
  policy_ok p → m ∈ mappings_of p → m' ∈ mappings_of p → m_TargetID m' = m_TargetID m → approved_by r m →
  physicalMatch k m' = true ↔ overlap k (key_of r m).
Proof.
  intros Hp Hm Hm' Ht Ha. rewrite physicalMatch_iff. unfold overlap, key_of. simpl.
  destruct (same_target_same_container p m' m Hp Hm' Hm Ht) as [-> ->]. by rewrite Ht, (ab_target _ _ Ha).
Qed.

Lemma eligible_ordered b s except : ordered (eligible b s except).
Proof. apply (StronglySorted_merge_sort string_le). Qed.

Lemma elem_of_eligible b s except x :
  x ∈ eligible b s except ↔
  ∃ m, current_mapping (bs_policy b) m ∧ blocked b s except m = false ∧ m_TargetID m = x.
Proof.
  unfold eligible. rewrite (merge_sort_Permutation string_le), elem_of_elements, elem_of_list_to_set, list_elem_of_fmap.
  setoid_rewrite list_elem_of_filter. setoid_rewrite andb_true_iff. setoid_rewrite negb_true_iff.
  setoid_rewrite bool_decide_eq_true. unfold current_mapping. naive_solver.
Qed.

Lemma not_blocked b s except m :
  blocked b s except m = false →
  (∀ h r x, (h, r) ∈ live_list b → Some h ≠ except → rs_bound r = Some x → physicalMatch (rb_key x) m = false)
  ∧ (∀ record, record ∈ sn_Records s → physicalMatch (ad_Key record) m = true →
       record_blocks (sn_ObservedAt s) record = false).
Proof.
  unfold blocked. intros [H1 H2]%orb_false_iff. split.
  - intros h r x Hin Hne Hx. destruct (physicalMatch _ _) eqn:E; [|done].
    assert (existsb (λ x0, negb (bool_decide (Some x0.1 = except)) && match rs_bound x0.2 with
      | Some bound => physicalMatch (rb_key bound) m | None => false end) (live_list b) = true); [|congruence].
    apply existsb_exists. exists (h, r). split; [by apply list_elem_of_In|]. simpl. rewrite Hx, E, bool_decide_false; done.
  - intros record Hin Hm. destruct (record_blocks _ _) eqn:E; [|done].
    assert (existsb (λ record, physicalMatch (ad_Key record) m && record_blocks (sn_ObservedAt s) record)
      (sn_Records s) = true); [|congruence].
    apply existsb_exists. exists record. split; [by apply list_elem_of_In|]. by rewrite Hm, E.
Qed.

(** ** Critical sections *)

Lemma require_false b : require_recovery b false = b.
Proof. destruct b. unfold require_recovery. simpl. by rewrite orb_false_r. Qed.

(** What a granted snapshot says. *)
Record cleared (b : brokerState) (s : Admission) : Prop := {
  cd_required : bs_recoveryRequired b = false;
  cd_binding : sn_Binding s = policy_binding (bs_policy b);
  cd_owned : ∀ record, record ∈ sn_Records s → unsettled record = true →
    k_ActionID (ad_Key record) ∈ owned_actions b }.

Lemma snapshot_wp b Q w :
  (∀ x e a, Q (require_recovery b x, Err e) a) →
  (∀ s, cleared b s → Q (b, Ok s) (Some s)) →
  bwp (snapshot b) Q w.
Proof.
  intros Herr Hok. assert (Herr0 : ∀ e a, Q (b, Err e) a).
  { intros e a. rewrite <- (require_false b). apply Herr. }
  unfold snapshot. bcall a. destruct a as [s|]; [|by bret].
  destruct (negb _) eqn:Hs; [by bret|]. cbv zeta. set (x := existsb _ _).
  destruct (bs_recoveryRequired (require_recovery b x)) eqn:Hr; bret; [done|].
  simpl in Hr. apply orb_false_iff in Hr as [Hr Hx]. rewrite Hx, require_false. apply Hok. bools.
  split; [done|done|]. intros record Hin Hu. subst x.
  destruct (decide (k_ActionID (ad_Key record) ∈ owned_actions b)) as [|Hn]; [done|]. exfalso.
  assert (existsb (λ record, unsettled record && negb (bool_decide (k_ActionID (ad_Key record) ∈ owned_actions b)))
    (sn_Records s) = true); [|congruence].
  apply existsb_exists. exists record. split; [by apply list_elem_of_In|]. by rewrite Hu, bool_decide_false.
Qed.

(** What every critical section keeps. *)
Record keeps (b b' : brokerState) : Prop := {
  kp_inv : binv b';
  kp_policy : bs_policy b' = bs_policy b;
  kp_recovery : bs_recoveryRequired b = true → bs_recoveryRequired b' = true;
  kp_quiescing : bs_quiescing b = true → bs_quiescing b' = true;
  kp_next : (bs_next b ≤ bs_next b')%nat }.

Lemma keeps_refl b : binv b → keeps b b.
Proof. intros. by split. Qed.

Lemma keeps_trans b1 b2 b3 : keeps b1 b2 → keeps b2 b3 → keeps b1 b3.
Proof. intros [] []. split; try done; [congruence|auto..|lia]. Qed.

(** [binv] speaks of the policy, the reservations and the allocation counter. *)
Lemma keeps_same b b' :
  binv b → bs_policy b' = bs_policy b → bs_live b' = bs_live b → bs_heap b' = bs_heap b →
  (bs_next b ≤ bs_next b')%nat → (bs_recoveryRequired b = true → bs_recoveryRequired b' = true) →
  (bs_quiescing b = true → bs_quiescing b' = true) → keeps b b'.
Proof.
  intros [] Hp Hl Hh Hn Hr Hq. split; try done. unfold held in *.
  split; unfold held; rewrite ?Hp, ?Hl, ?Hh; try done. intros h r Hr'. specialize (bi_fresh0 h r Hr'). lia.
Qed.

Lemma keeps_require b x : binv b → keeps b (require_recovery b x).
Proof. intros. apply keeps_same; try done. simpl. by intros ->. Qed.

Lemma keeps_delete b n : binv b → keeps b (set_live b (delete n (bs_live b)) (bs_heap b) (bs_next b)).
Proof.
  intros [? Hlive ? ? ? ? Hap]. split; try done. split; simpl; try done.
  - intros n' h [_ Hn]%lookup_delete_Some. eauto.
  - pose proof (map_size_delete n (bs_live b)) as Hsz. destruct (bs_live b !! n); simpl in *; lia.
  - intros h h' r r' x x' [H1 H1'] [H2 H2']. simpl in *.
    apply lookup_delete_Some in H1 as [_ H1], H2 as [_ H2]. apply (Hap h h' r r' x x'); by split.
Qed.

(** Changing a reservation without binding it. *)
Lemma keeps_update b h r r' :
  binv b → held b h r → rs_nonce r' = rs_nonce r → rs_targets r' = rs_targets r → rs_bound r' = rs_bound r →
  (rs_claimTried r = true → rs_claimTried r' = true) → keeps b (set_reservation b h r').
Proof.
  intros [? Hlive Hfr ? Htg Hbd Hap] [Hl Hh] Hn Ht Hb Hc. split; try done. split; simpl; try done.
  - intros n h' Hn'. destruct (decide (h = h')) as [<-|].
    + rewrite lookup_insert_eq. exists r'. destruct (Hlive n h Hn') as (r0 & ? & ?). simplify_eq. by rewrite Hn.
    + rewrite lookup_insert_ne by done. eauto.
  - intros h' r0. destruct (decide (h = h')) as [<-|]; [rewrite lookup_insert_eq; intros _; eauto|].
    rewrite lookup_insert_ne by done. eauto.
  - intros h' r0. destruct (decide (h = h')) as [<-|]; [rewrite lookup_insert_eq; intros [= <-]; rewrite Ht; eauto|].
    rewrite lookup_insert_ne by done. eauto.
  - intros h' r0 x. destruct (decide (h = h')) as [<-|].
    + rewrite lookup_insert_eq. intros [= <-]. rewrite Hb. intros Hx. destruct (Hbd h r x Hh Hx). auto.
    + rewrite lookup_insert_ne by done. eauto.
  - assert (Hold : ∀ h' r0, held (set_reservation b h r') h' r0 →
      ∃ r1, held b h' r1 ∧ rs_bound r1 = rs_bound r0).
    { intros h' r0 [Hl0 Hh0]. simpl in *. destruct (decide (h = h')) as [<-|].
      - rewrite lookup_insert_eq in Hh0. injection Hh0 as <-. exists r. by split.
      - rewrite lookup_insert_ne in Hh0 by done. by exists r0. }
    intros h1 h2 r1 r2 x1 x2 (r1' & ? & E1)%Hold (r2' & ? & E2)%Hold ? ? ?.
    apply (Hap h1 h2 r1' r2'); congruence.
Qed.

(** Binding a reservation to work no other live one overlaps. *)
Lemma keeps_bind b h r x req :
  binv b → held b h r → rs_claimTried r = true → resolveReceipt (bs_policy b) req true = Some x →
  (∀ h' r' x', held b h' r' → h' ≠ h → rs_bound r' = Some x' → ¬ overlap (rb_key x') (rb_key x)) →
  keeps b (set_reservation b h (bind_to r x)).
Proof.
  intros [? Hlive Hfr ? Htg Hbd Hap] [Hl Hh] Hc Hx Hno. split; try done. split; simpl; try done.
  - intros n h' Hn'. destruct (decide (h = h')) as [<-|].
    + rewrite lookup_insert_eq. eexists. split; [done|]. destruct (Hlive n h Hn') as (r0 & ? & ?). by simplify_eq.
    + rewrite lookup_insert_ne by done. eauto.
  - intros h' r0. destruct (decide (h = h')) as [<-|]; [rewrite lookup_insert_eq; intros _; eauto|].
    rewrite lookup_insert_ne by done. eauto.
  - intros h' r0. destruct (decide (h = h')) as [<-|]; [rewrite lookup_insert_eq; intros [= <-]; apply (Htg h r Hh)|].
    rewrite lookup_insert_ne by done. eauto.
  - intros h' r0 x'. destruct (decide (h = h')) as [<-|].
    + rewrite lookup_insert_eq. intros [= <-] [= <-]. eauto.
    + rewrite lookup_insert_ne by done. eauto.
  - assert (Hsym : ∀ k k', overlap k k' → overlap k' k) by (unfold overlap; naive_solver).
    assert (Hold : ∀ h' r0, held (set_reservation b h (bind_to r x)) h' r0 →
      (h' = h ∧ rs_bound r0 = Some x) ∨ (h' ≠ h ∧ held b h' r0)).
    { intros h' r0 [Hl0 Hh0]. simpl in *. destruct (decide (h = h')) as [<-|].
      - rewrite lookup_insert_eq in Hh0. injection Hh0 as <-. by left.
      - rewrite lookup_insert_ne in Hh0 by done. right. by split. }
    intros h1 h2 r1 r2 x1 x2 [[-> E1]|[N1 E1]]%Hold [[-> E2]|[N2 E2]]%Hold Hne B1 B2.
    + done.
    + assert (x1 = x) as -> by congruence. intros Ho%Hsym. by apply (Hno h2 r2 x2).
    + assert (x2 = x) as -> by congruence. by apply (Hno h1 r1 x1).
    + by apply (Hap h1 h2 r1 r2).
Qed.

(** Reservations other than [h] are untouched. *)
Definition others (b b' : brokerState) (h : nat) : Prop := ∀ h' r, h' ≠ h → held b h' r ↔ held b' h' r.

Lemma others_refl b h : others b b h.
Proof. done. Qed.

Lemma others_trans b1 b2 b3 h : others b1 b2 h → others b2 b3 h → others b1 b3 h.
Proof. intros H1 H2 h' r Hn. by rewrite (H1 h' r Hn), (H2 h' r Hn). Qed.

Lemma others_update b h r : others b (set_reservation b h r) h.
Proof. intros h' r' Hn. unfold held. simpl. by rewrite lookup_insert_ne. Qed.

Lemma others_delete b h r :
  binv b → held b h r → others b (set_live b (delete (rs_nonce r) (bs_live b)) (bs_heap b) (bs_next b)) h.
Proof.
  intros Hb [Hl Hh] h' r' Hn. unfold held. simpl. rewrite lookup_delete_Some. split; [|tauto].
  intros [Hl' Hh']. split; [split; [|done]|done]. intros Heq. congruence.
Qed.

Lemma held_update b h r r' : held b h r → rs_nonce r' = rs_nonce r → held (set_reservation b h r') h r'.
Proof. intros [Hl Hh] Hn. unfold held. simpl. by rewrite lookup_insert_eq, Hn. Qed.

Lemma freshNonce_wp b Q w :
  Q None w → (∀ n, bs_live b !! n = None → Q (Some n) w) → bwp (freshNonce b) Q w.
Proof.
  intros Hnone Hsome. unfold freshNonce. bcall a. destruct Henv as [-> _]. destruct a as [bytes|]; [|by bret].
  destruct (str_eqb bytes _); [by bret|]. cbv zeta. destruct (_ || _) eqn:E; bret; [done|].
  apply orb_false_iff in E as [E _]. apply Hsome. apply eq_None_not_Some. by bools.
Qed.

Lemma begin_wp b Q w : (∀ c, Q c w) → bwp (begin_conversation b) Q w.
Proof. intros H. unfold begin_conversation. bcall a. by bret. Qed.

Lemma closed_wp b Q w :
  (∀ c, (bs_quiescing b = true → c = true) → Q c w) → bwp (if bs_quiescing b then Ret true else perform BClosed) Q w.
Proof.
  intros H. destruct (bs_quiescing b); [bret; by apply H|]. bcall a. bret. by apply H.
Qed.

Lemma check_delivery_wp c Q w : (∀ x, Q x w) → bwp (check_delivery c) Q w.
Proof. intros H. unfold check_delivery. bcall a1. bcall a2. bcall a3. by bret. Qed.

(** The outcome of [reserve]. *)
Definition reserve_post (b : brokerState) (out : brokerState * result BError nat) (w : option Admission) : Prop :=
  keeps b out.1
  ∧ match out.2 with
    | Err _ => bs_live out.1 = bs_live b ∧ bs_heap out.1 = bs_heap b
    | Ok h =>
        bs_quiescing b = false
        ∧ ∃ s r, w = Some s ∧ cleared b s ∧ h = bs_next b ∧ held out.1 h r ∧ others b out.1 h
          ∧ rs_bound r = None ∧ rs_claimTried r = false ∧ rs_policyHead r = p_Revision (bs_policy b)
          ∧ rs_targets r = eligible b s None ∧ rs_targets r ≠ []
    end.

Lemma reserve_spec b w : binv b → bwp (reserve b) (reserve_post b) w.
Proof.
  intros Hb. unfold reserve. apply wpc_bind, closed_wp. intros [] Hq.
  { bret. split; [by apply keeps_refl|done]. }
  assert (Hre : ∀ b0, bs_policy b0 = bs_policy b → bs_live b0 = bs_live b → bs_heap b0 = bs_heap b → bs_next b0 = bs_next b →
    (bs_recoveryRequired b = true → bs_recoveryRequired b0 = true) → (bs_quiescing b = true → bs_quiescing b0 = true) →
    ∀ e u, reserve_post b (b0, Err e) u) by (intros; split; simpl; [apply keeps_same; (done || lia)|done]).
  destruct (policyEntries _) as [[es digest]|]; [|bret; by apply Hre].
  destruct (_ || _); [bret; by apply Hre|]. apply wpc_bind, snapshot_wp.
  { intros x e a. bret. apply Hre; try done. simpl. by intros ->. }
  intros s Hs. destruct (2 <=? size (bs_live b))%nat eqn:Hsz; [bret; by apply Hre|].
  destruct (1000 <=? _); [bret; by apply Hre|]. case_bool_decide as Ht; [bret; by apply Hre|].
  apply wpc_bind, begin_wp. intros [c|]; [|bret; by apply Hre].
  apply wpc_bind, freshNonce_wp; [bret; by apply Hre|]. intros n Hn. bret. apply Nat.leb_gt in Hsz.
  set (r := MkReservation n _ _ _ _ _). set (h := bs_next b).
  assert (Hfresh : bs_heap b !! h = None).
  { destruct (bs_heap b !! h) as [r0|] eqn:E; [|done]. pose proof (bi_fresh b Hb h r0 E). lia. }
  assert (Hoth : others b (set_live b (<[n := h]> (bs_live b)) (<[h := r]> (bs_heap b)) (S h)) h).
  { intros h' r' Hne. unfold held. simpl. rewrite (lookup_insert_ne (bs_heap b)) by done. split.
    - intros [Hl Hh]. split; [|done]. rewrite lookup_insert_ne; [done|]. congruence.
    - intros [Hl Hh]. split; [|done]. destruct (decide (n = rs_nonce r')) as [->|].
      + rewrite lookup_insert_eq in Hl. congruence.
      + by rewrite lookup_insert_ne in Hl. }
  split.
  2:{ split; [destruct (bs_quiescing b); [by rewrite Hq|done]|]. exists s, r.
      repeat (split; [done|]). split; [by split; simpl; rewrite lookup_insert_eq|]. done. }
  split; simpl; try done; [|lia]. destruct Hb as [? Hlive Hfr ? Htg Hbd Hap]. split; simpl; try done.
  - intros n' h'. destruct (decide (n = n')) as [<-|].
    + rewrite lookup_insert_eq. intros [= <-]. rewrite lookup_insert_eq. by exists r.
    + rewrite lookup_insert_ne by done. intros Hl. destruct (Hlive n' h' Hl) as (r0 & Hr0 & ?). exists r0.
      rewrite lookup_insert_ne; [done|]. congruence.
  - intros h' r'. destruct (decide (h = h')) as [<-|]; [rewrite lookup_insert_eq; lia|].
    rewrite lookup_insert_ne by done. intros Hr%Hfr. lia.
  - rewrite map_size_insert_None by done. lia.
  - intros h' r'. destruct (decide (h = h')) as [<-|]; [rewrite lookup_insert_eq; intros [= <-]; apply eligible_ordered|].
    rewrite lookup_insert_ne by done. eauto.
  - intros h' r' x. destruct (decide (h = h')) as [<-|]; [rewrite lookup_insert_eq; by intros [= <-]|].
    rewrite lookup_insert_ne by done. eauto.
  - intros h1 h2 r1 r2 x1 x2 H1 H2 Hne B1 B2.
    assert (Hb' : ∀ h' r' x', held (set_live b (<[n := h]> (bs_live b)) (<[h := r]> (bs_heap b)) (S h)) h' r' →
      rs_bound r' = Some x' → held b h' r').
    { intros h' r' x' Hh' Hx'. destruct (decide (h' = h)) as [->|]; [|by apply Hoth].
      destruct Hh' as [_ Hh']. simpl in Hh'. rewrite lookup_insert_eq in Hh'. by simplify_eq. }
    by apply (Hap h1 h2 r1 r2 x1 x2); eauto.
Qed.

(** ** Binding a claim *)

Lemma AcceptClaim_accepts c read claim rtt container c' ex :
  AcceptClaim c read claim rtt container = (c', Some ex) →
  ActionBudget.cl_valid claim = true
  ∧ ActionBudget.cl_digest claim = Some (ActionBudget.g_digest (ActionBudget.ex_guard ex))
  ∧ ActionBudget.g_actionID (ActionBudget.ex_guard ex) = ActionBudget.cl_actionID claim
  ∧ ActionBudget.g_containerID (ActionBudget.ex_guard ex) = container
  ∧ ActionBudget.g_operation (ActionBudget.ex_guard ex) = ActionBudget.cl_operation claim.
Proof.
  unfold AcceptClaim. destruct (ActionBudget.cv_used c); [done|]. cbv zeta.
  destruct (ActionBudget.Capture _ _) as [now|]; [|done]. destruct (ActionBudget.cl_claimed claim); [|done].
  destruct (_ || _) eqn:E; [done|]. destruct (ActionBudget.cl_digest claim) as [d|]; [|done].
  match goal with |- (if ?x then _ else _) = _ → _ => destruct x; [done|] end.
  intros [= <- <-]. bools. done.
Qed.

(** What a bound claim stands on: the reservation [r] it came through, the journal
    snapshot [s] it was checked against and the mapping [m] that approves it. *)
Record granted (b : brokerState) (h : nat) (claim : Claim) (x : resolvedBinding) (ex : Execution)
    (r : reservation) (s : Admission) (m : mappingDocument) : Prop := {
  gt_held : held b h r;
  gt_first : rs_claimTried r = false;
  gt_open : bs_recoveryRequired b = false ∧ bs_quiescing b = false;
  gt_binding : sn_Binding s = policy_binding (bs_policy b);
  gt_settled : ∀ record, record ∈ sn_Records s → unsettled record = true →
    ∃ h' r' x', held b h' r' ∧ h' ≠ h ∧ rs_bound r' = Some x' ∧ k_ActionID (rb_key x') = k_ActionID (ad_Key record);
  gt_new : ∀ record, record ∈ sn_Records s → k_ActionID (ad_Key record) ≠ rr_ActionID (cm_Request claim);
  gt_unfenced : ∀ record, record ∈ sn_Records s → overlap (ad_Key record) (rb_key x) →
    record_blocks (sn_ObservedAt s) record = false;
  gt_alone : ∀ h' r' x', held b h' r' → h' ≠ h → rs_bound r' = Some x' → ¬ overlap (rb_key x') (rb_key x);
  gt_current : current_mapping (bs_policy b) m;
  gt_approved : approved_by (cm_Request claim) m;
  gt_resolved : resolves_to (cm_Request claim) m x;
  gt_offered : m_TargetID m ∈ rs_targets r;
  gt_claim : DecodeClaim claim = Some claim;
  gt_action : ActionBudget.g_actionID (ActionBudget.ex_guard ex) = rr_ActionID (cm_Request claim);
  gt_digest : ActionBudget.g_digest (ActionBudget.ex_guard ex) = rb_remoteDigest x;
  gt_container : ActionBudget.g_containerID (ActionBudget.ex_guard ex) = m_ContainerID m;
  gt_operation : ActionBudget.g_operation (ActionBudget.ex_guard ex) = m_Operation m }.

(** A reservation survives, perhaps changed. *)
Definition survives (b b' : brokerState) (h : nat) : Prop :=
  ∀ r, held b h r → ∃ r', held b' h r' ∧ rs_nonce r' = rs_nonce r.

Definition bind_post (b : brokerState) (h : option nat) (claim : Claim)
    (out : brokerState * result BError (boundExecution * Execution * resolvedBinding)) (w : option Admission) : Prop :=
  keeps b out.1
  ∧ (∀ h', h = Some h' → others b out.1 h' ∧ survives b out.1 h')
  ∧ match out.2 with
    | Err _ => True
    | Ok (bound, ex, x) =>
        ∃ h' r s m, h = Some h' ∧ w = Some s ∧ granted b h' claim x ex r s m
          ∧ bound = ActionJournal.MkBound (rb_key x) (rb_remoteDigest x)
          ∧ ∃ r', held out.1 h' r' ∧ rs_bound r' = Some x
    end.

Lemma owned_actions_elem b a :
  binv b → a ∈ owned_actions b ↔ ∃ h r x, held b h r ∧ rs_bound r = Some x ∧ k_ActionID (rb_key x) = a.
Proof.
  intros Hb. unfold owned_actions. rewrite list_elem_of_omap. split.
  - intros ([h r] & Hin%elem_of_live_list & Hx); [|done]. simpl in Hx.
    destruct (rs_bound r) as [x|] eqn:E; [|done]. exists h, r, x. simpl in Hx. by simplify_eq.
  - intros (h & r & x & Hh & Hx & <-). exists (h, r). split; [by apply elem_of_live_list|]. simpl. by rewrite Hx.
Qed.

(** The resolution an eligible target admits meets nothing live or fenced. *)
Lemma eligible_alone b s h req x m :
  binv b → m ∈ mappings_of (bs_policy b) → approved_by req m → resolves_to req m x →
  k_TargetID (rb_key x) ∈ eligible b s (Some h) →
  (∀ record, record ∈ sn_Records s → overlap (ad_Key record) (rb_key x) → record_blocks (sn_ObservedAt s) record = false)
  ∧ (∀ h' r' x', held b h' r' → h' ≠ h → rs_bound r' = Some x' → ¬ overlap (rb_key x') (rb_key x)).
Proof.
  intros Hb Hm Ha [Hk _ _ _] (m' & [Hm' _] & Hnb & Ht)%elem_of_eligible.
  pose proof (validatePolicy_ok _ (bi_policy b Hb)) as Hp.
  assert (Ht' : m_TargetID m' = m_TargetID m) by (rewrite Ht, Hk; symmetry; apply Ha).
  rewrite Hk in *. destruct (not_blocked _ _ _ _ Hnb) as [Hlive Hrec].
  pose proof (λ k, match_overlap _ req m m' k Hp Hm Hm' Ht' Ha) as Hmo. split.
  - intros record Hin Ho. apply Hrec; [done|]. by apply Hmo.
  - intros h' r' x' Hh Hne Hx Ho%Hmo.
    rewrite (Hlive h' r' x') in Ho; [done| |congruence|done]. by apply elem_of_live_list.
Qed.

(** The checks of [bindClaim] establish the grant. *)
Lemma bind_grants b h r claim x s read rtt c' ex :
  let b1 := set_reservation b h (try_claim r) in
  binv b → held b h r → rs_claimTried r = false → bs_quiescing b = false → cleared b1 s →
  existsb (λ record, str_eqb (k_ActionID (ad_Key record)) (rr_ActionID (cm_Request claim))) (sn_Records s) = false →
  resolveReceipt (bs_policy b) (cm_Request claim) true = Some x →
  containsTarget (rs_targets r) (k_TargetID (rb_key x)) = true →
  containsTarget (eligible b1 s (Some h)) (k_TargetID (rb_key x)) = true →
  AcceptClaim (rs_conversation r) read (claim_view claim) rtt (ActionCore.b_ContainerID (rb_binding x)) = (c', Some ex) →
  ∃ m, granted b h claim x ex r s m.
Proof.
  intros b1 Hb Hh Htried Hq Hs Hnew Hres Ht1 Ht2 Hacc.
  assert (Hk1 : keeps b b1) by by eapply (keeps_update b h r). pose proof (kp_inv _ _ Hk1) as Hb1.
  assert (Hot1 : others b b1 h) by apply others_update.
  assert (Hun : rs_bound r = None).
  { destruct (rs_bound r) as [x'|] eqn:E; [|done]. destruct Hh as [_ Hh].
    destruct (bi_bound b Hb h r x' Hh E). congruence. }
  destruct (resolveReceipt_inv _ _ _ _ Hres) as (_ & _ & _ & m & Hm & Ha & Hc & Hrt).
  assert (ordered (rs_targets r)) by (destruct Hh as [_ Hh]; exact (bi_targets b Hb h r Hh)).
  rewrite containsTarget_elem in Ht1 by done. rewrite containsTarget_elem in Ht2 by apply eligible_ordered. bools.
  destruct (eligible_alone b1 s h (cm_Request claim) x m) as [Hrec Hal]; try done.
  apply AcceptClaim_accepts in Hacc as (Hv & Hd & Hact & Hcon & Hop). simpl in Hv, Hd, Hact, Hop. bools.
  exists m. destruct Hs as [Hreq Hbi Hown], Hrt as [Hkey Hbind Hrev Hdig]. split; try done.
  - intros record Hin Hu. specialize (Hown record Hin Hu). apply owned_actions_elem in Hown; [|done].
    destruct Hown as (h0 & r0 & x0 & Hh0 & Hx0 & Hid).
    destruct (decide (h0 = h)) as [->|Hne].
    + destruct Hh0 as [_ Hh0]. unfold b1 in Hh0. simpl in Hh0. rewrite lookup_insert_eq in Hh0. simplify_eq. simpl in Hx0. congruence.
    + exists h0, r0, x0. by rewrite (Hot1 h0 r0 Hne).
  - intros record Hin Heq. assert (Hx : existsb (λ record, str_eqb (k_ActionID (ad_Key record))
      (rr_ActionID (cm_Request claim))) (sn_Records s) = true); [|congruence].
    apply existsb_exists. exists record. split; [by apply list_elem_of_In|]. by apply str_eqb_eq.
  - intros h0 r0 x0 Hh0 Hne. apply (Hal h0 r0 x0); [|done]. by apply Hot1.
  - split; [done|by apply Hc].
  - rewrite Hkey in Ht1. simpl in Ht1. by rewrite (ab_target _ _ Ha).
  - congruence.
  - by rewrite Hcon, Hbind.
  - rewrite Hop. symmetry. apply Ha.
Qed.

Lemma BindExecution_bound j k digest bound :
  BindExecution j k digest = Some bound → bound = ActionJournal.MkBound k digest.
Proof. unfold BindExecution. cbv zeta. repeat case_match; congruence. Qed.

Lemma bindClaim_spec b h claim rtt w : binv b → bwp (bindClaim b h claim rtt) (bind_post b h claim) w.
Proof.
  intros Hb. unfold bindClaim.
  assert (Hsame : ∀ e u, bind_post b h claim (b, Err e) u).
  { intros e u. split; [by apply keeps_refl|]. split; [|done]. intros h' _. split; [done|]. intros r Hr. by exists r. }
  destruct (owned_reservation b h) as [[h' r]|] eqn:Ho; [|bret; apply Hsame].
  apply owned_held in Ho as [-> Hh]. destruct (_ || _) eqn:E; [bret; apply Hsame|]. bools.
  match goal with H : rs_claimTried r = false |- _ => rename H into Htried end.
  bcall closed. destruct closed; [bret; apply Hsame|]. cbv zeta.
  set (r1 := try_claim r). set (b1 := set_reservation b h' r1).
  assert (Hk1 : keeps b b1) by by eapply (keeps_update b h' r).
  assert (Hh1 : held b1 h' r1) by by eapply held_update.
  assert (Hfail : ∀ b2 r2 e u, keeps b b2 → others b b2 h' → held b2 h' r2 → rs_nonce r2 = rs_nonce r →
    bind_post b (Some h') claim (b2, Err e) u).
  { intros b2 r2 e u Hk Hot Hh2 Hn. split; [done|]. split; [|done]. intros h0 [= <-]. split; [done|].
    intros r0 Hr0. exists r2. split; [done|]. destruct Hh, Hr0. congruence. }
  assert (Hot1 : others b b1 h') by apply others_update.
  pose proof (kp_inv _ _ Hk1) as Hb1.
  apply wpc_bind, snapshot_wp.
  { intros x e a. bret. apply (Hfail _ r1); [|done|done|done].
    eapply keeps_trans; [done|]. by apply keeps_require. }
  intros s Hs. destruct (existsb _ _) eqn:Hnew; [bret; by apply (Hfail _ r1)|].
  destruct (resolveReceipt _ _ _) as [x|] eqn:Hres; [|bret; by apply (Hfail _ r1)].
  destruct (_ || _) eqn:Htg; [bret; by apply (Hfail _ r1)|]. apply orb_false_iff in Htg as [Ht1 Ht2].
  apply wpc_bind, check_delivery_wp. intros []; [|bret; by apply (Hfail _ r1)]. cbn [negb].
  bcall read. destruct (AcceptClaim _ _ _ _ _) as [c' oex] eqn:Hacc. cbv zeta.
  set (r2 := converse r1 c'). set (b2 := set_reservation b1 h' r2).
  assert (Hk2 : keeps b b2) by (eapply keeps_trans; [done|]; by eapply (keeps_update b1 h' r1)).
  assert (Hh2 : held b2 h' r2) by by eapply held_update.
  assert (Hot2 : others b b2 h') by (eapply others_trans; [done|apply others_update]).
  destruct oex as [ex|]; [|bret; by apply (Hfail _ r2)].
  bcall expired. destruct expired; [bret; by apply (Hfail _ r2)|].
  destruct (BindExecution _ _ _) as [bound|] eqn:Hbind; [|bret; by apply (Hfail _ r2)]. bret.
  rewrite negb_false_iff in Ht1, Ht2. apply BindExecution_bound in Hbind.
  destruct (bind_grants b h' r claim x s read rtt c' ex Hb Hh Htried) as [m Hg]; try done.
  assert (Halone : ∀ h0 r0 x0, held b2 h0 r0 → h0 ≠ h' → rs_bound r0 = Some x0 → ¬ overlap (rb_key x0) (rb_key x)).
  { intros h0 r0 x0 Hh0 Hne. apply (gt_alone _ _ _ _ _ _ _ _ Hg h0 r0); [by apply Hot2|done]. }
  assert (Hh3 : held (set_reservation b2 h' (bind_to r2 x)) h' (bind_to r2 x)) by by eapply held_update.
  split; [eapply keeps_trans; [done|]; eapply keeps_bind; try done; apply Hk2|]. split.
  - intros h0 [= <-]. split; [eapply others_trans; [done|apply others_update]|].
    intros r0 Hr0. exists (bind_to r2 x). split; [done|]. simpl. destruct Hh, Hr0. congruence.
  - exists h', r, s, m. split; [done|]. split; [done|]. split; [done|]. split; [done|]. by exists (bind_to r2 x).
Qed.

(** ** Releasing *)

Lemma delete_released b h r :
  binv b → held b h r →
  let b' := set_live b (delete (rs_nonce r) (bs_live b)) (bs_heap b) (bs_next b) in
  others b b' h ∧ ∀ r', ¬ held b' h r'.
Proof.
  intros Hb Hh b'. split; [by apply others_delete|]. intros r' [Hl Hh']. unfold b' in *. simpl in *.
  destruct Hh as [Hl0 Hh0]. apply lookup_delete_Some in Hl as [Hne _]. congruence.
Qed.

Definition release_post (b : brokerState) (h : option nat) (out : brokerState * result BError unit) : Prop :=
  keeps b out.1
  ∧ ∀ h', h = Some h' →
      match out.2 with
      | Ok _ => others b out.1 h' ∧ ∀ r, ¬ held out.1 h' r
      | Err _ => ∀ h0 r, held b h0 r ↔ held out.1 h0 r
      end.

Lemma releaseUnclaimed_spec b h w :
  binv b →
  bwp (releaseUnclaimed b h) (λ out _, release_post b h out
    ∧ (is_ok out.2 = true → ∃ h' r, h = Some h' ∧ held b h' r ∧ rs_claimTried r = false)) w.
Proof.
  intros Hb. unfold releaseUnclaimed.
  assert (Hsame : ∀ e, release_post b h (b, Err e)) by (intros e; split; [by apply keeps_refl|done]).
  destruct (owned_reservation b h) as [[h' r]|] eqn:Ho; [|by bret].
  apply owned_held in Ho as [-> Hh]. destruct (rs_claimTried r) eqn:Ht; [by bret|].
  apply wpc_bind, check_delivery_wp. intros []; [|by bret]. bret. split; [|by eauto].
  split; [by apply keeps_delete|]. intros h0 [= <-]. by apply delete_released.
Qed.

Lemma confirm_true bound records c :
  confirm bound c records = Some true →
  c = true ∨ ∃ x record, bound = Some x ∧ record ∈ records ∧ k_ActionID (ad_Key record) = k_ActionID (rb_key x)
    ∧ ad_Active record = false ∧ IsZero (ad_TerminalAt record) = false.
Proof.
  revert c. induction records as [|record records IH]; intros c; simpl; [intros [= ->]; by left|].
  destruct bound as [x|]; [|intros [?|(x & ? & ? & _)]%IH; [by left|done]].
  destruct (str_eqb _ _) eqn:E; bools.
  - destruct (ad_Active record) eqn:Ea; [done|]. intros [Hz|(x' & rec & ? & ? & ?)]%IH.
    + right. exists x, record. bools. repeat split; try done. by left.
    + right. exists x', rec. split; [done|]. split; [by right|done].
  - intros [?|(x' & rec & ? & ? & ?)]%IH; [by left|]. right. exists x', rec. split; [done|]. split; [by right|done].
Qed.

(** The journal [s] holds a terminal record of the action [r] is bound to. *)
Definition confirmed (s : Admission) (r : reservation) : Prop :=
  ∃ x record, rs_bound r = Some x ∧ record ∈ sn_Records s ∧ k_ActionID (ad_Key record) = k_ActionID (rb_key x)
    ∧ ad_Active record = false ∧ IsZero (ad_TerminalAt record) = false.

Lemma finish_spec b h w :
  binv b →
  bwp (finish b h) (λ out w', release_post b h out
    ∧ (is_ok out.2 = true → ∃ h' r s, h = Some h' ∧ held b h' r ∧ rs_claimTried r = true ∧ w' = Some s
        ∧ (confirmed s r ∨ bs_recoveryRequired out.1 = true))) w.
Proof.
  intros Hb. unfold finish.
  assert (Hsame : ∀ e, release_post b h (b, Err e)) by (intros e; split; [by apply keeps_refl|done]).
  destruct (owned_reservation b h) as [[h' r]|] eqn:Ho; [|by bret].
  apply owned_held in Ho as [-> Hh]. destruct (rs_claimTried r) eqn:Ht; [|by bret]. cbn [negb].
  bcall a. destruct a as [s|].
  2:{ bret. split; [|done]. split; [by apply keeps_require|]. by intros h0 [= <-]. }
  destruct (confirm _ _ _) as [c|] eqn:Hc; [|by bret]. cbv zeta. bret.
  assert (Hk : keeps b (require_recovery b (negb c))) by by apply keeps_require. split.
  - split; [eapply keeps_trans; [done|]; apply keeps_delete, Hk|]. intros h0 [= <-].
    change (held b) with (held (require_recovery b (negb c))) in Hh.
    apply (delete_released (require_recovery b (negb c)) h' r); [apply Hk|done].
  - intros _. exists h', r, s. repeat (split; [done|]). destruct c; [left|right; simpl; by destruct (bs_recoveryRequired b)].
    by apply confirm_true in Hc as [?|?].
Qed.

Lemma abandon_spec b h :
  binv b → keeps b (abandon b h)
  ∧ ∀ h', h = Some h' → others b (abandon b h) h' ∧ (∀ r, ¬ held (abandon b h) h' r)
      ∧ ((∃ r, held b h' r) → bs_recoveryRequired (abandon b h) = true).
Proof.
  intros Hb. unfold abandon. destruct (owned_reservation b h) as [[h' r]|] eqn:Ho.
  - apply owned_held in Ho as [-> Hh]. assert (Hk : keeps b (require_recovery b true)) by by apply keeps_require.
    split; [eapply keeps_trans; [done|]; apply keeps_delete, Hk|]. intros h0 [= <-].
    destruct (delete_released (require_recovery b true) h' r) as [Ho Hn]; [apply Hk|done|].
    split; [done|]. split; [done|]. intros _. simpl. by destruct (bs_recoveryRequired b).
  - split; [by apply keeps_refl|]. intros h' ->. split; [done|].
    assert (Hno : ∀ r, ¬ held b h' r) by (intros r Hr; by rewrite (proj2 (owned_held b (Some h') h' r)) in Ho).
    split; [done|]. by intros [r []%Hno].
Qed.

(** ** Control conversations *)

(** Reservations are not the control conversations' business. *)
Definition untouched (b b' : brokerState) : Prop :=
  keeps b b' ∧ bs_live b' = bs_live b ∧ bs_heap b' = bs_heap b.

Lemma untouched_held b b' h r : untouched b b' → held b h r ↔ held b' h r.
Proof. intros (_ & Hl & Hh). unfold held. by rewrite Hl, Hh. Qed.

Lemma untouched_same b b' :
  binv b → bs_policy b' = bs_policy b → bs_live b' = bs_live b → bs_heap b' = bs_heap b →
  (bs_next b ≤ bs_next b')%nat → (bs_recoveryRequired b = true → bs_recoveryRequired b' = true) →
  (bs_quiescing b = true → bs_quiescing b' = true) → untouched b b'.
Proof. intros. split; [by apply keeps_same|done]. Qed.

Lemma beginControl_spec b w :
  binv b →
  bwp (beginControl b) (λ out w', untouched b out.1
    ∧ match out.2 with
      | Ok c => bs_recoveryRequired b = false ∧ bs_control out.1 = Some c ∧ bs_control b = None
      | Err _ => True
      end) w.
Proof.
  intros Hb. unfold beginControl. apply wpc_bind, closed_wp. intros [] Hq.
  { bret. split; [by apply untouched_same|done]. }
  case_bool_decide as Hc; [bret; split; [by apply untouched_same|done]|].
  apply wpc_bind, snapshot_wp.
  { intros x e a. bret. split; [apply untouched_same; try done; simpl; by intros ->|done]. }
  intros s Hs. destruct (_ <=? _); [bret; split; [by apply untouched_same|done]|].
  destruct (policyEntries _) as [[es d]|]; [|bret; split; [by apply untouched_same|done]].
  apply wpc_bind, freshNonce_wp; [bret; split; [by apply untouched_same|done]|]. intros n _.
  bcall read. destruct (ActionBudget.Capture _ _); [|bret; split; [by apply untouched_same|done]].
  cbv zeta. bret. split; [apply untouched_same; try done; simpl; lia|]. split; [apply Hs|]. split; [done|].
  by destruct (bs_control b); [destruct Hc|].
Qed.

Lemma completeControl_spec b c reply w :
  binv b → bwp (completeControl b c reply) (λ out _, untouched b out.1) w.
Proof.
  intros Hb. unfold completeControl. destruct (is_control b c) as [cc|]; [|bret; by apply untouched_same].
  cbv zeta. set (b1 := set_control _ _ _). assert (Hu : untouched b b1) by by apply untouched_same.
  bcall e1. destruct (_ || _); [by bret|]. bcall cl. destruct (_ || _); [by bret|].
  destruct (policyEntries _) as [[es d]|]; [|by bret]. destruct (sy_Receipt reply) as [rc|]; [|by bret].
  destruct (_ || _); [by bret|]. bcall read. destruct (ActionBudget.Capture _ _); [|by bret].
  destruct (ParseHTTPTime _); [|by bret]. destruct (ActionBudget.ObserveControlTime _ _ _ _); [|by bret].
  bcall e2. destruct e2; bret; [done|]. by apply untouched_same.
Qed.

(** Completing leaves the open publication alone, or it was that one and is closed. *)
Lemma completeControl_closes b c reply w :
  bwp (completeControl b c reply) (λ out _, (bs_control out.1 = bs_control b ∧ out.2 ≠ Ok tt)
    ∨ (bs_control out.1 = None
       ∧ ∃ c0 c', c = Some c0 ∧ bs_control b = Some c' ∧ cc_id c' = cc_id c0)) w.
Proof.
  unfold completeControl. destruct (is_control b c) as [cc|] eqn:Hc; [|bret; by left].
  assert (Hopen : ∃ c0 c', c = Some c0 ∧ bs_control b = Some c' ∧ cc_id c' = cc_id c0).
  { unfold is_control in Hc. destruct c as [c0|], (bs_control b) as [c'|]; try done.
    destruct (cc_id c0 =? cc_id c')%nat eqn:E; [|done]. apply Nat.eqb_eq in E. by exists c0, c'. }
  cbv zeta. bcall e1. destruct (_ || _); [bret; by right|]. bcall cl. destruct (_ || _); [bret; by right|].
  destruct (policyEntries _) as [[es d]|]; [|bret; by right]. destruct (sy_Receipt reply) as [rc|]; [|bret; by right].
  destruct (_ || _); [bret; by right|]. bcall read. destruct (ActionBudget.Capture _ _); [|bret; by right].
  destruct (ParseHTTPTime _); [|bret; by right]. destruct (ActionBudget.ObserveControlTime _ _ _ _); [|bret; by right].
  bcall e2. destruct e2; bret; by right.
Qed.

Lemma cancelControl_spec b c : binv b → untouched b (cancelControl b c).
Proof. intros Hb. unfold cancelControl. destruct (is_control b c); by apply untouched_same. Qed.
