(* ===== verification/ActionBrokerExample.v ===== *)
(** * A broker at work

    One environment for the broker of [ActionPolicy]'s sample policy, and the
    states it passes through: it starts, publishes its policy, reserves, binds a
    claim of the sample receipt and carries it out. *)

From S2P Require Import Prelude GoTime GoText Sha256 Effects ActionReceipt ActionPolicy ActionBroker ActionExecution ActionDispatch ActionBrokerSafety.
From S2P Require ActionCore ActionBudget ActionJournal ActionWorker.

#[local] Open Scope string_scope.
#[local] Open Scope Z_scope.

Module BrokerSample.
Definition claimedAt : string := "2024-02-29T23:59:10.123456Z".
Definition now : time := default (Time 0 InUTC) (ParseHTTPTime claimedAt).
Definition binding : ActionJournal.JBinding := policy_binding PolicySample.policy.
Definition claim : Claim :=
  MkClaimDoc PolicySample.receipt ("hle_" ++ PolicySample.digits32) ("hlac_" ++ PolicySample.digits32) "1"
    claimedAt "2024-03-01T00:01:10.123456Z" "claim-1".

(** An empty journal, a clock that stands still, one nonce, a live context. *)
Definition answer A (e : BCall A) (w : option ActionJournal.Admission) : A * option ActionJournal.Admission :=
  match e in BCall T return T * option ActionJournal.Admission with
  | BAdmission => let s := Some (ActionJournal.MkAdmissionSnapshot binding now []) in (s, s)
  | BRead => (Some (ActionBudget.MkReading now now 1000), w)
  | BRandom => (Some (string_of_bytes (replicate 16 7)), w)
  | BCtxErr => (false, w)
  | BClosed => (false, w)
  | BCurrentFile => (Some PolicySample.policy, w)
  end.

Definition outcome {R} (o : bop R) (b : brokerState) : brokerState * R := (run answer (bop_run o b) None).1.

Definition blank : brokerState := MkBroker binding PolicySample.policy 1 None "" "" "" "" "" None false ∅ ∅ 0 false.
Definition b0 : brokerState := Eval vm_compute in
  match (run answer (newBrokerState PolicySample.policy binding 1) None).1 with Ok b => b | Err _ => blank end.
Definition begun : brokerState * result BError controlConversation := Eval vm_compute in outcome OBeginControl b0.
Definition b1 : brokerState := begun.1.
Definition control : controlConversation :=
  match begun.2 with
  | Ok c => c
  | Err _ => MkControl 0 (MkQuery "" "" "" "" []) "" "" (ActionBudget.MkStamp 1 (ActionBudget.MkReading now now 0))
  end.
Definition reply : SnapshotReply := Eval vm_compute in
  let q := cc_query control in
  let receipt digest := MkSnapshotReceipt (sq_PublicationID q) "9" digest claimedAt "2024-03-01T00:00:10.123456Z" in
  MkReply "OK" (Some (receipt (default "" (SnapshotDigest (sq_ServerID q) (sq_OwnerUserID q)
    (sq_ConnectorInstanceID q) (receipt (hexEncode (Sum256 ""))) (sq_Entries q))))).
Definition b2 : brokerState := Eval vm_compute in (outcome (OComplete control reply) b1).1.
Definition b3 : brokerState := Eval vm_compute in (outcome OReserve b2).1.
(** The reservation's pointer follows the control conversation's. *)
Definition h : nat := 1.
Definition bound : brokerState * result BError (ActionJournal.boundExecution * ActionBudget.Execution * resolvedBinding) :=
  Eval vm_compute in outcome (OBind h claim 0) b3.
Definition b4 : brokerState := bound.1.

(** The states are what the sections lead to. *)
Lemma begun_is : outcome OBeginControl b0 = begun.
Proof. vm_compute. reflexivity. Qed.
Lemma b2_is : (outcome (OComplete control reply) b1).1 = b2.
Proof. vm_compute. reflexivity. Qed.
Lemma b3_is : (outcome OReserve b2).1 = b3.
Proof. vm_compute. reflexivity. Qed.
Lemma bound_is : outcome (OBind h claim 0) b3 = bound.
Proof. vm_compute. reflexivity. Qed.

Lemma answer_env A (e : BCall A) w : broker_env A e w (answer A e w).1 (answer A e w).2.
Proof. destruct e; try done. split; [done|]. intros bytes [= <-]. vm_compute. reflexivity. Qed.

Lemma outcome_exec {R} (o : bop R) b :
  ∃ w w', exec broker_env (bop_run o b) w (Ret ((outcome o b).1, (outcome o b).2)) w'.
Proof. exists None. eexists. rewrite <- surjective_pairing. apply (run_exec broker_env answer). apply answer_env. Qed.

Lemma b0_exec :
  ∃ w w', exec broker_env (newBrokerState PolicySample.policy binding 1) w (Ret (Ok b0)) w'.
Proof.
  exists None. eexists.
  assert (Hb : (run answer (newBrokerState PolicySample.policy binding 1) None).1 = Ok b0) by (vm_compute; reflexivity).
  rewrite <- Hb. apply (run_exec broker_env answer). apply answer_env.
Qed.
End BrokerSample.

(** The reservation is live after [reserve]; the claim is bound. *)
Lemma sample_reserved : is_Some (owned_reservation BrokerSample.b3 (Some BrokerSample.h)).
Proof. apply (bool_decide_eq_true_1 _). vm_compute. reflexivity. Qed.

Lemma sample_bound : is_ok BrokerSample.bound.2 = true.
Proof. vm_compute. reflexivity. Qed.

(** ** The claim is carried out *)

Module DispatchSample.
Import ActionWorker (ActionCall(..), Acquisition(..)).

Definition reading : ActionBudget.reading := ActionBudget.MkReading BrokerSample.now BrokerSample.now 1000.
Definition inv : option acceptedInvocation :=
  match BrokerSample.bound.2 with
  | Ok (journal, execution, resolved) => Some (MkInvocation BrokerSample.h BrokerSample.claim journal execution resolved)
  | Err _ => None
  end.

(** The server permits the challenge it was sent last. *)
Definition permit (g : ghost) : option Envelope :=
  match last (gh_sent g) with
  | Some f =>
      match fr_payload f with
      | PChallenge q =>
          Some (MkEnvelope WorkerVersion "AUTHORITY_REPLY" (fr_nonce f) (fr_ordinal f)
            (PDecision (MkDecision (cr_Request q) (cr_ExecutionLeaseID q) (cr_Checkpoint q) (cr_CheckNonce q)
               ("hlac_" ++ PolicySample.digits32) "1" BrokerSample.claimedAt "PERMITTED")))
      | _ => None
      end
  | None => None
  end.

(** Everything else answers favourably; the container is running. *)
Definition core A (e : ActionCall A) (g : ghost) : A * ghost :=
  match e in ActionCall T return T * ghost with
  | ANow => (BrokerSample.now, g)
  | ACtxErr _ => (false, g)
  | AUntil _ => (None, g)
  | AWithTimeout _ _ => (tt, g)
  | ACheck => (true, g)
  | AAcquire _ => (Acquired, g)
  | AExisting => (ActionCore.NoCode, g)
  | AInspect _ => (Some ActionCore.Running, g)
  | AIntent => (true, MkGhost (gh_sent g) (gh_heard g) (gh_clock g) true (gh_engine g))
  | AEngine op id grace => (true, MkGhost (gh_sent g) (gh_heard g) (gh_clock g) (gh_intent g)
                                    (gh_engine g ++ [MkDispatch op id grace (gh_clock g)]))
  | AFinish _ => (true, g)
  | AClose => (tt, g)
  end.
Definition section A (o : bop A) (g : ghost) : A :=
  match o in bop T return T with
  | OFresh => Some (hexEncode (string_of_bytes (replicate 16 (1 + Z.of_nat (length (gh_sent g))))))
  | OCapture => ActionBudget.Capture 1 (Some reading)
  | OSource _ => true
  | OInvocation _ => true
  | o => (BrokerSample.outcome o BrokerSample.b4).2
  end.
Definition talk A (e : SCall A) (g : ghost) : A * ghost :=
  match e in SCall T return T * ghost with
  | STake o => (section _ o g, g)
  | SWrite kind nonce ordinal p =>
      (true, MkGhost (gh_sent g ++ [MkFrame kind nonce ordinal p]) (gh_heard g) (gh_clock g) (gh_intent g) (gh_engine g))
  | SRead => let a := permit g in
      (a, MkGhost (gh_sent g) (gh_heard g ++ option_list a) (gh_clock g) (gh_intent g) (gh_engine g))
  | SDeliveryContext => (true, g)
  | SClosed => (false, g)
  | SCtxErr => (false, g)
  | SClock => (Some reading, MkGhost (gh_sent g) (gh_heard g) (Some reading) (gh_intent g) (gh_engine g))
  | SCore e => core _ e g
  end.
End DispatchSample.

(** One engine call, for the claimed container. *)
Example sample_dispatch :
  option_map (λ inv, let g := (run DispatchSample.talk (workExecute PolicySample.digits32 inv) silent).2 in
     (length (gh_sent g), (λ x, (dp_op x, dp_container x, dp_grace x)) <$> gh_engine g)) DispatchSample.inv
  = Some (2%nat, [(ActionCore.Stop, PolicySample.digits32 ++ PolicySample.digits32, 10)]).
Proof. vm_compute. reflexivity. Qed.
