(* ===== verification/ActionReports.v ===== *)
(** * Reports of retained outcomes

    A report is what the broker tells the server about an action: [retainedReport]
    reads it from the journal's admission snapshot.  Here the broker and the
    journal are composed: the snapshot is the one the journal's own handler gives,
    at any point of the journal's life. *)

From S2P Require Import Prelude GoTime GoText Sha256 Effects ActionReceipt ActionPolicy ActionBroker ActionBrokerSafety ActionBrokerExample.
From S2P Require ActionCore ActionBudget ActionJournal ActionJournalSafety ActionJournalLife.
Import ActionCore (Code(..), k_ActionID, k_Fingerprint).
Import ActionJournal (Journal, record, rc_key, rc_code, rc_terminal, has_intent, has_terminal, unresolved,
  st_records, st_floor, AdmissionSnapshot, Admission, sn_Records, admission_rows, AdmissionRecord, ad_Key,
  ad_HasIntent, ad_Code, ad_TerminalAt, ad_Active, j_active).
Import ActionJournalSafety (Jdb, db_store, db_tx, journal_env, durable, du_records, evolves, expires, in_records).
Import ActionJournalLife (jlife, born).

#[local] Open Scope string_scope.
#[local] Open Scope Z_scope.

Definition action_of (inv : acceptedInvocation) : string := rr_ActionID (cm_Request (iv_claim inv)).

(** The broker reports [rp] for [inv] out of a snapshot of the journal handle [j]
    over the database [db]. *)
Definition reports (inv : acceptedInvocation) (j : Journal) (db : Jdb) (rp : Report) : Prop :=
  ∃ x1 x2 x3 s db' w,
    exec journal_env (AdmissionSnapshot j x1 x2 x3) db (Ret (Ok s)) db'
    ∧ exec broker_env (retainedReport inv) w (Ret (Ok rp)) (Some s).

(** [rp] says of [inv] what the record [r] holds. *)
Record says (inv : acceptedInvocation) (r : record) (rp : Report) : Prop := {
  sa_fingerprint : k_Fingerprint (rc_key r) = k_Fingerprint (rb_key (iv_resolved inv));
  sa_report : rp = MkReport (cm_Request (iv_claim inv)) (cm_ExecutionLeaseID (iv_claim inv))
                (if has_terminal r then rc_code r else OutcomeUnknown)
                (if has_terminal r then "RETAINED_TERMINAL" else "QUIESCED_INTENT")
                (cm_CorrelationID (iv_claim inv));
  sa_dispatched : has_terminal r = false → has_intent r = true;
  sa_code : resultCode (rr_Operation (cm_Request (iv_claim inv))) (rp_ResultCode rp) = true;
  sa_known : has_terminal r = true → rc_code r ≠ OutcomeUnknown }.

Lemma snapshot_rows j x1 x2 x3 db s db' :
  exec journal_env (AdmissionSnapshot j x1 x2 x3) db (Ret (Ok s)) db' →
  ActionJournal.usable j = true ∧ sn_Records s = admission_rows j (default (db_store db) (db_tx db)).
Proof.
  assert (Hw : wp journal_env (AdmissionSnapshot j x1 x2 x3) (λ r _, ∀ s, r = Ok s →
    ActionJournal.usable j = true ∧ sn_Records s = admission_rows j (default (db_store db) (db_tx db))) db).
  { unfold AdmissionSnapshot. destruct x1; [by bret|]. bcall locked. destruct locked; [|by bret]. cbn [negb].
    destruct (ActionJournal.usable j) eqn:Hu; [|by bret]. cbn [negb]. bcall broken. destruct broken; [by bret|].
    apply wpc_call; [done|]. intros s0 ? [-> ->]. destruct x2; [by bret|].
    apply wpc_call; [done|]. intros t ? [-> _]. destruct x3; bret; [done|]. by intros ? [= <-]. }
  intros Hx. by apply (wpc_return _ _ _ _ _ _ _ Hw Hx).
Qed.

Lemma retained_from inv w rp s :
  exec broker_env (retainedReport inv) w (Ret (Ok rp)) (Some s) → report_of inv (sn_Records s) = Some rp.
Proof.
  assert (Hw : bwp (retainedReport inv) (λ r w', ∀ s, r = Ok rp → w' = Some s → report_of inv (sn_Records s) = Some rp) w).
  { unfold retainedReport. bcall a. destruct a as [s0|]; [|by bret].
    destruct (report_of _ _) eqn:E; bret; [|done]. by intros ? [= ->] [= <-]. }
  intros Hx. by apply (wpc_return _ _ _ _ _ _ _ Hw Hx).
Qed.

Lemma DecodeReport_inv r r' :
  DecodeReport r = Some r' → r' = r
  ∧ resultCode (rr_Operation (rp_Request r)) (rp_ResultCode r) = true
  ∧ (rp_ResultCode r = OutcomeUnknown → rp_EvidenceKind r = "QUIESCED_INTENT").
Proof.
  unfold DecodeReport. destruct (negb _); [done|]. destruct (_ || _) eqn:E; [done|]. intros [= <-].
  apply orb_false_iff in E as [E E4]. apply orb_false_iff in E as [E E3]. apply orb_false_iff in E as [E E2].
  apply negb_false_iff in E2. split; [done|]. split; [done|]. intros Hc.
  rewrite Hc, bool_decide_true in E3 by done. by apply negb_false_iff, str_eqb_eq in E3.
Qed.

(** Which row a report is taken from. *)
Lemma report_of_row inv rows rp :
  report_of inv rows = Some rp →
  ∃ row, row ∈ rows ∧ k_ActionID (ad_Key row) = action_of inv ∧ ad_Active row = false
    ∧ k_Fingerprint (ad_Key row) = k_Fingerprint (rb_key (iv_resolved inv))
    ∧ (IsZero (ad_TerminalAt row) = true → ad_HasIntent row = true ∧ ad_Code row = OutcomeUnknown)
    ∧ DecodeReport (MkReport (cm_Request (iv_claim inv)) (cm_ExecutionLeaseID (iv_claim inv)) (ad_Code row)
        (if IsZero (ad_TerminalAt row) then "QUIESCED_INTENT" else "RETAINED_TERMINAL")
        (cm_CorrelationID (iv_claim inv))) = Some rp.
Proof.
  induction rows as [|row rows IH]; [done|]. cbn [report_of]. cbv zeta.
  destruct (negb (str_eqb _ _)) eqn:Hid.
  { intros (row' & Hin & H)%IH. exists row'. split; [by right|done]. }
  destruct (_ || _) eqn:E; [done|]. intros H. exists row. split; [by left|]. bools.
  split; [done|]. split; [done|]. split; [done|].
  destruct (IsZero (ad_TerminalAt row)); [|done]. destruct (_ || _) eqn:Hi; [done|]. split; [|done].
  intros _. apply orb_false_iff in Hi as [Hi Hc]. by bools.
Qed.

Section reports.
Variable b : ActionJournal.JBinding.

Lemma reports_record inv j db rp :
  jlife b born (Some j, db) → reports inv j db rp →
  ∃ r, st_records (db_store db) !! action_of inv = Some r ∧ j_active j !! action_of inv = None ∧ says inv r rp.
Proof.
  intros Hl (x1 & x2 & x3 & s & db' & w & Hs & Hr). apply (ActionJournalLife.reachable_inv b) in Hl as [Hd Hc].
  simpl in *. destruct (snapshot_rows _ _ _ _ _ _ _ Hs) as [Hu Hrows].
  destruct Hc as [_ Hc]. destruct (Hc Hu) as [Htx _]. rewrite Htx in Hrows. simpl in Hrows.
  apply retained_from in Hr. rewrite Hrows in Hr. apply report_of_row in Hr as (row & Hin & Hid & Ha & Hf & Hz & Hdec).
  unfold admission_rows in Hin. apply list_elem_of_fmap in Hin as (r & -> & Hin). simpl in *.
  apply in_records in Hin as (id & Hid'). destruct (du_records _ _ Hd _ _ Hid') as [Hkey _].
  apply DecodeReport_inv in Hdec as (-> & Hcode & Hunk). simpl in *.
  exists r. split; [congruence|]. split.
  { apply eq_None_not_Some. rewrite <- Hid. by bools. }
  unfold has_terminal, unresolved in *. unfold has_terminal in *.
  destruct (IsZero (rc_terminal r)) eqn:Ez; simpl in *.
  - destruct (Hz eq_refl) as [Hi _]. rewrite Hi in *. simpl in *. split; simpl; try done;
      unfold has_terminal; by rewrite Ez.
  - rewrite andb_false_r in *. split; simpl; try done; unfold has_terminal; rewrite Ez; try done.
    intros _ Hk. by apply Hunk in Hk.
Qed.
End reports.

(** C9: What the broker reports of an action is what the journal retained for exactly
    that action and metadata, once no handle can change it any more: the terminal code,
    which fits the operation and is never "unknown", or "unknown" for a dispatched
    action whose end was not recorded.  A terminal report is never revised: every
    later report of the same invocation, after any operations, crashes and
    reopenings, is the same, unless retention removed the expired record. *)
Theorem reports_are_retained b inv j db rp :
  jlife b born (Some j, db) → reports inv j db rp →
  ∃ r, st_records (db_store db) !! action_of inv = Some r ∧ j_active j !! action_of inv = None ∧ says inv r rp
    ∧ ∀ j' db' rp', has_terminal r = true → jlife b (Some j, db) (Some j', db') → reports inv j' db' rp' →
        rp' = rp ∨ expires r ≤ wall (st_floor (db_store db')).
Proof.
  intros Hl Hr. destruct (reports_record b inv j db rp Hl Hr) as (r & Hin & Hact & Hsays). exists r.
  split; [done|]. split; [done|]. split; [done|]. intros j' db' rp' Ht Hl' Hr'.
  assert (Hl2 : jlife b born (Some j', db')) by by etransitivity.
  destruct (reports_record b inv j' db' rp' Hl2 Hr') as (r' & Hin' & _ & Hsays').
  pose proof (ActionJournalLife.jlife_inv b _ _ (ActionJournalLife.reachable_inv b _ Hl) Hl') as [_ [_ Hkeep _]].
  simpl in Hkeep. destruct (Hkeep _ _ Hin) as [(r1 & Hr1 & Hp)|(_ & He & _)]; [left|by right].
  assert (r1 = r) as -> by by apply Hp. assert (r' = r) as -> by congruence.
  destruct Hsays as [_ -> _ _ _], Hsays' as [_ -> _ _ _]. done.
Qed.

(** ** Witness *)

Import ActionJournalLife.JournalSample.

(** The sample action finishes and its attempt is closed. *)
Module ReportSample.
Definition inv : acceptedInvocation :=
  MkInvocation BrokerSample.h BrokerSample.claim (ActionJournal.MkBound key1 "")
    (ActionBudget.MkExecution (ActionBudget.MkBudget 1 (ActionBudget.MkStamp 1 (ActionBudget.MkReading now now 0)) 0 "" "" "" ActionCore.Stop)
       (ActionCore.MkDelivery now now now) (ActionBudget.MkStamp 1 (ActionBudget.MkReading now now 0)))
    (MkResolved key1 (receipt_binding PolicySample.receipt (PolicySample.mapping "" "" ActionCore.Stop (PolicySample.grace 10) "1")) "1" "").
Definition out := Eval vm_compute in run (ActionJournalLife.healthy now) (ActionJournal.Finish out2.1.1 0 Stopped) out2.2.
Definition j : Journal := ActionJournal.CloseAttempt out.1.1 0.
Definition report : Report :=
  MkReport PolicySample.receipt (cm_ExecutionLeaseID BrokerSample.claim) Stopped "RETAINED_TERMINAL" "claim-1".
Definition s : Admission := ActionJournal.MkAdmissionSnapshot binding (UTC now) (admission_rows j (db_store out.2)).

Lemma out_run : ActionJournalLife.after now (ActionJournalLife.OpFinish 0 Stopped) out2.1.1 out2.2 = out.
Proof. vm_compute. reflexivity. Qed.
Lemma life : jlife binding born (Some j, out.2).
Proof.
  refine (rtc_r _ _ _ (rtc_r _ _ _ life2 (ActionJournalLife.step_op binding _ _ _ _ _ _ _
    (ActionJournalLife.after_op now (ActionJournalLife.OpFinish 0 Stopped) _ _ out None now_in_range out_run eq_refl))) _).
  apply ActionJournalLife.step_close_attempt.
Qed.
Lemma read : exec journal_env (AdmissionSnapshot j false false false) out.2 (Ret (Ok s)) out.2.
Proof.
  exact (run_exec _ _ (AdmissionSnapshot j false false false) out.2
    (ActionJournalLife.healthy_journal_env now now_in_range)).
Qed.
Lemma told : exec broker_env (retainedReport inv) None (Ret (Ok report)) (Some s).
Proof.
  refine (exec_call broker_env _ BAdmission _ None (Some s) (Some s) _ _ eq_refl _). cbv beta iota.
  assert (Hr : report_of inv (sn_Records s) = Some report) by (vm_compute; reflexivity).
  rewrite Hr. constructor.
Qed.
Lemma reported : reports inv j out.2 report.
Proof. exists false, false, false, s, out.2, None. split; [exact read|exact told]. Qed.
End ReportSample.

Lemma reports_are_retained_witness :
  ∃ r, st_records (db_store ReportSample.out.2) !! action_of ReportSample.inv = Some r
    ∧ says ReportSample.inv r ReportSample.report.
Proof.
  destruct (reports_are_retained binding ReportSample.inv ReportSample.j ReportSample.out.2 ReportSample.report
    ReportSample.life ReportSample.reported) as (r & Hr & _ & Hs & _).
  exists r. split; [exact Hr|exact Hs].
Defined.
