(* ===== verification/ActionBrokerLife.v ===== *)
(** * The life of a broker

    Any sequence of critical sections, by any handlers in any order, from a broker
    that started; and what one handler's conversation leaves behind while others
    run theirs. *)

From S2P Require Import Prelude GoTime GoText Sha256 Effects ActionReceipt ActionPolicy ActionPolicySafety ActionResolve ActionBroker ActionBrokerSafety ActionBrokerExample ActionExecution ActionConversation.
From S2P Require ActionCore ActionBudget ActionJournal.
Import ActionCore (Key, k_ActionID).
Import ActionJournal (Admission, sn_Records, ad_Key, ad_TerminalAt, ad_Active).

#[local] Open Scope list_scope.
#[local] Open Scope Z_scope.
#[local] Opaque Sum256 hexEncode.

(** ** Steps *)

(** One critical section, whatever its calls are answered. *)
Definition section {R} (o : bop R) (b : brokerState) (r : R) (b' : brokerState) : Prop :=
  ∃ w w', exec broker_env (bop_run o b) w (Ret (b', r)) w'.

Definition bstep (b b' : brokerState) : Prop := ∃ R (o : bop R) r, section o b r b'.
Definition blife : brokerState → brokerState → Prop := rtc bstep.

Definition started (p : policyDocument) (j : ActionJournal.JBinding) (clock : Z) (b : brokerState) : Prop :=
  ∃ w w', exec broker_env (newBrokerState p j clock) w (Ret (Ok b)) w'.

Lemma wp_true {R} (p : prog BCall R) w : bwp p (λ _ _, True) w.
Proof. revert w. induction p as [r|T e k IH]; intros w; [by bret|]. apply wpc_call; [done|]. intros. apply IH. Qed.

(** A pointer the section was not given is not affected by it. *)
Definition spares {R} (o : bop R) (b b' : brokerState) : Prop :=
  ∀ h r, (h < bs_next b)%nat → op_handle o ≠ Some h → held b h r ↔ held b' h r.

Lemma reading_spec {R} (b : brokerState) (p : prog BCall R) w :
  bwp (reading_of b p) (λ out _, out.1 = b) w.
Proof. unfold reading_of. apply wpc_bind. eapply wpc_mono; [done| |apply wp_true]. intros r w' _. by bret. Qed.

Lemma bop_spec {R} (o : bop R) b w :
  binv b → bwp (bop_run o b) (λ out _, keeps b out.1 ∧ spares o b out.1) w.
Proof.
  intros Hb.
  assert (Hread : ∀ T (o' : bop T) p, bwp (reading_of b p) (λ out : brokerState * T, λ _, keeps b out.1 ∧ spares o' b out.1) w).
  { intros T o' p. eapply wpc_mono; [done| |apply reading_spec]. intros [b' r] w' Heq. simpl in *. subst.
    split; [by apply keeps_refl|done]. }
  assert (Huntouched : ∀ T (o' : bop T) b', untouched b b' → keeps b b' ∧ spares o' b b').
  { intros T o' b' Hu. split; [apply Hu|]. intros h r _ _. by apply untouched_held. }
  destruct o; try apply Hread; simpl.
  - eapply wpc_mono; [done| |by apply reserve_spec]. intros [b' [h|e]] w' [Hk Hr]; simpl in *; (split; [done|]).
    + destruct Hr as (_ & s & r & _ & _ & -> & _ & Hot & _). intros h' r' Hlt _. apply Hot. lia.
    + destruct Hr as [Hl Hh]. apply Huntouched. by split.
  - bret. split; [by apply keeps_refl|done].
  - eapply wpc_mono; [done| |by apply releaseUnclaimed_spec]. intros [b' [[]|e]] w' [[Hk Hr] _]; simpl in *; (split; [done|]);
      specialize (Hr h eq_refl); intros h' r' _ Hne; simpl in Hne; [apply Hr; congruence|apply Hr].
  - eapply wpc_mono; [done| |by apply bindClaim_spec]. intros [b' r] w' (Hk & Hr & _). split; [done|].
    destruct (Hr h eq_refl) as [Hot _]. intros h' r' _ Hne. apply Hot. simpl in Hne. congruence.
  - eapply wpc_mono; [done| |by apply finish_spec]. intros [b' [[]|e]] w' [[Hk Hr] _]; simpl in *; (split; [done|]);
      specialize (Hr h eq_refl); intros h' r' _ Hne; simpl in Hne; [apply Hr; congruence|apply Hr].
  - bret. destruct (abandon_spec b (Some h) Hb) as [Hk Hr]. split; [done|]. destruct (Hr h eq_refl) as [Hot _].
    intros h' r' _ Hne. apply Hot. simpl in Hne. congruence.
  - eapply wpc_mono; [done| |by apply beginControl_spec]. intros [b' r] w' [Hu _]. by apply Huntouched.
  - eapply wpc_mono; [done| |by apply completeControl_spec]. intros [b' r] w' Hu. by apply Huntouched.
  - bret. apply Huntouched. by apply cancelControl_spec.
  - bret. apply Huntouched. by apply untouched_same.
  - bret. apply Huntouched. apply untouched_same; try done. simpl. by intros ->.
Qed.

Lemma section_keeps {R} (o : bop R) b r b' : binv b → section o b r b' → keeps b b' ∧ spares o b b'.
Proof. intros Hb (w & w' & Hx). apply (wpc_return _ _ _ _ _ _ _ (bop_spec o b w Hb) Hx). Qed.

Lemma blife_keeps b b' : binv b → blife b b' → keeps b b'.
Proof.
  intros Hb Hl. induction Hl as [b|b b1 b2 (R & o & r & Hs) _ IH]; [by apply keeps_refl|].
  destruct (section_keeps o b r b1 Hb Hs) as [Hk _]. eapply keeps_trans; [done|]. apply IH, Hk.
Qed.

Lemma started_inv p j clock b : started p j clock b → binv b ∧ bs_policy b = p.
Proof.
  intros (w & w' & Hx).
  assert (Hw : bwp (newBrokerState p j clock) (λ r _, ∀ b, r = Ok b → binv b ∧ bs_policy b = p) w).
  { unfold newBrokerState. destruct (validatePolicy p) eqn:Hv; [|by bret]. cbn [negb]. cbv zeta.
    apply wpc_bind, snapshot_wp; [intros; by bret|]. intros s _. bret. intros b0 [= <-]. split; [|done].
    split; unfold held; simpl; try (by intros; simplify_map_eq); try done.
    - rewrite map_size_empty. lia.
    - intros ? ? ? ? ? ? [? ?]. by simplify_map_eq. }
  by apply (wpc_return _ _ _ _ _ _ _ Hw Hx).
Qed.

(** ** Exclusion *)

(** C4: At every moment of a broker's life at most two conversations are live, every
    bound one is for a mapping the current policy approves, and no two of them are
    for the same target or the same container. *)
Theorem broker_exclusive p j clock b0 b :
  started p j clock b0 → blife b0 b →
  (size (bs_live b) ≤ 2)%nat
  ∧ (∀ h r x, held b h r → rs_bound r = Some x → ∃ req m, current_mapping p m ∧ approved_by req m ∧ resolves_to req m x)
  ∧ (∀ h h' r r' x x', held b h r → held b h' r' → h ≠ h' → rs_bound r = Some x → rs_bound r' = Some x' →
       ¬ overlap (rb_key x) (rb_key x')).
Proof.
  intros [Hb0 Hp0]%started_inv Hl. destruct (blife_keeps _ _ Hb0 Hl) as [Hb Hp _ _ _]. destruct Hb as [? ? ? ? ? Hbd Hap].
  split; [done|]. split; [|done]. intros h r x [_ Hh] Hx. destruct (Hbd h r x Hh Hx) as (_ & req & Hres).
  rewrite Hp, Hp0 in Hres. destruct (resolveReceipt_inv _ _ _ _ Hres) as (_ & _ & _ & m & Hm & Ha & Hc & Ht).
  exists req, m. split; [|done]. split; [done|by apply Hc].
Qed.

(** C8: A claim is bound only to new, unfenced, approved work: the reservation tried no
    claim before and was offered this target, the journal has no record of the action
    and no unresolved or recent one on its target or container, every unsettled record
    belongs to another live conversation, and the time budget, journal handle and
    resolution all name the approved container and operation. *)
Theorem bind_is_granted p j clock b0 b h claim rtt bound ex x b' w w' :
  started p j clock b0 → blife b0 b →
  exec broker_env (bindClaim b (Some h) claim rtt) w (Ret (b', Ok (bound, ex, x))) w' →
  ∃ r s m, w' = Some s ∧ granted b h claim x ex r s m
    ∧ bound = ActionJournal.MkBound (rb_key x) (rb_remoteDigest x)
    ∧ (∃ r', held b' h r' ∧ rs_bound r' = Some x) ∧ others b b' h.
Proof.
  intros [Hb0 _]%started_inv Hl Hx. pose proof (kp_inv _ _ (blife_keeps _ _ Hb0 Hl)) as Hb.
  destruct (wpc_return _ _ _ _ _ _ _ (bindClaim_spec b (Some h) claim rtt w Hb) Hx) as (_ & Hs & Hg). simpl in Hg.
  destruct Hg as (h' & r & s & m & [= <-] & Hw & Hg & Hbd & Hr'). exists r, s, m.
  repeat (split; [done|]). apply (Hs h eq_refl).
Qed.

(** ** Recovery *)

(** No new conversation, claim or publication can start. *)
Definition sealed (b : brokerState) : Prop :=
  (∀ h b', ¬ section OReserve b (Ok h) b')
  ∧ (∀ h claim rtt x b', ¬ section (OBind h claim rtt) b (Ok x) b')
  ∧ (∀ c b', ¬ section OBeginControl b (Ok c) b').

Lemma recovery_sealed b : binv b → bs_recoveryRequired b = true → sealed b.
Proof.
  intros Hb Hr. split; [|split].
  - intros h b' (w & w' & Hx). destruct (wpc_return _ _ _ _ _ _ _ (reserve_spec b w Hb) Hx) as [_ (_ & s & r & _ & [] & _)].
    congruence.
  - intros h claim rtt [[bound ex] x] b' (w & w' & Hx).
    destruct (wpc_return _ _ _ _ _ _ _ (bindClaim_spec b (Some h) claim rtt w Hb) Hx) as (_ & _ & Hg). simpl in Hg.
    destruct Hg as (h' & r & s & m & _ & _ & [_ _ [] _ _ _ _ _ _ _ _ _ _ _ _ _ _] & _). congruence.
  - intros c b' (w & w' & Hx). destruct (wpc_return _ _ _ _ _ _ _ (beginControl_spec b w Hb) Hx) as [_ [? _]]. congruence.
Qed.

(** The handler released the reservation [h] without the journal's word for its outcome. *)
Inductive unconfirmed (b : brokerState) (h : nat) (b' : brokerState) : Prop :=
| unconfirmed_abandon r : held b h r → section (OAbandon h) b tt b' → unconfirmed b h b'
| unconfirmed_finish w s :
    exec broker_env (finish b (Some h)) w (Ret (b', Ok tt)) (Some s) →
    (∀ r, held b h r → ¬ confirmed s r) → unconfirmed b h b'.

(** A section of a broker in recovery opens no publication. *)
Lemma bop_control {R} (o : bop R) b w :
  bwp (bop_run o b) (λ out _, bs_control out.1 = bs_control b ∨ bs_control out.1 = None
    ∨ bs_recoveryRequired b = false) w.
Proof.
  set (Q := λ (T : Type) (out : brokerState * T) (_ : option Admission),
    bs_control out.1 = bs_control b ∨ bs_control out.1 = None ∨ bs_recoveryRequired b = false).
  assert (Hread : ∀ T p, bwp (reading_of b p) (Q T) w).
  { intros T p. eapply wpc_mono; [done| |apply reading_spec]. intros [b' r] w' Heq. left. simpl in *. by subst. }
  assert (Hsnap : ∀ T b0 (k : brokerState * result BError Admission → prog BCall (brokerState * T)) u,
    bs_control b0 = bs_control b → bs_recoveryRequired b0 = bs_recoveryRequired b →
    (∀ x e v, bwp (k (require_recovery b0 x, Err e)) (Q T) v) →
    (bs_recoveryRequired b = false → ∀ s v, bwp (k (b0, Ok s)) (Q T) v) → bwp (bind (snapshot b0) k) (Q T) u).
  { intros T b0 k u _ Hr He Hk. apply wpc_bind, snapshot_wp; [intros; apply He|]. intros s [Hs _ _]. apply Hk. congruence. }
  assert (Hany : ∀ T (p : prog BCall (brokerState * T)) v, bs_recoveryRequired b = false → bwp p (Q T) v).
  { intros T p v Hr. eapply wpc_mono; [done| |apply wp_true]. intros out v' _. by do 2 right. }
  destruct o; try apply Hread; simpl.
  - apply wpc_bind, closed_wp. intros [] _; [bret; by left|]. destruct (policyEntries _) as [[es d]|]; [|bret; by left].
    destruct (_ || _); [bret; by left|]. apply Hsnap; [done|done|intros; bret; by left|]. intros Hr s v. by apply Hany.
  - bret. by left.
  - unfold releaseUnclaimed. destruct (owned_reservation b (Some h)) as [[h' r]|]; [|bret; by left].
    destruct (rs_claimTried r); [bret; by left|]. apply wpc_bind, check_delivery_wp. intros []; bret; by left.
  - unfold bindClaim. destruct (owned_reservation b (Some h)) as [[h' r]|]; [|bret; by left].
    destruct (_ || _); [bret; by left|]. bcall closed. destruct closed; [bret; by left|].
    apply Hsnap; [done|done|intros; bret; by left|]. intros Hr s v. by apply Hany.
  - unfold finish. destruct (owned_reservation b (Some h)) as [[h' r]|]; [|bret; by left].
    destruct (negb _); [bret; by left|]. bcall a. destruct a as [s|]; [|bret; by left].
    destruct (confirm _ _ _); bret; by left.
  - bret. left. unfold abandon. by destruct (owned_reservation b (Some h)) as [[h' r]|].
  - apply wpc_bind, closed_wp. intros [] _; [bret; by left|]. case_bool_decide; [bret; by left|].
    apply Hsnap; [done|done|intros; bret; by left|]. intros Hr s v. by apply Hany.
  - eapply wpc_mono; [done| |apply completeControl_closes]. intros [b' r] v [[-> _]|[-> _]]; [by left|by right; left].
  - bret. unfold cancelControl. destruct (is_control b (Some c)); [by right; left|by left].
  - bret. by left.
  - bret. by left.
Qed.

Lemma recovery_control b b' :
  binv b → bs_recoveryRequired b = true → blife b b' → bs_control b' = bs_control b ∨ bs_control b' = None.
Proof.
  intros Hb Hr Hl. induction Hl as [b|b b1 b2 (R & o & r & Hs) _ IH]; [by left|].
  destruct (section_keeps o b r b1 Hb Hs) as [[Hb1 _ Hr1 _ _] _]. destruct Hs as (w & w' & Hx).
  pose proof (wpc_return _ _ _ _ _ _ _ (bop_control o b w) Hx) as H. simpl in H.
  destruct (IH Hb1 (Hr1 Hr)) as [-> | ->], H as [H|[H|H]]; auto; congruence.
Qed.

(** A publication completes only as the one that is open, and then none is. *)
Lemma complete_open c reply b b' :
  section (OComplete c reply) b (Ok tt) b' →
  (∃ c', bs_control b = Some c' ∧ cc_id c' = cc_id c) ∧ bs_control b' = None.
Proof.
  intros (w & w' & Hx). pose proof (wpc_return _ _ _ _ _ _ _ (completeControl_closes b (Some c) reply w) Hx) as H.
  simpl in H. destruct H as [[_ ?]|[Hn (c0 & c' & [= <-] & Hc' & Hid)]]; [done|]. eauto.
Qed.

(** C10: After a conversation ends without a terminal record of its action in the journal,
    its process starts nothing more: from any later state no reservation, no claim and no
    new publication begins.  The one publication that may have been open at that moment
    can still be completed, once; no other is completed after it. *)
Theorem unconfirmed_is_final p j clock b0 b h b1 b2 :
  started p j clock b0 → blife b0 b → unconfirmed b h b1 → blife b1 b2 →
  sealed b2
  ∧ ∀ c reply b3, section (OComplete c reply) b2 (Ok tt) b3 →
      (∃ c', bs_control b1 = Some c' ∧ cc_id c' = cc_id c)
      ∧ ∀ b4 c4 reply4 b5, blife b3 b4 → ¬ section (OComplete c4 reply4) b4 (Ok tt) b5.
Proof.
  intros [Hb0 _]%started_inv Hl Hu Hl2. pose proof (kp_inv _ _ (blife_keeps _ _ Hb0 Hl)) as Hb.
  assert (Hr : binv b1 ∧ bs_recoveryRequired b1 = true).
  { destruct Hu as [r Hh (w & w' & Hx)|w s Hx Hn].
    - simpl in Hx. inversion Hx; subst. destruct (abandon_spec b (Some h) Hb) as [Hk Ha].
      split; [apply Hk|]. apply (Ha h eq_refl). by exists r.
    - destruct (wpc_return _ _ _ _ _ _ _ (finish_spec b (Some h) w Hb) Hx) as [[Hk _] Hc]. split; [apply Hk|].
      destruct (Hc eq_refl) as (h' & r & s' & [= <-] & Hh & _ & [= <-] & [Hconf|?]); [|done]. by apply Hn in Hconf. }
  destruct Hr as [Hb1 Hr]. destruct (blife_keeps _ _ Hb1 Hl2) as [Hb2 _ Hrec _ _]. specialize (Hrec Hr).
  split; [by apply recovery_sealed|]. intros c reply b3 Hs. pose proof (complete_open _ _ _ _ Hs) as [(c' & Hc' & Hid) Hn].
  destruct (section_keeps _ _ _ _ Hb2 Hs) as [[Hb3 _ Hrec3 _ _] _]. split.
  - exists c'. split; [|done]. destruct (recovery_control _ _ Hb1 Hr Hl2) as [<- |?]; [done|congruence].
  - intros b4 c4 reply4 b5 Hl4 ([c5 [Hc5 _]] & _)%complete_open.
    destruct (recovery_control _ _ Hb3 (Hrec3 Hrec) Hl4); congruence.
Qed.

(** ** One handler among others *)

(** What a handler knows: the shared state, the reservations it was handed, and
    whether it presented a claim. *)
Record view := MkView { v_broker : brokerState; v_mine : list nat; v_tried : bool }.

(** Sections of other handlers: they hold no pointer of ours. *)
Definition interferes (mine : list nat) : brokerState → brokerState → Prop :=
  rtc (λ b b', ∃ R (o : bop R) r, (∀ h, op_handle o = Some h → h ∉ mine) ∧ section o b r b').

Definition handed {R} (o : bop R) : R → list nat :=
  match o in bop T return T → list nat with
  | OReserve => λ r, match r with Ok h => [h] | Err _ => [] end
  | _ => λ _, []
  end.
Definition presents {R} (o : bop R) : bool := match o with OBind _ _ _ => true | _ => false end.

(** Before each call of the handler others may run. *)
Definition handler_env A (e : SCall A) : view → A → view → Prop :=
  match e in SCall T return view → T → view → Prop with
  | STake o => λ v a v', ∃ b, interferes (v_mine v) (v_broker v) b ∧ section o b a (v_broker v')
      ∧ v_mine v' = handed o a ++ v_mine v ∧ v_tried v' = v_tried v || presents o
  | _ => λ v _ v', interferes (v_mine v) (v_broker v) (v_broker v') ∧ v_mine v' = v_mine v ∧ v_tried v' = v_tried v
  end.

Abbreviation hwp p Q v := (wp handler_env p Q v).

(** The shared state is sound and our pointers are allocated. *)
Definition sound (v : view) : Prop := binv (v_broker v) ∧ ∀ h, h ∈ v_mine v → (h < bs_next (v_broker v))%nat.

(** [h] is our only reservation, and live. *)
Definition holding (h : nat) (v : view) : Prop := sound v ∧ v_mine v = [h] ∧ ∃ r, held (v_broker v) h r.
(** Nothing of ours is live. *)
Definition empty_handed (v : view) : Prop := sound v ∧ ∀ h r, h ∈ v_mine v → ¬ held (v_broker v) h r.

Lemma interferes_keeps mine b b' :
  binv b → (∀ h, h ∈ mine → (h < bs_next b)%nat) → interferes mine b b' →
  keeps b b' ∧ ∀ h r, h ∈ mine → held b h r ↔ held b' h r.
Proof.
  intros Hb Hm Hi. induction Hi as [b|b b1 b2 (R & o & r & Ho & Hs) Hi IH]; [split; [by apply keeps_refl|done]|].
  destruct (section_keeps o b r b1 Hb Hs) as [Hk Hsp]. destruct IH as [Hk' Hh']; [apply Hk| |].
  { intros h Hh. pose proof (kp_next _ _ Hk). specialize (Hm h Hh). lia. }
  split; [by eapply keeps_trans|]. intros h r' Hin. rewrite <- (Hh' h r' Hin). apply Hsp; [by apply Hm|].
  intros Heq. by apply (Ho h).
Qed.

Lemma sound_interferes v b : sound v → interferes (v_mine v) (v_broker v) b →
  keeps (v_broker v) b ∧ sound (MkView b (v_mine v) (v_tried v))
  ∧ ∀ h r, h ∈ v_mine v → held (v_broker v) h r ↔ held b h r.
Proof.
  intros [Hb Hm] Hi. destruct (interferes_keeps _ _ _ Hb Hm Hi) as [Hk Hh]. split; [done|]. split; [|done].
  split; [apply Hk|]. simpl. intros h Hin. pose proof (kp_next _ _ Hk). specialize (Hm h Hin). lia.
Qed.

(** A call that is not a section leaves our reservations as they were. *)
Definition quiet {A} (e : SCall A) : Prop := match e with STake _ => False | _ => True end.

Lemma quiet_wp {A R} (e : SCall A) (k : A → prog SCall R) Q v :
  quiet e → sound v →
  (∀ a b, keeps (v_broker v) b → sound (MkView b (v_mine v) (v_tried v)) →
     (∀ h r, h ∈ v_mine v → held (v_broker v) h r ↔ held b h r) →
     hwp (k a) Q (MkView b (v_mine v) (v_tried v))) →
  hwp (Call e k) Q v.
Proof.
  intros He Hv Hk. apply wpc_call; [done|]. intros a [b mine tried] Henv.
  assert (Hi : interferes (v_mine v) (v_broker v) b ∧ mine = v_mine v ∧ tried = v_tried v) by by destruct e.
  destruct Hi as (Hi & -> & ->). destruct (sound_interferes v b Hv Hi) as (? & ? & ?). by apply Hk.
Qed.

(** A section starts from a state where our reservations are as we left them. *)
Lemma take_wp {A R} (o : bop A) (k : A → prog SCall R) Q v :
  sound v →
  (∀ b a b', keeps (v_broker v) b → sound (MkView b (v_mine v) (v_tried v)) →
     (∀ h r, h ∈ v_mine v → held (v_broker v) h r ↔ held b h r) → section o b a b' →
     hwp (k a) Q (MkView b' (handed o a ++ v_mine v) (v_tried v || presents o))) →
  hwp (Call (STake o) k) Q v.
Proof.
  intros Hv Hk. apply wpc_call; [done|]. intros a [b' mine tried] (b & Hi & Hs & Hm & Ht). simpl in *. subst.
  destruct (sound_interferes v b Hv Hi) as (? & ? & ?). by eapply Hk.
Qed.

(** Sections that only read. *)
Definition reads {A} (o : bop A) : Prop :=
  match o with
  | OReadiness | OApproval _ | ONonce _ | OCheckDelivery _ | OInvocation _ | OReport _ | OSource _ | OFresh
  | OCapture => True
  | _ => False
  end.

Lemma reads_section {A} (o : bop A) b a b' : reads o → section o b a b' → b' = b.
Proof.
  intros Ho (w & w' & Hx). destruct o; try done; simpl in Hx;
    try (by apply (wpc_return _ _ _ _ _ _ _ (reading_spec b _ w) Hx)).
  by inversion Hx.
Qed.

(** Nothing of ours changed. *)
Record alike (v v' : view) : Prop := {
  al_keeps : keeps (v_broker v) (v_broker v');
  al_mine : v_mine v' = v_mine v;
  al_tried : v_tried v' = v_tried v;
  al_held : ∀ h r, h ∈ v_mine v → held (v_broker v) h r ↔ held (v_broker v') h r }.

Lemma alike_sound v v' : sound v → alike v v' → sound v'.
Proof.
  intros [Hb Hm] [Hk Hmi _ _]. split; [apply Hk|]. rewrite Hmi. intros h Hh.
  pose proof (kp_next _ _ Hk). specialize (Hm h Hh). lia.
Qed.

Lemma alike_holding h v v' : holding h v → alike v v' → holding h v'.
Proof.
  intros (Hs & Hm & r & Hr) Ha. split; [by eapply alike_sound|]. destruct Ha as [_ Hmi _ Hh].
  split; [congruence|]. exists r. apply Hh; [rewrite Hm; by left|done].
Qed.

Lemma alike_empty v v' : empty_handed v → alike v v' → empty_handed v'.
Proof.
  intros [Hs Hn] Ha. split; [by eapply alike_sound|]. destruct Ha as [_ Hmi _ Hh].
  intros h r Hin. rewrite Hmi in Hin. rewrite <- (Hh h r Hin). by apply Hn.
Qed.

Definition gentle {A} (e : SCall A) : Prop := match e with STake o => reads o | _ => True end.

Lemma gentle_wp {A R} (e : SCall A) (k : A → prog SCall R) Q v :
  gentle e → sound v → (∀ a v', alike v v' → hwp (k a) Q v') → hwp (Call e k) Q v.
Proof.
  intros He Hv Hk.
  assert (Hq : quiet e → hwp (Call e k) Q v).
  { intros Hqe. apply quiet_wp; [done|done|]. intros a b Hkb Hsb Hhb. apply Hk. by split. }
  destruct e as [T o| | | | | | |]; try by apply Hq. simpl in He. apply take_wp; [done|].
  intros b a b' Hkb Hsb Hhb Hs. apply (reads_section o) in Hs; [|done]. subst b'. apply Hk.
  assert (handed o a = []) as -> by by destruct o. assert (presents o = false) as -> by by destruct o.
  split; simpl; [done|done|by rewrite orb_false_r|done].
Qed.

(** What taking a claim leaves. *)
Definition claim_post (h : nat) (res : result BError (option acceptedInvocation)) (v : view) : Prop :=
  match res with
  | Err _ => holding h v
  | Ok None => empty_handed v ∧ v_tried v = false
  | Ok (Some inv) => holding h v ∧ iv_reservation inv = h
  end.

Lemma release_holding h v b b' a :
  holding h v → keeps (v_broker v) b → sound (MkView b (v_mine v) (v_tried v)) →
  (∀ h' r, h' ∈ v_mine v → held (v_broker v) h' r ↔ held b h' r) → section (ORelease h) b a b' →
  match a with
  | Ok _ => empty_handed (MkView b' (v_mine v) (v_tried v))
  | Err _ => holding h (MkView b' (v_mine v) (v_tried v))
  end.
Proof.
  intros (Hs & Hm & r & Hr) Hk [Hb Hlt] Hh (w & w' & Hx). simpl in *.
  destruct (wpc_return _ _ _ _ _ _ _ (releaseUnclaimed_spec b (Some h) w Hb) Hx) as [[Hk' Hrel] _]. simpl in *.
  specialize (Hrel h eq_refl). rewrite Hm in *.
  assert (Hs' : sound (MkView b' [h] (v_tried v))).
  { split; simpl; [apply Hk'|]. intros h' Hin. pose proof (kp_next _ _ Hk'). specialize (Hlt h' Hin). lia. }
  destruct a as [[]|e].
  - split; [done|]. simpl. intros h' r' ->%list_elem_of_singleton. apply Hrel.
  - split; [done|]. split; [done|]. exists r. simpl. apply Hrel, Hh; [by left|done].
Qed.

Lemma bind_holding h claim rtt v b b' a :
  holding h v → keeps (v_broker v) b → sound (MkView b (v_mine v) (v_tried v)) →
  (∀ h' r, h' ∈ v_mine v → held (v_broker v) h' r ↔ held b h' r) → section (OBind h claim rtt) b a b' →
  holding h (MkView b' (v_mine v) true).
Proof.
  intros (Hs & Hm & r & Hr) Hk [Hb Hlt] Hh (w & w' & Hx). simpl in *.
  destruct (wpc_return _ _ _ _ _ _ _ (bindClaim_spec b (Some h) claim rtt w Hb) Hx) as (Hk' & Hsv & _). simpl in *.
  destruct (Hsv h eq_refl) as [_ Hsurv]. rewrite Hm in *. destruct (Hsurv r) as (r' & Hr' & _); [apply Hh; [by left|done]|].
  split; [|split; [done|by exists r']]. split; simpl; [apply Hk'|]. intros h' Hin.
  pose proof (kp_next _ _ Hk'). specialize (Hlt h' Hin). lia.
Qed.

Lemma holding_wp {A R} h (e : SCall A) (k : A → prog SCall R) Q v :
  gentle e → holding h v →
  (∀ a v', holding h v' → v_tried v' = v_tried v →
     (bs_recoveryRequired (v_broker v) = true → bs_recoveryRequired (v_broker v') = true) → hwp (k a) Q v') →
  hwp (Call e k) Q v.
Proof.
  intros He Hh Hk. apply gentle_wp; [done|apply Hh|]. intros a v' Ha. apply Hk; [by eapply alike_holding|apply Ha|apply Ha].
Qed.

(** Make the next gentle call while holding [h], and drop the branches that [H] closes. *)
Ltac holds h a v H := apply (holding_wp h); [exact I|assumption|]; intros a v ? ? ?;
  try (destruct a; [|by apply H]); cbn [negb].

Lemma takeClaim_wp h v :
  holding h v → v_tried v = false → hwp (takeClaim h) (claim_post h) v.
Proof.
  intros Hh Ht. unfold takeClaim. cbv zeta.
  assert (Hfail : ∀ e u, holding h u → hwp (Ret (Err e)) (claim_post h) u) by (intros; by bret).
  holds h a1 v1 Hfail. holds h a2 v2 Hfail. holds h a3 v3 Hfail.
  apply (holding_wp h); [exact I|done|]. intros nonce v4 ? ? ?.
  holds h a5 v5 Hfail. holds h a6 v6 Hfail. holds h a7 v7 Hfail.
  apply (holding_wp h); [exact I|done|]. intros a8 v8 Hh8 ? ?. destruct (_ || _); [by apply Hfail|].
  assert (Ht8 : v_tried v8 = false) by congruence.
  destruct (str_eqb _ "NO_CLAIM").
  { apply take_wp; [apply Hh8|]. intros b ans b' Hk Hs Hhb Hsec.
    pose proof (release_holding h v8 b b' ans Hh8 Hk Hs Hhb Hsec) as Hrel. simpl.
    rewrite orb_false_r. destruct ans as [[]|e']; [|by apply Hfail]. bret. by split. }
  destruct (negb _); [by apply Hfail|]. destruct (DecodeClaimedExecute _) as [[claim rtt]|]; [|by apply Hfail].
  apply (holding_wp h); [exact I|done|]. intros [] v9 Hh9 ? ?; [|by apply Hfail]. cbn [negb].
  apply take_wp; [apply Hh9|]. intros b ans b' Hk Hs Hhb Hsec.
  pose proof (bind_holding h claim rtt v9 b b' ans Hh9 Hk Hs Hhb Hsec) as Hrel. simpl. rewrite orb_true_r.
  destruct ans as [[[j ex] x]|e']; [|by apply Hfail]. bret. by split.
Qed.

(** Before a reservation. *)
Definition idle (v : view) : Prop := sound v ∧ v_mine v = [] ∧ v_tried v = false.

Lemma idle_empty v : idle v → empty_handed v.
Proof. intros (Hs & Hm & _). split; [done|]. rewrite Hm. by intros h r ?%not_elem_of_nil. Qed.

Definition aside {A} (e : SCall A) : Prop :=
  match e with STake o => (∀ a, handed o a = []) ∧ presents o = false | _ => True end.

Lemma idle_wp {A R} (e : SCall A) (k : A → prog SCall R) Q v :
  aside e → idle v → (∀ a v', idle v' → hwp (k a) Q v') → hwp (Call e k) Q v.
Proof.
  intros He (Hs & Hm & Ht) Hk.
  assert (Hq : gentle e → hwp (Call e k) Q v).
  { intros Hg. apply gentle_wp; [done|done|]. intros a v' Ha. apply Hk.
    split; [by eapply alike_sound|]. destruct Ha. split; congruence. }
  destruct e as [T o| | | | | | |]; try by apply Hq. apply take_wp; [done|]. intros b a b' _ [Hb _] _ Hsec.
  destruct He as [-> ->]. rewrite Hm, Ht. apply Hk. split; [|done]. split; simpl; [|by intros h ?%not_elem_of_nil].
  by apply (section_keeps o b a b' Hb).
Qed.

Lemma reserve_wp {R} (k : result BError nat → prog SCall R) Q v :
  idle v → (∀ e v', idle v' → hwp (k (Err e)) Q v') →
  (∀ h v', holding h v' → v_tried v' = false → hwp (k (Ok h)) Q v') → hwp (Call (STake OReserve) k) Q v.
Proof.
  intros (Hs & Hm & Ht) Herr Hok. apply take_wp; [done|]. intros b a b' _ [Hb _] _ (w & w' & Hx). simpl in Hx.
  destruct (wpc_return _ _ _ _ _ _ _ (reserve_spec b w Hb) Hx) as [Hk Hr]. simpl in *. rewrite Hm, Ht. simpl.
  destruct a as [h|e].
  - destruct Hr as (_ & s & r & _ & _ & -> & Hh & _). apply Hok; [|done]. split; [|split; [done|by exists r]].
    split; simpl; [apply Hk|]. intros h ->%list_elem_of_singleton. destruct Hh as [_ Hh]. by eapply (bi_fresh b'); [apply Hk|].
  - apply Herr. split; [|done]. split; simpl; [apply Hk|]. by intros h ?%not_elem_of_nil.
Qed.

Lemma finish_wp {R} h (k : result BError unit → prog SCall R) Q v :
  holding h v →
  (∀ res v', (if is_ok res then empty_handed v' else holding h v') → v_tried v' = v_tried v →
     (bs_recoveryRequired (v_broker v) = true → bs_recoveryRequired (v_broker v') = true) → hwp (k res) Q v') →
  hwp (Call (STake (OFinish h)) k) Q v.
Proof.
  intros (Hs & Hm & r & Hr) Hk. apply take_wp; [done|]. intros b a b' Hkb [Hb Hlt] Hh (w & w' & Hx). simpl in Hx.
  destruct (wpc_return _ _ _ _ _ _ _ (finish_spec b (Some h) w Hb) Hx) as [[Hk' Hrel] _]. simpl in *.
  specialize (Hrel h eq_refl). rewrite orb_false_r.
  assert (Hs' : sound (MkView b' (v_mine v) (v_tried v))).
  { split; simpl; [apply Hk'|]. intros h' Hin. pose proof (kp_next _ _ Hk'). specialize (Hlt h' Hin). lia. }
  apply Hk; [|done|intros Hrec; by apply (kp_recovery _ _ Hk'), (kp_recovery _ _ Hkb)].
  destruct a as [[]|e]; simpl.
  - split; [done|]. simpl. rewrite Hm. intros h' r' ->%list_elem_of_singleton. apply Hrel.
  - split; [done|]. split; [done|]. exists r. simpl. apply Hrel, Hh; [rewrite Hm; by left|done].
Qed.

Lemma recovery_wp {R} h (k : unit → prog SCall R) Q v :
  holding h v → (∀ v', holding h v' → v_tried v' = v_tried v → bs_recoveryRequired (v_broker v') = true → hwp (k tt) Q v') →
  hwp (Call (STake ORecovery) k) Q v.
Proof.
  intros (Hs & Hm & r & Hr) Hk. apply take_wp; [done|]. intros b [] b' Hkb [Hb Hlt] Hh Hsec. simpl.
  pose proof (section_keeps _ _ _ _ Hb Hsec) as [Hk' Hsp]. destruct Hsec as (w & w' & Hx). simpl in Hx.
  inversion Hx; subst. rewrite orb_false_r. apply Hk; [|done|simpl; by destruct (bs_recoveryRequired b)].
  split; [|split; [done|]].
  - split; simpl; [apply Hk'|]. intros h' Hin. specialize (Hlt h' Hin). simpl in Hlt. lia.
  - exists r. change (held b h r). apply Hh; [rewrite Hm; by left|done].
Qed.

Lemma abandon_wp {R} h (k : unit → prog SCall R) Q v :
  holding h v → (∀ v', empty_handed v' → bs_recoveryRequired (v_broker v') = true → hwp (k tt) Q v') →
  hwp (Call (STake (OAbandon h)) k) Q v.
Proof.
  intros (Hs & Hm & r & Hr) Hk. apply take_wp; [done|]. intros b [] b' Hkb [Hb Hlt] Hh (w & w' & Hx). simpl in *.
  inversion Hx; subst. destruct (abandon_spec b (Some h) Hb) as [Hk' Ha]. destruct (Ha h eq_refl) as (_ & Hn & Hrec).
  apply Hk; [|simpl; apply Hrec; exists r; apply Hh; [rewrite Hm; by left|done]]. split.
  - split; simpl; [apply Hk'|]. intros h' Hin. pose proof (kp_next _ _ Hk'). specialize (Hlt h' Hin). lia.
  - simpl. rewrite Hm. intros h' r' ->%list_elem_of_singleton. apply Hn.
Qed.

(** ** A whole conversation *)

Definition select_post (res : result BError (option acceptedInvocation)) (v : view) : Prop :=
  match res with
  | Err _ => empty_handed v ∧ (v_tried v = true → bs_recoveryRequired (v_broker v) = true)
  | Ok None => empty_handed v ∧ v_tried v = false
  | Ok (Some inv) => holding (iv_reservation inv) v
  end.

Lemma renew_wp v : idle v → hwp renewReadiness select_post v.
Proof.
  intros Hi. unfold renewReadiness.
  assert (Hend : ∀ (res : result BError (option acceptedInvocation)) u, idle u →
    match res with Ok (Some _) => False | _ => True end → hwp (Ret res) select_post u).
  { intros res u Hu Hres. bret. pose proof (idle_empty _ Hu). destruct Hu as (_ & _ & Ht).
    destruct res as [[inv|]|e]; simpl; [done|by split|]. split; [done|]. congruence. }
  apply idle_wp; [by split|done|]. intros [c|e] v1 H1; [|by apply Hend]. cbv zeta. apply wpc_bind.
  apply (wpc_mono _ (λ _, True) _ _ (λ res u, idle u ∧ match res with Ok (Some _) => False | _ => True end));
    [done| |].
  { intros res u [Hu Hres]. apply idle_wp; [by split|done|]. intros _ u' Hu'. by apply Hend. }
  apply idle_wp; [done|done|]. intros [] v2 H2; [|by bret]. cbn [negb].
  apply idle_wp; [done|done|]. intros [reply|] v3 H3; [|by bret].
  destruct (_ || _); [by bret|]. destruct (decode_reply _) as [value|]; [|by bret].
  apply idle_wp; [by split|done|]. intros [[]|e] v4 H4; by bret.
Qed.

Lemma select_wp v : idle v → hwp selectWorkerInvocation select_post v.
Proof.
  intros Hi. unfold selectWorkerInvocation. apply idle_wp; [by split|done|]. intros [] v1 H1; [|by apply renew_wp].
  cbn [negb]. apply reserve_wp; [done| |].
  - intros e v2 H2. bret. split; [by apply idle_empty|]. destruct H2 as (_ & _ & ->). done.
  - intros h v2 H2 Ht. apply wpc_bind. eapply wpc_mono; [done| |by apply takeClaim_wp].
    intros [[inv|]|e] v3 H3; simpl in H3.
    + destruct H3 as [H3 <-]. by bret.
    + by bret.
    + apply (abandon_wp h); [done|]. intros v4 H4 Hr. bret. by split.
Qed.

(** Executing makes gentle calls only. *)
Ltac gentle_frame :=
  repeat lazymatch goal with
  | |- only _ (Ret _) => exact I
  | |- only _ (bind _ _) => apply only_bind; [|intros]
  | |- only _ (Call _ _) => split; [exact I|intros]
  | |- only _ (perform _) => split; [exact I|intros]
  | |- only _ (if ?x then _ else _) => destruct x
  | |- only _ (match ?x with _ => _ end) => destruct x
  | |- _ => assumption
  end.

Lemma checks_gentle inv :
  only (λ A (e : SCall A), gentle e) (checkExecution inv) ∧ only (λ A (e : SCall A), gentle e) (checkReport inv)
  ∧ ∀ id op, only (λ A (e : SCall A), gentle e) (checkMutation inv id op).
Proof. unfold checkExecution, checkReport, checkMutation. split; [gentle_frame|split; [gentle_frame|intros; gentle_frame]]. Qed.

Lemma currentExecution_gentle generation inv : only (λ A (e : SCall A), gentle e) (currentExecution generation inv).
Proof.
  pose proof (checks_gentle inv) as (? & _ & _). unfold currentExecution. split; [exact I|]. intros []; [exact I|].
  apply only_bind; [done|]. intros []; [|exact I]. split; [exact I|]. intros []; [|exact I].
  split; [exact I|]. by intros [].
Qed.

Lemma depend_gentle generation inv r b A (e : ActionWorker.ActionCall A) a :
  only (λ A (e : SCall A), gentle e) (depend generation inv r b A e a).
Proof.
  pose proof (currentExecution_gentle generation inv). pose proof (checks_gentle inv) as (? & _ & ?).
  destruct e; unfold depend, keep, Check, sourceAcquire, sourceExisting, sourceTransition, phaseInspect, phaseEngine,
    phaseMutate, boundAcquire; cbv zeta; gentle_frame; auto.
Qed.

Lemma execute_body_gentle generation inv : only (λ A (e : SCall A), gentle e) (execute_body generation inv).
Proof.
  pose proof (checks_gentle inv) as (? & ? & _).
  assert (only (λ A (e : SCall A), gentle e) (workExecute generation inv)) by apply interp_only, depend_gentle.
  unfold execute_body, reportFor. gentle_frame.
Qed.

Lemma gentle_env A (e : SCall A) v a v' : gentle e → sound v → handler_env A e v a v' → alike v v'.
Proof.
  intros He Hv Henv. assert (Hw : hwp (perform e) (λ x u, x = a → u = v' → alike v v') v).
  { apply gentle_wp; [done|done|]. intros x u Hu. bret. by intros _ <-. }
  destruct Hw as [_ Hw]. specialize (Hw a v' Henv). destruct Hw as [_ Hw]. by apply Hw.
Qed.

Lemma execute_body_wp generation inv h v :
  holding h v → hwp (execute_body generation inv) (λ _ v', holding h v' ∧ v_tried v' = v_tried v) v.
Proof.
  intros Hh. eapply wpc_mono; [| |apply (only_frame handler_env (λ A e, gentle e)
    (λ u, holding h u ∧ v_tried u = v_tried v))]; [done|done|apply execute_body_gentle| |done].
  intros A e u a u' He Henv [Hu Ht]. pose proof (gentle_env A e u a u' He (proj1 Hu) Henv) as Ha.
  split; [by eapply alike_holding|]. rewrite <- Ht. apply Ha.
Qed.

(** What is left of a conversation. *)
Definition serve_post (ok : bool) (v : view) : Prop :=
  sound v
  ∧ (ok = true → empty_handed v)
  ∧ (ok = false → v_tried v = true →
       bs_recoveryRequired (v_broker v) = true ∨ ∃ h r, h ∈ v_mine v ∧ held (v_broker v) h r).

Lemma holding_left h v : holding h v → ∃ h' r, h' ∈ v_mine v ∧ held (v_broker v) h' r.
Proof. intros (_ & Hm & r & Hr). exists h, r. rewrite Hm. split; [by left|done]. Qed.

Lemma execute_wp generation inv v :
  holding (iv_reservation inv) v → hwp (execute generation inv) serve_post v.
Proof.
  intros Hh. unfold execute. apply wpc_bind. eapply wpc_mono; [done| |by apply execute_body_wp].
  intros ok v1 [H1 Ht1]. apply wpc_bind.
  apply (wpc_mono _ (λ _, True) _ _ (λ _ u, holding (iv_reservation inv) u
    ∧ (ok = false → bs_recoveryRequired (v_broker u) = true))); [done| |].
  - intros _ v2 [H2 Hr2]. apply finish_wp with (h := iv_reservation inv); [done|].
    intros res v3 H3 Ht3 Hr3. bret. destruct (is_ok res) eqn:Hres.
    + rewrite andb_true_r. split; [apply H3|]. split; [done|]. intros -> _. left. auto.
    + rewrite andb_false_r. split; [apply H3|]. split; [done|]. intros _ _. right. by eapply holding_left.
  - destruct ok; [by bret|]. apply recovery_wp with (h := iv_reservation inv); [done|]. intros v2 H2 _ Hr. by bret.
Qed.

(** Whatever other handlers do meanwhile, a conversation that reports success has
    released every reservation it made; one that fails after presenting a claim has put
    the broker into recovery, or still holds its reservation because the journal would
    not confirm that the action's handle is closed. *)
Theorem conversation_leaves_nothing generation b :
  binv b → hwp (serveOwned generation) serve_post (MkView b [] false).
Proof.
  intros Hb. assert (Hi : idle (MkView b [] false)).
  { split; [|done]. split; [done|]. by intros h ?%not_elem_of_nil. }
  assert (Hidle : ∀ u, idle u → serve_post false u).
  { intros u (Hs & Hm & Ht). split; [done|]. split; [done|]. congruence. }
  unfold serveOwned. apply idle_wp; [by split|done|]. intros [] v1 H1; [|bret; by apply Hidle]. cbn [negb].
  apply wpc_bind. eapply wpc_mono; [done| |by apply select_wp]. intros [[inv|]|e] v2 H2; simpl in H2.
  - apply (holding_wp (iv_reservation inv)); [exact I|done|]. intros [] v3 H3 _ _; [by apply execute_wp|]. cbn [negb].
    unfold abandonInvocation. apply wpc_bind. apply recovery_wp with (h := iv_reservation inv); [done|].
    intros v4 H4 _ Hr. apply finish_wp with (h := iv_reservation inv); [done|]. intros res v5 H5 _ Hr5. bret. bret.
    split; [destruct (is_ok res); apply H5|]. split; [done|]. intros _ _. left. auto.
  - destruct H2 as [H2 Ht]. apply gentle_wp; [exact I|apply H2|]. intros a v3 H3. bret.
    pose proof (alike_empty _ _ H2 H3). split; [apply H|]. split; [done|]. intros _. destruct H3. congruence.
  - bret. destruct H2 as [H2 Hr]. split; [apply H2|]. split; [done|]. intros _ Ht. left. auto.
Qed.

(** ** Witnesses *)

Import BrokerSample (b0, b1, b2, b3, b4).

Lemma sample_started : started PolicySample.policy BrokerSample.binding 1 b0.
Proof. exact BrokerSample.b0_exec. Qed.

Lemma sample_step {R} (o : bop R) b : bstep b (BrokerSample.outcome o b).1.
Proof. exists R, o, (BrokerSample.outcome o b).2. exact (BrokerSample.outcome_exec o b). Qed.

Lemma sample_life : blife b0 b3.
Proof.
  apply (rtc_l _ b0 b1); [unfold b1; rewrite <- BrokerSample.begun_is; exact (sample_step OBeginControl b0)|].
  apply (rtc_l _ b1 b2).
  { rewrite <- BrokerSample.b2_is. exact (sample_step (OComplete BrokerSample.control BrokerSample.reply) b1). }
  apply rtc_once. rewrite <- BrokerSample.b3_is. exact (sample_step OReserve b2).
Qed.

Lemma sample_bind : ∃ w w', exec broker_env (bindClaim b3 (Some BrokerSample.h) BrokerSample.claim 0) w
  (Ret (b4, BrokerSample.bound.2)) w'.
Proof.
  pose proof (BrokerSample.outcome_exec (OBind BrokerSample.h BrokerSample.claim 0) b3) as Hx.
  rewrite BrokerSample.bound_is in Hx. exact Hx.
Qed.

Lemma sample_held : ∃ r, held b3 BrokerSample.h r.
Proof.
  destruct sample_reserved as [[h r] Ho]. apply owned_held in Ho as [[= <-] Hh]. by exists r.
Qed.

(** The sample conversation is bound at [b4]. *)
Lemma broker_exclusive_witness :
  (size (bs_live b4) ≤ 2)%nat ∧ is_ok BrokerSample.bound.2 = true.
Proof.
  split; [|exact sample_bound].
  refine (proj1 (broker_exclusive PolicySample.policy BrokerSample.binding 1 b0 b4 sample_started _)).
  refine (rtc_r _ _ _ sample_life _). exists _, (OBind BrokerSample.h BrokerSample.claim 0), BrokerSample.bound.2.
  exact sample_bind.
Defined.

Lemma bind_is_granted_witness :
  ∃ ex x r s m, granted b3 BrokerSample.h BrokerSample.claim x ex r s m.
Proof.
  pose proof (proj1 (is_ok_true _) sample_bound) as [[[bound ex] x] Hok].
  destruct sample_bind as (w & w' & Hx). rewrite Hok in Hx.
  destruct (bind_is_granted PolicySample.policy BrokerSample.binding 1 b0 b3 BrokerSample.h BrokerSample.claim 0
              bound ex x b4 w w' sample_started sample_life Hx) as (r & s & m & _ & Hg & _).
  exists ex, x, r, s, m. exact Hg.
Defined.

Lemma unconfirmed_is_final_witness : sealed (abandon b3 (Some BrokerSample.h)).
Proof.
  destruct sample_held as [r Hr].
  refine (proj1 (unconfirmed_is_final PolicySample.policy BrokerSample.binding 1 b0 b3 BrokerSample.h
            (abandon b3 (Some BrokerSample.h)) _ sample_started sample_life _ (rtc_refl _ _))).
  apply (unconfirmed_abandon _ _ _ r Hr). exists None, None. constructor.
Defined.

Lemma conversation_leaves_nothing_witness :
  hwp (serveOwned PolicySample.digits32) serve_post (MkView b3 [] false).
Proof.
  refine (conversation_leaves_nothing PolicySample.digits32 b3 _).
  exact (kp_inv _ _ (blife_keeps _ _ (proj1 (started_inv _ _ _ _ sample_started)) sample_life)).
Defined.
