(* ===== verification/ActionRuntime.v ===== *)
(** * The broker's runtime ([internal/actionbroker])

    The registry of handlers, the joined shutdown and the cleanup of the runtime.
    A handler registers before its goroutine starts, may take the execution scope
    once, and signals [done] as its last action.  [run] waits on these signals
    under one original deadline, and [close] refuses to release the journal and
    the engine unless every handler was joined. *)

From S2P Require Import Prelude GoTime Effects.
From S2P Require ActionBudget.
Import ActionBudget (Stamp, reading, s_go, s_boot, s_clock, CheckQuiescence, Capture).

#[local] Open Scope Z_scope.

(** ** The registry *)

Inductive workerPhase := greetingPhase | nonRelayPhase.

#[global] Instance workerPhase_eq_dec : EqDecision workerPhase.
Proof. solve_decision. Defined.

(** [wk_cancelled] and [wk_execCancelled]: the handler's own cancel functions were
    called; [wk_done]: its channel is closed. *)
Record ownedWorker := MkWorker {
  wk_closed : bool; wk_cancelled : bool; wk_execCancelled : bool; wk_done : bool }.

(** The contexts of the registry are cancelled by its own functions or by the
    parent.  Handlers are named by a number; [ow_workers] holds every one ever
    registered, [ow_handlers] the map of the code. *)
Record ownedWorkers := MkRegistry {
  ow_parentDone : bool; ow_cancelled : bool; ow_execCancelled : bool; ow_fenced : bool; ow_closing : bool;
  ow_handlers : gmap nat workerPhase; ow_workers : gmap nat ownedWorker; ow_next : nat }.

Definition newOwnedWorkers (parentDone fenced : bool) : option ownedWorkers :=
  if parentDone then None else Some (MkRegistry false false false fenced false ∅ ∅ 0).

(** [r.context.Err() != nil], [r.execution.Err() != nil] *)
Definition run_err (r : ownedWorkers) : bool := ow_parentDone r || ow_cancelled r.
Definition execution_err (r : ownedWorkers) : bool := run_err r || ow_execCancelled r.
(** [h.context.Err() != nil], [h.execution.Err() != nil] *)
Definition context_err (r : ownedWorkers) (w : ownedWorker) : bool := run_err r || wk_cancelled w.
Definition scope_err (r : ownedWorkers) (w : ownedWorker) : bool := execution_err r || wk_execCancelled w.

Definition set_handlers (r : ownedWorkers) (hs : gmap nat workerPhase) : ownedWorkers :=
  MkRegistry (ow_parentDone r) (ow_cancelled r) (ow_execCancelled r) (ow_fenced r) (ow_closing r) hs (ow_workers r)
    (ow_next r).
Definition set_worker (r : ownedWorkers) (h : nat) (w : ownedWorker) : ownedWorkers :=
  MkRegistry (ow_parentDone r) (ow_cancelled r) (ow_execCancelled r) (ow_fenced r) (ow_closing r) (ow_handlers r)
    (<[h := w]> (ow_workers r)) (ow_next r).

(** [<-h.done] without blocking *)
Definition is_done (r : ownedWorkers) (h : nat) : bool :=
  match ow_workers r !! h with Some w => wk_done w | None => false end.

Definition pruneDone (r : ownedWorkers) : ownedWorkers :=
  set_handlers r (filter (λ x, is_done r x.1 = false) (ow_handlers r)).

(** [locked]: whether [TryLock] succeeded.  The flags are stored and loaded
    atomically; a register that loaded them just before they were stored leaves
    the same contexts as one that ran before, since a child of a cancelled context
    is cancelled. *)
Definition register (r : ownedWorkers) (locked : bool) : ownedWorkers * option nat :=
  if ow_closing r || run_err r || negb locked then (r, None)
  else
    let r := pruneDone r in
    if ow_closing r || run_err r || (3 <=? size (ow_handlers r))%nat then (r, None)
    else
      let h := ow_next r in
      (MkRegistry (ow_parentDone r) (ow_cancelled r) (ow_execCancelled r) (ow_fenced r) (ow_closing r)
         (<[h := greetingPhase]> (ow_handlers r)) (<[h := MkWorker false false false false]> (ow_workers r)) (S h),
       Some h).

(** Whether the handler gets the execution scope. *)
Definition nonRelay (r : ownedWorkers) (h : nat) (locked : bool) : ownedWorkers * bool :=
  if ow_fenced r || ow_closing r || negb locked then (r, false)
  else match ow_workers r !! h with
  | None => (r, false)
  | Some w =>
      if wk_closed w || negb (bool_decide (ow_handlers r !! h = Some greetingPhase)) || ow_fenced r || scope_err r w
      then (r, false)
      else (set_handlers r (<[h := nonRelayPhase]> (ow_handlers r)), true)
  end.

(** [close] up to the signal, and the signal. *)
Definition closeCancel (r : ownedWorkers) (h : nat) : option ownedWorkers :=
  match ow_workers r !! h with
  | Some w => if wk_closed w then None else Some (set_worker r h (MkWorker true true true (wk_done w)))
  | None => None
  end.
Definition closeSignal (r : ownedWorkers) (h : nat) : ownedWorkers :=
  match ow_workers r !! h with
  | Some w => set_worker r h (MkWorker (wk_closed w) (wk_cancelled w) (wk_execCancelled w) true)
  | None => r
  end.
Definition closeWorker (r : ownedWorkers) (h : nat) : ownedWorkers :=
  match closeCancel r h with Some r => closeSignal r h | None => r end.

Definition stopAdmission (r : ownedWorkers) : ownedWorkers :=
  MkRegistry (ow_parentDone r) true true true true (ow_handlers r) (ow_workers r) (ow_next r).

(** The signals of the handlers that may still run. *)
Definition all (r : ownedWorkers) (locked : bool) : ownedWorkers * option (list nat) :=
  if negb locked then (r, None)
  else let r := pruneDone r in (r, Some ((map_to_list (ow_handlers r)).*1)).

(** ** Joining *)

(** The select on [done], [ctx.Done()] and the ticker. *)
Inductive selection := SelDone | SelExpired | SelPoll.

(** A signal is the accept loop's or a handler's. *)
Inductive signal := AcceptDone | WorkerDone (h : nat).

Inductive JoinCall : Type → Type :=
| JCtxErr : JoinCall bool (* ctx.Err() != nil *)
| JRead : JoinCall (option reading)
| JDone (s : signal) : JoinCall bool (* a closed channel *)
| JSelect (s : signal) : JoinCall selection.

Local Open Scope prog_scope.

Section join.
Variables (clock : Z) (original : Stamp).

(** [clock.CheckQuiescence(ctx, original)] for a context with this deadline. *)
Definition checkQuiescence (deadline : option time) : prog JoinCall bool :=
  expired <~ JCtxErr;
  read <~ JRead;
  expired' <~ JCtxErr;
  Ret (CheckQuiescence clock expired expired' original deadline read).

(** [QuiescenceContext] of a parent without a deadline: the derived one's. *)
Definition QuiescenceContext : prog JoinCall (option time) :=
  ok <- checkQuiescence None;
  if negb ok then Ret None
  else
    expired <~ JCtxErr;
    Ret (if expired : bool then None else Some (Add (s_go original) (75 * Second))).

Fixpoint allOwnedDone (signals : list signal) : prog JoinCall bool :=
  match signals with
  | [] => Ret true
  | s :: rest => d <~ JDone s; if negb d then Ret false else allOwnedDone rest
  end.

Inductive waited := Arrived | Late | StillPolling.

(** The loop on one signal; [StillPolling] when the fuel is used up. *)
Fixpoint waitOne (fuel : nat) (deadline : time) (s : signal) : prog JoinCall waited :=
  match fuel with
  | O => Ret StillPolling
  | S fuel =>
      ok <- checkQuiescence (Some deadline);
      if negb ok then Ret Late
      else
        selected <~ JSelect s;
        match selected with
        | SelDone => Ret Arrived
        | SelExpired => Ret Late
        | SelPoll => waitOne fuel deadline s
        end
  end.

Fixpoint waitEach (fuel : nat) (deadline : time) (signals : list signal) : prog JoinCall waited :=
  match signals with
  | [] => Ret Arrived
  | s :: rest =>
      w <- waitOne fuel deadline s;
      match w with
      | Arrived => waitEach fuel deadline rest
      | w => Ret w
      end
  end.

(** Whether everything joined, and whether it did so in time. *)
Definition waitOwnedJoinClock (fuel : nat) (signals : list signal) : prog JoinCall (option (bool * bool)) :=
  if (4 <? length signals)%nat then Ret (Some (false, false))
  else
    derived <- QuiescenceContext;
    match derived with
    | None => joined <- allOwnedDone signals; Ret (Some (joined, false))
    | Some deadline =>
        w <- waitEach fuel deadline signals;
        match w with
        | StillPolling => Ret None
        | Late => joined <- allOwnedDone signals; Ret (Some (joined, false))
        | Arrived =>
            ok <- checkQuiescence (Some deadline);
            Ret (Some (true, ok))
        end
    end.
End join.

(** ** The runtime *)

(** The owning goroutine: [run] from start to return, then [close].  [Waiting] holds
    the signals it still waits for. *)
Inductive controller :=
| Opened
| Serving
| Stopping (* admission stopped, waiting for the accept loop *)
| Collecting (* the accept loop joined *)
| Waiting (signals : list nat)
| Returned.

(** [rt_released]: [close] released the endpoint, the engine and the journal. *)
Record brokerRuntime := MkRuntime {
  rt_workers : ownedWorkers; rt_accepting : bool; rt_controller : controller;
  rt_started : bool; rt_joined : bool; rt_closed : bool; rt_released : bool }.

Definition closeRuntime (t : brokerRuntime) : brokerRuntime :=
  if rt_closed t then t
  else if rt_started t && negb (rt_joined t) then t
  else MkRuntime (rt_workers t) (rt_accepting t) (rt_controller t) (rt_started t) (rt_joined t) true true.

Definition with_workers (t : brokerRuntime) (r : ownedWorkers) : brokerRuntime :=
  MkRuntime r (rt_accepting t) (rt_controller t) (rt_started t) (rt_joined t) (rt_closed t) (rt_released t).
Definition to (t : brokerRuntime) (c : controller) : brokerRuntime :=
  MkRuntime (rt_workers t) (rt_accepting t) c (rt_started t) (rt_joined t) (rt_closed t) (rt_released t).
Definition parent_ends (r : ownedWorkers) : ownedWorkers :=
  MkRegistry true (ow_cancelled r) (ow_execCancelled r) (ow_fenced r) (ow_closing r) (ow_handlers r) (ow_workers r)
    (ow_next r).

Definition signal_given (t : brokerRuntime) (s : signal) : Prop :=
  match s with AcceptDone => rt_accepting t = false | WorkerDone h => is_done (rt_workers t) h = true end.

(** The accept loop, the handlers and the owning goroutine, interleaved.  A wait is
    a step that gives what [waitOwnedJoinClock] may give: joined only when every
    signal was given. *)
Inductive rstep : brokerRuntime → brokerRuntime → Prop :=
| step_start t r :
    rt_controller t = Opened → rt_closed t = false → newOwnedWorkers false false = Some r →
    rstep t (MkRuntime r true Serving true (rt_joined t) (rt_closed t) (rt_released t))
| step_refuse t : rt_controller t = Opened → rstep t (to t Returned)
| step_parent t : rstep t (with_workers t (parent_ends (rt_workers t)))
| step_register t locked :
    rt_accepting t = true → rstep t (with_workers t (register (rt_workers t) locked).1)
| step_scope t h locked : rstep t (with_workers t (nonRelay (rt_workers t) h locked).1)
| step_cancel t h r : closeCancel (rt_workers t) h = Some r → rstep t (with_workers t r)
| step_signal t h w :
    ow_workers (rt_workers t) !! h = Some w → wk_closed w = true → rstep t (with_workers t (closeSignal (rt_workers t) h))
| step_accept_ends t :
    rstep t (MkRuntime (rt_workers t) false (rt_controller t) (rt_started t) (rt_joined t) (rt_closed t) (rt_released t))
| step_stop t : rt_controller t = Serving → rstep t (to (with_workers t (stopAdmission (rt_workers t))) Stopping)
| step_accepts_joined t :
    rt_controller t = Stopping → signal_given t AcceptDone → rstep t (to t Collecting)
| step_accepts_late t : rt_controller t = Stopping → rstep t (to t Returned)
| step_collect t locked r signals :
    rt_controller t = Collecting → all (rt_workers t) locked = (r, Some signals) →
    rstep t (to (with_workers t r) (Waiting signals))
| step_collect_fails t : rt_controller t = Collecting → rstep t (to t Returned)
| step_joined t signals :
    rt_controller t = Waiting signals → signal_given t AcceptDone → Forall (λ h, signal_given t (WorkerDone h)) signals →
    rstep t (MkRuntime (rt_workers t) (rt_accepting t) Returned (rt_started t) true (rt_closed t) (rt_released t))
| step_late t signals : rt_controller t = Waiting signals → rstep t (to t Returned)
| step_close t : rt_controller t = Opened ∨ rt_controller t = Returned → rstep t (closeRuntime t).

Definition rlife : brokerRuntime → brokerRuntime → Prop := rtc rstep.
(** As [openBrokerRuntime] leaves it. *)
Definition opened_runtime : brokerRuntime :=
  MkRuntime (MkRegistry false false false false false ∅ ∅ 0) false Opened false false false false.
