(* ===== verification/ActionRuntimeSafety.v ===== *)
(** * Joined shutdown of the broker

    Over every interleaving of the accept loop, the handlers and the owning
    goroutine at most three handlers run, stopping admission is final, and the
    journal and the engine are released only when every handler ever registered
    has signalled its end.  The wait for those signals terminates within the
    quiescence deadline. *)

From S2P Require Import Prelude GoTime Effects ActionRuntime.
From S2P Require ActionBudget.
Import ActionBudget (Stamp, MkStamp, reading, boot, s_boot, s_clock, CheckQuiescence, Capture, Capture_inv, sub64, sub64_exact).

#[local] Open Scope Z_scope.

(** ** The registry *)

Record reg_ok (r : ownedWorkers) : Prop := {
  ro_known : ∀ h p, ow_handlers r !! h = Some p → is_Some (ow_workers r !! h);
  ro_kept : ∀ h w, ow_workers r !! h = Some w → wk_done w = false → is_Some (ow_handlers r !! h);
  ro_fresh : ∀ h w, ow_workers r !! h = Some w → (h < ow_next r)%nat;
  ro_few : (size (ow_handlers r) ≤ 3)%nat }.

Definition empty_registry : ownedWorkers := MkRegistry false false false false false ∅ ∅ 0.

Lemma reg_ok_empty : reg_ok empty_registry.
Proof. split; simpl; try (intros *; by rewrite lookup_empty). rewrite map_size_empty. lia. Qed.

Lemma pruned_lookup r h p :
  ow_handlers (pruneDone r) !! h = Some p ↔ ow_handlers r !! h = Some p ∧ is_done r h = false.
Proof. unfold pruneDone. simpl. by rewrite map_lookup_filter_Some. Qed.

Lemma undone r h w : ow_workers r !! h = Some w → is_done r h = wk_done w.
Proof. unfold is_done. by intros ->. Qed.

Lemma pruneDone_ok r : reg_ok r → reg_ok (pruneDone r).
Proof.
  intros [Hk Hp Hf Hs]. split.
  - intros h p [Hh _]%pruned_lookup. eauto.
  - intros h w Hw Hd. destruct (Hp h w Hw Hd) as [p Hh]. exists p. apply pruned_lookup. split; [done|].
    rewrite (undone r h w Hw). done.
  - done.
  - etransitivity; [|exact Hs]. unfold pruneDone. simpl. rewrite <- !size_dom.
    apply subseteq_size. apply dom_filter_subseteq.
Qed.

Lemma register_ok r locked r' x : reg_ok r → register r locked = (r', x) → reg_ok r'.
Proof.
  intros Hr. unfold register. destruct (_ || _); [by intros [= <- _]|]. cbv zeta.
  pose proof (pruneDone_ok r Hr) as [Hk Hp Hf Hs]. set (q := pruneDone r) in *. clearbody q.
  destruct (_ || _) eqn:E; [by intros [= <- _]|]. intros [= <- _].
  apply orb_false_iff in E as [_ E]. apply Nat.leb_gt in E.
  assert (Hn : ow_workers q !! ow_next q = None).
  { destruct (ow_workers q !! ow_next q) as [w|] eqn:Ew; [|done]. specialize (Hf _ _ Ew). lia. }
  split; simpl.
  - intros h p. destruct (decide (h = ow_next q)) as [->|Hne]; [rewrite !lookup_insert_eq; eauto|].
    rewrite !lookup_insert_ne by done. eauto.
  - intros h w. destruct (decide (h = ow_next q)) as [->|Hne]; [rewrite !lookup_insert_eq; eauto|].
    rewrite !lookup_insert_ne by done. eauto.
  - intros h w. destruct (decide (h = ow_next q)) as [->|Hne]; [intros _; lia|].
    rewrite lookup_insert_ne by done. intros Hw. specialize (Hf _ _ Hw). lia.
  - assert (ow_handlers q !! ow_next q = None).
    { destruct (ow_handlers q !! ow_next q) as [p|] eqn:Ep; [|done]. destruct (Hk _ _ Ep). congruence. }
    rewrite map_size_insert_None by done. lia.
Qed.

Lemma nonRelay_ok r h locked r' x : reg_ok r → nonRelay r h locked = (r', x) → reg_ok r'.
Proof.
  intros Hr. unfold nonRelay. destruct (_ || _); [by intros [= <- _]|].
  destruct (ow_workers r !! h) as [w|] eqn:Hw; [|by intros [= <- _]].
  destruct (_ || _) eqn:E; [by intros [= <- _]|]. intros [= <- _].
  assert (Hh : ow_handlers r !! h = Some greetingPhase).
  { apply orb_false_iff in E as [E _]. apply orb_false_iff in E as [E _]. apply orb_false_iff in E as [_ E]. by bools. }
  destruct Hr as [Hk Hp Hf Hs]. split; simpl; try done.
  - intros h' p. destruct (decide (h' = h)) as [->|Hne]; [by rewrite Hw|]. rewrite lookup_insert_ne by done. eauto.
  - intros h' w' Hw' Hd. destruct (decide (h' = h)) as [->|Hne]; [by rewrite lookup_insert_eq|].
    rewrite lookup_insert_ne by done. eauto.
  - by rewrite map_size_insert_Some by (by eexists).
Qed.

(** A change of one worker that does not reopen it. *)
Lemma set_worker_ok r h w w' :
  reg_ok r → ow_workers r !! h = Some w → (wk_done w = true → wk_done w' = true) → reg_ok (set_worker r h w').
Proof.
  intros [Hk Hp Hf Hs] Hw Hd. split; simpl; try done.
  - intros h' p Hh. destruct (decide (h' = h)) as [->|Hne]; [rewrite lookup_insert_eq; eauto|].
    rewrite lookup_insert_ne by done. eauto.
  - intros h' w0. destruct (decide (h' = h)) as [->|Hne].
    + rewrite lookup_insert_eq. intros [= <-] Hd'. apply (Hp h w Hw). destruct (wk_done w); [|done]. by rewrite Hd in Hd'.
    + rewrite lookup_insert_ne by done. eauto.
  - intros h' w0. destruct (decide (h' = h)) as [->|Hne]; [rewrite lookup_insert_eq; eauto|].
    rewrite lookup_insert_ne by done. eauto.
Qed.

Lemma closeCancel_ok r h r' : reg_ok r → closeCancel r h = Some r' → reg_ok r'.
Proof.
  intros Hr. unfold closeCancel. destruct (ow_workers r !! h) as [w|] eqn:Hw; [|done].
  destruct (wk_closed w); [done|]. intros [= <-]. by eapply set_worker_ok.
Qed.

Lemma closeSignal_ok r h : reg_ok r → reg_ok (closeSignal r h).
Proof.
  intros Hr. unfold closeSignal. destruct (ow_workers r !! h) as [w|] eqn:Hw; [|done]. by eapply set_worker_ok.
Qed.

(** Workers only close. *)
Definition aged (r r' : ownedWorkers) : Prop :=
  (∀ h w, ow_workers r !! h = Some w → ∃ w', ow_workers r' !! h = Some w' ∧ (wk_done w = true → wk_done w' = true))
  ∧ (ow_cancelled r = true → ow_cancelled r' = true)
  ∧ (ow_execCancelled r = true → ow_execCancelled r' = true)
  ∧ (ow_fenced r = true → ow_fenced r' = true) ∧ (ow_closing r = true → ow_closing r' = true).

Lemma aged_refl r : aged r r.
Proof. repeat split; auto. intros h w Hw. by exists w. Qed.

Lemma aged_trans r r' r'' : aged r r' → aged r' r'' → aged r r''.
Proof.
  intros (Ha & ? & ? & ? & ?) (Hb & ? & ? & ? & ?). repeat split; auto.
  intros h w Hw. destruct (Ha h w Hw) as (w' & Hw' & ?). destruct (Hb h w' Hw') as (w'' & ? & ?). exists w''. auto.
Qed.

Lemma aged_same r r' :
  ow_workers r' = ow_workers r → (ow_cancelled r = true → ow_cancelled r' = true) →
  (ow_execCancelled r = true → ow_execCancelled r' = true) → (ow_fenced r = true → ow_fenced r' = true) →
  (ow_closing r = true → ow_closing r' = true) → aged r r'.
Proof. intros Hw ? ? ? ?. repeat split; auto. rewrite Hw. intros h w ?. by exists w. Qed.

Lemma aged_set_worker r h w w' :
  ow_workers r !! h = Some w → (wk_done w = true → wk_done w' = true) → aged r (set_worker r h w').
Proof.
  intros Hw Hd. repeat split; auto. intros h' w0 Hw0. simpl. destruct (decide (h' = h)) as [->|Hne].
  - rewrite lookup_insert_eq. exists w'. split; [done|]. by simplify_eq.
  - rewrite lookup_insert_ne by done. by exists w0.
Qed.

Lemma register_aged r locked : reg_ok r → aged r (register r locked).1.
Proof.
  intros Hr. unfold register. destruct (_ || _); [apply aged_refl|]. cbv zeta. destruct (_ || _); [by apply aged_same|].
  repeat split; auto. intros h w Hw. simpl. pose proof (ro_fresh r Hr h w Hw). rewrite lookup_insert_ne by lia. by exists w.
Qed.

Lemma nonRelay_aged r h locked : aged r (nonRelay r h locked).1.
Proof. unfold nonRelay. repeat case_match; by apply aged_same. Qed.

Lemma closeCancel_aged r h r' : closeCancel r h = Some r' → aged r r'.
Proof.
  unfold closeCancel. destruct (ow_workers r !! h) as [w|] eqn:Hw; [|done]. destruct (wk_closed w); [done|].
  intros [= <-]. by eapply aged_set_worker.
Qed.

Lemma closeSignal_aged r h : aged r (closeSignal r h).
Proof.
  unfold closeSignal. destruct (ow_workers r !! h) as [w|] eqn:Hw; [by eapply aged_set_worker|apply aged_refl].
Qed.

(** ** The runtime *)

Definition all_done (r : ownedWorkers) : Prop := ∀ h w, ow_workers r !! h = Some w → wk_done w = true.

Record rt_ok (t : brokerRuntime) : Prop := {
  rk_registry : reg_ok (rt_workers t);
  rk_unstarted : rt_controller t = Opened → rt_started t = false;
  rk_running : rt_started t = false → rt_controller t = Opened ∨ rt_controller t = Returned;
  rk_idle : rt_started t = false → rt_accepting t = false ∧ ow_workers (rt_workers t) = ∅;
  rk_quiet : rt_controller t = Collecting ∨ (∃ l, rt_controller t = Waiting l) → rt_accepting t = false;
  rk_waits : ∀ l, rt_controller t = Waiting l →
    ∀ h w, ow_workers (rt_workers t) !! h = Some w → wk_done w = false → h ∈ l;
  rk_stopped : rt_started t = true → rt_controller t ≠ Serving →
    ow_cancelled (rt_workers t) = true ∧ ow_execCancelled (rt_workers t) = true
    ∧ ow_fenced (rt_workers t) = true ∧ ow_closing (rt_workers t) = true;
  rk_joined : rt_joined t = true → rt_started t = true ∧ rt_accepting t = false ∧ all_done (rt_workers t);
  rk_released : rt_released t = true → rt_closed t = true ∧ (rt_started t = true → rt_joined t = true) }.

(** No worker appears and none is reopened. *)
Definition settles (r r' : ownedWorkers) : Prop :=
  ∀ h w', ow_workers r' !! h = Some w' → ∃ w, ow_workers r !! h = Some w ∧ (wk_done w' = false → wk_done w = false).

Lemma settles_same r r' : ow_workers r' = ow_workers r → settles r r'.
Proof. intros Hw h w Hh. rewrite Hw in Hh. by exists w. Qed.

Lemma settles_set_worker r h w w' :
  ow_workers r !! h = Some w → (wk_done w' = false → wk_done w = false) → settles r (set_worker r h w').
Proof.
  intros Hw Hd h' w0. simpl. destruct (decide (h' = h)) as [->|Hne].
  - rewrite lookup_insert_eq. intros [= <-]. by exists w.
  - rewrite lookup_insert_ne by done. intros Hw0. by exists w0.
Qed.

Lemma nonRelay_settles r h locked : settles r (nonRelay r h locked).1.
Proof. unfold nonRelay. repeat case_match; by apply settles_same. Qed.
Lemma closeCancel_settles r h r' : closeCancel r h = Some r' → settles r r'.
Proof.
  unfold closeCancel. destruct (ow_workers r !! h) as [w|] eqn:Hw; [|done]. destruct (wk_closed w); [done|].
  intros [= <-]. by eapply settles_set_worker.
Qed.
Lemma closeSignal_settles r h : settles r (closeSignal r h).
Proof.
  unfold closeSignal. destruct (ow_workers r !! h) as [w|] eqn:Hw; [by eapply settles_set_worker|by apply settles_same].
Qed.

(** A step of the handlers. *)
Lemma rt_ok_workers t r' :
  rt_ok t → reg_ok r' → aged (rt_workers t) r' → settles (rt_workers t) r' → rt_ok (with_workers t r').
Proof.
  intros [Hr Hu Hrun Hi Hq Hw Hst Hj Hrel] Hr' (Ha & ? & ? & ? & ?) Hset. split; simpl; try done.
  - intros Hs. destruct (Hi Hs) as [Hacc Hemp]. split; [done|]. apply map_empty. intros h.
    destruct (ow_workers r' !! h) as [w'|] eqn:E; [|done]. destruct (Hset h w' E) as (w & Hw0 & _). by rewrite Hemp, lookup_empty in Hw0.
  - intros l Hl h w' Hw' Hd. destruct (Hset h w' Hw') as (w & Hw0 & Hd'). eauto.
  - intros Hs Hc. destruct (Hst Hs Hc) as (? & ? & ? & ?). auto.
  - intros Hjn. destruct (Hj Hjn) as (? & Hacc & Hall). split; [done|]. split; [done|]. intros h w' Hw'.
    destruct (Hset h w' Hw') as (w & Hw0 & Hd). specialize (Hall h w Hw0). destruct (wk_done w'); [done|]. by rewrite Hd in Hall.
Qed.

(** A registration, while the accept loop runs. *)
Lemma rt_ok_register t locked :
  rt_accepting t = true → rt_ok t → rt_ok (with_workers t (register (rt_workers t) locked).1).
Proof.
  intros Hacc [Hr Hu Hrun Hi Hq Hw Hst Hj Hrel]. pose proof (register_aged _ locked Hr) as (_ & ? & ? & ? & ?).
  split; simpl; try done.
  - destruct (register (rt_workers t) locked) as [r' x] eqn:E. by eapply register_ok.
  - intros Hs. destruct (Hi Hs). congruence.
  - intros l Hl. rewrite Hq in Hacc by eauto. done.
  - intros Hs Hc. destruct (Hst Hs Hc) as (? & ? & ? & ?). auto.
  - intros Hjn. destruct (Hj Hjn) as (_ & ? & _). congruence.
Qed.

(** A step of the owning goroutine that leaves the registry alone. *)
Lemma rt_ok_to t c :
  rt_ok t → c ≠ Opened → c ≠ Serving → rt_controller t ≠ Serving →
  (c = Collecting → rt_accepting t = false) → (∀ l, c ≠ Waiting l) → (rt_started t = false → c = Returned) → rt_ok (to t c).
Proof.
  intros [Hr Hu Hrun Hi Hq Hw Hst Hj Hrel] Ho Hs Hs' Hc Hl Hret. split; simpl; try done; [auto|..].
  - intros [?|[l ?]]; [auto|]. by destruct (Hl l).
  - intros l ?. by destruct (Hl l).
  - intros ? _. auto.
Qed.

Lemma all_signals r locked r' signals h w :
  reg_ok r → all r locked = (r', Some signals) → ow_workers r' !! h = Some w → wk_done w = false → h ∈ signals.
Proof.
  intros Hr. unfold all. destruct locked; [|done]. cbn [negb]. cbv zeta. intros [= <- <-] Hw Hd.
  destruct (ro_kept _ (pruneDone_ok r Hr) h w Hw Hd) as [p Hp].
  apply list_elem_of_fmap. exists (h, p). split; [done|]. by apply elem_of_map_to_list.
Qed.

Lemma all_done_signals t l :
  (∀ h w, ow_workers (rt_workers t) !! h = Some w → wk_done w = false → h ∈ l) →
  Forall (λ h, signal_given t (WorkerDone h)) l → all_done (rt_workers t).
Proof.
  intros Hl HF h w Hw. destruct (wk_done w) eqn:Hd; [done|]. rewrite Forall_forall in HF.
  specialize (HF h (Hl h w Hw Hd)). simpl in HF. rewrite (undone _ _ _ Hw) in HF. congruence.
Qed.

Lemma closeRuntime_ok t : rt_ok t → rt_ok (closeRuntime t).
Proof.
  intros Ht. unfold closeRuntime. destruct (rt_closed t) eqn:Hc; [done|]. destruct (_ && _) eqn:E; [done|].
  destruct Ht as [Hr Hu Hrun Hi Hq Hw Hst Hj Hrel]. split; simpl; try done. intros _. split; [done|]. intros Hs.
  rewrite Hs in E. simpl in E. by apply negb_false_iff in E.
Qed.

Lemma rstep_ok t t' : rstep t t' → rt_ok t → rt_ok t'.
Proof.
  intros Hs Ht. destruct Hs as [t r Hc Hcl Hn|t Hc|t|t locked Hacc|t h locked|t h r Hcl|t h w Hw Hcl|t|t Hc|t Hc Hsg
    |t Hc|t locked r signals Hc Hall|t Hc|t l Hc Hacc HF|t l Hc|t Hc].
  - injection Hn as <-. destruct Ht as [Hr Hu Hrun Hi Hq Hw Hst Hj Hrel]. specialize (Hu Hc). split; simpl; try done.
    + apply reg_ok_empty.
    + by intros [?|[? ?]].
    + intros Hjn. destruct (Hj Hjn). congruence.
    + intros Hrl. destruct (Hrel Hrl). congruence.
  - apply rt_ok_to; try done; by rewrite Hc.
  - apply rt_ok_workers; [done| |by apply aged_same|by apply settles_same]. by destruct (rk_registry _ Ht).
  - by apply rt_ok_register.
  - apply rt_ok_workers; [done| |apply nonRelay_aged|apply nonRelay_settles].
    destruct (nonRelay (rt_workers t) h locked) as [r' x] eqn:E. eapply nonRelay_ok; [apply Ht|exact E].
  - apply rt_ok_workers; [done| |by eapply closeCancel_aged|by eapply closeCancel_settles].
    eapply closeCancel_ok; [apply Ht|exact Hcl].
  - apply rt_ok_workers; [done|apply closeSignal_ok, Ht|apply closeSignal_aged|apply closeSignal_settles].
  - destruct Ht as [Hr Hu Hrun Hi Hq Hw Hst Hj Hrel]. split; simpl; try done; [intros Hs; by destruct (Hi Hs)|].
    intros Hjn. by destruct (Hj Hjn) as (? & ? & ?).
  - destruct Ht as [Hr Hu Hrun Hi Hq Hw Hst Hj Hrel]. split; simpl; try done; [by destruct Hr|intros Hs; destruct (Hrun Hs); congruence|by intros [?|[? ?]]].
  - apply rt_ok_to; try done; [by rewrite Hc|]. intros Hs. destruct (rk_running _ Ht Hs); congruence.
  - apply rt_ok_to; try done; by rewrite Hc.
  - pose proof (rk_registry _ Ht) as Hreg. 
    assert (Hr' : r = pruneDone (rt_workers t)).
    { unfold all in Hall. destruct locked; [|done]. by injection Hall. }
    assert (Hok : rt_ok (with_workers t r)).
    { apply rt_ok_workers; [done|subst r; by apply pruneDone_ok|subst r; by apply aged_same|subst r; by apply settles_same]. }
    destruct Hok as [Hr Hu Hrun Hi Hq Hw Hst Hj Hrel]. simpl in *. split; simpl; try done.
    + intros Hs. destruct (Hrun Hs); congruence.
    + intros _. apply Hq. by left.
    + intros l [= <-] h w. by eapply (all_signals (rt_workers t)).
    + intros Hs _. apply Hst; [done|]. by rewrite Hc.
  - apply rt_ok_to; try done; by rewrite Hc.
  - pose proof (all_done_signals t l (rk_waits _ Ht l Hc) HF) as Hdone.
    destruct Ht as [Hr Hu Hrun Hi Hq Hw Hst Hj Hrel]. split; simpl; try done.
    + intros _. by right.
    + intros Hs _. apply Hst; [done|]. by rewrite Hc.
    + intros _. split; [|done]. destruct (rt_started t); [done|]. destruct (Hrun eq_refl); congruence.
    + intros Hrl. by destruct (Hrel Hrl).
  - apply rt_ok_to; try done; by rewrite Hc.
  - by apply closeRuntime_ok.
Qed.

Lemma opened_ok : rt_ok opened_runtime.
Proof.
  split; simpl; try done; [apply reg_ok_empty|intros _; by left].
Qed.

Lemma rlife_ok t t' : rlife t t' → rt_ok t → rt_ok t'.
Proof. intros Hl. induction Hl as [|t t1 t2 Hs _ IH]; [done|]. intros Ht. apply IH. by eapply rstep_ok. Qed.

(** The handlers that have not signalled their end. *)
Definition running (r : ownedWorkers) : list nat :=
  (map_to_list (filter (λ x, wk_done x.2 = false) (ow_workers r))).*1.

Lemma running_few r : reg_ok r → (length (running r) ≤ 3)%nat.
Proof.
  intros [Hk Hp Hf Hs]. unfold running. rewrite length_fmap, length_map_to_list. etransitivity; [|exact Hs].
  rewrite <- !size_dom. apply subseteq_size. intros h (w & [Hw Hd]%map_lookup_filter_Some)%elem_of_dom.
  apply elem_of_dom. by eapply Hp.
Qed.

(** C11: Over every interleaving of the accept loop, the handlers and the owning
    goroutine, from the opened runtime on: at most three handlers are running; once
    admission was stopped no handler obtains the execution scope and every scope
    handed out before is cancelled; and when the runtime released the endpoint, the
    engine and the journal, the accept loop had ended and every handler ever
    registered had signalled its end. *)
Theorem shutdown_is_joined t :
  rlife opened_runtime t →
  (length (running (rt_workers t)) ≤ 3)%nat
  ∧ (rt_started t = true → rt_controller t ≠ Serving →
       (∀ h locked, (nonRelay (rt_workers t) h locked).2 = false) ∧ ∀ w, scope_err (rt_workers t) w = true)
  ∧ (rt_released t = true → rt_accepting t = false ∧ all_done (rt_workers t)).
Proof.
  intros Hl. pose proof (rlife_ok _ _ Hl opened_ok) as Ht. split; [apply running_few, Ht|]. split.
  - intros Hs Hc. destruct (rk_stopped _ Ht Hs Hc) as (H1 & H2 & H3 & H4). split.
    + intros h locked. unfold nonRelay. by rewrite H3.
    + intros w. unfold scope_err, execution_err, run_err. by rewrite H1, !orb_true_r.
  - intros Hr. destruct (rk_released _ Ht Hr) as [_ Hj]. destruct (rt_started t) eqn:Hs.
    + by destruct (rk_joined _ Ht (Hj eq_refl)) as (_ & ? & ?).
    + destruct (rk_idle _ Ht Hs) as [? He]. split; [done|]. intros h w. by rewrite He, lookup_empty.
Qed.

(** ** The wait terminates *)

(** Boot time, ticks received and signals given. *)
Record jworld := MkJworld { jw_boot : Z; jw_ticks : Z; jw_given : list signal }.

(** Time passes and signals stay given. *)
Definition later (w w' : jworld) : Prop :=
  jw_boot w ≤ jw_boot w' ∧ jw_ticks w' = jw_ticks w ∧ ∀ s, s ∈ jw_given w → s ∈ jw_given w'.

Section join.
Variables (clock : Z) (original : Stamp) (start : Z).

(** The clock reads the boot time; a channel is seen closed only after it was
    closed; the [n]th tick arrives no earlier than [n] periods of 25 ms after the
    ticker was started. *)
Definition join_env A (e : JoinCall A) : jworld → A → jworld → Prop :=
  match e in JoinCall T return jworld → T → jworld → Prop with
  | JCtxErr => λ w _ w', later w w'
  | JRead => λ w a w', later w w' ∧ match a with Some r => boot r = jw_boot w' | None => True end
  | JDone s => λ w a w', later w w' ∧ (a = true → s ∈ jw_given w')
  | JSelect s => λ w a w',
      match a with
      | SelDone => later w w' ∧ s ∈ jw_given w'
      | SelExpired => later w w'
      | SelPoll => jw_boot w ≤ jw_boot w' ∧ jw_ticks w' = jw_ticks w + 1
          ∧ start + jw_ticks w' * (25 * Millisecond) ≤ jw_boot w' ∧ ∀ s, s ∈ jw_given w → s ∈ jw_given w'
      end
  end.

Hypothesis captured : 0 ≤ s_boot original ≤ start.

Record ticking (w : jworld) : Prop := {
  tk_ticks : 0 ≤ jw_ticks w ≤ 3000;
  tk_boot : start + jw_ticks w * (25 * Millisecond) ≤ jw_boot w }.

Lemma ticking_later w w' : ticking w → later w w' → ticking w'.
Proof. intros [Ht Hb] (? & Heq & _). split; rewrite Heq; lia. Qed.

Lemma later_refl w : later w w.
Proof. by split; [lia|split]. Qed.
Lemma later_trans w w' w'' : later w w' → later w' w'' → later w w''.
Proof. intros (? & ? & ?) (? & ? & ?). split; [lia|]. split; [congruence|auto]. Qed.

(** A passing check is less than 75 s after the original stamp. *)
Lemma CheckQuiescence_bound e e' deadline read :
  CheckQuiescence clock e e' original deadline read = true →
  ∃ r, read = Some r ∧ boot r < s_boot original + 75 * Second.
Proof.
  unfold CheckQuiescence. destruct (_ || _); [done|]. destruct (Capture clock read) as [now|] eqn:Hc; [|done].
  destruct read as [r|]; [|done]. apply Capture_inv in Hc as (-> & _ & Hb & _). intros H. exists r. split; [done|].
  set (limit := match deadline with None => _ | Some _ => _ end) in H.
  assert (limit ≤ 75 * Second) by (unfold limit; destruct deadline; lia). bools. unfold s_boot in *. simpl in *.
  match goal with H : ActionBudget.continuous _ _ = true |- _ => rename H into Hcont end.
  unfold ActionBudget.continuous, ActionBudget.continuousWithin in Hcont. destruct (_ || _) eqn:E in Hcont; [done|].
  clear Hcont. unfold s_boot in E. simpl in E. bools.
  match goal with H : sub64 _ _ < _ |- _ => rewrite sub64_exact in H by (unfold Second in *; lia) end. lia.
Qed.

Lemma checkQuiescence_wp deadline Q w :
  ticking w →
  (∀ ok w', ticking w' → later w w' → (ok = true → jw_ticks w' < 3000) → Q ok w') →
  wp join_env (checkQuiescence clock original deadline) Q w.
Proof.
  intros Ht HQ. unfold checkQuiescence. apply wpc_call; [done|]. intros e w1 L1. simpl in L1.
  apply wpc_call; [done|]. intros read w2 [L2 Hread]. apply wpc_call; [done|]. intros e' w3 L3. simpl in L3.
  pose proof (ticking_later _ _ Ht L1) as T1. pose proof (ticking_later _ _ T1 L2) as T2.
  pose proof (ticking_later _ _ T2 L3) as T3. apply wpc_ret; [done|].
  apply HQ; [done|by eauto using later_trans|]. intros Hok.
  apply CheckQuiescence_bound in Hok as (r & -> & Hr). destruct T2 as [_ Hb], L3 as (_ & -> & _).
  unfold Millisecond, Second in *. lia.
Qed.

Lemma waitOne_wp fuel deadline s Q w :
  ticking w → 3000 < jw_ticks w + Z.of_nat fuel →
  (∀ x w', ticking w' → (∀ s, s ∈ jw_given w → s ∈ jw_given w') → jw_ticks w ≤ jw_ticks w' →
     (x = Arrived ∧ s ∈ jw_given w') ∨ x = Late → Q x w') →
  wp join_env (waitOne clock original fuel deadline s) Q w.
Proof.
  revert w. induction fuel as [|fuel IH]; intros w Ht Hf HQ; cbn [waitOne].
  { destruct Ht as [Ht _]. lia. }
  apply wpc_bind, checkQuiescence_wp; [done|]. intros ok w1 T1 (Hb1 & Hk1 & Hg1) Hok.
  destruct ok; cbn [negb]; [|apply wpc_ret; [done|]; apply HQ; [done|done|lia|by right]].
  specialize (Hok eq_refl). apply wpc_call; [done|]. intros sel w2 Henv. destruct sel; simpl in Henv.
  - destruct Henv as [L2 Hs]. pose proof (ticking_later _ _ T1 L2). destruct L2 as (? & ? & ?).
    apply wpc_ret; [done|]. apply HQ; [done|auto|lia|by left].
  - pose proof (ticking_later _ _ T1 Henv). destruct Henv as (? & ? & ?).
    apply wpc_ret; [done|]. apply HQ; [done|auto|lia|by right].
  - destruct Henv as (Hb2 & Hk2 & Hp & Hg2). assert (T2 : ticking w2) by (destruct T1; split; lia).
    apply IH; [done|lia|]. intros x w3 T3 Hg3 Hk3 Hx. apply HQ; [done|auto|lia|done].
Qed.

Lemma waitEach_wp fuel deadline signals Q w :
  ticking w → 3000 < jw_ticks w + Z.of_nat fuel →
  (∀ x w', ticking w' → (∀ s, s ∈ jw_given w → s ∈ jw_given w') →
     (x = Arrived ∧ ∀ s, s ∈ signals → s ∈ jw_given w') ∨ x = Late → Q x w') →
  wp join_env (waitEach clock original fuel deadline signals) Q w.
Proof.
  revert w. induction signals as [|s signals IH]; intros w Ht Hf HQ; cbn [waitEach].
  { apply wpc_ret; [done|]. apply HQ; [done|done|]. left. split; [done|]. by intros s ?%not_elem_of_nil. }
  apply wpc_bind, waitOne_wp; [done|done|]. intros x w1 T1 Hg1 Hk1 [[-> Hs]| ->].
  - apply IH; [done|lia|]. intros x w2 T2 Hg2 Hx. apply HQ; [done|auto|]. destruct Hx as [[-> Hall]| ->]; [left|by right].
    split; [done|]. intros s' [->|Hin]%elem_of_cons; auto.
  - apply wpc_ret; [done|]. apply HQ; [done|done|by right].
Qed.

Lemma allOwnedDone_wp signals (Q : bool → jworld → Prop) w :
  (∀ x w', (x = true → ∀ s, s ∈ signals → s ∈ jw_given w') → (∀ s, s ∈ jw_given w → s ∈ jw_given w') → Q x w') →
  wp join_env (allOwnedDone signals) Q w.
Proof.
  revert w Q. induction signals as [|s signals IH]; intros w Q HQ; cbn [allOwnedDone].
  { apply wpc_ret; [done|]. apply HQ; [|done]. by intros _ s ?%not_elem_of_nil. }
  apply wpc_call; [done|]. intros d w1 [(_ & _ & Hg) Hd]. destruct d; cbn [negb].
  - apply IH. intros x w2 Hx Hg2. apply HQ; [|auto]. intros Ht s' [->|Hin]%elem_of_cons; auto.
  - apply wpc_ret; [done|]. by apply HQ.
Qed.
End join.

(** C39: The wait for the handlers ends: 3001 rounds of each signal's loop are always
    enough, since a round either ends it or consumes one of the 25 ms ticks, of which
    fewer than 3000 fit before the quiescence check of the original stamp fails.  When
    it reports that all joined, every signal was given. *)
Theorem join_terminates clock original fuel signals w :
  0 ≤ s_boot original ≤ jw_boot w → jw_ticks w = 0 → (3001 ≤ fuel)%nat →
  wp (join_env (jw_boot w)) (waitOwnedJoinClock clock original fuel signals)
    (λ r w', ∃ joined timely, r = Some (joined, timely)
       ∧ (joined = true → ∀ s, s ∈ signals → s ∈ jw_given w')) w.
Proof.
  intros Ho Hz Hf. set (start := jw_boot w). assert (Ht : ticking start w) by (split; unfold start; lia).
  unfold waitOwnedJoinClock. destruct (_ <? _)%nat; [apply wpc_ret; [done|]; by exists false, false|].
  assert (Hlate : ∀ u, wp (join_env start) (bind (allOwnedDone signals) (λ joined, Ret (Some (joined, false))))
    (λ r w', ∃ joined timely, r = Some (joined, timely) ∧ (joined = true → ∀ s, s ∈ signals → s ∈ jw_given w')) u).
  { intros u. apply wpc_bind, allOwnedDone_wp. intros x u' Hx _. apply wpc_ret; [done|]. by exists x, false. }
  unfold QuiescenceContext. apply wpc_bind, wpc_bind. apply (checkQuiescence_wp _ _ start); [done|done|].
  intros ok w1 T1 (_ & Hk1 & _) _. destruct ok; cbn [negb]; [|apply wpc_ret; [done|apply Hlate]].
  apply wpc_call; [done|]. intros e w2 L2. pose proof (ticking_later _ _ _ T1 L2) as T2. destruct L2 as (_ & Hk2 & _).
  apply wpc_ret; [done|]. destruct e; [apply Hlate|].
  apply wpc_bind, (waitEach_wp _ _ start); [done|done|lia|]. intros x w3 T3 _ [[-> Hall]| ->]; [|apply Hlate].
  apply wpc_bind, (checkQuiescence_wp _ _ start); [done|done|]. intros ok w4 _ (_ & _ & Hg) _. apply wpc_ret; [done|].
  exists true, ok. split; [done|]. auto.
Qed.

(** ** Witnesses *)

(** One handler registers, is stopped and signals; the runtime is joined and closed. *)
Module RuntimeSample.
Definition t1 : brokerRuntime := MkRuntime empty_registry true Serving true false false false.
Definition t2 : brokerRuntime := with_workers t1 (register empty_registry true).1.
Definition t3 : brokerRuntime := to (with_workers t2 (stopAdmission (rt_workers t2))) Stopping.
Definition t4 : brokerRuntime := MkRuntime (rt_workers t3) false Stopping true false false false.
Definition t5 : brokerRuntime := to t4 Collecting.
Definition t6 : brokerRuntime := to (with_workers t5 (all (rt_workers t5) true).1) (Waiting [0%nat]).
Definition r7 : ownedWorkers := set_worker (rt_workers t6) 0 (MkWorker true true true false).
Definition t7 : brokerRuntime := with_workers t6 r7.
Definition t8 : brokerRuntime := with_workers t7 (closeSignal r7 0).
Definition t9 : brokerRuntime := MkRuntime (rt_workers t8) false Returned true true false false.
Definition t10 : brokerRuntime := closeRuntime t9.

Lemma runtime_life : rlife opened_runtime t10.
Proof.
  apply (rtc_l _ _ t1); [by apply (step_start opened_runtime)|].
  apply (rtc_l _ _ t2); [by apply (step_register t1 true)|].
  apply (rtc_l _ _ t3); [by apply (step_stop t2)|].
  apply (rtc_l _ _ t4); [apply (step_accept_ends t3)|].
  apply (rtc_l _ _ t5); [by apply (step_accepts_joined t4)|].
  apply (rtc_l _ _ t6); [by apply (step_collect t5 true)|].
  apply (rtc_l _ _ t7); [by apply (step_cancel t6 0)|].
  apply (rtc_l _ _ t8); [by eapply (step_signal t7 0)|].
  apply (rtc_l _ _ t9); [by apply (step_joined t8 [0%nat]); [..|repeat constructor]|].
  apply rtc_once. apply (step_close t9). by right.
Qed.
End RuntimeSample.

Lemma shutdown_is_joined_witness :
  rt_released RuntimeSample.t10 = true ∧ size (ow_workers (rt_workers RuntimeSample.t10)) = 1%nat
  ∧ all_done (rt_workers RuntimeSample.t10).
Proof.
  split; [reflexivity|]. split; [reflexivity|].
  refine (proj2 (proj2 (proj2 (shutdown_is_joined RuntimeSample.t10 RuntimeSample.runtime_life)) _)). reflexivity.
Defined.

Definition sample_stamp : Stamp := MkStamp 1 (ActionBudget.MkReading (Time 0 InUTC) (Time 0 InUTC) 1000).

Lemma join_terminates_witness :
  wp (join_env 2000) (waitOwnedJoinClock 1 sample_stamp 3001 [AcceptDone; WorkerDone 0])
    (λ r w', ∃ joined timely, r = Some (joined, timely)
       ∧ (joined = true → ∀ s, s ∈ [AcceptDone; WorkerDone 0] → s ∈ jw_given w')) (MkJworld 2000 0 []).
Proof.
  refine (join_terminates 1 sample_stamp 3001 [AcceptDone; WorkerDone 0] (MkJworld 2000 0 []) _ _ _).
  - vm_compute. split; discriminate.
  - reflexivity.
  - apply le_n.
Defined.
