(* ===== verification/ActionClient.v ===== *)
(** * The action worker ([internal/actionworker])

    The other end of a broker conversation: it claims work from the server for the
    targets the broker approved, relays the two authority checks and the final
    report, and latches itself off as soon as an exchange ends uncertainly.
    [runWorkerLoop] holds one conversation after the other.  Remote operations,
    frames, clock readings and the latch are calls.  Of a recovery relay the
    exchange with the broker is modelled, one query and one reply after the other;
    reading a query from its text ([DecodeRecoveryQuery]) and carrying it out with
    the server ([deliver]) are calls. *)

From S2P Require Import Prelude GoTime GoText Sha256 Effects ActionReceipt ActionPolicy ActionBroker ActionExecution.
From S2P Require ActionCore.
Import ActionCore (Operation(..), Code(..), Operation_eq_dec, Code_eq_dec).

#[local] Open Scope string_scope.
#[local] Open Scope Z_scope.

(** ** Documents *)

Record ResultReceipt := MkResultReceipt {
  rc_Request : RequestReceipt; rc_ExecutionLeaseID : string; rc_ReportingCredentialID : string;
  rc_ReportingCredentialRevision : string; rc_ResultCode : Code; rc_RecordedAt : string; rc_CorrelationID : string }.

Definition MatchResultReceipt (c : Claim) (r : ResultReceipt) : bool :=
  match ParseHTTPTime (rc_RecordedAt r), ParseHTTPTime (cm_ClaimedAt c), ParseHTTPTime (cm_LeaseExpiresAt c) with
  | Some recorded, Some claimed, Some expires =>
      (rc_Request r == cm_Request c) && str_eqb (rc_ExecutionLeaseID r) (cm_ExecutionLeaseID c)
      && negb (Before recorded claimed) && Before recorded expires
  | _, _, _ => false
  end.

Definition DecodeCheckRequest (p : Payload) : option CheckRequest :=
  match p with
  | PChallenge q =>
      if negb (identifier (cr_ExecutionLeaseID q) "hle_")
         || (negb (str_eqb (cr_Checkpoint q) "1") && negb (str_eqb (cr_Checkpoint q) "2"))
         || negb (nonce (cr_CheckNonce q)) || negb (ValidateRequest (cr_Request q)) then None
      else Some q
  | _ => None
  end.

(** [LocalEntry] differs from an entry in its JSON names only. *)
Definition DecodeApprovalSnapshot (p : Payload) : option ApprovalSnapshot :=
  match p with
  | PApproval s =>
      if negb (identifier (ap_ServerID s) "srv_") || negb (identifier (ap_OwnerUserID s) "usr_")
         || negb (identifier (ap_ConnectorInstanceID s) "agent_") || (32 <? Z.of_nat (length (ap_Entries s)))
         || negb (ValidateEntries (ap_Entries s)) then None
      else Some s
  | _ => None
  end.

Definition DecodeSnapshotQuery (p : Payload) : option SnapshotQuery :=
  match p with PQuery q => if ValidateSnapshotQuery q then Some q else None | _ => None end.

Definition decode_report (p : Payload) : option Report :=
  match p with PReport r => DecodeReport r | _ => None end.

(** The bodies of recovery documents stay texts. *)
Record RecoveryQuery := MkRecoveryQuery {
  ry_Operation : string; ry_ActionID : string; ry_RemoteReceiptDigest : string; ry_Body : string }.

Record RecoveryReply := MkRecoveryReply {
  rl_Operation : string; rl_ActionID : string; rl_RemoteReceiptDigest : string; rl_Outcome : string; rl_Body : string }.

(** ** Time *)

Record nativeStamp := MkNative { ns_at : time; ns_boot : Z }.

Definition executionHorizon : Z := 89 * Second.
Definition reportingHorizon : Z := 119 * Second.

(** [time.Now()] and [CLOCK_BOOTTIME]. *)
Definition captureStamp (at' : time) (gettime : option (Z * Z)) : option nativeStamp :=
  match gettime with
  | None => None
  | Some (sec, nsec) =>
      if (sec <? 0) || (nsec <? 0) || (Second <=? nsec) || (MaxInt64 / Second - 134 <? sec) then None
      else Some (MkNative at' (wrap_i64 (wrap_i64 (sec * Second) + nsec)))
  end.

Definition elapsed (from to : nativeStamp) (limit : Z) : option Z :=
  let boot := wrap_i64 (ns_boot to - ns_boot from) in
  let mono := Sub (ns_at to) (ns_at from) in
  let wall := Sub (UTC (ns_at to)) (UTC (ns_at from)) in
  if IsZero (ns_at from) || IsZero (ns_at to) || (boot <? 0) || (limit <=? boot) || (mono <? 0) || (wall <? 0)
     || (mono <? wrap_i64 (boot - 100 * Millisecond)) || (wrap_i64 (boot + 100 * Millisecond) <? mono)
     || (wall <? wrap_i64 (boot - 100 * Millisecond)) || (wrap_i64 (boot + 100 * Millisecond) <? wall)
  then None else Some boot.

(** ** Calls *)

Inductive Selection := NoSelection | BadSelection | Selected (e : Envelope).
Inductive Connection := BrokerAbsent | DialFailed | Connected.

Inductive ClientCall : Type → Type :=
| CSend (kind nonce ordinal : string) (p : Payload) : ClientCall bool
| CSelection : ClientCall Selection (* actionipc.ReadWorkerSelection *)
| CMessage : ClientCall (option Envelope) (* actionipc.ReadExecutionMessage *)
| CStamp : ClientCall (time * option (Z * Z)) (* the readings of captureStamp *)
| CRandom : ClientCall (option string)
| CDisabled : ClientCall bool (* executionDisabled *)
| CDisable : ClientCall unit (* disableExecution *)
| CCtxErr : ClientCall bool
| CRefresh (q : SnapshotQuery) : ClientCall (SnapshotReply * bool) (* with err == nil *)
| CClaim (nonce : string) (targets : list string) : ClientCall (option (option Claim))
| CCheck (q : CheckRequest) : ClientCall (option ExecutionDecision)
| CReport (action : string) (r : Report) : ClientCall (option ResultReceipt)
| CRecoveryQuery (p : Payload) : ClientCall (option RecoveryQuery) (* actionprotocol.DecodeRecoveryQuery *)
| CRecovers : ClientCall bool (* w.remote is a recoveryDelivery *)
| CDeliver (q : RecoveryQuery) : ClientCall RecoveryReply (* recoveryRelay.deliver *)
| CReply (nonce ordinal : string) (r : RecoveryReply) : ClientCall bool (* sendLocal of a RECOVERY_REPLY *)
| CContinuation : ClientCall (option Envelope) (* actionipc.ReadRecoveryContinuation *)
| CConnect : ClientCall Connection
| CPace : ClientCall bool.

Local Open Scope prog_scope.

(** How [converse] returns: nil, [ErrNoSelection], [errInitialSelection] or [ErrUnsafe]. *)
Inductive Conversed := Fine | Unselected | BadInitial | Unsafe.

#[global] Instance Conversed_eq_dec : EqDecision Conversed.
Proof. solve_decision. Defined.

Definition stamp : prog ClientCall (option nativeStamp) :=
  r <~ CStamp; Ret (captureStamp r.1 r.2).

(** [captureErr != nil || w.executionDisabled()], then [elapsed(from, now, limit)]. *)
Definition enabledWithin (from : nativeStamp) (limit : Z) : prog ClientCall (option nativeStamp) :=
  now <- stamp;
  match now with
  | None => Ret None
  | Some now =>
      disabled <~ CDisabled;
      if disabled : bool then Ret None
      else Ret (match elapsed from now limit with Some _ => Some now | None => None end)
  end.

(** ** Recovery relays *)

(** [sampleErr != nil || relayInBudget(ctx, origin, start, end) != nil] *)
Definition relayInBudget (origin start : nativeStamp) (end_ : option nativeStamp) : prog ClientCall bool :=
  match end_ with
  | None => Ret false
  | Some end_ =>
      expired <~ CCtxErr;
      Ret (negb expired && bool_decide (is_Some (elapsed origin end_ (90 * Second)))
           && bool_decide (is_Some (elapsed start end_ (5 * Second))))
  end.

Definition nextRecoveryOperation (previous next : string) (ordinal : nat) : bool :=
  match ordinal with
  | 1%nat => str_eqb previous "RETAINED" && (str_eqb next "PROPOSE" || str_eqb next "STATUS")
  | 2%nat => str_eqb previous "STATUS" && str_eqb next "CHECK"
  | 3%nat => str_eqb previous "CHECK" && str_eqb next "FINALIZE"
  | 4%nat => str_eqb previous "FINALIZE" && str_eqb next "STATUS"
  | _ => false
  end.

(** The condition under which the relay is over. *)
Definition relay_ends (ordinal : nat) (q : RecoveryQuery) (reply : RecoveryReply) : bool :=
  let asks o := str_eqb (ry_Operation q) o in
  let ok := str_eqb (rl_Outcome reply) "OK" in
  asks "PROPOSE" || (asks "STATUS" && ((ordinal =? 1)%nat || (ordinal =? 5)%nat)) || (asks "FINALIZE" && ok)
  || (ordinal =? 5)%nat || (negb ok && negb (asks "FINALIZE")).

(** The loop of [relayRecovery]: [rounds] are left, [label] is the ordinal of
    the message that asked [q], whether it returns nil. *)
Fixpoint relayLoop (rounds ordinal : nat) (nonce : string) (origin : nativeStamp) (label : string) (q : RecoveryQuery) :
    prog ClientCall bool :=
  match rounds with
  | O => Ret false
  | S rounds =>
      start <- stamp;
      match start with
      | None => Ret false
      | Some start =>
          expired <~ CCtxErr;
          if expired || negb (bool_decide (is_Some (elapsed origin start (90 * Second)))) then Ret false
          else
            reply <~ CDeliver q;
            end_ <- stamp;
            ok <- relayInBudget origin start end_;
            if negb ok then Ret false
            else
              sent <~ CReply nonce label reply;
              end_ <- stamp;
              if negb sent then Ret false
              else
                ok <- relayInBudget origin start end_;
                if negb ok then Ret false
                else if relay_ends ordinal q reply then Ret true
                else
                  message <~ CContinuation;
                  received <- stamp;
                  match message, received with
                  | Some message, Some received =>
                      expired <~ CCtxErr;
                      if expired || negb (bool_decide (is_Some (elapsed origin received (90 * Second)))) then Ret false
                      else if negb (str_eqb (ev_Nonce message) nonce)
                              || negb (str_eqb (ev_Ordinal message) (FormatUint (Z.of_nat ordinal + 1))) then Ret false
                      else
                        next <~ CRecoveryQuery (ev_Payload message);
                        match next with
                        | None => Ret false
                        | Some next =>
                            if negb (str_eqb (ry_ActionID next) (ry_ActionID q))
                               || negb (str_eqb (ry_RemoteReceiptDigest next) (ry_RemoteReceiptDigest q))
                               || negb (nextRecoveryOperation (ry_Operation q) (ry_Operation next) ordinal) then Ret false
                            else relayLoop rounds (S ordinal) nonce origin (ev_Ordinal message) next
                        end
                  | _, _ => Ret false
                  end
      end
  end.

Definition relayRecovery (first : Envelope) : prog ClientCall bool :=
  query <~ CRecoveryQuery (ev_Payload first);
  match query with
  | None => Ret false
  | Some q =>
      let asks o := str_eqb (ry_Operation q) o in
      _ <- (if asks "STATUS" then Ret tt else perform CDisable);
      if negb (str_eqb (ev_Ordinal first) "1") || (negb (asks "STATUS") && negb (asks "RETAINED")) then Ret false
      else
        recovers <~ CRecovers;
        if negb recovers then Ret false
        else
          origin <- stamp;
          match origin with
          | None => Ret false
          | Some origin => relayLoop 5 1 (ev_Nonce first) origin (ev_Ordinal first) q
          end
  end.

Section client.
Variable binding : string * string * string. (* server, owner, connector instance *)

Definition bound (server owner instance : string) : bool :=
  str_eqb binding.1.1 server && str_eqb binding.1.2 owner && str_eqb binding.2 instance.

Definition entry_matches (r : RequestReceipt) (e : Entry) : bool :=
  str_eqb (rr_TargetID r) (en_TargetID e) && str_eqb (rr_TargetKey r) (en_TargetKey e)
  && (rr_Operation r == en_Operation e) && str_eqb (rr_ParameterSHA256 r) (en_ParameterSHA256 e)
  && str_eqb (rr_PolicyRevision r) (en_PolicyRevision e) && str_eqb (rr_CapabilityRevision r) (en_CapabilityRevision e)
  && (rr_Parameters r == en_Parameters e).

(** A claim that validates marshals and decodes to itself. *)
Definition claimApproved (claim : Claim) (approval : ApprovalSnapshot) : bool :=
  let r := cm_Request claim in
  bool_decide (DecodeClaim claim = Some claim)
  && bound (rr_ServerID r) (rr_OwnerUserID r) (rr_ConnectorInstanceID r) && str_eqb (rr_ActorUserID r) binding.1.2
  && existsb (entry_matches r) (ap_Entries approval).

(** The adjacent-duplicate removal over the approved targets. *)
Fixpoint claim_targets (seen : list string) (entries : list Entry) : list string :=
  match entries with
  | [] => seen
  | e :: rest =>
      claim_targets (match last seen with
                     | Some t => if str_eqb t (en_TargetID e) then seen else seen ++ [en_TargetID e]
                     | None => seen ++ [en_TargetID e]
                     end) rest
  end.

(** One checkpoint of the loop: the challenge it relayed, or [None] where it
    returns [ErrUnsafe]. *)
Definition relayCheck (nonce : string) (claim : Claim) (start : nativeStamp) (checkpoint : nat) (previous : string) :
    prog ClientCall (option string) :=
  let ordinal := FormatUint (Z.of_nat checkpoint + 2) in
  ready <- enabledWithin start executionHorizon;
  match ready with
  | None => Ret None
  | Some _ =>
      message <~ CMessage;
      match message with
      | None => Ret None
      | Some message =>
          if negb (str_eqb (ev_Kind message) "AUTHORITY_CHALLENGE") || negb (str_eqb (ev_Nonce message) nonce)
             || negb (str_eqb (ev_Ordinal message) ordinal) then Ret None
          else match DecodeCheckRequest (ev_Payload message) with
          | None => Ret None
          | Some query =>
              if (cr_Request query != cm_Request claim)
                 || negb (str_eqb (cr_ExecutionLeaseID query) (cm_ExecutionLeaseID claim))
                 || negb (str_eqb (cr_Checkpoint query) (FormatUint (Z.of_nat checkpoint)))
                 || str_eqb (cr_CheckNonce query) previous then Ret None
              else
                checkStart <- enabledWithin start executionHorizon;
                match checkStart with
                | None => Ret None
                | Some checkStart =>
                    decision <~ CCheck query;
                    match decision with
                    | None => Ret None
                    | Some decision =>
                        checkEnd <- enabledWithin checkStart (5 * Second);
                        match checkEnd with
                        | None => Ret None
                        | Some checkEnd =>
                            match elapsed start checkEnd executionHorizon with
                            | None => Ret None
                            | Some _ =>
                                let permitted := str_eqb (ed_Decision decision) "PERMITTED" in
                                _ <- (if permitted then Ret tt else perform CDisable);
                                if (ed_Request decision != cr_Request query)
                                   || negb (str_eqb (ed_ExecutionLeaseID decision) (cr_ExecutionLeaseID query))
                                   || negb (str_eqb (ed_Checkpoint decision) (cr_Checkpoint query))
                                   || negb (str_eqb (ed_CheckNonce decision) (cr_CheckNonce query)) then Ret None
                                else
                                  sent <~ CSend "AUTHORITY_REPLY" nonce (ev_Ordinal message) (PDecision decision);
                                  Ret (if negb sent || negb permitted then None else Some (cr_CheckNonce query))
                            end
                        end
                    end
                end
          end
      end
  end.

(** From the result of the execution on. *)
Definition relayReport (nonce : string) (claim : Claim) (start : nativeStamp) : prog ClientCall Conversed :=
  ready <- enabledWithin start reportingHorizon;
  match ready with
  | None => Ret Unsafe
  | Some _ =>
      message <~ CMessage;
      match message with
      | None => Ret Unsafe
      | Some message =>
          if negb (str_eqb (ev_Kind message) "RESULT") || negb (str_eqb (ev_Nonce message) nonce)
             || negb (str_eqb (ev_Ordinal message) "5") then Ret Unsafe
          else match decode_report (ev_Payload message) with
          | None => Ret Unsafe
          | Some report =>
              if (rp_Request report != cm_Request claim)
                 || negb (str_eqb (rp_ExecutionLeaseID report) (cm_ExecutionLeaseID claim))
                 || negb (str_eqb (rp_CorrelationID report) (cm_CorrelationID claim)) then Ret Unsafe
              else
                end_ <- stamp;
                match end_ with
                | None => Ret Unsafe
                | Some end_ =>
                    match elapsed start end_ reportingHorizon with
                    | None => Ret Unsafe
                    | Some _ =>
                        disabled <~ CDisabled;
                        if disabled : bool then Ret Unsafe
                        else
                          receipt <~ CReport (rr_ActionID (cm_Request claim)) report;
                          match receipt with
                          | None => Ret Unsafe
                          | Some receipt =>
                              if negb (MatchResultReceipt claim receipt)
                                 || (rc_ResultCode receipt != rp_ResultCode report)
                                 || negb (str_eqb (rc_CorrelationID receipt) (rp_CorrelationID report)) then Ret Unsafe
                              else
                                end_ <- stamp;
                                match end_ with
                                | None => Ret Unsafe
                                | Some end_ =>
                                    match elapsed start end_ reportingHorizon with
                                    | None => Ret Unsafe
                                    | Some _ =>
                                        _ <- (if rp_ResultCode report == OutcomeUnknown then perform CDisable else Ret tt);
                                        Ret Fine
                                    end
                                end
                          end
                    end
                end
          end
      end
  end.

(** The approval branch before its deferred latch. *)
Definition claimWork (nonce : string) (approval : ApprovalSnapshot) : prog ClientCall Conversed :=
  start <- stamp;
  match start with
  | None => Ret Unsafe
  | Some start =>
      random <~ CRandom;
      match random with
      | None => Ret Unsafe
      | Some bytes =>
          answer <~ CClaim (hexEncode bytes) (claim_targets [] (ap_Entries approval));
          match answer with
          | None => Ret Unsafe
          | Some claim =>
              disabled <~ CDisabled;
              if disabled : bool then Ret Unsafe
              else match claim with
              | None =>
                  sent <~ CSend "NO_CLAIM" nonce "2" PNone;
                  Ret (if sent : bool then Fine else Unsafe)
              | Some claim =>
                  recv <- stamp;
                  match recv with
                  | None => Ret Unsafe
                  | Some recv =>
                      match elapsed start recv (30 * Second) with
                      | None => Ret Unsafe
                      | Some rtt =>
                          if negb (claimApproved claim approval) then Ret Unsafe
                          else
                            sent <~ CSend "CLAIMED_EXECUTE" nonce "2" (PClaimed claim (FormatUint rtt));
                            if negb sent then Ret Unsafe
                            else
                              first <- relayCheck nonce claim start 1 "";
                              match first with
                              | None => Ret Unsafe
                              | Some challenge =>
                                  second <- relayCheck nonce claim start 2 challenge;
                                  match second with
                                  | None => Ret Unsafe
                                  | Some _ => relayReport nonce claim start
                                  end
                              end
                      end
                  end
              end
          end
      end
  end.

(** The snapshot branch before its deferred latch. *)
Definition refresh (nonce : string) (query : SnapshotQuery) : prog ClientCall Conversed :=
  answer <~ CRefresh query;
  let '(reply, clean) := answer in
  let ok := str_eqb (sy_Outcome reply) "OK" in
  if (negb clean && ok) || negb (bool_decide (is_Some (DecodeSnapshotReply reply)))
     || (ok && negb (MatchSnapshotReply query reply)) then Ret Unsafe
  else
    sent <~ CSend "SNAPSHOT_REPLY" nonce "2" (PReply reply);
    Ret (if sent : bool then Fine else Unsafe).

(** [defer func() { if result != nil { w.disableExecution() } }()] *)
Definition latched (p : prog ClientCall Conversed) : prog ClientCall Conversed :=
  r <- p;
  match r with
  | Fine => Ret Fine
  | r => _ <~ CDisable; Ret r
  end.

Definition converse : prog ClientCall Conversed :=
  expired <~ CCtxErr;
  if expired : bool then Ret Unsafe
  else
    sent <~ CSend "BEGIN" "00000000000000000000000000000000" "1" PNone;
    if negb sent then Ret Unsafe
    else
      selection <~ CSelection;
      match selection with
      | NoSelection => Ret Unselected
      | BadSelection => Ret BadInitial
      | Selected first =>
          if negb (str_eqb (ev_Version first) WorkerVersion) || negb (str_eqb (ev_Ordinal first) "1") then Ret BadInitial
          else if str_eqb (ev_Kind first) "RECOVERY_QUERY" then
            ok <- relayRecovery first; Ret (if ok : bool then Fine else Unsafe)
          else
            disabled <~ CDisabled;
            if disabled : bool then Ret Unsafe
            else if str_eqb (ev_Kind first) "SNAPSHOT_QUERY" then
              match DecodeSnapshotQuery (ev_Payload first) with
              | None => Ret Unsafe
              | Some query =>
                  if negb (bound (sq_ServerID query) (sq_OwnerUserID query) (sq_ConnectorInstanceID query)) then Ret Unsafe
                  else latched (refresh (ev_Nonce first) query)
              end
            else if negb (str_eqb (ev_Kind first) "APPROVAL_SNAPSHOT") then Ret Unsafe
            else match DecodeApprovalSnapshot (ev_Payload first) with
            | None => Ret Unsafe
            | Some approval =>
                if negb (bound (ap_ServerID approval) (ap_OwnerUserID approval) (ap_ConnectorInstanceID approval))
                   || bool_decide (ap_Entries approval = []) then Ret Unsafe
                else latched (claimWork (ev_Nonce first) approval)
            end
      end.

(** [runWorkerLoop]: whether it returns nil, after at most [fuel] conversations. *)
Inductive LoopEnd := LoopNil | LoopUnsafe | LoopOn.

Fixpoint runWorkerLoop (fuel : nat) : prog ClientCall LoopEnd :=
  match fuel with
  | O => Ret LoopOn
  | S fuel =>
      let paced :=
        ok <~ CPace;
        if negb ok then
          expired <~ CCtxErr; Ret (if expired : bool then LoopNil else LoopUnsafe)
        else runWorkerLoop fuel in
      expired <~ CCtxErr;
      if expired : bool then Ret LoopNil
      else
        connection <~ CConnect;
        expired <~ CCtxErr;
        if expired : bool then Ret LoopNil
        else match connection with
        | DialFailed => Ret LoopUnsafe
        | BrokerAbsent => paced
        | Connected =>
            r <- converse;
            expired <~ CCtxErr;
            if expired : bool then Ret LoopNil
            else match r with
            | Fine => paced
            | BadInitial => Ret LoopUnsafe
            | r =>
                disabled <~ CDisabled;
                if disabled || (r == Unselected) then paced else Ret LoopUnsafe
            end
        end
  end.
End client.
#[global] Arguments stamp : simpl never.
#[global] Arguments enabledWithin : simpl never.
#[global] Arguments relayInBudget : simpl never.
#[global] Arguments relayRecovery : simpl never.
#[global] Arguments relayCheck : simpl never.
#[global] Arguments relayReport : simpl never.
#[global] Arguments claimWork : simpl never.
#[global] Arguments refresh : simpl never.
#[global] Arguments converse : simpl never.
