(* ===== verification/ActionClientSafety.v ===== *)
(** * The worker's protocol

    The abstract machine [moves] says in which order the worker may speak to the
    server and to the broker, and with which data: what it forwards is what it was
    given, a claim is within the broker's approval, a decision and a report belong
    to the claim, and an exchange that ends in doubt, a message that could not be
    sent included, leaves the worker latched, after which it only relays the broker's
    recovery queries.  Every run of the loop follows it. *)

From S2P Require Import Prelude GoTime GoText Sha256 Effects ActionReceipt ActionPolicy ActionBroker ActionExecution ActionClient.
From S2P Require ActionCore.
Import ActionCore (Operation(..), Code(..), Operation_eq_dec, Code_eq_dec).

#[local] Open Scope string_scope.
#[local] Open Scope Z_scope.
#[local] Opaque ParseHTTPTime ReceiptDigest.

(** ** What the worker says and hears *)

Inductive event :=
| EvSend (kind nonce ordinal : string) (p : Payload) (sent : bool)
| EvSelected (e : Envelope)
| EvHeard (e : Envelope)
| EvRefresh (q : SnapshotQuery) (reply : SnapshotReply) (clean : bool)
| EvClaim (targets : list string) (answer : option (option Claim))
| EvCheck (q : CheckRequest) (answer : option ExecutionDecision)
| EvReport (action : string) (r : Report) (answer : option ResultReceipt)
| EvQuery (q : RecoveryQuery)
| EvDeliver (q : RecoveryQuery) (reply : RecoveryReply)
| EvReply (nonce ordinal : string) (reply : RecoveryReply) (sent : bool)
| EvLatch.

Record world := MkWorld { wd_latch : bool; wd_log : list event }.

Definition fresh_worker : world := MkWorld false [].
Definition say (w : world) (e : event) : world := MkWorld (wd_latch w) (wd_log w ++ [e]).
Definition latch (w : world) : world := MkWorld true (wd_log w ++ [EvLatch]).

(** Every answer is possible; the latch answers truthfully. *)
Definition client_env A (c : ClientCall A) : world → A → world → Prop :=
  match c in ClientCall T return world → T → world → Prop with
  | CSend kind nonce ordinal p => λ w sent w', w' = say w (EvSend kind nonce ordinal p sent)
  | CSelection => λ w a w', w' = match a with Selected e => say w (EvSelected e) | _ => w end
  | CMessage | CContinuation => λ w a w', w' = match a with Some e => say w (EvHeard e) | None => w end
  | CDisabled => λ w a w', a = wd_latch w ∧ w' = w
  | CDisable => λ w _ w', w' = latch w
  | CRefresh q => λ w a w', w' = say w (EvRefresh q a.1 a.2)
  | CClaim _ targets => λ w a w', w' = say w (EvClaim targets a)
  | CCheck q => λ w a w', w' = say w (EvCheck q a)
  | CReport action r => λ w a w', w' = say w (EvReport action r a)
  | CRecoveryQuery _ => λ w a w', w' = match a with Some q => say w (EvQuery q) | None => w end
  | CDeliver q => λ w a w', w' = say w (EvDeliver q a)
  | CReply nonce ordinal r => λ w sent w', w' = say w (EvReply nonce ordinal r sent)
  | _ => λ w _ w', w' = w
  end.

(** ** The abstract machine *)

Inductive phase :=
| Idle
| Chosen (off : bool) (e : Envelope) (* the broker selected an exchange; [off]: latched before *)
| Refreshed (nonce : string) (reply : SnapshotReply)
| NoWork (nonce : string)
| Granted (nonce : string) (approval : ApprovalSnapshot) (c : Claim)
| Holding (nonce : string) (c : Claim) (checks : nat) (previous : string)
| Asked (nonce : string) (c : Claim) (checks : nat) (previous : string) (message : Envelope)
| Decided (nonce : string) (c : Claim) (checks : nat) (d : ExecutionDecision)
| Denied (nonce : string) (checks : nat) (d : ExecutionDecision)
(* a recovery relay: the [k]th query, after [previous]; its reply; the next message *)
| Queried (off : bool) (nonce : string) (k : nat) (previous : option RecoveryQuery) (q : RecoveryQuery)
| Delivered (off : bool) (nonce : string) (k : nat) (q : RecoveryQuery) (reply : RecoveryReply)
| Replied (off : bool) (nonce : string) (k : nat) (q : RecoveryQuery) (reply : RecoveryReply)
| Continued (nonce : string) (k : nat) (q : RecoveryQuery) (message : Envelope)
| Doubtful
| Latched.

Definition permits (d : ExecutionDecision) : bool := str_eqb (ed_Decision d) "PERMITTED".

Definition same_targets (entries : list Entry) (targets : list string) : Prop :=
  ∀ t, t ∈ targets ↔ t ∈ map en_TargetID entries.

Definition addressed (e : Envelope) (kind nonce ordinal : string) : Prop :=
  ev_Kind e = kind ∧ ev_Nonce e = nonce ∧ ev_Ordinal e = ordinal.

Definition ordinal_of (checks : nat) : string := FormatUint (Z.of_nat (S checks) + 2).
Definition checkpoint_of (checks : nat) : string := FormatUint (Z.of_nat (S checks)).

(** The request of one checkpoint of the claim, with a new nonce. *)
Definition asks_for (c : Claim) (checks : nat) (previous : string) (q : CheckRequest) : Prop :=
  cr_Request q = cm_Request c ∧ cr_ExecutionLeaseID q = cm_ExecutionLeaseID c
  ∧ cr_Checkpoint q = checkpoint_of checks ∧ cr_CheckNonce q ≠ previous.

Definition answers (q : CheckRequest) (d : ExecutionDecision) : Prop :=
  ed_Request d = cr_Request q ∧ ed_ExecutionLeaseID d = cr_ExecutionLeaseID q
  ∧ ed_Checkpoint d = cr_Checkpoint q ∧ ed_CheckNonce d = cr_CheckNonce q.

Definition reports_on (c : Claim) (r : Report) : Prop :=
  rp_Request r = cm_Request c ∧ rp_ExecutionLeaseID r = cm_ExecutionLeaseID c ∧ rp_CorrelationID r = cm_CorrelationID c.

Definition confirms (c : Claim) (r : Report) (rc : ResultReceipt) : Prop :=
  MatchResultReceipt c rc = true ∧ rc_ResultCode rc = rp_ResultCode r ∧ rc_CorrelationID rc = rp_CorrelationID r.

Definition publishes (q : SnapshotQuery) (reply : SnapshotReply) (clean : bool) : Prop :=
  is_Some (DecodeSnapshotReply reply)
  ∧ (sy_Outcome reply = "OK" → clean = true ∧ MatchSnapshotReply q reply = true).

(** A relay starts with a status question, or latched with the retained action, and
    goes on about the same action in the order of the recovery protocol. *)
Definition relayable (off : bool) (k : nat) (previous : option RecoveryQuery) (q : RecoveryQuery) : Prop :=
  match previous with
  | None => k = 1%nat ∧ (ry_Operation q = "STATUS" ∨ (ry_Operation q = "RETAINED" ∧ off = true))
  | Some p =>
      off = true ∧ ry_ActionID q = ry_ActionID p ∧ ry_RemoteReceiptDigest q = ry_RemoteReceiptDigest p
      ∧ nextRecoveryOperation (ry_Operation p) (ry_Operation q) (pred k) = true
  end.

(** Between two exchanges. *)
Definition rest (off : bool) : phase := if off then Latched else Idle.
Definition resting (ph : phase) : option bool :=
  match ph with
  | Idle => Some false
  | Latched | Continued _ _ _ _ => Some true
  | Chosen off _ | Queried off _ _ _ _ | Delivered off _ _ _ _ | Replied off _ _ _ _ => Some off
  | _ => None
  end.

Section protocol.
Variable binding : string * string * string.

Inductive moves : phase → event → phase → Prop :=
| mv_begin ph off n o p sent : resting ph = Some off → moves ph (EvSend "BEGIN" n o p sent) (rest off)
| mv_choose off e : moves (rest off) (EvSelected e) (Chosen off e)
| mv_refresh e q reply clean :
    ev_Kind e = "SNAPSHOT_QUERY" → DecodeSnapshotQuery (ev_Payload e) = Some q →
    bound binding (sq_ServerID q) (sq_OwnerUserID q) (sq_ConnectorInstanceID q) = true →
    publishes q reply clean → moves (Chosen false e) (EvRefresh q reply clean) (Refreshed (ev_Nonce e) reply)
| mv_refresh_doubt e q reply clean :
    ev_Kind e = "SNAPSHOT_QUERY" → DecodeSnapshotQuery (ev_Payload e) = Some q →
    bound binding (sq_ServerID q) (sq_OwnerUserID q) (sq_ConnectorInstanceID q) = true →
    ¬ publishes q reply clean → moves (Chosen false e) (EvRefresh q reply clean) Doubtful
| mv_refreshed n reply sent :
    moves (Refreshed n reply) (EvSend "SNAPSHOT_REPLY" n "2" (PReply reply) sent) (if sent : bool then Idle else Doubtful)
| mv_claim e approval targets answer ph :
    ev_Kind e = "APPROVAL_SNAPSHOT" → DecodeApprovalSnapshot (ev_Payload e) = Some approval →
    bound binding (ap_ServerID approval) (ap_OwnerUserID approval) (ap_ConnectorInstanceID approval) = true →
    same_targets (ap_Entries approval) targets → targets ≠ [] →
    match answer with
    | None => ph = Doubtful
    | Some None => ph = NoWork (ev_Nonce e)
    | Some (Some c) => ph = Granted (ev_Nonce e) approval c
    end → moves (Chosen false e) (EvClaim targets answer) ph
| mv_no_work n sent :
    moves (NoWork n) (EvSend "NO_CLAIM" n "2" PNone sent) (if sent : bool then Idle else Doubtful)
| mv_execute n approval c rtt sent :
    claimApproved binding c approval = true →
    moves (Granted n approval c) (EvSend "CLAIMED_EXECUTE" n "2" (PClaimed c rtt) sent)
      (if sent : bool then Holding n c 0 "" else Doubtful)
| mv_hear n c k prev m : moves (Holding n c k prev) (EvHeard m) (Asked n c k prev m)
| mv_check n c k prev m q answer ph :
    (k < 2)%nat → addressed m "AUTHORITY_CHALLENGE" n (ordinal_of k) → DecodeCheckRequest (ev_Payload m) = Some q →
    asks_for c k prev q →
    match answer with
    | Some d => (answers q d ∧ ph = Decided n c k d) ∨ (¬ answers q d ∧ ph = Doubtful)
    | None => ph = Doubtful
    end → moves (Asked n c k prev m) (EvCheck q answer) ph
| mv_permitted n c k d sent :
    permits d = true →
    moves (Decided n c k d) (EvSend "AUTHORITY_REPLY" n (ordinal_of k) (PDecision d) sent)
      (if sent : bool then Holding n c (S k) (ed_CheckNonce d) else Doubtful)
| mv_denied n c k d : permits d = false → moves (Decided n c k d) EvLatch (Denied n k d)
| mv_denial n k d sent :
    moves (Denied n k d) (EvSend "AUTHORITY_REPLY" n (ordinal_of k) (PDecision d) sent) Latched
| mv_report n c prev m r answer ph :
    addressed m "RESULT" n "5" → decode_report (ev_Payload m) = Some r → reports_on c r →
    match answer with
    | Some rc =>
        (confirms c r rc ∧ rp_ResultCode r ≠ OutcomeUnknown ∧ ph = Idle)
        ∨ (¬ (confirms c r rc ∧ rp_ResultCode r ≠ OutcomeUnknown) ∧ ph = Doubtful)
    | None => ph = Doubtful
    end → moves (Asked n c 2 prev m) (EvReport (rr_ActionID (cm_Request c)) r answer) ph
| mv_query off e q :
    ev_Kind e = "RECOVERY_QUERY" → moves (Chosen off e) (EvQuery q) (Queried off (ev_Nonce e) 1 None q)
| mv_query_latch off n k previous q : moves (Queried off n k previous q) EvLatch (Queried true n k previous q)
| mv_deliver off n k previous q reply :
    relayable off k previous q → moves (Queried off n k previous q) (EvDeliver q reply) (Delivered off n k q reply)
| mv_reply off n k q reply sent :
    moves (Delivered off n k q reply) (EvReply n (FormatUint (Z.of_nat k)) reply sent)
      (if sent : bool then Replied off n k q reply else rest off)
| mv_continue n k q reply m :
    relay_ends k q reply = false → moves (Replied true n k q reply) (EvHeard m) (Continued n k q m)
| mv_next n k q m q' :
    ev_Nonce m = n → ev_Ordinal m = FormatUint (Z.of_nat (S k)) →
    moves (Continued n k q m) (EvQuery q') (Queried true n (S k) (Some q) q')
| mv_latch ph : moves ph EvLatch Latched.

Inductive follows : list event → phase → Prop :=
| fl_start : follows [] Idle
| fl_move l ph e ph' : follows l ph → moves ph e ph' → follows (l ++ [e]) ph'.

Definition shut (ph : phase) : bool :=
  match ph with
  | Latched | Denied _ _ _ | Continued _ _ _ _ => true
  | Chosen off _ | Queried off _ _ _ _ | Delivered off _ _ _ _ | Replied off _ _ _ _ => off
  | _ => false
  end.

Definition at_phase (w : world) (ph : phase) : Prop := follows (wd_log w) ph ∧ wd_latch w = shut ph.
Definition protocol (w : world) : Prop := ∃ ph, at_phase w ph.

Lemma at_protocol w ph : at_phase w ph → protocol w.
Proof. by exists ph. Qed.

Lemma say_moves w ph e ph' : at_phase w ph → moves ph e ph' → shut ph' = shut ph → at_phase (say w e) ph'.
Proof. intros [? ?] ? ?. split; simpl; [by econstructor|congruence]. Qed.

Lemma latch_moves w ph : at_phase w ph → at_phase (latch w) Latched.
Proof. intros [? ?]. split; simpl; [|done]. econstructor; [done|constructor]. Qed.

(** Calls that change neither the latch nor the log. *)
Definition quiet A (c : ClientCall A) : Prop :=
  match c with CStamp | CRandom | CDisabled | CCtxErr | CRecovers | CConnect | CPace => True | _ => False end.

Lemma quiet_call {R A} (c : ClientCall A) (k : A → prog ClientCall R) Q w :
  quiet A c → protocol w → (∀ a, client_env A c w a w → wpc client_env protocol (k a) Q w) →
  wpc client_env protocol (Call c k) Q w.
Proof.
  intros Hq Hp Hk. apply wpc_call; [done|]. intros a w' Hx.
  assert (w' = w) as -> by (destruct c; simpl in *; try done; tauto). by apply Hk.
Qed.

Lemma stamp_wpc {R} (k : option nativeStamp → prog ClientCall R) Q w :
  protocol w → (∀ s, wpc client_env protocol (k s) Q w) → wpc client_env protocol (bind stamp k) Q w.
Proof. intros Hp Hk. apply quiet_call; [done|done|]. intros a _. apply Hk. Qed.

Lemma within_wpc {R} from limit (k : option nativeStamp → prog ClientCall R) Q w :
  protocol w → wpc client_env protocol (k None) Q w →
  (wd_latch w = false → ∀ s, wpc client_env protocol (k (Some s)) Q w) →
  wpc client_env protocol (bind (enabledWithin from limit) k) Q w.
Proof.
  intros Hp Hno Hk. unfold enabledWithin. apply wpc_bind, stamp_wpc; [done|]. intros [now|]; [|by apply wpc_ret].
  apply quiet_call; [done|done|]. intros b [-> _]. destruct (wd_latch w) eqn:Hl; [by apply wpc_ret|].
  destruct (elapsed _ _ _); apply wpc_ret; auto.
Qed.

(** ** One exchange *)

(** Where an exchange gave up: the latch follows. *)
Definition gives_up {R} (none : R) (P : R → world → Prop) (r : R) (w : world) : Prop :=
  (r = none ∧ protocol w) ∨ P r w.

Lemma quit_here {R} (none : R) P w : protocol w → wpc client_env protocol (Ret none) (gives_up none P) w.
Proof. intros. apply wpc_ret; [done|]. by left. Qed.

Lemma relayCheck_wpc nonce c start k prev w :
  (k < 2)%nat → at_phase w (Holding nonce c k prev) →
  wpc client_env protocol (relayCheck nonce c start (S k) prev)
    (gives_up None (λ r w', ∃ ch, r = Some ch ∧ at_phase w' (Holding nonce c (S k) ch))) w.
Proof.
  intros Hk Hw. unfold relayCheck. pose proof (at_protocol _ _ Hw) as Hp.
  apply within_wpc; [done|by apply quit_here|]. intros _ _.
  apply wpc_call; [done|]. intros [m|] w1 ->; [|by apply quit_here].
  assert (at_phase (say w (EvHeard m)) (Asked nonce c k prev m)) as H1.
  { eapply say_moves; [done|constructor|done]. }
  pose proof (at_protocol _ _ H1) as Hp1. revert H1 Hp1. generalize (say w (EvHeard m)). clear w Hw Hp. intros w Hw Hp.
  destruct (_ || _) eqn:Hm; [by apply quit_here|]. bools.
  destruct (DecodeCheckRequest (ev_Payload m)) as [q|] eqn:Hq; [|by apply quit_here].
  destruct (_ || _) eqn:Hc; [by apply quit_here|]. bools.
  apply within_wpc; [done|by apply quit_here|]. intros Hl0 checkStart.
  assert (∀ answer ph, match answer with
    | Some d => (answers q d ∧ ph = Decided nonce c k d) ∨ (¬ answers q d ∧ ph = Doubtful)
    | None => ph = Doubtful end → moves (Asked nonce c k prev m) (EvCheck q answer) ph) as Hmove.
  { intros answer ph Ha. eapply mv_check; [done| |done| |exact Ha].
    - by repeat split.
    - by repeat split. }
  apply wpc_call; [done|]. intros [d|] w1 ->;
    [|apply quit_here, (at_protocol _ Doubtful); eapply say_moves; [done|by apply Hmove|done]].
  assert (protocol (say w (EvCheck q (Some d))) ∧ (answers q d → at_phase (say w (EvCheck q (Some d))) (Decided nonce c k d)))
    as [Hp1 Hdec].
  { assert (Decision (answers q d)) as [Ha|Ha] by (unfold answers; apply _).
    - assert (at_phase (say w (EvCheck q (Some d))) (Decided nonce c k d)); [|by split; [eapply at_protocol|]].
      eapply say_moves; [done|apply Hmove; by left|done].
    - split; [|done]. apply (at_protocol _ Doubtful). eapply say_moves; [done|apply Hmove; by right|done]. }
  revert Hdec Hp1. generalize (say w (EvCheck q (Some d))). intros w1 Hw1 Hp1.
  apply within_wpc; [done|by apply quit_here|]. intros _ checkEnd.
  destruct (elapsed start checkEnd executionHorizon); [|by apply quit_here]. cbv zeta.
  change (str_eqb (ed_Decision d) "PERMITTED") with (permits d).
  destruct (permits d) eqn:Hd; cbn [negb orb].
  - change (bind (Ret tt) ?f) with (f tt). cbv beta.
    destruct (_ || _) eqn:Ha; [by apply quit_here|]. bools.
    assert (answers q d) as Hans by (by repeat split). apply wpc_call; [done|]. intros sent w2 ->.
    assert (at_phase (say w1 (EvSend "AUTHORITY_REPLY" nonce (ev_Ordinal m) (PDecision d) sent))
              (if sent : bool then Holding nonce c (S k) (ed_CheckNonce d) else Doubtful)) as Hnext.
    { eapply say_moves; [by apply Hw1| |by destruct sent]. replace (ev_Ordinal m) with (ordinal_of k) by done. by constructor. }
    apply wpc_ret; [by eapply at_protocol|]. destruct sent; simpl; [|left; split; [done|by eapply at_protocol]].
    right. eexists. split; [done|]. destruct Hans as (_ & _ & _ & <-). done.
  - apply wpc_bind, wpc_call; [done|]. intros [] w2 ->. apply wpc_ret; [destruct Hp1; eapply at_protocol, latch_moves; done|].
    destruct (_ || _) eqn:Ha; [apply quit_here; destruct Hp1; by eapply at_protocol, latch_moves|]. bools.
    assert (at_phase (latch w1) (Denied nonce k d)) as Hdenied.
    { destruct Hw1 as [Hf Hl]; [by repeat split|]. split; [|done]. econstructor; [done|by constructor]. }
    apply wpc_call; [by eapply at_protocol|]. intros sent w3 ->. replace (negb sent || true) with true by (by destruct sent).
    apply quit_here, (at_protocol _ Latched). eapply say_moves; [done| |done].
    replace (ev_Ordinal m) with (ordinal_of k) by done. constructor.
Qed.

Definition rests (w : world) : Prop := ∃ ph off, resting ph = Some off ∧ at_phase w ph.

Lemma rests_protocol w : rests w → protocol w.
Proof. intros (ph & off & _ & ?). by eapply at_protocol. Qed.

Lemma rests_at w ph off : at_phase w ph → resting ph = Some off → rests w.
Proof. intros. by exists ph, off. Qed.

Definition closes : Conversed → world → Prop := gives_up Unsafe (λ r w, r = Fine ∧ rests w).

Lemma relayReport_wpc nonce c start prev w :
  at_phase w (Holding nonce c 2 prev) → wpc client_env protocol (relayReport nonce c start) closes w.
Proof.
  intros Hw. unfold relayReport. pose proof (at_protocol _ _ Hw) as Hp.
  apply within_wpc; [done|by apply quit_here|]. intros _ _.
  apply wpc_call; [done|]. intros [m|] w1 ->; [|by apply quit_here].
  assert (at_phase (say w (EvHeard m)) (Asked nonce c 2 prev m)) as H1.
  { eapply say_moves; [done|constructor|done]. }
  pose proof (at_protocol _ _ H1) as Hp1. revert H1 Hp1. generalize (say w (EvHeard m)). clear w Hw Hp. intros w Hw Hp.
  destruct (_ || _) eqn:Hm; [by apply quit_here|]. bools.
  destruct (decode_report (ev_Payload m)) as [r|] eqn:Hr; [|by apply quit_here].
  destruct (_ || _) eqn:Hc; [by apply quit_here|]. bools.
  apply stamp_wpc; [done|]. intros [s|]; [|by apply quit_here].
  destruct (elapsed start s reportingHorizon); [|by apply quit_here].
  apply quiet_call; [done|done|]. intros disabled _. destruct disabled; [by apply quit_here|].
  assert (∀ answer ph, match answer with
    | Some rc => (confirms c r rc ∧ rp_ResultCode r ≠ OutcomeUnknown ∧ ph = Idle)
        ∨ (¬ (confirms c r rc ∧ rp_ResultCode r ≠ OutcomeUnknown) ∧ ph = Doubtful)
    | None => ph = Doubtful end →
    moves (Asked nonce c 2 prev m) (EvReport (rr_ActionID (cm_Request c)) r answer) ph) as Hmove.
  { intros answer ph Ha. eapply mv_report; [by repeat split|done|by repeat split|exact Ha]. }
  apply wpc_call; [done|]. intros [rc|] w1 ->;
    [|apply quit_here, (at_protocol _ Doubtful); eapply say_moves; [done|by apply Hmove|done]].
  set (w1 := say _ _).
  assert (protocol w1 ∧ (confirms c r rc → rp_ResultCode r ≠ OutcomeUnknown → at_phase w1 Idle)) as [Hp1 Hdone].
  { assert (Decision (confirms c r rc ∧ rp_ResultCode r ≠ OutcomeUnknown)) as [[? ?]|Ha] by (unfold confirms; apply _).
    - assert (at_phase w1 Idle); [|by split; [eapply at_protocol|]].
      eapply say_moves; [done|apply Hmove; by left|done].
    - split; [|intros ? ?; by destruct Ha]. apply (at_protocol _ Doubtful). eapply say_moves; [done|apply Hmove; by right|done]. }
  destruct (_ || _) eqn:Ha; [by apply quit_here|]. bools.
  apply stamp_wpc; [done|]. intros [s'|]; [|by apply quit_here].
  destruct (elapsed start s' reportingHorizon); [|by apply quit_here].
  destruct (bool_decide_reflect (rp_ResultCode r = OutcomeUnknown)).
  - apply wpc_bind, wpc_call; [done|]. intros [] w2 ->. destruct Hp1 as [ph ?]. pose proof (latch_moves w1 ph ltac:(done)) as Hl.
    apply wpc_ret; [by eapply at_protocol|]. apply wpc_ret; [by eapply at_protocol|]. right. split; [done|]. by eapply rests_at.
  - apply wpc_ret; [done|]. right. split; [done|]. eapply rests_at; [apply Hdone; [by repeat split|done]|done].
Qed.

(** Adjacent duplicates are dropped, nothing else. *)
Lemma claim_targets_same entries seen t :
  t ∈ claim_targets seen entries ↔ t ∈ seen ∨ t ∈ map en_TargetID entries.
Proof.
  revert seen. induction entries as [|e entries IH]; intros seen; simpl; [set_solver|].
  rewrite IH. destruct (last seen) as [x|] eqn:Hx; [|set_solver]. destruct (str_eqb x (en_TargetID e)) eqn:He; [|set_solver].
  bools. apply last_Some_elem_of in Hx. set_solver.
Qed.

Lemma refresh_wpc e q w :
  at_phase w (Chosen false e) → ev_Kind e = "SNAPSHOT_QUERY" → DecodeSnapshotQuery (ev_Payload e) = Some q →
  bound binding (sq_ServerID q) (sq_OwnerUserID q) (sq_ConnectorInstanceID q) = true →
  wpc client_env protocol (refresh (ev_Nonce e) q) closes w.
Proof.
  intros Hw Hkind Hq Hb. unfold refresh. apply wpc_call; [by eapply at_protocol|]. intros [reply clean] w1 ->. cbv zeta.
  simpl fst. simpl snd. set (w1 := say w (EvRefresh q reply clean)).
  assert (Hdoubt : ¬ publishes q reply clean → at_phase w1 Doubtful).
  { intros. eapply say_moves; [done|by apply mv_refresh_doubt|done]. }
  assert (Hdone : publishes q reply clean → at_phase w1 (Refreshed (ev_Nonce e) reply)).
  { intros. eapply say_moves; [done|by apply mv_refresh|done]. }
  destruct (_ || _) eqn:Ha.
  - apply quit_here, (at_protocol _ Doubtful), Hdoubt. intros [Hs Hok]. apply orb_prop in Ha as [Ha|Ha].
    + apply orb_prop in Ha as [Ha|Ha]; bools; [destruct Hok; congruence|done].
    + bools. destruct Hok; congruence.
  - bools. assert (publishes q reply clean) as Hpub.
    { split; [done|]. intros Hok. rewrite Hok in *. simpl in *. destruct clean; [|done]. by bools. }
    apply wpc_call; [eapply at_protocol; by apply Hdone|]. intros sent w2 ->.
    assert (at_phase (say w1 (EvSend "SNAPSHOT_REPLY" (ev_Nonce e) "2" (PReply reply) sent))
      (if sent : bool then Idle else Doubtful)) as H2.
    { eapply say_moves; [by apply Hdone|constructor|by destruct sent]. }
    apply wpc_ret; [by eapply at_protocol|].
    destruct sent; [right; split; [done|by eapply rests_at]|left; split; [done|by eapply at_protocol]].
Qed.

Lemma claimWork_wpc e approval w :
  at_phase w (Chosen false e) → ev_Kind e = "APPROVAL_SNAPSHOT" → DecodeApprovalSnapshot (ev_Payload e) = Some approval →
  bound binding (ap_ServerID approval) (ap_OwnerUserID approval) (ap_ConnectorInstanceID approval) = true →
  ap_Entries approval ≠ [] →
  wpc client_env protocol (claimWork binding (ev_Nonce e) approval) closes w.
Proof.
  intros Hw Hkind Ha Hb Hne. unfold claimWork. pose proof (at_protocol _ _ Hw) as Hp.
  apply stamp_wpc; [done|]. intros [start|]; [|by apply quit_here].
  apply quiet_call; [done|done|]. intros [bytes|] _; [|by apply quit_here].
  set (targets := claim_targets [] (ap_Entries approval)).
  assert (Hsame : same_targets (ap_Entries approval) targets).
  { intros t. unfold targets. rewrite claim_targets_same. set_solver. }
  assert (targets ≠ []) as Htne.
  { destruct (ap_Entries approval) as [|x l]; [done|]. intros Ht. rewrite Ht in Hsame.
    specialize (Hsame (en_TargetID x)). simpl in Hsame. set_solver. }
  assert (∀ answer ph, match answer with
    | None => ph = Doubtful
    | Some None => ph = NoWork (ev_Nonce e)
    | Some (Some c) => ph = Granted (ev_Nonce e) approval c
    end → shut ph = false → at_phase (say w (EvClaim targets answer)) ph) as Hmove.
  { intros answer ph Hans Hs. eapply say_moves; [done|by eapply mv_claim|done]. }
  apply wpc_call; [done|]. intros [claim|] w1 ->;
    [|apply quit_here, (at_protocol _ Doubtful); by apply Hmove].
  assert (protocol (say w (EvClaim targets (Some claim)))) as Hp1.
  { destruct claim; eapply at_protocol; by apply Hmove. }
  apply quiet_call; [done|done|]. intros disabled _. destruct disabled; [by apply quit_here|].
  destruct claim as [c|].
  - specialize (Hmove (Some (Some c)) (Granted (ev_Nonce e) approval c) eq_refl eq_refl).
    apply stamp_wpc; [done|]. intros [recv|]; [|by apply quit_here].
    destruct (elapsed start recv _) as [rtt|]; [|by apply quit_here].
    destruct (claimApproved binding c approval) eqn:Hap; cbn [negb]; [|by apply quit_here].
    apply wpc_call; [done|]. intros sent w2 ->.
    assert (at_phase (say (say w (EvClaim targets (Some (Some c))))
      (EvSend "CLAIMED_EXECUTE" (ev_Nonce e) "2" (PClaimed c (FormatUint rtt)) sent))
      (if sent : bool then Holding (ev_Nonce e) c 0 "" else Doubtful)) as H2.
    { eapply say_moves; [done|by constructor|by destruct sent]. }
    destruct sent; cbn [negb]; [|by eapply quit_here, at_protocol].
    apply wpc_bind. eapply wpc_mono; [done| |apply (relayCheck_wpc _ _ start 0 ""); [lia|exact H2]].
    intros r w3 [[-> ?]|(ch & -> & H3)]; [by apply quit_here|].
    apply wpc_bind. eapply wpc_mono; [done| |apply (relayCheck_wpc _ _ start 1 ch); [lia|exact H3]].
    intros r w4 [[-> ?]|(ch' & -> & H4)]; [by apply quit_here|]. by eapply relayReport_wpc.
  - specialize (Hmove (Some None) (NoWork (ev_Nonce e)) eq_refl eq_refl).
    apply wpc_call; [done|]. intros sent w2 ->.
    assert (at_phase (say (say w (EvClaim targets (Some None))) (EvSend "NO_CLAIM" (ev_Nonce e) "2" PNone sent))
      (if sent : bool then Idle else Doubtful)) as H2.
    { eapply say_moves; [done|constructor|by destruct sent]. }
    apply wpc_ret; [by eapply at_protocol|].
    destruct sent; [right; split; [done|by eapply rests_at]|left; split; [done|by eapply at_protocol]].
Qed.

Lemma latched_wpc p w : wpc client_env protocol p closes w → wpc client_env protocol (latched p) (λ _, rests) w.
Proof.
  intros Hp. unfold latched. apply wpc_bind. eapply wpc_mono; [done| |exact Hp].
  intros r w' [[-> [ph Hph]]|[-> Hr]].
  - apply wpc_call; [by exists ph|]. intros [] w1 ->. apply wpc_ret; [by eapply at_protocol, latch_moves|].
    eapply rests_at; [by eapply latch_moves|done].
  - apply wpc_ret; [by apply rests_protocol|done].
Qed.

Lemma rests_ret {R} (r : R) w : rests w → wpc client_env protocol (Ret r) (λ _, rests) w.
Proof. intros. apply wpc_ret; [by apply rests_protocol|done]. Qed.

Lemma begins_moves w n o p sent : rests w → ∃ off, at_phase (say w (EvSend "BEGIN" n o p sent)) (rest off).
Proof.
  intros (ph & off & Hr & Hw). exists off. eapply say_moves; [exact Hw|by constructor|].
  destruct ph; simplify_eq/=; try done; by destruct off.
Qed.

(** ** Recovery relays *)

Lemma budget_wpc {R} origin start end_ (k : bool → prog ClientCall R) Q w :
  protocol w → (∀ ok, wpc client_env protocol (k ok) Q w) →
  wpc client_env protocol (bind (relayInBudget origin start end_) k) Q w.
Proof.
  intros Hp Hk. unfold relayInBudget. destruct end_ as [e|]; [|apply Hk].
  apply quiet_call; [done|done|]. intros expired _. apply Hk.
Qed.

Lemma relayLoop_wpc rounds k off nonce origin previous q w :
  at_phase w (Queried off nonce k previous q) → relayable off k previous q →
  wpc client_env protocol (relayLoop rounds k nonce origin (FormatUint (Z.of_nat k)) q) (λ _, rests) w.
Proof.
  revert k off previous q w. induction rounds as [|rounds IH]; intros k off previous q w Hw Hrel.
  { by eapply rests_ret, rests_at. }
  cbn [relayLoop]. pose proof (at_protocol _ _ Hw) as Hp. assert (rests w) as Hr by by eapply rests_at.
  apply stamp_wpc; [done|]. intros [start|]; [|by apply rests_ret].
  apply quiet_call; [done|done|]. intros expired _. destruct (_ || _); [by apply rests_ret|].
  apply wpc_call; [done|]. intros reply w1 ->. set (w1 := say w _).
  assert (at_phase w1 (Delivered off nonce k q reply)) as H1 by (eapply say_moves; [done|by constructor|done]).
  pose proof (at_protocol _ _ H1) as Hp1. assert (rests w1) as Hr1 by by eapply rests_at. clearbody w1.
  apply stamp_wpc; [done|]. intros end_. apply budget_wpc; [done|]. intros ok. destruct ok; cbn [negb]; [|by apply rests_ret].
  apply wpc_call; [done|]. intros sent w2 ->. set (w2 := say w1 _).
  assert (at_phase w2 (if sent : bool then Replied off nonce k q reply else rest off)) as H2
    by (eapply say_moves; [done|constructor|by destruct sent, off]).
  assert (rests w2) as Hr2 by (eapply rests_at; [done|by destruct sent, off]).
  pose proof (rests_protocol _ Hr2) as Hp2. clearbody w2.
  apply stamp_wpc; [done|]. intros end2. destruct sent; cbn [negb]; [|by apply rests_ret].
  apply budget_wpc; [done|]. intros ok. destruct ok; cbn [negb]; [|by apply rests_ret].
  destruct (relay_ends k q reply) eqn:Hend; [by apply rests_ret|].
  assert (off = true) as ->.
  { destruct previous as [p|]; simpl in Hrel; [by destruct Hrel|]. destruct Hrel as [-> [Hst|[_ ->]]]; [|done].
    unfold relay_ends in Hend. rewrite Hst in Hend. simpl in Hend. done. }
  apply wpc_call; [done|]. intros message w3 ->.
  destruct message as [m|]; [|apply stamp_wpc; [done|]; intros [?|]; by apply rests_ret]. set (w3 := say w2 _).
  assert (at_phase w3 (Continued nonce k q m)) as H3 by (eapply say_moves; [done|by eapply mv_continue|done]).
  assert (rests w3) as Hr3 by by eapply rests_at. pose proof (rests_protocol _ Hr3) as Hp3. clearbody w3.
  apply stamp_wpc; [done|]. intros [received|]; [|by apply rests_ret].
  apply quiet_call; [done|done|]. intros expired' _. destruct (_ || _); [by apply rests_ret|].
  destruct (_ || _) eqn:Hm; [by apply rests_ret|]. bools.
  match goal with H : ev_Ordinal m = _ |- _ => rename H into Hord end.
  replace (Z.of_nat k + 1) with (Z.of_nat (S k)) in Hord by lia.
  apply wpc_call; [done|]. intros [next|] w4 ->; [|by apply rests_ret]. set (w4 := say w3 _).
  assert (at_phase w4 (Queried true nonce (S k) (Some q) next)) as H4 by (eapply say_moves; [done|by constructor|done]).
  assert (rests w4) as Hr4 by by eapply rests_at. clearbody w4.
  destruct (_ || _) eqn:Hn; [by apply rests_ret|]. bools. rewrite Hord. by eapply IH; [done|].
Qed.

Lemma relayRecovery_wpc off e w :
  at_phase w (Chosen off e) → ev_Kind e = "RECOVERY_QUERY" →
  wpc client_env protocol (relayRecovery e) (λ _, rests) w.
Proof.
  intros Hw Hk. unfold relayRecovery. assert (rests w) as Hr by by eapply rests_at.
  apply wpc_call; [by apply rests_protocol|]. intros [q|] w1 ->; [|by apply rests_ret]. cbv zeta. set (w1 := say w _).
  assert (at_phase w1 (Queried off (ev_Nonce e) 1 None q)) as H1 by (eapply say_moves; [done|by constructor|done]).
  assert (rests w1) as Hr1 by by eapply rests_at. pose proof (rests_protocol _ Hr1) as Hp1. clearbody w1.
  assert (Hgo : ∀ off' w', at_phase w' (Queried off' (ev_Nonce e) 1 None q) → (ry_Operation q ≠ "STATUS" → off' = true) →
    wpc client_env protocol
      (if negb (str_eqb (ev_Ordinal e) "1")
          || (negb (str_eqb (ry_Operation q) "STATUS") && negb (str_eqb (ry_Operation q) "RETAINED")) then Ret false
       else recovers <~ CRecovers;
            if negb recovers then Ret false
            else origin <- stamp;
                 match origin with
                 | None => Ret false
                 | Some origin => relayLoop 5 1 (ev_Nonce e) origin (ev_Ordinal e) q
                 end)%prog (λ _, rests) w').
  { intros off' w' Hw' Hoff. assert (rests w') as Hr' by by eapply rests_at. pose proof (rests_protocol _ Hr') as Hp'.
    destruct (_ || _) eqn:Hs; [by apply rests_ret|]. apply orb_false_iff in Hs as [Ho Hs]. bools.
    apply quiet_call; [done|done|]. intros recovers _. destruct recovers; cbn [negb]; [|by apply rests_ret].
    apply stamp_wpc; [done|]. intros [origin|]; [|by apply rests_ret].
    rewrite Ho. change "1" with (FormatUint (Z.of_nat 1)). eapply relayLoop_wpc; [exact Hw'|]. split; [done|].
    destruct (str_eqb (ry_Operation q) "STATUS") eqn:Hst; bools; [by left|]. right. simpl in Hs. bools. auto. }
  destruct (str_eqb (ry_Operation q) "STATUS") eqn:Hst; bools.
  - apply (Hgo off); [done|congruence].
  - apply wpc_bind, wpc_call; [done|]. intros [] w2 ->.
    assert (at_phase (latch w1) (Queried true (ev_Nonce e) 1 None q)) as H2.
    { destruct H1 as [Hf _]. split; [|done]. simpl. econstructor; [exact Hf|constructor]. }
    apply wpc_ret; [by eapply at_protocol|]. by apply (Hgo true).
Qed.

Lemma converse_wpc w : rests w → wpc client_env protocol (converse binding) (λ _, rests) w.
Proof.
  intros Hw. unfold converse. pose proof (rests_protocol _ Hw) as Hp.
  apply quiet_call; [done|done|]. intros expired _. destruct expired; [by apply rests_ret|].
  apply wpc_call; [done|]. intros sent w1 ->.
  destruct (begins_moves w "00000000000000000000000000000000" "1" PNone sent Hw) as [off Hw1]. set (w1 := say w _) in *.
  assert (rests w1) as Hr1 by (eapply rests_at; [exact Hw1|by destruct off]). clearbody w1.
  destruct sent; cbn [negb]; [|by apply rests_ret].
  apply wpc_call; [by apply rests_protocol|]. intros [| |e] w2 ->; [by apply rests_ret|by apply rests_ret|].
  set (w2 := say w1 (EvSelected e)). assert (at_phase w2 (Chosen off e)) as Hw2.
  { eapply say_moves; [exact Hw1|constructor|by destruct off]. }
  assert (rests w2) as Hr2 by by eapply rests_at. pose proof (rests_protocol _ Hr2) as Hp2.
  destruct (_ || _); [by apply rests_ret|].
  destruct (str_eqb (ev_Kind e) "RECOVERY_QUERY") eqn:Hk0.
  { bools. apply wpc_bind. eapply wpc_mono; [done| |by eapply relayRecovery_wpc]. intros ok w3 Hr3. by apply rests_ret. }
  apply quiet_call; [done|done|]. intros disabled [-> _].
  destruct (wd_latch w2) eqn:Hl; [by apply rests_ret|].
  assert (at_phase w2 (Chosen false e)) as Hw3 by (destruct off; [destruct Hw2 as [_ Hx]; rewrite Hl in Hx; discriminate Hx|done]).
  destruct (str_eqb (ev_Kind e) "SNAPSHOT_QUERY") eqn:Hk1.
  - destruct (DecodeSnapshotQuery _) as [q|] eqn:Hq; [|by apply rests_ret].
    destruct (bound _ _ _ _) eqn:Hb; cbn [negb]; [|by apply rests_ret]. bools. apply latched_wpc. by apply refresh_wpc.
  - destruct (str_eqb (ev_Kind e) "APPROVAL_SNAPSHOT") eqn:Hk2; cbn [negb]; [|by apply rests_ret].
    destruct (DecodeApprovalSnapshot _) as [ap|] eqn:Hq; [|by apply rests_ret].
    destruct (_ || _) eqn:Hb; [by apply rests_ret|]. bools. apply latched_wpc. by apply claimWork_wpc.
Qed.

Lemma runWorkerLoop_wpc fuel w :
  rests w → wpc client_env protocol (runWorkerLoop binding fuel) (λ _, rests) w.
Proof.
  revert w. induction fuel as [|fuel IH]; intros w Hw; [by apply rests_ret|]. simpl.
  assert (Hpaced : ∀ w, rests w → wpc client_env protocol
    (Call CPace (λ ok, if negb ok then Call CCtxErr (λ expired : bool, Ret (if expired then LoopNil else LoopUnsafe))
                       else runWorkerLoop binding fuel)) (λ _, rests) w).
  { clear w Hw. intros w Hw. apply quiet_call; [done|by apply rests_protocol|]. intros ok _.
    destruct ok; cbn [negb]; [by apply IH|]. apply quiet_call; [done|by apply rests_protocol|]. intros b _. by apply rests_ret. }
  apply quiet_call; [done|by apply rests_protocol|]. intros b _. destruct b; [by apply rests_ret|].
  apply quiet_call; [done|by apply rests_protocol|]. intros conn _.
  apply quiet_call; [done|by apply rests_protocol|]. intros b _. destruct b; [by apply rests_ret|].
  destruct conn; [by apply Hpaced|by apply rests_ret|].
  apply wpc_bind. eapply wpc_mono; [done| |by apply converse_wpc]. clear w Hw. intros r w Hw.
  apply quiet_call; [done|by apply rests_protocol|]. intros b _. destruct b; [by apply rests_ret|].
  destruct r; [by apply Hpaced| |by apply rests_ret|];
    (apply quiet_call; [done|by apply rests_protocol|]; intros b _; destruct (_ || _); [by apply Hpaced|by apply rests_ret]).
Qed.

(** C7: however many conversations the worker holds and whatever the server and
    the broker answer, everything it says follows [moves] at every moment: it asks
    the server only for the targets of an approval the broker selected and bound
    to its own identity, hands over only claims inside that approval, relays each
    of the two challenges for the claim with a new nonce and answers with the
    server's own decision, sends the broker's report of that claim only after both
    were permitted.  After a refresh or a claim that ended in doubt, which includes any
    message of it that could not be sent, it is latched before the next begins, and a
    latched worker carries out nothing for the server but the recovery queries the
    broker selected: from a status question or the retained action on, in the order of
    the recovery protocol, about one action, each reply being what delivering it gave.
    A finished conversation left nothing open: the next starts from rest. *)
Theorem worker_follows_protocol fuel :
  wpc client_env protocol (runWorkerLoop binding fuel) (λ _, rests) fresh_worker.
Proof. apply runWorkerLoop_wpc. eapply (rests_at _ Idle); [|done]. split; [constructor|done]. Qed.
End protocol.
