(* ===== verification/LogStatus.v ===== *)
(** * Source statuses ([internal/logobs/aggregate.go], and the status functions
      of [internal/logobs/collector.go])

    The status of a log source after a committed batch, after a storage failure,
    when a stored status is overlaid by a later failure, and when the statuses of
    several sources are combined.  [Status.Validate] is a long conjunction;
    [status_ok] is the same condition in a form that explains it: the three times
    are ordered, an observation exists exactly when the freshness is known, and
    support state, collection state and reason form one of four outcomes. *)

From Stdlib Require Import Btauto.
From S2P Require Import Prelude GoTime GoText LogModel.

(** ** [aggregate.go] *)

Definition laterTime (left right : option time) : option time :=
  match left, right with
  | None, _ => right
  | Some l, None => left
  | Some l, Some r => if negb (After r l) then left else right
  end.

Definition aggregateSupport (left right : Status) : SupportState :=
  if (st_SupportState left == SupportSupported) || (st_SupportState right == SupportSupported)
  then SupportSupported
  else if st_SupportState left == st_SupportState right then st_SupportState left
  else SupportUnavailable.

Definition aggregateCollection (support : SupportState) (left right : Status) : CollectionState :=
  if support == SupportSupported then
    if (st_SupportState left != SupportSupported) || (st_SupportState right != SupportSupported)
       || (st_CollectionState left != st_CollectionState right)
    then CollectionPartial
    else st_CollectionState left
  else if (st_CollectionState left == CollectionFailed) || (st_CollectionState right == CollectionFailed)
  then CollectionFailed
  else CollectionNotRun.

Definition aggregateFreshness (left right : Status) : Freshness :=
  if is_none (st_ObservedAt left) && is_none (st_ObservedAt right) then FreshnessUnknown
  else if (is_some (st_ObservedAt left) && (st_Freshness left == FreshnessStale))
          || (is_some (st_ObservedAt right) && (st_Freshness right == FreshnessStale))
  then FreshnessStale
  else FreshnessCurrent.

Definition equalReasons (left right : option ReasonCode) : bool :=
  match left, right with
  | Some l, Some r => l == r
  | None, None => true
  | _, _ => false
  end.

Definition sameOutcome (left right : Status) : bool :=
  (st_SupportState left == st_SupportState right)
  && (st_CollectionState left == st_CollectionState right)
  && equalReasons (st_ReasonCode left) (st_ReasonCode right).

(** The status of two sources before its final validation. *)
Definition combine (left right : Status) : Status :=
  let support := aggregateSupport left right in
  let freshness := aggregateFreshness left right in
  let collection := aggregateCollection support left right in
  let reason :=
    if collection == CollectionOK then None
    else if (collection == CollectionPartial) || negb (sameOutcome left right)
    then Some ReasonSourcePartial
    else st_ReasonCode left in
  let unknown := freshness == FreshnessUnknown in
  MkStatus support collection freshness
    (if unknown then None else laterTime (st_ObservedAt left) (st_ObservedAt right))
    (laterTime (st_AttemptedAt left) (st_AttemptedAt right))
    (if unknown then None else laterTime (st_CoverageThrough left) (st_CoverageThrough right))
    reason.

(** [None] is any of its error returns. *)
Definition AggregateStatus (statuses : list Status) : option Status :=
  if MaxSources <? Z.of_nat (length statuses) then None
  else if negb (forallb Status_Validate statuses) then None
  else match statuses with
  | [] => Some (MkStatus SupportDisabled CollectionNotRun FreshnessUnknown None None None
                  (Some ReasonLogSourcesDisabled))
  | [s] =>
      let result :=
        if st_CollectionState s == CollectionPartial
        then MkStatus (st_SupportState s) (st_CollectionState s) (st_Freshness s) (st_ObservedAt s)
               (st_AttemptedAt s) (st_CoverageThrough s) (Some ReasonSourcePartial)
        else s in
      if Status_Validate result then Some result else None
  | l :: r :: _ =>
      let result := combine l r in
      if Status_Validate result then Some result else None
  end.

(** ** The status functions of the collector *)

(** [StatusAfterBatch]; [zeroStatus] is the previous status of a source that has none. *)
Definition StatusAfterBatch (b : Batch) (previous : Status) : Status :=
  let status freshness observed coverage :=
    MkStatus (b_SupportState b) (b_CollectionState b) freshness observed (Some (b_QueryStartedAt b))
             coverage (b_ReasonCode b) in
  let query := b_QueryStartedAt b in
  if (b_Kind b == BatchNormal) && (b_CaughtUp b || (0 <? Z.of_nat (length (b_Events b)))) then
    status FreshnessCurrent (Some query)
      (if b_CaughtUp b then Some query
       else match st_CoverageThrough previous with
            | Some c => if negb (After c query) then Some c else None
            | None => None
            end)
  else if ((b_SupportState b == SupportSupported)
           && ((b_CollectionState b == CollectionPartial) || (b_CollectionState b == CollectionFailed)))
          || ((b_SupportState b == SupportUnavailable) && (b_CollectionState b == CollectionFailed))
  then match st_ObservedAt previous with
       | Some o => if negb (After o query) then status FreshnessStale (Some o) (st_CoverageThrough previous)
                   else status FreshnessUnknown None None
       | None => status FreshnessUnknown None None
       end
  else status FreshnessUnknown None None.

(** The status [recordStorageFailure] computes. *)
Definition storageFailureStatus (previous : option Status) (attemptedAt : time) (attempted : option Batch) : Status :=
  let support :=
    match attempted, previous with
    | Some b, _ => if b_SupportState b == SupportSupported then SupportSupported else SupportUnavailable
    | None, Some p => if st_SupportState p == SupportSupported then SupportSupported else SupportUnavailable
    | None, None => SupportUnavailable
    end in
  let status freshness observed coverage :=
    MkStatus support CollectionFailed freshness observed (Some attemptedAt) coverage
             (Some ReasonLogStorageUnavailable) in
  match previous with
  | Some p =>
      match st_ObservedAt p with
      | Some o => if negb (After o attemptedAt) then status FreshnessStale (Some o) (st_CoverageThrough p)
                  else status FreshnessUnknown None None
      | None => status FreshnessUnknown None None
      end
  | None => status FreshnessUnknown None None
  end.

Definition statusAttemptIsAfter (candidate durable : Status) : bool :=
  match st_AttemptedAt candidate with
  | None => false
  | Some c => match st_AttemptedAt durable with None => true | Some d => After c d end
  end.

Definition mergeStorageOverlay (stored overlay : Status) : Status :=
  let '(observed, freshness) :=
    match st_ObservedAt stored with
    | Some o =>
        if match st_ObservedAt overlay with None => true | Some r => After o r end
        then (Some o, FreshnessStale) else (st_ObservedAt overlay, st_Freshness overlay)
    | None => (st_ObservedAt overlay, st_Freshness overlay)
    end in
  let coverage :=
    match st_CoverageThrough stored, observed with
    | Some c, Some o =>
        if (match st_CoverageThrough overlay with None => true | Some r => After c r end)
           && negb (After c o)
        then Some c else st_CoverageThrough overlay
    | _, _ => st_CoverageThrough overlay
    end in
  MkStatus (st_SupportState overlay) (st_CollectionState overlay) freshness observed
    (st_AttemptedAt overlay) coverage (st_ReasonCode overlay).

(** ** What [Status.Validate] means *)

(** [a <= b] for optional times; a time needs one to be compared with. *)
Definition le_opt (a b : option time) : Prop :=
  match a, b with
  | None, _ => True
  | Some x, Some y => wall x ≤ wall y
  | Some _, None => False
  end.

Record times_ok (obs att cov : option time) : Prop := {
  to_obs : validateUTCPointer obs = true; to_att : validateUTCPointer att = true;
  to_cov : validateUTCPointer cov = true; to_cov_obs : le_opt cov obs; to_obs_att : le_opt obs att }.

Inductive outcome_ok : SupportState → CollectionState → Freshness → option ReasonCode → Prop :=
| outcome_collected f :
    f = FreshnessCurrent ∨ f = FreshnessStale → outcome_ok SupportSupported CollectionOK f None
| outcome_partial f r :
    Freshness_Validate f = true → ReasonCode_Validate r = true →
    outcome_ok SupportSupported CollectionPartial f (Some r)
| outcome_failed sup f r :
    sup = SupportSupported ∨ sup = SupportUnavailable → f = FreshnessStale ∨ f = FreshnessUnknown →
    ReasonCode_Validate r = true → outcome_ok sup CollectionFailed f (Some r)
| outcome_not_run sup r :
    SupportState_Validate sup = true → sup ≠ SupportSupported → ReasonCode_Validate r = true →
    outcome_ok sup CollectionNotRun FreshnessUnknown (Some r).

Record status_ok (s : Status) : Prop := {
  so_times : times_ok (st_ObservedAt s) (st_AttemptedAt s) (st_CoverageThrough s);
  so_observed : is_some (st_ObservedAt s) = negb (st_Freshness s == FreshnessUnknown);
  so_outcome : outcome_ok (st_SupportState s) (st_CollectionState s) (st_Freshness s) (st_ReasonCode s) }.

Lemma validateUTC_wallclock t : validateUTC t = true → wallclock t.
Proof. unfold validateUTC. intros. bools. auto with observer. Qed.
#[export] Hint Resolve validateUTC_wallclock : observer.

Definition times_valid (obs att cov : option time) : bool :=
  validateUTCPointer obs && validateUTCPointer att && validateUTCPointer cov
  && negb (is_some cov && is_none obs) && negb (is_some obs && is_none att)
  && negb (AfterPointer cov obs) && negb (AfterPointer obs att) && negb (AfterPointer cov att).

Lemma times_valid_iff obs att cov : times_valid obs att cov = true ↔ times_ok obs att cov.
Proof.
  unfold times_valid. split.
  - intros H. bools. destruct obs as [o|], att as [a|], cov as [c|]; simpl in *; try done;
      split; simpl; auto; rewrite After_wall_l in * by auto with observer; bools; lia.
  - intros [Ho Ha Hc H1 H2]. rewrite Ho, Ha, Hc.
    destruct obs as [o|], att as [a|], cov as [c|]; simpl in *; try done;
      rewrite ?After_wall_l by auto with observer;
      repeat (replace (_ <? _) with false by lia); done.
Qed.

(** The part of [Status.Validate] that is not about times. *)
Definition outcome_valid (sup : SupportState) (col : CollectionState) (fresh : Freshness)
    (reason : option ReasonCode) (observed attempted : bool) : bool :=
  SupportState_Validate sup && CollectionState_Validate col && Freshness_Validate fresh
  && validateReasonPointer reason
  && (if (fresh == FreshnessCurrent) || (fresh == FreshnessStale) then observed else negb observed)
  && (if col == CollectionOK
      then negb ((sup != SupportSupported) || is_some reason || negb observed || negb attempted
                 || (fresh == FreshnessUnknown))
      else is_some reason)
  && negb ((col == CollectionPartial) && (sup != SupportSupported))
  && negb ((col == CollectionNotRun) && (sup == SupportSupported))
  && (if sup != SupportSupported
      then negb ((sup != SupportUnavailable) && (col != CollectionNotRun))
           && negb ((col == CollectionNotRun) && ((fresh != FreshnessUnknown) || observed))
      else true)
  && negb ((col == CollectionFailed) && (fresh == FreshnessCurrent)).

Lemma Status_Validate_split s :
  Status_Validate s
  = times_valid (st_ObservedAt s) (st_AttemptedAt s) (st_CoverageThrough s)
    && outcome_valid (st_SupportState s) (st_CollectionState s) (st_Freshness s) (st_ReasonCode s)
         (is_some (st_ObservedAt s)) (is_some (st_AttemptedAt s)).
Proof.
  unfold Status_Validate, times_valid, outcome_valid.
  replace (is_none (st_ObservedAt s)) with (negb (is_some (st_ObservedAt s))) by by destruct (st_ObservedAt s).
  replace (is_none (st_AttemptedAt s)) with (negb (is_some (st_AttemptedAt s))) by by destruct (st_AttemptedAt s).
  btauto.
Qed.

Lemma outcome_valid_sound sup col fresh reason observed attempted :
  outcome_valid sup col fresh reason observed attempted = true →
  outcome_ok sup col fresh reason ∧ observed = negb (fresh == FreshnessUnknown).
Proof.
  unfold outcome_valid. intros Ho. bools.
  destruct fresh; try done; destruct col; try done; destruct sup; try done;
    destruct reason; try done; destruct observed; try done; (split; [|done]); constructor; auto; done.
Qed.

Lemma outcome_valid_complete sup col fresh reason attempted :
  outcome_ok sup col fresh reason → (fresh ≠ FreshnessUnknown → attempted = true) →
  outcome_valid sup col fresh reason (negb (fresh == FreshnessUnknown)) attempted = true.
Proof.
  intros [f Hf|f r Hf Hr|s f r Hs Hf Hr|s r Hs Hn Hr] Ha; unfold outcome_valid; cbn [validateReasonPointer is_some].
  - destruct Hf as [-> | ->]; rewrite Ha by done; done.
  - rewrite Hr. by destruct f.
  - rewrite Hr. by destruct Hs as [-> | ->], Hf as [-> | ->].
  - rewrite Hr. by destruct s.
Qed.

Lemma status_valid_iff s : Status_Validate s = true ↔ status_ok s.
Proof.
  rewrite Status_Validate_split, andb_true_iff, times_valid_iff. split.
  - intros [Ht Ho]. apply outcome_valid_sound in Ho as [Ho Hobs]. by split.
  - intros [Ht Hobs Ho]. split; [done|]. rewrite Hobs. apply outcome_valid_complete; [done|].
    intros Hf. destruct Ht as [_ _ _ _ Hle]. rewrite bool_decide_eq_false_2 in Hobs by done.
    by destruct (st_ObservedAt s), (st_AttemptedAt s).
Qed.

(** ** Combining statuses *)

Lemma laterTime_valid a b :
  validateUTCPointer a = true → validateUTCPointer b = true → validateUTCPointer (laterTime a b) = true.
Proof. destruct a as [a|], b as [b|]; simpl; try done. by destruct (After b a). Qed.

Lemma laterTime_le a b a' b' :
  validateUTCPointer a = true → validateUTCPointer b = true →
  validateUTCPointer a' = true → validateUTCPointer b' = true →
  le_opt a a' → le_opt b b' → le_opt (laterTime a b) (laterTime a' b').
Proof.
  destruct a as [a|], b as [b|], a' as [a'|], b' as [b'|]; simpl; try done; intros;
    rewrite ?After_wall_l by auto with observer;
    repeat match goal with |- context [?x <? ?y] => destruct (Z.ltb_spec x y) end; simpl; lia.
Qed.

Lemma laterTime_some a b : is_some (laterTime a b) = is_some a || is_some b.
Proof. destruct a as [a|], b as [b|]; simpl; try done. by destruct (After b a). Qed.

Lemma times_later o a c o' a' c' :
  times_ok o a c → times_ok o' a' c' → times_ok (laterTime o o') (laterTime a a') (laterTime c c').
Proof. intros [] []. split; auto using laterTime_valid, laterTime_le. Qed.

(** The freshness of two statuses: unknown if neither observed, current if every
    observation is current. *)
Inductive fresher : Freshness → Freshness → Freshness → Prop :=
| fresher_unknown : fresher FreshnessUnknown FreshnessUnknown FreshnessUnknown
| fresher_left f : f ≠ FreshnessUnknown → fresher f FreshnessUnknown f
| fresher_right f : f ≠ FreshnessUnknown → fresher FreshnessUnknown f f
| fresher_both : fresher FreshnessCurrent FreshnessCurrent FreshnessCurrent
| fresher_stale f g : f ≠ FreshnessUnknown → g ≠ FreshnessUnknown → f = FreshnessStale ∨ g = FreshnessStale →
    fresher f g FreshnessStale.

Lemma outcome_freshness sup col f r : outcome_ok sup col f r → Freshness_Validate f = true.
Proof. intros [f' [-> | ->]|f' r' Hf Hr|s' f' r' Hs [-> | ->] Hr|s' r' Hs Hn Hr]; done. Qed.

Lemma aggregateFreshness_spec l r :
  status_ok l → status_ok r → fresher (st_Freshness l) (st_Freshness r) (aggregateFreshness l r).
Proof.
  intros [_ Hl Ol] [_ Hr Or]. apply outcome_freshness in Ol, Or. unfold aggregateFreshness.
  destruct (st_ObservedAt l), (st_ObservedAt r), (st_Freshness l), (st_Freshness r); try done;
    constructor; auto; done.
Qed.

Lemma combine_outcome l r sl sr cl cr fl fr f rl rr :
  st_SupportState l = sl → st_SupportState r = sr → st_CollectionState l = cl → st_CollectionState r = cr →
  st_Freshness l = fl → st_Freshness r = fr → st_ReasonCode l = rl → st_ReasonCode r = rr →
  outcome_ok sl cl fl rl → outcome_ok sr cr fr rr → fresher fl fr f →
  outcome_ok (st_SupportState (combine l r)) (st_CollectionState (combine l r)) f (st_ReasonCode (combine l r)).
Proof.
  intros Hsl Hsr Hcl Hcr Hfl Hfr Hrl Hrr Ol Or Hf.
  assert (Hfv : Freshness_Validate f = true)
    by (apply outcome_freshness in Ol, Or; destruct Hf; auto).
  unfold combine, aggregateSupport, aggregateCollection, sameOutcome. cbn [st_SupportState st_CollectionState st_ReasonCode].
  rewrite Hsl, Hsr, Hcl, Hcr, Hrl, Hrr. clear Hsl Hsr Hcl Hcr Hfl Hfr Hrl Hrr.
  destruct Ol as [f1 F1|f1 r1 F1 R1|s1 f1 r1 S1 F1 R1|s1 r1 S1 N1 R1];
    destruct Or as [f2 F2|f2 r2 F2 R2|s2 f2 r2 S2 F2 R2|s2 r2 S2 N2 R2].
  all: try (destruct F1 as [-> | ->]); try (destruct F2 as [-> | ->]);
    try (destruct S1 as [-> | ->]); try (destruct S2 as [-> | ->]).
  all: repeat (case_bool_decide; simplify_eq; cbn [andb orb negb equalReasons]); try done.
  all: try (constructor; auto; done).
  all: inversion Hf; subst; try done; constructor; auto; done.
Qed.

Lemma combine_ok l r : status_ok l → status_ok r → status_ok (combine l r).
Proof.
  intros Hl Hr. pose proof (aggregateFreshness_spec _ _ Hl Hr) as Hf.
  assert (Ho : outcome_ok (st_SupportState (combine l r)) (st_CollectionState (combine l r))
     (aggregateFreshness l r) (st_ReasonCode (combine l r))) by (eapply combine_outcome; eauto; apply Hl || apply Hr).
  destruct Hl as [Tl Obl _], Hr as [Tr Obr _]. split; [| |exact Ho]; cbn [combine st_ObservedAt st_AttemptedAt
    st_CoverageThrough st_Freshness].
  - pose proof (times_later _ _ _ _ _ _ Tl Tr) as Ht.
    destruct (aggregateFreshness l r == FreshnessUnknown); [|done]. destruct Ht. split; done.
  - destruct (aggregateFreshness l r == FreshnessUnknown) eqn:Hu; [done|]. bools. rewrite laterTime_some, Obl, Obr. cbn [negb].
    inversion Hf as [Ha Hb Hc|g Hg Ha Hb Hc|g Hg Ha Hb Hc|Ha Hb Hc|g g' Hg Hg' Hs Ha Hb Hc]; try congruence;
      apply orb_true_iff; rewrite !negb_true_iff, !bool_decide_eq_false;
      (left; congruence) || (right; congruence).
Qed.

Lemma partial_reason_ok s :
  status_ok s → st_CollectionState s = CollectionPartial →
  status_ok (MkStatus (st_SupportState s) (st_CollectionState s) (st_Freshness s) (st_ObservedAt s)
               (st_AttemptedAt s) (st_CoverageThrough s) (Some ReasonSourcePartial)).
Proof.
  intros [Ht Ho Hc] Hp. split; [done|done|]. cbn. rewrite Hp in *. inversion Hc; subst.
  by constructor.
Qed.

(** What the aggregate reports about its sources. *)
Lemma combine_collected l r :
  st_CollectionState (combine l r) = CollectionOK → status_ok l → status_ok r →
  st_CollectionState l = CollectionOK ∧ st_CollectionState r = CollectionOK.
Proof.
  intros Hc [_ _ Ol] [_ _ Or]. unfold combine, aggregateCollection in Hc. cbn in Hc.
  case_bool_decide; [|by destruct (_ || _)]. destruct (_ || _) eqn:E; [done|]. bools.
  split; congruence.
Qed.

Lemma AggregateStatus_ok ss :
  (length ss ≤ 2)%nat → forallb Status_Validate ss = true →
  ∃ s, AggregateStatus ss = Some s ∧ Status_Validate s = true
    ∧ (st_CollectionState s = CollectionOK
       ↔ ss ≠ [] ∧ forallb (λ x, st_CollectionState x == CollectionOK) ss = true).
Proof.
  intros Hl Hv. unfold AggregateStatus, MaxSources. rewrite Hv. replace (2 <? _) with false by lia.
  destruct ss as [|l [|r [|x ss]]]; cbn [negb forallb] in *; [| | |simpl in Hl; lia]; bools.
  - eexists. split; [done|]. split; [done|]. split; [done|by intros []].
  - assert (Hok : status_ok l) by by apply status_valid_iff. case_bool_decide as Hp.
    + rewrite (proj2 (status_valid_iff _) (partial_reason_ok _ Hok Hp)). eexists. split; [done|].
      split; [by apply status_valid_iff, partial_reason_ok|]. cbn. rewrite Hp. split; [done|by intros []].
    + rewrite H. eexists. split; [done|]. split; [done|]. rewrite andb_true_r, bool_decide_eq_true. by split; [|intros []].
  - assert (Hl' : status_ok l) by by apply status_valid_iff. assert (Hr' : status_ok r) by by apply status_valid_iff.
    pose proof (combine_ok _ _ Hl' Hr') as Hok. rewrite (proj2 (status_valid_iff _) Hok).
    eexists. split; [done|]. split; [by apply status_valid_iff|]. rewrite andb_true_r. split.
    + intros [Hcl Hcr]%combine_collected; auto. by rewrite !bool_decide_eq_true_2.
    + intros [_ Hb]. bools. destruct Hl' as [_ _ Ol], Hr' as [_ _ Or].
      destruct l, r; cbn in *; subst. inversion Ol; inversion Or; subst. done.
Qed.

(** Aggregation of source statuses never fails on what the collector keeps:
    at most two valid statuses always combine to a valid status, which reports a
    clean collection exactly when there is a source and every source reports
    one. *)
Theorem aggregate_total ss :
  (length ss ≤ 2)%nat → forallb Status_Validate ss = true →
  ∃ s, AggregateStatus ss = Some s ∧ Status_Validate s = true
    ∧ (st_CollectionState s = CollectionOK
       ↔ ss ≠ [] ∧ forallb (λ x, st_CollectionState x == CollectionOK) ss = true).
Proof. exact (AggregateStatus_ok ss). Qed.

Module StatusSample.
Definition t0 : time := At (63800000000 * Second).
Definition t1 : time := At (63800000060 * Second).
Definition collected : Status :=
  MkStatus SupportSupported CollectionOK FreshnessCurrent (Some t1) (Some t1) (Some t1) None.
Definition denied : Status :=
  MkStatus SupportPermissionDenied CollectionNotRun FreshnessUnknown None (Some t0) None (Some ReasonPermissionDenied).
End StatusSample.

Lemma aggregate_total_witness :
  ∃ s, AggregateStatus [StatusSample.collected; StatusSample.denied] = Some s ∧ Status_Validate s = true
    ∧ st_CollectionState s ≠ CollectionOK.
Proof.
  destruct (aggregate_total [StatusSample.collected; StatusSample.denied]) as (s & Hs & Hv & Hiff);
    [simpl; lia|vm_compute; reflexivity|].
  exists s. split; [done|]. split; [done|]. intros [_ Hc]%Hiff. vm_compute in Hc. discriminate.
Defined.

(** ** Statuses of one source *)

(** What the collector stores for a source, and what a summary accepts. *)
Definition source_ok (s : Status) : Prop := status_ok s ∧ validateSourceStatus s = true.

(** A previous status, or none yet. *)
Definition previous_ok (s : Status) : Prop := s = zeroStatus ∨ status_ok s.

Lemma previous_times p :
  previous_ok p → times_ok (st_ObservedAt p) (st_AttemptedAt p) (st_CoverageThrough p).
Proof. intros [-> |[Ht _ _]]; [by split|done]. Qed.

(** The parts of a valid batch the status depends on. *)
Lemma Batch_Validate_parts b :
  Batch_Validate b = true →
  validateUTC (b_QueryStartedAt b) = true ∧ Batch_validateNativeState b = true
  ∧ validateReasonPointer (b_ReasonCode b) = true
  ∧ (b_CollectionState b = CollectionOK → b_ReasonCode b = None)
  ∧ (b_Kind b ≠ BatchNormal → b_CollectionState b ≠ CollectionOK)
  ∧ (b_Kind b = BatchNormal → b_CollectionState b = CollectionOK → b_CaughtUp b = true)
  ∧ (b_CaughtUp b || (0 <? Z.of_nat (length (b_Events b))) = true → b_Kind b = BatchNormal →
       b_CollectionState b = CollectionOK ∨ b_CollectionState b = CollectionPartial)
  ∧ (∀ e, e ∈ b_Events b → Event_Validate e = true).
Proof.
  unfold Batch_Validate. intros Hv. destruct (sumDiscards 0 (b_Discards b)) as [d|]; [|by rewrite andb_false_r in Hv].
  bools. unfold validateOrderedTimes in *. bools.
  assert (Hev : ∀ e, e ∈ b_Events b → Event_Validate e = true).
  { intros e He. match goal with H : forallb _ (b_Events b) = true |- _ => rewrite forallb_forall in H;
      apply list_elem_of_In, H in He end. by bools. }
  do 3 (split; [done|]). split.
  { intros Hc. rewrite Hc in *. simpl in *. bools. by destruct (b_ReasonCode b). }
  destruct (b_Kind b != BatchNormal) eqn:Hk; bools.
  - split; [|split; [done|split; [done|done]]]. intros _ Hc.
    unfold Batch_validateResetBatch in *. bools. rewrite Hc in *.
    destruct (b_Kind b == BatchResetEstablished); bools; done.
  - split; [done|]. unfold Batch_validateNormal in *. bools. split; [|split; [|done]].
    + intros _ Hc. rewrite Hc in *. simpl in *. by bools.
    + intros Hsome _. destruct (b_CollectionState b) eqn:Hc; auto; simpl in *; bools;
        [..|done]; unfold noEvents in *; bools; lia || (rewrite orb_true_iff in Hsome; destruct Hsome; bools; congruence || lia).
Qed.

(** A batch's outcome is a status outcome, with the freshness it allows. *)
Lemma native_outcome b f :
  Batch_validateNativeState b = true → validateReasonPointer (b_ReasonCode b) = true →
  (b_CollectionState b = CollectionOK → b_ReasonCode b = None) →
  match b_CollectionState b with
  | CollectionOK => f = FreshnessCurrent
  | CollectionPartial => Freshness_Validate f = true
  | CollectionFailed => f = FreshnessStale ∨ f = FreshnessUnknown
  | _ => f = FreshnessUnknown
  end → outcome_ok (b_SupportState b) (b_CollectionState b) f (b_ReasonCode b).
Proof.
  unfold Batch_validateNativeState. intros Hn Hr Hok Hf.
  destruct (b_SupportState b), (b_CollectionState b); try done;
    (destruct (b_ReasonCode b) as [r|]; [|try done]; try (by specialize (Hok eq_refl));
     try (subst f)).
  all: try (constructor; auto; done). by rewrite andb_false_r in Hn.
Qed.

Lemma native_source_status b f o a c :
  Batch_validateNativeState b = true → (b_CollectionState b = CollectionOK → b_ReasonCode b = None) →
  validateSourceStatus (MkStatus (b_SupportState b) (b_CollectionState b) f o a c (b_ReasonCode b)) = true.
Proof.
  unfold Batch_validateNativeState, validateSourceStatus. cbn. intros Hn Hok.
  destruct (b_SupportState b), (b_CollectionState b); try done.
  - by rewrite Hok.
  - rewrite orb_true_iff, andb_true_iff in Hn. destruct Hn as [[_ ->]|Hn]; [done|].
    destruct (_ == ReasonCheckpointReset); [done|]. exact Hn.
  - by rewrite Hn.
  - rewrite orb_false_r in *. simpl in Hn. by rewrite Hn.
  - simpl in *. by rewrite Hn.
Qed.

(** Times of a status observed now. *)
Lemma observed_now_times query cov (caught : bool) :
  validateUTC query = true → validateUTCPointer cov = true →
  times_ok (Some query) (Some query)
    (if caught then Some query
     else match cov with Some c => if negb (After c query) then Some c else None | None => None end).
Proof.
  intros Hq Hc. destruct caught; [|destruct cov as [c|]; [cbn [validateUTCPointer] in Hc;
    rewrite After_wall_l by auto with observer; destruct (wall query <? wall c) eqn:E; bools|]];
    split; cbn [validateUTCPointer le_opt negb]; auto; lia.
Qed.

Lemma StatusAfterBatch_ok b p :
  Batch_Validate b = true → p = zeroStatus ∨ Status_Validate p = true →
  Status_Validate (StatusAfterBatch b p) = true ∧ validateSourceStatus (StatusAfterBatch b p) = true.
Proof.
  intros (Hq & Hn & Hr & Hok & Hkind & Hcaught & Hsome & _)%Batch_Validate_parts Hp.
  assert (Ht : times_ok (st_ObservedAt p) (st_AttemptedAt p) (st_CoverageThrough p)).
  { apply previous_times. destruct Hp; [by left|right; by apply status_valid_iff]. }
  assert (Hsrc : ∀ f o c, validateSourceStatus (MkStatus (b_SupportState b) (b_CollectionState b) f o
     (Some (b_QueryStartedAt b)) c (b_ReasonCode b)) = true) by (intros; by apply native_source_status).
  assert (Hnone : b_CollectionState b ≠ CollectionOK → status_ok (MkStatus (b_SupportState b) (b_CollectionState b)
     FreshnessUnknown None (Some (b_QueryStartedAt b)) None (b_ReasonCode b))).
  { intros Hne. split; [by split|done|]. apply native_outcome; auto. by destruct (b_CollectionState b); auto. }
  rewrite status_valid_iff. unfold StatusAfterBatch. destruct (_ && _) eqn:E1; bools.
  - split; [|done]. destruct (Hsome ltac:(done) ltac:(done)) as [Hc|Hc].
    all: split; cbn [st_ObservedAt st_AttemptedAt st_CoverageThrough st_Freshness st_SupportState
      st_CollectionState st_ReasonCode]; [|done|apply native_outcome; auto; by rewrite Hc].
    all: by apply observed_now_times; [|apply Ht].
  - assert (Hne : b_CollectionState b ≠ CollectionOK).
    { intros Hc. destruct (decide (b_Kind b = BatchNormal)) as [Hk|Hk]; [|by apply Hkind].
      rewrite Hcaught, Hk in E1 by done. done. }
    clear Hkind Hcaught Hsome E1. destruct (_ || _) eqn:E2; [|by split; [apply Hnone|]].
    destruct (st_ObservedAt p) as [o|] eqn:Ho; [|by split; [apply Hnone|]].
    destruct (After o (b_QueryStartedAt b)) eqn:E3; cbn [negb]; [by split; [apply Hnone|]|].
    split; [|done]. destruct Ht as [Vo Va Vc Hco Hoa]. cbn [validateUTCPointer] in Vo.
    rewrite After_wall_l in E3 by auto with observer. bools.
    split; cbn; [split; cbn [validateUTCPointer le_opt]; auto|done|]. apply native_outcome; auto.
    apply orb_true_iff in E2 as [E2|E2]; bools; [apply orb_true_iff in H0 as [H0|H0]; bools|]; 
      repeat match goal with H : b_CollectionState b = _ |- _ => rewrite H end; auto.
Qed.

(** A storage failure leaves a valid failed status: the last observation is
    kept as stale when it is not newer than the attempt, otherwise nothing is
    claimed to be known. *)
Lemma storageFailureStatus_ok previous attemptedAt attempted :
  validateUTC attemptedAt = true → (∀ p, previous = Some p → Status_Validate p = true) →
  let s := storageFailureStatus previous attemptedAt attempted in
  Status_Validate s = true ∧ validateSourceStatus s = true
  ∧ st_CollectionState s = CollectionFailed ∧ st_AttemptedAt s = Some attemptedAt
  ∧ st_Freshness s ≠ FreshnessCurrent.
Proof.
  intros Hv Hp s. rewrite status_valid_iff.
  assert (Hs : ∃ sup f o c, s = MkStatus sup CollectionFailed f o (Some attemptedAt) c (Some ReasonLogStorageUnavailable)
    ∧ (sup = SupportSupported ∨ sup = SupportUnavailable)
    ∧ ((f = FreshnessUnknown ∧ o = None ∧ c = None)
       ∨ ∃ p x, previous = Some p ∧ f = FreshnessStale ∧ o = Some x ∧ st_ObservedAt p = Some x
           ∧ After x attemptedAt = false ∧ c = st_CoverageThrough p)).
  { subst s. unfold storageFailureStatus.
    set (sup := match attempted, previous with Some _, _ => _ | _, _ => _ end).
    assert (sup = SupportSupported ∨ sup = SupportUnavailable)
      by (subst sup; destruct attempted, previous; try case_bool_decide; auto). clearbody sup.
    destruct previous as [p|]; [destruct (st_ObservedAt p) as [x|] eqn:Hx; [destruct (After x attemptedAt) eqn:Ha|]|];
      cbn [negb]; do 4 eexists; (split; [done|]); (split; [done|]); [by left| |by left|by left].
    right. by exists p, x. }
  clearbody s. destruct Hs as (sup & f & o & c & -> & Hsup & Hcase). cbn.
  destruct Hcase as [(-> & -> & ->)|(p & x & -> & -> & -> & Hx & Ha & ->)].
  - split; [split; cbn; [by split|done|constructor; auto]|]. by destruct Hsup as [-> | ->].
  - apply (fun H => proj1 (status_valid_iff p) (H p eq_refl)) in Hp. destruct Hp as [[Vo _ Vc Hco _] _ _].
    rewrite Hx in *. cbn [validateUTCPointer] in Vo. rewrite After_wall_l in Ha by auto with observer. bools.
    split; [split; cbn; [by split|done|constructor; auto]|]. by destruct Hsup as [-> | ->].
Qed.

Lemma merge_times o a c o' a' c' :
  times_ok o a c → times_ok o' a' c' → le_opt a a' →
  let obs := match o with Some t => if match o' with None => true | Some r => After t r end then Some t else o' | None => o' end in
  times_ok obs a' (match c, obs with
    | Some t, Some v => if (match c' with None => true | Some r => After t r end) && negb (After t v) then Some t else c'
    | _, _ => c' end).
Proof.
  intros [Vo Va Vc H1 H2] [Vo' Va' Vc' H1' H2'] Hle obs.
  assert (Hobs : validateUTCPointer obs = true ∧ le_opt obs a' ∧ le_opt c' obs).
  { subst obs. destruct o as [t|], o' as [t'|]; cbn [validateUTCPointer le_opt] in *; try done;
      rewrite ?After_wall_l by auto with observer; [destruct (wall t' <? wall t) eqn:E|]; bools;
      destruct c', a, a'; cbn [validateUTCPointer le_opt] in *; try done; repeat split; auto; lia. }
  clearbody obs. destruct Hobs as (V & L & Lc). destruct c as [t|], obs as [v|]; try by split.
  destruct (_ && _) eqn:E; [|by split]. bools. cbn [validateUTCPointer] in *.
  rewrite After_wall_l in * by auto with observer. bools. by split.
Qed.

(** Laying a later storage failure over a stored source status keeps it
    valid, so a summary that was valid before the overlay is still valid after
    it: newer stored evidence is carried over as stale, never past the failed
    attempt. *)
Lemma mergeStorageOverlay_ok stored overlay :
  Status_Validate stored = true → Status_Validate overlay = true → validateSourceStatus overlay = true →
  st_CollectionState overlay = CollectionFailed → statusAttemptIsAfter overlay stored = true →
  Status_Validate (mergeStorageOverlay stored overlay) = true
  ∧ validateSourceStatus (mergeStorageOverlay stored overlay) = true.
Proof.
  rewrite !status_valid_iff. intros [Ts Os Ss] [To Oo So] Hsrc Hfail Haft.
  assert (Hle : le_opt (st_AttemptedAt stored) (st_AttemptedAt overlay)).
  { unfold statusAttemptIsAfter in Haft. destruct To as [_ Va _ _ _].
    destruct (st_AttemptedAt overlay) as [y|]; [|done]. destruct (st_AttemptedAt stored) as [x|]; [|done].
    cbn [validateUTCPointer le_opt] in *. rewrite After_wall_l in Haft by auto with observer. bools. lia. }
  pose proof (merge_times _ _ _ _ _ _ Ts To Hle) as Ht. rewrite Hfail in So.
  inversion So as [| |sup f r Hsup Hf Hr Es Ec Ef Er|]. subst sup f. unfold mergeStorageOverlay.
  destruct (st_ObservedAt stored) as [o|];
    [destruct (match st_ObservedAt overlay with None => true | Some r => After o r end)|];
    (split; [split; cbn [st_ObservedAt st_AttemptedAt st_CoverageThrough st_Freshness st_SupportState
       st_CollectionState st_ReasonCode]; [exact Ht|done|]|exact Hsrc]);
    rewrite Hfail, <- Er; constructor; auto.
Qed.

