(* ===== verification/LogCollector.v ===== *)
(** * The log collector ([internal/logobs/collector.go])

    One collection round loads the checkpoint of every source, reads every source
    under one shared deadline, and only then commits the batches.  The collector's
    maps and its ring of recent events are shared with readers of [Current] and
    [Summary], so they live in the world the round runs in, and a record update is
    a step of that world: what holds at every step holds whenever a reader looks.

    The store behind the collector is an interface.  [commit_effect] states the
    part of its contract the collector relies on: a batch is applied only over the
    revision it expects, which it then increases by one; a conflict applies
    nothing; any other error may or may not have applied the batch.  [CommitBatch]
    of [internal/history] promises exactly this (the revision test and the final
    [WHERE revision=?] of [commitLogBatch]). *)

From S2P Require Import Prelude GoTime GoText Effects LogModel LogStatus.

#[global] Instance Source_countable : Countable Source.
Proof.
  apply (inj_countable' (λ s, match s with SourceSystem => inl true | SourceApplication => inl false
                              | SourceOther t => inr t end)
    (λ x : bool + string, match x with inl true => SourceSystem | inl false => SourceApplication
                          | inr t => SourceOther t end)).
  by intros [].
Defined.

Record Collector := MkCollector {
  c_sources : list Source;
  c_latest : gmap Source Status; c_overlays : gmap Source Status; c_events : list Event }.

(** The checks of [New] on the sources. *)
Fixpoint ordered_sources (previousRank : Z) (sources : list Source) : bool :=
  match sources with
  | [] => true
  | s :: rest => negb ((sourceRank s <? 0) || (sourceRank s <=? previousRank)) && ordered_sources (sourceRank s) rest
  end.
Definition New (sources : list Source) : option Collector :=
  if MaxSources <? Z.of_nat (length sources) then None
  else if ordered_sources (-1) sources then Some (MkCollector sources ∅ ∅ []) else None.

(** [sort.SliceStable] with [After]: newest first, equal times in order. *)
Fixpoint insert_event (e : Event) (es : list Event) : list Event :=
  match es with
  | [] => [e]
  | x :: rest => if After (ev_ObservedAt x) (ev_ObservedAt e) then x :: insert_event e rest else e :: es
  end.
Definition sort_events (es : list Event) : list Event := foldr insert_event [] es.

Definition recordCommit (c : Collector) (b : Batch) : Collector :=
  let previous := default zeroStatus (c_latest c !! b_Source b) in
  let events :=
    if (length (b_Events b) =? 0)%nat then c_events c
    else
      let sorted := sort_events (c_events c ++ b_Events b) in
      if MaxRecentEvents <? Z.of_nat (length sorted) then take (Z.to_nat MaxRecentEvents) sorted else sorted in
  MkCollector (c_sources c) (<[b_Source b := StatusAfterBatch b previous]> (c_latest c))
    (delete (b_Source b) (c_overlays c)) events.

Definition recordStorageFailure (c : Collector) (source : Source) (attemptedAt : time)
    (attempted : option Batch) : Collector :=
  let status := storageFailureStatus (c_latest c !! source) attemptedAt attempted in
  MkCollector (c_sources c) (<[source := status]> (c_latest c)) (<[source := status]> (c_overlays c))
    (c_events c).

(** [Current] *)
Definition notYetObserved : Status :=
  MkStatus SupportUnavailable CollectionNotRun FreshnessUnknown None None None (Some ReasonNotYetObserved).
Definition Current (c : Collector) : Snapshot :=
  let statuses := (λ s, default notYetObserved (c_latest c !! s)) <$> c_sources c in
  let status :=
    match AggregateStatus statuses with
    | Some s => s
    | None => MkStatus SupportUnavailable CollectionFailed FreshnessUnknown None None None (Some ReasonReaderFailed)
    end in
  MkSnapshot status (Z.of_nat (length (c_events c))) (c_events c).

(** [Summary], from what [QuerySummary] returned; [None] is any error. *)
Definition summaryMatchesRequest (s : Summary) (q : SummaryQuery) (expected : list Source) : bool :=
  Equal (sm_WindowStart s) (q_WindowStart q) && Equal (sm_WindowEnd s) (q_WindowEnd q)
  && (sm_BucketInterval s =? q_BucketInterval q) && (sm_BucketCount s =? q_BucketCount q)
  && bool_decide (map ss_Source (sm_Sources s) = expected).

Definition overlay_source (overlays : gmap Source Status) (s : SourceSummary) : SourceSummary :=
  match overlays !! ss_Source s with
  | Some overlay =>
      if statusAttemptIsAfter overlay (ss_Status s)
      then MkSourceSummary (ss_Source s) (mergeStorageOverlay (ss_Status s) overlay) (ss_CoverageState s)
             (ss_CoveredSeconds s) (ss_Counts s) (ss_Buckets s)
      else s
  | None => s
  end.

Definition CollectorSummary (c : Collector) (q : SummaryQuery) (stored : option Summary) : option Summary :=
  if negb (SummaryQuery_Validate q) then None
  else if (length (c_sources c) =? 0)%nat
  then Some (MkSummary (q_WindowStart q) (q_WindowEnd q) (q_BucketInterval q) (q_BucketCount q) [])
  else match stored with
  | None => None
  | Some s =>
      if negb (Summary_Validate s && summaryMatchesRequest s q (c_sources c)) then None
      else
        let result := MkSummary (sm_WindowStart s) (sm_WindowEnd s) (sm_BucketInterval s) (sm_BucketCount s)
                        (overlay_source (c_overlays c) <$> sm_Sources s) in
        if Summary_Validate result then Some result else None
  end.

(** ** One round *)

Inductive CommitResult := Committed | RevisionConflict | CommitFailed.

Inductive LCall : Type → Type :=
| LParentErr : LCall bool (* parent.Err() != nil *)
| LCtxErr : LCall bool (* the operation's own deadline has passed *)
| LReaderErr : LCall bool (* readerCtx.Err() != nil *)
| LNow : LCall time
| LLoad (s : Source) : LCall (option Checkpoint)
| LRead (r : ReadRequest) : LCall (option Batch)
| LCommit (b : Batch) : LCall CommitResult
| LRecordFailure (s : Source) (at_ : time) (b : option Batch) : LCall unit
| LRecordCommit (b : Batch) : LCall unit.

Local Open Scope prog_scope.

Definition validBatchForRequest (b : Batch) (r : ReadRequest) : bool :=
  if negb (Batch_Validate b) || (b_Source b != rq_Source r)
     || negb (b_ExpectedRevision b =? cp_Revision (rq_Checkpoint r))
     || negb (Equal (b_QueryStartedAt b) (rq_QueryStartedAt r))
  then false
  else if cp_ResetPending (rq_Checkpoint r)
  then (b_Kind b == BatchResetPending) || (b_Kind b == BatchResetEstablished)
  else if slen (cp_Opaque (rq_Checkpoint r)) =? 0 then b_Kind b == BatchNormal
  else true.

(** [readerFailureBatch], with the clock reading [now]. *)
Definition readerFailureBatch (r : ReadRequest) (now : time) : Batch :=
  let query := rq_QueryStartedAt r in
  let finishedAt := if Before (UTC now) query then query else UTC now in
  MkBatch (if cp_ResetPending (rq_Checkpoint r) then BatchResetPending else BatchNormal)
    (rq_Source r) (cp_Revision (rq_Checkpoint r)) query query finishedAt SupportUnavailable CollectionFailed
    (Some ReasonReaderFailed) [] [] 0 0 0 false false "".

Definition readSource (s : Source) (cp : Checkpoint) : prog LCall (option Batch) :=
  now <~ LNow;
  let query := UTC now in
  let request := MkReadRequest s cp query in
  if negb (ReadRequest_Validate request) then
    stopped <~ LParentErr;
    if stopped : bool then Ret None else _ <~ LRecordFailure s query None; Ret None
  else
    answer <~ LRead request;
    stopped <~ LParentErr;
    if stopped : bool then Ret None
    else
      (* readErr, the reader's deadline, validity: in this order *)
      expired <- (match answer with Some _ => perform LReaderErr | None => Ret false end);
      match answer with
      | Some b =>
          if negb expired && validBatchForRequest b request then Ret (Some b)
          else finished <~ LNow; Ret (Some (readerFailureBatch request finished))
      | None => finished <~ LNow; Ret (Some (readerFailureBatch request finished))
      end.

(** [commitConfirmed]: retried once when the outcome is unknown. *)
Definition commitConfirmed (s : Source) (b : Batch) : prog LCall bool :=
  expired <~ LCtxErr;
  if expired : bool then Ret false
  else
    first <~ LCommit b;
    match first with
    | Committed => expired <~ LCtxErr; Ret (negb expired)
    | RevisionConflict => Ret false
    | CommitFailed =>
        expired <~ LCtxErr;
        if expired || (b_ExpectedRevision b =? MaxUint64) then Ret false
        else
          loaded <~ LLoad s;
          match loaded with
          | None => Ret false
          | Some cp =>
              if negb (Checkpoint_Validate cp) then Ret false
              else if cp_Revision cp =? wrap_u64 (b_ExpectedRevision b + 1) then Ret true
              else if negb (cp_Revision cp =? b_ExpectedRevision b) then Ret false
              else
                second <~ LCommit b;
                match second with
                | Committed => expired <~ LCtxErr; Ret (negb expired)
                | RevisionConflict => Ret false
                | CommitFailed =>
                    expired <~ LCtxErr;
                    if expired : bool then Ret false
                    else
                      loaded <~ LLoad s;
                      match loaded with
                      | None => Ret false
                      | Some cp => Ret (Checkpoint_Validate cp
                                        && (cp_Revision cp =? wrap_u64 (b_ExpectedRevision b + 1)))
                      end
                end
          end
    end.

(** The three loops of [collectOnce]; [None] is its early return. *)
Fixpoint prepare (sources : list Source) (acc : list (Source * option Checkpoint)) :
    prog LCall (option (list (Source * option Checkpoint))) :=
  match sources with
  | [] => Ret (Some acc)
  | s :: rest =>
      stopped <~ LParentErr;
      if stopped : bool then Ret None
      else
        loaded <~ LLoad s;
        expired <~ LCtxErr;
        match loaded with
        | Some cp =>
            if negb expired && Checkpoint_Validate cp then prepare rest (acc ++ [(s, Some cp)])
            else
              stopped <~ LParentErr;
              if stopped : bool then prepare rest (acc ++ [(s, None)])
              else now <~ LNow; _ <~ LRecordFailure s (UTC now) None; prepare rest (acc ++ [(s, None)])
        | None =>
            stopped <~ LParentErr;
            if stopped : bool then prepare rest (acc ++ [(s, None)])
            else now <~ LNow; _ <~ LRecordFailure s (UTC now) None; prepare rest (acc ++ [(s, None)])
        end
  end.

Fixpoint readAll (items : list (Source * option Checkpoint)) (acc : list (Source * Batch)) :
    prog LCall (option (list (Source * Batch))) :=
  match items with
  | [] => Ret (Some acc)
  | (s, ready) :: rest =>
      stopped <~ LParentErr;
      if stopped : bool then Ret None
      else match ready with
      | None => readAll rest acc
      | Some cp =>
          b <- readSource s cp;
          match b with
          | None => stopped <~ LParentErr; if stopped : bool then Ret None else readAll rest acc
          | Some b => readAll rest (acc ++ [(s, b)])
          end
      end
  end.

Fixpoint commitAll (results : list (Source * Batch)) : prog LCall unit :=
  match results with
  | [] => Ret tt
  | (s, b) :: rest =>
      stopped <~ LParentErr;
      if stopped : bool then Ret tt
      else
        confirmed <- commitConfirmed s b;
        if confirmed : bool then _ <~ LRecordCommit b; commitAll rest
        else
          stopped <~ LParentErr;
          if stopped : bool then commitAll rest
          else _ <~ LRecordFailure s (b_QueryStartedAt b) (Some b); commitAll rest
  end.

Definition collectOnce (sources : list Source) : prog LCall unit :=
  if (length sources =? 0)%nat then Ret tt
  else
    prepared <- prepare sources [];
    match prepared with
    | None => Ret tt
    | Some items =>
        results <- readAll items [];
        match results with None => Ret tt | Some rs => commitAll rs end
    end.
