(* ===== verification/LogCollectorSafety.v ===== *)
(** * What the log collector guarantees

    Readers of [Current] and [Summary] never see an invalid state, at any moment of
    any round and whatever the clock, the reader and the store do; a batch is
    applied at most once although its commit may be retried, and is reported as
    committed only if it was applied; a round applies at most one batch per
    source. *)

From S2P Require Import Prelude GoTime GoText Effects LogModel LogStatus LogCollector.

(** ** The world of a round *)

Record World := MkWorld {
  w_collector : Collector; w_revision : gmap Source Z; w_applied : list Batch }.

Definition revision (w : World) (s : Source) : Z := default 0 (w_revision w !! s).
Definition with_collector (w : World) (c : Collector) : World := MkWorld c (w_revision w) (w_applied w).
Definition apply_batch (w : World) (b : Batch) : World :=
  MkWorld (w_collector w) (<[b_Source b := b_ExpectedRevision b + 1]> (w_revision w)) (w_applied w ++ [b]).

Definition applies (w : World) (b : Batch) (w' : World) : Prop :=
  revision w (b_Source b) = b_ExpectedRevision b ∧ b_ExpectedRevision b < MaxUint64 ∧ w' = apply_batch w b.

(** The contract of [Store.CommitBatch]. *)
Definition commit_effect (w : World) (b : Batch) (r : CommitResult) (w' : World) : Prop :=
  match r with
  | Committed => applies w b w'
  | RevisionConflict => w' = w
  | CommitFailed => w' = w ∨ applies w b w'
  end.

Definition collector_env (A : Type) (e : LCall A) : World → A → World → Prop :=
  match e in LCall T return World → T → World → Prop with
  | LParentErr | LCtxErr | LReaderErr => λ w _ w', w' = w
  | LNow => λ w t w', w' = w ∧ 0 < wall t < year10000
  | LLoad s => λ w r w', w' = w ∧ ∀ cp, r = Some cp → cp_Revision cp = revision w s
  | LRead _ => λ w _ w', w' = w
  | LCommit b => λ w r w', commit_effect w b r w'
  | LRecordFailure s t b => λ w _ w', w' = with_collector w (recordStorageFailure (w_collector w) s t b)
  | LRecordCommit b => λ w _ w', w' = with_collector w (recordCommit (w_collector w) b)
  end.

(** ** The collector's invariant *)

Record collector_ok (c : Collector) : Prop := {
  co_sources : (length (c_sources c) ≤ 2)%nat;
  co_latest : ∀ s st, c_latest c !! s = Some st → Status_Validate st = true;
  co_overlays : ∀ s st, c_overlays c !! s = Some st →
     Status_Validate st = true ∧ validateSourceStatus st = true ∧ st_CollectionState st = CollectionFailed;
  co_valid : Forall (λ e, Event_Validate e = true) (c_events c);
  co_sorted : newestFirst (c_events c) = true;
  co_bounded : (length (c_events c) ≤ 200)%nat }.

Lemma New_ok sources c : New sources = Some c → collector_ok c.
Proof.
  unfold New, MaxSources. intros H. destruct (_ <? _) eqn:E; [done|]. destruct (ordered_sources _ _); [|done].
  injection H as <-. bools. split; simpl; done || lia.
Qed.

(** *** Sorting *)

Lemma Event_wallclock e : Event_Validate e = true → wallclock (ev_ObservedAt e).
Proof. unfold Event_Validate. intros. bools. auto with observer. Qed.

Lemma insert_event_perm e es : insert_event e es ≡ₚ e :: es.
Proof.
  induction es as [|x es IH]; [done|]. simpl. destruct (After _ _); [|done].
  rewrite IH. constructor.
Qed.

Lemma sort_events_perm es : sort_events es ≡ₚ es.
Proof. induction es as [|e es IH]; [done|]. simpl. by rewrite insert_event_perm, IH. Qed.

Lemma newestFirst_cons e es :
  newestFirst es = true → (∀ x, head es = Some x → After (ev_ObservedAt x) (ev_ObservedAt e) = false) →
  newestFirst (e :: es) = true.
Proof. intros Hn Hh. destruct es as [|x es]; [done|]. simpl in *. by rewrite Hh. Qed.

Lemma insert_event_head e es x :
  head (insert_event e es) = Some x → x = e ∨ head es = Some x.
Proof. destruct es as [|y es]; simpl; [naive_solver|]. destruct (After _ _); naive_solver. Qed.

Lemma newestFirst_tail e es :
  newestFirst (e :: es) = true →
  newestFirst es = true ∧ ∀ x, head es = Some x → After (ev_ObservedAt x) (ev_ObservedAt e) = false.
Proof. destruct es as [|x es]; [done|]. simpl. intros H. bools. split; [done|]. by intros ? [= <-]. Qed.

Lemma insert_event_sorted e es :
  Forall (λ e, Event_Validate e = true) (e :: es) → newestFirst es = true → newestFirst (insert_event e es) = true.
Proof.
  induction es as [|x es IH]; [done|]. intros Hv Hn. simpl.
  inversion Hv as [|? ? He Hrest]; subst. inversion Hrest as [|? ? Hx Hes]; subst.
  apply newestFirst_tail in Hn as [Hn Hh]. destruct (After _ _) eqn:Ha.
  - apply newestFirst_cons; [apply IH; [by constructor|done]|]. intros y Hy%insert_event_head.
    destruct Hy as [-> |Hy]; [|auto]. apply Event_wallclock in He, Hx.
    rewrite After_wall_l in * by done. bools. lia.
  - apply newestFirst_cons; [by apply newestFirst_cons|]. by intros ? [= <-].
Qed.

Lemma sort_events_sorted es :
  Forall (λ e, Event_Validate e = true) es → newestFirst (sort_events es) = true.
Proof.
  induction es as [|e es IH]; [done|]. intros Hv. simpl. inversion Hv; subst.
  apply insert_event_sorted; [|by apply IH]. constructor; [done|].
  by rewrite sort_events_perm.
Qed.

Lemma newestFirst_take n es : newestFirst es = true → newestFirst (take n es) = true.
Proof.
  revert n. induction es as [|e es IH]; intros [|n] Hn; try done. simpl.
  apply newestFirst_tail in Hn as [Hn Hh]. apply newestFirst_cons; [by apply IH|].
  intros x Hx. apply Hh. destruct es, n; simpl in *; done.
Qed.

(** *** The updates keep it *)

Lemma latest_previous c s :
  collector_ok c → default zeroStatus (c_latest c !! s) = zeroStatus
  ∨ Status_Validate (default zeroStatus (c_latest c !! s)) = true.
Proof. intros [_ H _ _ _ _]. destruct (c_latest c !! s) eqn:E; [right; by eapply H|by left]. Qed.

Lemma recordCommit_ok c b :
  collector_ok c → Batch_Validate b = true → collector_ok (recordCommit c b).
Proof.
  intros Hc Hb. pose proof (Batch_Validate_parts _ Hb) as (_ & _ & _ & _ & _ & _ & _ & Hev).
  destruct (StatusAfterBatch_ok b _ Hb (latest_previous c (b_Source b) Hc)) as [Hst _].
  destruct Hc as [H1 H2 H3 H4 H5 H6]. unfold recordCommit.
  assert (Hall : Forall (λ e, Event_Validate e = true) (sort_events (c_events c ++ b_Events b))).
  { rewrite sort_events_perm. apply Forall_app. split; [done|]. by apply Forall_forall. }
  assert (Hsort : newestFirst (sort_events (c_events c ++ b_Events b)) = true).
  { apply sort_events_sorted, Forall_app. split; [done|]. by apply Forall_forall. }
  set (sorted := sort_events _) in *. clearbody sorted. unfold MaxRecentEvents.
  split; cbn [c_sources c_latest c_overlays c_events]; [done| | | | |].
  - intros s st. destruct (decide (s = b_Source b)) as [-> |]; simplify_map_eq; [by intros [= <-]|eauto].
  - intros s st [_ Hs]%lookup_delete_Some. eauto.
  - destruct (_ =? _)%nat; [done|]. destruct (_ <? _); [by apply Forall_take|done].
  - destruct (_ =? _)%nat; [done|]. destruct (_ <? _); [by apply newestFirst_take|done].
  - destruct (_ =? _)%nat; [done|]. destruct (_ <? _) eqn:E; bools; [|lia].
    rewrite length_take. lia.
Qed.

Lemma recordStorageFailure_ok c s t b :
  collector_ok c → validateUTC t = true → collector_ok (recordStorageFailure c s t b).
Proof.
  intros [H1 H2 H3 H4 H5 H6] Ht.
  destruct (storageFailureStatus_ok (c_latest c !! s) t b Ht (H2 s)) as (Hv & Hs & Hf & _).
  split; cbn [recordStorageFailure c_sources c_latest c_overlays c_events]; try done;
    intros x st; (destruct (decide (x = s)) as [-> |]; simplify_map_eq; [intros [= <-]; auto|eauto]).
Qed.

(** *** What readers see *)

Lemma Current_valid c : collector_ok c → Snapshot_Validate (Current c) = true.
Proof.
  intros [H1 H2 _ H4 H5 H6]. unfold Current.
  destruct (AggregateStatus_ok ((λ s, default notYetObserved (c_latest c !! s)) <$> c_sources c))
    as (st & Hst & Hv & _).
  - by rewrite length_fmap.
  - apply forallb_forall. intros x Hx%list_elem_of_In. apply list_elem_of_fmap in Hx as (s & -> & _).
    destruct (c_latest c !! s) eqn:E; [by eapply H2|done].
  - rewrite Hst. unfold Snapshot_Validate, MaxRecentEvents. cbn. rewrite Hv, H5, Z.eqb_refl.
    replace (forallb Event_Validate (c_events c)) with true
      by (symmetry; apply forallb_forall; intros x Hx%list_elem_of_In; by apply (proj1 (Forall_forall _ _) H4)).
    replace (_ <? 0) with false by lia. replace (200 <? _) with false by lia. done.
Qed.

Lemma overlay_source_valid c q s :
  collector_ok c → validateSourceSummary s q = true → validateSourceSummary (overlay_source (c_overlays c) s) q = true.
Proof.
  intros [_ _ H3 _ _ _] Hs. unfold overlay_source. destruct (c_overlays c !! ss_Source s) as [o|] eqn:Ho; [|done].
  destruct (statusAttemptIsAfter o (ss_Status s)) eqn:Ha; [|done]. destruct (H3 _ _ Ho) as (Hv & Hsrc & Hf).
  unfold validateSourceSummary in *. cbn [ss_Source ss_Status ss_CoverageState ss_CoveredSeconds ss_Counts ss_Buckets].
  rewrite !andb_true_iff in Hs. destruct Hs as (((((Hso & Hst) & _) & Hcs) & Hb) & Hsum).
  destruct (mergeStorageOverlay_ok _ _ Hst Hv Hsrc Hf Ha) as [-> ->]. by rewrite Hso, Hcs, Hb, Hsum.
Qed.

Lemma overlay_source_fields overlays s :
  ss_Source (overlay_source overlays s) = ss_Source s ∧ ss_Counts (overlay_source overlays s) = ss_Counts s.
Proof. unfold overlay_source. destruct (overlays !! _); [|done]. by destruct (statusAttemptIsAfter _ _). Qed.

Lemma overlay_sources_valid c q rank cap dis ss :
  collector_ok c → validateSources q rank cap dis ss = true →
  validateSources q rank cap dis (overlay_source (c_overlays c) <$> ss) = true.
Proof.
  intros Hc. revert rank cap dis. induction ss as [|s ss IH]; intros rank cap dis; [done|]. cbn [fmap list_fmap validateSources].
  destruct (overlay_source_fields (c_overlays c) s) as [-> ->]. rewrite !andb_true_iff. intros [[Hr Hs] Hrest].
  split; [split; [done|by apply overlay_source_valid]|].
  destruct (ss_Counts s) as [ct|]; [|auto]. destruct (addSafe cap _); [|done]. destruct (addSafe dis _); [|done]. auto.
Qed.

Lemma CollectorSummary_total c q s :
  collector_ok c → SummaryQuery_Validate q = true → c_sources c ≠ [] → Summary_Validate s = true →
  summaryMatchesRequest s q (c_sources c) = true →
  ∃ r, CollectorSummary c q (Some s) = Some r ∧ Summary_Validate r = true.
Proof.
  intros Hc Hq Hne Hs Hm. unfold CollectorSummary. rewrite Hq, Hs, Hm.
  destruct (c_sources c) as [|x xs]; [done|]. cbn [negb andb length Nat.eqb].
  set (r := MkSummary _ _ _ _ _). assert (Hr : Summary_Validate r = true).
  { unfold Summary_Validate, r, Summary_query in *. cbn [sm_WindowStart sm_WindowEnd sm_BucketInterval sm_BucketCount sm_Sources].
    rewrite !andb_true_iff in Hs. destruct Hs as [[-> Hn] Hv]. rewrite length_fmap, Hn. simpl. by apply overlay_sources_valid. }
  rewrite Hr. eauto.
Qed.

(** ** Commits *)

Section commit.
Variables (w : World) (s : Source) (b : Batch).
Hypothesis Hsource : b_Source b = s.
Hypothesis Hexpected : b_ExpectedRevision b = revision w s.
Hypothesis Htyped : 0 ≤ b_ExpectedRevision b ≤ MaxUint64.

(** The only states a commit of [b] passes through. *)
Definition untouched_or_applied (w' : World) : Prop := w' = w ∨ applies w b w'.

Lemma commit_step r w' : commit_effect w b r w' → untouched_or_applied w'
  ∧ (r = Committed → applies w b w').
Proof. intros H. destruct r; simpl in H; (split; [|done]); [by right|by left|done]. Qed.

Lemma revision_applied w' : applies w b w' → revision w' s = b_ExpectedRevision b + 1.
Proof. intros (_ & _ & ->). unfold revision. simpl. rewrite Hsource. by simplify_map_eq. Qed.

Lemma next_revision : b_ExpectedRevision b ≠ MaxUint64 →
  wrap_u64 (b_ExpectedRevision b + 1) = b_ExpectedRevision b + 1.
Proof. intros. apply wrap_u64_id. unfold MaxUint64 in *. lia. Qed.

(** However a commit fails and is retried, the batch is applied at most once,
    and it is confirmed only if it was applied. *)
Lemma commitConfirmed_spec :
  wpc collector_env untouched_or_applied (commitConfirmed s b)
    (λ confirmed w', untouched_or_applied w' ∧ (confirmed = true → applies w b w')) w.
Proof.
  assert (Hret : ∀ (r : bool) w', untouched_or_applied w' → (r = true → applies w b w') →
    wpc collector_env untouched_or_applied (Ret r)
      (λ confirmed w', untouched_or_applied w' ∧ (confirmed = true → applies w b w')) w') by (intros; by apply wpc_ret).
  assert (Hend : ∀ w', applies w b w' → wpc collector_env untouched_or_applied
      (Call LCtxErr (λ expired : bool, Ret (negb expired)))
      (λ confirmed w', untouched_or_applied w' ∧ (confirmed = true → applies w b w')) w').
  { intros w' Hw'. apply wpc_call; [by right|]. intros expired ? ->. apply Hret; [by right|done]. }
  unfold commitConfirmed. apply wpc_call; [by left|]. intros expired ? ->.
  destruct expired; [apply Hret; [by left|done]|]. apply wpc_call; [by left|].
  intros first w1 Hfirst. destruct (commit_step _ _ Hfirst) as (Hw1 & Hok).
  destruct first; [by apply Hend, Hok|by apply Hret|].
  apply wpc_call; [done|]. intros expired ? ->. destruct (_ || _) eqn:E; [by apply Hret|]. bools. subst expired.
  pose proof (next_revision ltac:(done)) as Hnext.
  apply wpc_call; [done|]. intros loaded ? [-> Hload]. destruct loaded as [cp|]; [|by apply Hret].
  specialize (Hload _ eq_refl). destruct (Checkpoint_Validate cp); cbn [negb]; [|by apply Hret].
  rewrite Hnext. destruct (cp_Revision cp =? b_ExpectedRevision b + 1) eqn:Edone; bools.
  { apply Hret; [done|]. intros _. destruct Hw1 as [-> |]; [|done]. lia. }
  destruct (cp_Revision cp =? b_ExpectedRevision b) eqn:Eold; cbn [negb]; bools; [|by apply Hret].
  destruct Hw1 as [-> |Hw1]; [|apply revision_applied in Hw1; lia].
  apply wpc_call; [by left|]. intros second w2 Hsecond. destruct (commit_step _ _ Hsecond) as (Hw2 & Hok2).
  destruct second; [by apply Hend, Hok2|by apply Hret|].
  apply wpc_call; [done|]. intros expired ? ->. destruct expired; [by apply Hret|].
  apply wpc_call; [done|]. intros loaded ? [-> Hload2]. destruct loaded as [cp2|]; [|by apply Hret].
  specialize (Hload2 _ eq_refl). apply Hret; [done|]. intros Hc. bools. destruct Hw2 as [-> |]; [|done]. lia.
Qed.
End commit.

(** ** Reads *)

Lemma clock_valid t : 0 < wall t < year10000 → validateUTC (UTC t) = true.
Proof.
  intros [H1 H2]. unfold validateUTC, year_ok, IsZero. simpl.
  replace (wall t =? 0) with false by lia. replace (0 <=? wall t) with true by lia.
  by replace (wall t <? year10000) with true by lia.
Qed.

Lemma ReadRequest_parts r :
  ReadRequest_Validate r = true →
  Source_Validate (rq_Source r) = true ∧ validateUTC (rq_QueryStartedAt r) = true.
Proof. unfold ReadRequest_Validate. intros. by bools. Qed.

(** The batch that stands for a failed read is one the store accepts. *)
Lemma readerFailureBatch_valid r now :
  ReadRequest_Validate r = true → 0 < wall now < year10000 →
  validBatchForRequest (readerFailureBatch r now) r = true.
Proof.
  intros Hr Hnow. destruct (ReadRequest_parts _ Hr) as [Hs Hq]. pose proof (clock_valid _ Hnow) as Hn.
  unfold validBatchForRequest, readerFailureBatch.
  set (fin := if Before _ _ then _ else _).
  assert (Hord : validateOrderedTimes (rq_QueryStartedAt r) (rq_QueryStartedAt r) fin = true).
  { unfold validateOrderedTimes. rewrite Hq. subst fin.
    rewrite !Before_wall_l by auto with observer. rewrite Z.ltb_irrefl.
    destruct (wall (UTC now) <? wall (rq_QueryStartedAt r)) eqn:E;
      rewrite ?Hq, ?Hn, !Before_wall_l, ?E, ?Z.ltb_irrefl by auto with observer; done. }
  clearbody fin. unfold Batch_Validate.
  cbn [b_Kind b_Source b_ExpectedRevision b_QueryStartedAt b_StartedAt b_FinishedAt b_SupportState
       b_CollectionState b_ReasonCode b_Events b_Discards b_ExaminedCount b_ProbeCount b_DiscardedCount
       b_Deferred b_CaughtUp b_NextOpaque].
  rewrite Hs, Hord, Equal_refl, Z.eqb_refl, (bool_decide_eq_true_2 (rq_Source r = rq_Source r)) by done.
  by destruct (cp_ResetPending (rq_Checkpoint r)), (slen (cp_Opaque (rq_Checkpoint r)) =? 0).
Qed.

Lemma validBatch_parts b r :
  validBatchForRequest b r = true →
  Batch_Validate b = true ∧ b_Source b = rq_Source r ∧ b_ExpectedRevision b = cp_Revision (rq_Checkpoint r).
Proof. unfold validBatchForRequest. destruct (_ || _) eqn:E; [done|]. by bools. Qed.

(** What a round may do to the world: keep the invariant; apply nothing yet. *)
Definition quiet (w w' : World) : Prop :=
  collector_ok (w_collector w') ∧ c_sources (w_collector w') = c_sources (w_collector w)
  ∧ w_revision w' = w_revision w ∧ w_applied w' = w_applied w.

Lemma quiet_refl w : collector_ok (w_collector w) → quiet w w.
Proof. done. Qed.

Lemma quiet_failure w w' s t b :
  quiet w w' → validateUTC t = true → quiet w (with_collector w' (recordStorageFailure (w_collector w') s t b)).
Proof. intros (H1 & H2 & H3 & H4) Ht. split; [by apply recordStorageFailure_ok|done]. Qed.

Lemma quiet_revision w w' s : quiet w w' → revision w' s = revision w s.
Proof. intros (_ & _ & H & _). unfold revision. by rewrite H. Qed.

Lemma readSource_spec w0 s cp w :
  quiet w0 w →
  wpc collector_env (quiet w0) (readSource s cp)
    (λ r w', quiet w0 w' ∧ ∀ b, r = Some b →
       Batch_Validate b = true ∧ b_Source b = s ∧ b_ExpectedRevision b = cp_Revision cp) w.
Proof.
  intros Hq. unfold readSource. apply wpc_call; [done|]. intros now ? [-> Hnow].
  set (rq := MkReadRequest s cp (UTC now)). destruct (ReadRequest_Validate rq) eqn:Hrq; cbn [negb].
  2: { apply wpc_call; [done|]. intros stopped ? ->. destruct stopped; [by apply wpc_ret|].
       apply wpc_call; [done|]. intros [] ? ->.
       apply wpc_ret; [|split; [|done]]; apply quiet_failure; auto using clock_valid. }
  assert (Hfail : wpc collector_env (quiet w0) (Call LNow (λ finished, Ret (Some (readerFailureBatch rq finished))))
    (λ r w', quiet w0 w' ∧ ∀ b, r = Some b →
       Batch_Validate b = true ∧ b_Source b = s ∧ b_ExpectedRevision b = cp_Revision cp) w).
  { apply wpc_call; [done|]. intros fin ? [-> Hfin]. apply wpc_ret; [done|]. split; [done|]. intros b [= <-].
    by apply (validBatch_parts _ rq), readerFailureBatch_valid. }
  apply wpc_call; [done|]. intros answer ? ->. apply wpc_call; [done|]. intros stopped ? ->.
  destruct stopped; [by apply wpc_ret|]. apply wpc_bind. destruct answer as [b|].
  - apply wpc_call; [done|]. intros expired ? ->. apply wpc_ret; [done|].
    destruct (_ && _) eqn:E; [|exact Hfail]. apply wpc_ret; [done|]. split; [done|]. intros ? [= <-]. bools.
    by apply (validBatch_parts b rq).
  - by apply wpc_ret.
Qed.

(** ** Rounds *)

Definition prepared (w : World) (items : list (Source * option Checkpoint)) : Prop :=
  ∀ s cp, (s, Some cp) ∈ items → cp_Revision cp = revision w s.

Lemma prepared_add w items s o :
  prepared w items → (∀ cp, o = Some cp → cp_Revision cp = revision w s) → prepared w (items ++ [(s, o)]).
Proof. intros H Ho s' cp [Hin|Hin]%elem_of_app; [by apply H|]. apply list_elem_of_singleton in Hin. naive_solver. Qed.

Lemma prepare_spec w0 sources acc w :
  quiet w0 w → prepared w0 acc →
  wpc collector_env (quiet w0) (prepare sources acc)
    (λ r w', quiet w0 w' ∧ ∀ items, r = Some items → prepared w0 items ∧ items.*1 = acc.*1 ++ sources) w.
Proof.
  revert acc w. induction sources as [|s rest IH]; intros acc w Hq Hp; cbn [prepare].
  { apply wpc_ret; [done|]. split; [done|]. intros ? [= <-]. by rewrite app_nil_r. }
  assert (Hnext : ∀ o w', quiet w0 w' → (∀ cp, o = Some cp → cp_Revision cp = revision w0 s) →
    wpc collector_env (quiet w0) (prepare rest (acc ++ [(s, o)]))
    (λ r w', quiet w0 w' ∧ ∀ items, r = Some items → prepared w0 items ∧ items.*1 = acc.*1 ++ s :: rest) w').
  { intros o w' Hq' Ho. eapply wpc_mono; [done| |by apply IH; [|apply prepared_add]].
    intros r w'' [Hq'' Hr]. split; [done|]. intros items Hi. destruct (Hr _ Hi) as [? Heq]. split; [done|].
    by rewrite Heq, fmap_app, <- app_assoc. }
  assert (Hfail : wpc collector_env (quiet w0)
    (Call LParentErr (λ stopped : bool, if stopped then prepare rest (acc ++ [(s, None)])
       else Call LNow (λ now, Call (LRecordFailure s (UTC now) None) (λ _, prepare rest (acc ++ [(s, None)])))))
    (λ r w', quiet w0 w' ∧ ∀ items, r = Some items → prepared w0 items ∧ items.*1 = acc.*1 ++ s :: rest) w).
  { apply wpc_call; [done|]. intros stopped ? ->. destruct stopped; [by apply Hnext|].
    apply wpc_call; [done|]. intros now ? [-> Hnow]. apply wpc_call; [done|]. intros [] ? ->.
    apply Hnext; [|done]. apply quiet_failure; auto using clock_valid. }
  apply wpc_call; [done|]. intros stopped ? ->. destruct stopped; [by apply wpc_ret|].
  apply wpc_call; [done|]. intros loaded ? [-> Hload]. apply wpc_call; [done|]. intros expired ? ->.
  destruct loaded as [cp|]; [|exact Hfail]. destruct (_ && _); [|exact Hfail].
  apply Hnext; [done|]. intros ? [= <-]. rewrite <- (quiet_revision _ _ _ Hq). auto.
Qed.

Definition readable (w : World) (rs : list (Source * Batch)) : Prop :=
  ∀ s b, (s, b) ∈ rs → Batch_Validate b = true ∧ b_Source b = s ∧ b_ExpectedRevision b = revision w s.

Lemma readAll_spec w0 items acc w :
  quiet w0 w → prepared w0 items → readable w0 acc →
  wpc collector_env (quiet w0) (readAll items acc)
    (λ r w', quiet w0 w' ∧ ∀ rs, r = Some rs → readable w0 rs ∧ ∃ more, rs = acc ++ more ∧ more.*1 `sublist_of` items.*1) w.
Proof.
  revert acc w. induction items as [|[s ready] rest IH]; intros acc w Hq Hp Hr; cbn [readAll].
  { apply wpc_ret; [done|]. split; [done|]. intros ? [= <-]. split; [done|]. exists []. by rewrite app_nil_r. }
  assert (Hp' : prepared w0 rest) by (intros s' cp Hin; apply Hp; by constructor).
  assert (Hskip : ∀ w', quiet w0 w' → wpc collector_env (quiet w0) (readAll rest acc)
    (λ r w', quiet w0 w' ∧ ∀ rs, r = Some rs → readable w0 rs ∧ ∃ more, rs = acc ++ more
       ∧ more.*1 `sublist_of` s :: rest.*1) w').
  { intros w' Hq'. eapply wpc_mono; [done| |by apply IH]. intros r w'' [Hq'' Hrs]. split; [done|].
    intros rs Hi. destruct (Hrs _ Hi) as (? & more & ? & ?). split; [done|]. exists more. split; [done|]. by constructor. }
  apply wpc_call; [done|]. intros stopped ? ->. destruct stopped; [by apply wpc_ret|].
  destruct ready as [cp|]; [|by apply Hskip]. apply wpc_bind. eapply wpc_mono; [done| |by apply readSource_spec].
  intros [b|] w' [Hq' Hb].
  - destruct (Hb b eq_refl) as (Hv & Hs & He). eapply wpc_mono; [done| |apply (IH (acc ++ [(s, b)])); auto].
    + intros r w'' [Hq'' Hrs]. split; [done|]. intros rs Hi. destruct (Hrs _ Hi) as (? & more & -> & ?).
      split; [done|]. exists ((s, b) :: more). rewrite <- app_assoc. split; [done|]. by constructor.
    + intros s' b' [Hin|Hin]%elem_of_app; [by apply Hr|]. apply list_elem_of_singleton in Hin. simplify_eq.
      rewrite He. repeat split; auto. apply Hp. by constructor.
  - apply wpc_call; [done|]. intros stopped ? ->. destruct stopped; [by apply wpc_ret|by apply Hskip].
Qed.

(** What the commits of a round may do. *)
Definition typed (w : World) : Prop := ∀ s, 0 ≤ revision w s ≤ MaxUint64.

Definition committing (w : World) (rs : list (Source * Batch)) (w' : World) : Prop :=
  collector_ok (w_collector w') ∧ c_sources (w_collector w') = c_sources (w_collector w) ∧ typed w'
  ∧ ∃ new, w_applied w' = w_applied w ++ new ∧ new `sublist_of` rs.*2.

Lemma committing_refl w rs : collector_ok (w_collector w) → typed w → committing w rs w.
Proof.
  intros Hc Ht. do 3 (split; [done|]). exists []. rewrite app_nil_r. split; [done|apply sublist_nil_l].
Qed.

Lemma applies_typed w b w' : typed w → applies w b w' → typed w'.
Proof.
  intros Ht (Hr & Hlt & ->) s. specialize (Ht s). pose proof Hr. unfold revision in *. simpl.
  destruct (decide (s = b_Source b)) as [-> |]; simplify_map_eq; [|done]. simpl. lia.
Qed.

Lemma applies_revision w b w' s : applies w b w' → s ≠ b_Source b → revision w' s = revision w s.
Proof. intros (_ & _ & ->) Hne. unfold revision. simpl. by rewrite lookup_insert_ne. Qed.

Lemma with_collector_self w : with_collector w (w_collector w) = w.
Proof. by destruct w. Qed.

(** Continuing after one source, with the same or an applied world. *)
Lemma committing_step w s b rest w1 w' :
  w_applied w1 = w_applied w ∨ w_applied w1 = w_applied w ++ [b] →
  c_sources (w_collector w1) = c_sources (w_collector w) →
  committing w1 rest w' → committing w ((s, b) :: rest) w'.
Proof.
  intros Hap Hsrc (H1 & H2 & H3 & new & Hnew & Hsub). split; [done|]. split; [congruence|]. split; [done|].
  destruct Hap as [Hap|Hap]; rewrite Hap in Hnew.
  - exists new. split; [done|]. by constructor.
  - exists (b :: new). rewrite Hnew, <- app_assoc. split; [done|]. by constructor.
Qed.

Lemma untouched_committing w s b rest w1 :
  collector_ok (w_collector w) → typed w → untouched_or_applied w b w1 → committing w ((s, b) :: rest) w1.
Proof.
  intros Hc Ht Hw. apply (committing_step w s b rest w1 w1).
  - destruct Hw as [-> |(_ & _ & ->)]; auto.
  - by destruct Hw as [-> |(_ & _ & ->)].
  - apply committing_refl; [by destruct Hw as [-> |(_ & _ & ->)]|].
    destruct Hw as [-> |Ha]; [done|by eapply applies_typed].
Qed.

Lemma commitAll_spec rs w :
  collector_ok (w_collector w) → typed w → readable w rs → NoDup rs.*1 →
  wpc collector_env (committing w rs) (commitAll rs) (λ _ w', committing w rs w') w.
Proof.
  revert w. induction rs as [|[s b] rest IH]; intros w Hc Ht Hr Hnd; cbn [commitAll].
  { by apply wpc_ret; apply committing_refl. }
  rewrite fmap_cons in Hnd. apply NoDup_cons in Hnd as [Hnin Hnd].
  destruct (Hr s b ltac:(by constructor)) as (Hv & Hs & He).
  assert (Hrest : ∀ w1 c', untouched_or_applied w b w1 → collector_ok c' → c_sources c' = c_sources (w_collector w) →
    wpc collector_env (committing w ((s, b) :: rest)) (commitAll rest)
      (λ _ w', committing w ((s, b) :: rest) w') (with_collector w1 c')).
  { intros w1 c' Hw1 Hc' Hsrc.
    assert (Hstep : ∀ w', committing (with_collector w1 c') rest w' → committing w ((s, b) :: rest) w').
    { intros w'. apply committing_step; [by destruct Hw1 as [-> |(_ & _ & ->)]; auto|done]. }
    eapply wpc_mono; [exact Hstep|intros r w'; exact (Hstep w')|]. apply IH; auto.
    - destruct Hw1 as [-> |Ha]; [done|]. by pose proof (applies_typed _ _ _ Ht Ha).
    - intros s' b' Hin. destruct (Hr s' b' ltac:(by constructor)) as (? & ? & ?). repeat split; auto.
      assert (s' ≠ s) by (intros ->; apply Hnin, list_elem_of_fmap; by exists (s, b')).
      replace (revision (with_collector w1 c') s') with (revision w1 s') by done.
      destruct Hw1 as [-> |Ha]; [done|]. rewrite (applies_revision _ _ _ _ Ha); [done|]. congruence. }
  assert (Hmid : ∀ w1, untouched_or_applied w b w1 → committing w ((s, b) :: rest) w1)
    by (intros; by apply untouched_committing).
  apply wpc_call; [by apply committing_refl|]. intros stopped ? ->.
  destruct stopped; [by apply wpc_ret; apply committing_refl|].
  apply wpc_bind. eapply wpc_mono; [exact Hmid| |apply commitConfirmed_spec; [done|done|by rewrite He]].
  intros confirmed w1 [Hw1 Hconf].
  assert (Hcol : w_collector w1 = w_collector w) by (by destruct Hw1 as [-> |(_ & _ & ->)]).
  destruct confirmed.
  - apply wpc_call; [by apply Hmid|]. intros [] ? ->. apply Hrest; [done| |by rewrite Hcol].
    rewrite Hcol. by apply recordCommit_ok.
  - apply wpc_call; [by apply Hmid|]. intros stopped ? ->. destruct stopped.
    + pose proof (Hrest w1 (w_collector w1) Hw1) as Hgo. rewrite with_collector_self, Hcol in Hgo. by apply Hgo.
    + apply wpc_call; [by apply Hmid|]. intros [] ? ->. apply Hrest; [done| |by rewrite Hcol].
      rewrite Hcol. apply recordStorageFailure_ok; [done|]. by apply Batch_Validate_parts in Hv as [? _].
Qed.

(** A whole round. *)
Definition round (w : World) (w' : World) : Prop :=
  collector_ok (w_collector w') ∧ c_sources (w_collector w') = c_sources (w_collector w) ∧ typed w'
  ∧ ∃ new, w_applied w' = w_applied w ++ new ∧ (b_Source <$> new) `sublist_of` c_sources (w_collector w)
      ∧ ∀ b, b ∈ new → Batch_Validate b = true ∧ b_ExpectedRevision b = revision w (b_Source b).

Lemma quiet_round w w' : typed w → quiet w w' → round w w'.
Proof.
  intros Ht (H1 & H2 & H3 & H4). split; [done|]. split; [done|]. split.
  { intros s. unfold revision. rewrite H3. apply Ht. }
  exists []. rewrite app_nil_r. split; [done|]. split; [apply sublist_nil_l|]. by intros b ?%not_elem_of_nil.
Qed.

Lemma readable_sources w rs : readable w rs → b_Source <$> rs.*2 = rs.*1.
Proof.
  induction rs as [|[s b] rs IH]; intros Hr; [done|]. cbn [fmap list_fmap fst snd].
  destruct (Hr s b ltac:(by constructor)) as (_ & -> & _). f_equal. apply IH. intros s' b' Hin. apply Hr. by constructor.
Qed.

Lemma committing_round w w1 rs w' :
  quiet w w1 → readable w rs → rs.*1 `sublist_of` c_sources (w_collector w) → committing w1 rs w' → round w w'.
Proof.
  intros (Q1 & Q2 & Q3 & Q4) Hr Hsub (H1 & H2 & H3 & new & Hnew & Hns). split; [done|]. split; [congruence|].
  split; [done|]. exists new. split; [congruence|]. split.
  - etrans; [|exact Hsub]. rewrite <- (readable_sources _ _ Hr). by apply fmap_sublist.
  - intros b Hb. eapply elem_of_sublist in Hb; [|exact Hns]. apply list_elem_of_fmap in Hb as ([s b'] & -> & Hin).
    destruct (Hr _ _ Hin) as (? & <- & ?). done.
Qed.

Lemma collectOnce_spec w :
  collector_ok (w_collector w) → typed w → NoDup (c_sources (w_collector w)) →
  wpc collector_env (round w) (collectOnce (c_sources (w_collector w))) (λ _ w', round w w') w.
Proof.
  intros Hc Ht Hnd. assert (Hq : ∀ w', quiet w w' → round w w') by (intros; by apply quiet_round).
  unfold collectOnce. destruct (_ =? _)%nat; [by apply wpc_ret; apply Hq|].
  apply wpc_bind. eapply wpc_mono; [exact Hq| |apply (prepare_spec w); [done|]]; [|by intros ? ? ?%not_elem_of_nil].
  intros [items|] w1 [Hq1 Hitems]; [|by apply wpc_ret; apply Hq].
  destruct (Hitems _ eq_refl) as [Hp Hk]. simpl in Hk.
  apply wpc_bind. eapply wpc_mono; [exact Hq| |apply (readAll_spec w); [done|done|]]; [|by intros ? ? ?%not_elem_of_nil].
  intros [rs|] w2 [Hq2 Hrs]; [|by apply wpc_ret; apply Hq].
  destruct (Hrs _ eq_refl) as (Hr & more & Hmore & Hsub). simpl in Hmore. subst more. rewrite Hk in Hsub.
  assert (Hround : ∀ w', committing w2 rs w' → round w w') by (intros; by eapply committing_round).
  eapply wpc_mono; [exact Hround|intros r w'; exact (Hround w')|]. destruct Hq2 as (Q1 & Q2 & Q3 & Q4). apply commitAll_spec.
  - done.
  - intros s. unfold revision. rewrite Q3. apply Ht.
  - intros s b Hin. unfold revision. rewrite Q3. by apply Hr.
  - by eapply sublist_NoDup.
Qed.

(** ** A collector's life: rounds against any environment *)

Inductive rounds (sources : list Source) : World → Prop :=
| rounds_new c w : New sources = Some c → w_collector w = c → typed w → rounds sources w
| rounds_next w w' :
    rounds sources w → exec collector_env (collectOnce sources) w (Ret tt) w' → rounds sources w'.

Lemma ordered_rank rank sources s :
  ordered_sources rank sources = true → s ∈ sources → rank < sourceRank s.
Proof.
  revert rank. induction sources as [|x rest IH]; intros rank Ho; [by intros ?%not_elem_of_nil|].
  simpl in Ho. bools. intros [-> |Hin]%elem_of_cons; [lia|]. specialize (IH _ ltac:(done) Hin). lia.
Qed.

Lemma ordered_NoDup rank sources : ordered_sources rank sources = true → NoDup sources.
Proof.
  revert rank. induction sources as [|x rest IH]; intros rank Ho; [constructor|]. simpl in Ho. bools.
  constructor; [|by eapply IH]. intros Hin. eapply ordered_rank in Hin; [|done]. lia.
Qed.

Lemma New_sources sources c : New sources = Some c → c_sources c = sources ∧ NoDup sources.
Proof.
  unfold New. destruct (_ <? _); [done|]. destruct (ordered_sources _ _) eqn:E; [|done]. intros [= <-].
  split; [done|by eapply ordered_NoDup].
Qed.

Lemma rounds_ok sources w :
  rounds sources w →
  collector_ok (w_collector w) ∧ typed w ∧ c_sources (w_collector w) = sources ∧ NoDup sources.
Proof.
  induction 1 as [c w Hnew Hw Ht|w w' Hw IH Hx].
  - destruct (New_sources _ _ Hnew). subst c. split; [by eapply New_ok|done].
  - destruct IH as (Hc & Ht & Hs & Hnd). rewrite <- Hs in Hx, Hnd.
    destruct (wpc_return _ _ _ _ _ _ _ (collectOnce_spec w Hc Ht Hnd) Hx) as (H1 & H2 & H3 & _).
    split; [done|]. split; [done|]. rewrite H2. by rewrite <- Hs.
Qed.

(** C35: Whatever the clock, the reader and the store do, at every moment of every
    round the snapshot a reader gets is valid: its status aggregates validly, it
    holds at most two hundred events, all valid and newest first. *)
Theorem collector_snapshot_always_valid sources w p w' :
  rounds sources w → exec collector_env (collectOnce sources) w p w' →
  Snapshot_Validate (Current (w_collector w')) = true.
Proof.
  intros (Hc & Ht & Hs & Hnd)%rounds_ok Hx. rewrite <- Hs in Hx, Hnd.
  destruct (wpc_crash _ _ _ _ _ _ _ (collectOnce_spec w Hc Ht Hnd) Hx) as (H1 & _). by apply Current_valid.
Qed.

(** A summary never fails because of the collector: at every moment of every
    round, if the store answers a valid query with a valid summary for the
    collector's sources, [Summary] succeeds and its result, overlaid with the
    storage failures seen since, is valid. *)
Theorem collector_summary_total sources w p w' q s :
  rounds sources w → exec collector_env (collectOnce sources) w p w' → sources ≠ [] →
  SummaryQuery_Validate q = true → Summary_Validate s = true → summaryMatchesRequest s q sources = true →
  ∃ r, CollectorSummary (w_collector w') q (Some s) = Some r ∧ Summary_Validate r = true.
Proof.
  intros (Hc & Ht & Hs & Hnd)%rounds_ok Hx Hne Hq Hv Hm. rewrite <- Hs in Hx, Hnd.
  destruct (wpc_crash _ _ _ _ _ _ _ (collectOnce_spec w Hc Ht Hnd) Hx) as (H1 & H2 & _).
  rewrite Hs in H2. apply CollectorSummary_total; rewrite ?H2; auto.
Qed.

(** However a commit fails and is retried, the batch is applied at most once:
    at every moment the store is as before or has this batch applied over the
    expected revision; and a commit is confirmed only if the batch was applied. *)
Theorem commit_at_most_once w b p w' :
  b_ExpectedRevision b = revision w (b_Source b) → 0 ≤ b_ExpectedRevision b ≤ MaxUint64 →
  exec collector_env (commitConfirmed (b_Source b) b) w p w' →
  (w' = w ∨ applies w b w') ∧ (p = Ret true → applies w b w').
Proof.
  intros He Ht Hx. pose proof (commitConfirmed_spec w (b_Source b) b eq_refl He Ht) as Hspec. split.
  - exact (wpc_crash _ _ _ _ _ _ _ Hspec Hx).
  - intros ->. by apply (wpc_return _ _ _ _ _ _ _ Hspec Hx).
Qed.

(** A round applies at most one batch per source, in source order; every
    batch it applies is valid and was read against the revision the store had when
    the round began, also when the round is cut short. *)
Theorem round_commits_once_per_source sources w p w' :
  rounds sources w → exec collector_env (collectOnce sources) w p w' →
  ∃ new, w_applied w' = w_applied w ++ new ∧ (b_Source <$> new) `sublist_of` sources ∧ NoDup (b_Source <$> new)
    ∧ ∀ b, b ∈ new → Batch_Validate b = true ∧ b_ExpectedRevision b = revision w (b_Source b).
Proof.
  intros (Hc & Ht & Hs & Hnd)%rounds_ok Hx. rewrite <- Hs in Hx, Hnd.
  destruct (wpc_crash _ _ _ _ _ _ _ (collectOnce_spec w Hc Ht Hnd) Hx) as (_ & _ & _ & new & Hnew & Hsub & Hb).
  exists new. rewrite Hs in *. split; [done|]. split; [done|]. split; [by eapply sublist_NoDup|done].
Qed.

(** ** Witnesses *)

Module RoundSample.
Definition sources : list Source := [SourceSystem].
Definition now : time := At (63800000100 * Second).
(** A store whose first commit reports a failure after having applied the batch. *)
Definition w0 : World := MkWorld (MkCollector sources ∅ ∅ []) ∅ [].
Definition event : Event := MkEvent (At (63800000090 * Second)) SourceSystem SeverityError "SYSTEMD_PRIORITY_3".
Definition batch (query : time) : Batch :=
  MkBatch BatchNormal SourceSystem 0 query query query SupportSupported CollectionOK None [event] [] 1 0 0
    false true "cursor".

Definition checkpoint (w : World) (s : Source) : Checkpoint :=
  if revision w s =? 0 then zeroCheckpoint
  else MkCheckpoint (revision w s) false "cursor" (Some now) (Some now).

Definition handler (A : Type) (e : LCall A) : World → A * World :=
  match e in LCall T return World → T * World with
  | LParentErr | LCtxErr | LReaderErr => λ w, (false, w)
  | LNow => λ w, (now, w)
  | LLoad s => λ w, (Some (checkpoint w s), w)
  | LRead r => λ w, (Some (batch (rq_QueryStartedAt r)), w)
  | LCommit b => λ w, (CommitFailed,
      if (revision w (b_Source b) =? b_ExpectedRevision b) && (b_ExpectedRevision b <? MaxUint64)
      then apply_batch w b else w)
  | LRecordFailure s t b => λ w, (tt, with_collector w (recordStorageFailure (w_collector w) s t b))
  | LRecordCommit b => λ w, (tt, with_collector w (recordCommit (w_collector w) b))
  end.

Lemma handler_env A (e : LCall A) u : collector_env A e u (handler A e u).1 (handler A e u).2.
Proof.
  destruct e; simpl; try done; auto.
  - split; [done|]. intros cp [= <-]. unfold checkpoint. by destruct (revision u s =? 0) eqn:E; bools.
  - destruct (_ && _) eqn:E; [|by left]. bools. right. by split.
Qed.

Lemma typed_w0 : typed w0.
Proof. intros s. unfold revision. simpl. rewrite lookup_empty. simpl. unfold MaxUint64. lia. Qed.

Lemma life0 : rounds sources w0.
Proof. by apply (rounds_new _ (MkCollector sources ∅ ∅ [])); [| |apply typed_w0]. Qed.

Definition w1 : World := (run handler (collectOnce sources) w0).2.
Lemma round1 : exec collector_env (collectOnce sources) w0 (Ret tt) w1.
Proof.
  pose proof (run_exec _ handler (collectOnce sources) w0 handler_env) as H.
  by destruct (run handler (collectOnce sources) w0).1.
Qed.
End RoundSample.

Lemma collector_snapshot_always_valid_witness :
  Snapshot_Validate (Current (w_collector RoundSample.w1)) = true
  ∧ sn_TotalCount (Current (w_collector RoundSample.w1)) = 1.
Proof.
  split; [|vm_compute; reflexivity].
  exact (collector_snapshot_always_valid _ _ _ _ RoundSample.life0 RoundSample.round1).
Defined.

Lemma commit_at_most_once_witness :
  applies RoundSample.w0 (RoundSample.batch RoundSample.now)
    (run RoundSample.handler (commitConfirmed SourceSystem (RoundSample.batch RoundSample.now)) RoundSample.w0).2.
Proof.
  eapply (commit_at_most_once RoundSample.w0 (RoundSample.batch RoundSample.now));
    [vm_compute; reflexivity|vm_compute; split; discriminate| |].
  - exact (run_exec _ RoundSample.handler _ _ RoundSample.handler_env).
  - vm_compute. reflexivity.
Defined.

Lemma round_commits_once_per_source_witness :
  ∃ new, w_applied RoundSample.w1 = [] ++ new ∧ NoDup (b_Source <$> new) ∧ length new = 1%nat.
Proof.
  destruct (round_commits_once_per_source _ _ _ _ RoundSample.life0 RoundSample.round1) as (new & Hn & _ & Hd & _).
  exists new. split; [exact Hn|]. split; [exact Hd|]. replace new with (w_applied RoundSample.w1) by exact Hn.
  vm_compute. reflexivity.
Defined.

Module SummarySample.
Definition start : time := At (63800000040 * Second).
Definition query : SummaryQuery := MkQuery start (Add start Hour) Minute 60.
(** An hour nothing is known about yet. *)
Definition buckets : list SummaryBucket :=
  (λ i, MkBucket (Add start (Z.of_nat i * Minute)) CoverageUnknown 0 (Some ReasonNotYetObserved) None) <$> seq 0 60.
Definition stored : Summary :=
  MkSummary start (Add start Hour) Minute 60
    [MkSourceSummary SourceSystem StatusSample.collected CoverageUnknown 0 None buckets].
End SummarySample.

Lemma collector_summary_total_witness :
  ∃ r, CollectorSummary (w_collector RoundSample.w1) SummarySample.query (Some SummarySample.stored) = Some r
    ∧ Summary_Validate r = true.
Proof.
  apply (collector_summary_total _ _ _ _ SummarySample.query SummarySample.stored RoundSample.life0 RoundSample.round1);
    [discriminate|vm_compute; reflexivity..].
Defined.
