(* ===== verification/LogCoverageSafety.v ===== *)
(** * What coverage merging and projection compute

    At every instant a merge holds the strongest reason of its inputs: positive
    evidence never hides an explicit gap, and of two gaps the one earlier in the
    closed precedence order wins.  A projected bucket is always one the summary
    contract accepts, counts only whole seconds that are covered at every instant,
    and is full exactly when the whole bucket is. *)

From S2P Require Import Prelude GoTime GoText LogModel LogStatus LogCoverage.

(** ** The meaning of a segment list *)

Definition in_seg (x : Z) (s : logCoverageSegment) : bool := (wall (sg_Start s) <=? x) && (x <? wall (sg_End s)).

Fixpoint reason_at (segs : list logCoverageSegment) (x : Z) : option ReasonCode :=
  match segs with
  | [] => None
  | s :: rest => if in_seg x s then Some (sg_Reason s) else reason_at rest x
  end.

(** Valid segments in order, disjoint, from [lo] on: what the store holds. *)
Fixpoint chain (lo : Z) (segs : list logCoverageSegment) : Prop :=
  match segs with
  | [] => True
  | s :: rest => lo ≤ wall (sg_Start s) ∧ validLogSegment s = true ∧ chain (wall (sg_End s)) rest
  end.

(** The closed precedence order of evidence, strongest first: the explicit gaps,
    then positive evidence. *)
Definition precedence : list ReasonCode :=
  [ReasonCheckpointReset; ReasonPermissionDenied; ReasonDeadlineExceeded; ReasonInvalidResponse;
   ReasonResponseTooLarge; ReasonReaderFailed; ReasonBacklogDeferred; ReasonMissedCollection; ReasonEmpty].
Definition strongest (rs : list ReasonCode) : option ReasonCode :=
  find (λ p, existsb (λ r, r == p) rs) precedence.
(** What a list of segments, in any order and overlapping, says of an instant. *)
Definition evidence (x : Z) (segs : list logCoverageSegment) : list ReasonCode :=
  sg_Reason <$> filter (λ s, in_seg x s = true) segs.

Definition last_end (lo : Z) (segs : list logCoverageSegment) : Z :=
  match last segs with Some s => wall (sg_End s) | None => lo end.

(** The stronger of what is known and an addition that holds. *)
Definition pick (a : ReasonCode) (known : option ReasonCode) : option ReasonCode :=
  match known with
  | None => Some a
  | Some r => if strongerLogReason a r then Some a else Some r
  end.
Definition add_at (x : Z) (known : option ReasonCode) (a : logCoverageSegment) : option ReasonCode :=
  if in_seg x a then pick (sg_Reason a) known else known.

Lemma validSegment_parts s :
  validLogSegment s = true →
  validateUTC (sg_Start s) = true ∧ validateUTC (sg_End s) = true ∧ wall (sg_Start s) < wall (sg_End s).
Proof.
  unfold validLogSegment, validLogTime. destruct (_ || _) eqn:E; [done|]. intros _. bools.
  rewrite Before_wall_l in * by auto with observer. bools. done.
Qed.

(** Validity depends on the reason and the times only. *)
Definition validReason (r : ReasonCode) : bool :=
  (r == ReasonEmpty) || (match HistoricalReasonRank r with Some _ => r != ReasonNotYetObserved | None => false end).

Lemma validSegment_iff s :
  validLogSegment s = true ↔
  validateUTC (sg_Start s) = true ∧ validateUTC (sg_End s) = true ∧ wall (sg_Start s) < wall (sg_End s)
  ∧ validReason (sg_Reason s) = true.
Proof.
  split.
  - intros H. destruct (validSegment_parts _ H) as (? & ? & ?). repeat split; auto.
    unfold validLogSegment in H. destruct (_ || _); [done|]. unfold validReason. by destruct (_ == _).
  - intros (Hs & He & Hlt & Hr). unfold validLogSegment, validLogTime. rewrite Hs, He.
    rewrite Before_wall_l by auto with observer. replace (_ <? _) with true by lia. simpl.
    unfold validReason in Hr. by destruct (_ == _).
Qed.

Lemma validSegment_start s : validLogSegment s = true → wallclock (sg_Start s).
Proof. intros (? & _)%validSegment_parts. auto with observer. Qed.
Lemma validSegment_end s : validLogSegment s = true → wallclock (sg_End s).
Proof. intros (_ & ? & _)%validSegment_parts. auto with observer. Qed.
#[local] Hint Resolve validSegment_start validSegment_end : observer.

(** ** Chains *)

Lemma chain_weaken lo lo' segs : lo' ≤ lo → chain lo segs → chain lo' segs.
Proof. destruct segs; simpl; [done|]. intros ? (? & ? & ?). repeat split; auto. lia. Qed.

Lemma chain_snoc lo segs s :
  chain lo (segs ++ [s]) ↔ chain lo segs ∧ last_end lo segs ≤ wall (sg_Start s) ∧ validLogSegment s = true.
Proof.
  revert lo. induction segs as [|x segs IH]; intros lo; simpl; [unfold last_end; simpl; tauto|].
  rewrite IH. replace (last_end lo (x :: segs)) with (last_end (wall (sg_End x)) segs); [tauto|].
  unfold last_end. rewrite last_cons. by destruct (last segs).
Qed.

Lemma last_end_cons lo s segs : last_end lo (s :: segs) = last_end (wall (sg_End s)) segs.
Proof. unfold last_end. rewrite last_cons. by destruct (last segs). Qed.

Lemma last_end_snoc lo segs s : last_end lo (segs ++ [s]) = wall (sg_End s).
Proof. unfold last_end. by rewrite last_snoc. Qed.

Lemma chain_last lo segs : chain lo segs → lo ≤ last_end lo segs.
Proof.
  revert lo. induction segs as [|s segs IH]; intros lo; [unfold last_end; simpl; lia|].
  intros (Hlo & (? & ? & ?)%validSegment_parts & Hc). rewrite last_end_cons. specialize (IH _ Hc). lia.
Qed.

Lemma reason_at_before lo segs x : chain lo segs → x < lo → reason_at segs x = None.
Proof.
  revert lo. induction segs as [|s segs IH]; intros lo; [done|]. intros (Hlo & Hv & Hc) Hx.
  apply validSegment_parts in Hv as (_ & _ & Hlt). simpl. unfold in_seg.
  replace (wall (sg_Start s) <=? x) with false by lia. simpl. eapply IH; [done|lia].
Qed.

Lemma reason_at_after lo segs x : chain lo segs → last_end lo segs ≤ x → reason_at segs x = None.
Proof.
  revert lo. induction segs as [|s segs IH]; intros lo; [done|]. intros (Hlo & Hv & Hc) Hx.
  rewrite last_end_cons in Hx. pose proof (chain_last _ _ Hc). simpl. unfold in_seg.
  replace (x <? wall (sg_End s)) with false by lia. rewrite andb_false_r. by eapply IH.
Qed.

Lemma reason_at_app l l' x :
  reason_at (l ++ l') x = match reason_at l x with Some r => Some r | None => reason_at l' x end.
Proof. induction l as [|s l IH]; simpl; [done|]. by destruct (in_seg x s). Qed.

(** ** Appending *)

Lemma appendLogSegment_spec lo out s :
  chain lo out → validLogSegment s = true → last_end lo out ≤ wall (sg_Start s) →
  let out' := appendLogSegment out s in
  chain lo out' ∧ last_end lo out' = wall (sg_End s)
  ∧ ∀ x, reason_at out' x = if in_seg x s then Some (sg_Reason s) else reason_at out x.
Proof.
  intros Hc Hv Hle. unfold appendLogSegment.
  assert (Hplain : chain lo (out ++ [s]) ∧ last_end lo (out ++ [s]) = wall (sg_End s)
    ∧ ∀ x, reason_at (out ++ [s]) x = if in_seg x s then Some (sg_Reason s) else reason_at out x).
  { split; [by apply chain_snoc|]. split; [by apply last_end_snoc|]. intros x. rewrite reason_at_app. simpl.
    destruct (in_seg x s) eqn:E; [|by destruct (reason_at out x)].
    unfold in_seg in E. bools. by rewrite (reason_at_after lo) by (done || lia). }
  destruct (last out) as [l|] eqn:Hl; [|done]. destruct (_ && _) eqn:E; [|done]. clear Hplain. bools.
  apply last_Some in Hl as [out' ->]. rewrite removelast_last. apply chain_snoc in Hc as (Hc & Hl & Hvl).
  rewrite last_end_snoc in Hle. rewrite Equal_wall_l in * by auto with observer. bools.
  apply validSegment_iff in Hv as (Vs & Ve & Hlt & Vr). apply validSegment_iff in Hvl as (Ws & We & Hlt' & Wr).
  split; [apply chain_snoc; split; [done|]; split; [done|]; apply validSegment_iff; simpl; repeat split; auto; lia|].
  split; [by rewrite last_end_snoc|]. intros x. rewrite !reason_at_app. simpl. unfold in_seg. simpl.
  destruct (reason_at out' x) eqn:Ho.
  - destruct (Z.leb_spec (wall (sg_Start s)) x); simpl; [|done].
    rewrite (reason_at_after lo) in Ho by (done || lia). done.
  - repeat match goal with |- context [?a <=? ?b] => destruct (Z.leb_spec a b) end;
    repeat match goal with |- context [?a <? ?b] => destruct (Z.ltb_spec a b) end; simpl; try lia; try congruence.
Qed.

(** ** Joined segments *)

Fixpoint coalesced (segs : list logCoverageSegment) : Prop :=
  match segs with
  | s :: ((t :: _) as rest) => ¬ (wall (sg_End s) = wall (sg_Start t) ∧ sg_Reason s = sg_Reason t) ∧ coalesced rest
  | _ => True
  end.

Lemma coalesced_snoc segs s :
  coalesced (segs ++ [s]) ↔ coalesced segs
  ∧ ∀ p, last segs = Some p → ¬ (wall (sg_End p) = wall (sg_Start s) ∧ sg_Reason p = sg_Reason s).
Proof.
  induction segs as [|x segs IH]; [by simpl|]. destruct segs as [|y segs].
  - simpl. split; [intros [H _]; split; [done|]; by intros ? [= <-]|intros [_ H]; split; [by apply H|done]].
  - rewrite last_cons_cons. change ((x :: y :: segs) ++ [s]) with (x :: (y :: segs) ++ [s]).
    cbn [coalesced app]. cbn [coalesced app] in IH. rewrite IH. tauto.
Qed.

Lemma appendLogSegment_coalesced lo out s :
  chain lo out → validLogSegment s = true → coalesced out → coalesced (appendLogSegment out s).
Proof.
  intros Hc Hv Ho. unfold appendLogSegment. destruct (last out) as [l|] eqn:Hl.
  2: { apply coalesced_snoc. by rewrite Hl. }
  apply last_Some in Hl as Hl'. destruct Hl' as [out' ->]. rewrite removelast_last.
  apply chain_snoc in Hc as (_ & _ & Hvl). rewrite Equal_wall_l by by apply validSegment_end.
  destruct (_ && _) eqn:E.
  - apply coalesced_snoc in Ho as [Ho Hlast]. by apply coalesced_snoc.
  - apply coalesced_snoc. split; [done|]. rewrite last_snoc. intros p [= <-] [Heq Hr].
    apply andb_false_iff in E as [E|E]; bools; done.
Qed.

(** ** Sorting the bounds *)

Fixpoint ascending (ts : list time) : Prop :=
  match ts with
  | t :: ((u :: _) as rest) => wall t ≤ wall u ∧ ascending rest
  | _ => True
  end.

Lemma insert_time_perm t ts : insert_time t ts ≡ₚ t :: ts.
Proof. induction ts as [|x ts IH]; [done|]. simpl. destruct (Before _ _); [|done]. rewrite IH. constructor. Qed.

Lemma sort_times_perm ts : sort_times ts ≡ₚ ts.
Proof. induction ts as [|t ts IH]; [done|]. simpl. by rewrite insert_time_perm, IH. Qed.

Lemma ascending_cons t ts : ascending ts → (∀ u, head ts = Some u → wall t ≤ wall u) → ascending (t :: ts).
Proof. intros Ha Hh. destruct ts; [done|]. split; auto. Qed.

Lemma ascending_tail t ts : ascending (t :: ts) → ascending ts ∧ ∀ u, u ∈ ts → wall t ≤ wall u.
Proof.
  revert t. induction ts as [|u ts IH]; intros t; [split; [done|by intros ? ?%not_elem_of_nil]|].
  intros [Htu Ha]. split; [done|]. destruct (IH _ Ha) as [_ Hall].
  intros v [-> |Hv]%elem_of_cons; [done|]. specialize (Hall _ Hv). lia.
Qed.

Lemma insert_time_ascending t ts :
  Forall wallclock (t :: ts) → ascending ts → ascending (insert_time t ts).
Proof.
  induction ts as [|x ts IH]; [done|]. intros Hw Ha. simpl.
  inversion Hw as [|? ? Ht Hrest]; subst. inversion Hrest as [|? ? Hx Hts]; subst.
  rewrite Before_wall_l by done. destruct (Z.ltb_spec (wall x) (wall t)).
  - destruct (ascending_tail _ _ Ha) as [Ha' Hall]. apply ascending_cons; [apply IH; auto; by constructor|].
    intros u Hu. destruct ts as [|y ts]; simpl in *; [injection Hu as <-; lia|].
    destruct (Before y t); injection Hu as <-; [|lia]. apply Ha.
  - apply ascending_cons; [done|]. by intros ? [= <-].
Qed.

Lemma sort_times_ascending ts : Forall wallclock ts → ascending (sort_times ts).
Proof.
  induction ts as [|t ts IH]; [done|]. intros Hw. inversion Hw; subst. simpl.
  apply insert_time_ascending; [|auto]. constructor; [done|]. by rewrite sort_times_perm.
Qed.

(** ** The sweep *)

Lemma drop_ended_spec lo left_ cur :
  chain lo cur → chain lo (drop_ended left_ cur)
  ∧ (∀ x, wall left_ ≤ x → reason_at (drop_ended left_ cur) x = reason_at cur x)
  ∧ (∀ s, s ∈ drop_ended left_ cur → s ∈ cur)
  ∧ (∀ s, head (drop_ended left_ cur) = Some s → wall left_ < wall (sg_End s)).
Proof.
  revert lo. induction cur as [|s cur IH]; intros lo; [done|]. intros (Hlo & Hv & Hc). simpl.
  rewrite After_wall_l by auto with observer. destruct (Z.ltb_spec (wall left_) (wall (sg_End s))); simpl.
  - split; [done|]. split; [done|]. split; [done|]. by intros ? [= <-].
  - destruct (IH _ Hc) as (H1 & H2 & H3 & H4). split; [|split; [|split; [|done]]].
    + eapply chain_weaken; [|exact H1]. apply validSegment_parts in Hv. lia.
    + intros x Hx. rewrite H2 by done. unfold in_seg. replace (x <? wall (sg_End s)) with false by lia.
      by rewrite andb_false_r.
    + intros x Hx. constructor. auto.
Qed.

(** Every interval bound is at most [left_] or among the later bounds. *)
Definition bounded_by (left_ : time) (rest : list time) (s : logCoverageSegment) : Prop :=
  (wall (sg_Start s) ≤ wall left_ ∨ sg_Start s ∈ rest) ∧ (wall (sg_End s) ≤ wall left_ ∨ sg_End s ∈ rest).

(** Between two consecutive bounds membership in a bounded interval is constant. *)
Lemma in_seg_cell left_ right_ rest s x :
  ascending (right_ :: rest) → bounded_by left_ (right_ :: rest) s →
  wall left_ ≤ x < wall right_ → in_seg x s = in_seg (wall left_) s.
Proof.
  intros Ha [Hs He] Hx. destruct (ascending_tail _ _ Ha) as [_ Hall].
  assert (Hge : ∀ t, t ∈ right_ :: rest → wall right_ ≤ wall t)
    by (intros t [-> |Ht]%elem_of_cons; [done|auto]).
  unfold in_seg. destruct Hs as [Hs|Hs%Hge], He as [He|He%Hge];
    repeat match goal with |- context [?a <=? ?b] => destruct (Z.leb_spec a b) end;
    repeat match goal with |- context [?a <? ?b] => destruct (Z.ltb_spec a b) end; try lia; done.
Qed.

Lemma reason_at_cell left_ right_ rest cur x :
  ascending (right_ :: rest) → (∀ s, s ∈ cur → bounded_by left_ (right_ :: rest) s) →
  wall left_ ≤ x < wall right_ → reason_at cur x = reason_at cur (wall left_).
Proof.
  intros Ha Hb Hx. induction cur as [|s cur IH]; [done|]. simpl.
  rewrite (in_seg_cell left_ right_ rest s x) by (auto; apply Hb; constructor).
  destruct (in_seg _ _); [done|]. apply IH. intros s' Hs'. apply Hb. by constructor.
Qed.

(** The choice at a cell is the merged reason at its left bound. *)
Lemma choose_spec lo left_ cur a :
  wallclock left_ → chain lo cur → (∀ s, head cur = Some s → wall left_ < wall (sg_End s)) →
  choose left_ cur a = add_at (wall left_) (reason_at cur (wall left_)) a.
Proof.
  intros Hw Hc Hh. unfold choose, add_at, pick.
  replace (negb (Before left_ (sg_Start a)) && Before left_ (sg_End a)) with (in_seg (wall left_) a).
  2: { unfold in_seg. rewrite !Before_wall_l by done. f_equal.
       destruct (Z.leb_spec (wall (sg_Start a)) (wall left_)), (Z.ltb_spec (wall left_) (wall (sg_Start a))); lia || done. }
  assert (Hr : reason_at cur (wall left_) = match cur with
    | s :: _ => if negb (Before left_ (sg_Start s)) then Some (sg_Reason s) else None | [] => None end).
  { destruct cur as [|s rest]; [done|]. simpl. specialize (Hh _ eq_refl). destruct Hc as (_ & Hv & Hc).
    rewrite Before_wall_l by done. unfold in_seg. destruct (Z.ltb_spec (wall left_) (wall (sg_Start s))); simpl.
    - replace (wall (sg_Start s) <=? wall left_) with false by lia. simpl. eapply reason_at_before; [done|].
      apply validSegment_parts in Hv. lia.
    - replace (wall (sg_Start s) <=? wall left_) with true by lia.
      by replace (wall left_ <? wall (sg_End s)) with true by lia. }
  rewrite Hr. destruct (in_seg _ _); [|done]. by destruct cur as [|s rest]; [|destruct (negb _)].
Qed.

Lemma reason_at_valid lo cur x r : chain lo cur → reason_at cur x = Some r → validReason r = true.
Proof.
  revert lo. induction cur as [|s cur IH]; intros lo; [done|]. intros (_ & Hv & Hc). simpl.
  destruct (in_seg x s); [|by eapply IH].
  intros [= <-]. by apply validSegment_iff in Hv as (_ & _ & _ & ?).
Qed.

Lemma add_at_valid x known a r :
  (∀ r, known = Some r → validReason r = true) → validReason (sg_Reason a) = true →
  add_at x known a = Some r → validReason r = true.
Proof.
  unfold add_at, pick. intros Hk Ha. destruct (in_seg x a); [|auto]. destruct known as [k|]; [|by intros [= <-]].
  destruct (strongerLogReason _ _); intros [= <-]; auto.
Qed.

(** ** One addition *)

(** Appending the cell between two bounds. *)
Lemma append_cell lo acc left_ right_ cell :
  chain lo acc → last_end lo acc ≤ wall left_ → validateUTC left_ = true → validateUTC right_ = true →
  wall left_ < wall right_ → (∀ r, cell = Some r → validReason r = true) →
  let acc' := match cell with Some r => appendLogSegment acc (MkSeg left_ right_ r) | None => acc end in
  chain lo acc' ∧ last_end lo acc' ≤ wall right_
  ∧ ∀ x, x < wall right_ → reason_at acc' x = if x <? wall left_ then reason_at acc x else cell.
Proof.
  intros Hc Hle Vl Vr Hlt Hr. destruct cell as [r|]; simpl.
  - assert (Hseg : validLogSegment (MkSeg left_ right_ r) = true) by (apply validSegment_iff; simpl; auto).
    destruct (appendLogSegment_spec lo acc (MkSeg left_ right_ r) Hc Hseg Hle) as (H1 & H2 & H3).
    split; [done|]. split; [rewrite H2; simpl; lia|]. intros x Hx. rewrite H3. unfold in_seg. simpl.
    replace (x <? wall right_) with true by lia. rewrite andb_true_r.
    destruct (Z.leb_spec (wall left_) x), (Z.ltb_spec x (wall left_)); lia || done.
  - split; [done|]. split; [lia|]. intros x Hx. destruct (Z.ltb_spec x (wall left_)); [done|].
    by apply (reason_at_after lo); [|lia].
Qed.

(** Past the last bound there is nothing. *)
Lemma reason_at_past b cur x :
  (∀ s, s ∈ cur → bounded_by b [] s) → wall b ≤ x → reason_at cur x = None.
Proof.
  intros Hb Hx. induction cur as [|s cur IH]; [done|]. simpl.
  destruct (Hb s ltac:(constructor)) as [_ [He|He%not_elem_of_nil]]; [|done]. unfold in_seg.
  replace (x <? wall (sg_End s)) with false by lia. rewrite andb_false_r. apply IH. intros s' Hs'. apply Hb. by constructor.
Qed.

Lemma sweep_spec bounds left_ rest cur a acc lo lo' :
  bounds = left_ :: rest → ascending bounds → (∀ t, t ∈ bounds → validateUTC t = true) →
  chain lo cur → validReason (sg_Reason a) = true →
  (∀ s, s ∈ a :: cur → bounded_by left_ rest s) →
  chain lo' acc → last_end lo' acc ≤ wall left_ → lo' ≤ wall left_ →
  let out := sweep bounds cur a acc in
  chain lo' out ∧ (∃ t, t ∈ bounds ∧ last_end lo' out ≤ wall t)
  ∧ ∀ x, reason_at out x = if x <? wall left_ then reason_at acc x else add_at x (reason_at cur x) a.
Proof.
  revert left_ rest cur acc. induction bounds as [|b bounds IH]; intros left_ rest cur acc [=<- <-] Ha Hval Hc Hr Hb Hacc Hle Hlo; simpl.
  assert (Hwl : wallclock b) by (apply validateUTC_wallclock, Hval; constructor).
  destruct bounds as [|right_ rest'].
  { split; [done|]. split; [exists b; split; [constructor|done]|]. intros x. destruct (Z.ltb_spec x (wall b)); [done|].
    rewrite (reason_at_after lo' acc) by (done || lia).
    assert (Hcur : reason_at cur x = None) by (apply (reason_at_past b); [intros; apply Hb; by constructor|done]).
    assert (Hadd : reason_at [a] x = None)
      by (apply (reason_at_past b); [intros s ->%list_elem_of_singleton; apply Hb; constructor|done]).
    simpl in Hadd. unfold add_at. by destruct (in_seg x a). }
  destruct (ascending_tail _ _ Ha) as [Ha' Hall]. assert (Hlr : wall b ≤ wall right_) by (apply Hall; constructor).
  assert (Hval' : ∀ t, t ∈ right_ :: rest' → validateUTC t = true) by (intros; apply Hval; by constructor).
  assert (Hwr : validateUTC right_ = true) by (apply Hval'; constructor).
  assert (Hlater : ∀ (t : time), wall t ≤ wall b ∨ t ∈ right_ :: rest' → wall t ≤ wall right_ ∨ t ∈ rest').
  { intros t [Ht|[-> |Ht]%elem_of_cons]; [left; lia|left; lia|by right]. }
  assert (Hb' : ∀ cur', (∀ s, s ∈ cur' → s ∈ cur) → ∀ s, s ∈ a :: cur' → bounded_by right_ rest' s).
  { intros cur' Hsub s Hs. destruct (Hb s) as [H1 H2]; [|split; auto].
    apply elem_of_cons in Hs as [-> |Hs]; [constructor|]. constructor. auto. }
  rewrite Before_wall_l by done. destruct (Z.ltb_spec (wall b) (wall right_)) as [Hlt|Hge]; cbn [negb].
  2: { destruct (IH right_ rest' cur acc eq_refl Ha' Hval' Hc Hr (Hb' cur (λ _ H, H)) Hacc ltac:(lia) ltac:(lia))
         as (H1 & (t & Ht & Hend) & H2).
       split; [done|]. split; [exists t; split; [by constructor|done]|]. intros x. rewrite H2.
       by replace (wall right_) with (wall b) by lia. }
  destruct (drop_ended_spec lo b cur Hc) as (Hc' & Hsame & Hsub & Hhead). set (cur' := drop_ended b cur) in *.
  rewrite (choose_spec lo b cur' a Hwl Hc' Hhead). rewrite Hsame by lia.
  set (cell := add_at (wall b) (reason_at cur (wall b)) a).
  assert (Hcell : ∀ x, wall b ≤ x < wall right_ → add_at x (reason_at cur x) a = cell).
  { intros x Hx. subst cell. unfold add_at.
    rewrite (in_seg_cell b right_ rest' a x), (reason_at_cell b right_ rest' cur x); auto; [|apply Hb; constructor].
    intros s Hs. apply Hb. by constructor. }
  assert (Hvalid : ∀ r, cell = Some r → validReason r = true).
  { intros r Hcr. eapply add_at_valid; [|exact Hr|exact Hcr]. intros r' Hk. exact (reason_at_valid _ _ _ _ Hc Hk). }
  destruct (append_cell lo' acc b right_ cell Hacc Hle (Hval b ltac:(constructor)) Hwr Hlt Hvalid)
    as (Hacc1 & Hacc2 & Hacc3).
  set (acc' := match cell with Some r => appendLogSegment acc (MkSeg b right_ r) | None => acc end) in *.
  destruct (IH right_ rest' cur' acc' eq_refl Ha' Hval' Hc' Hr (Hb' cur' Hsub) Hacc1 Hacc2 ltac:(lia))
    as (H1 & (t & Ht & Hend) & H2).
  split; [done|]. split; [exists t; split; [by constructor|done]|]. intros x. rewrite H2.
  destruct (Z.ltb_spec x (wall right_)), (Z.ltb_spec x (wall b)); try lia.
  - rewrite Hacc3 by done. by replace (x <? wall b) with true by lia.
  - rewrite Hacc3 by done. replace (x <? wall b) with false by lia. symmetry. by apply Hcell.
  - by rewrite Hsame by lia.
Qed.

Lemma chain_range lo segs s :
  chain lo segs → s ∈ segs → validLogSegment s = true ∧ lo ≤ wall (sg_Start s) ∧ wall (sg_End s) ≤ last_end lo segs.
Proof.
  revert lo. induction segs as [|x segs IH]; intros lo; [by intros _ ?%not_elem_of_nil|]. intros (Hlo & Hv & Hc).
  rewrite last_end_cons. intros [-> |Hs]%elem_of_cons; [pose proof (chain_last _ _ Hc); auto|].
  destruct (IH _ Hc Hs) as (? & ? & ?). apply validSegment_parts in Hv. repeat split; auto; lia.
Qed.

(** The bounds [merge_one] sorts. *)
Definition ends (cur : list logCoverageSegment) (a : logCoverageSegment) : list time :=
  flat_map (λ s, [sg_Start s; sg_End s]) cur ++ [sg_Start a; sg_End a].

Lemma ends_iff cur a t : t ∈ ends cur a ↔ ∃ s, s ∈ a :: cur ∧ (t = sg_Start s ∨ t = sg_End s).
Proof.
  unfold ends. rewrite elem_of_app, !list_elem_of_In, in_flat_map. split.
  - intros [(s & Hs & Hts)|Hts]; [exists s|exists a]; (split; [|by destruct Hts as [<-|[<-|[]]]; auto]).
    + constructor. by apply list_elem_of_In.
    + constructor.
  - intros (s & [-> |Hs]%elem_of_cons & Ht); [right; destruct Ht as [-> | ->]; simpl; auto|].
    left. exists s. split; [by apply list_elem_of_In|]. destruct Ht as [-> | ->]; simpl; auto.
Qed.

Lemma ends_valid lo hi cur a t :
  chain lo cur → last_end lo cur ≤ hi → validLogSegment a = true → lo ≤ wall (sg_Start a) → wall (sg_End a) ≤ hi →
  t ∈ ends cur a → validateUTC t = true ∧ lo ≤ wall t ≤ hi.
Proof.
  intros Hc Hhi Hv Hlo Hend (s & Hs & Heq)%ends_iff.
  assert (H : validLogSegment s = true ∧ lo ≤ wall (sg_Start s) ∧ wall (sg_End s) ≤ hi).
  { apply elem_of_cons in Hs as [-> |Hs]; [done|]. destruct (chain_range _ _ _ Hc Hs) as (? & ? & ?). repeat split; auto. lia. }
  destruct H as ((? & ? & ?)%validSegment_parts & ? & ?). destruct Heq as [-> | ->]; split; auto; lia.
Qed.

(** Before the first bound there is nothing. *)
Lemma reason_at_early left_ cur x :
  (∀ s, s ∈ cur → wall left_ ≤ wall (sg_Start s)) → x < wall left_ → reason_at cur x = None.
Proof.
  intros Hs Hx. induction cur as [|s cur IH]; [done|]. simpl. specialize (Hs s ltac:(constructor)) as Hs'.
  unfold in_seg. replace (wall (sg_Start s) <=? x) with false by lia. apply IH. intros s' ?. apply Hs. by constructor.
Qed.

Lemma merge_one_spec lo hi cur a :
  chain lo cur → last_end lo cur ≤ hi → validLogSegment a = true → lo ≤ wall (sg_Start a) → wall (sg_End a) ≤ hi →
  let out := merge_one cur a in
  chain lo out ∧ last_end lo out ≤ hi ∧ ∀ x, reason_at out x = add_at x (reason_at cur x) a.
Proof.
  intros Hc Hhi Hv Hlo Hend. unfold merge_one. fold (ends cur a).
  pose proof (λ t, ends_valid lo hi cur a t Hc Hhi Hv Hlo Hend) as Hvalid.
  assert (Hperm : ∀ t, t ∈ sort_times (ends cur a) ↔ t ∈ ends cur a) by (intros; by rewrite sort_times_perm).
  assert (Hasc : ascending (sort_times (ends cur a))).
  { apply sort_times_ascending, Forall_forall. intros t Ht. by apply validateUTC_wallclock, Hvalid. }
  assert (Hin : ∀ s, s ∈ a :: cur → sg_Start s ∈ sort_times (ends cur a) ∧ sg_End s ∈ sort_times (ends cur a))
    by (intros s Hs; split; apply Hperm, ends_iff; eauto).
  destruct (sort_times (ends cur a)) as [|left_ rest] eqn:Hsort.
  { by destruct (Hin a ltac:(constructor)) as [?%not_elem_of_nil _]. }
  assert (Hleft : lo ≤ wall left_) by (apply Hvalid, Hperm; constructor).
  destruct (ascending_tail _ _ Hasc) as [_ Hmin].
  destruct (sweep_spec (left_ :: rest) left_ rest cur a [] lo lo eq_refl Hasc) as (H1 & (t & Ht & Hle) & H2); try done.
  - intros t Ht. by apply Hvalid, Hperm.
  - by apply validSegment_iff in Hv as (_ & _ & _ & ?).
  - intros s Hs. destruct (Hin s Hs) as [Hs1 Hs2]. rewrite elem_of_cons in Hs1, Hs2.
    split; [destruct Hs1 as [-> |]|destruct Hs2 as [-> |]]; auto; by left.
  - split; [done|]. split; [apply Hperm, Hvalid in Ht; lia|]. intros x. rewrite H2.
    destruct (Z.ltb_spec x (wall left_)) as [Hx|]; [|done]. simpl. symmetry.
    assert (Hstart : ∀ s, s ∈ a :: cur → wall left_ ≤ wall (sg_Start s)).
    { intros s Hs. destruct (Hin s Hs) as [[-> |Hs1%Hmin]%elem_of_cons _]; lia. }
    pose proof (reason_at_early left_ (a :: cur) x Hstart Hx) as Hnone. simpl in Hnone.
    unfold add_at. by destruct (in_seg x a).
Qed.

(** ** Clipping to the window *)

Section window.
Variables (floor end_ : time).
Hypotheses (Hfloor : validateUTC floor = true) (Hend : validateUTC end_ = true) (Hwindow : wall floor < wall end_).

Definition in_window (x : Z) : bool := (wall floor <=? x) && (x <? wall end_).

Lemma clip_wall s :
  validLogSegment s = true →
  wall (sg_Start (clip floor end_ s)) = Z.max (wall floor) (wall (sg_Start s))
  ∧ wall (sg_End (clip floor end_ s)) = Z.min (wall end_) (wall (sg_End s))
  ∧ validateUTC (sg_Start (clip floor end_ s)) = true ∧ validateUTC (sg_End (clip floor end_ s)) = true.
Proof.
  intros Hv. pose proof Hv as (Vs & Ve & _)%validSegment_parts. unfold clip. simpl.
  rewrite Before_wall_l, After_wall_l by auto with observer.
  destruct (Z.ltb_spec (wall (sg_Start s)) (wall floor)), (Z.ltb_spec (wall end_) (wall (sg_End s)));
    repeat split; auto; lia.
Qed.

Lemma clip_in_seg s x : validLogSegment s = true → in_seg x (clip floor end_ s) = in_window x && in_seg x s.
Proof.
  intros Hv. destruct (clip_wall s Hv) as (Hs & He & _). unfold in_seg, in_window. rewrite Hs, He.
  repeat match goal with |- context [?a <=? ?b] => destruct (Z.leb_spec a b) end;
  repeat match goal with |- context [?a <? ?b] => destruct (Z.ltb_spec a b) end; simpl; lia || done.
Qed.

Lemma add_at_clip x known a :
  validLogSegment a = true →
  add_at x known (clip floor end_ a) = if in_window x then add_at x known a else known.
Proof. intros Hv. unfold add_at. rewrite clip_in_seg by done. by destruct (in_window x). Qed.

(** Either a valid segment inside the window, or nothing of it is inside. *)
Lemma clip_cases s :
  validLogSegment s = true →
  if Before (sg_Start (clip floor end_ s)) (sg_End (clip floor end_ s))
  then validLogSegment (clip floor end_ s) = true ∧ wall floor ≤ wall (sg_Start (clip floor end_ s))
       ∧ wall (sg_End (clip floor end_ s)) ≤ wall end_
  else ∀ x, in_window x && in_seg x s = false.
Proof.
  intros Hv. destruct (clip_wall s Hv) as (Hs & He & Vs & Ve). rewrite Before_wall_l by auto with observer.
  destruct (Z.ltb_spec (wall (sg_Start (clip floor end_ s))) (wall (sg_End (clip floor end_ s)))).
  - split; [|lia]. apply validSegment_iff. apply validSegment_iff in Hv as (_ & _ & _ & ?). done.
  - intros x. rewrite <- clip_in_seg by done. unfold in_seg.
    destruct (Z.leb_spec (wall (sg_Start (clip floor end_ s))) x), (Z.ltb_spec x (wall (sg_End (clip floor end_ s)))); simpl; lia || done.
Qed.

(** ** The loops *)

Lemma merge_additions_spec adds cur :
  chain (wall floor) cur → last_end (wall floor) cur ≤ wall end_ → forallb validLogSegment adds = true →
  ∃ out, merge_additions floor end_ adds cur = Some out ∧ chain (wall floor) out
    ∧ last_end (wall floor) out ≤ wall end_
    ∧ ∀ x, reason_at out x = if in_window x then fold_left (add_at x) adds (reason_at cur x) else reason_at cur x.
Proof.
  revert cur. induction adds as [|a adds IH]; intros cur Hc Hle Hv; simpl in *.
  { exists cur. repeat split; auto. intros x. by destruct (in_window x). }
  bools. rewrite H. simpl. pose proof (clip_cases a H) as Hclip.
  destruct (Before _ _); simpl.
  - destruct Hclip as (Vc & Hlo & Hhi). destruct (merge_one_spec _ _ cur _ Hc Hle Vc Hlo Hhi) as (H1 & H2 & H3).
    destruct (IH _ H1 H2) as (out & Hout & C1 & C2 & C3); [done|]. exists out. do 3 (split; [done|]).
    intros x. rewrite C3, H3, add_at_clip by done. by destruct (in_window x).
  - destruct (IH _ Hc Hle) as (out & Hout & C1 & C2 & C3); [done|]. exists out. do 3 (split; [done|]).
    intros x. rewrite C3. specialize (Hclip x). destruct (in_window x); [|done]. simpl in Hclip.
    f_equal. unfold add_at. by rewrite Hclip.
Qed.

Lemma clip_old_spec old cur previous lo :
  chain lo old → (∀ p, previous = Some p → wallclock p ∧ wall p = lo) →
  chain (wall floor) cur → coalesced cur → last_end (wall floor) cur ≤ Z.min (wall end_) (Z.max (wall floor) lo) →
  ∃ out, clip_old floor end_ previous old cur = Some out ∧ chain (wall floor) out ∧ coalesced out
    ∧ last_end (wall floor) out ≤ wall end_
    ∧ ∀ x, reason_at out x = match reason_at cur x with
        | Some r => Some r | None => if in_window x then reason_at old x else None end.
Proof.
  revert cur previous lo. induction old as [|s old IH]; intros cur previous lo Hold Hprev Hc Hco Hle; simpl.
  { exists cur. repeat split; auto; [lia|]. intros x. destruct (reason_at cur x); [done|]. by destruct (in_window x). }
  destruct Hold as (Hlo & Hv & Hold). rewrite Hv. simpl.
  replace (match previous with Some p => After p (sg_Start s) | None => false end) with false.
  2: { destruct previous as [p|]; [|done]. destruct (Hprev p eq_refl) as [Hw Hp]. rewrite After_wall_l by done. lia. }
  pose proof (clip_cases s Hv) as Hclip. destruct (clip_wall s Hv) as (Hs & He & _).
  assert (Hprev' : ∀ p, Some (sg_End s) = Some p → wallclock p ∧ wall p = wall (sg_End s))
    by (intros p [= <-]; split; [by apply validSegment_end|done]).
  pose proof Hv as (_ & _ & Hlt)%validSegment_parts. destruct (Before _ _).
  - destruct Hclip as (Vc & Hl & Hh).
    destruct (appendLogSegment_spec (wall floor) cur _ Hc Vc ltac:(lia)) as (A1 & A2 & A3).
    destruct (IH _ _ _ Hold Hprev' A1 (appendLogSegment_coalesced _ _ _ Hc Vc Hco) ltac:(lia)) as (out & Hout & C1 & Cc & C2 & C3).
    exists out. do 4 (split; [done|]). intros x. rewrite C3, A3, clip_in_seg by done.
    destruct (in_window x && in_seg x s) eqn:Hin.
    + rewrite (reason_at_after (wall floor) cur); [|done|].
      2: { rewrite <- clip_in_seg in Hin by done. unfold in_seg in Hin. bools. lia. }
      bools. by rewrite H, H0.
    + destruct (reason_at cur x); [done|]. destruct (in_window x); [|done]. simpl in Hin. by rewrite Hin.
  - destruct (IH cur _ _ Hold Hprev' Hc Hco ltac:(lia)) as (out & Hout & C1 & Cc & C2 & C3).
    exists out. do 4 (split; [done|]). intros x. rewrite C3. specialize (Hclip x).
    destruct (reason_at cur x); [done|]. destruct (in_window x); [|done]. simpl in Hclip. by rewrite Hclip.
Qed.
End window.

(** ** The reference: the strongest evidence at each instant *)

Lemma strongest_snoc rs a : validReason a = true → strongest (rs ++ [a]) = pick a (strongest rs).
Proof.
  intros Ha. unfold strongest, precedence. simpl. rewrite !existsb_app. simpl.
  destruct a; try discriminate Ha; simpl;
    repeat (match goal with |- context [existsb ?f rs] => destruct (existsb f rs) end; [reflexivity|simpl]);
    reflexivity.
Qed.

Lemma reason_at_strongest lo segs x : chain lo segs → reason_at segs x = strongest (evidence x segs).
Proof.
  revert lo. induction segs as [|s rest IH]; intros lo; [done|]. intros (Hlo & Hv & Hc). simpl.
  unfold evidence. rewrite filter_cons. destruct (in_seg x s) eqn:E; [|by rewrite decide_False; [eapply IH|]].
  rewrite decide_True by done. replace (filter _ rest) with (@nil logCoverageSegment).
  - apply validSegment_iff in Hv as (_ & _ & _ & Hr). simpl.
    exact (eq_sym (strongest_snoc [] (sg_Reason s) Hr)).
  - symmetry. clear IH Hv. unfold in_seg in E. apply andb_true_iff in E as [_ E].
    assert (Hx : x < wall (sg_End s)) by lia. clear E. revert Hc Hx. generalize (wall (sg_End s)). clear.
    induction rest as [|s rest IH]; intros lo; [done|]. intros (Hlo & Hv & Hc) Hx. rewrite filter_cons.
    apply validSegment_parts in Hv as (_ & _ & ?).
    rewrite decide_False by (unfold in_seg; destruct (Z.leb_spec (wall (sg_Start s)) x); lia || done).
    eapply IH; [exact Hc|lia].
Qed.

Lemma fold_strongest x adds rs :
  forallb validLogSegment adds = true →
  fold_left (add_at x) adds (strongest rs) = strongest (rs ++ evidence x adds).
Proof.
  revert rs. induction adds as [|a adds IH]; intros rs; [by rewrite app_nil_r|]. simpl. intros [Ha Hv]%andb_true_iff.
  unfold evidence, add_at at 2. rewrite filter_cons. apply validSegment_iff in Ha as (_ & _ & _ & Ha).
  destruct (in_seg x a) eqn:E.
  - rewrite decide_True by done. rewrite <- strongest_snoc by done. rewrite IH by done.
    simpl. by rewrite <- app_assoc.
  - rewrite decide_False by done. by apply IH.
Qed.

Lemma mergeLogCoverage_strongest old adds floor end_ :
  validateUTC floor = true → validateUTC end_ = true → wall floor < wall end_ ≤ wall floor + logRetention →
  chain 0 old → forallb validLogSegment adds = true → (length adds ≤ 2)%nat →
  ∃ out, mergeLogCoverage old adds floor end_ = Some out
    ∧ chain (wall floor) out ∧ last_end (wall floor) out ≤ wall end_
    ∧ ∀ x, reason_at out x
        = if in_window floor end_ x then strongest (evidence x (old ++ adds)) else None.
Proof.
  intros Vf Ve Hw Hold Hv Hn. unfold mergeLogCoverage, validLogTime, MaxCoverageSegmentsPerCommit.
  rewrite Vf, Ve. rewrite Before_wall_l, Sub_wall_l by auto with observer.
  replace (wall floor <? wall end_) with true by lia.
  replace (logRetention <? sat64 (wall end_ - wall floor)) with false
    by (unfold sat64, logRetention, MinInt64, MaxInt64, Day, Hour, Minute, Second in *; lia).
  replace (2 <? Z.of_nat (length adds)) with false by lia. cbn [negb orb].
  destruct (clip_old_spec floor end_ Vf Ve ltac:(lia) old [] None 0 Hold) as (cur & Hcur & C1 & _ & C2 & C3);
    [done|done|done|unfold last_end; simpl; lia|]. rewrite Hcur.
  destruct (merge_additions_spec floor end_ Vf Ve ltac:(lia) adds cur C1 C2 Hv) as (out & Hout & D1 & D2 & D3).
  exists out. do 3 (split; [done|]). intros x. rewrite D3, C3. simpl. destruct (in_window floor end_ x); [|done].
  unfold evidence at 1. rewrite filter_app, fmap_app, (reason_at_strongest 0 old x) by done. by apply fold_strongest.
Qed.

(** ** Theorems *)

(** C30: Merging coverage evidence computes, at every instant, the strongest of
    everything known: for stored segments in order, at most two valid additions
    and a valid window of at most the retention, the merge succeeds, its result is
    again a list of valid, ordered, disjoint segments inside the window, and its
    reason at each instant of the window is the first, in the closed precedence
    order of gap reasons followed by positive evidence, that any stored segment or
    addition states for the instant; outside the window it knows nothing. *)
Theorem mergeLogCoverage_pointwise old adds floor end_ :
  validateUTC floor = true → validateUTC end_ = true → wall floor < wall end_ ≤ wall floor + logRetention →
  chain 0 old → forallb validLogSegment adds = true → (length adds ≤ 2)%nat →
  ∃ out, mergeLogCoverage old adds floor end_ = Some out
    ∧ chain (wall floor) out ∧ last_end (wall floor) out ≤ wall end_
    ∧ ∀ x, reason_at out x
        = if in_window floor end_ x then strongest (evidence x (old ++ adds)) else None.
Proof. apply mergeLogCoverage_strongest. Qed.

Module CoverageSample.
Definition at_ (s : Z) : time := At ((63800000000 + s) * Second).
Definition stored : list logCoverageSegment :=
  [MkSeg (at_ 0) (at_ 60) ReasonEmpty; MkSeg (at_ 60) (at_ 120) ReasonBacklogDeferred].
Definition additions : list logCoverageSegment :=
  [MkSeg (at_ 30) (at_ 90) ReasonReaderFailed; MkSeg (at_ 90) (at_ 180) ReasonEmpty].
End CoverageSample.

Lemma mergeLogCoverage_pointwise_witness :
  ∃ out, mergeLogCoverage CoverageSample.stored CoverageSample.additions (CoverageSample.at_ 0) (CoverageSample.at_ 180)
           = Some out ∧ reason_at out (wall (CoverageSample.at_ 70)) = Some ReasonReaderFailed.
Proof.
  destruct (mergeLogCoverage_pointwise CoverageSample.stored CoverageSample.additions
    (CoverageSample.at_ 0) (CoverageSample.at_ 180)) as (out & Hout & _ & _ & Hx);
    [vm_compute; reflexivity|vm_compute; reflexivity|vm_compute; split; [reflexivity|discriminate]
    |vm_compute; repeat split; discriminate|vm_compute; reflexivity|simpl; lia|].
  exists out. split; [exact Hout|]. rewrite Hx. vm_compute. reflexivity.
Defined.
