(* ===== verification/LogProjection.v ===== *)
(** * Projecting coverage onto a summary bucket

    [projectLogCoverage] reduces nanosecond intervals to whole seconds.  It rounds
    each positive interval inwards, which is exact only because the merge has
    joined touching intervals of equal reason: the covered seconds it reports are
    precisely the whole seconds that are positively covered at every instant. *)

From S2P Require Import Prelude GoTime GoText LogModel LogStatus LogCoverage LogCoverageSafety.

(** ** Whole seconds *)

Definition floor_second (z : Z) : Z := z / Second.
Definition ceil_second (z : Z) : Z := (z + Second - 1) / Second.

(** The whole seconds inside a segment. *)
Definition seconds_of (s : logCoverageSegment) : list Z :=
  (λ i, ceil_second (wall (sg_Start s)) + Z.of_nat i)
    <$> seq 0 (Z.to_nat (floor_second (wall (sg_End s)) - ceil_second (wall (sg_Start s)))).
Definition positive (s : logCoverageSegment) : bool := sg_Reason s == ReasonEmpty.
Definition covered_seconds (segs : list logCoverageSegment) : list Z :=
  flat_map seconds_of (List.filter positive segs).

Lemma seconds_of_iff s k :
  k ∈ seconds_of s ↔ wall (sg_Start s) ≤ k * Second ∧ (k + 1) * Second ≤ wall (sg_End s).
Proof.
  unfold seconds_of, floor_second, ceil_second. rewrite list_elem_of_fmap. split.
  - intros (i & -> & Hi). apply elem_of_seq in Hi. unfold Second in *.
    Z.to_euclidean_division_equations. lia.
  - intros [H1 H2]. exists (Z.to_nat (k - (wall (sg_Start s) + Second - 1) / Second)).
    rewrite elem_of_seq. unfold Second in *. Z.to_euclidean_division_equations. lia.
Qed.

Lemma seconds_of_length s :
  Z.of_nat (length (seconds_of s))
  = Z.max 0 (floor_second (wall (sg_End s)) - ceil_second (wall (sg_Start s))).
Proof. unfold seconds_of. rewrite length_fmap, length_seq. lia. Qed.

Lemma seconds_of_NoDup s : NoDup (seconds_of s).
Proof. apply NoDup_fmap_2; [intros x y; lia|apply NoDup_seq]. Qed.

Lemma covered_iff segs k :
  k ∈ covered_seconds segs ↔ ∃ s, s ∈ segs ∧ sg_Reason s = ReasonEmpty
    ∧ wall (sg_Start s) ≤ k * Second ∧ (k + 1) * Second ≤ wall (sg_End s).
Proof.
  unfold covered_seconds. rewrite list_elem_of_In, in_flat_map. split.
  - intros (s & Hs & Hk). rewrite filter_In in Hs. destruct Hs as [Hs Hp]. unfold positive in Hp. bools.
    exists s. rewrite list_elem_of_In. rewrite <- list_elem_of_In, seconds_of_iff in Hk. done.
  - intros (s & Hs & Hr & Hk). exists s. rewrite filter_In, <- list_elem_of_In, <- list_elem_of_In, seconds_of_iff.
    split; [split; [done|]|done]. unfold positive. by rewrite bool_decide_eq_true_2.
Qed.

Lemma covered_cons s segs :
  covered_seconds (s :: segs) = (if positive s then seconds_of s else []) ++ covered_seconds segs.
Proof. unfold covered_seconds. simpl. by destruct (positive s). Qed.

Lemma covered_NoDup lo segs : chain lo segs → NoDup (covered_seconds segs).
Proof.
  revert lo. induction segs as [|s segs IH]; intros lo; [constructor|]. intros (Hlo & Hv & Hc).
  rewrite covered_cons. destruct (positive s); [|by eapply IH]. apply NoDup_app.
  split; [apply seconds_of_NoDup|]. split; [|by eapply IH]. intros k Hk (t & Ht & _ & H1 & H2)%covered_iff.
  apply seconds_of_iff in Hk. destruct (chain_range _ _ _ Hc Ht) as (_ & ? & _). unfold Second in *. lia.
Qed.

(** ** A covered second, instant by instant *)

Lemma reason_at_member lo segs s x :
  chain lo segs → s ∈ segs → in_seg x s = true → reason_at segs x = Some (sg_Reason s).
Proof.
  revert lo. induction segs as [|t segs IH]; intros lo; [by intros _ ?%not_elem_of_nil|].
  intros (Hlo & Hv & Hc) Hs Hx. simpl. apply elem_of_cons in Hs as [-> |Hs]; [by rewrite Hx|].
  destruct (chain_range _ _ _ Hc Hs) as (_ & Hst & _). unfold in_seg in *. bools.
  replace (x <? wall (sg_End t)) with false by lia. rewrite andb_false_r. eapply IH; [done|done|].
  apply andb_true_iff. split; lia.
Qed.

Lemma reason_at_some segs x r : reason_at segs x = Some r → ∃ s, s ∈ segs ∧ in_seg x s = true ∧ sg_Reason s = r.
Proof.
  induction segs as [|s segs IH]; [done|]. simpl. destruct (in_seg x s) eqn:E.
  - intros [= <-]. exists s. split; [constructor|done].
  - intros (t & ? & ?)%IH. exists t. split; [by constructor|done].
Qed.

(** In a joined chain, what holds just after a segment ends is something else. *)
Lemma coalesced_next lo segs s :
  chain lo segs → coalesced segs → s ∈ segs → reason_at segs (wall (sg_End s)) ≠ Some (sg_Reason s).
Proof.
  revert lo. induction segs as [|t segs IH]; intros lo; [by intros _ _ ?%not_elem_of_nil|].
  intros (Hlo & Hv & Hc) Hco [-> |Hs]%elem_of_cons; simpl.
  - unfold in_seg at 1. rewrite Z.ltb_irrefl, andb_false_r. destruct segs as [|u segs]; [done|].
    destruct Hco as [Hne _]. destruct Hc as (Hu & Hvu & Hc). simpl. unfold in_seg at 1.
    apply validSegment_parts in Hvu as (_ & _ & ?).
    destruct (Z.leb_spec (wall (sg_Start u)) (wall (sg_End t))); simpl.
    + replace (_ <? _) with true by lia. intros [= Heq]. apply Hne. split; [lia|done].
    + by rewrite (reason_at_before _ _ _ Hc) by lia.
  - assert (coalesced segs) by (by destruct segs; [|apply Hco]). unfold in_seg at 1.
    destruct (chain_range _ _ _ Hc Hs) as (Hvs & Hst & _). apply validSegment_parts in Hvs as (_ & _ & ?).
    replace (wall (sg_End s) <? wall (sg_End t)) with false by lia. rewrite andb_false_r. by eapply IH.
Qed.

Definition second_covered (segs : list logCoverageSegment) (k : Z) : Prop :=
  ∀ x, k * Second ≤ x < (k + 1) * Second → reason_at segs x = Some ReasonEmpty.

Lemma covered_seconds_spec lo segs k :
  chain lo segs → coalesced segs → k ∈ covered_seconds segs ↔ second_covered segs k.
Proof.
  intros Hc Hco. rewrite covered_iff. split.
  - intros (s & Hs & Hr & H1 & H2) x Hx. rewrite <- Hr. eapply reason_at_member; [done|done|].
    unfold in_seg. apply andb_true_iff. split; lia.
  - intros Hk. destruct (reason_at_some segs (k * Second) ReasonEmpty) as (s & Hs & Hin & Hr).
    { apply Hk. unfold Second. lia. }
    exists s. split; [done|]. split; [done|]. unfold in_seg in Hin. bools. split; [done|].
    destruct (Z.leb_spec ((k + 1) * Second) (wall (sg_End s))); [done|].
    destruct (coalesced_next _ _ _ Hc Hco Hs). rewrite Hr. apply Hk. lia.
Qed.

(** ** The projection *)

Lemma covered_bound lo segs :
  chain lo segs → Second * Z.of_nat (length (covered_seconds segs)) ≤ last_end lo segs - lo.
Proof.
  revert lo. induction segs as [|s segs IH]; intros lo; [unfold last_end; simpl; lia|]. intros (Hlo & Hv & Hc).
  rewrite covered_cons, length_app, last_end_cons. specialize (IH _ Hc). apply validSegment_parts in Hv as (_ & _ & ?).
  destruct (positive s); [|simpl; lia]. rewrite Nat2Z.inj_add, seconds_of_length.
  unfold floor_second, ceil_second, Second in *. Z.to_euclidean_division_equations. lia.
Qed.

(** The reason an uncovered remainder is reported with. *)
Definition gap_reason (r : ReasonCode) (s : logCoverageSegment) : ReasonCode :=
  if positive s then r else if strongerLogReason (sg_Reason s) r then sg_Reason s else r.

Lemma project_one_spec start end_ r covered s :
  validLogSegment s = true → validateUTC start = true → validateUTC end_ = true →
  wall start ≤ wall (sg_Start s) → wall (sg_End s) ≤ wall end_ ≤ wall start + Hour →
  0 ≤ covered ≤ MaxInt64 - Hour →
  project_one start end_ (r, covered) s
  = (gap_reason r s, covered + Second * Z.of_nat (length (if positive s then seconds_of s else []))).
Proof.
  intros Hv Vs Ve Hlo Hhi Hcov. pose proof Hv as (V1 & V2 & Hlt)%validSegment_parts. unfold project_one, gap_reason.
  replace (Before (sg_Start s) start) with false by (rewrite Before_wall_l by auto with observer; lia).
  replace (After (sg_End s) end_) with false by (rewrite After_wall_l by auto with observer; lia).
  unfold positive. destruct (sg_Reason s == ReasonEmpty); cbn [negb]; [|simpl; f_equal; lia]. f_equal.
  set (l := if negb _ then _ else _). set (r' := Add (sg_End s) _).
  assert (Hl : wallclock l ∧ wall l = ceil_second (wall (sg_Start s)) * Second).
  { subst l. unfold NanosecondOf, ceil_second. destruct (wall (sg_Start s) mod Second =? 0) eqn:E; simpl; bools.
    - split; [auto with observer|]. unfold Second in *. div_lia.
    - split; [apply Add_wallclock; auto with observer|]. unfold Second in *. div_lia. }
  assert (Hr : wall r' = floor_second (wall (sg_End s)) * Second).
  { subst r'. unfold NanosecondOf, floor_second. simpl. unfold Second in *. div_lia. }
  clearbody l r'. destruct Hl as [Hw Hl]. rewrite Before_wall_l, Sub_wall_r, seconds_of_length, Hl, Hr by done.
  assert (Hdiff : (floor_second (wall (sg_End s)) - ceil_second (wall (sg_Start s))) * Second ≤ Hour).
  { unfold floor_second, ceil_second, Hour, Minute, Second in *. div_lia. }
  set (f := floor_second _) in *. set (c := ceil_second _) in *. clearbody f c.
  unfold Hour, Minute, Second, MaxInt64 in *. destruct (Z.ltb_spec (c * 1000000000) (f * 1000000000)); [|lia].
  rewrite sat64_id, wrap_i64_id by (unfold MinInt64, MaxInt64; lia). lia.
Qed.

Lemma project_fold start end_ lo segs r covered :
  chain lo segs → wall start ≤ lo → last_end lo segs ≤ wall end_ ≤ wall start + Hour →
  validateUTC start = true → validateUTC end_ = true → 0 ≤ covered ≤ lo - wall start →
  fold_left (project_one start end_) segs (r, covered)
  = (fold_left gap_reason segs r, covered + Second * Z.of_nat (length (covered_seconds segs))).
Proof.
  revert lo r covered. induction segs as [|s segs IH]; intros lo r covered Hc Hlo Hhi Vs Ve Hcov.
  { simpl. f_equal. lia. }
  destruct Hc as (Hst & Hv & Hc). rewrite last_end_cons in Hhi. pose proof (chain_last _ _ Hc) as Hlast.
  pose proof Hv as (_ & _ & Hlt)%validSegment_parts.
  cbn [fold_left]. rewrite project_one_spec by (done || (unfold MaxInt64, Hour, Minute, Second in *; lia)).
  rewrite covered_cons, length_app, Nat2Z.inj_add.
  assert (Hone : Second * Z.of_nat (length (if positive s then seconds_of s else [])) ≤ wall (sg_End s) - wall (sg_Start s)).
  { pose proof (covered_bound (wall (sg_Start s)) [s] ltac:(simpl; repeat split; auto; lia)) as Hb.
    rewrite covered_cons in Hb. unfold covered_seconds, last_end in Hb. simpl in Hb. rewrite app_nil_r in Hb. exact Hb. }
  rewrite (IH (wall (sg_End s))) by (done || (unfold Second in *; lia)). f_equal. lia.
Qed.

(** The reason is a gap reason, or that nothing has been observed. *)
Definition remainder_ok (r : ReasonCode) : Prop :=
  r = ReasonNotYetObserved ∨ (isGapReason (Some r) = true ∧ ReasonCode_Validate r = true).

Lemma remainder_fold lo segs r : chain lo segs → remainder_ok r → remainder_ok (fold_left gap_reason segs r).
Proof.
  revert lo r. induction segs as [|s segs IH]; intros lo r; [done|]. intros (_ & Hv & Hc) Hr. simpl. eapply IH; [done|].
  unfold gap_reason. destruct (positive s) eqn:Hp; [done|]. destruct (strongerLogReason _ _); [|done]. right.
  apply validSegment_iff in Hv as (_ & _ & _ & Hv). unfold validReason in Hv. unfold positive in Hp. rewrite Hp in Hv.
  by destruct (sg_Reason s).
Qed.

Section projection.
Variables (segments : list logCoverageSegment) (start end_ : time).
Hypotheses (Hchain : chain 0 segments) (Vs : validateUTC start = true) (Ve : validateUTC end_ = true).
Hypotheses (As : NanosecondOf start = 0) (Ae : NanosecondOf end_ = 0).
Hypothesis Hlen : wall start < wall end_ ≤ wall start + Hour.

(** The bucket, in terms of the covered seconds of the clipped evidence. *)
Lemma project_shape :
  ∃ segs, chain (wall start) segs ∧ coalesced segs ∧ last_end (wall start) segs ≤ wall end_
    ∧ (∀ x, reason_at segs x = if in_window start end_ x then reason_at segments x else None)
    ∧ let n := Z.of_nat (length (covered_seconds segs)) in
      let reason := fold_left gap_reason segs ReasonNotYetObserved in
      n * Second ≤ wall end_ - wall start
      ∧ projectLogCoverage segments start end_
        = Some (if n * Second =? wall end_ - wall start
                then MkBucket start CoverageFull n None (Some zeroBucketCounts)
                else if 0 <? n then MkBucket start CoveragePartial n (Some reason) (Some zeroBucketCounts)
                else if reason != ReasonNotYetObserved then MkBucket start CoverageGapState n (Some reason) None
                else MkBucket start CoverageUnknown n (Some reason) None).
Proof.
  destruct (clip_old_spec start end_ Vs Ve ltac:(lia) segments [] None 0 Hchain)
    as (segs & Hsegs & C1 & Cc & C2 & C3); [done|done|done|unfold last_end; simpl; lia|].
  exists segs. do 3 (split; [done|]). split; [intros x; by rewrite C3|]. cbv zeta.
  pose proof (covered_bound _ _ C1) as Hb. set (n := Z.of_nat (length (covered_seconds segs))) in *.
  split; [lia|]. unfold projectLogCoverage, mergeLogCoverage, validLogTime. rewrite Vs, Ve, As, Ae.
  rewrite !Before_wall_l, !Sub_wall_l by auto with observer.
  assert (Hsat : sat64 (wall end_ - wall start) = wall end_ - wall start)
    by (apply sat64_id; unfold MinInt64, MaxInt64, Hour, Minute, Second in *; lia).
  rewrite Hsat. replace (wall start <? wall end_) with true by lia. replace (Hour <? _) with false by lia.
  replace (logRetention <? _) with false by (unfold logRetention, Day, Hour, Minute, Second in *; lia).
  change (MaxCoverageSegmentsPerCommit <? Z.of_nat (length [])) with false. simpl. rewrite Hsegs. simpl.
  rewrite (project_fold start end_ (wall start) segs _ 0) by (done || lia). fold n.
  replace (0 + Second * n) with (n * Second) by lia.
  replace (Z.quot (n * Second) Second mod 2 ^ 32) with n.
  2: { rewrite Z.quot_mul by (unfold Second; lia). symmetry. apply Z.mod_small.
       unfold Hour, Minute, Second in *. lia. }
  replace (0 <? n * Second) with (0 <? n); [done|].
  destruct (Z.ltb_spec 0 n), (Z.ltb_spec 0 (n * Second)); unfold Second in *; lia || done.
Qed.
End projection.

(** Projection of ordered evidence onto an aligned bucket of at most an hour
    succeeds, with a bucket the summary contract accepts. *)
Lemma project_valid segments start end_ :
  chain 0 segments → validateUTC start = true → validateUTC end_ = true →
  NanosecondOf start = 0 → NanosecondOf end_ = 0 → wall start < wall end_ ≤ wall start + Hour →
  ∃ b, projectLogCoverage segments start end_ = Some b ∧ sb_At b = start
    ∧ validateSummaryBucket b ((wall end_ - wall start) / Second) = true.
Proof.
  intros Hc Vs Ve As Ae Hlen.
  destruct (project_shape segments start end_ Hc Vs Ve As Ae Hlen) as (segs & C1 & _ & _ & _ & Hn & Heq).
  assert (Hr : remainder_ok (fold_left gap_reason segs ReasonNotYetObserved)) by (eapply remainder_fold; [done|by left]).
  set (n := Z.of_nat (length (covered_seconds segs))) in *. set (r := fold_left gap_reason _ _) in *.
  assert (Hn0 : 0 ≤ n) by (unfold n; lia). clearbody n r.
  assert (Hq : (wall end_ - wall start) = Second * ((wall end_ - wall start) / Second)).
  { unfold NanosecondOf, Second in *. div_lia. }
  set (q := (wall end_ - wall start) / Second) in *.
  eexists. split; [exact Heq|]. clear Heq.
  assert (Hhist : ReasonCode_Validate r = true ∧ isHistoricalReason (Some r) = true
    ∧ (r ≠ ReasonNotYetObserved → isGapReason (Some r) = true)).
  { destruct Hr as [-> |[Hg Hv]]; [done|]. repeat split; auto. by destruct r. }
  destruct Hhist as (H1 & H2 & H3). unfold validateSummaryBucket.
  destruct (n * Second =? wall end_ - wall start) eqn:E1; bools.
  - split; [done|]. simpl. replace (n =? q) with true by (unfold Second in *; lia). done.
  - destruct (0 <? n) eqn:E2; bools.
    + split; [done|]. cbn -[ReasonCode_Validate isHistoricalReason]. rewrite H1, H2.
      replace (n =? 0) with false by lia. replace (q <=? n) with false by (unfold Second in *; lia). done.
    + replace n with 0 by lia. case_bool_decide as E3; cbn [negb]; (split; [done|]);
        cbn -[ReasonCode_Validate isGapReason]; rewrite H1; [by rewrite E3|by rewrite H3].
Qed.

(** The covered seconds of a bucket are exactly its whole seconds during which
    the evidence is positive at every instant: a fractional gap is never rounded
    away and no covered second is lost; and the bucket is reported full exactly
    when every second of it is covered that way. *)
Theorem projectLogCoverage_counts segments start end_ b (seconds : list Z) :
  chain 0 segments → validateUTC start = true → validateUTC end_ = true →
  NanosecondOf start = 0 → NanosecondOf end_ = 0 → wall start < wall end_ ≤ wall start + Hour →
  projectLogCoverage segments start end_ = Some b → NoDup seconds →
  (∀ k, k ∈ seconds ↔ wall start ≤ k * Second ∧ (k + 1) * Second ≤ wall end_ ∧ second_covered segments k) →
  sb_CoveredSeconds b = Z.of_nat (length seconds)
  ∧ (sb_CoverageState b = CoverageFull ↔ Z.of_nat (length seconds) = (wall end_ - wall start) / Second).
Proof.
  intros Hc Vs Ve As Ae Hlen Hb Hnd Hmem.
  destruct (project_shape segments start end_ Hc Vs Ve As Ae Hlen) as (segs & C1 & Cc & C2 & C3 & Hn & Heq).
  assert (Hsame : ∀ k, k ∈ covered_seconds segs ↔ k ∈ seconds).
  { intros k. rewrite (covered_seconds_spec _ _ k C1 Cc), Hmem. unfold second_covered. setoid_rewrite C3. split.
    - intros Hk. assert (Hin : ∀ x, k * Second ≤ x < (k + 1) * Second → wall start ≤ x < wall end_).
      { intros x Hx. specialize (Hk x Hx). unfold in_window in Hk.
        destruct (Z.leb_spec (wall start) x), (Z.ltb_spec x (wall end_)); done || lia. }
      pose proof (Hin (k * Second) ltac:(unfold Second; lia)).
      pose proof (Hin ((k + 1) * Second - 1) ltac:(unfold Second; lia)).
      split; [lia|]. split; [lia|]. intros x Hx. specialize (Hk x Hx). by destruct (in_window start end_ x).
    - intros (H1 & H2 & Hk) x Hx. rewrite Hk by done. unfold in_window.
      replace (wall start <=? x) with true by lia. by replace (x <? wall end_) with true by lia. }
  assert (Hlength : length (covered_seconds segs) = length seconds).
  { apply Permutation_length, NoDup_Permutation; [by eapply covered_NoDup|done|done]. }
  rewrite Hlength in *. rewrite Heq in Hb. injection Hb as <-. clear Heq.
  set (n := Z.of_nat (length seconds)) in *. clearbody n.
  assert (Hq : (wall end_ - wall start) = Second * ((wall end_ - wall start) / Second)).
  { unfold NanosecondOf, Second in *. div_lia. }
  destruct (n * Second =? wall end_ - wall start) eqn:E1; bools; simpl.
  { split; [done|]. split; [intros _|done]. unfold Second in *. lia. }
  assert (n ≠ (wall end_ - wall start) / Second) by (unfold Second in *; lia).
  destruct (0 <? n); [done|]. destruct (_ != _); done.
Qed.

(** ** Witnesses *)

Module ProjectionSample.
Definition start : time := At (63800000040 * Second).
Definition end_ : time := At (63800000100 * Second).
(** Positive from half a second into the bucket until its third second ends. *)
Definition evidence : list logCoverageSegment :=
  [MkSeg (At (63800000040 * Second + 500000000)) (At (63800000043 * Second)) ReasonEmpty].
Definition seconds : list Z := [63800000041; 63800000042].

Lemma seconds_exact k :
  k ∈ seconds ↔ wall start ≤ k * Second ∧ (k + 1) * Second ≤ wall end_ ∧ second_covered evidence k.
Proof.
  unfold seconds. rewrite !elem_of_cons, elem_of_nil. unfold second_covered, evidence, reason_at, in_seg, start, end_, Second.
  simpl. split.
  - intros Hk. split; [lia|]. split; [lia|]. intros x Hx.
    replace (_ <=? x) with true by lia. by replace (x <? _) with true by lia.
  - intros (_ & _ & Hk). pose proof (Hk (k * 1000000000) ltac:(lia)) as H1.
    pose proof (Hk ((k + 1) * 1000000000 - 1) ltac:(lia)) as H2. clear Hk.
    case_hyp H1. case_hyp H2. bools. lia.
Qed.
End ProjectionSample.

Lemma projectLogCoverage_counts_witness :
  ∃ b, projectLogCoverage ProjectionSample.evidence ProjectionSample.start ProjectionSample.end_ = Some b
    ∧ sb_CoveredSeconds b = 2.
Proof.
  eexists. split; [vm_compute; reflexivity|].
  eapply (projectLogCoverage_counts ProjectionSample.evidence ProjectionSample.start ProjectionSample.end_ _
    ProjectionSample.seconds); [vm_compute; repeat split; discriminate|reflexivity..|vm_compute; split; [reflexivity|discriminate]
    |vm_compute; reflexivity|by apply (bool_decide_unpack _)|exact ProjectionSample.seconds_exact].
Defined.
