(* ===== verification/LogClock.v ===== *)
(** * Stored log times ([internal/history/log_schema.go])

    The log tables keep every time as fixed-width UTC text, and their queries
    compare and order those texts.  The codec is the code's; that the order of the
    texts is the order of the instants is what lets the model of the tables
    ([LogStore]) key its rows by instant. *)

From S2P Require Import Prelude GoTime GoText GoCalendar LogModel LogStatus LogCoverage.

(** Layout [2006-01-02T15:04:05.000000000Z] *)
Definition FormatLogTime (t : time) : string :=
  let c := civil_of t in seconds_text c ++ "." ++ pad 9 (c_nanos c) ++ "Z".

Definition encodeLogTime (at_ : time) : option string :=
  if validLogTime at_ then Some (FormatLogTime at_) else None.

(** What [time.Parse] accepts beyond the fixed width is refused by the comparison
    with the canonical text. *)
Definition decodeLogTime (text : string) : option time :=
  match parse_time text with
  | Some t => if validLogTime t && str_eqb (FormatLogTime t) text then Some t else None
  | None => None
  end.

(** [nullableLogTime]: [None] is its error, [Some None] a NULL. *)
Definition nullableLogTime (at_ : option time) : option (option string) :=
  match at_ with None => Some None | Some t => Some <$> encodeLogTime t end.

Definition scanNullableLogTime (text : option string) : option (option time) :=
  match text with None => Some None | Some s => Some <$> decodeLogTime s end.

#[global] Arguments FormatLogTime : simpl never.
#[global] Arguments encodeLogTime : simpl never.
#[global] Arguments decodeLogTime : simpl never.

Example logtime_examples :
  FormatLogTime (At (unixOffset * Second + 1709251199123456000)) = "2024-02-29T23:59:59.123456000Z"
  ∧ decodeLogTime "2024-02-29T23:59:59.123456000Z" = Some (At (unixOffset * Second + 1709251199123456000))
  ∧ decodeLogTime "2024-02-29T23:59:59.123456Z" = None
  ∧ decodeLogTime "0001-01-01T00:00:00.000000000Z" = None.
Proof. vm_compute. repeat split. Qed.

(** ** The codec round trips *)

Lemma validUTC_At t : validateUTC t = true → t = At (wall t).
Proof. unfold validateUTC. intros. bools. by rewrite <- (utc_UTC t). Qed.

Lemma civil_ranges t :
  validateUTC t = true →
  1 ≤ d_year (c_date (civil_of t)) ≤ 9999 ∧ 1 ≤ d_month (c_date (civil_of t)) ≤ 12
  ∧ 1 ≤ d_day (c_date (civil_of t)) < 100.
Proof.
  unfold validateUTC, year_ok. intros Hy. bools.
  pose proof (date_of_day_spec (wall t / Day)) as [Hdate _].
  split; [apply year_range; split; [by apply Z.div_pos|by apply Z.div_lt_upper_bound]|].
  change (date_of_day (wall t / Day)) with (c_date (civil_of t)) in Hdate.
  unfold valid_date in Hdate. bools. split; [lia|split; [lia|]].
  eapply Z.le_lt_trans; [done|]. by apply days_in_month_lt.
Qed.

Lemma parse_fixed_text c :
  0 ≤ d_year (c_date c) < 10000 → 0 ≤ d_month (c_date c) < 100 → 0 ≤ d_day (c_date c) < 100 →
  0 ≤ c_hour c < 100 → 0 ≤ c_minute c < 100 → 0 ≤ c_second c < 100 → 0 ≤ c_nanos c < Second →
  parse_civil (seconds_text c ++ "." ++ pad 9 (c_nanos c) ++ "Z") = Some c.
Proof.
  intros. unfold parse_civil, seconds_text, year_text.
  replace ((0 <=? d_year (c_date c)) && (d_year (c_date c) <? 10000)) with true by lia.
  rewrite !append_assoc, !append_cons, !append_nil.
  repeat (rewrite digits_pad by (simpl; lia); cbn [literal Ascii.eqb Bool.eqb]).
  unfold parse_fraction. cbn [literal Ascii.eqb Bool.eqb].
  rewrite digit_run_pad by (by intros ? ? [= <- <-]).
  rewrite Z.mod_small by (unfold Second in *; simpl; lia). simpl.
  rewrite Z.mul_1_r. by destruct c as [[]].
Qed.

Lemma decode_encode t s : encodeLogTime t = Some s → decodeLogTime s = Some t.
Proof.
  unfold encodeLogTime, validLogTime. destruct (validateUTC t) eqn:Hv; [|done]. intros [= <-].
  unfold decodeLogTime, parse_time, FormatLogTime at 1. cbv zeta.
  destruct (civil_ranges _ Hv) as (? & ? & ?). destruct (civil_of_bounds t) as (? & ? & ? & ?).
  rewrite parse_fixed_text by lia. rewrite civil_of_valid, civil_round_trip.
  rewrite <- (validUTC_At t Hv). unfold validLogTime. rewrite Hv. by rewrite str_eqb_refl.
Qed.

Lemma encode_decode s t : decodeLogTime s = Some t → encodeLogTime t = Some s.
Proof.
  unfold decodeLogTime, encodeLogTime. destruct (parse_time s) as [u|]; [|done].
  destruct (validLogTime u) eqn:Hv; [|done]. destruct (str_eqb _ s) eqn:Hs; [|done].
  intros [= ->]. apply str_eqb_eq in Hs. simpl. by rewrite Hv, Hs.
Qed.

Lemma encode_valid t : validateUTC t = true → encodeLogTime t = Some (FormatLogTime t).
Proof. unfold encodeLogTime, validLogTime. by intros ->. Qed.

Lemma decode_valid s t : decodeLogTime s = Some t → validateUTC t = true.
Proof.
  intros H%encode_decode. unfold encodeLogTime, validLogTime in H. by destruct (validateUTC t).
Qed.

(** ** The order of the texts *)

(** Lexicographic composition of comparisons. *)
Definition lex (c k : comparison) : comparison := match c with Eq => k | _ => c end.

Lemma digit_compare a b : 0 ≤ a < 10 → 0 ≤ b < 10 → Ascii.compare (digit a) (digit b) = (a ?= b).
Proof.
  intros. unfold Ascii.compare, digit. rewrite !N_ascii_embedding by lia.
  rewrite Z2N.inj_compare by lia. apply Z.add_compare_mono_l.
Qed.

Lemma pad_compare_mod n a b x y :
  String.compare (pad n a ++ x) (pad n b ++ y)
  = lex (a mod 10 ^ Z.of_nat n ?= b mod 10 ^ Z.of_nat n) (String.compare x y).
Proof.
  induction n as [|n IH]; [by rewrite !Z.mod_1_r|].
  cbn [pad]. rewrite !append_cons. cbn [String.compare].
  rewrite !mod_pow_succ, digit_compare, IH by (apply Z.mod_pos_bound; lia).
  pose proof (Z.mod_pos_bound a (10 ^ Z.of_nat n) ltac:(lia)).
  pose proof (Z.mod_pos_bound b (10 ^ Z.of_nat n) ltac:(lia)).
  set (p := 10 ^ Z.of_nat n) in *. clearbody p.
  set (da := a / p mod 10). set (db := b / p mod 10). clearbody da db.
  destruct (Z.compare_spec da db) as [->|Hlt|Hgt].
  - f_equal. by rewrite Z.add_compare_mono_l.
  - replace (_ ?= _) with Lt; [done|]. symmetry. apply Z.compare_lt_iff. nia.
  - replace (_ ?= _) with Gt; [done|]. symmetry. apply Z.compare_gt_iff. nia.
Qed.

Lemma pad_compare n a b x y :
  0 ≤ a < 10 ^ Z.of_nat n → 0 ≤ b < 10 ^ Z.of_nat n →
  String.compare (pad n a ++ x) (pad n b ++ y) = lex (a ?= b) (String.compare x y).
Proof. intros. by rewrite pad_compare_mod, !Z.mod_small. Qed.

Lemma char_compare c x y : String.compare (String c x) (String c y) = String.compare x y.
Proof. cbn [String.compare]. unfold Ascii.compare. by rewrite N.compare_refl. Qed.

(** *** Dates in order *)

Lemma days_before_year_succ y :
  days_before_year (y + 1) = days_before_year y + (if is_leap y then 366 else 365).
Proof.
  unfold days_before_year, is_leap.
  destruct (y mod 4 =? 0) eqn:E4, (y mod 100 =? 0) eqn:E100, (y mod 400 =? 0) eqn:E400; bools; simpl; div_lia.
Qed.

Lemma days_before_year_le y y' : y ≤ y' → days_before_year y ≤ days_before_year y'.
Proof. intros. unfold days_before_year. div_lia. Qed.

Lemma days_before_month_le leap m m' :
  1 ≤ m → m < m' → m' ≤ 12 → days_before_month leap (m + 1) ≤ days_before_month leap m'.
Proof.
  intros. assert (m ∈ [1; 2; 3; 4; 5; 6; 7; 8; 9; 10; 11]) as Hm by (rewrite !elem_of_cons; lia).
  assert (m' ∈ [2; 3; 4; 5; 6; 7; 8; 9; 10; 11; 12]) as Hm' by (rewrite !elem_of_cons; lia).
  in_cases Hm; in_cases Hm'; try lia; destruct leap; simpl; lia.
Qed.

Lemma days_before_month_year leap m :
  1 ≤ m ≤ 12 → 0 ≤ days_before_month leap m ∧ days_before_month leap (m + 1) ≤ if leap then 366 else 365.
Proof.
  intros. assert (m ∈ [1; 2; 3; 4; 5; 6; 7; 8; 9; 10; 11; 12]) as Hm by (rewrite !elem_of_cons; lia).
  in_cases Hm; destruct leap; simpl; lia.
Qed.

Definition date_compare (x y : date) : comparison :=
  lex (d_year x ?= d_year y) (lex (d_month x ?= d_month y) (d_day x ?= d_day y)).

Lemma date_lt x y :
  valid_date x = true → valid_date y = true → date_compare x y = Lt → day_of_date x < day_of_date y.
Proof.
  unfold valid_date, days_in_month, date_compare, day_of_date. intros Hx Hy. bools.
  destruct (days_before_month_year (is_leap (d_year x)) (d_month x)) as [_ ?]; [lia|].
  destruct (days_before_month_year (is_leap (d_year y)) (d_month y)) as [? _]; [lia|].
  destruct (Z.compare_spec (d_year x) (d_year y)) as [E|Hlt|]; [|intros _|done].
  - rewrite E in *. destruct (Z.compare_spec (d_month x) (d_month y)) as [->|Hlt|]; [|intros _|done].
    + simpl. rewrite Z.compare_lt_iff. lia.
    + pose proof (days_before_month_le (is_leap (d_year y)) (d_month x) (d_month y)
        ltac:(lia) Hlt ltac:(lia)). lia.
  - pose proof (days_before_year_le (d_year x + 1) (d_year y) ltac:(lia)).
    rewrite days_before_year_succ in *. lia.
Qed.

Lemma lex_opp c k : CompOpp (lex c k) = lex (CompOpp c) (CompOpp k).
Proof. by destruct c. Qed.

Lemma date_compare_opp x y : CompOpp (date_compare x y) = date_compare y x.
Proof. unfold date_compare. by rewrite !lex_opp, <- !Z.compare_antisym. Qed.

Lemma date_compare_days x y :
  valid_date x = true → valid_date y = true → date_compare x y = (day_of_date x ?= day_of_date y).
Proof.
  intros Hx Hy. destruct (date_compare x y) eqn:E; symmetry.
  - unfold date_compare in E. apply Z.compare_eq_iff. unfold day_of_date.
    destruct (Z.compare_spec (d_year x) (d_year y)) as [->| |]; try done.
    destruct (Z.compare_spec (d_month x) (d_month y)) as [->| |]; try done.
    apply Z.compare_eq_iff in E. simpl in E. by rewrite E.
  - by apply Z.compare_lt_iff, date_lt.
  - apply Z.compare_gt_iff, date_lt; try done. by rewrite <- date_compare_opp, E.
Qed.

(** *** Instants in order *)

Lemma clock_compare (d d' h h' m m' s s' n n' : Z) :
  0 ≤ h < 24 → 0 ≤ h' < 24 → 0 ≤ m < 60 → 0 ≤ m' < 60 → 0 ≤ s < 60 → 0 ≤ s' < 60 →
  0 ≤ n < Second → 0 ≤ n' < Second →
  lex (d ?= d') (lex (h ?= h') (lex (m ?= m') (lex (s ?= s') (n ?= n'))))
  = (d * Day + h * Hour + m * Minute + s * Second + n ?= d' * Day + h' * Hour + m' * Minute + s' * Second + n').
Proof.
  intros. unfold Day, Hour, Minute, Second in *. symmetry.
  destruct (Z.compare_spec d d') as [->| |]; simpl; [|apply Z.compare_lt_iff; lia|apply Z.compare_gt_iff; lia].
  destruct (Z.compare_spec h h') as [->| |]; simpl; [|apply Z.compare_lt_iff; lia|apply Z.compare_gt_iff; lia].
  destruct (Z.compare_spec m m') as [->| |]; simpl; [|apply Z.compare_lt_iff; lia|apply Z.compare_gt_iff; lia].
  destruct (Z.compare_spec s s') as [->| |]; simpl; [|apply Z.compare_lt_iff; lia|apply Z.compare_gt_iff; lia].
  by rewrite Z.add_compare_mono_l.
Qed.

(** The fixed-width text compares field by field. *)
Lemma civil_text_compare c c' :
  0 ≤ d_year (c_date c) < 10000 → 0 ≤ d_month (c_date c) < 100 → 0 ≤ d_day (c_date c) < 100 →
  0 ≤ c_hour c < 100 → 0 ≤ c_minute c < 100 → 0 ≤ c_second c < 100 → 0 ≤ c_nanos c < Second →
  0 ≤ d_year (c_date c') < 10000 → 0 ≤ d_month (c_date c') < 100 → 0 ≤ d_day (c_date c') < 100 →
  0 ≤ c_hour c' < 100 → 0 ≤ c_minute c' < 100 → 0 ≤ c_second c' < 100 → 0 ≤ c_nanos c' < Second →
  String.compare (seconds_text c ++ "." ++ pad 9 (c_nanos c) ++ "Z")
                 (seconds_text c' ++ "." ++ pad 9 (c_nanos c') ++ "Z")
  = lex (date_compare (c_date c) (c_date c'))
      (lex (c_hour c ?= c_hour c') (lex (c_minute c ?= c_minute c')
         (lex (c_second c ?= c_second c') (c_nanos c ?= c_nanos c')))).
Proof.
  destruct c as [[y mo d] h m s n], c' as [[y' mo' d'] h' m' s' n'].
  unfold seconds_text, year_text, date_compare. cbn [c_date d_year d_month d_day c_hour c_minute c_second c_nanos].
  intros.
  replace ((0 <=? y) && (y <? 10000)) with true by lia.
  replace ((0 <=? y') && (y' <? 10000)) with true by lia.
  rewrite !append_assoc, !append_cons, !append_nil.
  repeat (rewrite pad_compare by (unfold Second in *; lia); rewrite ?char_compare).
  repeat match goal with |- context [lex (?a ?= ?b)] => destruct (a ?= b); [|done|done]; simpl lex end.
  done.
Qed.

Lemma FormatLogTime_compare t u :
  validateUTC t = true → validateUTC u = true →
  String.compare (FormatLogTime t) (FormatLogTime u) = (wall t ?= wall u).
Proof.
  intros Ht Hu. destruct (civil_ranges _ Ht) as (? & ? & ?), (civil_ranges _ Hu) as (? & ? & ?).
  destruct (civil_of_bounds t) as (? & ? & ? & ?), (civil_of_bounds u) as (? & ? & ? & ?).
  unfold FormatLogTime. rewrite civil_text_compare by lia.
  rewrite <- (civil_round_trip t), <- (civil_round_trip u). unfold wall_of at 1 2.
  rewrite <- clock_compare by done. by rewrite <- date_compare_days by apply date_of_day_spec.
Qed.

(** Times are stored exactly and in order: an encoded time decodes to itself
    and a text that decodes is the encoding of what it decodes to; encoding succeeds
    exactly on the times the log model calls valid; and comparing two texts, as the
    queries do, compares the instants. *)
Theorem log_time_codec t s u s' :
  (encodeLogTime t = Some s ↔ decodeLogTime s = Some t)
  ∧ (is_Some (encodeLogTime t) ↔ validateUTC t = true)
  ∧ (encodeLogTime t = Some s → encodeLogTime u = Some s' → String.compare s s' = (wall t ?= wall u)).
Proof.
  split; [split; [apply decode_encode|apply encode_decode]|]. split.
  - split; [|intros; by rewrite encode_valid]. intros [x Hx]. by eapply decode_valid, decode_encode.
  - intros Ht Hu. pose proof (decode_valid _ _ (decode_encode _ _ Ht)) as Vt.
    pose proof (decode_valid _ _ (decode_encode _ _ Hu)) as Vu.
    rewrite encode_valid in Ht, Hu by done. injection Ht as <-. injection Hu as <-. by apply FormatLogTime_compare.
Qed.
