(* ===== verification/LogStore.v ===== *)
(** * The durable log store ([internal/history/log_store.go], [log_rollups.go],
      [log_summary.go], [log_schema.go])

    Three tables of the history database hold, per source, the collection state
    (one row), event counts per minute, and coverage evidence.  The tables are maps
    from their primary keys; a time in a key is its instant, because the stored
    texts are in one-to-one, order-preserving correspondence with instants
    ([LogClock]).  A query in primary-key order is the sorted list of a map.

    A transaction body is a function on the tables; the programs around it have the
    calls of [database/sql] and the points where a statement, a commit or the
    context may fail.  Counters are [uint64] in Go; a batch has at most 512 events
    and discards of [uint32], and the table constraints keep every stored count
    below 2^53, so no addition wraps. *)

From stdpp Require Import sorting.
From S2P Require Import Prelude GoTime GoText Effects LogModel LogStatus LogCollector LogCoverage LogClock.

(** ** Tables *)

Record StateRow := MkStateRow {
  sr_revision : string; sr_reset_pending : bool; sr_opaque : string; sr_attempted_at : string;
  sr_coverage_through : option string; sr_support : SupportState; sr_collection : CollectionState;
  sr_freshness : Freshness; sr_observed_at : option string; sr_status_coverage_through : option string;
  sr_reason : option ReasonCode }.

(** [ld_minutes]: counts by minute; [ld_coverage]: end and reason by start.  The
    metric tables of the same database only matter to retention: their keys.
    [ld_counters] is the table [store_counters]. *)
Record LogDb := MkLogDb {
  ld_meta : gmap string string; ld_schema : gmap string string;
  ld_state : gmap Source StateRow;
  ld_minutes : gmap Source (gmap Z BucketCounts);
  ld_coverage : gmap Source (gmap Z (Z * ReasonCode));
  ld_samples : gset (string * Z); ld_rollups : gset (string * Z * Z);
  ld_counters : gmap string Z }.

Definition minutes_of (db : LogDb) (s : Source) : gmap Z BucketCounts := default ∅ (ld_minutes db !! s).
Definition coverage_of (db : LogDb) (s : Source) : gmap Z (Z * ReasonCode) := default ∅ (ld_coverage db !! s).
Definition set_state (db : LogDb) (s : Source) (r : StateRow) : LogDb :=
  MkLogDb (ld_meta db) (ld_schema db) (<[s := r]> (ld_state db)) (ld_minutes db) (ld_coverage db)
    (ld_samples db) (ld_rollups db) (ld_counters db).
Definition set_minutes (db : LogDb) (s : Source) (m : gmap Z BucketCounts) : LogDb :=
  MkLogDb (ld_meta db) (ld_schema db) (ld_state db) (<[s := m]> (ld_minutes db)) (ld_coverage db)
    (ld_samples db) (ld_rollups db) (ld_counters db).
Definition set_coverage (db : LogDb) (s : Source) (m : gmap Z (Z * ReasonCode)) : LogDb :=
  MkLogDb (ld_meta db) (ld_schema db) (ld_state db) (ld_minutes db) (<[s := m]> (ld_coverage db))
    (ld_samples db) (ld_rollups db) (ld_counters db).
Definition set_meta (db : LogDb) (k v : string) : LogDb :=
  MkLogDb (<[k := v]> (ld_meta db)) (ld_schema db) (ld_state db) (ld_minutes db) (ld_coverage db)
    (ld_samples db) (ld_rollups db) (ld_counters db).

(** Rows in the order of their instant. *)
Definition by_key {A} (a b : Z * A) : Prop := a.1 ≤ b.1.
#[global] Instance by_key_dec {A} (a b : Z * A) : Decision (by_key a b).
Proof. unfold by_key. apply _. Defined.
Definition in_order {A} (m : gmap Z A) : list (Z * A) := merge_sort by_key (map_to_list m).
Definition segment_of (row : Z * (Z * ReasonCode)) : logCoverageSegment :=
  MkSeg (At row.1) (At row.2.1) row.2.2.

Inductive StoreError := StoreUnavailable | StoreConflict.
#[global] Instance StoreError_eq_dec : EqDecision StoreError.
Proof. solve_decision. Defined.

(** ** The collection state *)

Record logState := MkLogState { ls_checkpoint : Checkpoint; ls_status : Status }.
Definition zeroLogState : logState := MkLogState zeroCheckpoint zeroStatus.

Definition loadLogState (db : LogDb) (source : Source) : option logState :=
  match ld_state db !! source with
  | None => Some zeroLogState
  | Some row =>
      match ParseUint (sr_revision row) 64 with
      | None => None
      | Some revision =>
          if (revision =? 0) || negb (str_eqb (FormatUint revision) (sr_revision row)) then None
          else match decodeLogTime (sr_attempted_at row), scanNullableLogTime (sr_coverage_through row),
                     scanNullableLogTime (sr_observed_at row),
                     scanNullableLogTime (sr_status_coverage_through row) with
          | Some at_, Some coverage, Some observed, Some statusCoverage =>
              let checkpoint := MkCheckpoint revision (sr_reset_pending row) (sr_opaque row) (Some at_) coverage in
              let status := MkStatus (sr_support row) (sr_collection row) (sr_freshness row) observed (Some at_)
                              statusCoverage (sr_reason row) in
              if Checkpoint_Validate checkpoint && Status_Validate status
              then Some (MkLogState checkpoint status) else None
          | _, _, _, _ => None
          end
      end
  end.

Definition writeLogState (db : LogDb) (source : Source) (expected : Z) (st : logState) : result StoreError LogDb :=
  let cp := ls_checkpoint st in let status := ls_status st in
  match cp_PreviousAttemptAt cp ≫= encodeLogTime, nullableLogTime (cp_CoverageThrough cp),
        nullableLogTime (st_ObservedAt status), nullableLogTime (st_CoverageThrough status) with
  | Some at_, Some coverage, Some observed, Some statusCoverage =>
      let row := MkStateRow (FormatUint (cp_Revision cp)) (cp_ResetPending cp) (cp_Opaque cp) at_ coverage
                   (st_SupportState status) (st_CollectionState status) (st_Freshness status) observed
                   statusCoverage (st_ReasonCode status) in
      match ld_state db !! source with
      | Some old => if str_eqb (sr_revision old) (FormatUint expected) then Ok (set_state db source row)
                    else Err StoreConflict
      | None => Ok (set_state db source row)
      end
  | _, _, _, _ => Err StoreUnavailable
  end.

(** ** Counts per minute *)

Definition add_severity (s : Severity) (c : SeverityCounts) : SeverityCounts :=
  let '(MkSeverity t d i w e k u) := c in
  match s with
  | SeverityTrace => MkSeverity (t + 1) d i w e k u
  | SeverityDebug => MkSeverity t (d + 1) i w e k u
  | SeverityInfo => MkSeverity t d (i + 1) w e k u
  | SeverityWarn => MkSeverity t d i (w + 1) e k u
  | SeverityError => MkSeverity t d i w (e + 1) k u
  | SeverityCritical => MkSeverity t d i w e (k + 1) u
  | SeverityUnknown => MkSeverity t d i w e k (u + 1)
  | SeverityOther _ => c
  end.
Definition count_event (e : Event) (c : BucketCounts) : BucketCounts :=
  MkBucketCounts (bc_Captured c + 1) (bc_Discarded c) (add_severity (ev_Severity e) (bc_Severity c)).
Definition count_discard (d : DiscardCount) (c : BucketCounts) : BucketCounts :=
  MkBucketCounts (bc_Captured c) (bc_Discarded c + dc_Count d) (bc_Severity c).

(** The closure [get]: the counters of the minute of [at_]; [None] is its error. *)
Definition count_at (at_ : time) (f : BucketCounts → BucketCounts) (minutes : gmap Z BucketCounts) :
    option (gmap Z BucketCounts) :=
  let minute := Truncate at_ Minute in
  match encodeLogTime minute with
  | None => None
  | Some _ => Some (<[wall minute := f (default zeroBucketCounts (minutes !! wall minute))]> minutes)
  end.

Definition tally {A} (at_of : A → time) (f : A → BucketCounts → BucketCounts) (floor : time)
    (items : list A) (acc : option (gmap Z BucketCounts)) : option (gmap Z BucketCounts) :=
  fold_left (λ acc x, match acc with
                      | None => None
                      | Some m => if Before (at_of x) floor then Some m else count_at (at_of x) (f x) m
                      end) items acc.

(** The counts a batch adds, by minute. *)
Definition batch_minutes (b : Batch) (floor : time) : option (gmap Z BucketCounts) :=
  tally dc_At count_discard floor (b_Discards b)
    (tally ev_ObservedAt count_event floor (b_Events b) (Some ∅)).

Definition add_counts (a b : BucketCounts) : BucketCounts :=
  let '(MkSeverity t d i w e k u) := bc_Severity a in
  let '(MkSeverity t' d' i' w' e' k' u') := bc_Severity b in
  MkBucketCounts (bc_Captured a + bc_Captured b) (bc_Discarded a + bc_Discarded b)
    (MkSeverity (t + t') (d + d') (i + i') (w + w') (e + e') (k + k') (u + u')).

(** The CHECK constraints of a row of [log_metadata_minutes]. *)
Definition minute_check (c : BucketCounts) : bool :=
  forallb (λ v, (0 <=? v) && (v <=? MaxSafeInteger)) (bucketValues c)
  && (bc_Captured c =? fold_left Z.add (drop 2 (bucketValues c)) 0).

(** INSERT ... ON CONFLICT DO UPDATE of one minute. *)
Definition upsert_minute (table : gmap Z BucketCounts) (row : Z * BucketCounts) : option (gmap Z BucketCounts) :=
  let c := match table !! row.1 with Some old => add_counts old row.2 | None => row.2 end in
  if minute_check row.2 && minute_check c then Some (<[row.1 := c]> table) else None.

Definition upsert_minutes (table : gmap Z BucketCounts) (rows : list (Z * BucketCounts)) :
    option (gmap Z BucketCounts) :=
  fold_left (λ acc row, acc ≫= λ t, upsert_minute t row) rows (Some table).

Definition writeLogMinutes (db : LogDb) (b : Batch) (floor : time) : option LogDb :=
  match batch_minutes b floor with
  | None => None
  | Some minutes =>
      set_minutes db (b_Source b) <$> upsert_minutes (minutes_of db (b_Source b)) (in_order minutes)
  end.

(** ** Coverage evidence *)

Definition maxLogCoverageRows : Z := 2 * 7 * 24 * 60 + 2.

(** The scan loop of [loadLogCoverage]. *)
Fixpoint scan_segments (found : list logCoverageSegment) (rows : list logCoverageSegment) :
    option (list logCoverageSegment) :=
  match rows with
  | [] => Some found
  | s :: rest =>
      if negb (validLogSegment s)
         || match last found with Some l => After (sg_End l) (sg_Start s) | None => false end
      then None
      else if maxLogCoverageRows <? Z.of_nat (length (found ++ [s])) then None
      else scan_segments (found ++ [s]) rest
  end.

Definition loadLogCoverage (db : LogDb) (source : Source) (start end_ : time) : option (list logCoverageSegment) :=
  match encodeLogTime start, encodeLogTime end_ with
  | Some _, Some _ =>
      let rows := filter (λ s, wall start < wall (sg_End s) ∧ wall (sg_Start s) < wall end_)
                    (segment_of <$> in_order (coverage_of db source)) in
      scan_segments [] (take (Z.to_nat (maxLogCoverageRows + 1)) rows)
  | _, _ => None
  end.

(** [oldByStart], [nextByStart]: the last segment with a start. *)
Definition by_start (segs : list logCoverageSegment) (t : time) : option logCoverageSegment :=
  List.find (λ s, wall (sg_Start s) =? wall t) (rev segs).
Definition same_segment (a b : logCoverageSegment) : bool :=
  (wall (sg_Start a) =? wall (sg_Start b)) && (wall (sg_End a) =? wall (sg_End b)) && (sg_Reason a == sg_Reason b).

Definition delete_segment (next : list logCoverageSegment) (table : gmap Z (Z * ReasonCode))
    (s : logCoverageSegment) : option (gmap Z (Z * ReasonCode)) :=
  match by_start next (sg_Start s) with
  | Some _ => Some table
  | None => (λ _, delete (wall (sg_Start s)) table) <$> encodeLogTime (sg_Start s)
  end.

(** The table has CHECK(end_at>start_at). *)
Definition upsert_segment (old : list logCoverageSegment) (table : gmap Z (Z * ReasonCode))
    (s : logCoverageSegment) : option (gmap Z (Z * ReasonCode)) :=
  if match by_start old (sg_Start s) with Some previous => same_segment previous s | None => false end
  then Some table
  else match encodeLogTime (sg_Start s), encodeLogTime (sg_End s) with
  | Some _, Some _ =>
      if wall (sg_Start s) <? wall (sg_End s)
      then Some (<[wall (sg_Start s) := (wall (sg_End s), sg_Reason s)]> table) else None
  | _, _ => None
  end.

Definition write_segments (table : gmap Z (Z * ReasonCode)) (old next : list logCoverageSegment) :
    option (gmap Z (Z * ReasonCode)) :=
  let deleted := fold_left (λ acc s, acc ≫= λ t, delete_segment next t s) old (Some table) in
  fold_left (λ acc s, acc ≫= λ t, upsert_segment old t s) next deleted.

Definition writeLogCoverage (db : LogDb) (source : Source) (old next : list logCoverageSegment) : option LogDb :=
  set_coverage db source <$> write_segments (coverage_of db source) old next.

(** ** The eviction frontier *)

Definition logEvictionKey (source : Source) : option string :=
  match source with
  | SourceSystem => Some "log_metadata_evicted_before_system"%string
  | SourceApplication => Some "log_metadata_evicted_before_application"%string
  | SourceOther _ => None
  end.

(** [None] is an error, [Some None] no frontier. *)
Definition loadLogEvictionFrontier (db : LogDb) (source : Source) : option (option time) :=
  match logEvictionKey source with
  | None => None
  | Some key =>
      match ld_meta db !! key with
      | None => Some None
      | Some text => Some <$> decodeLogTime text
      end
  end.

(** ** Committing a batch *)

Definition next_checkpoint (prior : Checkpoint) (b : Batch) : Checkpoint :=
  let revision := wrap_u64 (cp_Revision prior + 1) in
  let at_ := Some (b_QueryStartedAt b) in
  match b_Kind b with
  | BatchResetPending => MkCheckpoint revision true "" at_ (cp_CoverageThrough prior)
  | BatchResetEstablished => MkCheckpoint revision false (b_NextOpaque b) at_ (cp_CoverageThrough prior)
  | BatchNormal =>
      MkCheckpoint revision (cp_ResetPending prior)
        (if 0 <? slen (b_NextOpaque b) then b_NextOpaque b else cp_Opaque prior) at_
        (if b_CaughtUp b then Some (b_QueryStartedAt b) else cp_CoverageThrough prior)
  | BatchOther _ => MkCheckpoint revision (cp_ResetPending prior) (cp_Opaque prior) at_ (cp_CoverageThrough prior)
  end.

(** SELECT SUM over all rows of [log_metadata_minutes]. *)
Definition sum_minutes (f : BucketCounts → Z) (db : LogDb) : Z :=
  map_fold (λ _ m acc, map_fold (λ _ c acc, f c + acc) acc m) 0 (ld_minutes db).

(** The statements of [commitLogBatch] between BEGIN and COMMIT. *)
Definition commit_tables (retentionAge : Z) (db : LogDb) (b : Batch) : result StoreError LogDb :=
  let source := b_Source b in let q := b_QueryStartedAt b in
  match loadLogState db source with
  | None => Err StoreUnavailable
  | Some prior =>
      if negb (cp_Revision (ls_checkpoint prior) =? b_ExpectedRevision b) then Err StoreConflict
      else if b_ExpectedRevision b =? MaxUint64 then Err StoreUnavailable
      else match deriveLogCoverage (ls_checkpoint prior) b with
      | Err ErrConflict => Err StoreConflict
      | Err ErrCoverage => Err StoreUnavailable
      | Ok addition =>
          let floor := logRetentionFloor q (Z.min retentionAge logRetention) in
          match writeLogMinutes db b floor with
          | None => Err StoreUnavailable
          | Some db1 =>
              match loadLogCoverage db1 source floor q, loadLogEvictionFrontier db1 source with
              | Some oldSegments, Some frontier =>
                  let floor := match frontier with
                               | Some f => if After f floor then f else floor | None => floor end in
                  match (if Before floor q then mergeLogCoverage oldSegments addition floor q else Some []) with
                  | None => Err StoreUnavailable
                  | Some segments =>
                      if maxLogCoverageRows <? Z.of_nat (length segments) then Err StoreUnavailable
                      else match writeLogCoverage db1 source oldSegments segments with
                      | None => Err StoreUnavailable
                      | Some db2 =>
                          let next := next_checkpoint (ls_checkpoint prior) b in
                          let status := StatusAfterBatch b (ls_status prior) in
                          if negb (Checkpoint_Validate next) || negb (Status_Validate status)
                          then Err StoreUnavailable
                          else match writeLogState db2 source (b_ExpectedRevision b) (MkLogState next status) with
                          | Err e => Err e
                          | Ok db3 =>
                              if (MaxSafeInteger <? sum_minutes bc_Captured db3)
                                 || (MaxSafeInteger <? sum_minutes bc_Discarded db3)
                              then Err StoreUnavailable else Ok db3
                          end
                      end
                  end
              | _, _ => Err StoreUnavailable
              end
          end
      end
  end.

(** ** The schema *)

Definition schema_key : string := "log_metadata_schema_version".
Definition logSchema : list (string * string) :=
  [("log_metadata_state", "CREATE TABLE log_metadata_state(source TEXT NOT NULL PRIMARY KEY CHECK(source IN ('system','application')), revision TEXT NOT NULL, reset_pending INTEGER NOT NULL CHECK(reset_pending IN (0,1)), opaque BLOB, attempted_at TEXT NOT NULL, coverage_through TEXT, support TEXT NOT NULL, collection TEXT NOT NULL, freshness TEXT NOT NULL, observed_at TEXT, status_coverage_through TEXT, reason TEXT) WITHOUT ROWID");
   ("log_metadata_minutes", "CREATE TABLE log_metadata_minutes(source TEXT NOT NULL CHECK(source IN ('system','application')), minute TEXT NOT NULL, captured INTEGER NOT NULL CHECK(captured BETWEEN 0 AND 9007199254740991), discarded INTEGER NOT NULL CHECK(discarded BETWEEN 0 AND 9007199254740991), trace INTEGER NOT NULL CHECK(trace BETWEEN 0 AND 9007199254740991), debug INTEGER NOT NULL CHECK(debug BETWEEN 0 AND 9007199254740991), info INTEGER NOT NULL CHECK(info BETWEEN 0 AND 9007199254740991), warn INTEGER NOT NULL CHECK(warn BETWEEN 0 AND 9007199254740991), error INTEGER NOT NULL CHECK(error BETWEEN 0 AND 9007199254740991), critical INTEGER NOT NULL CHECK(critical BETWEEN 0 AND 9007199254740991), unknown INTEGER NOT NULL CHECK(unknown BETWEEN 0 AND 9007199254740991), CHECK(captured=trace+debug+info+warn+error+critical+unknown), PRIMARY KEY(source,minute)) WITHOUT ROWID");
   ("log_metadata_coverage", "CREATE TABLE log_metadata_coverage(source TEXT NOT NULL CHECK(source IN ('system','application')), start_at TEXT NOT NULL, end_at TEXT NOT NULL CHECK(end_at>start_at), reason TEXT NOT NULL, PRIMARY KEY(source,start_at)) WITHOUT ROWID")]%string.

(** CREATE TABLE without IF NOT EXISTS refuses a table that exists. *)
Definition create_table (db : LogDb) (t : string * string) : option LogDb :=
  match ld_schema db !! t.1 with
  | Some _ => None
  | None => Some (MkLogDb (ld_meta db) (<[t.1 := t.2]> (ld_schema db)) (ld_state db) (ld_minutes db)
                    (ld_coverage db) (ld_samples db) (ld_rollups db) (ld_counters db))
  end.
Definition create_schema (db : LogDb) : option LogDb :=
  (λ db, set_meta db schema_key "1") <$> fold_left (λ acc t, acc ≫= λ db, create_table db t) logSchema (Some db).

Definition validateLogSchema (db : LogDb) : bool :=
  match ld_meta db !! schema_key with
  | Some version =>
      str_eqb version "1"
      && forallb (λ t, match ld_schema db !! t.1 with Some sql => str_eqb sql t.2 | None => false end) logSchema
  | None => false
  end.

(** ** Programs over [database/sql] *)

Inductive StoreCall : Type → Type :=
| SBegin : StoreCall bool
| SFault : StoreCall bool (* some statement of the body failed *)
| SRead : StoreCall LogDb
| SWrite (db : LogDb) : StoreCall unit
| SCommit : StoreCall bool
| SRollback : StoreCall unit
| SPressure : StoreCall bool (* DatabaseBytes > MaxBytes *)
| SCtxErr : StoreCall bool.

Local Open Scope prog_scope.

(** A transaction whose body is a function of the tables; the deferred rollback
    runs on every early return. *)
Definition store_tx {E R} (failed : E) (body : LogDb → result E (R * LogDb)) : prog StoreCall (result E R) :=
  broken <~ SFault;
  if broken : bool then _ <~ SRollback; Ret (Err failed)
  else
    db <~ SRead;
    match body db with
    | Err e => _ <~ SRollback; Ret (Err e)
    | Ok (r, db') =>
        _ <~ SWrite db';
        committed <~ SCommit;
        if committed : bool then Ret (Ok r) else _ <~ SRollback; Ret (Err failed)
    end.

(** The store handle: its configuration and [logReady]. *)
Record LogHandle := MkHandle { lh_RetentionAge : Z; lh_BatchSize : Z; lh_logReady : bool }.
Definition set_ready (h : LogHandle) : LogHandle := MkHandle (lh_RetentionAge h) (lh_BatchSize h) true.

Definition ensureLogSchema (h : LogHandle) : prog StoreCall (LogHandle * bool) :=
  if lh_logReady h then Ret (h, true)
  else
    began <~ SBegin;
    if negb began then Ret (h, false)
    else
      r <- store_tx StoreUnavailable (λ db,
             match (match ld_meta db !! schema_key with Some _ => Some db | None => create_schema db end) with
             | None => Err StoreUnavailable
             | Some db' => if validateLogSchema db' then Ok (tt, db') else Err StoreUnavailable
             end);
      match r with Ok _ => Ret (set_ready h, true) | Err _ => Ret (h, false) end.

Definition commitLogBatch (h : LogHandle) (b : Batch) : prog StoreCall (LogHandle * option StoreError) :=
  ensured <- ensureLogSchema h;
  let '(h, ok) := ensured in
  if negb ok then Ret (h, Some StoreUnavailable)
  else
    began <~ SBegin;
    if negb began then Ret (h, Some StoreUnavailable)
    else
      pressure <~ SPressure;
      if pressure : bool then _ <~ SRollback; Ret (h, Some StoreUnavailable)
      else
        r <- store_tx StoreUnavailable (λ db,
               match commit_tables (lh_RetentionAge h) db b with Ok db' => Ok (tt, db') | Err e => Err e end);
        Ret (h, match r with Ok _ => None | Err e => Some e end).

(** [logPortError]: a cancelled context hides the error's kind. *)
Definition logPortError (e : option StoreError) : prog StoreCall CommitResult :=
  match e with
  | None => Ret Committed
  | Some e =>
      canceled <~ SCtxErr;
      Ret (if canceled : bool then CommitFailed
           else match e with StoreConflict => RevisionConflict | StoreUnavailable => CommitFailed end)
  end.

Definition CommitBatch (h : LogHandle) (b : Batch) : prog StoreCall (LogHandle * CommitResult) :=
  if negb (Batch_Validate b) then Ret (h, CommitFailed)
  else
    out <- commitLogBatch h b;
    r <- logPortError out.2;
    Ret (out.1, r).

Definition LoadCheckpoint (h : LogHandle) (source : Source) : prog StoreCall (LogHandle * option Checkpoint) :=
  if negb (Source_Validate source) then Ret (h, None)
  else
    ensured <- ensureLogSchema h;
    let '(h, ok) := ensured in
    if negb ok then Ret (h, None)
    else
      broken <~ SFault;
      if broken : bool then Ret (h, None)
      else
        db <~ SRead;
        Ret (h, ls_checkpoint <$> loadLogState db source).

(** ** Summaries *)

Definition addLogCounts (target source : BucketCounts) : option BucketCounts :=
  match sumSafe 0 (drop 2 (bucketValues source)) with
  | None => None
  | Some severity =>
      if negb (severity =? bc_Captured source) then None
      else if forallb (λ '(l, v), negb (MaxSafeInteger <? v) && negb (MaxSafeInteger - v <? l))
                (zip (bucketValues target) (bucketValues source))
      then Some (add_counts target source) else None
  end.

Definition minute_row (query : SummaryQuery) (acc : option (list BucketCounts)) (row : Z * BucketCounts) :
    option (list BucketCounts) :=
  acc ≫= λ result,
  let at_ := At row.1 in
  if negb (validLogTime at_) || negb (Equal at_ (Truncate at_ Minute)) then None
  else
    let index := Z.quot (Sub at_ (q_WindowStart query)) (q_BucketInterval query) in
    if (index <? 0) || (Z.of_nat (length result) <=? index) then None
    else match result !! Z.to_nat index with
    | None => None
    | Some target =>
        (λ c, <[Z.to_nat index := c]> result) <$> addLogCounts target row.2
    end.

Definition queryLogMinuteCounts (db : LogDb) (source : Source) (query : SummaryQuery) : option (list BucketCounts) :=
  match encodeLogTime (q_WindowStart query), encodeLogTime (q_WindowEnd query) with
  | Some _, Some _ =>
      let rows := filter (λ row, wall (q_WindowStart query) ≤ row.1 ∧ row.1 < wall (q_WindowEnd query))
                    (in_order (minutes_of db source)) in
      fold_left (minute_row query) (take (Z.to_nat 10081) rows)
        (Some (replicate (Z.to_nat (q_BucketCount query)) zeroBucketCounts))
  | _, _ => None
  end.

(** The loop over the buckets of a source: buckets, covered seconds, totals. *)
Fixpoint query_buckets (segments : list logCoverageSegment) (query : SummaryQuery) (i : Z)
    (counts : list BucketCounts) (covered : Z) (totals : option Counts) :
    option (list SummaryBucket * Z * option Counts) :=
  match counts with
  | [] => Some ([], covered, totals)
  | c :: rest =>
      let start := Add (q_WindowStart query) (wrap_i64 (i * q_BucketInterval query)) in
      match projectLogCoverage segments start (Add start (q_BucketInterval query)) with
      | None => None
      | Some bucket =>
          let bucket := if (0 <? bc_Captured c) || (0 <? bc_Discarded c)
                        then MkBucket (sb_At bucket) (sb_CoverageState bucket) (sb_CoveredSeconds bucket)
                               (sb_ReasonCode bucket) (Some c)
                        else bucket in
          let covered := wrap_u64 (covered + sb_CoveredSeconds bucket) in
          match (match sb_Counts bucket with
                 | None => Some totals
                 | Some bc =>
                     let t := default (MkCounts 0 0) totals in
                     if (MaxSafeInteger - bc_Captured bc <? ct_Captured t)
                        || (MaxSafeInteger - bc_Discarded bc <? ct_Discarded t) then None
                     else Some (Some (MkCounts (ct_Captured t + bc_Captured bc) (ct_Discarded t + bc_Discarded bc)))
                 end) with
          | None => None
          | Some totals =>
              match query_buckets segments query (i + 1) rest covered totals with
              | Some (bs, covered, totals) => Some (bucket :: bs, covered, totals)
              | None => None
              end
          end
      end
  end.

Definition query_coverage (bs : list SummaryBucket) (covered : Z) : CoverageState :=
  if forallb (λ b, sb_CoverageState b == CoverageFull) bs then CoverageFull
  else if forallb (λ b, sb_CoverageState b == CoverageUnknown) bs then CoverageUnknown
  else if (covered =? 0) && existsb (λ b, sb_CoverageState b == CoverageGapState) bs then CoverageGapState
  else CoveragePartial.

Definition notRunStatus : Status :=
  MkStatus SupportUnavailable CollectionNotRun FreshnessUnknown None None None (Some ReasonReaderFailed).

Definition queryLogSource (db : LogDb) (source : Source) (query : SummaryQuery) : option SourceSummary :=
  match loadLogState db source with
  | None => None
  | Some state =>
      let status := if cp_Revision (ls_checkpoint state) =? 0 then notRunStatus else ls_status state in
      match loadLogCoverage db source (q_WindowStart query) (q_WindowEnd query), queryLogMinuteCounts db source query with
      | Some segments, Some counts =>
          match query_buckets segments query 0 counts 0 None with
          | None => None
          | Some (bs, covered, totals) =>
              Some (MkSourceSummary source status (query_coverage bs covered) covered totals bs)
          end
      | _, _ => None
      end
  end.

(** [sources] pass the check loop of [QuerySummary]. *)
Fixpoint query_sources_ok (previous : option Source) (sources : list Source) : bool :=
  match sources with
  | [] => true
  | s :: rest =>
      Source_Validate s
      && match previous with
         | None => true
         | Some p => (p == SourceSystem) && (s == SourceApplication)
         end
      && query_sources_ok (Some s) rest
  end.

Definition query_tables (db : LogDb) (ready : bool) (sources : list Source) (query : SummaryQuery) : option Summary :=
  if negb ready && negb (validateLogSchema db) then None
  else match mapM (λ s, queryLogSource db s query) sources with
  | None => None
  | Some items =>
      let result := MkSummary (q_WindowStart query) (q_WindowEnd query) (q_BucketInterval query)
                      (q_BucketCount query) items in
      if Summary_Validate result then Some result else None
  end.

Definition QuerySummary (h : LogHandle) (sources : list Source) (query : SummaryQuery) :
    prog StoreCall (option Summary) :=
  if negb (SummaryQuery_Validate query) || (MaxSources <? Z.of_nat (length sources)) then Ret None
  else if negb (query_sources_ok None sources) then Ret None
  else match sources with
  | [] => Ret (Some (MkSummary (q_WindowStart query) (q_WindowEnd query) (q_BucketInterval query)
                       (q_BucketCount query) []))
  | _ =>
      began <~ SBegin;
      if negb began then Ret None
      else
        broken <~ SFault;
        if broken : bool then _ <~ SRollback; Ret None
        else db <~ SRead; _ <~ SRollback; Ret (query_tables db (lh_logReady h) sources query)
  end.
