(* ===== verification/LogStoreTables.v ===== *)
(** * Tables in key order

    What the store's reads and writes of the coverage and minute tables compute,
    as facts about maps and their lists in key order. *)

From stdpp Require Import sorting.
From S2P Require Import Prelude GoTime GoText LogModel LogStatus LogCoverage LogCoverageSafety LogClock LogStore.

(** ** Lists in key order *)

Definition increasing {A} (l : list (Z * A)) : Prop := StronglySorted (λ a b : Z * A, a.1 < b.1) l.

Lemma in_order_elem {A} (m : gmap Z A) k x : (k, x) ∈ in_order m ↔ m !! k = Some x.
Proof. unfold in_order. by rewrite merge_sort_Permutation, elem_of_map_to_list. Qed.

Lemma increasing_keys {A} (l : list (Z * A)) : increasing l → NoDup l.*1.
Proof.
  induction 1 as [|a l Hl IH Ha]; simpl; constructor; [|done].
  intros (b & Hb & Hin)%list_elem_of_fmap. rewrite Forall_forall in Ha. specialize (Ha _ Hin). lia.
Qed.

Lemma increasing_NoDup {A} (l : list (Z * A)) : increasing l → NoDup l.
Proof. intros H%increasing_keys. by eapply NoDup_fmap_1. Qed.

#[local] Instance by_key_trans {A} : Transitive (@by_key A).
Proof. unfold by_key. intros ? ? ? ? ?. lia. Qed.
#[local] Instance by_key_total {A} : Total (@by_key A).
Proof. unfold by_key. intros a b. lia. Qed.

Lemma in_order_increasing {A} (m : gmap Z A) : increasing (in_order m).
Proof.
  assert (Hs : StronglySorted by_key (in_order m)) by (apply StronglySorted_merge_sort; apply _).
  assert (Hk : NoDup (in_order m).*1).
  { unfold in_order. rewrite merge_sort_Permutation. apply NoDup_fst_map_to_list. }
  unfold increasing. induction Hs as [|a l Hs IH Ha]; constructor.
  - apply IH. by apply NoDup_cons in Hk as [_ ?].
  - apply NoDup_cons in Hk as [Hk _]. rewrite Forall_forall in *. intros b Hb. specialize (Ha b Hb).
    unfold by_key in Ha. assert (a.1 ≠ b.1); [|lia]. intros E. apply Hk. rewrite E. by apply list_elem_of_fmap_2.
Qed.

(** The list in key order is the only increasing list of the rows. *)
Lemma in_order_unique {A} (m : gmap Z A) l :
  increasing l → (∀ k x, (k, x) ∈ l ↔ m !! k = Some x) → in_order m = l.
Proof.
  intros Hl Hm. pose proof (in_order_increasing m) as Hi.
  eapply StronglySorted_unique_strong; [|exact Hi|exact Hl|].
  - simpl. intros; lia.
  - apply NoDup_Permutation; [by apply increasing_NoDup..|]. intros [k x]. by rewrite in_order_elem, Hm.
Qed.

Lemma filter_same {A} (P Q : A → Prop) `{∀ x, Decision (P x), ∀ x, Decision (Q x)} (l : list A) :
  (∀ x, x ∈ l → (P x ↔ Q x)) → filter P l = filter Q l.
Proof.
  induction l as [|x l IH]; intros Hl; [done|]. rewrite !filter_cons.
  specialize (IH (λ y Hy, Hl y (list_elem_of_further _ _ _ Hy))). destruct (Hl x ltac:(left)) as [? ?].
  destruct (decide (P x)), (decide (Q x)); try tauto; by rewrite IH.
Qed.

(** ** Coverage rows *)

Definition rows (db : LogDb) (s : Source) : list logCoverageSegment :=
  segment_of <$> in_order (coverage_of db s).
Definition row_of (s : logCoverageSegment) : Z * (Z * ReasonCode) :=
  (wall (sg_Start s), (wall (sg_End s), sg_Reason s)).

Lemma row_segment r : row_of (segment_of r) = r.
Proof. by destruct r as [? []]. Qed.

Lemma segment_row s : validLogSegment s = true → segment_of (row_of s) = s.
Proof.
  intros (? & ? & _)%validSegment_parts. destruct s as [a b r]. unfold segment_of, row_of. simpl in *.
  by rewrite <- (validUTC_At a), <- (validUTC_At b).
Qed.

Lemma chain_valid lo l s : chain lo l → s ∈ l → validLogSegment s = true ∧ lo ≤ wall (sg_Start s).
Proof.
  revert lo. induction l as [|x l IH]; intros lo; [by intros _ ?%not_elem_of_nil|].
  intros (Hlo & Hv & Hc) [-> |Hs]%elem_of_cons; [done|]. destruct (IH _ Hc Hs) as [? ?].
  apply validSegment_parts in Hv as (_ & _ & ?). split; [done|lia].
Qed.

Lemma chain_app lo l l' : chain lo (l ++ l') ↔ chain lo l ∧ chain (last_end lo l) l'.
Proof.
  revert lo. induction l as [|s l IH]; intros lo; [by split; [intros; split|intros []]|].
  rewrite <- app_comm_cons. cbn [chain]. rewrite IH, last_end_cons. tauto.
Qed.

Lemma chain_increasing lo l : chain lo l → increasing (row_of <$> l).
Proof.
  revert lo. induction l as [|s l IH]; intros lo; [constructor|]. intros (_ & Hv & Hc). constructor; [by eapply IH|].
  apply Forall_forall. intros r (s' & -> & Hs')%list_elem_of_fmap. destruct (chain_valid _ _ _ Hc Hs') as [_ ?].
  apply validSegment_parts in Hv as (_ & _ & ?). simpl. lia.
Qed.

Lemma rows_rows db s : row_of <$> rows db s = in_order (coverage_of db s).
Proof. unfold rows. rewrite <- list_fmap_compose. rewrite <- (list_fmap_id (in_order _)) at 2.
  apply list_fmap_ext. intros. apply row_segment. Qed.

Lemma rows_lookup db s k x : coverage_of db s !! k = Some x ↔ (k, x) ∈ row_of <$> rows db s.
Proof. by rewrite rows_rows, in_order_elem. Qed.

(** A table whose rows are those of an ordered list reads as that list. *)
Lemma rows_unique db s l lo :
  chain lo l → (∀ k x, coverage_of db s !! k = Some x ↔ (k, x) ∈ row_of <$> l) → rows db s = l.
Proof.
  intros Hc Hl. unfold rows. rewrite (in_order_unique _ (row_of <$> l)); [|by eapply chain_increasing|by intros; rewrite Hl].
  rewrite <- list_fmap_compose. rewrite <- (list_fmap_id l) at 2. apply list_fmap_ext. intros i x Hx.
  simpl. apply segment_row. eapply chain_valid; [done|]. by eapply list_elem_of_lookup_2.
Qed.

(** ** Reading coverage *)

Lemma scan_segments_spec found l out :
  scan_segments found l = Some out → out = found ++ l.
Proof.
  revert found. induction l as [|s l IH]; intros found; simpl; [intros [= <-]; by rewrite app_nil_r|].
  destruct (_ || _); [done|]. destruct (_ <? _); [done|]. intros ->%IH. by rewrite <- app_assoc.
Qed.

Lemma scan_segments_ok lo found l :
  chain lo (found ++ l) → Z.of_nat (length (found ++ l)) ≤ maxLogCoverageRows → scan_segments found l = Some (found ++ l).
Proof.
  revert found. induction l as [|s l IH]; intros found Hc Hn; simpl; [by rewrite app_nil_r|].
  assert (Hs : validLogSegment s = true) by (eapply chain_valid; [exact Hc|set_solver]).
  rewrite Hs. replace (match last found with Some l0 => After (sg_End l0) (sg_Start s) | None => false end) with false.
  2: { apply chain_app in Hc as [Hf Hc]. destruct Hc as (Hle & _ & _). unfold last_end in Hle.
       destruct (last found) as [x|] eqn:E; [|done]. symmetry.
       assert (Hx : validLogSegment x = true).
       { eapply chain_valid; [exact Hf|]. rewrite last_lookup in E. by eapply list_elem_of_lookup_2. }
       apply validSegment_parts in Hx as (_ & Hx & _). rewrite After_wall_l by auto with observer.
       apply Z.ltb_ge. lia. }
  rewrite length_app in Hn. simpl in Hn. rewrite length_app. simpl length.
  replace (maxLogCoverageRows <? _) with false by (symmetry; apply Z.ltb_ge; lia). simpl.
  replace (found ++ s :: l) with ((found ++ [s]) ++ l) by (by rewrite <- app_assoc).
  apply IH; rewrite <- app_assoc; [done|]. rewrite length_app. simpl. lia.
Qed.

Definition overlapping (start end_ : time) (l : list logCoverageSegment) : list logCoverageSegment :=
  filter (λ s, wall start < wall (sg_End s) ∧ wall (sg_Start s) < wall end_) l.

Lemma chain_filter lo l (P : logCoverageSegment → Prop) `{∀ s, Decision (P s)} : chain lo l → chain lo (filter P l).
Proof.
  revert lo. induction l as [|s l IH]; intros lo; [done|]. intros (Hlo & Hv & Hc). rewrite filter_cons.
  destruct (decide (P s)); [by split; [|split; [|apply IH]]|]. apply IH.
  apply validSegment_parts in Hv as (_ & _ & ?). eapply chain_weaken; [|done]. lia.
Qed.

(** What a load returns: all the overlapping rows. *)
Lemma loadLogCoverage_inv db s start end_ out :
  loadLogCoverage db s start end_ = Some out →
  out = overlapping start end_ (rows db s) ∧ validateUTC start = true ∧ validateUTC end_ = true.
Proof.
  unfold loadLogCoverage, encodeLogTime, validLogTime. destruct (validateUTC start); [|done].
  destruct (validateUTC end_); [|done]. fold (rows db s). fold (overlapping start end_ (rows db s)).
  set (l := overlapping start end_ (rows db s)). intros H. pose proof (scan_segments_spec _ _ _ H) as E. simpl in E.
  split; [|done]. rewrite E. apply take_ge.
  assert (Hlen : Z.of_nat (length (take (Z.to_nat (maxLogCoverageRows + 1)) l)) ≤ maxLogCoverageRows).
  { clear E. revert H. generalize (take (Z.to_nat (maxLogCoverageRows + 1)) l).
    assert (Hg : ∀ l found out, Z.of_nat (length found) ≤ maxLogCoverageRows → scan_segments found l = Some out →
              Z.of_nat (length out) ≤ maxLogCoverageRows).
    { clear. induction l as [|x l IH]; intros found out Hf; simpl; [by intros [= <-]|].
      destruct (_ || _); [done|]. destruct (_ <? _) eqn:E; [done|]. apply IH. by apply Z.ltb_ge in E. }
    intros l' H. rewrite <- (scan_segments_spec _ _ _ H : out = l'). eapply Hg; [|exact H].
    unfold maxLogCoverageRows. simpl. lia. }
  rewrite length_take in Hlen. unfold maxLogCoverageRows in *. lia.
Qed.

Lemma loadLogCoverage_ok db s start end_ :
  chain 0 (rows db s) → validateUTC start = true → validateUTC end_ = true →
  Z.of_nat (length (overlapping start end_ (rows db s))) ≤ maxLogCoverageRows →
  loadLogCoverage db s start end_ = Some (overlapping start end_ (rows db s)).
Proof.
  intros Hc Vs Ve Hn. unfold loadLogCoverage. rewrite !encode_valid by done. fold (rows db s).
  fold (overlapping start end_ (rows db s)).
  rewrite take_ge by (unfold maxLogCoverageRows in *; lia).
  apply (scan_segments_ok 0 []); [by apply chain_filter|done].
Qed.

(** ** Writing coverage *)

Definition starts (l : list logCoverageSegment) : list Z := (λ s, wall (sg_Start s)) <$> l.

Lemma fold_bind_none {A B} (f : B → A → option A) l :
  fold_left (λ acc x, acc ≫= λ t, f x t) l None = None.
Proof. by induction l. Qed.

Lemma by_start_wall l t u : wall t = wall u → by_start l t = by_start l u.
Proof. unfold by_start. by intros ->. Qed.

Lemma by_start_some l t s : by_start l t = Some s → s ∈ l ∧ wall (sg_Start s) = wall t.
Proof.
  unfold by_start. intros [Hin E]%find_some. split; [|by apply Z.eqb_eq in E].
  by apply list_elem_of_In, in_rev.
Qed.

Lemma by_start_none l t : by_start l t = None ↔ wall t ∉ starts l.
Proof.
  unfold starts. rewrite list_elem_of_fmap. split.
  - intros H (s & E & Hs). eapply find_none in H; [|apply -> in_rev; by apply list_elem_of_In]. simpl in H. lia.
  - intros H. destruct (by_start l t) as [s|] eqn:E; [|done]. apply by_start_some in E as [? ?]. exfalso. by eauto.
Qed.

Lemma by_start_unique l s : NoDup (starts l) → s ∈ l → by_start l (sg_Start s) = Some s.
Proof.
  intros Hn Hs. destruct (by_start l (sg_Start s)) as [s'|] eqn:E.
  - apply by_start_some in E as [Hs' E]. f_equal.
    apply list_elem_of_lookup in Hs as [i Hi], Hs' as [j Hj].
    assert (i = j) as ->; [|congruence]. eapply (NoDup_lookup _ _ _ (wall (sg_Start s))); [exact Hn|..];
      unfold starts; rewrite list_lookup_fmap; [by rewrite Hi|rewrite Hj; simpl; by rewrite E].
  - apply by_start_none in E. exfalso. apply E. by apply (list_elem_of_fmap_2 (λ s, wall (sg_Start s))).
Qed.

Lemma deletes_spec next old table table' k :
  fold_left (λ acc s, acc ≫= λ t, delete_segment next t s) old (Some table) = Some table' →
  table' !! k = if decide (k ∈ starts old ∧ k ∉ starts next) then None else table !! k.
Proof.
  revert table. induction old as [|s old IH]; intros table.
  - intros [= <-]. rewrite decide_False; [done|]. by intros [?%not_elem_of_nil _].
  - cbn [fold_left mbind option_bind]. unfold delete_segment at 2.
    destruct (by_start next (sg_Start s)) as [n|] eqn:Hn.
    + intros H. rewrite (IH _ H). apply decide_ext. apply by_start_some in Hn as [Hn E].
      change (starts (s :: old)) with (wall (sg_Start s) :: starts old). rewrite elem_of_cons.
      split; [tauto|]. intros [[-> |?] Hk]; [|done]. exfalso. apply Hk. rewrite <- E.
      by apply (list_elem_of_fmap_2 (λ s, wall (sg_Start s))).
    + destruct (encodeLogTime (sg_Start s)); simpl; [|by rewrite fold_bind_none]. intros H. rewrite (IH _ H).
      apply by_start_none in Hn. change (starts (s :: old)) with (wall (sg_Start s) :: starts old).
      destruct (decide (k = wall (sg_Start s))) as [-> |Hne].
      * rewrite lookup_delete_eq. rewrite (decide_True (P := _ ∈ _ :: _ ∧ _)) by (split; [by left|done]).
        by destruct (decide _).
      * rewrite lookup_delete_ne by done. apply decide_ext. rewrite elem_of_cons. tauto.
Qed.

Definition skipped (old : list logCoverageSegment) (s : logCoverageSegment) : bool :=
  match by_start old (sg_Start s) with Some previous => same_segment previous s | None => false end.

Lemma upserts_spec old next table table' k :
  NoDup (starts next) →
  fold_left (λ acc s, acc ≫= λ t, upsert_segment old t s) next (Some table) = Some table' →
  table' !! k = match by_start next (At k) with
                | Some s => if skipped old s then table !! k else Some (row_of s).2
                | None => table !! k
                end.
Proof.
  revert table. induction next as [|s next IH]; intros table Hn; [by intros [= <-]|].
  change (starts (s :: next)) with (wall (sg_Start s) :: starts next) in Hn. apply NoDup_cons in Hn as [Hs Hn].
  assert (Hcons : by_start (s :: next) (At k)
    = match by_start next (At k) with Some x => Some x | None => if wall (sg_Start s) =? k then Some s else None end).
  { unfold by_start. simpl. generalize (rev next). intros l. induction l as [|x l IHl]; simpl; [by destruct (_ =? _)|].
    by destruct (wall (sg_Start x) =? k). }
  rewrite Hcons. cbn [fold_left mbind option_bind]. unfold upsert_segment at 2. fold (skipped old s).
  assert (Hnone : k = wall (sg_Start s) → by_start next (At k) = None) by (intros ->; by apply by_start_none).
  destruct (skipped old s) eqn:Esk.
  - intros H. rewrite (IH _ Hn H). destruct (Z.eqb_spec (wall (sg_Start s)) k) as [E|E]; [|by destruct (by_start next (At k))].
    rewrite Hnone by done. by rewrite Esk.
  - destruct (encodeLogTime (sg_Start s)), (encodeLogTime (sg_End s)); try (by rewrite fold_bind_none).
    destruct (_ <? _); [|by rewrite fold_bind_none]. intros H. rewrite (IH _ Hn H).
    destruct (Z.eqb_spec (wall (sg_Start s)) k) as [E|E].
    + rewrite Hnone, Esk, <- E, lookup_insert_eq by done. done.
    + rewrite lookup_insert_ne by done. by destruct (by_start next (At k)).
Qed.

Lemma row_start s l : s ∈ l → wall (sg_Start s) ∈ starts l.
Proof. apply (list_elem_of_fmap_2 (λ s, wall (sg_Start s))). Qed.

Lemma row_in_starts k x l : (k, x) ∈ row_of <$> l → k ∈ starts l.
Proof. intros (y & [= -> _] & Hy)%list_elem_of_fmap. by apply row_start. Qed.

Lemma chain_starts lo l : chain lo l → NoDup (starts l).
Proof. intros Hl. apply chain_increasing, increasing_keys in Hl. by rewrite <- list_fmap_compose in Hl. Qed.

(** The delta write replaces the loaded rows by the new ones, and keeps the rest. *)
Lemma writeLogCoverage_rows db s pre old next db' lo :
  rows db s = pre ++ old → chain 0 (rows db s) → chain lo next → last_end 0 pre ≤ lo →
  writeLogCoverage db s old next = Some db' →
  rows db' s = pre ++ next ∧ ∃ m, db' = set_coverage db s m.
Proof.
  intros Hr Hc Hnext Hlo H. unfold writeLogCoverage, write_segments in H.
  destruct (fold_left _ old _) as [t1|] eqn:E1; [|by rewrite fold_bind_none in H].
  destruct (fold_left _ next _) as [t2|] eqn:E2; [|done]. simpl in H. injection H as <-.
  split; [|by eexists].
  assert (Hchain : chain 0 (pre ++ next)).
  { rewrite Hr in Hc. apply chain_app in Hc as [Hp _]. apply chain_app. split; [done|]. by eapply chain_weaken. }
  eapply rows_unique; [exact Hchain|]. intros k x.
  replace (coverage_of (set_coverage db s t2) s) with t2
    by (unfold coverage_of; simpl; by rewrite lookup_insert_eq).
  rewrite (upserts_spec _ _ _ _ k (chain_starts _ _ Hnext) E2), (deletes_spec _ _ _ _ k E1).
  assert (Hold : coverage_of db s !! k = Some x ↔ (k, x) ∈ row_of <$> (pre ++ old)) by (by rewrite rows_lookup, Hr).
  rewrite fmap_app, elem_of_app in Hold. rewrite fmap_app, elem_of_app.
  assert (Hpo : NoDup (starts (pre ++ old))) by (rewrite <- Hr; by eapply chain_starts).
  assert (Hpn : NoDup (starts (pre ++ next))) by (by eapply chain_starts).
  unfold starts in Hpo, Hpn. rewrite fmap_app in Hpo, Hpn.
  apply NoDup_app in Hpo as (_ & Hpo & Hno), Hpn as (_ & Hpn & _).
  destruct (by_start next (At k)) as [n|] eqn:En.
  - apply by_start_some in En as [Hin Hk]. simpl in Hk. subst k.
    replace (if skipped old n then _ else _) with (Some (row_of n).2).
    2: { destruct (skipped old n) eqn:Hsk; [|done]. unfold skipped in Hsk.
         destruct (by_start old (sg_Start n)) as [p|] eqn:Ep; [|done]. apply by_start_some in Ep as [Hp Ek].
         rewrite decide_False by (intros [_ []]; by apply row_start). symmetry. apply rows_lookup. rewrite Hr.
         unfold same_segment in Hsk. bools. apply list_elem_of_fmap. exists p. split; [|by apply elem_of_app; right].
         unfold row_of. simpl. congruence. }
    split.
    + intros [= <-]. right. apply (list_elem_of_fmap_2 row_of _ _ Hin).
    + intros [Hx|Hx]; [exfalso; eapply Hpn; [by eapply row_in_starts|by apply row_start]|].
      apply list_elem_of_fmap in Hx as (y & [= Ey -> ] & Hy). f_equal.
      apply (by_start_unique _ _ (chain_starts _ _ Hnext)) in Hin, Hy. rewrite (by_start_wall _ _ _ Ey), Hy in Hin.
      by injection Hin as ->.
  - apply by_start_none in En. simpl in En.
    assert (Hx : (k, x) ∉ row_of <$> next) by (intros ?%row_in_starts; done).
    destruct (decide (k ∈ starts old ∧ k ∉ starts next)) as [[Hko _]|Hko].
    + split; [done|]. intros [?%row_in_starts|?]; [|done]. by edestruct Hpo.
    + rewrite Hold. split; [|tauto]. intros [?|?%row_in_starts]; tauto.
Qed.
