(* ===== verification/LogStoreSafety.v ===== *)
(** * The invariant of the log store and what a commit does

    [store_ok] is what every read of the store relies on: state rows that decode to
    valid checkpoints and statuses, ordered evidence that ends by the last attempt,
    no positive evidence from before the eviction frontier, minute rows within
    their constraints and totals that stay JSON-safe.  A commit that succeeds keeps
    it; a commit is never refused because of what the store itself wrote. *)

From S2P Require Import Prelude GoTime GoText LogModel LogStatus LogCoverage LogCoverageSafety LogClock LogStore LogStoreTables.

(** ** The state row *)

Lemma encode_nullable t : validateUTCPointer t = true → ∃ s, nullableLogTime t = Some s ∧ scanNullableLogTime s = Some t.
Proof.
  destruct t as [t|]; [|by exists None]. cbn [validateUTCPointer]. intros Ht.
  exists (Some (FormatLogTime t)). simpl. rewrite encode_valid by done. split; [done|].
  by rewrite (decode_encode t) by by apply encode_valid.
Qed.

Lemma StatusAfterBatch_attempt b p : st_AttemptedAt (StatusAfterBatch b p) = Some (b_QueryStartedAt b).
Proof. unfold StatusAfterBatch. repeat case_match; done. Qed.

(** A stored state reads back exactly. *)
Lemma state_round_trip db s e st db' :
  0 < cp_Revision (ls_checkpoint st) ≤ MaxUint64 →
  Checkpoint_Validate (ls_checkpoint st) = true → Status_Validate (ls_status st) = true →
  st_AttemptedAt (ls_status st) = cp_PreviousAttemptAt (ls_checkpoint st) →
  writeLogState db s e st = Ok db' →
  loadLogState db' s = Some st ∧ ∃ r, db' = set_state db s r ∧ sr_revision r = FormatUint (cp_Revision (ls_checkpoint st)).
Proof.
  destruct st as [[rev reset opq prev cov] [sup col fr obs att scov rsn]]. simpl. intros Hr Hc Hs -> Hw.
  assert (Hparts : validateUTCPointer prev = true ∧ validateUTCPointer cov = true).
  { unfold Checkpoint_Validate in Hc. simpl in Hc. bools. split; [done|]. destruct cov; [|done]. by bools. }
  assert (Hsparts : validateUTCPointer obs = true ∧ validateUTCPointer scov = true).
  { unfold Status_Validate in Hs. simpl in Hs. by bools. }
  unfold writeLogState in Hw. simpl in Hw.
  destruct prev as [at_|]; [|done]. simpl in Hw. destruct Hparts as [Hat Hcov]. cbn [validateUTCPointer] in Hat.
  rewrite encode_valid in Hw by done.
  destruct (encode_nullable cov Hcov) as (c1 & E1 & D1). destruct Hsparts as [Hobs Hscov].
  destruct (encode_nullable obs Hobs) as (c2 & E2 & D2). destruct (encode_nullable scov Hscov) as (c3 & E3 & D3).
  rewrite E1, E2, E3 in Hw.
  assert (∃ r, db' = set_state db s r ∧ r = MkStateRow (FormatUint rev) reset opq (FormatLogTime at_) c1 sup col fr c2 c3 rsn)
    as (r & -> & ->).
  { destruct (ld_state db !! s) as [o|]; [destruct (str_eqb _ _); [|done]|]; injection Hw as <-; by eexists. }
  split; [|by eexists]. unfold loadLogState. simpl. rewrite lookup_insert_eq. simpl.
  rewrite ParseUint_FormatUint by (unfold MaxUint64 in *; lia).
  replace (rev =? 0) with false by lia. rewrite str_eqb_refl. simpl.
  rewrite (decode_encode at_) by by apply encode_valid. rewrite D1, D2, D3, Hc, Hs. done.
Qed.

Lemma loadLogState_inv db s st :
  loadLogState db s = Some st →
  Checkpoint_Validate (ls_checkpoint st) = true ∧ 0 ≤ cp_Revision (ls_checkpoint st) ≤ MaxUint64
  ∧ (ld_state db !! s = None ∧ st = zeroLogState
     ∨ (∃ row, ld_state db !! s = Some row ∧ sr_revision row = FormatUint (cp_Revision (ls_checkpoint st)))
       ∧ 0 < cp_Revision (ls_checkpoint st) ∧ Status_Validate (ls_status st) = true
       ∧ st_AttemptedAt (ls_status st) = cp_PreviousAttemptAt (ls_checkpoint st)).
Proof.
  unfold loadLogState. destruct (ld_state db !! s) as [row|]; [|intros [= <-]; repeat split; vm_compute; by auto].
  destruct (ParseUint (sr_revision row) 64) as [rev|] eqn:Ep; [|done].
  assert (0 ≤ rev ≤ MaxUint64).
  { apply ParseUint_range in Ep. done. }
  destruct (_ || _) eqn:E0; [done|]. apply orb_false_iff in E0 as [E0 Er]. bools.
  destruct (decodeLogTime (sr_attempted_at row)), (scanNullableLogTime (sr_coverage_through row)),
    (scanNullableLogTime (sr_observed_at row)), (scanNullableLogTime (sr_status_coverage_through row)); try done.
  destruct (Checkpoint_Validate _) eqn:Ec; [|done]. destruct (Status_Validate _) eqn:Es; [|done].
  intros [= <-]. simpl. split; [done|]. split; [done|]. right. split; [by exists row; rewrite Er|]. split; [lia|done].
Qed.

(** ** The next checkpoint *)

Lemma ReadRequest_order s cp q :
  ReadRequest_Validate (MkReadRequest s cp q) = true →
  Source_Validate s = true ∧ Checkpoint_Validate cp = true ∧ validateUTC q = true
  ∧ ∀ p, cp_PreviousAttemptAt cp = Some p → validateUTC p = true ∧ wall p < wall q.
Proof.
  unfold ReadRequest_Validate. cbn [rq_Source rq_Checkpoint rq_QueryStartedAt]. rewrite !andb_true_iff.
  intros [[[[Hs Hc] Hq] Hp] _]. do 3 (split; [done|]). intros p E. rewrite E in Hp.
  rewrite After_wall_l in Hp by auto with observer. bools. split; [|done].
  unfold Checkpoint_Validate in Hc. rewrite E in Hc. by bools.
Qed.

Lemma next_checkpoint_valid cp b :
  Checkpoint_Validate cp = true → 0 ≤ cp_Revision cp < MaxUint64 → Batch_Validate b = true →
  (∀ p, cp_PreviousAttemptAt cp = Some p → wall p < wall (b_QueryStartedAt b)) →
  ¬ (cp_ResetPending cp = true ∧ b_Kind b = BatchNormal) →
  Checkpoint_Validate (next_checkpoint cp b) = true ∧ cp_Revision (next_checkpoint cp b) = cp_Revision cp + 1
  ∧ cp_PreviousAttemptAt (next_checkpoint cp b) = Some (b_QueryStartedAt b).
Proof.
  intros Hc Hr Hb Hp Hreset. unfold next_checkpoint. rewrite wrap_u64_id by lia.
  pose proof Hb as (Hq & _)%Batch_Validate_parts.
  assert (Hopaque : slen (b_NextOpaque b) ≤ MaxCheckpointBytes) by (unfold Batch_Validate in Hb; bools; lia).
  unfold Checkpoint_Validate in Hc. destruct cp as [rev reset opq prev cov]. simpl in *. bools.
  assert (Hcov : ∀ c, cov = Some c → validateUTC c = true ∧ After c (b_QueryStartedAt b) = false).
  { intros c ->. bools. destruct prev as [p|]; [|done]. split; [done|].
    rewrite After_wall_l in * by auto with observer. bools. specialize (Hp p eq_refl). lia. }
  assert (Hgen : ∀ rp o c, slen o ≤ MaxCheckpointBytes → (rp = true → slen o = 0) →
    (∀ x, c = Some x → validateUTC x = true ∧ After x (b_QueryStartedAt b) = false) →
    Checkpoint_Validate (MkCheckpoint (rev + 1) rp o (Some (b_QueryStartedAt b)) c) = true).
  { intros rp o c Ho Hrp Hx. unfold Checkpoint_Validate. simpl. rewrite Hq.
    replace (MaxCheckpointBytes <? slen o) with false by lia. replace (rev + 1 =? 0) with false by lia.
    replace (0 <? rev + 1) with true by lia. rewrite !andb_false_r. simpl.
    replace (rp && negb (slen o =? 0)) with false by (destruct rp; [rewrite Hrp by done; done|done]). simpl.
    destruct c as [c|]; [|done]. destruct (Hx c eq_refl) as [-> ->]. done. }
  assert (Hempty : slen "" ≤ MaxCheckpointBytes) by done.
  destruct (b_Kind b) eqn:Hk; simpl; (split; [|done]).
  - apply Hgen; [destruct (0 <? slen (b_NextOpaque b)); lia| |].
    + intros ->. exfalso. by apply Hreset.
    + destruct (b_CaughtUp b); [|done]. intros x [= <-]. split; [done|].
      rewrite After_wall_l by auto with observer. lia.
  - by apply Hgen.
  - by apply Hgen.
  - unfold Batch_Validate in Hb. rewrite Hk in Hb. done.
Qed.

(** ** The evidence of a batch *)

(** From when on a batch accounts for its source: the previous attempt, or five
    minutes before a first one, within the retention. *)
Definition accounted_from (cp : Checkpoint) (q : time) : Z :=
  Z.max (match cp_PreviousAttemptAt cp with Some p => wall p | None => wall q - 5 * Minute end)
        (Z.max 1 (wall q - logRetention)).

(** The reason a batch states for an instant. *)
Definition stated (cp : Checkpoint) (b : Batch) (x : Z) : ReasonCode :=
  if (b_Kind b == BatchNormal) && b_CaughtUp b
  then if is_some (cp_PreviousAttemptAt cp) && (x <? wall (b_QueryStartedAt b) - Minute)
       then ReasonMissedCollection else ReasonEmpty
  else match reason_or_empty (b_ReasonCode b) with
       | ReasonNoVisibleJournal | ReasonLogHelperUnavailable | ReasonLogHelperMismatch
       | ReasonPlatformUnsupported => ReasonReaderFailed
       | r => r
       end.

Lemma logRetentionFloor_wall q age :
  wallclock q → wall (logRetentionFloor q age) = Z.max 1 (wall q - age) ∧ wallclock (logRetentionFloor q age).
Proof.
  intros Hq. unfold logRetentionFloor.
  rewrite Before_wall_l by by apply Add_wallclock. rewrite wall_Add. simpl.
  destruct (_ <? 1) eqn:E; bools; simpl; [split; [lia|done]|]. split; [lia|by apply Add_wallclock].
Qed.

Lemma evidence_cons x s l : evidence x (s :: l) = (if in_seg x s then [sg_Reason s] else []) ++ evidence x l.
Proof. unfold evidence. rewrite filter_cons. destruct (in_seg x s); [by rewrite decide_True|by rewrite decide_False]. Qed.

Lemma in_seg_range x a b r : in_seg x (MkSeg a b r) = (wall a <=? x) && (x <? wall b).
Proof. done. Qed.

Lemma derive_checks cp b adds :
  deriveLogCoverage cp b = Ok adds →
  Batch_Validate b = true ∧ ReadRequest_Validate (MkReadRequest (b_Source b) cp (b_QueryStartedAt b)) = true
  ∧ cp_Revision cp = b_ExpectedRevision b ∧ ¬ (cp_ResetPending cp = true ∧ b_Kind b = BatchNormal).
Proof.
  unfold deriveLogCoverage. destruct (Batch_Validate b); [|done]. destruct (ReadRequest_Validate _); [|done]. simpl.
  destruct (_ =? _) eqn:E; [|done]. simpl. destruct (_ && _) eqn:E2; [done|]. intros _. bools.
  do 3 (split; [done|]). intros [H1 H2]. by rewrite H1, H2 in E2.
Qed.

Lemma derive_accounts cp b adds x :
  deriveLogCoverage cp b = Ok adds →
  forallb validLogSegment adds = true ∧ (length adds ≤ 2)%nat
  ∧ evidence x adds = if (accounted_from cp (b_QueryStartedAt b) <=? x) && (x <? wall (b_QueryStartedAt b))
                      then [stated cp b x] else [].
Proof.
  intros H. destruct (derive_checks _ _ _ H) as (_ & Hrr & _ & _).
  apply ReadRequest_order in Hrr as (_ & _ & Hq & Hp).
  unfold deriveLogCoverage in H. do 7 (case_match; [done|]). cbv zeta in H.
  assert (Wq : wallclock (b_QueryStartedAt b)) by auto with observer.
  set (q := b_QueryStartedAt b) in *.
  destruct (logRetentionFloor_wall q logRetention Wq) as [Hf Wf].
  set (s0 := match cp_PreviousAttemptAt cp with Some p => p | None => Add q (- (5 * Minute)) end) in *.
  assert (Ws : wallclock s0).
  { unfold s0. destruct (cp_PreviousAttemptAt cp) as [p|]; [|by apply Add_wallclock].
    destruct (Hp p eq_refl). auto with observer. }
  set (start := if Before s0 _ then _ else _) in *.
  assert (Wstart : wallclock start) by (unfold start; by destruct (Before _ _)).
  assert (Hstart : wall start = accounted_from cp q).
  { unfold start, accounted_from. rewrite Before_wall_l by done.
    replace (match cp_PreviousAttemptAt cp with Some p => wall p | None => _ end) with (wall s0)
      by (unfold s0; destruct (cp_PreviousAttemptAt cp); [done|by rewrite wall_Add]).
    destruct (_ <? _) eqn:E; bools; lia. }
  rewrite <- Hstart. clearbody start s0. rewrite Before_wall_l in H by done.
  destruct (wall start <? wall q) eqn:Elt; simpl in H; bools.
  2: { injection H as <-. split; [done|]. split; [simpl; lia|]. unfold evidence. simpl.
       destruct (Z.leb_spec (wall start) x), (Z.ltb_spec x (wall q)); done || lia. }
  rewrite Before_wall_l, wall_Add in H by done. unfold stated. fold q.
  assert (Hdone : ∀ l, (if forallb validLogSegment l then Ok l else Err ErrCoverage) = Ok adds →
    (length l ≤ 2)%nat → forallb validLogSegment adds = true ∧ (length adds ≤ 2)%nat ∧ adds = l).
  { intros l Hl Hn. destruct (forallb _ l) eqn:Ef; [|done]. injection Hl as <-. done. }
  destruct ((b_Kind b == BatchNormal) && b_CaughtUp b) eqn:Ec.
  - destruct (is_some (cp_PreviousAttemptAt cp) && (wall start <? wall q + - Minute)) eqn:Em.
    + apply Hdone in H as (Hv1 & Hv2 & ->); [|simpl; lia]. do 2 (split; [done|]). apply andb_true_iff in Em as [-> Em].
      bools. rewrite !evidence_cons, !in_seg_range, wall_Add. simpl. unfold evidence. simpl.
      destruct (Z.leb_spec (wall start) x), (Z.ltb_spec x (wall q + - Minute)), (Z.ltb_spec x (wall q - Minute)),
        (Z.leb_spec (wall q + - Minute) x), (Z.ltb_spec x (wall q)); unfold Minute, Second in *; simpl; done || lia.
    + apply Hdone in H as (Hv1 & Hv2 & ->); [|simpl; lia]. do 2 (split; [done|]).
      rewrite !evidence_cons, !in_seg_range. unfold evidence. simpl.
      destruct (is_some _); simpl; simpl in Em; bools;
      destruct (Z.leb_spec (wall start) x), (Z.ltb_spec x (wall q - Minute)), (Z.ltb_spec x (wall q)); simpl; done || lia.
  - destruct (b_ReasonCode b) as [reason|]; [|done]. simpl.
    apply Hdone in H as (Hv1 & Hv2 & ->); [|simpl; lia]. do 2 (split; [done|]).
    rewrite !evidence_cons, !in_seg_range. unfold evidence. cbn [sg_Reason]. rewrite filter_nil, app_nil_r.
    destruct ((wall start <=? x) && (x <? wall q)); [by destruct reason|done].
Qed.

(** ** Counts *)

Definition counts_at (m : gmap Z BucketCounts) (k : Z) : BucketCounts := default zeroBucketCounts (m !! k).
(** [x] counts for the minute [k]: not before the floor, and in that minute. *)
Definition counts_for (floor at_ : time) (k : Z) : bool :=
  negb (Before at_ floor) && (wall (Truncate at_ Minute) =? k).

Lemma tally_none {A} (at_of : A → time) f floor items : tally at_of f floor items None = None.
Proof. by induction items. Qed.

Lemma tally_cons {A} (at_of : A → time) f floor x items m :
  tally at_of f floor (x :: items) (Some m)
  = tally at_of f floor items (if Before (at_of x) floor then Some m else count_at (at_of x) (f x) m).
Proof. done. Qed.

Lemma tally_spec {A} (at_of : A → time) f floor items m m' k :
  tally at_of f floor items (Some m) = Some m' →
  counts_at m' k = fold_left (λ c x, if counts_for floor (at_of x) k then f x c else c) items (counts_at m k).
Proof.
  revert m. induction items as [|x items IH]; intros m; [by intros [= <-]|].
  rewrite tally_cons. cbn [fold_left]. unfold counts_for at 2. destruct (Before (at_of x) floor); cbn [negb andb]; [apply IH|].
  unfold count_at. destruct (encodeLogTime _); [|by rewrite tally_none]. intros H. rewrite (IH _ H). f_equal.
  unfold counts_at. destruct (Z.eqb_spec (wall (Truncate (at_of x) Minute)) k) as [<-|Hne];
    [by rewrite lookup_insert_eq|by rewrite lookup_insert_ne].
Qed.

(** The keys a tally touches are valid whole minutes. *)
Definition minute_key (k : Z) : Prop := validateUTC (At k) = true ∧ k mod Minute = 0.

Lemma tally_keys {A} (at_of : A → time) f floor items m m' :
  (∀ k c, m !! k = Some c → minute_key k) → tally at_of f floor items (Some m) = Some m' →
  ∀ k c, m' !! k = Some c → minute_key k.
Proof.
  revert m. induction items as [|x items IH]; intros m Hm; [by intros [= <-]|].
  rewrite tally_cons. destruct (Before (at_of x) floor); [by apply IH|].
  unfold count_at, encodeLogTime, validLogTime. destruct (validateUTC _) eqn:Hv; [|by rewrite tally_none].
  apply IH. intros k c. destruct (decide (k = wall (Truncate (at_of x) Minute))) as [-> |Hne];
    [|rewrite lookup_insert_ne by done; apply Hm].
  intros _. split; [by rewrite <- (validUTC_At _ Hv)|]. unfold Truncate. simpl.
  destruct (Minute <=? 0) eqn:E; [done|]. simpl.
  rewrite <- Zminus_mod_idemp_r, Z.mod_mod, Zminus_mod_idemp_r, Z.sub_diag by done. done.
Qed.

Lemma batch_minutes_inv b floor m :
  batch_minutes b floor = Some m →
  (∀ k c, m !! k = Some c → minute_key k)
  ∧ ∀ k, counts_at m k
      = fold_left (λ c x, if counts_for floor (dc_At x) k then count_discard x c else c) (b_Discards b)
          (fold_left (λ c x, if counts_for floor (ev_ObservedAt x) k then count_event x c else c) (b_Events b)
             zeroBucketCounts).
Proof.
  unfold batch_minutes. intros H. destruct (tally ev_ObservedAt _ _ _ _) as [m1|] eqn:E1.
  - split.
    + eapply tally_keys; [|exact H]. eapply tally_keys; [|exact E1]. done.
    + intros k. rewrite (tally_spec _ _ _ _ _ _ k H), (tally_spec _ _ _ _ _ _ k E1). done.
  - by rewrite tally_none in H.
Qed.

Lemma add_counts_zero c : add_counts c zeroBucketCounts = c.
Proof. destruct c as [a d []]. unfold add_counts. simpl. rewrite !Z.add_0_r. done. Qed.
Lemma zero_add_counts c : add_counts zeroBucketCounts c = c.
Proof. destruct c as [a d []]. done. Qed.

Lemma upsert_minutes_spec table l table' :
  NoDup l.*1 → upsert_minutes table l = Some table' →
  (∀ k c, (k, c) ∈ l → counts_at table' k = add_counts (counts_at table k) c ∧ minute_check (counts_at table' k) = true)
  ∧ (∀ k, k ∉ l.*1 → table' !! k = table !! k)
  ∧ (∀ k c, table' !! k = Some c → k ∈ l.*1 ∨ table !! k = Some c).
Proof.
  unfold upsert_minutes. revert table. induction l as [|[k0 c0] l IH]; intros table.
  { intros _ [= <-]. repeat split; auto; intros; set_solver. }
  cbn [fold_left fmap list_fmap]. intros [Hk Hn]%NoDup_cons. cbn [mbind option_bind]. unfold upsert_minute at 2. simpl.
  set (c1 := match table !! k0 with Some old => add_counts old c0 | None => c0 end).
  assert (Hc1 : c1 = add_counts (counts_at table k0) c0).
  { unfold c1, counts_at. destruct (table !! k0); [done|]. simpl. by rewrite zero_add_counts. }
  destruct (minute_check c0 && minute_check c1) eqn:Hchk; [|by rewrite (fold_bind_none (λ x t, upsert_minute t x))].
  bools. intros Hf. destruct (IH _ Hn Hf) as (I1 & I2 & I3). clear IH.
  assert (Hat : counts_at table' k0 = c1).
  { unfold counts_at. rewrite I2 by done. by rewrite lookup_insert_eq. }
  split; [|split].
  - intros k c [[= -> ->]|Hin]%elem_of_cons; [rewrite Hat, Hc1; split; [done|by rewrite <- Hc1]|].
    destruct (I1 _ _ Hin) as [E1 ?]. split; [|done]. rewrite E1. f_equal. unfold counts_at. rewrite lookup_insert_ne; [done|].
    intros ->. apply Hk. by apply (list_elem_of_fmap_2 fst) in Hin.
  - intros k [Hk0 Hkl]%not_elem_of_cons. rewrite I2 by done. by rewrite lookup_insert_ne.
  - intros k c Hc. destruct (I3 _ _ Hc) as [?|Hc']; [left; by right|].
    destruct (decide (k = k0)) as [-> |Hne]; [left; left|]. right. by rewrite lookup_insert_ne in Hc'.
Qed.

(** What [writeLogMinutes] does to a table of valid minutes. *)
Lemma writeLogMinutes_spec db b floor db' :
  (∀ k c, minutes_of db (b_Source b) !! k = Some c → minute_key k ∧ minute_check c = true) →
  writeLogMinutes db b floor = Some db' →
  ∃ m, db' = set_minutes db (b_Source b) m
    ∧ (∀ k c, m !! k = Some c → minute_key k ∧ minute_check c = true)
    ∧ ∀ k, counts_at m k = add_counts (counts_at (minutes_of db (b_Source b)) k)
             (fold_left (λ c x, if counts_for floor (dc_At x) k then count_discard x c else c) (b_Discards b)
               (fold_left (λ c x, if counts_for floor (ev_ObservedAt x) k then count_event x c else c) (b_Events b)
                 zeroBucketCounts)).
Proof.
  intros Hold. unfold writeLogMinutes. destruct (batch_minutes b floor) as [bm|] eqn:Eb; [|done].
  destruct (batch_minutes_inv _ _ _ Eb) as [Hkeys Hcounts].
  destruct (upsert_minutes _ _) as [m|] eqn:Eu; [|done]. simpl. intros [= <-]. exists m. split; [done|].
  destruct (upsert_minutes_spec _ _ _ (increasing_keys _ (in_order_increasing bm)) Eu) as (U1 & U2 & U3).
  assert (Hin : ∀ k, k ∈ (in_order bm).*1 ↔ is_Some (bm !! k)).
  { intros k. rewrite list_elem_of_fmap. split.
    - intros ([k' c] & -> & Hc). apply in_order_elem in Hc. by eexists.
    - intros [c Hc]. exists (k, c). split; [done|]. by apply in_order_elem. }
  split.
  - intros k c Hc. destruct (decide (k ∈ (in_order bm).*1)) as [Hk|Hk].
    + apply Hin in Hk as [c' Hc']. destruct (U1 k c') as [_ Hchk]; [by apply in_order_elem|].
      unfold counts_at in Hchk. rewrite Hc in Hchk. split; [by eapply Hkeys|done].
    + rewrite U2 in Hc by done. by apply Hold.
  - intros k. rewrite <- Hcounts. destruct (bm !! k) as [c|] eqn:Ek.
    + destruct (U1 k c) as [E _]; [by apply in_order_elem|]. rewrite E. f_equal. unfold counts_at. by rewrite Ek.
    + unfold counts_at at 1 3. rewrite U2, Ek by (rewrite Hin, Ek; by intros []). simpl. by rewrite add_counts_zero.
Qed.

(** ** The invariant *)

Record source_ok (db : LogDb) (s : Source) : Prop := {
  sk_state : ∃ st, loadLogState db s = Some st
    ∧ (∀ seg, seg ∈ rows db s → ∃ a, cp_PreviousAttemptAt (ls_checkpoint st) = Some a ∧ wall (sg_End seg) ≤ wall a)
    ∧ (0 < cp_Revision (ls_checkpoint st) → validateSourceStatus (ls_status st) = true);
  sk_rows : chain 0 (rows db s);
  sk_minutes : ∀ k c, minutes_of db s !! k = Some c → minute_key k ∧ minute_check c = true;
  sk_frontier : ∃ f, loadLogEvictionFrontier db s = Some f
    ∧ ∀ t, f = Some t → ∀ seg, seg ∈ rows db s → sg_Reason seg = ReasonEmpty → wall t ≤ wall (sg_Start seg) }.

Record store_ok (db : LogDb) : Prop := {
  so_sources : ∀ s, Source_Validate s = true → source_ok db s;
  so_tables : ∀ s, is_Some (ld_minutes db !! s) → Source_Validate s = true;
  so_captured : sum_minutes bc_Captured db ≤ MaxSafeInteger;
  so_discarded : sum_minutes bc_Discarded db ≤ MaxSafeInteger }.

(** A source's part of the invariant looks only at its own rows. *)
Lemma source_ok_ext db db' s :
  ld_state db' !! s = ld_state db !! s → coverage_of db' s = coverage_of db s → minutes_of db' s = minutes_of db s →
  ld_meta db' = ld_meta db → source_ok db s → source_ok db' s.
Proof.
  intros E1 E2 E3 E4 [H1 H2 H3 H4].
  assert (Er : rows db' s = rows db s) by (unfold rows; by rewrite E2).
  assert (El : loadLogState db' s = loadLogState db s) by (unfold loadLogState; by rewrite E1).
  assert (Ef : loadLogEvictionFrontier db' s = loadLogEvictionFrontier db s)
    by (unfold loadLogEvictionFrontier; by rewrite E4).
  split; rewrite ?Er, ?El, ?Ef, ?E3; done.
Qed.

(** ** A commit that succeeds *)

(** The rows before the retention floor, and the rest. *)
Definition before (floor : time) (l : list logCoverageSegment) : list logCoverageSegment :=
  filter (λ s, wall (sg_End s) ≤ wall floor) l.

Lemma before_chain lo floor l :
  chain lo l →
  l = before floor l ++ filter (λ s, wall floor < wall (sg_End s)) l ∧ last_end lo (before floor l) ≤ Z.max lo (wall floor).
Proof.
  revert lo. induction l as [|s l IH]; intros lo; [unfold last_end; simpl; split; [done|lia]|].
  intros (Hlo & Hv & Hc). apply validSegment_parts in Hv as (_ & _ & Hlt). unfold before. rewrite !filter_cons.
  destruct (decide (wall (sg_End s) ≤ wall floor)) as [Hle|Hgt].
  - rewrite (decide_False (P := wall floor < _)) by lia. destruct (IH _ Hc) as [E El].
    rewrite last_end_cons. fold (before floor l). simpl. split; [by f_equal|lia].
  - rewrite (decide_True (P := wall floor < _)) by lia.
    assert (Hall : ∀ s', s' ∈ l → wall floor < wall (sg_End s')).
    { intros s' Hs'. destruct (chain_valid _ _ _ Hc Hs') as [(_ & _ & ?)%validSegment_parts ?]. lia. }
    assert (before floor l = []) as E.
    { apply elem_of_nil_inv. intros x [Hx Hin]%list_elem_of_filter. specialize (Hall x Hin). lia. }
    fold (before floor l). rewrite E. simpl. split; [|unfold last_end; simpl; lia]. f_equal. clear -Hall.
    induction l as [|x l IH]; [done|]. rewrite filter_cons, decide_True by (apply Hall; left). f_equal.
    apply IH. intros. apply Hall. by right.
Qed.

Definition raised (floor : time) (frontier : option time) : time :=
  match frontier with Some f => if After f floor then f else floor | None => floor end.

(** What a successful commit found and did, step by step. *)
Lemma commit_tables_inv age db b db' :
  commit_tables age db b = Ok db' →
  ∃ prior adds db1 old frontier segments db2 db3,
    let q := b_QueryStartedAt b in let floor := logRetentionFloor q (Z.min age logRetention) in
    loadLogState db (b_Source b) = Some prior
    ∧ cp_Revision (ls_checkpoint prior) = b_ExpectedRevision b ∧ b_ExpectedRevision b ≠ MaxUint64
    ∧ deriveLogCoverage (ls_checkpoint prior) b = Ok adds
    ∧ writeLogMinutes db b floor = Some db1
    ∧ loadLogCoverage db1 (b_Source b) floor q = Some old ∧ loadLogEvictionFrontier db1 (b_Source b) = Some frontier
    ∧ (if Before (raised floor frontier) q then mergeLogCoverage old adds (raised floor frontier) q else Some [])
      = Some segments
    ∧ writeLogCoverage db1 (b_Source b) old segments = Some db2
    ∧ writeLogState db2 (b_Source b) (b_ExpectedRevision b)
        (MkLogState (next_checkpoint (ls_checkpoint prior) b) (StatusAfterBatch b (ls_status prior))) = Ok db3
    ∧ db' = db3 ∧ sum_minutes bc_Captured db3 ≤ MaxSafeInteger ∧ sum_minutes bc_Discarded db3 ≤ MaxSafeInteger.
Proof.
  unfold commit_tables. intros H.
  destruct (loadLogState db (b_Source b)) as [prior|] eqn:E1; [|done].
  destruct (_ =? _) eqn:E2; [|done]. cbn [negb] in H. destruct (b_ExpectedRevision b =? MaxUint64) eqn:E3; [done|].
  destruct (deriveLogCoverage _ b) as [adds|[]] eqn:E4; try done.
  destruct (writeLogMinutes db b _) as [db1|] eqn:E5; [|done].
  destruct (loadLogCoverage db1 _ _ _) as [old|] eqn:E6; [|done].
  destruct (loadLogEvictionFrontier db1 _) as [frontier|] eqn:E7; [|done].
  destruct (if Before _ _ then _ else _) as [segments|] eqn:E8; [|done].
  destruct (maxLogCoverageRows <? _); [done|].
  destruct (writeLogCoverage db1 _ _ _) as [db2|] eqn:E9; [|done].
  destruct (_ || _); [done|].
  destruct (writeLogState db2 _ _ _) as [db3|] eqn:E10; [|done].
  destruct (_ || _) eqn:E11; [done|]. injection H as <-. bools.
  exists prior, adds, db1, old, frontier, segments, db2, db3. by repeat split.
Qed.

Lemma validUTC_floor q age :
  validateUTC q = true → 0 < age → validateUTC (logRetentionFloor q age) = true ∧ wall (logRetentionFloor q age) ≤ wall q.
Proof.
  intros Hq Ha. rewrite (validUTC_At q Hq) in *. unfold validateUTC, year_ok, IsZero in *. simpl in Hq. bools.
  unfold logRetentionFloor. rewrite Before_wall_l by done. simpl. destruct (_ <? 1) eqn:E; bools; simpl; [split; lia|].
  replace (wall q + - age =? 0) with false by lia. replace (0 <=? wall q + - age) with true by lia.
  replace (wall q + - age <? year10000) with true by lia. split; [done|lia].
Qed.

Section commit.
Variables (age : Z) (db db' : LogDb) (b : Batch).
Hypotheses (Hage : 0 < age) (Hok : store_ok db) (Hcommit : commit_tables age db b = Ok db').
#[local] Abbreviation s := (b_Source b).
#[local] Abbreviation q := (b_QueryStartedAt b).
#[local] Abbreviation floor := (logRetentionFloor (b_QueryStartedAt b) (Z.min age logRetention)).

Record committed (prior : logState) (frontier : option time) : Prop := {
  cm_prior : loadLogState db s = Some prior;
  cm_revision : cp_Revision (ls_checkpoint prior) = b_ExpectedRevision b ∧ b_ExpectedRevision b < MaxUint64;
  cm_batch : Batch_Validate b = true;
  cm_source : Source_Validate s = true;
  cm_frontier : loadLogEvictionFrontier db s = Some frontier;
  cm_state : loadLogState db' s
    = Some (MkLogState (next_checkpoint (ls_checkpoint prior) b) (StatusAfterBatch b (ls_status prior)));
  cm_rows : ∃ segments, rows db' s = before floor (rows db s) ++ segments
    ∧ chain (wall (raised floor frontier)) segments ∧ last_end (wall floor) segments ≤ wall q;
  cm_reasons : ∀ x, wall (raised floor frontier) ≤ x → reason_at (rows db' s) x
    = if x <? wall q
      then strongest (evidence x (rows db s)
             ++ (if accounted_from (ls_checkpoint prior) q <=? x then [stated (ls_checkpoint prior) b x] else []))
      else None;
  cm_minutes : ∀ k, counts_at (minutes_of db' s) k = add_counts (counts_at (minutes_of db s) k)
      (fold_left (λ c x, if counts_for floor (dc_At x) k then count_discard x c else c) (b_Discards b)
        (fold_left (λ c x, if counts_for floor (ev_ObservedAt x) k then count_event x c else c) (b_Events b)
          zeroBucketCounts));
  cm_others : ∀ s', s' ≠ s → ld_state db' !! s' = ld_state db !! s' ∧ coverage_of db' s' = coverage_of db s'
    ∧ minutes_of db' s' = minutes_of db s';
  cm_meta : ld_meta db' = ld_meta db;
  cm_store : store_ok db' }.

Lemma raised_spec f : 1 ≤ wall floor → validateUTC floor = true → (∀ t, f = Some t → validateUTC t = true) →
  wall floor ≤ wall (raised floor f) ∧ validateUTC (raised floor f) = true
  ∧ ∀ t, f = Some t → wall t ≤ wall (raised floor f).
Proof.
  intros H1 Hv Hf. unfold raised. destruct f as [t|]; [|repeat split; [lia|done|done]].
  specialize (Hf t eq_refl). rewrite After_wall_l by auto with observer.
  destruct (wall floor <? wall t) eqn:E; bools; repeat split; try lia; try done; intros ? [= <-]; lia.
Qed.

Lemma evidence_app x l l' : evidence x (l ++ l') = evidence x l ++ evidence x l'.
Proof. unfold evidence. by rewrite filter_app, fmap_app. Qed.

Lemma chain_end lo l seg : chain lo l → seg ∈ l → wall (sg_End seg) ≤ last_end lo l.
Proof.
  revert lo. induction l as [|x l IH]; intros lo; [by intros _ ?%not_elem_of_nil|].
  intros (_ & _ & Hc). rewrite last_end_cons. intros [-> |Hin]%elem_of_cons; [by apply chain_last|by eapply IH].
Qed.

(** Evidence that ended by [y] says nothing from [y] on. *)
Lemma evidence_before l x : wall floor ≤ x → evidence x (before floor l) = [].
Proof.
  intros Hx. unfold evidence, before. rewrite list_filter_filter.
  replace (filter _ l) with (@nil logCoverageSegment); [done|]. symmetry. apply elem_of_nil_inv.
  intros seg [[Hs He] _]%list_elem_of_filter. unfold in_seg in Hs. apply andb_true_iff in Hs as [_ Hs]. lia.
Qed.

(** The merge of a commit, also when eviction left nothing to merge. *)
Lemma merged_spec old adds floor' segments :
  validateUTC floor' = true → validateUTC q = true → wall q ≤ wall floor' + logRetention → wall floor ≤ wall floor' →
  wall floor ≤ wall q → chain 0 old → forallb validLogSegment adds = true → (length adds ≤ 2)%nat →
  (if Before floor' q then mergeLogCoverage old adds floor' q else Some []) = Some segments →
  chain (wall floor') segments ∧ last_end (wall floor) segments ≤ wall q
  ∧ ∀ x, wall floor' ≤ x → reason_at segments x = if x <? wall q then strongest (evidence x old ++ evidence x adds) else None.
Proof.
  intros Vf Vq Hret Hle Hfq Hold Hv Hn. rewrite Before_wall_l by auto with observer.
  destruct (wall floor' <? wall q) eqn:E; bools.
  - destruct (mergeLogCoverage_strongest old adds floor' q Vf Vq ltac:(lia) Hold Hv Hn) as (out & -> & Hc & Hl & Hx).
    intros [= <-]. split; [done|]. split.
    + unfold last_end in *. destruct (last out); [done|]. lia.
    + intros x Hge. rewrite Hx. unfold in_window. replace (wall floor' <=? x) with true by lia. simpl.
      destruct (x <? wall q); [|done]. unfold evidence. by rewrite filter_app, fmap_app.
  - intros [= <-]. split; [done|]. split; [done|]. intros x Hx. by replace (x <? wall q) with false by lia.
Qed.

(** Rows that end by the last attempt are all seen by the commit's query. *)
Lemma seen_rows p :
  (∀ seg, seg ∈ rows db s → wall (sg_End seg) ≤ p) → p < wall q → chain 0 (rows db s) →
  overlapping floor q (rows db s) = filter (λ seg, wall floor < wall (sg_End seg)) (rows db s).
Proof.
  intros He Hp Hc. unfold overlapping. apply filter_same. intros seg Hseg.
  destruct (chain_valid _ _ _ Hc Hseg) as [(_ & _ & ?)%validSegment_parts _]. specialize (He _ Hseg). lia.
Qed.

Lemma commit_source_ok prior frontier segments d :
  source_ok db s → validateUTC q = true →
  loadLogEvictionFrontier db s = Some frontier → (∀ t, frontier = Some t → wall t ≤ wall (raised floor frontier)) →
  wall floor ≤ wall q → wall floor ≤ wall (raised floor frontier) →
  rows d s = before floor (rows db s) ++ segments → chain (wall (raised floor frontier)) segments →
  last_end (wall floor) segments ≤ wall q → last_end 0 (before floor (rows db s)) ≤ Z.max 0 (wall floor) →
  1 ≤ wall floor →
  (∀ k c, minutes_of d s !! k = Some c → minute_key k ∧ minute_check c = true) →
  loadLogState d s
    = Some (MkLogState (next_checkpoint (ls_checkpoint prior) b) (StatusAfterBatch b (ls_status prior))) →
  cp_PreviousAttemptAt (next_checkpoint (ls_checkpoint prior) b) = Some q →
  validateSourceStatus (StatusAfterBatch b (ls_status prior)) = true → ld_meta d = ld_meta db →
  source_ok d s.
Proof.
  intros [_ Hrows _ (f & Hf & Hfront)] Hq Hf' Hft Hfq Hff Hd Hseg Hsl Hlast H1 Hm Hstate Hprev Hstat Hmeta.
  rewrite Hf in Hf'. injection Hf' as ->. split.
  - eexists. split; [exact Hstate|]. simpl. split; [|done]. intros seg. rewrite Hd, elem_of_app.
    intros Hin. exists q. split; [done|]. destruct Hin as [[? _]%list_elem_of_filter|Hin]; [lia|].
    pose proof (chain_end _ _ _ Hseg Hin). unfold last_end in *. destruct (last segments) eqn:El; [lia|].
    apply last_None in El. subst. by apply not_elem_of_nil in Hin.
  - rewrite Hd. apply chain_app. split; [by apply chain_filter|]. eapply chain_weaken; [|exact Hseg]. lia.
  - done.
  - exists frontier. split; [unfold loadLogEvictionFrontier in *; by rewrite Hmeta|].
    intros t Ht seg. rewrite Hd, elem_of_app. intros [[_ Hin]%list_elem_of_filter|Hin] Hr; [by eapply Hfront|].
    destruct (chain_valid _ _ _ Hseg Hin). specialize (Hft t Ht). lia.
Qed.

Lemma committed_spec : ∃ prior frontier, committed prior frontier.
Proof.
  destruct (commit_tables_inv _ _ _ _ Hcommit)
    as (prior & adds & db1 & old & frontier & segments & db2 & db3 & E1 & E2 & E3 & E4 & E5 & E6 & E7 & E8 & E9 & E10 & Edb & E11 & E12).
  destruct (derive_checks _ _ _ E4) as (Hb & Hrr & _ & Hreset). pose proof Hrr as Hrr'.
  apply ReadRequest_order in Hrr as (Hs & Hcp & Hq & Hprev).
  destruct (so_sources _ Hok _ Hs) as [(st & Hst & Hends & Hsrc) Hrows Hmin (f & Hf & Hfront)].
  rewrite E1 in Hst. injection Hst as <-.
  destruct (loadLogState_inv _ _ _ E1) as (_ & Hrev & Hload).
  destruct (writeLogMinutes_spec _ _ _ _ Hmin E5) as (m & -> & Hm1 & Hm2).
  change (loadLogEvictionFrontier db s = Some frontier) in E7. rewrite Hf in E7. injection E7 as ->.
  destruct (loadLogCoverage_inv _ _ _ _ _ E6) as (-> & Vfloor & _).
  change (rows (set_minutes db s m) s) with (rows db s) in *.
  assert (Hfw : wall floor = Z.max 1 (wall q - Z.min age logRetention))
    by (apply logRetentionFloor_wall; auto with observer).
  assert (Hfv : ∀ t, frontier = Some t → validateUTC t = true).
  { intros t ->. unfold loadLogEvictionFrontier in Hf. destruct (logEvictionKey s); [|done].
    destruct (ld_meta db !! _); [|done]. destruct (decodeLogTime _) as [t'|] eqn:Ed; [|done]. simpl in Hf.
    injection Hf as ->. by eapply decode_valid. }
  destruct (raised_spec frontier ltac:(lia) Vfloor Hfv) as (Hr1 & Hr2 & Hr3).
  set (floor' := raised floor frontier) in *.
  assert (Hold : overlapping floor q (rows db s) = filter (λ seg, wall floor < wall (sg_End seg)) (rows db s)).
  { destruct (cp_PreviousAttemptAt (ls_checkpoint prior)) as [p|] eqn:Ep.
    - eapply (seen_rows (wall p)); [|by apply Hprev|done]. intros seg Hseg. destruct (Hends _ Hseg) as (? & [= <-] & ?). done.
    - eapply (seen_rows 0); [|unfold validateUTC, IsZero, year_ok in Hq; bools; lia|done].
      intros seg Hseg. by destruct (Hends _ Hseg) as (? & ? & ?). }
  destruct (before_chain 0 floor _ Hrows) as [Hsplit Hlast]. rewrite <- Hold in Hsplit.
  destruct (derive_accounts _ _ _ 0 E4) as (Hadds & Hlen & _).
  assert (Hfq : wall floor ≤ wall q) by (apply validUTC_floor; [done|unfold logRetention, Day, Hour, Minute, Second; lia]).
  destruct (merged_spec _ _ floor' _ Hr2 Hq ltac:(unfold logRetention, Day, Hour, Minute, Second in *; lia) ltac:(lia) Hfq
              (chain_filter _ _ _ Hrows) Hadds Hlen E8) as (Hseg & Hsl & Hreasons).
  destruct (writeLogCoverage_rows (set_minutes db s m) s (before floor (rows db s)) _ _ _ _ Hsplit Hrows Hseg ltac:(lia) E9)
    as (Hrows2 & m2 & ->).
  destruct (next_checkpoint_valid (ls_checkpoint prior) b) as (Hn1 & Hn2 & Hn3); [done|lia|done|by intros; apply Hprev|done|].
  destruct (StatusAfterBatch_ok b (ls_status prior) Hb) as [Hstat Hstat2].
  { destruct Hload as [[_ ->]|(_ & _ & ? & _)]; auto. }
  apply state_round_trip in E10 as (Hstate & r & -> & _); cbn [ls_checkpoint ls_status];
    [|lia|done|done|by rewrite StatusAfterBatch_attempt, Hn3].
  exists prior, frontier.
  change (rows (set_state (set_coverage (set_minutes db s m) s m2) s r) s)
    with (rows (set_coverage (set_minutes db s m) s m2) s) in *.
  assert (Hothers : ∀ s', s' ≠ s → let d := set_state (set_coverage (set_minutes db s m) s m2) s r in
    ld_state d !! s' = ld_state db !! s' ∧ coverage_of d s' = coverage_of db s' ∧ minutes_of d s' = minutes_of db s').
  { intros s' Hne. unfold coverage_of, minutes_of. simpl. by rewrite !lookup_insert_ne by done. }
  assert (Hmin' : minutes_of (set_state (set_coverage (set_minutes db s m) s m2) s r) s = m)
    by (unfold minutes_of; simpl; by rewrite lookup_insert_eq).
  set (d := set_state _ s r) in *.
  assert (Hd : rows d s = before floor (rows db s) ++ segments) by exact Hrows2.
  assert (Hnew : source_ok d s).
  { apply (commit_source_ok prior frontier segments); auto.
    - by apply Hok.
    - lia.
    - by rewrite Hmin'. }
  split; rewrite ?Edb; auto.
  - lia.
  - by exists segments.
  - intros x Hx. rewrite Hd, reason_at_app.
    rewrite (reason_at_after 0) by first [exact (chain_filter 0 _ _ Hrows)|fold floor' in Hx; lia].
    rewrite (Hreasons x Hx). destruct (x <? wall q) eqn:Ex; [|done].
    destruct (derive_accounts _ _ _ x E4) as (_ & _ & ->). rewrite Ex, andb_true_r. do 2 f_equal.
    rewrite Hsplit at 2. by rewrite evidence_app, evidence_before by (fold floor' in Hx; lia).
  - intros k. rewrite Hmin'. apply Hm2.
  - split; [|intros s' [? ?]|done|done].
    + intros s' Hs'. destruct (decide (s' = s)) as [-> |Hne]; [done|]. destruct (Hothers _ Hne) as (? & ? & ?).
      apply (source_ok_ext db); auto. by apply Hok.
    + destruct (decide (s' = s)) as [-> |Hne]; [done|]. apply Hok. simpl in *. rewrite lookup_insert_ne in H by done. by eexists.
Qed.
End commit.
