(* ===== verification/LogStoreRefinement.v ===== *)
(** * The log store keeps the contract the collector is proved against

    Whatever statement, commit or context fails, the database holds the tables from
    before or those with the batch applied over the revision it expects; success is
    reported only in the second case and a conflict only in the first.  So
    [CommitBatch] and [LoadCheckpoint] are behaviours of the store the collector's
    theorems assume ([commit_effect]), and the store's own invariant survives. *)

From S2P Require Import Prelude GoTime GoText Effects LogModel LogStatus LogCollector LogCollectorSafety LogCoverage LogCoverageSafety LogClock LogStore LogStoreTables LogStoreSafety.

(** ** The database under the store *)

Record Sdb := MkSdb { sd_db : LogDb; sd_tx : option LogDb }.

Definition store_env (A : Type) (e : StoreCall A) : Sdb → A → Sdb → Prop :=
  match e in StoreCall T return Sdb → T → Sdb → Prop with
  | SFault | SPressure | SCtxErr => λ u _ u', u' = u
  | SBegin => λ u ok u', if ok then u' = MkSdb (sd_db u) (Some (sd_db u)) else u' = u
  | SRead => λ u db u', u' = u ∧ db = default (sd_db u) (sd_tx u)
  | SWrite db => λ u _ u', u' = MkSdb (sd_db u) (Some db)
  | SCommit => λ u ok u', (ok = false ∧ u' = u) ∨ ∃ db, sd_tx u = Some db ∧ u' = MkSdb db None
  | SRollback => λ u _ u', u' = MkSdb (sd_db u) None
  end.

(** A transaction: at every moment the old tables or the body's, and the body's
    when it reports success. *)
Definition tx_moment {E R} (body : LogDb → result E (R * LogDb)) (db : LogDb) (u : Sdb) : Prop :=
  sd_db u = db ∨ ∃ r, body db = Ok (r, sd_db u).

Definition tx_done {E R} (failed : E) (body : LogDb → result E (R * LogDb)) (db : LogDb) (r : result E R) (u : Sdb) : Prop :=
  sd_tx u = None
  ∧ match r with
    | Ok v => body db = Ok (v, sd_db u)
    | Err e => sd_db u = db ∨ e = failed ∧ ∃ v, body db = Ok (v, sd_db u)
    end.

Lemma store_tx_spec {E R} (failed : E) (body : LogDb → result E (R * LogDb)) db :
  wpc store_env (tx_moment body db) (store_tx failed body) (tx_done failed body db) (MkSdb db (Some db)).
Proof.
  unfold store_tx. apply wpc_call; [by left|]. intros broken ? ->. destruct broken.
  { apply wpc_call; [by left|]. intros _ ? ->. apply wpc_ret; [by left|]. split; [done|by left]. }
  apply wpc_call; [by left|]. intros ? ? [-> ->]. simpl default.
  destruct (body db) as [[v db']|e] eqn:Eb.
  - apply wpc_call; [by left|]. intros _ ? ->. apply wpc_call; [by left|]. intros committed u Hu. simpl in Hu.
    assert (Hm : tx_moment body db u).
    { destruct Hu as [[_ ->]|(? & [= <-] & ->)]; [by left|]. right. by exists v. }
    destruct committed.
    + destruct Hu as [[? _]|(? & [= <-] & ->)]; [done|]. by apply wpc_ret.
    + apply wpc_call; [done|]. intros _ ? ->. apply wpc_ret; [done|]. split; [done|]. simpl.
      destruct Hu as [[_ ->]|(? & [= <-] & ->)]; [by left|]. right. split; [done|]. by exists v.
  - apply wpc_call; [by left|]. intros _ ? ->. apply wpc_ret; [by left|]. split; [done|by left].
Qed.

(** ** The schema *)

(** What [ensureLogSchema] may do to the database. *)
Definition schema_step (db db' : LogDb) : Prop :=
  db' = db ∨ ld_meta db !! schema_key = None ∧ create_schema db = Some db'.

Lemma create_tables_inv l db db' :
  fold_left (λ acc t, acc ≫= λ db, create_table db t) l (Some db) = Some db' →
  ∃ sch, db' = MkLogDb (ld_meta db) sch (ld_state db) (ld_minutes db) (ld_coverage db) (ld_samples db) (ld_rollups db) (ld_counters db).
Proof.
  revert db. induction l as [|t l IH]; intros db; [intros [= <-]; exists (ld_schema db); by destruct db|].
  cbn [fold_left mbind option_bind]. unfold create_table at 2.
  destruct (ld_schema db !! t.1); [by rewrite (fold_bind_none (λ t db, create_table db t))|].
  intros (sch & ->)%IH. by exists sch.
Qed.

Lemma create_schema_inv db db' :
  create_schema db = Some db' →
  ∃ sch, db' = MkLogDb (<[schema_key := "1"%string]> (ld_meta db)) sch (ld_state db) (ld_minutes db) (ld_coverage db)
                 (ld_samples db) (ld_rollups db) (ld_counters db).
Proof.
  unfold create_schema. destruct (fold_left _ _ _) as [d|] eqn:E; [|done]. intros [= <-].
  destruct (create_tables_inv _ _ _ E) as (sch & ->). by exists sch.
Qed.

Lemma schema_frontier db s m :
  ld_meta m = <[schema_key := "1"%string]> (ld_meta db) → loadLogEvictionFrontier m s = loadLogEvictionFrontier db s.
Proof. intros E. unfold loadLogEvictionFrontier. destruct s; simpl; by rewrite ?E, ?lookup_insert_ne. Qed.

Lemma schema_step_ok db db' : schema_step db db' → store_ok db → store_ok db'.
Proof.
  intros [-> |[_ (sch & ->)%create_schema_inv]] [H1 H2 H3 H4]; [done|].
  split; auto. intros s Hs. destruct (H1 s Hs) as [S1 S2 S3 S4]. split; auto.
  destruct S4 as (f & Hf & Hft). exists f. split; [by rewrite <- Hf; apply schema_frontier|done].
Qed.

Definition revision_of (db : LogDb) (s : Source) : Z :=
  match loadLogState db s with Some st => cp_Revision (ls_checkpoint st) | None => 0 end.

Lemma schema_step_revision db db' s : schema_step db db' → loadLogState db' s = loadLogState db s.
Proof. intros [-> |[_ (sch & ->)%create_schema_inv]]; done. Qed.

Lemma ensure_spec h db (I : Sdb → Prop) (Q : LogHandle * bool → Sdb → Prop) :
  (∀ db' tx, schema_step db db' → I (MkSdb db' tx)) →
  (∀ h' ok db', schema_step db db' → lh_RetentionAge h' = lh_RetentionAge h → Q (h', ok) (MkSdb db' None)) →
  wpc store_env I (ensureLogSchema h) Q (MkSdb db None).
Proof.
  intros HI HQ. unfold ensureLogSchema.
  assert (Hsame : schema_step db db) by by left.
  destruct (lh_logReady h); [apply wpc_ret; auto|].
  apply wpc_call; [auto|]. intros began u Hu. simpl in Hu. destruct began; subst u; simpl;
    [|apply wpc_ret; auto].
  set (body := λ d : LogDb, _ : result StoreError (unit * LogDb)).
  assert (Hbody : ∀ r d, body db = Ok (r, d) → schema_step db d).
  { intros r d. unfold body. destruct (ld_meta db !! schema_key) eqn:E.
    - destruct (validateLogSchema db); [|done]. intros [= _ <-]. by left.
    - destruct (create_schema db) as [d'|] eqn:Ec; [|done]. destruct (validateLogSchema d'); [|done].
      intros [= _ <-]. by right. }
  apply wpc_bind. eapply wpc_mono; [| |apply (store_tx_spec StoreUnavailable body db)].
  - intros [d tx] [Hd|(r & Hd)]; simpl in Hd; [subst; auto|eauto].
  - intros r [d tx] [Htx Hr]. simpl in Htx. subst tx.
    assert (Hstep : schema_step db d).
    { destruct r; [by eauto|]. destruct Hr as [Hr|(_ & ? & ?)]; simpl in *; [by left|eauto]. }
    destruct r; apply wpc_ret; auto.
Qed.

(** ** Commits *)

(** The tables agree with the collector's view of the store. *)
Definition agrees (db : LogDb) (w : World) : Prop :=
  store_ok db ∧ ∀ s, Source_Validate s = true → revision w s = revision_of db s.

Lemma agrees_schema db db' w : schema_step db db' → agrees db w → agrees db' w.
Proof.
  intros Hs [Hok Hr]. split; [by eapply schema_step_ok|]. intros s Hv. rewrite Hr by done.
  unfold revision_of. by rewrite (schema_step_revision _ _ _ Hs).
Qed.

Lemma agrees_commit age db b db' w :
  0 < age → agrees db w → commit_tables age db b = Ok db' → applies w b (apply_batch w b) ∧ agrees db' (apply_batch w b).
Proof.
  intros Ha [Hok Hr] Hc. destruct (committed_spec age db db' b Ha Hok Hc) as (prior & f & Hcm).
  destruct (cm_revision _ _ _ _ _ _ Hcm) as [Hrev Hmax].
  pose proof (cm_source _ _ _ _ _ _ Hcm) as Hs. pose proof (cm_prior _ _ _ _ _ _ Hcm) as Hp.
  destruct (loadLogState_inv _ _ _ Hp) as (_ & Hrange & _).
  split; [split; [|split; [lia|done]]|split; [by eapply cm_store|]].
  - rewrite Hr by done. unfold revision_of. by rewrite Hp.
  - intros s Hv. unfold apply_batch, revision. simpl. destruct (decide (s = b_Source b)) as [-> |Hne].
    + rewrite lookup_insert_eq. unfold revision_of. rewrite (cm_state _ _ _ _ _ _ Hcm). simpl.
      unfold next_checkpoint. rewrite wrap_u64_id by lia. by destruct (b_Kind b); simpl; rewrite Hrev.
    + rewrite lookup_insert_ne by done. change (revision w s = revision_of db' s). rewrite Hr by done.
      destruct (cm_others _ _ _ _ _ _ Hcm s Hne) as (E & _). unfold revision_of, loadLogState. by rewrite E.
Qed.

Definition commit_moment (w : World) (b : Batch) (u : Sdb) : Prop :=
  ∃ w', (w' = w ∨ applies w b w') ∧ agrees (sd_db u) w'.

Definition commit_end (w : World) (b : Batch) (e : option StoreError) (u : Sdb) : Prop :=
  sd_tx u = None
  ∧ ∃ w', agrees (sd_db u) w'
      ∧ match e with
        | None => applies w b w'
        | Some StoreConflict => w' = w
        | Some StoreUnavailable => w' = w ∨ applies w b w'
        end.

Lemma commitLogBatch_spec h b db w :
  0 < lh_RetentionAge h → agrees db w →
  wpc store_env (commit_moment w b) (commitLogBatch h b) (λ out u, commit_end w b out.2 u) (MkSdb db None).
Proof.
  intros Ha Hw. unfold commitLogBatch. apply wpc_bind.
  assert (Hquiet : ∀ d tx, schema_step db d → commit_moment w b (MkSdb d tx)).
  { intros d tx Hs. exists w. split; [by left|]. by eapply agrees_schema. }
  assert (Hend : ∀ d, schema_step db d → commit_end w b (Some StoreUnavailable) (MkSdb d None)).
  { intros d Hs. split; [done|]. exists w. split; [by eapply agrees_schema|by left]. }
  apply ensure_spec; [done|]. intros h' ok d Hs Hage. destruct ok; cbn [negb]; [|apply wpc_ret; [auto|by apply Hend]].
  apply wpc_call; [auto|]. intros began u Hu. simpl in Hu. destruct began; subst u; cbn [negb];
    [|apply wpc_ret; [auto|by apply Hend]].
  apply wpc_call; [auto|]. intros pressure u ->. destruct pressure.
  { apply wpc_call; [auto|]. intros _ u ->. apply wpc_ret; [auto|by apply Hend]. }
  assert (Hd : agrees d w) by by eapply agrees_schema.
  set (body := λ db : LogDb, _ : result StoreError (unit * LogDb)).
  assert (Hbody : ∀ r d', body d = Ok (r, d') → applies w b (apply_batch w b) ∧ agrees d' (apply_batch w b)).
  { intros r d'. unfold body. destruct (commit_tables _ d b) as [d1|] eqn:Ec; [|done]. intros [= _ <-].
    eapply agrees_commit; [|exact Hd|exact Ec]. lia. }
  apply wpc_bind. eapply wpc_mono; [| |apply (store_tx_spec StoreUnavailable body d)].
  - intros [d' tx] [E|(r & E)]; simpl in E; [subst; by exists w; split; [left|]|].
    destruct (Hbody _ _ E). eexists. split; [by right|done].
  - intros r [d' tx] [Htx Hr]. simpl in Htx. subst tx. destruct r as [v|e].
    + destruct (Hbody _ _ Hr). apply wpc_ret; [by eexists; split; [right|]|]. split; [done|]. by eexists.
    + assert (Hfail : ∃ w', agrees d' w' ∧ (w' = w ∨ applies w b w') ∧ (e = StoreConflict → w' = w)).
      { destruct Hr as [E|(-> & v & E)]; simpl in E; [subst; exists w; by auto|].
        destruct (Hbody _ _ E). eexists. split; [done|]. split; [by right|done]. }
      destruct Hfail as (w' & H1 & H2 & H3). apply wpc_ret; [by exists w'|].
      split; [done|]. exists w'. split; [done|]. simpl. destruct e; auto.
Qed.

Lemma CommitBatch_ok h b db w :
  0 < lh_RetentionAge h → agrees db w →
  wpc store_env (commit_moment w b) (CommitBatch h b)
    (λ '(h', r) u, sd_tx u = None ∧ ∃ w', commit_effect w b r w' ∧ agrees (sd_db u) w') (MkSdb db None).
Proof.
  intros Ha Hw. unfold CommitBatch. destruct (Batch_Validate b); cbn [negb].
  - apply wpc_bind. eapply wpc_mono; [done| |by apply commitLogBatch_spec].
    intros [h' e] u [Htx (w' & Hw' & He)]. apply wpc_bind.
    assert (Hm : commit_moment w b u) by (exists w'; split; [destruct e as [[]|]; auto|done]).
    unfold logPortError. simpl. destruct e as [e|].
    + apply wpc_call; [done|]. intros canceled ? ->. do 2 (apply wpc_ret; [done|]). simpl. split; [done|].
      exists w'. split; [|done]. destruct canceled; [destruct e; simpl in *; auto|destruct e; simpl in *; auto].
    + do 2 (apply wpc_ret; [done|]). split; [done|]. by exists w'.
  - apply wpc_ret; [exists w; split; [by left|done]|]. split; [done|]. exists w. split; [by left|done].
Qed.

(** C31: The durable log store implements the store the collector is proved
    against.  From tables that satisfy the store's invariant and agree with the
    collector's view, whatever statement, commit or context fails: at every moment
    of [CommitBatch] the database satisfies the invariant and agrees with the view
    from before or with the batch applied over the revision it expects; and what it
    answers is an effect the collector's environment allows for that answer. *)
Theorem CommitBatch_refines_store h b db w :
  0 < lh_RetentionAge h → agrees db w →
  wpc store_env (λ u, ∃ w', (w' = w ∨ applies w b w') ∧ agrees (sd_db u) w') (CommitBatch h b)
    (λ '(h', r) u, sd_tx u = None ∧ ∃ w', collector_env _ (LCommit b) w r w' ∧ agrees (sd_db u) w') (MkSdb db None).
Proof. apply CommitBatch_ok. Qed.

(** [LoadCheckpoint] returns the checkpoint of the tables or fails, and changes
    nothing but a missing schema; the checkpoint is valid and has the revision the
    collector's environment promises. *)
Theorem LoadCheckpoint_refines_store h s db w :
  Source_Validate s = true → agrees db w →
  wpc store_env (λ u, agrees (sd_db u) w) (LoadCheckpoint h s)
    (λ '(h', r) u, collector_env _ (LLoad s) w r w ∧ agrees (sd_db u) w
       ∧ (∀ cp, r = Some cp → Checkpoint_Validate cp = true)) (MkSdb db None).
Proof.
  intros Hs Hw. unfold LoadCheckpoint. rewrite Hs. simpl negb. cbv iota. apply wpc_bind.
  assert (Hq : ∀ d tx, schema_step db d → agrees (sd_db (MkSdb d tx)) w) by (intros; by eapply agrees_schema).
  apply ensure_spec; [done|]. intros h' ok d Hstep _.
  assert (Hnone : wpc store_env (λ u, agrees (sd_db u) w) (Ret (h', None : option Checkpoint))
    (λ '(h', r) u, collector_env _ (LLoad s) w r w ∧ agrees (sd_db u) w
       ∧ (∀ cp, r = Some cp → Checkpoint_Validate cp = true)) (MkSdb d None)).
  { apply wpc_ret; [by apply (Hq d None)|]. split; [by split|]. split; [by apply (Hq d None)|done]. }
  destruct ok; simpl negb; cbv iota; [|done].
  apply wpc_call; [auto|]. intros broken ? ->. destruct broken; [done|].
  apply wpc_call; [auto|]. intros ? ? [-> ->]. apply wpc_ret; [auto|]. simpl.
  destruct (Hq d None Hstep) as [Hok Hr]. simpl in *.
  split; [|split; [done|]].
  - split; [done|]. intros cp Hcp. rewrite Hr by done. unfold revision_of.
    destruct (loadLogState d s) as [st|]; [|done]. simpl in Hcp. by injection Hcp as <-.
  - intros cp Hcp. destruct (loadLogState d s) as [st|] eqn:E; [|done]. simpl in Hcp. injection Hcp as <-.
    by apply loadLogState_inv in E as [? _].
Qed.

(** ** Witnesses *)

Module StoreSample.
Definition empty : LogDb := MkLogDb ∅ ∅ ∅ ∅ ∅ ∅ ∅ ∅.
Definition handle : LogHandle := MkHandle (30 * Day) 500 false.
Definition batch : Batch := RoundSample.batch RoundSample.now.

(** A database in which nothing fails. *)
Definition handler (A : Type) (e : StoreCall A) : Sdb → A * Sdb :=
  match e in StoreCall T return Sdb → T * Sdb with
  | SFault | SPressure | SCtxErr => λ u, (false, u)
  | SBegin => λ u, (true, MkSdb (sd_db u) (Some (sd_db u)))
  | SRead => λ u, (default (sd_db u) (sd_tx u), u)
  | SWrite db => λ u, (tt, MkSdb (sd_db u) (Some db))
  | SCommit => λ u, match sd_tx u with Some db => (true, MkSdb db None) | None => (false, u) end
  | SRollback => λ u, (tt, MkSdb (sd_db u) None)
  end.

Lemma store_handler_env A (e : StoreCall A) u : store_env A e u (handler A e u).1 (handler A e u).2.
Proof. destruct e; simpl; try done. destruct (sd_tx u) eqn:E; simpl; [right; by eexists|by left]. Qed.

Lemma empty_ok : store_ok empty.
Proof.
  assert (Hrows : ∀ s, rows empty s = []) by done.
  split; [|by intros s [? ?]|done|done].
  intros s Hs. split; rewrite ?Hrows.
  - exists zeroLogState. split; [done|]. split; [by intros ? ?%not_elem_of_nil|done].
  - done.
  - by intros k c ?.
  - exists None. destruct s; [done..|]. done.
Qed.

Lemma empty_agrees : agrees empty RoundSample.w0.
Proof. split; [exact empty_ok|]. done. Qed.

Definition after : Sdb := (run handler (CommitBatch handle batch) (MkSdb empty None)).2.
Definition stored : LogDb := sd_db after.
End StoreSample.

Lemma CommitBatch_refines_store_witness :
  (run StoreSample.handler (CommitBatch StoreSample.handle StoreSample.batch) (MkSdb StoreSample.empty None)).1.2 = Committed
  ∧ ∃ w', applies RoundSample.w0 StoreSample.batch w' ∧ agrees StoreSample.stored w'.
Proof.
  split; [vm_compute; reflexivity|].
  pose proof (wp_run _ StoreSample.handler _ _ _ StoreSample.store_handler_env
    (wp_wpc _ _ _ _ _ (CommitBatch_refines_store StoreSample.handle StoreSample.batch _ _ eq_refl StoreSample.empty_agrees))) as H.
  replace (run StoreSample.handler _ _).1 with (set_ready StoreSample.handle, Committed) in H by (vm_compute; reflexivity).
  destruct H as (_ & w' & Hw & Ha). exists w'. split; [exact Hw|exact Ha].
Defined.

Lemma LoadCheckpoint_refines_store_witness :
  (run StoreSample.handler (LoadCheckpoint StoreSample.handle SourceSystem) (MkSdb StoreSample.empty None)).1.2 = Some zeroCheckpoint
  ∧ revision RoundSample.w0 SourceSystem = cp_Revision zeroCheckpoint.
Proof.
  split; [vm_compute; reflexivity|].
  pose proof (wp_run _ StoreSample.handler _ _ _ StoreSample.store_handler_env
    (wp_wpc _ _ _ _ _ (LoadCheckpoint_refines_store StoreSample.handle SourceSystem _ _ eq_refl StoreSample.empty_agrees))) as H.
  replace (run StoreSample.handler _ _).1 with (set_ready StoreSample.handle, Some zeroCheckpoint) in H by (vm_compute; reflexivity).
  destruct H as ((_ & Hr) & _). by rewrite (Hr _ eq_refl).
Defined.
