(* ===== verification/LogStoreCommit.v ===== *)
(** * What a commit makes the store know

    A committed batch leaves no instant since the source's previous attempt
    unaccounted for, as far back as the store keeps evidence, and every event and discard it reports within the retention is
    counted once, in its minute. *)

From S2P Require Import Prelude GoTime GoText Effects LogModel LogStatus LogCollector LogCollectorSafety LogCoverage LogCoverageSafety LogProjection LogClock LogStore LogStoreTables LogStoreSafety LogStoreRefinement.

(** ** Evidence *)

Lemma stated_valid cp b adds x :
  deriveLogCoverage cp b = Ok adds → accounted_from cp (b_QueryStartedAt b) ≤ x < wall (b_QueryStartedAt b) →
  validReason (stated cp b x) = true.
Proof.
  intros Hd Hx. destruct (derive_accounts _ _ _ x Hd) as (Hv & _ & He).
  rewrite (proj2 (Z.leb_le _ _)), (proj2 (Z.ltb_lt _ _)) in He by lia. simpl in He.
  assert (Hin : stated cp b x ∈ evidence x adds) by (rewrite He; left).
  unfold evidence in Hin. apply list_elem_of_fmap in Hin as (seg & -> & [_ Hseg]%list_elem_of_filter).
  rewrite forallb_forall in Hv. apply list_elem_of_In in Hseg. specialize (Hv _ Hseg).
  by apply validSegment_iff in Hv as (_ & _ & _ & ?).
Qed.

(** From when on a commit decides what is known: the retention floor, or the
    eviction frontier if it is later. *)
Definition known_from (age : Z) (b : Batch) (frontier : option time) : Z :=
  wall (raised (logRetentionFloor (b_QueryStartedAt b) (Z.min age logRetention)) frontier).

(** The retention floor. *)
Definition kept_from (age : Z) (b : Batch) : Z :=
  wall (logRetentionFloor (b_QueryStartedAt b) (Z.min age logRetention)).

Lemma reason_at_ended bound l x : bound ≤ x → reason_at (filter (λ seg, wall (sg_End seg) ≤ bound) l) x = None.
Proof.
  intros Hx. destruct (reason_at _ x) as [r|] eqn:Hr; [|done].
  apply reason_at_some in Hr as (seg & [Hend _]%list_elem_of_filter & Hin & _). unfold in_seg in Hin. lia.
Qed.

(** ** Counts *)

(** How many of the events that count for minute [k] satisfy [P]. *)
Definition arrivals (floor : time) (b : Batch) (k : Z) (P : Severity → bool) : Z :=
  Z.of_nat (length (filter (λ e, counts_for floor (ev_ObservedAt e) k && P (ev_Severity e) = true) (b_Events b))).
Definition losses (floor : time) (b : Batch) (k : Z) : Z :=
  foldr Z.add 0 (dc_Count <$> filter (λ d, counts_for floor (dc_At d) k = true) (b_Discards b)).
Definition reported (floor : time) (b : Batch) (k : Z) : BucketCounts :=
  let n s := arrivals floor b k (λ s', s' == s) in
  MkBucketCounts (arrivals floor b k (λ _, true)) (losses floor b k)
    (MkSeverity (n SeverityTrace) (n SeverityDebug) (n SeverityInfo) (n SeverityWarn) (n SeverityError)
       (n SeverityCritical) (n SeverityUnknown)).

Lemma add_counts_assoc a b c : add_counts (add_counts a b) c = add_counts a (add_counts b c).
Proof. destruct a as [? ? []], b as [? ? []], c as [? ? []]. unfold add_counts. simpl. f_equal; [lia..|]. f_equal; lia. Qed.

Lemma events_count floor b k c :
  fold_left (λ c x, if counts_for floor (ev_ObservedAt x) k then count_event x c else c) (b_Events b) c
  = add_counts c (let n s := arrivals floor b k (λ s', s' == s) in
      MkBucketCounts (arrivals floor b k (λ _, true)) 0
        (MkSeverity (n SeverityTrace) (n SeverityDebug) (n SeverityInfo) (n SeverityWarn) (n SeverityError)
           (n SeverityCritical) (n SeverityUnknown))).
Proof.
  unfold arrivals. revert c. induction (b_Events b) as [|e l IH]; intros c; [simpl; by rewrite add_counts_zero|].
  cbn [fold_left]. rewrite IH, !filter_cons. destruct (counts_for floor (ev_ObservedAt e) k); [|done].
  destruct c as [ca di []], e as [at_ src sev code]. cbn [andb ev_Severity].
  destruct sev; simpl; unfold count_event, add_counts; simpl; f_equal; try lia; f_equal; lia.
Qed.

Lemma discards_count floor b k c :
  fold_left (λ c x, if counts_for floor (dc_At x) k then count_discard x c else c) (b_Discards b) c
  = add_counts c (MkBucketCounts 0 (losses floor b k) (MkSeverity 0 0 0 0 0 0 0)).
Proof.
  unfold losses. revert c. induction (b_Discards b) as [|d l IH]; intros c; [simpl; by rewrite add_counts_zero|].
  cbn [fold_left]. rewrite IH, filter_cons. destruct (counts_for floor (dc_At d) k); [|done].
  destruct c as [ca di []]. rewrite decide_True by done. rewrite fmap_cons. unfold count_discard, add_counts. simpl.
  f_equal; try lia; f_equal; lia.
Qed.

Lemma batch_count floor b k :
  fold_left (λ c x, if counts_for floor (dc_At x) k then count_discard x c else c) (b_Discards b)
    (fold_left (λ c x, if counts_for floor (ev_ObservedAt x) k then count_event x c else c) (b_Events b) zeroBucketCounts)
  = reported floor b k.
Proof. rewrite events_count, discards_count, zero_add_counts. unfold reported, add_counts. simpl. f_equal; [lia|f_equal; lia]. Qed.

(** ** Commits *)

(** C33: A commit that succeeds settles what is known of its source at every
    instant.  From the retention floor on, or from the eviction frontier if that is
    later, the stored evidence for an instant before the query is the strongest of
    what was stored and, from the previous attempt on, what the batch states, so
    that no such instant between the previous attempt and the query is left without
    evidence, and nothing is claimed from the query on.  Before that bound the
    batch adds nothing: what is still known is what the rows say that had ended by
    the retention floor, so nothing is known between the floor and a later
    frontier.  The store's invariant holds of the result. *)
Theorem commit_accounts age db b db' :
  0 < age → store_ok db → commit_tables age db b = Ok db' →
  ∃ prior frontier, loadLogState db (b_Source b) = Some prior
    ∧ loadLogEvictionFrontier db (b_Source b) = Some frontier
    ∧ store_ok db'
    ∧ (let q := wall (b_QueryStartedAt b) in
       let since := accounted_from (ls_checkpoint prior) (b_QueryStartedAt b) in
       let known := known_from age b frontier in
       let said := reason_at (rows db' (b_Source b)) in
       (∀ x, known ≤ x < q → said x = strongest (evidence x (rows db (b_Source b))
          ++ (if since <=? x then [stated (ls_checkpoint prior) b x] else [])))
       ∧ (∀ x, known ≤ x → q ≤ x → said x = None)
       ∧ (∀ x, known ≤ x → since ≤ x < q → is_Some (said x))
       ∧ (∀ x, x < known → said x = reason_at (filter (λ seg, wall (sg_End seg) ≤ kept_from age b)
            (rows db (b_Source b))) x)
       ∧ (∀ x, kept_from age b ≤ x < known → said x = None)).
Proof.
  intros Ha Hok Hc. destruct (committed_spec age db db' b Ha Hok Hc) as (prior & f & Hcm). exists prior, f.
  split; [apply Hcm|]. split; [apply Hcm|]. split; [eapply cm_store, Hcm|]. cbv zeta. unfold known_from.
  pose proof (cm_reasons _ _ _ _ _ _ Hcm) as Hr.
  assert (Hbelow : ∀ x, x < known_from age b f → reason_at (rows db' (b_Source b)) x
    = reason_at (filter (λ seg, wall (sg_End seg) ≤ kept_from age b) (rows db (b_Source b))) x).
  { intros x Hx. destruct (cm_rows _ _ _ _ _ _ Hcm) as (segments & -> & Hch & _).
    rewrite reason_at_app. unfold known_from in Hx. rewrite (reason_at_before _ _ _ Hch Hx).
    unfold before, kept_from. by destruct (reason_at _ x). }
  split; [|split; [|split; [|split; [exact Hbelow|]]]].
  - intros x Hx. rewrite (Hr x) by lia. by rewrite (proj2 (Z.ltb_lt _ _)) by lia.
  - intros x Hx Hq. rewrite (Hr x) by lia. by rewrite (proj2 (Z.ltb_ge _ _)) by lia.
  - intros x Hx Hq. rewrite (Hr x) by lia. rewrite (proj2 (Z.ltb_lt _ _)), (proj2 (Z.leb_le _ _)) by lia.
    destruct (commit_tables_inv _ _ _ _ Hc) as (p & adds & _ & _ & _ & _ & _ & _ & E1 & _ & _ & E4 & _).
    rewrite (cm_prior _ _ _ _ _ _ Hcm) in E1. injection E1 as <-.
    rewrite strongest_snoc by (eapply stated_valid; [done|lia]). unfold pick. repeat case_match; by eexists.
  - intros x [Hlo Hx]. rewrite (Hbelow x Hx). by apply reason_at_ended.
Qed.

(** A commit that succeeds adds to each minute exactly what the batch reports
    for it: the events observed in that minute at or after the retention floor, in
    total and by severity, and the discards; other sources keep their counts. *)
Theorem commit_counts age db b db' :
  0 < age → store_ok db → commit_tables age db b = Ok db' →
  (∀ k, counts_at (minutes_of db' (b_Source b)) k
        = add_counts (counts_at (minutes_of db (b_Source b)) k)
            (reported (logRetentionFloor (b_QueryStartedAt b) (Z.min age logRetention)) b k))
  ∧ (∀ s, s ≠ b_Source b → minutes_of db' s = minutes_of db s)
  ∧ sum_minutes bc_Captured db' ≤ MaxSafeInteger ∧ sum_minutes bc_Discarded db' ≤ MaxSafeInteger.
Proof.
  intros Ha Hok Hc. destruct (committed_spec age db db' b Ha Hok Hc) as (prior & f & Hcm). split; [|split].
  - intros k. rewrite (cm_minutes _ _ _ _ _ _ Hcm), batch_count. done.
  - intros s Hs. by apply (cm_others _ _ _ _ _ _ Hcm).
  - pose proof (cm_store _ _ _ _ _ _ Hcm) as [_ _ ? ?]. done.
Qed.

(** ** Witnesses *)

Definition committed_db : LogDb :=
  match commit_tables (30 * Day) StoreSample.empty StoreSample.batch with Ok d => d | Err _ => StoreSample.empty end.

Lemma sample_commit : commit_tables (30 * Day) StoreSample.empty StoreSample.batch = Ok committed_db.
Proof. vm_compute. reflexivity. Qed.

Lemma commit_accounts_witness : is_Some (reason_at (rows committed_db SourceSystem) (63800000095 * Second)).
Proof.
  destruct (commit_accounts _ _ _ _ (eq_refl : 0 < 30 * Day) StoreSample.empty_ok sample_commit)
    as (prior & f & E1 & E2 & _ & _ & _ & H & _).
  injection E1 as <-. injection E2 as <-. apply (H (63800000095 * Second)); vm_compute; [discriminate|split; [discriminate|reflexivity]].
Defined.

Lemma commit_counts_witness :
  bc_Captured (counts_at (minutes_of committed_db (b_Source StoreSample.batch)) (63800000040 * Second)) = 1.
Proof.
  rewrite (proj1 (commit_counts (30 * Day) _ _ committed_db eq_refl StoreSample.empty_ok sample_commit) (63800000040 * Second)).
  vm_compute. reflexivity.
Defined.
