(* ===== verification/LogRetention.v ===== *)
(** * Retention of the shared history database
      ([internal/history/log_maintenance.go] and the prune transactions of
      [maintenance.go])

    One transaction removes at most [BatchSize] rows, oldest first, from four
    tables: samples, rollups, log minutes and log coverage.  Before the counts of a
    minute go, positive evidence that covers the minute is trimmed away, and the
    source's eviction frontier is raised past the minute, so that no later read
    takes the missing counts for silence.

    As in [LogStore] a stored log time is its instant.  [None] is an error that
    rolls the transaction back. *)

From stdpp Require Import sorting.
From S2P Require Import Prelude GoTime GoText Effects LogModel LogStatus LogCoverage LogClock LogStore.

(** ** Candidates *)

Inductive retentionCandidate :=
| SampleRow (metric : string) (ns : Z)
| RollupRow (metric : string) (ns resolution : Z)
| MinuteRow (source : Source) (minute : Z)
| CoverageRow (source : Source) (start end_ : Z).

(** [time.Unix(0, ns).UTC()]. *)
Definition unix_time (ns : Z) : time := At (ns + unixOffset * Second).
(** [t.UnixNano()]. *)
Definition UnixNano (t : time) : Z := wrap_i64 (wall t - unixOffset * Second).

Definition candidate_at (c : retentionCandidate) : time :=
  match c with
  | SampleRow _ ns | RollupRow _ ns _ => unix_time ns
  | MinuteRow _ k | CoverageRow _ k _ => At k
  end.
Definition is_log (c : retentionCandidate) : bool :=
  match c with MinuteRow _ _ | CoverageRow _ _ _ => true | _ => false end.

Definition retentionMetrics : list string :=
  ["cpu.utilization.percent"; "memory.utilization.percent"; "filesystem.aggregate.utilization.percent";
   "network.receive.bytes_per_second"; "network.transmit.bytes_per_second"; "process.count"]%string.

(** SELECT min(...). *)
Definition list_min (l : list Z) : option Z :=
  foldr (λ x acc, Some (match acc with None => x | Some y => Z.min x y end)) None l.

(** ORDER BY at, key LIMIT 1. *)
Definition row_before (a b : Z * string) : bool := (a.1 <? b.1) || (a.1 =? b.1) && String.ltb a.2 b.2.
Definition first_row {A} (l : list (Z * string * A)) : option (Z * string * A) :=
  foldr (λ x acc, match acc with
                  | None => Some x
                  | Some y => Some (if row_before y.1 x.1 then y else x)
                  end) None l.

Definition sample_times (db : LogDb) (m : string) : list Z :=
  omap (λ '(m', ns), if str_eqb m' m then Some ns else None) (elements (ld_samples db)).
Definition rollup_times (db : LogDb) (m : string) : list Z :=
  omap (λ '(m', ns, _), if str_eqb m' m then Some ns else None) (elements (ld_rollups db)).
Definition rollup_resolutions (db : LogDb) (m : string) (at_ : Z) : list Z :=
  omap (λ '(m', ns, res), if str_eqb m' m && (ns =? at_) then Some res else None) (elements (ld_rollups db)).

(** The text of a source in the tables. *)
Definition source_text (s : Source) : string :=
  match s with SourceSystem => "system" | SourceApplication => "application" | SourceOther t => t end.
Definition log_sources : list Source := [SourceSystem; SourceApplication].

(** The four queries, each the oldest row of its table. *)
Definition oldest_sample (db : LogDb) : option retentionCandidate :=
  (λ '(ns, m, _), SampleRow m ns)
    <$> first_row (omap (λ m, (λ ns, (ns, m, tt)) <$> list_min (sample_times db m)) retentionMetrics).
Definition oldest_rollup (db : LogDb) : option retentionCandidate :=
  (λ '(ns, m, res), RollupRow m ns res)
    <$> first_row (omap (λ m, list_min (rollup_times db m) ≫= λ ns,
                              (λ res, (ns, m, res)) <$> list_min (rollup_resolutions db m ns)) retentionMetrics).
Definition oldest_minute (db : LogDb) : option retentionCandidate :=
  (λ '(k, _, s), MinuteRow s k)
    <$> first_row (omap (λ s, (λ row, (row.1, source_text s, s)) <$> head (in_order (minutes_of db s))) log_sources).
Definition oldest_coverage (db : LogDb) : option retentionCandidate :=
  (λ '(k, _, (s, e)), CoverageRow s k e)
    <$> first_row (omap (λ s, (λ row, (row.1, source_text s, (s, row.2.1))) <$> head (in_order (coverage_of db s)))
                     log_sources).

(** One turn of the loop over the queries: [found] so far, the row of this query. *)
Definition consider (cutoff logCutoff : option time) (found : option retentionCandidate)
    (item : option retentionCandidate) : option (option retentionCandidate) :=
  match item with
  | None => Some found
  | Some item =>
      if is_log item && negb (is_some (encodeLogTime (candidate_at item))) then None
      else
        let boundary := if is_log item then logCutoff else cutoff in
        if match boundary with Some b => negb (Before (candidate_at item) b) | None => false end then Some found
        else match found with
        | None => Some (Some item)
        | Some oldest => Some (if Before (candidate_at item) (candidate_at oldest) then Some item else found)
        end
  end.

Definition oldestRetentionCandidate (db : LogDb) (cutoff logCutoff : option time) :
    option (option retentionCandidate) :=
  fold_left (λ acc item, acc ≫= λ found, consider cutoff logCutoff found item)
    [oldest_sample db; oldest_rollup db; oldest_minute db; oldest_coverage db] (Some None).

(** ** Mutations *)

(** UPDATE log_metadata_coverage SET start_at: the CHECK and the primary key. *)
Definition move_start (table : gmap Z (Z * ReasonCode)) (old new : Z) : option (gmap Z (Z * ReasonCode)) :=
  match table !! old with
  | None => Some table
  | Some (e, r) =>
      if negb (new <? e) then None
      else match delete old table !! new with
      | Some _ => None
      | None => Some (<[new := (e, r)]> (delete old table))
      end
  end.

(** Answers whether a row changed and whether it was removed. *)
Definition trimPositiveLogProof (db : LogDb) (source : Source) (frontier : time) : option (bool * bool * LogDb) :=
  match head (filter (λ row : Z * (Z * ReasonCode), row.2.2 = ReasonEmpty) (in_order (coverage_of db source))) with
  | None => Some (false, false, db)
  | Some (start, (end_, _)) =>
      match encodeLogTime (At start), encodeLogTime (At end_) with
      | Some _, Some _ =>
          if negb (Before (At start) frontier) then Some (false, false, db)
          else if After (At end_) frontier
          then (λ t, (true, false, set_coverage db source t)) <$> move_start (coverage_of db source) start (wall frontier)
          else Some (true, true, set_coverage db source (delete start (coverage_of db source)))
      | _, _ => None
      end
  end.

Definition set_metrics (db : LogDb) (samples : gset (string * Z)) (rollups : gset (string * Z * Z)) : LogDb :=
  MkLogDb (ld_meta db) (ld_schema db) (ld_state db) (ld_minutes db) (ld_coverage db) samples rollups (ld_counters db).

Definition delete_sample (db : LogDb) (m : string) (ns : Z) : LogDb :=
  set_metrics db (ld_samples db ∖ {[(m, ns)]}) (ld_rollups db).
Definition delete_rollup (db : LogDb) (m : string) (ns res : Z) : LogDb :=
  set_metrics db (ld_samples db) (ld_rollups db ∖ {[(m, ns, res)]}).
Definition delete_minute (db : LogDb) (s : Source) (k : Z) : LogDb := set_minutes db s (delete k (minutes_of db s)).
Definition delete_coverage (db : LogDb) (s : Source) (k : Z) : LogDb := set_coverage db s (delete k (coverage_of db s)).

(** The frontier past the minute [k]; the last representable instant for the last minute. *)
Definition past_minute (k : Z) : time :=
  let frontier := Add (At k) Minute in
  if year10000 <=? wall frontier then At (year10000 - 1) else frontier.

Definition raise_frontier (frontiers : gmap Source time) (s : Source) (t : time) : gmap Source time :=
  if After t (default zeroTime (frontiers !! s)) then <[s := t]> frontiers else frontiers.

(** A coverage row from before the cutoff: cut at the cutoff or removed.  The
    formatted cutoff is the text of an instant as long as the clock is within the
    years 1 to 9999. *)
Definition cut_coverage (db : LogDb) (s : Source) (start end_ : Z) (logCutoff : option time) : option (bool * LogDb) :=
  match logCutoff with
  | None => Some (true, delete_coverage db s start)
  | Some lc =>
      encodeLogTime (UTC lc) ≫= λ _,
      if wall lc <? end_
      then (λ t, (false, set_coverage db s t)) <$> move_start (coverage_of db s) start (wall lc)
      else Some (true, delete_coverage db s start)
  end.

(** The loop of [pruneShared]; [budget] is [BatchSize - work]. *)
Fixpoint prune_loop (budget : nat) (db : LogDb) (cutoff logCutoff : option time) (frontiers : gmap Source time)
    (dropped : Z) : option (LogDb * gmap Source time * Z) :=
  match budget with
  | O => Some (db, frontiers, dropped)
  | S budget =>
      let continue db removed := prune_loop budget db cutoff logCutoff frontiers (dropped + Z.b2z removed) in
      oldestRetentionCandidate db cutoff logCutoff ≫= λ found,
      match found with
      | None => Some (db, frontiers, dropped)
      | Some (SampleRow m ns) => continue (delete_sample db m ns) true
      | Some (RollupRow m ns res) => continue (delete_rollup db m ns res) true
      | Some (MinuteRow s k) =>
          trimPositiveLogProof db s (Add (At k) Minute) ≫= λ '(changed, removed, db'),
          if changed : bool then continue db' removed
          else prune_loop budget (delete_minute db s k) cutoff logCutoff (raise_frontier frontiers s (past_minute k))
                 (dropped + 1)
      | Some (CoverageRow s start end_) =>
          cut_coverage db s start end_ logCutoff ≫= λ '(removed, db'), continue db' removed
      end
  end.

(** The frontier of a source never moves back. *)
Definition store_frontier (frontiers : gmap Source time) (db : LogDb) (s : Source) : option LogDb :=
  match frontiers !! s with
  | None => Some db
  | Some frontier =>
      loadLogEvictionFrontier db s ≫= λ previous,
      if match previous with Some p => negb (After frontier p) | None => false end then Some db
      else (λ key, set_meta db key (FormatLogTime frontier)) <$> logEvictionKey s
  end.

(** Log rows are kept for a week at most, whatever the retention of metrics. *)
Definition log_cutoff (retentionAge : Z) (cutoff : option time) : option time :=
  match cutoff with
  | Some c => if logRetention <? retentionAge then Some (Add c (retentionAge - logRetention)) else cutoff
  | None => None
  end.

Definition pruneShared (retentionAge batchSize : Z) (db : LogDb) (cutoff : option time) : option (Z * LogDb) :=
  prune_loop (Z.to_nat batchSize) db cutoff (log_cutoff retentionAge cutoff) ∅ 0 ≫= λ '(db, frontiers, dropped),
  (λ db, (dropped, db))
    <$> fold_left (λ acc s, acc ≫= λ db, store_frontier frontiers db s) log_sources (Some db).

(** ** Databases without the log tables *)

(** Rows in the order of ORDER BY at, metric, kind, resolution_seconds; kinds are
    ['rollup'] (0) and ['sample'] (1). *)
Definition metric_key : Type := Z * string * Z * Z.
Definition key_le (a b : metric_key) : Prop :=
  let '(t, m, k, r) := a in let '(t', m', k', r') := b in
  t < t' ∨ t = t' ∧ (String.ltb m m' = true ∨ m = m' ∧ (k < k' ∨ k = k' ∧ r ≤ r')).
#[global] Instance key_le_dec a b : Decision (key_le a b).
Proof. destruct a as [[[??]?]?], b as [[[??]?]?]. unfold key_le. apply _. Defined.

Definition sample_keys (db : LogDb) : list metric_key := (λ '(m, ns), (ns, m, 1, 0)) <$> elements (ld_samples db).
Definition rollup_keys (db : LogDb) : list metric_key := (λ '(m, ns, r), (ns, m, 0, r)) <$> elements (ld_rollups db).
Definition oldest_keys (n : Z) (l : list metric_key) : list metric_key := take (Z.to_nat n) (merge_sort key_le l).
Definition delete_key (db : LogDb) (k : metric_key) : LogDb :=
  let '(ns, m, kind, res) := k in if kind =? 1 then delete_sample db m ns else delete_rollup db m ns res.

(** DELETE the oldest before the cutoff: samples first, rollups with what is left
    of the batch. *)
Definition prune_metrics_age (batchSize : Z) (db : LogDb) (cutoff : time) : Z * LogDb :=
  let old := λ k : metric_key, k.1.1.1 < UnixNano cutoff in
  let samples := oldest_keys batchSize (filter old (sample_keys db)) in
  let count := Z.of_nat (length samples) in
  let db := fold_left delete_key samples db in
  let remaining := batchSize - count in
  if 0 <? remaining
  then let rollups := oldest_keys remaining (filter old (rollup_keys db)) in
       (count + Z.of_nat (length rollups), fold_left delete_key rollups db)
  else (count, db).

Definition prune_metrics_size (batchSize : Z) (db : LogDb) : Z * LogDb :=
  let candidates := oldest_keys batchSize (sample_keys db ++ rollup_keys db) in
  (Z.of_nat (length candidates), fold_left delete_key candidates db).

(** ** The prune transactions *)

Definition incrementCounter (db : LogDb) (key : string) (amount : Z) : LogDb :=
  MkLogDb (ld_meta db) (ld_schema db) (ld_state db) (ld_minutes db) (ld_coverage db) (ld_samples db) (ld_rollups db)
    (<[key := default 0 (ld_counters db !! key) + amount]> (ld_counters db)).
Definition count_dropped (key : string) (out : Z * LogDb) : Z * LogDb :=
  (out.1, if 0 <? out.1 then incrementCounter out.2 key out.1 else out.2).

(** [readable]: reading the log schema did not fail; if it fails the metrics alone are
    pruned. *)
Definition prune_age_tables (readable : bool) (retentionAge batchSize : Z) (cutoff : time) (db : LogDb) :
    result StoreError (Z * LogDb) :=
  if readable && validateLogSchema db
  then match pruneShared retentionAge batchSize db (Some cutoff) with
       | Some out => Ok (count_dropped "age_dropped" out)
       | None => Err StoreUnavailable
       end
  else Ok (count_dropped "age_dropped" (prune_metrics_age batchSize db cutoff)).

Definition prune_size_tables (readable : bool) (retentionAge batchSize : Z) (db : LogDb) : result StoreError (Z * LogDb) :=
  if readable && validateLogSchema db
  then match pruneShared retentionAge batchSize db None with
       | Some out => Ok (count_dropped "size_dropped" out)
       | None => Err StoreUnavailable
       end
  else Ok (count_dropped "size_dropped" (prune_metrics_size batchSize db)).

(** The counters of [Health] that pruning raises. *)
Record HealthCounters := MkHealth { hc_AgeDropped : Z; hc_SizeDropped : Z }.
Definition addAgeDropped (h : HealthCounters) (v : Z) : HealthCounters :=
  MkHealth (wrap_u64 (hc_AgeDropped h + v)) (hc_SizeDropped h).

Local Open Scope prog_scope.

Definition pruneAge (h : LogHandle) (health : HealthCounters) (cutoff : time) :
    prog StoreCall (HealthCounters * result StoreError Z) :=
  began <~ SBegin;
  if negb began then Ret (health, Err StoreUnavailable)
  else
    unread <~ SFault;
    r <- store_tx StoreUnavailable (prune_age_tables (negb unread) (lh_RetentionAge h) (lh_BatchSize h) cutoff);
    match r with
    | Ok total => Ret (addAgeDropped health total, Ok total)
    | Err e => Ret (health, Err e)
    end.

Definition pruneSize (h : LogHandle) : prog StoreCall (result StoreError Z) :=
  began <~ SBegin;
  if negb began then Ret (Err StoreUnavailable)
  else
    unread <~ SFault;
    store_tx StoreUnavailable (prune_size_tables (negb unread) (lh_RetentionAge h) (lh_BatchSize h)).
