(* ===== verification/LogRetentionSafety.v ===== *)
(** * Retention keeps the store's promises

    Pruning never fails on a store that satisfies its invariant, keeps the
    invariant, removes the oldest due rows first, and never leaves positive evidence
    over a minute whose counts are gone: neither now nor, through the eviction
    frontier, after later commits. *)

From stdpp Require Import sorting.
From S2P Require Import Prelude GoTime GoText Effects LogModel LogStatus LogCollector LogCollectorSafety LogCoverage LogCoverageSafety LogClock LogStore LogStoreTables LogStoreSafety LogStoreRefinement LogStoreCommit LogRetention.

(** ** Minima *)

Lemma list_min_spec l :
  match list_min l with Some x => x ∈ l ∧ ∀ y, y ∈ l → x ≤ y | None => l = [] end.
Proof.
  induction l as [|z l IH]; [done|]. simpl. destruct (list_min l) as [x|].
  - destruct IH as [Hin Hle]. split.
    + destruct (Z.min_spec z x) as [[_ ->]|[_ ->]]; set_solver.
    + intros y [-> |Hy]%elem_of_cons; [lia|]. specialize (Hle y Hy). lia.
  - subst. split; [set_solver|]. intros y Hy. apply list_elem_of_singleton in Hy. lia.
Qed.

Lemma first_row_spec {A} (l : list (Z * string * A)) :
  match first_row l with Some x => x ∈ l ∧ ∀ y, y ∈ l → x.1.1 ≤ y.1.1 | None => l = [] end.
Proof.
  induction l as [|z l IH]; [done|]. simpl. destruct (first_row l) as [x|].
  - destruct IH as [Hin Hle]. unfold row_before. destruct (x.1.1 <? z.1.1) eqn:E; bools; cbn [orb].
    + split; [set_solver|]. intros y [-> |Hy]%elem_of_cons; [lia|auto].
    + destruct ((x.1.1 =? z.1.1) && _) eqn:E2; bools.
      * split; [set_solver|]. intros y [-> |Hy]%elem_of_cons; [lia|auto].
      * split; [set_solver|]. intros y [-> |Hy]%elem_of_cons; [lia|]. specialize (Hle y Hy). lia.
  - subst. split; [set_solver|]. intros y Hy. apply list_elem_of_singleton in Hy. subst. lia.
Qed.

(** ** The oldest due row *)

(** The rows retention looks at. *)
Definition row_in (db : LogDb) (c : retentionCandidate) : Prop :=
  match c with
  | SampleRow m ns => m ∈ retentionMetrics ∧ (m, ns) ∈ ld_samples db
  | RollupRow m ns res => m ∈ retentionMetrics ∧ (m, ns, res) ∈ ld_rollups db
  | MinuteRow s k => s ∈ log_sources ∧ is_Some (minutes_of db s !! k)
  | CoverageRow s k e => s ∈ log_sources ∧ ∃ r, coverage_of db s !! k = Some (e, r)
  end.
Definition due (cutoff logCutoff : option time) (c : retentionCandidate) : Prop :=
  match (if is_log c then logCutoff else cutoff) with
  | Some b => wall (candidate_at c) < wall b
  | None => True
  end.
Definition age (c : retentionCandidate) : Z := wall (candidate_at c).

(** [o] is an oldest row that satisfies [P], or there is none. *)
Definition oldest_of (P : retentionCandidate → Prop) (o : option retentionCandidate) : Prop :=
  match o with Some c => P c ∧ ∀ c', P c' → age c ≤ age c' | None => ∀ c, ¬ P c end.

Lemma oldest_of_ext P Q o : (∀ c, P c ↔ Q c) → oldest_of P o → oldest_of Q o.
Proof. intros H. destruct o as [c|]; simpl; [|intros HP c ?%H; by eapply HP]. intros [H1 H2]. split; [by apply H|]. intros c' ?. by apply H2, H. Qed.

(** A table: its rows and whether they are log rows. *)
Lemma consider_spec cutoff lc found item P Q (log : bool) :
  oldest_of P found → oldest_of Q item → (∀ c, Q c → is_log c = log) →
  (∀ c, Q c → is_log c = true → validateUTC (candidate_at c) = true) →
  ∃ found', consider cutoff lc found item = Some found' ∧ oldest_of (λ c, P c ∨ Q c ∧ due cutoff lc c) found'.
Proof.
  intros HP HQ Hlog Hvalid. destruct item as [c|]; simpl.
  2: { exists found. split; [done|]. eapply oldest_of_ext; [|exact HP]. intros c. split; [by left|]. by intros [|[?%HQ ?]]. }
  destruct HQ as [Hc Hmin].
  assert (Hdec : is_log c && negb (is_some (encodeLogTime (candidate_at c))) = false).
  { destruct (is_log c) eqn:E; [|done]. by rewrite encode_valid by auto. }
  rewrite Hdec.
  assert (Hat : ∀ c', wallclock (candidate_at c')) by by intros [].
  assert (Hdue : ∀ c', Q c' → due cutoff lc c' → due cutoff lc c).
  { intros c' Hc'. unfold due. rewrite (Hlog _ Hc), (Hlog _ Hc'). specialize (Hmin _ Hc'). unfold age in Hmin.
    destruct (if log then lc else cutoff); [lia|done]. }
  set (late := match (if is_log c then lc else cutoff) with Some b => negb (Before (candidate_at c) b) | None => false end).
  assert (Hlate : late = false ↔ due cutoff lc c).
  { unfold late, due. destruct (if is_log c then lc else cutoff); [|done]. rewrite Before_wall_l by done.
    rewrite negb_false_iff. lia. }
  destruct late.
  { exists found. split; [done|]. eapply oldest_of_ext; [|exact HP]. intros c'. split; [by left|].
    intros [|[? ?%Hdue]]; [done| |done]. by apply Hlate in H0. }
  assert (Hcd : due cutoff lc c) by by apply Hlate.
  destruct found as [o|]; simpl in HP.
  - destruct HP as [Ho Homin]. eexists. split; [done|]. rewrite Before_wall_l by done. fold (age c) (age o).
    destruct (age c <? age o) eqn:E; bools; simpl.
    + split; [auto|]. intros c' [H|[H _]]; [specialize (Homin _ H); lia|auto].
    + split; [auto|]. intros c' [H|[H _]]; [auto|]. specialize (Hmin _ H). lia.
  - eexists. split; [done|]. simpl. split; [auto|]. intros c' [[]%HP|[H _]]. auto.
Qed.

Lemma elem_sample_times db m ns : ns ∈ sample_times db m ↔ (m, ns) ∈ ld_samples db.
Proof.
  unfold sample_times. rewrite list_elem_of_omap. split.
  - intros ([m' ns'] & Hin & H). destruct (str_eqb m' m) eqn:E; [|done]. bools. subst. injection H as ->. by apply elem_of_elements.
  - intros H. exists (m, ns). rewrite str_eqb_refl. split; [by apply elem_of_elements|done].
Qed.

Lemma elem_rollup_times db m ns : ns ∈ rollup_times db m ↔ ∃ res, (m, ns, res) ∈ ld_rollups db.
Proof.
  unfold rollup_times. rewrite list_elem_of_omap. split.
  - intros ([[m' ns'] r] & Hin & H). destruct (str_eqb m' m) eqn:E; [|done]. bools. subst. injection H as ->.
    exists r. by apply elem_of_elements.
  - intros [r H]. exists (m, ns, r). rewrite str_eqb_refl. split; [by apply elem_of_elements|done].
Qed.

Lemma elem_rollup_resolutions db m ns res : res ∈ rollup_resolutions db m ns ↔ (m, ns, res) ∈ ld_rollups db.
Proof.
  unfold rollup_resolutions. rewrite list_elem_of_omap. split.
  - intros ([[m' ns'] r] & Hin & H). destruct (_ && _) eqn:E; [|done]. bools. subst. injection H as ->. by apply elem_of_elements.
  - intros H. exists (m, ns, res). rewrite str_eqb_refl, Z.eqb_refl. split; [by apply elem_of_elements|done].
Qed.

Definition is_sample (c : retentionCandidate) : Prop := match c with SampleRow _ _ => True | _ => False end.
Definition is_rollup (c : retentionCandidate) : Prop := match c with RollupRow _ _ _ => True | _ => False end.
Definition is_minute (c : retentionCandidate) : Prop := match c with MinuteRow _ _ => True | _ => False end.
Definition is_coverage (c : retentionCandidate) : Prop := match c with CoverageRow _ _ _ => True | _ => False end.

(** The first row of each table is found among one candidate per key. *)
Lemma first_of {K A} (keys : list K) (pick : K → option (Z * string * A)) (mk : Z * string * A → retentionCandidate)
    (P : retentionCandidate → Prop) :
  (∀ k x, k ∈ keys → pick k = Some x → P (mk x)) →
  (∀ x y, x.1.1 ≤ y.1.1 → age (mk x) ≤ age (mk y)) →
  (∀ c, P c → ∃ k x, k ∈ keys ∧ pick k = Some x ∧ age (mk x) ≤ age c) →
  oldest_of P (mk <$> first_row (omap pick keys)).
Proof.
  intros H1 H2 H3. pose proof (first_row_spec (omap pick keys)) as Hf. destruct (first_row _) as [x|]; simpl.
  - destruct Hf as [(k & Hk & Hx)%list_elem_of_omap Hmin]. split; [by eapply H1|].
    intros c (k' & y & Hk' & Hy & Hle)%H3. specialize (H2 x y). specialize (Hmin y).
    assert (y ∈ omap pick keys) by (apply list_elem_of_omap; eauto). specialize (Hmin H). lia.
  - intros c (k & x & Hk & Hx & _)%H3. assert (x ∈ omap pick keys) by (apply list_elem_of_omap; eauto).
    rewrite Hf in H. by apply not_elem_of_nil in H.
Qed.

Lemma head_in_order {A} (m : gmap Z A) :
  match head (in_order m) with
  | Some r => m !! r.1 = Some r.2 ∧ ∀ k, is_Some (m !! k) → r.1 ≤ k
  | None => ∀ k, m !! k = None
  end.
Proof.
  pose proof (in_order_increasing m) as Hi. pose proof (in_order_elem m) as He.
  destruct (in_order m) as [|[k x] l]; simpl.
  - intros k. apply eq_None_not_Some. intros [x Hx]. apply He in Hx. by apply not_elem_of_nil in Hx.
  - split; [by apply He; left|]. intros k' [x' Hx']. apply He, elem_of_cons in Hx' as [[= -> _]|Hin]; [done|].
    apply StronglySorted_inv in Hi as [_ Hf]. rewrite Forall_forall in Hf. specialize (Hf _ Hin). simpl in Hf. lia.
Qed.

Lemma oldest_sample_spec db : oldest_of (λ c, row_in db c ∧ is_sample c) (oldest_sample db).
Proof.
  unfold oldest_sample. apply (first_of retentionMetrics).
  - intros m x Hm. pose proof (list_min_spec (sample_times db m)) as H. destruct (list_min _) as [ns|]; [|done].
    intros [= <-]. destruct H as [H%elem_sample_times _]. done.
  - intros [[a m] []] [[b m'] []]. unfold age. simpl. lia.
  - intros [m ns| | |] [[Hm Hin] []]. pose proof (list_min_spec (sample_times db m)) as H.
    apply elem_sample_times in Hin. exists m. destruct (list_min _) as [x|]; [|rewrite H in Hin; by apply not_elem_of_nil in Hin].
    exists (x, m, tt). split; [done|]. split; [done|]. unfold age. simpl. destruct H as [_ H]. specialize (H _ Hin). lia.
Qed.

Lemma oldest_rollup_spec db : oldest_of (λ c, row_in db c ∧ is_rollup c) (oldest_rollup db).
Proof.
  unfold oldest_rollup. apply (first_of retentionMetrics).
  - intros m x Hm. destruct (list_min (rollup_times db m)) as [ns|]; [|done]. simpl.
    pose proof (list_min_spec (rollup_resolutions db m ns)) as H. destruct (list_min _) as [res|]; [|done].
    intros [= <-]. destruct H as [H%elem_rollup_resolutions _]. done.
  - intros [[a m] ?] [[b m'] ?]. unfold age. simpl. lia.
  - intros [|m ns res| |] [[Hm Hin] []]. pose proof (list_min_spec (rollup_times db m)) as H.
    assert (Ht : ns ∈ rollup_times db m) by (apply elem_rollup_times; eauto). exists m.
    destruct (list_min (rollup_times db m)) as [x|]; [|rewrite H in Ht; by apply not_elem_of_nil in Ht]. simpl.
    destruct H as [[r Hr]%elem_rollup_times Hle]. specialize (Hle _ Ht).
    pose proof (list_min_spec (rollup_resolutions db m x)) as Hres.
    destruct (list_min _) as [y|]; [|apply elem_rollup_resolutions in Hr; rewrite Hres in Hr; by apply not_elem_of_nil in Hr].
    exists (x, m, y). split; [done|]. split; [done|]. unfold age. simpl. lia.
Qed.

Lemma oldest_minute_spec db : oldest_of (λ c, row_in db c ∧ is_minute c) (oldest_minute db).
Proof.
  unfold oldest_minute. apply (first_of log_sources).
  - intros s x Hs. pose proof (head_in_order (minutes_of db s)) as H. destruct (head _) as [r|]; [|done].
    intros [= <-]. destruct H as [H _]. simpl. split; [|done]. split; [done|by eexists].
  - intros [[a ?] ?] [[b ?] ?]. unfold age. simpl. lia.
  - intros [| |s k|] [[Hs Hin] []]. pose proof (head_in_order (minutes_of db s)) as H. exists s.
    destruct (head _) as [r|]; [|by rewrite H in Hin; destruct Hin].
    exists (r.1, source_text s, s). split; [done|]. split; [done|]. unfold age. simpl. by apply H.
Qed.

Lemma oldest_coverage_spec db : oldest_of (λ c, row_in db c ∧ is_coverage c) (oldest_coverage db).
Proof.
  unfold oldest_coverage. apply (first_of log_sources).
  - intros s x Hs. pose proof (head_in_order (coverage_of db s)) as H. destruct (head _) as [[k [e r]]|]; [|done].
    intros [= <-]. destruct H as [H _]. simpl. split; [|done]. split; [done|by eexists].
  - intros [[a ?] [? ?]] [[b ?] [? ?]]. unfold age. simpl. lia.
  - intros c [Hc Hk]. destruct c as [| | |s k e]; try done. destruct Hc as [Hs [r Hr]]. pose proof (head_in_order (coverage_of db s)) as H. exists s.
    destruct (head _) as [x|]; [|by rewrite H in Hr].
    exists (x.1, source_text s, (s, x.2.1)). split; [done|]. split; [done|]. unfold age. simpl. apply H. by eexists.
Qed.

Lemma log_sources_valid s : s ∈ log_sources ↔ Source_Validate s = true.
Proof. unfold log_sources. destruct s; simpl; set_solver. Qed.

Lemma row_valid db c : store_ok db → row_in db c → is_log c = true → validateUTC (candidate_at c) = true.
Proof.
  intros Hok Hc Hlog. destruct c as [| |s k|s k e]; try done; destruct Hc as [Hs%log_sources_valid Hc];
    destruct (so_sources _ Hok _ Hs) as [_ Hrows Hmin _].
  - destruct Hc as [x Hx]. by apply Hmin in Hx as [[? _] _].
  - destruct Hc as [r Hr]. apply rows_lookup, list_elem_of_fmap in Hr as (seg & E & Hin).
    destruct (chain_valid _ _ _ Hrows Hin) as [(Hv & _ & _)%validSegment_parts _]. injection E as -> _ _. simpl.
    by rewrite <- (validUTC_At _ Hv).
Qed.

(** On a well-formed store the search succeeds with an oldest due row. *)
Lemma oldestRetentionCandidate_spec db cutoff lc :
  store_ok db →
  ∃ found, oldestRetentionCandidate db cutoff lc = Some found ∧ oldest_of (λ c, row_in db c ∧ due cutoff lc c) found.
Proof.
  intros Hok. unfold oldestRetentionCandidate. cbn [fold_left mbind option_bind].
  destruct (consider_spec cutoff lc None (oldest_sample db) (λ _, False) _ false ltac:(by intros ? ?) (oldest_sample_spec db))
    as (f1 & E1 & H1); [by intros [] [_ ?]|intros c [? ?] ?; by apply (row_valid db)|]. rewrite E1. cbn [mbind option_bind].
  destruct (consider_spec cutoff lc f1 (oldest_rollup db) _ _ false H1 (oldest_rollup_spec db))
    as (f2 & E2 & H2); [by intros [] [_ ?]|intros c [? ?] ?; by apply (row_valid db)|]. rewrite E2. cbn [mbind option_bind].
  destruct (consider_spec cutoff lc f2 (oldest_minute db) _ _ true H2 (oldest_minute_spec db))
    as (f3 & E3 & H3); [by intros [] [_ ?]|intros c [? ?] ?; by apply (row_valid db)|]. rewrite E3. cbn [mbind option_bind].
  destruct (consider_spec cutoff lc f3 (oldest_coverage db) _ _ true H3 (oldest_coverage_spec db))
    as (f4 & E4 & H4); [by intros [] [_ ?]|intros c [? ?] ?; by apply (row_valid db)|]. exists f4. split; [done|].
  eapply oldest_of_ext; [|exact H4]. intros c. simpl. destruct c; simpl; tauto.
Qed.

(** ** Evidence that only shrinks *)

(** [l'] is [l] with some segments removed or cut at their start, none of it from
    [bound] on. *)
Record shrinks (bound : Z) (l l' : list logCoverageSegment) : Prop := {
  sh_chain : chain 0 l';
  sh_from : ∀ seg', seg' ∈ l' → ∃ seg, seg ∈ l ∧ wall (sg_Start seg) ≤ wall (sg_Start seg')
    ∧ sg_End seg = sg_End seg' ∧ sg_Reason seg = sg_Reason seg';
  sh_after : ∀ x, bound ≤ x → reason_at l' x = reason_at l x }.

Lemma shrinks_refl bound l : chain 0 l → shrinks bound l l.
Proof. intros Hc. split; [done| |done]. intros seg Hs. by exists seg. Qed.

Lemma shrinks_trans b1 b2 b l1 l2 l3 : b1 ≤ b → b2 ≤ b → shrinks b1 l1 l2 → shrinks b2 l2 l3 → shrinks b l1 l3.
Proof.
  intros Hb1 Hb2 [_ F1 A1] [C2 F2 A2]. split; [done| |].
  - intros seg (s2 & (s1 & H1 & ? & E1 & R1)%F1 & ? & E2 & R2)%F2. exists s1. split; [done|]. split; [lia|]. by rewrite E1, R1.
  - intros x Hx. by rewrite A2, A1 by lia.
Qed.

Lemma row_split db s k e r :
  coverage_of db s !! k = Some (e, r) → ∃ pre post, rows db s = pre ++ MkSeg (At k) (At e) r :: post.
Proof.
  intros Hin%in_order_elem. apply (list_elem_of_fmap_2 segment_of) in Hin.
  apply list_elem_of_split in Hin as (pre & post & E). by exists pre, post.
Qed.

(** Replacing a row in the middle by a shorter one, or by nothing. *)
Lemma replace_row db s pre seg mid post t bound :
  rows db s = pre ++ seg :: post → chain 0 (rows db s) →
  (mid = [] ∧ wall (sg_End seg) ≤ bound
   ∨ ∃ n, mid = [MkSeg (At n) (sg_End seg) (sg_Reason seg)] ∧ wall (sg_Start seg) ≤ n ≤ bound ∧ n < wall (sg_End seg)) →
  (∀ k x, t !! k = Some x ↔ (k, x) ∈ row_of <$> (pre ++ mid ++ post)) →
  rows (set_coverage db s t) s = pre ++ mid ++ post ∧ shrinks bound (rows db s) (pre ++ mid ++ post).
Proof.
  intros E Hc Hmid Ht. rewrite E in Hc. pose proof Hc as Hall. apply chain_app in Hc as [Hpre (Hlo & Hv & Hpost)].
  apply validSegment_iff in Hv as (V1 & V2 & Hlt & Hr).
  assert (Hchain : chain 0 (pre ++ mid ++ post)).
  { apply chain_app. split; [done|]. destruct Hmid as [[-> _]|(n & -> & Hn & Hne)]; simpl.
    - eapply chain_weaken; [|exact Hpost]. lia.
    - split; [simpl; lia|]. split; [|done]. apply validSegment_iff. simpl. rewrite V2, Hr.
      unfold validateUTC, year_ok, IsZero in *. simpl in *. bools. repeat split; try lia.
      replace (n =? 0) with false by lia. replace (0 <=? n) with true by lia. by replace (n <? year10000) with true by lia. }
  split.
  - eapply rows_unique; [exact Hchain|]. intros k x. unfold coverage_of. simpl. rewrite lookup_insert_eq. apply Ht.
  - rewrite E. split; [done| |].
    + intros seg'. rewrite !elem_of_app. intros [H|[H|H]]; [exists seg'; set_solver| |exists seg'; set_solver].
      destruct Hmid as [[-> _]|(n & -> & Hn & _)]; [by apply not_elem_of_nil in H|].
      apply list_elem_of_singleton in H as ->. exists seg. split; [set_solver|]. simpl. split; [lia|done].
    + intros x Hx. rewrite !reason_at_app. simpl. destruct (reason_at pre x); [done|]. unfold in_seg.
      destruct Hmid as [[-> He]|(n & -> & Hn & _)]; simpl.
      * by replace (x <? wall (sg_End seg)) with false by lia; rewrite andb_false_r.
      * unfold in_seg. simpl. replace (n <=? x) with true by lia. replace (wall (sg_Start seg) <=? x) with true by lia. simpl.
        by destruct (x <? wall (sg_End seg)).
Qed.

(** The table without one of its rows. *)
Lemma delete_row db s pre seg post :
  rows db s = pre ++ seg :: post → chain 0 (rows db s) →
  ∀ k x, delete (wall (sg_Start seg)) (coverage_of db s) !! k = Some x ↔ (k, x) ∈ row_of <$> (pre ++ post).
Proof.
  intros E Hc k x. rewrite lookup_delete_Some, rows_lookup. pose proof (chain_starts _ _ Hc) as Hn. rewrite E in *.
  unfold starts in Hn. rewrite fmap_app, fmap_cons in Hn. apply NoDup_app in Hn as (_ & Hd & [Hp _]%NoDup_cons).
  rewrite !fmap_app, fmap_cons, !elem_of_app, elem_of_cons. split.
  - intros [Hne [?|[[= -> _]|?]]]; [by left|done|by right].
  - intros [H|H]; (split; [|auto]); intros <-; apply row_in_starts in H; [eapply Hd; [exact H|by left]|done].
Qed.

Lemma delete_coverage_rows db s k e r :
  chain 0 (rows db s) → coverage_of db s !! k = Some (e, r) →
  shrinks e (rows db s) (rows (delete_coverage db s k) s).
Proof.
  intros Hc Hk. destruct (row_split _ _ _ _ _ Hk) as (pre & post & E).
  destruct (replace_row db s pre (MkSeg (At k) (At e) r) [] post (delete k (coverage_of db s)) e E Hc) as [E' H];
    [by left|exact (delete_row _ _ _ _ _ E Hc)|]. unfold delete_coverage. by rewrite E'.
Qed.

Lemma move_start_rows db s k e r n :
  chain 0 (rows db s) → coverage_of db s !! k = Some (e, r) → k < n < e →
  ∃ t, move_start (coverage_of db s) k n = Some t ∧ shrinks n (rows db s) (rows (set_coverage db s t) s)
    ∧ ∀ seg, seg ∈ rows (set_coverage db s t) s → sg_Reason seg = r → wall (sg_Start seg) ≠ k.
Proof.
  intros Hc Hk Hn. destruct (row_split _ _ _ _ _ Hk) as (pre & post & E).
  pose proof (delete_row _ _ _ _ _ E Hc) as Hdel. simpl in Hdel.
  assert (Hfresh : delete k (coverage_of db s) !! n = None).
  { destruct (_ !! n) as [x|] eqn:Ex; [|done]. exfalso. apply Hdel in Ex. rewrite fmap_app, elem_of_app in Ex.
    pose proof Hc as Hc'. rewrite E in Hc'. apply chain_app in Hc' as [Hp (Hlo & _ & Hpost)]. simpl in *.
    destruct Ex as [Ex|Ex]; apply list_elem_of_fmap in Ex as (y & [= Ey _] & Hy).
    - pose proof (chain_end _ _ _ Hp Hy). destruct (chain_valid _ _ _ Hp Hy) as [(_ & _ & ?)%validSegment_parts _]. lia.
    - destruct (chain_valid _ _ _ Hpost Hy) as [_ ?]. lia. }
  unfold move_start. rewrite Hk. replace (n <? e) with true by lia. simpl negb. cbv iota. rewrite Hfresh.
  eexists. split; [done|].
  destruct (replace_row db s pre (MkSeg (At k) (At e) r) [MkSeg (At n) (At e) r] post (<[n := (e, r)]> (delete k (coverage_of db s))) n E Hc)
    as [E' H].
  - right. exists n. simpl. split; [done|]. lia.
  - intros k' x. rewrite lookup_insert_Some, Hdel, !fmap_app, !elem_of_app. simpl. rewrite list_elem_of_singleton. split.
    + intros [[<- <-]|[_ []]]; auto.
    + intros [Hin|[[= -> ->]|Hin]]; [right|auto|right]; (split; [|by auto]); intros <-;
        assert (Hx : delete k (coverage_of db s) !! n = Some x)
          by (apply Hdel; rewrite fmap_app, elem_of_app; auto); by rewrite Hfresh in Hx.
  - rewrite E'. split; [done|]. intros seg Hseg _ Ek. assert (Hl : (k, (row_of seg).2) ∈ row_of <$> (pre ++ post)).
    { rewrite !elem_of_app, list_elem_of_singleton in Hseg.
      replace (k, (row_of seg).2) with (row_of seg) by (unfold row_of; simpl; by rewrite Ek).
      apply (list_elem_of_fmap_2 row_of). destruct Hseg as [?|[-> |?]]; [set_solver|simpl in Ek; lia|set_solver]. }
    apply Hdel in Hl. by rewrite lookup_delete_eq in Hl.
Qed.

(** ** Sums *)

Lemma sum_inner (f : BucketCounts → Z) (m : gmap Z BucketCounts) acc :
  map_fold (λ _ c acc, f c + acc) acc m = map_fold (λ _ c acc, f c + acc) 0 m + acc.
Proof.
  change (map_fold (λ (_ : Z) c acc, f c + acc) ((λ x, x + acc) 0) m = (λ x, x + acc) (map_fold (λ _ c acc, f c + acc) 0 m)).
  apply (map_fold_comm_acc (λ (_ : Z) c acc, f c + acc) (λ x, x + acc)). intros; lia.
Qed.

Lemma sum_minutes_delete f db s k c :
  minutes_of db s !! k = Some c → sum_minutes f db = f c + sum_minutes f (delete_minute db s k).
Proof.
  unfold minutes_of at 1. destruct (ld_minutes db !! s) as [m|] eqn:Es; simpl; [|by rewrite lookup_empty]. intros Hk.
  set (F := λ (_ : Source) (m : gmap Z BucketCounts) acc, map_fold (λ _ c acc, f c + acc) acc m).
  assert (Hcomm : ∀ (j1 j2 : Source) (z1 z2 : gmap Z BucketCounts) (y : Z), F j1 z1 (F j2 z2 y) = F j2 z2 (F j1 z1 y)).
  { intros. unfold F. rewrite (sum_inner f z1), (sum_inner f z2), (sum_inner f z2 (map_fold _ y z1)), (sum_inner f z1 y). lia. }
  assert (Hinner : map_fold (λ _ c acc, f c + acc) 0 m = f c + map_fold (λ _ c acc, f c + acc) 0 (delete k m)).
  { apply (map_fold_delete_L (λ (_ : Z) c acc, f c + acc)); [intros; lia|done]. }
  unfold sum_minutes. fold F.
  rewrite (map_fold_delete_L F 0 s m (ld_minutes db)) by (try done; intros; apply Hcomm).
  unfold delete_minute, minutes_of. rewrite Es. simpl.
  rewrite (map_fold_delete_L F 0 s (delete k m) (<[s := delete k m]> (ld_minutes db))) by
    (first [by rewrite lookup_insert_eq|intros; apply Hcomm]).
  rewrite delete_insert_eq. generalize (map_fold F 0 (delete s (ld_minutes db))). intros acc. unfold F.
  rewrite (sum_inner f m acc), (sum_inner f (delete k m) acc), Hinner. lia.
Qed.

(** ** What pruning has done so far *)

(** Against the tables [db0] it started from, with the frontiers [fr] it owes. *)
Record pruned (cutoff lc : option time) (db0 db : LogDb) (fr : gmap Source time) : Prop := {
  pr_ok : store_ok db;
  pr_meta : ld_meta db = ld_meta db0 ∧ ld_state db = ld_state db0;
  pr_rows : ∀ s, Source_Validate s = true →
    ∃ bound, (∀ b, lc = Some b → bound ≤ wall b + Minute) ∧ shrinks bound (rows db0 s) (rows db s);
  pr_minutes : ∀ s k c, minutes_of db s !! k = Some c → minutes_of db0 s !! k = Some c;
  pr_kept : ∀ b s k, lc = Some b → wall b ≤ k → minutes_of db s !! k = minutes_of db0 s !! k;
  pr_gone : ∀ s k, is_Some (minutes_of db0 s !! k) → minutes_of db s !! k = None →
    ∃ t, fr !! s = Some t ∧ wall (past_minute k) ≤ wall t;
  pr_front : ∀ s t, fr !! s = Some t → Source_Validate s = true ∧ validateUTC t = true
    ∧ ∀ seg, seg ∈ rows db s → sg_Reason seg = ReasonEmpty → wall t ≤ wall (sg_Start seg);
  pr_samples : ld_samples db ⊆ ld_samples db0
    ∧ ∀ m ns, (m, ns) ∈ ld_samples db0 → (m, ns) ∈ ld_samples db ∨ due cutoff lc (SampleRow m ns);
  pr_rollups : ld_rollups db ⊆ ld_rollups db0
    ∧ ∀ m ns r, (m, ns, r) ∈ ld_rollups db0 → (m, ns, r) ∈ ld_rollups db ∨ due cutoff lc (RollupRow m ns r) }.

Lemma pruned_refl cutoff lc db : store_ok db → pruned cutoff lc db db ∅.
Proof.
  intros Hok. split; auto.
  - intros s Hs. exists (match lc with Some b => wall b + Minute | None => 0 end). split; [by intros b ->|].
    apply shrinks_refl. by apply (so_sources _ Hok s Hs).
  - intros s k [c Hc] Hn. by rewrite Hc in Hn.
  - intros s t. by rewrite lookup_empty.
Qed.

Lemma set_coverage_other db s t s' : s' ≠ s → coverage_of (set_coverage db s t) s' = coverage_of db s'.
Proof. intros Hne. unfold coverage_of. simpl. by rewrite lookup_insert_ne. Qed.

Lemma shrink_source db s t bound :
  source_ok db s → shrinks bound (rows db s) (rows (set_coverage db s t) s) → source_ok (set_coverage db s t) s.
Proof.
  intros [(st & Hst & He & Hv) _ Hm (f & Hf & Hp)] [Hc Hfrom _]. split; [| |done|].
  - exists st. split; [done|]. split; [|done]. intros seg (seg0 & Hin & _ & E & _)%Hfrom. rewrite <- E. by apply He.
  - done.
  - exists f. split; [done|]. intros u Hu seg (seg0 & Hin & Hle & _ & Er)%Hfrom Hr. rewrite <- Er in Hr.
    specialize (Hp u Hu _ Hin Hr). lia.
Qed.

Lemma pruned_coverage cutoff lc db0 db fr s t bound :
  pruned cutoff lc db0 db fr → Source_Validate s = true → (∀ b, lc = Some b → bound ≤ wall b + Minute) →
  shrinks bound (rows db s) (rows (set_coverage db s t) s) → pruned cutoff lc db0 (set_coverage db s t) fr.
Proof.
  intros [Hok Hmeta Hrows Hmin Hkept Hgone Hfront Hsamp Hroll] Hs Hb Hsh. destruct Hok as [S1 S2 S3 S4].
  assert (Hother : ∀ s', s' ≠ s → rows (set_coverage db s t) s' = rows db s')
    by (intros s' Hne; unfold rows; by rewrite set_coverage_other).
  split; auto.
  - split; auto. intros s' Hs'. destruct (decide (s' = s)) as [-> |Hne]; [by eapply shrink_source; [apply S1|]|].
    apply (source_ok_ext db); auto. by apply set_coverage_other.
  - intros s' Hs'. destruct (Hrows s' Hs') as (b0 & Hb0 & Hsh0). destruct (decide (s' = s)) as [-> |Hne].
    + exists (Z.max b0 bound). split; [intros b Hb'; specialize (Hb b Hb'); specialize (Hb0 b Hb'); lia|].
      eapply (shrinks_trans b0 bound); [lia|lia|exact Hsh0|exact Hsh].
    + exists b0. by rewrite Hother.
  - intros s' u Hu. destruct (Hfront s' u Hu) as (? & ? & Hp). do 2 (split; [done|]). intros seg.
    destruct (decide (s' = s)) as [-> |Hne]; [|rewrite Hother by done; apply Hp].
    intros (seg0 & Hin & Hle & _ & Er)%(sh_from _ _ _ Hsh) Hr. rewrite <- Er in Hr. specialize (Hp _ Hin Hr). lia.
Qed.

Lemma minute_check_nonneg c : minute_check c = true → 0 ≤ bc_Captured c ∧ 0 ≤ bc_Discarded c.
Proof. unfold minute_check. destruct c as [? ? []]. simpl. intros. bools. lia. Qed.

Lemma minutes_delete db s k s' k' :
  minutes_of (delete_minute db s k) s' !! k' = if decide (s' = s ∧ k' = k) then None else minutes_of db s' !! k'.
Proof.
  unfold delete_minute, minutes_of at 1. simpl. destruct (decide (s' = s)) as [-> |Hne].
  - rewrite lookup_insert_eq. simpl. destruct (decide (k' = k)) as [-> |Hk].
    + by rewrite lookup_delete_eq, decide_True.
    + rewrite lookup_delete_ne by done. by rewrite decide_False by tauto.
  - rewrite lookup_insert_ne by done. by rewrite decide_False by tauto.
Qed.

Lemma delete_minute_ok db s k c :
  store_ok db → Source_Validate s = true → minutes_of db s !! k = Some c → store_ok (delete_minute db s k).
Proof.
  intros Hok Hs Hc. pose proof Hok as [S1 S2 S3 S4].
  rewrite (sum_minutes_delete _ _ _ _ _ Hc) in S3. rewrite (sum_minutes_delete _ _ _ _ _ Hc) in S4.
  pose proof (sk_minutes _ _ (S1 s Hs) _ _ Hc) as [_ [? ?]%minute_check_nonneg].
  split; [| |lia|lia].
  - intros s' Hs'. destruct (S1 s' Hs') as [H1 H2 H3 H4]. split; auto. intros k' c'. rewrite minutes_delete.
    destruct (decide _); [done|]. apply H3.
  - intros s' [m Hm]. simpl in Hm. apply lookup_insert_Some in Hm as [[<- _]|[_ Hm]]; [done|]. apply S2. by eexists.
Qed.

Lemma past_minute_spec k :
  validateUTC (At k) = true → validateUTC (past_minute k) = true ∧ wall (past_minute k) ≤ k + Minute
  ∧ (wall (past_minute k) = k + Minute ∨ wall (past_minute k) = year10000 - 1).
Proof.
  intros Hk. unfold past_minute. simpl. unfold validateUTC, IsZero, year_ok in *. simpl in *. bools.
  destruct (year10000 <=? k + Minute) eqn:E; bools; simpl.
  - split; [done|]. split; [lia|by right].
  - assert (0 < Minute) by done. replace (k + Minute =? 0) with false by lia. replace (0 <=? k + Minute) with true by lia.
    replace (k + Minute <? year10000) with true by lia. split; [done|]. split; [lia|by left].
Qed.

Lemma raise_frontier_spec fr s u s' t :
  (raise_frontier fr s u) !! s' = Some t → validateUTC u = true →
  (s' = s ∧ t = u) ∨ fr !! s' = Some t.
Proof.
  unfold raise_frontier. intros H _. destruct (After _ _); [|by right].
  apply lookup_insert_Some in H as [[<- <-]|[_ ?]]; [by left|by right].
Qed.

Lemma raise_frontier_reaches fr s u :
  validateUTC u = true → (∀ t, fr !! s = Some t → validateUTC t = true) →
  ∃ t, raise_frontier fr s u !! s = Some t ∧ wall u ≤ wall t ∧ ∀ t0, fr !! s = Some t0 → wall t0 ≤ wall t.
Proof.
  intros Hu Hv. unfold raise_frontier. rewrite After_wall_l by auto with observer.
  destruct (fr !! s) as [t0|] eqn:E; simpl.
  - destruct (wall t0 <? wall u) eqn:El; bools; [exists u; rewrite lookup_insert_eq|exists t0; rewrite E];
      (split; [done|split; [lia|intros ? [= <-]; lia]]).
  - assert (0 < wall u) by (unfold validateUTC, IsZero, year_ok in Hu; bools; lia).
    replace (0 <? wall u) with true by lia. exists u. rewrite lookup_insert_eq. split; [done|]. split; [lia|done].
Qed.

Lemma pruned_minute cutoff lc db0 db fr s k c :
  pruned cutoff lc db0 db fr → Source_Validate s = true → minutes_of db s !! k = Some c →
  due cutoff lc (MinuteRow s k) →
  (∀ seg, seg ∈ rows db s → sg_Reason seg = ReasonEmpty → k + Minute ≤ wall (sg_Start seg)) →
  pruned cutoff lc db0 (delete_minute db s k) (raise_frontier fr s (past_minute k)).
Proof.
  intros Hpr Hs Hc Hdue Hpos. pose proof Hpr as [Hok Hmeta Hrows Hmin Hkept Hgone Hfront Hsamp Hroll].
  destruct (sk_minutes _ _ (so_sources _ Hok s Hs) _ _ Hc) as [[Hk _] _].
  destruct (past_minute_spec k Hk) as (Hv & Hle & _).
  destruct (raise_frontier_reaches fr s (past_minute k) Hv) as (tt' & Ht & Hut & Hup).
  { intros t Ht. by apply Hfront in Ht as (_ & ? & _). }
  split; auto.
  - by eapply delete_minute_ok.
  - intros s' k' c'. rewrite minutes_delete. destruct (decide _); [done|]. apply Hmin.
  - intros b s' k' Hb Hk'. rewrite minutes_delete. destruct (decide _) as [[-> ->]|_]; [|by eapply Hkept].
    unfold due in Hdue. simpl in Hdue. rewrite Hb in Hdue. lia.
  - intros s' k' Hin. rewrite minutes_delete. destruct (decide _) as [[-> ->]|Hne]; [intros _; by exists tt'|].
    intros Hn. destruct (Hgone _ _ Hin Hn) as (t0 & Ht0 & Hle0). destruct (decide (s' = s)) as [-> |Hs'].
    + exists tt'. split; [done|]. specialize (Hup _ Ht0). lia.
    + exists t0. split; [|done]. unfold raise_frontier. destruct (After _ _); [by rewrite lookup_insert_ne|done].
  - intros s' t [[-> ->]|Ht']%raise_frontier_spec; [| |done].
    + split; [done|]. split; [done|]. intros seg Hin Hr. specialize (Hpos seg Hin Hr). lia.
    + by apply Hfront.
Qed.

Lemma pruned_metrics cutoff lc db0 db fr samples rollups :
  pruned cutoff lc db0 db fr → samples ⊆ ld_samples db → rollups ⊆ ld_rollups db →
  (∀ m ns, (m, ns) ∈ ld_samples db → (m, ns) ∈ samples ∨ due cutoff lc (SampleRow m ns)) →
  (∀ m ns r, (m, ns, r) ∈ ld_rollups db → (m, ns, r) ∈ rollups ∨ due cutoff lc (RollupRow m ns r)) →
  pruned cutoff lc db0 (set_metrics db samples rollups) fr.
Proof.
  intros [[S1 S2 S3 S4] Hmeta Hrows Hmin Hkept Hgone Hfront [Hs1 Hs2] [Hr1 Hr2]] Hs Hr Hsd Hrd. split; auto.
  - split; auto. intros s Hv. by apply (source_ok_ext db); auto.
  - split; [set_solver|]. intros m ns [?|?]%Hs2; auto.
  - split; [set_solver|]. intros m ns r [?|?]%Hr2; auto.
Qed.

(** ** The steps of the loop *)

Lemma increasing_filter {A} (P : Z * A → Prop) `{∀ x, Decision (P x)} l : increasing l → increasing (filter P l).
Proof.
  induction 1 as [|a l Hl IH Ha]; [constructor|]. rewrite filter_cons. destruct (decide (P a)); [|done].
  constructor; [done|]. rewrite Forall_forall in *. intros b [_ Hb]%list_elem_of_filter. auto.
Qed.

Lemma trim_spec db s k :
  source_ok db s → minute_key k →
  (∃ removed t bound, trimPositiveLogProof db s (Add (At k) Minute) = Some (true, removed, set_coverage db s t)
     ∧ bound ≤ k + Minute ∧ shrinks bound (rows db s) (rows (set_coverage db s t) s))
  ∨ trimPositiveLogProof db s (Add (At k) Minute) = Some (false, false, db)
    ∧ ∀ seg, seg ∈ rows db s → sg_Reason seg = ReasonEmpty → k + Minute ≤ wall (sg_Start seg).
Proof.
  intros [_ Hc _ _] _. unfold trimPositiveLogProof.
  set (positive := λ row : Z * (Z * ReasonCode), row.2.2 = ReasonEmpty).
  assert (Hpos : ∀ seg, seg ∈ rows db s → sg_Reason seg = ReasonEmpty →
    row_of seg ∈ filter positive (in_order (coverage_of db s))).
  { intros seg Hin Hr. apply list_elem_of_filter. split; [done|]. rewrite <- rows_rows.
    by apply (list_elem_of_fmap_2 row_of). }
  assert (Hsort : increasing (filter positive (in_order (coverage_of db s)))).
  { apply increasing_filter, in_order_increasing. }
  destruct (filter positive _) as [|[st [en r]] l] eqn:Ef; simpl.
  { right. split; [done|]. intros seg Hin Hr. specialize (Hpos seg Hin Hr). by apply not_elem_of_nil in Hpos. }
  assert (Hrow : coverage_of db s !! st = Some (en, r)).
  { apply in_order_elem. eapply (list_elem_of_filter positive). rewrite Ef. left. }
  assert (Hseg : ∃ seg, seg ∈ rows db s ∧ row_of seg = (st, (en, r)) ∧ validLogSegment seg = true).
  { apply rows_lookup, list_elem_of_fmap in Hrow as (seg & E & Hin). exists seg. split; [done|].
    split; [done|]. by eapply chain_valid. }
  destruct Hseg as (seg & Hin & [= E1 E2 E3] & (V1 & V2 & _)%validSegment_parts).
  rewrite (validUTC_At _ V1), E1 in V1. rewrite (validUTC_At _ V2), E2 in V2.
  rewrite !encode_valid by done. rewrite Before_wall_l, After_wall_l by done. simpl.
  destruct (st <? k + Minute) eqn:Est; bools; simpl.
  - left. destruct (k + Minute <? en) eqn:Een; bools.
    + destruct (move_start_rows db s st en r (k + Minute) Hc Hrow ltac:(lia)) as (t & -> & Hsh & _).
      exists false, t, (k + Minute). done.
    + exists true, (delete st (coverage_of db s)), en. split; [done|]. split; [done|].
      exact (delete_coverage_rows db s st en r Hc Hrow).
  - right. split; [done|]. intros seg' Hin' Hr'. specialize (Hpos _ Hin' Hr'). apply elem_of_cons in Hpos as [[= -> _ _]|Hl]; [done|].
    apply StronglySorted_inv in Hsort as [_ Hf]. rewrite Forall_forall in Hf. specialize (Hf _ Hl). simpl in Hf. lia.
Qed.

Lemma cut_spec db s k e r lc :
  source_ok db s → coverage_of db s !! k = Some (e, r) →
  (∀ b, lc = Some b → validateUTC (UTC b) = true ∧ k < wall b) →
  ∃ removed t bound, cut_coverage db s k e lc = Some (removed, set_coverage db s t)
    ∧ (∀ b, lc = Some b → bound ≤ wall b) ∧ shrinks bound (rows db s) (rows (set_coverage db s t) s).
Proof.
  intros [_ Hc _ _] Hrow Hlc. unfold cut_coverage. pose proof (delete_coverage_rows db s k e r Hc Hrow) as Hdel.
  destruct lc as [b|].
  - destruct (Hlc b eq_refl) as [Hb Hkb]. rewrite encode_valid by done. simpl. destruct (wall b <? e) eqn:E; bools.
    + destruct (move_start_rows db s k e r (wall b) Hc Hrow ltac:(lia)) as (t & -> & Hsh & _).
      exists false, t, (wall b). split; [done|]. split; [|done]. intros ? [= <-]. lia.
    + exists true, (delete k (coverage_of db s)), e. split; [done|]. split; [|done]. intros ? [= <-]. lia.
  - by exists true, (delete k (coverage_of db s)), e.
Qed.

(** The loop never fails, and keeps what pruning has promised so far. *)
Lemma prune_loop_spec cutoff lc db0 budget db fr dropped :
  (∀ b, lc = Some b → validateUTC (UTC b) = true) → pruned cutoff lc db0 db fr →
  ∃ db' fr' dropped', prune_loop budget db cutoff lc fr dropped = Some (db', fr', dropped')
    ∧ pruned cutoff lc db0 db' fr' ∧ dropped ≤ dropped' ≤ dropped + Z.of_nat budget.
Proof.
  intros Hlc. revert db fr dropped. induction budget as [|budget IH]; intros db fr dropped Hpr.
  { exists db, fr, dropped. split; [done|]. split; [done|lia]. }
  cbn [prune_loop]. pose proof (pr_ok _ _ _ _ _ Hpr) as Hok.
  destruct (oldestRetentionCandidate_spec db cutoff lc Hok) as (found & -> & Hfound). cbn [mbind option_bind].
  assert (Hgo : ∀ db1 fr1 (d : Z), pruned cutoff lc db0 db1 fr1 → dropped ≤ d ≤ dropped + 1 →
    ∃ db' fr' dropped', prune_loop budget db1 cutoff lc fr1 d = Some (db', fr', dropped')
      ∧ pruned cutoff lc db0 db' fr' ∧ dropped ≤ dropped' ≤ dropped + Z.of_nat (S budget)).
  { intros db1 fr1 d H1 Hd. destruct (IH db1 fr1 d H1) as (db' & fr' & d' & ? & ? & ?). exists db', fr', d'.
    split; [done|]. split; [done|lia]. }
  destruct found as [c|]; [|exists db, fr, dropped; split; [done|]; split; [done|lia]].
  destruct Hfound as [[Hrow Hdue] _]. destruct c as [m ns|m ns res|s k|s k e]; simpl in Hrow.
  - apply Hgo; [|simpl; lia]. apply pruned_metrics; [done|set_solver|done| |auto]. intros m' ns' Hin.
    destruct (decide ((m', ns') = (m, ns))) as [[= -> ->]|Hne]; [by right|left; set_solver].
  - apply Hgo; [|simpl; lia]. apply pruned_metrics; [done|done|set_solver|auto|]. intros m' ns' r' Hin.
    destruct (decide ((m', ns', r') = (m, ns, res))) as [[= -> -> ->]|Hne]; [by right|left; set_solver].
  - destruct Hrow as [Hs%log_sources_valid [c Hc]]. pose proof (so_sources _ Hok s Hs) as Hsok.
    destruct (sk_minutes _ _ Hsok _ _ Hc) as [Hk _].
    destruct (trim_spec db s k Hsok Hk) as [(removed & t & bound & -> & Hb & Hsh)|[-> Hpos]]; cbn [mbind option_bind].
    + apply Hgo; [|destruct removed; simpl; lia]. eapply pruned_coverage; [done|done| |exact Hsh].
      intros b Eb. unfold due in Hdue. simpl in Hdue. rewrite Eb in Hdue. lia.
    + apply Hgo; [by eapply pruned_minute|lia].
  - destruct Hrow as [Hs%log_sources_valid [r Hr]]. pose proof (so_sources _ Hok s Hs) as Hsok.
    destruct (cut_spec db s k e r lc Hsok Hr) as (removed & t & bound & -> & Hb & Hsh).
    { intros b Eb. split; [by apply Hlc|]. unfold due in Hdue. simpl in Hdue. by rewrite Eb in Hdue. }
    cbn [mbind option_bind]. apply Hgo; [|destruct removed; simpl; lia]. eapply pruned_coverage; [done|done| |exact Hsh].
    intros b Eb. specialize (Hb b Eb). assert (0 < Minute) by done. lia.
Qed.

(** ** Recording the frontiers *)

(** Tables that differ in their metadata only. *)
Definition same_tables (db db' : LogDb) : Prop :=
  ld_schema db' = ld_schema db ∧ ld_state db' = ld_state db ∧ ld_minutes db' = ld_minutes db
  ∧ ld_coverage db' = ld_coverage db ∧ ld_samples db' = ld_samples db ∧ ld_rollups db' = ld_rollups db
  ∧ ld_counters db' = ld_counters db.

Lemma set_meta_frontier db s key t s' :
  logEvictionKey s = Some key → validateUTC t = true →
  loadLogEvictionFrontier (set_meta db key (FormatLogTime t)) s'
  = if decide (s' = s) then Some (Some t) else loadLogEvictionFrontier db s'.
Proof.
  intros Hk Ht. pose proof (decode_encode t _ (encode_valid _ Ht)) as Hd. unfold loadLogEvictionFrontier.
  destruct s, s'; simpl in *; try done; injection Hk as <-; rewrite ?lookup_insert_eq, ?Hd; try done;
    by rewrite lookup_insert_ne.
Qed.

(** No frontier is lost or moves back. *)
Definition frontier_le (db db' : LogDb) : Prop :=
  ∀ s p, loadLogEvictionFrontier db s = Some (Some p) →
    ∃ f, loadLogEvictionFrontier db' s = Some (Some f) ∧ wall p ≤ wall f.

Lemma frontier_le_refl db : frontier_le db db.
Proof. intros s p Hp. by exists p. Qed.
Lemma frontier_le_same db db' : ld_meta db' = ld_meta db → frontier_le db db'.
Proof. intros E s p Hp. exists p. split; [|done]. unfold loadLogEvictionFrontier in *. by rewrite E. Qed.
Lemma frontier_le_trans a b c : frontier_le a b → frontier_le b c → frontier_le a c.
Proof. intros H1 H2 s p (f & (g & Hg & ?)%H2 & ?)%H1. exists g. split; [done|lia]. Qed.

Lemma store_frontier_spec fr db s :
  store_ok db → Source_Validate s = true →
  (∀ t, fr !! s = Some t → validateUTC t = true
     ∧ ∀ seg, seg ∈ rows db s → sg_Reason seg = ReasonEmpty → wall t ≤ wall (sg_Start seg)) →
  ∃ db', store_frontier fr db s = Some db' ∧ store_ok db' ∧ same_tables db db' ∧ frontier_le db db'
    ∧ ∀ t, fr !! s = Some t → ∃ f, loadLogEvictionFrontier db' s = Some (Some f) ∧ wall t ≤ wall f.
Proof.
  intros Hok Hs Hfr. unfold store_frontier. destruct (fr !! s) as [t|] eqn:Et;
    [|exists db; split; [done|]; split; [done|]; split; [done|]; split; [apply frontier_le_refl|done]].
  destruct (Hfr t eq_refl) as [Ht Hpos]. pose proof Hok as [S1 S2 S3 S4].
  destruct (S1 s Hs) as [_ _ _ (f & Hf & _)]. rewrite Hf. cbn [mbind option_bind].
  destruct (match f with Some p => negb (After t p) | None => false end) eqn:Ep.
  { destruct f as [p|]; [|done]. rewrite After_wall_l in Ep by auto with observer. bools.
    exists db. do 3 (split; [done|]). split; [apply frontier_le_refl|]. intros ? [= <-]. exists p. split; [done|lia]. }
  assert (∃ key, logEvictionKey s = Some key) as [key Hkey] by (destruct s; simpl in *; eauto; done).
  rewrite Hkey. simpl. pose proof (set_meta_frontier db s key t) as Hload.
  exists (set_meta db key (FormatLogTime t)). split; [done|]. split; [|split; [done|split]].
  - split; auto. intros s' Hs'. destruct (S1 s' Hs') as [H1 H2 H3 H4]. split; auto. rewrite (Hload s') by done.
    destruct (decide (s' = s)) as [-> |Hne]; [|done]. exists (Some t). split; [done|]. by intros ? [= <-].
  - intros s' p Hp. rewrite Hload by done. destruct (decide (s' = s)) as [-> |Hne]; [|by exists p].
    exists t. split; [done|]. rewrite Hf in Hp. injection Hp as ->.
    rewrite After_wall_l in Ep by auto with observer. bools. lia.
  - intros ? [= <-]. exists t. rewrite Hload by done. by rewrite decide_True.
Qed.

Lemma same_tables_rows db db' s : same_tables db db' →
  rows db' s = rows db s ∧ minutes_of db' s = minutes_of db s ∧ loadLogState db' s = loadLogState db s.
Proof. intros (_ & E1 & E2 & E3 & _). unfold rows, coverage_of, minutes_of, loadLogState. by rewrite E1, E2, E3. Qed.

Lemma same_tables_trans a b c : same_tables a b → same_tables b c → same_tables a c.
Proof. unfold same_tables. intros (?&?&?&?&?&?&?) (?&?&?&?&?&?&?). repeat split; congruence. Qed.

(** Both frontiers. *)
Lemma store_frontiers_spec cutoff lc db0 db fr :
  pruned cutoff lc db0 db fr →
  ∃ db', fold_left (λ acc s, acc ≫= λ db, store_frontier fr db s) log_sources (Some db) = Some db'
    ∧ store_ok db' ∧ same_tables db db' ∧ frontier_le db db'
    ∧ ∀ s t, fr !! s = Some t → ∃ f, loadLogEvictionFrontier db' s = Some (Some f) ∧ wall t ≤ wall f.
Proof.
  intros Hpr. pose proof (pr_front _ _ _ _ _ Hpr) as Hf. cbn [fold_left log_sources mbind option_bind].
  destruct (store_frontier_spec fr db SourceSystem) as (d1 & -> & Hok1 & Hs1 & Hl1 & Hr1);
    [by eapply pr_ok|done|intros t Ht; by apply Hf in Ht as (_ & ? & ?)|]. cbn [mbind option_bind].
  destruct (store_frontier_spec fr d1 SourceApplication) as (d2 & -> & Hok2 & Hs2 & Hl2 & Hr2);
    [done|done|intros t Ht; destruct (same_tables_rows _ _ SourceApplication Hs1) as (-> & _); by apply Hf in Ht as (_ & ? & ?)|].
  exists d2. split; [done|]. split; [done|]. split; [by eapply same_tables_trans|].
  split; [by eapply frontier_le_trans|]. intros s t Ht. destruct (Hf s t Ht) as (Hs & _).
  destruct s; [|by apply Hr2|done]. destruct (Hr1 t Ht) as (f & Hfl & ?). destruct (Hl2 _ _ Hfl) as (g & ? & ?).
  exists g. split; [done|lia].
Qed.
