(* ===== verification/LogStoreLife.v ===== *)
(** * The life of the log store

    Commits, checkpoint loads and prunes, in any order, each possibly cut short by a
    crash, a failing statement or a failing commit: the store's invariant survives,
    and a minute whose counts retention removed is never again presented as covered. *)

From S2P Require Import Prelude GoTime GoText Effects LogModel LogStatus LogCollector LogCollectorSafety LogCoverage LogCoverageSafety LogClock LogStore LogStoreTables LogStoreSafety LogStoreRefinement LogStoreCommit LogRetention LogRetentionSafety.

(** ** One prune *)

Definition cutoffs_ok (age : Z) (cutoff : option time) : Prop :=
  ∀ b, log_cutoff age cutoff = Some b → validateUTC (UTC b) = true.

Lemma reason_at_in l x r : reason_at l x = Some r → ∃ seg, seg ∈ l ∧ wall (sg_Start seg) ≤ x < wall (sg_End seg) ∧ sg_Reason seg = r.
Proof.
  induction l as [|s l IH]; [done|]. simpl. destruct (in_seg x s) eqn:E.
  - intros [= <-]. exists s. split; [left|]. unfold in_seg in E. apply andb_true_iff in E as [? ?]. split; [lia|done].
  - intros (seg & ? & ?)%IH. exists seg. split; [by right|done].
Qed.

(** Behind the frontier nothing counts as covered. *)
Lemma frontier_uncovers db s f k x :
  store_ok db → Source_Validate s = true → loadLogEvictionFrontier db s = Some (Some f) →
  validateUTC (At k) = true → wall (past_minute k) ≤ wall f → k ≤ x < k + Minute →
  reason_at (rows db s) x ≠ Some ReasonEmpty.
Proof.
  intros Hok Hs Hf Hk Hle Hx (seg & Hin & Hseg & Hr)%reason_at_in.
  destruct (so_sources _ Hok s Hs) as [_ Hrows _ (f' & Hf' & Hpos)]. rewrite Hf in Hf'. injection Hf' as <-.
  specialize (Hpos f eq_refl seg Hin Hr). destruct (chain_valid _ _ _ Hrows Hin) as [(V1 & V2 & Hlt)%validSegment_parts _].
  destruct (past_minute_spec k Hk) as (_ & _ & [E|E]); [lia|].
  unfold validateUTC, IsZero, year_ok in V2. bools. lia.
Qed.

Record prune_result (cutoff lc : option time) (db db' : LogDb) : Prop := {
  pn_ok : store_ok db';
  pn_state : ∀ s, loadLogState db' s = loadLogState db s;
  pn_frontier : frontier_le db db';
  pn_evicted : ∀ s k, Source_Validate s = true → is_Some (minutes_of db s !! k) → minutes_of db' s !! k = None →
    ∃ f, loadLogEvictionFrontier db' s = Some (Some f) ∧ wall (past_minute k) ≤ wall f;
  pn_minutes : ∀ s k c, minutes_of db' s !! k = Some c → minutes_of db s !! k = Some c;
  pn_rows : ∀ s, Source_Validate s = true →
    ∃ bound, (∀ b, lc = Some b → bound ≤ wall b + Minute) ∧ shrinks bound (rows db s) (rows db' s);
  pn_kept : ∀ b s k, lc = Some b → wall b ≤ k → minutes_of db' s !! k = minutes_of db s !! k;
  pn_samples : ld_samples db' ⊆ ld_samples db
    ∧ ∀ m ns, (m, ns) ∈ ld_samples db → (m, ns) ∈ ld_samples db' ∨ due cutoff lc (SampleRow m ns);
  pn_rollups : ld_rollups db' ⊆ ld_rollups db
    ∧ ∀ m ns r, (m, ns, r) ∈ ld_rollups db → (m, ns, r) ∈ ld_rollups db' ∨ due cutoff lc (RollupRow m ns r) }.

Lemma pruneShared_spec age batch db cutoff :
  store_ok db → cutoffs_ok age cutoff →
  ∃ n db', pruneShared age batch db cutoff = Some (n, db') ∧ 0 ≤ n ≤ Z.max 0 batch
    ∧ prune_result cutoff (log_cutoff age cutoff) db db'.
Proof.
  intros Hok Hc. unfold pruneShared. set (lc := log_cutoff age cutoff) in *.
  destruct (prune_loop_spec cutoff lc db (Z.to_nat batch) db ∅ 0 Hc (pruned_refl _ _ _ Hok)) as (d1 & fr & n & -> & Hpr & Hn).
  cbn [mbind option_bind]. destruct (store_frontiers_spec _ _ _ _ _ Hpr) as (d2 & -> & Hok2 & Hsame & Hle & Hfr). simpl.
  exists n, d2. split; [done|]. split; [lia|]. pose proof (λ s, same_tables_rows _ _ s Hsame) as Hrows.
  destruct Hpr as [_ [Hm Hst] P1 P2 P3 P4 _ P5 P6]. destruct Hsame as (_ & _ & _ & _ & Es & Er & _).
  split.
  - done.
  - intros s. destruct (Hrows s) as (_ & _ & ->). unfold loadLogState. by rewrite Hst.
  - eapply frontier_le_trans; [by apply frontier_le_same|done].
  - intros s k Hs Hin. destruct (Hrows s) as (_ & -> & _). intros Hn'. destruct (P4 s k Hin Hn') as (t & Ht & Hkt).
    destruct (Hfr s t Ht) as (f & Hf & ?). exists f. split; [done|lia].
  - intros s k c. destruct (Hrows s) as (_ & -> & _). apply P2.
  - intros s Hs. destruct (Hrows s) as (-> & _). by apply P1.
  - intros b s k. destruct (Hrows s) as (_ & -> & _). apply P3.
  - by rewrite Es.
  - by rewrite Er.
Qed.

(** Retention cannot fail on a well-formed store, and what it leaves is one:
    [pruneShared] always returns, having removed at most a batch of rows; the
    invariant holds; no checkpoint or status changes; counts are removed, never
    altered; evidence is removed or cut, never added; and a minute whose counts it
    removed is nowhere covered by positive evidence any more. *)
Theorem prune_never_breaks age batch db cutoff :
  store_ok db → cutoffs_ok age cutoff →
  ∃ n db', pruneShared age batch db cutoff = Some (n, db') ∧ 0 ≤ n ≤ Z.max 0 batch ∧ store_ok db'
    ∧ (∀ s, loadLogState db' s = loadLogState db s)
    ∧ (∀ s k c, minutes_of db' s !! k = Some c → minutes_of db s !! k = Some c)
    ∧ ∀ s, Source_Validate s = true →
        (∀ seg', seg' ∈ rows db' s → ∃ seg, seg ∈ rows db s ∧ wall (sg_Start seg) ≤ wall (sg_Start seg')
           ∧ sg_End seg = sg_End seg' ∧ sg_Reason seg = sg_Reason seg')
        ∧ ∀ k x, is_Some (minutes_of db s !! k) → minutes_of db' s !! k = None → k ≤ x < k + Minute →
            reason_at (rows db' s) x ≠ Some ReasonEmpty.
Proof.
  intros Hok Hc. destruct (pruneShared_spec age batch db cutoff Hok Hc) as (n & db' & E & Hn & Hp).
  exists n, db'. split; [done|]. split; [done|]. pose proof Hp as [P1 P2 _ P4 P5 P6 _ _ _].
  do 3 (split; [done|]). intros s Hs. split.
  - destruct (P6 s Hs) as (? & _ & [_ H _]). exact H.
  - intros k x [c Hin] Hgone Hx. destruct (P4 s k Hs ltac:(by eexists) Hgone) as (f & Hf & Hkf).
    destruct (sk_minutes _ _ (so_sources _ Hok s Hs) _ _ Hin) as [[Hk _] _]. by eapply frontier_uncovers.
Qed.

(** Age retention keeps everything recent: samples and rollups at or after the
    cutoff, minute counts at or after the log cutoff, and what is known about any
    instant from a minute after the log cutoff on. *)
Theorem prune_age_keeps_recent age batch db cutoff :
  store_ok db → cutoffs_ok age (Some cutoff) →
  ∃ n db' lc, pruneShared age batch db (Some cutoff) = Some (n, db')
    ∧ log_cutoff age (Some cutoff) = Some lc
    ∧ (∀ m ns, wall cutoff ≤ wall (unix_time ns) → (m, ns) ∈ ld_samples db → (m, ns) ∈ ld_samples db')
    ∧ (∀ m ns r, wall cutoff ≤ wall (unix_time ns) → (m, ns, r) ∈ ld_rollups db → (m, ns, r) ∈ ld_rollups db')
    ∧ (∀ s k, wall lc ≤ k → minutes_of db' s !! k = minutes_of db s !! k)
    ∧ ∀ s x, Source_Validate s = true → wall lc + Minute ≤ x → reason_at (rows db' s) x = reason_at (rows db s) x.
Proof.
  intros Hok Hc. destruct (pruneShared_spec age batch db (Some cutoff) Hok Hc) as (n & db' & E & _ & Hp).
  assert (∃ lc, log_cutoff age (Some cutoff) = Some lc) as [lc Hlc] by (simpl; destruct (_ <? _); by eexists).
  exists n, db', lc. rewrite Hlc in Hp. pose proof Hp as [_ _ _ _ _ P6 P7 [_ P8] [_ P9]]. do 2 (split; [done|]).
  split; [|split; [|split]].
  - intros m ns Ha Hin. destruct (P8 m ns Hin) as [?|Hd]; [done|]. unfold due in Hd. simpl in *. lia.
  - intros m ns r Ha Hin. destruct (P9 m ns r Hin) as [?|Hd]; [done|]. unfold due in Hd. simpl in *. lia.
  - intros s k Hk. by eapply P7.
  - intros s x Hs Hx. destruct (P6 s Hs) as (bound & Hb & [_ _ Ha]). specialize (Hb lc eq_refl). apply Ha. lia.
Qed.

(** ** Operations *)

(** From [db] the store went on to [db'], well-formed, forgetting no eviction. *)
Definition advances (db db' : LogDb) : Prop := store_ok db' ∧ frontier_le db db'.

Lemma advances_refl db : store_ok db → advances db db.
Proof. split; [done|apply frontier_le_refl]. Qed.
Lemma advances_trans a b c : advances a b → advances b c → advances a c.
Proof. intros [_ H1] [? H2]. split; [done|by eapply frontier_le_trans]. Qed.

Lemma advances_same db db' :
  store_ok db → ld_meta db' = ld_meta db → ld_state db' = ld_state db → ld_minutes db' = ld_minutes db →
  ld_coverage db' = ld_coverage db → advances db db'.
Proof.
  intros [S1 S2 S3 S4] Em Es En Ec. split; [|by apply frontier_le_same]. split; rewrite ?Em, ?En; auto.
  - intros s Hs. apply (source_ok_ext db); unfold coverage_of, minutes_of; rewrite ?Es, ?En, ?Ec; auto.
  - unfold sum_minutes. by rewrite En.
  - unfold sum_minutes. by rewrite En.
Qed.

Lemma schema_advances db d : schema_step db d → store_ok db → advances db d.
Proof.
  intros Hs Hok. split; [by eapply schema_step_ok|]. intros s p Hp. exists p. split; [|done].
  destruct Hs as [-> |[_ (sch & ->)%create_schema_inv]]; [done|]. rewrite <- Hp. by apply schema_frontier.
Qed.

Lemma commit_advances age db b db' :
  0 < age → store_ok db → commit_tables age db b = Ok db' → advances db db'.
Proof.
  intros Ha Hok Hc. destruct (committed_spec age db db' b Ha Hok Hc) as (? & ? & Hcm). split; [by eapply cm_store|].
  apply frontier_le_same. by eapply cm_meta.
Qed.

Lemma delete_keys_same l db :
  let db' := fold_left delete_key l db in
  ld_meta db' = ld_meta db ∧ ld_state db' = ld_state db ∧ ld_minutes db' = ld_minutes db ∧ ld_coverage db' = ld_coverage db.
Proof.
  revert db. induction l as [|[[[ns m] kind] res] l IH]; intros db; [done|]. simpl.
  destruct (kind =? 1); [destruct (IH (delete_sample db m ns)) as (-> & -> & -> & ->)
    |destruct (IH (delete_rollup db m ns res)) as (-> & -> & -> & ->)]; done.
Qed.

Lemma count_dropped_advances db key out : advances db out.2 → advances db (count_dropped key out).2.
Proof.
  intros H. unfold count_dropped. simpl. destruct (0 <? out.1); [|done]. eapply advances_trans; [done|].
  apply advances_same; [apply H|done..].
Qed.

Lemma prune_age_advances readable age batch cutoff db r db' :
  store_ok db → cutoffs_ok age (Some cutoff) → prune_age_tables readable age batch cutoff db = Ok (r, db') → advances db db'.
Proof.
  intros Hok Hc. unfold prune_age_tables. destruct (readable && validateLogSchema db).
  - destruct (pruneShared_spec age batch db (Some cutoff) Hok Hc) as (n & d & -> & _ & [H1 _ H2 _ _ _ _ _ _]).
    intros [= _ <-]. by apply (count_dropped_advances db "age_dropped" (n, d)).
  - intros [= _ <-]. apply (count_dropped_advances db "age_dropped"). unfold prune_metrics_age.
    set (l1 := oldest_keys batch _). destruct (delete_keys_same l1 db) as (E1 & E2 & E3 & E4).
    destruct (0 <? _); [|by apply advances_same]. simpl. set (l2 := oldest_keys _ _).
    destruct (delete_keys_same l2 (fold_left delete_key l1 db)) as (F1 & F2 & F3 & F4).
    apply advances_same; [done|..]; congruence.
Qed.

Lemma prune_size_advances readable age batch db r db' :
  store_ok db → prune_size_tables readable age batch db = Ok (r, db') → advances db db'.
Proof.
  intros Hok. unfold prune_size_tables. destruct (readable && validateLogSchema db).
  - destruct (pruneShared_spec age batch db None Hok) as (n & d & -> & _ & [H1 _ H2 _ _ _ _ _ _]); [done|].
    intros [= _ <-]. by apply (count_dropped_advances db "size_dropped" (n, d)).
  - intros [= _ <-]. apply (count_dropped_advances db "size_dropped" (prune_metrics_size batch db)). simpl.
    set (l := oldest_keys _ _). destruct (delete_keys_same l db) as (? & ? & ? & ?). by apply advances_same.
Qed.

(** ** Crashes and failures *)

Lemma tx_advances {E R} (failed : E) (body : LogDb → result E (R * LogDb)) db0 db :
  advances db0 db → (∀ r d, body db = Ok (r, d) → advances db d) →
  wpc store_env (λ u, advances db0 (sd_db u)) (store_tx failed body) (λ _ u, advances db0 (sd_db u)) (MkSdb db (Some db)).
Proof.
  intros H0 Hb. assert (Hm : ∀ u, tx_moment body db u → advances db0 (sd_db u)).
  { intros u [-> |(r & Hr)]; [done|]. eapply advances_trans; [done|by eapply Hb]. }
  eapply wpc_mono; [exact Hm| |apply store_tx_spec]. intros r u [_ Hr]. apply Hm.
  destruct r; [right; by eexists|]. destruct Hr as [?|(_ & v & Hv)]; [by left|right; by exists v].
Qed.

Inductive store_op := OpCommit (b : Batch) | OpLoad (s : Source) | OpPruneAge (c : HealthCounters) (cutoff : time)
  | OpPruneSize | OpQuery (sources : list Source) (query : SummaryQuery).

Local Open Scope prog_scope.
Definition perform_op (h : LogHandle) (op : store_op) : prog StoreCall unit :=
  match op with
  | OpCommit b => _ <- CommitBatch h b; Ret tt
  | OpLoad s => _ <- LoadCheckpoint h s; Ret tt
  | OpPruneAge c cutoff => _ <- pruneAge h c cutoff; Ret tt
  | OpPruneSize => _ <- pruneSize h; Ret tt
  | OpQuery sources query => _ <- QuerySummary h sources query; Ret tt
  end.
(** The clock, and so the log cutoff, is within the years 1 to 9999. *)
Definition op_ok (h : LogHandle) (op : store_op) : Prop :=
  match op with OpPruneAge _ cutoff => cutoffs_ok (lh_RetentionAge h) (Some cutoff) | _ => True end.

(** One operation, stopped anywhere; an open transaction is lost. *)
Inductive store_step (db : LogDb) : LogDb → Prop :=
| store_step_op h op p u :
    0 < lh_RetentionAge h → op_ok h op → exec store_env (perform_op h op) (MkSdb db None) p u → store_step db (sd_db u).

Lemma ignore_result {A} I (p : prog StoreCall A) u :
  wpc store_env I p (λ _ u, I u) u → wpc store_env I (_ <- p; Ret tt) (λ _ _, True) u.
Proof. intros H. apply wpc_bind. eapply wpc_mono; [done| |exact H]. intros r u' Hu'. by apply wpc_ret. Qed.

Section operations.
Variables (h : LogHandle) (db : LogDb).
Hypotheses (Hage : 0 < lh_RetentionAge h) (Hok : store_ok db).
#[local] Abbreviation good := (λ u, advances db (sd_db u)).

Lemma ensure_then {A} (k : LogHandle * bool → prog StoreCall A) :
  (∀ h' ok d, schema_step db d → lh_RetentionAge h' = lh_RetentionAge h → wpc store_env good (k (h', ok)) (λ _ u, good u) (MkSdb d None)) →
  wpc store_env good (bind (ensureLogSchema h) k) (λ _ u, good u) (MkSdb db None).
Proof.
  intros Hk. apply wpc_bind. apply ensure_spec; [|done]. intros d tx Hs. by apply schema_advances.
Qed.

Lemma commit_moments b : wpc store_env good (CommitBatch h b) (λ _ u, good u) (MkSdb db None).
Proof.
  assert (Hself : advances db db) by by apply advances_refl.
  unfold CommitBatch. destruct (Batch_Validate b); cbn [negb]; [|by apply wpc_ret].
  apply wpc_bind. unfold commitLogBatch.
  assert (Hport : ∀ out u, good u → wpc store_env good (r <- logPortError out.2; Ret ((out : LogHandle * option StoreError).1, r)) (λ _ u, good u) u).
  { intros [h' [e|]] u Hu; unfold logPortError; cbn [snd bind]; [|by apply wpc_ret].
    apply wpc_call; [done|]. intros canceled ? ->. by apply wpc_ret. }
  eapply (wpc_mono _ good good _ (λ _ u, good u)); [done|intros out u Hu; by apply Hport|].
  apply ensure_then. intros h' ok d Hs Hh. assert (Hd : advances db d) by by apply schema_advances.
  destruct ok; cbn [negb]; [|by apply wpc_ret].
  apply wpc_call; [done|]. intros began u Hu. simpl in Hu. destruct began; subst u; cbn [negb]; [|by apply wpc_ret].
  apply wpc_call; [done|]. intros pressure ? ->. destruct pressure.
  { apply wpc_call; [done|]. intros _ ? ->. by apply wpc_ret. }
  apply wpc_bind. eapply (wpc_mono _ good good _ (λ _ u, good u)); [done|intros r u Hu; by apply wpc_ret|].
  apply tx_advances; [done|]. intros r d'. destruct (commit_tables _ d b) as [d1|] eqn:Ec; [|done]. intros [= _ <-].
  eapply commit_advances; [|by apply Hd|exact Ec]. lia.
Qed.

Lemma load_moments s : wpc store_env good (LoadCheckpoint h s) (λ _ u, good u) (MkSdb db None).
Proof.
  unfold LoadCheckpoint. destruct (Source_Validate s); cbn [negb]; [|by apply wpc_ret; apply advances_refl].
  apply ensure_then. intros h' ok d Hs _. assert (Hd : advances db d) by by apply schema_advances.
  destruct ok; cbn [negb]; [|by apply wpc_ret]. apply wpc_call; [done|]. intros broken ? ->.
  destruct broken; [by apply wpc_ret|]. apply wpc_call; [done|]. intros ? ? [-> ->]. by apply wpc_ret.
Qed.

Lemma prune_age_moments c cutoff :
  cutoffs_ok (lh_RetentionAge h) (Some cutoff) → wpc store_env good (pruneAge h c cutoff) (λ _ u, good u) (MkSdb db None).
Proof.
  intros Hc. assert (Hself : advances db db) by by apply advances_refl.
  unfold pruneAge. apply wpc_call; [done|]. intros began u Hu. simpl in Hu.
  destruct began; subst u; cbn [negb]; [|by apply wpc_ret].
  apply wpc_call; [done|]. intros unread ? ->. apply wpc_bind.
  eapply (wpc_mono _ good good _ (λ _ u, good u)); [done|intros r u Hu; destruct r; by apply wpc_ret|].
  apply tx_advances; [done|]. intros r d. by apply prune_age_advances.
Qed.

Lemma prune_size_moments : wpc store_env good (pruneSize h) (λ _ u, good u) (MkSdb db None).
Proof.
  assert (Hself : advances db db) by by apply advances_refl.
  unfold pruneSize. apply wpc_call; [done|]. intros began u Hu. simpl in Hu.
  destruct began; subst u; cbn [negb]; [|by apply wpc_ret].
  apply wpc_call; [done|]. intros unread ? ->. apply tx_advances; [done|]. intros r d. by apply prune_size_advances.
Qed.

Lemma query_moments sources query : wpc store_env good (QuerySummary h sources query) (λ _ u, good u) (MkSdb db None).
Proof.
  assert (Hself : advances db db) by by apply advances_refl.
  unfold QuerySummary. destruct (_ || _); [by apply wpc_ret|]. destruct (query_sources_ok _ _); cbn [negb]; [|by apply wpc_ret].
  destruct sources as [|s l]; [by apply wpc_ret|]. apply wpc_call; [done|]. intros began u Hu. simpl in Hu.
  destruct began; subst u; cbn [negb]; [|by apply wpc_ret]. apply wpc_call; [done|]. intros broken ? ->. destruct broken.
  { apply wpc_call; [done|]. intros _ ? ->. by apply wpc_ret. }
  apply wpc_call; [done|]. intros ? ? [-> ->]. apply wpc_call; [done|]. intros _ ? ->. by apply wpc_ret.
Qed.
End operations.

Lemma store_step_advances db db' : store_ok db → store_step db db' → advances db db'.
Proof.
  intros Hok [h op p u Ha Hop Hx]. refine (wpc_crash _ (λ u, advances db (sd_db u)) _ _ (λ _ _, True) _ _ _ Hx).
  destruct op; apply ignore_result;
    [apply commit_moments|apply load_moments|apply prune_age_moments|apply prune_size_moments|apply query_moments]; done.
Qed.

Lemma store_life_advances db db' : store_ok db → rtc store_step db db' → advances db db'.
Proof.
  intros Hok H. induction H as [|a b c Hab _ IH]; [by apply advances_refl|].
  pose proof (store_step_advances _ _ Hok Hab) as H1. eapply advances_trans; [exact H1|]. apply IH, H1.
Qed.

(** C32: Evicted history never comes back as silence.  Once a prune has removed the
    counts of a minute, then through any later sequence of commits, loads, queries
    and prunes, each possibly stopped by a crash or a failing statement, the store
    stays well-formed and holds no positive evidence about any instant of that
    minute: the summary can say unknown or gap, never covered. *)
Theorem evicted_never_covered age batch cutoff db n db1 db2 s k x :
  store_ok db → cutoffs_ok age cutoff → pruneShared age batch db cutoff = Some (n, db1) →
  Source_Validate s = true → is_Some (minutes_of db s !! k) → minutes_of db1 s !! k = None →
  rtc store_step db1 db2 → k ≤ x < k + Minute →
  store_ok db2 ∧ reason_at (rows db2 s) x ≠ Some ReasonEmpty.
Proof.
  intros Hok Hc Hp Hs [c Hin] Hgone Hlife Hx.
  destruct (pruneShared_spec age batch db cutoff Hok Hc) as (n' & d & E & _ & Hr). rewrite Hp in E. injection E as <- <-.
  destruct (pn_evicted _ _ _ _ Hr s k Hs ltac:(by eexists) Hgone) as (f & Hf & Hkf).
  destruct (store_life_advances _ _ (pn_ok _ _ _ _ Hr) Hlife) as [Hok2 Hle]. split; [done|].
  destruct (Hle s f Hf) as (g & Hg & ?).
  destruct (sk_minutes _ _ (so_sources _ Hok s Hs) _ _ Hin) as [[Hk _] _]. eapply frontier_uncovers; eauto. lia.
Qed.

(** ** Witnesses *)

Module LifeSample.
Lemma sample_ok : store_ok committed_db.
Proof.
  destruct (committed_spec (30 * Day) _ _ _ eq_refl StoreSample.empty_ok sample_commit) as (? & ? & Hcm). by eapply cm_store.
Qed.

(** A month of metrics; the log cutoff falls between the sample's minute and its
    last instant. *)
Definition cutoff : time := At (63800000060 * Second - 23 * Day).
Lemma cutoff_ok : cutoffs_ok (30 * Day) (Some cutoff).
Proof. intros b [= <-]. vm_compute. reflexivity. Qed.

Definition pruned_db : LogDb :=
  match pruneShared (30 * Day) 500 committed_db (Some cutoff) with Some out => out.2 | None => committed_db end.
Lemma sample_prune : pruneShared (30 * Day) 500 committed_db (Some cutoff) = Some (2, pruned_db).
Proof. vm_compute. reflexivity. Qed.
Lemma sample_pruned n d : pruneShared (30 * Day) 500 committed_db (Some cutoff) = Some (n, d) → d = pruned_db.
Proof. unfold pruned_db. by intros ->. Qed.
End LifeSample.

Lemma prune_never_breaks_witness :
  reason_at (rows LifeSample.pruned_db SourceSystem) (63800000095 * Second) ≠ Some ReasonEmpty.
Proof.
  destruct (prune_never_breaks (30 * Day) 500 committed_db (Some LifeSample.cutoff) LifeSample.sample_ok LifeSample.cutoff_ok)
    as (n & d & E & _ & _ & _ & _ & H).
  apply LifeSample.sample_pruned in E as ->.
  apply (proj2 (H SourceSystem eq_refl) (63800000040 * Second)); vm_compute; [by eexists|reflexivity|done].
Defined.

Lemma prune_age_keeps_recent_witness :
  reason_at (rows LifeSample.pruned_db SourceSystem) (63800000120 * Second) = None.
Proof.
  destruct (prune_age_keeps_recent (30 * Day) 500 committed_db LifeSample.cutoff LifeSample.sample_ok LifeSample.cutoff_ok)
    as (n & d & lc & E & [= <-] & _ & _ & _ & H).
  apply LifeSample.sample_pruned in E as ->.
  rewrite (H SourceSystem (63800000120 * Second) eq_refl); vm_compute; [reflexivity|discriminate].
Defined.

Lemma evicted_never_covered_witness :
  store_ok LifeSample.pruned_db ∧ reason_at (rows LifeSample.pruned_db SourceSystem) (63800000095 * Second) ≠ Some ReasonEmpty.
Proof.
  apply (evicted_never_covered _ _ _ _ _ _ _ SourceSystem (63800000040 * Second) (63800000095 * Second)
    LifeSample.sample_ok LifeSample.cutoff_ok LifeSample.sample_prune);
    [reflexivity|vm_compute; by eexists|vm_compute; reflexivity|apply rtc_refl|vm_compute; done].
Defined.
