(* ===== verification/LogSummary.v ===== *)
(** * Summaries of the stored log history

    A query over a well-formed store is refused only because the schema is not in
    place or the window holds more coverage rows than the reader accepts.  Otherwise
    it answers with a summary that its own validation accepts and whose counts, by
    severity too, are the sums of the stored minutes: none of the overflow and
    consistency checks along the way can fire. *)

From stdpp Require Import sorting.
From S2P Require Import Prelude GoTime GoText Effects LogModel LogStatus LogCollector LogCollectorSafety LogCoverage LogCoverageSafety LogProjection LogClock LogStore LogStoreTables LogStoreSafety LogStoreRefinement LogStoreCommit LogRetention LogRetentionSafety LogStoreLife.

(** ** Sums over rows *)

Fixpoint total (f : BucketCounts → Z) (l : list BucketCounts) : Z :=
  match l with [] => 0 | c :: l => f c + total f l end.

Lemma total_app f l l' : total f (l ++ l') = total f l + total f l'.
Proof. induction l as [|c l IH]; simpl; lia. Qed.

Lemma total_nonneg f l : (∀ c, c ∈ l → 0 ≤ f c) → 0 ≤ total f l.
Proof.
  induction l as [|c l IH]; intros H; simpl; [done|]. specialize (IH (λ x Hx, H x (list_elem_of_further _ _ _ Hx))).
  specialize (H c ltac:(left)). lia.
Qed.

Lemma total_insert f l i c c' : l !! i = Some c → total f (<[i := c']> l) = total f l - f c + f c'.
Proof.
  revert i. induction l as [|x l IH]; intros [|i]; simpl; try done; [intros [= ->]; lia|]. intros H. rewrite (IH _ H). lia.
Qed.

Lemma total_elem f l c : (∀ c, c ∈ l → 0 ≤ f c) → c ∈ l → f c ≤ total f l.
Proof.
  intros Hn Hin. apply list_elem_of_split in Hin as (l1 & l2 & ->). rewrite total_app. simpl.
  pose proof (total_nonneg f l1 ltac:(set_solver)). pose proof (total_nonneg f l2 ltac:(set_solver)). lia.
Qed.

Lemma total_replicate f n : f zeroBucketCounts = 0 → total f (replicate n zeroBucketCounts) = 0.
Proof. intros H. induction n as [|n IH]; simpl; lia. Qed.

Lemma total_permutation f l l' : l ≡ₚ l' → total f l = total f l'.
Proof. induction 1; simpl; lia. Qed.

(** The sum over a table is the sum over its rows in order. *)
Lemma total_in_order f (m : gmap Z BucketCounts) :
  total f (in_order m).*2 = map_fold (λ _ c acc, f c + acc) 0 m.
Proof.
  rewrite map_fold_foldr. rewrite (total_permutation f _ (map_to_list m).*2)
    by (unfold in_order; by rewrite merge_sort_Permutation).
  induction (map_to_list m) as [|[k c] l IH]; [done|]. rewrite fmap_cons. cbn [total foldr snd uncurry]. by rewrite IH.
Qed.

Lemma total_filter f (P : Z * BucketCounts → Prop) `{∀ x, Decision (P x)} l :
  (∀ k c, (k, c) ∈ l → 0 ≤ f c) → total f (filter P l).*2 ≤ total f l.*2.
Proof.
  induction l as [|[k c] l IH]; intros H0; [done|]. rewrite filter_cons.
  specialize (IH (λ k' c' Hin, H0 k' c' (list_elem_of_further _ _ _ Hin))). specialize (H0 k c ltac:(left)).
  destruct (decide _); rewrite ?fmap_cons; cbn [total snd]; lia.
Qed.

Definition table_sum (f : BucketCounts → Z) (m : gmap Z BucketCounts) : Z := map_fold (λ _ c acc, f c + acc) 0 m.

Lemma table_sum_nonneg f m : (∀ k c, m !! k = Some c → 0 ≤ f c) → 0 ≤ table_sum f m.
Proof.
  intros Hm. unfold table_sum. rewrite <- total_in_order. apply total_nonneg.
  intros c ([k c'] & -> & Hin%in_order_elem)%list_elem_of_fmap. by eapply Hm.
Qed.

Lemma sources_sum f (M : gmap Source (gmap Z BucketCounts)) (l : list Source) :
  NoDup l → (∀ s m k c, M !! s = Some m → m !! k = Some c → 0 ≤ f c) →
  foldr (λ s acc, table_sum f (default ∅ (M !! s)) + acc) 0 l
  ≤ map_fold (λ _ m acc, map_fold (λ _ c acc, f c + acc) acc m) 0 M.
Proof.
  set (F := λ (_ : Source) (m : gmap Z BucketCounts) acc, map_fold (λ _ c acc, f c + acc) acc m).
  assert (HF : ∀ s m acc, F s m acc = table_sum f m + acc) by (intros; unfold F; apply sum_inner).
  revert M. induction l as [|s l IH]; intros M Hn Hm; simpl.
  - revert Hm. apply (map_fold_weak_ind (λ r (M : gmap Source _), (∀ s m k c, M !! s = Some m → m !! k = Some c → 0 ≤ f c) → 0 ≤ r)); [done|].
    intros i x m r Hi Hr H. rewrite HF. pose proof (table_sum_nonneg f x) as Hx.
    assert (0 ≤ table_sum f x) by (apply Hx; intros k c; apply (H i); by rewrite lookup_insert_eq).
    assert (0 ≤ r); [|lia]. apply Hr. intros s' m' k c Hs'. apply (H s'). rewrite lookup_insert_ne; [done|]. congruence.
  - apply NoDup_cons in Hn as [Hs Hn]. destruct (M !! s) as [m|] eqn:E; simpl.
    + rewrite (map_fold_delete_L F 0 s m M), HF by (done || (intros; rewrite !HF; lia)).
      apply Z.add_le_mono_l. rewrite <- (IH (delete s M) Hn) by (intros s' m' k c [_ H1]%lookup_delete_Some H2; by eapply Hm).
      apply Z.eq_le_incl. clear -Hs. induction l as [|s' l IH]; [done|]. simpl.
      apply not_elem_of_cons in Hs as [Hne Hs]. by rewrite IH, lookup_delete_ne.
    + change (table_sum f ∅) with 0. by apply IH.
Qed.

(** ** The minutes of a window *)

Definition window_rows (db : LogDb) (s : Source) (query : SummaryQuery) : list (Z * BucketCounts) :=
  filter (λ row, wall (q_WindowStart query) ≤ row.1 ∧ row.1 < wall (q_WindowEnd query)) (in_order (minutes_of db s)).

Lemma window_rows_elem db s query k c :
  (k, c) ∈ window_rows db s query ↔ minutes_of db s !! k = Some c ∧ wall (q_WindowStart query) ≤ k < wall (q_WindowEnd query).
Proof. unfold window_rows. rewrite list_elem_of_filter, in_order_elem. simpl. tauto. Qed.

Lemma minute_rows_length (l : list (Z * BucketCounts)) a b :
  increasing l → (∀ k c, (k, c) ∈ l → k mod Minute = 0 ∧ a ≤ k < b) → a < b + Minute →
  Z.of_nat (length l) * Minute < b - a + Minute.
Proof.
  intros Hi. revert a. induction Hi as [|[k c] l Hi IH Hk]; intros a Hin Hab; [simpl; lia|].
  destruct (Hin k c ltac:(left)) as [Hm Hr]. cbn [length].
  assert (H : Z.of_nat (length l) * Minute < b - (k + Minute) + Minute); [|lia].
  apply IH; [|lia]. intros k' c' Hin'. destruct (Hin k' c' ltac:(by right)) as [Hm' Hr'].
  split; [done|]. rewrite Forall_forall in Hk. specialize (Hk _ Hin'). simpl in Hk.
  unfold Minute, Second in *. div_lia.
Qed.

(** ** Adding counts *)

Lemma sumSafe_ok t l :
  0 ≤ t → (∀ v, v ∈ l → 0 ≤ v) → fold_left Z.add l t ≤ MaxSafeInteger → sumSafe t l = Some (fold_left Z.add l t).
Proof.
  revert t. induction l as [|v l IH]; intros t Ht Hl Hs; [done|]. simpl in *.
  assert (Hm : ∀ l t, (∀ v, v ∈ l → 0 ≤ v) → t ≤ fold_left Z.add l t).
  { clear. induction l as [|v l IH]; intros t Hl; [done|]. simpl. specialize (Hl v ltac:(left)) as Hv.
    specialize (IH (t + v) (λ x Hx, Hl x (list_elem_of_further _ _ _ Hx))). lia. }
  specialize (Hm l (t + v) ltac:(set_solver)). specialize (Hl v ltac:(left)) as Hv. unfold addSafe.
  replace ((MaxSafeInteger <? t) || (MaxSafeInteger <? v) || (MaxSafeInteger - t <? v)) with false by lia.
  apply IH; [lia|set_solver|done].
Qed.

Lemma addLogCounts_ok t c :
  minute_check t = true → minute_check c = true →
  bc_Captured t + bc_Captured c ≤ MaxSafeInteger → bc_Discarded t + bc_Discarded c ≤ MaxSafeInteger →
  addLogCounts t c = Some (add_counts t c) ∧ minute_check (add_counts t c) = true.
Proof.
  destruct t as [ct dt [t1 t2 t3 t4 t5 t6 t7]], c as [cc dc [c1 c2 c3 c4 c5 c6 c7]].
  unfold minute_check, addLogCounts, add_counts. cbn [bucketValues drop forallb fold_left bc_Captured bc_Discarded
    bc_Severity sv_Trace sv_Debug sv_Info sv_Warn sv_Error sv_Critical sv_Unknown zip_with zip]. intros Ht Hc H1 H2. bools.
  rewrite sumSafe_ok; [|lia|intros v Hv; in_cases Hv; lia|cbn [fold_left]; lia]. cbn [fold_left].
  assert (Hall : ∀ l v : Z, l + v ≤ MaxSafeInteger → 0 ≤ l → 0 ≤ v → negb (MaxSafeInteger <? v) && negb (MaxSafeInteger - v <? l) = true).
  { intros. replace (MaxSafeInteger <? v) with false by lia. by replace (MaxSafeInteger - v <? l) with false by lia. }
  rewrite !Hall by lia. simpl. replace (_ =? cc) with true by lia. split; [done|].
  assert (Hin : ∀ v : Z, 0 ≤ v ≤ MaxSafeInteger → (0 <=? v) && (v <=? MaxSafeInteger) = true)
    by (intros; apply andb_true_iff; lia).
  rewrite !Hin by lia. simpl. lia.
Qed.

(** ** Windows *)

Record window (query : SummaryQuery) : Prop := {
  wn_start : validateUTC (q_WindowStart query) = true;
  wn_end : validateUTC (q_WindowEnd query) = true;
  wn_interval : Minute ≤ q_BucketInterval query ≤ Hour ∧ q_BucketInterval query mod Second = 0;
  wn_count : 0 < q_BucketCount query ≤ 168;
  wn_length : wall (q_WindowEnd query) = wall (q_WindowStart query) + q_BucketCount query * q_BucketInterval query
    ∧ q_BucketCount query * q_BucketInterval query ≤ 10080 * Minute;
  wn_aligned : wall (q_WindowStart query) mod Second = 0 }.

Lemma query_window query : SummaryQuery_Validate query = true → window query.
Proof.
  unfold SummaryQuery_Validate. intros H. bools.
  assert (Hw : wallclock (q_WindowStart query)) by auto with observer.
  rewrite Sub_wall_r, Before_wall_r in * by auto with observer.
  match goal with H : NanosecondOf (q_WindowStart query) = 0 |- _ => rename H into Hns end. unfold NanosecondOf in Hns.
  assert (Hcases : q_BucketInterval query = Minute ∧ q_BucketCount query = 60
    ∨ q_BucketInterval query = 5 * Minute ∧ q_BucketCount query = 72
    ∨ q_BucketInterval query = 15 * Minute ∧ q_BucketCount query = 96
    ∨ q_BucketInterval query = Hour ∧ q_BucketCount query = 168).
  { rewrite !orb_true_iff, !andb_true_iff, !Z.eqb_eq in *. tauto. }
  match goal with H : sat64 _ = _ |- _ => rename H into Hlen end.
  assert (Hwrap : wrap_i64 (q_BucketCount query * q_BucketInterval query) = q_BucketCount query * q_BucketInterval query
    ∧ 0 < q_BucketCount query * q_BucketInterval query ≤ 10080 * Minute).
  { destruct Hcases as [[-> ->]|[[-> ->]|[[-> ->]|[-> ->]]]]; (split; [reflexivity|]); unfold Hour, Minute, Second; lia. }
  destruct Hwrap as [Hwrap Hle]. rewrite Hwrap in Hlen.
  assert (wall (q_WindowEnd query) - wall (q_WindowStart query) = q_BucketCount query * q_BucketInterval query).
  { unfold sat64, MinInt64, MaxInt64, Minute, Second in *. lia. }
  split; auto; [|lia|lia].
  destruct Hcases as [[-> _]|[[-> _]|[[-> _]|[-> _]]]]; (split; [unfold Hour, Minute, Second; lia|reflexivity]).
Qed.

(** ** Counts per bucket *)

(** The bucket of a minute. *)
Definition bucket_of (query : SummaryQuery) (k : Z) : Z := (k - wall (q_WindowStart query)) / q_BucketInterval query.

Lemma minute_check_zero : minute_check zeroBucketCounts = true.
Proof. reflexivity. Qed.

Lemma checked_nonneg (l : list BucketCounts) : (∀ c, c ∈ l → minute_check c = true) →
  (∀ c, c ∈ l → 0 ≤ bc_Captured c) ∧ ∀ c, c ∈ l → 0 ≤ bc_Discarded c.
Proof. intros H. split; intros c Hc; by apply H, minute_check_nonneg in Hc as [? ?]. Qed.

Lemma minute_row_ok query r k c :
  window query → minute_key k → minute_check c = true → wall (q_WindowStart query) ≤ k < wall (q_WindowEnd query) →
  Z.of_nat (length r) = q_BucketCount query → (∀ x, x ∈ r → minute_check x = true) →
  total bc_Captured r + bc_Captured c ≤ MaxSafeInteger → total bc_Discarded r + bc_Discarded c ≤ MaxSafeInteger →
  ∃ old, r !! Z.to_nat (bucket_of query k) = Some old ∧ minute_check (add_counts old c) = true
    ∧ minute_row query (Some r) (k, c) = Some (<[Z.to_nat (bucket_of query k) := add_counts old c]> r).
Proof.
  intros W [Hk Hm] Hc Hr Hn Hall Hcap Hdis. destruct (wn_interval _ W) as [Hint _], (wn_length _ W) as [Hlen Hmax].
  unfold minute_row. cbn [mbind option_bind fst snd]. unfold validLogTime. rewrite Hk.
  assert (Htr : Equal (At k) (Truncate (At k) Minute) = true).
  { rewrite Equal_wall_l by done. unfold Truncate. simpl. rewrite Hm. apply Z.eqb_eq. simpl. lia. }
  rewrite Htr. simpl negb. cbn [orb]. rewrite Sub_wall_l by done. cbn [wall At].
  assert (Hq : Z.quot (sat64 (k - wall (q_WindowStart query))) (q_BucketInterval query) = bucket_of query k).
  { rewrite sat64_id by (unfold MinInt64, MaxInt64, Hour, Minute, Second in *; lia). unfold bucket_of.
    apply Z.quot_div_nonneg; unfold Minute, Second in *; lia. }
  rewrite Hq.
  assert (Hb : 0 ≤ bucket_of query k < q_BucketCount query).
  { unfold bucket_of. split; [apply Z.div_pos; unfold Minute, Second in *; lia|].
    apply Z.div_lt_upper_bound; unfold Minute, Second in *; nia. }
  replace (bucket_of query k <? 0) with false by lia. replace (Z.of_nat (length r) <=? bucket_of query k) with false by lia.
  cbn [orb]. destruct (lookup_lt_is_Some_2 r (Z.to_nat (bucket_of query k)) ltac:(lia)) as [old Hold]. rewrite Hold.
  assert (Hin : old ∈ r) by by eapply list_elem_of_lookup_2.
  destruct (checked_nonneg r Hall) as [N1 N2].
  pose proof (total_elem _ _ _ N1 Hin). pose proof (total_elem _ _ _ N2 Hin).
  destruct (addLogCounts_ok old c (Hall _ Hin) Hc ltac:(lia) ltac:(lia)) as [-> Hchk]. by exists old.
Qed.

(** The counts a bucket holds. *)
Definition counted (f : BucketCounts → Z) (r : list BucketCounts) (i : Z) : Z :=
  f (default zeroBucketCounts (r !! Z.to_nat i)).
Definition linear (f : BucketCounts → Z) : Prop := f = bc_Captured ∨ f = bc_Discarded.

(** Every count a bucket has: captured, discarded, and each severity. *)
Inductive measure : (BucketCounts → Z) → Prop :=
| measure_linear f : linear f → measure f
| measure_trace : measure (λ c, sv_Trace (bc_Severity c))
| measure_debug : measure (λ c, sv_Debug (bc_Severity c))
| measure_info : measure (λ c, sv_Info (bc_Severity c))
| measure_warn : measure (λ c, sv_Warn (bc_Severity c))
| measure_error : measure (λ c, sv_Error (bc_Severity c))
| measure_critical : measure (λ c, sv_Critical (bc_Severity c))
| measure_unknown : measure (λ c, sv_Unknown (bc_Severity c)).

Lemma measure_add f a b : measure f → f (add_counts a b) = f a + f b.
Proof. destruct a as [? ? []], b as [? ? []]. by intros [? [-> | ->]| | | | | | |]. Qed.

Lemma linear_add f a b : linear f → f (add_counts a b) = f a + f b.
Proof. intros. by apply measure_add, measure_linear. Qed.

Lemma measure_zero f : measure f → f zeroBucketCounts = 0.
Proof. by intros [? [-> | ->]| | | | | | |]. Qed.

(** Nothing captured and nothing discarded is no count at all. *)
Lemma measure_none f c :
  minute_check c = true → bc_Captured c = 0 → bc_Discarded c = 0 → measure f → f c = 0.
Proof.
  destruct c as [ca di []]. unfold minute_check. simpl. intros H. bools. intros -> ->.
  intros [? [-> | ->]| | | | | | |]; simpl; lia.
Qed.

Lemma minute_rows_ok query l r :
  window query → Z.of_nat (length r) = q_BucketCount query → (∀ x, x ∈ r → minute_check x = true) →
  (∀ k c, (k, c) ∈ l → minute_key k ∧ minute_check c = true ∧ wall (q_WindowStart query) ≤ k < wall (q_WindowEnd query)) →
  (∀ f, linear f → total f r + total f l.*2 ≤ MaxSafeInteger) →
  ∃ r', fold_left (minute_row query) l (Some r) = Some r' ∧ length r' = length r
    ∧ (∀ x, x ∈ r' → minute_check x = true)
    ∧ ∀ f, measure f → total f r' = total f r + total f l.*2
      ∧ ∀ i, 0 ≤ i → counted f r' i = counted f r i + total f (filter (λ row, bucket_of query row.1 = i) l).*2.
Proof.
  intros W. revert r. induction l as [|[k c] l IH]; intros r Hn Hall Hl Hmax.
  { exists r. do 3 (split; [done|]). intros f _. simpl. split; [lia|]. intros i _. change (filter _ []) with (@nil (Z * BucketCounts)). simpl. lia. }
  destruct (Hl k c ltac:(left)) as (Hk & Hc & Hr). specialize (Hl) as Hl'.
  assert (Hlc : ∀ x, x ∈ l.*2 → minute_check x = true).
  { intros x ([k' x'] & -> & Hin)%list_elem_of_fmap. by apply (Hl k' x'); right. }
  destruct (checked_nonneg _ Hlc) as [N1 N2].
  pose proof (total_nonneg _ _ N1). pose proof (total_nonneg _ _ N2).
  pose proof (Hmax _ (or_introl eq_refl)) as M1. pose proof (Hmax _ (or_intror eq_refl)) as M2.
  rewrite fmap_cons in M1, M2. cbn [total snd] in M1, M2.
  destruct (minute_row_ok query r k c W Hk Hc Hr Hn Hall) as (old & Hold & Hchk & E); [lia|lia|].
  cbn [fold_left]. rewrite E.
  destruct (IH (<[Z.to_nat (bucket_of query k) := add_counts old c]> r)) as (r' & Er & Hlen & Hall' & Hf).
  - by rewrite length_insert.
  - intros x [j Hj]%list_elem_of_lookup. apply list_lookup_insert_Some in Hj as [(_ & <- & _)|[_ Hj]]; [done|].
    apply Hall. by eapply list_elem_of_lookup_2.
  - intros k' c' Hin. apply Hl. by right.
  - intros f Hf. rewrite (total_insert _ _ _ _ _ Hold), (linear_add f) by done. specialize (Hmax f Hf).
    rewrite fmap_cons in Hmax. cbn [total snd] in Hmax. lia.
  - exists r'. split; [done|]. rewrite length_insert in Hlen. do 2 (split; [done|]). intros f Hlin.
    destruct (Hf f Hlin) as [Ht Hb]. split.
    + rewrite Ht, (total_insert _ _ _ _ _ Hold), (measure_add f), fmap_cons by done. cbn [total snd]. lia.
    + intros i Hi. rewrite (Hb i Hi), filter_cons. cbn [fst]. unfold counted.
      destruct (decide (bucket_of query k = i)) as [<-|Hne].
      * rewrite list_lookup_insert_eq by (by eapply lookup_lt_Some). rewrite Hold, fmap_cons. cbn [total snd from_option id].
        rewrite (measure_add f) by done. lia.
      * assert (0 ≤ bucket_of query k).
        { unfold bucket_of. destruct (wn_interval _ W). apply Z.div_pos; unfold Minute, Second in *; lia. }
        rewrite list_lookup_insert_ne by lia. lia.
Qed.

Lemma source_sums db query (sources : list Source) f :
  store_ok db → linear f → NoDup sources → (∀ s, s ∈ sources → Source_Validate s = true) →
  foldr (λ s acc, total f (window_rows db s query).*2 + acc) 0 sources ≤ MaxSafeInteger.
Proof.
  intros Hok Hf Hn Hs.
  assert (Hpos : ∀ s k c, Source_Validate s = true → minutes_of db s !! k = Some c → 0 ≤ f c).
  { intros s k c Hv Hc. apply (so_sources _ Hok s Hv) in Hc as [_ [? ?]%minute_check_nonneg]. by destruct Hf as [-> | ->]. }
  assert (Hsum : sum_minutes f db ≤ MaxSafeInteger) by (destruct Hf as [-> | ->]; apply Hok).
  etransitivity; [|exact Hsum]. etransitivity; [|apply (sources_sum f (ld_minutes db) sources); [done|]].
  - clear Hn. induction sources as [|s l IH]; simpl; [done|].
    assert (total f (window_rows db s query).*2 ≤ table_sum f (minutes_of db s)).
    { unfold table_sum. rewrite <- total_in_order. apply total_filter. intros k c Hin%in_order_elem.
      eapply Hpos; [|exact Hin]. apply Hs. left. }
    unfold minutes_of in *. specialize (IH (λ x Hx, Hs x (list_elem_of_further _ _ _ Hx))). lia.
  - intros s m k c Hm Hc. eapply (Hpos s); [apply (so_tables _ Hok); by eexists|]. unfold minutes_of. by rewrite Hm.
Qed.

Lemma queryLogMinuteCounts_ok db s query :
  store_ok db → Source_Validate s = true → window query →
  ∃ r, queryLogMinuteCounts db s query = Some r ∧ Z.of_nat (length r) = q_BucketCount query
    ∧ (∀ x, x ∈ r → minute_check x = true)
    ∧ ∀ f, measure f → total f r = total f (window_rows db s query).*2
      ∧ ∀ i, 0 ≤ i → counted f r i = total f (filter (λ row, bucket_of query row.1 = i) (window_rows db s query)).*2.
Proof.
  intros Hok Hs W. unfold queryLogMinuteCounts. rewrite !encode_valid by apply W. fold (window_rows db s query).
  pose proof (sk_minutes _ _ (so_sources _ Hok s Hs)) as Hmin. destruct (wn_length _ W) as [Hlen Hmax].
  destruct (wn_count _ W) as [Hc _].
  assert (Hrows : ∀ k c, (k, c) ∈ window_rows db s query →
    minute_key k ∧ minute_check c = true ∧ wall (q_WindowStart query) ≤ k < wall (q_WindowEnd query)).
  { intros k c [Hk Hr]%window_rows_elem. apply Hmin in Hk as [? ?]. done. }
  rewrite take_ge.
  2: { pose proof (minute_rows_length (window_rows db s query) (wall (q_WindowStart query)) (wall (q_WindowEnd query))) as H.
       specialize (H (increasing_filter _ _ (in_order_increasing _))).
       assert (Z.of_nat (length (window_rows db s query)) * Minute
         < wall (q_WindowEnd query) - wall (q_WindowStart query) + Minute).
       { apply H; [intros k c Hin; destruct (Hrows _ _ Hin) as ([_ ?] & _ & ?); done|].
         destruct (wn_interval _ W). unfold Minute, Second in *. nia. }
       unfold Minute, Second in *. lia. }
  set (zeros := replicate _ zeroBucketCounts).
  assert (Hz : ∀ f, measure f → total f zeros = 0) by (intros; by apply total_replicate, measure_zero).
  destruct (minute_rows_ok query (window_rows db s query) zeros W) as (r & Hr & Hl & Hchk & Hf); auto.
  - unfold zeros. rewrite length_replicate. lia.
  - intros x Hx. apply elem_of_replicate in Hx as [-> _]. reflexivity.
  - intros f Hf. rewrite Hz by by apply measure_linear. pose proof (source_sums db query [s] f Hok Hf (NoDup_singleton s)) as H. simpl in H.
    enough (total f (window_rows db s query).*2 + 0 ≤ MaxSafeInteger) by lia. apply H.
    intros s' Hs'. by apply list_elem_of_singleton in Hs' as ->.
  - exists r. split; [done|]. split; [rewrite Hl; unfold zeros; rewrite length_replicate; lia|]. split; [done|].
    intros f Hlin. destruct (Hf f Hlin) as [-> Hb]. split; [rewrite Hz by done; lia|]. intros i Hi. rewrite (Hb i Hi).
    unfold counted. replace (f (default zeroBucketCounts (zeros !! Z.to_nat i))) with 0; [lia|].
    destruct (zeros !! Z.to_nat i) as [z|] eqn:E; simpl; [apply lookup_replicate in E as [-> _]|]; by rewrite measure_zero.
Qed.

(** ** Buckets *)

Lemma project_bucket segments start end_ :
  chain 0 segments → validateUTC start = true → validateUTC end_ = true →
  NanosecondOf start = 0 → NanosecondOf end_ = 0 → wall start < wall end_ ≤ wall start + Hour →
  ∃ b, projectLogCoverage segments start end_ = Some b ∧ sb_At b = start
    ∧ validateSummaryBucket b ((wall end_ - wall start) / Second) = true
    ∧ (sb_Counts b = None ∨ sb_Counts b = Some zeroBucketCounts) ∧ 0 ≤ sb_CoveredSeconds b.
Proof.
  intros Hc Vs Ve As Ae Hlen. destruct (project_valid segments start end_ Hc Vs Ve As Ae Hlen) as (b & Hb & Hat & Hv).
  exists b. do 3 (split; [done|]).
  destruct (project_shape segments start end_ Hc Vs Ve As Ae Hlen) as (segs & _ & _ & _ & _ & Hn & Heq).
  rewrite Heq in Hb. injection Hb as <-. repeat case_match; simpl; (split; [auto|lia]).
Qed.

(** The bucket of a summary at an index: the projection of the evidence, with the
    counts of the minutes. *)
Definition bucket_matches (segments : list logCoverageSegment) (query : SummaryQuery) (i : Z) (c : BucketCounts)
    (b : SummaryBucket) : Prop :=
  ∃ b0, projectLogCoverage segments (Add (q_WindowStart query) (i * q_BucketInterval query))
          (Add (q_WindowStart query) ((i + 1) * q_BucketInterval query)) = Some b0
    ∧ sb_At b = sb_At b0 ∧ sb_CoverageState b = sb_CoverageState b0 ∧ sb_CoveredSeconds b = sb_CoveredSeconds b0
    ∧ sb_ReasonCode b = sb_ReasonCode b0
    ∧ ∀ f, measure f → f (default zeroBucketCounts (sb_Counts b)) = f c.

Definition with_counts (b : SummaryBucket) (c : BucketCounts) : SummaryBucket :=
  if (0 <? bc_Captured c) || (0 <? bc_Discarded c)
  then MkBucket (sb_At b) (sb_CoverageState b) (sb_CoveredSeconds b) (sb_ReasonCode b) (Some c) else b.

Lemma checked_valid c : minute_check c = true → validateBucketCounts c = true.
Proof.
  unfold minute_check, validateBucketCounts. intros [Hall Hsum]%andb_true_iff. rewrite forallb_forall in Hall.
  assert (Hr : ∀ v, v ∈ bucketValues c → 0 ≤ v ≤ MaxSafeInteger).
  { intros v Hv. apply list_elem_of_In, Hall in Hv. apply andb_true_iff in Hv as [? ?]. lia. }
  apply Z.eqb_eq in Hsum. apply andb_true_iff. split.
  - apply forallb_forall. intros v Hv%list_elem_of_In%Hr. apply negb_true_iff. lia.
  - rewrite sumSafe_ok; [by rewrite <- Hsum, Z.eqb_refl|lia| |].
    + intros v Hv. apply (Hr v). destruct c as [? ? []]. simpl in *. set_solver.
    + rewrite <- Hsum. apply Hr. left.
Qed.

Lemma with_counts_valid b c n :
  minute_check c = true → validateSummaryBucket b n = true → validateSummaryBucket (with_counts b c) n = true.
Proof.
  intros Hc Hb. unfold with_counts. destruct (_ || _) eqn:E; [|done]. unfold validateSummaryBucket in *. cbn [sb_At
    sb_CoverageState sb_CoveredSeconds sb_ReasonCode sb_Counts is_none] in *. rewrite (checked_valid c Hc).
  apply andb_true_iff in Hb as [Hb _]. apply andb_true_iff in Hb as [Hb1 Hb2]. rewrite Hb1. simpl.
  apply andb_true_iff. split.
  - destruct (sb_CoverageState b); try done; apply negb_true_iff in Hb2; apply negb_true_iff;
      rewrite !orb_false_iff in *; tauto.
  - apply negb_true_iff. destruct ((sb_CoverageState b == CoverageGapState) || _); [|done]. simpl.
    destruct (Z.eqb_spec (bc_Captured c) 0), (Z.eqb_spec (bc_Discarded c) 0); try done. simpl.
    rewrite orb_true_iff, !Z.ltb_lt in E. lia.
Qed.

Lemma with_counts_counts b c f :
  minute_check c = true → sb_Counts b = None ∨ sb_Counts b = Some zeroBucketCounts → measure f →
  f (default zeroBucketCounts (sb_Counts (with_counts b c))) = f c.
Proof.
  intros Hc Hb Hf. pose proof (minute_check_nonneg c Hc) as [? ?].
  unfold with_counts. destruct (_ || _) eqn:E; [done|]. bools.
  rewrite (measure_none f c) by (done || lia). destruct Hb as [-> | ->]; simpl; by rewrite measure_zero.
Qed.

Definition counts_so_far (totals : option Counts) : Counts := default (MkCounts 0 0) totals.

(** What the loop over the buckets leaves: every bucket as it should be, sums that
    its own validation recomputes, and no covered second exactly when no bucket
    covers anything. *)
Record summed (segments : list logCoverageSegment) (query : SummaryQuery) (i : Z) (counts : list BucketCounts)
    (covered : Z) (totals : option Counts) (bs : list SummaryBucket) (covered' : Z) (totals' : option Counts) : Prop := {
  sd_length : length bs = length counts;
  sd_buckets : ∀ n b, bs !! n = Some b → ∃ c, counts !! n = Some c ∧ bucket_matches segments query (i + Z.of_nat n) c b;
  sd_checked : sumBuckets query i bs covered totals = Some (covered', totals');
  sd_captured : ct_Captured (counts_so_far totals') = ct_Captured (counts_so_far totals) + total bc_Captured counts;
  sd_discarded : ct_Discarded (counts_so_far totals') = ct_Discarded (counts_so_far totals) + total bc_Discarded counts;
  sd_covered : covered ≤ covered' ≤ covered + 3600 * Z.of_nat (length counts);
  sd_states : ∀ b, b ∈ bs → CoverageState_Validate (sb_CoverageState b) = true;
  sd_none : covered' = covered
    ↔ existsb (λ b, (sb_CoverageState b == CoverageFull) || (sb_CoverageState b == CoveragePartial)) bs = false }.

Lemma bucket_covered b n :
  validateSummaryBucket b n = true → 0 < n ≤ 3600 → 0 ≤ sb_CoveredSeconds b →
  0 ≤ sb_CoveredSeconds b ≤ 3600 ∧ CoverageState_Validate (sb_CoverageState b) = true
  ∧ (sb_CoveredSeconds b = 0 ↔ (sb_CoverageState b == CoverageFull) || (sb_CoverageState b == CoveragePartial) = false).
Proof.
  unfold validateSummaryBucket. intros H Hn H0. apply andb_true_iff in H as [H _]. apply andb_true_iff in H as [H1 H2].
  apply andb_true_iff in H1 as [H1 _]. destruct (sb_CoverageState b); try done; apply negb_true_iff in H2;
    rewrite !orb_false_iff in H2; simpl; destruct_and?; bools; (split; [lia|]); (split; [done|]); split; done || lia.
Qed.

Lemma addSafe_ok l r : l + r ≤ MaxSafeInteger → 0 ≤ l → 0 ≤ r → addSafe l r = Some (l + r).
Proof.
  intros. unfold addSafe. by replace ((MaxSafeInteger <? l) || (MaxSafeInteger <? r) || (MaxSafeInteger - l <? r)) with false by lia.
Qed.

Section buckets.
Variables (segments : list logCoverageSegment) (query : SummaryQuery).
Hypotheses (Hchain : chain 0 segments) (W : window query).

Lemma bucket_window i :
  0 ≤ i < q_BucketCount query →
  let start := Add (q_WindowStart query) (i * q_BucketInterval query) in
  let end_ := Add (q_WindowStart query) ((i + 1) * q_BucketInterval query) in
  wrap_i64 (i * q_BucketInterval query) = i * q_BucketInterval query
  ∧ Add start (q_BucketInterval query) = end_
  ∧ ∃ b, projectLogCoverage segments start end_ = Some b ∧ sb_At b = start
    ∧ validateSummaryBucket b (bucketSeconds query) = true
    ∧ (sb_Counts b = None ∨ sb_Counts b = Some zeroBucketCounts) ∧ 0 ≤ sb_CoveredSeconds b.
Proof.
  intros Hi. destruct (wn_interval _ W) as [Hint Hmod], (wn_count _ W) as [_ Hn], (wn_length _ W) as [Hlen Hmax].
  cbv zeta. split; [|split].
  - apply wrap_i64_id. unfold MinInt64, MaxInt64, Hour, Minute, Second in *. nia.
  - unfold Add. destruct (q_WindowStart query) as [w z] eqn:Eq. simpl.
    pose proof (wn_start _ W) as Hs. rewrite (validUTC_At _ Hs) in Eq. injection Eq as _ <-. simpl. f_equal. lia.
  - assert (Hsecs : bucketSeconds query = q_BucketInterval query / Second).
    { unfold bucketSeconds. rewrite Z.quot_div_nonneg by (unfold Minute, Second in *; lia). apply Z.mod_small.
      unfold Hour, Minute, Second in *. div_lia. }
    pose proof (wn_start _ W) as Hs. pose proof (wn_end _ W) as He. pose proof (wn_aligned _ W) as Ha.
    rewrite (validUTC_At _ Hs) in *. cbn [At wall] in *. set (w := wall (q_WindowStart query)) in *.
    assert (Hbounds : 0 ≤ i * q_BucketInterval query ∧ (i + 1) * q_BucketInterval query ≤ q_BucketCount query * q_BucketInterval query)
      by (unfold Minute, Second in *; nia).
    assert (Hvalid : ∀ d, 0 ≤ d ≤ q_BucketCount query * q_BucketInterval query → validateUTC (Add (At w) d) = true).
    { intros d Hd. unfold validateUTC, IsZero, year_ok in *. cbn in *. bools.
      replace (w + d =? 0) with false by lia. replace (0 <=? w + d) with true by lia.
      replace (w + d <? year10000) with true by lia. done. }
    assert (Hal : ∀ j, (w + j * q_BucketInterval query) mod Second = 0).
    { intros j. rewrite Z.add_mod, Z.mul_mod, Ha, Hmod, Z.mul_0_r by done. done. }
    destruct (project_bucket segments (Add (At w) (i * q_BucketInterval query)) (Add (At w) ((i + 1) * q_BucketInterval query)))
      as (b & Hb & Hat & Hv & Hc & H0);
      [done|apply Hvalid|apply Hvalid|apply Hal|apply Hal| |]; rewrite ?wall_Add; try (unfold Minute, Second in *; lia).
    exists b. do 2 (split; [done|]). split; [|done]. rewrite Hsecs.
    rewrite !wall_Add in Hv. by replace (wall (At w) + _ - _) with (q_BucketInterval query) in Hv by lia.
Qed.

Lemma query_buckets_ok counts i covered totals :
  (∀ c, c ∈ counts → minute_check c = true) → 0 ≤ i → i + Z.of_nat (length counts) ≤ q_BucketCount query →
  0 ≤ covered ≤ 3600 * i → 0 ≤ ct_Captured (counts_so_far totals) → 0 ≤ ct_Discarded (counts_so_far totals) →
  ct_Captured (counts_so_far totals) + total bc_Captured counts ≤ MaxSafeInteger →
  ct_Discarded (counts_so_far totals) + total bc_Discarded counts ≤ MaxSafeInteger →
  ∃ bs covered' totals', query_buckets segments query i counts covered totals = Some (bs, covered', totals')
    ∧ summed segments query i counts covered totals bs covered' totals'.
Proof.
  revert i covered totals. induction counts as [|c counts IH]; intros i covered totals Hall Hi Hlen Hcov T1 T2 H1 H2.
  { exists [], covered, totals. split; [done|]. split; try done; simpl; try lia. intros b Hb. by apply not_elem_of_nil in Hb. }
  cbn [length] in Hlen. destruct (bucket_window i ltac:(lia)) as (Hwrap & Hend & b & Hb & Hat & Hv & Hcounts & Hn0).
  assert (Hc : minute_check c = true) by (apply Hall; left).
  assert (Hrest : ∀ x, x ∈ counts → minute_check x = true) by (intros; apply Hall; by right).
  destruct (checked_nonneg _ Hrest) as [N1 N2]. pose proof (total_nonneg _ _ N1). pose proof (total_nonneg _ _ N2).
  pose proof (minute_check_nonneg c Hc) as [P1 P2]. cbn [total] in H1, H2. destruct (wn_count _ W) as [_ Hmax].
  assert (Hsecs : 0 < bucketSeconds query ≤ 3600).
  { destruct (wn_interval _ W) as [Hint _]. unfold bucketSeconds.
    rewrite Z.quot_div_nonneg, Z.mod_small by (unfold Hour, Minute, Second in *; div_lia || lia).
    unfold Hour, Minute, Second in *. div_lia. }
  cbn [query_buckets]. rewrite Hwrap, Hend, Hb. cbv zeta. fold (with_counts b c). set (b' := with_counts b c).
  assert (Hv' : validateSummaryBucket b' (bucketSeconds query) = true) by by apply with_counts_valid.
  assert (Hsame : sb_At b' = sb_At b ∧ sb_CoverageState b' = sb_CoverageState b ∧ sb_CoveredSeconds b' = sb_CoveredSeconds b
    ∧ sb_ReasonCode b' = sb_ReasonCode b) by (unfold b', with_counts; destruct (_ || _); done).
  destruct Hsame as (S1 & S2 & S3 & S4).
  destruct (bucket_covered b' _ Hv' Hsecs ltac:(lia)) as (Hbc & Hstate & Hzero).
  rewrite wrap_u64_id by (unfold MaxUint64; lia).
  assert (Hf : ∀ f, measure f → f (default zeroBucketCounts (sb_Counts b')) = f c) by (intros; by apply with_counts_counts).
  pose proof (Hf _ (measure_linear _ (or_introl eq_refl))) as F1. pose proof (Hf _ (measure_linear _ (or_intror eq_refl))) as F2.
  assert (Hstep : ∃ totals1,
    (match sb_Counts b' with
     | None => Some totals
     | Some bc =>
         let t := default (MkCounts 0 0) totals in
         if (MaxSafeInteger - bc_Captured bc <? ct_Captured t) || (MaxSafeInteger - bc_Discarded bc <? ct_Discarded t) then None
         else Some (Some (MkCounts (ct_Captured t + bc_Captured bc) (ct_Discarded t + bc_Discarded bc)))
     end) = Some totals1
    ∧ ct_Captured (counts_so_far totals1) = ct_Captured (counts_so_far totals) + bc_Captured c
    ∧ ct_Discarded (counts_so_far totals1) = ct_Discarded (counts_so_far totals) + bc_Discarded c
    ∧ ∀ bs, sumBuckets query i (b' :: bs) covered totals = sumBuckets query (i + 1) bs (covered + sb_CoveredSeconds b') totals1).
  { cbn [sumBuckets]. rewrite Hwrap, Hv', S1, Hat, Equal_refl.
    assert (utc (Add (q_WindowStart query) (i * q_BucketInterval query)) = true) as ->
      by (pose proof (wn_start _ W) as Hs; rewrite (validUTC_At _ Hs); done).
    simpl andb. cbv iota. rewrite addSafe_ok by (unfold MaxSafeInteger; lia). fold (counts_so_far totals).
    destruct (sb_Counts b') as [bc|]; simpl in F1, F2.
    - rewrite F1, F2. replace (_ || _) with false by lia. rewrite !addSafe_ok by lia. eexists. split; [done|]. simpl. done.
    - exists totals. split; [done|]. split; [lia|]. split; [lia|done]. }
  destruct Hstep as (totals1 & Estep & U1 & U2 & U3). cbv zeta in Estep. rewrite Estep.
  destruct (IH (i + 1) (covered + sb_CoveredSeconds b') totals1) as (bs & covered' & totals' & -> & [D1 D2 D3 D4 D5 D6 D7 D8]);
    try lia; [done|].
  exists (b' :: bs), covered', totals'. split; [done|]. split.
  - simpl. by rewrite D1.
  - intros [|n] b0 Hb0; simpl in Hb0.
    + injection Hb0 as <-. exists c. split; [done|]. rewrite Z.add_0_r. exists b. done.
    + destruct (D2 n b0 Hb0) as (c0 & ? & Hm). exists c0. split; [done|]. by replace (i + Z.of_nat (S n)) with (i + 1 + Z.of_nat n) by lia.
  - by rewrite U3.
  - cbn [total]. lia.
  - cbn [total]. lia.
  - cbn [length]. lia.
  - intros x [-> |Hx]%elem_of_cons; auto.
  - simpl. rewrite orb_false_iff, <- Hzero, <- D8. lia.
Qed.
End buckets.

(** ** Sources *)

Lemma coverage_aggregate bs covered :
  bs ≠ [] → (∀ b, b ∈ bs → CoverageState_Validate (sb_CoverageState b) = true) →
  (covered = 0 ↔ existsb (λ b, (sb_CoverageState b == CoverageFull) || (sb_CoverageState b == CoveragePartial)) bs = false) →
  query_coverage bs covered = aggregateCoverage (map sb_CoverageState bs).
Proof.
  intros Hne Hv Hc. unfold query_coverage, aggregateCoverage. rewrite length_map.
  rewrite decide_False by (by destruct bs).
  assert (Hmap : ∀ p, forallb p (map sb_CoverageState bs) = forallb (λ b, p (sb_CoverageState b)) bs)
    by (intros p; clear; induction bs as [|b bs IH]; simpl; congruence).
  assert (Hemap : ∀ p, existsb p (map sb_CoverageState bs) = existsb (λ b, p (sb_CoverageState b)) bs)
    by (intros p; clear; induction bs as [|b bs IH]; simpl; congruence).
  rewrite !Hmap, !Hemap. destruct (forallb _ bs); [done|]. destruct (forallb _ bs); [done|].
  destruct (existsb (λ b, (sb_CoverageState b == CoverageFull) || _) bs) eqn:E; simpl; rewrite ?andb_false_r, ?andb_true_r.
  - replace (covered =? 0) with false; [done|]. symmetry. apply Z.eqb_neq. intros H%Hc. done.
  - by replace (covered =? 0) with true by (symmetry; apply Z.eqb_eq; by apply Hc).
Qed.

(** What the summary of a source says. *)
Record source_summary (db : LogDb) (query : SummaryQuery) (s : Source) (out : SourceSummary) : Prop := {
  ssm_source : ss_Source out = s;
  ssm_valid : validateSourceSummary out query = true;
  ssm_captured : ct_Captured (counts_so_far (ss_Counts out)) = total bc_Captured (window_rows db s query).*2;
  ssm_discarded : ct_Discarded (counts_so_far (ss_Counts out)) = total bc_Discarded (window_rows db s query).*2;
  ssm_buckets : ∀ n b, ss_Buckets out !! n = Some b → ∃ c,
    bucket_matches (overlapping (q_WindowStart query) (q_WindowEnd query) (rows db s)) query (Z.of_nat n) c b
    ∧ ∀ f, measure f → f c = total f (filter (λ row, bucket_of query row.1 = Z.of_nat n) (window_rows db s query)).*2 }.

Lemma queryLogSource_ok db s query :
  store_ok db → Source_Validate s = true → window query →
  Z.of_nat (length (overlapping (q_WindowStart query) (q_WindowEnd query) (rows db s))) ≤ maxLogCoverageRows →
  ∃ out, queryLogSource db s query = Some out ∧ source_summary db query s out.
Proof.
  intros Hok Hs W Hfew. destruct (so_sources _ Hok s Hs) as [(st & Hst & _ & Hsrc) Hrows _ _].
  unfold queryLogSource. rewrite Hst, (loadLogCoverage_ok db s _ _ Hrows (wn_start _ W) (wn_end _ W) Hfew).
  destruct (queryLogMinuteCounts_ok db s query Hok Hs W) as (counts & -> & Hlen & Hchk & Hf).
  set (segs := overlapping _ _ _).
  assert (Hmax : ∀ f, linear f → 0 + total f counts ≤ MaxSafeInteger).
  { intros f Hl. rewrite (proj1 (Hf f (measure_linear f Hl))), Z.add_comm. apply (source_sums db query [s] f Hok Hl); [apply NoDup_singleton|].
    intros s' Hs'. by apply list_elem_of_singleton in Hs' as ->. }
  destruct (query_buckets_ok segs query ltac:(by apply chain_filter) W counts 0 0 None Hchk) as (bs & covered & totals & -> & D);
    [simpl; lia..|by apply (Hmax bc_Captured); left|by apply (Hmax bc_Discarded); right|].
  destruct D as [D1 D2 D3 D4 D5 D6 D7 D8]. eexists. split; [done|]. split; simpl.
  - done.
  - unfold validateSourceSummary. simpl. rewrite Hs.
    assert (Hstatus : let status := if cp_Revision (ls_checkpoint st) =? 0 then notRunStatus else ls_status st in
      Status_Validate status = true ∧ validateSourceStatus status = true).
    { simpl. destruct (loadLogState_inv _ _ _ Hst) as (_ & Hr & Hcase).
      destruct (cp_Revision (ls_checkpoint st) =? 0) eqn:E; [done|]. bools.
      destruct Hcase as [[_ ->]|(_ & ? & ? & _)]; [done|]. split; [done|]. apply Hsrc. lia. }
    destruct Hstatus as [-> ->].
    assert (Hne : bs ≠ []) by (intros ->; destruct (wn_count _ W); simpl in D1; lia).
    rewrite (coverage_aggregate bs covered Hne D7 D8), D3, D1, Hlen, !Z.eqb_refl.
    assert (CoverageState_Validate (aggregateCoverage (map sb_CoverageState bs)) = true) as ->
      by (unfold aggregateCoverage; repeat case_match; done).
    simpl. rewrite bool_decide_eq_true_2 by done. rewrite andb_true_r. destruct totals; simpl; [by rewrite !Z.eqb_refl|done].
  - rewrite D4. simpl. by apply (Hf _ (measure_linear _ (or_introl eq_refl))).
  - rewrite D5. simpl. by apply (Hf _ (measure_linear _ (or_intror eq_refl))).
  - intros n b Hb. destruct (D2 n b Hb) as (c & Hc & Hm). exists c. split; [done|]. intros f Hl.
    destruct (Hf f Hl) as [_ Hbk]. rewrite <- (Hbk (Z.of_nat n)) by lia. unfold counted. by rewrite Nat2Z.id, Hc.
Qed.

(** ** Summaries *)

#[local] Abbreviation by_rank := (λ a b : Source, sourceRank a < sourceRank b).

Lemma sources_shape sources :
  query_sources_ok None sources = true →
  (∀ s, s ∈ sources → Source_Validate s = true) ∧ NoDup sources ∧ StronglySorted by_rank sources.
Proof.
  destruct sources as [|s1 [|s2 [|s3 l]]]; simpl; intros H; bools; subst.
  - split; [set_solver|]. split; repeat constructor.
  - split; [set_solver|]. split; [apply NoDup_singleton|repeat constructor].
  - split; [set_solver|]. split; [|by repeat constructor]. apply NoDup_cons. split; [set_solver|apply NoDup_singleton].
  - done.
Qed.

Lemma validate_sources db query sources outs rank cap dis :
  store_ok db → Forall2 (source_summary db query) sources outs → StronglySorted by_rank sources →
  (∀ s, s ∈ sources → rank < sourceRank s) → 0 ≤ cap → 0 ≤ dis → (∀ s, s ∈ sources → Source_Validate s = true) →
  cap + foldr (λ s acc, total bc_Captured (window_rows db s query).*2 + acc) 0 sources ≤ MaxSafeInteger →
  dis + foldr (λ s acc, total bc_Discarded (window_rows db s query).*2 + acc) 0 sources ≤ MaxSafeInteger →
  validateSources query rank cap dis outs = true.
Proof.
  intros Hok H. revert rank cap dis.
  assert (Hpos : ∀ s' f, linear f → Source_Validate s' = true → 0 ≤ total f (window_rows db s' query).*2).
  { intros s' f Hf Hv'. apply total_nonneg. intros c ([k c'] & -> & [Hin _]%window_rows_elem)%list_elem_of_fmap.
    apply (so_sources _ Hok s' Hv') in Hin as [_ [? ?]%minute_check_nonneg]. by destruct Hf as [-> | ->]. }
  assert (Hrest : ∀ f l, linear f → (∀ s, s ∈ l → Source_Validate s = true) →
    0 ≤ foldr (λ s acc, total f (window_rows db s query).*2 + acc) 0 l).
  { intros f l Hf. induction l as [|x l IH]; simpl; [done|]. intros Hl. pose proof (Hpos x f Hf (Hl x ltac:(left))).
    specialize (IH (λ y Hy, Hl y (list_elem_of_further _ _ _ Hy))). lia. }
  induction H as [|s out sources outs [E Hv Hc Hd _] _ IH]; intros rank cap dis Hsort Hrank C0 D0 Hs HC HD; [done|].
  assert (Hs' : ∀ x, x ∈ sources → Source_Validate x = true) by (intros; apply Hs; by right).
  pose proof (Hs s ltac:(left)) as Hsv. pose proof (Hpos s _ (or_introl eq_refl) Hsv). pose proof (Hpos s _ (or_intror eq_refl) Hsv).
  pose proof (Hrest _ _ (or_introl eq_refl) Hs'). pose proof (Hrest _ _ (or_intror eq_refl) Hs'). simpl in HC, HD.
  cbn [validateSources]. rewrite E, Hv. specialize (Hrank s ltac:(left)) as Hr.
  assert (0 ≤ sourceRank s) by by destruct s. replace (sourceRank s <? 0) with false by lia.
  replace (sourceRank s <=? rank) with false by lia. simpl.
  apply StronglySorted_inv in Hsort as [Hsort Hnext]. rewrite Forall_forall in Hnext.
  assert (Hgo : ∀ cap' dis', cap' = cap + ct_Captured (counts_so_far (ss_Counts out)) →
    dis' = dis + ct_Discarded (counts_so_far (ss_Counts out)) → validateSources query (sourceRank s) cap' dis' outs = true).
  { intros cap' dis' -> ->. rewrite Hc, Hd. apply IH; auto; lia. }
  destruct (ss_Counts out) as [cs|]; simpl in Hc, Hd, Hgo; [|apply Hgo; lia].
  rewrite !addSafe_ok by lia. by apply Hgo.
Qed.

(** The reader of the coverage refuses a window with too many rows. *)
Lemma scan_segments_bound found l out :
  scan_segments found l = Some out → l = [] ∨ Z.of_nat (length (found ++ l)) ≤ maxLogCoverageRows.
Proof.
  revert found. induction l as [|x l IH]; intros found; [by left|]. simpl.
  destruct (_ || _); [done|]. destruct (_ <? _) eqn:E; [done|]. intros H. right.
  destruct (IH _ H) as [-> |Hl]; [lia|]. by rewrite <- app_assoc in Hl.
Qed.

Lemma loadLogCoverage_bound db s start end_ out :
  loadLogCoverage db s start end_ = Some out →
  Z.of_nat (length (overlapping start end_ (rows db s))) ≤ maxLogCoverageRows.
Proof.
  unfold loadLogCoverage. destruct (encodeLogTime start), (encodeLogTime end_); try done.
  fold (rows db s). fold (overlapping start end_ (rows db s)). set (l := overlapping _ _ _). clearbody l.
  intros [H|H]%scan_segments_bound.
  - apply (f_equal length) in H. rewrite length_take in H. cbn [length] in H. unfold maxLogCoverageRows in *. lia.
  - rewrite app_nil_l, length_take in H. unfold maxLogCoverageRows in *. lia.
Qed.

Definition few_rows (db : LogDb) (query : SummaryQuery) (s : Source) : Prop :=
  Z.of_nat (length (overlapping (q_WindowStart query) (q_WindowEnd query) (rows db s))) ≤ maxLogCoverageRows.

Lemma summary_needs db ready sources query out :
  query_tables db ready sources query = Some out →
  ready || validateLogSchema db = true ∧ ∀ s, s ∈ sources → few_rows db query s.
Proof.
  unfold query_tables. destruct (negb ready && _) eqn:E; [done|]. intros H.
  split; [by destruct ready, (validateLogSchema db)|].
  destruct (mapM _ sources) as [items|] eqn:Hm; [|done]. apply mapM_Some in Hm. intros s Hs.
  apply list_elem_of_lookup in Hs as [i Hi]. destruct (Forall2_lookup_l _ _ _ _ _ Hm Hi) as (item & _ & Hq).
  unfold queryLogSource in Hq. destruct (loadLogState db s); [|done].
  destruct (loadLogCoverage db s _ _) eqn:Hl; [|done]. by eapply loadLogCoverage_bound.
Qed.

Lemma summary_answers db ready sources query :
  store_ok db → SummaryQuery_Validate query = true → query_sources_ok None sources = true →
  ready || validateLogSchema db = true → (∀ s, s ∈ sources → few_rows db query s) →
  ∃ out, query_tables db ready sources query = Some out ∧ Summary_Validate out = true
    ∧ Forall2 (source_summary db query) sources (sm_Sources out).
Proof.
  intros Hok Hq Hsrc Hready Hfew. pose proof (query_window _ Hq) as W. destruct (sources_shape _ Hsrc) as (Hs & Hnd & Hsort).
  unfold query_tables. replace (negb ready && negb (validateLogSchema db)) with false by (by destruct ready, (validateLogSchema db)).
  assert (Houts : ∃ outs, mapM (λ s, queryLogSource db s query) sources = Some outs ∧ Forall2 (source_summary db query) sources outs).
  { clear Hsrc Hnd Hsort. induction sources as [|s l IH]; [by exists []|].
    destruct (queryLogSource_ok db s query Hok (Hs s ltac:(left)) W (Hfew s ltac:(left))) as (out & Eo & Ho).
    destruct IH as (outs & El & Hl); [intros; apply Hfew; by right|intros; apply Hs; by right|].
    exists (out :: outs). simpl. rewrite Eo. cbn [mbind option_bind]. rewrite El. split; [done|by constructor]. }
  destruct Houts as (outs & -> & Houts).
  assert (Hvalid : Summary_Validate (MkSummary (q_WindowStart query) (q_WindowEnd query) (q_BucketInterval query)
    (q_BucketCount query) outs) = true).
  { unfold Summary_Validate, Summary_query. simpl. replace (MkQuery _ _ _ _) with query by by destruct query. rewrite Hq.
    assert (Hlen : (length outs ≤ 2)%nat).
    { rewrite <- (Forall2_length _ _ _ Houts). destruct sources as [|? [|? [|? ?]]]; simpl; try lia. simpl in Hsrc. bools. subst. done. }
    replace (MaxSources <? Z.of_nat (length outs)) with false by (unfold MaxSources; lia). simpl.
    apply (validate_sources db query sources outs); auto; try lia.
    - intros s Hin. specialize (Hs s Hin). by destruct s.
    - rewrite Z.add_0_l. apply source_sums; auto. by left.
    - rewrite Z.add_0_l. apply source_sums; auto. by right. }
  rewrite Hvalid. eexists. split; [done|]. done.
Qed.


(** ** Witness *)

