(* ===== verification/Enrollment.v ===== *)
(** * The enrollment coordinator ([internal/enrollmentcoord])

    [Run] reads a one-use grant, draws a connector identity, records the attempt,
    exchanges the grant for a credential, stores it, provisions the upload ledger
    and marks the attempt ready.  Secrets live in byte buffers: a buffer is a
    location, copying and clearing are calls, so that what a caller can still read
    after [Run] returned is part of the model.  Several goroutines may call [Run] of
    one coordinator. *)

From S2P Require Import Prelude GoText Sha256 Effects.
From S2P Require UploadState.
Import UploadState (Binding, MkBinding, ServerID, ConnectorID).

#[local] Open Scope string_scope.
#[local] Open Scope Z_scope.

(** ** Data *)

Inductive EnrollError := ErrCanceled | ErrBusy | ErrUsed | ErrGrant | ErrInput | ErrRandom | ErrAttempt.

Inductive Outcome := Ready | Retryable | Rejected | RecoveryRequired.

Inductive ExchangeOutcome := ExchangeAccepted | ExchangeRateLimited | ExchangeRejected | ExchangeAmbiguous
| ExchangeOther (raw : string).

(** A byte slice is the location of its array. *)
Notation buffer := nat.

Record Grant := MkGrant { gt_ExpectedServerID : string; gt_Secret : buffer }.
Record ExchangeResponse := MkResponse {
  xr_Outcome : ExchangeOutcome; xr_ServerID : string; xr_ConnectorSecret : buffer }.

Definition identityBytes : Z := 16.
Definition serverIDLength : Z := 36.
Definition grantLength : Z := 47.
Definition credentialLength : Z := 47.

Definition is_base64url (c : ascii) : bool :=
  between 65 90 c || between 97 122 c || between 48 57 c || between 95 95 c || between 45 45 c.

Definition serverPattern : string → bool := match_pattern "srv_" is_lower_hex 32.
Definition connectorPattern : string → bool := match_pattern "agent_" is_lower_hex 32.
Definition grantPattern : string → bool := match_pattern "hle_" is_base64url 43.
Definition credentialPattern : string → bool := match_pattern "hlc_" is_base64url 43.

(** ** Calls *)

Inductive EnrollCall : Type → Type :=
| EStart : EnrollCall (option EnrollError)
| EFinish : EnrollCall unit
| ECtxErr : EnrollCall bool
| EMake (n : Z) : EnrollCall buffer (* make([]byte, n) *)
| ECopy (l : buffer) : EnrollCall buffer (* append([]byte(nil), l...) *)
| ELoad (l : buffer) : EnrollCall string
| EClear (l : buffer) : EnrollCall unit
| ERandom (l : buffer) : EnrollCall bool (* io.ReadFull(c.random, l) *)
| ERead : EnrollCall (Grant * bool) (* with err == nil *)
| EBegin (b : Binding) : EnrollCall bool
| EExchange (b : Binding) (grant : buffer) : EnrollCall (ExchangeResponse * bool)
| ECreate (b : Binding) (secret : buffer) : EnrollCall bool
| EProvision (b : Binding) : EnrollCall bool
| EMarkReady (b : Binding) : EnrollCall bool.

(** The state of a coordinator: [running] and [used]. *)
Record Coordinator := MkCoordinator { co_running : bool; co_used : bool }.

Definition newCoordinator : Coordinator := MkCoordinator false false.

Definition start (c : Coordinator) : Coordinator * option EnrollError :=
  if co_running c then (c, Some ErrBusy)
  else if co_used c then (c, Some ErrUsed)
  else (MkCoordinator true true, None).

Definition finish (c : Coordinator) : Coordinator := MkCoordinator false (co_used c).

(** ** Run *)

Local Open Scope prog_scope.

Notation Answer := (result EnrollError Outcome).

(** [defer clear(l)] *)
Definition clearing {R} (l : buffer) (p : prog EnrollCall R) : prog EnrollCall R :=
  r <- p; _ <~ EClear l; Ret r.

Definition cleared {R} (l : buffer) (r : R) : prog EnrollCall R := _ <~ EClear l; Ret r.

Definition fixedPreAttemptError (fallback : EnrollError) : prog EnrollCall Answer :=
  expired <~ ECtxErr; Ret (Err (if expired : bool then ErrCanceled else fallback)).

(** From the credential on: [responseSecret] holds it. *)
Definition persist (b : Binding) (responseSecret : buffer) : prog EnrollCall Answer :=
  secret <~ ELoad responseSecret;
  if negb (credentialPattern secret) then Ret (Ok RecoveryRequired)
  else
    expired <~ ECtxErr;
    if expired : bool then Ret (Ok RecoveryRequired)
    else
      credentialSecret <~ ECopy responseSecret;
      created <~ ECreate b credentialSecret;
      _ <~ EClear credentialSecret;
      if negb created then Ret (Ok RecoveryRequired)
      else
        expired <~ ECtxErr;
        if expired : bool then Ret (Ok RecoveryRequired)
        else
          provisioned <~ EProvision b;
          if negb provisioned then Ret (Ok RecoveryRequired)
          else
            expired <~ ECtxErr;
            if expired : bool then Ret (Ok RecoveryRequired)
            else
              ready <~ EMarkReady b;
              Ret (Ok (if ready : bool then Ready else RecoveryRequired)).

(** What the exchange answered. *)
Definition respond (b : Binding) (response : ExchangeResponse) : prog EnrollCall Answer :=
  let refused (o : Outcome) :=
    secret <~ ELoad (xr_ConnectorSecret response);
    if negb (str_eqb (xr_ServerID response) "") || negb (slen secret =? 0)
    then cleared (xr_ConnectorSecret response) (Ok RecoveryRequired)
    else Ret (Ok o) in
  match xr_Outcome response with
  | ExchangeRateLimited => refused Retryable
  | ExchangeRejected => refused Rejected
  | ExchangeAccepted =>
      secret <~ ELoad (xr_ConnectorSecret response);
      if negb (str_eqb (xr_ServerID response) (ServerID b)) || negb (slen secret =? credentialLength)
      then cleared (xr_ConnectorSecret response) (Ok RecoveryRequired)
      else
        responseSecret <~ ECopy (xr_ConnectorSecret response);
        _ <~ EClear (xr_ConnectorSecret response);
        clearing responseSecret (persist b responseSecret)
  | ExchangeAmbiguous | ExchangeOther _ => cleared (xr_ConnectorSecret response) (Ok RecoveryRequired)
  end.

Definition exchange (b : Binding) (grantSecret : buffer) : prog EnrollCall Answer :=
  requestSecret <~ ECopy grantSecret;
  answer <~ EExchange b requestSecret;
  let '(response, ok) := answer in
  _ <~ EClear requestSecret;
  if negb ok then cleared (xr_ConnectorSecret response) (Ok RecoveryRequired)
  else respond b response.

(** From the recorded attempt on. *)
Definition enroll (b : Binding) (grantSecret : buffer) : prog EnrollCall Answer :=
  begun <~ EBegin b;
  if negb begun then fixedPreAttemptError ErrAttempt
  else
    expired <~ ECtxErr;
    if expired : bool then Ret (Ok RecoveryRequired)
    else exchange b grantSecret.

(** From the detached grant on. *)
Definition identify (server : string) (grantSecret : buffer) : prog EnrollCall Answer :=
  secret <~ ELoad grantSecret;
  if negb (serverPattern server) || negb (grantPattern secret) then Ret (Err ErrInput)
  else
    identity <~ EMake identityBytes;
    drawn <~ ERandom identity;
    if negb drawn then
      _ <~ EClear identity; fixedPreAttemptError ErrRandom
    else
      bytes <~ ELoad identity;
      let b := MkBinding server ("agent_" ++ hexEncode bytes) in
      _ <~ EClear identity;
      if negb (connectorPattern (ConnectorID b)) then Ret (Err ErrRandom)
      else enroll b grantSecret.

Definition started : prog EnrollCall Answer :=
  expired <~ ECtxErr;
  if expired : bool then Ret (Err ErrCanceled)
  else
    answer <~ ERead;
    let '(grant, ok) := answer in
    if negb ok then _ <~ EClear (gt_Secret grant); fixedPreAttemptError ErrGrant
    else
      secret <~ ELoad (gt_Secret grant);
      if negb (slen (gt_ExpectedServerID grant) =? serverIDLength) || negb (slen secret =? grantLength)
      then cleared (gt_Secret grant) (Err ErrInput)
      else
        grantSecret <~ ECopy (gt_Secret grant);
        _ <~ EClear (gt_Secret grant);
        clearing grantSecret (identify (gt_ExpectedServerID grant) grantSecret).

Definition Run : prog EnrollCall Answer :=
  refused <~ EStart;
  match refused with
  | Some e => Ret (Err e)
  | None =>
      r <- started;
      _ <~ EFinish;
      Ret r
  end.
