(* ===== verification/EnrollmentSafety.v ===== *)
(** * Enrollment: order, single use and wiped secrets

    Any number of goroutines call [Run] of one coordinator.  What reaches the
    attempt store, the server, the credential store and the ledger is one prefix of
    one attempt; the answers say exactly how far it came; and a finished attempt
    left no secret in any buffer. *)

From S2P Require Import Prelude GoText Sha256 Effects Enrollment.
From S2P Require UploadState.
Import UploadState (Binding, MkBinding, ServerID, ConnectorID).

#[local] Open Scope string_scope.
#[local] Open Scope Z_scope.

(** ** The outside *)

Inductive event :=
| EvBegin (b : Binding) (ok : bool)
| EvExchange (b : Binding) (grant : string) (answer : option (ExchangeOutcome * string * string))
| EvCreate (b : Binding) (secret : string) (ok : bool)
| EvProvision (b : Binding) (ok : bool)
| EvMarkReady (b : Binding) (ok : bool).

Record world := MkWorld { ew_co : Coordinator; ew_heap : gmap nat string; ew_log : list event }.

Definition fresh_world : world := MkWorld newCoordinator ∅ [].

Fixpoint zeros (n : nat) : string :=
  match n with O => "" | S n => String (ascii_of_nat 0) (zeros n) end.
Definition zeroed (s : string) : Prop := s = zeros (String.length s).

Definition content (w : world) (l : buffer) : string := default "" (ew_heap w !! l).
Definition put (w : world) (l : buffer) (s : string) : world :=
  MkWorld (ew_co w) (<[l := s]> (ew_heap w)) (ew_log w).
Definition note (w : world) (e : event) : world := MkWorld (ew_co w) (ew_heap w) (ew_log w ++ [e]).

(** Buffers handed out are new; the dependencies keep the contract of their
    interfaces and touch no buffer they were given. *)
Definition enroll_env A (c : EnrollCall A) : world → A → world → Prop :=
  match c in EnrollCall T return world → T → world → Prop with
  | EStart => λ w a w', a = (start (ew_co w)).2 ∧ w' = MkWorld (start (ew_co w)).1 (ew_heap w) (ew_log w)
  | EFinish => λ w _ w', w' = MkWorld (finish (ew_co w)) (ew_heap w) (ew_log w)
  | ECtxErr => λ w _ w', w' = w
  | EMake n => λ w l w', ew_heap w !! l = None ∧ w' = put w l (zeros (Z.to_nat n))
  | ECopy l => λ w l' w', ew_heap w !! l' = None ∧ w' = put w l' (content w l)
  | ELoad l => λ w s w', s = content w l ∧ w' = w
  | EClear l => λ w _ w', w' = put w l (zeros (String.length (content w l)))
  | ERandom l => λ w _ w', ∃ s, String.length s = String.length (content w l) ∧ w' = put w l s
  | ERead => λ w a w', ew_heap w !! gt_Secret a.1 = None ∧ ∃ s, w' = put w (gt_Secret a.1) s
  | EBegin b => λ w ok w', w' = note w (EvBegin b ok)
  | EExchange b l => λ w a w', ew_heap w !! xr_ConnectorSecret a.1 = None ∧ ∃ s,
      w' = put (note w (EvExchange b (content w l)
             (if a.2 then Some (xr_Outcome a.1, xr_ServerID a.1, s) else None))) (xr_ConnectorSecret a.1) s
  | ECreate b l => λ w ok w', w' = note w (EvCreate b (content w l) ok)
  | EProvision b => λ w ok w', w' = note w (EvProvision b ok)
  | EMarkReady b => λ w ok w', w' = note w (EvMarkReady b ok)
  end.

(** ** One attempt *)

Inductive stage :=
| Untouched
| NotBegun
| Begun (b : Binding)
| Enrolled (b : Binding) (secret : string)
| Declined (o : ExchangeOutcome)
| Stored (b : Binding)
| Provisioned (b : Binding)
| Complete (b : Binding)
| Halted.

Definition identified (b : Binding) : Prop := serverPattern (ServerID b) = true ∧ connectorPattern (ConnectorID b) = true.

(** What a response means for a binding. *)
Definition answered (b : Binding) (answer : option (ExchangeOutcome * string * string)) (st : stage) : Prop :=
  match answer with
  | Some (ExchangeAccepted, server, secret) =>
      (server = ServerID b ∧ credentialPattern secret = true ∧ st = Enrolled b secret)
      ∨ (¬ (server = ServerID b ∧ credentialPattern secret = true) ∧ st = Halted)
  | Some ((ExchangeRateLimited | ExchangeRejected) as o, server, secret) =>
      (server = "" ∧ secret = "" ∧ st = Declined o) ∨ (¬ (server = "" ∧ secret = "") ∧ st = Halted)
  | _ => st = Halted
  end.

Inductive attempt : list event → stage → Prop :=
| at_untouched : attempt [] Untouched
| at_begin l b ok :
    attempt l Untouched → identified b → attempt (l ++ [EvBegin b ok]) (if ok : bool then Begun b else NotBegun)
| at_exchange l b grant answer st :
    attempt l (Begun b) → grantPattern grant = true → answered b answer st →
    attempt (l ++ [EvExchange b grant answer]) st
| at_create l b secret ok :
    attempt l (Enrolled b secret) → attempt (l ++ [EvCreate b secret ok]) (if ok : bool then Stored b else Halted)
| at_provision l b ok :
    attempt l (Stored b) → attempt (l ++ [EvProvision b ok]) (if ok : bool then Provisioned b else Halted)
| at_ready l b ok :
    attempt l (Provisioned b) → attempt (l ++ [EvMarkReady b ok]) (if ok : bool then Complete b else Halted).

(** What an answer of [Run] says about the attempt. *)
Definition settles (r : Answer) (st : stage) : Prop :=
  match r with
  | Err _ => st = Untouched ∨ st = NotBegun
  | Ok Ready => ∃ b, st = Complete b
  | Ok Retryable => st = Declined ExchangeRateLimited
  | Ok Rejected => st = Declined ExchangeRejected
  | Ok RecoveryRequired =>
      match st with Untouched | NotBegun | Declined _ | Complete _ => False | _ => True end
  end.

(** ** Wiped buffers *)

(** Everything outside [S] is wiped. *)
Definition wiped_but (S : gset nat) (w : world) : Prop :=
  ∀ l s, ew_heap w !! l = Some s → l ∈ S ∨ zeroed s.

Lemma zeroed_zeros n : zeroed (zeros n).
Proof. unfold zeroed. f_equal. induction n; simpl; congruence. Qed.

Lemma wiped_put (S : gset nat) w l s : wiped_but S w → wiped_but ({[l]} ∪ S) (put w l s).
Proof. intros H x y. simpl. rewrite lookup_insert_Some. intros [[<- _]|[_ Hx]]; [set_solver|]. destruct (H _ _ Hx); set_solver. Qed.

Lemma wiped_clear (S : gset nat) w l n : wiped_but S w → wiped_but (S ∖ {[l]}) (put w l (zeros n)).
Proof.
  intros H x y. simpl. rewrite lookup_insert_Some. intros [[<- <-]|[Hne Hx]]; [right; apply zeroed_zeros|].
  destruct (H _ _ Hx); set_solver.
Qed.

Lemma wiped_weaken (S S' : gset nat) w : S ⊆ S' → wiped_but S w → wiped_but S' w.
Proof. intros Hs H x y Hx. destruct (H _ _ Hx); set_solver. Qed.

Lemma content_put w l s : content (put w l s) l = s.
Proof. unfold content, put. simpl. by rewrite lookup_insert_eq. Qed.
Lemma content_put_ne w l l' s : l' ≠ l → content (put w l s) l' = content w l'.
Proof. intros. unfold content, put. simpl. by rewrite lookup_insert_ne. Qed.

(** ** Inside an attempt *)

(** The coordinator is taken and the log is a prefix of one attempt. *)
Definition at_stage (w : world) (st : stage) : Prop := co_used (ew_co w) = true ∧ attempt (ew_log w) st.
Definition underway (w : world) : Prop := ∃ st, at_stage w st.
Definition ends (S : gset nat) (r : Answer) (w : world) : Prop := ∃ st, at_stage w st ∧ settles r st ∧ wiped_but S w.

Lemma at_underway w st : at_stage w st → underway w.
Proof. by exists st. Qed.

Lemma at_put w st l s : at_stage w st → at_stage (put w l s) st.
Proof. done. Qed.

Lemma ends_ret S r w st :
  at_stage w st → settles r st → wiped_but S w → wpc enroll_env underway (Ret r) (ends S) w.
Proof. intros. apply wpc_ret; [by eapply at_underway|]. by exists st. Qed.

(** Calls that read only. *)
Lemma ctx_call {R} (k : bool → prog EnrollCall R) Q w st :
  at_stage w st → (∀ b, wpc enroll_env underway (k b) Q w) → wpc enroll_env underway (Call ECtxErr k) Q w.
Proof. intros Hw Hk. apply wpc_call; [by eapply at_underway|]. intros b w' ->. apply Hk. Qed.

Lemma load_call {R} l (k : string → prog EnrollCall R) Q w st :
  at_stage w st → wpc enroll_env underway (k (content w l)) Q w → wpc enroll_env underway (Call (ELoad l) k) Q w.
Proof. intros Hw Hk. apply wpc_call; [by eapply at_underway|]. intros s w' [-> ->]. apply Hk. Qed.

Lemma clear_call {R} l (k : unit → prog EnrollCall R) Q w st :
  at_stage w st → wpc enroll_env underway (k tt) Q (put w l (zeros (String.length (content w l)))) →
  wpc enroll_env underway (Call (EClear l) k) Q w.
Proof. intros Hw Hk. apply wpc_call; [by eapply at_underway|]. intros [] w' ->. apply Hk. Qed.

Lemma copy_call {R} l (k : buffer → prog EnrollCall R) Q w st :
  at_stage w st → is_Some (ew_heap w !! l) →
  (∀ l', l' ≠ l → ew_heap w !! l' = None → wpc enroll_env underway (k l') Q (put w l' (content w l))) →
  wpc enroll_env underway (Call (ECopy l) k) Q w.
Proof.
  intros Hw [s Hs] Hk. apply wpc_call; [by eapply at_underway|]. intros l' w' [Hf ->]. apply Hk; [congruence|done].
Qed.

Lemma cleared_wpc (S : gset nat) r w st l :
  at_stage w st → settles r st → wiped_but S w → wpc enroll_env underway (cleared l r) (ends (S ∖ {[l]})) w.
Proof.
  intros Hw Hr HS. eapply clear_call; [done|]. eapply ends_ret; [by apply at_put|done|]. by apply wiped_clear.
Qed.

Lemma clearing_wpc (S : gset nat) l p w :
  wpc enroll_env underway p (ends S) w → wpc enroll_env underway (clearing l p) (ends (S ∖ {[l]})) w.
Proof.
  intros Hp. apply wpc_bind. eapply wpc_mono; [done| |exact Hp]. intros r w' (st & Hw & Hr & HS).
  by eapply cleared_wpc.
Qed.

Lemma preattempt_wpc (S : gset nat) e w st :
  at_stage w st → st = Untouched ∨ st = NotBegun → wiped_but S w →
  wpc enroll_env underway (fixedPreAttemptError e) (ends S) w.
Proof. intros Hw Hst HS. eapply ctx_call; [done|]. intros b. by eapply ends_ret. Qed.

Lemma note_stage w st e st' : at_stage w st → (attempt (ew_log w) st → attempt (ew_log w ++ [e]) st') → at_stage (note w e) st'.
Proof. intros [? Hl] Hm. split; [done|]. by apply Hm. Qed.

Lemma persist_wpc (S : gset nat) b l w s :
  ew_heap w !! l = Some s → wiped_but S w →
  at_stage w (if credentialPattern s then Enrolled b s else Halted) →
  wpc enroll_env underway (persist b l) (ends S) w.
Proof.
  intros Hl HS Hw. unfold persist. eapply load_call; [done|].
  assert (content w l = s) as -> by (unfold content; by rewrite Hl).
  destruct (credentialPattern s) eqn:Hp; cbn [negb]; [|by eapply ends_ret].
  eapply ctx_call; [done|]. intros []; [by eapply ends_ret|].
  eapply copy_call; [done|by rewrite Hl|]. intros l' Hne Hf.
  assert (content w l = s) as -> by (unfold content; by rewrite Hl).
  apply wpc_call; [by eapply at_underway, at_put|]. intros created w1 ->. rewrite content_put.
  assert (at_stage (note (put w l' s) (EvCreate b s created)) (if created then Stored b else Halted)) as H1.
  { eapply note_stage; [exact Hw|]. intros ?. by constructor. }
  eapply clear_call; [exact H1|]. change (content (note ?x _) ?l) with (content x l). rewrite content_put.
  assert (wiped_but S (put (note (put w l' s) (EvCreate b s created)) l' (zeros (String.length s)))) as HS1.
  { eapply wiped_weaken; [|apply (wiped_clear ({[l']} ∪ S)), (wiped_put S w l' s HS)]. set_solver. }
  apply (at_put _ _ l' (zeros (String.length s))) in H1. revert H1 HS1. generalize (put (note (put w l' s) (EvCreate b s created)) l' (zeros (String.length s))).
  clear w Hl HS Hw Hf Hne. intros w Hw HS. destruct created; cbn [negb]; [|by eapply ends_ret].
  eapply ctx_call; [done|]. intros []; [by eapply ends_ret|].
  apply wpc_call; [by eapply at_underway|]. intros provisioned w1 ->.
  assert (at_stage (note w (EvProvision b provisioned)) (if provisioned then Provisioned b else Halted)) as H1.
  { eapply note_stage; [exact Hw|]. intros ?. by constructor. }
  destruct provisioned; cbn [negb]; [|by eapply ends_ret].
  eapply ctx_call; [done|]. intros []; [by eapply ends_ret|].
  apply wpc_call; [by eapply at_underway|]. intros ready w2 ->.
  assert (at_stage (note (note w (EvProvision b true)) (EvMarkReady b ready)) (if ready then Complete b else Halted)) as H2.
  { eapply note_stage; [exact H1|]. intros ?. by constructor. }
  eapply ends_ret; [exact H2| |done]. destruct ready; simpl; eauto.
Qed.

Lemma slen_zero s : (slen s =? 0) = true → s = "".
Proof. unfold slen. destruct s; [done|]. simpl. intros. bools. lia. Qed.

Lemma respond_wpc (S : gset nat) b response w s :
  ew_heap w !! xr_ConnectorSecret response = Some s → wiped_but ({[xr_ConnectorSecret response]} ∪ S) w →
  (∃ st, at_stage w st ∧ answered b (Some (xr_Outcome response, xr_ServerID response, s)) st) →
  wpc enroll_env underway (respond b response) (ends S) w.
Proof.
  destruct response as [o server l]. simpl. intros Hl HS (st & Hw & Ha). unfold respond. simpl.
  assert (Hc : content w l = s) by (unfold content; by rewrite Hl).
  assert (Hmono : ∀ p, wpc enroll_env underway p (ends (({[l]} ∪ S) ∖ {[l]})) w → wpc enroll_env underway p (ends S) w).
  { intros p. apply wpc_mono; [done|]. intros r w' (st' & ? & ? & HS'). exists st'. split; [done|]. split; [done|].
    eapply wiped_weaken; [|exact HS']. set_solver. }
  assert (Hgone : st = Halted → wpc enroll_env underway (cleared l (Ok RecoveryRequired)) (ends S) w).
  { intros ->. apply Hmono. by eapply cleared_wpc. }
  assert (Hdeclined : ∀ res, ((server = "" ∧ s = "" ∧ st = Declined o) ∨ (¬ (server = "" ∧ s = "") ∧ st = Halted)) →
    settles (Ok res) (Declined o) →
    wpc enroll_env underway (Call (ELoad l) (λ secret, if negb (str_eqb server "") || negb (slen secret =? 0)
      then cleared l (Ok RecoveryRequired) else Ret (Ok res))) (ends S) w).
  { intros res Hd Hset. eapply load_call; [done|]. rewrite Hc. destruct (_ || _) eqn:Hbad.
    - apply Hgone. destruct Hd as [(-> & -> & _)|[_ ?]]; [done|done].
    - apply orb_false_elim in Hbad as [H1%negb_false_iff H2%negb_false_iff]. apply slen_zero in H2 as ->. bools.
      destruct Hd as [(_ & _ & ->)|[[] _]]; [|done]. eapply ends_ret; [done|done|].
      intros x y Hx. destruct (HS _ _ Hx) as [Hin|]; [|by right]. apply elem_of_union in Hin as [Hin%elem_of_singleton|]; [|by left].
      right. rewrite Hin in Hx. replace y with (""); [done|congruence]. }
  destruct o; simpl in Ha; try (by apply Hgone); try (by apply Hdeclined).
  eapply load_call; [done|]. rewrite Hc. destruct (_ || _) eqn:Hbad.
  - apply Hgone. destruct Ha as [(-> & Hp & _)|[_ ?]]; [|done]. rewrite str_eqb_refl in Hbad. simpl in Hbad.
    apply pattern_len in Hp. unfold credentialLength in Hbad. change (slen "hlc_") with 4 in Hp. bools. lia.
  - apply orb_false_elim in Hbad as [H1%negb_false_iff _]. bools.
    eapply copy_call; [done|by rewrite Hl|]. intros l' Hne Hf. rewrite Hc.
    eapply clear_call; [by apply at_put|].
    eapply wpc_mono; [done| |apply (clearing_wpc ({[l']} ∪ S)), (persist_wpc _ b l' _ s)].
    + intros r w' (st' & ? & ? & HS'). exists st'. split; [done|]. split; [done|]. eapply wiped_weaken; [|exact HS']. set_solver.
    + simpl. rewrite lookup_insert_ne by done. apply lookup_insert_eq.
    + eapply wiped_weaken; [|apply (wiped_clear ({[l']} ∪ ({[l]} ∪ S))), wiped_put, HS]. set_solver.
    + apply at_put, at_put. destruct Ha as [(_ & -> & ->)|[Hno ->]]; [done|].
      destruct (credentialPattern s) eqn:Hp; [|done]. by destruct Hno.
Qed.

Lemma answered_total b a : ∃ st, answered b a st.
Proof.
  destruct a as [[[o server] secret]|]; [|by eexists]. destruct o; try (by eexists); simpl.
  - destruct (decide (server = ServerID b ∧ credentialPattern secret = true)) as [[? ?]|]; eauto 6.
  - destruct (decide (server = "" ∧ secret = "")) as [[? ?]|]; eauto 6.
  - destruct (decide (server = "" ∧ secret = "")) as [[? ?]|]; eauto 6.
Qed.

Lemma exchange_wpc (S : gset nat) b g w grant :
  ew_heap w !! g = Some grant → grantPattern grant = true → at_stage w (Begun b) → wiped_but S w →
  wpc enroll_env underway (exchange b g) (ends S) w.
Proof.
  intros Hg Hp Hw HS. unfold exchange.
  assert (Hc : content w g = grant) by (unfold content; by rewrite Hg).
  eapply copy_call; [done|by rewrite Hg|]. intros l Hne Hf. rewrite Hc.
  apply wpc_call; [by eapply at_underway, at_put|]. intros [[o server r] ok] w1. simpl. intros (Hfr & s & ->).
  rewrite content_put. set (a := if ok then _ else _). destruct (answered_total b a) as [st Ha].
  assert (r ≠ l) as Hrl. { intros ->. by rewrite lookup_insert_eq in Hfr. }
  eapply (clear_call _ _ _ _ st).
  { split; [apply Hw|]. simpl. eapply at_exchange; [apply Hw|done|done]. }
  rewrite content_put_ne by done. change (content (note ?x _) ?y) with (content x y). rewrite content_put.
  set (w1 := put (put (note _ _) _ _) _ _).
  assert (at_stage w1 st) as H1. { split; [apply Hw|]. simpl. eapply at_exchange; [apply Hw|done|done]. }
  assert (wiped_but ({[r]} ∪ S) w1) as HS1.
  { eapply wiped_weaken; [|apply (wiped_clear ({[r]} ∪ ({[l]} ∪ S))), wiped_put, (wiped_put S w l grant HS)]. set_solver. }
  assert (ew_heap w1 !! r = Some s) as Hr. { simpl. rewrite lookup_insert_ne by done. apply lookup_insert_eq. }
  clearbody w1. destruct ok; cbn [negb]; [eapply respond_wpc; [exact Hr|exact HS1|by exists st]|].
  simpl in Ha. subst st. eapply wpc_mono; [done| |by eapply (cleared_wpc _ (Ok RecoveryRequired) w1 Halted r)].
  intros x w' (st' & ? & ? & HS'). exists st'. split; [done|]. split; [done|]. eapply wiped_weaken; [|exact HS']. set_solver.
Qed.

Lemma identify_wpc (S : gset nat) server g w grant :
  ew_heap w !! g = Some grant → at_stage w Untouched → wiped_but S w →
  wpc enroll_env underway (identify server g) (ends S) w.
Proof.
  intros Hg Hw HS. unfold identify. eapply load_call; [done|].
  assert (content w g = grant) as -> by (unfold content; by rewrite Hg).
  destruct (_ || _) eqn:Hbad; [eapply ends_ret; [done|by left|done]|].
  apply orb_false_elim in Hbad as [Hs%negb_false_iff Hp%negb_false_iff].
  apply wpc_call; [by eapply at_underway|]. intros l w1 [Hf ->]. assert (g ≠ l) as Hne by congruence.
  apply wpc_call; [by eapply at_underway, at_put|]. intros drawn w2 (id & _ & ->).
  set (w2 := put (put w l _) l id).
  assert (at_stage w2 Untouched) as H2 by exact Hw.
  assert (HS2 : wiped_but ({[l]} ∪ S) w2).
  { eapply wiped_weaken; [|apply wiped_put, (wiped_put S w l _ HS)]. set_solver. }
  assert (Hg2 : ew_heap w2 !! g = Some grant) by (simpl; by rewrite !lookup_insert_ne by done).
  assert (Hid : content w2 l = id) by apply content_put.
  clearbody w2. clear w Hg Hw HS Hf.
  assert (HS3 : ∀ n, wiped_but S (put w2 l (zeros n))).
  { intros n. eapply wiped_weaken; [|apply (wiped_clear ({[l]} ∪ S)), HS2]. set_solver. }
  destruct drawn; cbn [negb].
  - eapply load_call; [done|]. rewrite Hid. cbv zeta. eapply clear_call; [done|]. rewrite Hid.
    set (b := MkBinding _ _). destruct (connectorPattern (ConnectorID b)) eqn:Hcp; cbn [negb];
      [|eapply ends_ret; [by apply at_put|by left|done]].
    unfold enroll. set (w3 := put w2 l _).
    assert (ew_heap w3 !! g = Some grant) as Hg3 by (simpl; by rewrite lookup_insert_ne by done).
    assert (at_stage w3 Untouched) as H3 by exact H2.
    assert (wiped_but S w3) as HS4 by apply HS3. clearbody w3.
    apply wpc_call; [by eapply at_underway|]. intros begun w4 ->.
    assert (at_stage (note w3 (EvBegin b begun)) (if begun then Begun b else NotBegun)) as H4.
    { eapply note_stage; [exact H3|]. intros ?. by constructor. }
    destruct begun; cbn [negb]; [|eapply preattempt_wpc; [done|by right|done]].
    eapply ctx_call; [done|]. intros []; [by eapply ends_ret|]. by eapply exchange_wpc.
  - eapply clear_call; [done|]. eapply preattempt_wpc; [by apply at_put|by left|apply HS3].
Qed.

Lemma started_wpc w : at_stage w Untouched → ew_heap w = ∅ → wpc enroll_env underway started (ends ∅) w.
Proof.
  intros Hw He. unfold started. assert (HS : wiped_but ∅ w) by (intros l s; by rewrite He, lookup_empty).
  eapply ctx_call; [done|]. intros []; [eapply ends_ret; [done|by left|done]|].
  apply wpc_call; [by eapply at_underway|]. intros [[server g] ok] w1 (_ & s & ->). simpl.
  set (w1 := put w g s). assert (H1 : at_stage w1 Untouched) by exact Hw.
  assert (Hg : ew_heap w1 !! g = Some s) by apply lookup_insert_eq.
  assert (HS1 : wiped_but {[g]} w1) by (eapply wiped_weaken; [|apply (wiped_put ∅ w g s HS)]; set_solver).
  assert (Hc : content w1 g = s) by apply content_put. clearbody w1. clear w Hw He HS.
  assert (HS2 : ∀ n, wiped_but ∅ (put w1 g (zeros n))) by (intros n; eapply wiped_weaken; [|apply (wiped_clear {[g]}), HS1]; set_solver).
  destruct ok; cbn [negb]; [|eapply clear_call; [done|]; eapply preattempt_wpc; [by apply at_put|by left|apply HS2]].
  eapply load_call; [done|]. rewrite Hc. destruct (_ || _).
  { eapply clear_call; [done|]. eapply ends_ret; [by apply at_put|by left|apply HS2]. }
  eapply copy_call; [done|by rewrite Hg|]. intros l Hne Hf. rewrite Hc.
  eapply clear_call; [by apply at_put|].
  eapply wpc_mono; [done| |apply (clearing_wpc {[l]}), (identify_wpc _ _ _ _ s)].
  - intros r w' (st' & ? & ? & HS'). exists st'. split; [done|]. split; [done|]. eapply wiped_weaken; [|exact HS']. set_solver.
  - simpl. rewrite lookup_insert_ne by done. apply lookup_insert_eq.
  - exact H1.
  - eapply wiped_weaken; [|apply (wiped_clear ({[l]} ∪ {[g]})), wiped_put, HS1]. set_solver.
Qed.

(** ** Several callers *)

(** One call of a goroutine. *)
Definition advances (t : prog EnrollCall Answer) (w : world) (t' : prog EnrollCall Answer) (w' : world) : Prop :=
  match t with
  | Ret _ => False
  | Call e k => ∃ a, enroll_env _ e w a w' ∧ t' = k a
  end.

(** The goroutines that call [Run] of one coordinator: one of them makes a call. *)
Inductive pstep : list (prog EnrollCall Answer) * world → list (prog EnrollCall Answer) * world → Prop :=
| pstep_advance ts w i t t' w' :
    ts !! i = Some t → advances t w t' w' → pstep (ts, w) (<[i := t']> ts, w').

Definition turned_away (t : prog EnrollCall Answer) : Prop :=
  t = Ret (Err ErrBusy) ∨ t = Ret (Err ErrUsed).

(** Nobody has started, or one caller [i] has and the others wait or were turned
    away. *)
Definition pool_ok (ts : list (prog EnrollCall Answer)) (w : world) : Prop :=
  (w = fresh_world ∧ ∀ j t, ts !! j = Some t → t = Run)
  ∨ ∃ i t, ts !! i = Some t ∧ underway w ∧ wpc enroll_env underway t (ends ∅) w
      ∧ ∀ j t', j ≠ i → ts !! j = Some t' → t' = Run ∨ turned_away t'.

Lemma start_inside w : w = fresh_world → wpc enroll_env underway
  (bind started (λ r, Call EFinish (λ _, Ret r))) (ends ∅) (MkWorld (MkCoordinator true true) (ew_heap w) (ew_log w)).
Proof.
  intros ->. apply wpc_bind. eapply wpc_mono; [done| |apply started_wpc; [split; [done|constructor]|done]].
  intros r w' (st & Hw & Hr & HS). apply wpc_call; [by eapply at_underway|]. intros [] w1 ->.
  eapply (ends_ret _ _ _ st); [by destruct Hw|done|done].
Qed.

Lemma Run_fresh t' w' : advances Run fresh_world t' w' → underway w' ∧ wpc enroll_env underway t' (ends ∅) w'.
Proof.
  intros (a & [-> ->] & ->). pose proof (start_inside _ eq_refl) as H. split; [|exact H]. by eapply wpc_here.
Qed.

Lemma Run_late t' w w' : underway w → advances Run w t' w' → w' = w ∧ turned_away t'.
Proof.
  intros [st [Hu _]] (a & [-> ->] & ->). destruct w as [[running used] heap log]. simpl in *. subst used.
  unfold start. simpl. destruct running; simpl; (split; [done|]); [by left|by right].
Qed.

Lemma pool_step s s' : pstep s s' → pool_ok s.1 s.2 → pool_ok s'.1 s'.2.
Proof.
  intros [ts w i t t' w' Hi Ha]. simpl. pose proof (lookup_lt_Some _ _ _ Hi) as Hlt.
  intros [[-> Hall]|(i0 & t0 & Hi0 & Hu & Ht0 & Hall)].
  - pose proof (Hall _ _ Hi) as ->. apply Run_fresh in Ha as [Hu Ht]. right. exists i, t'.
    split; [by apply list_lookup_insert_eq|]. split; [done|]. split; [done|].
    intros j t Hj. rewrite list_lookup_insert_ne by done. intros ?%Hall. by left.
  - right. destruct (decide (i = i0)) as [->|Hne].
    + exists i0, t'. split; [by apply list_lookup_insert_eq|]. rewrite Hi in Hi0. injection Hi0 as <-.
      destruct t as [|A e k]; [done|]. destruct Ha as (a & Hx & ->). destruct Ht0 as [_ Hk]. specialize (Hk a w' Hx).
      split; [by eapply wpc_here|]. split; [done|]. intros j t Hj. rewrite list_lookup_insert_ne by done. by apply Hall.
    + exists i0, t0. rewrite list_lookup_insert_ne by done. destruct (Hall i t Hne Hi) as [->|[->| ->]]; [|done|done].
      apply Run_late in Ha as [-> Ht']; [|done]. split; [done|]. split; [done|]. split; [done|].
      intros j t Hj. destruct (decide (j = i)) as [->|Hji].
      * rewrite list_lookup_insert_eq by done. intros [= <-]. by right.
      * rewrite list_lookup_insert_ne by done. by apply Hall.
Qed.

Lemma pool_life s s' : rtc pstep s s' → pool_ok s.1 s.2 → pool_ok s'.1 s'.2.
Proof. induction 1; eauto using pool_step. Qed.

(** C14: whatever number of goroutines run one coordinator, and whatever its
    dependencies and the context answer: everything done outside is a prefix of one
    enrollment attempt, in its order, for one freshly drawn binding, with the grant
    that was read and the credential that was received; at most one caller is not
    turned away, its answer states how far that attempt came ([READY] only after all
    of it succeeded, an error only if the server was never asked), and when it has
    returned every buffer that held a secret is wiped. *)
Theorem enrollment_is_ordered n ts w :
  rtc pstep (replicate n Run, fresh_world) (ts, w) →
  ∃ st, attempt (ew_log w) st
    ∧ (∀ i j t u, ts !! i = Some t → ts !! j = Some u → t ≠ Run → u ≠ Run → ¬ turned_away t → ¬ turned_away u → i = j)
    ∧ ∀ i r, ts !! i = Some (Ret r) → ¬ turned_away (Ret r) → settles r st ∧ ∀ l s, ew_heap w !! l = Some s → zeroed s.
Proof.
  intros Hl. apply pool_life in Hl; [|left; split; [done|]; by intros j t [-> _]%lookup_replicate].
  simpl in Hl. destruct Hl as [[-> Hall]|(i0 & t0 & Hi0 & [st Hst] & Ht0 & Hall)].
  - exists Untouched. split; [constructor|]. split; [intros i j t u Hi%Hall; congruence|]. intros i r Hi%Hall. done.
  - assert (Honly : ∀ i t, ts !! i = Some t → t ≠ Run → ¬ turned_away t → i = i0).
    { intros i t Hi Hr Ht. destruct (decide (i = i0)) as [|Hne]; [done|]. destruct (Hall i t Hne Hi); done. }
    destruct t0 as [r0|A e k].
    + destruct Ht0 as [_ (st' & Hst' & Hset & HS)]. exists st'. split; [apply Hst'|]. split; [intros; transitivity i0; eauto using eq_sym|].
      intros i r Hi Ht. assert (i = i0) as -> by (by eapply Honly). rewrite Hi in Hi0. injection Hi0 as ->.
      split; [done|]. intros l s Hs. destruct (HS l s Hs) as [[]%elem_of_empty|]; done.
    + exists st. split; [apply Hst|]. split; [intros; transitivity i0; eauto using eq_sym|].
      intros i r Hi Ht. assert (i = i0) as -> by (by eapply Honly). congruence.
Qed.

(** ** A host that enrolls *)

Lemma exec_pool p w p' w' ts i :
  exec enroll_env p w p' w' → ts !! i = Some p → rtc pstep (ts, w) (<[i := p']> ts, w').
Proof.
  intros Hx. revert ts. induction Hx as [p w|A e k w a w' p'' w'' Henv Hx IH]; intros ts Hi.
  - rewrite list_insert_id by done. constructor.
  - pose proof (lookup_lt_Some _ _ _ Hi) as Hlt. eapply rtc_l.
    + apply (pstep_advance _ _ i (Call e k) (k a) w' Hi). by exists a.
    + rewrite <- (list_insert_insert_eq ts i p'' (k a)). apply IH. by apply list_lookup_insert_eq.
Qed.

Module EnrollSample.
Definition grant_secret : string := "hle_ABCDEFGHIJKLMNOPQRSTUVWXYZabcdefghijklmnopq".
Definition credential_secret : string := "hlc_ABCDEFGHIJKLMNOPQRSTUVWXYZabcdefghijklmnopq".
Definition server : string := "srv_00112233445566778899aabbccddeeff".
Definition drawn : string := "0123456789abcdef".

Definition new_buffer (w : world) : nat := fresh (dom (ew_heap w) : gset nat).
Definition buffered (w : world) (s : string) : nat * world := (new_buffer w, put w (new_buffer w) s).

(** Everything succeeds. *)
Definition host A (e : EnrollCall A) (w : world) : A * world :=
  match e in EnrollCall T return T * world with
  | EStart => ((start (ew_co w)).2, MkWorld (start (ew_co w)).1 (ew_heap w) (ew_log w))
  | EFinish => (tt, MkWorld (finish (ew_co w)) (ew_heap w) (ew_log w))
  | ECtxErr => (false, w)
  | EMake n => buffered w (zeros (Z.to_nat n))
  | ECopy l => buffered w (content w l)
  | ELoad l => (content w l, w)
  | EClear l => (tt, put w l (zeros (String.length (content w l))))
  | ERandom l => (true, put w l (if (String.length (content w l) =? 16)%nat then drawn else content w l))
  | ERead => let '(l, w') := buffered w grant_secret in ((MkGrant server l, true), w')
  | EBegin b => (true, note w (EvBegin b true))
  | EExchange b l =>
      ((MkResponse ExchangeAccepted (ServerID b) (new_buffer w), true),
       put (note w (EvExchange b (content w l) (Some (ExchangeAccepted, ServerID b, credential_secret))))
         (new_buffer w) credential_secret)
  | ECreate b l => (true, note w (EvCreate b (content w l) true))
  | EProvision b => (true, note w (EvProvision b true))
  | EMarkReady b => (true, note w (EvMarkReady b true))
  end.

Lemma new_buffer_fresh w : ew_heap w !! new_buffer w = None.
Proof. apply (not_elem_of_dom (D := gset nat)). unfold new_buffer. apply is_fresh. Qed.

Lemma enroll_host_env A (e : EnrollCall A) w : enroll_env A e w (host A e w).1 (host A e w).2.
Proof.
  destruct e; simpl; try done; try (split; [apply new_buffer_fresh|eauto]).
  destruct (Nat.eqb_spec (String.length (content w l)) 16) as [Hl|]; [exists drawn; by rewrite Hl|eauto].
Qed.

Definition first_run : Answer * world := run host Run fresh_world.
Definition second_run : Answer * world := run host Run first_run.2.

Lemma two_callers :
  rtc pstep (replicate 2 Run, fresh_world) ([Ret (Ok Ready); Ret (Err ErrUsed)], first_run.2).
Proof.
  etransitivity.
  - apply (exec_pool _ _ _ _ (replicate 2 Run) 0 (run_exec enroll_env host Run fresh_world enroll_host_env)). reflexivity.
  - etransitivity; [apply (exec_pool _ _ _ _ _ 1 (run_exec enroll_env host Run first_run.2 enroll_host_env)); reflexivity|].
    apply eq_subrelation; [apply _|]. vm_compute. reflexivity.
Qed.
End EnrollSample.

Lemma enrollment_is_ordered_witness :
  ∃ b, attempt (ew_log EnrollSample.first_run.2) (Complete b).
Proof.
  destruct (enrollment_is_ordered 2 [Ret (Ok Ready); Ret (Err ErrUsed)] EnrollSample.first_run.2 EnrollSample.two_callers)
    as (st & Hst & _ & Hs).
  destruct (Hs 0%nat (Ok Ready) eq_refl) as [[b ->] _]; [intros [H|H]; discriminate H|]. by exists b.
Defined.
