(* ===== verification/Activation.v ===== *)
(** * Activation of the connected workers ([internal/connectedactivation],
      [internal/connectedinstall], [internal/connectedstartup])

    The root transaction starts the uploader, exchanges a request and a response
    with it through files, starts the collector, audits everything again, publishes
    the commit and waits for the uploader's readiness; if anything fails it stops
    what it started.  The paused uploader runs [rendezvousBound] and goes on only
    for a commit of its own challenge.  The operations of [activationOperations] and
    of [boundStartupPorts], and contexts, are calls. *)

From S2P Require Import Prelude GoTime GoText GoCalendar Sha256 Effects.
From S2P Require ActionCore UploadState.
Import ActionCore (value(..), kind(..), render, parse_fields).

#[local] Open Scope string_scope.
#[local] Open Scope Z_scope.

(** ** The documents *)

Definition MaxBytes : Z := 2048.
Definition RequestVersion : string := "observer-connected-activation-request/v1".
Definition ResponseVersion : string := "observer-connected-activation-response/v1".
Definition CommitVersion : string := "observer-connected-activation-commit/v1".
Definition Pass : string := "PASS".

Record Request := MkRequest {
  rq_Version : string; rq_Nonce : string; rq_ArtifactSHA256 : string; rq_ConfigSHA256 : string;
  rq_PolicyGeneration : Z; rq_IPv4Port : Z; rq_IPv6Port : Z }.

Record Response := MkResponse {
  rs_Version : string; rs_RequestSHA256 : string; rs_InvocationID : string; rs_Challenge : string; rs_Result : string }.

Record Commit := MkCommit {
  ct_Version : string; ct_RequestSHA256 : string; ct_InvocationID : string; ct_Challenge : string }.

Definition validHex (s : string) (length : Z) : bool := (slen s =? length) && str_forallb is_lower_hex s.

(** Valid documents hold fixed texts, hexadecimal digits and numbers only, so that
    nothing needs escaping. *)
Definition encode (fields : list (string * value)) : option string :=
  let b := render fields in if MaxBytes <? slen b then None else Some b.

Definition request_fields (r : Request) : list (string * value) :=
  [("version", VStr (rq_Version r)); ("nonce", VStr (rq_Nonce r)); ("artifact_sha256", VStr (rq_ArtifactSHA256 r));
   ("config_sha256", VStr (rq_ConfigSHA256 r)); ("policy_generation", VNum (rq_PolicyGeneration r));
   ("ipv4_port", VNum (rq_IPv4Port r)); ("ipv6_port", VNum (rq_IPv6Port r))].

Definition response_fields (r : Response) : list (string * value) :=
  [("version", VStr (rs_Version r)); ("request_sha256", VStr (rs_RequestSHA256 r));
   ("invocation_id", VStr (rs_InvocationID r)); ("challenge", VStr (rs_Challenge r)); ("result", VStr (rs_Result r))].

Definition commit_fields (c : Commit) : list (string * value) :=
  [("version", VStr (ct_Version c)); ("request_sha256", VStr (ct_RequestSHA256 c));
   ("invocation_id", VStr (ct_InvocationID c)); ("challenge", VStr (ct_Challenge c))].

Definition EncodeRequest (r : Request) : option string :=
  if negb (str_eqb (rq_Version r) RequestVersion) || negb (validHex (rq_Nonce r) 64)
     || negb (validHex (rq_ArtifactSHA256 r) 64) || negb (validHex (rq_ConfigSHA256 r) 64)
     || (rq_PolicyGeneration r =? 0) || (rq_IPv4Port r <? 1024) || (rq_IPv6Port r <? 1024) then None
  else encode (request_fields r).

Definition EncodeResponse (r : Response) : option string :=
  if negb (str_eqb (rs_Version r) ResponseVersion) || negb (validHex (rs_RequestSHA256 r) 64)
     || negb (validHex (rs_InvocationID r) 32) || negb (validHex (rs_Challenge r) 64)
     || negb (str_eqb (rs_Result r) Pass) then None
  else encode (response_fields r).

Definition EncodeCommit (c : Commit) : option string :=
  if negb (str_eqb (ct_Version c) CommitVersion) || negb (validHex (ct_RequestSHA256 c) 64)
     || negb (validHex (ct_InvocationID c) 32) || negb (validHex (ct_Challenge c) 64) then None
  else encode (commit_fields c).

(** Decoding re-encodes and compares, so that only the canonical text is accepted
    and a reader of that form is all there is to model. *)
Definition read_fields (kinds : list (string * kind)) (data : string) : option (list value) :=
  if (slen data =? 0) || (MaxBytes <? slen data) then None
  else match literal "{" data with
  | None => None
  | Some s => match parse_fields kinds s with Some (vs, "") => Some vs | _ => None end
  end.

Definition request_kinds : list (string * kind) :=
  [("version", KStr); ("nonce", KStr); ("artifact_sha256", KStr); ("config_sha256", KStr);
   ("policy_generation", KNum 64); ("ipv4_port", KNum 16); ("ipv6_port", KNum 16)].
Definition response_kinds : list (string * kind) :=
  [("version", KStr); ("request_sha256", KStr); ("invocation_id", KStr); ("challenge", KStr); ("result", KStr)].
Definition commit_kinds : list (string * kind) :=
  [("version", KStr); ("request_sha256", KStr); ("invocation_id", KStr); ("challenge", KStr)].

Definition DecodeRequest (data : string) : option Request :=
  match read_fields request_kinds data with
  | Some [VStr version; VStr nonce; VStr artifact; VStr config; VNum generation; VNum v4; VNum v6] =>
      let r := MkRequest version nonce artifact config generation v4 v6 in
      match EncodeRequest r with
      | Some b => if str_eqb b data then Some r else None
      | None => None
      end
  | _ => None
  end.

Definition DecodeResponse (data : string) : option Response :=
  match read_fields response_kinds data with
  | Some [VStr version; VStr request; VStr invocation; VStr challenge; VStr result] =>
      let r := MkResponse version request invocation challenge result in
      match EncodeResponse r with
      | Some b => if str_eqb b data then Some r else None
      | None => None
      end
  | _ => None
  end.

Definition DecodeCommit (data : string) : option Commit :=
  match read_fields commit_kinds data with
  | Some [VStr version; VStr request; VStr invocation; VStr challenge] =>
      let c := MkCommit version request invocation challenge in
      match EncodeCommit c with
      | Some b => if str_eqb b data then Some c else None
      | None => None
      end
  | _ => None
  end.

Definition RequestDigest (r : Request) : option string :=
  match EncodeRequest r with Some b => Some (hexEncode (Sum256 b)) | None => None end.

Definition MatchResponse (r : Request) (expectedInvocation : string) (response : Response) : bool :=
  match RequestDigest r with
  | None => false
  | Some digest =>
      validHex expectedInvocation 32 && bool_decide (is_Some (EncodeResponse response))
      && str_eqb (rs_RequestSHA256 response) digest && str_eqb (rs_InvocationID response) expectedInvocation
  end.

Definition MatchCommit (r : Request) (retained : Response) (commit : Commit) : bool :=
  MatchResponse r (rs_InvocationID retained) retained
  && bool_decide (is_Some (EncodeCommit commit))
  && str_eqb (ct_RequestSHA256 commit) (rs_RequestSHA256 retained)
  && str_eqb (ct_InvocationID commit) (rs_InvocationID retained)
  && str_eqb (ct_Challenge commit) (rs_Challenge retained).

(** ** The transaction *)

Record workerInstance := MkInstance { wi_PID : Z; wi_Invocation : string; wi_Active : string }.

#[global] Instance workerInstance_eq_dec : EqDecision workerInstance.
Proof. solve_decision. Defined.

(** The fields of the installed configuration that the transaction uses. *)
Record Config := MkConfig {
  cf_CollectorUID : Z; cf_UploaderUID : Z; cf_UploaderGID : Z; cf_ArtifactSHA256 : string;
  cf_PolicyGeneration : Z; cf_Addresses : list string }.

(** [connectedprocess.Identity]: compared as a whole, its process named. *)
Record Identity := MkIdentity { id_PID : Z; id_Rest : string }.

#[global] Instance Identity_eq_dec : EqDecision Identity.
Proof. solve_decision. Defined.

(** [os.IsNotExist(err)] tells an absent file from one that cannot be read. *)
Inductive Slot (A : Type) := Absent | Unreadable | Present (a : A).
Arguments Absent {A}.
Arguments Unreadable {A}.
Arguments Present {A} a.

(** The fields of [connectedstatus.Record] that are looked at. *)
Record StatusRecord := MkStatus { sr_InvocationID : string; sr_State : string; sr_CollectedAt : time }.

Inductive ActCall : Type → Type :=
| VValid : ActCall bool (* c.Validate() == nil *)
| VCtxErr : ActCall bool
| VInspect (unit' : string) : ActCall (option workerInstance)
| VService (verb unit' : string) : ActCall bool
| VAudit (pid : Z) (executable : string) : ActCall (option Identity)
| VPin (gid : Z) : ActCall bool
| VUnpin : ActCall unit
| VClearResponse : ActCall bool
| VProbes : ActCall bool
| VProbesClose : ActCall unit
| VPorts : ActCall (Z * Z)
| VDenied : ActCall bool
| VFinish : ActCall bool
| VPolicy (unit' : string) (addresses : list string) : ActCall bool
| VInstalled : ActCall (option Config)
| VConfigBytes (c : Config) : ActCall (option string) (* encodeConfig *)
| VRandom : ActCall (option string) (* 32 random bytes *)
| VPublish (name data : string) : ActCall bool
| VResponse : ActCall (Slot Response)
| VStatus (name : string) (uid : Z) : ActCall (Slot StatusRecord)
| VWait : ActCall bool.

Local Open Scope prog_scope.

(** Causes; the errors of [pin], [clearResponse] and [probes] pass through. *)
Inductive Cause := Unsafe | Recovery | Passed.

#[global] Instance Cause_eq_dec : EqDecision Cause.
Proof. solve_decision. Defined.

(** [Spinning]: a wait loop used up its fuel. *)
Inductive Verdict := Activated | Refused (phase : string) (cause : Cause) | Spinning.

Notation owned := (gmap string workerInstance).

Definition sameWorker (unit' : string) (want : workerInstance) : prog ActCall bool :=
  got <~ VInspect unit';
  Ret (match got with
       | Some got => str_eqb (wi_Active want) "active" && (got == want)
       | None => false
       end).

Definition stopCapturedWorker (unit' : string) (want : workerInstance) : prog ActCall bool :=
  got <~ VInspect unit';
  match got with
  | None => Ret false
  | Some got =>
      if (wi_PID got =? 0) && (str_eqb (wi_Active got) "inactive" || str_eqb (wi_Active got) "failed") then Ret true
      else if str_eqb (wi_Invocation want) "" || negb (str_eqb (wi_Invocation got) (wi_Invocation want))
              || (negb (wi_PID want =? 0) && negb (wi_PID got =? wi_PID want)) then Ret false
      else
        ok <~ VService "stop" unit';
        if negb ok then Ret false
        else
          joined <~ VInspect unit';
          Ret (match joined with
               | Some joined => (wi_PID joined =? 0) && str_eqb (wi_Active joined) "inactive"
               | None => false
               end)
  end.

(** What [owned] holds for a unit that was started and then inspected. *)
Definition capture (unit' : string) (state : option workerInstance) (o : owned) : owned :=
  let o := <[unit' := MkInstance 0 "" ""]> o in
  match state with
  | Some s => if str_eqb (wi_Invocation s) "" then o else <[unit' := s]> o
  | None => o
  end.

Definition startActivationWorkerWith (unit' : string) (o : owned) : prog ActCall (owned * bool) :=
  started <~ VService "start" unit';
  state <~ VInspect unit';
  let o := capture unit' state o in
  match state with
  | Some s =>
      if negb started || negb (str_eqb (wi_Active s) "active") then Ret (o, false)
      else expired <~ VCtxErr; Ret (o, negb expired)
  | None => Ret (o, false)
  end.

Section transaction.
(** [ops.pair.units()] and [uploaderExecutable]. *)
Variables (collectorUnit uploaderUnit : string) (uploaderExecutable : string → string).
Variables (fuel : nat) (c : Config).

(** [unchanged] *)
Definition unchanged (config : string) (uploader : workerInstance) : prog ActCall bool :=
  current <~ VInstalled;
  match current with
  | None => Ret false
  | Some current =>
      actual <~ VConfigBytes current;
      match actual with
      | None => Ret false
      | Some actual =>
          if negb (str_eqb actual config) then Ret false
          else
            policy <~ VPolicy uploaderUnit (cf_Addresses c);
            if negb policy then Ret false else sameWorker uploaderUnit uploader
      end
  end.

(** The three wait loops: [inr None] when the fuel is used up. *)
Fixpoint awaitResponse (n : nat) (uploader : workerInstance) (request : Request) :
    prog ActCall (unit + option Response) :=
  match n with
  | O => Ret (inr None)
  | S n =>
      same <- sameWorker uploaderUnit uploader;
      if negb same then Ret (inl tt)
      else
        denied <~ VDenied;
        if negb denied then Ret (inl tt)
        else
          slot <~ VResponse;
          match slot with
          | Present response =>
              Ret (if MatchResponse request (wi_Invocation uploader) response then inr (Some response) else inl tt)
          | Unreadable => Ret (inl tt)
          | Absent => ok <~ VWait; if negb ok then Ret (inl tt) else awaitResponse n uploader request
          end
  end.

Fixpoint awaitCollector (n : nat) (uploader collector : workerInstance) : prog ActCall (unit + option unit) :=
  match n with
  | O => Ret (inr None)
  | S n =>
      same <- sameWorker collectorUnit collector;
      if negb same then Ret (inl tt)
      else
        same <- sameWorker uploaderUnit uploader;
        if negb same then Ret (inl tt)
        else
          slot <~ VStatus "collector-status" (cf_CollectorUID c);
          let again := ok <~ VWait; if negb ok then Ret (inl tt) else awaitCollector n uploader collector in
          match slot with
          | Present record =>
              if str_eqb (sr_InvocationID record) (wi_Invocation collector) then
                Ret (if str_eqb (sr_State record) "COLLECTING" then inr (Some tt) else inl tt)
              else again
          | Unreadable => Ret (inl tt)
          | Absent => again
          end
  end.

Definition readyState (s : string) : bool :=
  str_eqb s "WAITING_FIRST_UPLOAD" || str_eqb s "PENDING" || str_eqb s "ACKNOWLEDGED_FRESH".

Fixpoint awaitUploader (n : nat) (uploader collector : workerInstance) : prog ActCall (unit + option unit) :=
  match n with
  | O => Ret (inr None)
  | S n =>
      same <- sameWorker uploaderUnit uploader;
      if negb same then Ret (inl tt)
      else
        same <- sameWorker collectorUnit collector;
        if negb same then Ret (inl tt)
        else
          slot <~ VStatus "uploader-status" (cf_UploaderUID c);
          let again := ok <~ VWait; if negb ok then Ret (inl tt) else awaitUploader n uploader collector in
          match slot with
          | Present record =>
              if str_eqb (sr_InvocationID record) (wi_Invocation uploader) then
                if readyState (sr_State record) then
                  expired <~ VCtxErr;
                  if expired : bool then Ret (inl tt)
                  else
                    same <- sameWorker uploaderUnit uploader;
                    if negb same then Ret (inl tt)
                    else
                      same <- sameWorker collectorUnit collector;
                      if negb same then Ret (inl tt)
                      else
                        expired <~ VCtxErr;
                        Ret (if expired : bool then inl tt else inr (Some tt))
                else if str_eqb (sr_State record) "STOPPED" then again
                else Ret (inl tt)
              else again
          | Unreadable => Ret (inl tt)
          | Absent => again
          end
  end.

Definition commitFor (r : Response) : Commit :=
  MkCommit CommitVersion (rs_RequestSHA256 r) (rs_InvocationID r) (rs_Challenge r).

Notation Step := (prog ActCall (owned * Verdict)).

(** From the published commit on. *)
Definition finishActivation (o : owned) (uploader collector : workerInstance) (response : Response) : Step :=
  match EncodeCommit (commitFor response) with
  | None => Ret (o, Refused "FINAL_AUDIT" Unsafe)
  | Some encoded =>
      expired <~ VCtxErr;
      if expired : bool then Ret (o, Refused "FINAL_AUDIT" Unsafe)
      else
        published <~ VPublish "commit.json" encoded;
        if negb published then Ret (o, Refused "COMMIT_PUBLICATION" Recovery)
        else
          ready <- awaitUploader fuel uploader collector;
          Ret (o, match ready with
                  | inl _ => Refused "UPLOADER_READY" Unsafe
                  | inr None => Spinning
                  | inr (Some _) => Activated
                  end)
  end.

(** The second audit. *)
Definition finalAudit (o : owned) (config : string) (identity : Identity) (uploader collector : workerInstance)
    (response : Response) : Step :=
  let refuse := Ret (o, Refused "FINAL_AUDIT" Unsafe) in
  finished <~ VFinish;
  if negb finished then refuse
  else
    ok <- unchanged config uploader;
    if negb ok then refuse
    else
      ok <- sameWorker collectorUnit collector;
      if negb ok then refuse
      else
        current <~ VAudit (wi_PID uploader) (uploaderExecutable (cf_ArtifactSHA256 c));
        match current with
        | None => refuse
        | Some current =>
            if current != identity then refuse
            else
              ok <- sameWorker uploaderUnit uploader;
              if negb ok then refuse
              else
                ok <- sameWorker collectorUnit collector;
                if negb ok then refuse else finishActivation o uploader collector response
        end.

(** The collector, once the uploader answered. *)
Definition startCollector (o : owned) (config : string) (identity : Identity) (uploader : workerInstance)
    (response : Response) : Step :=
  out <- startActivationWorkerWith collectorUnit o;
  let '(o, ok) := out in
  if negb ok then Ret (o, Refused "COLLECTOR_START" Recovery)
  else
    let collector := default (MkInstance 0 "" "") (o !! collectorUnit) in
    ready <- awaitCollector fuel uploader collector;
    match ready with
    | inl _ => Ret (o, Refused "COLLECTOR_READY" Unsafe)
    | inr None => Ret (o, Spinning)
    | inr (Some _) => finalAudit o config identity uploader collector response
    end.

(** The request, once the uploader was audited. *)
Definition sendRequest (o : owned) (identity : Identity) (uploader : workerInstance) : Step :=
  let refuse := Ret (o, Refused "UPLOADER_AUDIT" Unsafe) in
  config <~ VConfigBytes c;
  match config with
  | None => refuse
  | Some config =>
      nonce <~ VRandom;
      match nonce with
      | None => refuse
      | Some nonce =>
          ports <~ VPorts;
          let request := MkRequest RequestVersion (hexEncode nonce) (cf_ArtifactSHA256 c) (hexEncode (Sum256 config))
                           (cf_PolicyGeneration c) ports.1 ports.2 in
          match EncodeRequest request with
          | None => refuse
          | Some encoded =>
              ok <- unchanged config uploader;
              if negb ok then refuse
              else
                denied <~ VDenied;
                if negb denied then refuse
                else
                  published <~ VPublish "request.json" encoded;
                  if negb published then Ret (o, Refused "REQUEST_PUBLICATION" Recovery)
                  else
                    answer <- awaitResponse fuel uploader request;
                    match answer with
                    | inl _ => Ret (o, Refused "UPLOADER_RESPONSE" Unsafe)
                    | inr None => Ret (o, Spinning)
                    | inr (Some response) => startCollector o config identity uploader response
                    end
          end
      end
  end.

(** The uploader. *)
Definition startUploader : Step :=
  policy <~ VPolicy uploaderUnit (cf_Addresses c);
  if negb policy then Ret (∅, Refused "ACTIVATION_PREPARE" Unsafe)
  else
    out <- startActivationWorkerWith uploaderUnit ∅;
    let '(o, ok) := out in
    if negb ok then Ret (o, Refused "UPLOADER_START" Recovery)
    else
      let uploader := default (MkInstance 0 "" "") (o !! uploaderUnit) in
      identity <~ VAudit (wi_PID uploader) (uploaderExecutable (cf_ArtifactSHA256 c));
      match identity with
      | None => Ret (o, Refused "UPLOADER_AUDIT" Unsafe)
      | Some identity =>
          if negb (id_PID identity =? wi_PID uploader) then Ret (o, Refused "UPLOADER_AUDIT" Unsafe)
          else
            ok <- sameWorker uploaderUnit uploader;
            if negb ok then Ret (o, Refused "UPLOADER_AUDIT" Unsafe)
            else sendRequest o identity uploader
      end.

(** The deferred cleanup of one unit. *)
Definition cleanUnit (o : owned) (unit' : string) (v : Verdict) : prog ActCall Verdict :=
  match o !! unit' with
  | None => Ret v
  | Some want =>
      ok <- stopCapturedWorker unit' want;
      Ret (if ok : bool then v else Refused "ACTIVATION_CLEANUP" Recovery)
  end.

Definition cleanup (o : owned) (v : Verdict) : prog ActCall Verdict :=
  match v with
  | Refused _ _ => v <- cleanUnit o uploaderUnit v; cleanUnit o collectorUnit v
  | v => Ret v
  end.

(** Both units at rest. *)
Definition stoppedUnit (unit' : string) : prog ActCall bool :=
  state <~ VInspect unit';
  Ret (match state with
       | Some s => (wi_PID s =? 0) && (str_eqb (wi_Active s) "inactive" || str_eqb (wi_Active s) "failed")
       | None => false
       end).

Definition activateStoppedWith : prog ActCall Verdict :=
  let prepare cause := Ret (Refused "ACTIVATION_PREPARE" cause) in
  expired <~ VCtxErr;
  if expired : bool then prepare Unsafe
  else
    valid <~ VValid;
    if negb valid then prepare Unsafe
    else
      ok <- stoppedUnit uploaderUnit;
      if negb ok then prepare Unsafe
      else
        ok <- stoppedUnit collectorUnit;
        if negb ok then prepare Unsafe
        else
          pinned <~ VPin (cf_UploaderGID c);
          if negb pinned then prepare Passed
          else
            cleared <~ VClearResponse;
            if negb cleared then _ <~ VUnpin; prepare Passed
            else
              probes <~ VProbes;
              if negb probes then _ <~ VUnpin; prepare Passed
              else
                out <- startUploader;
                v <- cleanup out.1 out.2;
                _ <~ VProbesClose;
                _ <~ VUnpin;
                Ret v.
End transaction.

(** ** Stopping and status *)

(** [Stop] once the lease is held and the installation was inspected. *)
Definition stopBoth (collectorUnit uploaderUnit : string) : prog ActCall (option Cause) :=
  uploader <~ VInspect uploaderUnit;
  match uploader with
  | None => Ret (Some Unsafe)
  | Some uploader =>
      collector <~ VInspect collectorUnit;
      match collector with
      | None => Ret (Some Unsafe)
      | Some collector =>
          first <- stopCapturedWorker uploaderUnit uploader;
          second <- stopCapturedWorker collectorUnit collector;
          Ret (if first && second then None else Some Recovery)
      end
  end.

Definition FreshnessWindow : Z := 45 * Second.

Definition uploaderStatusState (state : string) : bool :=
  existsb (str_eqb state)
    ["WAITING_FIRST_UPLOAD"; "PENDING"; "RETRYING"; "RATE_LIMITED"; "CREDENTIAL_REJECTED"; "RECOVERY_REQUIRED";
     "ACKNOWLEDGED_FRESH"; "ACKNOWLEDGED_STALE"; "SOURCE_UNAVAILABLE"; "INVALID_SNAPSHOT"].

Record PairStatus := MkPair {
  ps_State : string; ps_Collector : option StatusRecord; ps_Uploader : option StatusRecord }.

Definition classifyPairStatus (collector uploader : workerInstance) (collected uploaded : option StatusRecord)
    (now : time) : PairStatus :=
  let state s := MkPair s collected uploaded in
  let shows w s := str_eqb (wi_Active w) s in
  if shows collector "failed" || shows uploader "failed" then state "RECOVERY_REQUIRED"
  else if shows collector "activating" || shows collector "deactivating" || shows uploader "activating" || shows uploader "deactivating"
  then state "STARTING"
  else if shows collector "inactive" && shows uploader "inactive" then state "STOPPED"
  else if negb (shows collector "active") || negb (shows uploader "active") then state "RECOVERY_REQUIRED"
  else match collected, uploaded with
  | Some c, Some u =>
      if negb (str_eqb (sr_InvocationID c) (wi_Invocation collector))
         || negb (str_eqb (sr_InvocationID u) (wi_Invocation uploader)) then state "STARTING"
      else if negb (str_eqb (sr_State c) "COLLECTING") then state "RECOVERY_REQUIRED"
      else if str_eqb (sr_State u) "STOPPED" then state "STARTING"
      else if negb (uploaderStatusState (sr_State u)) then state "RECOVERY_REQUIRED"
      else
        let record :=
          if str_eqb (sr_State u) "ACKNOWLEDGED_FRESH"
             && (IsZero (sr_CollectedAt u) || (FreshnessWindow <? Sub now (sr_CollectedAt u))
                 || After (sr_CollectedAt u) (Add now UploadState.MaxFuture))
          then MkStatus (sr_InvocationID u) "ACKNOWLEDGED_STALE" (sr_CollectedAt u) else u in
        MkPair (sr_State record) collected (Some record)
  | _, _ => state "STARTING"
  end.

(** ** The paused worker *)

Inductive PortCall : Type → Type :=
| RCtxErr : PortCall bool
| RRead (name : string) : PortCall (option string)
| RRandom : PortCall (option string)
| RProve (r : Request) : PortCall bool
| RPublish (data : string) : PortCall bool
| RCurrent : PortCall (option string).

Definition rendezvousBound (configuration artifact : string) (generation : Z) (invocation : string) :
    prog PortCall bool :=
  expired <~ RCtxErr;
  if expired : bool then Ret false
  else
    data <~ RRead "request.json";
    match data with
    | None => Ret false
    | Some data =>
        match DecodeRequest data with
        | None => Ret false
        | Some request =>
            if negb (str_eqb (rq_ArtifactSHA256 request) artifact)
               || negb (str_eqb (rq_ConfigSHA256 request) (hexEncode (Sum256 configuration)))
               || negb (rq_PolicyGeneration request =? generation) then Ret false
            else
              challenge <~ RRandom;
              match challenge, RequestDigest request with
              | Some challenge, Some digest =>
                  let response := MkResponse ResponseVersion digest invocation (hexEncode challenge) Pass in
                  match EncodeResponse response with
                  | None => Ret false
                  | Some encoded =>
                      expired <~ RCtxErr;
                      if expired : bool then Ret false
                      else
                        proved <~ RProve request;
                        if negb proved then Ret false
                        else
                          expired <~ RCtxErr;
                          if expired : bool then Ret false
                          else
                            published <~ RPublish encoded;
                            if negb published then Ret false
                            else
                              data <~ RRead "commit.json";
                              match data with
                              | None => Ret false
                              | Some data =>
                                  match DecodeCommit data with
                                  | None => Ret false
                                  | Some commit =>
                                      if negb (MatchCommit request response commit) then Ret false
                                      else
                                        expired <~ RCtxErr;
                                        if expired : bool then Ret false
                                        else
                                          current <~ RCurrent;
                                          match current with
                                          | None => Ret false
                                          | Some current =>
                                              if negb (str_eqb current configuration) then Ret false
                                              else expired <~ RCtxErr; Ret (negb expired)
                                          end
                                  end
                              end
                  end
              | _, _ => Ret false
              end
        end
    end.
