(* ===== verification/ActivationSafety.v ===== *)
(** * Activation: what is committed, what is left running

    Every behaviour of the service manager, the files, the probes and the workers is
    admitted; a wait of 50 ms succeeds at most 600 times under the deadline of 30
    seconds.  The record of what the transaction saw is kept beside it, and frozen
    with each published commit. *)

From S2P Require Import Prelude GoTime GoText GoCalendar Sha256 Effects Activation.
From S2P Require ActionCore.

#[local] Open Scope string_scope.
#[local] Open Scope Z_scope.
#[local] Opaque Sum256.

(** ** What was seen *)

(** The checks of the host, in the order they are made, with their answers. *)
Inductive check :=
| KAudited (pid : Z) (executable : string) (id : option Identity)
| KFinished (ok : bool)
| KInstalled (current : option Config)
| KEncoded (config : Config) (text : option string)
| KPolicy (unit' : string) (addresses : list string) (ok : bool).

(** [f_seen]: the last inspection of a unit since it was last started or stopped and
    since the last audit.  [f_checks] only grows. *)
Record facts := MkFacts {
  f_seen : gmap string workerInstance; f_requests : list string; f_response : option Response;
  f_ready : option StatusRecord; f_checks : list check }.

Record world := MkWorld {
  aw_facts : facts; aw_started : list string; aw_commits : list (facts * string); aw_waits : nat }.

Definition fresh_world : world := MkWorld (MkFacts ∅ [] None None []) [] [] 0.

Definition with_facts (w : world) (f : facts) : world := MkWorld f (aw_started w) (aw_commits w) (aw_waits w).
Definition set_seen (f : facts) (s : gmap string workerInstance) : facts :=
  MkFacts s (f_requests f) (f_response f) (f_ready f) (f_checks f).
Definition checked (w : world) (k : check) : world :=
  let f := aw_facts w in
  with_facts w (MkFacts (match k with KAudited _ _ _ => ∅ | _ => f_seen f end) (f_requests f) (f_response f) (f_ready f)
    (f_checks f ++ [k])).

Definition inspected (w : world) (u : string) (a : option workerInstance) : world :=
  with_facts w (set_seen (aw_facts w) (match a with
    | Some i => <[u := i]> (f_seen (aw_facts w)) | None => delete u (f_seen (aw_facts w)) end)).

Definition act_env A (e : ActCall A) : world → A → world → Prop :=
  match e in ActCall T return world → T → world → Prop with
  | VInspect u => λ w a w', w' = inspected w u a
  | VService verb u => λ w _ w',
      w' = MkWorld (set_seen (aw_facts w) (delete u (f_seen (aw_facts w))))
             (if str_eqb verb "start" then aw_started w ++ [u] else aw_started w) (aw_commits w) (aw_waits w)
  | VAudit pid executable => λ w a w', w' = checked w (KAudited pid executable a)
  | VFinish => λ w a w', w' = checked w (KFinished a)
  | VPolicy u addresses => λ w a w', w' = checked w (KPolicy u addresses a)
  | VInstalled => λ w a w', w' = checked w (KInstalled a)
  | VConfigBytes config => λ w a w', w' = checked w (KEncoded config a)
  | VResponse => λ w a w', let f := aw_facts w in
      w' = with_facts w (MkFacts (f_seen f) (f_requests f) (match a with Present r => Some r | _ => None end)
             (f_ready f) (f_checks f))
  | VStatus name _ => λ w a w', let f := aw_facts w in
      w' = if str_eqb name "collector-status"
           then with_facts w (MkFacts (f_seen f) (f_requests f) (f_response f)
                  (match a with Present r => Some r | _ => None end) (f_checks f))
           else w
  | VPublish name data => λ w _ w', let f := aw_facts w in
      w' = if str_eqb name "commit.json"
           then MkWorld f (aw_started w) (aw_commits w ++ [(f, data)]) (aw_waits w)
           else with_facts w (MkFacts (f_seen f) (f_requests f ++ [data]) (f_response f) (f_ready f) (f_checks f))
  | VPorts => λ w a w', 0 ≤ a.1 ≤ 65535 ∧ 0 ≤ a.2 ≤ 65535 ∧ w' = w (* of type uint16 *)
  | VWait => λ w ok w',
      if ok : bool then (aw_waits w < 600)%nat ∧ w' = MkWorld (aw_facts w) (aw_started w) (aw_commits w) (S (aw_waits w))
      else w' = w
  | _ => λ w _ w', w' = w
  end.

Definition at_rest (f : facts) (u : string) : Prop :=
  ∃ i, f_seen f !! u = Some i ∧ wi_PID i = 0 ∧ (wi_Active i = "inactive" ∨ wi_Active i = "failed").

Definition runs (f : facts) (u : string) (i : workerInstance) : Prop :=
  f_seen f !! u = Some i ∧ wi_Active i = "active".

(** ** Round trips of the documents *)

(** The widths of the numeric fields. *)
Definition typed_request (r : Request) : Prop :=
  0 ≤ rq_PolicyGeneration r ≤ MaxUint64 ∧ 0 ≤ rq_IPv4Port r ≤ 65535 ∧ 0 ≤ rq_IPv6Port r ≤ 65535.

Lemma validHex_no_quote s n : validHex s n = true → str_forallb ActionCore.no_quote s = true.
Proof. unfold validHex. intros H. bools. by apply ActionCore.hex_no_quote. Qed.

Lemma read_encoded kinds fields data :
  Forall2 (λ k f, k.1 = f.1 ∧ str_forallb ActionCore.no_quote f.1 = true ∧ ActionCore.fits k.2 f.2) kinds fields →
  encode fields = Some data → read_fields kinds data = Some (map snd fields).
Proof.
  intros Hf. unfold encode, read_fields, ActionCore.render. destruct (_ <? _) eqn:Hl; [done|]. intros [= <-].
  set (b := ("{" ++ ActionCore.render_fields fields)%string) in *.
  assert (0 < slen b) by (unfold b; rewrite slen_append; change (slen "{") with 1; unfold slen; lia).
  destruct (_ || _) eqn:Hz; [apply orb_prop in Hz as [?|?]; [lia|congruence]|].
  unfold b. rewrite append_cons, append_nil. cbn [literal Ascii.eqb Bool.eqb]. by rewrite (ActionCore.parse_fields_render _ _ Hf).
Qed.

Ltac doc_fields :=
  repeat (apply Forall2_cons; split; [simpl; split; [done|]; split; [reflexivity|]|]); try apply Forall2_nil;
  first [by eapply validHex_no_quote | by match goal with H : _ = _ |- _ => rewrite H end | unfold MaxUint64 in *; lia].

Lemma request_round_trip r data : typed_request r → EncodeRequest r = Some data → DecodeRequest data = Some r.
Proof.
  intros (? & ? & ?) He. pose proof He as He'. unfold EncodeRequest in He. destruct (_ || _) eqn:Hb; [done|]. bools.
  unfold DecodeRequest. rewrite (read_encoded request_kinds (request_fields r)); [|doc_fields|done]. simpl.
  replace (MkRequest _ _ _ _ _ _ _) with r by (by destruct r). by rewrite He', str_eqb_refl.
Qed.

Lemma commit_round_trip c data : EncodeCommit c = Some data → DecodeCommit data = Some c.
Proof.
  intros He. pose proof He as He'. unfold EncodeCommit in He. destruct (_ || _) eqn:Hb; [done|]. bools.
  unfold DecodeCommit. rewrite (read_encoded commit_kinds (commit_fields c)); [|doc_fields|done]. simpl.
  replace (MkCommit _ _ _ _) with c by (by destruct c). by rewrite He', str_eqb_refl.
Qed.

Lemma decoded_request data r : DecodeRequest data = Some r → EncodeRequest r = Some data.
Proof.
  unfold DecodeRequest. destruct (read_fields _ _) as [vs|]; [|done]. intros H. repeat case_match; simplify_eq.
  by match goal with H : str_eqb _ _ = true |- _ => apply str_eqb_eq in H as -> end.
Qed.

Section activation.
Variables (collectorUnit uploaderUnit : string) (exe : string → string).
Hypothesis distinct : collectorUnit ≠ uploaderUnit.
Variables (fuel : nat) (c : Config).
Hypothesis typed : 0 ≤ cf_PolicyGeneration c ≤ MaxUint64.

(** ** What a commit says *)

Record requested (f : facts) (req : Request) (config : string) : Prop := {
  rd_published : ∃ data, EncodeRequest req = Some data ∧ data ∈ f_requests f;
  rd_artifact : rq_ArtifactSHA256 req = cf_ArtifactSHA256 c;
  rd_generation : rq_PolicyGeneration req = cf_PolicyGeneration c;
  rd_config : rq_ConfigSHA256 req = hexEncode (Sum256 config);
  rd_typed : typed_request req }.

(** The checks just before the commit, after the probes had finished: the
    configuration read as installed encodes to [config], the policy holds, and the
    uploader's process is audited. *)
Definition final_checks (u : workerInstance) (config : string) (current : Config) (id : Identity) : list check :=
  [KFinished true; KInstalled (Some current); KEncoded current (Some config);
   KPolicy uploaderUnit (cf_Addresses c) true; KAudited (wi_PID u) (exe (cf_ArtifactSHA256 c)) (Some id)].

Record justified (f : facts) (data : string) (u col : workerInstance) (config : string) : Prop := {
  ju_uploader : runs f uploaderUnit u;
  ju_collector : runs f collectorUnit col;
  ju_exchange : ∃ req resp,
    requested f req config ∧ f_response f = Some resp ∧ MatchResponse req (wi_Invocation u) resp = true
    ∧ EncodeCommit (commitFor resp) = Some data;
  ju_ready : ∃ r, f_ready f = Some r ∧ sr_InvocationID r = wi_Invocation col ∧ sr_State r = "COLLECTING";
  ju_checks : ∃ earlier current id, f_checks f = (earlier ++ final_checks u config current id)%list
    ∧ id_PID id = wi_PID u ∧ KAudited (wi_PID u) (exe (cf_ArtifactSHA256 c)) (Some id) ∈ earlier }.

(** No commit, or a single one, with its evidence. *)
Definition committed (w : world) : Prop :=
  aw_commits w = [] ∨ ∃ f data u col config, aw_commits w = [(f, data)] ∧ justified f data u col config.

(** ** Frames *)

(** What the transaction builds on: the published requests, the response, the
    collector's status and the checks, in the order they are obtained.  [keeps n]
    says that the first [n] of them, the started units and the commits are what they
    were, and that no check is forgotten. *)
Definition keeps (n : nat) (w w' : world) : Prop :=
  aw_started w' = aw_started w ∧ aw_commits w' = aw_commits w ∧ (aw_waits w ≤ aw_waits w')%nat
  ∧ f_requests (aw_facts w') = f_requests (aw_facts w)
  ∧ f_checks (aw_facts w) `prefix_of` f_checks (aw_facts w')
  ∧ (1 ≤ n → f_response (aw_facts w') = f_response (aw_facts w))%nat
  ∧ (2 ≤ n → f_ready (aw_facts w') = f_ready (aw_facts w))%nat
  ∧ (3 ≤ n → f_checks (aw_facts w') = f_checks (aw_facts w))%nat.

Lemma record_kept_refl n w : keeps n w w.
Proof. by repeat split. Qed.

Lemma record_kept_trans n w w' w'' : keeps n w w' → keeps n w' w'' → keeps n w w''.
Proof.
  intros (? & ? & ? & ? & P & H1 & H2 & H3) (? & ? & ? & ? & P' & K1 & K2 & K3).
  repeat split; try congruence; try lia; [by etrans|..]; intros Hn; [rewrite K1, H1|rewrite K2, H2|rewrite K3, H3]; done.
Qed.

Lemma keeps_le n m w w' : (m ≤ n)%nat → keeps n w w' → keeps m w w'.
Proof. intros Hm (? & ? & ? & ? & ? & H1 & H2 & H3). repeat split; try done; intros; [apply H1|apply H2|apply H3]; lia. Qed.

Lemma keeps_committed n w w' : keeps n w w' → committed w → committed w'.
Proof. intros (_ & Hc & _). unfold committed. by rewrite Hc. Qed.

Lemma inspected_keeps w u a : keeps 3 w (inspected w u a).
Proof. by repeat split. Qed.

Lemma checked_keeps w k : keeps 2 w (checked w k).
Proof. repeat split; simpl; try done; [by eexists|lia]. Qed.

(** The highest [n] a call keeps. *)
Definition kept A (e : ActCall A) : option nat :=
  match e with
  | VPublish _ _ | VService _ _ => None
  | VResponse => Some 0%nat
  | VStatus name _ => if str_eqb name "collector-status" then Some 1%nat else Some 3%nat
  | VFinish | VAudit _ _ | VPolicy _ _ | VInstalled | VConfigBytes _ => Some 2%nat
  | _ => Some 3%nat
  end.

Lemma kept_step A (e : ActCall A) n w a w' : kept A e = Some n → act_env A e w a w' → keeps n w w'.
Proof.
  intros Hk Hx. destruct e; simpl in *; simplify_eq; try apply checked_keeps;
    try (by repeat split); try (repeat split; intros; simpl; lia || done).
  - destruct Hx as (_ & _ & ->). apply record_kept_refl.
  - destruct (str_eqb name "collector-status"); simplify_eq; repeat split; intros; simpl; lia || done.
  - destruct a; [destruct Hx as [_ ->]|subst]; repeat split; simpl; lia || done.
Qed.

Lemma kept_call {R A} (e : ActCall A) n (k : A → prog ActCall R) Q w :
  kept A e = Some n → committed w →
  (∀ a w', act_env A e w a w' → keeps n w w' → committed w' → wpc act_env committed (k a) Q w') →
  wpc act_env committed (Call e k) Q w.
Proof.
  intros He Hw Hk. apply wpc_call; [done|]. intros a w' Hx. pose proof (kept_step A e n w a w' He Hx) as Hs.
  apply Hk; [done|done|by eapply keeps_committed].
Qed.

Lemma sameWorker_wpc {R} u want (k : bool → prog ActCall R) Q w :
  committed w →
  (∀ w', keeps 3 w w' → wpc act_env committed (k false) Q w') →
  (wi_Active want = "active" → wpc act_env committed (k true) Q (inspected w u (Some want))) →
  wpc act_env committed (bind (sameWorker u want) k) Q w.
Proof.
  intros Hw Hf Ht. unfold sameWorker. apply wpc_call; [done|]. intros a w' ->. fold @bind.
  assert (Hno : wpc act_env committed (k false) Q (inspected w u a)) by (apply Hf, inspected_keeps).
  destruct a as [got|]; [|exact Hno]. destruct (str_eqb (wi_Active want) "active") eqn:Ha; [|exact Hno].
  destruct (bool_decide_reflect (got = want)) as [->|]; [|exact Hno]. bools. by apply Ht.
Qed.

Lemma runs_inspected w u i : wi_Active i = "active" → runs (aw_facts (inspected w u (Some i))) u i.
Proof. split; [|done]. apply lookup_insert_eq. Qed.

Lemma runs_inspected_ne w u u' i a : u' ≠ u → runs (aw_facts w) u' i → runs (aw_facts (inspected w u a)) u' i.
Proof. intros Hne [? ?]. split; [|done]. simpl. destruct a; [by rewrite lookup_insert_ne|by rewrite lookup_delete_ne]. Qed.

(** ** The waits *)

Definition bounded (w : world) (n : nat) : Prop := (600 - aw_waits w < n)%nat.

Lemma bounded_keeps m w w' n : keeps m w w' → bounded w n → bounded w' n.
Proof. unfold bounded. intros (_ & _ & ? & _). lia. Qed.

Lemma wait_call {R} (k : bool → prog ActCall R) Q w n :
  committed w → bounded w (S n) →
  wpc act_env committed (k false) Q w →
  (∀ w', keeps 3 w w' → committed w' → bounded w' n → aw_facts w' = aw_facts w → wpc act_env committed (k true) Q w') →
  wpc act_env committed (Call VWait k) Q w.
Proof.
  intros Hw Hb Hf Ht. apply wpc_call; [done|]. intros [] w'; [|by intros ->]. intros [Hlt ->].
  apply Ht; [repeat split; simpl; lia || done|done|unfold bounded in *; simpl; lia|done].
Qed.

Lemma awaitResponse_wpc n u req w :
  committed w → bounded w n →
  wpc act_env committed (awaitResponse uploaderUnit n u req) (λ r w', keeps 0 w w' ∧
    match r with
    | inl _ => True
    | inr None => False
    | inr (Some resp) => f_response (aw_facts w') = Some resp ∧ MatchResponse req (wi_Invocation u) resp = true
    end) w.
Proof.
  revert w. induction n as [|n IH]; intros w Hw Hn; simpl; [unfold bounded in Hn; lia|].
  assert (Hno : ∀ w', keeps 0 w w' → wpc act_env committed (Ret (inl tt)) (λ (r : unit + option Response) w', keeps 0 w w' ∧
    match r with inl _ => True | inr None => False
    | inr (Some resp) => f_response (aw_facts w') = Some resp ∧ MatchResponse req (wi_Invocation u) resp = true end) w').
  { intros w' Hk. apply wpc_ret; [by eapply keeps_committed|done]. }
  apply sameWorker_wpc; [done|intros w' Hk; by eapply Hno, keeps_le; [|exact Hk]; lia|].
  intros Ha. pose proof (inspected_keeps w uploaderUnit (Some u)) as K1. cbn [negb].
  apply (keeps_le _ 0) in K1; [|lia].
  apply (kept_call _ 3); [done|by eapply keeps_committed|]. intros denied w2 _ K2 C2. apply (keeps_le _ 0) in K2; [|lia].
  pose proof (record_kept_trans _ _ _ _ K1 K2) as K12. destruct denied; cbn [negb]; [|by apply Hno].
  apply (kept_call _ 0); [done|done|]. intros slot w3 X3 K3 C3. pose proof (record_kept_trans _ _ _ _ K12 K3) as K13.
  destruct slot as [| |resp]; [|by apply Hno|].
  - eapply wait_call; [done|by eapply bounded_keeps|by apply Hno|]. intros w4 K4 C4 B4 _. cbn [negb].
    apply (keeps_le _ 0) in K4; [|lia]. eapply wpc_mono; [done| |by apply IH].
    intros r w5 [K5 Hr]. split; [|done]. by eapply record_kept_trans; [exact K13|]; eapply record_kept_trans.
  - apply wpc_ret; [done|]. split; [done|]. destruct (MatchResponse _ _ _) eqn:Hm; [|done]. split; [|done]. by simpl in X3; subst.
Qed.

(** Both workers were just seen, as the instances that were captured. *)
Definition both (w : world) (u col : workerInstance) : Prop :=
  runs (aw_facts w) uploaderUnit u ∧ runs (aw_facts w) collectorUnit col.

Lemma both_of_uploader w u col : wi_Active u = "active" → wi_Active col = "active" →
  both (inspected (inspected w collectorUnit (Some col)) uploaderUnit (Some u)) u col.
Proof. intros. split; [by apply runs_inspected|]. apply runs_inspected_ne; [done|]. by apply runs_inspected. Qed.
Lemma both_of_collector w u col : wi_Active u = "active" → wi_Active col = "active" →
  both (inspected (inspected w uploaderUnit (Some u)) collectorUnit (Some col)) u col.
Proof. intros. split; [apply runs_inspected_ne; [done|]|]; by apply runs_inspected. Qed.

Lemma awaitCollector_wpc n u col w :
  committed w → bounded w n →
  wpc act_env committed (awaitCollector collectorUnit uploaderUnit c n u col) (λ r w', keeps 1 w w' ∧
    match r with
    | inl _ => True
    | inr None => False
    | inr (Some _) => ∃ s, f_ready (aw_facts w') = Some s ∧ sr_InvocationID s = wi_Invocation col ∧ sr_State s = "COLLECTING"
    end) w.
Proof.
  revert w. induction n as [|n IH]; intros w Hw Hn; simpl; [unfold bounded in Hn; lia|].
  set (Q := λ (r : unit + option unit) w', keeps 1 w w' ∧ _).
  assert (Hno : ∀ w', keeps 1 w w' → wpc act_env committed (Ret (inl tt)) Q w').
  { intros w' Hk. apply wpc_ret; [by eapply keeps_committed|done]. }
  apply sameWorker_wpc; [done|intros w' Hk; by eapply Hno, keeps_le; [|exact Hk]; lia|].
  intros _. set (w1 := inspected w _ _). assert (keeps 1 w w1) as K1 by (eapply keeps_le; [|apply inspected_keeps]; lia). clearbody w1.
  apply sameWorker_wpc; [by eapply keeps_committed|intros w' Hk; eapply Hno, record_kept_trans; [exact K1|]; eapply keeps_le; [|exact Hk]; lia|].
  intros _. set (w2 := inspected w1 _ _).
  assert (keeps 1 w w2) as K2 by (eapply record_kept_trans; [exact K1|]; eapply keeps_le; [|apply inspected_keeps]; lia). clearbody w2. cbn [negb].
  apply (kept_call _ 1); [done|by eapply keeps_committed|]. intros slot w3 X3 K3 C3. pose proof (record_kept_trans _ _ _ _ K2 K3) as K13.
  assert (Hagain : wpc act_env committed (Call VWait (λ ok, if negb ok then Ret (inl tt)
    else awaitCollector collectorUnit uploaderUnit c n u col)) Q w3).
  { eapply wait_call; [done|by eapply bounded_keeps|by apply Hno|]. intros w4 K4 C4 B4 _. cbn [negb].
    apply (keeps_le _ 1) in K4; [|lia]. eapply wpc_mono; [done| |by apply IH].
    intros r w5 [K5 Hr]. split; [|done]. by eapply record_kept_trans; [exact K13|]; eapply record_kept_trans. }
  destruct slot as [| |record]; [exact Hagain|by apply Hno|]. destruct (str_eqb (sr_InvocationID record) _) eqn:Hi; [|exact Hagain].
  apply wpc_ret; [done|]. split; [done|]. destruct (str_eqb (sr_State record) _) eqn:Hs; [|done]. bools.
  exists record. simpl in X3. by subst.
Qed.

Lemma awaitUploader_wpc n u col w :
  committed w → bounded w n →
  wpc act_env committed (awaitUploader collectorUnit uploaderUnit c n u col) (λ r w', keeps 3 w w' ∧
    match r with
    | inl _ => True
    | inr None => False
    | inr (Some _) => both w' u col
    end) w.
Proof.
  revert w. induction n as [|n IH]; intros w Hw Hn; simpl; [unfold bounded in Hn; lia|].
  set (Q := λ (r : unit + option unit) w', keeps 3 w w' ∧ _).
  assert (Hno : ∀ w', keeps 3 w w' → wpc act_env committed (Ret (inl tt)) Q w').
  { intros w' Hk. apply wpc_ret; [by eapply keeps_committed|done]. }
  apply sameWorker_wpc; [done|done|]. intros _. set (w1 := inspected w _ _).
  assert (keeps 3 w w1) as K1 by apply inspected_keeps. clearbody w1.
  apply sameWorker_wpc; [by eapply keeps_committed|intros w' Hk; by eapply Hno, record_kept_trans|].
  intros _. set (w2 := inspected w1 _ _). assert (keeps 3 w w2) as K2 by (eapply record_kept_trans; [exact K1|apply inspected_keeps]).
  clearbody w2. cbn [negb].
  apply (kept_call _ 3); [done|by eapply keeps_committed|]. intros slot w3 _ K3 C3. pose proof (record_kept_trans _ _ _ _ K2 K3) as K13.
  assert (Hagain : wpc act_env committed (Call VWait (λ ok, if negb ok then Ret (inl tt)
    else awaitUploader collectorUnit uploaderUnit c n u col)) Q w3).
  { eapply wait_call; [done|by eapply bounded_keeps|by apply Hno|]. intros w4 K4 C4 B4 _. cbn [negb].
    eapply wpc_mono; [done| |by apply IH].
    intros r w5 [K5 Hr]. split; [|done]. by eapply record_kept_trans; [exact K13|]; eapply record_kept_trans. }
  destruct slot as [| |record]; [exact Hagain|by apply Hno|]. destruct (str_eqb (sr_InvocationID record) _); [|exact Hagain].
  destruct (readyState _); [|destruct (str_eqb (sr_State record) _); [exact Hagain|by apply Hno]].
  apply (kept_call _ 3); [done|done|]. intros e w4 _ K4 C4. pose proof (record_kept_trans _ _ _ _ K13 K4) as K14.
  destruct e; [by apply Hno|].
  apply sameWorker_wpc; [done|intros w' Hk; by eapply Hno, record_kept_trans|]. intros Ha.
  apply sameWorker_wpc; [done|intros w' Hk; eapply Hno, record_kept_trans; [exact K14|]; eapply record_kept_trans; [apply inspected_keeps|exact Hk]|].
  intros Hc. cbn [negb]. apply wpc_call; [done|]. intros e w5 ->. apply wpc_ret; [done|].
  split; [eapply record_kept_trans; [exact K14|]; eapply record_kept_trans; apply inspected_keeps|].
  destruct e; [done|]. by apply both_of_collector.
Qed.

(** ** The stages *)

Definition tracked (o : owned) (w : world) : Prop :=
  ∀ u, u ∈ aw_started w → (u = uploaderUnit ∨ u = collectorUnit) ∧ is_Some (o !! u).

(** Activated: the single commit was for exactly the workers seen last. *)
Definition activated (w : world) : Prop :=
  ∃ f data u col config, aw_commits w = [(f, data)] ∧ justified f data u col config ∧ both w u col.

Definition stepped (x : owned * Verdict) (w : world) : Prop :=
  tracked x.1 w ∧ match x.2 with Activated => activated w | Refused _ _ => True | Spinning => False end.

Lemma keeps_tracked n o w w' : keeps n w w' → tracked o w → tracked o w'.
Proof. intros (Hs & _). unfold tracked. by rewrite Hs. Qed.

Lemma keeps_none n w w' : keeps n w w' → aw_commits w = [] → aw_commits w' = [].
Proof. intros (_ & Hc & _). congruence. Qed.

Lemma refuse_wpc o phase cause w :
  committed w → tracked o w → wpc act_env committed (Ret (o, Refused phase cause)) stepped w.
Proof. intros. by apply wpc_ret. Qed.

Hypothesis enough : (600 < fuel)%nat.

Lemma bounded_fuel w : bounded w fuel.
Proof. unfold bounded. lia. Qed.

Lemma finishActivation_wpc o u col resp w req config :
  aw_commits w = [] → tracked o w → both w u col → requested (aw_facts w) req config →
  f_response (aw_facts w) = Some resp → MatchResponse req (wi_Invocation u) resp = true →
  (∃ r, f_ready (aw_facts w) = Some r ∧ sr_InvocationID r = wi_Invocation col ∧ sr_State r = "COLLECTING") →
  (∃ earlier current id, f_checks (aw_facts w) = (earlier ++ final_checks u config current id)%list
    ∧ id_PID id = wi_PID u ∧ KAudited (wi_PID u) (exe (cf_ArtifactSHA256 c)) (Some id) ∈ earlier) →
  wpc act_env committed (finishActivation collectorUnit uploaderUnit fuel c o u col resp) stepped w.
Proof.
  intros Hc Ht [Hu Hcol] Hreq Hresp Hm Hready Hchecks. unfold finishActivation.
  assert (committed w) as Hw by (by left).
  destruct (EncodeCommit _) as [encoded|] eqn:He; [|by apply refuse_wpc].
  apply wpc_call; [done|]. intros e w' ->. destruct e; [by apply refuse_wpc|].
  apply wpc_call; [done|]. intros published w1 ->. simpl. rewrite Hc. cbn [app].
  set (w1 := MkWorld _ _ _ _).
  assert (justified (aw_facts w) encoded u col config) as Hj.
  { split; [done|done| |done|done]. exists req, resp. by split_and!. }
  assert (committed w1) as C1 by (right; by exists (aw_facts w), encoded, u, col, config).
  destruct published; cbn [negb]; [|apply refuse_wpc; [exact C1|exact Ht]].
  apply wpc_bind. eapply wpc_mono; [done| |apply awaitUploader_wpc; [done|apply bounded_fuel]].
  intros r w2 [K2 Hr]. apply wpc_ret; [by eapply keeps_committed|]. split; [eapply keeps_tracked; [exact K2|exact Ht]|].
  destruct r as [|[|]]; [done| |done]. exists (aw_facts w), encoded, u, col, config.
  destruct K2 as (_ & Hc2 & _). by rewrite Hc2.
Qed.

(** [unchanged] adds its checks to the record. *)
Lemma unchanged_wpc {R} config u (k : bool → prog ActCall R) Q w :
  committed w →
  (∀ w', keeps 2 w w' → wpc act_env committed (k false) Q w') →
  (∀ current w', keeps 2 w w' → wi_Active u = "active" →
     f_checks (aw_facts w') = (f_checks (aw_facts w)
       ++ [KInstalled (Some current); KEncoded current (Some config); KPolicy uploaderUnit (cf_Addresses c) true])%list →
     wpc act_env committed (k true) Q w') →
  wpc act_env committed (bind (unchanged uploaderUnit c config u) k) Q w.
Proof.
  intros Hw Hf Ht. unfold unchanged. apply (kept_call _ 2); [done|done|]. fold @bind.
  intros [current|] w1 X1 K1 C1; [|by apply Hf].
  apply (kept_call _ 2); [done|done|]. intros actual w2 X2 K2 C2. pose proof (record_kept_trans _ _ _ _ K1 K2) as K12.
  destruct actual as [actual|]; [|by apply Hf]. destruct (str_eqb actual config) eqn:Ha; cbn [negb]; [|by apply Hf]. bools.
  apply (kept_call _ 2); [done|done|]. intros policy w3 X3 K3 C3. pose proof (record_kept_trans _ _ _ _ K12 K3) as K13.
  destruct policy; cbn [negb]; [|by apply Hf].
  assert (Hin : ∀ w', keeps 3 w3 w' → keeps 2 w w').
  { intros w' Hk. eapply record_kept_trans; [exact K13|]. eapply keeps_le; [|exact Hk]. lia. }
  apply sameWorker_wpc; [done|intros w' Hk; by apply Hf, Hin|]. intros Hact.
  apply (Ht current); [apply Hin, inspected_keeps|done|].
  simpl in X1, X2, X3. subst. simpl. by rewrite <- !app_assoc.
Qed.

Lemma requested_keeps n w w' req config : keeps n w w' → requested (aw_facts w) req config → requested (aw_facts w') req config.
Proof. intros (_ & _ & _ & Hr & _) []. split; rewrite ?Hr; done. Qed.

Lemma audited_keeps n w w' k : keeps n w w' → k ∈ f_checks (aw_facts w) → k ∈ f_checks (aw_facts w').
Proof. intros (_ & _ & _ & _ & [l ->] & _) Hk. apply elem_of_app. by left. Qed.

Lemma finalAudit_wpc o config identity u col resp w req :
  aw_commits w = [] → tracked o w → requested (aw_facts w) req config → id_PID identity = wi_PID u →
  KAudited (wi_PID u) (exe (cf_ArtifactSHA256 c)) (Some identity) ∈ f_checks (aw_facts w) →
  f_response (aw_facts w) = Some resp → MatchResponse req (wi_Invocation u) resp = true →
  (∃ r, f_ready (aw_facts w) = Some r ∧ sr_InvocationID r = wi_Invocation col ∧ sr_State r = "COLLECTING") →
  wpc act_env committed (finalAudit collectorUnit uploaderUnit exe fuel c o config identity u col resp) stepped w.
Proof.
  intros Hc Ht Hreq Hid Haud Hresp Hm Hready. unfold finalAudit.
  assert (Hno : ∀ w', keeps 2 w w' → wpc act_env committed (Ret (o, Refused "FINAL_AUDIT" Unsafe)) stepped w').
  { intros w' Hk. apply refuse_wpc; [left; by eapply keeps_none|by eapply keeps_tracked]. }
  assert (Hw : committed w) by (by left).
  assert (Hthen : ∀ w1 w2, keeps 2 w w1 → keeps 3 w1 w2 → keeps 2 w w2).
  { intros w1 w2 K1 K2. eapply record_kept_trans; [exact K1|]. eapply keeps_le; [|exact K2]. lia. }
  apply (kept_call _ 2); [done|done|]. intros finished w1 X1 K1 C1. destruct finished; cbn [negb]; [|by apply Hno].
  apply unchanged_wpc; [done|intros w' Hk; by eapply Hno, record_kept_trans|].
  intros current w2 K2 Ha Hchk. cbn [negb]. pose proof (record_kept_trans _ _ _ _ K1 K2) as K12.
  apply sameWorker_wpc; [by eapply keeps_committed|intros w' Hk; by eapply Hno, Hthen|].
  intros Hcol. cbn [negb].
  apply (kept_call _ 2); [done|by eapply keeps_committed|]. intros audited w3 X3 K3 C3.
  assert (keeps 2 w w3) as K13.
  { eapply record_kept_trans; [|exact K3]. eapply Hthen; [exact K12|apply inspected_keeps]. }
  destruct audited as [audited|]; [|by apply Hno]. destruct (bool_decide_reflect (audited = identity)) as [->|]; [|by apply Hno].
  cbn [negb].
  apply sameWorker_wpc; [done|intros w' Hk; by eapply Hno, Hthen|]. intros _. cbn [negb].
  assert (keeps 2 w (inspected w3 uploaderUnit (Some u))) as K4 by (eapply Hthen; [exact K13|apply inspected_keeps]).
  apply sameWorker_wpc; [by eapply keeps_committed|intros w' Hk; by eapply Hno, Hthen|].
  intros _. cbn [negb]. set (w5 := inspected (inspected w3 _ _) _ _).
  assert (keeps 2 w w5) as K5 by (eapply Hthen; [exact K4|apply inspected_keeps]).
  eapply (finishActivation_wpc _ _ _ _ _ req config).
  - by eapply keeps_none.
  - by eapply keeps_tracked.
  - by apply both_of_collector.
  - by eapply requested_keeps.
  - destruct K5 as (_ & _ & _ & _ & _ & -> & _); [done|lia].
  - done.
  - destruct K5 as (_ & _ & _ & _ & _ & _ & -> & _); [done|lia].
  - exists (f_checks (aw_facts w)), current, identity. split; [|done].
    simpl in X1, X3. subst w1 w3. simpl in *. rewrite Hchk. by rewrite <- !app_assoc.
Qed.

Lemma capture_owns u state o x : x = u ∨ is_Some (o !! x) → is_Some (capture u state o !! x).
Proof.
  unfold capture. cbv zeta. intros Hx.
  destruct (decide (x = u)) as [->|Hne]; [destruct state as [i|]; [destruct (str_eqb _ _)|]; rewrite lookup_insert_eq; eauto|].
  destruct Hx as [|Hx]; [done|]. destruct state as [i|]; [destruct (str_eqb _ _)|]; rewrite !lookup_insert_ne by done; done.
Qed.

(** Starting a worker: it is tracked from before the call on. *)
Lemma start_wpc {R} u o (k : owned * bool → prog ActCall R) Q w :
  u = uploaderUnit ∨ u = collectorUnit → committed w → tracked o w →
  (∀ o' ok w', aw_commits w' = aw_commits w → f_requests (aw_facts w') = f_requests (aw_facts w) →
     f_response (aw_facts w') = f_response (aw_facts w) → f_checks (aw_facts w') = f_checks (aw_facts w) →
     committed w' → tracked o' w' → wpc act_env committed (k (o', ok)) Q w') →
  wpc act_env committed (bind (startActivationWorkerWith u o) k) Q w.
Proof.
  intros Hu Hw Ht Hk. unfold startActivationWorkerWith. apply wpc_call; [done|]. fold @bind. intros started w1 ->.
  apply wpc_call; [done|]. intros state w2 ->. cbv zeta.
  set (o' := capture u state o). set (w2 := inspected _ u state).
  assert (tracked o' w2) as Ht'.
  { intros x Hx. simpl in Hx. assert (x = u ∨ x ∈ aw_started w) as [->|Hin] by set_solver.
    - split; [done|]. apply capture_owns. by left.
    - destruct (Ht x Hin). split; [done|]. apply capture_owns. by right. }
  assert (∀ ok, wpc act_env committed (k (o', ok)) Q w2) as Hk' by (intros ok; by apply Hk).
  destruct state as [i|]; [|by apply Hk']. destruct (_ || _); [by apply Hk'|].
  apply wpc_call; [exact Hw|]. intros e w3 ->. apply Hk'.
Qed.

Lemma startCollector_wpc o config identity u resp w req :
  aw_commits w = [] → tracked o w → requested (aw_facts w) req config → id_PID identity = wi_PID u →
  KAudited (wi_PID u) (exe (cf_ArtifactSHA256 c)) (Some identity) ∈ f_checks (aw_facts w) →
  f_response (aw_facts w) = Some resp → MatchResponse req (wi_Invocation u) resp = true →
  wpc act_env committed (startCollector collectorUnit uploaderUnit exe fuel c o config identity u resp) stepped w.
Proof.
  intros Hc Ht Hreq Hid Haud Hresp Hm. unfold startCollector. apply start_wpc; [by right|by left|done|].
  intros o1 ok w1 Hc1 Hr1 Hp1 Hk1 C1 T1. destruct ok; cbn [negb]; [|by apply refuse_wpc].
  set (col := default _ _). apply wpc_bind. eapply wpc_mono; [done| |apply awaitCollector_wpc; [done|apply bounded_fuel]].
  intros r w2 [K2 Hr]. pose proof (keeps_committed _ _ _ K2 C1) as C2. pose proof (keeps_tracked _ _ _ _ K2 T1) as T2.
  destruct r as [|[|]]; [by apply refuse_wpc| |done]. eapply (finalAudit_wpc _ _ _ _ _ _ _ req).
  - eapply keeps_none; [exact K2|congruence].
  - done.
  - eapply requested_keeps; [exact K2|]. destruct Hreq. split; rewrite ?Hr1; done.
  - done.
  - eapply audited_keeps; [exact K2|]. by rewrite Hk1.
  - destruct K2 as (_ & _ & _ & _ & _ & -> & _); [congruence|lia].
  - done.
  - done.
Qed.

Lemma sendRequest_wpc o identity u w :
  aw_commits w = [] → tracked o w → id_PID identity = wi_PID u →
  KAudited (wi_PID u) (exe (cf_ArtifactSHA256 c)) (Some identity) ∈ f_checks (aw_facts w) →
  wpc act_env committed (sendRequest collectorUnit uploaderUnit exe fuel c o identity u) stepped w.
Proof.
  intros Hc Ht Hid Haud. unfold sendRequest.
  assert (Hno : ∀ w' phase cause, keeps 0 w w' → wpc act_env committed (Ret (o, Refused phase cause)) stepped w').
  { intros w' phase cause Hk. apply refuse_wpc; [left; by eapply keeps_none|by eapply keeps_tracked]. }
  apply (kept_call _ 2); [done|by left|]. intros config w1 _ K1 C1. apply (keeps_le _ 0) in K1; [|lia].
  destruct config as [config|]; [|by apply Hno].
  apply (kept_call _ 3); [done|done|]. intros nonce w2 _ K2 C2. apply (keeps_le _ 0) in K2; [|lia].
  pose proof (record_kept_trans _ _ _ _ K1 K2) as K12. destruct nonce as [nonce|]; [|by apply Hno].
  apply (kept_call _ 3); [done|done|]. intros ports w3 X3 K3 C3. apply (keeps_le _ 0) in K3; [|lia].
  pose proof (record_kept_trans _ _ _ _ K12 K3) as K13. cbv zeta. set (req := MkRequest _ _ _ _ _ _ _).
  destruct (EncodeRequest req) as [encoded|] eqn:He; [|by apply Hno].
  apply unchanged_wpc; [done|intros w' Hk; eapply Hno, record_kept_trans; [exact K13|]; eapply keeps_le; [|exact Hk]; lia|].
  intros current w4 K4 _ _. apply (keeps_le _ 0) in K4; [|lia]. pose proof (record_kept_trans _ _ _ _ K13 K4) as K14. cbn [negb].
  apply (kept_call _ 3); [done|apply (keeps_committed _ _ _ K14); by left|]. intros denied w5 _ K5 C5. apply (keeps_le _ 0) in K5; [|lia].
  pose proof (record_kept_trans _ _ _ _ K14 K5) as K15. destruct denied; cbn [negb]; [|by apply Hno].
  apply wpc_call; [done|]. intros published w6 ->. cbn beta iota zeta delta [act_env]. change (str_eqb "request.json" "commit.json") with false. cbn iota.
  set (w6 := with_facts _ _). assert (C6 : committed w6) by exact C5.
  assert (T6 : tracked o w6) by (eapply keeps_tracked in Ht; [|exact K15]; exact Ht).
  assert (R6 : requested (aw_facts w6) req config).
  { split; [|done|done|done|by destruct X3 as (? & ? & _)]. exists encoded. split; [done|]. simpl. set_solver. }
  assert (A6 : KAudited (wi_PID u) (exe (cf_ArtifactSHA256 c)) (Some identity) ∈ f_checks (aw_facts w6))
    by (eapply audited_keeps in Haud; [|exact K15]; exact Haud).
  assert (N6 : aw_commits w6 = []) by (eapply keeps_none in Hc; [|exact K15]; exact Hc). clearbody w6.
  destruct published; cbn [negb]; [|by apply refuse_wpc].
  apply wpc_bind. eapply wpc_mono; [done| |apply awaitResponse_wpc; [done|apply bounded_fuel]].
  intros r w7 [K7 Hr]. pose proof (keeps_committed _ _ _ K7 C6) as C7. pose proof (keeps_tracked _ _ _ _ K7 T6) as T7.
  destruct r as [|[resp|]]; [by apply refuse_wpc| |done]. destruct Hr as [Hr Hm].
  eapply (startCollector_wpc _ _ _ _ _ _ req); [by eapply keeps_none|done|by eapply requested_keeps|done|by eapply audited_keeps|done|done].
Qed.

Lemma startUploader_wpc w :
  aw_commits w = [] → aw_started w = [] →
  wpc act_env committed (startUploader collectorUnit uploaderUnit exe fuel c) stepped w.
Proof.
  intros Hc Hs. unfold startUploader. assert (tracked ∅ w) as Ht by (intros u; rewrite Hs; set_solver).
  apply (kept_call _ 2); [done|by left|]. intros policy w1 _ K1 C1.
  pose proof (keeps_tracked _ _ _ _ K1 Ht) as T1. destruct policy; cbn [negb]; [|by apply refuse_wpc].
  apply start_wpc; [by left|done|done|]. intros o ok w2 N2 _ _ _ C2 T2. pose proof (keeps_none _ _ _ K1 Hc) as N1.
  destruct ok; cbn [negb]; [|by apply refuse_wpc]. set (u := default _ _).
  apply (kept_call _ 2); [done|done|]. intros identity w3 X3 K3 C3. pose proof (keeps_tracked _ _ _ _ K3 T2) as T3.
  destruct identity as [identity|]; [|by apply refuse_wpc].
  destruct (id_PID identity =? wi_PID u) eqn:Hid; cbn [negb]; [|by apply refuse_wpc]. bools.
  apply sameWorker_wpc; [done|intros w' Hk; apply refuse_wpc; [by eapply keeps_committed|by eapply keeps_tracked]|].
  intros _. cbn [negb]. apply sendRequest_wpc; [|exact T3|done|].
  - simpl. eapply keeps_none; [exact K3|congruence].
  - simpl in X3. subst w3. simpl. set_solver.
Qed.

(** ** Cleanup *)

Lemma stop_wpc {R} (I : world → Prop) u want (k : bool → prog ActCall R) Q w :
  (∀ w', aw_commits w' = aw_commits w → I w') →
  (∀ ok w', aw_started w' = aw_started w → aw_commits w' = aw_commits w →
     (∀ x, x ≠ u → at_rest (aw_facts w) x → at_rest (aw_facts w') x) →
     (ok = true → at_rest (aw_facts w') u) → wpc act_env I (k ok) Q w') →
  wpc act_env I (bind (stopCapturedWorker u want) k) Q w.
Proof.
  intros Hw Hk. unfold stopCapturedWorker. apply wpc_call; [by apply Hw|]. fold @bind. intros got w1 ->.
  assert (Hframe : ∀ w a x, x ≠ u → at_rest (aw_facts w) x → at_rest (aw_facts (inspected w u a)) x).
  { intros w0 a x Hne (i & Hi & ?). exists i. split; [|done]. simpl. destruct a; [by rewrite lookup_insert_ne|by rewrite lookup_delete_ne]. }
  assert (Hfail : wpc act_env I (k false) Q (inspected w u got)) by (apply Hk; try done; auto).
  destruct got as [got|]; [|exact Hfail]. destruct (_ && _) eqn:Hrest.
  - apply Hk; try done; [auto|]. intros _. exists got. split; [apply lookup_insert_eq|]. bools.
    split; [done|]. match goal with H : _ || _ = true |- _ => apply orb_prop in H as [?|?] end; bools; auto.
  - clear Hrest. destruct (_ || _); [exact Hfail|]. apply wpc_call; [by apply Hw|]. intros ok w2 ->.
    set (w2 := MkWorld _ _ _ _).
    assert (Hframe2 : ∀ x, x ≠ u → at_rest (aw_facts w) x → at_rest (aw_facts w2) x).
    { intros x Hne (i & Hi & ?). exists i. split; [|done]. simpl. rewrite lookup_delete_ne by done. by rewrite lookup_insert_ne. }
    destruct ok; cbn [negb]; [|apply Hk; done].
    apply wpc_call; [by apply Hw|]. intros joined w3 ->. apply Hk; try done; [intros; apply Hframe; auto|].
    destruct joined as [j|]; [|done]. intros Hj. bools. exists j. split; [apply lookup_insert_eq|]. auto.
Qed.

Definition settled (v : Verdict) (w : world) : Prop :=
  match v with
  | Activated => activated w
  | Refused phase _ => phase ≠ "ACTIVATION_CLEANUP" → ∀ u, u ∈ aw_started w → at_rest (aw_facts w) u
  | Spinning => False
  end.

Lemma cleanUnit_wpc o u v Q w :
  committed w →
  (∀ v' w', aw_started w' = aw_started w → committed w' →
     (∀ x, x ≠ u → at_rest (aw_facts w) x → at_rest (aw_facts w') x) →
     (v' = v ∧ (is_Some (o !! u) → at_rest (aw_facts w') u) ∨ v' = Refused "ACTIVATION_CLEANUP" Recovery) →
     Q v' w') →
  wpc act_env committed (cleanUnit o u v) Q w.
Proof.
  intros Hw Hk. unfold cleanUnit. destruct (o !! u) as [want|].
  - assert (Hc : ∀ w', aw_commits w' = aw_commits w → committed w') by (intros w' He; unfold committed; by rewrite He).
    apply stop_wpc; [done|]. intros ok w' Hs Hcm Hf Ht. pose proof (Hc w' Hcm). apply wpc_ret; [done|]. apply Hk; try done.
    destruct ok; [left|by right]. auto.
  - apply wpc_ret; [done|]. apply Hk; try done. left. split; [done|]. by intros [].
Qed.

Lemma cleanup_wpc o v w :
  committed w → stepped (o, v) w → wpc act_env committed (cleanup collectorUnit uploaderUnit o v) settled w.
Proof.
  intros Hw [Ht Hv]. unfold cleanup. destruct v as [|phase cause|]; [by apply wpc_ret| |done].
  apply wpc_bind, cleanUnit_wpc; [done|]. intros v1 w1 S1 C1 _ H1.
  apply cleanUnit_wpc; [done|]. intros v2 w2 S2 C2 F2 H2.
  destruct H2 as [[-> H2]| ->]; [|intros Hne; by destruct Hne]. destruct H1 as [[-> H1]| ->]; [|intros Hne; by destruct Hne].
  intros _ u Hu. rewrite S2, S1 in Hu. destruct (Ht u Hu) as [[-> | ->] Ho]; [|by apply H2].
  apply F2; [done|]. by apply H1.
Qed.

(** The crash condition holds at the end too. *)
Lemma wpc_end {R} (p : prog ActCall R) Q w :
  wpc act_env committed p Q w → wpc act_env committed p (λ r w', committed w' ∧ Q r w') w.
Proof.
  revert w. induction p as [r|A e k IH]; intros w [Hw H]; split; [done|done|done|]. intros a w' Hx. by apply IH, H.
Qed.

Lemma stoppedUnit_wpc {R} u (k : bool → prog ActCall R) Q w :
  committed w → (∀ ok w', keeps 3 w w' → committed w' → wpc act_env committed (k ok) Q w') →
  wpc act_env committed (bind (stoppedUnit u) k) Q w.
Proof.
  intros Hw Hk. unfold stoppedUnit. apply (kept_call _ 3); [done|done|]. fold @bind. intros a w' _ K C. by apply Hk.
Qed.

Lemma settled_prepare cause w : aw_started w = [] → settled (Refused "ACTIVATION_PREPARE" cause) w.
Proof. intros Hs _ u. rewrite Hs. set_solver. Qed.

Lemma keeps_nothing n w w' : keeps n w w' → aw_started w = [] → aw_started w' = [].
Proof. intros [Hs _]. congruence. Qed.

(** Calls that the rest of the transaction does not look at. *)
Lemma plain_call {R A} (e : ActCall A) (k : A → prog ActCall R) Q w w0 :
  kept A e = Some 3%nat → keeps 3 w0 w → committed w0 →
  (∀ a w', keeps 3 w0 w' → wpc act_env committed (k a) Q w') → wpc act_env committed (Call e k) Q w.
Proof.
  intros He K Hw Hk. apply (kept_call _ 3); [done|by eapply keeps_committed|]. intros a w' _ K' _.
  eapply Hk, record_kept_trans; [exact K|exact K'].
Qed.

Lemma settled_close v w : settled v w → committed w →
  wpc act_env committed (Call VProbesClose (λ _, Call VUnpin (λ _, Ret v))) settled w.
Proof. intros Hv Hw. apply wpc_call; [done|]. intros [] w1 ->. apply wpc_call; [done|]. intros [] w2 ->. by apply wpc_ret. Qed.

Lemma activateStoppedWith_wpc w :
  aw_commits w = [] → aw_started w = [] →
  wpc act_env committed (activateStoppedWith collectorUnit uploaderUnit exe fuel c) settled w.
Proof.
  intros Hc Hs. unfold activateStoppedWith. assert (Hw : committed w) by (by left). cbv zeta.
  assert (Hno : ∀ w' cause, keeps 3 w w' → wpc act_env committed (Ret (Refused "ACTIVATION_PREPARE" cause)) settled w').
  { intros w' cause K. apply wpc_ret; [by eapply keeps_committed|]. eapply settled_prepare, keeps_nothing; done. }
  eapply plain_call; [done|apply record_kept_refl|done|]. intros e w1 K1. destruct e; [by apply Hno|].
  eapply plain_call; [done|exact K1|done|]. intros valid w2 K2. destruct valid; cbn [negb]; [|by apply Hno].
  apply stoppedUnit_wpc; [by eapply keeps_committed|]. intros ok w3 K3 C3. pose proof (record_kept_trans _ _ _ _ K2 K3) as K13.
  destruct ok; cbn [negb]; [|by apply Hno].
  apply stoppedUnit_wpc; [done|]. intros ok w4 K4 C4. pose proof (record_kept_trans _ _ _ _ K13 K4) as K14.
  destruct ok; cbn [negb]; [|by apply Hno].
  eapply plain_call; [done|exact K14|done|]. intros pinned w5 K5. destruct pinned; cbn [negb]; [|by apply Hno].
  eapply plain_call; [done|exact K5|done|]. intros cleared w6 K6. destruct cleared; cbn [negb].
  2: { eapply plain_call; [done|exact K6|done|]. intros _ w7 K7. by apply Hno. }
  eapply plain_call; [done|exact K6|done|]. intros probes w7 K7. destruct probes; cbn [negb].
  2: { eapply plain_call; [done|exact K7|done|]. intros _ w8 K8. by apply Hno. }
  apply wpc_bind. eapply wpc_mono; [done| |apply wpc_end, startUploader_wpc; [by eapply keeps_none|by eapply keeps_nothing]].
  intros [o v] w8 [C8 H8]. apply wpc_bind. eapply wpc_mono; [done| |by apply wpc_end, cleanup_wpc].
  intros v' w9 [C9 H9]. by apply settled_close.
Qed.

(** C13: whatever the service manager, the files, the probes and the workers do, at
    every moment of an activation at most one commit was published, and when it was:
    the response was the uploader's to this transaction's request; the collector
    reported itself collecting under its own invocation; after that the probes had
    finished, and since then, in this order, the configuration was read as installed
    and encodes to the requested text, the policy was validated, and the uploader's
    process was audited again, with the same identity as in the audit before the
    request; and since that audit both workers had been seen running as the
    instances this transaction started.  The transaction ends: 601 rounds of each
    wait are enough.  It reports success only with both workers seen running as
    committed; otherwise every worker it started was seen stopped, or it reports that
    cleanup needs recovery. *)
Theorem activation_is_audited :
  wpc act_env committed (activateStoppedWith collectorUnit uploaderUnit exe fuel c) settled fresh_world.
Proof. by apply activateStoppedWith_wpc. Qed.

End activation.

(** ** Stopping *)

(** Stopping reports success only if both workers were seen at rest. *)
Lemma stopBoth_wp collectorUnit uploaderUnit w :
  collectorUnit ≠ uploaderUnit →
  wp act_env (stopBoth collectorUnit uploaderUnit)
    (λ r w', r = None → at_rest (aw_facts w') uploaderUnit ∧ at_rest (aw_facts w') collectorUnit) w.
Proof.
  intros Hne. unfold stopBoth. apply wpc_call; [done|]. intros [uploader|] w1 _; [|by apply wpc_ret].
  apply wpc_call; [done|]. intros [collector|] w2 _; [|by apply wpc_ret].
  apply stop_wpc; [done|]. intros ok w3 _ _ _ H3. apply stop_wpc; [done|]. intros ok' w4 _ _ F4 H4.
  apply wpc_ret; [done|]. destruct ok, ok'; try done. intros _. split; [|by apply H4]. apply F4; [done|by apply H3].
Qed.

(** Fresh delivery is only reported for a snapshot collected at most 45 seconds ago
    and not in the future, by two running workers of the records' own invocations. *)
Lemma fresh_is_recent collector uploader collected uploaded now :
  ps_State (classifyPairStatus collector uploader collected uploaded now) = "ACKNOWLEDGED_FRESH" →
  wi_Active collector = "active" ∧ wi_Active uploader = "active" ∧
  ∃ c u, collected = Some c ∧ uploaded = Some u ∧ sr_State c = "COLLECTING"
    ∧ sr_InvocationID c = wi_Invocation collector ∧ sr_InvocationID u = wi_Invocation uploader
    ∧ Sub now (sr_CollectedAt u) ≤ FreshnessWindow ∧ After (sr_CollectedAt u) (Add now UploadState.MaxFuture) = false.
Proof.
  unfold classifyPairStatus. cbv zeta. intros Hf.
  repeat (case_match; simpl in Hf; try discriminate Hf). bools.
  split; [done|]. split; [done|]. rewrite Hf in *. simpl in *. bools. do 2 eexists. by split_and!.
Qed.

(** ** An activation *)

Module ActivationSample.
Definition hex64 : string := "0123456789abcdef0123456789abcdef0123456789abcdef0123456789abcdef".
Definition bytes32 : string := "0123456789abcdef0123456789abcdef".
Definition invocation_of (u : string) : string :=
  if str_eqb u "uploader" then "0123456789abcdef0123456789abcdef" else "fedcba9876543210fedcba9876543210".
Definition instance_of (u : string) : workerInstance :=
  MkInstance (if str_eqb u "uploader" then 100 else 200) (invocation_of u) "active".
Definition config : Config := MkConfig 901 902 903 hex64 7 ["203.0.114.9"].
Definition config_text : string := "{configuration}".
Definition program (artifact : string) : string := "/releases/" ++ artifact.

Definition request : Request :=
  MkRequest RequestVersion (hexEncode bytes32) hex64 (hexEncode (Sum256 config_text)) 7 4000 6000.
Definition request_text : string := Eval vm_compute in default "" (EncodeRequest request).
Definition response : Response :=
  MkResponse ResponseVersion (hexEncode (Sum256 request_text)) (invocation_of "uploader") (hexEncode bytes32) Pass.
Definition commit_text : string := Eval vm_compute in default "" (EncodeCommit (commitFor response)).

(** A manager that does what it is told. *)
Definition answer A (e : ActCall A) (w : world) : A :=
  match e in ActCall T return T with
  | VValid => true
  | VCtxErr => false
  | VInspect u => Some (if bool_decide (u ∈ aw_started w) then instance_of u else MkInstance 0 "" "inactive")
  | VService _ _ => true
  | VAudit pid _ => Some (MkIdentity pid "")
  | VPin _ => true
  | VUnpin => tt
  | VClearResponse => true
  | VProbes => true
  | VProbesClose => tt
  | VPorts => (4000, 6000)
  | VDenied => true
  | VFinish => true
  | VPolicy _ _ => true
  | VInstalled => Some config
  | VConfigBytes _ => Some config_text
  | VRandom => Some bytes32
  | VPublish _ _ => true
  | VResponse => Present response
  | VStatus name _ =>
      Present (if str_eqb name "collector-status" then MkStatus (invocation_of "collector") "COLLECTING" (At 0)
               else MkStatus (invocation_of "uploader") "PENDING" (At 0))
  | VWait => false
  end.

(** The state [act_env] prescribes. *)
Definition after A (e : ActCall A) (w : world) : world :=
  match e with
  | VInspect u => inspected w u (answer _ (VInspect u) w)
  | VService verb u =>
      MkWorld (set_seen (aw_facts w) (delete u (f_seen (aw_facts w))))
        (if str_eqb verb "start" then aw_started w ++ [u] else aw_started w) (aw_commits w) (aw_waits w)
  | VAudit pid x => checked w (KAudited pid x (answer _ (VAudit pid x) w))
  | VFinish => checked w (KFinished true)
  | VPolicy u addresses => checked w (KPolicy u addresses true)
  | VInstalled => checked w (KInstalled (Some config))
  | VConfigBytes cfg => checked w (KEncoded cfg (Some config_text))
  | VResponse => let f := aw_facts w in
      with_facts w (MkFacts (f_seen f) (f_requests f) (Some response) (f_ready f) (f_checks f))
  | VStatus name uid => let f := aw_facts w in
      if str_eqb name "collector-status"
      then with_facts w (MkFacts (f_seen f) (f_requests f) (f_response f)
             (Some (MkStatus (invocation_of "collector") "COLLECTING" (At 0))) (f_checks f))
      else w
  | VPublish name data => let f := aw_facts w in
      if str_eqb name "commit.json"
      then MkWorld f (aw_started w) (aw_commits w ++ [(f, data)]) (aw_waits w)
      else with_facts w (MkFacts (f_seen f) (f_requests f ++ [data]) (f_response f) (f_ready f) (f_checks f))
  | _ => w
  end.

Definition host A (e : ActCall A) (w : world) : A * world := (answer A e w, after A e w).

Lemma activation_host_env A (e : ActCall A) w : act_env A e w (host A e w).1 (host A e w).2.
Proof. destruct e; simpl; try done. by destruct (str_eqb _ _). Qed.

Definition root_run : Verdict * world :=
  run host (activateStoppedWith "collector" "uploader" program 601 config) fresh_world.
Definition final : world := Eval vm_compute in root_run.2.

Lemma root_runs :
  exec act_env (activateStoppedWith "collector" "uploader" program 601 config) fresh_world (Ret Activated) final.
Proof.
  pose proof (run_exec act_env host (activateStoppedWith "collector" "uploader" program 601 config) fresh_world activation_host_env) as H.
  fold root_run in H. assert (root_run = (Activated, final)) as Hr by (vm_compute; reflexivity). by rewrite Hr in H.
Qed.

End ActivationSample.

Lemma activation_is_audited_witness : ("collector" : string) ≠ "uploader" ∧ activated "collector" "uploader" ActivationSample.program ActivationSample.config ActivationSample.final.
Proof.
  split; [discriminate|].
  refine (wpc_return _ _ _ _ _ _ _ (activation_is_audited "collector" "uploader" ActivationSample.program _ 601 ActivationSample.config _ _)
    ActivationSample.root_runs); [discriminate|split; vm_compute; discriminate|lia].
Defined.
