(* ===== verification/ActivationAdmission.v ===== *)
(** * Activation: the worker's side

    The paused uploader goes on only for a commit of its own challenge; together with
    what the root transaction commits to, that makes the worker that goes on the one
    that was audited. *)

From S2P Require Import Prelude GoTime GoText GoCalendar Sha256 Effects Activation ActivationSafety.
From S2P Require ActionCore.

#[local] Open Scope string_scope.
#[local] Open Scope Z_scope.
#[local] Opaque Sum256.

(** ** The worker *)

(** What the worker read, proved and published. *)
Record ports := MkPorts {
  pt_request : option string; pt_commit : option string; pt_proved : list Request; pt_published : list string }.

Definition port_env A (e : PortCall A) : ports → A → ports → Prop :=
  match e in PortCall T return ports → T → ports → Prop with
  | RRead name => λ p a p', p' = if str_eqb name "request.json"
      then MkPorts a (pt_commit p) (pt_proved p) (pt_published p)
      else MkPorts (pt_request p) a (pt_proved p) (pt_published p)
  | RProve r => λ p ok p', p' = MkPorts (pt_request p) (pt_commit p) (if ok : bool then pt_proved p ++ [r] else pt_proved p)
                                  (pt_published p)
  | RPublish data => λ p _ p', p' = MkPorts (pt_request p) (pt_commit p) (pt_proved p) (pt_published p ++ [data])
  | _ => λ p _ p', p' = p
  end.

Definition no_ports : ports := MkPorts None None [] [].

(** The worker goes on. *)
Record admitted (configuration artifact : string) (generation : Z) (invocation : string) (p : ports) (request : Request)
    (response : Response) (commit : Commit) : Prop := {
  ad_request : ∃ data, pt_request p = Some data ∧ DecodeRequest data = Some request;
  ad_artifact : rq_ArtifactSHA256 request = artifact;
  ad_config : rq_ConfigSHA256 request = hexEncode (Sum256 configuration);
  ad_generation : rq_PolicyGeneration request = generation;
  ad_proved : pt_proved p = [request];
  ad_published : ∃ data, EncodeResponse response = Some data ∧ pt_published p = [data];
  ad_invocation : rs_InvocationID response = invocation;
  ad_commit : ∃ data, pt_commit p = Some data ∧ DecodeCommit data = Some commit;
  ad_match : MatchCommit request response commit = true }.

Lemma rendezvous_wp configuration artifact generation invocation :
  wp port_env (rendezvousBound configuration artifact generation invocation)
    (λ ok p, ok = true → ∃ request response commit,
       admitted configuration artifact generation invocation p request response commit) no_ports.
Proof.
  unfold rendezvousBound.
  assert (Hno : ∀ p, wp port_env (Ret false) (λ ok p, ok = true → ∃ request response commit,
       admitted configuration artifact generation invocation p request response commit) p) by (intros; by apply wpc_ret).
  apply wpc_call; [done|]. intros e p0 ->. destruct e; [apply Hno|].
  apply wpc_call; [done|]. intros data p1 ->. simpl. destruct data as [data|]; [|apply Hno].
  destruct (DecodeRequest data) as [request|] eqn:Hr; [|apply Hno].
  destruct (_ || _) eqn:Hb; [apply Hno|]. bools.
  apply wpc_call; [done|]. intros challenge p2 ->. destruct challenge as [challenge|]; [|apply Hno].
  destruct (RequestDigest request) as [digest|]; [|apply Hno]. cbv zeta. set (response := MkResponse _ _ _ _ _).
  destruct (EncodeResponse response) as [encoded|] eqn:He; [|apply Hno].
  apply wpc_call; [done|]. intros e p3 ->. destruct e; [apply Hno|].
  apply wpc_call; [done|]. intros proved p4 ->. destruct proved; cbn [negb]; [|apply Hno].
  apply wpc_call; [done|]. intros e p5 ->. destruct e; [apply Hno|].
  apply wpc_call; [done|]. intros published p6 ->. destruct published; cbn [negb]; [|apply Hno].
  apply wpc_call; [done|]. intros cdata p7 ->. destruct cdata as [cdata|]; [|apply Hno].
  destruct (DecodeCommit cdata) as [commit|] eqn:Hc; [|apply Hno].
  destruct (MatchCommit request response commit) eqn:Hm; cbn [negb]; [|apply Hno].
  apply wpc_call; [done|]. intros e p8 ->. destruct e; [apply Hno|].
  apply wpc_call; [done|]. intros current p9 ->. destruct current as [current|]; [|apply Hno].
  destruct (negb _); [apply Hno|]. apply wpc_call; [done|]. intros e p10 ->. apply wpc_ret; [done|]. intros _.
  exists request, response, commit. split; simpl; eauto.
Qed.
(** ** Both together *)

(** The texts that are compared through their digests. *)
Definition encoded_text (k : check) : option string := match k with KEncoded _ text => text | _ => None end.
Definition hashed_texts (f : facts) (p : ports) (configuration : string) : list string :=
  f_requests f ++ option_list (pt_request p) ++ omap encoded_text (f_checks f) ++ [configuration].

Lemma checked_text collectorUnit uploaderUnit exe c f data u col config :
  justified collectorUnit uploaderUnit exe c f data u col config → config ∈ omap encoded_text (f_checks f).
Proof.
  intros Hj. destruct (ju_checks _ _ _ _ _ _ _ _ _ Hj) as (earlier & current & id & -> & _).
  apply list_elem_of_omap. exists (KEncoded current (Some config)). split; [|done].
  apply elem_of_app. right. unfold final_checks. set_solver.
Qed.

Lemma MatchResponse_inv r invocation response :
  MatchResponse r invocation response = true →
  ∃ data, EncodeRequest r = Some data ∧ rs_RequestSHA256 response = hexEncode (Sum256 data)
    ∧ rs_InvocationID response = invocation.
Proof.
  unfold MatchResponse, RequestDigest. destruct (EncodeRequest r) as [data|]; [|done]. intros H. bools. by exists data.
Qed.

Definition nibble (x : ascii) : Z := let v := byte_val x in if v <? 58 then v - 48 else v - 87.
Definition byte_of (h l : ascii) : ascii := ascii_of_N (Z.to_N (16 * nibble h + nibble l)).

Lemma byte_of_hex x : byte_of (hex_digit (Z.shiftr (byte_val x) 4)) (hex_digit (Z.land (byte_val x) 15)) = x.
Proof. destruct x as [[] [] [] [] [] [] [] []]; vm_compute; reflexivity. Qed.

Lemma hexEncode_inj a b : hexEncode a = hexEncode b → a = b.
Proof.
  revert b. induction a as [|x a IH]; intros [|y b]; simpl; try done. intros [= H1 H2 H3].
  rewrite <- (byte_of_hex x), <- (byte_of_hex y), H1, H2. f_equal. by apply IH.
Qed.

Section both_sides.
Context (collectorUnit uploaderUnit : string) (exe : string → string) (fuel : nat) (c : Config).
Context (configuration artifact : string) (generation : Z) (invocation : string).

(** C12: a worker that goes on past its rendezvous with the commit of a transaction
    is the uploader instance that transaction audited: the manager's invocation is
    the worker's own, the committed response carries the worker's challenge, the
    artifact and the policy generation the worker runs with are those of the
    transaction, and the configuration it runs with is the text of the configuration
    that was read as installed after the probes had finished, just before the second
    audit and the commit; provided the texts concerned have different digests when
    they differ. *)
Theorem admitted_worker_was_audited rest w p f data :
  collectorUnit ≠ uploaderUnit → (600 < fuel)%nat → 0 ≤ cf_PolicyGeneration c ≤ MaxUint64 →
  exec act_env (activateStoppedWith collectorUnit uploaderUnit exe fuel c) fresh_world rest w →
  exec port_env (rendezvousBound configuration artifact generation invocation) no_ports (Ret true) p →
  (f, data) ∈ aw_commits w → pt_commit p = Some data →
  (∀ a b, a ∈ hashed_texts f p configuration → b ∈ hashed_texts f p configuration → Sum256 a = Sum256 b → a = b) →
  ∃ u col response challenge,
    justified collectorUnit uploaderUnit exe c f data u col configuration ∧ invocation = wi_Invocation u
    ∧ EncodeResponse response = Some challenge ∧ pt_published p = [challenge]
    ∧ rs_Challenge <$> f_response f = Some (rs_Challenge response)
    ∧ artifact = cf_ArtifactSHA256 c ∧ generation = cf_PolicyGeneration c.
Proof.
  intros Hne Hf Ht Hroot Hworker Hin Hread Hsum.
  pose proof (wpc_crash _ _ _ _ _ _ _ (activateStoppedWith_wpc collectorUnit uploaderUnit exe Hne fuel c Ht Hf fresh_world eq_refl eq_refl) Hroot)
    as [Hc|(f' & data' & u & col & config & Hc & Hj)]; [rewrite Hc in Hin; set_solver|].
  rewrite Hc in Hin. apply list_elem_of_singleton in Hin as [= <- <-].
  destruct (wpc_return _ _ _ _ _ _ _ (rendezvous_wp configuration artifact generation invocation) Hworker eq_refl)
    as (request & response & commit & []).
  exists u, col, response. destruct ad_published0 as (published & He & Hp). exists published.
  destruct (ju_exchange _ _ _ _ _ _ _ _ _ Hj) as (req & resp & Hreq & Hresp & Hm & Henc).
  pose proof (checked_text _ _ _ _ _ _ _ _ _ Hj) as Hcfg.
  destruct ad_commit0 as (data' & Hd & Hdec). rewrite Hread in Hd. injection Hd as <-.
  rewrite (commit_round_trip _ _ Henc) in Hdec. injection Hdec as <-.
  unfold MatchCommit in ad_match0. bools. simpl in *.
  apply MatchResponse_inv in Hm as (dr & Hdr & Hsr & Hir).
  match goal with H : MatchResponse request _ response = true |- _ => apply MatchResponse_inv in H as (dw & Hdw & Hsw & _) end.
  destruct Hreq as [(dr' & Hdr' & Hinr) Ha Hg Hcf Hty]. assert (dr' = dr) as -> by congruence.
  destruct ad_request0 as (dw' & Hrd & Hdec). pose proof (decoded_request _ _ Hdec) as Hdw'. assert (dw' = dw) as -> by congruence.
  assert (dr = dw) as ->.
  { apply Hsum; [unfold hashed_texts; set_solver|unfold hashed_texts; rewrite Hrd; set_solver|]. apply hexEncode_inj. congruence. }
  rewrite (request_round_trip _ _ Hty Hdr) in Hdec. injection Hdec as ->.
  assert (config = configuration) as ->.
  { apply Hsum; [unfold hashed_texts; set_solver|unfold hashed_texts; set_solver|]. apply hexEncode_inj. congruence. }
  split_and!; [done|congruence|done|done|rewrite Hresp; simpl; congruence|congruence|congruence].
Qed.
End both_sides.

(** ** A worker *)

Module AdmissionSample.
Import ActivationSample.
Definition worker_answer A (e : PortCall A) : A :=
  match e in PortCall T return T with
  | RCtxErr => false
  | RRead name => Some (if str_eqb name "request.json" then request_text else commit_text)
  | RRandom => Some bytes32
  | RProve _ => true
  | RPublish _ => true
  | RCurrent => Some config_text
  end.
Definition worker_after A (e : PortCall A) (p : ports) : ports :=
  match e with
  | RRead name => if str_eqb name "request.json"
      then MkPorts (worker_answer _ (RRead name)) (pt_commit p) (pt_proved p) (pt_published p)
      else MkPorts (pt_request p) (worker_answer _ (RRead name)) (pt_proved p) (pt_published p)
  | RProve r => MkPorts (pt_request p) (pt_commit p) (pt_proved p ++ [r]) (pt_published p)
  | RPublish data => MkPorts (pt_request p) (pt_commit p) (pt_proved p) (pt_published p ++ [data])
  | _ => p
  end.
Definition worker A (e : PortCall A) (p : ports) : A * ports := (worker_answer A e, worker_after A e p).

Lemma worker_env A (e : PortCall A) p : port_env A e p (worker A e p).1 (worker A e p).2.
Proof. by destruct e. Qed.

Definition worker_run : bool * ports := run worker (rendezvousBound config_text hex64 7 (invocation_of "uploader")) no_ports.
Definition worker_final : ports := Eval vm_compute in worker_run.2.

Lemma worker_runs :
  exec port_env (rendezvousBound config_text hex64 7 (invocation_of "uploader")) no_ports (Ret true) worker_final.
Proof.
  pose proof (run_exec port_env worker (rendezvousBound config_text hex64 7 (invocation_of "uploader")) no_ports worker_env) as H.
  fold worker_run in H. assert (worker_run = (true, worker_final)) as Hr by (vm_compute; reflexivity). by rewrite Hr in H.
Qed.

Definition committed_facts : facts := Eval vm_compute in (match aw_commits final with (f, _) :: _ => f | [] => aw_facts final end).

Lemma commit_published : (committed_facts, commit_text) ∈ aw_commits final.
Proof. apply list_elem_of_singleton. vm_compute. reflexivity. Qed.

Lemma texts_differ : Sum256 request_text ≠ Sum256 config_text.
Proof. intros H. vm_compute in H. discriminate H. Qed.

Lemma texts_are : hashed_texts committed_facts worker_final config_text = [request_text; request_text; config_text; config_text; config_text; config_text].
Proof. vm_compute. reflexivity. Qed.

Lemma no_collision a b :
  a ∈ hashed_texts committed_facts worker_final config_text → b ∈ hashed_texts committed_facts worker_final config_text →
  Sum256 a = Sum256 b → a = b.
Proof.
  rewrite texts_are, !elem_of_cons, !elem_of_nil. pose proof texts_differ as Hd. generalize dependent request_text.
  intros t Hd Ha Hb. assert (a = t ∨ a = config_text) as [-> | ->] by tauto; assert (b = t ∨ b = config_text) as [-> | ->] by tauto; congruence.
Qed.
End AdmissionSample.

Lemma admitted_worker_was_audited_witness :
  ∃ u, ActivationSample.invocation_of "uploader" = wi_Invocation u
    ∧ ∃ col, justified "collector" "uploader" ActivationSample.program ActivationSample.config AdmissionSample.committed_facts
        ActivationSample.commit_text u col ActivationSample.config_text.
Proof.
  destruct (admitted_worker_was_audited "collector" "uploader" ActivationSample.program 601 ActivationSample.config
    ActivationSample.config_text ActivationSample.hex64 7 (ActivationSample.invocation_of "uploader")
    (Ret Activated) ActivationSample.final AdmissionSample.worker_final AdmissionSample.committed_facts
    ActivationSample.commit_text) as (u & col & r & ch & Hj & Hi & _).
  - discriminate.
  - lia.
  - split; vm_compute; discriminate.
  - exact ActivationSample.root_runs.
  - exact AdmissionSample.worker_runs.
  - exact AdmissionSample.commit_published.
  - reflexivity.
  - exact AdmissionSample.no_collision.
  - exists u. split; [exact Hi|]. exists col. exact Hj.
Defined.
