(* ===== verification/SharedHandoff.v ===== *)
(** * The handoff between collector and uploader ([internal/sharedhandoff])

    The collector publishes a snapshot by writing a new staging file, syncing it and
    renaming it over the latest one; the uploader, another process, reads the latest
    file at any time.  A slot's program is a sequence of system calls on a directory
    it pinned; the directory, the lock and every opened file are handles. *)

From S2P Require Import Prelude GoText Effects.

#[local] Open Scope string_scope.
#[local] Open Scope Z_scope.

(** ** Data *)

Inductive HandoffError := ErrUnsafe | ErrMissing | ErrUnavailable | ErrInvalid | ErrBusy.

#[global] Instance HandoffError_eq_dec : EqDecision HandoffError.
Proof. solve_decision. Defined.

Record Policy := MkPolicy {
  pl_CollectorUID : Z; pl_SharedGID : Z; pl_UploaderUID : Z; pl_ServerID : string }.

Definition latestName : string := "snapshot.json".
Definition stageName : string := ".snapshot-next".
Definition lockName : string := ".writer-lock".

(** Which policy the slot was opened with. *)
Inductive slotKind := Numeric | RichProcesses | RichProcessesDocker | DockerFrame.

Definition RichProcessesMaxBytes : Z := 294912 + 512.
Definition RichProcessesDockerMaxBytes : Z := 294912 + 512.
Definition DockerFrameMaxBytes : Z := 128 * 1024.
Definition RemoteMaxBytes : Z := 16 * 1024.

Definition maxBytes (k : slotKind) : Z :=
  match k with
  | DockerFrame => DockerFrameMaxBytes
  | RichProcessesDocker => RichProcessesDockerMaxBytes
  | RichProcesses => RichProcessesMaxBytes
  | Numeric => RemoteMaxBytes
  end.

(** What [Stat] and [Lstat] tell; [st_special]: one of the set-id and sticky bits. *)
Record fileInfo := MkInfo {
  st_ino : nat; st_regular : bool; st_dir : bool; st_perm : Z; st_special : bool; st_uid : Z; st_gid : Z;
  st_nlink : nat; st_size : Z }.

Inductive handle := HDirectory | HLock | HFile (ino : nat).
Inductive lookup_answer := Found (i : fileInfo) | NotExist | LookupFailed.
Inductive open_answer := Opened (ino : nat) | OpenNotExist | OpenFailed.
Inductive openFlags := ReadOnly | CreateExclusive.

(** Process credentials as [identity] reads them. *)
Record credentials := MkCredentials {
  cr_resuid : Z * Z * Z; cr_resgid : Z * Z * Z; cr_capabilities : option bool; (* whether any is held *)
  cr_groups : option (list Z) }.

Inductive HCall : Type → Type :=
| HCredentials : HCall credentials
| HLstat (name : string) : HCall lookup_answer
| HOpen (name : string) (flags : openFlags) : HCall open_answer
| HStat (h : handle) : HCall (option fileInfo)
| HAcl (h : handle) (directory : bool) : HCall bool (* noACL(file, directory) == nil *)
| HReadDir : HCall (option (list string)) (* at most four names *)
| HWrite (ino : nat) (data : string) : HCall (Z * bool)
| HChmod (ino : nat) (mode : Z) : HCall bool
| HSync (ino : nat) : HCall bool
| HClose (ino : nat) : HCall bool
| HRename : HCall bool (* s.replace(stageName, latestName) *)
| HSyncDir : HCall bool
| HRemove : HCall bool (* s.root.Remove(stageName) *)
| HReadAll (ino : nat) (limit : Z) : HCall (option string)
| HCtxErr : HCall bool.

Local Open Scope prog_scope.

(** ** Policy *)

Definition serverPattern : string → bool := match_pattern "srv_" is_lower_hex 32.

Definition validPolicy (p : Policy) : bool :=
  negb (pl_CollectorUID p =? 0) && negb (pl_UploaderUID p =? 0) && negb (pl_SharedGID p =? 0)
  && negb (pl_CollectorUID p =? pl_UploaderUID p) && serverPattern (pl_ServerID p).

Definition consistentGroups (real effective saved : Z) : bool :=
  (0 <? real) && (real =? effective) && (effective =? saved).

Definition identity_of (p : Policy) (writer : bool) (c : credentials) : bool :=
  let uid := if writer then pl_CollectorUID p else pl_UploaderUID p in
  let '(ruid, euid, suid) := cr_resuid c in
  let '(rgid, egid, sgid) := cr_resgid c in
  (ruid =? uid) && (euid =? uid) && (suid =? uid) && consistentGroups rgid egid sgid
  && match cr_capabilities c with Some held => negb held | None => false end
  && negb (writer && negb (egid =? pl_SharedGID p))
  && ((egid =? pl_SharedGID p)
      || match cr_groups c with Some groups => existsb (Z.eqb (pl_SharedGID p)) groups | None => false end).

Definition identity (p : Policy) (writer : bool) : prog HCall bool :=
  if negb (validPolicy p) then Ret false
  else c <~ HCredentials; Ret (identity_of p writer c).

Section slot.
Variables (policy : Policy) (kind : slotKind).

Notation Error := (option HandoffError).

Definition checkHandle (h : handle) (directory : bool) (modes : list Z) : prog HCall Error :=
  info <~ HStat h;
  match info with
  | None => Ret (Some ErrUnavailable)
  | Some i =>
      if negb (st_uid i =? pl_CollectorUID policy) || negb (st_gid i =? pl_SharedGID policy) || st_special i
      then Ret (Some ErrUnsafe)
      else if negb (existsb (Z.eqb (st_perm i)) modes) then Ret (Some ErrUnsafe)
      else
        let kind_error :=
          if directory then (if st_dir i then None else Some ErrUnsafe)
          else if negb (st_regular i) then Some ErrUnsafe
          else if (st_nlink i =? 0)%nat then Some ErrUnavailable
          else if negb (st_nlink i =? 1)%nat then Some ErrUnsafe
          else None in
        match kind_error with
        | Some e => Ret (Some e)
        | None => clean <~ HAcl h directory; Ret (if clean : bool then None else Some ErrUnsafe)
        end
  end.

(** The modes an entry may have, and whether it must be empty. *)
Definition entry_ok (name : string) (i : fileInfo) : bool :=
  let mode := st_perm i in
  if str_eqb name latestName then mode =? 416
  else if str_eqb name stageName then (mode =? 384) || (mode =? 416)
  else if str_eqb name lockName then (mode =? 384) && (st_size i =? 0)
  else false.

Fixpoint checkEach (entries : list string) (total : Z) : prog HCall Error :=
  match entries with
  | [] => Ret (if 2 * maxBytes kind <? total then Some ErrUnsafe else None)
  | name :: rest =>
      info <~ HLstat name;
      match info with
      | Found i =>
          if negb (st_regular i) || negb (st_uid i =? pl_CollectorUID policy) || negb (st_gid i =? pl_SharedGID policy)
             || st_special i then Ret (Some ErrUnsafe)
          else if (st_nlink i =? 0)%nat then Ret (Some ErrUnavailable)
          else if negb (st_nlink i =? 1)%nat then Ret (Some ErrUnsafe)
          else if negb (entry_ok name i) then Ret (Some ErrUnsafe)
          else if (st_size i <? 0) || (maxBytes kind <? st_size i) then Ret (Some ErrUnsafe)
          else checkEach rest (total + st_size i)
      | _ => Ret (Some ErrUnavailable)
      end
  end.

Definition checkEntries (entries : list string) : prog HCall Error :=
  if (3 <? length entries)%nat then Ret (Some ErrUnsafe) else checkEach entries 0.

Definition checkDirectory : prog HCall Error :=
  e <- checkHandle HDirectory true [488];
  match e with
  | Some e => Ret (Some e)
  | None =>
      entries <~ HReadDir;
      match entries with
      | None => Ret (Some ErrUnavailable)
      | Some entries => checkEntries entries
      end
  end.

Definition same_file (i : fileInfo) (l : lookup_answer) : bool :=
  match l with Found j => (st_ino i =? st_ino j)%nat | _ => false end.

Definition openFile (name : string) (flags : openFlags) (limit : Z) (modes : list Z) :
    prog HCall (result HandoffError nat) :=
  before <~ HLstat name;
  let bad := match before with Found i => negb (st_regular i) | NotExist => false | LookupFailed => true end in
  if bad then Ret (Err ErrUnsafe)
  else
    opened <~ HOpen name flags;
    match opened with
    | OpenNotExist => Ret (Err ErrMissing)
    | OpenFailed => Ret (Err ErrUnavailable)
    | Opened f =>
        let fail e := _ <~ HClose f; Ret (Err e) in
        info <~ HStat (HFile f);
        after <~ HLstat name;
        match info, after with
        | Some info, Found _ =>
            if negb (same_file info after) then fail ErrUnavailable
            else if (st_size info <? 0) || (limit <? st_size info) then fail ErrUnsafe
            else
              e <- checkHandle (HFile f) false modes;
              match e with
              | None => Ret (Ok f)
              | Some e =>
                  current <~ HLstat name;
                  _ <~ HClose f;
                  Ret (Err (if bool_decide (e = ErrUnavailable)
                               || match current with
                                  | NotExist => true
                                  | Found _ => negb (same_file info current)
                                  | LookupFailed => false
                                  end
                            then ErrUnavailable else ErrUnsafe))
              end
        | _, _ => fail ErrUnavailable
        end
    end.

(** ** The writer *)

(** From the new staging file on; [closing] is the deferred [f.Close()], whose
    answer is dropped. *)
Definition fillStage (f : nat) (data : string) : prog HCall Error :=
  let closing e := _ <~ HClose f; Ret (Some e) in
  written <~ HWrite f data;
  let '(n, ok) := written in
  if negb ok || negb (n =? slen data) then closing ErrUnavailable
  else
    changed <~ HChmod f 416;
    if negb changed then closing ErrUnavailable
    else
      e <- checkHandle (HFile f) false [416];
      match e with
      | Some _ => closing ErrUnavailable
      | None =>
          synced <~ HSync f;
          if negb synced then closing ErrUnavailable
          else
            closed <~ HClose f;
            if negb closed then closing ErrUnavailable
            else
              old <- openFile latestName ReadOnly (maxBytes kind) [416];
              let replace :=
                e <- checkDirectory;
                match e with
                | Some e => closing e
                | None =>
                    replaced <~ HRename;
                    if negb replaced then closing ErrUnavailable
                    else
                      durable <~ HSyncDir;
                      if negb durable then closing ErrUnavailable
                      else _ <~ HClose f; Ret None
                end in
              match old with
              | Ok old => _ <~ HClose old; replace
              | Err ErrMissing => replace
              | Err e => closing e
              end
      end.

Definition publishData (data : string) : prog HCall Error :=
  if (slen data =? 0) || (maxBytes kind <? slen data) then Ret (Some ErrInvalid)
  else
    e <- checkDirectory;
    match e with
    | Some e => Ret (Some e)
    | None =>
        e <- checkHandle HLock false [384];
        match e with
        | Some e => Ret (Some e)
        | None =>
            staged <- openFile stageName ReadOnly (maxBytes kind) [384; 416];
            let create :=
              created <- openFile stageName CreateExclusive (maxBytes kind) [384];
              match created with
              | Err e => Ret (Some e)
              | Ok f => fillStage f data
              end in
            match staged with
            | Ok staged =>
                _ <~ HClose staged;
                removed <~ HRemove;
                if negb removed then Ret (Some ErrUnavailable) else create
            | Err ErrMissing => create
            | Err e => Ret (Some e)
            end
        end
    end.

(** [publish] of an open writer: [encoded] is what the projection made of the
    snapshot. *)
Definition publish (sourceID : string) (encoded : option string) : prog HCall Error :=
  ok <- identity policy true;
  if negb ok then Ret (Some ErrUnsafe)
  else if negb (str_eqb sourceID (pl_ServerID policy)) then Ret (Some ErrInvalid)
  else match encoded with
  | None => Ret (Some ErrInvalid)
  | Some data => publishData data
  end.

(** ** The reader *)

(** What the slot's kind accepts of a file, and what it hands on: the frame decoders
    and [remoteprojection.ValidateUpload], which belong to other packages. *)
Variable accept : string → option string.

Definition Read (expected : string) : prog HCall (result HandoffError string) :=
  expired <~ HCtxErr;
  if expired : bool then Ret (Err ErrUnavailable)
  else
    ok <- identity policy false;
    if negb ok then Ret (Err ErrUnsafe)
    else if negb (str_eqb expected (pl_ServerID policy)) then Ret (Err ErrInvalid)
    else
      e <- checkDirectory;
      match e with
      | Some e => Ret (Err e)
      | None =>
          opened <- openFile latestName ReadOnly (maxBytes kind) [416];
          match opened with
          | Err e => Ret (Err e)
          | Ok f =>
              let closing r := _ <~ HClose f; Ret r in
              data <~ HReadAll f (maxBytes kind + 1);
              match data with
              | None => closing (Err ErrUnavailable)
              | Some data =>
                  expired <~ HCtxErr;
                  if expired : bool then closing (Err ErrUnavailable)
                  else if maxBytes kind <? slen data then closing (Err ErrInvalid)
                  else match accept data with
                  | None => closing (Err ErrInvalid)
                  | Some data =>
                      e <- checkHandle (HFile f) false [416];
                      match e with
                      | Some e => closing (Err e)
                      | None =>
                          e <- checkDirectory;
                          match e with
                          | Some e => closing (Err e)
                          | None => closing (Ok data)
                          end
                      end
                  end
              end
          end
      end.
End slot.
