(* ===== verification/HandoffSafety.v ===== *)
(** * The handoff: whole snapshots only

    The writer's and the reader's system calls interleave, the writer can die between
    any two of its calls, directory entries reach the disk in any order, and a power
    failure keeps of the files only what was synced.  A reader is still only ever
    given a whole snapshot some publication wrote, and a publication that reported
    success survives. *)

From S2P Require Import Prelude GoText Effects SharedHandoff.

#[local] Open Scope string_scope.
#[local] Open Scope Z_scope.

(** ** Files *)

Record node := MkNode { nd_content : string; nd_synced : bool; nd_perm : Z }.

(** Files are numbered as they are created, and a number is not used again.
    [fs_past]: the directories the disk may still have, since the directory was last
    synced.  [fs_shown] remembers every file that was ever the latest one, as it was
    then.  [fs_live] is the abstract handoff: what the latest snapshot may be, [None]
    for none. *)
Record world := MkWorld {
  fs_nodes : gmap nat node; fs_dir : gmap string nat; fs_past : list (gmap string nat); fs_shown : gmap nat node;
  fs_live : list (option string) }.

Definition empty_world : world := MkWorld ∅ ∅ [] ∅ [None].

Definition set_node (w : world) (i : nat) (n : node) : world :=
  MkWorld (<[i := n]> (fs_nodes w)) (fs_dir w) (fs_past w) (fs_shown w) (fs_live w).
Definition set_dir (w : world) (d : gmap string nat) : world :=
  MkWorld (fs_nodes w) d (fs_dir w :: fs_past w) (fs_shown w) (fs_live w).
Definition set_live (w : world) (l : list (option string)) : world :=
  MkWorld (fs_nodes w) (fs_dir w) (fs_past w) (fs_shown w) l.
Definition created (w : world) (name : string) (i : nat) : world :=
  set_dir (set_node w i (MkNode "" false 384)) (<[name := i]> (fs_dir w)).
Definition show (w : world) (i : nat) : gmap nat node :=
  match fs_nodes w !! i with Some n => fs_shown w ∪ {[i := n]} | None => fs_shown w end.
Definition renamed (w : world) (i : nat) : world :=
  MkWorld (fs_nodes w) (<[latestName := i]> (delete stageName (fs_dir w))) (fs_dir w :: fs_past w) (show w i)
    (fs_live w).

Definition content (w : world) (i : nat) : string := match fs_nodes w !! i with Some n => nd_content n | None => "" end.

(** The writer's calls.  What is only looked at may be answered in any way; a write
    may be short, and a rename or a removal that reports failure may have happened. *)
Definition fs_env A (e : HCall A) : world → A → world → Prop :=
  match e in HCall T return world → T → world → Prop with
  | HOpen name CreateExclusive => λ w a w',
      match a with
      | Opened i => fs_dir w !! name = None ∧ fs_nodes w !! i = None ∧ fs_shown w !! i = None ∧ w' = created w name i
      | _ => w' = w
      end
  | HWrite i data => λ w a w', (a.2 = false ∧ w' = w) ∨ ∃ n k, fs_nodes w !! i = Some n
      ∧ (k ≤ String.length data)%nat ∧ a.1 = Z.of_nat k ∧ w' = set_node w i (MkNode (nd_content n ++ substring 0 k data) false (nd_perm n))
  | HChmod i mode => λ w ok w',
      w' = w ∨ ∃ n, fs_nodes w !! i = Some n ∧ w' = set_node w i (MkNode (nd_content n) false mode)
  | HSync i => λ w ok w',
      if ok : bool then ∃ n, fs_nodes w !! i = Some n ∧ w' = set_node w i (MkNode (nd_content n) true (nd_perm n))
      else w' = w
  | HRename => λ w ok w',
      (ok = false ∧ w' = w) ∨ ∃ i, fs_dir w !! stageName = Some i ∧ w' = renamed w i
  | HSyncDir => λ w ok w',
      w' = if ok : bool then MkWorld (fs_nodes w) (fs_dir w) [] (fs_shown w) (fs_live w) else w
  | HRemove => λ w ok w', (ok = false ∧ w' = w) ∨ w' = set_dir w (delete stageName (fs_dir w))
  | _ => λ w _ w', w' = w
  end.

(** ** The invariant *)

(** The latest snapshot of a directory satisfies [P]. *)
Definition latest (w : world) (P : option string → Prop) (d : gmap string nat) : Prop :=
  match d !! latestName with
  | None => P None
  | Some i => ∃ n, fs_shown w !! i = Some n ∧ P (Some (nd_content n))
  end.

(** A file that was ever shown is unchanged and synced; the latest snapshot, in the
    directory and in whatever the disk has, is one the abstract handoff allows. *)
Record good (w : world) : Prop := {
  gd_shown : ∀ i n, fs_shown w !! i = Some n → fs_nodes w !! i = Some n ∧ nd_synced n = true;
  gd_dirs : ∀ d, d ∈ fs_dir w :: fs_past w → latest w (λ s, s ∈ fs_live w) d }.

Definition latest_is (data : string) (w : world) : Prop :=
  ∀ d, d ∈ fs_dir w :: fs_past w → latest w (λ s, s = Some data) d.

Lemma latest_mono w w' (P Q : option string → Prop) d d' :
  fs_shown w ⊆ fs_shown w' → (∀ s, P s → Q s) → d' !! latestName = d !! latestName → latest w P d → latest w' Q d'.
Proof.
  intros Hs HPQ Hd. unfold latest. rewrite Hd. destruct (d !! latestName) as [i|]; [|by auto].
  intros (n & Hn & HP). exists n. split; [|by auto]. by eapply lookup_weaken.
Qed.

Lemma good_node w i n : good w → fs_shown w !! i = None → good (set_node w i n).
Proof.
  intros [H1 H2] Hi. split; simpl; [|done]. intros j m Hj. rewrite lookup_insert_ne by congruence. auto.
Qed.

Lemma good_dir w d : good w → d !! latestName = fs_dir w !! latestName → good (set_dir w d).
Proof.
  intros [H1 H2] Hd. split; simpl; [done|]. intros d' [->|Hd']%elem_of_cons; [|by apply H2].
  apply (latest_mono w _ (λ s, s ∈ fs_live w) _ (fs_dir w)); [done|done|done|]. apply H2, list_elem_of_here.
Qed.

Lemma show_grows w i : fs_shown w ⊆ show w i.
Proof. unfold show. destruct (_ !! _); [apply map_union_subseteq_l|done]. Qed.

Lemma show_lookup w i n : good w → fs_nodes w !! i = Some n → show w i !! i = Some n.
Proof.
  intros [H1 _] Hi. unfold show. rewrite Hi. destruct (fs_shown w !! i) as [m|] eqn:Hm.
  - destruct (H1 _ _ Hm) as [Hn _]. rewrite (lookup_union_Some_l _ _ _ _ Hm). congruence.
  - rewrite lookup_union_r by done. apply lookup_singleton_eq.
Qed.

Lemma renamed_latest w i n (P : option string → Prop) :
  good w → fs_nodes w !! i = Some n → P (Some (nd_content n)) → latest (renamed w i) P (fs_dir (renamed w i)).
Proof.
  intros Hw Hi HP. unfold latest. simpl. rewrite lookup_insert_eq. exists n. split; [by apply show_lookup|done].
Qed.

Lemma good_rename w i n :
  good w → fs_nodes w !! i = Some n → nd_synced n = true → Some (nd_content n) ∈ fs_live w → good (renamed w i).
Proof.
  intros Hw Hi Hs Hp. pose proof (renamed_latest w i n (λ s, s ∈ fs_live w) Hw Hi Hp) as Hl. destruct Hw as [H1 H2]. split.
  - intros j m. simpl. unfold show. rewrite Hi. rewrite lookup_union_Some_raw. intros [Hj|[_ Hj]]; [by apply H1|].
    apply lookup_singleton_Some in Hj as [<- <-]. done.
  - intros d [->|Hd]%elem_of_cons; [exact Hl|]. eapply latest_mono; [apply show_grows| |reflexivity|by apply H2]. done.
Qed.

(** ** The writer *)

(** Calls that leave the file system alone. *)
Definition calm A (e : HCall A) : Prop :=
  match e with
  | HOpen _ CreateExclusive | HWrite _ _ | HChmod _ _ | HSync _ | HRename | HSyncDir | HRemove => False
  | _ => True
  end.

Ltac calm_frame := walk_only ltac:(exact I).

Section handoff.
Variables (policy : Policy) (kind : slotKind).

Lemma checkHandle_calm h d modes : only calm (checkHandle policy h d modes).
Proof. unfold checkHandle. calm_frame. Qed.
Lemma checkEach_calm entries total : only calm (checkEach policy kind entries total).
Proof. revert total. induction entries as [|name rest IH]; intros total; simpl; calm_frame. Qed.
Lemma checkDirectory_calm : only calm (checkDirectory policy kind).
Proof.
  unfold checkDirectory, checkEntries. pose proof checkHandle_calm. pose proof checkEach_calm. calm_frame.
Qed.
Lemma openFile_calm name limit modes : only calm (openFile policy name ReadOnly limit modes).
Proof. unfold openFile. pose proof checkHandle_calm. calm_frame. Qed.
Lemma identity_calm writer : only calm (identity policy writer).
Proof. unfold identity. calm_frame. Qed.

Lemma calm_wpc {R T} (p : prog HCall R) (k : R → prog HCall T) Q w :
  only calm p → good w → (∀ r, wpc fs_env good (k r) Q w) → wpc fs_env good (bind p k) Q w.
Proof.
  intros Hp Hw Hk. apply wpc_bind. eapply wpc_mono; [| |apply (only_frame fs_env calm (λ w', w' = w) p w Hp)]; [by intros ? ->|by intros r ? ->| |done].
  intros A e u a u' Hc Hx ->. destruct e as [| |? [|]| | | | | | | | | | | |]; simpl in *; try done.
Qed.

Lemma calm_call {R A} (e : HCall A) (k : A → prog HCall R) Q w :
  calm A e → good w → (∀ a, wpc fs_env good (k a) Q w) → wpc fs_env good (Call e k) Q w.
Proof.
  intros Hc Hw Hk. apply wpc_call; [done|]. intros a w' Hx.
  assert (w' = w) as -> by (destruct e as [| |? [|]| | | | | | | | | | | |]; simpl in *; done). apply Hk.
Qed.

(** A new staging file, or an error that may have left one. *)
Lemma create_wpc {R} limit modes (k : result HandoffError nat → prog HCall R) Q w :
  good w →
  (∀ e w', good w' → fs_live w' = fs_live w → wpc fs_env good (k (Err e)) Q w') →
  (∀ f, fs_shown w !! f = None → wpc fs_env good (k (Ok f)) Q (created w stageName f)) →
  wpc fs_env good (bind (openFile policy stageName CreateExclusive limit modes) k) Q w.
Proof.
  intros Hw He Hk. unfold openFile. apply calm_call; [done|done|]. fold @bind. intros before. cbv zeta.
  destruct (match before with Found i => _ | _ => _ end); [by apply He|].
  apply wpc_call; [done|]. intros opened w1 X1. destruct opened as [f| |]; simpl in X1; [|subst w1; by apply He|subst w1; by apply He].
  destruct X1 as (Hd & Hn & Hs & ->).
  assert (good (created w stageName f)) as H1.
  { apply good_dir; [by apply good_node|]. simpl. by rewrite lookup_insert_ne. }
  assert (Hfail : ∀ e, wpc fs_env good (bind (Call (HClose f) (λ _, Ret (Err e))) k) Q (created w stageName f)).
  { intros e. apply calm_call; [done|done|]. intros _. by apply He. }
  apply calm_call; [done|done|]. intros info. apply calm_call; [done|done|]. intros after.
  destruct info as [info|]; [|apply Hfail]. destruct after as [j| |]; [|apply Hfail|apply Hfail].
  destruct (negb _); [apply Hfail|]. destruct (_ || _); [apply Hfail|].
  apply wpc_assoc, calm_wpc; [apply checkHandle_calm|done|]. intros [e|]; [|by apply Hk].
  apply calm_call; [done|done|]. intros current. apply calm_call; [done|done|]. intros _. by apply He.
Qed.

Definition done_or_not (data : string) (r : option HandoffError) (w : world) : Prop := r = None → latest_is data w.

Lemma error_wpc data e w : good w → wpc fs_env good (Ret (Some e)) (done_or_not data) w.
Proof. intros Hw. by apply wpc_ret. Qed.

Lemma closing_wpc data f e w : good w → wpc fs_env good (Call (HClose f) (λ _, Ret (Some e))) (done_or_not data) w.
Proof. intros Hw. apply calm_call; [done|done|]. intros _. by apply error_wpc. Qed.

(** The rename and what follows. *)
Lemma replace_wpc data f w n :
  good w → fs_dir w !! stageName = Some f → fs_nodes w !! f = Some n → nd_synced n = true → nd_content n = data →
  Some data ∈ fs_live w →
  wpc fs_env good (Call HRename (λ replaced, if negb replaced then Call (HClose f) (λ _, Ret (Some ErrUnavailable))
    else Call HSyncDir (λ durable, if negb durable then Call (HClose f) (λ _, Ret (Some ErrUnavailable))
      else Call (HClose f) (λ _, Ret None)))) (done_or_not data) w.
Proof.
  intros Hw Hd Hn Hs Hc Hp. apply wpc_call; [done|]. intros replaced w1 X1.
  assert (good w1 ∧ (replaced = true → w1 = renamed w f)) as [H1 Hr].
  { destruct X1 as [[-> ->]|(i & Hi & ->)]; [done|]. assert (i = f) as -> by congruence.
    split; [|done]. eapply good_rename; [done|done|done|by subst]. }
  destruct replaced; cbn [negb]; [|by apply closing_wpc]. specialize (Hr eq_refl). subst w1.
  apply wpc_call; [done|]. intros durable w2 ->. destruct durable; cbn [negb]; [|by apply closing_wpc].
  assert (latest_is data (MkWorld (fs_nodes (renamed w f)) (fs_dir (renamed w f)) [] (fs_shown (renamed w f)) (fs_live w)))
    as Hl.
  { intros d ->%list_elem_of_singleton. eapply (latest_mono (renamed w f)); [done|by intros s E; exact E|reflexivity|].
    apply (renamed_latest w f n); [done|done|by subst]. }
  assert (good (MkWorld (fs_nodes (renamed w f)) (fs_dir (renamed w f)) [] (fs_shown (renamed w f)) (fs_live w))) as H2.
  { split; [apply (gd_shown _ H1)|]. intros d ->%list_elem_of_singleton. apply (gd_dirs _ H1), list_elem_of_here. }
  apply calm_call; [done|exact H2|]. intros _. apply wpc_ret; [exact H2|]. intros _. exact Hl.
Qed.

Lemma append_whole (data : string) : ("" ++ substring 0 (String.length data) data)%string = data.
Proof. rewrite append_nil. by rewrite substring_prefix_0. Qed.

Lemma fillStage_wpc data f w :
  good w → fs_shown w !! f = None → Some data ∈ fs_live w →
  wpc fs_env good (fillStage policy kind f data) (done_or_not data) (created w stageName f).
Proof.
  intros Hw Hf Hp. unfold fillStage. set (w0 := created w stageName f).
  assert (G0 : good w0) by (apply good_dir; [by apply good_node|]; simpl; by rewrite lookup_insert_ne).
  assert (D0 : fs_dir w0 !! stageName = Some f) by apply lookup_insert_eq.
  assert (N0 : fs_nodes w0 !! f = Some (MkNode "" false 384)) by apply lookup_insert_eq.
  assert (P0 : Some data ∈ fs_live w0) by exact Hp. assert (S0 : fs_shown w0 !! f = None) by exact Hf.
  clearbody w0. clear w Hw Hf Hp.
  apply wpc_call; [done|]. intros [n ok] w1 [[[= ->] ->]|(m & k & Hm & Hk & Hn & ->)]; [by apply closing_wpc|].
  simpl in Hn. subst n.
  rewrite N0 in Hm. injection Hm as <-. cbn [nd_content nd_perm].
  assert (G1 : good (set_node w0 f (MkNode ("" ++ substring 0 k data) false 384))) by (by apply good_node).
  destruct (_ || _) eqn:Hbad; [by apply closing_wpc|]. bools. unfold slen in *. assert (k = String.length data) as -> by lia.
  rewrite append_whole in *.
  set (w1 := set_node w0 f _) in *. assert (N1 : fs_nodes w1 !! f = Some (MkNode data false 384)) by apply lookup_insert_eq.
  assert (D1 : fs_dir w1 !! stageName = Some f) by exact D0. assert (S1 : fs_shown w1 !! f = None) by exact S0.
  assert (P1 : Some data ∈ fs_live w1) by exact P0. clearbody w1. clear G0 D0 N0 P0 S0 Hk.
  apply wpc_call; [done|]. intros changed w2 X2.
  assert (good w2 ∧ fs_dir w2 !! stageName = Some f ∧ fs_shown w2 !! f = None ∧ Some data ∈ fs_live w2
    ∧ ∃ n, fs_nodes w2 !! f = Some n ∧ nd_content n = data) as (G2 & D2 & S2 & P2 & n & N2 & C2).
  { destruct X2 as [->|(n & Hn & ->)]; [by eauto 10|]. rewrite N1 in Hn. injection Hn as <-.
    split; [by apply good_node|]. split_and!; try done. eexists. split; [apply lookup_insert_eq|done]. }
  clear X2 G1 D1 S1 P1 N1. destruct changed; cbn [negb]; [|by apply closing_wpc].
  apply calm_wpc; [apply checkHandle_calm|done|]. intros [e|]; [by apply closing_wpc|].
  apply wpc_call; [done|]. intros synced w3 X3. destruct synced; cbn [negb]; [|by simpl in X3; subst; apply closing_wpc].
  destruct X3 as (n' & Hn' & ->). rewrite N2 in Hn'. injection Hn' as <-.
  set (w3 := set_node w2 f _). assert (G3 : good w3) by (by apply good_node).
  assert (N3 : fs_nodes w3 !! f = Some (MkNode (nd_content n) true (nd_perm n))) by apply lookup_insert_eq.
  assert (D3 : fs_dir w3 !! stageName = Some f) by exact D2. assert (P3 : Some data ∈ fs_live w3) by exact P2. clearbody w3.
  apply calm_call; [done|done|]. intros closed. destruct closed; cbn [negb]; [|by apply closing_wpc].
  apply calm_wpc; [apply openFile_calm|done|]. intros old. cbv zeta.
  assert (Hreplace : wpc fs_env good (bind (checkDirectory policy kind) (λ e, match e with
    | Some e => Call (HClose f) (λ _, Ret (Some e))
    | None => Call HRename (λ replaced, if negb replaced then Call (HClose f) (λ _, Ret (Some ErrUnavailable))
        else Call HSyncDir (λ durable, if negb durable then Call (HClose f) (λ _, Ret (Some ErrUnavailable))
          else Call (HClose f) (λ _, Ret None))) end)) (done_or_not data) w3).
  { apply calm_wpc; [apply checkDirectory_calm|done|]. intros [e|]; [by apply closing_wpc|].
    eapply replace_wpc; [done|done|exact N3|done|exact C2|exact P3]. }
  destruct old as [o|[]]; try exact Hreplace; try (by apply closing_wpc).
  apply calm_call; [done|done|]. intros _. exact Hreplace.
Qed.

Lemma publishData_wpc data w :
  good w → Some data ∈ fs_live w → wpc fs_env good (publishData policy kind data) (done_or_not data) w.
Proof.
  intros Hw Hp. unfold publishData. destruct (_ || _); [by apply error_wpc|].
  apply calm_wpc; [apply checkDirectory_calm|done|]. intros [e|]; [by apply error_wpc|].
  apply calm_wpc; [apply checkHandle_calm|done|]. intros [e|]; [by apply error_wpc|].
  apply calm_wpc; [apply openFile_calm|done|]. intros staged. cbv zeta.
  assert (Hcreate : ∀ w', good w' → fs_live w' = fs_live w → wpc fs_env good
    (bind (openFile policy stageName CreateExclusive (maxBytes kind) [384]) (λ created, match created with
      | Err e => Ret (Some e) | Ok f => fillStage policy kind f data end)) (done_or_not data) w').
  { intros w' Hw' He. apply create_wpc; [done|intros e w1 H1 _; by apply error_wpc|]. intros f Hf.
    apply fillStage_wpc; [done|done|by rewrite He]. }
  destruct staged as [f|[]]; try (by apply error_wpc); [|by apply Hcreate].
  apply calm_call; [done|done|]. intros _. apply wpc_call; [done|]. intros removed w1 X1.
  assert (good w1 ∧ fs_live w1 = fs_live w) as [H1 P1].
  { destruct X1 as [[_ ->]| ->]; [done|]. split; [|done]. apply good_dir; [done|]. by rewrite lookup_delete_ne. }
  destruct removed; cbn [negb]; [by apply Hcreate|by apply error_wpc].
Qed.

(** ** The running system *)

(** One writer at a time holds the lock; with what it publishes. *)
Definition conf : Type := option (string * prog HCall (option HandoffError)) * world.

Definition power_failure (w w' : world) : Prop :=
  (∀ i n, fs_nodes w !! i = Some n → nd_synced n = true → fs_nodes w' !! i = Some n)
  ∧ (∀ name, ∃ d, d ∈ fs_dir w :: fs_past w ∧ fs_dir w' !! name = d !! name)
  ∧ fs_past w' = [] ∧ fs_shown w' = fs_shown w ∧ fs_live w' = fs_live w.

(** A step, and the publication it begins. *)
Inductive hstep : conf → list string → conf → Prop :=
| hs_begin data w : hstep (None, w) [data] (Some (data, publishData policy kind data), set_live w (Some data :: fs_live w))
| hs_call data A (e : HCall A) k w a w' : fs_env A e w a w' → hstep (Some (data, Call e k), w) [] (Some (data, k a), w')
| hs_done data w : hstep (Some (data, Ret None), w) [] (None, set_live w [Some data])
| hs_error data e w : hstep (Some (data, Ret (Some e)), w) [] (None, w)
| hs_die c w : hstep (c, w) [] (None, w)
| hs_power c w w' : power_failure w w' → hstep (c, w) [] (None, w').

Inductive hsteps : conf → list string → conf → Prop :=
| hsteps_refl c : hsteps c [] c
| hsteps_cons c l c' l' c'' : hstep c l c' → hsteps c' l' c'' → hsteps c (l ++ l') c''.

Lemma hsteps_app c l c' l' c'' : hsteps c l c' → hsteps c' l' c'' → hsteps c (l ++ l') c''.
Proof.
  induction 1 as [|c l1 c1 l2 c2 H1 _ IH]; [done|]. intros H. rewrite <- (assoc_L (++)). econstructor; eauto.
Qed.

Definition conf_ok (c : conf) : Prop :=
  good c.2 ∧ match c.1 with
  | None => True
  | Some (data, p) => Some data ∈ fs_live c.2 ∧ wpc fs_env good p (done_or_not data) c.2
  end.

Lemma good_live w l : good w → (∀ s, s ∈ fs_live w → s ∈ l) → good (set_live w l).
Proof.
  intros [H1 H2] Hl. split; [done|]. intros d Hd. eapply latest_mono; [|exact Hl|done|by apply H2]. done.
Qed.

Lemma latest_good data w : good w → latest_is data w → good (set_live w [Some data]).
Proof.
  intros [H1 H2] Hl. split; [done|]. intros d Hd. eapply latest_mono; [| |done|by apply Hl]; [done|].
  intros s ->. apply list_elem_of_here.
Qed.

Lemma good_power w w' : good w → power_failure w w' → good w'.
Proof.
  intros [H1 H2] (Hn & Hd & Hp & Hs & Hl). split.
  - rewrite Hs. intros i n Hi. destruct (H1 i n Hi) as [Hk Hy]. auto.
  - rewrite Hp, Hl. intros d ->%list_elem_of_singleton. destruct (Hd latestName) as (d' & Hd' & Heq).
    apply (latest_mono w w' (λ s, s ∈ fs_live w) _ d'); [by rewrite Hs|done|exact Heq|by apply H2].
Qed.

(** Calls only add to what was shown, and do not touch the abstract handoff. *)
Lemma env_shown A (e : HCall A) w a w' : fs_env A e w a w' → fs_shown w ⊆ fs_shown w' ∧ fs_live w' = fs_live w.
Proof.
  destruct e as [| |name [|]| | | |i data|i mode|i| | | | | |]; simpl; intros H; try (by subst).
  - destruct a; [|by subst|by subst]. by destruct H as (_ & _ & _ & ->).
  - by destruct H as [[_ ->]|(n & k & _ & _ & _ & ->)].
  - by destruct H as [->|(n & _ & ->)].
  - destruct a; [|by subst]. by destruct H as (n & _ & ->).
  - destruct H as [[_ ->]|(i & _ & ->)]; [done|]. split; [apply show_grows|done].
  - destruct a; by subst.
  - by destruct H as [[_ ->]| ->].
Qed.

Lemma hstep_ok c l c' : hstep c l c' → conf_ok c → conf_ok c'.
Proof.
  intros Hs [Hg Hc]. destruct Hs as [data w|data A e k w a w' H|data w|data e w|c w|c w w' H]; simpl in *.
  - assert (good (set_live w (Some data :: fs_live w))) as H1 by (apply good_live; [done|]; intros s; apply list_elem_of_further).
    split; [done|]. split; [apply list_elem_of_here|]. apply publishData_wpc; [done|apply list_elem_of_here].
  - destruct Hc as [Hd [_ Hk]]. specialize (Hk a w' H). split; [by eapply wpc_here|]. split; [|done].
    simpl. by destruct (env_shown _ _ _ _ _ H) as [_ ->].
  - destruct Hc as [Hd [_ Hq]]. split; [|done]. apply latest_good; [done|]. exact (Hq eq_refl).
  - done.
  - done.
  - split; [|done]. by eapply good_power.
Qed.

Lemma hstep_live c l c' : hstep c l c' → conf_ok c →
  fs_shown c.2 ⊆ fs_shown c'.2 ∧ ∀ s, s ∈ fs_live c'.2 → s ∈ fs_live c.2 ∨ ∃ d, s = Some d ∧ d ∈ l.
Proof.
  intros Hs [_ Hc]. destruct Hs as [data w|data A e k w a w' H|data w|data e w|c w|c w w' H]; simpl in *; auto.
  - split; [done|]. intros s [->|Hin]%elem_of_cons; [|by left]. right. eexists. split; [done|apply list_elem_of_here].
  - destruct (env_shown _ _ _ _ _ H) as [Hsub ->]. auto.
  - split; [done|]. intros s ->%list_elem_of_singleton. left. apply Hc.
  - destruct H as (_ & _ & _ & -> & ->). auto.
Qed.

Lemma hsteps_ok c l c' : hsteps c l c' → conf_ok c →
  conf_ok c' ∧ fs_shown c.2 ⊆ fs_shown c'.2 ∧ ∀ s, s ∈ fs_live c'.2 → s ∈ fs_live c.2 ∨ ∃ d, s = Some d ∧ d ∈ l.
Proof.
  induction 1 as [c|c l c1 l' c2 H1 _ IH]; intros Hc; [by auto|].
  destruct (hstep_live _ _ _ H1 Hc) as [S1 L1]. destruct (IH (hstep_ok _ _ _ H1 Hc)) as (K2 & S2 & L2).
  split; [done|]. split; [by etrans|]. intros s Hs. destruct (L2 s Hs) as [Hin|(d & -> & Hd)].
  - destruct (L1 s Hin) as [?|(d & -> & Hd)]; [by left|]. right. exists d. split; [done|]. by apply elem_of_app; left.
  - right. exists d. split; [done|]. by apply elem_of_app; right.
Qed.

Definition start : conf := (None, empty_world).

Lemma start_ok : conf_ok start.
Proof.
  split; [|done]. split; simpl; [by intros i n; rewrite lookup_empty|]. intros d ->%list_elem_of_singleton.
  unfold latest. rewrite lookup_empty. apply list_elem_of_here.
Qed.

(** ** The reader *)

Variable accept : string → option string.

(** Any steps of the others come before a call of the reader's.  What it opens is the
    file the name has at that time, and it reads that file from its start. *)
Definition read_env A (e : HCall A) (c : conf) (a : A) (c' : conf) : Prop :=
  (∃ l, hsteps c l c') ∧
  match e in HCall T return T → Prop with
  | HOpen name ReadOnly => λ a, match a with Opened i => fs_dir c'.2 !! name = Some i | _ => True end
  | HReadAll i limit => λ a, match a with Some s => s = substring 0 (Z.to_nat limit) (content c'.2 i) | None => True end
  | _ => λ _, True
  end a.

Definition stable (J : conf → Prop) : Prop := ∀ c l c', J c → hsteps c l c' → J c'.

Lemma stable_call {R A} J (e : HCall A) (k : A → prog HCall R) Q c :
  stable J → J c → (∀ a c', J c' → wp read_env (k a) Q c') → wp read_env (Call e k) Q c.
Proof. intros HJ Hc Hk. apply wpc_call; [done|]. intros a c' [(l & Hl) _]. apply Hk. by eapply HJ. Qed.

Lemma stable_bind {R T} J (p : prog HCall R) (k : R → prog HCall T) Q c :
  stable J → J c → (∀ r c', J c' → wp read_env (k r) Q c') → wp read_env (bind p k) Q c.
Proof.
  intros HJ. revert c. induction p as [r|A e f IH]; intros c Hc Hk; [by apply Hk|].
  apply (stable_call J); [done|done|]. intros a c' Hc'. by apply IH.
Qed.

Section reading.
Variable c0 : conf.
Hypothesis Hok : conf_ok c0.

Definition later (c : conf) : Prop := ∃ l, hsteps c0 l c.

(** File [i] was the latest one at some time since [c0], with a snapshot the handoff
    allowed then. *)
Definition holding (i : nat) (n : node) (c : conf) : Prop :=
  fs_shown c.2 !! i = Some n ∧ good c.2 ∧ ∃ l m l', hsteps c0 l m ∧ hsteps m l' c ∧ Some (nd_content n) ∈ fs_live m.2.

Lemma later_stable : stable later.
Proof. intros c l c' (l0 & H0) H. eexists. by eapply hsteps_app. Qed.

Lemma later_ok c : later c → conf_ok c.
Proof. intros (l & H). by destruct (hsteps_ok _ _ _ H Hok). Qed.

Lemma holding_stable i n : stable (holding i n).
Proof.
  intros c l c' (Hs & _ & l1 & m & l2 & H1 & H2 & Hl) H.
  assert (conf_ok c) as Hc by (apply later_ok; eexists; by eapply hsteps_app).
  destruct (hsteps_ok _ _ _ H Hc) as (Hc' & Hsub & _). split; [by eapply lookup_weaken|]. split; [apply Hc'|].
  exists l1, m, (l2 ++ l)%list. split_and!; [done|by eapply hsteps_app|done].
Qed.

Lemma opened_holding c i : later c → fs_dir c.2 !! latestName = Some i → ∃ n, holding i n c.
Proof.
  intros Hl Hd. destruct (later_ok c Hl) as [Hg _]. pose proof (gd_dirs _ Hg (fs_dir c.2) (list_elem_of_here _ _)) as HL.
  unfold latest in HL. rewrite Hd in HL. destruct HL as (n & Hn & Hin). exists n. split; [done|]. split; [done|].
  destruct Hl as (l & Hl). exists l, c, []. split_and!; [done|constructor|done].
Qed.

Lemma openLatest_wp {R} limit modes (k : result HandoffError nat → prog HCall R) Q c :
  later c → (∀ e c', wp read_env (k (Err e)) Q c') → (∀ i n c', holding i n c' → wp read_env (k (Ok i)) Q c') →
  wp read_env (bind (openFile policy latestName ReadOnly limit modes) k) Q c.
Proof.
  intros Hc He Hk. unfold openFile. apply (stable_call later); [apply later_stable|done|]. fold @bind.
  intros before c1 H1. cbv zeta. destruct (match before with Found i => _ | _ => _ end); [by apply He|].
  apply wpc_call; [done|]. intros opened c2 [(l & Hl) Hd]. destruct opened as [i| |]; [|apply He|apply He].
  destruct (opened_holding c2 i (later_stable _ _ _ H1 Hl) Hd) as [n Hn]. pose proof (holding_stable i n) as HJ.
  assert (Hfail : ∀ e c', holding i n c' → wp read_env (bind (Call (HClose i) (λ _, Ret (Err e))) k) Q c').
  { intros e c' H'. apply (stable_call (holding i n)); [done|done|]. intros _ c'' _. by apply He. }
  apply (stable_call (holding i n)); [done|done|]. intros info c3 H3.
  apply (stable_call (holding i n)); [done|done|]. intros after c4 H4.
  destruct info as [info|]; [|by apply Hfail]. destruct after as [j| |]; [|by apply Hfail|by apply Hfail].
  destruct (negb _); [by apply Hfail|]. destruct (_ || _); [by apply Hfail|].
  apply wpc_assoc, (stable_bind (holding i n)); [done|done|]. intros [e|] c5 H5; [|by eapply Hk].
  apply (stable_call (holding i n)); [done|done|]. intros current c6 H6.
  apply (stable_call (holding i n)); [done|done|]. intros _ c7 H7. by apply He.
Qed.

(** What [Read] hands on is what the slot's kind makes of a whole snapshot. *)
Definition whole (r : result HandoffError string) (c : conf) : Prop :=
  ∀ out, r = Ok out →
    ∃ d l m l', hsteps c0 l m ∧ hsteps m l' c ∧ Some d ∈ fs_live m.2 ∧ accept d = Some out.

Lemma holding_read i n c limit s :
  0 ≤ limit → holding i n c → s = substring 0 (Z.to_nat (limit + 1)) (content c.2 i) → slen s ≤ limit → s = nd_content n.
Proof.
  intros H0 (Hs & Hg & _) -> Hlen. destruct (gd_shown _ Hg i n Hs) as [Hn _]. unfold content in *. rewrite Hn in *.
  unfold slen in *. rewrite length_substring_0 in Hlen. apply substring_prefix_0. lia.
Qed.

Lemma Read_wp expected : wp read_env (Read policy kind accept expected) whole c0.
Proof.
  assert (Hc0 : later c0) by (exists []; constructor). pose proof later_stable as HL.
  assert (Herr : ∀ e c, wp read_env (Ret (Err e)) whole c) by (intros e c; by apply wpc_ret).
  unfold Read. apply (stable_call later); [done|done|]. intros expired c1 H1. destruct expired; [apply Herr|].
  apply (stable_bind later); [done|done|]. intros ok c2 H2. destruct (negb ok); [apply Herr|].
  destruct (negb _); [apply Herr|]. apply (stable_bind later); [done|done|]. intros [e|] c3 H3; [apply Herr|].
  apply openLatest_wp; [done|apply Herr|]. clear c1 H1 c2 H2 c3 H3. intros i n c H. cbv zeta.
  pose proof (holding_stable i n) as HJ.
  assert (Hclose : ∀ r c', holding i n c' → (∀ c'', holding i n c'' → whole r c'') →
    wp read_env (Call (HClose i) (λ _, Ret r)) whole c').
  { intros r c' H' Hr. apply (stable_call (holding i n)); [done|done|]. intros _ c'' H''. apply wpc_ret; auto. }
  apply wpc_call; [done|]. intros data c1 [(l & Hl) Hd]. pose proof (HJ _ _ _ H Hl) as H1.
  destruct data as [data|]; [|by apply Hclose].
  apply (stable_call (holding i n)); [done|done|]. intros expired' c2 H2. destruct expired'; [by apply Hclose|].
  destruct (_ <? _) eqn:Hlen; [by apply Hclose|]. apply Z.ltb_ge in Hlen.
  assert (data = nd_content n) as ->.
  { eapply (holding_read i n c1 (maxBytes kind)); [by destruct kind|done|done|done]. }
  destruct (accept (nd_content n)) as [out|] eqn:Ha; [|by apply Hclose].
  apply (stable_bind (holding i n)); [done|done|]. intros [e|] c3 H3; [by apply Hclose|].
  apply (stable_bind (holding i n)); [done|done|]. intros [e|] c4 H4; [by apply Hclose|].
  apply Hclose; [done|]. intros c5 (_ & _ & l1 & m & l2 & M1 & M2 & Hin) out' [= <-]. eauto 10.
Qed.
End reading.

(** A run of a routine against a handler is a run of the system. *)
Lemma exec_hsteps data p w p' w' : exec fs_env p w p' w' → hsteps (Some (data, p), w) [] (Some (data, p'), w').
Proof.
  induction 1 as [p w|A e k w a w' p'' w'' He _ IH]; [constructor|]. apply (hsteps_cons _ [] _ [] _ (hs_call _ _ _ _ _ _ _ He) IH).
Qed.

Lemma publish_hsteps data h :
  (∀ A (e : HCall A) u, fs_env A e u (h A e u).1 (h A e u).2) →
  let '(r, w) := run h (publishData policy kind data) (set_live empty_world [Some data; None]) in
  hsteps start [data] (Some (data, Ret r), w).
Proof.
  intros Hh. pose proof (run_exec fs_env h (publishData policy kind data) (set_live empty_world [Some data; None]) Hh) as Hx.
  destruct (run h _ _) as [r w]. apply (hsteps_cons _ [data] _ [] _ (hs_begin data empty_world)). by apply exec_hsteps.
Qed.

(** C16: a reader never sees a partial or mixed snapshot.  After any run of the writer,
    with any of its calls failing, deaths and power failures, and with more of them
    between the reader's own calls, whatever [Read] returns is what the slot's kind
    accepted of one whole snapshot whose publication had begun. *)
Theorem handoff_reads_whole l c expected : hsteps start l c →
  wp read_env (Read policy kind accept expected)
    (λ r c', ∀ out, r = Ok out → ∃ d l', hsteps c l' c' ∧ d ∈ (l ++ l')%list ∧ accept d = Some out) c.
Proof.
  intros Hl. destruct (hsteps_ok _ _ _ Hl start_ok) as (Hc & _ & L1). eapply wp_mono; [|by apply Read_wp].
  intros r c' Hr out ->. destruct (Hr out eq_refl) as (d & l1 & m & l2 & M1 & M2 & Hin & Ha).
  exists d, (l1 ++ l2)%list. split; [by eapply hsteps_app|]. split; [|done]. rewrite !elem_of_app.
  destruct (hsteps_ok _ _ _ M1 Hc) as (_ & _ & L2). destruct (L2 _ Hin) as [Hin1|(d1 & [= <-] & Hd)]; [|by auto].
  destruct (L1 _ Hin1) as [[=]%list_elem_of_singleton|(d1 & [= <-] & Hd)]. auto.
Qed.

(** C15: a publication that reported success is durable and is not lost to a later one
    that fails.  However the run goes on, and whatever power failures it has, the
    latest file exists and holds, whole, that snapshot or one whose publication began
    later; and a reader that starts then is given one of these. *)
Theorem publication_survives l data w l' c expected :
  hsteps start l (Some (data, Ret None), w) → hsteps (None, set_live w [Some data]) l' c →
  (∃ i n, fs_dir c.2 !! latestName = Some i ∧ fs_nodes c.2 !! i = Some n ∧ nd_content n ∈ data :: l') ∧
  wp read_env (Read policy kind accept expected)
    (λ r c', ∀ out, r = Ok out → ∃ d l'', hsteps c l'' c' ∧ d ∈ data :: (l' ++ l'')%list ∧ accept d = Some out) c.
Proof.
  intros H1 H2. destruct (hsteps_ok _ _ _ H1 start_ok) as (Hc1 & _ & _).
  destruct (hsteps_ok _ _ _ H2 (hstep_ok _ _ _ (hs_done data w) Hc1)) as (Hc & _ & L). split.
  - destruct Hc as [Hg _]. pose proof (gd_dirs _ Hg (fs_dir c.2) (list_elem_of_here _ _)) as HL. unfold latest in HL.
    destruct (fs_dir c.2 !! latestName) as [i|] eqn:Hi.
    + destruct HL as (n & Hn & Hin). exists i, n. split; [done|]. split; [by apply (gd_shown _ Hg)|].
      destruct (L _ Hin) as [[= ->]%list_elem_of_singleton|(d & [= <-] & Hd)]; [apply list_elem_of_here|].
      by apply list_elem_of_further.
    + by destruct (L _ HL) as [[=]%list_elem_of_singleton|(d & [=] & _)].
  - eapply wp_mono; [|by apply Read_wp]. intros r c' Hr out ->.
    destruct (Hr out eq_refl) as (d & l1 & m & l2 & M1 & M2 & Hin & Ha).
    exists d, (l1 ++ l2)%list. split; [by eapply hsteps_app|]. split; [|done]. rewrite elem_of_cons, !elem_of_app.
    destruct (hsteps_ok _ _ _ M1 Hc) as (_ & _ & L2). destruct (L2 _ Hin) as [Hin1|(d1 & [= <-] & Hd)]; [|by auto].
    destruct (L _ Hin1) as [[= ->]%list_elem_of_singleton|(d1 & [= <-] & Hd)]; auto.
Qed.
End handoff.

(** ** A working file system *)

Section serve.
Variable policy : Policy.

Definition info_of (w : world) (i : nat) (n : node) : fileInfo :=
  MkInfo i true false (nd_perm n) false (pl_CollectorUID policy) (pl_SharedGID policy) 1 (slen (nd_content n)).

Definition look (w : world) (name : string) : option (nat * node) :=
  match fs_dir w !! name with
  | Some i => match fs_nodes w !! i with Some n => Some (i, n) | None => None end
  | None => None
  end.

Definition serve A (e : HCall A) : world → A * world :=
  match e in HCall T return world → T * world with
  | HCredentials => λ w, (MkCredentials (pl_UploaderUID policy, pl_UploaderUID policy, pl_UploaderUID policy)
      (pl_SharedGID policy, pl_SharedGID policy, pl_SharedGID policy) (Some false) (Some []), w)
  | HLstat name => λ w, (match look w name with Some (i, n) => Found (info_of w i n) | None => NotExist end, w)
  | HOpen name ReadOnly => λ w, (match look w name with Some (i, _) => Opened i | None => OpenNotExist end, w)
  | HOpen name CreateExclusive => λ w,
      let i := size (fs_nodes w) in
      match fs_dir w !! name, fs_nodes w !! i, fs_shown w !! i with
      | None, None, None => (Opened i, created w name i)
      | _, _, _ => (OpenFailed, w)
      end
  | HStat (HFile i) => λ w, (match fs_nodes w !! i with Some n => Some (info_of w i n) | None => None end, w)
  | HStat HDirectory => λ w, (Some (MkInfo 0 false true 488 false (pl_CollectorUID policy) (pl_SharedGID policy) 2 0), w)
  | HStat HLock => λ w, (Some (MkInfo 0 true false 384 false (pl_CollectorUID policy) (pl_SharedGID policy) 1 0), w)
  | HReadDir => λ w, (Some (map fst (map_to_list (fs_dir w))), w)
  | HWrite i data => λ w, match fs_nodes w !! i with
      | Some n => ((slen data, true), set_node w i (MkNode (nd_content n ++ substring 0 (String.length data) data) false (nd_perm n)))
      | None => ((0, false), w)
      end
  | HChmod i mode => λ w, match fs_nodes w !! i with
      | Some n => (true, set_node w i (MkNode (nd_content n) false mode))
      | None => (false, w)
      end
  | HSync i => λ w, match fs_nodes w !! i with
      | Some n => (true, set_node w i (MkNode (nd_content n) true (nd_perm n)))
      | None => (false, w)
      end
  | HRename => λ w, match fs_dir w !! stageName with Some i => (true, renamed w i) | None => (false, w) end
  | HSyncDir => λ w, (true, MkWorld (fs_nodes w) (fs_dir w) [] (fs_shown w) (fs_live w))
  | HRemove => λ w, (true, set_dir w (delete stageName (fs_dir w)))
  | HReadAll i limit => λ w, (Some (substring 0 (Z.to_nat limit) (content w i)), w)
  | HCtxErr => λ w, (false, w)
  | HAcl _ _ => λ w, (true, w)
  | HClose _ => λ w, (true, w)
  end.

Lemma serve_env A (e : HCall A) u : fs_env A e u (serve A e u).1 (serve A e u).2.
Proof.
  destruct e as [|name|name [|]|[]| | |i data|i mode|i| | | | | |]; simpl; try done.
  - destruct (fs_dir u !! name) eqn:E1; [done|]. destruct (fs_nodes u !! _) eqn:E2; [done|].
    destruct (fs_shown u !! _) eqn:E3; done.
  - destruct (fs_nodes u !! i) as [n|]; [|by left]. right. exists n, (String.length data). by split_and!.
  - destruct (fs_nodes u !! i) as [n|]; [|by left]. right. by exists n.
  - destruct (fs_nodes u !! i) as [n|]; [|done]. by exists n.
  - destruct (fs_dir u !! stageName) as [i|]; [|by left]. right. by exists i.
  - by right.
Qed.
End serve.

Definition policy0 : Policy := MkPolicy 1000 1001 1002 "srv_0123456789abcdef0123456789abcdef".
Definition published0 : option HandoffError * world :=
  run (serve policy0) (publishData policy0 Numeric "snapshot") (set_live empty_world [Some "snapshot"; None]).

Lemma published0_run : published0.1 = None ∧ hsteps policy0 Numeric start ["snapshot"] (Some ("snapshot", Ret None), published0.2).
Proof.
  assert (published0.1 = None) as E by (vm_compute; reflexivity). split; [done|].
  pose proof (publish_hsteps policy0 Numeric "snapshot" (serve policy0) (serve_env policy0)) as H.
  fold published0 in H. destruct published0 as [r w]. simpl in E. by subst r.
Qed.

(** A snapshot is published and read back. *)
Lemma handoff_reads_whole_witness :
  run (serve policy0) (Read policy0 Numeric Some (pl_ServerID policy0)) published0.2 = (Ok "snapshot", published0.2) ∧
  wp (read_env policy0 Numeric) (Read policy0 Numeric Some (pl_ServerID policy0))
    (λ r c', ∀ out, r = Ok out → ∃ d l', hsteps policy0 Numeric (Some ("snapshot", Ret None), published0.2) l' c'
      ∧ d ∈ (["snapshot"] ++ l')%list ∧ Some d = Some out) (Some ("snapshot", Ret None), published0.2).
Proof.
  split; [vm_compute; reflexivity|]. apply (handoff_reads_whole policy0 Numeric Some). apply published0_run.
Defined.

(** After a power failure the published snapshot is still the latest one. *)
Definition surviving (w : world) : world := MkWorld (fs_nodes w) (fs_dir w) [] (fs_shown w) (fs_live w).

Lemma surviving_power w : power_failure w (surviving w).
Proof. split_and!; try done. intros name. exists (fs_dir w). split; [apply list_elem_of_here|done]. Qed.

Definition after_power : conf := (None, surviving (set_live published0.2 [Some "snapshot"])).

Lemma publication_survives_witness :
  (∃ i n, fs_dir after_power.2 !! latestName = Some i ∧ fs_nodes after_power.2 !! i = Some n ∧ nd_content n ∈ ["snapshot"]) ∧
  wp (read_env policy0 Numeric) (Read policy0 Numeric Some (pl_ServerID policy0))
    (λ r c', ∀ out, r = Ok out → ∃ d l'', hsteps policy0 Numeric after_power l'' c' ∧ d ∈ "snapshot" :: ([] ++ l'')%list
      ∧ Some d = Some out) after_power.
Proof.
  apply (publication_survives policy0 Numeric Some ["snapshot"] "snapshot" published0.2 []); [apply published0_run|].
  apply (hsteps_cons policy0 Numeric _ [] after_power [] after_power); [|constructor].
  apply hs_power, surviving_power.
Defined.
