(* ===== verification/Background.v ===== *)
(** * The background profile of one user ([internal/background])

    The controller that registers the observer with the user's service manager and
    starts, stops and removes it.  Its state is a directory below the install root: a
    marker, the settings, the registration template and, while it is being disabled,
    a disabling file.  Operations are serialized by a guard directory and a lock.

    The controller is a program over system calls and the platform adapter's
    operations, on Unix ([rejectReparse] and [validatePlatformPath] accept
    everything there). *)

From S2P Require Import Prelude GoText Effects.

#[local] Open Scope string_scope.
#[local] Open Scope Z_scope.

(** ** Data *)

Inductive State := StateManagerUnavailable | StateNotRegistered | StateRegisteredStopped | StateRunning
| StateUnreachable | StateNotReady.
Inductive Readiness := ReadinessUnknown | ReadinessReady | ReadinessNotReady | ReadinessUnreachable.
Inductive DiagnosticsAvailability := DiagnosticsUnknown | DiagnosticsAvailable | DiagnosticsUnavailable | DiagnosticsDisabled.
Inductive Code := CodeOK | CodeManagerUnavailable | CodeNotRegistered | CodeStopped | CodeUnreachable | CodeNotReady
| CodeReadinessUnknown | CodeInvalidSettings | CodeUnsafeManagedState | CodeRegistrationMismatch | CodeOperationActive
| CodeGracefulStopFailed | CodeManagerOperationFailed.

Record Settings := MkSettings {
  se_StateDir : string; se_ListenAddress : string; se_DockerEndpoint : string; se_LogSources : list string }.

#[global] Instance Settings_eq_dec : EqDecision Settings.
Proof. solve_decision. Defined.

Record registration := MkRegistration { rg_fileName : string; rg_content : string }.
Record managerState := MkManagerState { ms_available : bool; ms_registered : bool; ms_running : bool }.
Record ProbeStatus := MkProbeStatus { pb_Readiness : Readiness; pb_Diagnostics : DiagnosticsAvailability }.
(** Scope and session limitation are constants. *)
Record Status := MkStatus {
  st_State : State; st_Code : Code; st_Readiness : Readiness; st_Diagnostics : DiagnosticsAvailability;
  st_Registered : bool; st_Running : bool }.

(** A coded error, or one of the adapter's own. *)
Inductive berror := Coded (c : Code) | Uncoded.
(** What the operations return: the zero [Status] is [None]. *)
Definition outcome : Type := option Status * option berror.

Definition markerFile : string := ".managed".
Definition settingsFile : string := "settings.json".
Definition lockDirectory : string := ".operation-lock".
Definition disablingFile : string := ".disabling".
Definition guardOwner : string := ".background-owner".
Definition newline : string := String (Ascii.ascii_of_N 10) EmptyString.
Definition guardOwnerMarker : string := "home-lab-observer-background-install-guard-v1" ++ newline.
Definition managedRootMarker : string := "home-lab-observer-managed-v1".
Definition backgroundMarker : string := "home-lab-observer-background-v1".
Definition markerText : string := backgroundMarker ++ newline.
Definition maxSettingsBytes : Z := 16384.
Definition maxRegistrationBytes : Z := 65536.

(** The paths of the package: the guard directory and its owner file, the background
    directory and its entries, two files of the install root, and any other path. *)
Inductive path := Guard | GuardOwner | BackgroundDir | Entry (name : string) | RootMarker | Launcher | Abs (p : string).

#[global] Instance path_eq_dec : EqDecision path.
Proof. solve_decision. Defined.

Definition next (name : string) : path := Entry (name ++ ".next").

(** An open file knows the path it was opened at. *)
Record file := MkFile { f_path : path; f_ino : nat }.

Record fileInfo := MkFileInfo {
  fi_ino : nat; fi_regular : bool; fi_dir : bool; fi_symlink : bool; fi_size : Z; fi_nlink : nat }.

Inductive stat_answer := SFound (i : fileInfo) | SNotExist | SFailed.
Inductive mkdir_answer := MkdirDone | MkdirExists | MkdirFailed.
Inductive open_answer := Opened (ino : nat) | OpenExists | OpenNotExist | OpenFailed.
Inductive open_mode := ReadOnly | ReadWrite | CreateExclusive.
Inductive remove_answer := Removed | RemoveNotExist | RemoveFailed.
Inductive ioerror := ENotExist | EOther.
Record dirEntry := MkDirEntry { de_name : string; de_dir : bool; de_symlink : bool }.

Inductive BCall : Type → Type :=
| BLstat (p : path) : BCall stat_answer
| BMkdir (p : path) : BCall mkdir_answer
| BRestrict (p : path) : BCall bool (* ownerfs.RestrictFile, ownerfs.RestrictDirectory *)
| BOpen (p : path) (mode : open_mode) : BCall open_answer
| BStat (f : file) : BCall (option fileInfo)
| BReadAll (f : file) (limit : Z) : BCall (option string)
| BWrite (f : file) (data : string) : BCall (Z * bool)
| BTruncate (f : file) : BCall bool
| BSync (f : file) : BCall bool
| BClose (f : file) : BCall bool
| BTryLock (f : file) : BCall bool
| BUnlock (f : file) : BCall bool
| BRename (from to : path) : BCall bool
| BRemove (p : path) : BCall remove_answer
| BReadDir (p : path) : BCall (option (list dirEntry))
| BInstallRoot : BCall bool (* validateInstallRoot gives back the install root *)
| BValidate (s : Settings) : BCall (option Settings) (* validateSettings *)
| AAvailable : BCall bool
| AInspect (r : registration) : BCall (result berror managerState)
| ARegister (r : registration) : BCall bool
| AStart : BCall bool
| AStop (force : bool) (s : Settings) : BCall bool
| AUnregister (r : registration) : BCall bool
| AProbe (s : Settings) : BCall (option ProbeStatus) (* None: no probe was given *)
| ATick : BCall bool. (* the ticker, true, or the end of the context *)

Local Open Scope prog_scope.

(** ** Files *)

(** [ownerfs.ValidateRegular]. *)
Definition ValidateRegular (p : path) (max : Z) : prog BCall (result ioerror fileInfo) :=
  info <~ BLstat p;
  Ret (match info with
       | SNotExist => Err ENotExist
       | SFailed => Err EOther
       | SFound i =>
           if negb (fi_regular i) || fi_symlink i || (fi_size i <? 0) || (max <? fi_size i) || negb (fi_nlink i =? 1)%nat
           then Err EOther else Ok i
       end).

Definition openRegular (p : path) (max : Z) : prog BCall (result ioerror file) :=
  info <- ValidateRegular p max;
  match info with
  | Err e => Ret (Err e)
  | Ok info =>
      opened <~ BOpen p ReadOnly;
      match opened with
      | Opened ino =>
          let f := MkFile p ino in
          stat <~ BStat f;
          match stat with
          | Some stat =>
              if (fi_ino info =? fi_ino stat)%nat then Ret (Ok f) else _ <~ BClose f; Ret (Err EOther)
          | None => _ <~ BClose f; Ret (Err EOther)
          end
      | OpenNotExist => Ret (Err ENotExist)
      | OpenExists | OpenFailed => Ret (Err EOther)
      end
  end.

Definition readSmallRegular (p : path) (max : Z) : prog BCall (result ioerror string) :=
  f <- openRegular p max;
  match f with
  | Err e => Ret (Err e)
  | Ok f =>
      contents <~ BReadAll f (max + 1);
      _ <~ BClose f;
      Ret (match contents with
           | Some contents => if max <? slen contents then Err EOther else Ok contents
           | None => Err EOther
           end)
  end.

(** Whether the contents are in place. *)
Definition writePrivateAtomic (name : string) (contents : string) : prog BCall bool :=
  opened <~ BOpen (next name) CreateExclusive;
  match opened with
  | Opened ino =>
      let f := MkFile (next name) ino in
      let failed := _ <~ BClose f; _ <~ BRemove (next name); Ret false in
      restricted <~ BRestrict (next name);
      if negb restricted then failed
      else
        written <~ BWrite f contents;
        if negb (snd written) || negb (fst written =? slen contents) then failed
        else
          synced <~ BSync f;
          if negb synced then failed
          else
            closed <~ BClose f;
            if negb closed then failed
            else
              renamed <~ BRename (next name) (Entry name);
              if negb renamed then failed else _ <~ BClose f; Ret true
  | _ => Ret false
  end.

(** ** Paths *)

(** The elements of a cleaned absolute path. *)
Fixpoint elements_from (acc : string) (p : string) : list string :=
  match p with
  | EmptyString => if str_eqb acc "" then [] else [acc]
  | String c p =>
      if Ascii.eqb c "/" then (if str_eqb acc "" then elements_from "" p else acc :: elements_from "" p)
      else elements_from (acc ++ String c EmptyString) p
  end.
Definition elements (p : string) : list string := elements_from "" p.

(** [filepath.Rel] on such paths. *)
Fixpoint rel (base target : list string) : list string :=
  match base, target with
  | b :: base', t :: target' => if str_eqb b t then rel base' target' else (map (λ _, "..") base ++ target)%list
  | _, _ => (map (λ _, "..") base ++ target)%list
  end.

Definition pathWithin (parent candidate : string) : bool :=
  match rel (elements parent) (elements candidate) with e :: _ => negb (str_eqb e "..") | [] => true end.

(** ** Status *)

Definition statusFor (m : managerState) (r : Readiness) : Status :=
  let '(state, code) :=
    if negb (ms_available m) then (StateManagerUnavailable, CodeManagerUnavailable)
    else if negb (ms_registered m) then (StateNotRegistered, CodeNotRegistered)
    else if negb (ms_running m) then (StateRegisteredStopped, CodeStopped)
    else match r with
    | ReadinessUnreachable => (StateUnreachable, CodeUnreachable)
    | ReadinessNotReady => (StateNotReady, CodeNotReady)
    | ReadinessUnknown => (StateRunning, CodeReadinessUnknown)
    | ReadinessReady => (StateRunning, CodeOK)
    end in
  MkStatus state code r DiagnosticsUnknown (ms_registered m) (ms_running m).

Section controller.
Variable installRoot : string.
(** The platform adapter's template, and [encoding/json] on the stored settings:
    decoding is strict about fields, schema version and trailing data. *)
Variable adapter_registration : Settings → option registration.
Variables (marshal : Settings → string) (unmarshal : string → option Settings).

Notation done s := (Ret (Some s, None)).
Notation fail c := (Ret (None, Some (Coded c))).

(** ** The managed files *)

Definition writeSettings (s : Settings) : prog BCall bool := writePrivateAtomic settingsFile (marshal s ++ newline).

Definition readSettings : prog BCall (option Settings) :=
  f <- openRegular (Entry settingsFile) maxSettingsBytes;
  match f with
  | Err _ => Ret None
  | Ok f =>
      contents <~ BReadAll f (maxSettingsBytes + 1);
      match contents with
      | None => _ <~ BClose f; Ret None
      | Some contents =>
          match unmarshal contents with
          | None => _ <~ BClose f; Ret None
          | Some s => v <~ BValidate s; _ <~ BClose f; Ret v
          end
      end
  end.

Definition overlapping (s : Settings) : bool :=
  pathWithin installRoot (se_StateDir s) || pathWithin (se_StateDir s) installRoot.

Definition hasManagedState : prog BCall (result Code bool) :=
  info <~ BLstat BackgroundDir;
  match info with
  | SNotExist => Ret (Ok false)
  | SFailed => Ret (Err CodeUnsafeManagedState)
  | SFound i =>
      if negb (fi_dir i) || fi_symlink i then Ret (Err CodeUnsafeManagedState)
      else
        marker <- readSmallRegular (Entry markerFile) 128;
        match marker with
        | Err ENotExist =>
            entries <~ BReadDir BackgroundDir;
            Ret (match entries with
                 | None => Err CodeUnsafeManagedState
                 | Some entries =>
                     if forallb (λ e, str_eqb (de_name e) lockDirectory) entries then Ok false
                     else Err CodeUnsafeManagedState
                 end)
        | Err EOther => Ret (Err CodeUnsafeManagedState)
        | Ok marker => Ret (if str_eqb marker markerText then Ok true else Err CodeUnsafeManagedState)
        end
  end.

(** [None]: no error. *)
Definition initializeManagedState (s : Settings) (r : registration) : prog BCall (option Code) :=
  ok <- writeSettings s;
  if negb ok then Ret (Some CodeUnsafeManagedState)
  else
    ok <- writePrivateAtomic (rg_fileName r) (rg_content r);
    if negb ok then Ret (Some CodeUnsafeManagedState)
    else
      ok <- writePrivateAtomic markerFile markerText;
      Ret (if ok : bool then None else Some CodeUnsafeManagedState).

(** The map [allowed]; a later key of the literal replaces an equal earlier one. *)
Definition partial_limit (r : registration) (name : string) : option Z :=
  if str_eqb name (markerFile ++ ".next") then Some 128
  else if str_eqb name (rg_fileName r ++ ".next") then Some maxRegistrationBytes
  else if str_eqb name (rg_fileName r) then Some maxRegistrationBytes
  else if str_eqb name (settingsFile ++ ".next") then Some maxSettingsBytes
  else if str_eqb name settingsFile then Some maxSettingsBytes
  else if str_eqb name lockDirectory then Some 64
  else None.

Fixpoint removePartial (r : registration) (entries : list dirEntry) : prog BCall (option Code) :=
  match entries with
  | [] => Ret None
  | e :: entries =>
      match partial_limit r (de_name e) with
      | None => Ret (Some CodeUnsafeManagedState)
      | Some limit =>
          if str_eqb (de_name e) lockDirectory then removePartial r entries
          else
            f <- openRegular (Entry (de_name e)) limit;
            match f with
            | Err _ => Ret (Some CodeUnsafeManagedState)
            | Ok f =>
                _ <~ BClose f;
                removed <~ BRemove (Entry (de_name e));
                match removed with
                | Removed => removePartial r entries
                | _ => Ret (Some CodeUnsafeManagedState)
                end
            end
      end
  end.

Definition recoverPartialEnable (r : registration) : prog BCall (option Code) :=
  entries <~ BReadDir BackgroundDir;
  match entries with
  | None => Ret (Some CodeUnsafeManagedState)
  | Some entries => removePartial r entries
  end.

Definition managed_name (r : registration) (name : string) : bool :=
  existsb (str_eqb name) [markerFile; settingsFile; rg_fileName r; lockDirectory; disablingFile].

(** [entry.Info()] is an [Lstat]. *)
Fixpoint checkManaged (r : registration) (entries : list dirEntry) : prog BCall (option Code) :=
  match entries with
  | [] =>
      contents <- readSmallRegular (Entry (rg_fileName r)) maxRegistrationBytes;
      Ret (match contents with
           | Ok contents => if str_eqb contents (rg_content r) then None else Some CodeRegistrationMismatch
           | Err _ => Some CodeRegistrationMismatch
           end)
  | e :: entries =>
      if negb (managed_name r (de_name e)) then Ret (Some CodeUnsafeManagedState)
      else if str_eqb (de_name e) lockDirectory then checkManaged r entries
      else
        info <~ BLstat (Entry (de_name e));
        match info with
        | SFound i =>
            if negb (fi_regular i) || fi_symlink i then Ret (Some CodeUnsafeManagedState) else checkManaged r entries
        | _ => Ret (Some CodeUnsafeManagedState)
        end
  end.

Definition validateManagedFiles (r : registration) : prog BCall (option Code) :=
  entries <~ BReadDir BackgroundDir;
  match entries with
  | None => Ret (Some CodeUnsafeManagedState)
  | Some entries => checkManaged r entries
  end.

Definition loadManaged : prog BCall (result Code (Settings * registration)) :=
  managed <- hasManagedState;
  match managed with
  | Err c => Ret (Err c)
  | Ok false => Ret (Err CodeNotRegistered)
  | Ok true =>
      settings <- readSettings;
      match settings with
      | None => Ret (Err CodeUnsafeManagedState)
      | Some settings =>
          if overlapping settings then Ret (Err CodeUnsafeManagedState)
          else match adapter_registration settings with
          | None => Ret (Err CodeUnsafeManagedState)
          | Some r =>
              e <- validateManagedFiles r;
              Ret (match e with Some c => Err c | None => Ok (settings, r) end)
          end
      end
  end.

(** Removes each name that is there; stops at the first failure. *)
Fixpoint removeEach (names : list string) : prog BCall (option Code) :=
  match names with
  | [] => Ret None
  | name :: names =>
      removed <~ BRemove (Entry name);
      match removed with
      | RemoveFailed => Ret (Some CodeUnsafeManagedState)
      | _ => removeEach names
      end
  end.

Definition removeManagedState (r : registration) : prog BCall (option Code) :=
  removeEach [markerFile; settingsFile; rg_fileName r; disablingFile].

(** ** The guard and the lock *)

Definition recoverBackgroundInstallGuard : prog BCall (result Code bool) :=
  info <~ BLstat Guard;
  let directory := match info with SFound i => fi_dir i && negb (fi_symlink i) | _ => false end in
  if negb directory then Ret (Ok false)
  else
    entries <~ BReadDir Guard;
    let mine := match entries with
                | Some [e] => str_eqb (de_name e) guardOwner && negb (de_dir e) && negb (de_symlink e)
                | _ => false
                end in
    if negb mine then Ret (Ok false)
    else
      info <- ValidateRegular GuardOwner 64;
      match info with
      | Err _ => Ret (Ok false)
      | Ok info =>
          opened <~ BOpen GuardOwner ReadWrite;
          match opened with
          | Opened ino =>
              let f := MkFile GuardOwner ino in
              stat <~ BStat f;
              let same := match stat with Some s => (fi_ino info =? fi_ino s)%nat | None => false end in
              if negb same then _ <~ BClose f; Ret (Ok false)
              else
                locked <~ BTryLock f;
                if negb locked then _ <~ BClose f; Ret (Ok false)
                else
                  contents <~ BReadAll f 65;
                  let proof := match contents with Some c => str_eqb c guardOwnerMarker | None => false end in
                  if negb proof then _ <~ BUnlock f; _ <~ BClose f; Ret (Ok false)
                  else
                    truncated <~ BTruncate f;
                    durable <- (if truncated : bool then (s <~ BSync f; Ret s) else Ret false);
                    _ <~ BUnlock f;
                    closed <~ BClose f;
                    if negb durable || negb closed then Ret (Err CodeUnsafeManagedState)
                    else
                      removed <~ BRemove GuardOwner;
                      match removed with
                      | Removed =>
                          removed <~ BRemove Guard;
                          Ret (match removed with Removed => Ok true | _ => Err CodeUnsafeManagedState end)
                      | _ => Ret (Err CodeUnsafeManagedState)
                      end
          | _ => Ret (Ok false)
          end
      end.

(** The function [acquireInstallGuard] returns, with its owner file. *)
Definition releaseInstallGuard (f : file) : prog BCall unit :=
  _ <~ BTruncate f; _ <~ BSync f; _ <~ BUnlock f; _ <~ BClose f; _ <~ BRemove GuardOwner; _ <~ BRemove Guard; Ret tt.

(** From the new guard directory on. *)
Definition ownGuard : prog BCall (result Code file) :=
  restricted <~ BRestrict Guard;
  if negb restricted then _ <~ BRemove Guard; Ret (Err CodeUnsafeManagedState)
  else
    opened <~ BOpen GuardOwner CreateExclusive;
    match opened with
    | Opened ino =>
        let f := MkFile GuardOwner ino in
        let give c := _ <- releaseInstallGuard f; Ret (Err c) in
        restricted <~ BRestrict GuardOwner;
        if negb restricted then give CodeUnsafeManagedState
        else
          locked <~ BTryLock f;
          if negb locked then give CodeOperationActive
          else
            written <~ BWrite f guardOwnerMarker;
            if negb (snd written) || negb (fst written =? slen guardOwnerMarker) then give CodeUnsafeManagedState
            else
              synced <~ BSync f;
              if negb synced then give CodeUnsafeManagedState else Ret (Ok f)
    | _ => _ <~ BRemove Guard; Ret (Err CodeUnsafeManagedState)
    end.

Definition acquireInstallGuard : prog BCall (result Code file) :=
  info <~ BLstat (Abs installRoot);
  let directory := match info with SFound i => fi_dir i && negb (fi_symlink i) | _ => false end in
  if negb directory then Ret (Err CodeUnsafeManagedState)
  else
    made <~ BMkdir Guard;
    match made with
    | MkdirDone => ownGuard
    | MkdirFailed => Ret (Err CodeUnsafeManagedState)
    | MkdirExists =>
        recovered <- recoverBackgroundInstallGuard;
        match recovered with
        | Err c => Ret (Err c)
        | Ok false => Ret (Err CodeOperationActive)
        | Ok true =>
            made <~ BMkdir Guard;
            match made with
            | MkdirDone => ownGuard
            | _ => Ret (Err CodeOperationActive)
            end
        end
    end.

(** The operation lock's file, opened or created. *)
Definition openLock : prog BCall (result Code file) :=
  opened <~ BOpen (Entry lockDirectory) CreateExclusive;
  match opened with
  | Opened ino =>
      let f := MkFile (Entry lockDirectory) ino in
      restricted <~ BRestrict (Entry lockDirectory);
      if negb restricted then _ <~ BClose f; Ret (Err CodeUnsafeManagedState) else Ret (Ok f)
  | OpenExists =>
      pathInfo <- ValidateRegular (Entry lockDirectory) 64;
      match pathInfo with
      | Err _ => Ret (Err CodeUnsafeManagedState)
      | Ok pathInfo =>
          opened <~ BOpen (Entry lockDirectory) ReadWrite;
          match opened with
          | Opened ino =>
              let f := MkFile (Entry lockDirectory) ino in
              stat <~ BStat f;
              let same := match stat with Some s => (fi_ino s =? fi_ino pathInfo)%nat | None => false end in
              if negb same then _ <~ BClose f; Ret (Err CodeUnsafeManagedState) else Ret (Ok f)
          | _ => Ret (Err CodeOperationActive)
          end
      end
  | _ => Ret (Err CodeOperationActive)
  end.

(** [lock] in the background directory, which it may have made. *)
Definition lockIn (made : bool) : prog BCall (result Code file) :=
  info <~ BLstat BackgroundDir;
  let directory := match info with SFound i => fi_dir i && negb (fi_symlink i) | _ => false end in
  if negb directory then Ret (Err CodeNotRegistered)
  else
    restricted <- (if made then (b <~ BRestrict BackgroundDir; Ret b) else Ret true);
    if negb restricted then Ret (Err CodeUnsafeManagedState)
    else
      f <- openLock;
      match f with
      | Err c => Ret (Err c)
      | Ok f =>
          info <~ BStat f;
          pathInfo <- ValidateRegular (Entry lockDirectory) 64;
          let safe := match info, pathInfo with
                      | Some i, Ok j => fi_regular i && (fi_ino i =? fi_ino j)%nat
                      | _, _ => false
                      end in
          if negb safe then _ <~ BClose f; Ret (Err CodeUnsafeManagedState)
          else
            locked <~ BTryLock f;
            if negb locked then _ <~ BClose f; Ret (Err CodeOperationActive) else Ret (Ok f)
      end.

(** [lock] after the guard: the file it locked. *)
Definition lockDir (create : bool) : prog BCall (result Code file) :=
  valid <~ BInstallRoot;
  if negb valid then Ret (Err CodeUnsafeManagedState)
  else if create then
    made <~ BMkdir BackgroundDir;
    match made with
    | MkdirDone => lockIn true
    | MkdirExists => lockIn false
    | MkdirFailed => Ret (Err CodeUnsafeManagedState)
    end
  else lockIn false.

(** The lock's file and the guard's. *)
Definition lock (create : bool) : prog BCall (result Code (file * file)) :=
  guard <- acquireInstallGuard;
  match guard with
  | Err c => Ret (Err c)
  | Ok guard =>
      file <- lockDir create;
      match file with
      | Err c => _ <- releaseInstallGuard guard; Ret (Err c)
      | Ok file => Ret (Ok (file, guard))
      end
  end.

Definition unlock (u : file * file) : prog BCall unit :=
  _ <~ BUnlock (fst u); _ <~ BClose (fst u); releaseInstallGuard (snd u).

(** ** Operations *)

Definition waitTicks : nat := 351.

(** Whether the job was seen stopped before the context ended: [GracefulWait] is 35 s
    and a tick 100 ms. *)
Fixpoint waitForStopped (ticks : nat) (r : registration) : prog BCall bool :=
  state <~ AInspect r;
  match state with
  | Err _ => Ret false
  | Ok state =>
      if negb (ms_available state) then Ret false
      else if negb (ms_registered state) || negb (ms_running state) then Ret true
      else match ticks with
      | O => Ret false
      | S ticks => tick <~ ATick; if negb tick then Ret false else waitForStopped ticks r
      end
  end.

Definition statusLocked (s : Settings) (r : registration) : prog BCall outcome :=
  state <~ AInspect r;
  match state with
  | Err _ => fail CodeManagerOperationFailed
  | Ok state =>
      probe <- (if ms_running state then (p <~ AProbe s; Ret p) else Ret None);
      let '(readiness, diagnostics) :=
        match probe with Some p => (pb_Readiness p, pb_Diagnostics p) | None => (ReadinessUnknown, DiagnosticsUnknown) end in
      let status := statusFor state readiness in
      done (MkStatus (st_State status) (st_Code status) (st_Readiness status) diagnostics (st_Registered status)
              (st_Running status))
  end.

Definition withManaged (operation : Settings → registration → prog BCall outcome) : prog BCall outcome :=
  u <- lock false;
  match u with
  | Err c => fail c
  | Ok u =>
      loaded <- loadManaged;
      r <- match loaded with
           | Err c => fail c
           | Ok (settings, r) => operation settings r
           end;
      _ <- unlock u;
      Ret r
  end.

Definition disabling : prog BCall bool :=
  info <~ BLstat (Entry disablingFile);
  Ret (match info with SFound _ => true | _ => false end).

(** An inspection that found no usable manager. *)
Definition unavailable (state : managerState) : prog BCall outcome :=
  Ret (Some (statusFor state ReadinessUnknown), Some (Coded CodeManagerUnavailable)).
Definition missing (state : managerState) : prog BCall outcome :=
  Ret (Some (statusFor state ReadinessUnknown), Some (Coded CodeRegistrationMismatch)).

(** Registration and start at the end of [Enable]. *)
Definition enableJob (s : Settings) (r : registration) : prog BCall outcome :=
  state <~ AInspect r;
  match state with
  | Err e => Ret (None, Some e)
  | Ok state =>
      if negb (ms_available state) then unavailable state
      else
        registered <- (if negb (ms_registered state) then (b <~ ARegister r; Ret b) else Ret true);
        if negb registered then fail CodeManagerOperationFailed
        else
          state <~ AInspect r;
          match state with
          | Err e => Ret (None, Some e)
          | Ok state =>
              started <- (if negb (ms_running state) then (b <~ AStart; Ret b) else Ret true);
              if negb started then fail CodeManagerOperationFailed else statusLocked s r
          end
  end.

(** The managed files, checked or made; [None]: no error. *)
Definition enableFiles (s : Settings) (r : registration) : prog BCall (option Code) :=
  managed <- hasManagedState;
  managed <- (match managed with
              | Ok b => Ret (Ok b)
              | Err c =>
                  marker <~ BLstat (Entry markerFile);
                  match marker with
                  | SNotExist =>
                      e <- recoverPartialEnable r;
                      Ret (match e with Some c => Err c | None => Ok false end)
                  | _ => Ret (Err c)
                  end
              end);
  match managed with
  | Err c => Ret (Some c)
  | Ok true =>
      stored <- readSettings;
      if negb (bool_decide (stored = Some s)) then Ret (Some CodeRegistrationMismatch) else validateManagedFiles r
  | Ok false =>
      e <- recoverPartialEnable r;
      match e with
      | Some c => Ret (Some c)
      | None => initializeManagedState s r
      end
  end.

Definition Enable (requested : Settings) : prog BCall outcome :=
  settings <~ BValidate requested;
  match settings with
  | None => fail CodeInvalidSettings
  | Some s =>
      if overlapping s then fail CodeInvalidSettings
      else
        u <- lock true;
        match u with
        | Err c => fail c
        | Ok u =>
            r <- (d <- disabling;
                  if d : bool then fail CodeOperationActive
                  else match adapter_registration s with
                  | None => fail CodeInvalidSettings
                  | Some r =>
                      e <- enableFiles s r;
                      match e with Some c => fail c | None => enableJob s r end
                  end);
            _ <- unlock u;
            Ret r
        end
  end.

(** An error of [loadManaged] is the only one. *)
Definition LoadSettings : prog BCall (result Code Settings) :=
  loaded <- loadManaged;
  Ret (match loaded with Ok (s, _) => Ok s | Err c => Err c end).

Definition Start : prog BCall outcome :=
  withManaged (λ s r,
    d <- disabling;
    if d : bool then fail CodeOperationActive
    else
      state <~ AInspect r;
      match state with
      | Err e => Ret (None, Some e)
      | Ok state =>
          if negb (ms_available state) then unavailable state
          else if negb (ms_registered state) then missing state
          else
            started <- (if negb (ms_running state) then (b <~ AStart; Ret b) else Ret true);
            if negb started then fail CodeManagerOperationFailed else statusLocked s r
      end).

Definition notRegistered : prog BCall outcome :=
  a <~ AAvailable; done (statusFor (MkManagerState a false false) ReadinessUnknown).

Definition GetStatus : prog BCall outcome :=
  managed <- hasManagedState;
  match managed with
  | Err c => fail c
  | Ok false => notRegistered
  | Ok true =>
      loaded <- loadManaged;
      match loaded with
      | Err c => fail c
      | Ok (s, r) => statusLocked s r
      end
  end.

(** A running job is asked to stop, or made to, and waited for; whether it stopped. *)
Definition stopJob (force : bool) (s : Settings) (r : registration) (state : managerState) : prog BCall bool :=
  if ms_running state then
    ok <~ AStop force s;
    if negb ok then Ret false else waitForStopped waitTicks r
  else Ret true.

Definition stopCode (force : bool) : Code := if force then CodeManagerOperationFailed else CodeGracefulStopFailed.

Definition stop (force restart : bool) : prog BCall outcome :=
  withManaged (λ s r,
    d <- disabling;
    if d : bool then fail CodeOperationActive
    else
      state <~ AInspect r;
      match state with
      | Err e => Ret (None, Some e)
      | Ok state =>
          if negb (ms_available state) then unavailable state
          else if negb (ms_registered state) then missing state
          else
            stopped <- stopJob force s r state;
            if negb stopped then fail (stopCode force)
            else
              started <- (if restart then (b <~ AStart; Ret b) else Ret true);
              if negb started then fail CodeManagerOperationFailed else statusLocked s r
      end).

Definition Stop (force : bool) : prog BCall outcome := stop force false.
Definition Restart (force : bool) : prog BCall outcome := stop force true.

Definition platformFiles : list string := ["home-lab-observer.service"; "com.braidenm.home-lab-observer.plist"; "task.xml"].

Fixpoint checkInterrupted (entries : list dirEntry) : prog BCall (option Code) :=
  match entries with
  | [] => Ret None
  | e :: entries =>
      if negb (existsb (str_eqb (de_name e)) (lockDirectory :: disablingFile :: settingsFile :: platformFiles))
      then Ret (Some CodeUnsafeManagedState)
      else if str_eqb (de_name e) lockDirectory then checkInterrupted entries
      else
        contents <- readSmallRegular (Entry (de_name e)) maxRegistrationBytes;
        match contents with
        | Err _ => Ret (Some CodeUnsafeManagedState)
        | Ok _ => checkInterrupted entries
        end
  end.

(** [None]: nothing to resume. *)
Definition resumeLocked : prog BCall (option outcome) :=
  marker <~ BLstat (Entry markerFile);
  match marker with
  | SFound _ => Ret None
  | _ =>
      transition <- readSmallRegular (Entry disablingFile) 128;
      match transition with
      | Err ENotExist => Ret None
      | Err EOther => Ret (Some (None, Some (Coded CodeUnsafeManagedState)))
      | Ok transition =>
          if negb (str_eqb transition markerText) then Ret (Some (None, Some (Coded CodeUnsafeManagedState)))
          else
            entries <~ BReadDir BackgroundDir;
            match entries with
            | None => Ret (Some (None, Some (Coded CodeUnsafeManagedState)))
            | Some entries =>
                e <- checkInterrupted entries;
                e <- (match e with
                      | Some c => Ret (Some c)
                      | None => removeEach (settingsFile :: platformFiles ++ [disablingFile])%list
                      end);
                match e with
                | Some c => Ret (Some (None, Some (Coded c)))
                | None => r <- notRegistered; Ret (Some r)
                end
            end
      end
  end.

Definition resumeInterruptedDisable : prog BCall (option outcome) :=
  info <~ BLstat BackgroundDir;
  match info with
  | SNotExist => Ret None
  | _ =>
      u <- lock false;
      match u with
      | Err c => Ret (Some (None, Some (Coded c)))
      | Ok u => r <- resumeLocked; _ <- unlock u; Ret r
      end
  end.

Definition disableManaged (force : bool) (s : Settings) (r : registration) : prog BCall outcome :=
  state <~ AInspect r;
  match state with
  | Err e => Ret (None, Some e)
  | Ok state =>
      if negb (ms_available state) then unavailable state
      else
        stopped <- stopJob force s r state;
        if negb stopped then fail (stopCode force)
        else
          e <- (if ms_registered state then
                  ok <- writePrivateAtomic disablingFile markerText;
                  if negb ok then Ret (Some CodeUnsafeManagedState)
                  else ok <~ AUnregister r; Ret (if ok : bool then None else Some CodeManagerOperationFailed)
                else Ret None);
          match e with
          | Some c => fail c
          | None =>
              e <- removeManagedState r;
              match e with
              | Some c => fail c
              | None => done (statusFor (MkManagerState (ms_available state) false false) ReadinessUnknown)
              end
          end
  end.

Definition Disable (force : bool) : prog BCall outcome :=
  resumed <- resumeInterruptedDisable;
  match resumed with
  | Some r => Ret r
  | None =>
      managed <- hasManagedState;
      match managed with
      | Err c => fail c
      | Ok false => notRegistered
      | Ok true => withManaged (disableManaged force)
      end
  end.
End controller.

(** ** The Linux template *)

Fixpoint replace_char (c : ascii) (by_ : string) (s : string) : string :=
  match s with
  | EmptyString => EmptyString
  | String d s => (if Ascii.eqb d c then by_ else String d EmptyString) ++ replace_char c by_ s
  end.

Definition quote : string := String (Ascii.ascii_of_N 34) EmptyString.
Definition backslash : string := String (Ascii.ascii_of_N 92) EmptyString.

Definition systemdQuote (value : string) : string :=
  let value := replace_char (Ascii.ascii_of_N 92) (backslash ++ backslash) value in
  let value := replace_char (Ascii.ascii_of_N 34) (backslash ++ quote) value in
  let value := replace_char "%" "%%" value in
  quote ++ value ++ quote.

Definition managerIdentity : string := "home-lab-observer.service".

Definition linux_registration (root : string) (_ : Settings) : option registration :=
  let launcher := root ++ "/bin/observer" in
  let lines := ["[Unit]"; "Description=Home Lab Observer (user session)"; ""; "[Service]"; "Type=simple";
    "ExecStart=:" ++ systemdQuote launcher ++ " background run --install-root " ++ systemdQuote root;
    "Restart=on-failure"; "RestartSec=5s"; "TimeoutStopSec=35s"; "SendSIGKILL=no"; "StandardOutput=null";
    "StandardError=null"; "NoNewPrivileges=true"; ""; "[Install]"; "WantedBy=default.target"] in
  Some (MkRegistration managerIdentity (fold_right (λ l acc, l ++ newline ++ acc) "" lines)).
