(* ===== verification/BackgroundHost.v ===== *)
(** * The host of the background profile

    The world the controller works in: the entries of its directory, the registered
    job and the operation lock, with what each call may do to them.  Whatever the
    other processes keep, a predicate [J], is what a process may assume when it gets
    the lock.  Here are the routines that take the lock and those that only read. *)

From S2P Require Import Prelude GoText Effects Background.

#[local] Open Scope string_scope.
#[local] Open Scope Z_scope.

(** ** The host *)

(** The entries of the background directory but its lock file, their contents, the
    registered job, and whether this process holds the operation lock. *)
Record bworld := MkBworld {
  bw_nodes : gmap nat string; bw_dir : gmap string nat; bw_job : option registration; bw_held : bool }.

Definition has (w : bworld) (name text : string) : Prop := ∃ i, bw_dir w !! name = Some i ∧ bw_nodes w !! i = Some text.

Record managed (r : registration) (w : bworld) : Prop := {
  mg_marker : has w markerFile markerText;
  mg_settings : is_Some (bw_dir w !! settingsFile);
  mg_template : has w (rg_fileName r) (rg_content r) }.

Definition is_lock (f : file) : bool := bool_decide (f_path f = Entry lockDirectory).

(** Calls that cannot change the directory's managed files or the job. *)
Definition quiet A (e : BCall A) : Prop :=
  match e with
  | BOpen (Entry name) CreateExclusive => name = lockDirectory
  | BWrite f _ | BTruncate f => f_path f = GuardOwner
  | BRename _ _ => False
  | BRemove p => p = Guard ∨ p = GuardOwner
  | ARegister _ | AStart | AStop _ _ | AUnregister _ => False
  | _ => True
  end.

Definition with_nodes (w : bworld) n := MkBworld n (bw_dir w) (bw_job w) (bw_held w).
Definition with_dir (w : bworld) d := MkBworld (bw_nodes w) d (bw_job w) (bw_held w).
Definition with_job (w : bworld) j := MkBworld (bw_nodes w) (bw_dir w) j (bw_held w).

Ltac outside_only := walk_only ltac:(split; simpl; auto).

Section host.
Context {J : bworld → Prop}.

(** The file [i] is made under [name]. *)
Definition new_file (name : string) (i : nat) (w w' : bworld) : Prop :=
  bw_dir w !! name = None ∧ bw_nodes w !! i = None
  ∧ w' = with_dir (with_nodes w (<[i := ""]> (bw_nodes w))) (<[name := i]> (bw_dir w)).

(** Under the lock.  Only an entry that does not exist is reported as such, but looking
    for one may fail; a write may be short; a creation, rename, removal, registration or
    deregistration that reports failure may have happened; and the owner may remove the
    job by hand before an inspection. *)
Definition locked_env A (e : BCall A) : bworld → A → bworld → Prop :=
  match e in BCall T return bworld → T → bworld → Prop with
  | BLstat (Entry name) => λ w a w', w' = w ∧ (name ≠ lockDirectory →
      match a with SFound i => bw_dir w !! name = Some (fi_ino i) | SNotExist => bw_dir w !! name = None | _ => True end)
  | BLstat BackgroundDir => λ w a w', w' = w ∧ match a with SNotExist => bw_dir w = ∅ | _ => True end
  | BOpen (Entry name) CreateExclusive => λ w a w',
      match a with
      | Opened i => if str_eqb name lockDirectory then w' = w else new_file name i w w'
      | OpenFailed => w' = w ∨ name ≠ lockDirectory ∧ ∃ i, new_file name i w w'
      | _ => w' = w
      end
  | BOpen (Entry name) _ => λ w a w', w' = w ∧ (name ≠ lockDirectory →
      match a with Opened i => bw_dir w !! name = Some i | OpenNotExist => bw_dir w !! name = None | _ => True end)
  | BReadAll (MkFile (Entry _) i) limit => λ w a w', w' = w ∧
      ∀ s, a = Some s → ∃ t, bw_nodes w !! i = Some t ∧ s = substring 0 (Z.to_nat limit) t
  | BWrite (MkFile (Entry _) i) data => λ w a w', (a.2 = false ∧ w' = w) ∨ ∃ t k, bw_nodes w !! i = Some t
      ∧ (k ≤ String.length data)%nat ∧ a.1 = Z.of_nat k
      ∧ w' = with_nodes w (<[i := t ++ substring 0 k data]> (bw_nodes w))
  | BRename (Entry from) (Entry to) => λ w ok w', (ok = false ∧ w' = w) ∨ ∃ i, bw_dir w !! from = Some i
      ∧ w' = with_dir w (<[to := i]> (delete from (bw_dir w)))
  | BRemove (Entry name) => λ w a w',
      match a with
      | Removed => w' = with_dir w (delete name (bw_dir w))
      | RemoveNotExist => bw_dir w !! name = None ∧ w' = w
      | RemoveFailed => w' = w ∨ w' = with_dir w (delete name (bw_dir w))
      end
  | BReadDir BackgroundDir => λ w a w', w' = w ∧
      ∀ l, a = Some l → ∀ name, name ≠ lockDirectory → is_Some (bw_dir w !! name) ↔ name ∈ map de_name l
  | AInspect r => λ w a w', (w' = w ∨ w' = with_job w None) ∧
      ∀ st, a = Ok st → ms_available st = true → bw_job w' = if ms_registered st then Some r else None
  | ARegister r => λ w ok w', w' = with_job w (Some r) ∨ (ok = false ∧ w' = w)
  | AUnregister _ => λ w ok w', w' = with_job w None ∨ (ok = false ∧ w' = w)
  | BUnlock f => λ w _ w', if is_lock f then J w' ∧ bw_held w' = false else w' = w
  | _ => λ w _ w', w' = w
  end.

(** Without the lock, quiet calls have any answer and others may have done anything
    that keeps the invariant; of any other call nothing is known. *)
Definition open_env A (e : BCall A) : bworld → A → bworld → Prop :=
  λ w a w', quiet A e → J w' ∧ bw_held w' =
    match e in BCall T return T → bool with BTryLock f => λ ok, ok && is_lock f | _ => λ _, false end a.

Definition benv A (e : BCall A) (w : bworld) (a : A) (w' : bworld) : Prop :=
  if bw_held w then locked_env A e w a w' else open_env A e w a w'.

(** ** Without the lock *)

(** Quiet, and not the operation lock. *)
Definition outside A (e : BCall A) : Prop :=
  quiet A e ∧ match e with BTryLock f => f_path f = GuardOwner | _ => True end.

Definition free (w : bworld) : Prop := J w ∧ bw_held w = false.

Lemma free_step A (e : BCall A) w a w' : outside A e → benv A e w a w' → free w → free w'.
Proof.
  intros [Hq Ho] Hx [_ Hf]. unfold benv in Hx. rewrite Hf in Hx. destruct (Hx Hq) as [Hi Hh]. split; [done|].
  rewrite Hh. destruct e as [| | | | | | | | | |f| | | | | | | | | | | | | |]; try done. unfold is_lock. rewrite Ho. simpl. by rewrite andb_false_r.
Qed.

Lemma free_call {R A} (e : BCall A) (k : A → prog BCall R) Q w :
  outside A e → free w → (∀ a w', free w' → wpc benv J (k a) Q w') → wpc benv J (Call e k) Q w.
Proof. intros He Hw Hk. apply wpc_call; [apply Hw|]. intros a w' Hx. apply Hk. by eapply free_step. Qed.

Lemma free_only {R} (p : prog BCall R) w : only outside p → free w → wpc benv J p (λ _, free) w.
Proof.
  intros Hp Hw. eapply wpc_mono; [| |apply (only_frame benv outside free p w Hp); [|done]]; [by intros ? []|done|].
  intros A e u a u'. apply free_step.
Qed.


Lemma ValidateRegular_outside p max : only outside (ValidateRegular p max).
Proof. unfold ValidateRegular. outside_only. Qed.
Lemma recover_outside : only outside recoverBackgroundInstallGuard.
Proof. unfold recoverBackgroundInstallGuard. pose proof ValidateRegular_outside. cbv zeta. outside_only. Qed.
Lemma release_outside f : f_path f = GuardOwner → only outside (releaseInstallGuard f).
Proof. intros Hf. unfold releaseInstallGuard. outside_only. Qed.

Definition own_guard (r : result Code file) (w : bworld) : Prop := free w ∧ ∀ f, r = Ok f → f_path f = GuardOwner.

Lemma free_err c w : free w → wpc benv J (Ret (Err c)) own_guard w.
Proof. intros Hw. apply wpc_ret; [apply Hw|]. by split. Qed.

Lemma ownGuard_wpc w : free w → wpc benv J ownGuard own_guard w.
Proof.
  intros Hw. unfold ownGuard. apply free_call; [by split|done|]. clear w Hw. intros restricted w Hw.
  destruct (negb restricted); [apply free_call; [by split; [left|]|done|]; intros; by apply free_err|].
  apply free_call; [by split|done|]. clear w Hw. intros opened w Hw.
  assert (Hrm : wpc benv J (Call (BRemove Guard) (λ _, Ret (Err CodeUnsafeManagedState))) own_guard w).
  { apply free_call; [by split; [left|]|done|]. intros; by apply free_err. }
  destruct opened as [ino| | |]; try exact Hrm. clear Hrm. cbv zeta.
  assert (Hgive : ∀ c w, free w → wpc benv J (bind (releaseInstallGuard (MkFile GuardOwner ino)) (λ _, Ret (Err c))) own_guard w).
  { intros c w' Hw'. apply wpc_bind. eapply wpc_mono; [| |apply free_only; [by apply release_outside|done]]; [done|].
    intros [] u Hu. by apply free_err. }
  apply free_call; [by split|done|]. clear w Hw. intros r2 w Hw. destruct (negb r2); [by apply Hgive|].
  apply free_call; [by split|done|]. clear w Hw. intros locked w Hw. destruct (negb locked); [by apply Hgive|].
  apply free_call; [by split|done|]. clear w Hw. intros written w Hw. destruct (_ || _); [by apply Hgive|].
  apply free_call; [by split|done|]. clear w Hw. intros synced w Hw. destruct (negb synced); [by apply Hgive|].
  apply wpc_ret; [apply Hw|]. split; [done|]. by intros f [= <-].
Qed.

Lemma acquire_wpc root w : free w → wpc benv J (acquireInstallGuard root) own_guard w.
Proof.
  intros Hw. unfold acquireInstallGuard. apply free_call; [by split|done|]. clear w Hw. intros info w Hw. cbv zeta.
  destruct (negb _); [by apply free_err|]. apply free_call; [by split|done|]. clear w Hw. intros made w Hw.
  destruct made; [by apply ownGuard_wpc| |by apply free_err].
  apply wpc_bind. eapply wpc_mono; [| |apply free_only; [apply recover_outside|done]]; [done|]. clear w Hw.
  intros [[|]|c] w Hw; [|by apply free_err..]. apply free_call; [by split|done|]. clear w Hw. intros made w Hw.
  destruct made; [by apply ownGuard_wpc|by apply free_err..].
Qed.

(** The operation lock is held exactly on success. *)
Definition own_lock (r : result Code file) (w : bworld) : Prop :=
  J w ∧ bw_held w = is_ok r ∧ ∀ f, r = Ok f → f_path f = Entry lockDirectory.

Lemma lock_err c w : free w → wpc benv J (Ret (Err c)) own_lock w.
Proof. intros [Hi Hh]. apply wpc_ret; [done|]. by split_and!. Qed.

Definition lock_file (r : result Code file) (w : bworld) : Prop := free w ∧ ∀ f, r = Ok f → f_path f = Entry lockDirectory.

Lemma lock_file_err c w : free w → wpc benv J (Ret (Err c)) lock_file w.
Proof. intros Hw. apply wpc_ret; [apply Hw|]. by split. Qed.
Lemma lock_file_close c f w : free w → wpc benv J (Call (BClose f) (λ _, Ret (Err c))) lock_file w.
Proof. intros Hw. apply free_call; [by split|done|]. intros _ w' Hw'. by apply lock_file_err. Qed.

Lemma openLock_wpc w : free w → wpc benv J openLock lock_file w.
Proof.
  intros Hw. unfold openLock. apply free_call; [by split|done|]. clear w Hw. intros opened w Hw.
  destruct opened as [ino| | |]; [| |by apply lock_file_err..].
  - apply free_call; [by split|done|]. clear w Hw. intros r w Hw. destruct (negb r); [by apply lock_file_close|].
    apply wpc_ret; [apply Hw|]. split; [done|]. by intros f [= <-].
  - apply wpc_bind. eapply wpc_mono; [| |apply free_only; [apply ValidateRegular_outside|done]]; [done|]. clear w Hw.
    intros [info|e] w Hw; [|by apply lock_file_err]. apply free_call; [by split|done|]. clear w Hw. intros opened w Hw.
    destruct opened as [ino| | |]; [|by apply lock_file_err..]. apply free_call; [by split|done|]. clear w Hw.
    intros stat w Hw. cbv zeta. destruct (negb _); [by apply lock_file_close|].
    apply wpc_ret; [apply Hw|]. split; [done|]. by intros f [= <-].
Qed.

Lemma lockIn_wpc made w : free w → wpc benv J (lockIn made) own_lock w.
Proof.
  intros Hw. unfold lockIn. apply free_call; [by split|done|]. clear w Hw. intros info w Hw. cbv zeta.
  destruct (negb _); [by apply lock_err|].
  apply wpc_bind. eapply wpc_mono; [| |apply free_only; [|done]]; [done| |destruct made; outside_only]. clear w Hw.
  intros restricted w Hw. destruct (negb restricted); [by apply lock_err|].
  apply wpc_bind. eapply wpc_mono; [| |by apply openLock_wpc]; [done|]. clear w Hw. intros [f|c] w [Hw Hf]; [|by apply lock_err].
  specialize (Hf f eq_refl). apply free_call; [by split|done|]. clear w Hw. intros stat w Hw.
  apply wpc_bind. eapply wpc_mono; [| |apply free_only; [apply ValidateRegular_outside|done]]; [done|]. clear w Hw.
  intros pathInfo w Hw. destruct (negb _).
  { apply free_call; [by split|done|]. intros _ w' Hw'. by apply lock_err. }
  apply wpc_call; [apply Hw|]. intros locked w' Hx. destruct Hw as [_ Hh]. unfold benv in Hx. rewrite Hh in Hx.
  destruct (Hx I) as [Hi Hl]. unfold is_lock in Hl. rewrite Hf, bool_decide_eq_true_2, andb_true_r in Hl by done.
  destruct locked; cbn [negb]; [apply wpc_ret; [done|]; split_and!; [done|done|by intros ? [= <-]]|].
  apply free_call; [by split|by split|]. intros _ w'' Hw''. by apply lock_err.
Qed.

Lemma lockDir_wpc create w : free w → wpc benv J (lockDir create) own_lock w.
Proof.
  intros Hw. unfold lockDir. apply free_call; [by split|done|]. clear w Hw. intros valid w Hw.
  destruct (negb valid); [by apply lock_err|]. destruct create; [|by apply lockIn_wpc].
  apply free_call; [by split|done|]. clear w Hw. intros [] w Hw; [by apply lockIn_wpc..|by apply lock_err].
Qed.

Definition locked (w : bworld) : Prop := J w ∧ bw_held w = true.

Lemma lock_wpc root create w : free w →
  wpc benv J (lock root create) (λ r w', match r with
    | Ok (f, g) => locked w' ∧ f_path f = Entry lockDirectory ∧ f_path g = GuardOwner
    | Err _ => free w' end) w.
Proof.
  intros Hw. unfold lock. apply wpc_bind. eapply wpc_mono; [| |by apply acquire_wpc]; [done|]. clear w Hw.
  intros [g|c] w [Hw Hg]; [|by apply wpc_ret; [apply Hw|]]. specialize (Hg g eq_refl).
  apply wpc_bind. eapply wpc_mono; [| |by apply lockDir_wpc]; [done|]. clear w Hw. intros [f|c] w (Hi & Hh & Hf); simpl in Hh.
  - apply wpc_ret; [done|]. split; [done|]. auto.
  - apply wpc_bind. eapply wpc_mono; [| |apply free_only; [by apply release_outside|done]]; [done|].
    intros [] u Hu. by apply wpc_ret; [apply Hu|].
Qed.

Lemma unlock_wpc {R} f g (r : R) Q w :
  locked w → f_path f = Entry lockDirectory → f_path g = GuardOwner → (∀ w', free w' → Q r w') →
  wpc benv J (bind (unlock (f, g)) (λ _, Ret r)) Q w.
Proof.
  intros [Hi Hh] Hf Hg HQ. unfold unlock. simpl. apply wpc_call; [done|]. fold @bind. intros a w' Hx. unfold benv in Hx.
  rewrite Hh in Hx. simpl in Hx. unfold is_lock in Hx. rewrite Hf, bool_decide_eq_true_2 in Hx by done.
  apply free_call; [by split|done|]. clear w Hi Hh. intros b w Hw. apply wpc_bind.
  eapply wpc_mono; [| |apply free_only; [by apply release_outside|done]]; [done|]. intros [] u Hu.
  apply wpc_ret; [apply Hu|]. by apply HQ.
Qed.

(** ** Under the lock: what is only read *)

Lemma locked_call {R A} (e : BCall A) (k : A → prog BCall R) Q w :
  locked w → (∀ a w', locked_env A e w a w' → wpc benv J (k a) Q w') → wpc benv J (Call e k) Q w.
Proof.
  intros [Hi Hh] Hk. apply wpc_call; [done|]. intros a w' Hx. apply Hk. unfold benv in Hx. by rewrite Hh in Hx.
Qed.

(** [p] leaves the world alone and its result satisfies [P]. *)
Definition reads {R} (p : prog BCall R) (P : R → Prop) (w : bworld) : Prop :=
  ∀ T (k : R → prog BCall T) Q, (∀ r, P r → wpc benv J (k r) Q w) → wpc benv J (bind p k) Q w.

Lemma reads_ret {R} (r : R) (P : R → Prop) w : P r → reads (Ret r) P w.
Proof. intros HP T k Q Hk. by apply Hk. Qed.

Lemma reads_call {R A} (e : BCall A) (k : A → prog BCall R) P w :
  locked w → (∀ a w', locked_env A e w a w' → w' = w ∧ reads (k a) P w) → reads (Call e k) P w.
Proof.
  intros Hw He T k' Q Hk. apply locked_call; [done|]. fold @bind. intros a w' Hx. destruct (He a w' Hx) as [-> Hr].
  by apply Hr.
Qed.

Lemma reads_bind {R S} (p : prog BCall R) (f : R → prog BCall S) P P' w :
  reads p P w → (∀ r, P r → reads (f r) P' w) → reads (bind p f) P' w.
Proof.
  intros Hp Hf T k Q Hk. apply wpc_assoc, Hp. intros r Hr. by apply Hf.
Qed.

Lemma reads_wpc {R} (p : prog BCall R) P (Q : R → bworld → Prop) w :
  locked w → reads p P w → (∀ r, P r → Q r w) → wpc benv J p Q w.
Proof. intros [Hi _] Hp HQ. apply wpc_bind_ret, Hp. intros r Hr. apply wpc_ret; auto. Qed.

Definition found {A} (w : bworld) (name : string) (P : A → Prop) (r : result ioerror A) : Prop :=
  match r with Ok a => P a | Err ENotExist => bw_dir w !! name = None | Err EOther => True end.

Ltac read_call := apply reads_call; [assumption|]; simpl;
  let a := fresh "a" in let w' := fresh "w'" in let Hx := fresh "Hx" in intros a w' Hx.

Section readers.
Variables (w : bworld) (Hw : locked w).

Lemma ValidateRegular_reads name max : name ≠ lockDirectory →
  reads (ValidateRegular (Entry name) max) (found w name (λ i, bw_dir w !! name = Some (fi_ino i))) w.
Proof using Hw.
  intros Hnl. unfold ValidateRegular. read_call. destruct Hx as [-> Hx]. specialize (Hx Hnl). split; [done|]. apply reads_ret. destruct a as [i| |]; simpl; [|done..].
  by destruct (_ || _).
Qed.

Lemma openRegular_reads name max : name ≠ lockDirectory →
  reads (openRegular (Entry name) max) (found w name (λ f, f_path f = Entry name ∧ bw_dir w !! name = Some (f_ino f))) w.
Proof using Hw.
  intros Hnl. unfold openRegular. eapply reads_bind; [by apply ValidateRegular_reads|]. intros [i|e] Hi; [|by apply reads_ret].
  read_call. destruct Hx as [-> Hx]. specialize (Hx Hnl). split; [done|]. destruct a as [ino| | |]; [|by apply reads_ret..]. simpl.
  assert (Hc : reads (Call (BClose (MkFile (Entry name) ino)) (λ _, Ret (Err EOther)))
    (found w name (λ f, f_path f = Entry name ∧ bw_dir w !! name = Some (f_ino f))) w).
  { read_call. subst. split; [done|]. by apply reads_ret. }
  read_call. subst. split; [done|]. destruct a as [stat|]; [|exact Hc]. destruct (_ =? _)%nat; [by apply reads_ret|exact Hc].
Qed.

Lemma readSmallRegular_reads name max : name ≠ lockDirectory → 0 ≤ max → reads (readSmallRegular (Entry name) max) (found w name (has w name)) w.
Proof using Hw.
  intros Hnl Hmax. unfold readSmallRegular. eapply reads_bind; [by apply openRegular_reads|].
  intros [[p i]|e] Hf; [|by apply reads_ret]. destruct Hf as [Hp Hf]. simpl in Hp, Hf. subst p.
  read_call. destruct Hx as [-> Hx]. split; [done|]. read_call. subst. split; [done|]. apply reads_ret.
  destruct a as [s|]; [|done]. destruct (Hx s eq_refl) as (t & Ht & ->). destruct (max <? _) eqn:Hlen; [done|].
  apply Z.ltb_ge in Hlen. exists i. split; [done|]. rewrite Ht. f_equal. unfold slen in Hlen.
  rewrite length_substring_0 in Hlen. symmetry. apply substring_prefix_0. lia.
Qed.

Lemma hasManagedState_reads : reads hasManagedState (λ r, match r with
  | Ok true => has w markerFile markerText | Ok false => bw_dir w !! markerFile = None | Err _ => True end) w.
Proof using Hw.
  unfold hasManagedState. read_call. destruct Hx as [-> Hx]. split; [done|]. destruct a as [i| |].
  - destruct (_ || _); [by apply reads_ret|]. eapply reads_bind; [by apply readSmallRegular_reads|].
    intros [s|[]] Hs; [|read_call; destruct Hx0 as [-> _]; split; [done|]; apply reads_ret|by apply reads_ret].
    + apply reads_ret. destruct (str_eqb s markerText) eqn:He; [|done]. apply String.eqb_eq in He. by subst.
    + destruct a as [l|]; [|done]. by destruct (forallb _ l).
  - apply reads_ret. rewrite Hx. apply lookup_empty.
  - by apply reads_ret.
Qed.

Lemma readSettings_reads unmarshal :
  reads (readSettings unmarshal) (λ r, is_Some r → is_Some (bw_dir w !! settingsFile)) w.
Proof using Hw.
  unfold readSettings. eapply reads_bind; [by apply openRegular_reads|].
  intros [f|e] Hf; [|apply reads_ret; by intros []]. destruct f as [p i], Hf as [Hp Hf]. simpl in Hp, Hf. subst p.
  set (f := MkFile (Entry settingsFile) i).
  assert (Hc : ∀ v, reads (Call (BClose f) (λ _, Ret v)) (λ r : option Settings, is_Some r → is_Some (bw_dir w !! settingsFile)) w).
  { intros v. read_call. subst. split; [done|]. apply reads_ret. intros _. by rewrite Hf. }
  read_call. destruct Hx as [-> _]. split; [done|]. destruct a as [s|]; [|apply Hc]. destruct (unmarshal s); [|apply Hc].
  read_call. subst. split; [done|]. apply Hc.
Qed.

Lemma checkManaged_reads r l : rg_fileName r ≠ lockDirectory → reads (checkManaged r l) (λ e, e = None → has w (rg_fileName r) (rg_content r)) w.
Proof using Hw.
  intros Hnl. induction l as [|e l IH]; simpl.
  - eapply reads_bind; [by apply readSmallRegular_reads|]. intros [s|e] Hs; apply reads_ret; [|done].
    destruct (str_eqb s _) eqn:He; [|done]. apply String.eqb_eq in He. by subst.
  - destruct (negb _); [by apply reads_ret|]. destruct (str_eqb _ _); [done|].
    read_call. destruct Hx as [-> _]. split; [done|]. destruct a as [i| |]; [|by apply reads_ret..].
    destruct (_ || _); [by apply reads_ret|done].
Qed.

Lemma validateManagedFiles_reads r : rg_fileName r ≠ lockDirectory → reads (validateManagedFiles r) (λ e, e = None → has w (rg_fileName r) (rg_content r)) w.
Proof using Hw.
  intros Hnl. unfold validateManagedFiles. read_call. destruct Hx as [-> _]. split; [done|]. destruct a as [l|]; [|by apply reads_ret].
  by apply checkManaged_reads.
Qed.

Lemma disabling_reads : reads disabling (λ _, True) w.
Proof using Hw. unfold disabling. read_call. destruct Hx as [-> _]. split; [done|]. by apply reads_ret. Qed.

Lemma loadManaged_reads root registrations unmarshal :
  (∀ s r, registrations s = Some r → rg_fileName r ≠ lockDirectory) →
  reads (loadManaged root registrations unmarshal) (λ x, ∀ s r, x = Ok (s, r) → registrations s = Some r ∧ managed r w) w.
Proof using Hw.
  intros Hnl. unfold loadManaged. eapply reads_bind; [apply hasManagedState_reads|]. intros [[|]|c] Hm; [|by apply reads_ret..].
  eapply reads_bind; [apply readSettings_reads|]. intros [s|] Hs; [|by apply reads_ret].
  destruct (overlapping _ _); [by apply reads_ret|]. destruct (registrations s) as [r|] eqn:Hr; [|by apply reads_ret].
  eapply reads_bind; [apply validateManagedFiles_reads; by eapply Hnl|]. intros [c|] He; apply reads_ret; [done|].
  intros s' r' [= <- <-]. split; [done|]. split; [done|by apply Hs|by apply He].
Qed.
End readers.
End host.
