(* ===== verification/BackgroundSafety.v ===== *)
(** * The background profile: no job without its managed state

    Whatever calls fail, wherever an operation dies and however operations of other
    processes are ordered around it, a job registered with the service manager always
    has its marker, its settings and its exact template: it can be found and removed
    again.  This file has one specification per operation. *)

From S2P Require Import Prelude GoText Effects Background BackgroundHost.

#[local] Open Scope string_scope.
#[local] Open Scope Z_scope.

Definition inv (w : bworld) : Prop := ∀ r, bw_job w = Some r → managed r w.

Local Notation benv := (BackgroundHost.benv (J := inv)).
Local Notation free := (BackgroundHost.free (J := inv)).
Local Notation locked := (BackgroundHost.locked (J := inv)).
Local Notation reads := (BackgroundHost.reads (J := inv)).

(** ** Under the lock: what changes *)

(** Only the names [ns] and new files are touched. *)
Record frame (ns : list string) (w w' : bworld) : Prop := {
  fr_job : bw_job w' = bw_job w;
  fr_held : bw_held w' = bw_held w;
  fr_nodes : bw_nodes w ⊆ bw_nodes w';
  fr_dir : ∀ n, n ∉ ns → bw_dir w' !! n = bw_dir w !! n }.

Lemma frame_refl ns w : frame ns w w.
Proof. by split. Qed.
Lemma frame_trans ns w1 w2 w3 : frame ns w1 w2 → frame ns w2 w3 → frame ns w1 w3.
Proof.
  intros [J1 H1 N1 D1] [J2 H2 N2 D2]. split; [congruence|congruence|by etrans|]. intros n Hn. by rewrite D2, D1.
Qed.
Lemma frame_has ns w w' name text : frame ns w w' → name ∉ ns → has w name text → has w' name text.
Proof.
  intros F Hn (i & Hd & Hi). exists i. rewrite (fr_dir _ _ _ F) by done. split; [done|].
  eapply lookup_weaken; [done|apply F].
Qed.

(** The names a job depends on are not among [ns]. *)
Definition apart (ns : list string) (r : registration) : Prop := markerFile ∉ ns ∧ settingsFile ∉ ns ∧ rg_fileName r ∉ ns.

Lemma frame_managed ns w w' r : frame ns w w' → apart ns r → managed r w → managed r w'.
Proof.
  intros F (A1 & A2 & A3) [H1 H2 H3]. split; [by eapply frame_has| |by eapply frame_has].
  by rewrite (fr_dir _ _ _ F).
Qed.
Lemma frame_locked ns w w' : frame ns w w' → locked w → (∀ r, bw_job w = Some r → apart ns r) → locked w'.
Proof.
  intros F [Hi Hh] Ha. split; [|by rewrite (fr_held _ _ _ F)]. intros r Hr. rewrite (fr_job _ _ _ F) in Hr.
  eapply frame_managed; [done|by apply Ha|by apply Hi].
Qed.

Lemma next_not_lock name : str_eqb (name ++ ".next") lockDirectory = false.
Proof.
  apply String.eqb_neq. unfold lockDirectory. intros H.
  do 15 (destruct name as [|? name]; [discriminate H|rewrite append_cons in H; injection H as _ H]). by destruct name.
Qed.

Section write.
Variables (name text : string) (w : bworld).
Let ns := [name; name ++ ".next"].
Hypothesis Hw : locked w.
Hypothesis Hapart : ∀ r, bw_job w = Some r → apart ns r.

Definition wrote (ok : bool) (w' : bworld) : Prop := frame ns w w' ∧ locked w' ∧ (ok = true → has w' name text).

Lemma wrote_remove f w' : frame ns w w' →
  wpc benv inv (Call (BClose f) (λ _, Call (BRemove (next name)) (λ _, Ret false))) wrote w'.
Proof using Hw Hapart.
  intros F. pose proof (frame_locked _ _ _ F Hw Hapart) as L. apply locked_call; [done|]. simpl. intros _ w1 ->.
  apply locked_call; [done|]. simpl. intros a w2 Hx.
  assert (frame ns w w2) as F2.
  { assert (w2 = w' ∨ w2 = with_dir w' (delete (name ++ ".next") (bw_dir w'))) as [->| ->]
      by (destruct a; destruct_and?; naive_solver); [done|].
    eapply frame_trans; [exact F|]. split; [done|done|done|]. intros n Hn. simpl.
    rewrite lookup_delete_ne; [done|]. intros <-. apply Hn. subst ns. set_solver. }
  pose proof (frame_locked _ _ _ F2 Hw Hapart) as L2. apply wpc_ret; [apply L2|]. by split_and!.
Qed.

Lemma writePrivateAtomic_wpc : wpc benv inv (writePrivateAtomic name text) wrote w.
Proof using Hw Hapart.
  unfold writePrivateAtomic. apply locked_call; [done|]. simpl. intros opened w1 Hx.
  assert (Hno : frame ns w w1 → wpc benv inv (Ret false) wrote w1).
  { intros F. pose proof (frame_locked _ _ _ F Hw Hapart) as L. apply wpc_ret; [apply L|]. by split_and!. }
  assert (F1 : ∀ i, new_file (name ++ ".next") i w w1 → frame ns w w1).
  { intros i (_ & Hn & ->). split; [done|done|by apply insert_subseteq|]. intros n Hn'. simpl. rewrite lookup_insert_ne; [done|].
    intros <-. apply Hn'. unfold ns. set_solver. }
  destruct opened as [ino| | |]; [|subst w1; by apply Hno, frame_refl..|].
  2: { apply Hno. destruct Hx as [->|[_ [i Hi]]]; [apply frame_refl|by eapply F1]. }
  clear Hno. assert (str_eqb (name ++ ".next") lockDirectory = false) as Hnl by apply next_not_lock. rewrite Hnl in Hx.
  apply F1 in Hx as F1'. clear F1. rename F1' into F1. destruct Hx as (Hd & Hn & ->). cbv zeta.
  set (w1 := with_dir _ _) in *. set (f := MkFile (next name) ino).
  assert (N1 : bw_nodes w1 !! ino = Some "") by apply lookup_insert_eq.
  assert (D1 : bw_dir w1 !! (name ++ ".next") = Some ino) by apply lookup_insert_eq. clearbody w1.
  apply locked_call; [by eapply frame_locked|]. simpl. intros restricted w2 ->. destruct (negb restricted); [by apply wrote_remove|].
  apply locked_call; [by eapply frame_locked|]. simpl. intros [n ok] w2 [[[= ->] ->]|(t & k & Ht & Hk & Hnk & ->)]; [by apply wrote_remove|].
  rewrite N1 in Ht. injection Ht as <-. simpl in *. subst n.
  set (w2 := with_nodes w1 _). assert (F2 : frame ns w w2).
  { split; [apply F1|apply F1| |apply F1]. intros j. simpl. destruct (decide (j = ino)) as [->|Hj].
    - rewrite Hn, lookup_insert_eq. done.
    - rewrite lookup_insert_ne by done. apply F1. }
  destruct (_ || _) eqn:Hshort; [by apply wrote_remove|]. bools.
  assert (N2 : bw_nodes w2 !! ino = Some text).
  { unfold slen in *. assert (k = String.length text) as -> by lia. simpl. rewrite lookup_insert_eq.
    by rewrite substring_prefix_0. }
  assert (D2 : bw_dir w2 !! (name ++ ".next") = Some ino) by done. clearbody w2. clear F1 N1 D1 w1 H H0.
  apply locked_call; [by eapply frame_locked|]. simpl. intros synced w3 ->. destruct (negb synced); [by apply wrote_remove|].
  apply locked_call; [by eapply frame_locked|]. simpl. intros closed w3 ->. destruct (negb closed); [by apply wrote_remove|].
  apply locked_call; [by eapply frame_locked|]. simpl. intros renamed w3 Hx.
  assert (frame ns w w3 ∧ (renamed = true → has w3 name text)) as [F3 H3].
  { destruct Hx as [[-> ->]|(i & Hi & ->)]; [done|]. rewrite D2 in Hi. injection Hi as <-. split.
    - eapply frame_trans; [exact F2|]. split; [done|done|done|]. intros n Hn'. simpl.
      rewrite lookup_insert_ne, lookup_delete_ne; [done|..]; intros <-; apply Hn'; subst ns; set_solver.
    - intros _. exists ino. simpl. by rewrite lookup_insert_eq. }
  destruct renamed; cbn [negb]; [|by apply wrote_remove].
  apply locked_call; [by eapply frame_locked|]. simpl. intros _ w4 ->.
  pose proof (frame_locked _ _ _ F3 Hw Hapart) as L3. apply wpc_ret; [apply L3|]. split_and!; auto.
Qed.
End write.

(** Nothing is registered: the files may be changed freely. *)
Definition idle (w : bworld) : Prop := bw_job w = None ∧ bw_held w = true.

Lemma idle_locked w : idle w → locked w.
Proof. intros [Hj Hh]. split; [|done]. intros r. by rewrite Hj. Qed.

Definition not_job A (e : BCall A) : Prop := match e with ARegister _ | BUnlock _ => False | _ => True end.

Lemma idle_step A (e : BCall A) w a w' : not_job A e → benv A e w a w' → idle w → idle w'.
Proof.
  intros He Hx [Hj Hh]. unfold benv in Hx. rewrite Hh in Hx.
  destruct e as [[]|[]|[]|[] []| |[[] ?]|[[] ?]| | | | | |[] []|[]|[]| | | | | | | | | |]; simpl in *;
    repeat match goal with
    | a : open_answer |- _ => destruct a
    | H : if ?b then _ else _ |- _ => destruct b
    | a : remove_answer |- _ => destruct a
    | H : _ ∨ _ |- _ => destruct H
    | H : _ ∧ _ |- _ => destruct H
    | H : ∃ _, _ |- _ => destruct H
    | H : new_file _ _ _ _ |- _ => destruct H as (? & ? & ?)
    end; subst; try done.
Qed.

Lemma idle_only {R} (p : prog BCall R) w : only not_job p → idle w → wpc benv inv p (λ _, idle) w.
Proof.
  intros Hp Hw. eapply wpc_mono; [| |apply (only_frame benv not_job idle p w Hp); [|done]]; [by intros ? []%idle_locked|done|].
  intros A e u a u'. apply idle_step.
Qed.

Ltac only_walk := walk_only ltac:(exact I).

Lemma openRegular_not_job p max : only not_job (openRegular p max).
Proof. unfold openRegular, ValidateRegular. only_walk. Qed.
Lemma recoverPartialEnable_not_job r : only not_job (recoverPartialEnable r).
Proof.
  pose proof openRegular_not_job. unfold recoverPartialEnable. split; [exact I|]. intros [l|]; [|exact I].
  induction l as [|e l IH]; simpl; only_walk.
Qed.
Lemma removeEach_not_job names : only not_job (removeEach names).
Proof. induction names as [|name names IH]; simpl; only_walk. Qed.

Lemma removeEach_wpc names w : idle w →
  wpc benv inv (removeEach names) (λ e w', idle w' ∧ (e = None → ∀ n, n ∈ names ∨ bw_dir w !! n = None → bw_dir w' !! n = None)) w.
Proof.
  revert w. induction names as [|name names IH]; intros w Hw; simpl.
  { apply wpc_ret; [by apply idle_locked|]. split; [done|]. intros _ n [[]%elem_of_nil|?]; done. }
  apply locked_call; [by apply idle_locked|]. intros a w1 Hx.
  assert (idle w1) as H1. { eapply (idle_step _ (BRemove (Entry name))); [exact I| |exact Hw]. unfold benv. destruct Hw as [_ ->]. exact Hx. }
  assert (a ≠ RemoveFailed → ∀ n, n = name ∨ bw_dir w !! n = None → bw_dir w1 !! n = None) as Hd.
  { simpl in Hx. intros Ha n Hn. destruct a; [subst w1; simpl| |done].
    - destruct Hn as [->|Hn]; [apply lookup_delete_eq|]. by apply lookup_delete_None; right.
    - destruct Hx as [Hx ->]. destruct Hn as [->|Hn]; done. }
  destruct a; [| |by apply wpc_ret; [apply idle_locked|]].
  all: eapply wpc_mono; [| |apply (IH w1 H1)]; [done|]; intros e w2 [H2 Hn]; split; [done|]; intros ->.
  all: intros n Hin; apply (Hn eq_refl); rewrite elem_of_cons in Hin; specialize (Hd ltac:(done) n); tauto.
Qed.

Lemma in_platformFiles f : f ∈ platformFiles → f = "home-lab-observer.service" ∨ f = "com.braidenm.home-lab-observer.plist" ∨ f = "task.xml".
Proof. unfold platformFiles. rewrite !elem_of_cons, elem_of_nil. tauto. Qed.

Lemma platform_not_lock f : f ∈ platformFiles → f ≠ lockDirectory.
Proof. by intros [->|[->| ->]]%in_platformFiles. Qed.

Ltac names_differ :=
  repeat match goal with H : _ ∨ _ |- _ => destruct H as [H|H] end;
  repeat match goal with H : rg_fileName ?r = _ |- _ => rewrite H in * end;
  rewrite ?elem_of_cons, ?elem_of_nil; intuition discriminate.

Section operations.
Variables (root : string) (registrations : Settings → option registration).
Variables (marshal : Settings → string) (unmarshal : string → option Settings).
(** Each adapter has its fixed file name. *)
Hypothesis platform_names : ∀ s r, registrations s = Some r → rg_fileName r ∈ platformFiles.

Lemma initialize_wpc s r w : rg_fileName r ∈ platformFiles → idle w →
  wpc benv inv (initializeManagedState marshal s r) (λ e w', idle w' ∧ (e = None → managed r w')) w.
Proof.
  intros Hr%in_platformFiles Hw.
  assert (Hj : ∀ ns w, idle w → ∀ r, bw_job w = Some r → apart ns r) by (intros ns u [Hj _] r'; by rewrite Hj).
  assert (Hi : ∀ ns w w', frame ns w w' → idle w → idle w') by (intros ns u u' [E1 E2 _ _] [? ?]; split; congruence).
  assert (Herr : ∀ (c : Code) w', idle w' → wpc benv inv (Ret (Some c)) (λ (e : option Code) w', idle w' ∧ (e = None → managed r w')) w').
  { intros c w' Hw'. by apply wpc_ret; [apply idle_locked|]. }
  unfold initializeManagedState, writeSettings. apply wpc_bind.
  eapply wpc_mono; [| |apply writePrivateAtomic_wpc; [by apply idle_locked|by apply Hj]]; [done|].
  intros ok w1 (F1 & L1 & H1). pose proof (Hi _ _ _ F1 Hw) as I1. destruct ok; cbn [negb]; [|by apply Herr]. specialize (H1 eq_refl).
  apply wpc_bind. eapply wpc_mono; [| |apply writePrivateAtomic_wpc; [by apply idle_locked|by apply Hj]]; [done|].
  intros ok w2 (F2 & L2 & H2). pose proof (Hi _ _ _ F2 I1) as I2. destruct ok; cbn [negb]; [|by apply Herr]. specialize (H2 eq_refl).
  apply wpc_bind. eapply wpc_mono; [| |apply writePrivateAtomic_wpc; [by apply idle_locked|by apply Hj]]; [done|].
  intros ok w3 (F3 & L3 & H3). pose proof (Hi _ _ _ F3 I2) as I3. destruct ok; [|by apply Herr].
  apply wpc_ret; [apply L3|]. split; [done|]. intros _. split; [by apply H3| |].
  - destruct H1 as (i & Hd & _). rewrite (fr_dir _ _ _ F3), (fr_dir _ _ _ F2); [by rewrite Hd|names_differ..].
  - eapply frame_has; [exact F3|names_differ|done].
Qed.

Lemma absent_idle w : locked w → bw_dir w !! markerFile = None → idle w.
Proof.
  intros [Hi Hh] Hm. split; [|done]. destruct (bw_job w) as [r|] eqn:Hr; [|done].
  destruct (Hi r Hr) as [(i & Hd & _) _ _]. congruence.
Qed.

Lemma enableFiles_wpc s r w : rg_fileName r ∈ platformFiles → locked w →
  wpc benv inv (enableFiles marshal unmarshal s r) (λ e w', locked w' ∧ (e = None → managed r w')) w.
Proof.
  intros Hr Hw. unfold enableFiles.
  set (Q := λ (e : option Code) w', locked w' ∧ (e = None → managed r w')).
  assert (Herr : ∀ c w', locked w' → wpc benv inv (Ret (Some c)) Q w') by (intros c w' Hw'; by apply wpc_ret; [apply Hw'|]).
  assert (Hnew : ∀ w', idle w' → wpc benv inv (bind (recoverPartialEnable r) (λ e, match e with
    | Some c => Ret (Some c) | None => initializeManagedState marshal s r end)) Q w').
  { intros w' Hw'. apply wpc_bind. eapply wpc_mono; [| |apply idle_only; [apply recoverPartialEnable_not_job|done]]; [done|].
    intros [c|] w2 H2; [by apply Herr, idle_locked|]. eapply wpc_mono; [| |by apply initialize_wpc]; [done|].
    intros e w3 [H3 Hm]. split; [by apply idle_locked|done]. }
  apply hasManagedState_reads; [done|]. intros [[|]|c] Hm.
  - simpl. apply readSettings_reads; [done|]. intros v Hv. destruct (negb _) eqn:He; [by apply Herr|].
    apply negb_false_iff, bool_decide_eq_true_1 in He. subst v. eapply reads_wpc; [done|apply validateManagedFiles_reads; [done|by apply platform_not_lock]|].
    intros e Ht. split; [done|]. intros ->. split; [done|by apply Hv|by apply Ht].
  - apply Hnew. by apply absent_idle.
  - apply locked_call; [done|]. simpl. intros a w1 [-> Ha]. specialize (Ha ltac:(done)). destruct a as [i| |]; [by apply Herr| |by apply Herr].
    apply wpc_assoc, wpc_bind. eapply wpc_mono; [| |apply idle_only; [apply recoverPartialEnable_not_job|by apply absent_idle]]; [done|].
    intros [c'|] w2 H2; [by apply Herr, idle_locked|]. by apply Hnew.
Qed.

(** The managed files are there, and no other job than theirs. *)
Record keeping (r : registration) (w : bworld) : Prop := {
  kp_managed : managed r w;
  kp_held : bw_held w = true;
  kp_job : bw_job w = None ∨ bw_job w = Some r }.

Lemma keeping_locked r w : keeping r w → locked w.
Proof. intros [Hm Hh Hj]. split; [|done]. intros r' Hr'. destruct Hj as [Hj|Hj]; congruence. Qed.

Definition job_only A (e : BCall A) : Prop :=
  match e with AInspect _ | AStart | AStop _ _ | AProbe _ | ATick | AAvailable => True | _ => False end.

Lemma with_job_managed r w j : managed r w → managed r (with_job w j).
Proof. intros [H1 H2 H3]. by split. Qed.

Lemma keeping_step r A (e : BCall A) w a w' : job_only A e → benv A e w a w' → keeping r w → keeping r w'.
Proof.
  intros He Hx [Hm Hh Hj]. unfold benv in Hx. rewrite Hh in Hx. destruct e; simpl in He; try done; simpl in Hx; try by subst.
  destruct Hx as [[->| ->] _]; [done|]. split; [by apply with_job_managed|done|by left].
Qed.

Lemma keeping_only {R} r (p : prog BCall R) w : only job_only p → keeping r w → wpc benv inv p (λ _, keeping r) w.
Proof.
  intros Hp Hw. eapply wpc_mono; [| |apply (only_frame benv job_only (keeping r) p w Hp); [|done]]; [by intros ? []%keeping_locked|done|].
  intros A e u a u'. apply keeping_step.
Qed.

Lemma waitForStopped_job_only n r : only job_only (waitForStopped n r).
Proof. induction n as [|n IH]; simpl; only_walk. Qed.
Lemma stopJob_job_only force s r st : only job_only (stopJob force s r st).
Proof. unfold stopJob. pose proof waitForStopped_job_only. only_walk. Qed.
Lemma statusLocked_job_only s r : only job_only (statusLocked s r).
Proof. unfold statusLocked. only_walk. Qed.
Hint Resolve stopJob_job_only statusLocked_job_only : core.

(** An inspection that answers settles whether the job is there. *)
Lemma inspect_wpc {R} r w (k : result berror managerState → prog BCall R) Q :
  locked w → managed r w →
  (∀ e w', locked w' → managed r w' → wpc benv inv (k (Err e)) Q w') →
  (∀ st w', locked w' → managed r w' → (ms_available st = true → keeping r w' ∧ bw_job w' = if ms_registered st then Some r else None) →
    wpc benv inv (k (Ok st)) Q w') →
  wpc benv inv (Call (AInspect r) k) Q w.
Proof.
  intros Hw Hm He Hk. apply locked_call; [done|]. intros a w' [Hx Hs].
  assert (locked w' ∧ managed r w') as [L M].
  { destruct Hx as [->| ->]; [done|]. split; [|by apply with_job_managed]. split; [done|apply Hw]. }
  destruct a as [st|e]; [|by apply He]. apply Hk; [done|done|]. intros Ha. specialize (Hs st eq_refl Ha). split; [|done].
  split; [done|apply L|]. rewrite Hs. destruct (ms_registered st); auto.
Qed.

Lemma locked_ret (r : outcome) w : locked w → wpc benv inv (Ret r) (λ _, locked) w.
Proof. intros Hw. by apply wpc_ret; [apply Hw|]. Qed.

Lemma keeping_end r (p : prog BCall outcome) w : only job_only p → keeping r w → wpc benv inv p (λ _, locked) w.
Proof.
  intros Hp Hw. eapply wpc_mono; [| |by apply (keeping_only r)]; [done|]. intros o w' Hk. exact (keeping_locked r w' Hk).
Qed.

Lemma enableJob_wpc s r w : locked w → managed r w → wpc benv inv (enableJob s r) (λ _, locked) w.
Proof.
  intros Hw Hm. unfold enableJob. apply inspect_wpc; [done|done|by intros; apply locked_ret|]. clear w Hw Hm. intros st w Hw Hm Hs.
  destruct (ms_available st); cbn [negb]; [|by apply locked_ret]. destruct (Hs eq_refl) as [K _]. clear Hs.
  apply wpc_bind. destruct (negb (ms_registered st)).
  - apply locked_call; [done|]. simpl. intros b w1 Hx.
    assert (keeping r w1) as K1.
    { destruct Hx as [->|[_ ->]]; [|done]. split; [by apply with_job_managed|apply Hw|by right]. }
    apply wpc_ret; [by apply (keeping_locked r)|]. apply (keeping_end r); [|done]. only_walk.
  - apply wpc_ret; [apply Hw|]. apply (keeping_end r); [|done]. only_walk.
Qed.

(** What a completed [Disable] leaves. *)
Definition disabled (r : registration) (w : bworld) : Prop :=
  bw_job w = None ∧ ∀ n, n ∈ [markerFile; settingsFile; rg_fileName r; disablingFile] → bw_dir w !! n = None.

Lemma disableFiles_wpc r st w : idle w →
  wpc benv inv (bind (removeManagedState r) (λ e, match e with
      | Some c => Ret (None, Some (Coded c))
      | None => Ret (Some (statusFor (MkManagerState (ms_available st) false false) ReadinessUnknown), None) end))
    (λ (o : outcome) w', locked w' ∧ (o.2 = None → disabled r w')) w.
Proof.
  intros Hw. apply wpc_bind. eapply wpc_mono; [| |by apply removeEach_wpc]; [done|]. intros [c|] w' [Hi Hn].
  - apply wpc_ret; [by apply idle_locked|]. split; [by apply idle_locked|done].
  - apply wpc_ret; [by apply idle_locked|]. split; [by apply idle_locked|]. intros _. split; [apply Hi|].
    intros n Hin. apply Hn; auto.
Qed.

Lemma disableManaged_wpc force s r w : rg_fileName r ∈ platformFiles → locked w → managed r w →
  wpc benv inv (disableManaged force s r) (λ o w', locked w' ∧ (o.2 = None → disabled r w')) w.
Proof.
  intros Hr%in_platformFiles Hw Hm. unfold disableManaged.
  set (Q := λ (o : outcome) w', locked w' ∧ (o.2 = None → disabled r w')).
  assert (Herr : ∀ o w' e, o.2 = Some e → locked w' → wpc benv inv (Ret o) Q w').
  { intros o w' e Ho Hw'. apply wpc_ret; [apply Hw'|]. split; [done|]. by rewrite Ho. }
  apply inspect_wpc; [done|done|by intros; eapply Herr|]. clear w Hw Hm. intros st w Hw Hm Hs.
  destruct (ms_available st) eqn:Ha; cbn [negb]; [|by eapply Herr]. destruct (Hs eq_refl) as [K Hj]. clear Hs.
  apply wpc_bind. eapply wpc_mono; [| |apply (only_frame benv job_only
    (λ w', keeping r w' ∧ (ms_registered st = false → bw_job w' = None))); [apply stopJob_job_only| |]]; simpl.
  - intros ? [? _]. by apply (keeping_locked r).
  - intros stopped w1 [K1 J1]. pose proof (keeping_locked r w1 K1) as L1. destruct (negb stopped); [by eapply Herr|].
    rewrite <- Ha. apply wpc_bind. destruct (ms_registered st).
    + apply wpc_bind. eapply wpc_mono; [| |apply writePrivateAtomic_wpc; [done|]]; [done| |].
      * intros ok w2 (F2 & L2 & _). destruct (negb ok); [by apply wpc_ret; [apply L2|eapply Herr]|].
        apply locked_call; [done|]. simpl. intros un w3 Hx.
        destruct Hx as [->|[-> ->]]; [|by apply wpc_ret; [apply L2|eapply Herr]].
        assert (idle (with_job w2 None)) as I3 by (split; [done|apply L2]).
        apply wpc_ret; [by apply idle_locked|]. destruct un; [by apply disableFiles_wpc|eapply Herr; [done|by apply idle_locked]].
      * intros r' Hr'. destruct K1 as [_ _ [?|Hj']]; [congruence|]. assert (r' = r) as -> by congruence.
        unfold apart. split_and!; names_differ.
    + apply wpc_ret; [apply L1|]. apply disableFiles_wpc. split; [by apply J1|apply L1].
  - intros A e u a u' He Hx [Ku Ju]. split; [by eapply keeping_step|]. intros Hreg. specialize (Ju Hreg).
    destruct Ku as [_ Hh _]. unfold benv in Hx. rewrite Hh in Hx. destruct e; simpl in He; try done; simpl in Hx; try by subst.
    by destruct Hx as [[->| ->] _].
  - split; [done|]. intros Hreg. by rewrite Hj, Hreg.
Qed.

Notation withManaged := (withManaged root registrations unmarshal).

Lemma withManaged_wpc op w : free w →
  (∀ s r w', rg_fileName r ∈ platformFiles → locked w' → managed r w' → wpc benv inv (op s r) (λ _, locked) w') →
  wpc benv inv (withManaged op) (λ _, free) w.
Proof.
  intros Hw Hop. unfold Background.withManaged. apply wpc_bind. eapply wpc_mono; [| |by apply lock_wpc]; [done|].
  clear w Hw. intros [[f g]|c] w Hw; [|by apply wpc_ret; [apply Hw|]]. destruct Hw as (Hw & Hf & Hg).
  apply loadManaged_reads; [done|by intros s r H; eapply platform_not_lock, platform_names|]. intros x Hx. apply wpc_bind.
  assert (Hin : wpc benv inv (match x with Err c => Ret (None, Some (Coded c)) | Ok (s, r) => op s r end) (λ _, locked) w).
  { destruct x as [[s r]|c]; [|by apply locked_ret]. destruct (Hx s r eq_refl) as [Hs Hm]. apply Hop; [by eapply platform_names|done|done]. }
  eapply wpc_mono; [| |exact Hin]; [done|]. intros o w' Hw'. by apply unlock_wpc.
Qed.

Lemma Start_wpc w : free w → wpc benv inv (Start root registrations unmarshal) (λ _, free) w.
Proof.
  intros Hw. apply withManaged_wpc; [done|]. clear w Hw. intros s r w _ Hw Hm.
  apply disabling_reads; [done|]. intros d _. destruct d; [by apply locked_ret|].
  apply inspect_wpc; [done|done|by intros; apply locked_ret|]. clear w Hw Hm. intros st w Hw Hm Hs.
  destruct (ms_available st); cbn [negb]; [|by apply locked_ret]. destruct (negb _); [by apply locked_ret|].
  destruct (Hs eq_refl) as [K _]. apply (keeping_end r); [|done]. only_walk.
Qed.

Lemma stop_job_wpc force restart w : free w → wpc benv inv (stop root registrations unmarshal force restart) (λ _, free) w.
Proof.
  intros Hw. apply withManaged_wpc; [done|]. clear w Hw. intros s r w _ Hw Hm.
  apply disabling_reads; [done|]. intros d _. destruct d; [by apply locked_ret|].
  apply inspect_wpc; [done|done|by intros; apply locked_ret|]. clear w Hw Hm. intros st w Hw Hm Hs.
  destruct (ms_available st); cbn [negb]; [|by apply locked_ret]. destruct (negb _); [by apply locked_ret|].
  destruct (Hs eq_refl) as [K _]. apply (keeping_end r); [|done]. only_walk.
Qed.

Lemma Enable_wpc s w : free w → wpc benv inv (Enable root registrations marshal unmarshal s) (λ _, free) w.
Proof.
  intros Hw. unfold Enable. apply free_call; [by split|done|]. clear w Hw. intros [s'|] w Hw; [|by apply wpc_ret; [apply Hw|]].
  destruct (overlapping _ _); [by apply wpc_ret; [apply Hw|]|].
  apply wpc_bind. eapply wpc_mono; [| |by apply lock_wpc]; [done|]. clear w Hw.
  intros [[f g]|c] w Hw; [|by apply wpc_ret; [apply Hw|]]. destruct Hw as (Hw & Hf & Hg).
  apply wpc_bind. eapply (wpc_mono _ _ _ _ (λ _, locked)); [done|intros o w' Hw'; by apply unlock_wpc|].
  apply disabling_reads; [done|]. intros d _. destruct d; [by apply locked_ret|].
  destruct (registrations s') as [r|] eqn:Hr; [|by apply locked_ret].
  apply wpc_bind. eapply wpc_mono; [| |apply enableFiles_wpc; [by eapply platform_names|done]]; [done|].
  intros [c|] w' [Hw' Hm]; [by apply locked_ret|]. apply enableJob_wpc; auto.
Qed.

Lemma reading_not_job p max : only not_job (readSmallRegular p max).
Proof. unfold readSmallRegular. pose proof openRegular_not_job. only_walk. Qed.
Lemma checkInterrupted_not_job l : only not_job (checkInterrupted l).
Proof. pose proof reading_not_job. induction l as [|e l IH]; simpl; only_walk. Qed.

(** Entries that pass are those an interrupted removal leaves, so that without an entry
    of its name there is no marker. *)
Lemma checkInterrupted_reads l w : locked w →
  reads (checkInterrupted l) (λ e, e = None → markerFile ∉ map de_name l) w.
Proof.
  intros Hw. induction l as [|e l IH]; cbn [checkInterrupted]; [apply reads_ret; intros _; apply not_elem_of_nil|].
  destruct (existsb (str_eqb (de_name e)) _) eqn:Hx; cbn [negb]; [|by apply reads_ret].
  assert (de_name e ≠ markerFile) as Hn by (intros E; rewrite E in Hx; by vm_compute in Hx).
  assert (∀ r : option Code, (r = None → markerFile ∉ map de_name l) → r = None → markerFile ∉ map de_name (e :: l)) as Hc.
  { intros r Hr Hr' [E|E]%elem_of_cons; [by apply Hn|by apply Hr]. }
  assert (reads (checkInterrupted l) (λ r, r = None → markerFile ∉ map de_name (e :: l)) w) as Hl.
  { intros T k Q Hk. apply IH. intros r Hr. by apply Hk, Hc. }
  destruct (str_eqb _ _) eqn:He; [exact Hl|]. eapply reads_bind; [apply readSmallRegular_reads; [done| |done]|].
  - intros E. by rewrite E, String.eqb_refl in He.
  - intros [s|c] _; [exact Hl|by apply reads_ret].
Qed.

Lemma resumeLocked_wpc w : locked w → wpc benv inv resumeLocked (λ _, locked) w.
Proof.
  intros Hw. unfold resumeLocked. apply locked_call; [done|]. intros a w' [-> _].
  destruct a as [i| |]; [by apply wpc_ret; [apply Hw|]|..].
  all: apply readSmallRegular_reads; [done|done|done|]; intros [t|[]] _; [|by apply wpc_ret; [apply Hw|]..].
  all: destruct (negb _); [by apply wpc_ret; [apply Hw|]|].
  all: apply locked_call; [done|]; intros [l|] w' [-> Hl]; [|by apply wpc_ret; [apply Hw|]].
  all: apply checkInterrupted_reads; [done|]; intros [c|] Hm; [by apply wpc_ret; [apply Hw|]|].
  all: assert (bw_dir w !! markerFile = None) as Habs by
    (apply eq_None_not_Some; rewrite (Hl l eq_refl) by done; by apply Hm).
  all: eapply wpc_mono; [| |apply idle_only; [|by apply absent_idle]]; [done|intros o u Hu; exact (idle_locked u Hu)|].
  all: pose proof removeEach_not_job; unfold notRegistered; only_walk.
Qed.

Lemma reading_outside p max : only outside (readSmallRegular p max).
Proof. unfold readSmallRegular, openRegular. pose proof ValidateRegular_outside. outside_only; destruct p; done. Qed.
Lemma hasManagedState_outside : only outside hasManagedState.
Proof. unfold hasManagedState. pose proof reading_outside. outside_only. Qed.
Lemma loadManaged_outside : only outside (loadManaged root registrations unmarshal).
Proof.
  unfold loadManaged, readSettings, openRegular, validateManagedFiles. pose proof hasManagedState_outside. pose proof ValidateRegular_outside.
  pose proof reading_outside. assert (∀ r l, only outside (checkManaged r l)) by (intros r l; induction l; simpl; outside_only).
  outside_only.
Qed.
Lemma GetStatus_outside : only outside (GetStatus root registrations unmarshal).
Proof.
  unfold GetStatus, notRegistered, statusLocked. pose proof hasManagedState_outside. pose proof loadManaged_outside. outside_only.
Qed.

Lemma Disable_wpc force w : free w → wpc benv inv (Disable root registrations unmarshal force) (λ _, free) w.
Proof.
  intros Hw. unfold Disable, resumeInterruptedDisable. apply wpc_bind.
  eapply (wpc_mono _ _ _ _ (λ _, free)); [done| |].
  - clear w Hw. intros [o|] w Hw; [by apply wpc_ret; [apply Hw|]|].
    apply wpc_bind. eapply wpc_mono; [| |apply free_only; [apply hasManagedState_outside|done]]; [done|]. clear w Hw.
    intros [[|]|c] w Hw; [|apply free_only; [unfold notRegistered; outside_only|done]|by apply wpc_ret; [apply Hw|]].
    apply withManaged_wpc; [done|]. intros s r w' Hr Hw' Hm. eapply wpc_mono; [| |by apply disableManaged_wpc]; [done|].
    by intros o u [? _].
  - apply free_call; [by split|done|]. clear w Hw. intros info w Hw.
    destruct info as [i| |]; [|by apply wpc_ret; [apply Hw|]|].
    all: apply wpc_bind; eapply wpc_mono; [| |by apply lock_wpc]; [done|]; clear w Hw;
      intros [[f g]|c] w Hw; [|by apply wpc_ret; [apply Hw|]]; destruct Hw as (Hw & Hf & Hg);
      apply wpc_bind; eapply wpc_mono; [| |by apply resumeLocked_wpc]; [done|]; intros o w' Hw'; by apply unlock_wpc.
Qed.
End operations.
