(* ===== verification/BackgroundSystem.v ===== *)
(** * The background profile: every process of the host

    Any number of processes run operations of the controller at the same time; their
    calls interleave, and any of them can die between two calls, which drops its lock.
    The lock is the only thing that orders them. *)

From S2P Require Import Prelude GoText Effects Background BackgroundHost BackgroundSafety.

#[local] Open Scope string_scope.
#[local] Open Scope Z_scope.

Inductive operation := OpEnable (s : Settings) | OpLoad | OpStart | OpStatus | OpStop (force : bool) | OpRestart (force : bool)
| OpDisable (force : bool).

(** What a call does; [own]: its process holds the lock.  The owner of the host may
    remove the job by hand where the lock's holder inspects it. *)
Definition real_env (own : bool) A (e : BCall A) : bworld → A → bworld → Prop :=
  match e in BCall T return bworld → T → bworld → Prop with
  | BUnlock _ => λ w _ w', w' = w
  | AInspect r => λ w a w', (w' = w ∨ own = true ∧ w' = with_job w None) ∧
      ∀ st, a = Ok st → ms_available st = true → bw_job w' = if ms_registered st then Some r else None
  | e => locked_env (J := λ _, True) _ e
  end.

(** The operation lock: one owner at a time. *)
Definition may_lock A (e : BCall A) : A → option nat → Prop :=
  match e in BCall T return T → option nat → Prop with
  | BTryLock f => λ ok owner, ok = true → is_lock f = true → owner = None
  | _ => λ _ _, True
  end.

Definition next_owner (p : nat) A (e : BCall A) : A → option nat → option nat :=
  match e in BCall T return T → option nat → option nat with
  | BTryLock f => λ ok owner, if ok && is_lock f then Some p else owner
  | BUnlock f => λ _ owner, if is_lock f && bool_decide (owner = Some p) then None else owner
  | _ => λ _ owner, owner
  end.

Definition released (p : nat) (owner : option nat) : option nat := if bool_decide (owner = Some p) then None else owner.

Record system := MkSystem { sy_world : bworld; sy_owner : option nat; sy_procs : gmap nat (operation * prog BCall outcome) }.

Ltac cases_env :=
  repeat match goal with
  | a : open_answer |- _ => destruct a
  | a : remove_answer |- _ => destruct a
  | H : if ?b then _ else _ |- _ => destruct b eqn:?
  | H : _ ∨ _ |- _ => destruct H
  | H : _ ∧ _ |- _ => destruct H
  | H : ∃ _, _ |- _ => destruct H
  | H : new_file _ _ _ _ |- _ => destruct H as (? & ? & ?)
  end.

Section system.
Variables (root : string) (registrations : Settings → option registration).
Variables (marshal : Settings → string) (unmarshal : string → option Settings).

Definition operate (op : operation) : prog BCall outcome :=
  match op with
  | OpEnable s => Enable root registrations marshal unmarshal s
  | OpLoad => bind (LoadSettings root registrations unmarshal) (λ r,
      Ret (None, match r with Ok _ => None | Err c => Some (Coded c) end))
  | OpStart => Start root registrations unmarshal
  | OpStatus => GetStatus root registrations unmarshal
  | OpStop force => Stop root registrations unmarshal force
  | OpRestart force => Restart root registrations unmarshal force
  | OpDisable force => Disable root registrations unmarshal force
  end.

Inductive sys_step : system → system → Prop :=
| ss_start p op w o ps : ps !! p = None → sys_step (MkSystem w o ps) (MkSystem w o (<[p := (op, operate op)]> ps))
| ss_call p op A (e : BCall A) k a w w' o ps :
    ps !! p = Some (op, Call e k) → real_env (bool_decide (o = Some p)) A e w a w' → may_lock A e a o →
    sys_step (MkSystem w o ps) (MkSystem w' (next_owner p A e a o) (<[p := (op, k a)]> ps))
| ss_end p w o ps : sys_step (MkSystem w o ps) (MkSystem w (released p o) (delete p ps)).

Definition set_held (w : bworld) (b : bool) : bworld := MkBworld (bw_nodes w) (bw_dir w) (bw_job w) b.
Definition view (s : system) (p : nat) : bworld := set_held (sy_world s) (bool_decide (sy_owner s = Some p)).

(** Without the lock, quiet calls change nothing. *)
Lemma quiet_real A (e : BCall A) w a w' : quiet A e → real_env false A e w a w' → w' = w.
Proof.
  intros Hq Hx.
  destruct e as [[]|[]|[]|[] []| |[[] ?]|[[] ?]| | | | | |[] []|[]|[]| | | | | | | | | |]; simpl in *; try done; cases_env; subst; try done.
Qed.

Definition unlocks A (e : BCall A) : bool := match e with BUnlock f => is_lock f | _ => false end.

(** The owner's calls are those of the sequential model. *)
Lemma real_locked J A (e : BCall A) w a w' b :
  unlocks A e = false → real_env true A e w a w' → locked_env (J := J) A e (set_held w b) a (set_held w' b).
Proof.
  intros Hu Hx.
  destruct e as [[]|[]|[]|[] []| |[[] ?]|[[] ?]| | | | |f|[] []|[]|[]| | | | | | | | | |]; simpl in *; try by subst.
  all: try (rewrite Hu; by subst).
  all: cases_env; subst; try done; try (by split).
  all: try (split; [|done]).
  all: try (by left); try (by right).
  - right. split; [done|]. eexists. split; [eassumption|]. split; [eassumption|done].
  - right. eexists _, _. split_and!; [eassumption|eassumption|eassumption|done].
  - right. eexists. split; [eassumption|done].
Qed.

Lemma owner_other p q A (e : BCall A) a o : p ≠ q → may_lock A e a o →
  next_owner p A e a o = Some q ↔ o = Some q.
Proof.
  intros Hpq Hl. destruct e as [| | | | | | | | | |f|f| | | | | | | | | | | | |]; simpl in *; try done.
  - destruct a, (is_lock f); simpl; try done. rewrite (Hl eq_refl eq_refl). split; congruence.
  - destruct (is_lock f); simpl; [|done]. case_bool_decide; [subst; split; congruence|done].
Qed.

Lemma quiet_or_not A (e : BCall A) : quiet A e ∨ ¬ quiet A e.
Proof.
  destruct e as [| | |[] []| | |f|f| | | | | |[]| | | | | | | | | | |]; simpl; try tauto.
    - destruct (decide (name = lockDirectory)); tauto.
    - destruct (decide (f_path f = GuardOwner)); tauto.
    - destruct (decide (f_path f = GuardOwner)); tauto.
    - right. intros [|]; done.
    - right. intros [|]; done.
    - right. intros [|]; done.
    - right. intros [|]; done.
    - right. intros [|]; done.
Qed.

(** ** What every process keeps holds of the system *)

Section keep.
Variables (J : bworld → Prop) (allowed : operation → outcome → Prop).
Local Notation benv := (BackgroundHost.benv (J := J)).
Local Notation free := (BackgroundHost.free (J := J)).
(** [J] is about the files and the job, and not everything satisfies it. *)
Hypothesis J_held : ∀ w b, J (set_held w b) ↔ J w.
Hypothesis J_strict : ∃ w, ¬ J w.
Hypothesis operate_wpc : ∀ op w, free w → wpc benv J (operate op) (λ o w', free w' ∧ allowed op o) w.

Record sys_ok (s : system) : Prop := {
  so_inv : J (sy_world s);
  so_owner : ∀ p, sy_owner s = Some p → is_Some (sy_procs s !! p);
  so_procs : ∀ p op q, sy_procs s !! p = Some (op, q) → wpc benv J q (λ o w', free w' ∧ allowed op o) (view s p) }.

(** A process without the lock assumes nothing of the world but [J]. *)
Lemma free_anywhere {R} (q : prog BCall R) (P : R → Prop) w w' :
  free w → free w' → wpc benv J q (λ r u, free u ∧ P r) w → wpc benv J q (λ r u, free u ∧ P r) w'.
Proof.
  intros [_ H1] Hw' H. destruct q as [r|A e k].
  - destruct H as [_ [_ HP]]. by apply wpc_ret; [apply Hw'|].
  - apply wpc_call; [apply Hw'|]. intros a w2 Hx. destruct H as [_ Hk]. apply Hk. unfold BackgroundHost.benv in *. rewrite H1.
    destruct Hw' as [_ H2]. by rewrite H2 in Hx.
Qed.

(** A step of process [p] in its own view. *)
Lemma call_benv p A (e : BCall A) a w w' o :
  J w → real_env (bool_decide (o = Some p)) A e w a w' → may_lock A e a o →
  benv A e (set_held w (bool_decide (o = Some p))) a (set_held w' (bool_decide (next_owner p A e a o = Some p))).
Proof.
  intros Hi Hx Hl. unfold BackgroundHost.benv. simpl. case_bool_decide as Ho.
  - subst o. destruct (unlocks A e) eqn:Hu.
    + destruct e as [| | | | | | | | | | |f| | | | | | | | | | | | |]; try done. simpl in *. subst w'. rewrite Hu. simpl.
      rewrite (bool_decide_eq_true_2 (Some p = Some p)) by done. split; [by apply J_held|done].
    + assert (next_owner p A e a (Some p) = Some p) as ->.
      { destruct e as [| | | | | | | | | |f|f| | | | | | | | | | | | |]; simpl in *; try done; [by destruct (_ && _)|by rewrite Hu]. }
      rewrite bool_decide_eq_true_2 by done. by apply real_locked.
  - intros Hq. pose proof (quiet_real _ _ _ _ _ Hq Hx) as ->. split; [by apply J_held|].
    destruct e as [| | | | | | | | | |f|f| | | | | | | | | | | | |]; simpl in *; try (by apply bool_decide_eq_false_2).
    + destruct (a && is_lock f) eqn:Ha; [by apply bool_decide_eq_true_2|by apply bool_decide_eq_false_2].
    + rewrite (bool_decide_eq_false_2 _ Ho), andb_false_r. by apply bool_decide_eq_false_2.
Qed.

(** A process without the lock makes quiet calls only: of any other nothing is known,
    not even that the invariant is kept. *)
Lemma free_quiet {R} A (e : BCall A) (k : A → prog BCall R) (Q : R → bworld → Prop) w (a : A) :
  bw_held w = false → wpc benv J (Call e k) Q w → quiet A e.
Proof.
  intros Hh [_ Hk]. destruct J_strict as [bad Hbad].
  destruct (quiet_or_not A e) as [?|Hn]; [done|]. destruct Hbad. apply (wpc_here benv J (k a) Q). apply Hk. unfold BackgroundHost.benv. rewrite Hh.
  by intros Hq.
Qed.

Lemma view_other w w' (o o' : option nat) (p : nat) (q : prog BCall outcome) (P : outcome → Prop) :
  J w' → (o = Some p ↔ o' = Some p) → (o = Some p → w' = w) →
  wpc benv J q (λ r u, free u ∧ P r) (set_held w (bool_decide (o = Some p))) →
  wpc benv J q (λ r u, free u ∧ P r) (set_held w' (bool_decide (o' = Some p))).
Proof.
  intros Hi Ho Hw H. rewrite <- (bool_decide_ext _ _ Ho). destruct (decide (o = Some p)) as [E|E]; [by rewrite (Hw E)|].
  rewrite bool_decide_eq_false_2 in * by done. eapply free_anywhere; [| |exact H]; (split; [|done]).
  - by eapply wpc_here.
  - by apply J_held.
Qed.

Lemma sys_step_ok s s' : sys_step s s' → sys_ok s → sys_ok s'.
Proof using J_held J_strict operate_wpc.
  intros Hs [Hi Ho Hp]. destruct Hs as [p op w o ps Hn|p op A e k a w w' o ps Hc Hx Hl|p w o ps]; simpl in *.
  - split; simpl; [done| |].
    + intros q Hq. apply lookup_insert_is_Some'. right. by apply Ho.
    + intros q op' pr. destruct (decide (q = p)) as [->|Hq]; [|rewrite lookup_insert_ne by done; apply Hp].
      rewrite lookup_insert_eq. intros [= <- <-]. apply operate_wpc. split; [by apply J_held|]. apply bool_decide_eq_false_2.
      simpl. intros E. destruct (Ho p E). congruence.
  - pose proof (Hp p _ _ Hc) as Hw. pose proof (call_benv p A e a w w' o Hi Hx Hl) as Hb.
    assert (wpc benv J (k a) (λ o w', free w' ∧ allowed op o) (set_held w' (bool_decide (next_owner p A e a o = Some p)))) as Hk.
    { destruct Hw as [_ Hw]. by apply Hw. }
    assert (J w') as Hi' by (by apply wpc_here, J_held in Hk).
    split; simpl; [done| |].
    + intros q Hq. apply lookup_insert_is_Some'. destruct (decide (q = p)) as [->|Hqp]; [by left|right]. apply Ho.
      by apply (owner_other p q A e a o).
    + intros q op' pr. destruct (decide (q = p)) as [->|Hqp]; [rewrite lookup_insert_eq; by intros [= <- <-]|].
      rewrite lookup_insert_ne by done. intros Hq. eapply view_other; [done|symmetry; by apply owner_other| |by apply (Hp _ op')].
      intros ->. assert (bool_decide (Some q = Some p) = false) as Hf by (apply bool_decide_eq_false_2; congruence).
      rewrite Hf in Hx. eapply quiet_real; [|done]. eapply (free_quiet A e k); [exact a| |exact Hw]. done.
  - split; simpl; [done| |].
    + unfold released. intros q. case_bool_decide; [done|]. intros Hq. rewrite lookup_delete_ne; [by apply Ho|]. congruence.
    + intros q op' pr. destruct (decide (q = p)) as [->|Hqp]; [by rewrite lookup_delete_eq|]. rewrite lookup_delete_ne by done.
      intros Hq. apply (view_other w w o); [done| |done|by apply (Hp _ op')]. simpl. unfold released.
      case_bool_decide as E; [|done]. rewrite E. split; congruence.
Qed.

Lemma steps_ok s s' : rtc sys_step s s' → sys_ok s → sys_ok s'.
Proof using J_held J_strict operate_wpc. induction 1 as [|s1 s2 s3 H1 _ IH]; [done|]. intros H. apply IH. by eapply sys_step_ok. Qed.
End keep.

Definition clean : system := MkSystem (MkBworld ∅ ∅ None false) None ∅.

Section orphans.
Hypothesis platform_names : ∀ s r, registrations s = Some r → rg_fileName r ∈ platformFiles.

Lemma operate_inv op w : free (J := inv) w → wpc (benv (J := inv)) inv (operate op) (λ o w', free (J := inv) w' ∧ True) w.
Proof using platform_names.
  intros Hw. eapply (wpc_mono _ _ _ _ (λ _, free)); [done|by intros o u Hu|]. destruct op; simpl.
  - by apply Enable_wpc.
  - apply wpc_bind. eapply wpc_mono; [| |apply free_only; [|done]]; [done| |].
    + intros r u Hu. apply wpc_ret; [apply Hu|done].
    + unfold LoadSettings. apply only_bind; [apply loadManaged_outside|]. intros; exact I.
  - by apply Start_wpc.
  - apply free_only; [apply GetStatus_outside|done].
  - by apply stop_job_wpc.
  - by apply stop_job_wpc.
  - by apply Disable_wpc.
Qed.

Lemma inv_held w b : inv (set_held w b) ↔ inv w.
Proof. split; intros H r Hr; destruct (H r Hr) as [H1 H2 H3]; by split. Qed.

Lemma inv_strict : ∃ w, ¬ inv w.
Proof.
  exists (MkBworld ∅ ∅ (Some (MkRegistration "" "")) false). intros H. destruct (H _ eq_refl) as [(i & Hd & _) _ _].
  simpl in Hd. by rewrite lookup_empty in Hd.
Qed.

Lemma clean_ok : sys_ok inv (λ _ _, True) clean.
Proof. split; [by intros r|done|intros p op q; simpl; by rewrite lookup_empty]. Qed.

(** C17: whatever operations any number of processes run, however their calls are
    interleaved or fail and wherever processes die, a job registered with the service
    manager always has its marker, its settings and its exact template in the managed
    directory, and only the process that holds the lock makes a call that could change
    the managed files or the job. *)
Theorem no_orphan_job s : rtc sys_step clean s →
  (∀ r, bw_job (sy_world s) = Some r → managed r (sy_world s)) ∧
  ∀ p op A (e : BCall A) k (a : A), sy_procs s !! p = Some (op, Call e k) → sy_owner s ≠ Some p → quiet A e.
Proof using platform_names.
  intros H. destruct (steps_ok _ _ inv_held inv_strict operate_inv _ _ H clean_ok) as [Hi _ Hp].
  split; [exact Hi|]. intros p op A e k a Hc Ho.
  eapply (free_quiet inv inv_strict A e k); [exact a| |by apply (Hp p op)]. by apply bool_decide_eq_false_2.
Qed.
End orphans.

(** One process alone. *)
Definition solo_env A (e : BCall A) (u : bworld * option nat) (a : A) (u' : bworld * option nat) : Prop :=
  real_env (bool_decide (u.2 = Some 0%nat)) A e u.1 a u'.1 ∧ may_lock A e a u.2 ∧ u'.2 = next_owner 0 A e a u.2.

Lemma solo_steps q u q' u' op ps : exec solo_env q u q' u' →
  rtc sys_step (MkSystem u.1 u.2 (<[0%nat := (op, q)]> ps)) (MkSystem u'.1 u'.2 (<[0%nat := (op, q')]> ps)).
Proof.
  induction 1 as [q u|A e k u a u' q'' u'' (Hx & Hl & Ho) _ IH]; [apply rtc_refl|]. eapply rtc_l; [|exact IH]. rewrite Ho.
  assert (<[0%nat := (op, k a)]> ps = <[0%nat := (op, k a)]> (<[0%nat := (op, Call e k)]> ps)) as -> by (by rewrite insert_insert_eq).
  by apply ss_call; [apply lookup_insert_eq| |].
Qed.
End system.

(** ** A host where every call succeeds and the job does not run *)

Definition plain (i : nat) (size : Z) : fileInfo := MkFileInfo i true false false size 1.
Definition directory : fileInfo := MkFileInfo 0 false true false 0 2.

Definition idle_host A (e : BCall A) : bworld * option nat → A * (bworld * option nat) :=
  match e in BCall T return bworld * option nat → T * (bworld * option nat) with
  | BLstat (Entry name) => λ u, (if str_eqb name lockDirectory then SFound (plain 0 0) else
      match bw_dir u.1 !! name with Some i => SFound (plain i (slen (default "" (bw_nodes u.1 !! i)))) | None => SNotExist end, u)
  | BLstat _ => λ u, (SFound directory, u)
  | BMkdir Guard => λ u, (MkdirDone, u)
  | BMkdir _ => λ u, (MkdirExists, u)
  | BRestrict _ => λ u, (true, u)
  | BOpen (Entry name) CreateExclusive => λ u,
      let i := size (bw_nodes u.1) in
      if str_eqb name lockDirectory then (Opened 0, u)
      else match bw_dir u.1 !! name, bw_nodes u.1 !! i with
      | None, None => (Opened i, (with_dir (with_nodes u.1 (<[i := ""]> (bw_nodes u.1))) (<[name := i]> (bw_dir u.1)), u.2))
      | _, _ => (OpenExists, u)
      end
  | BOpen (Entry name) _ => λ u, (match bw_dir u.1 !! name with Some i => Opened i | None => OpenNotExist end, u)
  | BOpen _ _ => λ u, (Opened 0, u)
  | BStat f => λ u, (Some (plain (f_ino f) 0), u)
  | BReadAll (MkFile (Entry _) i) limit => λ u, (t ← bw_nodes u.1 !! i; Some (substring 0 (Z.to_nat limit) t), u)
  | BReadAll _ _ => λ u, (None, u)
  | BWrite (MkFile (Entry _) i) data => λ u, match bw_nodes u.1 !! i with
      | Some t => ((slen data, true), (with_nodes u.1 (<[i := t ++ substring 0 (String.length data) data]> (bw_nodes u.1)), u.2))
      | None => ((0, false), u)
      end
  | BWrite _ data => λ u, ((slen data, true), u)
  | BTruncate _ => λ u, (true, u)
  | BSync _ => λ u, (true, u)
  | BClose _ => λ u, (true, u)
  | BTryLock f => λ u, if is_lock f then (match u.2 with None => (true, (u.1, Some 0%nat)) | Some _ => (false, u) end) else (true, u)
  | BUnlock f => λ u, (true, (u.1, next_owner 0 _ (BUnlock f) true u.2))
  | BRename (Entry from) (Entry to) => λ u, match bw_dir u.1 !! from with
      | Some i => (true, (with_dir u.1 (<[to := i]> (delete from (bw_dir u.1))), u.2))
      | None => (false, u)
      end
  | BRename _ _ => λ u, (false, u)
  | BRemove (Entry name) => λ u, (Removed, (with_dir u.1 (delete name (bw_dir u.1)), u.2))
  | BRemove _ => λ u, (Removed, u)
  | BReadDir BackgroundDir => λ u, (Some (map (λ x, MkDirEntry x.1 false false) (map_to_list (bw_dir u.1))), u)
  | BReadDir _ => λ u, (None, u)
  | BInstallRoot => λ u, (true, u)
  | BValidate s => λ u, (Some s, u)
  | AAvailable => λ u, (true, u)
  | AInspect r => λ u, (match bw_job u.1 with
      | None => Ok (MkManagerState true false false)
      | Some r' => if bool_decide (rg_fileName r' = rg_fileName r ∧ rg_content r' = rg_content r)
                   then Ok (MkManagerState true true false) else Err (Coded CodeRegistrationMismatch)
      end, u)
  | ARegister r => λ u, (true, (with_job u.1 (Some r), u.2))
  | AStart => λ u, (true, u)
  | AStop _ _ => λ u, (true, u)
  | AUnregister _ => λ u, (true, (with_job u.1 None, u.2))
  | AProbe _ => λ u, (None, u)
  | ATick => λ u, (true, u)
  end.

Lemma idle_host_env A (e : BCall A) u : solo_env A e u (idle_host A e u).1 (idle_host A e u).2.
Proof.
  destruct u as [w o]. unfold solo_env.
  destruct e as [[]|[]|[]|[] []| |[[] ?]|[[] ?]| | | |f|f|[] []|[]|[]| | | | | | | | | |]; simpl; try done.
  - split_and!; [done| |done|done]. intros Hn. apply String.eqb_neq in Hn. unfold str_eqb. rewrite Hn. by destruct (bw_dir w !! name).
  - split_and!; [done| |done|done]. intros Hn. by destruct (bw_dir w !! name).
  - split_and!; [done| |done|done]. intros Hn. by destruct (bw_dir w !! name).
  - destruct (str_eqb name lockDirectory) eqn:En; [done|]. destruct (bw_dir w !! name) eqn:Ed; [done|].
    destruct (bw_nodes w !! _) eqn:Ei; [done|]. done.
  - split_and!; [done| |done|done]. intros s Hs. destruct (bw_nodes w !! f_ino) as [t|]; [|done]. injection Hs as <-. eauto.
  - destruct (bw_nodes w !! f_ino) as [t|] eqn:Et; (split; [|done]); [right|by left]. exists t, (String.length data). done.
  - destruct (is_lock f) eqn:Ef; [destruct o|]; simpl; rewrite ?Ef, ?andb_false_r; done.
  - destruct (bw_dir w !! name) eqn:En; (split; [|done]); [right|by left]. eauto.
  - split_and!; [done| |done|done]. intros l [= <-] name _. rewrite map_map. simpl. split.
    + intros [i Hi]. apply list_elem_of_fmap. exists (name, i). split; [done|]. by apply elem_of_map_to_list.
    + intros ([n i] & -> & Hi)%list_elem_of_fmap. apply elem_of_map_to_list in Hi. by exists i.
  - split_and!; [by left| |done|done]. intros st. destruct (bw_job w) as [r'|]; [|by intros [= <-]].
    case_bool_decide as Hr; [|done]. intros [= <-] _. destruct Hr as [H1 H2]. destruct r, r'. simpl in *. by subst.
  - split; [by left|done].
  - split; [by left|done].
Qed.
