(* ===== verification/BackgroundWatch.v ===== *)
(** * The background profile: what justifies each call to the service manager

    A stop is forced only if the caller asked for force, never because a graceful one
    failed; a job is registered, started, stopped or removed only on the strength of
    the inspection just made. *)

From S2P Require Import Prelude GoText Effects Background BackgroundHost BackgroundSafety BackgroundSystem.

#[local] Open Scope Z_scope.

(** The stops so far, what the last inspection since a change said, and whether a call
    was not justified by it. *)
Record watch := MkWatch { wt_stops : list bool; wt_seen : option managerState; wt_bad : bool }.

Definition watch0 : watch := MkWatch [] None false.

Definition stopped (st : managerState) : bool := negb (ms_registered st) || negb (ms_running st).

Definition justified A (e : BCall A) (v : watch) : bool :=
  match e, wt_seen v with
  | ARegister _, Some st => ms_available st && negb (ms_registered st)
  | AStart, Some st => stopped st
  | AStop _ _, Some st => ms_available st && ms_running st
  | AUnregister _, Some st => ms_available st && stopped st
  | (ARegister _ | AStart | AStop _ _ | AUnregister _), None => false
  | _, _ => true
  end.

Definition acted (v : watch) (l : list bool) (ok : bool) : watch := MkWatch (wt_stops v ++ l) None (wt_bad v || negb ok).

Definition watch_next A (e : BCall A) (v : watch) : A → watch :=
  match e in BCall T return T → watch with
  | AInspect _ => λ a, MkWatch (wt_stops v) (match a with Ok st => Some st | Err _ => None end) (wt_bad v)
  | AStop force s => λ _, acted v [force] (justified _ (AStop force s) v)
  | ARegister r => λ _, acted v [] (justified _ (ARegister r) v)
  | AStart => λ _, acted v [] (justified _ AStart v)
  | AUnregister r => λ _, acted v [] (justified _ (AUnregister r) v)
  | _ => λ _, v
  end.

Definition watch_env A (e : BCall A) (v : watch) (a : A) (v' : watch) : Prop := v' = watch_next A e v a.

Definition force_of (op : operation) : option bool :=
  match op with OpStop f | OpRestart f | OpDisable f => Some f | _ => None end.

Definition disciplined (force : option bool) (v : watch) : Prop :=
  wt_bad v = false ∧ (wt_stops v = [] ∨ ∃ f, force = Some f ∧ wt_stops v = [f]).

Definition silent A (e : BCall A) : Prop :=
  match e with AInspect _ | AStop _ _ | ARegister _ | AStart | AUnregister _ => False | _ => True end.

Ltac silence := walk_only ltac:(exact I).

Section watch.
Variable force : option bool.
Local Notation good := (disciplined force).
Local Notation wpv := (wpc watch_env good).

Lemma silent_bind {R S} (p : prog BCall R) (k : R → prog BCall S) Q v :
  only silent p → good v → (∀ r, wpv (k r) Q v) → wpv (bind p k) Q v.
Proof.
  intros Hp Hv Hk. induction p as [r|A e f IH]; [by apply Hk|]. destruct Hp as [He Hp]. apply wpc_call; [done|].
  intros a v' Hx. assert (v' = v) as -> by (by rewrite Hx; destruct e). by apply IH.
Qed.

Lemma silent_call {R A} (e : BCall A) (k : A → prog BCall R) Q v :
  silent A e → good v → (∀ a, wpv (k a) Q v) → wpv (Call e k) Q v.
Proof. intros He Hv Hk. apply wpc_call; [done|]. intros a v' ->. by destruct e. Qed.

Lemma inspect_watch {R} r (k : result berror managerState → prog BCall R) Q v :
  good v → (∀ a, wpv (k a) Q (MkWatch (wt_stops v) (match a with Ok st => Some st | Err _ => None end) (wt_bad v))) →
  wpv (Call (AInspect r) k) Q v.
Proof. intros Hv Hk. apply wpc_call; [done|]. intros a v' ->. apply Hk. Qed.

Lemma good_seen v st : good v → good (MkWatch (wt_stops v) st (wt_bad v)).
Proof. done. Qed.

(** A justified call that is not a stop. *)
Lemma act_watch {R A} (e : BCall A) (k : A → prog BCall R) Q v :
  good v → justified A e v = true → (∀ a, watch_next A e v a = acted v [] (justified A e v)) →
  (∀ a v', good v' → wt_stops v' = wt_stops v → wpv (k a) Q v') → wpv (Call e k) Q v.
Proof.
  intros Hv Hj Hn Hk. apply wpc_call; [done|]. intros a v' ->. rewrite Hn, Hj. apply Hk; simpl; [|by rewrite app_nil_r].
  destruct Hv as [Hb Hs]. split; simpl; [by rewrite Hb|by rewrite app_nil_r].
Qed.

Notation anyway := (λ (_ : outcome) v, good v).

Lemma good_ret (o : outcome) v : good v → wpv (Ret o) anyway v.
Proof. intros Hv. by apply wpc_ret. Qed.
Hint Resolve good_ret good_seen : core.

Lemma statusLocked_watch s r v : good v → wpv (statusLocked s r) anyway v.
Proof.
  intros Hv. unfold statusLocked. apply inspect_watch; [done|]. intros [st|e]; [|auto]. apply silent_bind; [|auto|].
  - destruct (ms_running st); silence.
  - intros pb. destruct (match pb with Some _ => _ | None => _ end). auto.
Qed.

(** A wait that ends well ended on an inspection that saw the job stopped. *)
Definition saw_stopped (v : watch) : Prop := ∃ st, wt_seen v = Some st ∧ ms_available st = true ∧ stopped st = true.

Lemma waitForStopped_watch {R} n r (k : bool → prog BCall R) Q v : good v →
  (∀ b v', good v' → (b = true → saw_stopped v') → wpv (k b) Q v') → wpv (bind (waitForStopped n r) k) Q v.
Proof.
  revert v. induction n as [|n IH]; intros v Hv Hk; simpl; apply inspect_watch; try done; fold @bind;
    (intros [st|e]; [|by apply Hk; [apply good_seen|]]);
    (destruct (ms_available st) eqn:Ha; cbn [negb]; [|by apply Hk; [apply good_seen|]]);
    (destruct (negb (ms_registered st) || negb (ms_running st)) eqn:Hs; [apply Hk; [by apply good_seen|]; intros _; by exists st|]).
  - by apply Hk; [apply good_seen|].
  - apply silent_call; [done|by apply good_seen|]. intros b. destruct (negb b); [by apply Hk; [apply good_seen|]|].
    by apply IH; [apply good_seen|].
Qed.

Lemma stopJob_watch f s r st (k : bool → prog BCall outcome) v : force = Some f → good v → wt_stops v = [] →
  wt_seen v = Some st → ms_available st = true →
  (∀ b v', good v' → (b = true → saw_stopped v') → wpv (k b) anyway v') → wpv (bind (stopJob f s r st) k) anyway v.
Proof.
  intros Hf Hv Hs Hseen Ha Hk. unfold stopJob. destruct (ms_running st) eqn:Hr.
  - apply wpc_call; [done|]. fold @bind. intros ok v' ->.
    assert (good (watch_next bool (AStop f s) v ok)) as Hv'.
    { destruct Hv as [Hb _]. split; simpl; [|right; exists f; by rewrite Hs].
      unfold justified. rewrite Hseen, Ha, Hr, Hb. done. }
    destruct (negb ok); [by apply Hk|by apply waitForStopped_watch].
  - apply Hk; [done|]. intros _. exists st. split_and!; [done|done|]. unfold stopped. rewrite Hr. by apply orb_true_r.
Qed.

(** Starting what was seen not to run. *)
Lemma start_watch s r (b : bool) v : good v → (b = true → ∃ st, wt_seen v = Some st ∧ stopped st = true) →
  wpv (bind (if b then Call AStart (λ b, Ret b) else Ret true) (λ started,
    if negb started then Ret (None, Some (Coded CodeManagerOperationFailed)) else statusLocked s r)) anyway v.
Proof.
  intros Hv Hb. destruct b; [|by apply statusLocked_watch]. destruct (Hb eq_refl) as (st & Hs & Hst).
  apply act_watch; [done|unfold justified; by rewrite Hs|done|]. fold @bind. intros a v' Hv' _.
  change (wpv (if negb a then Ret (None, Some (Coded CodeManagerOperationFailed)) else statusLocked s r) anyway v').
  destruct (negb a); [auto|by apply statusLocked_watch].
Qed.

Lemma silent_ValidateRegular p max : only silent (ValidateRegular p max).
Proof. unfold ValidateRegular. silence. Qed.
Lemma silent_readSmall p max : only silent (readSmallRegular p max).
Proof. unfold readSmallRegular, openRegular. pose proof silent_ValidateRegular. silence. Qed.
Lemma silent_write name text : only silent (writePrivateAtomic name text).
Proof. unfold writePrivateAtomic. cbv zeta. silence. Qed.
Lemma silent_lock root create : only silent (lock root create).
Proof.
  assert (∀ f, only silent (releaseInstallGuard f)) as H1 by (intros f; unfold releaseInstallGuard; silence).
  assert (only silent ownGuard) as H2 by (unfold ownGuard; cbv zeta; silence).
  assert (only silent recoverBackgroundInstallGuard) as H3
    by (unfold recoverBackgroundInstallGuard; pose proof silent_ValidateRegular; cbv zeta; silence).
  assert (only silent openLock) as H4 by (unfold openLock; pose proof silent_ValidateRegular; cbv zeta; silence).
  assert (∀ b, only silent (lockIn b)) as H5 by (intros b; unfold lockIn; pose proof silent_ValidateRegular; cbv zeta; silence).
  unfold lock, acquireInstallGuard, lockDir. cbv zeta. silence.
Qed.
Lemma silent_unlock u : only silent (unlock u).
Proof. unfold unlock, releaseInstallGuard. silence. Qed.
Lemma silent_hasManagedState : only silent hasManagedState.
Proof. unfold hasManagedState. pose proof silent_readSmall. silence. Qed.
Lemma silent_readSettings unmarshal : only silent (readSettings unmarshal).
Proof. unfold readSettings, openRegular. pose proof silent_ValidateRegular. silence. Qed.
Lemma silent_validateManagedFiles r : only silent (validateManagedFiles r).
Proof.
  unfold validateManagedFiles. pose proof silent_readSmall. split; [exact I|]. intros [l|]; [|exact I].
  induction l as [|e l IH]; simpl; silence.
Qed.
Lemma silent_loadManaged root registrations unmarshal : only silent (loadManaged root registrations unmarshal).
Proof.
  unfold loadManaged. pose proof silent_hasManagedState. pose proof silent_readSettings. pose proof silent_validateManagedFiles. silence.
Qed.
Lemma silent_recoverPartialEnable r : only silent (recoverPartialEnable r).
Proof.
  unfold recoverPartialEnable. pose proof silent_ValidateRegular. split; [exact I|]. intros [l|]; [|exact I].
  induction l as [|e l IH]; simpl; unfold openRegular; silence.
Qed.
Lemma silent_enableFiles marshal unmarshal s r : only silent (enableFiles marshal unmarshal s r).
Proof.
  unfold enableFiles, initializeManagedState, writeSettings. pose proof silent_hasManagedState. pose proof silent_readSettings.
  pose proof silent_validateManagedFiles. pose proof silent_recoverPartialEnable. pose proof silent_write. silence.
Qed.
Lemma silent_removeEach names : only silent (removeEach names).
Proof. induction names as [|n names IH]; simpl; silence. Qed.
Lemma silent_resume root : only silent (resumeInterruptedDisable root).
Proof.
  assert (∀ l, only silent (checkInterrupted l)) as H1
    by (intros l; pose proof silent_readSmall; induction l as [|e l IH]; simpl; silence).
  unfold resumeInterruptedDisable, resumeLocked, notRegistered. pose proof silent_lock. pose proof silent_unlock.
  pose proof silent_readSmall. pose proof silent_removeEach. silence.
Qed.

Section operations.
Variables (root : string) (registrations : Settings → option registration).
Variables (marshal : Settings → string) (unmarshal : string → option Settings).

Lemma withManaged_watch op v : good v → (∀ s r, wpv (op s r) anyway v) → wpv (withManaged root registrations unmarshal op) anyway v.
Proof.
  intros Hv Hop. unfold withManaged. apply silent_bind; [apply silent_lock|done|]. intros [u|c]; [|auto].
  apply silent_bind; [apply silent_loadManaged|done|]. intros x. apply wpc_bind.
  assert (wpv (match x with Err c => Ret (None, Some (Coded c)) | Ok (s, r) => op s r end) anyway v) as Hin
    by (destruct x as [[s r]|c]; auto).
  eapply wpc_mono; [| |exact Hin]; [done|]. intros o v' Hv'. apply silent_bind; [apply silent_unlock|done|]. auto.
Qed.

Lemma Start_watch v : good v → wpv (Start root registrations unmarshal) anyway v.
Proof.
  intros Hv. apply withManaged_watch; [done|]. intros s r. apply silent_bind; [unfold disabling; silence|done|].
  intros [|]; [auto|]. apply inspect_watch; [done|]. intros [st|e]; [|auto].
  destruct (negb (ms_available st)); [by apply good_ret|]. destruct (negb (ms_registered st)); [by apply good_ret|].
  apply start_watch; [auto|]. intros Hr. exists st. split; [done|]. unfold stopped. by rewrite Hr, orb_true_r.
Qed.

Lemma stop_watch f restart v : force = Some f → good v → wt_stops v = [] → wpv (stop root registrations unmarshal f restart) anyway v.
Proof.
  intros Hf Hv Hs. apply withManaged_watch; [done|]. intros s r. apply silent_bind; [unfold disabling; silence|done|].
  intros [|]; [auto|]. apply inspect_watch; [done|]. intros [st|e]; [|auto].
  destruct (ms_available st) eqn:Ha; cbn [negb]; [|by apply good_ret]. destruct (negb (ms_registered st)); [by apply good_ret|].
  eapply stopJob_watch; [done|auto|done|done|done|]. intros b v' Hv' Hb. destruct b; cbn [negb]; [|auto].
  apply start_watch; [done|]. intros _. destruct (Hb eq_refl) as (st' & ? & _ & ?). eauto.
Qed.

Lemma Enable_watch s v : good v → wpv (Enable root registrations marshal unmarshal s) anyway v.
Proof.
  intros Hv. unfold Enable. apply silent_call; [done|done|]. intros [s'|]; [|auto]. destruct (overlapping _ _); [auto|].
  apply silent_bind; [apply silent_lock|done|]. intros [u|c]; [|auto]. apply wpc_bind.
  eapply (wpc_mono _ _ _ _ anyway); [done|intros o v' Hv'; apply silent_bind; [apply silent_unlock|done|]; auto|].
  apply silent_bind; [unfold disabling; silence|done|]. intros [|]; [auto|]. destruct (registrations s') as [r|]; [|auto].
  apply silent_bind; [apply silent_enableFiles|done|]. intros [c|]; [auto|]. unfold enableJob.
  apply inspect_watch; [done|]. intros [st|e]; [|auto]. destruct (ms_available st) eqn:Ha; cbn [negb]; [|by apply good_ret].
  assert (Hrest : ∀ v, good v → wpv (Call (AInspect r) (λ state, match state with
    | Err e => Ret (None, Some e)
    | Ok state => bind (if negb (ms_running state) then Call AStart (λ b, Ret b) else Ret true) (λ started,
        if negb started then Ret (None, Some (Coded CodeManagerOperationFailed)) else statusLocked s' r) end)) anyway v).
  { intros u' Hu'. apply inspect_watch; [done|]. intros [st'|e]; [|auto]. apply start_watch; [auto|]. intros Hr. exists st'.
    split; [done|]. unfold stopped. by rewrite Hr, orb_true_r. }
  destruct (negb (ms_registered st)) eqn:Hr; [|apply Hrest; auto].
  apply act_watch; [auto|unfold justified; simpl; by rewrite Ha, Hr|done|]. fold @bind. intros b v' Hv' _.
  destruct b; [exact (Hrest v' Hv')|exact (good_ret _ v' Hv')].
Qed.

Lemma Disable_watch f v : force = Some f → good v → wt_stops v = [] → wpv (Disable root registrations unmarshal f) anyway v.
Proof.
  intros Hf Hv Hs. unfold Disable. apply silent_bind; [apply silent_resume|done|]. intros [o|]; [auto|].
  apply silent_bind; [apply silent_hasManagedState|done|]. intros [[|]|c]; [|unfold notRegistered; apply silent_call; auto; exact I|auto].
  apply withManaged_watch; [done|]. intros s r. unfold disableManaged. apply inspect_watch; [done|]. intros [st|e]; [|auto].
  destruct (ms_available st) eqn:Ha; cbn [negb]; [|by apply good_ret].
  eapply stopJob_watch; [done|auto|done|done|done|]. intros b v' Hv' Hb. destruct b; cbn [negb]; [|auto].
  assert (Hend : ∀ c v, good v → wpv (match c with
    | Some c => Ret (None, Some (Coded c))
    | None => bind (removeManagedState r) (λ e, match e with
        | Some c => Ret (None, Some (Coded c))
        | None => Ret (Some (statusFor (MkManagerState true false false) ReadinessUnknown), None) end) end) anyway v).
  { intros [c|] u Hu; [auto|]. apply silent_bind; [apply silent_removeEach|done|]. intros [c|]; auto. }
  destruct (ms_registered st); [|by apply (Hend None)].
  apply wpc_assoc. apply silent_bind; [apply silent_write|done|]. intros ok. destruct (negb ok); [by apply (Hend (Some _))|].
  destruct (Hb eq_refl) as (st' & Hseen & Ha' & Hst').
  apply act_watch; [done|unfold justified; by rewrite Hseen, Ha', Hst'|done|]. fold @bind. intros un u Hu _. by apply Hend.
Qed.
End operations.
End watch.

(** C18: in every behaviour of host and service manager, at every moment of an operation,
    it has stopped the job at most once, with force exactly if the caller asked for
    force (so never because a graceful stop failed), and every registration, start,
    stop and removal so far was justified by the inspection made just before: only an
    absent job is registered, only one seen not to run is started or removed, and only
    a running one is stopped. *)
Theorem manager_calls_are_justified root registrations marshal unmarshal op :
  wpc watch_env (disciplined (force_of op)) (operate root registrations marshal unmarshal op)
    (λ _, disciplined (force_of op)) watch0.
Proof.
  assert (disciplined (force_of op) watch0) as H0 by (split; [done|by left]). destruct op; simpl in *.
  - by apply Enable_watch.
  - apply silent_bind; [|done|intros r; by apply good_ret]. unfold LoadSettings. pose proof silent_loadManaged. silence.
  - by apply Start_watch.
  - unfold GetStatus. apply silent_bind; [apply silent_hasManagedState|done|]. intros [[|]|c].
    + apply silent_bind; [apply silent_loadManaged|done|]. intros [[s r]|c]; [by apply statusLocked_watch|by apply good_ret].
    + unfold notRegistered. apply silent_call; [done|done|]. intros a. by apply good_ret.
    + by apply good_ret.
  - by apply stop_watch.
  - by apply stop_watch.
  - by apply Disable_watch.
Qed.
