(* ===== verification/BackgroundStuck.v ===== *)
(** * An interrupted [Disable] that nothing recovers

    [Disable] writes its disabling file through [.disabling.next].  A process that
    dies between creating that file and renaming it leaves an entry that no operation
    accepts beside the marker: [validateManagedFiles] refuses it, and the recovery of
    an interrupted disable only looks at directories without a marker.  From then on
    every operation fails, for ever, and none changes the directory. *)

From S2P Require Import Prelude GoText Effects Background BackgroundHost BackgroundSafety BackgroundSystem.

#[local] Open Scope string_scope.
#[local] Open Scope Z_scope.

Definition leftover : string := disablingFile ++ ".next".

Definition stuck (w : bworld) : Prop := is_Some (bw_dir w !! markerFile) ∧ is_Some (bw_dir w !! leftover).

Local Notation world_env := (locked_env (J := λ _, True)).

(** An answer a call can have while the directory is stuck. *)
Definition sees A (e : BCall A) (a : A) : Prop := ∃ w w', stuck w ∧ world_env A e w a w'.

(** Every call the routine makes is quiet, and its result satisfies [P]. *)
Fixpoint gives {R} (p : prog BCall R) (P : R → Prop) : Prop :=
  match p with
  | Ret r => P r
  | Call e k => quiet _ e ∧ ∀ a, sees _ e a → gives (k a) P
  end.
Arguments gives : simpl never.

Lemma gives_ret {R} (r : R) (P : R → Prop) : P r → gives (Ret r) P.
Proof. done. Qed.

Lemma gives_call {R A} (e : BCall A) (k : A → prog BCall R) P :
  quiet A e → (∀ a, sees A e a → gives (k a) P) → gives (Call e k) P.
Proof. done. Qed.

Lemma gives_bind {R S} (p : prog BCall R) (k : R → prog BCall S) (P : R → Prop) Q :
  gives p P → (∀ r, P r → gives (k r) Q) → gives (bind p k) Q.
Proof.
  intros Hp Hk. induction p as [r|A e f IH]; [by apply Hk|]. destruct Hp as [Hq Hp]. split; [done|]. intros a Ha. by apply IH, Hp.
Qed.

Lemma gives_mono {R} (p : prog BCall R) (P Q : R → Prop) : gives p P → (∀ r, P r → Q r) → gives p Q.
Proof.
  intros Hp HPQ. induction p as [r|A e f IH]; [by apply HPQ|]. destruct Hp as [Hq Hp]. split; [done|]. intros a Ha. by apply IH, Hp.
Qed.

Lemma gives_only {R} (p : prog BCall R) : only outside p → gives p (λ _, True).
Proof. induction p as [r|A e k IH]; [done|]. intros [[Hq _] Hk]. split; [done|]. intros a _. by apply IH. Qed.

Ltac g_call := apply gives_call; [first [exact I | done | simpl; auto] | ];
  let a := fresh "a" in let Ha := fresh "Ha" in intros a Ha.

(** ** The lock *)

Definition of_path {C} (p : path) (r : result C file) : Prop := ∀ f, r = Ok f → f_path f = p.

Lemma of_path_err {C} p (c : C) : of_path p (Err c).
Proof. by intros f. Qed.
Lemma of_path_ok {C} p i : of_path (C := C) p (Ok (MkFile p i)).
Proof. by intros f [= <-]. Qed.
Hint Resolve of_path_err of_path_ok : core.

Lemma ownGuard_gives : gives ownGuard (of_path GuardOwner).
Proof.
  unfold ownGuard. g_call. destruct (negb a); [g_call; apply gives_ret; auto|]. g_call.
  destruct a0 as [i| | |]; [|g_call; apply gives_ret; auto..]. cbv zeta.
  assert (Hg : ∀ c : Code, gives (bind (releaseInstallGuard (MkFile GuardOwner i)) (λ _, Ret (Err c))) (of_path GuardOwner)).
  { intros c. eapply gives_bind; [by apply gives_only, release_outside|]. intros _ _. apply gives_ret. auto. }
  g_call. destruct (negb a0); [apply Hg|]. g_call. destruct (negb a1); [apply Hg|].
  g_call. destruct (_ || _); [apply Hg|]. g_call. destruct (negb a3); [apply Hg|]. apply gives_ret. auto.
Qed.

Lemma acquire_gives root : gives (acquireInstallGuard root) (of_path GuardOwner).
Proof.
  unfold acquireInstallGuard. g_call. cbv zeta. destruct (negb _); [apply gives_ret; auto|]. g_call.
  destruct a0; [apply ownGuard_gives| |apply gives_ret; auto].
  eapply gives_bind; [apply gives_only, recover_outside|]. intros [[|]|c] _; [|apply gives_ret; auto..].
  g_call. destruct a0; [apply ownGuard_gives|apply gives_ret; auto..].
Qed.

Lemma openLock_gives : gives openLock (of_path (Entry lockDirectory)).
Proof.
  unfold openLock. g_call. destruct a as [i| | |]; [| |apply gives_ret; auto..].
  - g_call. destruct (negb a); [g_call|]; apply gives_ret; auto.
  - eapply gives_bind; [apply gives_only, ValidateRegular_outside|]. intros [info|e] _; [|apply gives_ret; auto].
    g_call. destruct a as [i| | |]; [|apply gives_ret; auto..]. g_call. cbv zeta. destruct (negb _); [g_call|]; apply gives_ret; auto.
Qed.

Lemma lockDir_gives create : gives (lockDir create) (of_path (Entry lockDirectory)).
Proof.
  assert (∀ made, gives (lockIn made) (of_path (Entry lockDirectory))) as Hin.
  { intros made. unfold lockIn. g_call. cbv zeta. destruct (negb _); [apply gives_ret; auto|].
    eapply (gives_bind _ _ (λ _, True)); [destruct made; [g_call|]; by apply gives_ret|]. intros restricted _.
    destruct (negb restricted); [apply gives_ret; auto|]. eapply gives_bind; [apply openLock_gives|].
    intros [f|c] Hf; [|apply gives_ret; auto]. g_call. eapply gives_bind; [apply gives_only, ValidateRegular_outside|]. intros info _.
    destruct (negb _); [g_call; apply gives_ret; auto|]. g_call. destruct (negb _); [g_call|]; apply gives_ret; auto. }
  unfold lockDir. g_call. destruct (negb a); [apply gives_ret; auto|]. destruct create; [|apply Hin].
  g_call. destruct a0; [apply Hin..|apply gives_ret; auto].
Qed.

Definition lock_paths (r : result Code (file * file)) : Prop :=
  ∀ f g, r = Ok (f, g) → f_path f = Entry lockDirectory ∧ f_path g = GuardOwner.

Lemma lock_gives root create : gives (lock root create) lock_paths.
Proof.
  unfold lock. eapply gives_bind; [apply acquire_gives|]. intros [g|c] Hg; [|by apply gives_ret].
  eapply gives_bind; [apply lockDir_gives|]. intros [f|c] Hf.
  - apply gives_ret. intros f' g' [= <- <-]. auto.
  - eapply gives_bind; [apply gives_only, release_outside; auto|]. intros _ _. by apply gives_ret.
Qed.

Lemma unlock_gives {R} f g (r : R) (P : R → Prop) : f_path g = GuardOwner → P r → gives (bind (unlock (f, g)) (λ _, Ret r)) P.
Proof.
  intros Hg HP. unfold unlock. simpl. g_call. fold @bind. g_call. fold @bind.
  eapply gives_bind; [by apply gives_only, release_outside|]. intros _ _. by apply gives_ret.
Qed.

(** ** What is read *)

Lemma sees_marker a : sees _ (BLstat (Entry markerFile)) a → a ≠ SNotExist.
Proof. intros (w & w' & [[i Hm] _] & _ & Ha). specialize (Ha ltac:(done)). intros ->. congruence. Qed.

Lemma sees_open_marker a : sees _ (BOpen (Entry markerFile) ReadOnly) a → a ≠ OpenNotExist.
Proof. intros (w & w' & [[i Hm] _] & _ & Ha). specialize (Ha ltac:(done)). intros ->. congruence. Qed.

Lemma sees_entries a : sees _ (BReadDir BackgroundDir) a → ∀ l, a = Some l → leftover ∈ map de_name l.
Proof. intros (w & w' & [_ Hl] & _ & Ha) l Hs. by apply (Ha l Hs leftover). Qed.

Lemma readMarker_gives max : gives (readSmallRegular (Entry markerFile) max) (λ r, r ≠ Err ENotExist).
Proof.
  unfold readSmallRegular. eapply (gives_bind _ _ (λ r, r ≠ Err ENotExist)).
  - unfold openRegular. eapply (gives_bind _ _ (λ r, r ≠ Err ENotExist)).
    + unfold ValidateRegular. g_call. apply sees_marker in Ha. apply gives_ret. destruct a; [by destruct (_ || _)|done|done].
    + intros [i|e] Hi; [|apply gives_ret; congruence]. g_call. apply sees_open_marker in Ha.
      destruct a as [ino| | |]; [|by apply gives_ret|done|by apply gives_ret].
      g_call. destruct a as [st|]; [destruct (_ =? _)%nat; [by apply gives_ret|]|]; g_call; by apply gives_ret.
  - intros [f|e] Hf; [|apply gives_ret; congruence]. g_call. g_call. apply gives_ret. destruct a; [by destruct (_ <? _)|done].
Qed.

Lemma hasManagedState_gives : gives hasManagedState (λ r, r ≠ Ok false).
Proof.
  unfold hasManagedState. g_call. destruct a as [i| |]; [| |by apply gives_ret].
  - destruct (_ || _); [by apply gives_ret|]. eapply gives_bind; [apply readMarker_gives|].
    intros [s|[]] Hs; [apply gives_ret; by destruct (str_eqb _ _)|done|by apply gives_ret].
  - destruct Ha as (w & w' & [[i Hm] _] & _ & Hd). rewrite Hd, lookup_empty in Hm. done.
Qed.

Section stuck.
Variables (root : string) (registrations : Settings → option registration).
Variables (marshal : Settings → string) (unmarshal : string → option Settings).
Hypothesis platform_names : ∀ s r, registrations s = Some r → rg_fileName r ∈ platformFiles.

Lemma leftover_unmanaged r : rg_fileName r ∈ platformFiles → managed_name r leftover = false.
Proof. intros [H|[H|H]]%in_platformFiles; unfold managed_name; rewrite H; reflexivity. Qed.

Lemma checkManaged_gives r l : rg_fileName r ∈ platformFiles → leftover ∈ map de_name l → gives (checkManaged r l) (λ e, e ≠ None).
Proof.
  intros Hr. induction l as [|e l IH]; simpl; [by intros ?%elem_of_nil|]. intros [Hl|Hl]%elem_of_cons.
  - rewrite <- Hl, leftover_unmanaged by done. by apply gives_ret.
  - destruct (negb _); [by apply gives_ret|]. destruct (str_eqb _ _); [by apply IH|]. g_call.
    destruct a; [|by apply gives_ret..]. destruct (_ || _); [by apply gives_ret|by apply IH].
Qed.

Lemma validateManagedFiles_gives r : rg_fileName r ∈ platformFiles → gives (validateManagedFiles r) (λ e, e ≠ None).
Proof.
  intros Hr. unfold validateManagedFiles. g_call. destruct a as [l|]; [|by apply gives_ret].
  apply checkManaged_gives; [done|by eapply sees_entries].
Qed.

Lemma readSettings_gives : gives (readSettings unmarshal) (λ _, True).
Proof. apply gives_only. unfold readSettings, openRegular. pose proof ValidateRegular_outside. outside_only. Qed.

Lemma loadManaged_gives : gives (loadManaged root registrations unmarshal) (λ x, ∃ c, x = Err c).
Proof using platform_names.
  unfold loadManaged. eapply gives_bind; [apply hasManagedState_gives|]. intros [[|]|c] Hm; [|done|apply gives_ret; eauto].
  eapply gives_bind; [apply readSettings_gives|]. intros [s|] _; [|apply gives_ret; eauto].
  destruct (overlapping _ _); [apply gives_ret; eauto|]. destruct (registrations s) as [r|] eqn:Hr; [|apply gives_ret; eauto].
  eapply gives_bind; [apply validateManagedFiles_gives; by eapply platform_names|]. intros [c|] He; [apply gives_ret; eauto|done].
Qed.

Lemma enableFiles_gives s r : rg_fileName r ∈ platformFiles → gives (enableFiles marshal unmarshal s r) (λ e, e ≠ None).
Proof.
  intros Hr. unfold enableFiles. eapply gives_bind; [apply hasManagedState_gives|]. intros [[|]|c] Hm; [|done|].
  - eapply (gives_bind _ _ (λ x, x = Ok true)); [by apply gives_ret|]. intros x ->.
    eapply gives_bind; [apply readSettings_gives|]. intros stored _. destruct (negb _); [by apply gives_ret|].
    by apply validateManagedFiles_gives.
  - eapply (gives_bind _ _ (λ x, x = Err c)).
    + g_call. apply sees_marker in Ha. by destruct a; [apply gives_ret| |apply gives_ret].
    + intros x ->. by apply gives_ret.
Qed.

Definition failed (o : outcome) : Prop := o.2 ≠ None.

Lemma withManaged_gives op : gives (withManaged root registrations unmarshal op) failed.
Proof using platform_names.
  unfold withManaged. eapply gives_bind; [apply lock_gives|]. intros [[f g]|c] Hu; [|by apply gives_ret].
  destruct (Hu f g eq_refl) as [_ Hg]. eapply gives_bind; [apply loadManaged_gives|]. intros x [c ->].
  by apply unlock_gives.
Qed.

Lemma disabling_gives : gives disabling (λ _, True).
Proof. unfold disabling. g_call. by apply gives_ret. Qed.

Lemma Enable_gives s : gives (Enable root registrations marshal unmarshal s) failed.
Proof using platform_names.
  unfold Enable. g_call. destruct a as [s'|]; [|by apply gives_ret]. destruct (overlapping _ _); [by apply gives_ret|].
  eapply gives_bind; [apply lock_gives|]. intros [[f g]|c] Hu; [|by apply gives_ret]. destruct (Hu f g eq_refl) as [_ Hg].
  eapply (gives_bind _ _ failed); [|intros o Ho; by apply unlock_gives].
  eapply gives_bind; [apply disabling_gives|]. intros d _. destruct d; [by apply gives_ret|].
  destruct (registrations s') as [r|] eqn:Hr; [|by apply gives_ret].
  eapply gives_bind; [apply enableFiles_gives; by eapply platform_names|]. intros [c|] He; [by apply gives_ret|done].
Qed.

Lemma checkInterrupted_gives l : leftover ∈ map de_name l → gives (checkInterrupted l) (λ e, e ≠ None).
Proof.
  induction l as [|e l IH]; cbn [checkInterrupted]; [by intros ?%elem_of_nil|]. intros [Hl|Hl]%elem_of_cons.
  - rewrite <- Hl. by apply gives_ret.
  - destruct (negb _); [by apply gives_ret|]. destruct (str_eqb _ _); [by apply IH|].
    eapply gives_bind; [apply gives_only, reading_outside|]. intros [s|c] _; [by apply IH|by apply gives_ret].
Qed.

Lemma resumeLocked_gives : gives resumeLocked (λ r, ∀ o, r = Some o → failed o).
Proof.
  assert (∀ c : Code, gives (Ret (Some (None, Some (Coded c)))) (λ r, ∀ o, r = Some o → failed o)) as Herr
    by (intros c; apply gives_ret; by intros o [= <-]).
  unfold resumeLocked. g_call. apply sees_marker in Ha. destruct a as [i| |]; [by apply gives_ret|done|].
  eapply gives_bind; [apply gives_only, reading_outside|]. intros [t|[]] _; [|by apply gives_ret|apply Herr].
  destruct (negb _); [apply Herr|]. g_call. destruct a as [l|]; [|apply Herr].
  eapply gives_bind; [apply checkInterrupted_gives; by eapply sees_entries|]. intros [c|] Hc; [apply Herr|done].
Qed.

Lemma resume_gives : gives (resumeInterruptedDisable root) (λ r, ∀ o, r = Some o → failed o).
Proof.
  assert (gives (bind (lock root false) (λ u, match u with Err c => Ret (Some (None, Some (Coded c))) | Ok u =>
    bind resumeLocked (λ r, bind (unlock u) (λ _, Ret r)) end)) (λ r, ∀ o, r = Some o → failed o)) as Hgo.
  { eapply gives_bind; [apply lock_gives|]. intros [[f g]|c] Hu; [|apply gives_ret; by intros o [= <-]].
    destruct (Hu f g eq_refl) as [_ Hg]. eapply gives_bind; [apply resumeLocked_gives|].
    intros r Hr. by apply unlock_gives. }
  unfold resumeInterruptedDisable. g_call. destruct a; [exact Hgo|by apply gives_ret|exact Hgo].
Qed.

Lemma operate_gives op : gives (operate root registrations marshal unmarshal op) failed.
Proof using platform_names.
  destruct op; simpl; try apply withManaged_gives.
  - apply Enable_gives.
  - eapply (gives_bind _ _ (λ x, ∃ c, x = Err c)); [|intros x [c ->]; by apply gives_ret].
    unfold LoadSettings. eapply gives_bind; [apply loadManaged_gives|]. intros x [c ->]. apply gives_ret. eauto.
  - unfold GetStatus. eapply gives_bind; [apply hasManagedState_gives|]. intros [[|]|c] Hm; [|done|by apply gives_ret].
    eapply gives_bind; [apply loadManaged_gives|]. intros x [c ->]. by apply gives_ret.
  - unfold Disable. eapply gives_bind; [apply resume_gives|]. intros [o|] Ho; [apply gives_ret; by apply Ho|].
    eapply gives_bind; [apply hasManagedState_gives|]. intros [[|]|c] Hm; [|done|by apply gives_ret]. apply withManaged_gives.
Qed.

(** ** Every later state *)

Lemma quiet_files own A (e : BCall A) w a w' : quiet A e → real_env own A e w a w' → bw_dir w' = bw_dir w.
Proof.
  intros Hq Hx.
  destruct e as [[]|[]|[]|[] []| |[[] ?]|[[] ?]| | | | | |[] []|[]|[]| | | | | | | | | |]; simpl in *; try done; try (by subst);
    cases_env; subst; try done.
Qed.

Lemma real_sees own A (e : BCall A) w a w' : stuck w → real_env own A e w a w' → sees A e a.
Proof.
  intros Hs Hx. exists w. destruct e; try by eexists.
  - destruct (is_lock f) eqn:E; [exists (MkBworld ∅ ∅ None false)|exists w]; (split; [done|]); simpl; rewrite E; done.
  - exists w'. split; [done|]. destruct Hx as [Hw Ha]. split; [|done]. destruct Hw as [?|[_ ?]]; auto.
Qed.

Local Notation sys_step := (sys_step root registrations marshal unmarshal).

Record stuck_ok (s : system) : Prop := {
  sk_world : stuck (sy_world s);
  sk_procs : ∀ p op q, sy_procs s !! p = Some (op, q) → gives q failed }.

Lemma stuck_step s s' : sys_step s s' → stuck_ok s → stuck_ok s'.
Proof using platform_names.
  intros Hs [Hw Hp]. destruct Hs as [p op w o ps Hn|p op A e k a w w' o ps Hc Hx Hl|p w o ps]; simpl in *.
  - split; [done|]. simpl. intros q op' pr. destruct (decide (q = p)) as [->|Hq].
    + rewrite lookup_insert_eq. intros [= <- <-]. by apply operate_gives.
    + rewrite lookup_insert_ne by done. apply Hp.
  - destruct (Hp p op _ Hc) as [Hq Hk]. split; simpl.
    + unfold stuck. by rewrite (quiet_files _ _ _ _ _ _ Hq Hx).
    + intros q op' pr. destruct (decide (q = p)) as [->|Hqp]; [|rewrite lookup_insert_ne by done; apply Hp].
      rewrite lookup_insert_eq. intros [= <- <-]. apply Hk. by eapply real_sees.
  - split; [done|]. simpl. intros q op' pr [_ Hq]%lookup_delete_Some. by apply (Hp q op').
Qed.

Lemma stuck_steps s s' : rtc sys_step s s' → stuck_ok s → stuck_ok s'.
Proof using platform_names. induction 1 as [|s1 s2 s3 H1 _ IH]; [done|]. intros H. apply IH. by eapply stuck_step. Qed.

(** C20: a directory with the marker and a left-over [.disabling.next] is beyond repair.
    Once no operation is in progress, whatever operations processes run from then on
    and however their calls are answered, the entry stays, and every operation that
    returns, [Enable], [Start], [Status], [Stop], [Restart] and [Disable], returns an
    error. *)
Theorem interrupted_disable_is_stuck s s' : stuck (sy_world s) → sy_procs s = ∅ → rtc sys_step s s' →
  stuck (sy_world s') ∧ ∀ p op out, sy_procs s' !! p = Some (op, Ret out) → failed out.
Proof using platform_names.
  intros Hw Hp Hs. assert (stuck_ok s) as H0 by (split; [done|]; intros p op q; by rewrite Hp, lookup_empty).
  destruct (stuck_steps _ _ Hs H0) as [H1 H2].
  split; [done|]. intros p op out Hq. exact (H2 p op _ Hq).
Qed.
End stuck.

(** ** How it comes about *)

(** The first [n] calls of a routine. *)
Fixpoint run_for {E : Type → Type} {W R} (h : ∀ A, E A → W → A * W) (n : nat) (p : prog E R) (w : W) : prog E R * W :=
  match n, p with
  | S n, Call e k => let '(a, w') := h _ e w in run_for h n (k a) w'
  | _, p => (p, w)
  end.

Lemma run_for_exec {E : Type → Type} {W R} (env : ∀ A, E A → W → A → W → Prop) (h : ∀ A, E A → W → A * W) n (p : prog E R) w :
  (∀ A (e : E A) u, env A e u (h A e u).1 (h A e u).2) → exec env p w (run_for h n p w).1 (run_for h n p w).2.
Proof.
  intros Hh. revert p w. induction n as [|n IH]; intros p w; [destruct p; constructor|]. destruct p as [r|A e k]; [constructor|].
  simpl. specialize (Hh A e w). destruct (h A e w) as [a w']. econstructor; [exact Hh|apply IH].
Qed.

Definition root0 : string := "/opt/observer".
Definition settings0 : Settings := MkSettings "/var/lib/observer" "127.0.0.1:8787" "" [].
Definition registration0 : Settings → option registration := linux_registration root0.
Definition marshal0 (s : Settings) : string := se_StateDir s.
Definition unmarshal0 (_ : string) : option Settings := Some settings0.

Lemma registration0_names s r : registration0 s = Some r → rg_fileName r ∈ platformFiles.
Proof. intros [= <-]. apply list_elem_of_here. Qed.

Local Notation step0 := (sys_step root0 registration0 marshal0 unmarshal0).

(** A process runs [n] calls of an operation against the host and ends. *)
Definition after (op : operation) (n : nat) (w : bworld) : prog BCall outcome * (bworld * option nat) :=
  run_for idle_host n (operate root0 registration0 marshal0 unmarshal0 op) (w, None).

Lemma run_and_end op n w :
  rtc step0 (MkSystem w None ∅) (MkSystem (after op n w).2.1 (released 0 (after op n w).2.2) ∅).
Proof.
  eapply rtc_l; [apply (ss_start _ _ _ _ 0 op); apply lookup_empty|].
  pose proof (solo_steps root0 registration0 marshal0 unmarshal0 _ _ _ _ op ∅
    (run_for_exec solo_env idle_host n (operate root0 registration0 marshal0 unmarshal0 op) (w, None) idle_host_env)) as H.
  fold (after op n w) in H. destruct (after op n w) as [q [w' o]]. simpl in H. etrans; [exact H|]. simpl.
  apply rtc_once. rewrite <- (delete_insert_id ∅ 0%nat (op, q)) at 2 by apply lookup_empty. apply ss_end.
Qed.

Definition enabled_world : bworld := (after (OpEnable settings0) 500 (sy_world clean)).2.1.
Definition died_world : bworld := (after (OpDisable false) 72 enabled_world).2.1.

Lemma died_reached : rtc step0 clean (MkSystem died_world None ∅).
Proof.
  etrans; [apply (run_and_end (OpEnable settings0) 500 (sy_world clean))|]. fold enabled_world.
  assert (released 0 (after (OpEnable settings0) 500 (sy_world clean)).2.2 = None) as -> by (vm_compute; reflexivity).
  etrans; [apply (run_and_end (OpDisable false) 72 enabled_world)|]. fold died_world.
  assert (released 0 (after (OpDisable false) 72 enabled_world).2.2 = None) as -> by (vm_compute; reflexivity).
  apply rtc_refl.
Qed.

(** The job was enabled, [Disable] died at its 72nd call, and the job stays registered
    with nothing left that could remove it. *)
Lemma interrupted_disable_is_stuck_witness :
  rtc step0 clean (MkSystem died_world None ∅) ∧ bw_job died_world = registration0 settings0 ∧
  ∀ s', rtc step0 (MkSystem died_world None ∅) s' →
    stuck (sy_world s') ∧ ∀ p op out, sy_procs s' !! p = Some (op, Ret out) → failed out.
Proof.
  split; [exact died_reached|]. split; [vm_compute; reflexivity|]. intros s' Hs.
  apply (interrupted_disable_is_stuck root0 registration0 marshal0 unmarshal0 registration0_names (MkSystem died_world None ∅));
    [|reflexivity|exact Hs].
  split; eexists; vm_compute; reflexivity.
Defined.

(** An enabled job has its managed state. *)
Lemma no_orphan_job_witness :
  rtc step0 clean (MkSystem enabled_world None ∅) ∧ ∃ r, bw_job enabled_world = Some r ∧ managed r enabled_world.
Proof.
  assert (rtc step0 clean (MkSystem enabled_world None ∅)) as H.
  { etrans; [apply (run_and_end (OpEnable settings0) 500 (sy_world clean))|]. fold enabled_world.
    assert (released 0 (after (OpEnable settings0) 500 (sy_world clean)).2.2 = None) as -> by (vm_compute; reflexivity).
    apply rtc_refl. }
  split; [exact H|]. destruct (no_orphan_job root0 registration0 marshal0 unmarshal0 registration0_names _ H) as [Hj _].
  assert (bw_job enabled_world = registration0 settings0) as E by (vm_compute; reflexivity).
  unfold registration0, linux_registration in E. eexists. split; [exact E|]. apply Hj. exact E.
Defined.
