(* ===== verification/BackgroundGuard.v ===== *)
(** * The install guard excludes

    The guard is a directory with an owner file that its owner keeps locked.  A guard
    whose owner died may be taken away, but only on the proof that it was complete: the
    owner file's text, read under its lock.  Any number of processes take and release
    the guard here, their calls interleave, and any of them can die anywhere. *)

From S2P Require Import Prelude GoText Effects Background.

#[local] Open Scope string_scope.
#[local] Open Scope Z_scope.

(** [gd_text] and [gd_lock] are by file number; [gd_token] names the process that made
    the directory or proved that its maker is gone, and has neither tried to remove it
    nor failed to truncate its file nor died, and [gd_made] says which of the two it
    was. *)
Record guard := MkGuard {
  gd_dir : bool; gd_entry : option nat; gd_text : gmap nat string; gd_lock : gmap nat nat;
  gd_token : option nat; gd_made : bool }.

Definition no_guard : guard := MkGuard false None ∅ ∅ None false.

Section process.
Variable p : nat.

Definition complete (g : guard) (i : nat) : bool := bool_decide (gd_text g !! i = Some guardOwnerMarker).

(** The owner file is made, as file [i]. *)
Definition created (i : nat) (g g' : guard) : Prop :=
  gd_dir g = true ∧ gd_entry g = None ∧ gd_text g !! i = None
  ∧ g' = MkGuard (gd_dir g) (Some i) (<[i := ""]> (gd_text g)) (gd_lock g) (gd_token g) (gd_made g).

(** What a call of process [p] does.  A write may be short, and a directory made, a file
    created, truncated or removed by a call that reports failure. *)
Definition act A (e : BCall A) : guard → A → guard → Prop :=
  match e in BCall T return guard → T → guard → Prop with
  | BMkdir Guard => λ g a g',
      match a with
      | MkdirDone => gd_dir g = false ∧ g' = MkGuard true (gd_entry g) (gd_text g) (gd_lock g) (Some p) true
      | MkdirExists => g' = g
      | MkdirFailed => g' = g ∨ gd_dir g = false
          ∧ g' = MkGuard true (gd_entry g) (gd_text g) (gd_lock g) (gd_token g) (gd_made g)
      end
  | BOpen GuardOwner CreateExclusive => λ g a g',
      match a with
      | Opened i => created i g g'
      | OpenFailed => g' = g ∨ ∃ i, created i g g'
      | _ => g' = g
      end
  | BOpen GuardOwner _ => λ g a g', g' = g ∧ match a with Opened i => gd_entry g = Some i | _ => True end
  | BTryLock (MkFile GuardOwner i) => λ g a g',
      if a : bool then (gd_lock g !! i = None ∨ gd_lock g !! i = Some p)
        ∧ g' = MkGuard (gd_dir g) (gd_entry g) (gd_text g) (<[i := p]> (gd_lock g)) (gd_token g) (gd_made g)
      else g' = g
  | BUnlock (MkFile GuardOwner i) => λ g a g',
      g' = if bool_decide (gd_lock g !! i = Some p)
           then MkGuard (gd_dir g) (gd_entry g) (gd_text g) (delete i (gd_lock g)) (gd_token g) (gd_made g) else g
  | BReadAll (MkFile GuardOwner i) limit => λ g a g', (a = None ∧ g' = g) ∨ ∃ t, gd_text g !! i = Some t
      ∧ a = Some (substring 0 (Z.to_nat limit) t)
      ∧ g' = if complete g i && bool_decide (gd_lock g !! i = Some p) && bool_decide (a = Some guardOwnerMarker)
             then MkGuard (gd_dir g) (gd_entry g) (gd_text g) (gd_lock g) (Some p) false else g
  | BWrite (MkFile GuardOwner i) data => λ g a g', (a.2 = false ∧ g' = g) ∨ ∃ t k, gd_text g !! i = Some t
      ∧ (k ≤ String.length data)%nat ∧ a.1 = Z.of_nat k
      ∧ g' = MkGuard (gd_dir g) (gd_entry g) (<[i := t ++ substring 0 k data]> (gd_text g)) (gd_lock g) (gd_token g) (gd_made g)
  | BTruncate (MkFile GuardOwner i) => λ g a g',
      let emptied := <[i := ""]> (gd_text g) in
      if a : bool then g' = MkGuard (gd_dir g) (gd_entry g) emptied (gd_lock g) (gd_token g) (gd_made g)
      else ∃ t, (t = gd_text g ∨ t = emptied) ∧ g' = MkGuard (gd_dir g) (gd_entry g) t (gd_lock g) None (gd_made g)
  | BRemove GuardOwner => λ g a g',
      g' = MkGuard (gd_dir g) None (gd_text g) (gd_lock g) (gd_token g) (gd_made g) ∨ a ≠ Removed ∧ g' = g
  | BRemove Guard => λ g a g',
      gd_dir g = true ∧ gd_entry g = None ∧ g' = MkGuard false None (gd_text g) (gd_lock g) None (gd_made g)
      ∨ a ≠ Removed ∧ g' = MkGuard (gd_dir g) (gd_entry g) (gd_text g) (gd_lock g) None (gd_made g)
  | _ => λ g _ g', g' = g
  end.

(** A process that made the guard can truncate its owner file.  The code relies on it:
    the cleanup of [acquireInstallGuard] does not look at the error of [Truncate]. *)
Definition truncates (g : guard) A (e : BCall A) : A → Prop :=
  match e in BCall T return T → Prop with
  | BTruncate (MkFile GuardOwner _) => λ a, gd_made g = true → a = true
  | _ => λ _, True
  end.

(** The calls that change the managed files, the operation lock or the job. *)
Definition guard_path (q : path) : Prop := q = Guard ∨ q = GuardOwner.

Definition critical A (e : BCall A) : Prop :=
  match e with
  | BMkdir q | BRestrict q | BOpen q CreateExclusive | BRemove q => ¬ guard_path q
  | BWrite f _ | BTruncate f | BTryLock f | BUnlock f => ¬ guard_path (f_path f)
  | BRename _ _ | ARegister _ | AStart | AStop _ _ | AUnregister _ => True
  | _ => False
  end.

Definition holding (g : guard) : Prop :=
  gd_token g = Some p ∧ ∃ i, gd_entry g = Some i ∧ gd_text g !! i = Some guardOwnerMarker ∧ gd_lock g !! i = Some p.

(** What a process may do: change the directory or its file only with the token, and
    make a critical call only while it holds the guard. *)
Definition legal A (e : BCall A) (g : guard) : Prop :=
  (critical A e → holding g) ∧
  match e with
  | BOpen GuardOwner CreateExclusive | BRemove GuardOwner | BRemove Guard => gd_token g = Some p
  | BWrite f _ | BTruncate f => f_path f = GuardOwner → gd_token g = Some p ∧ gd_entry g = Some (f_ino f)
  | _ => True
  end.

Record guard_ok (g : guard) : Prop := {
  go_entry : ∀ i, gd_entry g = Some i → gd_dir g = true ∧ is_Some (gd_text g !! i);
  go_text : ∀ i, gd_text g !! i = Some guardOwnerMarker →
    gd_entry g = Some i ∧ ∀ q, gd_token g = Some q → gd_lock g !! i = Some q;
  go_token : ∀ q, gd_token g = Some q → gd_dir g = true }.

(** What the others may do meanwhile. *)
Record rely (g g' : guard) : Prop := {
  ry_ok : guard_ok g';
  ry_token : gd_token g' = Some p ↔ gd_token g = Some p;
  ry_mine : gd_token g = Some p → gd_dir g' = gd_dir g ∧ gd_entry g' = gd_entry g ∧ gd_made g' = gd_made g
    ∧ ∀ i, gd_entry g = Some i → gd_text g' !! i = gd_text g !! i;
  ry_lock : ∀ i, gd_lock g' !! i = Some p ↔ gd_lock g !! i = Some p }.

Definition genv A (e : BCall A) (g : guard) (a : A) (g' : guard) : Prop :=
  ∃ u, rely g u ∧ (legal A e u → act A e u a g' ∧ truncates u A e a).

Lemma rely_refl g : guard_ok g → rely g g.
Proof. intros Hg. by split. Qed.

Lemma rely_trans g1 g2 g3 : rely g1 g2 → rely g2 g3 → rely g1 g3.
Proof.
  intros [_ T1 M1 L1] [K2 T2 M2 L2]. split; [done|by rewrite T2| |intros i; by rewrite L2].
  intros H. destruct (M1 H) as (D1 & E1 & B1 & X1). apply T1 in H. destruct (M2 H) as (D2 & E2 & B2 & X2).
  split_and!; [congruence..|]. intros i Hi. rewrite X2 by congruence. by apply X1.
Qed.
End process.

(** ** No two at once *)

(** A legal step of [q] is one the others may rely on. *)
Lemma legal_rely p q A (e : BCall A) g a g' : p ≠ q → guard_ok g → guard_ok g' → legal q A e g → act q A e g a g' → rely p g g'.
Proof.
  intros Hpq Hg Hg' [_ Hl] Hx.
  assert (g' = g → rely p g g') as Hsame by (intros ->; by apply rely_refl).
  assert (gd_token g = Some q → gd_token g' = Some q ∨ gd_token g' = None → gd_lock g' = gd_lock g → rely p g g') as Htok.
  { intros H1 H2 H3. split; [done| | |by rewrite H3]; [|congruence]. destruct H2 as [H2|H2]; rewrite H1, H2; split; congruence. }
  destruct e as [|[]|[]|[] []| |[[] i]|[[] i]|[[] i]| | |[[] i]|[[] i]| |[]| | | | | | | | | | |]; simpl in *; auto.
  - destruct a as [| |]; [destruct Hx as [Hd ->]|auto|destruct Hx as [->|[Hd ->]]; [by apply rely_refl|]].
    all: split; simpl; [done| | |done].
    1: split; [congruence|].
    all: try (intros Ht; apply (go_token _ Hg) in Ht; congruence). done.
  - by destruct Hx as [Hx _]; apply Hsame.
  - by destruct Hx as [Hx _]; apply Hsame.
  - destruct a as [i| | |]; [|by auto..|destruct Hx as [->|[i Hx]]; [by apply rely_refl|]]; destruct Hx as (_ & _ & _ & ->);
      by apply Htok; [|left|].
  - destruct Hx as [[_ ->]|(t & Ht & _ & ->)]; [by apply rely_refl|]. destruct (complete g i && _ && _) eqn:Hc; [|by apply rely_refl]. unfold complete in Hc.
    apply andb_true_iff in Hc as [[H1%bool_decide_eq_true_1 H2%bool_decide_eq_true_1]%andb_true_iff _]. destruct (go_text _ Hg i H1) as [_ Hq].
    assert (gd_token g ≠ Some p) as Hn by (intros Hp; apply Hq in Hp; congruence).
    split; simpl; [done| |done|done]. split; [congruence|done].
  - destruct (Hl eq_refl) as [Ht _]. destruct Hx as [[_ ->]|(t & k & _ & _ & _ & ->)]; [by apply rely_refl|]. by apply Htok; [|left|].
  - destruct (Hl eq_refl) as [Ht _]. destruct a; [subst g'|destruct Hx as (t & _ & ->)]; by apply Htok; [|(left + right)|].
  - destruct a; [|auto]. destruct Hx as [Hlk ->]. split; simpl; [done|done|done|]. intros j. destruct (decide (j = i)) as [->|Hj].
    + rewrite lookup_insert_eq. split; [congruence|]. intros Hp. destruct Hlk as [?|?]; congruence.
    + by rewrite lookup_insert_ne.
  - case_bool_decide as Hb; [|auto]. subst g'. split; simpl; [done|done|done|]. intros j. destruct (decide (j = i)) as [->|Hj].
    + rewrite lookup_delete_eq. split; [done|congruence].
    + by rewrite lookup_delete_ne.
  - destruct Hx as [(_ & _ & ->)|[_ ->]]; by apply Htok; [|right|].
  - destruct Hx as [->|[_ ->]]; [by apply Htok; [|left|]|by apply rely_refl].
Qed.

(** ** One process *)

(** Taking and releasing the guard makes no critical call. *)
Ltac lawful := split; [by intros Hc; destruct Hc; unfold guard_path; auto|].

Section one.
Variable p : nat.
Local Notation wpg := (wpc (genv p) guard_ok).

Definition stable (P : guard → Prop) : Prop := ∀ g u, P g → rely p g u → P u.

Lemma gcall {R A} P (e : BCall A) (k : A → prog BCall R) Q g :
  stable P → P g → guard_ok g → (∀ u, P u → legal p A e u) →
  (∀ u a g', P u → guard_ok u → act p A e u a g' → truncates u A e a → wpg (k a) Q g') → wpg (Call e k) Q g.
Proof.
  intros HP Hg Hok Hl Hk. apply wpc_call; [done|]. intros a g' (u & Hr & Hx). pose proof (HP _ _ Hg Hr) as Hu.
  destruct (Hx (Hl u Hu)) as [Ha Ht]. apply (Hk u); [done|apply Hr|done|done].
Qed.

(** The phases of a process. *)
Definition out (g : guard) : Prop := gd_token g ≠ Some p.
Definition made (g : guard) : Prop := gd_token g = Some p ∧ gd_entry g = None ∧ gd_made g = true.
Definition owns (m : bool) (i : nat) (t : string) (l : Prop) (g : guard) : Prop :=
  gd_token g = Some p ∧ gd_entry g = Some i ∧ gd_text g !! i = Some t ∧ (l → gd_lock g !! i = Some p) ∧ gd_made g = m.
Definition tried (i : nat) (g : guard) : Prop := gd_token g ≠ Some p ∧ gd_lock g !! i = Some p.

Lemma out_stable : stable out.
Proof. intros g u Hg Hr. unfold out. by rewrite (ry_token _ _ _ Hr). Qed.
Lemma made_stable : stable made.
Proof.
  intros g u (Ht & He & Hm) Hr. destruct (ry_mine _ _ _ Hr Ht) as (_ & E & B & _).
  split_and!; [by apply (ry_token _ _ _ Hr)|congruence..].
Qed.
Lemma owns_stable m i t l : stable (owns m i t l).
Proof.
  intros g u (Ht & He & Hx & Hl & Hm) Hr. destruct (ry_mine _ _ _ Hr Ht) as (_ & E & B & X).
  split_and!; [by apply (ry_token _ _ _ Hr)|congruence|by rewrite X| |congruence]. intros L. apply (ry_lock _ _ _ Hr). auto.
Qed.
Lemma tried_stable i : stable (tried i).
Proof. intros g u [Ht Hl] Hr. split; [by rewrite (ry_token _ _ _ Hr)|by apply (ry_lock _ _ _ Hr)]. Qed.

(** A call that does nothing to the guard. *)
Lemma idle_call {R A} P (e : BCall A) (k : A → prog BCall R) Q g :
  stable P → P g → guard_ok g → (∀ u, legal p A e u) → (∀ u a g', act p A e u a g' → g' = u) →
  (∀ a u, P u → guard_ok u → wpg (k a) Q u) → wpg (Call e k) Q g.
Proof.
  intros HP Hg Hok Hl Ha Hk. apply (gcall P); [done|done|done|auto|]. intros u a g' Hu Hu' Hx _. rewrite (Ha _ _ _ Hx). auto.
Qed.

(** With the token, its file's text is the only one that could be complete. *)
Lemma token_ok g i t (l : gmap nat nat) :
  guard_ok g → gd_token g = Some p → gd_entry g = Some i → (t = guardOwnerMarker → l !! i = Some p) →
  guard_ok (MkGuard (gd_dir g) (gd_entry g) (<[i := t]> (gd_text g)) l (gd_token g) (gd_made g)).
Proof.
  intros [H1 H2 H3] Ht He Hl. split; simpl; [| |done].
  - intros j Hj. destruct (H1 j Hj) as [? [x Hx]]. split; [done|]. destruct (decide (j = i)) as [->|Hn].
    + rewrite lookup_insert_eq. eauto.
    + rewrite lookup_insert_ne by done. eauto.
  - intros j Hj. destruct (decide (j = i)) as [->|Hn].
    + rewrite lookup_insert_eq in Hj. injection Hj as ->. split; [done|]. intros q Hq. assert (q = p) as -> by congruence. by apply Hl.
    + rewrite lookup_insert_ne in Hj by done. destruct (H2 j Hj) as [E _]. congruence.
Qed.

(** Without the token, having failed to truncate the file. *)
Lemma token_lost g i t : guard_ok g → gd_entry g = Some i → t = gd_text g ∨ t = <[i := ""]> (gd_text g) →
  guard_ok (MkGuard (gd_dir g) (gd_entry g) t (gd_lock g) None (gd_made g)).
Proof.
  intros [H1 H2 H3] He Ht. assert (∀ j x, x ≠ "" → t !! j = Some x → gd_text g !! j = Some x) as Hx.
  { intros j x Hx. destruct Ht as [->| ->]; [done|]. rewrite lookup_insert_Some. intros [[_ <-]|[_ ?]]; done. }
  split; simpl; [|intros j Hj|done].
  - intros j Hj. destruct (H1 j Hj) as [Hd Hs]. split; [done|]. destruct Ht as [->| ->]; [done|]. apply lookup_insert_is_Some'. by right.
  - apply Hx in Hj; [|done]. by destruct (H2 j Hj).
Qed.

Ltac idle P := apply (idle_call P); [assumption|assumption|assumption|by lawful|by intros; simpl in *|].
Ltac ret := apply wpc_ret; [assumption|].

Definition away {R} (_ : R) (g : guard) : Prop := guard_ok g ∧ out g.

(** The guard's directory is removed if it is empty. *)
Lemma removeGuard_wpg {R} (k : remove_answer → prog BCall R) Q g : guard_ok g → gd_token g = Some p →
  (∀ a u, guard_ok u → out u → wpg (k a) Q u) → wpg (Call (BRemove Guard) k) Q g.
Proof.
  intros Hok Ht Hk. apply (gcall (λ g, gd_token g = Some p)); [|done|done| |].
  - intros u v Hu Hr'. by apply (ry_token _ _ _ Hr').
  - intros u Hu. by lawful.
  - intros u a g' Hu Hu' Hx _. simpl in Hx. apply Hk; [|by destruct Hx as [(_ & _ & ->)|[_ ->]]]. destruct Hu' as [H1 H2 H3].
    destruct Hx as [(Hd & He & ->)|[_ ->]]; (split; simpl; [try done| |done]).
    all: intros i Hi; destruct (H2 i Hi) as [E _]; first [congruence|by split].
Qed.

Lemma removeOwner_wpg {R} m i (k : remove_answer → prog BCall R) Q g : guard_ok g → owns m i "" False g →
  (∀ a u, guard_ok u → gd_token u = Some p → wpg (k a) Q u) → wpg (Call (BRemove GuardOwner) k) Q g.
Proof.
  intros Hok Ho Hk. apply (gcall (owns m i "" False)); [apply owns_stable|done|done| |].
  - intros u (Ht & _). by lawful.
  - intros u a g' (Ht & He & Hx & _) Hu' [->|[_ ->]] _; [|by apply Hk]. apply Hk; [|done].
    split; simpl; [done| |apply Hu']. intros j Hj. destruct (go_text _ Hu' j Hj) as [E _]. rewrite He in E. injection E as <-.
    rewrite Hx in Hj. done.
Qed.

(** Truncating, whatever the text was. *)
Lemma truncate_wpg {R} i t (l : Prop) (k : bool → prog BCall R) Q g : guard_ok g → owns true i t l g →
  (∀ u, guard_ok u → owns true i "" l u → wpg (k true) Q u) → wpg (Call (BTruncate (MkFile GuardOwner i)) k) Q g.
Proof.
  intros Hok Ho Hk. apply (gcall (owns true i t l)); [apply owns_stable|done|done| |].
  - intros u (Ht & He & _). lawful. by intros _.
  - intros u a g' (Ht & He & Hx & Hl & Hm) Hu' Ha Htr. rewrite (Htr Hm) in Ha |- *. simpl in Ha. subst g'.
    apply Hk; [by apply token_ok|]. split_and!; simpl; [done|done|apply lookup_insert_eq|done|done].
Qed.

(** Unlocking a file whose text is not the proof. *)
Lemma unlock_wpg {R} m i (k : bool → prog BCall R) Q g : guard_ok g → owns m i "" False g →
  (∀ a u, guard_ok u → owns m i "" False u → wpg (k a) Q u) → wpg (Call (BUnlock (MkFile GuardOwner i)) k) Q g.
Proof.
  intros Hok Ho Hk. apply (gcall (owns m i "" False)); [apply owns_stable|done|done|by lawful|].
  intros u a g' (Ht & He & Hx & _ & Hm) Hu' Hg' _. simpl in Hg'. case_bool_decide; subst g'; apply Hk; try done. destruct Hu' as [H1 H2 H3].
  split; simpl; [done| |done]. intros j Hj. destruct (H2 j Hj) as [E _]. rewrite He in E. injection E as <-. rewrite Hx in Hj. done.
Qed.

(** Unlocking a file locked without the token. *)
Lemma unlockTried_wpg {R} i (k : bool → prog BCall R) Q g : guard_ok g → tried i g →
  (∀ a u, guard_ok u → wpg (k a) Q u) → wpg (Call (BUnlock (MkFile GuardOwner i)) k) Q g.
Proof.
  intros Hok Ht Hk. apply (gcall (tried i)); [apply tried_stable|done|done|by lawful|]. clear g Hok Ht. intros u b g [Ht Hl] Hok Hx _.
  simpl in Hx. rewrite bool_decide_eq_true_2 in Hx by done. subst g. apply Hk.
  destruct Hok as [G1 G2 G3]. split; simpl; [done| |done]. intros j Hj. destruct (G2 j Hj) as [Ej Hq]. split; [done|].
  intros q Hqt. specialize (Hq q Hqt). rewrite lookup_delete_ne; [done|]. intros <-. congruence.
Qed.

Lemma release_wpg i t (l : Prop) g : guard_ok g → owns true i t l g → wpg (releaseInstallGuard (MkFile GuardOwner i)) away g.
Proof.
  intros Hok Ho. unfold releaseInstallGuard. eapply truncate_wpg; [done|exact Ho|]. clear g Hok Ho. intros g Hok Ho.
  assert (owns true i "" False g) as Ho' by (destruct Ho as (? & ? & ? & _ & ?); by split_and!). clear Ho.
  pose proof (owns_stable true i "" False) as HS.
  idle (owns true i "" False). clear g Hok Ho'. intros _ g Ho Hok. apply (unlock_wpg true i); [done|done|]. clear g Hok Ho. intros _ g Hok Ho.
  idle (owns true i "" False). clear g Hok Ho. intros _ g Ho Hok. apply (removeOwner_wpg true i); [done|done|]. clear g Hok Ho. intros a g Hok Ht.
  apply removeGuard_wpg; [done|done|]. intros _ u Hu Ho. ret. by split.
Qed.

(** The guard was taken. *)
Definition taken (r : result Code file) (g : guard) : Prop :=
  guard_ok g ∧ ∀ f, r = Ok f → f_path f = GuardOwner ∧ owns true (f_ino f) guardOwnerMarker True g.

Lemma taken_err c g : guard_ok g → wpg (Ret (Err c)) taken g.
Proof. intros Hg. by ret. Qed.

(** The owner file was just made. *)
Lemma created_owns i u g : guard_ok u → made u → created i u g → guard_ok g ∧ owns true i "" False g.
Proof.
  intros [H1 H2 H3] (Ht & He & Hm) (Hd & _ & Hi & ->). split; [split; simpl; [| |done]|].
  - intros j [= <-]. split; [done|]. rewrite lookup_insert_eq. eauto.
  - intros j Hj. destruct (decide (j = i)) as [->|Hn]; [by rewrite lookup_insert_eq in Hj|]. rewrite lookup_insert_ne in Hj by done.
    destruct (H2 j Hj). congruence.
  - split_and!; simpl; [done|done|apply lookup_insert_eq|done|done].
Qed.

Lemma ownGuard_wpg g : guard_ok g → made g → wpg ownGuard taken g.
Proof.
  intros Hok Hm. unfold ownGuard. pose proof made_stable as HM. idle made. clear g Hok Hm. intros restricted g (Ht & He & Hm) Hok.
  assert (Hrm : ∀ c g, guard_ok g → gd_token g = Some p → wpg (Call (BRemove Guard) (λ _, Ret (Err c))) taken g).
  { intros c u Hu Htu. apply removeGuard_wpg; [done|done|]. intros; by apply taken_err. }
  destruct (negb restricted); [by apply Hrm|].
  apply (gcall made); [done|done|done|intros u (Hu & _); by lawful|]. clear g Ht He Hm Hok. intros u opened g (Ht & He & Hm) Hu Hx _.
  pose proof (λ i, created_owns i u g Hu (conj Ht (conj He Hm))) as Hopen.
  destruct opened as [i| | |]; simpl in Hx; [|subst g; by apply Hrm..|].
  2: { destruct Hx as [->|[i [Hok Ho]%Hopen]]; [by apply Hrm|]. apply Hrm; [done|apply Ho]. }
  destruct (Hopen i Hx) as [Hok Ho]. clear Hopen Hx. cbv zeta.
  clear u Ht He Hm Hu.
  assert (Hgive : ∀ t l c g, guard_ok g → owns true i t l g → wpg (bind (releaseInstallGuard (MkFile GuardOwner i)) (λ _, Ret (Err c))) taken g).
  { intros t l c u Hu Hou. apply wpc_bind. eapply wpc_mono; [| |by eapply release_wpg].
    - done.
    - intros [] v [Hv _]. by apply taken_err. }
  pose proof (owns_stable true i "" False) as HS. idle (owns true i "" False). clear g Ho Hok. intros r2 g Ho Hok.
  destruct (negb r2); [by eapply Hgive|].
  apply (gcall (owns true i "" False)); [done|done|done|by lawful|]. clear g Ho Hok. intros u locked g Ho Hu Hx _. simpl in Hx.
  destruct locked; cbn [negb]; [|subst g; by eapply Hgive]. destruct Hx as [_ ->].
  set (g := MkGuard _ _ _ _ _ _). destruct Ho as (Ht & He & Hx & _ & Hm).
  assert (owns true i "" True g) as Ho by (split_and!; simpl; [done|done|done|intros _; apply lookup_insert_eq|done]).
  assert (guard_ok g) as Hok.
  { destruct Hu as [H1 H2 H3]. split; simpl; [done| |done]. intros j Hj. destruct (H2 j Hj) as [E _]. rewrite He in E. injection E as <-.
    rewrite Hx in Hj. done. }
  clearbody g. clear u Ht He Hm Hu Hx HS.
  apply (gcall (owns true i "" True)); [apply owns_stable|done|done|intros u (Ht & He & _); lawful; by intros _|].
  clear g Ho Hok. intros u [n ok] g (Ht & He & Hx & Hl & Hm) Hu [[[= ->] ->]|(t & k & Ht' & Hk & Hn & ->)] _.
  { eapply (Hgive "" True); [done|by split_and!]. }
  simpl in Hn. rewrite Hx in Ht'. injection Ht' as <-.
  set (t := "" ++ substring 0 k guardOwnerMarker). set (g := MkGuard _ _ _ _ _ _).
  assert (owns true i t True g) as Ho by (split_and!; simpl; [done|done|apply lookup_insert_eq|auto|done]).
  assert (guard_ok g) as Hok by (apply token_ok; auto).
  clearbody g. clear u Ht He Hm Hu Hx Hl. cbn [fst snd]. subst n.
  destruct (_ || _) eqn:Hshort; [by eapply Hgive|]. apply orb_false_iff in Hshort as [_ Hlen].
  apply negb_false_iff, Z.eqb_eq in Hlen. unfold slen in Hlen.
  assert (t = guardOwnerMarker) as Et.
  { unfold t. rewrite append_nil. apply substring_prefix_0. lia. }
  rewrite Et in Ho. clear t Et. pose proof (owns_stable true i guardOwnerMarker True) as HS. idle (owns true i guardOwnerMarker True).
  clear g Ho Hok. intros synced g Ho Hok. destruct (negb synced); [by eapply Hgive|]. ret. split; [done|]. by intros f [= <-].
Qed.

(** A recovery that succeeded removed the guard. *)
Definition recovered (r : result Code bool) (g : guard) : Prop := guard_ok g ∧ (r = Ok true → out g).

Lemma recovered_ret r g : guard_ok g → r ≠ Ok true → wpg (Ret r) recovered g.
Proof. intros Hg Hr. ret. by split. Qed.

(** From the proof, read under the lock, on. *)
Lemma takeAway_wpg i g : guard_ok g → owns false i guardOwnerMarker True g →
  wpg (Call (BTruncate (MkFile GuardOwner i)) (λ truncated,
    bind (if truncated : bool then Call (BSync (MkFile GuardOwner i)) (λ s, Ret s) else Ret false) (λ durable,
    Call (BUnlock (MkFile GuardOwner i)) (λ _, Call (BClose (MkFile GuardOwner i)) (λ closed,
      if negb durable || negb closed then Ret (Err CodeUnsafeManagedState)
      else Call (BRemove GuardOwner) (λ removed, match removed with
        | Removed => Call (BRemove Guard) (λ removed, Ret (match removed with Removed => Ok true | _ => Err CodeUnsafeManagedState end))
        | _ => Ret (Err CodeUnsafeManagedState) end)))))) recovered g.
Proof.
  intros Hok Ho. apply (gcall (owns false i guardOwnerMarker True)); [apply owns_stable|done|done|intros u (Ht & He & _); lawful; by intros _|].
  clear g Hok Ho. intros u truncated g (Ht & He & Hx & Hl & Hm) Hu Ha _. destruct truncated; simpl in Ha.
  - subst g. set (g := MkGuard _ _ _ _ _ _). assert (guard_ok g) as Hok by (by apply token_ok).
    assert (owns false i "" False g) as Ho by (split_and!; simpl; [done|done|apply lookup_insert_eq|done|done]).
    clearbody g. clear u Ht He Hx Hl Hm Hu. pose proof (owns_stable false i "" False) as HS.
    apply wpc_bind. idle (owns false i "" False). clear g Hok Ho. intros durable g Ho Hok. ret.
    apply (unlock_wpg false i); [done|done|]. clear g Hok Ho. intros _ g Hok Ho.
    idle (owns false i "" False). clear g Hok Ho. intros closed g Ho Hok. destruct (_ || _); [by apply recovered_ret|].
    apply (removeOwner_wpg false i); [done|done|]. clear g Hok Ho. intros a g Hok Ht. destruct a; [|by apply recovered_ret..].
    apply removeGuard_wpg; [done|done|]. intros a u Hu Hout. ret. by split.
  - destruct Ha as (t & Ht' & ->). assert (guard_ok (MkGuard (gd_dir u) (gd_entry u) t (gd_lock u) None (gd_made u))) as Hok.
    { by apply (token_lost _ i). }
    apply wpc_bind. ret. apply (unlockTried_wpg i); [done|split; [done|by apply Hl]|]. intros _ g Hg.
    apply (idle_call (λ _, True)); [done|done|done|by split|by intros; simpl in *|]. intros closed v _ Hv. by apply recovered_ret.
Qed.

(** Locking a file the others may be at. *)
Lemma trylock_ok g i : guard_ok g → out g → gd_lock g !! i = None ∨ gd_lock g !! i = Some p →
  guard_ok (MkGuard (gd_dir g) (gd_entry g) (gd_text g) (<[i := p]> (gd_lock g)) (gd_token g) (gd_made g)).
Proof.
  intros [H1 H2 H3] Hout Hl. split; simpl; [done| |done]. intros j Hj. destruct (H2 j Hj) as [He Hq]. split; [done|].
  intros q Hqt. specialize (Hq q Hqt). rewrite lookup_insert_ne; [done|]. intros <-. unfold out in Hout. destruct Hl; congruence.
Qed.

Lemma marker_whole t : substring 0 (Z.to_nat 65) t = guardOwnerMarker → t = guardOwnerMarker.
Proof.
  intros H. rewrite <- H. symmetry. apply substring_prefix_0. assert (String.length (substring 0 (Z.to_nat 65) t) = 46%nat) as E by (by rewrite H).
  rewrite length_substring_0 in E. lia.
Qed.

Lemma ValidateRegular_wpg {R} q max (k : result ioerror fileInfo → prog BCall R) Q g :
  match q with Guard | GuardOwner => True | _ => False end →
  guard_ok g → out g → (∀ r u, guard_ok u → out u → wpg (k r) Q u) → wpg (bind (ValidateRegular q max) k) Q g.
Proof.
  intros Hq Hok Ho Hk. pose proof out_stable as HS. unfold ValidateRegular.
  apply (idle_call out); [done|done|done|by destruct q|by intros; simpl in *|]. fold @bind. intros a u Hu Hu'. by apply Hk.
Qed.

(** The whole text read under the lock shows that its writer is gone. *)
Lemma read_proof u i contents g : guard_ok u → tried i u → act p _ (BReadAll (MkFile GuardOwner i) 65) u contents g →
  (contents = Some guardOwnerMarker ∧ guard_ok g ∧ owns false i guardOwnerMarker True g)
  ∨ (contents ≠ Some guardOwnerMarker ∧ guard_ok g ∧ tried i g).
Proof.
  intros Hok [Ht Hl] [[-> ->]|(t & Hx & -> & ->)]; [by right|].
  destruct (decide (substring 0 (Z.to_nat 65) t = guardOwnerMarker)) as [E|E].
  - left. assert (t = guardOwnerMarker) as -> by (by apply marker_whole). unfold complete.
    rewrite !bool_decide_eq_true_2 by (done || congruence). simpl. destruct (go_text _ Hok i Hx) as [He Hq].
    split; [done|]. split; [|by split_and!]. destruct Hok as [G1 G2 G3]. split; simpl; [done| |].
    + intros j Hj. destruct (G2 j Hj) as [Ej _]. split; [done|]. intros q [= <-]. congruence.
    + intros q _. by destruct (G1 i He).
  - right. rewrite (bool_decide_eq_false_2 (Some (substring 0 (Z.to_nat 65) t) = Some guardOwnerMarker)) by congruence. rewrite andb_false_r.
    split; [congruence|]. destruct u. by split.
Qed.

Lemma recover_wpg g : guard_ok g → out g → wpg recoverBackgroundInstallGuard recovered g.
Proof.
  intros Hok Ho. unfold recoverBackgroundInstallGuard. pose proof out_stable as HS.
  idle out. clear g Hok Ho. intros info g Ho Hok. cbv zeta. destruct (negb _); [by apply recovered_ret|].
  idle out. clear g Hok Ho. intros entries g Ho Hok. destruct (negb _); [by apply recovered_ret|].
  apply ValidateRegular_wpg; [done|done|done|]. clear g Hok Ho. intros [i0|e] g Hok Ho; [|by apply recovered_ret].
  apply (gcall out); [done|done|done|by lawful|]. clear g Hok Ho. intros u opened g Ho Hok [-> _] _.
  destruct opened as [i| | |]; [|by apply recovered_ret..]. 
  idle out. clear u Hok Ho. intros stat g Ho Hok. destruct (negb _).
  { idle out. intros _ u _ Hu. by apply recovered_ret. }
  apply (gcall out); [done|done|done|by lawful|]. clear g Hok Ho. intros u locked g Ho Hok Hx _. simpl in Hx. destruct locked; cbn [negb].
  2: { subst g. idle out. intros _ v _ Hv. by apply recovered_ret. }
  destruct Hx as [Hl ->]. pose proof (trylock_ok u i Hok Ho Hl) as Hok'. set (g := MkGuard _ _ _ _ _ _) in *.
  assert (tried i g) as Ht by (split; [done|apply lookup_insert_eq]). clearbody g. clear u Hok Ho Hl.
  apply (gcall (tried i)); [apply tried_stable|done|done|by lawful|]. clear g Hok' Ht. intros u contents g Ht Hok Hx _.
  destruct (read_proof u i contents g Hok Ht Hx) as [(-> & Hok' & Ho)|(Hn & Hok' & Ht')].
  - assert (str_eqb guardOwnerMarker guardOwnerMarker = true) as -> by (by apply String.eqb_eq). by apply takeAway_wpg.
  - assert (match contents with Some c => str_eqb c guardOwnerMarker | None => false end = false) as ->.
    { destruct contents as [c|]; [|done]. apply String.eqb_neq. congruence. }
    apply (unlockTried_wpg i); [done|done|]. intros _ v Hv.
    apply (idle_call (λ _, True)); [done|done|done|by split|by intros; simpl in *|]. intros _ w _ Hw. by apply recovered_ret.
Qed.

Lemma mkdir_wpg {R} (k : mkdir_answer → prog BCall R) Q g : guard_ok g → out g →
  (∀ u, guard_ok u → made u → wpg (k MkdirDone) Q u) → (∀ a u, a ≠ MkdirDone → guard_ok u → out u → wpg (k a) Q u) →
  wpg (Call (BMkdir Guard) k) Q g.
Proof.
  intros Hok Ho Hdone Hnot. apply (gcall out); [apply out_stable|done|done|by lawful|]. clear g Hok Ho. intros u a v Ho Hu Hx _.
  assert (gd_dir u = false → gd_entry u = None) as He.
  { intros Hd. destruct (gd_entry u) as [i|] eqn:E; [|done]. destruct (go_entry _ Hu i E). congruence. }
  assert (∀ t m, gd_dir u = false → guard_ok (MkGuard true (gd_entry u) (gd_text u) (gd_lock u) t m)) as Hnew.
  { intros t m Hd. specialize (He Hd). destruct Hu as [H1 H2 H3].
    split; simpl; [intros i Hi; congruence|intros i Hi; destruct (H2 i Hi); congruence|done]. }
  destruct a; simpl in Hx; [|subst v; by apply Hnot|].
  - destruct Hx as [Hd ->]. apply Hdone; [by apply Hnew|]. split_and!; simpl; auto.
  - destruct Hx as [->|[Hd ->]]; apply Hnot; try done. by apply Hnew.
Qed.

Lemma acquire_wpg root g : guard_ok g → out g → wpg (acquireInstallGuard root) taken g.
Proof.
  intros Hok Ho. unfold acquireInstallGuard. pose proof out_stable as HS.
  idle out. clear g Hok Ho. intros info g Ho Hok. cbv zeta. destruct (negb _); [by apply taken_err|].
  apply mkdir_wpg; [done|done|apply ownGuard_wpg|]. clear g Hok Ho. intros a g Ha Hok Ho. destruct a; [done| |by apply taken_err].
  apply wpc_bind. eapply wpc_mono; [| |by apply recover_wpg]; [done|]. clear g Hok Ho Ha. intros r g [Hok Ho].
  destruct r as [[|]|c]; [|by apply taken_err..].
  apply mkdir_wpg; [done|by apply Ho|apply ownGuard_wpg|]. clear g Hok Ho. intros a g Ha Hok Ho. destruct a; [done|by apply taken_err..].
Qed.

End one.
