(* ===== verification/BackgroundExclusion.v ===== *)
(** * The background profile's operations exclude each other

    Whatever an operation changes (the managed files, the operation lock, the job) it
    changes while it holds the install guard, so that no two processes change anything
    at once.  Every routine is walked through for the calls it makes. *)

From S2P Require Import Prelude GoText Effects Background BackgroundHost BackgroundSystem BackgroundStuck BackgroundGuard.

#[local] Open Scope string_scope.
#[local] Open Scope Z_scope.

(** ** Which calls a routine makes *)

(** Every call of a routine satisfies [P], and its result [Q]. *)
Fixpoint does {E : Type → Type} {R} (P : ∀ A, E A → Prop) (p : prog E R) (Q : R → Prop) : Prop :=
  match p with
  | Ret r => Q r
  | Call e k => P _ e ∧ ∀ a, does P (k a) Q
  end.

Lemma does_bind {E : Type → Type} {A B} P (p : prog E A) (f : A → prog E B) Q Q' :
  does P p Q → (∀ a, Q a → does P (f a) Q') → does P (bind p f) Q'.
Proof. intros H Hf. induction p as [r|T e k IH]; [by apply Hf|]. destruct H as [? H]. split; [done|]. intros a. by apply IH. Qed.

Lemma does_mono {E : Type → Type} {R} (P P' : ∀ A, E A → Prop) (p : prog E R) (Q Q' : R → Prop) :
  (∀ A e, P A e → P' A e) → (∀ r, Q r → Q' r) → does P p Q → does P' p Q'.
Proof. intros HP HQ H. induction p as [r|T e k IH]; [by apply HQ|]. destruct H as [? H]. split; [by apply HP|]. intros a. by apply IH. Qed.

(** Calls that leave the guard alone. *)
Definition beside A (e : BCall A) : Prop :=
  match e with
  | BLstat _ => True
  | BMkdir q | BRestrict q | BOpen q _ | BRemove q | BReadDir q => ¬ guard_path q
  | BStat f | BReadAll f _ | BWrite f _ | BTruncate f | BSync f | BClose f | BTryLock f | BUnlock f => ¬ guard_path (f_path f)
  | BRename q q' => ¬ guard_path q ∧ ¬ guard_path q'
  | _ => True
  end.

Definition reading A (e : BCall A) : Prop := beside A e ∧ ¬ critical A e.

Lemma reading_beside {R} (p : prog BCall R) Q : does reading p Q → does beside p Q.
Proof. apply does_mono; [by intros A e []|done]. Qed.

Lemma entry_beside name : ¬ guard_path (Entry name).
Proof. by intros [|]. Qed.
Lemma dir_beside : ¬ guard_path BackgroundDir.
Proof. by intros [|]. Qed.

Create HintDb calls.
#[local] Hint Resolve entry_beside dir_beside reading_beside I : calls.

(** A file opened at [q], if one is returned. *)
Definition opened_at {X} (q : path) (r : result X file) : Prop := match r with Ok f => f_path f = q | Err _ => True end.
Definition any {R} (_ : R) : Prop := True.

Ltac allowed := unfold reading, beside, critical; simpl in *; try match goal with H : f_path _ = _ |- _ => rewrite H end;
  auto 6 using entry_beside, dir_beside with calls.

(** Walk through a routine. *)
Ltac walk := repeat lazymatch goal with
  | |- does _ (Ret _) _ => by simpl; auto with calls
  | |- does _ (bind _ _) _ => first [eapply does_bind; [by eauto with calls|intros]|apply (does_bind _ _ _ any); [|intros]]
  | |- does _ (Call _ _) _ => split; [by allowed|intros]; cbv zeta
  | |- does _ (if ?x then _ else _) _ => destruct x
  | |- does _ (match ?x with _ => _ end) _ => destruct x
  | |- does _ (let _ := _ in _) _ => cbv zeta
  | |- _ => by eauto with calls
  end.

Lemma ValidateRegular_does q max : does reading (ValidateRegular q max) any.
Proof. unfold ValidateRegular. walk. Qed.
#[local] Hint Resolve ValidateRegular_does : calls.
Lemma openRegular_does q max : ¬ guard_path q → does reading (openRegular q max) (opened_at q).
Proof. intros Hq. unfold openRegular. walk. Qed.
#[local] Hint Resolve openRegular_does : calls.
Lemma readSmallRegular_does q max : ¬ guard_path q → does reading (readSmallRegular q max) any.
Proof. intros Hq. unfold readSmallRegular. walk. Qed.
#[local] Hint Resolve readSmallRegular_does : calls.
Lemma hasManagedState_does : does reading hasManagedState any.
Proof. unfold hasManagedState. walk. Qed.
#[local] Hint Resolve hasManagedState_does : calls.
Lemma checkManaged_does r l : does reading (checkManaged r l) any.
Proof. induction l as [|e l IH]; simpl checkManaged; walk. Qed.
#[local] Hint Resolve checkManaged_does : calls.
Lemma validateManagedFiles_does r : does reading (validateManagedFiles r) any.
Proof. unfold validateManagedFiles. walk. Qed.
#[local] Hint Resolve validateManagedFiles_does : calls.
Lemma statusLocked_does s r : does reading (statusLocked s r) any.
Proof. unfold statusLocked. walk. Qed.
#[local] Hint Resolve statusLocked_does : calls.
Lemma waitForStopped_does ticks r : does reading (waitForStopped ticks r) any.
Proof. induction ticks as [|ticks IH]; simpl waitForStopped; walk. Qed.
#[local] Hint Resolve waitForStopped_does : calls.
Lemma disabling_does : does reading disabling any.
Proof. unfold disabling. walk. Qed.
#[local] Hint Resolve disabling_does : calls.
Lemma notRegistered_does : does reading notRegistered any.
Proof. unfold notRegistered. walk. Qed.
#[local] Hint Resolve notRegistered_does : calls.
Lemma checkInterrupted_does l : does reading (checkInterrupted l) any.
Proof. induction l as [|e l IH]; simpl checkInterrupted; walk. Qed.
#[local] Hint Resolve checkInterrupted_does : calls.

Lemma writePrivateAtomic_does name contents : does beside (writePrivateAtomic name contents) any.
Proof. unfold writePrivateAtomic, next. walk. Qed.
#[local] Hint Resolve writePrivateAtomic_does : calls.
Lemma removePartial_does r l : does beside (removePartial r l) any.
Proof. induction l as [|e l IH]; simpl removePartial; walk. Qed.
#[local] Hint Resolve removePartial_does : calls.
Lemma recoverPartialEnable_does r : does beside (recoverPartialEnable r) any.
Proof. unfold recoverPartialEnable. walk. Qed.
#[local] Hint Resolve recoverPartialEnable_does : calls.
Lemma removeEach_does names : does beside (removeEach names) any.
Proof. induction names as [|name names IH]; simpl removeEach; walk. Qed.
#[local] Hint Resolve removeEach_does : calls.
Lemma openLock_does : does beside openLock (opened_at (Entry lockDirectory)).
Proof. unfold openLock. walk. Qed.
#[local] Hint Resolve openLock_does : calls.
Lemma lockIn_does made : does beside (lockIn made) (opened_at (Entry lockDirectory)).
Proof. unfold lockIn. walk. Qed.
#[local] Hint Resolve lockIn_does : calls.
Lemma lockDir_does create : does beside (lockDir create) (opened_at (Entry lockDirectory)).
Proof. unfold lockDir. walk. Qed.
Lemma stopJob_does force s r state : does beside (stopJob force s r state) any.
Proof. unfold stopJob. walk. Qed.
#[local] Hint Resolve stopJob_does : calls.
Lemma resumeLocked_does : does beside resumeLocked any.
Proof. unfold resumeLocked. walk. Qed.
Lemma disableManaged_does force s r : does beside (disableManaged force s r) any.
Proof. unfold disableManaged, unavailable, removeManagedState. walk. Qed.
Lemma enableJob_does s r : does beside (enableJob s r) any.
Proof. unfold enableJob, unavailable. walk. Qed.
#[local] Hint Resolve enableJob_does : calls.

Section operations.
Variables (root : string) (registrations : Settings → option registration).
Variables (marshal : Settings → string) (unmarshal : string → option Settings).

Lemma readSettings_does : does reading (readSettings unmarshal) any.
Proof. unfold readSettings. walk. Qed.
#[local] Hint Resolve readSettings_does : calls.
Lemma loadManaged_does : does reading (loadManaged root registrations unmarshal) any.
Proof. unfold loadManaged. walk. Qed.
#[local] Hint Resolve loadManaged_does : calls.
Lemma enableFiles_does s r : does beside (enableFiles marshal unmarshal s r) any.
Proof. unfold enableFiles, initializeManagedState, writeSettings. walk. Qed.
#[local] Hint Resolve enableFiles_does : calls.

(** ** One process *)

Section one.
Variable p : nat.
Local Notation wpg := (wpc (genv p) guard_ok).
Local Notation holds i := (owns p true i guardOwnerMarker True).

Lemma beside_act A (e : BCall A) g a g' : beside A e → act p A e g a g' → g' = g.
Proof.
  intros Hb Hx. destruct e as [|[]|[]|[] []| |[[] i]|[[] i]|[[] i]| | |[[] i]|[[] i]| |[]| | | | | | | | | | |]; simpl in *; try done.
  all: exfalso; apply Hb; by (left + right).
Qed.

Lemma steady_wpg {R} (C : ∀ A, BCall A → Prop) (P : guard → Prop) (q : prog BCall R) Q g :
  stable p P → (∀ A e, C A e → beside A e) → (∀ A e u, C A e → P u → critical A e → holding p u) →
  does C q Q → P g → guard_ok g → wpg q (λ r u, Q r ∧ P u ∧ guard_ok u) g.
Proof.
  intros HS HC HL. revert g. induction q as [r|A e k IH]; intros g Hq Hg Hok; [by apply wpc_ret|]. destruct Hq as [He Hq].
  apply (gcall p P); [done|done|done| |].
  - intros u Hu. split; [by apply (HL A e)|]. pose proof (HC _ _ He) as Hb.
    destruct e as [| | |[] []| | |[[] ?]|[[] ?]| | | | | |[]| | | | | | | | | | |]; try done; exfalso; apply Hb; by (left + right).
  - intros u a g' Hu Hu' Hx _. rewrite (beside_act _ _ _ _ _ (HC _ _ He) Hx). by apply IH.
Qed.

Lemma reads_wpg {R} (q : prog BCall R) Q g : does reading q Q → guard_ok g → out p g → wpg q (away p) g.
Proof.
  intros Hq Hok Ho. eapply wpc_mono; [| |eapply (steady_wpg reading (out p)); [|..|exact Hq|done|done]]; [done| |apply out_stable| |].
  - intros r u (_ & Hu & Hu'). by split.
  - by intros A e [].
  - by intros A e u [].
Qed.

Lemma works_wpg {R} i (q : prog BCall R) Q g : does beside q Q → guard_ok g → holds i g →
  wpg q (λ r u, Q r ∧ holds i u ∧ guard_ok u) g.
Proof.
  intros Hq Hok Ho. apply (steady_wpg beside); [apply owns_stable|done| |done|done|done]. intros A e u _ (Ht & He & Hx & Hl & _) _.
  split; [done|]. exists i. auto.
Qed.

(** The guard and the operation lock, taken. *)
Definition locked (r : result Code (file * file)) (g : guard) : Prop :=
  guard_ok g ∧ ∀ f i, r = Ok (f, i) → f_path f = Entry lockDirectory ∧ f_path i = GuardOwner ∧ holds (f_ino i) g.

Lemma lock_wpg create g : guard_ok g → out p g → wpg (lock root create) locked g.
Proof.
  intros Hok Ho. unfold lock. apply wpc_bind. eapply wpc_mono; [| |by apply acquire_wpg]; [done|]. clear g Hok Ho.
  intros [[q i]|c] g [Hok Hf]; [|by apply wpc_ret]. destruct (Hf _ eq_refl) as [Hq Ho]. simpl in Hq, Ho. subst q.
  apply wpc_bind. eapply wpc_mono; [| |apply (works_wpg i _ _ _ (lockDir_does create) Hok Ho)]; [done|]. clear g Hok Hf Ho.
  intros [f|c] g (Hf & Ho & Hok).
  - apply wpc_ret; [done|]. split; [done|]. by intros f' i' [= <- <-].
  - apply wpc_bind. eapply wpc_mono; [| |by eapply release_wpg]; [done|]. intros [] u [Hu _]. by apply wpc_ret.
Qed.

Lemma unlockBoth_wpg f i g : guard_ok g → f_path f = Entry lockDirectory → f_path i = GuardOwner → holds (f_ino i) g →
  wpg (unlock (f, i)) (away p) g.
Proof.
  intros Hok Hf Hi Ho. destruct i as [q i]. simpl in Hi, Ho. subst q.
  assert (does beside (Call (BUnlock f) (λ _, Call (BClose f) (λ _, Ret tt))) any) as Hd by walk.
  change (wpg (bind (Call (BUnlock f) (λ _, Call (BClose f) (λ _, Ret tt))) (λ _, releaseInstallGuard (MkFile GuardOwner i))) (away p) g).
  apply wpc_bind. eapply wpc_mono; [| |apply (works_wpg i _ _ _ Hd Hok Ho)]; [done|]. intros [] u (_ & Hu & Hu'). by eapply release_wpg.
Qed.

(** An operation takes the lock, works, and gives the lock back; after a refusal it
    makes no call. *)
Lemma lock_bind {R} create (k : result Code (file * file) → prog BCall R) Q g : guard_ok g → out p g →
  (∀ c u, guard_ok u → wpg (k (Err c)) Q u) → (∀ f i u, locked (Ok (f, i)) u → wpg (k (Ok (f, i))) Q u) →
  wpg (bind (lock root create) k) Q g.
Proof.
  intros Hok Ho He Hk. apply wpc_bind. eapply wpc_mono; [| |by apply lock_wpg]; [done|]. intros [[f i]|c] u Hu; [by apply Hk|].
  apply He, Hu.
Qed.

Lemma work_bind {X R} f i (body : prog BCall X) P (k : X → prog BCall R) Q g : does beside body P → locked (Ok (f, i)) g →
  (∀ x u, locked (Ok (f, i)) u → wpg (k x) Q u) → wpg (bind body k) Q g.
Proof.
  intros Hb [Hok Hf] Hk. destruct (Hf _ _ eq_refl) as (Hp & Hi & Ho). apply wpc_bind.
  eapply wpc_mono; [| |apply (works_wpg _ _ _ _ Hb Hok Ho)]; [done|]. intros x u (_ & Hu & Hu'). apply Hk. split; [done|].
  by intros ? ? [= <- <-].
Qed.

Lemma unlock_bind {R} f i (r : R) (Q : R → guard → Prop) g : locked (Ok (f, i)) g → (∀ u, guard_ok u → out p u → Q r u) →
  wpg (bind (unlock (f, i)) (λ _, Ret r)) Q g.
Proof.
  intros [Hok Hf] HQ. destruct (Hf _ _ eq_refl) as (Hp & Hi & Ho). apply wpc_bind.
  eapply wpc_mono; [| |by apply unlockBoth_wpg]; [done|]. intros [] u [Hu Hu']. apply wpc_ret; auto.
Qed.

(** Nothing is promised of the guard at the end of an operation but that it is sound. *)
Definition sound {R} (_ : R) (g : guard) : Prop := guard_ok g.

Lemma withManaged_wpg op g : (∀ s r, does beside (op s r) any) → guard_ok g → out p g →
  wpg (withManaged root registrations unmarshal op) sound g.
Proof.
  intros Hop Hok Ho. unfold withManaged. apply lock_bind; [done|done|intros; by apply wpc_ret|]. intros f i u Hu.
  eapply work_bind; [eapply reading_beside, loadManaged_does|done|]. intros loaded v Hv.
  eapply (work_bind f i _ any); [walk|done|]. intros r w Hw. by apply unlock_bind.
Qed.

Lemma Enable_wpg s g : guard_ok g → out p g → wpg (Enable root registrations marshal unmarshal s) sound g.
Proof.
  intros Hok Ho. unfold Enable.
  eapply (idle_call p (out p)); [apply out_stable|done|done|by split|by intros; simpl in *|]. clear g Hok Ho. intros [t|] g Ho Hok; [|by apply wpc_ret].
  destruct (overlapping root t); [by apply wpc_ret|]. apply lock_bind; [done|done|intros; by apply wpc_ret|]. intros f i u Hu.
  eapply (work_bind f i _ any); [walk|done|]. intros r v Hv. by apply unlock_bind.
Qed.

Lemma resume_wpg g : guard_ok g → out p g →
  wpg (resumeInterruptedDisable root) (λ r u, guard_ok u ∧ (r = None → out p u)) g.
Proof.
  intros Hok Ho. unfold resumeInterruptedDisable.
  eapply (idle_call p (out p)); [apply out_stable|done|done|by split|by intros; simpl in *|]. clear g Hok Ho. intros info g Ho Hok.
  assert (wpg (bind (lock root false) (λ u, match u with
    | Err c => Ret (Some (None, Some (Coded c))) | Ok u => bind resumeLocked (λ r, bind (unlock u) (λ _, Ret r)) end))
    (λ r u, guard_ok u ∧ (r = None → out p u)) g) as Hl.
  { apply lock_bind; [done|done|intros; by apply wpc_ret|]. intros f i u Hu.
    eapply work_bind; [apply resumeLocked_does|done|]. intros r v Hv. apply unlock_bind; auto. }
  destruct info; [exact Hl|by apply wpc_ret|exact Hl].
Qed.

Lemma reads_sound {R} (q : prog BCall R) Q g : does reading q Q → guard_ok g → out p g → wpg q sound g.
Proof. intros Hq Hok Ho. eapply wpc_mono; [| |by eapply reads_wpg]; [done|]. by intros r u []. Qed.

Lemma Disable_wpg force g : guard_ok g → out p g → wpg (Disable root registrations unmarshal force) sound g.
Proof.
  intros Hok Ho. unfold Disable. apply wpc_bind. eapply wpc_mono; [| |by apply resume_wpg]; [done|]. clear g Hok Ho.
  intros [r|] g [Hok Hr]; [by apply wpc_ret|]. apply wpc_bind.
  eapply wpc_mono; [| |eapply (reads_wpg _ _ _ hasManagedState_does Hok)]; [done| |by apply Hr]. clear g Hok Hr. intros [[|]|c] g [Hok Ho].
  - apply withManaged_wpg; [|done|done]. intros s r. apply disableManaged_does.
  - eapply reads_sound; [apply notRegistered_does|done|done].
  - by apply wpc_ret.
Qed.

Lemma operate_wpg op g : guard_ok g → out p g → wpg (operate root registrations marshal unmarshal op) sound g.
Proof.
  intros Hok Ho. destruct op as [s| | | |force|force|force]; simpl.
  - by apply Enable_wpg.
  - eapply (reads_sound _ any); [unfold LoadSettings; walk|done|done].
  - apply withManaged_wpg; [|done|done]. intros s r. unfold unavailable, missing. walk.
  - eapply (reads_sound _ any); [unfold GetStatus; walk|done|done].
  - apply withManaged_wpg; [|done|done]. intros s r. unfold unavailable, missing. walk.
  - apply withManaged_wpg; [|done|done]. intros s r. unfold unavailable, missing. walk.
  - by apply Disable_wpg.
Qed.
End one.

(** ** Any number of processes *)

Record gsystem := MkGsystem { gs_guard : guard; gs_procs : gmap nat (prog BCall outcome) }.

Definition ended (p : nat) (g : guard) : guard :=
  MkGuard (gd_dir g) (gd_entry g) (gd_text g) (filter (λ x, x.2 ≠ p) (gd_lock g))
    (if bool_decide (gd_token g = Some p) then None else gd_token g) (gd_made g).

(** With [faulty], truncating the owner file of one's own guard may fail. *)
Inductive gstep (faulty : bool) : gsystem → gsystem → Prop :=
| gs_start p op g ps : ps !! p = None →
    gstep faulty (MkGsystem g ps) (MkGsystem g (<[p := operate root registrations marshal unmarshal op]> ps))
| gs_call p A (e : BCall A) k a g g' ps : ps !! p = Some (Call e k) → act p A e g a g' →
    (faulty = false → truncates g A e a) →
    gstep faulty (MkGsystem g ps) (MkGsystem g' (<[p := k a]> ps))
| gs_end p g ps : gstep faulty (MkGsystem g ps) (MkGsystem (ended p g) (delete p ps)).

Record gs_ok (s : gsystem) : Prop := {
  gk_ok : guard_ok (gs_guard s);
  gk_token : ∀ p, gd_token (gs_guard s) = Some p → is_Some (gs_procs s !! p);
  gk_procs : ∀ p q, gs_procs s !! p = Some q → wpc (genv p) guard_ok q sound (gs_guard s) }.

Lemma rely_wpc {R} p (q : prog BCall R) g g' : rely p g g' →
  wpc (genv p) guard_ok q sound g → wpc (genv p) guard_ok q sound g'.
Proof.
  intros Hr H. destruct q as [r|A e k]; [apply wpc_ret; apply Hr|]. destruct H as [_ Hk]. apply wpc_call; [apply Hr|].
  intros a u (v & Hv & Hx). apply Hk. exists v. split; [by eapply rely_trans|done].
Qed.

Lemma holding_dec p g : holding p g ∨ ¬ holding p g.
Proof.
  destruct (decide (gd_token g = Some p)) as [Ht|Ht]; [|right; by intros [? _]].
  destruct (gd_entry g) as [i|] eqn:He; [|right; intros [_ (i & ? & _)]; congruence].
  destruct (decide (gd_text g !! i = Some guardOwnerMarker ∧ gd_lock g !! i = Some p)) as [Hd|Hd].
  - left. split; [done|]. exists i. tauto.
  - right. intros [_ (j & Hj & Hd')]. assert (j = i) as -> by congruence. tauto.
Qed.

Lemma critical_dec A (e : BCall A) : critical A e ∨ ¬ critical A e.
Proof.
  assert (∀ q, guard_path q ∨ ¬ guard_path q) as Hd.
  { intros q. unfold guard_path. destruct (decide (q = Guard)), (decide (q = GuardOwner)); tauto. }
  destruct e as [|q|q|q []| | |f|f| | |f|f| |q| | | | | | | | | | |]; simpl; try tauto.
  all: try destruct (Hd q); try destruct (Hd (f_path f)); tauto.
Qed.

Lemma legal_dec p A (e : BCall A) g : legal p A e g ∨ ¬ legal p A e g.
Proof.
  unfold legal. destruct (critical_dec A e) as [Hc|Hc], (holding_dec p g), (decide (gd_token g = Some p)).
  all: destruct e as [| | |[] []| | |f|f| | | | | |[]| | | | | | | | | | |]; try tauto.
  all: destruct (decide (gd_entry g = Some (f_ino f))), (decide (f_path f = GuardOwner)); tauto.
Qed.

(** Nothing is known of an illegal call, so a process makes none. *)
Lemma wpc_legal {R} p A (e : BCall A) (k : A → prog BCall R) Q g (a : A) :
  guard_ok g → wpc (genv p) guard_ok (Call e k) Q g → legal p A e g.
Proof.
  intros Hg [_ Hk]. destruct (legal_dec p A e g) as [?|Hn]; [done|]. set (bad := MkGuard false (Some 0%nat) ∅ ∅ None false).
  assert (¬ guard_ok bad) as Hbad by (intros [H _ _]; by destruct (H 0%nat eq_refl)).
  destruct Hbad. apply (wpc_here (genv p) guard_ok (k a) Q), Hk. exists g. split; [by apply rely_refl|done].
Qed.

Lemma ended_ok p g : guard_ok g → guard_ok (ended p g).
Proof.
  intros [H1 H2 H3]. split; simpl; [done| |].
  - intros i Hi. destruct (H2 i Hi) as [He Hq]. split; [done|]. intros q. case_bool_decide as Hp; [done|]. intros Ht.
    apply map_lookup_filter_Some. split; [by apply Hq|]. simpl. congruence.
  - intros q. case_bool_decide; [done|apply H3].
Qed.

Lemma ended_rely p q g : p ≠ q → guard_ok g → rely p g (ended q g).
Proof.
  intros Hpq Hg. split; simpl; [by apply ended_ok| |done|].
  - case_bool_decide as Hq; [|done]. rewrite Hq. split; congruence.
  - intros i. rewrite map_lookup_filter_Some. simpl. split; [tauto|]. intros H. split; [done|congruence].
Qed.

Lemma token_next p q A (e : BCall A) g a g' : act p A e g a g' → gd_token g' = Some q → q = p ∨ gd_token g = Some q.
Proof.
  intros Hx Ht. destruct e as [|[]|[]|[] []| |[[] i]|[[] i]|[[] i]| | |[[] i]|[[] i]| |[]| | | | | | | | | | |]; simpl in *; subst; auto.
  - destruct a; [destruct Hx as [_ ->]; left; simpl in Ht; congruence|subst; auto|destruct Hx as [->|[_ ->]]; auto].
  - destruct Hx as [-> _]. auto.
  - destruct Hx as [-> _]. auto.
  - destruct a as [i| | |]; [destruct Hx as (_ & _ & _ & ->)|subst..|destruct Hx as [->|(i & _ & _ & _ & ->)]]; auto.
  - destruct Hx as [[_ ->]|(t & _ & _ & ->)]; [auto|]. destruct (_ && _); [left; simpl in Ht; congruence|auto].
  - destruct Hx as [[_ ->]|(t & k & _ & _ & _ & ->)]; auto.
  - destruct a; [subst g'; auto|]. by destruct Hx as (t & _ & ->).
  - destruct a; subst; auto. destruct Hx as [_ ->]. auto.
  - case_bool_decide; auto.
  - by destruct Hx as [(_ & _ & ->)|[_ ->]].
  - destruct Hx as [->|[_ ->]]; auto.
Qed.

Lemma gstep_ok s s' : gstep false s s' → gs_ok s → gs_ok s'.
Proof.
  intros Hs [Hg Ht Hp]. destruct Hs as [p op g ps Hn|p A e k a g g' ps Hc Hx Htr|p g ps]; simpl in *.
  - split; simpl; [done|intros q Hq; apply lookup_insert_is_Some'; auto|]. intros q pr. destruct (decide (q = p)) as [->|Hq].
    + rewrite lookup_insert_eq. intros [= <-]. apply operate_wpg; [done|]. intros E. destruct (Ht p E). congruence.
    + rewrite lookup_insert_ne by done. apply Hp.
  - pose proof (Hp p _ Hc) as Hw. pose proof (wpc_legal p A e k _ g a Hg Hw) as Hl.
    assert (wpc (genv p) guard_ok (k a) sound g') as Hk.
    { destruct Hw as [_ Hw]. apply Hw. exists g. split; [by apply rely_refl|auto]. }
    pose proof (wpc_here _ _ _ _ _ Hk) as Hg'. split; simpl; [done| |].
    + intros q Hq. apply lookup_insert_is_Some'. destruct (token_next p q A e g a g' Hx Hq) as [->|Hq']; [by left|right; by apply Ht].
    + intros q pr. destruct (decide (q = p)) as [->|Hq]; [rewrite lookup_insert_eq; by intros [= <-]|].
      rewrite lookup_insert_ne by done. intros Hq'. apply (rely_wpc q pr g); [by eapply legal_rely|by apply Hp].
  - split; simpl; [by apply ended_ok| |].
    + intros q. case_bool_decide as E; [done|]. intros Hq. rewrite lookup_delete_ne; [by apply Ht|]. congruence.
    + intros q pr [Hq Hpr]%lookup_delete_Some. apply (rely_wpc q pr g); [by apply ended_rely|by apply Hp].
Qed.

Lemma gsteps_ok s s' : rtc (gstep false) s s' → gs_ok s → gs_ok s'.
Proof. induction 1 as [|s1 s2 s3 H1 _ IH]; [done|]. intros H. apply IH. by eapply gstep_ok. Qed.

Definition gstart : gsystem := MkGsystem no_guard ∅.

Lemma gstart_ok : gs_ok gstart.
Proof.
  split; [split|done|intros p q; simpl; by rewrite lookup_empty]; simpl; [done| |done]. intros i. by rewrite lookup_empty.
Qed.

(** C19: the install guard excludes.  Any number of processes run the operations of the
    background profile, taking away guards that others left behind when they died.
    Whatever the interleaving, the answers of the calls and the deaths, as long as
    truncating the owner file of a guard one has made succeeds, a process about to change
    the managed files, the operation lock or the job owns the guard directory, whose
    owner file is complete and locked by it, and no other process is about to change
    anything. *)
Theorem guard_excludes s p A (e : BCall A) k (a : A) : rtc (gstep false) gstart s →
  gs_procs s !! p = Some (Call e k) → critical A e →
  holding p (gs_guard s) ∧
  ∀ q B (e' : BCall B) k' (b : B), gs_procs s !! q = Some (Call e' k') → critical B e' → q = p.
Proof.
  intros Hs Hp Hc. destruct (gsteps_ok _ _ Hs gstart_ok) as [Hg _ Hw].
  assert (∀ q B (e' : BCall B) k' (b : B), gs_procs s !! q = Some (Call e' k') → critical B e' → holding q (gs_guard s)) as Hh.
  { intros q B e' k' b Hq Hc'. by apply (wpc_legal q B e' k' _ (gs_guard s) b Hg (Hw q _ Hq)). }
  pose proof (Hh p A e k a Hp Hc) as H1. split; [done|]. intros q B e' k' b Hq Hc'. destruct (Hh q B e' k' b Hq Hc') as [H2 _].
  destruct H1 as [H1 _]. congruence.
Qed.
End operations.

(** ** A guard left behind and taken away *)

(** Every call succeeds where it can; process [p] makes file [p].  On a disk that does
    not [work], [Sync] and [Truncate] fail. *)
Definition guard_host (works : bool) (p : nat) A (e : BCall A) : guard → A * guard :=
  match e in BCall T return guard → T * guard with
  | BLstat GuardOwner => λ g, (match gd_entry g with Some i => SFound (plain i 46) | None => SNotExist end, g)
  | BMkdir Guard => λ g, if gd_dir g then (MkdirExists, g)
      else (MkdirDone, MkGuard true (gd_entry g) (gd_text g) (gd_lock g) (Some p) true)
  | BOpen GuardOwner CreateExclusive => λ g,
      if bool_decide (gd_dir g = true ∧ gd_entry g = None ∧ gd_text g !! p = None)
      then (Opened p, MkGuard (gd_dir g) (Some p) (<[p := ""]> (gd_text g)) (gd_lock g) (gd_token g) (gd_made g)) else (OpenFailed, g)
  | BOpen GuardOwner _ => λ g, (match gd_entry g with Some i => Opened i | None => OpenNotExist end, g)
  | BTryLock (MkFile GuardOwner i) => λ g,
      if bool_decide (gd_lock g !! i = None ∨ gd_lock g !! i = Some p)
      then (true, MkGuard (gd_dir g) (gd_entry g) (gd_text g) (<[i := p]> (gd_lock g)) (gd_token g) (gd_made g)) else (false, g)
  | BUnlock (MkFile GuardOwner i) => λ g,
      (true, if bool_decide (gd_lock g !! i = Some p)
             then MkGuard (gd_dir g) (gd_entry g) (gd_text g) (delete i (gd_lock g)) (gd_token g) (gd_made g) else g)
  | BReadAll (MkFile GuardOwner i) limit => λ g,
      match gd_text g !! i with
      | Some t =>
          let a := Some (substring 0 (Z.to_nat limit) t) in
          (a, if complete g i && bool_decide (gd_lock g !! i = Some p) && bool_decide (a = Some guardOwnerMarker)
              then MkGuard (gd_dir g) (gd_entry g) (gd_text g) (gd_lock g) (Some p) false else g)
      | None => (None, g)
      end
  | BWrite (MkFile GuardOwner i) data => λ g,
      match gd_text g !! i with
      | Some t => ((slen data, true),
          MkGuard (gd_dir g) (gd_entry g) (<[i := t ++ substring 0 (String.length data) data]> (gd_text g)) (gd_lock g) (gd_token g) (gd_made g))
      | None => ((0, false), g)
      end
  | BTruncate (MkFile GuardOwner i) => λ g, (works,
      if works then MkGuard (gd_dir g) (gd_entry g) (<[i := ""]> (gd_text g)) (gd_lock g) (gd_token g) (gd_made g)
      else MkGuard (gd_dir g) (gd_entry g) (gd_text g) (gd_lock g) None (gd_made g))
  | BSync _ => λ g, (works, g)
  | BRemove GuardOwner => λ g, (Removed, MkGuard (gd_dir g) None (gd_text g) (gd_lock g) (gd_token g) (gd_made g))
  | BRemove Guard => λ g,
      if bool_decide (gd_dir g = true ∧ gd_entry g = None) then (Removed, MkGuard false None (gd_text g) (gd_lock g) None (gd_made g))
      else (RemoveFailed, MkGuard (gd_dir g) (gd_entry g) (gd_text g) (gd_lock g) None (gd_made g))
  | BReadDir Guard => λ g, (Some [MkDirEntry guardOwner false false], g)
  | e => λ g, ((idle_host _ e (MkBworld ∅ ∅ None false, None)).1, g)
  end.

(** A call of process [p] alone. *)
Definition alone (faulty : bool) (p : nat) A (e : BCall A) (g : guard) (a : A) (g' : guard) : Prop :=
  act p A e g a g' ∧ (faulty = false → truncates g A e a).

Lemma guard_host_act works p A (e : BCall A) g :
  alone (negb works) p A e g (guard_host works p A e g).1 (guard_host works p A e g).2.
Proof.
  split.
  2: { destruct works; [|done]. intros _. by destruct e as [| | | | | | |[[] i]| | | | | | | | | | | | | | | | |]. }
  destruct e as [[]|[]|[]|[] []| |[[] i]|[[] i]|[[] i]| | |[[] i]|[[] i]| |[]|[]| | | | | | | | | |]; simpl; try done.
  - by destruct (gd_dir g) eqn:E.
  - split; [done|]. by destruct (gd_entry g).
  - split; [done|]. by destruct (gd_entry g).
  - case_bool_decide as H; [|by left]. simpl. by destruct H as (? & ? & ?).
  - destruct (gd_text g !! i) as [t|] eqn:Et; [right; eauto|by left].
  - destruct (gd_text g !! i) as [t|] eqn:Et; [right|by left]. exists t, (String.length data). done.
  - destruct works; [done|]. eauto.
  - by case_bool_decide.
  - case_bool_decide as H; [left; by destruct H|by right].
  - by left.
Qed.

Lemma alone_steps faulty root registrations marshal unmarshal p (q q' : prog BCall outcome) g g' ps :
  exec (alone faulty p) q g q' g' →
  rtc (gstep root registrations marshal unmarshal faulty) (MkGsystem g (<[p := q]> ps)) (MkGsystem g' (<[p := q']> ps)).
Proof.
  induction 1 as [q g|A e k g a g1 q2 g2 [Hx Ht] _ IH]; [done|]. eapply rtc_l; [|exact IH].
  assert (<[p := k a]> ps = <[p := k a]> (<[p := Call e k]> ps)) as -> by (by rewrite insert_insert_eq).
  eapply gs_call; [apply lookup_insert_eq|done|done].
Qed.

Definition gstep0 : bool → gsystem → gsystem → Prop := gstep root0 registration0 marshal0 unmarshal0.
Definition enabling0 : prog BCall outcome := operate root0 registration0 marshal0 unmarshal0 (OpEnable settings0).

(** Process [p] makes [n] calls of an operation, or of what is left of one. *)
Definition guard_on works p n (x : prog BCall outcome * guard) : prog BCall outcome * guard := run_for (guard_host works p) n x.1 x.2.
Definition guard_after works p n g : prog BCall outcome * guard := guard_on works p n (enabling0, g).

Lemma guard_on_steps works p n q g ps :
  rtc (gstep0 (negb works)) (MkGsystem g (<[p := q]> ps))
    (MkGsystem (guard_on works p n (q, g)).2 (<[p := (guard_on works p n (q, g)).1]> ps)).
Proof. apply alone_steps, run_for_exec. intros A e u. apply guard_host_act. Qed.

Lemma guard_after_steps works p n g ps : ps !! p = None →
  rtc (gstep0 (negb works)) (MkGsystem g ps) (MkGsystem (guard_after works p n g).2 (<[p := (guard_after works p n g).1]> ps)).
Proof. intros Hp. eapply rtc_l; [by apply (gs_start _ _ _ _ _ p (OpEnable settings0))|]. apply guard_on_steps. Qed.

(** Process 1 dies with the guard; process 0 takes the guard away and makes its own. *)
Definition abandoned : guard := ended 1 (guard_after true 1 9 no_guard).2.
Definition retaken : gsystem := MkGsystem (guard_after true 0 24 abandoned).2 {[0%nat := (guard_after true 0 24 abandoned).1]}.

Lemma retaken_reached : rtc (gstep0 false) gstart retaken.
Proof.
  etrans; [by apply (guard_after_steps true 1 9)|]. eapply rtc_l; [apply (gs_end _ _ _ _ _ 1)|]. simpl. rewrite delete_insert_eq, delete_empty.
  by apply (guard_after_steps true 0 24).
Qed.

Lemma guard_excludes_witness : rtc (gstep0 false) gstart retaken ∧
  ∃ k, gs_procs retaken !! 0%nat = Some (Call (BMkdir BackgroundDir) k) ∧ holding 0 (gs_guard retaken).
Proof.
  split; [exact retaken_reached|].
  assert (∃ k, gs_procs retaken !! 0%nat = Some (Call (BMkdir BackgroundDir) k)) as [k Hk].
  { eexists. unfold retaken, gs_procs. rewrite lookup_singleton_eq. vm_compute. reflexivity. }
  exists k. split; [exact Hk|].
  apply (guard_excludes root0 registration0 marshal0 unmarshal0 retaken 0 _ (BMkdir BackgroundDir) k MkdirDone);
    [exact retaken_reached|exact Hk|exact dir_beside].
Defined.

(** ** What a failed [Truncate] does *)

(** The disk fails process 1, which cannot make its owner file durable nor truncate it,
    unlocks it and closes it; process 0 takes the guard away on the proof it finds there
    and holds its own; process 1 goes on and removes it, and process 2 makes one. *)
Definition fault1 : prog BCall outcome * guard := guard_after false 1 13 no_guard.
Definition fault0 : prog BCall outcome * guard := guard_after true 0 24 fault1.2.
Definition fault1' : prog BCall outcome * guard := guard_on true 1 2 (fault1.1, fault0.2).
Definition fault2 : prog BCall outcome * guard := guard_after true 2 10 fault1'.2.
Definition overrun : gsystem := MkGsystem fault2.2 (<[2%nat := fault2.1]> (<[1%nat := fault1'.1]> {[0%nat := fault0.1]})).

Lemma faultless_steps s s' : rtc (gstep0 false) s s' → rtc (gstep0 true) s s'.
Proof.
  induction 1 as [|s1 s2 s3 H _ IH]; [done|]. eapply rtc_l; [|exact IH]. destruct H; [by apply gs_start|by eapply gs_call|apply gs_end].
Qed.

Lemma overrun_reached : rtc (gstep0 true) gstart overrun.
Proof.
  etrans; [by apply (guard_after_steps false 1 13)|]. fold fault1.
  etrans; [by apply faultless_steps, (guard_after_steps true 0 24)|]. fold fault0. rewrite insert_insert_ne by done.
  etrans; [apply faultless_steps, (guard_on_steps true 1 2)|]. fold fault1'.
  by apply faultless_steps, (guard_after_steps true 2 10).
Qed.

(** Without that condition the guard does not exclude: two processes are about to make
    the background directory, having both taken the guard. *)
Theorem guard_overrun : ∃ s p q k k', rtc (gstep0 true) gstart s ∧ p ≠ q ∧
  gs_procs s !! p = Some (Call (BMkdir BackgroundDir) k) ∧ gs_procs s !! q = Some (Call (BMkdir BackgroundDir) k').
Proof.
  exists overrun, 0%nat, 2%nat. do 2 eexists. split; [exact overrun_reached|]. split; [done|]. split; vm_compute; reflexivity.
Qed.
