(* ===== verification/Lifecycle.v ===== *)
(** * The graceful-stop channel

    [internal/lifecycle]: a managed observer publishes a nonce in [instance.json] under a
    lock; [RequestStop] publishes a request for that nonce and waits for the instance to
    remove its publication.  The endpoint's goroutine [watch] polls for requests. *)

From S2P Require Import Prelude GoTime GoText GoCalendar Effects Background.

#[local] Open Scope string_scope.
#[local] Open Scope Z_scope.

Definition instanceName : string := "instance.json".
Definition requestName : string := "stop.request".
Definition lockName : string := "lifecycle.lock".
Definition instanceTempName : string := "instance.tmp".
Definition requestTempName : string := "stop.request.tmp".
Definition maxControlBytes : Z := 1024.
Definition nonceBytes : Z := 32.

(** Errors by what callers compare them with. *)
Inductive lerror :=
| ErrAlreadyRunning | ErrNotRunning | ErrUnsafePath | ErrMalformedState | ErrWrongInstance
| NotExist (* os.ErrNotExist *) | ContextError | OtherError.

#[global] Instance lerror_eq_dec : EqDecision lerror.
Proof. solve_decision. Defined.

Record instanceFile := MkInstance { in_SchemaVersion : string; in_Nonce : string; in_StartedAt : string }.
Record requestFile := MkRequest { rq_SchemaVersion : string; rq_Nonce : string }.

Definition instanceVersion : string := "observer-lifecycle-instance/v1".
Definition requestVersion : string := "observer-lifecycle-stop/v1".

(** [encoding/json] into the two types, without unknown fields or trailing data, and
    whether [time.Parse] accepts a text as RFC 3339. *)
Class ControlDocuments := {
  decodeInstance : string → option instanceFile;
  decodeRequest : string → option requestFile;
  parsesTime : string → bool }.

(** [json.Marshal] of values without characters to escape, and the newline. *)
Definition quoted (s : string) : string := quote ++ s ++ quote.
Definition instanceText (nonce startedAt : string) : string :=
  "{" ++ quoted "schema_version" ++ ":" ++ quoted instanceVersion ++ "," ++ quoted "nonce" ++ ":" ++ quoted nonce ++ ","
  ++ quoted "started_at" ++ ":" ++ quoted startedAt ++ "}" ++ newline.
Definition requestText (nonce : string) : string :=
  "{" ++ quoted "schema_version" ++ ":" ++ quoted requestVersion ++ "," ++ quoted "nonce" ++ ":" ++ quoted nonce ++ "}" ++ newline.

(** ** Nonces *)

(** The digit of six bits in base64url. *)
Definition base64_char (v : Z) : ascii :=
  ascii_of_N (Z.to_N (if v <? 26 then 65 + v else if v <? 52 then 71 + v else if v <? 62 then v - 4
                      else if v =? 62 then 45 else 95)).
Definition base64_value (c : ascii) : option Z :=
  let b := byte_val c in
  if (65 <=? b) && (b <=? 90) then Some (b - 65)
  else if (97 <=? b) && (b <=? 122) then Some (b - 71)
  else if (48 <=? b) && (b <=? 57) then Some (b + 4)
  else if b =? 45 then Some 62 else if b =? 95 then Some 63 else None.

(** [base64.RawURLEncoding.EncodeToString]. *)
Fixpoint encodeBase64 (s : string) : string :=
  match s with
  | String a (String b (String c s)) =>
      let v := byte_val a * 65536 + byte_val b * 256 + byte_val c in
      String (base64_char (v / 262144)) (String (base64_char (v / 4096 mod 64)) (String (base64_char (v / 64 mod 64))
        (String (base64_char (v mod 64)) (encodeBase64 s))))
  | String a (String b EmptyString) =>
      let v := byte_val a * 1024 + byte_val b * 4 in
      String (base64_char (v / 4096)) (String (base64_char (v / 64 mod 64)) (String (base64_char (v mod 64)) EmptyString))
  | String a EmptyString =>
      let v := byte_val a * 16 in String (base64_char (v / 64)) (String (base64_char (v mod 64)) EmptyString)
  | EmptyString => EmptyString
  end.

Definition is_base64 (c : ascii) : bool := match base64_value c with Some _ => true | None => false end.

(** 43 digits stand for 32 bytes if the two bits the last one has to spare are clear;
    [EncodeToString] then gives the text back. *)
Definition validNonce (value : string) : bool :=
  (slen value =? 43) && str_forallb is_base64 value
  && match base64_value (default zero (String.get 42 value)) with Some v => v mod 4 =? 0 | None => false end.

(** ** Calls *)

Record lfile := MkLfile { lf_name : string; lf_ino : nat }.

Inductive lock_answer := Locked | WouldBlock | LockFailed.
Inductive select_answer := SelectDone | SelectTick.

Inductive LCall : Type → Type :=
| LEnsureDir : LCall (option lerror) (* ownerfs.EnsurePrivateSubdir *)
| LOpenDir : LCall (option lerror) (* ownerfs.OpenPrivateSubdir *)
| LRestrictDir : LCall (option lerror)
| LRestrict (name : string) : LCall (option lerror)
| LReadDir : LCall (result lerror (list dirEntry))
| LLstat (name : string) : LCall stat_answer
| LOpen (name : string) (mode : open_mode) : LCall open_answer
| LStat (f : lfile) : LCall (option fileInfo)
| LReadAll (f : lfile) (limit : Z) : LCall (option string)
| LWrite (f : lfile) (data : string) : LCall (Z * bool)
| LSync (f : lfile) : LCall bool
| LClose (f : lfile) : LCall bool
| LRename (from to : string) : LCall bool
| LRemove (name : string) : LCall remove_answer
| LLock (f : lfile) : LCall lock_answer
| LUnlock (f : lfile) : LCall bool
| LRandom : LCall (option string)
| LNow : LCall time
| LStart (nonce : string) : LCall unit (* go endpoint.watch() *)
| LServe : LCall bool (* the owner's work; whether it ends in Close or in Abandon *)
| LCloseDone : LCall unit (* close(e.done) *)
| LStopped (nonce : string) (clean : bool) : LCall unit (* <-e.stopped *)
| LSelect : LCall select_answer (* done or the ticker *)
| LSignal (nonce : string) : LCall unit (* close(e.requested), once *)
| LContext : LCall bool (* ctx.Err() == nil *)
| LWait : LCall select_answer. (* ctx.Done() or the ticker *)

Local Open Scope prog_scope.

Section lifecycle.
Context `{ControlDocuments}.

(** ** Files *)

(** [ownerfs.ValidateRegular] under [classifyPath]. *)
Definition ValidateControl (name : string) : prog LCall (result lerror fileInfo) :=
  info <~ LLstat name;
  Ret (match info with
       | SNotExist => Err NotExist
       | SFailed => Err OtherError
       | SFound i =>
           if negb (fi_regular i) || fi_symlink i || (fi_size i <? 0) || (maxControlBytes <? fi_size i) || negb (fi_nlink i =? 1)%nat
           then Err ErrUnsafePath else Ok i
       end).

Definition open_error (a : open_answer) : lerror := match a with OpenNotExist => NotExist | _ => OtherError end.

Definition readExact {T} (name : string) (decode : string → option T) : prog LCall (result lerror T) :=
  info <- ValidateControl name;
  match info with
  | Err e => Ret (Err e)
  | Ok info =>
      opened <~ LOpen name ReadOnly;
      match opened with
      | Opened ino =>
          let f := MkLfile name ino in
          stat <~ LStat f;
          let same := match stat with Some s => (fi_ino info =? fi_ino s)%nat | None => false end in
          if negb same then _ <~ LClose f; Ret (Err ErrUnsafePath)
          else
            contents <~ LReadAll f (maxControlBytes + 1);
            let value := match contents with
                         | Some c => if maxControlBytes <? slen c then None else decode c
                         | None => None
                         end in
            _ <~ LClose f;
            Ret (match value with Some v => Ok v | None => Err ErrMalformedState end)
      | a => Ret (Err (open_error a))
      end
  end.

Definition instance_ok (v : instanceFile) : bool :=
  str_eqb (in_SchemaVersion v) instanceVersion && validNonce (in_Nonce v) && parsesTime (in_StartedAt v).
Definition request_ok (v : requestFile) : bool := str_eqb (rq_SchemaVersion v) requestVersion && validNonce (rq_Nonce v).

Definition readInstance : prog LCall (result lerror instanceFile) :=
  r <- readExact instanceName decodeInstance;
  Ret (match r with
       | Ok v => if instance_ok v then Ok v else Err ErrMalformedState
       | Err e => Err e
       end).

Definition readRequest : prog LCall (result lerror requestFile) :=
  r <- readExact requestName decodeRequest;
  Ret (match r with
       | Ok v => if request_ok v then Ok v else Err ErrMalformedState
       | Err e => Err e
       end).

Definition allowedNames : list string := [instanceName; requestName; lockName; instanceTempName; requestTempName].

Fixpoint validateEntries (entries : list dirEntry) : prog LCall (option lerror) :=
  match entries with
  | [] => Ret None
  | e :: entries =>
      if negb (existsb (str_eqb (de_name e)) allowedNames) || de_dir e || de_symlink e then Ret (Some ErrUnsafePath)
      else
        info <- ValidateControl (de_name e);
        match info with
        | Err e => Ret (Some e)
        | Ok _ => validateEntries entries
        end
  end.

Definition validateDirectoryEntries : prog LCall (option lerror) :=
  entries <~ LReadDir;
  match entries with
  | Err e => Ret (Some e)
  | Ok entries => validateEntries entries
  end.

(** [os.Remove] by its error. *)
Definition remove_error (a : remove_answer) : option lerror :=
  match a with Removed => None | RemoveNotExist => Some NotExist | RemoveFailed => Some OtherError end.

Definition cleanupTemp (name : string) : prog LCall (option lerror) :=
  info <- ValidateControl name;
  match info with
  | Err NotExist => Ret None
  | Err e => Ret (Some e)
  | Ok _ => removed <~ LRemove name; Ret (remove_error removed)
  end.

Definition writeAtomic (temporary final contents : string) : prog LCall (option lerror) :=
  if maxControlBytes <? slen contents then Ret (Some ErrMalformedState)
  else
    opened <~ LOpen temporary CreateExclusive;
    match opened with
    | Opened ino =>
        let f := MkLfile temporary ino in
        let failed e := _ <~ LClose f; _ <~ LRemove temporary; Ret (Some e) in
        restricted <~ LRestrict temporary;
        match restricted with
        | Some e => failed e
        | None =>
            written <~ LWrite f contents;
            if negb (snd written) || negb (fst written =? slen contents) then failed OtherError
            else
              synced <~ LSync f;
              if negb synced then failed OtherError
              else
                closed <~ LClose f;
                if negb closed then failed OtherError
                else
                  info <~ LLstat final;
                  match info with
                  | SFound _ => failed ErrWrongInstance
                  | SFailed => failed OtherError
                  | SNotExist =>
                      renamed <~ LRename temporary final;
                      if negb renamed then failed OtherError else Ret None
                  end
        end
    | a => Ret (Some (open_error a))
    end.

Definition removeOwnInstance (nonce : string) : prog LCall (option lerror) :=
  value <- readInstance;
  match value with
  | Err NotExist => Ret None
  | Err e => Ret (Some e)
  | Ok v =>
      if negb (str_eqb (in_Nonce v) nonce) then Ret (Some ErrWrongInstance)
      else removed <~ LRemove instanceName; Ret (remove_error removed)
  end.

Definition removeOwnRequest (nonce : string) : prog LCall (option lerror) :=
  value <- readRequest;
  match value with
  | Err NotExist => Ret None
  | Err e => Ret (Some e)
  | Ok v =>
      if negb (str_eqb (rq_Nonce v) nonce) then Ret (Some ErrWrongInstance)
      else removed <~ LRemove requestName; Ret (remove_error removed)
  end.

(** ** The lock *)

(** From the open lock file on. *)
Definition lockOpened (created : bool) (f : lfile) : prog LCall (result lerror lfile) :=
  let failed e := _ <~ LClose f; Ret (Err e) in
  restricted <- (if created then (r <~ LRestrict lockName; Ret r) else Ret None);
  match restricted with
  | Some e => failed e
  | None =>
      opened <~ LStat f;
      match opened with
      | None => failed OtherError
      | Some opened =>
          pathInfo <- ValidateControl lockName;
          let same := match pathInfo with Ok i => (fi_ino opened =? fi_ino i)%nat | Err _ => false end in
          if negb same then failed ErrUnsafePath
          else
            restricted <- (if created then Ret None else (r <~ LRestrict lockName; Ret r));
            match restricted with
            | Some e => failed e
            | None =>
                locked <~ LLock f;
                match locked with
                | Locked => Ret (Ok f)
                | WouldBlock => failed ErrAlreadyRunning
                | LockFailed => failed OtherError
                end
            end
      end
  end.

Definition acquireFileLock : prog LCall (result lerror lfile) :=
  opened <~ LOpen lockName CreateExclusive;
  match opened with
  | Opened ino => lockOpened true (MkLfile lockName ino)
  | OpenExists =>
      pathInfo <- ValidateControl lockName;
      match pathInfo with
      | Err e => Ret (Err e)
      | Ok pathInfo =>
          opened <~ LOpen lockName ReadWrite;
          match opened with
          | Opened ino =>
              let f := MkLfile lockName ino in
              stat <~ LStat f;
              let same := match stat with Some s => (fi_ino s =? fi_ino pathInfo)%nat | None => false end in
              if negb same then _ <~ LClose f; Ret (Err ErrUnsafePath) else lockOpened false f
          | a => Ret (Err (open_error a))
          end
      end
  | a => Ret (Err (open_error a))
  end.

(** The errors [errors.Join] joins. *)
Definition CloseLock (f : lfile) : prog LCall (list lerror) :=
  unlocked <~ LUnlock f;
  closed <~ LClose f;
  Ret ((if unlocked : bool then [] else [OtherError]) ++ (if closed : bool then [] else [OtherError]))%list.

(** ** The endpoint *)

Record Endpoint := MkEndpoint { ep_nonce : string; ep_lock : lfile }.

(** A stale file is removed if it is well-formed. *)
Definition discardInstance : prog LCall (option lerror) :=
  r <- readInstance;
  match r with
  | Ok _ => removed <~ LRemove instanceName; Ret (remove_error removed)
  | Err NotExist => Ret None
  | Err e => Ret (Some e)
  end.

Definition discardRequest : prog LCall (option lerror) :=
  r <- readRequest;
  match r with
  | Ok _ => removed <~ LRemove requestName; Ret (remove_error removed)
  | Err NotExist => Ret None
  | Err e => Ret (Some e)
  end.

(** What earlier instances left. *)
Definition discardStale : prog LCall (option lerror) :=
  e <- cleanupTemp instanceTempName;
  match e with
  | Some e => Ret (Some e)
  | None =>
      e <- cleanupTemp requestTempName;
      match e with
      | Some e => Ret (Some e)
      | None =>
          e <- discardInstance;
          match e with
          | Some e => Ret (Some e)
          | None => discardRequest
          end
      end
  end.

Definition defaultInterval : Z := 100 * Millisecond.

(** [New] under the lock. *)
Definition publish (pollInterval : Z) (lock : lfile) : prog LCall (result lerror Endpoint) :=
  e <- discardStale;
  match e with
  | Some e => Ret (Err e)
  | None =>
      rawNonce <~ LRandom;
      match rawNonce with
      | None => Ret (Err OtherError)
      | Some rawNonce =>
          let nonce := encodeBase64 rawNonce in
          now <~ LNow;
          e <- writeAtomic instanceTempName instanceName (instanceText nonce (FormatRFC3339Nano now));
          match e with
          | Some e => Ret (Err e)
          | None =>
              let interval := if pollInterval =? 0 then defaultInterval else pollInterval in
              if (interval <? 10 * Millisecond) || (Second <? interval) then
                _ <- removeOwnInstance nonce; Ret (Err OtherError)
              else _ <~ LStart nonce; Ret (Ok (MkEndpoint nonce lock))
          end
      end
  end.

Definition New (pollInterval : Z) : prog LCall (result lerror Endpoint) :=
  e <~ LEnsureDir;
  match e with
  | Some e => Ret (Err e)
  | None =>
      e <- validateDirectoryEntries;
      match e with
      | Some e => Ret (Err e)
      | None =>
          e <~ LRestrictDir;
          match e with
          | Some e => Ret (Err e)
          | None =>
              lock <- acquireFileLock;
              match lock with
              | Err e => Ret (Err e)
              | Ok lock =>
                  r <- publish pollInterval lock;
                  match r with
                  | Ok endpoint => Ret (Ok endpoint)
                  | Err e => _ <- CloseLock lock; Ret (Err e)
                  end
              end
          end
      end
  end.

(** One round of [watch] after a tick: whether the request was taken. *)
Definition poll (nonce : string) : prog LCall bool :=
  request <- readRequest;
  match request with
  | Err _ => Ret false
  | Ok request =>
      if negb (str_eqb (rq_Nonce request) nonce) then Ret false
      else removed <~ LRemove requestName; Ret (match removed with Removed => true | _ => false end)
  end.

(** The goroutine runs until [done] is closed or a request was taken: any number of
    rounds. *)
Fixpoint watch (rounds : nat) (nonce : string) : prog LCall unit :=
  match rounds with
  | O => Ret tt
  | S rounds =>
      woken <~ LSelect;
      match woken with
      | SelectDone => Ret tt
      | SelectTick =>
          taken <- poll nonce;
          if taken : bool then _ <~ LSignal nonce; Ret tt else watch rounds nonce
      end
  end.

(** The body that [closeOnce] runs for the first [Close] or [Abandon]. *)
Definition finish (clean : bool) (e : Endpoint) : prog LCall (list lerror) :=
  _ <~ LCloseDone;
  _ <~ LStopped (ep_nonce e) clean;
  errs <- (if clean then
             err1 <- removeOwnRequest (ep_nonce e);
             err2 <- removeOwnInstance (ep_nonce e);
             Ret (option_list err1 ++ option_list err2)%list
           else Ret []);
  closeErr <- CloseLock (ep_lock e);
  Ret (errs ++ closeErr)%list.

Definition Close : Endpoint → prog LCall (list lerror) := finish true.
Definition Abandon : Endpoint → prog LCall (list lerror) := finish false.

(** ** Requests *)

(** The poll at the end of [RequestStop]: [None] when the publication is gone. *)
Fixpoint awaitRemoval (rounds : nat) (instance : instanceFile) : prog LCall (option lerror) :=
  match rounds with
  | O => Ret (Some ContextError)
  | S rounds =>
      woken <~ LWait;
      match woken with
      | SelectDone => Ret (Some ContextError)
      | SelectTick =>
          current <- readInstance;
          match current with
          | Err NotExist => Ret None
          | Err e => Ret (Some e)
          | Ok current =>
              if negb (str_eqb (in_Nonce current) (in_Nonce instance)) then Ret (Some ErrWrongInstance)
              else awaitRemoval rounds instance
          end
      end
  end.

(** The request of this instance, found or published. *)
Definition ensureRequest (instance : instanceFile) : prog LCall (option lerror) :=
  request <- readRequest;
  match request with
  | Ok request => Ret (if str_eqb (rq_Nonce request) (in_Nonce instance) then None else Some ErrWrongInstance)
  | Err NotExist =>
      e <- cleanupTemp requestTempName;
      match e with
      | Some e => Ret (Some e)
      | None => writeAtomic requestTempName requestName (requestText (in_Nonce instance))
      end
  | Err e => Ret (Some e)
  end.

Definition RequestStop (rounds : nat) : prog LCall (option lerror) :=
  live <~ LContext;
  if negb live then Ret (Some ContextError)
  else
    e <~ LOpenDir;
    match e with
    | Some NotExist => Ret (Some ErrNotRunning)
    | Some e => Ret (Some e)
    | None =>
        e <- validateDirectoryEntries;
        match e with
        | Some e => Ret (Some e)
        | None =>
            instance <- readInstance;
            match instance with
            | Err NotExist => Ret (Some ErrNotRunning)
            | Err e => Ret (Some e)
            | Ok instance =>
                e <- ensureRequest instance;
                match e with
                | Some e => Ret (Some e)
                | None => awaitRemoval rounds instance
                end
            end
        end
    end.

(** A managed runtime as [serveRuntime] has it: [Close] after a shutdown that
    succeeded, [Abandon] otherwise. *)
Definition managedRuntime (pollInterval : Z) : prog LCall (list lerror) :=
  endpoint <- New pollInterval;
  match endpoint with
  | Err e => Ret [e]
  | Ok endpoint => clean <~ LServe; if clean : bool then Close endpoint else Abandon endpoint
  end.
End lifecycle.
