(* ===== verification/LifecycleHost.v ===== *)
(** * The host of the graceful-stop channel

    The control directory, the lock and what is known of every nonce that was ever
    published; which calls a process may make, and what the others may rely on when it
    makes them. *)

From S2P Require Import Prelude GoTime GoText GoCalendar Effects Background Lifecycle.

#[local] Open Scope string_scope.
#[local] Open Scope Z_scope.

(** [Left]: its process died or abandoned it.  [Closed]: its own process removed the
    publication.  [Replaced]: a later instance removed what was left. *)
Inductive status := Published (p : nat) | Serving (p : nat) | Closing (p : nat) | Left | Closed | Replaced.

#[global] Instance status_eq_dec : EqDecision status.
Proof. solve_decision. Defined.

(** [lw_target] is the nonce a process last read in a publication; [lw_asked] the nonces
    requests were written for. *)
Record lworld := MkLworld {
  lw_dir : gmap string nat; lw_text : gmap nat string; lw_maker : gmap nat nat; lw_lock : option nat;
  lw_hist : gmap string status; lw_target : gmap nat string; lw_asked : gset string; lw_done : gset nat }.

Definition empty_world : lworld := MkLworld ∅ ∅ ∅ None ∅ ∅ ∅ ∅.

Definition set_dir w d := MkLworld d (lw_text w) (lw_maker w) (lw_lock w) (lw_hist w) (lw_target w) (lw_asked w) (lw_done w).
Definition set_text w t := MkLworld (lw_dir w) t (lw_maker w) (lw_lock w) (lw_hist w) (lw_target w) (lw_asked w) (lw_done w).
Definition set_maker w m := MkLworld (lw_dir w) (lw_text w) m (lw_lock w) (lw_hist w) (lw_target w) (lw_asked w) (lw_done w).
Definition set_lock w l := MkLworld (lw_dir w) (lw_text w) (lw_maker w) l (lw_hist w) (lw_target w) (lw_asked w) (lw_done w).
Definition set_hist w h := MkLworld (lw_dir w) (lw_text w) (lw_maker w) (lw_lock w) h (lw_target w) (lw_asked w) (lw_done w).
Definition set_target w t := MkLworld (lw_dir w) (lw_text w) (lw_maker w) (lw_lock w) (lw_hist w) t (lw_asked w) (lw_done w).
Definition set_asked w a := MkLworld (lw_dir w) (lw_text w) (lw_maker w) (lw_lock w) (lw_hist w) (lw_target w) a (lw_done w).
Definition set_done w d := MkLworld (lw_dir w) (lw_text w) (lw_maker w) (lw_lock w) (lw_hist w) (lw_target w) (lw_asked w) d.

(** Texts that JSON does not escape. *)
Definition is_plain (c : ascii) : bool := between 32 126 c && negb (byte_val c =? 34) && negb (byte_val c =? 92).
Definition plain_text (s : string) : Prop := str_forallb is_plain s = true.

(** What is relied on of [encoding/json]: encoded documents are decoded again, an
    incomplete one is not taken for another, and unknown fields are refused. *)
Class ControlDocumentsOk `{ControlDocuments} : Prop := {
  decode_instance n t : plain_text n → plain_text t → decodeInstance (instanceText n t) = Some (MkInstance instanceVersion n t);
  decode_instance_prefix n t k v : plain_text n → plain_text t →
    decodeInstance (substring 0 k (instanceText n t)) = Some v → v = MkInstance instanceVersion n t;
  decode_request_prefix n k v : plain_text n → decodeRequest (substring 0 k (requestText n)) = Some v → v = MkRequest requestVersion n;
  decode_request_other n t k : plain_text n → plain_text t → decodeRequest (substring 0 k (instanceText n t)) = None }.

Section host.
Context `{ControlDocuments}.

Definition of_process (p : nat) (s : status) : bool :=
  match s with Published q | Serving q | Closing q => (q =? p)%nat | _ => false end.

(** The process closes its lock file or ends. *)
Definition release (p : nat) (w : lworld) : lworld :=
  if bool_decide (lw_lock w = Some p)
  then set_hist (set_lock w None) ((λ s, if of_process p s then Left else s) <$> lw_hist w) else w.

Definition removed_status (s : status) : status := match s with Left => Replaced | Closed | Replaced => s | _ => Closed end.

(** The nonce in the publication. *)
Definition shown (w : lworld) : option string :=
  i ← lw_dir w !! instanceName; x ← lw_text w !! i; in_Nonce <$> decodeInstance x.

Definition read_target (p : nat) (f : lfile) (c : string) (w : lworld) : lworld :=
  match decodeInstance c with
  | Some v => if str_eqb (lf_name f) instanceName && (slen c <=? maxControlBytes)
              then set_target w (<[p := in_Nonce v]> (lw_target w)) else w
  | None => w
  end.

Definition ask (p : nat) (f : lfile) (data : string) (w : lworld) : lworld :=
  match lw_target w !! p with
  | Some n => if str_eqb (lf_name f) requestTempName && str_eqb data (requestText n)
              then set_asked w ({[n]} ∪ lw_asked w) else w
  | None => w
  end.

(** What a call of process [p] does.  A write may be short; a rename or removal that
    reports failure did not happen; nonces do not repeat; the clock shows a year of four
    digits.  The lock's file is not kept track of. *)
Definition act (p : nat) A (e : LCall A) : lworld → A → lworld → Prop :=
  match e in LCall T return lworld → T → lworld → Prop with
  | LLstat name => λ w a w', w' = w ∧ (name ≠ lockName →
      match a with SFound i => lw_dir w !! name = Some (fi_ino i) | SNotExist => lw_dir w !! name = None | SFailed => True end)
  | LOpen name CreateExclusive => λ w a w',
      match a with
      | Opened i => if str_eqb name lockName then w' = w else lw_dir w !! name = None ∧ lw_text w !! i = None
          ∧ w' = set_dir (set_text (set_maker w (<[i := p]> (lw_maker w))) (<[i := ""]> (lw_text w))) (<[name := i]> (lw_dir w))
      | _ => w' = w
      end
  | LOpen name _ => λ w a w', w' = w ∧ (name ≠ lockName →
      match a with Opened i => lw_dir w !! name = Some i | OpenNotExist => lw_dir w !! name = None | _ => True end)
  | LReadAll f limit => λ w a w',
      match a with
      | None => w' = w
      | Some c => (∃ x, lw_text w !! lf_ino f = Some x ∧ c = substring 0 (Z.to_nat limit) x) ∧ w' = read_target p f c w
      end
  | LWrite f data => λ w a w', (a.2 = false ∧ w' = w) ∨ ∃ x k, lw_text w !! lf_ino f = Some x
      ∧ (k ≤ String.length data)%nat ∧ a.1 = Z.of_nat k
      ∧ w' = ask p f data (set_text w (<[lf_ino f := x ++ substring 0 k data]> (lw_text w)))
  | LClose f => λ w a w', w' = if str_eqb (lf_name f) lockName then release p w else w
  | LUnlock f => λ w a w', w' = if a && str_eqb (lf_name f) lockName then release p w else w
  | LRename from to => λ w a w',
      if a : bool then ∃ i, lw_dir w !! from = Some i
        ∧ w' = (let w := set_dir w (<[to := i]> (delete from (lw_dir w))) in
                match (if str_eqb to instanceName then shown w else None) with
                | Some n => set_hist w (<[n := Published p]> (lw_hist w))
                | None => w
                end)
      else w' = w
  | LRemove name => λ w a w',
      match a with
      | Removed => w' = set_dir (match (if str_eqb name instanceName then shown w else None) with
                                 | Some n => set_hist w (alter removed_status n (lw_hist w))
                                 | None => w
                                 end) (delete name (lw_dir w))
      | RemoveNotExist => w' = w
      | RemoveFailed => w' = w
      end
  | LLock f => λ w a w', match a with Locked => lw_lock w = None ∧ w' = set_lock w (Some p) | _ => w' = w end
  | LRandom => λ w a w', w' = w ∧ match a with Some raw => slen raw = nonceBytes ∧ lw_hist w !! encodeBase64 raw = None | None => True end
  | LNow => λ w a w', w' = w ∧ four_digit_year a
  | LStart n => λ w a w', w' = set_hist w (<[n := Serving p]> (lw_hist w))
  | LStopped n clean => λ w a w', w' = set_hist w (<[n := if clean then Closing p else Left]> (lw_hist w))
  | LCloseDone => λ w a w', w' = set_done w ({[p]} ∪ lw_done w)
  | LSelect => λ w a w', w' = w ∧ (a = SelectDone → p ∈ lw_done w)
  | _ => λ w a w', w' = w
  end.

(** ** The invariant *)

Definition shows (w : lworld) (n : string) : Prop :=
  ∃ i t, lw_dir w !! instanceName = Some i ∧ lw_text w !! i = Some (instanceText n t) ∧ plain_text n ∧ plain_text t.

Definition standing (s : status) : Prop := s ≠ Closed ∧ s ≠ Replaced.

Definition known_text (asked : gset string) (x : string) : Prop :=
  x = "" ∨ (∃ n t k, plain_text n ∧ plain_text t ∧ x = substring 0 k (instanceText n t))
  ∨ ∃ n k, n ∈ asked ∧ plain_text n ∧ x = substring 0 k (requestText n).

Record world_ok (w : lworld) : Prop := {
  ok_live : ∀ n s p, lw_hist w !! n = Some s → of_process p s = true → lw_lock w = Some p;
  ok_standing : ∀ n s, lw_hist w !! n = Some s → standing s → shows w n;
  ok_shown : ∀ i, lw_dir w !! instanceName = Some i → ∃ n s, shows w n ∧ lw_hist w !! n = Some s ∧ standing s;
  ok_text : ∀ i x, lw_text w !! i = Some x → known_text (lw_asked w) x;
  ok_target : ∀ p n, lw_target w !! p = Some n → is_Some (lw_hist w !! n) ∧ plain_text n;
  ok_made : ∀ i p, lw_maker w !! i = Some p → is_Some (lw_text w !! i) }.

(** What a process may do. *)
Definition legal (p : nat) A (e : LCall A) (w : lworld) : Prop :=
  match e with
  | LOpen name CreateExclusive => name = lockName ∨ name = requestTempName ∨ (name = instanceTempName ∧ lw_lock w = Some p)
  | LReadAll f _ => lf_name f = instanceName →
      ∃ n t, lw_text w !! lf_ino f = Some (instanceText n t) ∧ plain_text n ∧ plain_text t ∧ is_Some (lw_hist w !! n)
  | LWrite f data => lw_maker w !! lf_ino f = Some p ∧ lw_text w !! lf_ino f = Some "" ∧
      ((lf_name f = instanceTempName ∧ ∃ n t, plain_text n ∧ plain_text t ∧ data = instanceText n t)
       ∨ (lf_name f = requestTempName ∧ ∃ n, lw_target w !! p = Some n ∧ data = requestText n))
  | LRename from to => (from = requestTempName ∧ to = requestName)
      ∨ (from = instanceTempName ∧ to = instanceName ∧ lw_lock w = Some p ∧ lw_dir w !! instanceName = None
         ∧ ∃ i n t, lw_dir w !! instanceTempName = Some i ∧ lw_text w !! i = Some (instanceText n t)
                    ∧ plain_text n ∧ plain_text t ∧ lw_hist w !! n = None)
  | LRemove name => name = requestName ∨ name = requestTempName ∨ (name = instanceTempName ∧ lw_lock w = Some p)
      ∨ (name = instanceName ∧ lw_lock w = Some p ∧ ∀ n, lw_hist w !! n ≠ Some (Serving p))
  | LStart n => lw_hist w !! n = Some (Published p)
  | LStopped n _ => lw_hist w !! n = Some (Serving p)
  | LSignal n => n ∈ lw_asked w
  | _ => True
  end.

(** What everybody may rely on, and what process [p] may. *)
Record common (w w' : lworld) : Prop := {
  cm_ok : world_ok w';
  cm_text : ∀ i x, lw_text w !! i = Some x → x ≠ "" → lw_text w' !! i = Some x;
  cm_hist : ∀ n, is_Some (lw_hist w !! n) → is_Some (lw_hist w' !! n);
  cm_over : ∀ n s, lw_hist w !! n = Some s → ¬ standing s → lw_hist w' !! n = Some s;
  cm_asked : lw_asked w ⊆ lw_asked w' }.

Record rely (p : nat) (w w' : lworld) : Prop := {
  ry_common : common w w';
  ry_lock : lw_lock w = Some p → lw_lock w' = Some p ∧ lw_hist w' = lw_hist w
    ∧ lw_dir w' !! instanceName = lw_dir w !! instanceName ∧ lw_dir w' !! instanceTempName = lw_dir w !! instanceTempName;
  ry_made : ∀ i, lw_maker w !! i = Some p → lw_maker w' !! i = Some p ∧ lw_text w' !! i = lw_text w !! i;
  ry_target : lw_target w' !! p = lw_target w !! p }.

(** ** Steps keep the invariant *)

Context `{!ControlDocumentsOk}.

Lemma shows_nonce w n : shows w n → shown w = Some n.
Proof. intros (i & t & Hi & Hx & Hn & Ht). unfold shown. rewrite Hi. simpl. rewrite Hx. simpl. by rewrite decode_instance. Qed.

Lemma shows_frame w w' n : lw_dir w' !! instanceName = lw_dir w !! instanceName →
  (∀ i x, lw_text w !! i = Some x → x ≠ "" → lw_text w' !! i = Some x) → shows w n → shows w' n.
Proof. intros Hd Hx (i & t & Hi & Hi' & Hp). exists i, t. rewrite Hd. split; [done|]. split; [by apply Hx|done]. Qed.

(** Steps that leave the publication, the lock and the nonces alone. *)
Lemma ok_frame w w' : world_ok w → lw_dir w' !! instanceName = lw_dir w !! instanceName →
  (∀ i x, lw_text w !! i = Some x → x ≠ "" → lw_text w' !! i = Some x) →
  (∀ i x, lw_text w' !! i = Some x → known_text (lw_asked w') x) →
  lw_lock w' = lw_lock w → lw_hist w' = lw_hist w →
  (∀ p n, lw_target w' !! p = Some n → is_Some (lw_hist w !! n) ∧ plain_text n) →
  (∀ i p, lw_maker w' !! i = Some p → is_Some (lw_text w' !! i)) → world_ok w'.
Proof.
  intros [H1 H2 H3 H4 H5 H6] Hd Hx Hk Hl Hh Ht Hm. split; rewrite ?Hh, ?Hl; [done| | |done|done|done].
  - intros n s Hn Hs. eapply shows_frame; [done|done|by eapply H2].
  - intros i Hi. rewrite Hd in Hi. destruct (H3 i Hi) as (n & s & Hn & Hs). exists n, s. split; [|done]. by eapply shows_frame.
Qed.

Lemma known_text_mono a a' x : a ⊆ a' → known_text a x → known_text a' x.
Proof. intros Ha [?|[?|(n & k & Hn & Hx)]]; [by left|by right; left|]. right; right. exists n, k. split; [set_solver|done]. Qed.

(** Steps that change the status of [n], which stands or is new. *)
Lemma ok_status w h n : world_ok w →
  (∀ m, m ≠ n → h !! m = lw_hist w !! m) → (∀ m, is_Some (lw_hist w !! m) → is_Some (h !! m)) →
  (∃ s, h !! n = Some s ∧ standing s ∧ (∀ p, of_process p s = true → lw_lock w = Some p)) →
  shows w n → world_ok (set_hist w h).
Proof.
  intros [H1 H2 H3 H4 H5 H6] Hh Hd (s & Hs & Hst & Hp) Hn. split; simpl; [| | |done| |done].
  - intros m s' p. destruct (decide (m = n)) as [->|Hm]; [|rewrite Hh by done; apply H1]. rewrite Hs. intros [= <-]. apply Hp.
  - intros m s'. destruct (decide (m = n)) as [->|Hm]; [done|]. rewrite Hh by done. apply H2.
  - intros i Hi. exists n, s. done.
  - intros p m Hm. destruct (H5 p m Hm). auto.
Qed.

Lemma ok_release p w : world_ok w → world_ok (release p w).
Proof.
  intros Hw. unfold release. case_bool_decide as Hl; [|done]. destruct Hw as [H1 H2 H3 H4 H5 H6]. split; simpl; [| | |done| |done].
  - intros n s q. rewrite lookup_fmap. destruct (lw_hist w !! n) as [s'|] eqn:E; [|done]. simpl. intros [= <-].
    destruct (of_process p s') eqn:Ep; [done|]. intros Hq. pose proof (H1 n s' q E Hq) as Hq'. rewrite Hl in Hq'. injection Hq' as ->. congruence.
  - intros n s. rewrite lookup_fmap. destruct (lw_hist w !! n) as [s'|] eqn:E; [|done]. simpl. intros [= <-] Hs.
    change (shows w n). apply (H2 n s' E). destruct (of_process p s') eqn:Ep; [|done]. by destruct s'.
  - intros i Hi. destruct (H3 i Hi) as (n & s & Hn & Hs & Hst). exists n, (if of_process p s then Left else s).
    split; [done|]. rewrite lookup_fmap, Hs. split; [done|]. by destruct (of_process p s).
  - intros q n Hq. destruct (H5 q n Hq). split; [|done]. rewrite lookup_fmap. by apply fmap_is_Some.
Qed.

(** The publication is renamed into place. *)
Lemma ok_publish p w i n t : world_ok w → lw_lock w = Some p → lw_dir w !! instanceName = None →
  lw_text w !! i = Some (instanceText n t) → plain_text n → plain_text t → lw_hist w !! n = None →
  let w' := set_dir w (<[instanceName := i]> (delete instanceTempName (lw_dir w))) in
  shown w' = Some n ∧ world_ok (set_hist w' (<[n := Published p]> (lw_hist w))).
Proof.
  intros [H1 H2 H3 H4 H5 H6] Hl Hd Hi Hn Ht Hh w'. assert (shows w' n) as Hs by (exists i, t; simpl; by rewrite lookup_insert_eq).
  split; [by apply shows_nonce|]. split; simpl; [| | |done| |done].
  - intros m s q. destruct (decide (m = n)) as [->|Hm].
    + rewrite lookup_insert_eq. intros [= <-]. simpl. intros ->%Nat.eqb_eq. done.
    + rewrite lookup_insert_ne by done. apply H1.
  - intros m s. destruct (decide (m = n)) as [->|Hm]; [done|]. rewrite lookup_insert_ne by done. intros Hm' Hst.
    destruct (H2 m s Hm' Hst) as (j & t' & Hj & _). congruence.
  - intros j Hj. exists n, (Published p). rewrite lookup_insert_eq. by split_and!.
  - intros q m Hq. destruct (H5 q m Hq) as [? ?]. split; [|done]. apply lookup_insert_is_Some'. auto.
Qed.

(** The publication is removed. *)
Lemma ok_remove w n : world_ok w → shown w = Some n →
  world_ok (set_dir (set_hist w (alter removed_status n (lw_hist w))) (delete instanceName (lw_dir w))).
Proof.
  intros Hw Hn. destruct Hw as [H1 H2 H3 H4 H5 H6].
  assert (∀ m s, lw_hist w !! m = Some s → standing s → m = n) as Hone.
  { intros m s Hm Hs. apply (H2 m s Hm) in Hs. apply shows_nonce in Hs. congruence. }
  split; simpl; [| | |done| |done].
  - intros m s q. destruct (decide (m = n)) as [->|Hm]; [|rewrite lookup_alter_ne by done; apply H1].
    rewrite lookup_alter_eq. destruct (lw_hist w !! n) as [s'|]; [|done]. simpl. intros [= <-]. by destruct s'.
  - intros m s. destruct (decide (m = n)) as [->|Hm].
    + rewrite lookup_alter_eq. destruct (lw_hist w !! n) as [s'|]; [|done]. simpl. intros [= <-] [? ?]. by destruct s'.
    + rewrite lookup_alter_ne by done. intros Hm' Hs. destruct Hm. by eapply Hone.
  - intros i. by rewrite lookup_delete_eq.
  - intros q m Hq. destruct (H5 q m Hq) as [Hm ?]. split; [|done]. destruct (decide (m = n)) as [->|Hmn].
    + rewrite lookup_alter_eq. by apply fmap_is_Some.
    + by rewrite lookup_alter_ne.
Qed.

(** One lemma per kind of step: the invariant, and what the others see. *)
Lemma create_ok p w name i : world_ok w → lw_text w !! i = None → name ≠ instanceName →
  world_ok (set_dir (set_text (set_maker w (<[i := p]> (lw_maker w))) (<[i := ""]> (lw_text w))) (<[name := i]> (lw_dir w))).
Proof.
  intros Hw Hi Hn. apply (ok_frame w); [done|by simpl; rewrite lookup_insert_ne| | |done|done|apply Hw|]; simpl.
  - intros j x Hj Hx. rewrite lookup_insert_ne; [done|congruence].
  - intros j x. destruct (decide (j = i)) as [->|Hj]; [rewrite lookup_insert_eq; intros [= <-]; by left|].
    rewrite lookup_insert_ne by done. apply Hw.
  - intros j q. rewrite lookup_insert_is_Some'. destruct (decide (i = j)) as [->|Hj]; [by left|]. rewrite lookup_insert_ne by done. intros Hq.
    right. by apply (ok_made _ Hw j q).
Qed.

Lemma write_known p w f data k : legal p _ (LWrite f data) w → world_ok w →
  known_text (lw_asked (ask p f data w)) (substring 0 k data).
Proof.
  intros (_ & _ & [(_ & n & t & Hn & Ht & ->)|(Hf & n & Hn & ->)]) Hw.
  - right; left. by exists n, t, k.
  - right; right. exists n, k. unfold ask. rewrite Hn, Hf, !str_eqb_refl. simpl. split; [set_solver|].
    split; [|done]. by destruct (ok_target _ Hw p n Hn).
Qed.

Lemma ask_asked p f data w : lw_asked w ⊆ lw_asked (ask p f data w).
Proof. unfold ask. destruct (lw_target w !! p) as [n|]; [|done]. destruct (_ && _); [simpl; set_solver|done]. Qed.
Lemma ask_rest p f data w : let w' := ask p f data w in lw_dir w' = lw_dir w ∧ lw_text w' = lw_text w ∧ lw_maker w' = lw_maker w
  ∧ lw_lock w' = lw_lock w ∧ lw_hist w' = lw_hist w ∧ lw_target w' = lw_target w.
Proof. unfold ask. destruct (lw_target w !! p) as [n|]; [|done]. by destruct (_ && _). Qed.

Lemma read_rest p f c w : let w' := read_target p f c w in lw_dir w' = lw_dir w ∧ lw_text w' = lw_text w ∧ lw_maker w' = lw_maker w
  ∧ lw_lock w' = lw_lock w ∧ lw_hist w' = lw_hist w ∧ lw_asked w' = lw_asked w
  ∧ ∀ q, q ≠ p → lw_target w' !! q = lw_target w !! q.
Proof.
  unfold read_target. destruct (decodeInstance c) as [v|]; [|done]. destruct (_ && _); [|done]. simpl. split_and!; try done.
  intros q Hq. by rewrite lookup_insert_ne.
Qed.

Lemma read_ok p f limit w x : world_ok w → legal p _ (LReadAll f limit) w → lw_text w !! lf_ino f = Some x →
  world_ok (read_target p f (substring 0 (Z.to_nat limit) x) w).
Proof.
  intros Hw Hl Hx. destruct (read_rest p f (substring 0 (Z.to_nat limit) x) w) as (E1 & E2 & E3 & E4 & E5 & E6 & _).
  apply (ok_frame w); rewrite ?E1, ?E2, ?E3, ?E4, ?E5, ?E6; [done|done|done|apply Hw|done|done| |apply Hw]. intros q m. unfold read_target.
  destruct (decodeInstance _) as [v|] eqn:Ev; [|apply Hw]. destruct (_ && _) eqn:Ef; [|apply Hw]. simpl. bools.
  destruct (decide (q = p)) as [->|Hq]; [|rewrite lookup_insert_ne by done; apply Hw]. rewrite lookup_insert_eq. intros [= <-].
  destruct Hl as (n & t & Hx' & Hn & Ht & Hh); [done|]. rewrite Hx in Hx'. injection Hx' as ->.
  apply decode_instance_prefix in Ev as ->; done.
Qed.

Lemma write_ok p w f data k : world_ok w → legal p _ (LWrite f data) w →
  world_ok (ask p f data (set_text w (<[lf_ino f := substring 0 k data]> (lw_text w)))).
Proof.
  intros Hw Hl. pose proof (write_known p w f data k Hl Hw) as Hk. destruct Hl as (_ & Hx & _).
  set (u := set_text _ _). destruct (ask_rest p f data u) as (E1 & E2 & E3 & E4 & E5 & E6). pose proof (ask_asked p f data u) as Ha.
  assert (lw_asked (ask p f data w) = lw_asked (ask p f data u)) as Eu.
  { unfold ask. simpl. destruct (lw_target w !! p); [|done]. by destruct (_ && _). }
  apply (ok_frame w); rewrite ?E1, ?E2, ?E3, ?E4, ?E5, ?E6; [done|done| | |done|done|apply Hw|]; simpl.
  - intros j y Hj Hy. rewrite lookup_insert_ne; [done|congruence].
  - intros j y. destruct (decide (j = lf_ino f)) as [->|Hj].
    + rewrite lookup_insert_eq. intros [= <-]. by rewrite <- Eu.
    + rewrite lookup_insert_ne by done. intros Hj'. eapply known_text_mono; [exact Ha|]. by apply (ok_text _ Hw j).
  - intros j q Hj. apply lookup_insert_is_Some'. right. by apply (ok_made _ Hw j q).
Qed.

Lemma hist_one w n : world_ok w → ∀ m s, shown w = Some n → lw_hist w !! m = Some s → standing s → m = n.
Proof. intros Hw m s Hn Hm Hs. apply (ok_standing _ Hw m s Hm), shows_nonce in Hs. congruence. Qed.

(** A step keeps the invariant. *)
Lemma step_ok p A (e : LCall A) w a w' : world_ok w → legal p A e w → act p A e w a w' → world_ok w'.
Proof.
  intros Hw Hl Hx. destruct e as [| | | | |name|name []| |f limit|f data| |f|from to|name|f|f| | |n| | |n clean| |n| |]; simpl in Hx.
  all: try (by subst w'); try (by destruct Hx as [-> _]).
  - destruct a; subst; try done. destruct (str_eqb name lockName) eqn:En; [by subst|]. bools. destruct Hx as (_ & Hi & ->).
    apply create_ok; [done|done|]. destruct Hl as [?|[?|[? _]]]; by subst.
  - destruct a as [c|]; [|by subst]. destruct Hx as [(x & Hx & ->) ->]. by apply read_ok.
  - destruct Hx as [[_ ->]|(x & k & Hx & _ & _ & ->)]; [done|]. destruct Hl as (H1 & H2 & H3). rewrite Hx in H2. injection H2 as ->.
    by apply write_ok.
  - subst w'. destruct (str_eqb _ _); [by apply ok_release|done].
  - destruct a; [|by subst]. destruct Hx as (i & Hi & ->). destruct Hl as [[-> ->]|(-> & -> & Hk & Hd & j & n & t & Hj & Hx & Hn & Ht & Hh)].
    + simpl. apply (ok_frame w); try done; simpl; [by rewrite lookup_insert_ne, lookup_delete_ne|apply Hw..].
    + rewrite Hi in Hj. injection Hj as ->. destruct (ok_publish p w j n t Hw Hk Hd Hx Hn Ht Hh) as [Es Ho]. rewrite str_eqb_refl.
      cbv zeta in *. by rewrite Es.
  - destruct a; subst; try done. destruct Hl as [->|[->|[[-> _]|(-> & Hk & Hn)]]].
    1-3: simpl; apply (ok_frame w); try done; simpl; [by rewrite lookup_delete_ne|apply Hw..].
    rewrite str_eqb_refl. destruct (shown w) as [n|] eqn:Es; [by apply ok_remove|].
    assert (lw_dir w !! instanceName = None) as Hd.
    { destruct (lw_dir w !! instanceName) as [i|] eqn:E; [|done]. destruct (ok_shown _ Hw i E) as (n & s & Hs & _).
      apply shows_nonce in Hs. congruence. }
    rewrite delete_id by done. by destruct w.
  - destruct a; [|by subst..]. destruct Hx as [Hk ->]. destruct Hw as [H1 H2 H3 H4 H5 H6]. split; simpl; try done. intros n s q Hn Hq.
    pose proof (H1 n s q Hn Hq). congruence.
  - subst w'. destruct (a && _); [by apply ok_release|done].
  - subst w'. simpl in Hl. apply (ok_status w _ n); [done| | | |].
    + intros m Hm. by rewrite lookup_insert_ne.
    + intros m Hm. apply lookup_insert_is_Some'. auto.
    + exists (Serving p). rewrite lookup_insert_eq. split_and!; [done|done|]. simpl. intros q ->%Nat.eqb_eq.
      apply (ok_live _ Hw n _ q Hl). simpl. apply Nat.eqb_refl.
    + by apply (ok_standing _ Hw n _ Hl).
  - subst w'. by destruct Hw.
  - subst w'. simpl in Hl. apply (ok_status w _ n); [done| | | |].
    + intros m Hm. by rewrite lookup_insert_ne.
    + intros m Hm. apply lookup_insert_is_Some'. auto.
    + exists (if clean then Closing p else Left). rewrite lookup_insert_eq. split_and!; [done|by destruct clean|]. destruct clean; [|done].
      simpl. intros q ->%Nat.eqb_eq. apply (ok_live _ Hw n _ q Hl). simpl. apply Nat.eqb_refl.
    + by apply (ok_standing _ Hw n _ Hl).
Qed.

(** What everybody sees of a step. *)
Lemma common_same_hist w w' : world_ok w' → lw_hist w' = lw_hist w →
  (∀ i x, lw_text w !! i = Some x → x ≠ "" → lw_text w' !! i = Some x) → lw_asked w ⊆ lw_asked w' → common w w'.
Proof. intros Hw Hh Hx Ha. by split; rewrite ?Hh. Qed.

Lemma common_refl w : world_ok w → common w w.
Proof. intros Hw. by apply common_same_hist. Qed.

Lemma common_status w n s s' : world_ok (set_hist w (<[n := s']> (lw_hist w))) → lw_hist w !! n = Some s → standing s →
  common w (set_hist w (<[n := s']> (lw_hist w))).
Proof.
  intros Hw Hn Hs. split; simpl; [done|done| | |done].
  - intros m Hm. apply lookup_insert_is_Some'. auto.
  - intros m r Hm Hr. rewrite lookup_insert_ne; [done|]. intros <-. assert (r = s) as -> by congruence. done.
Qed.

Lemma common_release p w : world_ok w → common w (release p w).
Proof.
  intros Hw. pose proof (ok_release p w Hw) as Ho. unfold release in *. case_bool_decide; [|by apply common_refl].
  split; simpl; [done|done| | |done].
  - intros n Hn. rewrite lookup_fmap. by apply fmap_is_Some.
  - intros n s Hn Hs. rewrite lookup_fmap, Hn. simpl. destruct (of_process p s) eqn:E; [|done]. destruct Hs. by destruct s.
Qed.

Lemma step_common p A (e : LCall A) w a w' : world_ok w → legal p A e w → act p A e w a w' → common w w'.
Proof.
  intros Hw Hl Hx. pose proof (step_ok p A e w a w' Hw Hl Hx) as Ho.
  destruct e as [| | | | |name|name []| |f limit|f data| |f|from to|name|f|f| | |n| | |n clean| |n| |]; simpl in Hx.
  all: try (by subst w'; apply common_refl); try (by destruct Hx as [-> _]; apply common_refl).
  - destruct a; try (subst; by apply common_refl). destruct (str_eqb name lockName); [subst; by apply common_refl|].
    destruct Hx as (_ & Hi & ->). apply common_same_hist; [done|done| |done]. simpl. intros j x Hj Hx. rewrite lookup_insert_ne; [done|congruence].
  - destruct a as [c|]; [|subst; by apply common_refl]. destruct Hx as [_ ->]. destruct (read_rest p f c w) as (_ & E2 & _ & _ & E5 & E6 & _).
    by apply common_same_hist; rewrite ?E2, ?E5, ?E6.
  - destruct Hx as [[_ ->]|(x & k & Hx & _ & _ & ->)]; [by apply common_refl|]. destruct Hl as (_ & H2 & _). rewrite Hx in H2. injection H2 as ->.
    match goal with |- common _ (ask _ _ _ ?u) => destruct (ask_rest p f data u) as (_ & E2 & _ & _ & E5 & _) end.
    apply common_same_hist; rewrite ?E2, ?E5; [done|done| |]; simpl.
    + intros j y Hj Hy. rewrite lookup_insert_ne; [done|congruence].
    + etrans; [|apply ask_asked]. done.
  - subst w'. destruct (str_eqb _ _); [by apply common_release|by apply common_refl].
  - destruct a; [|subst; by apply common_refl]. destruct Hx as (i & Hi & ->).
    destruct Hl as [[-> ->]|(-> & -> & Hk & Hd & j & n & t & Hj & Hx & Hn & Ht & Hh)]; [by apply common_same_hist|].
    rewrite Hi in Hj. injection Hj as ->. destruct (ok_publish p w j n t Hw Hk Hd Hx Hn Ht Hh) as [Es _].
    rewrite str_eqb_refl in *. cbv zeta in *. rewrite Es in *. split; simpl; [done|done| | |done].
    + intros m Hm. apply lookup_insert_is_Some'. auto.
    + intros m r Hm Hr. rewrite lookup_insert_ne; [done|congruence].
  - destruct a; try (subst; by apply common_refl). subst w'. destruct (if str_eqb name instanceName then shown w else None) as [n|]; [|by apply common_same_hist].
    split; simpl; [done|done| | |done].
    + intros m Hm. destruct (decide (m = n)) as [->|Hmn]; [rewrite lookup_alter_eq; by apply fmap_is_Some|by rewrite lookup_alter_ne].
    + intros m r Hm Hr. destruct (decide (m = n)) as [->|Hmn]; [|by rewrite lookup_alter_ne]. rewrite lookup_alter_eq, Hm. simpl. f_equal.
      destruct r; try done; by destruct Hr.
  - destruct a; [|subst; by apply common_refl..]. destruct Hx as [_ ->]. by apply common_same_hist.
  - subst w'. destruct (a && _); [by apply common_release|by apply common_refl].
  - subst w'. by eapply common_status.
  - subst w'. by apply common_same_hist.
  - subst w'. by eapply common_status.
Qed.

(** What the others see of a step of [p]. *)
Lemma rely_intro q w w' : common w w' →
  (lw_lock w = Some q → lw_lock w' = lw_lock w ∧ lw_hist w' = lw_hist w
    ∧ lw_dir w' !! instanceName = lw_dir w !! instanceName ∧ lw_dir w' !! instanceTempName = lw_dir w !! instanceTempName) →
  lw_maker w' = lw_maker w → (∀ i, lw_maker w !! i = Some q → lw_text w' !! i = lw_text w !! i) →
  lw_target w' !! q = lw_target w !! q → rely q w w'.
Proof.
  intros Hc Hl Hm Hx Ht. split; [done| | |done].
  - intros Hq. destruct (Hl Hq) as (E & Hr). split; [congruence|done].
  - intros i Hi. rewrite Hm. split; [done|by apply Hx].
Qed.

Lemma release_rely p q w : p ≠ q → world_ok w → rely q w (release p w).
Proof.
  intros Hpq Hw. pose proof (common_release p w Hw) as Hc. unfold release in *. case_bool_decide as Hl; [|by apply rely_intro].
  apply rely_intro; try done. congruence.
Qed.

Lemma step_rely p q A (e : LCall A) w a w' : p ≠ q → world_ok w → legal p A e w → act p A e w a w' → rely q w w'.
Proof.
  intros Hpq Hw Hl Hx. pose proof (step_common p A e w a w' Hw Hl Hx) as Hc.
  destruct e as [| | | | |name|name []| |f limit|f data| |f|from to|name|f|f| | |n| | |n clean| |n| |]; simpl in Hx.
  all: try (by subst w'; apply rely_intro); try (by destruct Hx as [-> _]; apply rely_intro).
  - destruct a; try (subst; by apply rely_intro). destruct (str_eqb name lockName) eqn:En; [subst; by apply rely_intro|].
    destruct Hx as (_ & Hi & ->). bools. split; simpl; [done| | |done].
    + intros Hq. destruct Hl as [?|[->|[_ ?]]]; [done| |congruence]. by rewrite !lookup_insert_ne.
    + intros j Hj. assert (j ≠ ino) by (intros ->; destruct (ok_made _ Hw ino q Hj); congruence). by rewrite !lookup_insert_ne.
  - destruct a as [c|]; [|subst; by apply rely_intro]. destruct Hx as [_ ->].
    destruct (read_rest p f c w) as (E1 & E2 & E3 & E4 & E5 & E6 & E7). apply rely_intro; rewrite ?E1, ?E2, ?E3, ?E4, ?E5; try done. by apply E7.
  - destruct Hx as [[_ ->]|(x & k & Hx & _ & _ & ->)]; [by apply rely_intro|]. destruct Hl as (Hm & _).
    match goal with |- rely _ _ (ask _ _ _ ?u) => destruct (ask_rest p f data u) as (E1 & E2 & E3 & E4 & E5 & E6) end.
    apply rely_intro; rewrite ?E1, ?E2, ?E3, ?E4, ?E5, ?E6; try done. simpl. intros i Hi. rewrite lookup_insert_ne; [done|congruence].
  - subst w'. destruct (str_eqb _ _); [by apply release_rely|by apply rely_intro].
  - destruct a; [|subst; by apply rely_intro]. destruct Hx as (i & Hi & ->).
    destruct Hl as [[-> ->]|(-> & -> & Hk & _)].
    + apply rely_intro; try done. simpl. intros _. by rewrite !lookup_insert_ne, !lookup_delete_ne.
    + match goal with |- context [match ?x with Some _ => _ | None => _ end] => destruct x end; apply rely_intro; try done; congruence.
  - destruct a; try (subst; by apply rely_intro). subst w'.
    destruct Hl as [->|[->|[[-> Hk]|(-> & Hk & Hn)]]]; simpl in *.
    1-2: apply rely_intro; try done; simpl; intros _; by rewrite !lookup_delete_ne.
    1: apply rely_intro; try done; congruence.
    destruct (shown w); apply rely_intro; try done; congruence.
  - destruct a; [|subst; by apply rely_intro..]. destruct Hx as [Hk ->]. apply rely_intro; try done. congruence.
  - subst w'. destruct (a && _); [by apply release_rely|by apply rely_intro].
  - subst w'. simpl in Hl. assert (lw_lock w = Some p) by (apply (ok_live _ Hw n _ p Hl); apply Nat.eqb_refl). apply rely_intro; try done. congruence.
  - subst w'. simpl in Hl. assert (lw_lock w = Some p) by (apply (ok_live _ Hw n _ p Hl); apply Nat.eqb_refl). apply rely_intro; try done. congruence.
Qed.

(** The calls of [watch], which do not disturb even their own process. *)
Definition harmless A (e : LCall A) : Prop :=
  match e with
  | LLstat _ | LStat _ | LSelect | LSignal _ => True
  | LOpen _ ReadOnly => True
  | LReadAll f _ | LClose f => lf_name f = requestName
  | LRemove name => name = requestName
  | _ => False
  end.

Lemma harmless_rely p q A (e : LCall A) w a w' : world_ok w → legal p A e w → harmless A e → act p A e w a w' → rely q w w'.
Proof.
  intros Hw Hl Hh Hx. destruct (decide (p = q)) as [<-|Hpq]; [|by eapply step_rely].
  pose proof (step_common p A e w a w' Hw Hl Hx) as Hc.
  destruct e as [| | | | |name|name []| |f limit|f data| |f|from to|name|f|f| | |n| | |n clean| |n| |]; simpl in Hx, Hh; try done.
  all: try (by subst w'; apply rely_intro); try (by destruct Hx as [-> _]; apply rely_intro).
  - destruct a as [c|]; [|subst; by apply rely_intro]. destruct Hx as [_ ->].
    assert (read_target p f c w = w) as E; [|rewrite E in *; by apply rely_intro].
    unfold read_target. destruct (decodeInstance c); [|done]. by rewrite Hh.
  - rewrite Hh in Hx. subst w'. by apply rely_intro.
  - subst name. destruct a; try (subst; by apply rely_intro). subst w'. simpl in *. apply rely_intro; try done. simpl. intros _.
    by rewrite !lookup_delete_ne.
Qed.

Lemma common_trans w1 w2 w3 : common w1 w2 → common w2 w3 → common w1 w3.
Proof.
  intros [_ X1 H1 O1 A1] [K2 X2 H2 O2 A2]. split; [done| | | |by etrans].
  - intros i x Hi Hx. apply X2; [by apply X1|done].
  - auto.
  - intros n s Hn Hs. apply O2; [by apply O1|done].
Qed.

Lemma lrely_trans p w1 w2 w3 : rely p w1 w2 → rely p w2 w3 → rely p w1 w3.
Proof.
  intros [C1 L1 M1 T1] [C2 L2 M2 T2]. split; [by eapply common_trans| | |congruence].
  - intros Hl. destruct (L1 Hl) as (K1 & ? & ? & ?). destruct (L2 K1) as (K2 & ? & ? & ?). split_and!; congruence.
  - intros i Hi. destruct (M1 i Hi) as [K1 ?]. destruct (M2 i K1) as [K2 ?]. split; congruence.
Qed.
End host.
