(* ===== verification/LifecycleSafety.v ===== *)
(** * The graceful-stop channel: what its routines guarantee

    Every call a routine makes is one its process may make, whatever the others do
    between its calls; with what each routine establishes. *)

From S2P Require Import Prelude GoTime GoText GoCalendar Effects Background Lifecycle LifecycleHost.

#[local] Open Scope string_scope.
#[local] Open Scope Z_scope.

Lemma substring_substring a b (s : string) : substring 0 a (substring 0 b s) = substring 0 (a `min` b) s.
Proof. revert a b. induction s as [|c s IH]; intros [|a] [|b]; simpl; try done. by rewrite IH. Qed.

(** Nonces and times are plain. *)
Lemma base64_char_plain v : 0 ≤ v < 64 → is_plain (base64_char v) = true.
Proof.
  intros Hv. assert (forallb (λ k, is_plain (base64_char (Z.of_nat k))) (seq 0 64) = true) as Hall by (vm_compute; reflexivity).
  rewrite forallb_forall in Hall. specialize (Hall (Z.to_nat v)). rewrite Z2Nat.id in Hall by lia. apply Hall, in_seq. lia.
Qed.

Lemma byte_val_range c : 0 ≤ byte_val c < 256.
Proof. unfold byte_val. pose proof (N_ascii_bounded c). lia. Qed.

Lemma encodeBase64_plain s : plain_text (encodeBase64 s).
Proof.
  unfold plain_text. assert (∃ m, (String.length s < m)%nat) as [m Hm] by eauto. revert s Hm. induction m as [|m IH]; intros s Hm; [lia|].
  destruct s as [|a [|b [|c s]]]; [done| | |]; cbn [encodeBase64 str_forallb]; pose proof (byte_val_range a); try pose proof (byte_val_range b);
    try pose proof (byte_val_range c).
  3: rewrite IH by (simpl in Hm; lia).
  all: rewrite !andb_true_iff; split_and!; try done; apply base64_char_plain; div_lia.
Qed.

(** What [New] generates passes [validNonce]. *)
Lemma base64_value_char v : 0 ≤ v < 64 → base64_value (base64_char v) = Some v.
Proof.
  intros Hv. assert (forallb (λ k, bool_decide (base64_value (base64_char (Z.of_nat k)) = Some (Z.of_nat k))) (seq 0 64) = true) as Hall by (vm_compute; reflexivity).
  rewrite forallb_forall in Hall. specialize (Hall (Z.to_nat v)). rewrite Z2Nat.id in Hall by lia.
  eapply bool_decide_eq_true_1, Hall, in_seq. lia.
Qed.

Lemma encodeBase64_alphabet s : str_forallb is_base64 (encodeBase64 s) = true.
Proof.
  assert (∃ m, (String.length s < m)%nat) as [m Hm] by eauto. revert s Hm. induction m as [|m IH]; intros s Hm; [lia|].
  assert (∀ v, 0 ≤ v < 64 → is_base64 (base64_char v) = true) as Hc by (intros v Hv; unfold is_base64; by rewrite base64_value_char).
  destruct s as [|a [|b [|c s]]]; [done| | |]; cbn [encodeBase64 str_forallb]; pose proof (byte_val_range a); try pose proof (byte_val_range b);
    try pose proof (byte_val_range c).
  3: rewrite IH by (simpl in Hm; lia).
  all: rewrite !andb_true_iff; split_and!; try done; apply Hc; div_lia.
Qed.

Lemma nonce_valid raw : slen raw = nonceBytes → validNonce (encodeBase64 raw) = true.
Proof.
  intros Hl. unfold validNonce. rewrite encodeBase64_alphabet. unfold slen, nonceBytes in Hl.
  do 32 (destruct raw as [|? raw]; [simpl in Hl; lia|]). destruct raw; [|simpl in Hl; lia]. clear Hl.
  unfold slen. cbn -[base64_char base64_value byte_val Z.mul Z.add Z.div Z.modulo Z.eqb].
  rewrite base64_value_char; [|pose proof (byte_val_range a29); pose proof (byte_val_range a30); div_lia]. simpl.
  pose proof (byte_val_range a30). div_lia.
Qed.

Lemma time_plain t : four_digit_year t → plain_text (FormatRFC3339Nano t).
Proof.
  intros Hy. destruct (RFC3339Nano_shape t Hy) as [_ Ht]. eapply str_forallb_mono; [|exact Ht]. intros c Hc.
  unfold is_time_char, between in Hc. bools. unfold is_plain, between. lia.
Qed.

Section safety.
Context `{HD : !ControlDocuments, HO : !ControlDocumentsOk}.

(** ** Routines among others *)

Section logic.
Variables (Rel : lworld → lworld → Prop) (p : nat).

(** Between any two calls the others do what [Rel] says; every call is legal. *)
Fixpoint wpl {R} (q : prog LCall R) (Q : R → lworld → Prop) (w : lworld) : Prop :=
  world_ok w ∧ match q with
  | Ret r => Q r w
  | Call e k => ∀ u, Rel w u → legal p _ e u ∧ ∀ a w', act p _ e u a w' → wpl (k a) Q w'
  end.

Lemma wpl_ret {R} (r : R) (Q : R → lworld → Prop) w : world_ok w → Q r w → wpl (Ret r) Q w.
Proof. by split. Qed.

Lemma wpl_here {R} (q : prog LCall R) Q w : wpl q Q w → world_ok w.
Proof. by destruct q; intros []. Qed.

Lemma wpl_mono {R} (q : prog LCall R) (Q Q' : R → lworld → Prop) w :
  wpl q Q w → (∀ r u, world_ok u → Q r u → Q' r u) → wpl q Q' w.
Proof.
  intros Hq HQ. revert w Hq. induction q as [r|A e k IH]; intros w [Hw Hn]; (split; [done|]); [by apply HQ|].
  intros u Hu. destruct (Hn u Hu) as [Hl Hk]. split; [done|]. intros a w' Hx. by apply IH, Hk.
Qed.

Lemma wpl_bind {A B} (q : prog LCall A) (f : A → prog LCall B) Q w : wpl q (λ r u, wpl (f r) Q u) w → wpl (bind q f) Q w.
Proof.
  revert w. induction q as [r|T e k IH]; intros w [Hw H]; [exact H|]. split; [done|]. intros u Hu. destruct (H u Hu) as [Hl Hk].
  split; [done|]. intros a w' Hx. by apply IH, Hk.
Qed.

Hypothesis Rel_common : ∀ w u, Rel w u → common w u.

Definition stable (P : lworld → Prop) : Prop := ∀ w u, P w → Rel w u → P u.

Lemma wpl_call {R A} P (e : LCall A) (k : A → prog LCall R) Q w : stable P → P w → world_ok w →
  (∀ u, P u → world_ok u → legal p A e u) →
  (∀ u a w', P u → world_ok u → act p A e u a w' → world_ok w' → wpl (k a) Q w') → wpl (Call e k) Q w.
Proof.
  intros HS Hw Hok Hl Hk. split; [done|]. intros u Hu. pose proof (HS _ _ Hw Hu) as Pu. pose proof (cm_ok _ _ (Rel_common _ _ Hu)) as Hu'.
  split; [by apply Hl|]. intros a w' Hx. apply (Hk u); [done|done|done|]. eapply step_ok; [exact Hu'| |done]. by apply Hl.
Qed.

(** A call that changes nothing. *)
Lemma wpl_idle {R A} P (e : LCall A) (k : A → prog LCall R) Q w : stable P → P w → world_ok w →
  (∀ u, legal p A e u) → (∀ u a w', act p A e u a w' → w' = u) →
  (∀ a u, P u → world_ok u → act p A e u a u → wpl (k a) Q u) → wpl (Call e k) Q w.
Proof.
  intros HS Hw Hok Hl Ha Hk. apply (wpl_call P); [done|done|done|auto|]. intros u a w' Hu Hu' Hx Hw'.
  pose proof (Ha _ _ _ Hx) as ->. by apply Hk.
Qed.

Lemma conj_stable P P' : stable P → stable P' → stable (λ w, P w ∧ P' w).
Proof. intros H1 H2 w u [Hw Hw'] Hu. split; [by eapply H1|by eapply H2]. Qed.

(** What is read stays what was written. *)
Definition text_is (i : nat) (x : string) (w : lworld) : Prop := lw_text w !! i = Some x.
Lemma text_stable i x : x ≠ "" → stable (text_is i x).
Proof. intros Hx w u Hw Hu. by apply (cm_text _ _ (Rel_common _ _ Hu)). Qed.

Definition once_known (n : string) (w : lworld) : Prop := is_Some (lw_hist w !! n).
Lemma known_stable n : stable (once_known n).
Proof. intros w u Hw Hu. by apply (cm_hist _ _ (Rel_common _ _ Hu)). Qed.

(** ** Reading *)

Lemma ValidateControl_wpl P N name w : stable P → stable N → P w → world_ok w →
  (∀ u, P u → world_ok u → name ≠ lockName → lw_dir u !! name = None → N u) →
  wpl (ValidateControl name) (λ r u, P u ∧ (r = Err NotExist → name ≠ lockName → N u)) w.
Proof.
  intros HS HN Hw Hok Hn. unfold ValidateControl. apply (wpl_idle P); [done|done|done|done|by intros ? ? ? []|].
  intros a u Hu Hu' [_ Ha]. apply wpl_ret; [done|]. split; [done|]. intros Hr Hl. specialize (Ha Hl). destruct a; [|by apply Hn|done].
  by destruct (_ || _ || _ || _ || _).
Qed.

(** A control file is read: [F] is what is known of the file once it is open, [G] of its
    document, [N] if there is no file, and [P1] of the world after reading. *)
Lemma readExact_wpl {T} (P P1 N : lworld → Prop) (F : nat → lworld → Prop) (G : T → lworld → Prop) name decode w :
  name ≠ lockName → stable P → stable P1 → stable N → (∀ i, stable (F i)) → (∀ v, stable (G v)) → (∀ u, P u → P1 u) →
  (∀ u, P u → world_ok u → lw_dir u !! name = None → N u) →
  (∀ u i, P u → world_ok u → lw_dir u !! name = Some i → F i u) →
  (∀ u i, F i u → legal p _ (LReadAll (MkLfile name i) (maxControlBytes + 1)) u) →
  (∀ u i c w', P u → F i u → world_ok u → act p _ (LReadAll (MkLfile name i) (maxControlBytes + 1)) u (Some c) w' →
     P1 w' ∧ ∀ v, slen c ≤ maxControlBytes → decode c = Some v → G v w') →
  P w → world_ok w →
  wpl (readExact name decode) (λ r u, match r with Ok v => P1 u ∧ G v u | Err NotExist => P u ∧ N u | Err _ => P1 u end) w.
Proof.
  intros Hname HS HS1 HN HF HG H1 Hno Hopen Hlegal Hread Hw Hok. unfold readExact. apply wpl_bind.
  eapply wpl_mono; [apply (ValidateControl_wpl P N); [done|done|done|done|auto]|]. clear w Hw Hok. intros [info|e] w Hok [Hw Hn].
  2: { apply wpl_ret; [done|]. destruct e; auto. }
  apply (wpl_idle P); [done|done|done|done|by intros ? ? ? []|]. clear w Hw Hok Hn. intros a w Hw Hok [_ Ha]. specialize (Ha Hname).
  assert (stable (λ u, P u ∧ N u)) as HPN by (by apply conj_stable).
  destruct a as [i| | |]; [|apply wpl_ret; simpl; auto..].
  assert (F i w) as Hf by auto. clear Ha. cbv zeta. set (f := MkLfile name i) in *.
  assert (stable (λ u, P u ∧ F i u)) as HPF by (by apply conj_stable).
  assert (∀ A (k : bool → prog LCall A) Q (P2 : lworld → Prop) u, stable P2 → P2 u → world_ok u → (∀ v b, P2 v → world_ok v → wpl (k b) Q v) →
    wpl (Call (LClose f) k) Q u) as Hclose.
  { intros A k Q P2 u HP2 Hu Hu' Hk. assert (str_eqb name lockName = false) as Hl by (by apply String.eqb_neq).
    apply (wpl_idle P2); [done|done|done|done|intros ? ? ? Hx; simpl in Hx; by rewrite Hl in Hx|]. intros; by apply Hk. }
  apply (wpl_idle (λ u, P u ∧ F i u)); [done|done|done|done|done|]. clear w Hw Hok Hf. intros stat w [Hw Hf] Hok _.
  destruct (negb _); [apply (Hclose _ _ _ P); [done|done|done|]; intros; apply wpl_ret; auto|].
  apply (wpl_call (λ u, P u ∧ F i u)); [done|done|done|intros u [_ Hu] _; by apply Hlegal|]. clear w Hw Hf Hok.
  intros u contents w [Hu Hf] Hu' Hx Hok.
  assert (P1 w ∧ ∀ v, match contents with Some c => if maxControlBytes <? slen c then None else decode c | None => None end = Some v → G v w) as [Hw Hv].
  { destruct contents as [c|]; [|simpl in Hx; subst w; split; [auto|done]]. destruct (Hread u i c w Hu Hf Hu' Hx) as [Hw Hv]. split; [done|].
    intros v. destruct (_ <? _) eqn:El; [done|]. bools. intros Hd. apply Hv; [lia|done]. }
  clear Hx u Hu Hf Hu'. set (value := match contents with Some _ => _ | None => None end) in *. clearbody value.
  destruct value as [v|]; [|apply (Hclose _ _ _ P1); [done|done|done|]; intros; by apply wpl_ret].
  apply (Hclose _ _ _ (λ u, P1 u ∧ G v u)); [by apply conj_stable|auto|done|]. intros; by apply wpl_ret.
Qed.

Lemma asked_stable n : stable (λ w, n ∈ lw_asked w).
Proof. intros w u Hw Hu. pose proof (cm_asked _ _ (Rel_common _ _ Hu)). set_solver. Qed.

Lemma true_stable : stable (λ _, True).
Proof. done. Qed.

Lemma decode_asked asked x k v : known_text asked x → decodeRequest (substring 0 k x) = Some v → rq_Nonce v ∈ asked.
Proof.
  intros [->|[(n & t & j & Hn & Ht & ->)|(n & j & Ha & Hn & ->)]] Hv.
  - assert (substring 0 k "" = substring 0 0 (instanceText "" "")) as E by (by destruct k). rewrite E, decode_request_other in Hv; done.
  - by rewrite substring_substring, decode_request_other in Hv.
  - rewrite substring_substring in Hv. by apply decode_request_prefix in Hv as ->.
Qed.

Lemma readRequest_wpl P w : stable P → P w → world_ok w →
  wpl readRequest (λ r u, P u ∧ ∀ v, r = Ok v → rq_Nonce v ∈ lw_asked u) w.
Proof.
  intros HS Hw Hok. unfold readRequest. apply wpl_bind. eapply wpl_mono.
  - apply (readExact_wpl P P (λ _, True) (λ _ _, True) (λ v u, rq_Nonce v ∈ lw_asked u)); try done.
    + intros v. apply asked_stable.
    + intros u i c u' Hu _ Hu' [(x & Hx & ->) ->].
      assert (∀ c, read_target p (MkLfile requestName i) c u = u) as -> by (intros; unfold read_target; by destruct (decodeInstance _)).
      split; [done|]. intros v _ Hv. eapply decode_asked; [by apply (ok_text _ Hu' i)|done].
  - clear w Hw Hok. intros [v|e] w Hok Hr; (apply wpl_ret; [done|]).
    + destruct Hr as [Hw Hv]. split; [done|]. intros v'. destruct (request_ok v); [by intros [= <-]|done].
    + split; [|done]. by destruct e; try destruct Hr.
Qed.

(** ** The watch *)

Lemma watch_wpl rounds nonce w : world_ok w → wpl (watch rounds nonce) (λ _ _, True) w.
Proof.
  revert w. induction rounds as [|rounds IH]; intros w Hok; [by apply wpl_ret|]. simpl watch.
  apply (wpl_idle (λ _, True)); [done|done|done|done|by intros ? ? ? []|]. clear w Hok. intros [|] w _ Hok _; [by apply wpl_ret|].
  apply wpl_bind. unfold poll. apply wpl_bind. eapply wpl_mono; [by apply (readRequest_wpl (λ _, True))|].
  clear w Hok. intros [v|e] w Hok [_ Hv]; [|apply wpl_ret; [done|by apply IH]]. destruct (negb _) eqn:En; [apply wpl_ret; [done|by apply IH]|].
  bools. specialize (Hv v eq_refl). rewrite En in Hv. pose proof (asked_stable nonce) as HS.
  apply (wpl_call (λ u, nonce ∈ lw_asked u)); [done|done|done|intros; by left|]. intros u a w' Hu Hu' Hx Hw'.
  assert (nonce ∈ lw_asked w') as Ha. { simpl in Hx. destruct a; by subst. }
  apply wpl_ret; [done|]. destruct a; [|by apply IH..].
  apply (wpl_call (λ u, nonce ∈ lw_asked u)); [done|done|done|done|]. intros; by apply wpl_ret.
Qed.
End logic.

Lemma watch_harmless rounds nonce : only harmless (watch rounds nonce).
Proof.
  induction rounds as [|rounds IH]; simpl watch; [done|]. unfold poll, readRequest, readExact, ValidateControl. walk_only ltac:(done).
Qed.

(** ** A process with the lock *)

Section one.
Variable p : nat.
Local Notation wpo := (wpl (rely p) p).
Local Notation stay := (stable (rely p)).

Lemma rely_common w u : rely p w u → common w u.
Proof. apply ry_common. Qed.

(** Facts that hold as long as the lock is held: of the statuses, and of the two names. *)
Definition held (h : gmap string status → Prop) (w : lworld) : Prop := lw_lock w = Some p ∧ h (lw_hist w).
Lemma held_stable h : stay (held h).
Proof. intros w u [Hl Hh] Hu. destruct (ry_lock _ _ _ Hu Hl) as (? & E & _). split; [done|by rewrite E]. Qed.

Definition no_serving (h : gmap string status) : Prop := ∀ n, h !! n ≠ Some (Serving p).
Definition idle (h : gmap string status) : Prop := ∀ n s, h !! n = Some s → of_process p s = false.
Definition idle_new (n : string) (h : gmap string status) : Prop := idle h ∧ h !! n = None.
Definition only_in (n : string) (s : status) (h : gmap string status) : Prop :=
  h !! n = Some s ∧ ∀ m r, h !! m = Some r → of_process p r = true → m = n.

Lemma idle_no_serving h : idle h → no_serving h.
Proof. intros Hi n Hn. specialize (Hi n _ Hn). simpl in Hi. by rewrite Nat.eqb_refl in Hi. Qed.
Lemma only_no_serving n s h : only_in n s h → s ≠ Serving p → no_serving h.
Proof.
  intros [Hn Ho] Hs m Hm. assert (m = n) as -> by (apply (Ho m _ Hm); apply Nat.eqb_refl). congruence.
Qed.

(** Reading the publication under the lock. *)
Definition published_at (i : nat) (w : lworld) : Prop :=
  ∃ n t, lw_text w !! i = Some (instanceText n t) ∧ plain_text n ∧ plain_text t ∧ is_Some (lw_hist w !! n).

Lemma published_stable i : stay (published_at i).
Proof.
  intros w u (n & t & Hx & Hn & Ht & Hh) Hu. pose proof (ry_common _ _ _ Hu) as Hc. exists n, t. split_and!; [|done|done|by apply Hc].
  by apply (cm_text _ _ Hc).
Qed.

Lemma published_open w i : world_ok w → lw_dir w !! instanceName = Some i → published_at i w.
Proof.
  intros Hw Hi. destruct (ok_shown _ Hw i Hi) as (n & s & (j & t & Hj & Hx & Hn & Ht) & Hs & _). rewrite Hi in Hj. injection Hj as <-.
  exists n, t. by rewrite Hs.
Qed.

Definition target_is (n : string) (w : lworld) : Prop := lw_target w !! p = Some n.
Lemma target_stable n : stay (target_is n).
Proof. intros w u Hw Hu. unfold target_is. by rewrite (ry_target _ _ _ Hu). Qed.

(** [P1]: what of [P] does not depend on what the process read. *)
Lemma readInstance_wpl P P1 N w : stay P → stay P1 → stay N → (∀ u, P u → P1 u) →
  (∀ u f c, P u → P1 (read_target p f c u)) → (∀ u, P u → world_ok u → lw_dir u !! instanceName = None → N u) →
  P w → world_ok w →
  wpo readInstance (λ r u, match r with Ok v => P1 u ∧ target_is (in_Nonce v) u | Err NotExist => P u ∧ N u | Err _ => P1 u end) w.
Proof.
  intros HS HS1 HN H1 Hr Hno Hw Hok. unfold readInstance. apply wpl_bind. eapply wpl_mono.
  - apply (readExact_wpl _ _ rely_common P P1 N published_at (λ v, target_is (in_Nonce v))); try done.
    + intros i. apply published_stable.
    + intros v. apply target_stable.
    + intros u i _ Hu. by apply published_open.
    + intros u i Hu _. exact Hu.
    + intros u i c u' Hu (n & t & Hx & Hn & Ht & _) Hu' [(x & Hx' & ->) ->]. split; [by apply Hr|]. intros v Hlen Hv.
      unfold target_is, read_target. rewrite Hv. apply Z.leb_le in Hlen. rewrite Hlen. simpl. apply lookup_insert_eq.
  - clear w Hw Hok. intros [v|e] w Hok Hrd; (apply wpl_ret; [done|]); [destruct (instance_ok v); [done|apply Hrd]|done].
Qed.

Lemma held_target h w f c : held h w → held h (read_target p f c w).
Proof. intros [Hl Hh]. destruct (read_rest p f c w) as (_ & _ & _ & E4 & E5 & _). split; [by rewrite E4|by rewrite E5]. Qed.

(** Removing what is not the publication, under an assertion of the lock and the statuses. *)
Lemma remove_wpl {R} h name (k : remove_answer → prog LCall R) Q w : name = requestName ∨ name = requestTempName ∨ name = instanceTempName →
  held h w → world_ok w → (∀ a u, held h u → world_ok u → wpo (k a) Q u) → wpo (Call (LRemove name) k) Q w.
Proof.
  intros Hname Hh Hok Hk. apply (wpl_call _ _ rely_common (held h)); [apply held_stable|done|done| |].
  - intros u [Hl _] _. simpl. tauto.
  - intros u a u' [Hl Hu] _ Hx Hu'. apply Hk; [|done]. simpl in Hx.
    assert (str_eqb name instanceName = false) as En by (by destruct Hname as [E | [E | E]]; rewrite E). rewrite En in Hx. by destruct a; subst.
Qed.

Lemma cleanupTemp_wpl h name w : name = requestTempName ∨ name = instanceTempName → held h w → world_ok w →
  wpo (cleanupTemp name) (λ _, held h) w.
Proof.
  intros Hname Hh Hok. unfold cleanupTemp. apply wpl_bind.
  eapply wpl_mono; [apply (ValidateControl_wpl _ _ rely_common (held h) (λ _, True)); [apply held_stable|done..]|].
  clear w Hh Hok. intros [i|e] w Hok [Hh _].
  - apply (remove_wpl h); [tauto|done|done|]. intros. by apply wpl_ret.
  - destruct e; by apply wpl_ret.
Qed.

Lemma readInstance_held h w : held h w → world_ok w → wpo readInstance (λ _, held h) w.
Proof.
  intros Hh Hok. eapply wpl_mono; [apply (readInstance_wpl (held h) (held h) (λ _, True)); try done; try apply held_stable; intros; by apply held_target|].
  intros [v|[]] u _ Hu; by try destruct Hu.
Qed.

Lemma readRequest_held h w : held h w → world_ok w → wpo readRequest (λ _, held h) w.
Proof.
  intros Hh Hok. eapply wpl_mono; [apply (readRequest_wpl _ _ rely_common (held h)); [apply held_stable|done|done]|]. by intros r u _ [].
Qed.

Lemma discardRequest_wpl h w : held h w → world_ok w → wpo discardRequest (λ _, held h) w.
Proof.
  intros Hh Hok. unfold discardRequest. apply wpl_bind. eapply wpl_mono; [by apply readRequest_held|]. clear w Hh Hok. intros [v|e] w Hok Hh.
  - apply (remove_wpl h); [tauto|done|done|]. intros. by apply wpl_ret.
  - destruct e; by apply wpl_ret.
Qed.

Lemma removeOwnRequest_wpl nonce h w : held h w → world_ok w → wpo (removeOwnRequest nonce) (λ _, held h) w.
Proof.
  intros Hh Hok. unfold removeOwnRequest. apply wpl_bind. eapply wpl_mono; [by apply readRequest_held|]. clear w Hh Hok. intros [v|e] w Hok Hh.
  - destruct (negb _); [by apply wpl_ret|]. apply (remove_wpl h); [tauto|done|done|]. intros. by apply wpl_ret.
  - destruct e; by apply wpl_ret.
Qed.

(** Removing the publication. *)
Lemma removeInstance_wpl {R} h (k : remove_answer → prog LCall R) Q w : (∀ x, h x → no_serving x) →
  (∀ x n, h x → h (alter removed_status n x)) →
  held h w → world_ok w → (∀ a u, held h u → world_ok u → wpo (k a) Q u) → wpo (Call (LRemove instanceName) k) Q w.
Proof.
  intros Hs Ha Hh Hok Hk. apply (wpl_call _ _ rely_common (held h)); [apply held_stable|done|done| |].
  - intros u [Hl Hu] _. right; right; right. split_and!; [done|done|by apply Hs].
  - intros u a u' [Hl Hu] _ Hx Hu'. apply Hk; [|done]. simpl in Hx. destruct a; [|by subst..]. subst u'.
    destruct (shown u); (split; simpl; [done|auto]).
Qed.

Lemma idle_alter x n : idle x → idle (alter removed_status n x).
Proof.
  intros Hi m s. destruct (decide (m = n)) as [->|Hm]; [|rewrite lookup_alter_ne by done; apply Hi]. rewrite lookup_alter_eq.
  destruct (x !! n) as [r|]; [|done]. simpl. intros [= <-]. by destruct r.
Qed.
Lemma no_serving_alter x n : no_serving x → no_serving (alter removed_status n x).
Proof.
  intros Hi m. destruct (decide (m = n)) as [->|Hm]; [|rewrite lookup_alter_ne by done; apply Hi]. rewrite lookup_alter_eq.
  destruct (x !! n) as [r|]; [|done]. simpl. intros [= Hr]. by destruct r.
Qed.

Lemma discardInstance_wpl w : held idle w → world_ok w → wpo discardInstance (λ _, held idle) w.
Proof.
  intros Hh Hok. unfold discardInstance. apply wpl_bind. eapply wpl_mono; [by apply readInstance_held|]. clear w Hh Hok. intros [v|e] w Hok Hh.
  - apply (removeInstance_wpl idle); [apply idle_no_serving|apply idle_alter|done|done|]. intros. by apply wpl_ret.
  - destruct e; by apply wpl_ret.
Qed.

Lemma removeOwnInstance_wpl nonce w : held no_serving w → world_ok w → wpo (removeOwnInstance nonce) (λ _, held no_serving) w.
Proof.
  intros Hh Hok. unfold removeOwnInstance. apply wpl_bind. eapply wpl_mono; [by apply readInstance_held|]. clear w Hh Hok. intros [v|e] w Hok Hh.
  - destruct (negb _); [by apply wpl_ret|]. apply (removeInstance_wpl no_serving); [done|apply no_serving_alter|done|done|]. intros. by apply wpl_ret.
  - destruct e; by apply wpl_ret.
Qed.

Lemma discardStale_wpl w : held idle w → world_ok w → wpo discardStale (λ _, held idle) w.
Proof.
  intros Hh Hok. unfold discardStale. apply wpl_bind. eapply wpl_mono; [apply cleanupTemp_wpl; [by right|done|done]|]. clear w Hh Hok.
  intros [e|] w Hok Hh; [by apply wpl_ret|]. apply wpl_bind. eapply wpl_mono; [apply cleanupTemp_wpl; [by left|done|done]|]. clear w Hh Hok.
  intros [e|] w Hok Hh; [by apply wpl_ret|]. apply wpl_bind. eapply wpl_mono; [by apply discardInstance_wpl|]. clear w Hh Hok.
  intros [e|] w Hok Hh; [by apply wpl_ret|]. by apply discardRequest_wpl.
Qed.

(** ** Publishing an instance *)

Definition staged (n : string) (i : nat) (x : string) (w : lworld) : Prop :=
  held (idle_new n) w ∧ lw_dir w !! instanceTempName = Some i ∧ lw_maker w !! i = Some p ∧ lw_text w !! i = Some x.

Lemma staged_stable n i x : stay (staged n i x).
Proof.
  intros w u (Hh & Hd & Hm & Hx) Hu. split; [by eapply held_stable|]. destruct Hh as [Hl _]. destruct (ry_lock _ _ _ Hu Hl) as (_ & _ & _ & E).
  destruct (ry_made _ _ _ Hu i Hm) as [Hm' Ex]. split_and!; congruence.
Qed.

Definition vacant (w : lworld) : Prop := lw_lock w = Some p ∧ lw_dir w !! instanceName = None.
Lemma vacant_stable : stay vacant.
Proof. intros w u [Hl Hd] Hu. destruct (ry_lock _ _ _ Hu Hl) as (? & _ & E & _). split; congruence. Qed.

(** How writing the publication ends. *)
Definition wrote (n : string) (r : option lerror) (w : lworld) : Prop :=
  match r with None => held (only_in n (Published p)) w | Some _ => held idle w end.

Lemma unstage_wpl n i x (e : lerror) w : staged n i x w → world_ok w →
  wpo (Call (LClose (MkLfile instanceTempName i)) (λ _, Call (LRemove instanceTempName) (λ _, Ret (Some e)))) (wrote n) w.
Proof.
  intros Hw Hok. apply (wpl_idle _ _ rely_common (staged n i x)); [apply staged_stable|done|done|done|done|]. intros _ u (Hu & _) Hu' _.
  apply (remove_wpl (idle_new n)); [tauto|done|done|]. intros _ v [Hl [Hv _]] Hv'. by apply wpl_ret.
Qed.

Lemma stage_written n t i u count (good : bool) w : staged n i "" u →
  act p _ (LWrite (MkLfile instanceTempName i) (instanceText n t)) u (count, good) w →
  ∃ x, staged n i x w ∧ (good = true → count = slen (instanceText n t) → x = instanceText n t).
Proof.
  intros Hu [[[= ->] ->]|(x & k & Hx & Hk & [= ->] & ->)]; [by exists ""|]. destruct Hu as (Hh & Hd & Hm & Hx'). simpl in Hx.
  rewrite Hx in Hx'. injection Hx' as ->. exists (substring 0 k (instanceText n t)).
  match goal with |- staged _ _ _ (ask _ _ _ ?v) ∧ _ => destruct (ask_rest p (MkLfile instanceTempName i) (instanceText n t) v) as (E1 & E2 & E3 & E4 & E5 & E6) end.
  unfold staged, held. rewrite E1, E2, E3, E4, E5. split; [split_and!; try done; simpl; [apply Hh|apply Hh|apply lookup_insert_eq]|].
  intros _ Hc. unfold slen in Hc. apply substring_prefix_0. lia.
Qed.

Lemma writeInstance_wpl n t w : plain_text n → plain_text t → held (idle_new n) w → world_ok w →
  wpo (writeAtomic instanceTempName instanceName (instanceText n t))
    (wrote n) w.
Proof.
  intros Hn Ht Hh Hok.
  unfold writeAtomic. assert (held idle w) as Hi by (destruct Hh as [? [? _]]; done).
  destruct (_ <? _); [by apply wpl_ret|]. clear Hi.
  apply (wpl_call _ _ rely_common (held (idle_new n))); [apply held_stable|done|done|intros u [Hl _] _; right; by right|]. clear w Hh Hok.
  intros u a w Hu Hu' Hx Hok. assert (held idle u) as Hi by (destruct Hu as [? [? _]]; done).
  destruct a as [i| | |]; [|simpl in Hx; subst; by apply wpl_ret..]. clear Hi. cbv zeta. destruct Hx as (_ & Hi & ->).
  assert (staged n i "" (set_dir (set_text (set_maker u (<[i := p]> (lw_maker u))) (<[i := ""]> (lw_text u))) (<[instanceTempName := i]> (lw_dir u)))) as Hw.
  { split_and!; [done| | |]; simpl; apply lookup_insert_eq. }
  set (w := set_dir _ _) in *. clearbody w. clear u Hu Hu' Hi.
  apply (wpl_idle _ _ rely_common (staged n i "")); [apply staged_stable|done|done|done|done|]. clear w Hw Hok. intros [e|] w Hw Hok _; [by eapply unstage_wpl|].
  apply (wpl_call _ _ rely_common (staged n i "")); [apply staged_stable|done|done| |].
  { intros u (_ & _ & Hm & Hx) _. split_and!; [done|done|]. left. split; [done|]. by exists n, t. }
  clear w Hw Hok. intros u [count good] w Hu Hu' Hx Hok. cbn [fst snd].
  destruct (stage_written n t i u count good w Hu Hx) as (x & Hw & Ex).
  clear Hx u Hu Hu'. destruct (negb good || _) eqn:Eg; [by eapply unstage_wpl|]. bools. subst good. rewrite Ex in Hw by (congruence || done). clear x Ex.
  set (x := instanceText n t) in *.
  apply (wpl_idle _ _ rely_common (staged n i x)); [apply staged_stable|done|done|done|done|]. clear w Hw Hok. intros synced w Hw Hok _.
  destruct (negb synced); [by eapply unstage_wpl|].
  apply (wpl_idle _ _ rely_common (staged n i x)); [apply staged_stable|done|done|done|done|]. clear w Hw Hok. intros closed w Hw Hok _.
  destruct (negb closed); [by eapply unstage_wpl|].
  apply (wpl_idle _ _ rely_common (staged n i x)); [apply staged_stable|done|done|done|by intros ? ? ? []|]. clear w Hw Hok. intros info w Hw Hok [_ Ha].
  specialize (Ha ltac:(done)). destruct info as [i'| |]; [by eapply unstage_wpl| |by eapply unstage_wpl].
  apply (wpl_call _ _ rely_common (λ u, staged n i x u ∧ vacant u)); [apply conj_stable; [apply staged_stable|apply vacant_stable]| |done| |].
  { split; [done|]. by destruct Hw as ([Hl _] & _). }
  { intros u [([Hl [_ Hn']] & Hd & _ & Hx) [_ Hv]] _. right. split_and!; [done|done|done|done|]. by exists i, n, t. }
  clear w Hw Hok Ha. intros u renamed w [Hw [_ Hd]] Hu Hx Hok. destruct renamed; cbn [negb]; [|simpl in Hx; subst; by eapply unstage_wpl].
  apply wpl_ret; [done|]. destruct Hw as ([Hl [Hi Hn']] & Hd' & _ & Hx'). destruct Hx as (j & Hj & ->). rewrite Hd' in Hj. injection Hj as <-.
  destruct (ok_publish p u i n t Hu Hl Hd Hx' Hn Ht Hn') as [Es _]. rewrite str_eqb_refl. cbv zeta in *. rewrite Es. split; [done|]. simpl. split.
  - apply lookup_insert_eq.
  - intros m r. destruct (decide (m = n)) as [->|Hm]; [done|]. rewrite lookup_insert_ne by done. intros Hm' Hr. by rewrite (Hi m r Hm') in Hr.
Qed.

(** ** The life of an instance *)

Definition endpoint_ok (r : result lerror Endpoint) (w : lworld) : Prop :=
  match r with Ok e => held (only_in (ep_nonce e) (Serving p)) w | Err _ => True end.

Lemma publish_wpl pollInterval lock w : held idle w → world_ok w → wpo (publish pollInterval lock) endpoint_ok w.
Proof.
  intros Hh Hok. unfold publish. apply wpl_bind. eapply wpl_mono; [by apply discardStale_wpl|]. clear w Hh Hok.
  intros [e|] w Hok Hh; [by apply wpl_ret|].
  apply (wpl_idle _ _ rely_common (held idle)); [apply held_stable|done|done|done|by intros ? ? ? []|]. clear w Hh Hok.
  intros [raw|] w Hh Hok [_ Ha]; [|by apply wpl_ret]. destruct Ha as [_ Hnew]. cbv zeta. set (n := encodeBase64 raw) in *.
  assert (held (idle_new n) w) as Hh' by (destruct Hh; by split).
  apply (wpl_idle _ _ rely_common (held (idle_new n))); [apply held_stable|done|done|done|by intros ? ? ? []|]. clear w Hh Hh' Hok Hnew.
  intros now w Hh Hok [_ Hy]. apply wpl_bind.
  eapply wpl_mono; [apply writeInstance_wpl; [apply encodeBase64_plain|by apply time_plain|done|done]|]. clear w Hh Hok Hy.
  intros [e|] w Hok Hh; [by apply wpl_ret|]. simpl in Hh. destruct (_ || _).
  - apply wpl_bind. eapply wpl_mono; [apply removeOwnInstance_wpl; [|done]|intros; by apply wpl_ret].
    destruct Hh as [Hl Hh]. split; [done|]. by eapply only_no_serving.
  - apply (wpl_call _ _ rely_common (held (only_in n (Published p)))); [apply held_stable|done|done|by intros u [_ [Hu _]] _|].
    clear w Hh Hok. intros u a w [Hl [Hu Ho]] _ -> Hok. apply wpl_ret; [done|]. split; [done|]. simpl. split; [apply lookup_insert_eq|].
    intros m r. destruct (decide (m = n)) as [->|Hm]; [done|]. rewrite lookup_insert_ne by done. apply Ho.
Qed.

(** Closing the lock's file gives the lock back. *)
Lemma CloseLock_wpl f w : world_ok w → wpo (CloseLock f) (λ _ _, True) w.
Proof.
  intros Hok. unfold CloseLock. apply (wpl_call _ _ rely_common (λ _, True)); [done|done|done|done|]. clear w Hok. intros _ unlocked w _ _ _ Hok.
  apply (wpl_call _ _ rely_common (λ _, True)); [done|done|done|done|]. clear w Hok. intros _ closed w _ _ _ Hok. by apply wpl_ret.
Qed.

Lemma lfree_call {R A} (e : LCall A) (k : A → prog LCall R) Q w : world_ok w → (∀ u, legal p A e u) →
  (∀ a u, world_ok u → wpo (k a) Q u) → wpo (Call e k) Q w.
Proof.
  intros Hok Hl Hk. apply (wpl_call _ _ rely_common (λ _, True)); [done|done|done|auto|]. intros. by apply Hk.
Qed.

Lemma lfree_only {R} (q : prog LCall R) w : only (λ A e, ∀ u, legal p A e u) q → world_ok w → wpo q (λ _ _, True) w.
Proof.
  revert w. induction q as [r|A e k IH]; intros w Hq Hok; [by apply wpl_ret|]. destruct Hq as [He Hq]. apply lfree_call; [done|done|]. intros. by apply IH.
Qed.

Definition locking (r : result lerror lfile) (w : lworld) : Prop := match r with Ok _ => held idle w | Err _ => True end.

Lemma lockOpened_wpl created f w : world_ok w → wpo (lockOpened created f) locking w.
Proof.
  intros Hok. unfold lockOpened. cbv zeta.
  assert (∀ e u, world_ok u → wpo (Call (LClose f) (λ _, Ret (Err e))) locking u) as Hfail.
  { intros e u Hu. apply lfree_call; [done|done|]. intros. by apply wpl_ret. }
  apply wpl_bind. eapply wpl_mono; [apply (lfree_only (if created then _ else _)); [by destruct created|done]|]. clear w Hok.
  intros [e|] w Hok _; [by apply Hfail|]. apply lfree_call; [done|done|]. clear w Hok. intros [opened|] w Hok; [|by apply Hfail].
  apply wpl_bind. eapply wpl_mono; [apply (lfree_only (ValidateControl lockName)); [done|done]|]. clear w Hok. intros info w Hok _.
  destruct (negb _); [by apply Hfail|].
  apply wpl_bind. eapply wpl_mono; [apply (lfree_only (if created then _ else _)); [by destruct created|done]|]. clear w Hok.
  intros [e|] w Hok _; [by apply Hfail|].
  apply (wpl_call _ _ rely_common (λ _, True)); [done|done|done|done|]. clear w Hok. intros u a w _ Hu Hx Hok. destruct a; [|by apply Hfail..].
  destruct Hx as [Hl ->]. apply wpl_ret; [done|]. split; [done|]. intros n s Hn. destruct (of_process p s) eqn:E; [|done].
  pose proof (ok_live _ Hu n s p Hn E). congruence.
Qed.

Lemma acquireFileLock_wpl w : world_ok w → wpo acquireFileLock locking w.
Proof.
  intros Hok. unfold acquireFileLock. apply lfree_call; [done|by left|]. clear w Hok. intros [i| | |] w Hok; [by apply lockOpened_wpl| |by apply wpl_ret..].
  apply wpl_bind. eapply wpl_mono; [apply (lfree_only (ValidateControl lockName)); [done|done]|]. clear w Hok. intros [info|e] w Hok _; [|by apply wpl_ret].
  apply lfree_call; [done|done|]. clear w Hok. intros [i| | |] w Hok; [|by apply wpl_ret..].
  apply lfree_call; [done|done|]. clear w Hok. intros stat w Hok. cbv zeta. destruct (negb _); [|by apply lockOpened_wpl].
  apply lfree_call; [done|done|]. intros. by apply wpl_ret.
Qed.

Lemma validateDirectory_only : only (λ A e, ∀ u, legal p A e u) validateDirectoryEntries.
Proof. split; [done|]. intros [l|e]; [|done]. induction l as [|d l IH]; simpl; unfold ValidateControl; walk_only ltac:(done). Qed.

Lemma New_wpl pollInterval w : world_ok w → wpo (New pollInterval) endpoint_ok w.
Proof.
  intros Hok. unfold New. apply lfree_call; [done|done|]. clear w Hok. intros [e|] w Hok; [by apply wpl_ret|].
  apply wpl_bind. eapply wpl_mono; [apply (lfree_only _ _ validateDirectory_only Hok)|]. clear w Hok. intros [e|] w Hok _; [by apply wpl_ret|].
  apply lfree_call; [done|done|]. clear w Hok. intros [e|] w Hok; [by apply wpl_ret|].
  apply wpl_bind. eapply wpl_mono; [by apply acquireFileLock_wpl|]. clear w Hok. intros [f|e] w Hok Hl; [|by apply wpl_ret].
  apply wpl_bind. eapply wpl_mono; [by apply publish_wpl|]. clear w Hok Hl. intros [ep|e] w Hok Hr; [by apply wpl_ret|].
  apply wpl_bind. eapply wpl_mono; [by apply CloseLock_wpl|]. intros. by apply wpl_ret.
Qed.

Lemma finish_wpl clean e w : held (only_in (ep_nonce e) (Serving p)) w → world_ok w → wpo (finish clean e) (λ _ _, True) w.
Proof.
  intros Hh Hok. unfold finish. set (n := ep_nonce e) in *. pose proof (held_stable (only_in n (Serving p))) as HS.
  apply (wpl_call _ _ rely_common (held (only_in n (Serving p)))); [done|done|done|done|]. clear w Hh Hok. intros u a w Hh _ -> Hok.
  apply (wpl_call _ _ rely_common (held (only_in n (Serving p)))); [done|done|done|by intros v [_ [Hv _]] _|]. clear u Hh Hok.
  intros u [] w [Hl [Hn Ho]] _ -> Hok. apply wpl_bind.
  assert (held no_serving (set_hist u (<[n := if clean then Closing p else Left]> (lw_hist u)))) as Hh.
  { split; [done|]. simpl. eapply (only_no_serving n); [split; [apply lookup_insert_eq|]|by destruct clean].
    intros m r. destruct (decide (m = n)) as [->|Hm]; [done|]. rewrite lookup_insert_ne by done. apply Ho. }
  set (w := set_hist _ _) in *. clearbody w. clear u Hl Hn Ho.
  assert (∀ errs v, world_ok v → wpo (bind (CloseLock (ep_lock e)) (λ closeErr, Ret (errs ++ closeErr)%list)) (λ _ _, True) v) as Hend.
  { intros errs v Hv. apply wpl_bind. eapply wpl_mono; [by apply CloseLock_wpl|]. intros. by apply wpl_ret. }
  destruct clean; [|by apply wpl_ret; [|apply Hend]].
  apply wpl_bind. eapply wpl_mono; [by apply removeOwnRequest_wpl|]. clear w Hh Hok. intros err1 w Hok Hh.
  apply wpl_bind. eapply wpl_mono; [by apply removeOwnInstance_wpl|]. clear w Hh Hok. intros err2 w Hok Hh.
  apply wpl_ret; [done|]. by apply Hend.
Qed.

Lemma managedRuntime_wpl pollInterval w : world_ok w → wpo (managedRuntime pollInterval) (λ _ _, True) w.
Proof.
  intros Hok. unfold managedRuntime. apply wpl_bind. eapply wpl_mono; [by apply New_wpl|]. clear w Hok. intros [ep|e] w Hok Hh; [|by apply wpl_ret].
  apply (wpl_idle _ _ rely_common (held (only_in (ep_nonce ep) (Serving p)))); [apply held_stable|done|done|done|done|].
  clear w Hok Hh. intros clean w Hh Hok _. destruct clean; by apply finish_wpl.
Qed.

(** ** Requests *)

(** The publication was removed, by its own instance or by a later one. *)
Definition over (n : string) (w : lworld) : Prop := lw_hist w !! n = Some Closed ∨ lw_hist w !! n = Some Replaced.

Lemma over_stable n : stay (over n).
Proof.
  intros w u Hw Hu. pose proof (cm_over _ _ (ry_common _ _ _ Hu)) as Ho. unfold standing in Ho.
  destruct Hw as [Hw|Hw]; [left|right]; apply Ho; tauto.
Qed.

Lemma gone_over n w : target_is n w → world_ok w → lw_dir w !! instanceName = None → over n w.
Proof.
  intros Ht Hw Hd. destruct (ok_target _ Hw p n Ht) as [[s Hs] _].
  assert (¬ standing s) as Hn. { intros Hst. destruct (ok_standing _ Hw n s Hs Hst) as (i & t & Hi & _). congruence. }
  destruct s; try (destruct Hn; by split); [by left|by right].
Qed.

Lemma awaitRemoval_wpl rounds v w : target_is (in_Nonce v) w → world_ok w →
  wpo (awaitRemoval rounds v) (λ r u, r = None → target_is (in_Nonce v) u ∧ over (in_Nonce v) u) w.
Proof.
  pose proof (target_stable (in_Nonce v)) as HS. revert w. induction rounds as [|rounds IH]; intros w Hw Hok; [by apply wpl_ret|]. simpl awaitRemoval.
  apply (wpl_idle _ _ rely_common (target_is (in_Nonce v))); [done|done|done|done|done|]. clear w Hw Hok. intros [|] w Hw Hok _; [by apply wpl_ret|].
  apply wpl_bind. eapply wpl_mono.
  { apply (readInstance_wpl (target_is (in_Nonce v)) (λ _, True) (over (in_Nonce v))); try done; [apply over_stable|]. intros u. apply gone_over. }
  clear w Hw Hok. intros [current|e] w Hok Hr.
  - destruct Hr as [_ Hr]. destruct (negb _) eqn:En; [by apply wpl_ret|]. bools. rewrite En in Hr. by apply IH.
  - destruct e; by apply wpl_ret.
Qed.

Definition drafted (n : string) (i : nat) (w : lworld) : Prop := target_is n w ∧ lw_maker w !! i = Some p ∧ lw_text w !! i = Some "".
Lemma drafted_stable n i : stay (drafted n i).
Proof.
  intros w u (Ht & Hm & Hx) Hu. destruct (ry_made _ _ _ Hu i Hm) as [? E]. split_and!; [by eapply target_stable|done|congruence].
Qed.

Lemma keeps_target n A (e : LCall A) w a w' : target_is n w → act p A e w a w' →
  match e with LReadAll _ _ => False | _ => True end → target_is n w'.
Proof.
  intros Ht Hx He. unfold target_is in *.
  destruct e as [| | | | |name|name []| |f limit|f data| |f|from to|name|f|f| | |m| | |m clean| |m| |]; simpl in Hx; try done.
  all: try (by subst w'); try (by destruct Hx as [-> _]).
  - destruct a; try (by subst). destruct (str_eqb _ _); [by subst|]. by destruct Hx as (_ & _ & ->).
  - destruct Hx as [[_ ->]|(x & k & _ & _ & _ & ->)]; [done|].
    match goal with |- context [ask _ _ _ ?u] => destruct (ask_rest p f data u) as (_ & _ & _ & _ & _ & ->) end. done.
  - subst w'. destruct (str_eqb _ _); [|done]. unfold release. by case_bool_decide.
  - destruct a; [|by subst]. destruct Hx as (i & _ & ->). cbv zeta. by destruct (if str_eqb to instanceName then _ else _).
  - destruct a; try (by subst). subst w'. by destruct (if str_eqb name instanceName then _ else _).
  - destruct a; try (by subst). by destruct Hx as [_ ->].
  - subst w'. destruct (a && _); [|done]. unfold release. by case_bool_decide.
Qed.

Lemma target_call {R A} n (e : LCall A) (k : A → prog LCall R) Q w : target_is n w → world_ok w →
  match e with LReadAll _ _ => False | _ => True end → (∀ u, legal p A e u) →
  (∀ a u, target_is n u → world_ok u → wpo (k a) Q u) → wpo (Call e k) Q w.
Proof.
  intros Ht Hok He Hl Hk. apply (wpl_call _ _ rely_common (target_is n)); [apply target_stable|done|done|auto|].
  intros u a w' Hu _ Hx Hw'. apply Hk; [|done]. by eapply keeps_target.
Qed.

Lemma writeRequest_wpl n w : target_is n w → world_ok w →
  wpo (writeAtomic requestTempName requestName (requestText n)) (λ _, target_is n) w.
Proof.
  intros Ht Hok. unfold writeAtomic. destruct (_ <? _); [by apply wpl_ret|].
  apply (wpl_call _ _ rely_common (target_is n)); [apply target_stable|done|done|intros; right; by left|]. clear w Ht Hok. intros u a w Hu Hu' Hx Hok.
  destruct a as [i| | |]; [|simpl in Hx; subst; by apply wpl_ret..]. cbv zeta. destruct Hx as (_ & Hi & ->).
  set (w := set_dir _ _) in *. assert (drafted n i w) as Hw by (split_and!; [done|simpl; apply lookup_insert_eq..]). clearbody w. clear u Hu Hu' Hi.
  assert (∀ e u, target_is n u → world_ok u →
    wpo (Call (LClose (MkLfile requestTempName i)) (λ _, Call (LRemove requestTempName) (λ _, Ret (Some e : option lerror)))) (λ _, target_is n) u) as Hfail.
  { intros e u Hu Hu'. apply (target_call n); [done|done|done|done|]. intros _ v Hv Hv'.
    apply (target_call n); [done|done|done|intros; right; by left|]. intros. by apply wpl_ret. }
  apply (wpl_idle _ _ rely_common (drafted n i)); [apply drafted_stable|done|done|done|done|]. clear w Hw Hok. intros [e|] w Hw Hok _; [apply Hfail; [apply Hw|done]|].
  apply (wpl_call _ _ rely_common (drafted n i)); [apply drafted_stable|done|done| |].
  { intros u (Hu & Hm & Hx) _. split_and!; [done|done|]. right. split; [done|]. by exists n. }
  clear w Hw Hok. intros u written w (Hu & _) _ Hx Hok. assert (target_is n w) as Hw by (by eapply keeps_target). clear Hx u Hu.
  destruct (_ || _); [by apply Hfail|].
  apply (target_call n); [done|done|done|done|]. clear w Hw Hok. intros synced w Hw Hok. destruct (negb synced); [by apply Hfail|].
  apply (target_call n); [done|done|done|done|]. clear w Hw Hok. intros closed w Hw Hok. destruct (negb closed); [by apply Hfail|].
  apply (target_call n); [done|done|done|done|]. clear w Hw Hok. intros info w Hw Hok. destruct info; [by apply Hfail| |by apply Hfail].
  apply (target_call n); [done|done|done|intros; by left|]. clear w Hw Hok. intros renamed w Hw Hok. destruct (negb renamed); [by apply Hfail|by apply wpl_ret].
Qed.

Lemma ensureRequest_wpl v w : target_is (in_Nonce v) w → world_ok w → wpo (ensureRequest v) (λ _, target_is (in_Nonce v)) w.
Proof.
  intros Ht Hok. set (n := in_Nonce v) in *. pose proof (target_stable n) as HS. unfold ensureRequest. apply wpl_bind.
  eapply wpl_mono; [by apply (readRequest_wpl _ _ rely_common (target_is n))|]. clear w Ht Hok. intros [r|e] w Hok [Ht _]; [by apply wpl_ret|].
  destruct e; try by apply wpl_ret. apply wpl_bind. unfold cleanupTemp. apply wpl_bind.
  eapply wpl_mono; [by apply (ValidateControl_wpl _ _ rely_common (target_is n) (λ _, True))|]. clear w Ht Hok. intros [i|e] w Hok [Ht _].
  - apply (target_call n); [done|done|done|intros; right; by left|]. clear w Ht Hok. intros a w Ht Hok. apply wpl_ret; [done|].
    destruct a; [by apply writeRequest_wpl|by apply wpl_ret..].
  - destruct e; (apply wpl_ret; [done|]); try by apply wpl_ret. by apply writeRequest_wpl.
Qed.

(** A stop that is confirmed: the publication the process read is gone. *)
Lemma RequestStop_wpl rounds w : world_ok w → wpo (RequestStop rounds) (λ r u, r = None → ∃ n, target_is n u ∧ over n u) w.
Proof.
  intros Hok. unfold RequestStop. apply lfree_call; [done|done|]. clear w Hok. intros live w Hok. destruct (negb live); [by apply wpl_ret|].
  apply lfree_call; [done|done|]. clear w Hok. intros [e|] w Hok; [destruct e; by apply wpl_ret|].
  apply wpl_bind. eapply wpl_mono; [apply (lfree_only _ _ validateDirectory_only Hok)|]. clear w Hok. intros [e|] w Hok _; [by apply wpl_ret|].
  apply wpl_bind. eapply wpl_mono; [by apply (readInstance_wpl (λ _, True) (λ _, True) (λ _, True))|]. clear w Hok.
  intros [v|e] w Hok Hr; [|destruct e; by apply wpl_ret]. destruct Hr as [_ Hr].
  apply wpl_bind. eapply wpl_mono; [by apply ensureRequest_wpl|]. clear w Hok Hr. intros [e|] w Hok Ht; [by apply wpl_ret|].
  eapply wpl_mono; [by apply awaitRemoval_wpl|]. intros r u _ Hr Hn. exists (in_Nonce v). by apply Hr.
Qed.
End one.
End safety.
