(* ===== verification/LifecycleSystem.v ===== *)
(** * The graceful-stop channel among processes

    Any number of managed observers and of [RequestStop] callers run over one control
    directory; their calls, and those of the observers' watches, interleave, and any
    process can die anywhere. *)

From S2P Require Import Prelude GoTime GoText GoCalendar Effects Background Lifecycle LifecycleHost LifecycleSafety.

#[local] Open Scope string_scope.
#[local] Open Scope Z_scope.

Section system.
Context `{HD : !ControlDocuments, HO : !ControlDocumentsOk}.

(** [th_stop]: the thread is a [RequestStop]; its errors are [[]] for [nil]. *)
Record thread := MkThread { th_stop : bool; th_prog : prog LCall (list lerror) }.

(** Process [p] has the thread [(p, false)] and, for the watch of its endpoint,
    [(p, true)]. *)
Record lsystem := MkLsystem { ls_world : lworld; ls_threads : gmap (nat * bool) thread }.

Definition observer_thread (interval : Z) : thread := MkThread false (managedRuntime interval).
Definition stop_thread (rounds : nat) : thread := MkThread true (bind (RequestStop rounds) (λ e, Ret (option_list e))).
Definition watch_thread (rounds : nat) (nonce : string) : thread := MkThread false (bind (watch rounds nonce) (λ _, Ret [])).

Definition spawned A (e : LCall A) (rounds p : nat) (ts : gmap (nat * bool) thread) : gmap (nat * bool) thread :=
  match e with LStart n => <[(p, true) := watch_thread rounds n]> ts | _ => ts end.

(** Waiting for the watch to end. *)
Definition may A (e : LCall A) (p : nat) (ts : gmap (nat * bool) thread) : Prop :=
  match e with LStopped _ _ => ∀ th, ts !! (p, true) = Some th → ∃ r, th_prog th = Ret r | _ => True end.

Inductive lstep : lsystem → lsystem → Prop :=
| ls_run p interval w ts : ts !! (p, false) = None → ts !! (p, true) = None →
    lstep (MkLsystem w ts) (MkLsystem w (<[(p, false) := observer_thread interval]> ts))
| ls_request p rounds w ts : ts !! (p, false) = None → ts !! (p, true) = None →
    lstep (MkLsystem w ts) (MkLsystem w (<[(p, false) := stop_thread rounds]> ts))
| ls_call p b stop A (e : LCall A) k a rounds w w' ts : ts !! (p, b) = Some (MkThread stop (Call e k)) →
    act p A e w a w' → may A e p ts →
    lstep (MkLsystem w ts) (MkLsystem w' (spawned A e rounds p (<[(p, b) := MkThread stop (k a)]> ts)))
| ls_end p w ts : lstep (MkLsystem w ts) (MkLsystem (release p w) (delete (p, false) (delete (p, true) ts))).

(** ** The invariant *)

Definition rel (t : nat * bool) : lworld → lworld → Prop := if t.2 then common else rely t.1.

Lemma rel_common t w u : rel t w u → common w u.
Proof. unfold rel. destruct t.2; [done|apply ry_common]. Qed.
Lemma rel_trans t w1 w2 w3 : rel t w1 w2 → rel t w2 w3 → rel t w1 w3.
Proof. unfold rel. destruct t.2; [apply common_trans|apply lrely_trans]. Qed.

Definition post (t : nat * bool) (stop : bool) (errs : list lerror) (w : lworld) : Prop :=
  stop = true → t.2 = false → errs = [] → ∃ n, target_is t.1 n w ∧ over n w.

Lemma post_stable t stop errs : stable (rel t) (post t stop errs).
Proof.
  intros w u Hw Hu Hs Ht He. destruct (Hw Hs Ht He) as (n & Hn & Ho). unfold rel in Hu. rewrite Ht in Hu. exists n.
  split; [by eapply target_stable|by eapply over_stable].
Qed.

Definition thread_ok (w : lworld) (t : nat * bool) (th : thread) : Prop :=
  wpl (rel t) t.1 (th_prog th) (post t (th_stop th)) w ∧ (t.2 = true → only harmless (th_prog th)).

Record ls_ok (s : lsystem) : Prop := {
  lk_world : world_ok (ls_world s);
  lk_threads : ∀ t th, ls_threads s !! t = Some th → thread_ok (ls_world s) t th }.

Lemma rel_wpl t (q : prog LCall (list lerror)) stop w u : rel t w u → wpl (rel t) t.1 q (post t stop) w → wpl (rel t) t.1 q (post t stop) u.
Proof.
  intros Hu Hq. pose proof (cm_ok _ _ (rel_common _ _ _ Hu)) as Hok. destruct q as [r|A e k].
  - apply wpl_ret; [done|]. destruct Hq as [_ Hq]. by eapply post_stable.
  - destruct Hq as [_ Hq]. split; [done|]. intros v Hv. apply Hq. by eapply rel_trans.
Qed.

Lemma rel_thread t th w u : rel t w u → thread_ok w t th → thread_ok u t th.
Proof. intros Hu [Hw Hh]. split; [by eapply rel_wpl|done]. Qed.

(** What a step of one thread is to another. *)
Lemma step_rel p b t A (e : LCall A) w a w' : (p, b) ≠ t → world_ok w → legal p A e w → (b = true → harmless A e) →
  act p A e w a w' → rel t w w'.
Proof.
  intros Ht Hw Hl Hh Hx. unfold rel. destruct t as [q c]; simpl. destruct c; [by eapply step_common|].
  destruct (decide (p = q)) as [->|Hpq]; [|by eapply step_rely]. destruct b; [|done]. eapply harmless_rely; [done|done|by apply Hh|done].
Qed.

Lemma watch_thread_ok w p rounds n : world_ok w → thread_ok w (p, true) (watch_thread rounds n).
Proof.
  intros Hw. split.
  - apply wpl_bind. eapply wpl_mono; [apply (watch_wpl common); [done|done]|]. intros. by apply wpl_ret.
  - intros _. apply only_bind; [apply watch_harmless|done].
Qed.

Lemma lstep_ok s s' : lstep s s' → ls_ok s → ls_ok s'.
Proof.
  intros Hs [Hw Ht]. destruct Hs as [p interval w ts H1 H2|p rounds w ts H1 H2|p b stop A e k a rounds w w' ts Hc Hx Hm|p w ts]; simpl in *.
  - split; [done|]. intros t th. destruct (decide (t = (p, false))) as [->|Hn]; [|simpl; rewrite lookup_insert_ne by done; apply Ht].
    simpl. rewrite lookup_insert_eq. intros [= <-]. split; [|done]. eapply wpl_mono; [by apply managedRuntime_wpl|]. by intros r u _ _ ?.
  - split; [done|]. intros t th. destruct (decide (t = (p, false))) as [->|Hn]; [|simpl; rewrite lookup_insert_ne by done; apply Ht].
    simpl. rewrite lookup_insert_eq. intros [= <-]. split; [|done]. apply wpl_bind. eapply wpl_mono; [by apply RequestStop_wpl|].
    intros r u Hu Hr. apply wpl_ret; [done|]. intros _ _ He. apply Hr. by destruct r.
  - destruct (Ht _ _ Hc) as [[_ Hk] Hh]. destruct (Hk w) as [Hl Hk'].
    { unfold rel. destruct b; [by apply common_refl|by apply rely_intro; [apply common_refl|..]]. }
    pose proof (step_ok p A e w a w' Hw Hl Hx) as Hw'. split; [done|]. simpl. intros t th Hth.
    assert ((∃ n, t = (p, true) ∧ th = watch_thread rounds n) ∨ <[(p, b) := MkThread stop (k a)]> ts !! t = Some th) as [(n & -> & ->)|Hin].
    { destruct e; simpl in Hth; auto. destruct (decide (t = (p, true))) as [->|Hn]; [rewrite lookup_insert_eq in Hth; left; exists nonce; by injection Hth as <-|].
      rewrite lookup_insert_ne in Hth by done. by right. }
    + by apply watch_thread_ok.
    + destruct (decide (t = (p, b))) as [->|Hn].
      * rewrite lookup_insert_eq in Hin. injection Hin as <-. split; [by apply Hk'|]. intros Hb. by apply Hh.
      * rewrite lookup_insert_ne in Hin by done. eapply rel_thread; [|by apply Ht]. eapply step_rel; [|done|exact Hl| |done]; [done|]. intros Hb. by apply Hh.
  - split; [by apply ok_release|]. simpl. intros t th [H1 [H2 Hth]%lookup_delete_Some]%lookup_delete_Some. eapply rel_thread; [|by apply Ht].
    unfold rel. destruct t as [q []]; simpl in *; [by apply common_release|]. apply release_rely; [congruence|done].
Qed.

Definition lstart : lsystem := MkLsystem empty_world ∅.

Lemma lstart_ok : ls_ok lstart.
Proof. split; [|by intros t th]. split; simpl; intros *; by rewrite ?lookup_empty. Qed.

Lemma lsteps_ok s : rtc lstep lstart s → ls_ok s.
Proof.
  intros Hs. assert (∀ s1 s2, rtc lstep s1 s2 → ls_ok s1 → ls_ok s2) as Hall; [|eapply Hall; [done|apply lstart_ok]].
  induction 1 as [|s1 s2 s3 H1 _ IH]; [done|]. intros Hk. apply IH. by eapply lstep_ok.
Qed.

(** C21: a confirmed stop is of the instance that was asked.  Whatever observers,
    requesters and deaths do, when [RequestStop] has returned [nil] the publication that
    it read is gone: its own instance removed it while closing, or, after that instance
    had died or was abandoned, a later one; and that nonce never serves again.  An
    instance that serves has the lock, alone, and its publication is in place. *)
Theorem stop_is_confirmed s : rtc lstep lstart s →
  (∀ p, ls_threads s !! (p, false) = Some (MkThread true (Ret [])) →
     ∃ n, lw_target (ls_world s) !! p = Some n ∧
       (lw_hist (ls_world s) !! n = Some Closed ∨ lw_hist (ls_world s) !! n = Some Replaced)) ∧
  (∀ n p, lw_hist (ls_world s) !! n = Some (Serving p) → lw_lock (ls_world s) = Some p ∧ shows (ls_world s) n ∧
     ∀ m q, lw_hist (ls_world s) !! m = Some (Serving q) → m = n).
Proof.
  intros Hs. destruct (lsteps_ok s Hs) as [Hw Ht]. split.
  - intros p Hp. destruct (Ht _ _ Hp) as [[_ Hq] _]. simpl in Hq. by apply Hq.
  - intros n p Hn. assert (shows (ls_world s) n) as Hsn by (by apply (ok_standing _ Hw n _ Hn)). split_and!; [|done|].
    + apply (ok_live _ Hw n _ p Hn). apply Nat.eqb_refl.
    + intros m q Hm. apply (hist_one _ n Hw m (Serving q)); [by apply shows_nonce|exact Hm|done].
Qed.

(** C22: an instance is stopped only on a request for itself.  When the watch of an
    endpoint is about to signal that its nonce was asked to stop, a [RequestStop] that
    had read this nonce in a publication wrote a request for it: no request for another
    instance, no stale or malformed file stops it. *)
Theorem stop_was_requested s p b stop n k : rtc lstep lstart s →
  ls_threads s !! (p, b) = Some (MkThread stop (Call (LSignal n) k)) → n ∈ lw_asked (ls_world s).
Proof.
  intros Hs Hp. destruct (lsteps_ok s Hs) as [Hw Ht]. destruct (Ht _ _ Hp) as [[_ Hq] _].
  destruct (Hq (ls_world s)) as [Hl _]; [|exact Hl]. unfold rel. destruct b; [by apply common_refl|by apply rely_intro; [apply common_refl|..]].
Qed.
End system.
