(* ===== verification/LifecycleExample.v ===== *)
(** * The graceful-stop channel at work

    A concrete codec and host, on which an observer is stopped, and on which a requester
    takes the replacement of an abandoned observer for its clean close. *)

From S2P Require Import Prelude GoTime GoText GoCalendar Effects Background Lifecycle LifecycleHost LifecycleSafety LifecycleSystem.

#[local] Open Scope string_scope.
#[local] Open Scope Z_scope.

(** ** Documents *)

Fixpoint strip (head s : string) : option string :=
  match head, s with
  | EmptyString, _ => Some s
  | String a head, String b s => if Ascii.eqb a b then strip head s else None
  | String _ _, EmptyString => None
  end.

Definition quote_char : ascii := ascii_of_N 34.

(** Up to the next quote, and from behind it. *)
Fixpoint until_quote (s : string) : option (string * string) :=
  match s with
  | EmptyString => None
  | String c s => if Ascii.eqb c quote_char then Some ("", s)
      else match until_quote s with Some (a, b) => Some (String c a, b) | None => None end
  end.

Definition requestHead : string :=
  "{" ++ quoted "schema_version" ++ ":" ++ quoted requestVersion ++ "," ++ quoted "nonce" ++ ":" ++ quote.
Definition instanceHead : string :=
  "{" ++ quoted "schema_version" ++ ":" ++ quoted instanceVersion ++ "," ++ quoted "nonce" ++ ":" ++ quote.
Definition instanceMiddle : string := "," ++ quoted "started_at" ++ ":" ++ quote.
Definition ends (s : string) : bool := str_eqb s "}" || str_eqb s ("}" ++ newline).

(** Documents exactly as they are written. *)
Definition decodeRequest0 (s : string) : option requestFile :=
  match strip requestHead s with
  | Some s => match until_quote s with
      | Some (n, rest) => if ends rest then Some (MkRequest requestVersion n) else None
      | None => None
      end
  | None => None
  end.
Definition decodeInstance0 (s : string) : option instanceFile :=
  match strip instanceHead s with
  | Some s => match until_quote s with
      | Some (n, rest) => match strip instanceMiddle rest with
          | Some s => match until_quote s with
              | Some (t, rest) => if ends rest then Some (MkInstance instanceVersion n t) else None
              | None => None
              end
          | None => None
          end
      | None => None
      end
  | None => None
  end.

#[global] Instance documents0 : ControlDocuments := {|
  decodeInstance := decodeInstance0; decodeRequest := decodeRequest0; parsesTime := λ _, true |}.

Lemma strip_prefix head s k :
  strip head (substring 0 k (head ++ s)) = if (String.length head <=? k)%nat then Some (substring 0 (k - String.length head) s) else None.
Proof.
  revert k. induction head as [|a head IH]; intros k; [simpl; by rewrite Nat.sub_0_r|]. rewrite append_cons.
  destruct k as [|k]; [done|]. cbn [substring strip String.length]. rewrite Ascii.eqb_refl. rewrite IH. done.
Qed.

Lemma until_quote_prefix n s k a b : plain_text n → until_quote (substring 0 k (n ++ String quote_char s)) = Some (a, b) →
  a = n ∧ ∃ j, b = substring 0 j s.
Proof.
  intros Hn. revert k a b. induction n as [|c n IH]; intros k a b.
  - destruct k as [|k]; [done|]. rewrite append_nil. cbn [substring until_quote]. rewrite Ascii.eqb_refl. intros [= <- <-]. eauto.
  - unfold plain_text in Hn. cbn [str_forallb] in Hn. apply andb_true_iff in Hn as [Hc Hn]. destruct k as [|k]; [done|].
    rewrite append_cons. cbn [substring until_quote].
    destruct (Ascii.eqb c quote_char) eqn:E; [apply Ascii.eqb_eq in E; subst c; by vm_compute in Hc|].
    destruct (until_quote _) as [[a' b']|] eqn:Eu; [|done]. intros [= <- <-]. destruct (IH Hn k a' b' Eu) as [-> ?]. done.
Qed.

Lemma requestText_shape n : requestText n = requestHead ++ n ++ String quote_char ("}" ++ newline).
Proof. unfold requestText, quoted at 4. rewrite !append_assoc. reflexivity. Qed.
Lemma instanceText_shape n t : instanceText n t = instanceHead ++ n ++ String quote_char (instanceMiddle ++ t ++ String quote_char ("}" ++ newline)).
Proof. unfold instanceText, quoted at 4, quoted at 5. rewrite !append_assoc. reflexivity. Qed.

Lemma strip_whole head s : strip head (head ++ s) = Some s.
Proof. induction head as [|a head IH]; [done|]. rewrite append_cons. cbn [strip]. by rewrite Ascii.eqb_refl. Qed.

Lemma until_quote_whole n s : plain_text n → until_quote (n ++ String quote_char s) = Some (n, s).
Proof.
  unfold plain_text. induction n as [|c n IH]; [done|]. cbn [str_forallb]. intros [Hc Hn]%andb_true_iff. rewrite append_cons. cbn [until_quote].
  destruct (Ascii.eqb c quote_char) eqn:E; [apply Ascii.eqb_eq in E; subst c; by vm_compute in Hc|]. by rewrite IH.
Qed.

#[global] Instance documents0_ok : ControlDocumentsOk.
Proof.
  split.
  - intros n t Hn Ht. unfold decodeInstance, documents0, decodeInstance0. rewrite instanceText_shape, strip_whole, until_quote_whole by done.
    by rewrite strip_whole, until_quote_whole.
  - intros n t k v Hn Ht. unfold decodeInstance, documents0, decodeInstance0. rewrite instanceText_shape, strip_prefix. destruct (_ <=? k)%nat; [|done].
    destruct (until_quote _) as [[a b]|] eqn:E; [|done]. apply until_quote_prefix in E as [-> [j ->]]; [|done]. rewrite strip_prefix.
    destruct (_ <=? j)%nat; [|done]. destruct (until_quote _) as [[a b]|] eqn:E; [|done]. apply until_quote_prefix in E as [-> _]; [|done].
    destruct (ends b); [|done]. by intros [= <-].
  - intros n k v Hn. unfold decodeRequest, documents0, decodeRequest0. rewrite requestText_shape, strip_prefix. destruct (_ <=? k)%nat; [|done].
    destruct (until_quote _) as [[a b]|] eqn:E; [|done]. apply until_quote_prefix in E as [-> _]; [|done]. destruct (ends b); [|done]. by intros [= <-].
  - intros n t k Hn Ht. unfold decodeRequest, documents0, decodeRequest0. rewrite instanceText_shape.
    assert (strip requestHead (substring 0 k (instanceHead ++ n ++ String quote_char (instanceMiddle ++ t ++ String quote_char ("}" ++ newline)))) = None) as ->; [|done].
    do 45 (destruct k as [|k]; [reflexivity|]). reflexivity.
Qed.

(** ** A host where every call succeeds where it can *)

Definition file0 (i : nat) (x : string) : fileInfo := MkFileInfo i true false false (slen x) 1.
Definition nonce0 (p : nat) : string := "aaaaaaaaaaaaaaaaaaaaaaaaaaaaaaa" ++ String (ascii_of_nat (97 + p)) "".

(** Observers abandon their endpoint if [clean] is false. *)
Definition host0 (clean : bool) (p : nat) A (e : LCall A) : lworld → A * lworld :=
  match e in LCall T return lworld → T * lworld with
  | LEnsureDir | LOpenDir | LRestrictDir | LRestrict _ => λ w, (None, w)
  | LReadDir => λ w, (Ok (map (λ x, MkDirEntry x.1 false false) (map_to_list (lw_dir w))), w)
  | LLstat name => λ w, (if str_eqb name lockName then SFound (file0 0 "") else
      match lw_dir w !! name with Some i => SFound (file0 i (default "" (lw_text w !! i))) | None => SNotExist end, w)
  | LOpen name CreateExclusive => λ w,
      let i := size (lw_text w) in
      if str_eqb name lockName then (Opened 0, w)
      else match lw_dir w !! name, lw_text w !! i with
      | None, None => (Opened i,
          set_dir (set_text (set_maker w (<[i := p]> (lw_maker w))) (<[i := ""]> (lw_text w))) (<[name := i]> (lw_dir w)))
      | _, _ => (OpenExists, w)
      end
  | LOpen name _ => λ w, (match lw_dir w !! name with Some i => Opened i | None => OpenNotExist end, w)
  | LStat f => λ w, (Some (file0 (lf_ino f) ""), w)
  | LReadAll f limit => λ w, match lw_text w !! lf_ino f with
      | Some x => (Some (substring 0 (Z.to_nat limit) x), read_target p f (substring 0 (Z.to_nat limit) x) w)
      | None => (None, w)
      end
  | LWrite f data => λ w, match lw_text w !! lf_ino f with
      | Some x => ((slen data, true), ask p f data (set_text w (<[lf_ino f := x ++ substring 0 (String.length data) data]> (lw_text w))))
      | None => ((0, false), w)
      end
  | LSync _ => λ w, (true, w)
  | LClose f => λ w, (true, if str_eqb (lf_name f) lockName then release p w else w)
  | LUnlock f => λ w, (true, if str_eqb (lf_name f) lockName then release p w else w)
  | LRename from to => λ w, match lw_dir w !! from with
      | Some i => (true, let w := set_dir w (<[to := i]> (delete from (lw_dir w))) in
          match (if str_eqb to instanceName then shown w else None) with
          | Some n => set_hist w (<[n := Published p]> (lw_hist w))
          | None => w
          end)
      | None => (false, w)
      end
  | LRemove name => λ w, (Removed, set_dir (match (if str_eqb name instanceName then shown w else None) with
      | Some n => set_hist w (alter removed_status n (lw_hist w))
      | None => w
      end) (delete name (lw_dir w)))
  | LLock _ => λ w, match lw_lock w with None => (Locked, set_lock w (Some p)) | Some _ => (WouldBlock, w) end
  | LRandom => λ w, (if bool_decide (slen (nonce0 p) = nonceBytes ∧ lw_hist w !! encodeBase64 (nonce0 p) = None) then Some (nonce0 p) else None, w)
  | LNow => λ w, (At 0, w)
  | LStart n => λ w, (tt, set_hist w (<[n := Serving p]> (lw_hist w)))
  | LServe => λ w, (clean, w)
  | LCloseDone => λ w, (tt, set_done w ({[p]} ∪ lw_done w))
  | LStopped n clean => λ w, (tt, set_hist w (<[n := if clean then Closing p else Left]> (lw_hist w)))
  | LSelect => λ w, (if bool_decide (p ∈ lw_done w) then SelectDone else SelectTick, w)
  | LSignal _ => λ w, (tt, w)
  | LContext => λ w, (true, w)
  | LWait => λ w, (SelectTick, w)
  end.

Lemma host0_act clean p A (e : LCall A) w : act p A e w (host0 clean p A e w).1 (host0 clean p A e w).2.
Proof.
  destruct e as [| | | | |name|name []| |f limit|f data| |f|from to|name|f|f| | |n| | |n c| |n| |]; simpl; try done.
  - split; [done|]. intros Hn. apply String.eqb_neq in Hn. unfold str_eqb. rewrite Hn. by destruct (lw_dir w !! name).
  - split; [done|]. intros _. by destruct (lw_dir w !! name).
  - split; [done|]. intros _. by destruct (lw_dir w !! name).
  - destruct (str_eqb name lockName) eqn:En; [done|]. destruct (lw_dir w !! name) eqn:Ed; [done|]. by destruct (lw_text w !! _) eqn:Et.
  - destruct (lw_text w !! lf_ino f) as [x|] eqn:Ex; [|done]. simpl. eauto.
  - destruct (lw_text w !! lf_ino f) as [x|] eqn:Ex; [|by left]. right. exists x, (String.length data). done.
  - destruct (lw_dir w !! from) as [i|] eqn:Ei; [|done]. simpl. eauto.
  - by destruct (lw_lock w) eqn:El.
  - split; [done|]. case_bool_decide; done.
  - split; [done|]. case_bool_decide; done.
Qed.

(** ** Schedules *)

(** [Calls t n clean]: thread [t] makes [n] calls. *)
Inductive event := StartObserver (p : nat) | StartRequest (p : nat) | Calls (t : nat * bool) (n : nat) (clean : bool).

Definition watch_ended (p : nat) (ts : gmap (nat * bool) thread) : bool :=
  match ts !! (p, true) with Some (MkThread _ (Call _ _)) => false | _ => true end.
Definition may0 A (e : LCall A) (p : nat) (ts : gmap (nat * bool) thread) : bool :=
  match e with LStopped _ _ => watch_ended p ts | _ => true end.

Definition drive (t : nat * bool) (clean : bool) (s : lsystem) : option lsystem :=
  match ls_threads s !! t with
  | Some (MkThread stop (Call e k)) =>
      if may0 _ e t.1 (ls_threads s) then
        let r := host0 clean t.1 _ e (ls_world s) in
        Some (MkLsystem r.2 (spawned _ e 50 t.1 (<[t := MkThread stop (k r.1)]> (ls_threads s))))
      else None
  | _ => None
  end.

Fixpoint drives (t : nat * bool) (n : nat) (clean : bool) (s : lsystem) : option lsystem :=
  match n with O => Some s | S n => s ← drive t clean s; drives t n clean s end.

Definition occur (e : event) (s : lsystem) : option lsystem :=
  match e with
  | StartObserver p => match ls_threads s !! (p, false), ls_threads s !! (p, true) with
      | None, None => Some (MkLsystem (ls_world s) (<[(p, false) := observer_thread 0]> (ls_threads s))) | _, _ => None end
  | StartRequest p => match ls_threads s !! (p, false), ls_threads s !! (p, true) with
      | None, None => Some (MkLsystem (ls_world s) (<[(p, false) := stop_thread 50]> (ls_threads s))) | _, _ => None end
  | Calls t n clean => drives t n clean s
  end.
Fixpoint play (es : list event) (s : lsystem) : option lsystem :=
  match es with [] => Some s | e :: es => s ← occur e s; play es s end.

Lemma drive_step t clean s s' : drive t clean s = Some s' → lstep s s'.
Proof.
  destruct t as [p b]. unfold drive. destruct (ls_threads s !! (p, b)) as [[stop [r|A e k]]|] eqn:Et; [done| |done]. simpl.
  destruct (may0 A e p _) eqn:Em; [|done]. intros [= <-]. destruct s as [w ts]. apply ls_call; [done|apply host0_act|].
  destruct e; try done. simpl in *. unfold watch_ended in Em. intros th Hth. rewrite Hth in Em. destruct th as [stop' [r|]]; [|done]. by exists r.
Qed.

Lemma play_steps es s s' : play es s = Some s' → rtc lstep s s'.
Proof.
  revert s. induction es as [|e es IH]; intros s; simpl; [by intros [= <-]|]. intros (s1 & He & Hs)%bind_Some. etrans; [|by apply IH]. clear IH Hs.
  destruct e as [p|p|t n clean]; simpl in He.
  - destruct s as [w ts]. simpl in He. destruct (ts !! (p, false)) eqn:E1; [done|]. destruct (ts !! (p, true)) eqn:E2; [done|]. injection He as <-.
    apply rtc_once. by apply ls_run.
  - destruct s as [w ts]. simpl in He. destruct (ts !! (p, false)) eqn:E1; [done|]. destruct (ts !! (p, true)) eqn:E2; [done|]. injection He as <-.
    apply rtc_once. by apply ls_request.
  - revert s He. induction n as [|n IH]; intros s; simpl; [by intros [= <-]|]. intros (s2 & Hd & Hs)%bind_Some. eapply rtc_l; [by eapply drive_step|by apply IH].
Qed.

Definition reached (es : list event) : lsystem := default lstart (play es lstart).
Lemma reached_steps es : (if play es lstart then true else false) = true → rtc lstep lstart (reached es).
Proof. intros Hp. unfold reached. destruct (play es lstart) as [s|] eqn:E; [|done]. by eapply play_steps. Qed.

Lemma play_app es es' s : play (es ++ es') s = s' ← play es s; play es' s'.
Proof. revert s. induction es as [|e es IH]; intros s; simpl; [done|]. destruct (occur e s); simpl; [apply IH|done]. Qed.
Lemma reached_app es es' : (if play (es ++ es') lstart then true else false) = true → rtc lstep (reached es) (reached (es ++ es')).
Proof.
  unfold reached. rewrite play_app. destruct (play es lstart) as [s|]; simpl; [|done]. destruct (play es' s) as [s'|] eqn:E; [|done].
  intros _. by eapply play_steps.
Qed.

(** ** Two runs *)

(** Observer 1 serves, process 2 asks it to stop. *)
Definition asked_run : list event :=
  [StartObserver 1; Calls (1%nat, false) 22 true; StartRequest 2; Calls (2%nat, false) 18 true].

(** Its watch finds the request. *)
Definition signal_run : list event := asked_run ++ [Calls (1%nat, true) 7 true].
(** It closes, and the requester sees its publication gone. *)
Definition closed_run : list event := signal_run ++ [Calls (1%nat, true) 1 true; Calls (1%nat, false) 12 true; Calls (2%nat, false) 2 true].

(** Or it is abandoned; observer 3 starts, and the requester looks between its removal of
    the stale publication and the new one. *)
Definition left_run : list event := asked_run ++ [Calls (1%nat, false) 2 false; Calls (1%nat, true) 1 false; Calls (1%nat, false) 3 false].
Definition replaced_run : list event := left_run ++ [StartObserver 3; Calls (3%nat, false) 18 true; Calls (2%nat, false) 2 true].

Definition first_nonce : string := encodeBase64 (nonce0 1).

Lemma stop_is_confirmed_witness :
  ∃ n, lw_target (ls_world (reached closed_run)) !! 2%nat = Some n ∧
    (lw_hist (ls_world (reached closed_run)) !! n = Some Closed ∨ lw_hist (ls_world (reached closed_run)) !! n = Some Replaced).
Proof.
  destruct (stop_is_confirmed (reached closed_run)) as [H _]; [apply reached_steps; vm_compute; reflexivity|].
  apply H. vm_compute. reflexivity.
Defined.

Lemma stop_was_requested_witness :
  match ls_threads (reached signal_run) !! (1%nat, true) with
  | Some (MkThread _ (Call (LSignal n) _)) => n = first_nonce
  | _ => False
  end ∧ first_nonce ∈ lw_asked (ls_world (reached signal_run)).
Proof.
  assert (rtc lstep lstart (reached signal_run)) as Hs by (apply reached_steps; vm_compute; reflexivity).
  assert (∃ k, ls_threads (reached signal_run) !! (1%nat, true) = Some (MkThread false (Call (LSignal first_nonce) k))) as [k Hk].
  { eexists. vm_compute. reflexivity. }
  split; [rewrite Hk; reflexivity|]. exact (stop_was_requested (reached signal_run) 1 true false first_nonce k Hs Hk).
Defined.

(** C23: the replacement of an abandoned instance can be taken for its clean close.  Here
    an observer is asked to stop, its runtime shuts down uncleanly and abandons the
    endpoint, so that its publication is left; the next observer removes that publication
    before it writes its own, and the requester, polling in between, finds none and
    returns [nil], although the instance never closed. *)
Theorem abandoned_is_confirmed :
  rtc lstep lstart (reached left_run) ∧ rtc lstep (reached left_run) (reached replaced_run) ∧
  ls_threads (reached left_run) !! (1%nat, false) = Some (MkThread false (Ret [])) ∧
  lw_hist (ls_world (reached left_run)) !! first_nonce = Some Left ∧ shown (ls_world (reached left_run)) = Some first_nonce ∧
  ls_threads (reached replaced_run) !! (2%nat, false) = Some (MkThread true (Ret [])) ∧
  lw_target (ls_world (reached replaced_run)) !! 2%nat = Some first_nonce ∧
  lw_hist (ls_world (reached replaced_run)) !! first_nonce = Some Replaced.
Proof.
  split; [apply reached_steps; vm_compute; reflexivity|]. split; [apply reached_app; vm_compute; reflexivity|].
  vm_compute. repeat split; reflexivity.
Qed.
