(* ===== verification/ConnectedProfile.v ===== *)
(** * The installed configuration of the connected workers

    [internal/connectedprofile/profile.go]: its validation, with the public addresses it
    accepts, and its canonical JSON.  Documents of this family are fixed sequences of
    literals, strings, numbers and lists of strings, so that one renderer and one reader
    serve all of them. *)

From S2P Require Import Prelude GoText.

#[local] Open Scope string_scope.
#[local] Open Scope Z_scope.

(** ** Canonical documents *)

Definition dquote : ascii := ascii_of_N 34.
Definition in_quotes (s : string) : string := String dquote (s ++ String dquote "").

Inductive token := TLit (s : string) | TStr | TNum (bits : Z) | TStrs.
Inductive content := CStr (s : string) | CNum (n : Z) | CStrs (l : list string).

(** [["a","b"]] after the opening bracket. *)
Fixpoint strs_text (l : list string) : string :=
  match l with
  | [] => "]"
  | [s] => in_quotes s ++ "]"
  | s :: l => in_quotes s ++ "," ++ strs_text l
  end.

Fixpoint render (ts : list token) (vs : list content) : string :=
  match ts, vs with
  | TLit s :: ts, _ => s ++ render ts vs
  | TStr :: ts, CStr s :: vs => in_quotes s ++ render ts vs
  | TNum _ :: ts, CNum n :: vs => FormatUint n ++ render ts vs
  | TStrs :: ts, CStrs l :: vs => "[" ++ strs_text l ++ render ts vs
  | _, _ => ""
  end.

Fixpoint skip (head s : string) : option string :=
  match head, s with
  | EmptyString, _ => Some s
  | String a head, String b s => if Ascii.eqb a b then skip head s else None
  | String _ _, EmptyString => None
  end.

(** Up to a character of the class, which stays. *)
Fixpoint upto (p : ascii → bool) (s : string) : string * string :=
  match s with
  | EmptyString => ("", "")
  | String c t => if p c then ("", s) else let '(a, b) := upto p t in (String c a, b)
  end.

Definition scan_str (s : string) : option (string * string) :=
  match skip (String dquote "") s with
  | Some s => let '(a, b) := upto (Ascii.eqb dquote) s in
      match skip (String dquote "") b with Some b => Some (a, b) | None => None end
  | None => None
  end.

Fixpoint scan_strs (fuel : nat) (s : string) : option (list string * string) :=
  match fuel with
  | O => None
  | S fuel =>
      match scan_str s with
      | None => None
      | Some (a, String c s) =>
          if Ascii.eqb c "]" then Some ([a], s)
          else if Ascii.eqb c "," then
            match scan_strs fuel s with Some (l, s) => Some (a :: l, s) | None => None end
          else None
      | Some (_, EmptyString) => None
      end
  end.

Definition is_digit (c : ascii) : bool := between 48 57 c.

Fixpoint scan (ts : list token) (s : string) : option (list content) :=
  match ts with
  | [] => if str_eqb s "" then Some [] else None
  | TLit l :: ts => match skip l s with Some s => scan ts s | None => None end
  | TStr :: ts =>
      match scan_str s with
      | Some (a, s) => match scan ts s with Some vs => Some (CStr a :: vs) | None => None end
      | None => None
      end
  | TNum bits :: ts =>
      let '(a, s) := upto (λ c, negb (is_digit c)) s in
      match ParseUint a bits with
      | Some n => match scan ts s with Some vs => Some (CNum n :: vs) | None => None end
      | None => None
      end
  | TStrs :: ts =>
      match skip "[" s with
      | Some s =>
          match scan_strs (String.length s) s with
          | Some (l, s) => match scan ts s with Some vs => Some (CStrs l :: vs) | None => None end
          | None => None
          end
      | None => None
      end
  end.

(** ** Reading back what was rendered *)

Definition unquoted (s : string) : Prop := str_forallb (λ c, negb (Ascii.eqb dquote c)) s = true.

Definition fits (t : token) (v : content) : Prop :=
  match t, v with
  | TStr, CStr s => unquoted s
  | TNum bits, CNum n => 0 ≤ n ≤ 2 ^ bits - 1
  | TStrs, CStrs l => l ≠ [] ∧ Forall unquoted l
  | _, _ => False
  end.

Fixpoint fit (ts : list token) (vs : list content) : Prop :=
  match ts, vs with
  | [], [] => True
  | TLit _ :: ts, _ => fit ts vs
  | t :: ts, v :: vs => fits t v ∧ fit ts vs
  | _, _ => False
  end.

(** A number is followed by a literal that does not begin with a digit. *)
Fixpoint separated (ts : list token) : bool :=
  match ts with
  | TNum _ :: ((TLit (String c _) :: _) as ts) => negb (is_digit c) && separated ts
  | TNum _ :: _ => false
  | _ :: ts => separated ts
  | [] => true
  end.

Lemma skip_app l s : skip l (l ++ s) = Some s.
Proof. induction l as [|c l IH]; [done|]. rewrite append_cons. cbn [skip]. by rewrite Ascii.eqb_refl. Qed.

Lemma upto_app p a c b : str_forallb (λ c, negb (p c)) a = true → p c = true → upto p (a ++ String c b) = (a, String c b).
Proof.
  intros Ha Hc. induction a as [|d a IH]; [simpl; by rewrite Hc|]. cbn [str_forallb] in Ha. apply andb_true_iff in Ha as [Hd Ha].
  rewrite append_cons. cbn [upto]. apply negb_true_iff in Hd. by rewrite Hd, (IH Ha).
Qed.

Lemma scan_quotes s rest : unquoted s → scan_str (in_quotes s ++ rest) = Some (s, rest).
Proof.
  intros Hs. unfold scan_str, in_quotes. rewrite append_cons, append_assoc. cbn [skip]. rewrite Ascii.eqb_refl.
  rewrite append_cons, append_nil, upto_app; [|done|apply Ascii.eqb_refl]. cbn [skip]. by rewrite Ascii.eqb_refl.
Qed.

Lemma scan_strs_text l rest fuel : l ≠ [] → Forall unquoted l → (length l ≤ fuel)%nat → scan_strs fuel (strs_text l ++ rest) = Some (l, rest).
Proof.
  intros Hl Hu. revert fuel. induction Hu as [|s l Hs Hu IH]; intros fuel Hf; [done|]. destruct fuel as [|fuel]; [simpl in Hf; lia|].
  destruct l as [|s' l].
  - cbn [strs_text scan_strs]. rewrite append_assoc, scan_quotes by done. done.
  - change (strs_text (s :: s' :: l)) with (in_quotes s ++ "," ++ strs_text (s' :: l)). cbn [scan_strs]. rewrite append_assoc, scan_quotes by done.
    rewrite append_assoc, append_cons, append_nil. change (Ascii.eqb "," "]") with false. change (Ascii.eqb "," ",") with true. cbv iota.
    rewrite IH; [done|done|simpl in *; lia].
Qed.

Lemma strs_text_length l : l ≠ [] → (length l ≤ String.length (strs_text l))%nat.
Proof.
  assert (∀ s t, String.length (s ++ t) = (String.length s + String.length t)%nat) as Hap.
  { intros s t. induction s as [|c s IH]; [done|]. rewrite append_cons. simpl. by rewrite IH. }
  induction l as [|s [|s' l] IH]; intros Hl; [done| |].
  - simpl. rewrite Hap. simpl. lia.
  - change (strs_text (s :: s' :: l)) with (in_quotes s ++ "," ++ strs_text (s' :: l)). rewrite !Hap. specialize (IH ltac:(done)). simpl in *. lia.
Qed.

Lemma FormatUint_no_end n : str_forallb (λ c, negb (negb (is_digit c))) (FormatUint n) = true.
Proof. eapply str_forallb_mono; [|apply FormatUint_digits]. intros c Hc. by rewrite negb_involutive. Qed.

(** A rendered document is read back. *)
Lemma scan_render ts vs : separated ts = true → fit ts vs → scan ts (render ts vs) = Some vs.
Proof.
  revert vs. induction ts as [|t ts IH]; intros vs Hs Hf; [by destruct vs|].
  destruct t as [l| |bits|].
  - cbn [render scan]. rewrite skip_app. apply IH; [done|]. by destruct vs.
  - destruct vs as [|[s|n|l] vs]; try done; try (by destruct Hf). destruct Hf as [Hv Hf]. cbn [render scan]. rewrite scan_quotes by done.
    by rewrite IH.
  - destruct vs as [|[s|n|l] vs]; try done; try (by destruct Hf). destruct Hf as [Hv Hf].
    destruct ts as [|[l| | |] ts]; try done. destruct l as [|c l]; [done|]. cbn [separated] in Hs. apply andb_true_iff in Hs as [Hc Hs].
    cbn [scan]. change (render (TNum bits :: TLit (String c l) :: ts) (CNum n :: vs)) with (FormatUint n ++ (String c l ++ render ts vs)).
    rewrite append_cons, upto_app; [|apply FormatUint_no_end|done]. rewrite ParseUint_FormatUint by done.
    assert (scan (TLit (String c l) :: ts) (String c (l ++ render ts vs)) = Some vs) as E by (by apply (IH vs)).
    cbn [scan] in E. by rewrite E.
  - destruct vs as [|[s|n|l] vs]; try done; try (by destruct Hf). destruct Hf as [[Hl Hv] Hf]. cbn [render scan]. rewrite skip_app.
    rewrite scan_strs_text; [|done|done|].
    + by rewrite IH.
    + etrans; [by apply strs_text_length|]. clear. induction (strs_text l) as [|c s IH]; [simpl; lia|]. rewrite append_cons. simpl. lia.
Qed.

Lemma upto_none p s : str_forallb (λ c, negb (p c)) (upto p s).1 = true.
Proof.
  induction s as [|c s IH]; [done|]. cbn [upto]. destruct (p c) eqn:E; [done|]. destruct (upto p s) as [a b]. simpl in *. by rewrite E.
Qed.

Lemma scan_str_unquoted s a rest : scan_str s = Some (a, rest) → unquoted a.
Proof.
  unfold scan_str. destruct (skip _ s) as [t|]; [|done]. pose proof (upto_none (Ascii.eqb dquote) t) as Hu. destruct (upto _ t) as [h b].
  destruct (skip _ b); [|done]. intros [= <- _]. exact Hu.
Qed.

Lemma scan_strs_unquoted fuel s l rest : scan_strs fuel s = Some (l, rest) → l ≠ [] ∧ Forall unquoted l.
Proof.
  revert s l rest. induction fuel as [|fuel IH]; intros s l rest; cbn [scan_strs]; [done|].
  destruct (scan_str s) as [[a [|c t]]|] eqn:E; [done| |done]. apply scan_str_unquoted in E.
  destruct (Ascii.eqb c "]"); [intros [= <- _]; auto|]. destruct (Ascii.eqb c ","); [|done].
  destruct (scan_strs fuel t) as [[l' t']|] eqn:E'; [|done]. intros [= <- _]. apply IH in E' as [_ Hl]. auto.
Qed.

(** What is read is in the range of its token. *)
Lemma scan_fit ts s vs : scan ts s = Some vs → fit ts vs.
Proof.
  revert s vs. induction ts as [|t ts IH]; intros s vs; [cbn [scan]; destruct (str_eqb s ""); [by intros [= <-]|done]|]. destruct t as [l| |bits|]; cbn [scan].
  - destruct (skip l s); [|done]. intros Hf%IH. by destruct vs.
  - destruct (scan_str s) as [[a t]|] eqn:E; [|done]. destruct (scan ts t) eqn:E'; [|done]. intros [= <-].
    split; [by apply scan_str_unquoted in E|by eapply IH].
  - destruct (upto _ s) as [a t]. destruct (ParseUint a bits) eqn:E; [|done]. destruct (scan ts t) eqn:E'; [|done]. intros [= <-].
    split; [by apply ParseUint_range in E|by eapply IH].
  - destruct (skip "[" s) as [t|]; [|done]. destruct (scan_strs _ t) as [[l u]|] eqn:E; [|done]. destruct (scan ts u) eqn:E'; [|done].
    intros [= <-]. split; [by apply scan_strs_unquoted in E|by eapply IH].
Qed.

(** ** Addresses ([net/netip]) *)

Inductive Addr := V4 (bits : Z) | V6 (bits : Z).

Fixpoint split_at (sep : ascii) (s : string) : list string :=
  match s with
  | EmptyString => [""]
  | String c s =>
      if Ascii.eqb c sep then "" :: split_at sep s
      else match split_at sep s with h :: t => String c h :: t | [] => [String c ""] end
  end.

Fixpoint join (sep : string) (l : list string) : string :=
  match l with [] => "" | [s] => s | s :: l => s ++ sep ++ join sep l end.

Definition v4_text (a : Z) : string :=
  join "." (map (λ k, FormatUint (Z.land (Z.shiftr a k) 255)) [24; 16; 8; 0]).

Definition parse_v4 (s : string) : option Z :=
  match map (λ p, ParseUint p 8) (split_at "." s) with
  | [Some a; Some b; Some c; Some d] => Some (Z.shiftl a 24 + Z.shiftl b 16 + Z.shiftl c 8 + d)
  | _ => None
  end.

Definition hex_char (v : Z) : ascii := ascii_of_N (Z.to_N (if v <? 10 then 48 + v else 87 + v)).
(** A group of sixteen bits without leading zeros. *)
Definition group_text (v : Z) : string :=
  if v <? 16 then String (hex_char v) ""
  else if v <? 256 then String (hex_char (v / 16)) (String (hex_char (v mod 16)) "")
  else if v <? 4096 then String (hex_char (v / 256)) (String (hex_char (v / 16 mod 16)) (String (hex_char (v mod 16)) ""))
  else String (hex_char (v / 4096)) (String (hex_char (v / 256 mod 16)) (String (hex_char (v / 16 mod 16)) (String (hex_char (v mod 16)) ""))).

Definition hex_value (c : ascii) : option Z :=
  if between 48 57 c then Some (byte_val c - 48) else if between 97 102 c then Some (byte_val c - 87) else None.
Fixpoint group_value (acc : Z) (s : string) : option Z :=
  match s with
  | EmptyString => Some acc
  | String c s => match hex_value c with Some v => group_value (16 * acc + v) s | None => None end
  end.
Definition parse_group (s : string) : option Z :=
  if (slen s =? 0) || (4 <? slen s) then None else group_value 0 s.

Fixpoint zero_run (l : list Z) : nat := match l with 0 :: l => S (zero_run l) | _ => O end.
(** The first longest run of at least two zero groups: where, and how long. *)
Fixpoint longest_run (i : nat) (l : list Z) (best : nat * nat) : nat * nat :=
  match l with
  | [] => best
  | _ :: t => let n := zero_run l in longest_run (S i) t (if (2 <=? n)%nat && (best.2 <? n)%nat then (i, n) else best)
  end.

Definition groups_of (a : Z) : list Z := map (λ k, Z.land (Z.shiftr a k) 65535) [112; 96; 80; 64; 48; 32; 16; 0].
Definition v6_text (a : Z) : string :=
  let g := groups_of a in
  let '(i, n) := longest_run 0 g (O, O) in
  if (n =? 0)%nat then join ":" (map group_text g)
  else join ":" (map group_text (take i g)) ++ "::" ++ join ":" (map group_text (drop (i + n) g)).

(** The text around the first [::]. *)
Fixpoint split_gap (s : string) : option (string * string) :=
  match s with
  | String a (String b t as s') =>
      if Ascii.eqb a ":" && Ascii.eqb b ":" then Some ("", t)
      else match split_gap s' with Some (h, t) => Some (String a h, t) | None => None end
  | _ => None
  end.

Fixpoint all_some {A} (l : list (option A)) : option (list A) :=
  match l with
  | [] => Some []
  | Some a :: l => match all_some l with Some l => Some (a :: l) | None => None end
  | None :: _ => None
  end.

Definition parse_groups (s : string) : option (list Z) :=
  if str_eqb s "" then Some [] else all_some (map parse_group (split_at ":" s)).

Definition of_groups (g : list Z) : Z := fold_left (λ acc v, acc * 65536 + v) g 0.

Definition parse_v6 (s : string) : option Z :=
  match split_gap s with
  | None => match parse_groups s with Some g => if (length g =? 8)%nat then Some (of_groups g) else None | None => None end
  | Some (h, t) =>
      match parse_groups h, parse_groups t with
      | Some g, Some g' =>
          if (length g + length g' <? 8)%nat then Some (of_groups (g ++ repeat 0 (8 - length g - length g') ++ g')) else None
      | _, _ => None
      end
  end.

Definition addr_text (a : Addr) : string := match a with V4 b => v4_text b | V6 b => v6_text b end.

(** A text that is the canonical one of an address: what [ParseAddr] reads otherwise,
    zones included, is not what [String] gives back. *)
Definition canonical_addr (s : string) : option Addr :=
  match (match parse_v4 s with Some b => Some (V4 b) | None => option_map V6 (parse_v6 s) end) with
  | Some a => if str_eqb (addr_text a) s then Some a else None
  | None => None
  end.

(** The first [len] of [width] bits. *)
Definition in_prefix (width : Z) (p : Z * Z) (a : Z) : bool :=
  Z.shiftr a (width - p.2) =? Z.shiftr p.1 (width - p.2).

Definition ip4 (a b c d : Z) : Z := Z.shiftl a 24 + Z.shiftl b 16 + Z.shiftl c 8 + d.
Definition ip6 (g : list Z) : Z := Z.shiftl (of_groups g) (16 * (8 - Z.of_nat (length g))).

Definition IsPrivate (a : Addr) : bool :=
  match a with
  | V4 b => existsb (λ p, in_prefix 32 p b) [(ip4 10 0 0 0, 8); (ip4 172 16 0 0, 12); (ip4 192 168 0 0, 16)]
  | V6 b => in_prefix 128 (ip6 [64512], 7) b
  end.
Definition IsGlobalUnicast (a : Addr) : bool :=
  match a with
  | V4 b => negb ((b =? 0) || (b =? ip4 255 255 255 255) || in_prefix 32 (ip4 127 0 0 0, 8) b
                  || in_prefix 32 (ip4 224 0 0 0, 4) b || in_prefix 32 (ip4 169 254 0 0, 16) b)
  | V6 b => negb ((b =? 0) || (b =? 1) || in_prefix 128 (ip6 [65280], 8) b || in_prefix 128 (ip6 [65152], 10) b)
  end.
Definition Is4In6 (a : Addr) : bool := match a with V4 _ => false | V6 b => Z.shiftr b 32 =? 65535 end.

Definition special4 : list (Z * Z) :=
  [(ip4 0 0 0 0, 8); (ip4 100 64 0 0, 10); (ip4 127 0 0 0, 8); (ip4 169 254 0 0, 16); (ip4 192 0 0 0, 24); (ip4 192 0 2 0, 24);
   (ip4 192 88 99 0, 24); (ip4 198 18 0 0, 15); (ip4 198 51 100 0, 24); (ip4 203 0 113 0, 24); (ip4 240 0 0 0, 4)].
Definition special6 : list (Z * Z) :=
  [(0, 96); (ip6 [100; 65435], 96); (ip6 [100; 65435; 1], 48); (ip6 [256], 64); (ip6 [8193], 23); (ip6 [8193; 3512], 32);
   (ip6 [8194], 16); (ip6 [16383], 20)].

Definition PublicAddress (a : Addr) : bool :=
  if Is4In6 a || negb (IsGlobalUnicast a) || IsPrivate a then false
  else match a with
  | V4 b => negb (existsb (λ p, in_prefix 32 p b) special4)
  | V6 b => negb (existsb (λ p, in_prefix 128 p b) special6) && in_prefix 128 (ip6 [8192], 3) b
  end.

Definition valid_address (raw : string) : bool :=
  match canonical_addr raw with Some a => PublicAddress a | None => false end.

Example addresses :
  map valid_address ["1.1.1.1"; "8.8.8.8"; "10.0.0.1"; "01.1.1.1"; "192.0.2.1"; "256.1.1.1"; "1.1.1"; "2606:4700:4700::1111";
    "2606:4700:4700:0:0:0:0:1111"; "2001:db8::1"; "2606:4700::1:0:0:1"; "::1"; "fe80::1"; "2606:4700:0:0:1::"; "2606:4700::1%eth0"; ""]
  = [true; true; false; false; false; false; false; true; false; false; true; false; false; true; false; false].
Proof. vm_compute. reflexivity. Qed.

(** ** The configuration *)

Definition ProfileVersion : string := "observer-connected-install/v1".
Definition Hostname : string := "app.braidenmiller.com".
Definition MaxConfigBytes : Z := 4096.
Definition MaxUint32 : Z := 2 ^ 32 - 1.

Record Config := MkConfig {
  pc_Version : string; pc_State : string; pc_ServerID : string; pc_ConnectorID : string;
  pc_CollectorUID : Z; pc_UploaderUID : Z; pc_UploaderGID : Z; pc_SharedGID : Z;
  pc_ArtifactSHA256 : string; pc_PolicyGeneration : Z; pc_Addresses : list string }.

#[global] Instance Config_eq_dec : EqDecision Config.
Proof. solve_decision. Defined.

Definition serverPattern : string → bool := match_pattern "srv_" is_lower_hex 32.
Definition connectorPattern : string → bool := match_pattern "agent_" is_lower_hex 32.
Definition digestPattern (s : string) : bool := (slen s =? 64) && str_forallb is_lower_hex s.

(** Sorted as [slices.IsSorted] has it, and no address twice. *)
Fixpoint addresses_ok (previous : option string) (l : list string) : bool :=
  match l with
  | [] => true
  | raw :: l =>
      valid_address raw && match previous with Some p => match String.compare p raw with Lt => true | _ => false end | None => true end
      && addresses_ok (Some raw) l
  end.

Definition Config_Validate (c : Config) : bool :=
  negb ((pc_CollectorUID c =? MaxUint32) || (pc_UploaderUID c =? MaxUint32) || (pc_UploaderGID c =? MaxUint32) || (pc_SharedGID c =? MaxUint32))
  && str_eqb (pc_Version c) ProfileVersion && str_eqb (pc_State c) "INSTALLED_READY"
  && serverPattern (pc_ServerID c) && connectorPattern (pc_ConnectorID c)
  && negb ((pc_CollectorUID c =? 0) || (pc_UploaderUID c =? 0) || (pc_UploaderGID c =? 0) || (pc_SharedGID c =? 0)
           || (pc_SharedGID c =? pc_UploaderGID c) || (pc_CollectorUID c =? pc_UploaderUID c))
  && digestPattern (pc_ArtifactSHA256 c) && negb (pc_PolicyGeneration c =? 0)
  && negb (length (pc_Addresses c) =? 0)%nat && (length (pc_Addresses c) <=? 8)%nat
  && addresses_ok None (pc_Addresses c).

Definition field (name : string) : string := in_quotes name ++ ":".

Definition config_tokens : list token :=
  [TLit ("{" ++ field "version"); TStr; TLit ("," ++ field "state"); TStr; TLit ("," ++ field "server_id"); TStr;
   TLit ("," ++ field "connector_id"); TStr; TLit ("," ++ field "collector_uid"); TNum 32; TLit ("," ++ field "uploader_uid"); TNum 32;
   TLit ("," ++ field "uploader_gid"); TNum 32; TLit ("," ++ field "shared_gid"); TNum 32; TLit ("," ++ field "artifact_sha256"); TStr;
   TLit ("," ++ field "policy_generation"); TNum 64; TLit ("," ++ field "addresses"); TStrs; TLit "}"].

Definition config_contents (c : Config) : list content :=
  [CStr (pc_Version c); CStr (pc_State c); CStr (pc_ServerID c); CStr (pc_ConnectorID c); CNum (pc_CollectorUID c); CNum (pc_UploaderUID c);
   CNum (pc_UploaderGID c); CNum (pc_SharedGID c); CStr (pc_ArtifactSHA256 c); CNum (pc_PolicyGeneration c); CStrs (pc_Addresses c)].

Definition config_of (vs : list content) : option (Config * list content) :=
  match vs with
  | CStr version :: CStr state :: CStr server :: CStr connector :: CNum collector :: CNum uploader :: CNum group :: CNum shared ::
    CStr artifact :: CNum generation :: CStrs addresses :: vs =>
      Some (MkConfig version state server connector collector uploader group shared artifact generation addresses, vs)
  | _ => None
  end.

(** [Encode]. *)
Definition EncodeConfig (c : Config) : option string :=
  if Config_Validate c then Some (render config_tokens (config_contents c)) else None.

(** [Decode]: reading what is not canonical does not give the same bytes again. *)
Definition DecodeConfig (data : string) : option Config :=
  if (slen data =? 0) || (MaxConfigBytes <? slen data) then None
  else match scan config_tokens data with
  | Some vs =>
      match config_of vs with
      | Some (c, []) => match EncodeConfig c with Some b => if str_eqb b data then Some c else None | None => None end
      | _ => None
      end
  | None => None
  end.

(** The machine integers of the fields. *)
Definition Config_typed (c : Config) : Prop :=
  0 ≤ pc_CollectorUID c ≤ 2 ^ 32 - 1 ∧ 0 ≤ pc_UploaderUID c ≤ 2 ^ 32 - 1 ∧ 0 ≤ pc_UploaderGID c ≤ 2 ^ 32 - 1
  ∧ 0 ≤ pc_SharedGID c ≤ 2 ^ 32 - 1 ∧ 0 ≤ pc_PolicyGeneration c ≤ 2 ^ 64 - 1.

(** ** Valid configurations round-trip *)

Lemma hex_unquoted s : str_forallb is_lower_hex s = true → unquoted s.
Proof.
  apply str_forallb_mono. intros c Hc. apply negb_true_iff, Ascii.eqb_neq. intros <-. by vm_compute in Hc.
Qed.

Lemma pattern_unquoted pre n s : unquoted pre → match_pattern pre is_lower_hex n s = true → unquoted s.
Proof.
  intros Hp (rest & -> & _ & Hr)%match_pattern_spec. unfold unquoted. rewrite str_forallb_append. apply hex_unquoted in Hr. by rewrite Hp, Hr.
Qed.

(** Texts of addresses. *)
Definition is_addr_char (c : ascii) : bool := is_lower_hex c || Ascii.eqb c "." || Ascii.eqb c ":".

Lemma addr_unquoted s : str_forallb is_addr_char s = true → unquoted s.
Proof.
  apply str_forallb_mono. intros c Hc. apply negb_true_iff, Ascii.eqb_neq. intros <-. by vm_compute in Hc.
Qed.

Lemma join_chars p sep l : str_forallb p sep = true → Forall (λ s, str_forallb p s = true) l → str_forallb p (join sep l) = true.
Proof.
  intros Hs. induction 1 as [|s l Hl _ IH]; [done|]. destruct l as [|s' l]; [done|].
  change (join sep (s :: s' :: l)) with (s ++ sep ++ join sep (s' :: l)). by rewrite !str_forallb_append, Hl, Hs, IH.
Qed.

Lemma group_chars v : 0 ≤ v < 65536 → str_forallb is_addr_char (group_text v) = true.
Proof.
  intros Hv. assert (∀ d, 0 ≤ d < 16 → is_addr_char (hex_char d) = true) as Hd.
  { intros d Hd. assert (forallb (λ k, is_addr_char (hex_char (Z.of_nat k))) (seq 0 16) = true) as Hall by (vm_compute; reflexivity).
    rewrite forallb_forall in Hall. specialize (Hall (Z.to_nat d)). rewrite Z2Nat.id in Hall by lia. apply Hall, in_seq. lia. }
  unfold group_text. destruct (v <? 16) eqn:E1; [|destruct (v <? 256) eqn:E2; [|destruct (v <? 4096) eqn:E3]]; bools; cbn [str_forallb].
  all: rewrite !Hd by div_lia; done.
Qed.

Lemma addr_chars a : str_forallb is_addr_char (addr_text a) = true.
Proof.
  destruct a as [b|b]; cbn [addr_text].
  - unfold v4_text. apply join_chars; [done|]. rewrite Forall_forall. intros s (k & -> & _)%list_elem_of_fmap.
    eapply str_forallb_mono; [|apply FormatUint_digits]. intros c Hc. unfold is_addr_char, is_lower_hex. by rewrite Hc.
  - assert (Forall (λ s, str_forallb is_addr_char s = true) (map group_text (groups_of b))) as Hall.
    { rewrite Forall_forall. intros s (v & -> & (k & -> & _)%list_elem_of_fmap)%list_elem_of_fmap. apply group_chars.
      change 65535 with (Z.ones 16). rewrite Z.land_ones by lia. apply Z.mod_pos_bound. lia. }
    unfold v6_text. destruct (longest_run _ _ _) as [i n]. destruct (n =? 0)%nat; [by apply join_chars|].
    rewrite !str_forallb_append, !join_chars; [done|done| |done|].
    + rewrite <- skipn_map. by apply Forall_drop.
    + rewrite <- firstn_map. by apply Forall_take.
Qed.

Lemma address_unquoted s : valid_address s = true → unquoted s.
Proof.
  unfold valid_address, canonical_addr. destruct (match parse_v4 s with Some _ => _ | None => _ end) as [a|]; [|done].
  destruct (str_eqb _ _) eqn:E; [|done]. bools. subst s. intros _. apply addr_unquoted, addr_chars.
Qed.

Lemma addresses_unquoted previous l : addresses_ok previous l = true → Forall unquoted l.
Proof.
  revert previous. induction l as [|raw l IH]; intros previous; cbn [addresses_ok]; [done|]. intros Ha. bools.
  constructor; [by apply address_unquoted|by eapply IH].
Qed.

Lemma config_fit c : Config_Validate c = true → Config_typed c → fit config_tokens (config_contents c).
Proof.
  unfold Config_Validate. intros Hv (H1 & H2 & H3 & H4 & H5). bools. simpl. split_and!; try done; try lia.
  - by match goal with H : pc_Version c = _ |- _ => rewrite H end.
  - by match goal with H : pc_State c = _ |- _ => rewrite H end.
  - by eapply (pattern_unquoted "srv_").
  - by eapply (pattern_unquoted "agent_").
  - unfold digestPattern in *. bools. by apply hex_unquoted.
  - match goal with H : (_ =? 0)%nat = false |- _ => intros E; by rewrite E in H end.
  - by eapply addresses_unquoted.
Qed.

Lemma EncodeConfig_inj c d b : Config_typed c → Config_typed d → EncodeConfig c = Some b → EncodeConfig d = Some b → c = d.
Proof.
  unfold EncodeConfig. intros Hc Hd. destruct (Config_Validate c) eqn:Vc; [|done]. destruct (Config_Validate d) eqn:Vd; [|done].
  intros Ec Ed. assert (render config_tokens (config_contents d) = render config_tokens (config_contents c)) as E by congruence. clear Ec Ed.
  pose proof (scan_render config_tokens _ eq_refl (config_fit c Vc Hc)) as Sc.
  pose proof (scan_render config_tokens _ eq_refl (config_fit d Vd Hd)) as Sd. rewrite E, Sc in Sd. destruct c, d. by injection Sd as -> -> -> -> -> -> -> -> -> -> ->.
Qed.
