(* ===== verification/Transition.v ===== *)
(** * Transition records of the connected installation

    [internal/connectedtransition]: the record of one change of the installed
    configuration, its preparation and completion receipt, the stage that holds the
    evidence, and the classification of an interrupted change from that evidence. *)

From S2P Require Import Prelude GoText Sha256 ConnectedProfile.

#[local] Open Scope string_scope.
#[local] Open Scope Z_scope.

(** ** Records *)

Definition Version : string := "observer-connected-transition/v1".
Definition MaxRecordBytes : Z := 16384.
Definition PredecessorNone : string := "none".
Definition PredecessorLegacy : string := "legacy-refresh-v1".
Definition PredecessorTransition : string := "transition-v1".

Record Resources := MkResources {
  rs_CA : string; rs_Hosts : string; rs_CollectorUnit : string; rs_UploaderUnit : string; rs_InstalledConfig : string }.

#[global] Instance Resources_eq_dec : EqDecision Resources.
Proof. solve_decision. Defined.

Record Object := MkObject { ob_Inode : Z; ob_Generation : Z }.
#[global] Instance Object_eq_dec : EqDecision Object.
Proof. solve_decision. Defined.

Record PhysicalLedger := MkPhysical { ph_FilesystemUUID : string; ph_Directory : Object; ph_Database : Object }.
#[global] Instance PhysicalLedger_eq_dec : EqDecision PhysicalLedger.
Proof. solve_decision. Defined.

Record Ledger := MkLedger { lg_LogicalSHA256 : string; lg_Physical : PhysicalLedger }.
#[global] Instance Ledger_eq_dec : EqDecision Ledger.
Proof. solve_decision. Defined.

Record Transition := MkTransition {
  tr_Version : string; tr_Operation : string; tr_Previous : Config; tr_Next : Config;
  tr_PredecessorFormat : string; tr_PredecessorCompletionSHA : string;
  tr_PreviousCodeBefore : string; tr_PreviousCodeAfter : string; tr_ContractSHA256 : string;
  tr_PreviousResources : Resources; tr_NextResources : Resources; tr_Ledger : Ledger }.

Definition digest (value : string) (optional : bool) : bool :=
  (optional && str_eqb value "") || ((slen value =? 64) && str_forallb is_lower_hex value).

Definition Resources_valid (r : Resources) : bool :=
  digest (rs_CA r) false && digest (rs_Hosts r) false && digest (rs_CollectorUnit r) false && digest (rs_UploaderUnit r) false
  && digest (rs_InstalledConfig r) false.

Definition hash (data : string) : string := hexEncode (Sum256 data).

Definition newline : string := String (ascii_of_N 10) "".

Definition hosts (addresses : list string) : string :=
  hash (fold_right (λ address acc, address ++ " " ++ Hostname ++ newline ++ acc) "" addresses).

(** [ledgeridentity.Validate]. *)
Definition Witness_Validate (w : PhysicalLedger) : bool :=
  (slen (ph_FilesystemUUID w) =? 32) && negb (ob_Inode (ph_Directory w) =? 0) && negb (ob_Inode (ph_Database w) =? 0)
  && negb (ob_Generation (ph_Directory w) =? 0) && negb (ob_Generation (ph_Database w) =? 0)
  && negb (ob_Inode (ph_Directory w) =? ob_Inode (ph_Database w))
  && str_forallb is_lower_hex (ph_FilesystemUUID w) && negb (str_eqb (ph_FilesystemUUID w) "00000000000000000000000000000000").

Definition validPredecessor (format receiptSHA : string) : bool :=
  if str_eqb format PredecessorNone then str_eqb receiptSHA ""
  else if str_eqb format PredecessorLegacy || str_eqb format PredecessorTransition then digest receiptSHA false
  else false.

Definition with_generation (c : Config) (g : Z) : Config :=
  MkConfig (pc_Version c) (pc_State c) (pc_ServerID c) (pc_ConnectorID c) (pc_CollectorUID c) (pc_UploaderUID c) (pc_UploaderGID c)
    (pc_SharedGID c) (pc_ArtifactSHA256 c) g (pc_Addresses c).
Definition with_addresses (c : Config) (l : list string) : Config :=
  MkConfig (pc_Version c) (pc_State c) (pc_ServerID c) (pc_ConnectorID c) (pc_CollectorUID c) (pc_UploaderUID c) (pc_UploaderGID c)
    (pc_SharedGID c) (pc_ArtifactSHA256 c) (pc_PolicyGeneration c) l.
Definition with_artifact (c : Config) (a : string) : Config :=
  MkConfig (pc_Version c) (pc_State c) (pc_ServerID c) (pc_ConnectorID c) (pc_CollectorUID c) (pc_UploaderUID c) (pc_UploaderGID c)
    (pc_SharedGID c) a (pc_PolicyGeneration c) (pc_Addresses c).

(** [connectedprofile.Encode] with its error ignored: no bytes. *)
Definition config_bytes (c : Config) : string := default "" (EncodeConfig c).

Definition refresh : string := "refresh".
Definition codeSelect : string := "code-select".

Definition Validate (r : Transition) : bool :=
  let p := tr_Previous r in let n := tr_Next r in
  if negb (str_eqb (tr_Version r) Version) || negb (Config_Validate p) || negb (Config_Validate n)
     || (pc_PolicyGeneration p =? MaxUint64) || negb (pc_PolicyGeneration n =? wrap_u64 (pc_PolicyGeneration p + 1))
     || negb (validPredecessor (tr_PredecessorFormat r) (tr_PredecessorCompletionSHA r))
     || (str_eqb (tr_PredecessorFormat r) PredecessorNone && negb (pc_PolicyGeneration p =? 1))
     || negb (digest (tr_PreviousCodeBefore r) true) || negb (digest (tr_PreviousCodeAfter r) true)
     || negb (digest (tr_ContractSHA256 r) false) || negb (Resources_valid (tr_PreviousResources r))
     || negb (Resources_valid (tr_NextResources r)) || negb (digest (lg_LogicalSHA256 (tr_Ledger r)) false)
     || negb (Witness_Validate (lg_Physical (tr_Ledger r))) then false
  else if negb (str_eqb (tr_Operation r) refresh) && negb (str_eqb (tr_Operation r) codeSelect) then false
  else
    let want := with_generation p (pc_PolicyGeneration n) in
    let '(want, allowed) :=
      if str_eqb (tr_Operation r) refresh
      then (with_addresses want (pc_Addresses n), str_eqb (tr_PreviousCodeAfter r) (tr_PreviousCodeBefore r))
      else (with_artifact want (pc_ArtifactSHA256 n),
            negb (str_eqb (pc_ArtifactSHA256 n) (pc_ArtifactSHA256 p)) && str_eqb (tr_PreviousCodeAfter r) (pc_ArtifactSHA256 p)
            && str_eqb (rs_CA (tr_PreviousResources r)) (rs_CA (tr_NextResources r))
            && str_eqb (rs_Hosts (tr_PreviousResources r)) (rs_Hosts (tr_NextResources r))) in
    if negb allowed then false
    else str_eqb (config_bytes want) (config_bytes n)
      && str_eqb (rs_InstalledConfig (tr_PreviousResources r)) (hash (config_bytes p))
      && str_eqb (rs_InstalledConfig (tr_NextResources r)) (hash (config_bytes n))
      && str_eqb (rs_Hosts (tr_PreviousResources r)) (hosts (pc_Addresses p))
      && str_eqb (rs_Hosts (tr_NextResources r)) (hosts (pc_Addresses n)).

(** ** Their canonical text *)

Definition resources_tokens : list token :=
  [TLit ("{" ++ field "ca_sha256"); TStr; TLit ("," ++ field "hosts_sha256"); TStr; TLit ("," ++ field "collector_unit_sha256"); TStr;
   TLit ("," ++ field "uploader_unit_sha256"); TStr; TLit ("," ++ field "installed_config_sha256"); TStr; TLit "}"].
Definition resources_contents (r : Resources) : list content :=
  [CStr (rs_CA r); CStr (rs_Hosts r); CStr (rs_CollectorUnit r); CStr (rs_UploaderUnit r); CStr (rs_InstalledConfig r)].
Definition resources_of (vs : list content) : option (Resources * list content) :=
  match vs with
  | CStr ca :: CStr hosts :: CStr collector :: CStr uploader :: CStr config :: vs => Some (MkResources ca hosts collector uploader config, vs)
  | _ => None
  end.

Definition object_tokens : list token := [TLit ("{" ++ field "inode"); TNum 64; TLit ("," ++ field "generation"); TNum 32; TLit "}"].
Definition ledger_tokens : list token :=
  ([TLit ("{" ++ field "logical_sha256"); TStr; TLit ("," ++ field "physical" ++ "{" ++ field "filesystem_uuid"); TStr; TLit ("," ++ field "directory")]
   ++ object_tokens ++ [TLit ("," ++ field "database")] ++ object_tokens ++ [TLit "}}"])%list.
Definition ledger_contents (l : Ledger) : list content :=
  let p := lg_Physical l in
  [CStr (lg_LogicalSHA256 l); CStr (ph_FilesystemUUID p); CNum (ob_Inode (ph_Directory p)); CNum (ob_Generation (ph_Directory p));
   CNum (ob_Inode (ph_Database p)); CNum (ob_Generation (ph_Database p))].
Definition ledger_of (vs : list content) : option (Ledger * list content) :=
  match vs with
  | CStr logical :: CStr uuid :: CNum i :: CNum g :: CNum j :: CNum h :: vs =>
      Some (MkLedger logical (MkPhysical uuid (MkObject i g) (MkObject j h)), vs)
  | _ => None
  end.

Definition transition_tokens : list token :=
  ([TLit ("{" ++ field "version"); TStr; TLit ("," ++ field "operation"); TStr; TLit ("," ++ field "previous")] ++ config_tokens
   ++ [TLit ("," ++ field "next")] ++ config_tokens
   ++ [TLit ("," ++ field "predecessor_format"); TStr; TLit ("," ++ field "predecessor_completion_sha256"); TStr;
       TLit ("," ++ field "previous_code_before"); TStr; TLit ("," ++ field "previous_code_after"); TStr;
       TLit ("," ++ field "contract_sha256"); TStr; TLit ("," ++ field "previous_resources")] ++ resources_tokens
   ++ [TLit ("," ++ field "next_resources")] ++ resources_tokens ++ [TLit ("," ++ field "ledger")] ++ ledger_tokens ++ [TLit "}"])%list.
Definition transition_contents (r : Transition) : list content :=
  ([CStr (tr_Version r); CStr (tr_Operation r)] ++ config_contents (tr_Previous r) ++ config_contents (tr_Next r)
   ++ [CStr (tr_PredecessorFormat r); CStr (tr_PredecessorCompletionSHA r); CStr (tr_PreviousCodeBefore r); CStr (tr_PreviousCodeAfter r);
       CStr (tr_ContractSHA256 r)]
   ++ resources_contents (tr_PreviousResources r) ++ resources_contents (tr_NextResources r) ++ ledger_contents (tr_Ledger r))%list.
Definition transition_of (vs : list content) : option Transition :=
  match vs with
  | CStr version :: CStr operation :: vs =>
      match config_of vs with
      | Some (previous, vs) =>
          match config_of vs with
          | Some (next, CStr format :: CStr completion :: CStr before :: CStr after :: CStr contract :: vs) =>
              match resources_of vs with
              | Some (previousResources, vs) =>
                  match resources_of vs with
                  | Some (nextResources, vs) =>
                      match ledger_of vs with
                      | Some (ledger, []) =>
                          Some (MkTransition version operation previous next format completion before after contract previousResources
                                  nextResources ledger)
                      | _ => None
                      end
                  | None => None
                  end
              | None => None
              end
          | _ => None
          end
      | None => None
      end
  | _ => None
  end.

Definition Encode (r : Transition) : option string :=
  if negb (Validate r) then None
  else
    let b := render transition_tokens (transition_contents r) in
    if (slen b =? 0) || (MaxRecordBytes <? slen b) then None else Some b.

Definition Decode (data : string) : option Transition :=
  if (slen data =? 0) || (MaxRecordBytes <? slen data) then None
  else match scan transition_tokens data with
  | Some vs =>
      match transition_of vs with
      | Some r => match Encode r with Some b => if str_eqb b data then Some r else None | None => None end
      | None => None
      end
  | None => None
  end.

Definition Completion (canonicalRecord : string) : option string :=
  match Decode canonicalRecord with
  | None => None
  | Some _ => Some ("observer-connected-transition-complete/v1" ++ newline ++ hash canonicalRecord ++ newline)
  end.

(** ** Preparations *)

Definition PreparationVersion : string := "observer-connected-transition-preparing/v1".
Definition MaxPreparationBytes : Z := 4096.

Record Preparation := MkPreparation {
  pp_Version : string; pp_TransitionSHA256 : string; pp_Previous : Config; pp_PreviousResources : Resources;
  pp_PredecessorFormat : string; pp_PredecessorCompletionSHA : string; pp_Ledger : Ledger }.

Definition Prepare (record : Transition) : option Preparation :=
  match Encode record with
  | None => None
  | Some encoded =>
      Some (MkPreparation PreparationVersion (hash encoded) (tr_Previous record) (tr_PreviousResources record)
              (tr_PredecessorFormat record) (tr_PredecessorCompletionSHA record) (tr_Ledger record))
  end.

Definition Preparation_Validate (p : Preparation) : bool :=
  match EncodeConfig (pp_Previous p) with
  | None => false
  | Some previous =>
      str_eqb (pp_Version p) PreparationVersion && digest (pp_TransitionSHA256 p) false
      && validPredecessor (pp_PredecessorFormat p) (pp_PredecessorCompletionSHA p)
      && negb (str_eqb (pp_PredecessorFormat p) PredecessorNone && negb (pc_PolicyGeneration (pp_Previous p) =? 1))
      && Resources_valid (pp_PreviousResources p)
      && str_eqb (rs_InstalledConfig (pp_PreviousResources p)) (hash previous)
      && str_eqb (rs_Hosts (pp_PreviousResources p)) (hosts (pc_Addresses (pp_Previous p)))
      && digest (lg_LogicalSHA256 (pp_Ledger p)) false && Witness_Validate (lg_Physical (pp_Ledger p))
  end.

Definition preparation_tokens : list token :=
  ([TLit ("{" ++ field "version"); TStr; TLit ("," ++ field "transition_sha256"); TStr; TLit ("," ++ field "previous")] ++ config_tokens
   ++ [TLit ("," ++ field "previous_resources")] ++ resources_tokens
   ++ [TLit ("," ++ field "predecessor_format"); TStr; TLit ("," ++ field "predecessor_completion_sha256"); TStr; TLit ("," ++ field "ledger")]
   ++ ledger_tokens ++ [TLit "}"])%list.
Definition preparation_contents (p : Preparation) : list content :=
  ([CStr (pp_Version p); CStr (pp_TransitionSHA256 p)] ++ config_contents (pp_Previous p) ++ resources_contents (pp_PreviousResources p)
   ++ [CStr (pp_PredecessorFormat p); CStr (pp_PredecessorCompletionSHA p)] ++ ledger_contents (pp_Ledger p))%list.
Definition preparation_of (vs : list content) : option Preparation :=
  match vs with
  | CStr version :: CStr sha :: vs =>
      match config_of vs with
      | Some (previous, vs) =>
          match resources_of vs with
          | Some (resources, CStr format :: CStr completion :: vs) =>
              match ledger_of vs with
              | Some (ledger, []) => Some (MkPreparation version sha previous resources format completion ledger)
              | _ => None
              end
          | _ => None
          end
      | None => None
      end
  | _ => None
  end.

Definition EncodePreparation (p : Preparation) : option string :=
  if negb (Preparation_Validate p) then None
  else
    let b := render preparation_tokens (preparation_contents p) in
    if (slen b =? 0) || (MaxPreparationBytes <? slen b) then None else Some b.

Definition DecodePreparation (data : string) : option Preparation :=
  if (slen data =? 0) || (MaxPreparationBytes <? slen data) then None
  else match scan preparation_tokens data with
  | Some vs =>
      match preparation_of vs with
      | Some p => match EncodePreparation p with Some b => if str_eqb b data then Some p else None | None => None end
      | None => None
      end
  | None => None
  end.

Definition MatchesProposal (preparation : Preparation) (record : Transition) : bool :=
  match Prepare record with
  | None => false
  | Some expected =>
      match EncodePreparation preparation, EncodePreparation expected with
      | Some got, Some want => str_eqb got want
      | _, _ => false
      end
  end.

(** ** Records of the earlier format *)

Definition legacyRefreshVersion : string := "observer-connected-refresh/v1".
Definition maxLegacyRefreshBytes : Z := 8192.
Definition maxLegacyCompletionBytes : Z := 256.

Record legacyRefresh := MkLegacy { le_Version : string; le_Previous : Config; le_Next : Config }.

Definition legacy_tokens : list token :=
  ([TLit ("{" ++ field "version"); TStr; TLit ("," ++ field "previous")] ++ config_tokens ++ [TLit ("," ++ field "next")] ++ config_tokens ++ [TLit "}"])%list.
Definition legacy_contents (l : legacyRefresh) : list content :=
  (CStr (le_Version l) :: config_contents (le_Previous l) ++ config_contents (le_Next l))%list.
Definition legacy_of (vs : list content) : option legacyRefresh :=
  match vs with
  | CStr version :: vs =>
      match config_of vs with
      | Some (previous, vs) => match config_of vs with Some (next, []) => Some (MkLegacy version previous next) | _ => None end
      | None => None
      end
  | _ => None
  end.

Definition decodeLegacyRefresh (data : string) : option legacyRefresh :=
  if (slen data =? 0) || (maxLegacyRefreshBytes <? slen data) then None
  else match scan legacy_tokens data with
  | None => None
  | Some vs =>
      match legacy_of vs with
      | None => None
      | Some record =>
          let p := le_Previous record in let n := le_Next record in
          if negb (str_eqb (le_Version record) legacyRefreshVersion) || negb (Config_Validate p) || negb (Config_Validate n)
             || (pc_PolicyGeneration p =? MaxUint64) || negb (pc_PolicyGeneration n =? wrap_u64 (pc_PolicyGeneration p + 1)) then None
          else
            let want := with_addresses (with_generation p (pc_PolicyGeneration n)) (pc_Addresses n) in
            if negb (str_eqb (config_bytes want) (config_bytes n)) || negb (str_eqb (render legacy_tokens (legacy_contents record)) data) then None
            else Some record
      end
  end.

Definition AdmitCompletedLegacy (journal receipt : string) (current : Config) : option string :=
  match decodeLegacyRefresh journal with
  | None => None
  | Some record =>
      if (slen receipt =? 0) || (maxLegacyCompletionBytes <? slen receipt) || negb (Config_Validate current) then None
      else
        let expected := "observer-connected-refresh-complete/v1" ++ newline ++ hash journal ++ newline in
        if negb (str_eqb (config_bytes current) (config_bytes (le_Next record))) || negb (str_eqb receipt expected) then None
        else Some (hash receipt)
  end.

(** ** The stage *)

Definition MaxCABytes : Z := 1048576.
Definition StageProposalName : string := "proposal.json".
Definition StageOldCAName : string := "old-ca.pem".
Definition StageNewCAName : string := "new-ca.pem".
Definition StagePredecessorName : string := "predecessor.json".
Definition StagePredecessorCompletionName : string := "predecessor-complete".
Definition stageNames : list string :=
  [StageProposalName; StageOldCAName; StageNewCAName; StagePredecessorName; StagePredecessorCompletionName].

(** Whether the predecessor that is staged leads to the record. *)
Definition predecessor_ok (record : Transition) (predecessor completion : string) : bool :=
  if (slen completion =? 0) || (256 <? slen completion) || negb (str_eqb (hash completion) (tr_PredecessorCompletionSHA record)) then false
  else if str_eqb (tr_PredecessorFormat record) PredecessorLegacy then
    match AdmitCompletedLegacy predecessor completion (tr_Previous record) with
    | Some legacyDigest => str_eqb legacyDigest (tr_PredecessorCompletionSHA record)
    | None => false
    end
  else match Decode predecessor with
  | None => false
  | Some previous =>
      match Completion predecessor with
      | None => false
      | Some expectedCompletion =>
          str_eqb completion expectedCompletion && str_eqb (config_bytes (tr_Next previous)) (config_bytes (tr_Previous record))
          && bool_decide (tr_NextResources previous = tr_PreviousResources record)
          && str_eqb (tr_ContractSHA256 previous) (tr_ContractSHA256 record)
          && str_eqb (tr_PreviousCodeAfter previous) (tr_PreviousCodeBefore record)
      end
  end.

Definition ValidateStage (preparation : string) (files : gmap string string) : option Transition :=
  if negb (size files =? 3)%nat && negb (size files =? 5)%nat then None
  else if negb (forallb (λ x, existsb (str_eqb x.1) stageNames) (map_to_list files)) then None
  else match files !! StageOldCAName, files !! StageNewCAName, files !! StageProposalName with
  | Some oldCA, Some newCA, Some proposal =>
      if (slen oldCA =? 0) || (MaxCABytes <? slen oldCA) || (slen newCA =? 0) || (MaxCABytes <? slen newCA) then None
      else match DecodePreparation preparation, Decode proposal with
      | Some witness, Some record =>
          if negb (MatchesProposal witness record) || negb (str_eqb (hash oldCA) (rs_CA (tr_PreviousResources record)))
             || negb (str_eqb (hash newCA) (rs_CA (tr_NextResources record))) then None
          else match files !! StagePredecessorName, files !! StagePredecessorCompletionName with
          | None, None => if str_eqb (tr_PredecessorFormat record) PredecessorNone then Some record else None
          | Some predecessor, Some completion =>
              if str_eqb (tr_PredecessorFormat record) PredecessorNone then None
              else if predecessor_ok record predecessor completion then Some record else None
          | _, _ => None
          end
      | _, _ => None
      end
  | _, _, _ => None
  end.

(** ** Classification *)

Inductive Classification := RecoveryRequired | Complete.

(** [None] for a receipt that is absent. *)
Record Observed := MkObserved { ov_Resources : Resources; ov_Ledger : Ledger; ov_Receipt : option string }.

Definition either (actual previous next : string) : bool := str_eqb actual previous || str_eqb actual next.

Definition Classify (record : Transition) (observed : Observed) : option Classification :=
  match Encode record with
  | None => None
  | Some canonical =>
      if negb (bool_decide (ov_Ledger observed = tr_Ledger record)) then None
      else
        let a := ov_Resources observed in let before := tr_PreviousResources record in let after := tr_NextResources record in
        if negb (either (rs_CA a) (rs_CA before) (rs_CA after)) || negb (either (rs_Hosts a) (rs_Hosts before) (rs_Hosts after))
           || negb (either (rs_CollectorUnit a) (rs_CollectorUnit before) (rs_CollectorUnit after))
           || negb (either (rs_UploaderUnit a) (rs_UploaderUnit before) (rs_UploaderUnit after))
           || negb (either (rs_InstalledConfig a) (rs_InstalledConfig before) (rs_InstalledConfig after)) then None
        else match ov_Receipt observed with
        | None => Some RecoveryRequired
        | Some receipt =>
            match Completion canonical with
            | None => None
            | Some expected =>
                if negb (str_eqb receipt expected) || negb (bool_decide (a = after)) then None else Some Complete
            end
        end
  end.

Inductive StagedPhase := StagedPreparationPending | StagedForwardRecovery | StagedCleanupPending.

Record StagedObserved := MkStagedObserved {
  so_Journal : option string; so_Receipt : option string; so_Resources : Resources; so_Ledger : Ledger }.

(** [bytes.Equal] on a slice that is not nil, the other being a member of the stage or no
    bytes. *)
Definition is_bytes (a : option string) (b : string) : bool := match a with Some a => str_eqb a b | None => false end.

Definition ClassifyStaged (preparation : string) (files : gmap string string) (observed : StagedObserved) : option StagedPhase :=
  match ValidateStage preparation files with
  | None => None
  | Some record =>
      if negb (bool_decide (so_Ledger observed = tr_Ledger record)) then None
      else
        let proposal := default "" (files !! StageProposalName) in
        let predecessor := default "" (files !! StagePredecessorName) in
        let predecessorReceipt := default "" (files !! StagePredecessorCompletionName) in
        let transition := str_eqb (tr_PredecessorFormat record) PredecessorTransition in
        if transition && is_bytes (so_Journal observed) predecessor then
          if negb (is_bytes (so_Receipt observed) predecessorReceipt)
             || negb (bool_decide (so_Resources observed = tr_PreviousResources record)) then None
          else Some StagedPreparationPending
        else if negb transition && bool_decide (so_Journal observed = None) then
          if negb (bool_decide (so_Receipt observed = None)) || negb (bool_decide (so_Resources observed = tr_PreviousResources record)) then None
          else Some StagedPreparationPending
        else if negb (is_bytes (so_Journal observed) proposal) then None
        else if transition && bool_decide (so_Receipt observed = None) then None
        else
          let receipt := if transition && is_bytes (so_Receipt observed) predecessorReceipt then None else so_Receipt observed in
          match Classify record (MkObserved (so_Resources observed) (so_Ledger observed) receipt) with
          | Some Complete => Some StagedCleanupPending
          | Some RecoveryRequired => Some StagedForwardRecovery
          | None => None
          end
  end.
