(* ===== verification/TransitionSafety.v ===== *)
(** * Transition records: round trips, what a transition may change, and exact phases

    What a record and a stage that validate say, the theorems on documents, phases and
    histories, and a history of two changes on which they are used. *)

From S2P Require Import Prelude GoText Sha256 ConnectedProfile Transition.

#[local] Open Scope string_scope.
#[local] Open Scope Z_scope.

(** ** Documents *)

Definition Ledger_typed (l : Ledger) : Prop :=
  let p := lg_Physical l in
  0 ≤ ob_Inode (ph_Directory p) ≤ 2 ^ 64 - 1 ∧ 0 ≤ ob_Generation (ph_Directory p) ≤ 2 ^ 32 - 1
  ∧ 0 ≤ ob_Inode (ph_Database p) ≤ 2 ^ 64 - 1 ∧ 0 ≤ ob_Generation (ph_Database p) ≤ 2 ^ 32 - 1.
Definition Transition_typed (r : Transition) : Prop :=
  Config_typed (tr_Previous r) ∧ Config_typed (tr_Next r) ∧ Ledger_typed (tr_Ledger r).
Definition Preparation_typed (p : Preparation) : Prop := Config_typed (pp_Previous p) ∧ Ledger_typed (pp_Ledger p).

Lemma fit_app ts ts' vs vs' : fit ts vs → fit ts' vs' → fit (ts ++ ts') (vs ++ vs').
Proof.
  revert vs. induction ts as [|t ts IH]; intros vs Hf Hf'; [by destruct vs|].
  destruct t as [l| |bits|]; [simpl; apply IH; [by destruct vs|done]|..]; (destruct vs as [|v vs]; [done|]); destruct Hf as [Hv Hf]; simpl; auto.
Qed.
Lemma fit_lit s ts vs : fit ts vs → fit (TLit s :: ts) vs.
Proof. by destruct vs. Qed.

Lemma digest_unquoted s b : digest s b = true → unquoted s.
Proof. unfold digest. intros [[_ ->%str_eqb_eq]%andb_true_iff|[_ Hs]%andb_true_iff]%orb_true_iff; [done|by apply hex_unquoted]. Qed.

Lemma resources_fit r : Resources_valid r = true → fit resources_tokens (resources_contents r).
Proof. unfold Resources_valid. intros Hv. bools. simpl. split_and!; try done; by eapply digest_unquoted. Qed.

Lemma ledger_fit l : digest (lg_LogicalSHA256 l) false = true → Witness_Validate (lg_Physical l) = true → Ledger_typed l →
  fit ledger_tokens (ledger_contents l).
Proof.
  unfold Witness_Validate, Ledger_typed. intros Hd Hv Ht. bools. simpl. split_and!; try lia; try done; [by eapply digest_unquoted|by apply hex_unquoted].
Qed.

Lemma predecessor_unquoted f s : validPredecessor f s = true → unquoted f ∧ unquoted s.
Proof.
  unfold validPredecessor. destruct (str_eqb f PredecessorNone) eqn:E1; [bools; subst; intros ->%str_eqb_eq; done|].
  destruct (str_eqb f PredecessorLegacy || _) eqn:E2; [|done]. intros Hd. split; [|by eapply digest_unquoted].
  apply orb_true_iff in E2 as [->%str_eqb_eq | ->%str_eqb_eq]; done.
Qed.

(** What [Validate] says of a record, without its text. *)
Record valid_parts (r : Transition) : Prop := {
  vp_version : tr_Version r = Version;
  vp_previous : Config_Validate (tr_Previous r) = true;
  vp_next : Config_Validate (tr_Next r) = true;
  vp_generation : pc_PolicyGeneration (tr_Previous r) ≠ MaxUint64
    ∧ pc_PolicyGeneration (tr_Next r) = wrap_u64 (pc_PolicyGeneration (tr_Previous r) + 1);
  vp_predecessor : validPredecessor (tr_PredecessorFormat r) (tr_PredecessorCompletionSHA r) = true;
  vp_codes : digest (tr_PreviousCodeBefore r) true = true ∧ digest (tr_PreviousCodeAfter r) true = true;
  vp_contract : digest (tr_ContractSHA256 r) false = true;
  vp_resources : Resources_valid (tr_PreviousResources r) = true ∧ Resources_valid (tr_NextResources r) = true;
  vp_ledger : digest (lg_LogicalSHA256 (tr_Ledger r)) false = true ∧ Witness_Validate (lg_Physical (tr_Ledger r)) = true;
  vp_operation : (tr_Operation r = refresh ∧ tr_PreviousCodeAfter r = tr_PreviousCodeBefore r
      ∧ config_bytes (with_addresses (with_generation (tr_Previous r) (pc_PolicyGeneration (tr_Next r))) (pc_Addresses (tr_Next r)))
        = config_bytes (tr_Next r))
    ∨ (tr_Operation r = codeSelect ∧ pc_ArtifactSHA256 (tr_Next r) ≠ pc_ArtifactSHA256 (tr_Previous r)
      ∧ tr_PreviousCodeAfter r = pc_ArtifactSHA256 (tr_Previous r)
      ∧ rs_CA (tr_PreviousResources r) = rs_CA (tr_NextResources r) ∧ rs_Hosts (tr_PreviousResources r) = rs_Hosts (tr_NextResources r)
      ∧ config_bytes (with_artifact (with_generation (tr_Previous r) (pc_PolicyGeneration (tr_Next r))) (pc_ArtifactSHA256 (tr_Next r)))
        = config_bytes (tr_Next r));
  vp_config : rs_InstalledConfig (tr_PreviousResources r) = hash (config_bytes (tr_Previous r))
    ∧ rs_InstalledConfig (tr_NextResources r) = hash (config_bytes (tr_Next r));
  vp_hosts : rs_Hosts (tr_PreviousResources r) = hosts (pc_Addresses (tr_Previous r))
    ∧ rs_Hosts (tr_NextResources r) = hosts (pc_Addresses (tr_Next r)) }.

Lemma Validate_parts r : Validate r = true → valid_parts r.
Proof.
  unfold Validate. cbv zeta. intros Hv. match type of Hv with (if ?x then _ else _) = _ => destruct x eqn:E1; [done|] end.
  match type of Hv with (if ?x then _ else _) = _ => destruct x eqn:E2; [done|] end.
  assert (tr_Operation r = refresh ∨ tr_Operation r = codeSelect) as Hop.
  { apply andb_false_iff in E2 as [E2|E2]; apply negb_false_iff, str_eqb_eq in E2; auto. }
  repeat (match type of E1 with _ || _ = false => let E := fresh "E" in apply orb_false_iff in E1 as [E1 E] end). bools.
  destruct (str_eqb (tr_Operation r) refresh) eqn:Eo; cbv beta iota in Hv.
  - match type of Hv with (if ?x then _ else _) = _ => destruct x eqn:Ea; [done|] end. bools. split; auto 6.
  - match type of Hv with (if ?x then _ else _) = _ => destruct x eqn:Ea; [done|] end. bools. destruct Hop as [Hop|Hop]; [by rewrite Hop in Eo|]. split; auto 12.
Qed.

Lemma transition_fit r : Validate r = true → Transition_typed r → fit transition_tokens (transition_contents r).
Proof.
  intros [Hv Hp Hn _ Hd [Hb Ha] Hc [Hr Hr'] [Hl Hw] Ho _ _]%Validate_parts (Tp & Tn & Tl).
  destruct (predecessor_unquoted _ _ Hd) as [Hf Hs].
  assert (unquoted (tr_Operation r)) as Hop by (destruct Ho as [[-> _] | [-> _]]; done).
  assert (unquoted (tr_Version r)) as Hver by (by rewrite Hv).
  unfold transition_tokens, transition_contents.
  apply (fit_app [_; _; _; _; _] _ [_; _]); [simpl; auto|]. apply fit_app; [by apply config_fit|]. apply fit_lit.
  apply fit_app; [by apply config_fit|]. apply (fit_app [_; _; _; _; _; _; _; _; _; _; _] _ [_; _; _; _; _]).
  { simpl. split_and!; try done; by eapply digest_unquoted. }
  apply fit_app; [by apply resources_fit|]. apply fit_lit. apply fit_app; [by apply resources_fit|].
  apply fit_lit. rewrite <- (app_nil_r (ledger_contents _)). by apply fit_app; [apply ledger_fit|].
Qed.

Lemma transition_of_contents r : transition_of (transition_contents r) = Some r.
Proof. by destruct r as [? ? [] [] ? ? ? ? ? [] [] [? [? [] []]]]. Qed.

Lemma config_of_inv vs c vs' : config_of vs = Some (c, vs') → vs = (config_contents c ++ vs')%list.
Proof. unfold config_of. intros H. repeat case_match; simplify_eq. done. Qed.
Lemma resources_of_inv vs r vs' : resources_of vs = Some (r, vs') → vs = (resources_contents r ++ vs')%list.
Proof. unfold resources_of. intros H. repeat case_match; simplify_eq. done. Qed.
Lemma ledger_of_inv vs l vs' : ledger_of vs = Some (l, vs') → vs = (ledger_contents l ++ vs')%list.
Proof. unfold ledger_of. intros H. repeat case_match; simplify_eq. done. Qed.

Lemma transition_of_inv vs r : transition_of vs = Some r → vs = transition_contents r.
Proof.
  unfold transition_of. intros H. repeat case_match; simplify_eq.
  repeat match goal with
  | H : config_of _ = Some _ |- _ => apply config_of_inv in H
  | H : resources_of _ = Some _ |- _ => apply resources_of_inv in H
  | H : ledger_of _ = Some _ |- _ => apply ledger_of_inv in H
  end. subst. unfold transition_contents. cbn [tr_Version tr_Operation tr_Previous tr_Next tr_PredecessorFormat tr_PredecessorCompletionSHA
    tr_PreviousCodeBefore tr_PreviousCodeAfter tr_ContractSHA256 tr_PreviousResources tr_NextResources tr_Ledger].
  by rewrite app_nil_r.
Qed.

Lemma transition_fit_typed r : fit transition_tokens (transition_contents r) → Transition_typed r.
Proof. intros Hf. simpl in Hf. unfold Transition_typed, Config_typed, Ledger_typed. tauto. Qed.

Lemma preparation_fit p : Preparation_Validate p = true → Preparation_typed p → fit preparation_tokens (preparation_contents p).
Proof.
  unfold Preparation_Validate, EncodeConfig. intros Hv (Tp & Tl). destruct (Config_Validate (pp_Previous p)) eqn:Vp; [|done]. bools.
  destruct (predecessor_unquoted (pp_PredecessorFormat p) (pp_PredecessorCompletionSHA p)) as [Hf Hs]; [done|].
  assert (unquoted (pp_Version p)) as Hver by (by match goal with H : pp_Version p = _ |- _ => rewrite H end).
  assert (unquoted (pp_TransitionSHA256 p)) as Hsha by (by eapply digest_unquoted).
  unfold preparation_tokens, preparation_contents.
  apply (fit_app [_; _; _; _; _] _ [_; _]); [simpl; auto|]. apply fit_app; [by apply config_fit|]. apply fit_lit.
  apply fit_app; [by apply resources_fit|]. apply (fit_app [_; _; _; _; _] _ [_; _]); [simpl; auto|].
  rewrite <- (app_nil_r (ledger_contents _)). by apply fit_app; [apply ledger_fit|].
Qed.

Lemma preparation_fit_typed p : fit preparation_tokens (preparation_contents p) → Preparation_typed p.
Proof. intros Hf. simpl in Hf. unfold Preparation_typed, Config_typed, Ledger_typed. tauto. Qed.

Lemma preparation_of_contents p : preparation_of (preparation_contents p) = Some p.
Proof. by destruct p as [? ? [] [] ? ? [? [? [] []]]]. Qed.
Lemma preparation_of_inv vs p : preparation_of vs = Some p → vs = preparation_contents p.
Proof.
  unfold preparation_of. intros H. repeat case_match; simplify_eq.
  repeat match goal with
  | H : config_of _ = Some _ |- _ => apply config_of_inv in H
  | H : resources_of _ = Some _ |- _ => apply resources_of_inv in H
  | H : ledger_of _ = Some _ |- _ => apply ledger_of_inv in H
  end. subst. unfold preparation_contents. cbn [pp_Version pp_TransitionSHA256 pp_Previous pp_PreviousResources pp_PredecessorFormat
    pp_PredecessorCompletionSHA pp_Ledger]. by rewrite app_nil_r.
Qed.

(** Reading gives exactly the records that are written as those bytes. *)
Lemma Decode_spec d r : Decode d = Some r ↔ Transition_typed r ∧ Encode r = Some d.
Proof.
  unfold Decode. split.
  - destruct (_ || _); [done|]. destruct (scan transition_tokens d) as [vs|] eqn:Es; [|done].
    destruct (transition_of vs) as [r'|] eqn:Er; [|done]. apply transition_of_inv in Er as ->. apply scan_fit, transition_fit_typed in Es.
    destruct (Encode r') as [b|] eqn:Ee; [|done]. destruct (str_eqb b d) eqn:Eb; [|done]. bools. subst b. by intros [= <-].
  - intros [Ht He]. pose proof He as He'. unfold Encode in He. destruct (Validate r) eqn:Ev; [|done]. cbn [negb] in He. cbv zeta in He.
    destruct (_ || _) eqn:El in He; [done|]. assert (d = render transition_tokens (transition_contents r)) as -> by congruence. rewrite El.
    rewrite scan_render, transition_of_contents; [|reflexivity|by apply transition_fit]. by rewrite He', str_eqb_refl.
Qed.

Lemma DecodePreparation_spec d p : DecodePreparation d = Some p ↔ Preparation_typed p ∧ EncodePreparation p = Some d.
Proof.
  unfold DecodePreparation. split.
  - destruct (_ || _); [done|]. destruct (scan preparation_tokens d) as [vs|] eqn:Es; [|done].
    destruct (preparation_of vs) as [p'|] eqn:Er; [|done]. apply preparation_of_inv in Er as ->. apply scan_fit, preparation_fit_typed in Es.
    destruct (EncodePreparation p') as [b|] eqn:Ee; [|done]. destruct (str_eqb b d) eqn:Eb; [|done]. bools. subst b. by intros [= <-].
  - intros [Ht He]. pose proof He as He'. unfold EncodePreparation in He. destruct (Preparation_Validate p) eqn:Ev; [|done]. cbn [negb] in He.
    cbv zeta in He. destruct (_ || _) eqn:El in He; [done|]. assert (d = render preparation_tokens (preparation_contents p)) as -> by congruence.
    rewrite El, scan_render, preparation_of_contents; [|reflexivity|by apply preparation_fit]. by rewrite He', str_eqb_refl.
Qed.

(** ** What a transition changes *)

Lemma config_bytes_valid c : Config_Validate c = true → EncodeConfig c = Some (config_bytes c).
Proof. unfold config_bytes, EncodeConfig. by intros ->. Qed.

Lemma config_bytes_nonempty c : Config_Validate c = true → config_bytes c ≠ "".
Proof. intros Hv. unfold config_bytes, EncodeConfig. by rewrite Hv. Qed.

(** Equal bytes are equal configurations, when those of one are valid. *)
Lemma config_bytes_inj c d : Config_typed c → Config_typed d → Config_Validate d = true → config_bytes c = config_bytes d → c = d.
Proof.
  intros Tc Td Vd E. assert (Config_Validate c = true) as Vc.
  { destruct (Config_Validate c) eqn:Vc; [done|]. destruct (config_bytes_nonempty d Vd). rewrite <- E. unfold config_bytes, EncodeConfig. by rewrite Vc. }
  eapply EncodeConfig_inj; [done|done|by apply config_bytes_valid|]. rewrite E. by apply config_bytes_valid.
Qed.

(** The step of a configuration that an operation allows. *)
Inductive config_step : string → Config → Config → Prop :=
  | step_refresh c l : config_step refresh c (with_addresses (with_generation c (pc_PolicyGeneration c + 1)) l)
  | step_code c a : a ≠ pc_ArtifactSHA256 c → config_step codeSelect c (with_artifact (with_generation c (pc_PolicyGeneration c + 1)) a).

Lemma generation_step r : valid_parts r → Transition_typed r →
  pc_PolicyGeneration (tr_Next r) = pc_PolicyGeneration (tr_Previous r) + 1 ∧ pc_PolicyGeneration (tr_Previous r) + 1 ≤ 2 ^ 64 - 1.
Proof.
  intros [_ _ _ [Hm Hg] _ _ _ _ _ _ _ _] ((_ & _ & _ & _ & Hp) & _ & _). unfold MaxUint64 in Hm. rewrite Hg. unfold wrap_u64.
  rewrite Z.mod_small; lia.
Qed.

Lemma valid_step r : valid_parts r → Transition_typed r → config_step (tr_Operation r) (tr_Previous r) (tr_Next r).
Proof.
  intros Hv Ht. destruct (generation_step r Hv Ht) as [Hg Hb]. destruct Hv as [_ _ Vn _ _ _ _ _ _ Ho _ _], Ht as (Tp & Tn & _).
  destruct Ho as [(-> & _ & E) | (-> & Ha & _ & _ & _ & E)]; rewrite Hg in E; apply config_bytes_inj in E as <-; try done; try by constructor.
  all: destruct Tp as (? & ? & ? & ? & ?); unfold Config_typed; simpl; lia.
Qed.

(** A record that is read says what it changes. *)
Lemma Encode_parts r d : Encode r = Some d → valid_parts r.
Proof. unfold Encode. destruct (Validate r) eqn:E; [|done]. intros _. by apply Validate_parts. Qed.

Lemma Decode_parts d r : Decode d = Some r → valid_parts r ∧ Transition_typed r.
Proof. intros [Ht He]%Decode_spec. split; [by eapply Encode_parts|done]. Qed.

(** ** What a stage holds *)

(** The stage without a predecessor, or with one that leads to the record. *)
Definition predecessor_staged (files : gmap string string) (r : Transition) : Prop :=
  (tr_PredecessorFormat r = PredecessorNone ∧ files !! StagePredecessorName = None ∧ files !! StagePredecessorCompletionName = None)
  ∨ (tr_PredecessorFormat r ≠ PredecessorNone ∧ ∃ predecessor completion, files !! StagePredecessorName = Some predecessor
      ∧ files !! StagePredecessorCompletionName = Some completion ∧ predecessor_ok r predecessor completion = true).

Record stage_parts (preparation : string) (files : gmap string string) (r : Transition) : Prop := {
  sp_proposal : ∃ proposal, files !! StageProposalName = Some proposal ∧ Decode proposal = Some r;
  sp_oldCA : ∃ ca, files !! StageOldCAName = Some ca ∧ hash ca = rs_CA (tr_PreviousResources r);
  sp_newCA : ∃ ca, files !! StageNewCAName = Some ca ∧ hash ca = rs_CA (tr_NextResources r);
  sp_prepared : ∃ p, Prepare r = Some p ∧ EncodePreparation p = Some preparation;
  sp_predecessor : predecessor_staged files r }.

Lemma MatchesProposal_bytes w r b : MatchesProposal w r = true → EncodePreparation w = Some b →
  ∃ p, Prepare r = Some p ∧ EncodePreparation p = Some b.
Proof.
  unfold MatchesProposal. intros Hm Hw. destruct (Prepare r) as [p|]; [|done]. rewrite Hw in Hm.
  destruct (EncodePreparation p) as [b'|] eqn:E; [|done]. bools. subst. by exists p.
Qed.

Lemma ValidateStage_parts preparation files r : ValidateStage preparation files = Some r → stage_parts preparation files r.
Proof.
  unfold ValidateStage. intros H. destruct (_ && _); [done|]. destruct (negb (forallb _ _)); [done|].
  destruct (files !! StageOldCAName) as [oldCA|] eqn:Eo; [|done]. destruct (files !! StageNewCAName) as [newCA|] eqn:En; [|done].
  destruct (files !! StageProposalName) as [proposal|] eqn:Ep; [|done]. destruct (_ || _ || _ || _); [done|].
  destruct (DecodePreparation preparation) as [w|] eqn:Ew; [|done]. destruct (Decode proposal) as [r'|] eqn:Er; [|done].
  destruct (_ || _) eqn:Em in H; [done|]. bools. apply DecodePreparation_spec in Ew as [_ Ew].
  assert (r' = r ∧ predecessor_staged files r') as [<- Hp].
  { unfold predecessor_staged. destruct (files !! StagePredecessorName) as [pr|] eqn:E1; destruct (files !! StagePredecessorCompletionName) as [co|] eqn:E2; try done.
    - destruct (str_eqb _ _) eqn:E in H; [done|]. destruct (predecessor_ok r' pr co) eqn:Eok; [|done]. bools. injection H as <-. split; [done|]. right. eauto 6.
    - destruct (str_eqb _ _) eqn:E in H; [|done]. bools. injection H as <-. auto. }
  split; [by exists proposal|by exists oldCA|by exists newCA|by eapply MatchesProposal_bytes|done].
Qed.

(** What the staged predecessor of the current format says. *)
Lemma predecessor_ok_transition r pr co : Transition_typed r → valid_parts r → tr_PredecessorFormat r = PredecessorTransition → predecessor_ok r pr co = true →
  ∃ previous, Decode pr = Some previous ∧ Completion pr = Some co ∧ hash co = tr_PredecessorCompletionSHA r ∧ tr_Next previous = tr_Previous r
    ∧ tr_NextResources previous = tr_PreviousResources r ∧ tr_ContractSHA256 previous = tr_ContractSHA256 r
    ∧ tr_PreviousCodeAfter previous = tr_PreviousCodeBefore r.
Proof.
  unfold predecessor_ok. intros (Tp & _) Hv Hf H. destruct (_ || _) eqn:E in H; [done|]. bools. rewrite Hf in H. change (str_eqb PredecessorTransition PredecessorLegacy) with false in H.
  cbv iota in H. destruct (Decode pr) as [previous|] eqn:Ed; [|done]. destruct (Completion pr) as [expected|] eqn:Ec; [|done]. bools.
  exists previous. subst co. destruct (Decode_parts _ _ Ed) as [_ (_ & Tn & _)].
  match goal with H : config_bytes _ = config_bytes _ |- _ => apply config_bytes_inj in H; [|done|done|by apply vp_previous] end.
  auto 10.
Qed.

(** ** The phase of an interrupted change *)

(** Every resource is the one before or the one after. *)
Definition between_resources (before after a : Resources) : Prop :=
  (rs_CA a = rs_CA before ∨ rs_CA a = rs_CA after) ∧ (rs_Hosts a = rs_Hosts before ∨ rs_Hosts a = rs_Hosts after)
  ∧ (rs_CollectorUnit a = rs_CollectorUnit before ∨ rs_CollectorUnit a = rs_CollectorUnit after)
  ∧ (rs_UploaderUnit a = rs_UploaderUnit before ∨ rs_UploaderUnit a = rs_UploaderUnit after)
  ∧ (rs_InstalledConfig a = rs_InstalledConfig before ∨ rs_InstalledConfig a = rs_InstalledConfig after).

Lemma either_spec a b c : either a b c = true ↔ a = b ∨ a = c.
Proof. unfold either. by rewrite orb_true_iff, !str_eqb_eq. Qed.

(** Exactly what each classification says. *)
Lemma Classify_spec r d o c : Encode r = Some d → Transition_typed r →
  Classify r o = Some c ↔ ov_Ledger o = tr_Ledger r ∧
    match c with
    | RecoveryRequired => ov_Receipt o = None ∧ between_resources (tr_PreviousResources r) (tr_NextResources r) (ov_Resources o)
    | Complete => ov_Receipt o = Completion d ∧ ov_Resources o = tr_NextResources r
    end.
Proof.
  intros He Ht. unfold Classify. rewrite He. assert (Completion d = Some ("observer-connected-transition-complete/v1" ++ newline ++ hash d ++ newline)) as Hc.
  { unfold Completion. by rewrite (proj2 (Decode_spec d r) (conj Ht He)). }
  rewrite Hc. destruct (bool_decide (ov_Ledger o = tr_Ledger r)) eqn:El; cbn [negb]; [apply bool_decide_eq_true in El|apply bool_decide_eq_false in El; naive_solver].
  cbv zeta. set (bad := _ || _ || _ || _ || _).
  assert (bad = false ↔ between_resources (tr_PreviousResources r) (tr_NextResources r) (ov_Resources o)) as Hb.
  { subst bad. unfold between_resources. rewrite !orb_false_iff, !negb_false_iff, !either_spec. tauto. }
  assert (ov_Resources o = tr_NextResources r → bad = false) as Hn.
  { intros E. apply Hb. rewrite E. unfold between_resources. auto 10. }
  destruct bad; [destruct c; naive_solver|]. destruct (ov_Receipt o) as [receipt|]; [|destruct c; naive_solver].
  destruct (str_eqb receipt _) eqn:Er; bools.
  - subst receipt. cbn [negb orb]. destruct (bool_decide (ov_Resources o = tr_NextResources r)) eqn:Ea; [apply bool_decide_eq_true in Ea|apply bool_decide_eq_false in Ea]; destruct c; naive_solver.
  - cbn [negb orb]. destruct c; naive_solver.
Qed.

Lemma is_bytes_spec a b : is_bytes a b = true ↔ a = Some b.
Proof. destruct a as [a|]; simpl; [rewrite str_eqb_eq|]; naive_solver. Qed.

(** What is observed in each phase of the change that the stage [files] holds. *)
Definition phase_evidence (files : gmap string string) (r : Transition) (phase : StagedPhase) (o : StagedObserved) : Prop :=
  let transition := bool_decide (tr_PredecessorFormat r = PredecessorTransition) in
  let kept := λ name, if transition then files !! name else None in
  let proposal := files !! StageProposalName in
  so_Ledger o = tr_Ledger r ∧
  match phase with
  | StagedPreparationPending =>
      so_Journal o = kept StagePredecessorName ∧ so_Receipt o = kept StagePredecessorCompletionName ∧ so_Resources o = tr_PreviousResources r
  | StagedForwardRecovery =>
      so_Journal o = proposal ∧ so_Receipt o = kept StagePredecessorCompletionName
      ∧ between_resources (tr_PreviousResources r) (tr_NextResources r) (so_Resources o)
  | StagedCleanupPending =>
      so_Journal o = proposal ∧ so_Receipt o = (proposal ≫= Completion) ∧ so_Receipt o ≠ kept StagePredecessorCompletionName
      ∧ so_Resources o = tr_NextResources r
  end.

(** A change is not its own predecessor: the generation goes up. *)
Lemma predecessor_differs r pr co d : Decode d = Some r → tr_PredecessorFormat r = PredecessorTransition → predecessor_ok r pr co = true → pr ≠ d.
Proof.
  intros Hd Hf Hok ->. destruct (Decode_parts _ _ Hd) as [Hv Ht]. destruct (predecessor_ok_transition r d co Ht Hv Hf Hok) as (previous & Hd' & _ & _ & E & _).
  assert (previous = r) as -> by congruence. destruct (generation_step r Hv Ht) as [Hg _]. rewrite E in Hg. lia.
Qed.

Lemma Completion_some d r : Decode d = Some r → is_Some (Completion d).
Proof. intros E. unfold Completion. by rewrite E. Qed.

Definition phase_of (c : Classification) : StagedPhase := match c with Complete => StagedCleanupPending | RecoveryRequired => StagedForwardRecovery end.

(** The classification once the proposal is the journal. *)
Lemma published_phase r d o phase : Encode r = Some d → Transition_typed r →
  match Classify r o with Some Complete => Some StagedCleanupPending | Some RecoveryRequired => Some StagedForwardRecovery | None => None end = Some phase
  ↔ ov_Ledger o = tr_Ledger r ∧
    match phase with
    | StagedPreparationPending => False
    | StagedForwardRecovery => ov_Receipt o = None ∧ between_resources (tr_PreviousResources r) (tr_NextResources r) (ov_Resources o)
    | StagedCleanupPending => ov_Receipt o = Completion d ∧ ov_Resources o = tr_NextResources r
    end.
Proof.
  intros He Ht. transitivity (∃ c, Classify r o = Some c ∧ phase = phase_of c).
  { destruct (Classify r o) as [[]|]; simpl; split; [intros [= <-]; by eexists|intros (c & [= <-] & ->); done|intros [= <-]; by eexists|intros (c & [= <-] & ->); done|done|by intros (c & ? & _)]. }
  setoid_rewrite (λ c, Classify_spec r d o c He Ht). split.
  - intros ([] & Hc & ->); exact Hc.
  - intros [Hl Hp]. destruct phase; [done|by exists RecoveryRequired|by exists Complete].
Qed.

Lemma first_or_legacy_phase preparation files r phase o : stage_parts preparation files r → ValidateStage preparation files = Some r →
  tr_PredecessorFormat r ≠ PredecessorTransition → ClassifyStaged preparation files o = Some phase ↔ phase_evidence files r phase o.
Proof.
  intros Hp Hs Hf. destruct (sp_proposal _ _ _ Hp) as (d & Hd & Hdec). pose proof Hdec as [Ht He]%Decode_spec.
  unfold ClassifyStaged, phase_evidence. rewrite Hs, Hd. cbn [default]. rewrite (bool_decide_eq_false_2 _ Hf). cbv zeta iota.
  assert (str_eqb (tr_PredecessorFormat r) PredecessorTransition = false) as -> by (destruct (str_eqb _ _) eqn:E; bools; done). cbn [andb negb].
  destruct (decide (so_Ledger o = tr_Ledger r)) as [El|El]; [rewrite (bool_decide_eq_true_2 _ El)|rewrite (bool_decide_eq_false_2 _ El); naive_solver]. cbn [negb].
  destruct (so_Journal o) as [j|] eqn:Ej.
  - rewrite bool_decide_eq_false_2 by done. simpl. destruct (str_eqb j d) eqn:Ejd; bools; [subst j|destruct phase; naive_solver]. cbn [negb].
    rewrite (published_phase r d _ phase He Ht). cbn [ov_Resources ov_Ledger ov_Receipt].
    destruct (Completion_some d r Hdec) as [c ->]. clear -El. destruct phase; naive_solver.
  - rewrite bool_decide_eq_true_2 by done. simpl. destruct (decide (so_Receipt o = None)) as [Er|Er]; [rewrite (bool_decide_eq_true_2 _ Er)|rewrite (bool_decide_eq_false_2 _ Er); destruct phase; naive_solver].
    destruct (decide (so_Resources o = tr_PreviousResources r)) as [Ea|Ea]; [rewrite (bool_decide_eq_true_2 _ Ea)|rewrite (bool_decide_eq_false_2 _ Ea)]; destruct phase; naive_solver.
Qed.

Lemma later_phase preparation files r phase o : stage_parts preparation files r → ValidateStage preparation files = Some r →
  tr_PredecessorFormat r = PredecessorTransition → ClassifyStaged preparation files o = Some phase ↔ phase_evidence files r phase o.
Proof.
  intros Hp Hs Hf. destruct (sp_proposal _ _ _ Hp) as (d & Hd & Hdec). pose proof Hdec as [Ht He]%Decode_spec.
  destruct (sp_predecessor _ _ _ Hp) as [[Hn _]|(_ & pr & co & E1 & E2 & Hok)]; [by rewrite Hf in Hn|]. pose proof (predecessor_differs r pr co d Hdec Hf Hok) as Hne.
  unfold ClassifyStaged, phase_evidence. rewrite Hs, Hd, E1, E2. cbn [default]. rewrite (bool_decide_eq_true_2 _ Hf). cbv zeta iota.
  assert (str_eqb (tr_PredecessorFormat r) PredecessorTransition = true) as -> by (by rewrite Hf). cbn [andb negb].
  destruct (Completion_some d r Hdec) as [c Ec]. simpl. rewrite Ec.
  destruct (decide (so_Ledger o = tr_Ledger r)) as [El|El]; [rewrite (bool_decide_eq_true_2 _ El)|rewrite (bool_decide_eq_false_2 _ El); clear -El; naive_solver]. simpl.
  destruct (is_bytes (so_Journal o) pr) eqn:Ej; [apply is_bytes_spec in Ej; rewrite Ej|apply not_true_iff_false in Ej; rewrite is_bytes_spec in Ej].
  - destruct (is_bytes (so_Receipt o) co) eqn:Er; [apply is_bytes_spec in Er|apply not_true_iff_false in Er; rewrite is_bytes_spec in Er; simpl; clear -Er Hne; destruct phase; naive_solver].
    simpl.
    destruct (decide (so_Resources o = tr_PreviousResources r)) as [Ea|Ea]; [rewrite (bool_decide_eq_true_2 _ Ea)|rewrite (bool_decide_eq_false_2 _ Ea)]; simpl; clear -El Er Ea Hne; destruct phase; naive_solver.
  - destruct (is_bytes (so_Journal o) d) eqn:Ed; [apply is_bytes_spec in Ed; rewrite Ed|apply not_true_iff_false in Ed; rewrite is_bytes_spec in Ed; simpl; clear -Ed Ej; destruct phase; naive_solver].
    simpl. destruct (so_Receipt o) as [receipt|] eqn:Er; [rewrite bool_decide_eq_false_2 by done|rewrite bool_decide_eq_true_2 by done; simpl; clear; destruct phase; naive_solver].
    simpl. rewrite (published_phase r d _ phase He Ht). cbn [ov_Resources ov_Ledger ov_Receipt]. rewrite Ec. clear -El Hne Ej. destruct (str_eqb receipt co) eqn:E; bools; destruct phase; naive_solver.
Qed.

(** ** Documents *)

Lemma config_of_contents c vs : config_of (config_contents c ++ vs) = Some (c, vs).
Proof. by destruct c. Qed.
Lemma config_fit_typed c : fit config_tokens (config_contents c) → Config_typed c.
Proof. intros Hf. simpl in Hf. unfold Config_typed. tauto. Qed.

Lemma EncodeConfig_valid c d : EncodeConfig c = Some d → Config_Validate c = true ∧ d = render config_tokens (config_contents c).
Proof. unfold EncodeConfig. destruct (Config_Validate c); [|done]. by intros [= <-]. Qed.

Lemma DecodeConfig_spec d c : DecodeConfig d = Some c ↔ Config_typed c ∧ EncodeConfig c = Some d ∧ slen d ≤ MaxConfigBytes.
Proof.
  unfold DecodeConfig. split.
  - destruct (_ || _) eqn:El; [done|]. bools. destruct (scan config_tokens d) as [vs|] eqn:Es; [|done].
    destruct (config_of vs) as [[c' [|]]|] eqn:Er; [|done|done]. apply config_of_inv in Er as ->. rewrite app_nil_r in Es. apply scan_fit, config_fit_typed in Es.
    destruct (EncodeConfig c') as [b|] eqn:Ee; [|done]. destruct (str_eqb b d) eqn:Eb; [|done]. bools. subst b. intros [= <-]. split_and!; [done|done|lia].
  - intros (Ht & He & Hl). pose proof He as He'. apply EncodeConfig_valid in He as [Hv ->].
    assert (slen (render config_tokens (config_contents c)) =? 0 = false) as -> by done.
    rewrite (proj2 (Z.ltb_ge _ _) Hl), scan_render by (done || by apply config_fit). cbn [orb].
    rewrite <- (app_nil_r (config_contents c)) at 1. by rewrite config_of_contents, He', str_eqb_refl.
Qed.

(** C40: the documents of a connected installation are canonical: the installed configuration, a transition record and
    its preparation are read from some bytes exactly when these are the bytes the document is written as, with every
    number in the range of its field and the bytes within their bound; so a document has one text and a text one document. *)
Theorem documents_are_canonical d :
  (∀ c, DecodeConfig d = Some c ↔ Config_typed c ∧ EncodeConfig c = Some d ∧ slen d ≤ MaxConfigBytes)
  ∧ (∀ r, Decode d = Some r ↔ Transition_typed r ∧ Encode r = Some d)
  ∧ (∀ p, DecodePreparation d = Some p ↔ Preparation_typed p ∧ EncodePreparation p = Some d).
Proof. split_and!; intros; [apply DecodeConfig_spec|apply Decode_spec|apply DecodePreparation_spec]. Qed.

(** ** Phases *)

(** C24: the evidence of an interrupted change is classified exactly.  With a stage that validates, the phase is
    "preparation pending" exactly when the journal, its receipt and every resource are still those of the predecessor,
    "forward recovery" exactly when the proposal is the journal, the receipt still that of the predecessor and each
    resource the one before or the one after, "complete, cleanup pending" exactly when the proposal is the journal, the
    receipt is the completion of this proposal and every resource the one after; always with the recorded ledger.
    Anything else is refused, and no evidence is of two phases. *)
Theorem staged_phase_exact preparation files r o phase : ValidateStage preparation files = Some r →
  ClassifyStaged preparation files o = Some phase ↔ phase_evidence files r phase o.
Proof.
  intros Hs. pose proof (ValidateStage_parts _ _ _ Hs) as Hp. destruct (decide (tr_PredecessorFormat r = PredecessorTransition)).
  - by apply (later_phase preparation).
  - by apply (first_or_legacy_phase preparation).
Qed.

(** ** Histories *)

(** A stage holds the record [r], and [previous] as what it follows. *)
Definition staged_after (previous r : Transition) : Prop :=
  ∃ preparation files predecessor, ValidateStage preparation files = Some r ∧ tr_PredecessorFormat r = PredecessorTransition
    ∧ files !! StagePredecessorName = Some predecessor ∧ Decode predecessor = Some previous.

Inductive chain : Transition → list Transition → Prop :=
  | chain_nil r : chain r []
  | chain_cons r0 r l : staged_after r0 r → chain r l → chain r0 (r :: l).

(** What no change touches. *)
Definition installation (c : Config) : string * string * string * string * Z * Z * Z * Z :=
  (pc_Version c, pc_State c, pc_ServerID c, pc_ConnectorID c, pc_CollectorUID c, pc_UploaderUID c, pc_UploaderGID c, pc_SharedGID c).

(** [r] comes [k] changes after [r0], all of the operations [ops]. *)
Record follows (r0 r : Transition) (k : Z) (ops : list string) : Prop := {
  fo_step : config_step (tr_Operation r) (tr_Previous r) (tr_Next r);
  fo_installation : installation (tr_Next r) = installation (tr_Next r0);
  fo_generation : pc_PolicyGeneration (tr_Next r) = pc_PolicyGeneration (tr_Next r0) + k;
  fo_contract : tr_ContractSHA256 r = tr_ContractSHA256 r0;
  fo_code : codeSelect ∉ ops → pc_ArtifactSHA256 (tr_Next r) = pc_ArtifactSHA256 (tr_Next r0)
    ∧ tr_PreviousCodeAfter r = tr_PreviousCodeAfter r0;
  fo_network : refresh ∉ ops → pc_Addresses (tr_Next r) = pc_Addresses (tr_Next r0)
    ∧ rs_CA (tr_NextResources r) = rs_CA (tr_NextResources r0) ∧ rs_Hosts (tr_NextResources r) = rs_Hosts (tr_NextResources r0) }.

Lemma step_follows r0 r : staged_after r0 r → follows r0 r 1 [tr_Operation r].
Proof.
  intros (preparation & files & predecessor & Hs & Hf & Hpr & Hd). destruct (ValidateStage_parts _ _ _ Hs) as [(d & _ & Hr) _ _ _ Hp].
  destruct (Decode_parts _ _ Hr) as [Hv Ht]. destruct Hp as [[Hn _]|(_ & pr & co & E & _ & Hok)]; [by rewrite Hf in Hn|].
  destruct (predecessor_ok_transition r pr co Ht Hv Hf Hok) as (p & Hp & _ & _ & Hnext & Hres & Hcon & Hcode). assert (p = r0) as -> by congruence.
  pose proof (valid_step r Hv Ht) as Hstep. destruct (generation_step r Hv Ht) as [Hg _]. pose proof (vp_operation r Hv) as Ho.
  rewrite <- Hnext in *. rewrite <- Hres in *. split; [by rewrite <- Hnext| |done|done| |].
  - by inversion Hstep.
  - intros Hn. destruct Ho as [(Hop & Hc & _)|(Hop & _)]; [|rewrite Hop in Hn; set_solver]. rewrite Hop in Hstep. split; [by inversion Hstep|congruence].
  - intros Hn. destruct Ho as [(Hop & _)|(Hop & _ & _ & HCA & Hh & _)]; [rewrite Hop in Hn; set_solver|]. rewrite Hop in Hstep. split; [by inversion Hstep|done].
Qed.

Lemma follows_trans r0 r1 r k k' ops ops' : follows r0 r1 k ops → follows r1 r k' ops' → follows r0 r (k + k') (ops ++ ops').
Proof.
  intros [_ I1 G1 C1 A1 N1] [S2 I2 G2 C2 A2 N2]. split; [done|congruence|lia|congruence| |].
  - intros Hn. destruct A1 as [<- <-]; [set_solver|]. apply A2. set_solver.
  - intros Hn. destruct N1 as (<- & <- & <-); [set_solver|]. apply N2. set_solver.
Qed.

(** C25: a history of staged changes keeps the installation.  Whatever stages were validated one after the other, each
    change is one its operation allows (a refresh replaces only the addresses, a code selection only the artifact, by
    another one), the identity of the installation, its users and groups and its contract stay, every change raises the
    generation by exactly one without wrapping, the code and the remembered previous code change only through a code
    selection, and the addresses, the certificate authority and the hosts file only through a refresh. *)
Theorem history_keeps_installation r0 l i r : chain r0 l → l !! i = Some r →
  follows r0 r (Z.of_nat (S i)) (tr_Operation <$> take (S i) l).
Proof.
  intros Hc. revert i r. induction Hc as [r0|r0 r1 l Hs Hc IH]; intros i r Hi; [done|]. destruct i as [|i].
  - injection Hi as <-. by apply step_follows.
  - specialize (IH i r Hi). replace (Z.of_nat (S (S i))) with (1 + Z.of_nat (S i)) by lia.
    by apply (follows_trans r0 r1 r 1 _ [tr_Operation r1]); [apply step_follows|].
Qed.

(** ** Two changes of one installation *)

Fixpoint replicate_text (n : nat) (s : string) : string := match n with O => "" | S n => s ++ replicate_text n s end.

Definition sample_config (artifact : string) (generation : Z) (addresses : list string) : Config :=
  MkConfig ProfileVersion "INSTALLED_READY" ("srv_" ++ replicate_text 32 "a") ("agent_" ++ replicate_text 32 "b") 2001 2002 2003 2004
    (replicate_text 64 artifact) generation addresses.
Definition sample_resources (ca unit : string) (c : Config) : Resources :=
  MkResources (hash ca) (hosts (pc_Addresses c)) (replicate_text 64 unit) (replicate_text 64 unit) (hash (config_bytes c)).
Definition sample_ledger : Ledger :=
  MkLedger (replicate_text 64 "e") (MkPhysical (replicate_text 32 "1") (MkObject 7 9) (MkObject 8 10)).

Definition config1 : Config := sample_config "a" 1 ["1.1.1.1"].
Definition config2 : Config := sample_config "a" 2 ["8.8.8.8"].
Definition config3 : Config := sample_config "b" 3 ["8.8.8.8"].

(** The first change refreshes, the second selects another code. *)
Definition change1 : Transition :=
  MkTransition Version refresh config1 config2 PredecessorNone "" "" "" (replicate_text 64 "d") (sample_resources "ca1" "3" config1)
    (sample_resources "ca2" "4" config2) sample_ledger.
Definition bytes1 : string := Eval vm_compute in default "" (Encode change1).
Definition receipt1 : string := Eval vm_compute in default "" (Completion bytes1).
Definition change2 : Transition :=
  MkTransition Version codeSelect config2 config3 PredecessorTransition (hash receipt1) "" (pc_ArtifactSHA256 config2) (replicate_text 64 "d")
    (sample_resources "ca2" "4" config2) (sample_resources "ca2" "5" config3) sample_ledger.
Definition bytes2 : string := Eval vm_compute in default "" (Encode change2).
Definition preparation2 : string := Eval vm_compute in default "" (Prepare change2 ≫= EncodePreparation).
Definition files2 : gmap string string :=
  list_to_map [(StageProposalName, bytes2); (StageOldCAName, "ca2"); (StageNewCAName, "ca2"); (StagePredecessorName, bytes1);
               (StagePredecessorCompletionName, receipt1)].

(** The unit of the collector is written, the one of the uploader is not. *)
Definition halfway_resources (before after : Resources) : Resources :=
  MkResources (rs_CA after) (rs_Hosts after) (rs_CollectorUnit after) (rs_UploaderUnit before) (rs_InstalledConfig before).
Lemma halfway_between before after : between_resources before after (halfway_resources before after).
Proof. split_and!; auto. Qed.

(** In the middle of the second change. *)
Definition halfway2 : StagedObserved :=
  MkStagedObserved (Some bytes2) (Some receipt1) (halfway_resources (tr_PreviousResources change2) (tr_NextResources change2)) sample_ledger.

Lemma stage2_valid : ValidateStage preparation2 files2 = Some change2.
Proof. vm_compute. reflexivity. Qed.

Lemma history_keeps_installation_witness :
  chain change1 [change2] ∧ follows change1 change2 1 [codeSelect].
Proof.
  assert (chain change1 [change2]) as Hc.
  { apply chain_cons; [|apply chain_nil]. exists preparation2, files2, bytes1. split_and!; [apply stage2_valid|reflexivity|reflexivity|vm_compute; reflexivity]. }
  split; [exact Hc|]. exact (history_keeps_installation change1 [change2] 0 change2 Hc eq_refl).
Defined.

Lemma staged_phase_exact_witness :
  ValidateStage preparation2 files2 = Some change2 ∧ ClassifyStaged preparation2 files2 halfway2 = Some StagedForwardRecovery.
Proof.
  split; [exact stage2_valid|]. apply (staged_phase_exact preparation2 files2 change2 halfway2 StagedForwardRecovery stage2_valid).
  split; [reflexivity|]. split; [reflexivity|]. split; [reflexivity|]. apply halfway_between.
Defined.
