(* ===== verification/Scheduler.v ===== *)
(** * The collection scheduler

    [internal/scheduler/scheduler.go]: one goroutine collects on ticks and triggers,
    publishes the current snapshot and writes the history, while others trigger, read,
    and stop it.  What is done under the mutex [mu] is a section, one call; the calls of
    the goroutines interleave.  The projections of a collected snapshot are those of the
    projection and history packages, behind a class. *)

From S2P Require Import Prelude GoTime Effects.

#[local] Open Scope string_scope.
#[local] Open Scope Z_scope.
#[local] Open Scope prog_scope.

(** What the scheduler is given: the snapshots of a collector and what is made of them. *)
Class Documents := {
  Network : Type;
  RawRest : Type;
  Content : Type;
  Statuses : Type;
  Samples : Type;
  Health : Type }.

Section documents.
Context `{D : !Documents}.

(** [observation.Snapshot]. *)
Record Snapshot := MkSnapshot { sn_ObservedAt : time; sn_Network : Network; sn_Rest : RawRest }.

(** [projection.CurrentSnapshot]; copies of it are the same value. *)
Record CurrentSnapshot := MkCurrent { cs_Sequence : Z; cs_CollectionState : string; cs_ObservedAt : time; cs_Content : Content }.

(** What a later collection needs of an earlier one. *)
Definition Previous : Type := time * Network.
End documents.
Arguments Previous {D}.

(** [projection.Current] with the system of the configuration, [projection.MetricStatuses]
    and [history.Extract]. *)
Class Projections `{D : !Documents} := {
  project : Snapshot → CurrentSnapshot;
  MetricStatusesOf : Snapshot → Statuses;
  Extract : Snapshot → option Previous → Samples }.

Section scheduler.
Context `{P : Projections}.

(** ** Configuration *)

Record Config := MkConfig { cf_Interval : Z; cf_CollectionTimeout : Z; cf_StorageTimeout : Z }.

Definition DefaultConfig : Config := MkConfig (15 * Second) (10 * Second) (5 * Second).

Definition positive_or (value fallback : Z) : Z := if value <=? 0 then fallback else value.

(** Whether there are a collector and a store; the clock, the ticker and the system are
    taken from the defaults when absent. *)
Definition New (collect store : bool) (config : Config) : option Config :=
  if negb collect || negb store then None
  else Some (MkConfig (positive_or (cf_Interval config) (cf_Interval DefaultConfig))
               (positive_or (cf_CollectionTimeout config) (cf_CollectionTimeout DefaultConfig))
               (positive_or (cf_StorageTimeout config) (cf_StorageTimeout DefaultConfig))).

(** ** What the mutex guards *)

Record Stats := MkStats {
  st_Collections : Z; st_CollectionFailures : Z; st_StoreFailures : Z; st_TriggersDropped : Z;
  st_LatestCollectionState : string; st_LatestCollectionAt : time }.

(** [sh_current] is none as long as [hasCurrent] is false. *)
Record Shared := MkShared { sh_current : option CurrentSnapshot; sh_statuses : option Statuses; sh_stats : Stats }.

Definition shared0 : Shared := MkShared None None (MkStats 0 0 0 0 "" zeroTime).

Definition failed (c : CurrentSnapshot) : bool := str_eqb (cs_CollectionState c) "FAILED".
Definition hasCurrent (s : Shared) : bool := match sh_current s with Some _ => true | None => false end.
Definition increment (n : Z) : Z := wrap_u64 (n + 1).

Definition store_failure (s : Stats) : Stats :=
  MkStats (st_Collections s) (st_CollectionFailures s) (increment (st_StoreFailures s)) (st_TriggersDropped s) (st_LatestCollectionState s)
    (st_LatestCollectionAt s).

(** The sections, in the order of the code. *)
Inductive section : Type → Type :=
  | SecRecord (candidate : CurrentSnapshot) (statuses : Statuses) : section bool
  | SecStoreFailure : section unit
  | SecPublish (candidate : CurrentSnapshot) (sequence : Z) : section bool
  | SecDropped : section unit
  | SecCurrent : section (option CurrentSnapshot)
  | SecStats : section Stats
  | SecStatuses : section (option Statuses).

(** A collection is counted; the answer says that it failed and a snapshot is kept. *)
Definition record_candidate (c : CurrentSnapshot) (statuses : Statuses) (s : Shared) : bool * Shared :=
  let t := sh_stats s in
  let failures := if failed c then increment (st_CollectionFailures t) else st_CollectionFailures t in
  (failed c && hasCurrent s,
   MkShared (sh_current s) (Some statuses)
     (MkStats (increment (st_Collections t)) failures (st_StoreFailures t) (st_TriggersDropped t) (cs_CollectionState c) (UTC (cs_ObservedAt c)))).

(** A sequence that does not go up is refused. *)
Definition publish_candidate (c : CurrentSnapshot) (sequence : Z) (s : Shared) : bool * Shared :=
  if match sh_current s with Some current => sequence <=? cs_Sequence current | None => false end
  then (false, MkShared (sh_current s) (sh_statuses s) (store_failure (sh_stats s)))
  else (true, MkShared (Some (MkCurrent sequence (cs_CollectionState c) (cs_ObservedAt c) (cs_Content c))) (sh_statuses s) (sh_stats s)).

Definition drop_trigger (s : Shared) : Shared :=
  let t := sh_stats s in
  MkShared (sh_current s) (sh_statuses s)
    (MkStats (st_Collections t) (st_CollectionFailures t) (st_StoreFailures t) (increment (st_TriggersDropped t)) (st_LatestCollectionState t)
       (st_LatestCollectionAt t)).

Definition enter {A} (x : section A) (s : Shared) : A * Shared :=
  match x in section A return A * Shared with
  | SecRecord c statuses => record_candidate c statuses s
  | SecStoreFailure => (tt, MkShared (sh_current s) (sh_statuses s) (store_failure (sh_stats s)))
  | SecPublish c sequence => publish_candidate c sequence s
  | SecDropped => (tt, drop_trigger s)
  | SecCurrent => (sh_current s, s)
  | SecStats => (sh_stats s, s)
  | SecStatuses => (sh_statuses s, s)
  end.

(** ** Calls *)

(** What the loop woke up for. *)
Inductive signal := SigDone | SigTick | SigTrigger.

(** Errors of [store.Close]; none for [nil]. *)
Definition close_error : Type := option string.

(** [CStart] and [CStopping] are what [Start] and [Stop] do under [lifecycleMu],
    [CCloseStore] what the loop does under it: it closes the store and keeps its error. *)
Inductive SCall : Type → Type :=
  | CCollect (timeout : Z) : SCall Snapshot
  | CSection A (x : section A) : SCall A
  | CNextSequence (timeout : Z) : SCall (option Z)
  | CWriteSamples (samples : Samples) : SCall bool
  | CNow : SCall time
  | CMaintain (now : time) : SCall bool
  | CHealth : SCall Health
  | CNewTicker (interval : Z) : SCall unit
  | CSelect : SCall signal
  | CStopTicker : SCall unit
  | CCloseStore : SCall unit
  | CCloseDone : SCall unit
  | CStart : SCall bool
  | CStopping : SCall bool
  | CCancel : SCall unit
  | CAwait : SCall bool
  | CCloseErr : SCall close_error
  | CTrySend : SCall bool.
#[global] Arguments CSection {A} x.

(** ** The loop *)

Variable config : Config.

Definition count_failure (ok : bool) : prog SCall unit :=
  if ok then Ret tt else (_ <~ CSection SecStoreFailure; Ret tt).

Definition maintain : prog SCall unit :=
  now <~ CNow;
  ok <~ CMaintain now;
  count_failure ok.

Definition previousSnapshot (raw : Snapshot) : Previous := (sn_ObservedAt raw, sn_Network raw).

Definition collectOnce (previous : option Previous) : prog SCall (option Previous) :=
  raw <~ CCollect (cf_CollectionTimeout config);
  let candidate := project raw in
  keep <~ CSection (SecRecord candidate (MetricStatusesOf raw));
  if keep : bool then (_ <- maintain; Ret previous)
  else
    sequence <~ CNextSequence (cf_StorageTimeout config);
    match sequence with
    | None => _ <~ CSection SecStoreFailure; _ <- maintain; Ret previous
    | Some sequence =>
        published <~ CSection (SecPublish candidate sequence);
        if negb published then Ret previous
        else
          written <~ CWriteSamples (Extract raw previous);
          _ <- count_failure written;
          now <~ CNow;
          ok <~ CMaintain now;
          _ <- count_failure ok;
          Ret (Some (previousSnapshot raw))
    end.

(** True when the context ended, false when [rounds] were not enough for that. *)
Fixpoint turns (rounds : nat) (previous : option Previous) : prog SCall bool :=
  match rounds with
  | O => Ret false
  | S rounds =>
      signal <~ CSelect;
      match signal with
      | SigDone => Ret true
      | SigTick | SigTrigger => previous <- collectOnce previous; turns rounds previous
      end
  end.

(** Whatever the loop still has to do at its end is done last to first. *)
Definition loop (rounds : nat) : prog SCall unit :=
  _ <~ CNewTicker (cf_Interval config);
  previous <- collectOnce None;
  ended <- turns rounds previous;
  if negb ended then Ret tt
  else
    _ <~ CStopTicker;
    _ <~ CCloseStore;
    _ <~ CCloseDone;
    Ret tt.

(** ** The other operations *)

Inductive outcome :=
  | Started (ok : bool)
  | NotStarted
  | Stopped (err : close_error)
  | Interrupted
  | Triggered (sent : bool)
  | IsCurrent (c : option CurrentSnapshot)
  | IsStats (s : Stats)
  | IsStatuses (s : option Statuses)
  | IsHealth (h : Health).

Definition Start : prog SCall outcome := ok <~ CStart; Ret (Started ok).

Definition Stop : prog SCall outcome :=
  started <~ CStopping;
  if negb started then Ret NotStarted
  else
    _ <~ CCancel;
    done <~ CAwait;
    if done : bool then (err <~ CCloseErr; Ret (Stopped err)) else Ret Interrupted.

Definition Trigger : prog SCall outcome :=
  sent <~ CTrySend;
  if sent : bool then Ret (Triggered true)
  else (_ <~ CSection SecDropped; Ret (Triggered false)).

Definition Current : prog SCall outcome := c <~ CSection SecCurrent; Ret (IsCurrent c).
Definition GetStats : prog SCall outcome := s <~ CSection SecStats; Ret (IsStats s).
Definition StoreHealth : prog SCall outcome := h <~ CHealth; Ret (IsHealth h).
Definition MetricStatuses : prog SCall outcome := s <~ CSection SecStatuses; Ret (IsStatuses s).

(** ** What the calls do *)

Inductive event :=
  | Collected (raw : Snapshot)
  | Sequenced (sequence : option Z)
  | Published (c : CurrentSnapshot)
  | Refused
  | Written (ok : bool)
  | Maintained (ok : bool)
  | Woken (s : signal)
  | TickerStopped
  | ClosedStore (err : close_error)
  | Sent
  | Dropped
  | ReadCurrent (c : option CurrentSnapshot)
  | AskedHealth (h : Health).

Record world := MkWorld {
  w_shared : Shared; w_trigger : bool; w_started : bool; w_cancelled : bool; w_done : bool; w_closeErr : close_error; w_log : list event }.

Definition world0 : world := MkWorld shared0 false false false false None [].

Definition logged (w : world) (e : event) : world :=
  MkWorld (w_shared w) (w_trigger w) (w_started w) (w_cancelled w) (w_done w) (w_closeErr w) (w_log w ++ [e]).
Definition with_shared (w : world) (s : Shared) : world :=
  MkWorld s (w_trigger w) (w_started w) (w_cancelled w) (w_done w) (w_closeErr w) (w_log w).
Definition with_trigger (w : world) (b : bool) : world :=
  MkWorld (w_shared w) b (w_started w) (w_cancelled w) (w_done w) (w_closeErr w) (w_log w).
Definition with_started (w : world) : world :=
  MkWorld (w_shared w) (w_trigger w) true (w_cancelled w) (w_done w) (w_closeErr w) (w_log w).
Definition with_cancelled (w : world) : world :=
  MkWorld (w_shared w) (w_trigger w) (w_started w) true (w_done w) (w_closeErr w) (w_log w).
Definition with_done (w : world) : world :=
  MkWorld (w_shared w) (w_trigger w) (w_started w) (w_cancelled w) true (w_closeErr w) (w_log w).
Definition with_closeErr (w : world) (e : close_error) : world :=
  MkWorld (w_shared w) (w_trigger w) (w_started w) (w_cancelled w) (w_done w) e (w_log w).

(** What is noted of a section. *)
Definition section_event {A} (x : section A) : A → Shared → option event :=
  match x in section A return A → Shared → option event with
  | SecPublish _ _ => λ ok s, Some (if ok then match sh_current s with Some c => Published c | None => Refused end else Refused)
  | SecDropped => λ _ _, Some Dropped
  | SecCurrent => λ c _, Some (ReadCurrent c)
  | _ => λ _ _, None
  end.

Definition in_section {A} (x : section A) (w : world) : A * world :=
  let '(a, s) := enter x (w_shared w) in
  let w := with_shared w s in
  (a, match section_event x a s with Some e => logged w e | None => w end).

Definition act A (e : SCall A) : world → A → world → Prop :=
  match e in SCall A return world → A → world → Prop with
  | CCollect _ => λ w raw w', w' = logged w (Collected raw)
  | CSection x => λ w a w', (a, w') = in_section x w
  | CNextSequence _ => λ w r w', w' = logged w (Sequenced r)
  | CWriteSamples _ => λ w ok w', w' = logged w (Written ok)
  | CNow => λ w _ w', w' = w
  | CMaintain _ => λ w ok w', w' = logged w (Maintained ok)
  | CHealth => λ w h w', w' = logged w (AskedHealth h)
  | CNewTicker _ => λ w _ w', w' = w
  | CSelect => λ w s w',
      match s with
      | SigDone => w_cancelled w = true ∧ w' = logged w (Woken SigDone)
      | SigTick => w' = logged w (Woken SigTick)
      | SigTrigger => w_trigger w = true ∧ w' = logged (with_trigger w false) (Woken SigTrigger)
      end
  | CStopTicker => λ w _ w', w' = logged w TickerStopped
  | CCloseStore => λ w _ w', ∃ err, w' = logged (with_closeErr w err) (ClosedStore err)
  | CCloseDone => λ w _ w', w' = with_done w
  | CStart => λ w ok w', ok = negb (w_started w) ∧ w' = with_started w
  | CStopping => λ w b w', b = w_started w ∧ w' = w
  | CCancel => λ w _ w', w' = with_cancelled w
  | CAwait => λ w b w', w' = w ∧ (b = true → w_done w = true)
  | CCloseErr => λ w e w', e = w_closeErr w ∧ w' = w
  | CTrySend => λ w b w', b = negb (w_trigger w) ∧ w' = if w_trigger w then w else logged (with_trigger w true) Sent
  end.

(** ** The goroutines *)

(** The loop, once started, and the callers of the operations. *)
Record system := MkSystem { sy_world : world; sy_loop : option (prog SCall unit); sy_threads : gmap nat (prog SCall outcome) }.

Inductive operation := OpStart | OpStop | OpTrigger | OpCurrent | OpStats | OpHealth | OpStatuses.
Definition operation_prog (o : operation) : prog SCall outcome :=
  match o with
  | OpStart => Start | OpStop => Stop | OpTrigger => Trigger | OpCurrent => Current | OpStats => GetStats | OpHealth => StoreHealth | OpStatuses => MetricStatuses
  end.

(** A successful [Start] leaves the loop running. *)
Definition spawned {A} (e : SCall A) (rounds : nat) : A → option (prog SCall unit) → option (prog SCall unit) :=
  match e in SCall A return A → option (prog SCall unit) → option (prog SCall unit) with
  | CStart => λ ok l, if ok : bool then Some (loop rounds) else l
  | _ => λ _ l, l
  end.

Inductive sstep : system → system → Prop :=
  | ss_call_operation o t w l ts : ts !! t = None → sstep (MkSystem w l ts) (MkSystem w l (<[t := operation_prog o]> ts))
  | ss_loop A (e : SCall A) k a w w' ts : act A e w a w' → sstep (MkSystem w (Some (Call e k)) ts) (MkSystem w' (Some (k a)) ts)
  | ss_thread t A (e : SCall A) k a rounds w w' l ts : ts !! t = Some (Call e k) → act A e w a w' →
      sstep (MkSystem w l ts) (MkSystem w' (spawned e rounds a l) (<[t := k a]> ts))
  | ss_parent w l ts : sstep (MkSystem w l ts) (MkSystem (with_cancelled w) l ts).

Definition system0 : system := MkSystem world0 None ∅.
End scheduler.
