(* ===== verification/SchedulerSafety.v ===== *)
(** * The collection scheduler: ordered snapshots, one close, exact accounts

    The loop is the only goroutine that changes the current snapshot, the store and
    their statistics.  Its assertions are stable under what others do ([quiet]), each of
    its calls is made where it is [legal], and legal calls preserve what is always true
    ([world_ok]).  In the system the loop and any number of callers interleave, and the
    store, the collector, the ticker and the contexts may do anything; schedules can be
    played. *)

From S2P Require Import Prelude GoTime Effects Scheduler.

#[local] Open Scope string_scope.
#[local] Open Scope Z_scope.
#[local] Open Scope prog_scope.

Section safety.
Context `{P : Projections}.
Variable config : Config.

Notation world := (@world D).
Notation event := (@event D).
Notation SCall := (@SCall D).

(** ** What is noted *)

Fixpoint published (l : list event) : list CurrentSnapshot :=
  match l with [] => [] | Published c :: l => c :: published l | _ :: l => published l end.

(** Noted by other goroutines. *)
Definition foreign (e : event) : bool := match e with Sent | Dropped | ReadCurrent _ | AskedHealth _ => true | _ => false end.
Definition mine (l : list event) : list event := List.filter (λ e, negb (foreign e)) l.

Definition tally (p : event → bool) (l : list event) : Z := Z.of_nat (length (List.filter p l)).

Definition is_collected (e : event) : bool := match e with Collected _ => true | _ => false end.
Definition is_failed (e : event) : bool := match e with Collected raw => failed (project raw) | _ => false end.
Definition is_store_failure (e : event) : bool :=
  match e with Sequenced None | Refused | Written false | Maintained false => true | _ => false end.
Definition is_woken (e : event) : bool := match e with Woken SigTick | Woken SigTrigger => true | _ => false end.
Definition is_taken (e : event) : bool := match e with Woken SigTrigger => true | _ => false end.
Definition is_sent (e : event) : bool := match e with Sent => true | _ => false end.
Definition is_dropped (e : event) : bool := match e with Dropped => true | _ => false end.
Definition is_closed (e : event) : bool := match e with ClosedStore _ => true | _ => false end.
(** Calls that change the store, or close it. *)
Definition is_store (e : event) : bool :=
  match e with Sequenced _ | Written _ | Maintained _ | ClosedStore _ => true | _ => false end.
Definition is_ticker_stopped (e : event) : bool := match e with TickerStopped => true | _ => false end.

Lemma tally_app p l l' : tally p (l ++ l') = tally p l + tally p l'.
Proof. unfold tally. rewrite List.filter_app, length_app. lia. Qed.
Lemma tally_one p e : tally p [e] = if p e then 1 else 0.
Proof. unfold tally. simpl. by destruct (p e). Qed.
Lemma tally_nonneg p l : 0 ≤ tally p l.
Proof. unfold tally. lia. Qed.

Lemma mine_app l l' : mine (l ++ l') = (mine l ++ mine l')%list.
Proof. apply List.filter_app. Qed.

Lemma tally_mine p l : (∀ e, foreign e = true → p e = false) → tally p (mine l) = tally p l.
Proof.
  intros Hp. induction l as [|e l IH]; [done|]. change (e :: l) with ([e] ++ l)%list. rewrite mine_app, !tally_app, IH. f_equal.
  unfold mine. simpl. destruct (foreign e) eqn:E; [|done]. simpl. by rewrite tally_one, (Hp e E).
Qed.

Lemma published_app l l' : published (l ++ l') = (published l ++ published l')%list.
Proof. induction l as [|[] l IH]; simpl; by rewrite ?IH. Qed.

Lemma published_mine l : published (mine l) = published l.
Proof. induction l as [|[] l IH]; unfold mine in *; simpl; by rewrite ?IH. Qed.

Lemma increment_wrap n : increment (wrap_u64 n) = wrap_u64 (n + 1).
Proof. unfold increment, wrap_u64. by rewrite Z.add_mod_idemp_l. Qed.

(** ** What is always true *)

(** Snapshots that are published have sequences that go up; none but the first is of a
    collection that failed. *)
Definition ordered (l : list CurrentSnapshot) : Prop :=
  (∀ i j c d, (i < j)%nat → l !! i = Some c → l !! j = Some d → cs_Sequence c < cs_Sequence d)
  ∧ ∀ i c, l !! S i = Some c → failed c = false.

(** Every prefix that ends with a read ends with what was published last. *)
Definition reads_ok (l : list event) : Prop :=
  ∀ l1 c l2, l = (l1 ++ ReadCurrent c :: l2)%list → c = last (published l1).

(** The store is closed at most once, after the ticker was stopped and after all its
    other calls. *)
Definition closing_ok (l : list event) : Prop :=
  ∀ l1 err l2, l = (l1 ++ ClosedStore err :: l2)%list → Forall (λ e, is_store e = false) l2 ∧ 1 ≤ tally is_ticker_stopped l1.

(** What the loop alone changes. *)
Definition loop_stats (s : Stats) : Z * Z * Z * string * time :=
  (st_Collections s, st_CollectionFailures s, st_StoreFailures s, st_LatestCollectionState s, st_LatestCollectionAt s).

(** A projection of something that was collected, with a sequence the store gave. *)
Definition sourced (l : list event) (c : CurrentSnapshot) : Prop :=
  ∃ raw n, Collected raw ∈ l ∧ Sequenced (Some n) ∈ l ∧ let x := project raw in c = MkCurrent n (cs_CollectionState x) (cs_ObservedAt x) (cs_Content x).

Record world_ok (w : world) : Prop := {
  ok_sourced : ∀ c, c ∈ published (w_log w) → sourced (w_log w) c;
  ok_current : sh_current (w_shared w) = last (published (w_log w));
  ok_ordered : ordered (published (w_log w));
  ok_reads : reads_ok (w_log w);
  ok_closing : closing_ok (w_log w);
  ok_done : w_done w = true → 1 ≤ tally is_closed (w_log w);
  ok_closeErr : ∀ err, ClosedStore err ∈ w_log w → w_closeErr w = err;
  ok_trigger : tally is_sent (w_log w) = tally is_taken (w_log w) + if w_trigger w then 1 else 0;
  ok_dropped : st_TriggersDropped (sh_stats (w_shared w)) = wrap_u64 (tally is_dropped (w_log w));
  ok_before : w_started w = false → mine (w_log w) = [] ∧ loop_stats (sh_stats (w_shared w)) = (0, 0, 0, "", zeroTime) }.

(** Collections, failed collections and failed store calls that are noted but not yet
    counted. *)
Record owes (w : world) (c f s t : Z) : Prop := {
  ow_collections : st_Collections (sh_stats (w_shared w)) = wrap_u64 (tally is_collected (w_log w) - c);
  ow_failures : st_CollectionFailures (sh_stats (w_shared w)) = wrap_u64 (tally is_failed (w_log w) - f);
  ow_store : st_StoreFailures (sh_stats (w_shared w)) = wrap_u64 (tally is_store_failure (w_log w) - s);
  ow_turns : tally is_collected (w_log w) = t + tally is_woken (w_log w) }.

Definition open (w : world) : Prop := tally is_closed (w_log w) = 0.

(** Where a call may be made. *)
Definition legal A (e : SCall A) : world → Prop :=
  match e with
  | CCollect _ | CNextSequence _ | CWriteSamples _ | CMaintain _ => open
  | CSection (SecPublish c n) => λ w, (failed c = true → sh_current (w_shared w) = None)
      ∧ ∃ raw, Collected raw ∈ w_log w ∧ Sequenced (Some n) ∈ w_log w ∧ c = project raw
  | CSelect => λ w, open w ∧ owes w 0 0 0 1
  | CStopTicker => λ w, open w ∧ owes w 0 0 0 1
  | CCloseStore => λ w, open w ∧ 1 ≤ tally is_ticker_stopped (w_log w)
  | CCloseDone => λ w, 1 ≤ tally is_closed (w_log w)
  | CCloseErr => λ w, w_done w = true
  | _ => λ _, True
  end.

(** ** Calls keep what is always true *)

Lemma ordered_snoc l c : ordered l → (∀ d, last l = Some d → cs_Sequence d < cs_Sequence c) → (l ≠ [] → failed c = false) → ordered (l ++ [c]).
Proof.
  intros [Ho Hf] Hl Hc. split.
  - intros i j a b Hij Ha Hb. destruct (decide (j < length l)%nat) as [Hj|Hj].
    + rewrite lookup_app_l in Ha, Hb by lia. by apply (Ho i j).
    + apply lookup_app_Some in Hb as [Hb|[Hj' Hb]]; [apply lookup_lt_Some in Hb; lia|]. apply list_lookup_singleton_Some in Hb as [Hb <-].
      rewrite lookup_app_l in Ha by lia. destruct (last l) as [d|] eqn:El; [|apply last_None in El as ->; done].
      specialize (Hl d eq_refl). rewrite last_lookup in El. destruct (decide (i = pred (length l))) as [->|Hi]; [congruence|].
      assert (cs_Sequence a < cs_Sequence d); [|lia]. eapply (Ho i (pred (length l))); [lia|done|done].
  - intros i a Ha. apply lookup_app_Some in Ha as [Ha|[Hi Ha]]; [by eapply Hf|]. apply list_lookup_singleton_Some in Ha as [Ha <-].
    apply Hc. intros ->. simpl in *. lia.
Qed.

(** A note that is neither a read nor a close. *)
Lemma snoc_split {A} (l l1 l2 : list A) x y : (l ++ [x] = l1 ++ y :: l2)%list → (l1 = l ∧ y = x ∧ l2 = []) ∨ ∃ l3, l2 = (l3 ++ [x])%list ∧ l = (l1 ++ y :: l3)%list.
Proof.
  intros E. destruct l2 as [|z l2 _] using rev_ind.
  - apply app_inj_tail in E as [-> ->]. auto.
  - right. exists l2. rewrite app_comm_cons, app_assoc in E. apply app_inj_tail in E as [-> ->]. done.
Qed.

Lemma reads_snoc l e : reads_ok l → (∀ c, e = ReadCurrent c → c = last (published l)) → reads_ok (l ++ [e]).
Proof. intros Hr He l1 c l2 E. apply snoc_split in E as [(-> & <- & ->)|(l3 & -> & ->)]; [by apply He|by eapply Hr]. Qed.

Lemma closing_snoc l e : closing_ok l → (is_store e = true → tally is_closed l = 0) → (is_closed e = true → 1 ≤ tally is_ticker_stopped l) → closing_ok (l ++ [e]).
Proof.
  intros Hc Hs Ht l1 err l2 E. apply snoc_split in E as [(-> & <- & ->)|(l3 & -> & ->)]; [split; [done|by apply Ht]|].
  destruct (Hc _ _ _ eq_refl) as [H1 H2]. split; [|done]. apply Forall_app. split; [done|]. constructor; [|done].
  destruct (is_store e); [|done]. specialize (Hs eq_refl). change (ClosedStore err :: l3) with ([ClosedStore err] ++ l3)%list in Hs.
  rewrite !tally_app, tally_one in Hs. pose proof (tally_nonneg is_closed l1). pose proof (tally_nonneg is_closed l3). simpl in Hs. lia.
Qed.

Lemma sourced_app l l' c : sourced l c → sourced (l ++ l') c.
Proof. intros (raw & n & H1 & H2 & H3). exists raw, n. split_and!; [set_solver|set_solver|done]. Qed.

Lemma tally_in p l e : e ∈ l → p e = true → 1 ≤ tally p l.
Proof.
  intros (l1 & l2 & ->)%list_elem_of_split Hp. change (e :: l2) with ([e] ++ l2)%list. rewrite !tally_app, tally_one, Hp.
  pose proof (tally_nonneg p l1). pose proof (tally_nonneg p l2). lia.
Qed.

(** One more note. *)
Lemma ok_noted w w' e : world_ok w → w_log w' = (w_log w ++ [e])%list →
  sh_current (w_shared w') = last (published (w_log w ++ [e])) → ordered (published (w_log w ++ [e])) →
  (∀ c, e = Published c → sourced (w_log w) c) → (∀ c, e = ReadCurrent c → c = sh_current (w_shared w)) → (is_store e = true → open w) →
  (is_closed e = true → 1 ≤ tally is_ticker_stopped (w_log w)) → w_done w' = w_done w →
  (if is_closed e then e = ClosedStore (w_closeErr w') else w_closeErr w' = w_closeErr w) →
  (if w_trigger w' then 1 else 0) = (if w_trigger w then 1 else 0) + tally is_sent [e] - tally is_taken [e] →
  st_TriggersDropped (sh_stats (w_shared w')) = (if is_dropped e then increment (st_TriggersDropped (sh_stats (w_shared w))) else st_TriggersDropped (sh_stats (w_shared w))) →
  (w_started w' = false → w_started w = false ∧ foreign e = true ∧ loop_stats (sh_stats (w_shared w')) = loop_stats (sh_stats (w_shared w))) →
  world_ok w'.
Proof.
  intros [H0 H1 H2 H3 H4 H5 H6 H7 H8 H9] El Ec Eo Ef Er Es Et Ed Ex Eg Ep Eb. split; rewrite ?El; try done.
  - intros c. rewrite published_app. intros [Hc|Hc]%elem_of_app; apply sourced_app; [by apply H0|]. destruct e; try (by apply not_elem_of_nil in Hc).
    apply list_elem_of_singleton in Hc as ->. by apply Ef.
  - apply reads_snoc; [done|]. intros c Hc. rewrite (Er c Hc). exact H1.
  - by apply closing_snoc.
  - intros Hd. rewrite Ed in Hd. specialize (H5 Hd). rewrite tally_app. pose proof (tally_nonneg is_closed [e]). lia.
  - intros err [Hin|Hin]%elem_of_app.
    + destruct (is_closed e) eqn:E.
      * apply (tally_in is_closed) in Hin; [|done]. specialize (Es ltac:(by destruct e)). unfold open in Es. lia.
      * rewrite Ex. by apply H6.
    + apply list_elem_of_singleton in Hin as <-. simpl in Ex. congruence.
  - rewrite !tally_app. lia.
  - rewrite Ep, tally_app, tally_one, H8. destruct (is_dropped e); [apply increment_wrap|f_equal; lia].
  - intros Hs. destruct (Eb Hs) as (Hs' & Hf & ->). destruct (H9 Hs') as [Hm Hl]. split; [|done]. rewrite mine_app, Hm. unfold mine. simpl. by rewrite Hf.
Qed.

Definition plain_event (e : event) : bool :=
  match e with Published _ | ReadCurrent _ | ClosedStore _ | Sent | Dropped | AskedHealth _ | Woken SigTrigger => false | _ => true end.

Lemma ok_plain w e : world_ok w → plain_event e = true → w_started w = true → (is_store e = true → open w) → world_ok (logged w e).
Proof.
  intros Hw Hp Hs Ho. assert (published (w_log w ++ [e]) = published (w_log w)) as Hpub.
  { rewrite published_app. destruct e; try done; by rewrite app_nil_r. }
  apply (ok_noted w _ e); try done; rewrite ?Hpub; try apply Hw; destruct e as [| | | | | |[]| | | | | |]; try done; simpl; rewrite ?tally_one; simpl; try (intros; congruence); lia.
Qed.

(** A change of the statistics of the loop. *)
Lemma ok_stats w s : world_ok w → w_started w = true → sh_current s = sh_current (w_shared w) →
  st_TriggersDropped (sh_stats s) = st_TriggersDropped (sh_stats (w_shared w)) → world_ok (with_shared w s).
Proof. intros [H0 H1 H2 H3 H4 H5 H6 H7 H8 H9] Hs Hc Hd. split; simpl; try done; [by rewrite Hc|by rewrite Hd|congruence]. Qed.

(** Calls of other goroutines. *)
Definition foreign_call A (e : SCall A) : Prop :=
  match e with
  | CSection (SecDropped | SecCurrent | SecStats | SecStatuses) | CHealth | CStart | CStopping | CCancel | CAwait | CCloseErr | CTrySend => True
  | _ => False
  end.

Lemma ok_same w w' : world_ok w → w_shared w' = w_shared w → w_trigger w' = w_trigger w → (w_started w' = false → w_started w = false) →
  w_done w' = w_done w → w_closeErr w' = w_closeErr w → w_log w' = w_log w → world_ok w'.
Proof.
  intros [H0 H1 H2 H3 H4 H5 H6 H7 H8 H9] E1 E2 E3 E4 E5 E6. split; rewrite ?E1, ?E2, ?E4, ?E5, ?E6; auto.
Qed.

Lemma publish_ok w c n a w' : world_ok w → w_started w = true → (failed c = true → sh_current (w_shared w) = None) →
  (∃ raw, Collected raw ∈ w_log w ∧ Sequenced (Some n) ∈ w_log w ∧ c = project raw) → (a, w') = in_section (SecPublish c n) w → world_ok w'.
Proof.
  intros Hw Hs Hf (raw & Hr & Hn & Hx) E. unfold in_section, enter, publish_candidate in E. destruct (match sh_current (w_shared w) with Some _ => _ | None => _ end) eqn:Ec.
  - injection E as -> ->. apply ok_plain; try done. apply ok_stats; done.
  - injection E as -> ->. simpl. apply (ok_noted w _ (Published (MkCurrent n (cs_CollectionState c) (cs_ObservedAt c) (cs_Content c)))); try done.
    + rewrite published_app. simpl. by rewrite last_snoc.
    + rewrite published_app. simpl. pose proof (ok_current w Hw) as Hcur. apply ordered_snoc; [apply Hw| |].
      * intros d Hd. rewrite <- Hcur in Hd. rewrite Hd in Ec. simpl. lia.
      * intros Hne. change (failed c = false). destruct (failed c); [|done]. rewrite Hf in Hcur by done. symmetry in Hcur. by apply last_None in Hcur.
    + intros d [= <-]. exists raw, n. by rewrite Hx.
    + simpl. rewrite !tally_one. simpl. lia.
    + simpl. congruence.
Qed.

Lemma read_section_ok w A (x : section A) a w' : world_ok w → foreign_call A (CSection x) → (a, w') = in_section x w → world_ok w'.
Proof.
  intros Hw Hf E. destruct x; try done; unfold in_section in E; simpl in E; injection E as -> ->; try (by destruct w).
  - apply (ok_noted w _ Dropped); try done; simpl; rewrite ?published_app, ?app_nil_r; try apply Hw; rewrite ?tally_one; simpl; auto; lia.
  - apply (ok_noted w _ (ReadCurrent (sh_current (w_shared w)))); try done; simpl; rewrite ?published_app, ?app_nil_r; try apply Hw; rewrite ?tally_one; simpl; auto; try lia. congruence.
Qed.

Lemma section_ok w A (x : section A) a w' : world_ok w → legal A (CSection x) w → (¬ foreign_call A (CSection x) → w_started w = true) →
  (a, w') = in_section x w → world_ok w'.
Proof.
  intros Hw Hl Hs E. destruct x; try (eapply (read_section_ok w); [exact Hw| |exact E]; exact I); specialize (Hs (λ x, x)).
  - injection E as -> ->. by apply ok_stats.
  - injection E as -> ->. by apply ok_stats.
  - destruct Hl. by eapply publish_ok.
Qed.

Lemma call_ok A (e : SCall A) w a w' : world_ok w → legal A e w → (¬ foreign_call A e → w_started w = true) → act A e w a w' → world_ok w'.
Proof.
  intros Hw Hl Hs Hx. destruct e; simpl in Hl, Hs, Hx; try (subst w'; exact Hw); try (specialize (Hs ltac:(tauto))).
  - subst w'. by apply ok_plain.
  - eapply section_ok; eauto.
  - subst w'. by apply ok_plain.
  - subst w'. by apply ok_plain.
  - subst w'. by apply ok_plain.
  - subst w'. apply (ok_noted w _ (AskedHealth a)); try done; simpl; rewrite ?published_app, ?app_nil_r; try apply Hw; rewrite ?tally_one; simpl; auto; lia.
  - destruct a; [destruct Hx as [_ ->]; by apply ok_plain|subst w'; by apply ok_plain|]. destruct Hx as [Ht ->].
    apply (ok_noted w _ (Woken SigTrigger)); try done; simpl; rewrite ?published_app, ?app_nil_r; try apply Hw; rewrite ?tally_one, ?Ht; simpl; try lia. congruence.
  - subst w'. by apply ok_plain.
  - destruct Hx as [err ->], Hl as [Ho Ht]. apply (ok_noted w _ (ClosedStore err)); try done; simpl; rewrite ?published_app, ?app_nil_r; try apply Hw; rewrite ?tally_one; simpl; try lia. congruence.
  - subst w'. destruct Hw as [H0 H1 H2 H3 H4 H5 H6 H7 H8 H9]. by split.
  - destruct Hx as [_ ->]. by apply (ok_same w).
  - by destruct Hx as [_ ->].
  - subst w'. by apply (ok_same w).
  - by destruct Hx as [-> _].
  - by destruct Hx as [_ ->].
  - destruct Hx as [_ ->]. destruct (w_trigger w) eqn:Et; [done|].
    apply (ok_noted w _ Sent); try done; simpl; rewrite ?published_app, ?app_nil_r; try apply Hw; rewrite ?tally_one, ?Et; simpl; auto; lia.
Qed.

(** ** What others may do meanwhile *)

(** To the loop: nothing it relies on changes. *)
Record quiet (w u : world) : Prop := {
  qu_ok : world_ok u;
  qu_mine : mine (w_log u) = mine (w_log w);
  qu_current : sh_current (w_shared u) = sh_current (w_shared w);
  qu_stats : loop_stats (sh_stats (w_shared u)) = loop_stats (sh_stats (w_shared w));
  qu_started : w_started w = true → w_started u = true }.

(** To any goroutine: notes stay, and what is done stays done. *)
Record grows (w u : world) : Prop := {
  gr_ok : world_ok u;
  gr_log : ∃ l, w_log u = (w_log w ++ l)%list;
  gr_done : w_done w = true → w_done u = true;
  gr_started : w_started w = true → w_started u = true }.

Lemma still_refl w : world_ok w → quiet w w.
Proof. by split. Qed.
Lemma quiet_trans w1 w2 w3 : quiet w1 w2 → quiet w2 w3 → quiet w1 w3.
Proof. intros [A1 A2 A3 A4 A5] [B1 B2 B3 B4 B5]. split; [done|congruence|congruence|congruence|auto]. Qed.
Lemma grown_refl w : world_ok w → grows w w.
Proof. split; [done|by exists []; rewrite app_nil_r|done|done]. Qed.
Lemma grown_trans w1 w2 w3 : grows w1 w2 → grows w2 w3 → grows w1 w3.
Proof. intros [A1 [l A2] A3 A4] [B1 [l' B2] B3 B4]. split; [done| |auto|auto]. exists (l ++ l')%list. by rewrite B2, A2, app_assoc. Qed.

Lemma section_log {A} (x : section A) w : ∃ l, w_log (in_section x w).2 = (w_log w ++ l)%list ∧ w_done (in_section x w).2 = w_done w
  ∧ w_started (in_section x w).2 = w_started w.
Proof.
  unfold in_section. destruct (enter x (w_shared w)) as [a s]. destruct (section_event x a s) as [e|]; simpl; [by exists [e]|by exists []; rewrite app_nil_r].
Qed.

Lemma step_grows A (e : SCall A) w a w' : world_ok w' → act A e w a w' → grows w w'.
Proof.
  intros Hok Hx. assert ((∃ l, w_log w' = (w_log w ++ l)%list) ∧ (w_done w = true → w_done w' = true) ∧ (w_started w = true → w_started w' = true)) as (? & ? & ?); [|done].
  destruct e; simpl in Hx; try (subst w'; simpl; eauto; fail); try (by subst w'; split_and!; simpl; try done; exists []; rewrite app_nil_r).
  - destruct (section_log x w) as (l & H1 & H2 & H3). rewrite <- Hx in H1, H2, H3. simpl in *. rewrite H2, H3. eauto.
  - destruct a; [destruct Hx as [_ ->]|subst w'|destruct Hx as [_ ->]]; simpl; eauto.
  - destruct Hx as [err ->]. simpl. eauto.
  - destruct Hx as [_ ->]. split_and!; simpl; try done. exists []. by rewrite app_nil_r.
  - destruct Hx as [_ ->]. split_and!; simpl; try done. exists []. by rewrite app_nil_r.
  - destruct Hx as [-> _]. split_and!; simpl; try done. exists []. by rewrite app_nil_r.
  - destruct Hx as [_ ->]. split_and!; simpl; try done. exists []. by rewrite app_nil_r.
  - destruct Hx as [_ ->]. destruct (w_trigger w); [|simpl; eauto]. split_and!; simpl; try done. exists []. by rewrite app_nil_r.
Qed.

Lemma step_quiet A (e : SCall A) w a w' : foreign_call A e → world_ok w' → act A e w a w' → quiet w w'.
Proof.
  intros Hf Hok Hx. assert (mine (w_log w') = mine (w_log w) ∧ sh_current (w_shared w') = sh_current (w_shared w)
    ∧ loop_stats (sh_stats (w_shared w')) = loop_stats (sh_stats (w_shared w)) ∧ (w_started w = true → w_started w' = true)) as (? & ? & ? & ?); [|done].
  destruct e as [|B x| | | | | | | | | | | | | | | |]; try done; simpl in Hx.
  - destruct x; try done; unfold in_section in Hx; simpl in Hx; injection Hx as -> ->; simpl; rewrite ?mine_app; simpl; rewrite ?app_nil_r; done.
  - subst w'. simpl. rewrite mine_app. simpl. by rewrite app_nil_r.
  - by destruct Hx as [_ ->].
  - by destruct Hx as [_ ->].
  - by subst w'.
  - by destruct Hx as [-> _].
  - by destruct Hx as [_ ->].
  - destruct Hx as [_ ->]. destruct (w_trigger w); [done|]. simpl. rewrite mine_app. simpl. by rewrite app_nil_r.
Qed.

(** ** Assertions along a routine *)

Fixpoint wpt {R} (rely : world → world → Prop) (p : prog SCall R) (Q : R → world → Prop) (w : world) : Prop :=
  world_ok w ∧
  match p with
  | Ret r => Q r w
  | Call e k => ∀ u, rely w u → legal _ e u ∧ ∀ a u', act _ e u a u' → wpt rely (k a) Q u'
  end.

Lemma wpt_ok {R} rely (p : prog SCall R) Q w : wpt rely p Q w → world_ok w.
Proof. destruct p; intros H; apply H. Qed.

Lemma wpt_ret {R} rely (r : R) Q w : world_ok w → Q r w → wpt rely (Ret r) Q w.
Proof. by split. Qed.

Lemma wpt_mono {R} rely (p : prog SCall R) (Q Q' : R → world → Prop) w : (∀ r u, world_ok u → Q r u → Q' r u) → wpt rely p Q w → wpt rely p Q' w.
Proof.
  intros HQ. revert w. induction p as [r|T e k IH]; intros w [Hok H]; (split; [done|]); [by apply HQ|].
  intros u Hu. destruct (H u Hu) as [Hl Hk]. split; [done|]. intros a u' Hx. by apply IH, Hk.
Qed.

Lemma wpt_bind {R S} rely (p : prog SCall R) (f : R → prog SCall S) Q w : wpt rely p (λ r, wpt rely (f r) Q) w → wpt rely (bind p f) Q w.
Proof.
  revert w. induction p as [r|T e k IH]; intros w [Hok H]; [exact H|]. split; [done|]. intros u Hu. destruct (H u Hu) as [Hl Hk].
  split; [done|]. intros a u' Hx. by apply IH, Hk.
Qed.

(** A call of the loop, from an assertion that is stable. *)
Lemma wpt_call {R A} (e : SCall A) (k : A → prog SCall R) Q (I : world → Prop) w :
  (∀ u, quiet w u → I u) → world_ok w → w_started w = true →
  (∀ u, world_ok u → w_started u = true → I u → legal A e u) →
  (∀ a u u', world_ok u → w_started u = true → I u → act A e u a u' → world_ok u' → w_started u' = true → wpt quiet (k a) Q u') →
  wpt quiet (Call e k) Q w.
Proof.
  intros HI Hok Hs Hl Hk. split; [done|]. intros u Hu. pose proof (qu_ok _ _ Hu) as Hou. pose proof (qu_started _ _ Hu Hs) as Hsu. split; [by apply Hl; auto|].
  intros a u' Hx. assert (world_ok u') as Hou' by (eapply call_ok; eauto). apply (Hk a u u'); auto. eapply gr_started; [by eapply step_grows|done].
Qed.

(** ** The loop *)

(** What the loop knows of its own notes. *)
Lemma quiet_tally p w u : quiet w u → (∀ e, foreign e = true → p e = false) → tally p (w_log u) = tally p (w_log w).
Proof. intros Hq Hp. by rewrite <- (tally_mine p (w_log u)), <- (tally_mine p (w_log w)), (qu_mine _ _ Hq). Qed.

Lemma quiet_open w u : quiet w u → open w → open u.
Proof. intros Hq. unfold open. rewrite (quiet_tally is_closed w u Hq); [done|by intros []]. Qed.

Lemma quiet_owes w u c f s t : quiet w u → owes w c f s t → owes u c f s t.
Proof.
  intros Hq [H1 H2 H3 H4]. pose proof (qu_stats _ _ Hq) as Hs. unfold loop_stats in Hs. injection Hs as E1 E2 E3 _ _.
  pose proof (λ p, quiet_tally p w u Hq) as Ht. split; rewrite ?E1, ?E2, ?E3, !Ht; try done; by intros [].
Qed.

(** Nothing was closed, and the accounts are short of what is given. *)
Definition state (c f s t : Z) (w : world) : Prop := open w ∧ owes w c f s t.

Lemma quiet_state c f s t w u : state c f s t w → quiet w u → state c f s t u.
Proof. intros [Ho Hw] Hq. split; [by eapply quiet_open|by eapply quiet_owes]. Qed.

Definition b2z (b : bool) : Z := if b then 1 else 0.

(** One more note of the loop. *)
Lemma state_logged c f s t w e : state c f s t w → is_closed e = false →
  state (c + b2z (is_collected e)) (f + b2z (is_failed e)) (s + b2z (is_store_failure e)) (t + b2z (is_collected e) - b2z (is_woken e)) (logged w e).
Proof.
  intros [Ho [H1 H2 H3 H4]] Hc. unfold state, open in *. split; [simpl; rewrite tally_app, tally_one, Hc; lia|].
  split; simpl; rewrite ?tally_app, ?tally_one, ?H1, ?H2, ?H3; unfold b2z; try (f_equal; lia). lia.
Qed.

Lemma store_failure_state c f s t w : state c f s t w → state c f (s - 1) t (in_section SecStoreFailure w).2.
Proof.
  intros [Ho [H1 H2 H3 H4]]. split; [done|]. split; simpl; try done. rewrite H3, increment_wrap. f_equal. lia.
Qed.

Lemma record_state c f s t w x statuses : state c f s t w → state (c - 1) (f - b2z (failed x)) s t (in_section (SecRecord x statuses) w).2.
Proof.
  intros [Ho [H1 H2 H3 H4]]. split; [done|]. split; simpl; try done; [rewrite H1, increment_wrap; f_equal; lia|].
  rewrite H2. destruct (failed x); simpl; [rewrite increment_wrap|]; f_equal; lia.
Qed.

Lemma publish_state c f s t w x n : state c f s t w → state c f s t (in_section (SecPublish x n) w).2.
Proof.
  intros Hst. unfold in_section, enter, publish_candidate. destruct (match sh_current (w_shared w) with Some _ => _ | None => _ end); simpl.
  - pose proof (store_failure_state _ _ _ _ _ Hst) as Hs. eapply state_logged in Hs; [|exact (eq_refl : is_closed Refused = false)].
    simpl in Hs. unfold in_section in Hs. simpl in Hs. by replace (s - 1 + 1) with s in Hs by lia; replace (c + 0) with c in Hs by lia; replace (f + 0) with f in Hs by lia; replace (t + 0 - 0) with t in Hs by lia.
  - destruct Hst as [Ho [H1 H2 H3 H4]]. unfold state, open in *. split; [simpl; rewrite tally_app, tally_one; simpl; lia|].
    split; simpl; rewrite ?tally_app, ?tally_one, ?H1, ?H2, ?H3; simpl; try (f_equal; lia). lia.
Qed.

Definition here (c f s t : Z) (w : world) : Prop := w_started w = true ∧ state c f s t w.

Lemma here_eq c f s t c' f' s' t' w : here c f s t w → c = c' → f = f' → s = s' → t = t' → here c' f' s' t' w.
Proof. by intros H -> -> -> ->. Qed.

Lemma call_here {R A} (e : SCall A) (k : A → prog SCall R) Q c f s t w : world_ok w → here c f s t w →
  (∀ u, state c f s t u → legal A e u) →
  (∀ a u u', here c f s t u → act A e u a u' → world_ok u' → w_started u' = true → wpt quiet (k a) Q u') → wpt quiet (Call e k) Q w.
Proof.
  intros Hok [Hs Hst] Hl Hk. eapply (wpt_call e k Q (state c f s t)); [intros u; by apply quiet_state|done|done|auto|].
  intros a u u' _ Hsu Hu Hx. by apply (Hk a u).
Qed.

(** A call of the loop that is only noted. *)
Lemma noted_here {R A} (e : SCall A) (k : A → prog SCall R) Q (n : A → event) c f s t w : world_ok w → here c f s t w →
  (∀ u, state c f s t u → legal A e u) → (∀ a u u', act A e u a u' → u' = logged u (n a)) → (∀ a, is_closed (n a) = false) →
  (∀ a u', world_ok u' → n a ∈ w_log u' → here (c + b2z (is_collected (n a))) (f + b2z (is_failed (n a))) (s + b2z (is_store_failure (n a)))
     (t + b2z (is_collected (n a)) - b2z (is_woken (n a))) u' → wpt quiet (k a) Q u') → wpt quiet (Call e k) Q w.
Proof.
  intros Hok Hh Hl Hn Hc Hk. eapply call_here; [done|done|done|]. intros a u u' [_ Hst] Hx Hok' Hs'. apply Hn in Hx as ->.
  apply Hk; [done|simpl; set_solver|]. split; [done|]. by apply state_logged.
Qed.

Lemma store_failure_wpt {R} (k : unit → prog SCall R) Q c f s t w : world_ok w → here c f s t w →
  (∀ u, world_ok u → here c f (s - 1) t u → wpt quiet (k tt) Q u) → wpt quiet (Call (CSection SecStoreFailure) k) Q w.
Proof.
  intros Hok Hh Hk. eapply call_here; [done|done|done|]. intros [] u u' [_ Hst] Hx Hok' Hs'. apply Hk; [done|]. split; [done|].
  simpl in Hx. apply (store_failure_state _ _ _ _ u) in Hst. by rewrite <- Hx in Hst.
Qed.

Lemma count_failure_wpt ok t w : world_ok w → here 0 0 (b2z (negb ok)) t w → wpt quiet (count_failure ok) (λ _, here 0 0 0 t) w.
Proof.
  intros Hok Hh. unfold count_failure. destruct ok; [by apply wpt_ret|]. eapply store_failure_wpt; [done|done|]. intros u Hu Hh'. by apply wpt_ret.
Qed.

Lemma maintaining_wpt {R} (k : bool → prog SCall R) Q t w : world_ok w → here 0 0 0 t w →
  (∀ ok u, world_ok u → here 0 0 (b2z (negb ok)) t u → wpt quiet (k ok) Q u) → wpt quiet (now <~ CNow; ok <~ CMaintain now; k ok) Q w.
Proof.
  intros Hok Hh Hk. eapply call_here; [done|exact Hh|done|]. intros now u u' Hu -> Hok' _.
  eapply (noted_here _ _ _ (λ ok, Maintained ok)); [done|exact Hu|by intros ? []|done|done|]. intros ok v Hv _ Hh'. apply Hk; [done|].
  eapply here_eq; [exact Hh'|..]; destruct ok; simpl; lia.
Qed.

Lemma maintain_wpt t w : world_ok w → here 0 0 0 t w → wpt quiet maintain (λ _, here 0 0 0 t) w.
Proof. intros Hok Hh. apply maintaining_wpt with t; [done|done|]. intros ok u Hu Hh'. by apply count_failure_wpt. Qed.

(** What is known between recording a candidate and publishing it. *)
Definition pending (raw : Snapshot) (t : Z) (w : world) : Prop :=
  state 0 0 0 t w ∧ (failed (project raw) = true → sh_current (w_shared w) = None) ∧ Collected raw ∈ w_log w.

Lemma mine_in e l : foreign e = false → e ∈ mine l ↔ e ∈ l.
Proof. intros He. unfold mine. rewrite !list_elem_of_In, List.filter_In, He. naive_solver. Qed.
Lemma quiet_in e w u : quiet w u → foreign e = false → e ∈ w_log w → e ∈ w_log u.
Proof. intros Hq He Hin. apply (mine_in e); [done|]. rewrite (qu_mine _ _ Hq). by apply mine_in. Qed.

Lemma quiet_pending raw t w u : pending raw t w → quiet w u → pending raw t u.
Proof. intros (Hs & Hf & Hc) Hq. split; [by eapply quiet_state|]. rewrite (qu_current _ _ Hq). split; [done|by eapply quiet_in]. Qed.

Lemma record_wpt {R} (k : bool → prog SCall R) Q raw statuses t w : world_ok w → here 1 (b2z (failed (project raw))) 0 t w → Collected raw ∈ w_log w →
  (∀ u, world_ok u → here 0 0 0 t u → wpt quiet (k true) Q u) →
  (∀ u, world_ok u → w_started u = true → pending raw t u → wpt quiet (k false) Q u) →
  wpt quiet (Call (CSection (SecRecord (project raw) statuses)) k) Q w.
Proof.
  intros Hok [Hs Hst] Hc Hk Hp. eapply (wpt_call _ k Q (λ u, state 1 (b2z (failed (project raw))) 0 t u ∧ Collected raw ∈ w_log u)); [|done|done|done|].
  { intros u Hu. split; [by eapply quiet_state|by eapply quiet_in]. }
  intros a u u' _ _ [Hu Hcu] Hx Hok' Hs'. apply (record_state _ _ _ _ u (project raw) statuses) in Hu. simpl in Hx. rewrite <- Hx in Hu. simpl in Hu.
  replace (1 - 1) with 0 in Hu by lia. replace (b2z (failed (project raw)) - b2z (failed (project raw))) with 0 in Hu by lia.
  unfold in_section in Hx. simpl in Hx. injection Hx as Ha ->. destruct a; [by apply Hk|]. apply Hp; [done|done|]. split; [done|]. split; [|done].
  intros Hf. rewrite Hf in Ha. simpl in *. unfold hasCurrent in Ha. by destruct (sh_current (w_shared u)).
Qed.

(** A candidate that failed is published only if there is none. *)
Lemma publish_wpt {R} (k : bool → prog SCall R) Q raw n t w : world_ok w → w_started w = true → pending raw t w → Sequenced (Some n) ∈ w_log w →
  (∀ ok u, world_ok u → here 0 0 0 t u → wpt quiet (k ok) Q u) → wpt quiet (Call (CSection (SecPublish (project raw) n)) k) Q w.
Proof.
  intros Hok Hs Hp Hn Hk. eapply (wpt_call _ k Q (λ u, pending raw t u ∧ Sequenced (Some n) ∈ w_log u)); [|done|done| |].
  - intros u Hu. split; [by eapply quiet_pending|by eapply quiet_in].
  - intros u _ _ [(_ & Hf & Hc) Hn']. split; [done|by exists raw].
  - intros a u u' _ _ [[Hu _] _] Hx Hok' Hs'. apply Hk; [done|]. split; [done|]. apply (publish_state _ _ _ _ u (project raw) n) in Hu. simpl in Hx. by rewrite <- Hx in Hu.
Qed.

Lemma collectOnce_wpt previous w : world_ok w → here 0 0 0 0 w → wpt quiet (collectOnce config previous) (λ _, here 0 0 0 1) w.
Proof.
  intros Hok Hh. unfold collectOnce.
  eapply (noted_here _ _ _ (λ raw, Collected raw)); [done|exact Hh|by intros ? []|done|done|]. intros raw u Hu Hcu Hh'.
  apply record_wpt with 1; [done|eapply here_eq; [exact Hh'|done..]|done| |].
  - intros v Hv Hv'. apply wpt_bind. eapply wpt_mono; [|by apply maintain_wpt with (t := 1)]. intros [] ? ? ?. by apply wpt_ret.
  - intros v Hv Hsv Hpv. eapply (wpt_call _ _ _ (pending raw 1)); [intros ?; by apply quiet_pending|done|done|by intros ? _ _ [[] _]|].
    intros n y y' Hy _ (Hst & Hf & Hc) Hx Hy' Hsy'. simpl in Hx. subst y'. apply (state_logged _ _ _ _ y (Sequenced n)) in Hst; [|done]. destruct n as [n|].
    + apply publish_wpt with 1; [done|done|split; [done|]; simpl; set_solver|simpl; set_solver|]. intros [] z Hz Hhz; [|by apply wpt_ret].
      eapply (noted_here _ _ _ (λ ok, Written ok)); [done|exact Hhz|by intros ? []|done|done|]. intros written z1 Hz1 _ Hhz1. apply wpt_bind.
      eapply wpt_mono; [|apply count_failure_wpt with (t := 1); [done|eapply here_eq; [exact Hhz1|..]; destruct written; simpl; lia]].
      intros [] z2 Hz2 Hhz2. apply (maintaining_wpt (λ ok, bind (count_failure ok) _)) with 1; [done|done|]. intros ok z3 Hz3 Hhz3. apply wpt_bind.
      eapply wpt_mono; [|by apply count_failure_wpt]. intros [] z4 Hz4 Hhz4. by apply wpt_ret.
    + eapply (store_failure_wpt _ _ 0 0 1 1); [done|done|]. intros z Hz Hhz. apply wpt_bind. eapply wpt_mono; [|by apply maintain_wpt with (t := 1)].
      intros [] ? ? ?. by apply wpt_ret.
Qed.

Lemma state_trigger c f s t w b : state c f s t w → state c f s t (with_trigger w b).
Proof. intros [Ho [H1 H2 H3 H4]]. by split; [|split]. Qed.

Lemma turns_wpt rounds previous w : world_ok w → here 0 0 0 1 w → wpt quiet (turns config rounds previous) (λ _, here 0 0 0 1) w.
Proof.
  revert previous w. induction rounds as [|rounds IH]; intros previous w Hok Hh; [by apply wpt_ret|]. cbn [turns].
  eapply call_here; [done|exact Hh|done|]. intros s u u' [_ Hst] Hx Hok' Hs'. destruct s; simpl in Hx.
  - apply wpt_ret; [done|]. split; [done|]. destruct Hx as [_ ->]. apply (state_logged _ _ _ _ u (Woken SigDone)) in Hst; [|done]. done.
  - apply wpt_bind. eapply wpt_mono; [|apply collectOnce_wpt; [done|]]; [intros p v Hv Hhv; by apply IH|]. split; [done|]. subst u'.
    apply (state_logged _ _ _ _ u (Woken SigTick)) in Hst; [|done]. done.
  - apply wpt_bind. eapply wpt_mono; [|apply collectOnce_wpt; [done|]]; [intros p v Hv Hhv; by apply IH|]. split; [done|]. destruct Hx as [_ ->].
    apply (state_trigger _ _ _ _ _ false) in Hst. apply (state_logged _ _ _ _ _ (Woken SigTrigger)) in Hst; [|done]. done.
Qed.

Lemma start_here w : world_ok w → w_started w = false → here 0 0 0 0 (with_started w).
Proof.
  intros Hok Hs. destruct (ok_before w Hok Hs) as [Hm Hl]. split; [done|]. unfold loop_stats in Hl. injection Hl as E1 E2 E3 _ _.
  assert (∀ p, (∀ e, foreign e = true → p e = false) → tally p (w_log w) = 0) as Ht by (intros p Hp; by rewrite <- tally_mine, Hm).
  split; [unfold open; simpl; apply Ht; by intros []|]. split; simpl; rewrite ?E1, ?E2, ?E3, !Ht; try done; by intros [].
Qed.

Lemma ended_wpt w : world_ok w → here 0 0 0 1 w →
  wpt quiet (_ <~ CStopTicker; _ <~ CCloseStore; _ <~ CCloseDone; Ret tt) (λ _ _, True) w.
Proof.
  intros Hok Hh. eapply call_here; [done|exact Hh|done|]. intros [] u u' [_ [Ho _]] Hx Hok' Hs'. simpl in Hx. subst u'.
  eapply (wpt_call _ _ _ (λ u, open u ∧ 1 ≤ tally is_ticker_stopped (w_log u))); [|done|done|done|].
  - intros v Hv. split; [eapply quiet_open; [done|]; unfold open in *; simpl; rewrite tally_app, tally_one; simpl; lia|].
    rewrite (quiet_tally _ _ _ Hv) by (by intros []). simpl. rewrite tally_app, tally_one. simpl. pose proof (tally_nonneg is_ticker_stopped (w_log u)). lia.
  - intros [] v v' _ _ _ [err ->] Hok1 Hs1. eapply (wpt_call _ _ _ (λ u, 1 ≤ tally is_closed (w_log u))); [|done|done|done|].
    + intros z Hz. rewrite (quiet_tally _ _ _ Hz) by (by intros []). simpl. rewrite tally_app, tally_one. simpl. pose proof (tally_nonneg is_closed (w_log v)). lia.
    + intros [] z z' _ _ _ _ Hz' _. by apply wpt_ret.
Qed.

Lemma loop_wpt rounds w : world_ok w → here 0 0 0 0 w → wpt quiet (loop config rounds) (λ _ _, True) w.
Proof.
  intros Hok Hh. unfold loop. eapply call_here; [done|exact Hh|done|]. intros [] u u' Hu -> Hok' _. apply wpt_bind.
  eapply wpt_mono; [|by apply collectOnce_wpt]. intros previous v Hv Hhv. apply wpt_bind. eapply wpt_mono; [|by apply turns_wpt].
  intros ended y Hy Hhy. destruct ended; [by apply ended_wpt|by apply wpt_ret].
Qed.

(** ** The other operations *)

(** [Stop] that ended because the loop did gives what closing the store gave. *)
Definition outcome_ok (o : outcome) (w : world) : Prop :=
  match o with Stopped err => ClosedStore err ∈ w_log w | _ => True end.

Lemma outcome_stable o w u : grows w u → outcome_ok o w → outcome_ok o u.
Proof. intros Hg. destruct o; try done. simpl. destruct (gr_log _ _ Hg) as [l ->]. set_solver. Qed.

Lemma done_closed w : world_ok w → w_done w = true → ClosedStore (w_closeErr w) ∈ w_log w.
Proof.
  intros Hok Hd. pose proof (ok_done w Hok Hd) as Hc. assert (∃ err, ClosedStore err ∈ w_log w) as [err Hin].
  { clear -Hc. induction (w_log w) as [|e l IH]; [done|]. destruct (is_closed e) eqn:E.
    - destruct e; try done. exists err. set_solver.
    - destruct IH as [err Hin]; [|exists err; set_solver]. change (e :: l) with ([e] ++ l)%list in Hc. by rewrite tally_app, tally_one, E in Hc. }
  by rewrite (ok_closeErr w Hok err Hin).
Qed.

Lemma foreign_wpt {R A} (e : SCall A) (k : A → prog SCall R) Q w : world_ok w → foreign_call A e → (∀ u, grows w u → legal A e u) →
  (∀ a u u', grows w u → act A e u a u' → world_ok u' → wpt grows (k a) Q u') → wpt grows (Call e k) Q w.
Proof.
  intros Hok Hf Hl Hk. split; [done|]. intros u Hu. split; [by apply Hl|]. intros a u' Hx. eapply Hk; [exact Hu|done|].
  eapply call_ok; [by eapply gr_ok|by apply Hl|done|done].
Qed.

Lemma Stop_wpt w : world_ok w → wpt grows Stop outcome_ok w.
Proof.
  intros Hok. unfold Stop. apply foreign_wpt; [done|done|done|]. intros started u u' _ _ Hu. destruct started; [|by apply wpt_ret].
  apply foreign_wpt; [done|done|done|]. intros [] v v' _ _ Hv. apply foreign_wpt; [done|done|done|]. intros done y y' _ [-> Hd] Hy.
  destruct done; [|by apply wpt_ret]. specialize (Hd eq_refl). apply foreign_wpt; [done|done|by intros z Hz; apply (gr_done _ _ Hz)|].
  intros err z z' Hz [-> ->] Hz'. apply wpt_ret; [done|]. apply done_closed; [done|]. by apply (gr_done _ _ Hz).
Qed.

Lemma operation_wpt o w : world_ok w → wpt grows (operation_prog o) outcome_ok w.
Proof.
  intros Hok. destruct o; [|by apply Stop_wpt|..]; (apply foreign_wpt; [done|done|done|]); intros a u u' _ _ Hu; try by apply wpt_ret.
  destruct a; [by apply wpt_ret|]. apply foreign_wpt; [done|done|done|]. intros [] v v' _ _ Hv. by apply wpt_ret.
Qed.

Lemma operation_foreign o : only foreign_call (operation_prog o).
Proof. destruct o; unfold operation_prog, Start, Stop, Trigger, Current, GetStats, StoreHealth, MetricStatuses; walk_only ltac:(exact I). Qed.
End safety.

Section system.
Context `{P : Projections}.
Variable config : Config.

Record system_ok (s : system) : Prop := {
  sy_ok : world_ok (sy_world s);
  sy_loop_ok : ∀ p, sy_loop s = Some p → wpt quiet p (λ _ _, True) (sy_world s) ∧ w_started (sy_world s) = true;
  sy_threads_ok : ∀ t p, sy_threads s !! t = Some p → wpt grows p outcome_ok (sy_world s) ∧ only foreign_call p }.

Lemma loop_rely (p : prog SCall unit) w u : quiet w u → wpt quiet p (λ _ _, True) w → wpt quiet p (λ _ _, True) u.
Proof.
  intros Hu. pose proof (qu_ok _ _ Hu) as Hok. destruct p as [r|A e k]; intros [_ H]; [by split|]. split; [done|]. intros v Hv. apply H. by eapply quiet_trans.
Qed.

Lemma thread_rely (p : prog SCall outcome) w u : grows w u → wpt grows p outcome_ok w → wpt grows p outcome_ok u.
Proof.
  intros Hu. pose proof (gr_ok _ _ Hu) as Hok. destruct p as [r|A e k]; intros [_ H]; [split; [done|by eapply outcome_stable]|].
  split; [done|]. intros v Hv. apply H. by eapply grown_trans.
Qed.

(** The world goes on, the loop and the other threads with it. *)
Lemma threads_grow w u (ts : gmap nat (prog SCall outcome)) : grows w u → (∀ t p, ts !! t = Some p → wpt grows p outcome_ok w ∧ only foreign_call p) →
  ∀ t p, ts !! t = Some p → wpt grows p outcome_ok u ∧ only foreign_call p.
Proof. intros Hg Ht t p Hp. destruct (Ht t p Hp). split; [by eapply thread_rely|done]. Qed.

Lemma parent_grows w : world_ok w → grows w (with_cancelled w) ∧ quiet w (with_cancelled w).
Proof.
  intros Hok. assert (world_ok (with_cancelled w)) by (by apply (ok_same w)). split; split; try done. exists []. by rewrite app_nil_r.
Qed.

Lemma sstep_ok s s' : sstep config s s' → system_ok s → system_ok s'.
Proof.
  intros Hs [Hw Hl Ht]. destruct Hs as [o t w l ts Hn|A e k a w w' ts Hx|t A e k a rounds w w' l ts Hp Hx|w l ts]; simpl in *.
  - split; simpl; [done|done|]. intros t' p. destruct (decide (t' = t)) as [->|Hne]; [rewrite lookup_insert_eq; intros [= <-]|rewrite lookup_insert_ne by done; apply Ht].
    split; [by apply operation_wpt|apply operation_foreign].
  - destruct (Hl _ eq_refl) as [[_ Hk] Hst]. destruct (Hk w (still_refl w Hw)) as [Hleg Hk'].
    assert (world_ok w') as Hw' by (by eapply call_ok). pose proof (step_grows A e w a w' Hw' Hx) as Hg. split; simpl; [done| |by eapply threads_grow].
    intros p [= <-]. split; [by apply Hk'|by apply (gr_started _ _ Hg)].
  - destruct (Ht _ _ Hp) as [[_ Hk] [Hf Ho]]. destruct (Hk w (grown_refl w Hw)) as [Hleg Hk'].
    assert (world_ok w') as Hw' by (by eapply call_ok). pose proof (step_grows A e w a w' Hw' Hx) as Hg. pose proof (step_quiet A e w a w' Hf Hw' Hx) as Hq.
    split; simpl; [done| |].
    + intros p Hloop. assert (l = Some p ∨ ∃ rounds, p = loop config rounds ∧ w_started w = false ∧ w' = with_started w) as [->|(r & -> & Hs & ->)].
      { destruct e; simpl in Hloop; auto. destruct a; auto. injection Hloop as <-. destruct Hx as [Hb ->]. right. exists rounds. by destruct (w_started w). }
      * destruct (Hl p eq_refl). split; [by eapply loop_rely|by apply (gr_started _ _ Hg)].
      * split; [|done]. apply loop_wpt; [done|by apply start_here].
    + intros t' p. destruct (decide (t' = t)) as [->|Hne]; [rewrite lookup_insert_eq; intros [= <-]|rewrite lookup_insert_ne by done].
      * split; [by apply Hk'|done].
      * by eapply threads_grow.
  - destruct (parent_grows w Hw) as [Hg Hq]. split; simpl; [apply Hg| |by eapply threads_grow].
    intros p Hp. destruct (Hl p Hp). split; [by eapply loop_rely|done].
Qed.

Lemma world0_ok : world_ok world0.
Proof.
  split; simpl; try done.
  - intros c Hc. by apply not_elem_of_nil in Hc.
  - intros l1 c l2 E. symmetry in E. by apply app_nil in E as [_ ?].
  - intros l1 c l2 E. symmetry in E. by apply app_nil in E as [_ ?].
  - intros err Hc. by apply not_elem_of_nil in Hc.
Qed.

Lemma reachable_ok s : rtc (sstep config) system0 s → system_ok s.
Proof.
  intros Hr. assert (system_ok system0) as H0 by (split; simpl; [apply world0_ok|done|intros t p; by rewrite lookup_empty]).
  induction Hr as [|x y z Hxy _ IH]; [done|]. apply IH. by eapply sstep_ok.
Qed.

(** ** Snapshots *)

(** What a later reader gets, against an earlier one. *)
Definition not_older (earlier later : option CurrentSnapshot) : Prop :=
  match earlier, later with
  | None, _ => True
  | Some a, Some b => cs_Sequence a ≤ cs_Sequence b ∧ (failed b = true → b = a)
  | Some _, None => False
  end.

Lemma last_not_older l1 l2 : ordered (l1 ++ l2) → not_older (last l1) (last (l1 ++ l2)).
Proof.
  intros [Ho Hf]. destruct (last l1) as [a|] eqn:Ea; [|done]. destruct l2 as [|b l2 _] using rev_ind.
  - rewrite app_nil_r, Ea. split; [lia|done].
  - rewrite app_assoc, last_snoc. rewrite last_lookup in Ea. assert (pred (length l1) < length (l1 ++ l2))%nat as Hlt.
    { rewrite length_app. apply lookup_lt_Some in Ea. lia. }
    assert ((l1 ++ l2 ++ [b])%list !! length (l1 ++ l2) = Some b) as Hb by (rewrite app_assoc; by apply list_lookup_middle).
    assert ((l1 ++ l2 ++ [b])%list !! pred (length l1) = Some a) as Ha by (by apply lookup_app_l_Some).
    split; [pose proof (Ho _ _ a b Hlt Ha Hb); lia|]. intros Hfb. destruct (length (l1 ++ l2)) as [|m] eqn:E; [lia|].
    by rewrite (Hf _ _ Hb) in Hfb.
Qed.

(** C26: what readers of the current snapshot get, under any interleaving with the loop, with other readers and with
    stopping: the snapshot published last, which is a projection of something collected under a sequence the store
    gave; sequences of published snapshots go up strictly and none but the first is of a failed collection; so a later
    reader never gets an older snapshot than an earlier one, never none after some, and never a failed one in place of
    a good one. *)
Theorem current_never_goes_back s : rtc (sstep config) system0 s →
  let l := w_log (sy_world s) in
  ordered (published l) ∧ (∀ c, c ∈ published l → sourced l c)
  ∧ (∀ l1 c l2, l = (l1 ++ ReadCurrent c :: l2)%list → c = last (published l1))
  ∧ ∀ l1 c l2 c' l3, l = (l1 ++ ReadCurrent c :: l2 ++ ReadCurrent c' :: l3)%list → not_older c c'.
Proof.
  intros [Hok _ _]%reachable_ok l. split_and!; [apply Hok|apply Hok|apply Hok|]. intros l1 c l2 c' l3 E.
  pose proof (ok_reads _ Hok) as Hr. fold l in Hr. rewrite (Hr _ _ _ E).
  assert (l = ((l1 ++ ReadCurrent c :: l2) ++ ReadCurrent c' :: l3)%list) as E' by (by rewrite <- app_assoc).
  rewrite (Hr _ _ _ E'), published_app. apply last_not_older. pose proof (ok_ordered _ Hok) as [Ho Hf]. fold l in Ho, Hf.
  rewrite E', published_app in Ho, Hf. rewrite published_app in Ho, Hf. split.
  - intros i j a b Hij Ha Hb. apply (Ho i j a b Hij); by apply lookup_app_l_Some.
  - intros i a Ha. apply (Hf i a). by apply lookup_app_l_Some.
Qed.

(** ** Accounts and closing *)

(** C27: the scheduler accounts for what it did and closes its store once.  Under any interleaving, after the store
    was closed nothing but its health is asked of it, it is closed at most once and after the ticker was stopped, and a [Stop] that saw
    the loop end returns exactly what closing gave.  Every trigger that was accepted was taken by a collection of its
    own or is still the pending one, and dropped ones are counted.  Whenever the loop waits, the statistics are the
    numbers of collections, failed collections and failed store calls, modulo 2^64, and there was one collection at
    the start and one for each tick and each trigger taken. *)
Theorem scheduler_accounts s : rtc (sstep config) system0 s →
  let w := sy_world s in let l := w_log w in let stats := sh_stats (w_shared w) in
  (∀ l1 err l2, l = (l1 ++ ClosedStore err :: l2)%list → Forall (λ e, is_store e = false) l2 ∧ 1 ≤ tally is_ticker_stopped l1)
  ∧ (∀ t err, sy_threads s !! t = Some (Ret (Stopped err)) → ClosedStore err ∈ l)
  ∧ tally is_sent l = tally is_taken l + (if w_trigger w then 1 else 0)
  ∧ st_TriggersDropped stats = wrap_u64 (tally is_dropped l)
  ∧ ∀ k, sy_loop s = Some (Call CSelect k) →
      st_Collections stats = wrap_u64 (tally is_collected l) ∧ st_CollectionFailures stats = wrap_u64 (tally is_failed l)
      ∧ st_StoreFailures stats = wrap_u64 (tally is_store_failure l) ∧ tally is_collected l = 1 + tally is_woken l.
Proof.
  intros [Hok Hl Ht]%reachable_ok w l stats. split_and!; [apply Hok| |apply Hok|apply Hok|].
  - intros t err Hs. destruct (Ht _ _ Hs) as [[_ Ho] _]. exact Ho.
  - intros k Hk. destruct (Hl _ Hk) as [[_ H] _]. destruct (H w (still_refl w Hok)) as [[_ [H1 H2 H3 H4]] _]. rewrite !Z.sub_0_r in H1, H2, H3. done.
Qed.
(** ** Schedules *)

(** What the environment answers, where there is a choice. *)
Inductive answer :=
  | AAuto
  | ASnapshot (raw : Snapshot)
  | ASequence (n : option Z)
  | AOk (b : bool)
  | ATime (t : time)
  | ASignal (s : signal)
  | AError (e : close_error)
  | AHealth (h : Health).

Definition answered A (e : SCall A) : answer → world → option (A * world) :=
  match e in SCall A return answer → world → option (A * world) with
  | CCollect _ => λ x w, match x with ASnapshot raw => Some (raw, logged w (Collected raw)) | _ => None end
  | CSection x => λ _ w, Some (in_section x w)
  | CNextSequence _ => λ x w, match x with ASequence n => Some (n, logged w (Sequenced n)) | _ => None end
  | CWriteSamples _ => λ x w, match x with AOk b => Some (b, logged w (Written b)) | _ => None end
  | CNow => λ x w, match x with ATime t => Some (t, w) | _ => None end
  | CMaintain _ => λ x w, match x with AOk b => Some (b, logged w (Maintained b)) | _ => None end
  | CHealth => λ x w, match x with AHealth h => Some (h, logged w (AskedHealth h)) | _ => None end
  | CNewTicker _ => λ _ w, Some (tt, w)
  | CSelect => λ x w,
      match x with
      | ASignal SigDone => if w_cancelled w then Some (SigDone, logged w (Woken SigDone)) else None
      | ASignal SigTick => Some (SigTick, logged w (Woken SigTick))
      | ASignal SigTrigger => if w_trigger w then Some (SigTrigger, logged (with_trigger w false) (Woken SigTrigger)) else None
      | _ => None
      end
  | CStopTicker => λ _ w, Some (tt, logged w TickerStopped)
  | CCloseStore => λ x w, match x with AError err => Some (tt, logged (with_closeErr w err) (ClosedStore err)) | _ => None end
  | CCloseDone => λ _ w, Some (tt, with_done w)
  | CStart => λ _ w, Some (negb (w_started w), with_started w)
  | CStopping => λ _ w, Some (w_started w, w)
  | CCancel => λ _ w, Some (tt, with_cancelled w)
  | CAwait => λ x w, match x with AOk b => if negb b || w_done w then Some (b, w) else None | _ => None end
  | CCloseErr => λ _ w, Some (w_closeErr w, w)
  | CTrySend => λ _ w, Some (negb (w_trigger w), if w_trigger w then w else logged (with_trigger w true) Sent)
  end.

Lemma answered_act A (e : SCall A) x w a w' : answered A e x w = Some (a, w') → act A e w a w'.
Proof. destruct e; simpl; intros H; repeat case_match; simplify_eq; bools; eauto; try congruence; split; try done; intros ->; bools; done. Qed.

(** A schedule: who goes on, and what it is answered. *)
Inductive move := MOperation (t : nat) (o : operation) | MThread (t : nat) (rounds : nat) (x : answer) | MLoop (x : answer) | MParent.

Definition go (m : move) (s : system) : option system :=
  let w := sy_world s in
  match m with
  | MOperation t o => match sy_threads s !! t with None => Some (MkSystem w (sy_loop s) (<[t := operation_prog o]> (sy_threads s))) | Some _ => None end
  | MThread t rounds x =>
      match sy_threads s !! t with
      | Some (Call e k) =>
          match answered _ e x w with
          | Some (a, w') => Some (MkSystem w' (spawned config e rounds a (sy_loop s)) (<[t := k a]> (sy_threads s)))
          | None => None
          end
      | _ => None
      end
  | MLoop x =>
      match sy_loop s with
      | Some (Call e k) => match answered _ e x w with Some (a, w') => Some (MkSystem w' (Some (k a)) (sy_threads s)) | None => None end
      | _ => None
      end
  | MParent => Some (MkSystem (with_cancelled w) (sy_loop s) (sy_threads s))
  end.

Fixpoint play (ms : list move) (s : system) : option system :=
  match ms with [] => Some s | m :: ms => match go m s with Some s => play ms s | None => None end end.

Lemma go_step m s s' : go m s = Some s' → sstep config s s'.
Proof.
  destruct s as [w l ts], m as [t o|t rounds x|x|]; simpl; intros H.
  - destruct (ts !! t) eqn:E; [done|]. injection H as <-. by constructor.
  - destruct (ts !! t) as [[|A e k]|] eqn:E; try done. destruct (answered A e x w) as [[a w']|] eqn:Et; [|done]. injection H as <-.
    econstructor; [done|by eapply answered_act].
  - destruct l as [[|A e k]|]; try done. destruct (answered A e x w) as [[a w']|] eqn:Et; [|done]. injection H as <-. econstructor. by eapply answered_act.
  - injection H as <-. constructor.
Qed.

Lemma play_reaches ms s s' : play ms s = Some s' → rtc (sstep config) s s'.
Proof.
  revert s. induction ms as [|m ms IH]; intros s; simpl; [by intros [= ->]|]. destruct (go m s) as [s1|] eqn:E; [|done]. intros H.
  eapply rtc_l; [by eapply go_step|by apply IH].
Qed.
End system.

(** ** A run *)

(** Snapshots that say only whether the collection failed. *)
Definition plain_documents : Documents := {| Network := unit; RawRest := bool; Content := unit; Statuses := unit; Samples := unit; Health := unit |}.
#[local] Existing Instance plain_documents.
#[local] Instance plain_projections : Projections := {|
  project := λ raw : Snapshot, MkCurrent 0 (if (sn_Rest raw : bool) then "FAILED" else "COMPLETE") (sn_ObservedAt raw) tt;
  MetricStatusesOf := λ _, tt;
  Extract := λ _ _, tt |}.

Definition good : Snapshot := MkSnapshot (At 1000) tt false.
Definition bad : Snapshot := MkSnapshot (At 2000) tt true.

(** Started, a good collection read by another goroutine, a trigger taken by a collection that fails, stopped, and
    asked for the health of its store. *)
Definition current7 : CurrentSnapshot := MkCurrent 7 "COMPLETE" (At 1000) tt.
Definition stopped_system : system :=
  MkSystem
    (MkWorld (MkShared (Some current7) (Some tt) (MkStats 2 1 0 0 "FAILED" (At 2000))) false true true true None
       [Collected good; Sequenced (Some 7); Published current7; Written true; Maintained true; ReadCurrent (Some current7); Sent;
        Woken SigTrigger; Collected bad; Maintained true; ReadCurrent (Some current7); Woken SigDone; TickerStopped; ClosedStore None; AskedHealth tt])
    (Some (Ret tt))
    (<[0%nat := Ret (Started true)]> (<[1%nat := Ret (IsCurrent (Some current7))]> (<[2%nat := Ret (Triggered true)]>
      (<[3%nat := Ret (Stopped None)]> (<[4%nat := Ret (IsCurrent (Some current7))]> (<[5%nat := Ret (IsHealth tt)]> ∅)))))).

Definition schedule : list move :=
  [MOperation 0 OpStart; MThread 0 3 AAuto; MLoop AAuto; MLoop (ASnapshot good); MLoop AAuto; MLoop (ASequence (Some 7)); MLoop AAuto;
   MLoop (AOk true); MLoop (ATime (At 5000)); MLoop (AOk true); MOperation 1 OpCurrent; MThread 1 0 AAuto; MOperation 2 OpTrigger; MThread 2 0 AAuto;
   MLoop (ASignal SigTrigger); MLoop (ASnapshot bad); MLoop AAuto; MLoop (ATime (At 6000)); MLoop (AOk true); MOperation 4 OpCurrent; MThread 4 0 AAuto;
   MOperation 3 OpStop; MThread 3 0 AAuto; MThread 3 0 AAuto; MLoop (ASignal SigDone); MLoop AAuto; MLoop (AError None); MLoop AAuto;
   MThread 3 0 (AOk true); MThread 3 0 AAuto; MOperation 5 OpHealth; MThread 5 0 (AHealth tt)].

Lemma stopped_run : rtc (sstep DefaultConfig) system0 stopped_system.
Proof. apply (play_reaches DefaultConfig schedule). vm_compute. reflexivity. Qed.

(** The loop waits again after the collection that failed. *)
Definition waiting_system : system := default system0 (play DefaultConfig (take 19%nat schedule) system0).

Lemma waiting_run : rtc (sstep DefaultConfig) system0 waiting_system.
Proof. apply (play_reaches DefaultConfig (take 19%nat schedule)). vm_compute. reflexivity. Qed.

Lemma current_never_goes_back_witness :
  rtc (sstep DefaultConfig) system0 stopped_system ∧ not_older (Some current7) (Some current7) ∧ sourced (w_log (sy_world stopped_system)) current7.
Proof.
  split; [exact stopped_run|]. destruct (current_never_goes_back DefaultConfig stopped_system stopped_run) as (_ & Hs & _ & Hr). split.
  - exact (Hr [Collected good; Sequenced (Some 7); Published current7; Written true; Maintained true] (Some current7)
      [Sent; Woken SigTrigger; Collected bad; Maintained true] (Some current7) [Woken SigDone; TickerStopped; ClosedStore None; AskedHealth tt] eq_refl).
  - apply Hs. left.
Defined.

Lemma scheduler_accounts_witness :
  (rtc (sstep DefaultConfig) system0 stopped_system ∧ ClosedStore None ∈ w_log (sy_world stopped_system))
  ∧ rtc (sstep DefaultConfig) system0 waiting_system ∧ (∃ k, sy_loop waiting_system = Some (Call CSelect k))
  ∧ st_Collections (sh_stats (w_shared (sy_world waiting_system))) = 2.
Proof.
  split; [split; [exact stopped_run|]|split; [exact waiting_run|split]].
  - exact (proj1 (proj2 (scheduler_accounts DefaultConfig stopped_system stopped_run)) 3%nat None eq_refl).
  - eexists. vm_compute. reflexivity.
  - destruct (scheduler_accounts DefaultConfig waiting_system waiting_run) as (_ & _ & _ & _ & Hw).
    destruct (Hw _ ltac:(vm_compute; reflexivity)) as (Hc & _). rewrite Hc. vm_compute. reflexivity.
Defined.
