(* ===== verification/Series.v ===== *)
(** * Metric series and their pointwise reference

    [internal/series/series.go]: a request for the series of some metrics over a range
    of time is answered from the samples and rollups the history has.  Values are IEEE
    754 binary64 numbers, computed with the specification of the Standard Library.  The
    buckets that are filled entry by entry, in place, hold at each point what the entries
    of its interval alone give. *)

From Stdlib Require Import SpecFloat.
From S2P Require Import Prelude GoTime.

#[local] Open Scope string_scope.
#[local] Open Scope Z_scope.

(** ** [float64] *)

Notation float64 := spec_float.
Definition fzero : float64 := S754_zero false.
Definition fadd : float64 → float64 → float64 := SFadd 53 1024.
Definition fdiv : float64 → float64 → float64 := SFdiv 53 1024.
(** [float64(n)]. *)
Definition float_of (n : Z) : float64 := binary_normalize 53 1024 n 0 false.

(** [math.Round]: halves away from zero. *)
Definition Round (x : float64) : float64 :=
  match x with
  | S754_finite s m e =>
      if 0 <=? e then x
      else
        let q := (Z.pos m + 2 ^ (- e - 1)) / 2 ^ (- e) in
        if q =? 0 then S754_zero s else binary_normalize 53 1024 (if s then - q else q) 0 s
  | _ => x
  end.

Example rounded :
  map (λ n, Round (fdiv (float_of n) (float_of 4))) [-11; -6; -5; -1; 0; 1; 2; 3; 5; 6; 400000]
  = [float_of (-3); float_of (-2); float_of (-1); S754_zero true; fzero; fzero; float_of 1; float_of 1; float_of 1; float_of 2; float_of 100000].
Proof. vm_compute. reflexivity. Qed.

(** ** Metrics ([internal/history/model.go]) *)

Definition CPUUtilization : string := "cpu.utilization.percent".
Definition MemoryUtilization : string := "memory.utilization.percent".
Definition FilesystemUtilization : string := "filesystem.aggregate.utilization.percent".
Definition NetworkReceiveRate : string := "network.receive.bytes_per_second".
Definition NetworkTransmitRate : string := "network.transmit.bytes_per_second".
Definition ProcessCount : string := "process.count".

Record Sample := MkSample { sm_Metric : string; sm_At : time; sm_Value : float64 }.
Record Rollup := MkRollup {
  ro_Metric : string; ro_BucketStart : time; ro_LastAt : time; ro_ResolutionSeconds : Z; ro_Count : Z;
  ro_Minimum : float64; ro_Maximum : float64; ro_Sum : float64; ro_Last : float64 }.

(** ** Requests and answers *)

Definition SchemaVersion : string := "observer-metric-series/v1".
Definition MaxPointsPerSeries : Z := 2048.
Definition MaxResponseBytes : Z := 1048576.

Inductive series_error := ErrReader | ErrRange | ErrMetricCount | ErrMetricNotAllowed | ErrDuplicate | ErrPointBound | ErrRead (e : string).

(** A reader has the two queries, or one that makes both in one transaction too. *)
Record Reader := MkReader {
  rd_Samples : string → time → time → Z → result string (list Sample);
  rd_Rollups : string → time → time → Z → result string (list Rollup);
  rd_ReadMetric : option (string → time → time → Z → result string (list Sample * list Rollup)) }.

Record Limits := MkLimits { lm_MaxMetrics : Z; lm_MaxPointsPerSeries : Z; lm_MaxResponseBytes : Z }.
Record Privacy := MkPrivacy { pv_DataClassification : string; pv_ContainsProcessID : bool; pv_ContainsLogBodies : bool; pv_RemoteUploadEligible : bool }.
Record Point := MkPoint { pt_At : time; pt_Value : option float64 }.
Record MetricSeries := MkSeries {
  se_MetricID : string; se_Unit : string; se_SupportState : string; se_CollectionState : string; se_Freshness : string;
  se_ReasonCode : option string; se_PointCount : Z; se_GapCount : Z; se_Truncated : bool; se_Points : list Point }.
Record Response := MkResponse {
  re_SchemaVersion : string; re_Range : string; re_GeneratedAt : time; re_WindowStart : time; re_WindowEnd : time;
  re_SampleIntervalSeconds : Z; re_Limits : Limits; re_Privacy : Privacy; re_RequestedMetrics : list string; re_Series : list MetricSeries }.

(** [projection.SectionStatus]. *)
Record SectionStatus := MkStatus {
  ss_SupportState : string; ss_CollectionState : string; ss_Freshness : string; ss_ObservedAt : option time; ss_ReasonCode : option string }.

Record rangeConfig := MkRange { rc_duration : Z; rc_resolution : Z }.

Definition ranges (r : string) : option rangeConfig :=
  if str_eqb r "1h" then Some (MkRange Hour (15 * Second))
  else if str_eqb r "6h" then Some (MkRange (6 * Hour) Minute)
  else if str_eqb r "24h" then Some (MkRange (24 * Hour) (5 * Minute))
  else if str_eqb r "7d" then Some (MkRange (7 * 24 * Hour) (30 * Minute))
  else None.

(** The unit of a metric, for those that have a series. *)
Definition metricMetadata (metric : string) : option string :=
  if str_eqb metric CPUUtilization || str_eqb metric MemoryUtilization || str_eqb metric FilesystemUtilization then Some "percent"
  else if str_eqb metric NetworkReceiveRate || str_eqb metric NetworkTransmitRate then Some "bytes_per_second"
  else if str_eqb metric ProcessCount then Some "count"
  else None.
Definition unit_of (metric : string) : string := default "" (metricMetadata metric).

(** ** One metric *)

Record bucket := MkBucket { bk_count : Z; bk_sum : float64; bk_last : float64; bk_at : time }.
Definition bucket0 : bucket := MkBucket 0 fzero fzero zeroTime.

(** What is added to a bucket: a sample, or a rollup. *)
Record entry := MkEntry { en_at : time; en_lastAt : time; en_count : Z; en_sum : float64; en_last : float64 }.
Definition of_sample (s : Sample) : entry := MkEntry (sm_At s) (sm_At s) 1 (sm_Value s) (sm_Value s).
Definition of_rollup (r : Rollup) : entry := MkEntry (ro_BucketStart r) (ro_LastAt r) (ro_Count r) (ro_Sum r) (ro_Last r).

(** A quotient of durations is cut off towards zero. *)
Definition index_of (from : time) (resolution : Z) (at_ : time) : Z := Z.quot (Sub at_ from) resolution.

Definition update_bucket (e : entry) (b : bucket) : bucket :=
  let later := IsZero (bk_at b) || After (en_lastAt e) (bk_at b) in
  MkBucket (wrap_i64 (bk_count b + en_count e)) (fadd (bk_sum b) (en_sum e)) (if later then en_last e else bk_last b)
    (if later then en_lastAt e else bk_at b).

Definition add (from : time) (resolution : Z) (buckets : list bucket) (e : entry) : list bucket :=
  let index := index_of from resolution (en_at e) in
  if (index <? 0) || (Z.of_nat (length buckets) <=? index) || (en_count e <? 1) then buckets
  else alter (update_bucket e) (Z.to_nat index) buckets.

Definition latest_at (entries : list entry) : time :=
  fold_left (λ latest e, if After (en_lastAt e) latest then en_lastAt e else latest) entries zeroTime.

Definition read_metric (reader : Reader) (metric : string) (from to : time) : result string (list Sample * list Rollup) :=
  match rd_ReadMetric reader with
  | Some read => read metric from to 10000
  | None =>
      match rd_Samples reader metric from to 10000 with
      | Err e => Err e
      | Ok raw => match rd_Rollups reader metric from to 10000 with Err e => Err e | Ok rollups => Ok (raw, rollups) end
      end
  end.

Definition point_value (metric : string) (b : bucket) : option float64 :=
  if bk_count b =? 0 then None
  else Some (if str_eqb metric ProcessCount then Round (bk_last b) else fdiv (bk_sum b) (float_of (bk_count b))).

Definition has_value (p : Point) : bool := match pt_Value p with Some _ => true | None => false end.

Definition buildMetric (reader : Reader) (metric : string) (from to : time) (resolution : Z) : result series_error MetricSeries :=
  match read_metric reader metric from to with
  | Err e => Err (ErrRead e)
  | Ok (raw, rollups) =>
      if (length raw =? 0)%nat && (length rollups =? 0)%nat
      then Ok (MkSeries metric (unit_of metric) "SUPPORTED" "NOT_RUN" "UNKNOWN" (Some "NO_SAMPLES") 0 0 false [])
      else
      let bucketCount := Z.quot (Sub to from) resolution + 1 in
      if MaxPointsPerSeries <? bucketCount then Err ErrPointBound
      else
        let entries := (map of_sample raw ++ map of_rollup rollups)%list in
        let buckets := fold_left (add from resolution) entries (replicate (Z.to_nat bucketCount) bucket0) in
        let points := imap (λ i b, MkPoint (Add from (wrap_i64 (Z.of_nat i * resolution))) (point_value metric b)) buckets in
        let gaps := Z.of_nat (length (List.filter (λ p, negb (has_value p)) points)) in
        let truncated := (length raw =? 10000)%nat || (length rollups =? 10000)%nat in
        let partial := (0 <? gaps) || truncated in
        let stale := 45 * Second <? Sub to (latest_at entries) in
        Ok (MkSeries metric (unit_of metric) "SUPPORTED" (if partial then "PARTIAL" else "OK") (if stale then "STALE" else "CURRENT")
              (if partial then Some "COLLECTION_GAPS" else if stale then Some "LATEST_SAMPLE_STALE" else None)
              (Z.of_nat (length points)) gaps truncated points)
  end.

(** ** The request *)

Fixpoint check_metrics (seen metrics : list string) : option series_error :=
  match metrics with
  | [] => None
  | metric :: metrics =>
      match metricMetadata metric with
      | None => Some ErrMetricNotAllowed
      | Some _ => if existsb (str_eqb metric) seen then Some ErrDuplicate else check_metrics (metric :: seen) metrics
      end
  end.

Definition not_run : SectionStatus := MkStatus "UNAVAILABLE" "NOT_RUN" "UNKNOWN" None (Some "COLLECTOR_NOT_RUN").

(** The status of a metric, if statuses were given. *)
Definition status_of (statuses : option (gmap string SectionStatus)) (metric : string) : option SectionStatus :=
  match statuses with Some m => Some (default not_run (m !! metric)) | None => None end.

Definition with_state (s : MetricSeries) (state : string) (reason : option string) : MetricSeries :=
  MkSeries (se_MetricID s) (se_Unit s) (se_SupportState s) state (se_Freshness s) reason (se_PointCount s) (se_GapCount s) (se_Truncated s) (se_Points s).

(** What one round of the loop over the metrics appends. *)
Definition one_series (reader : Reader) (statuses : option (gmap string SectionStatus)) (from to : time) (resolution : Z) (metric : string)
    : result series_error MetricSeries :=
  let build := buildMetric reader metric from to resolution in
  match status_of statuses metric with
  | None => build
  | Some status =>
      if negb (str_eqb (ss_SupportState status) "SUPPORTED")
      then Ok (MkSeries metric (unit_of metric) (ss_SupportState status) "NOT_RUN" "UNKNOWN" (ss_ReasonCode status) 0 0 false [])
      else match build with
      | Err e => Err e
      | Ok built =>
          Ok (if str_eqb (ss_CollectionState status) "PARTIAL" && (0 <? se_PointCount built)
              then with_state built "PARTIAL" (ss_ReasonCode status) else built)
      end
  end.

Fixpoint all_series (f : string → result series_error MetricSeries) (metrics : list string) : result series_error (list MetricSeries) :=
  match metrics with
  | [] => Ok []
  | metric :: metrics =>
      match f metric with
      | Err e => Err e
      | Ok s => match all_series f metrics with Err e => Err e | Ok l => Ok (s :: l) end
      end
  end.

Definition Build (reader : option Reader) (now : time) (requestedRange : string) (metrics : list string)
    (statuses : option (gmap string SectionStatus)) : result series_error Response :=
  match reader with
  | None => Err ErrReader
  | Some reader =>
      match ranges requestedRange with
      | None => Err ErrRange
      | Some config =>
          if (length metrics <? 1)%nat || (6 <? length metrics)%nat then Err ErrMetricCount
          else match check_metrics [] metrics with
          | Some e => Err e
          | None =>
              let now := UTC now in
              let windowStart := Add (Truncate now (rc_resolution config)) (- rc_duration config) in
              match all_series (one_series reader statuses windowStart now (rc_resolution config)) metrics with
              | Err e => Err e
              | Ok series =>
                  Ok (MkResponse SchemaVersion requestedRange now windowStart now (Z.quot (rc_resolution config) Second)
                        (MkLimits 6 MaxPointsPerSeries MaxResponseBytes) (MkPrivacy "PUBLIC_METADATA" false false false) metrics series)
              end
          end
      end
  end.

(** ** The reference *)

(** The interval of point [i] begins [i] resolutions after the window and ends one
    resolution later; that of the first point has what comes less than one resolution
    before the window too. *)
Definition in_interval (from : time) (resolution i : Z) (at_ : time) : bool :=
  (if i =? 0 then wall from - resolution <? wall at_ else wall from + i * resolution <=? wall at_)
  && (wall at_ <? wall from + (i + 1) * resolution).

(** The entries of the interval [i], in their order. *)
Definition relevant (from : time) (resolution i : Z) (entries : list entry) : list entry :=
  List.filter (λ e, in_interval from resolution i (en_at e) && (1 <=? en_count e)) entries.

(** The first entry with the latest observation. *)
Definition latest_entry (e : entry) (l : list entry) : entry :=
  fold_left (λ best x, if After (en_lastAt x) (en_lastAt best) then x else best) l e.

Definition counted (l : list entry) : Z := fold_right (λ e n, en_count e + n) 0 l.

(** The mean of the entries, or the last number of processes; none without entries. *)
Definition value_at (metric : string) (l : list entry) : option float64 :=
  match l with
  | [] => None
  | e :: l' =>
      Some (if str_eqb metric ProcessCount then Round (en_last (latest_entry e l'))
            else fdiv (fold_left fadd (map en_sum l) fzero) (float_of (counted l)))
  end.

Definition reference_points (metric : string) (config : rangeConfig) (from : time) (entries : list entry) : list Point :=
  map (λ i, MkPoint (Add from (Z.of_nat i * rc_resolution config)) (value_at metric (relevant from (rc_resolution config) (Z.of_nat i) entries)))
    (seq 0 (Z.to_nat (rc_duration config / rc_resolution config + 1))).

(** What a store keeps: times that are not the zero time, and fewer samples than an [int64] counts. *)
Definition entries_ok (l : list entry) : Prop :=
  Forall (λ e, IsZero (en_lastAt e) = false) l ∧ fold_right (λ e n, Z.max 0 (en_count e) + n) 0 l ≤ MaxInt64.

(** ** Buckets *)

Lemma add_length from res bs e : length (add from res bs e) = length bs.
Proof. unfold add. cbv zeta. destruct (_ || _); [done|]. apply length_alter. Qed.

Lemma adds_length from res l bs : length (fold_left (add from res) l bs) = length bs.
Proof. revert bs. induction l as [|e l IH]; intros bs; simpl; [done|]. by rewrite IH, add_length. Qed.

Lemma add_lookup from res bs e i b : bs !! i = Some b →
  add from res bs e !! i = Some (if (index_of from res (en_at e) =? Z.of_nat i) && (1 <=? en_count e) then update_bucket e b else b).
Proof.
  intros Hb. pose proof (lookup_lt_Some _ _ _ Hb) as Hi. unfold add. cbv zeta. set (index := index_of from res (en_at e)).
  destruct ((index <? 0) || (Z.of_nat (length bs) <=? index) || (en_count e <? 1)) eqn:E.
  - destruct ((index =? Z.of_nat i) && (1 <=? en_count e)) eqn:E'; [|done]. exfalso. bools. repeat (apply orb_true_iff in E as [E|E]); bools; lia.
  - bools. destruct (decide (Z.to_nat index = i)) as [<-|Hne].
    + rewrite list_lookup_alter_eq, Hb. simpl. by rewrite (proj2 (Z.eqb_eq index _)), (proj2 (Z.leb_le 1 _)) by lia.
    + rewrite list_lookup_alter_ne by done. rewrite (proj2 (Z.eqb_neq index _)) by lia. done.
Qed.

Lemma quot_interval d res i : 0 < res → 0 ≤ i → (Z.quot d res =? i) = (if i =? 0 then - res <? d else i * res <=? d) && (d <? (i + 1) * res).
Proof.
  intros Hr Hi. pose proof (Z.quot_rem d res ltac:(lia)) as Hd. pose proof (Z.rem_bound_abs d res ltac:(lia)) as Hb. set (q := Z.quot d res) in *.
  assert (0 ≤ d → 0 ≤ Z.rem d res < res ∧ 0 ≤ q) as Hp by (intros H; split; [apply Z.rem_bound_pos; lia|apply Z.quot_pos; lia]).
  assert (d ≤ 0 → - res < Z.rem d res ≤ 0 ∧ q ≤ 0) as Hn.
  { intros H. assert (- res < Z.rem d res ≤ 0) as Hrem.
    { destruct (Z.eq_dec d 0) as [->|]; [rewrite Z.rem_0_l by lia; lia|]. pose proof (Z.rem_sign_mul d res ltac:(lia)). nia. }
    split; [done|]. nia. }
  destruct (Z.eqb_spec q i) as [->|Hne]; symmetry.
  - apply andb_true_iff. destruct (Z.eqb_spec i 0) as [->|Hi0]; split; try apply Z.ltb_lt; try apply Z.leb_le; nia.
  - apply andb_false_iff. destruct (Z.eqb_spec i 0) as [->|Hi0]; rewrite ?Z.ltb_ge, ?Z.leb_gt; destruct (Z_le_gt_dec 0 d); nia.
Qed.

(** The bucket of an entry, for the few and short intervals there are. *)
Lemma index_interval from res i at_ : wallclock from → 0 < res ≤ 1800 * Second → 0 ≤ i ≤ 360 → (index_of from res at_ =? i) = in_interval from res i at_.
Proof.
  intros Hf Hr Hi. unfold index_of, in_interval. rewrite Sub_wall_r by done. rewrite quot_interval by lia. unfold sat64, MinInt64, MaxInt64, Second in *.
  assert ((i + 1) * res ≤ 361 * (1800 * 1000000000)) by nia. assert (i * res ≤ 361 * (1800 * 1000000000)) by nia.
  destruct (i =? 0); apply eq_true_iff_eq; rewrite !andb_true_iff, ?Z.ltb_lt, ?Z.leb_le; lia.
Qed.

(** Each bucket sees the entries of its own interval only. *)
Lemma buckets_pointwise from res l bs i b : wallclock from → 0 < res ≤ 1800 * Second → (i ≤ 360)%nat → bs !! i = Some b →
  fold_left (add from res) l bs !! i = Some (fold_left (λ b e, update_bucket e b) (relevant from res (Z.of_nat i) l) b).
Proof.
  intros Hf Hr Hi. revert bs b. induction l as [|e l IH]; intros bs b Hb; [done|]. cbn [fold_left]. rewrite (IH _ _ (add_lookup from res bs e i b Hb)).
  unfold relevant. cbn [List.filter]. rewrite index_interval by (done || lia). by destruct (_ && _).
Qed.

Lemma counted_nonneg l : Forall (λ e, 1 ≤ en_count e) l → 0 ≤ counted l.
Proof. induction 1 as [|e l He _ IH]; simpl; lia. Qed.

(** A bucket that holds something goes on. *)
Lemma filled_bucket l c s best : Forall (λ e, 1 ≤ en_count e) l → Forall (λ e, IsZero (en_lastAt e) = false) l → IsZero (en_lastAt best) = false →
  1 ≤ c → c + counted l ≤ MaxInt64 →
  fold_left (λ b e, update_bucket e b) l (MkBucket c s (en_last best) (en_lastAt best))
  = MkBucket (c + counted l) (fold_left fadd (map en_sum l) s) (en_last (latest_entry best l)) (en_lastAt (latest_entry best l)).
Proof.
  intros Hc. revert c s best. induction Hc as [|e l He Hc IH]; intros c s best Hz Hb H1 Hm; simpl; [by rewrite Z.add_0_r|].
  inversion_clear Hz as [|? ? He' Hz']. simpl in Hm. pose proof (counted_nonneg l Hc). unfold update_bucket at 2. cbn [bk_count bk_sum bk_last bk_at]. rewrite Hb. cbn [orb].
  rewrite wrap_i64_id by (unfold MinInt64, MaxInt64 in *; lia).
  destruct (After (en_lastAt e) (en_lastAt best)) eqn:E.
  - rewrite IH by (done || lia). unfold latest_entry. f_equal. lia.
  - rewrite IH by (done || lia). unfold latest_entry. f_equal. lia.
Qed.

Lemma bucket_value metric l : Forall (λ e, 1 ≤ en_count e) l → Forall (λ e, IsZero (en_lastAt e) = false) l → counted l ≤ MaxInt64 →
  point_value metric (fold_left (λ b e, update_bucket e b) l bucket0) = value_at metric l.
Proof.
  intros Hc Hz Hm. destruct l as [|e l]; [done|]. inversion_clear Hc as [|? ? He Hc']. inversion_clear Hz as [|? ? He' Hz']. simpl in Hm.
  pose proof (counted_nonneg l Hc'). cbn [fold_left]. unfold update_bucket at 2. cbn [bk_count bk_sum bk_last bk_at bucket0].
  change (IsZero zeroTime) with true. cbn [orb]. rewrite wrap_i64_id by (unfold MinInt64, MaxInt64 in *; lia). rewrite Z.add_0_l.
  rewrite filled_bucket by (done || lia). unfold point_value. cbn [bk_count bk_sum bk_last]. by rewrite (proj2 (Z.eqb_neq _ 0)) by lia.
Qed.

Lemma relevant_ok from res i l : entries_ok l →
  let r := relevant from res i l in Forall (λ e, 1 ≤ en_count e) r ∧ Forall (λ e, IsZero (en_lastAt e) = false) r ∧ counted r ≤ MaxInt64.
Proof.
  intros [Hz Hs] r. subst r. assert (counted (relevant from res i l) ≤ fold_right (λ e n, Z.max 0 (en_count e) + n) 0 l) as Hc.
  { clear. unfold relevant. induction l as [|e l IH]; simpl; [lia|]. destruct (_ && _) eqn:E; simpl; lia. }
  split_and!; [| |lia].
  - clear. unfold relevant. apply Forall_forall. intros e He. apply list_elem_of_In, List.filter_In in He as [_ He]. bools. lia.
  - unfold relevant. rewrite Forall_forall in *. intros e He. apply list_elem_of_In, List.filter_In in He as [He _]. apply Hz. by apply list_elem_of_In.
Qed.

(** ** Windows *)

(** The ranges: a whole number of intervals, few of them. *)
Lemma ranges_ok r config : ranges r = Some config →
  0 < rc_resolution config ∧ rc_duration config = rc_resolution config * (rc_duration config / rc_resolution config)
  ∧ 1 ≤ rc_duration config / rc_resolution config ≤ 360 ∧ rc_resolution config ≤ 1800 * Second.
Proof. unfold ranges. intros H. repeat case_match; simplify_eq; vm_compute; intuition congruence. Qed.

Definition window_start (config : rangeConfig) (now : time) : time := Add (Truncate (UTC now) (rc_resolution config)) (- rc_duration config).

Lemma window_wall r config now : ranges r = Some config →
  window_start config now = At (wall now - wall now mod rc_resolution config - rc_duration config).
Proof. intros (Hr & _)%ranges_ok. unfold window_start, Truncate, UTC, Add, At. simpl. destruct (rc_resolution config <=? 0) eqn:E; [lia|]. f_equal. Qed.

Lemma window_wallclock r config now : ranges r = Some config → wallclock (window_start config now).
Proof. intros Hr. by rewrite (window_wall r config now Hr). Qed.

Lemma bucket_count r config now : ranges r = Some config →
  Z.quot (Sub (UTC now) (window_start config now)) (rc_resolution config) + 1 = rc_duration config / rc_resolution config + 1.
Proof.
  intros Hr. rewrite (window_wall r config now Hr). destruct (ranges_ok r config Hr) as (H1 & H2 & H3 & H4). f_equal. rewrite Sub_wall_l by done. simpl.
  set (q := rc_duration config / rc_resolution config) in *. pose proof (Z.mod_pos_bound (wall now) (rc_resolution config) H1) as Hm.
  replace (wall now - (wall now - wall now mod rc_resolution config - rc_duration config)) with (wall now mod rc_resolution config + rc_duration config) by lia.
  assert (0 ≤ wall now mod rc_resolution config + rc_duration config ≤ 361 * (1800 * Second)) as Hb by (split; [lia|nia]).
  unfold sat64. unfold MinInt64, MaxInt64, Second in *. rewrite Z.min_r, Z.max_r by lia. rewrite Z.quot_div_nonneg by lia. rewrite H2.
  rewrite (Z.mul_comm (rc_resolution config) q), Z.div_add by lia. rewrite Z.div_small by lia. lia.
Qed.

Lemma built_points r config metric from l : ranges r = Some config → wallclock from → entries_ok l →
  imap (λ i b, MkPoint (Add from (wrap_i64 (Z.of_nat i * rc_resolution config))) (point_value metric b))
    (fold_left (add from (rc_resolution config)) l (replicate (Z.to_nat (rc_duration config / rc_resolution config + 1)) bucket0))
  = reference_points metric config from l.
Proof.
  intros Hr Hf Hl. destruct (ranges_ok r config Hr) as (H1 & H2 & H3 & H4). unfold reference_points. set (n := Z.to_nat _). apply list_eq. intros i.
  rewrite list_lookup_imap, list_lookup_fmap. destruct (decide (i < n)%nat) as [Hi|Hi].
  - rewrite (lookup_seq_lt 0 n i Hi), (buckets_pointwise from _ l _ i bucket0) by (done || lia || by apply lookup_replicate_2). simpl. f_equal.
    destruct (relevant_ok from (rc_resolution config) (Z.of_nat i) l Hl) as (Ha & Hb & Hc). rewrite bucket_value by done. f_equal. f_equal.
    apply wrap_i64_id. unfold MinInt64, MaxInt64, Second in *. assert (Z.of_nat i ≤ 361) by lia. nia.
  - rewrite (lookup_ge_None_2 (fold_left _ _ _)), (lookup_ge_None_2 (seq 0 n)); [done| |]; rewrite ?adds_length, ?length_replicate, ?length_seq; lia.
Qed.

Lemma reference_length metric config from l : length (reference_points metric config from l) = Z.to_nat (rc_duration config / rc_resolution config + 1).
Proof. unfold reference_points. by rewrite length_map, length_seq. Qed.

(** Points lie in the window, one interval apart. *)
Lemma reference_times r config now metric l i p : ranges r = Some config → reference_points metric config (window_start config now) l !! i = Some p →
  wall (pt_At p) = wall (window_start config now) + Z.of_nat i * rc_resolution config ∧ wall (pt_At p) ≤ wall now.
Proof.
  intros Hr Hp. destruct (ranges_ok r config Hr) as (H1 & H2 & H3 & H4). unfold reference_points in Hp. rewrite list_lookup_fmap in Hp.
  destruct (seq _ _ !! i) as [j|] eqn:E; [|done]. apply lookup_seq in E as [-> Hi]. injection Hp as <-. rewrite (window_wall r config now Hr). simpl.
  split; [done|]. pose proof (Z.mod_pos_bound (wall now) (rc_resolution config) H1). assert (Z.of_nat i ≤ rc_duration config / rc_resolution config) by lia. nia.
Qed.

(** ** Requests *)

Definition valid_metrics (metrics : list string) : Prop :=
  (1 ≤ length metrics ≤ 6)%nat ∧ NoDup metrics ∧ Forall (λ m, is_Some (metricMetadata m)) metrics.

Lemma check_metrics_ok seen metrics : check_metrics seen metrics = None ↔ NoDup metrics ∧ (∀ m, m ∈ metrics → m ∉ seen) ∧ Forall (λ m, is_Some (metricMetadata m)) metrics.
Proof.
  revert seen. induction metrics as [|m metrics IH]; intros seen; simpl; [split; [intros _; split_and!; try done; [constructor|set_solver]|done]|].
  rewrite NoDup_cons, Forall_cons. destruct (metricMetadata m) eqn:Em; [|split; [done|]; intros (_ & _ & [[? ?] _]); done].
  destruct (existsb (str_eqb m) seen) eqn:Es.
  - split; [done|]. intros (_ & Hn & _). apply existsb_exists in Es as (x & Hx & ->%str_eqb_eq). apply list_elem_of_In in Hx. exfalso. by apply (Hn x); [left|].
  - rewrite IH. assert (m ∉ seen) as Hm.
    { intros Hm. apply not_true_iff_false in Es. apply Es, existsb_exists. exists m. split; [by apply list_elem_of_In|apply str_eqb_refl]. }
    split.
    + intros (H1 & H2 & H3). split_and!; [|done| |by eexists|done]; [intros Hin; apply (H2 m Hin); left|]. intros x [->|Hx]%elem_of_cons; [done|]. intros Hxs. apply (H2 x Hx). by right.
    + intros ((H1 & H2) & H3 & _ & H4). split_and!; [done| |done]. intros x Hx [->|Hxs]%elem_of_cons; [done|]. by apply (H3 x); [right|].
Qed.

Definition supported (statuses : option (gmap string SectionStatus)) (metric : string) : bool :=
  match status_of statuses metric with None => true | Some s => str_eqb (ss_SupportState s) "SUPPORTED" end.

(** What the series of a metric says, given what was read of it. *)
Record describes (config : rangeConfig) (from to : time) (metric : string) (raw : list Sample) (rollups : list Rollup) (s : MetricSeries) : Prop := {
  de_points : se_Points s = match raw, rollups with [], [] => [] | _, _ => reference_points metric config from (map of_sample raw ++ map of_rollup rollups) end;
  de_count : se_PointCount s = Z.of_nat (length (se_Points s)) ∧ se_PointCount s ≤ MaxPointsPerSeries;
  de_gaps : se_GapCount s = Z.of_nat (length (List.filter (λ p, negb (has_value p)) (se_Points s)));
  de_truncated : se_Truncated s = (length raw =? 10000)%nat || (length rollups =? 10000)%nat;
  de_partial : se_CollectionState s = "OK" → se_GapCount s = 0 ∧ se_Truncated s = false;
  de_fresh : 45 * Second < wall to → se_Freshness s = "CURRENT" →
    ∃ e, e ∈ (map of_sample raw ++ map of_rollup rollups)%list ∧ Sub to (en_lastAt e) ≤ 45 * Second }.

Lemma latest_at_from l t : fold_left (λ latest e, if After (en_lastAt e) latest then en_lastAt e else latest) l t = t
  ∨ ∃ e, e ∈ l ∧ fold_left (λ latest e, if After (en_lastAt e) latest then en_lastAt e else latest) l t = en_lastAt e.
Proof.
  revert t. induction l as [|e l IH]; intros t; simpl; [auto|]. destruct (After (en_lastAt e) t).
  - destruct (IH (en_lastAt e)) as [->|(x & Hx & ->)]; right; [exists e|exists x]; set_solver.
  - destruct (IH t) as [->|(x & Hx & ->)]; [auto|]. right. exists x. set_solver.
Qed.

Lemma buildMetric_describes reader metric r config now raw rollups : ranges r = Some config →
  read_metric reader metric (window_start config now) (UTC now) = Ok (raw, rollups) → entries_ok (map of_sample raw ++ map of_rollup rollups) →
  ∃ s, buildMetric reader metric (window_start config now) (UTC now) (rc_resolution config) = Ok s ∧ se_MetricID s = metric ∧ se_SupportState s = "SUPPORTED"
    ∧ describes config (window_start config now) (UTC now) metric raw rollups s.
Proof.
  intros Hr Hread Hok. pose proof (ranges_ok r config Hr) as (H1 & H2 & H3 & H4). unfold buildMetric. rewrite Hread. destruct ((length raw =? 0)%nat && (length rollups =? 0)%nat) eqn:E0.
  - bools. eexists. split_and!; [done|done|done|]. destruct raw, rollups; try done.
  - rewrite (bucket_count r config now Hr). cbv zeta. destruct (MaxPointsPerSeries <? _) eqn:Em; [bools; unfold MaxPointsPerSeries in Em; lia|].
    rewrite (built_points r config metric _ _ Hr (window_wallclock r config now Hr) Hok). eexists. split_and!; [done|done|done|]. split; simpl; try done.
    + by destruct raw, rollups.
    + split; [done|]. rewrite reference_length. unfold MaxPointsPerSeries. lia.
    + destruct (0 <? _) eqn:E1; [done|]. destruct (_ || _); [done|]. intros _. bools. lia.
    + intros Hw. set (entries := (map of_sample raw ++ map of_rollup rollups)%list). destruct (45 * Second <? Sub (UTC now) (latest_at entries)) eqn:E1; [done|]. intros _. bools.
      unfold latest_at in E1. destruct (latest_at_from entries zeroTime) as [->|(e & He & ->)] in E1; [|by exists e].
      rewrite Sub_wall_l in E1 by done. unfold zeroTime, At in E1. simpl in E1, Hw. unfold sat64, MinInt64, MaxInt64, Second in *. lia.
Qed.

Lemma describes_partial config from to metric raw rollups s reason : describes config from to metric raw rollups s → describes config from to metric raw rollups (with_state s "PARTIAL" reason).
Proof. intros [H1 H2 H3 H4 H5 H6]. by split. Qed.

(** What the answer has for one metric. *)
Definition answers (reader : Reader) (statuses : option (gmap string SectionStatus)) (config : rangeConfig) (now : time) (metric : string) (s : MetricSeries) : Prop :=
  se_MetricID s = metric ∧
  if supported statuses metric
  then se_SupportState s = "SUPPORTED" ∧ ∃ raw rollups, read_metric reader metric (window_start config now) (UTC now) = Ok (raw, rollups)
    ∧ describes config (window_start config now) (UTC now) metric raw rollups s
  else se_Points s = [] ∧ se_PointCount s = 0.

Definition readable (reader : Reader) (config : rangeConfig) (now : time) (metric : string) : Prop :=
  ∃ raw rollups, read_metric reader metric (window_start config now) (UTC now) = Ok (raw, rollups) ∧ entries_ok (map of_sample raw ++ map of_rollup rollups).

Lemma one_series_answers reader statuses r config now metric : ranges r = Some config → (supported statuses metric = true → readable reader config now metric) →
  ∃ s, one_series reader statuses (window_start config now) (UTC now) (rc_resolution config) metric = Ok s ∧ answers reader statuses config now metric s.
Proof.
  intros Hr Hread. unfold one_series, answers. unfold supported in *. destruct (status_of statuses metric) as [status|].
  - destruct (str_eqb (ss_SupportState status) "SUPPORTED") eqn:Es; cbn [negb].
    + destruct (Hread eq_refl) as (raw & rollups & Hrd & Hok). destruct (buildMetric_describes reader metric r config now raw rollups Hr Hrd Hok) as (s & -> & Hm & Hs & Hd).
      eexists. split; [done|]. destruct (_ && _); [|eauto 8]. split; [done|]. split; [done|]. exists raw, rollups. split; [done|by apply describes_partial].
    + eexists. split; [done|]. done.
  - destruct (Hread eq_refl) as (raw & rollups & Hrd & Hok). destruct (buildMetric_describes reader metric r config now raw rollups Hr Hrd Hok) as (s & -> & Hm & Hs & Hd). eauto 10.
Qed.

Lemma all_series_answers (f : string → result series_error MetricSeries) (Q : string → MetricSeries → Prop) metrics :
  (∀ m, m ∈ metrics → ∃ s, f m = Ok s ∧ Q m s) → ∃ l, all_series f metrics = Ok l ∧ Forall2 Q metrics l.
Proof.
  induction metrics as [|m metrics IH]; intros Hf; simpl; [by exists []; split; [|constructor]|].
  destruct (Hf m) as (s & -> & Hs); [left|]. destruct IH as (l & -> & Hl); [intros x Hx; apply Hf; by right|]. exists (s :: l). split; [done|by constructor].
Qed.

(** C29: a request for metric series is answered pointwise.  It is refused if there is no reader, the range is
    not one of the four, or the metrics are not one to six different known ones.  Otherwise, when the supported
    metrics can be read, the answer has one series per metric, in order: for a metric that is not supported or of
    which nothing was read, no points; for any other, one point per interval of the range, at most 2048, none after
    now, whose value is the mean of exactly the samples and rollups of that interval (for the number of processes,
    the last one) and absent if there are none, the interval of the first point having what comes less than one
    resolution before the window too; gaps are counted, and only a series without gaps that was not cut off
    is called complete, only one with an entry of the last 45 seconds current. *)
Theorem series_is_pointwise reader now r metrics statuses :
  (reader = None ∨ ranges r = None ∨ ¬ valid_metrics metrics → ∃ e, Build reader now r metrics statuses = Err e)
  ∧ ∀ rd config, reader = Some rd → ranges r = Some config → valid_metrics metrics →
    (∀ m, m ∈ metrics → supported statuses m = true → readable rd config now m) →
    ∃ resp, Build reader now r metrics statuses = Ok resp ∧ re_WindowStart resp = window_start config now ∧ re_WindowEnd resp = UTC now
      ∧ Forall2 (answers rd statuses config now) metrics (re_Series resp)
      ∧ ∀ m l i p, reference_points m config (window_start config now) l !! i = Some p →
          wall (pt_At p) = wall (window_start config now) + Z.of_nat i * rc_resolution config ∧ wall (pt_At p) ≤ wall now.
Proof.
  split.
  - intros H. unfold Build. destruct reader as [rd|]; [|by eexists]. destruct (ranges r) as [config|]; [|by eexists].
    destruct ((length metrics <? 1)%nat || (6 <? length metrics)%nat) eqn:El; [by eexists|]. destruct (check_metrics [] metrics) as [e|] eqn:Ec; [by eexists|].
    destruct H as [H|[H|H]]; [done|done|]. exfalso. apply H. apply check_metrics_ok in Ec as (H1 & _ & H3).
    apply orb_false_iff in El as [E1%Nat.ltb_ge E2%Nat.ltb_ge]. split_and!; [lia|lia|done|done].
  - intros rd config -> Hr (Hl & Hn & Ha) Hread. unfold Build. rewrite Hr.
    assert ((length metrics <? 1)%nat || (6 <? length metrics)%nat = false) as ->.
    { apply orb_false_iff. split; [apply Nat.ltb_ge|apply Nat.ltb_ge]; lia. }
    rewrite (proj2 (check_metrics_ok [] metrics)) by (split_and!; [done|intros m _; apply not_elem_of_nil|done]). cbv zeta. fold (window_start config now).
    destruct (all_series_answers (one_series rd statuses (window_start config now) (UTC now) (rc_resolution config)) (answers rd statuses config now) metrics) as (l & -> & Hl').
    { intros m Hm. apply one_series_answers with r; [done|]. by apply Hread. }
    eexists. split_and!; [done|done|done|done|]. intros m l' i p Hp. by eapply reference_times.
Qed.

(** ** A request *)

(** Noon of a day, and one sample an hour before and one ten seconds before; of the processes one rollup. *)
Definition noon : time := At (63924552000 * Second).
Definition two_samples : list Sample :=
  [MkSample CPUUtilization (At (63924548400 * Second)) (float_of 10); MkSample CPUUtilization (At (63924551990 * Second)) (float_of 30)].
Definition one_rollup : list Rollup :=
  [MkRollup ProcessCount (At (63924548400 * Second)) (At (63924548700 * Second)) 300 2 fzero fzero (float_of 21) (float_of 11)].
Definition day_reader : Reader :=
  MkReader (λ m _ _ _, Ok (if str_eqb m CPUUtilization then two_samples else [])) (λ m _ _ _, Ok (if str_eqb m ProcessCount then one_rollup else [])) None.

Example hour_of_noon :
  match Build (Some day_reader) noon "1h" [CPUUtilization; ProcessCount; MemoryUtilization] None with
  | Ok resp =>
      map (λ s, (se_PointCount s, se_GapCount s, se_CollectionState s, se_Freshness s)) (re_Series resp)
      = [(241, 239, "PARTIAL", "CURRENT"); (241, 240, "PARTIAL", "STALE"); (0, 0, "NOT_RUN", "UNKNOWN")]
      ∧ map (λ s, option_map pt_Value (head (se_Points s))) (re_Series resp) = [Some (Some (float_of 10)); Some (Some (float_of 11)); None]
  | Err _ => False
  end.
Proof. vm_compute. split; reflexivity. Qed.

Lemma series_is_pointwise_witness :
  valid_metrics [CPUUtilization; ProcessCount] ∧ (∃ e, Build (Some day_reader) noon "1y" [CPUUtilization] None = Err e)
  ∧ ∃ resp, Build (Some day_reader) noon "1h" [CPUUtilization; ProcessCount] None = Ok resp
    ∧ Forall2 (answers day_reader None (MkRange Hour (15 * Second)) noon) [CPUUtilization; ProcessCount] (re_Series resp).
Proof.
  assert (valid_metrics [CPUUtilization; ProcessCount]) as Hv.
  { split_and!; [simpl; lia|simpl; lia|apply (bool_decide_unpack _); vm_compute; exact I|]. repeat constructor; by eexists. }
  split; [exact Hv|]. split.
  - apply (series_is_pointwise (Some day_reader) noon "1y" [CPUUtilization] None). right. left. reflexivity.
  - destruct (proj2 (series_is_pointwise (Some day_reader) noon "1h" [CPUUtilization; ProcessCount] None) day_reader (MkRange Hour (15 * Second)) eq_refl eq_refl Hv) as (resp & H1 & _ & _ & H2 & _);
      [|by exists resp].
    intros m Hm _. apply elem_of_cons in Hm as [->|[->|Hm%not_elem_of_nil]%elem_of_cons]; [| |done].
    + exists two_samples, []. split; [reflexivity|]. split; [repeat constructor|vm_compute; congruence].
    + exists [], one_rollup. split; [reflexivity|]. split; [repeat constructor|vm_compute; congruence].
Defined.
